(* ===== verification/_CoqProject ===== *)
-Q . S2P
Prelude.v
GoSlices.v
Bitlist.v
Netip.v
Trie.v
TrieRank.v
TrieBuild.v
TrieCorrect.v
DomainMatcher.v
RoutingInstr.v
RoutingCursor.v
RoutingEval.v
RoutingKernel.v
RoutingEquiv.v
RoutingSem.v
ConfigSyntax.v
GoStrings.v
NetipParse.v
NetipString.v
RoutingRules.v
RoutingBuilder.v
RoutingConfig.v
RoutingConfigCorrect.v
RoutingCompile.v
RoutingEmit.v
RoutingDenote.v
RoutingNodes.v
RoutingPool.v
RoutingKeys.v
RoutingResolve.v
RoutingCompileCorrect.v
RoutingCompiled.v
RoutingState.v
RoutingStateCorrect.v
RoutingLive.v
RoutingKernelLive.v
RoutingOptimizer.v
RoutingOptimizerCorrect.v
DomainProjection.v
DomainProjectionCorrect.v
DomainRegistry.v
DomainRegistryCorrect.v
DomainRegistryObserve.v
DomainRegistrySync.v
DomainRegistryRun.v
DomainRegistryFork.v
DomainRegistryClaims.v
RoutingKnowledge.v
RoutingSource.v
Route.v
DomainRouting.v
RouteCorrect.v
DnsObserver.v
DnsObserverCorrect.v
Sniff.v
SniffCorrect.v
Sniffer.v
SnifferCorrect.v
QuicReassembly.v
QuicReassemblyCorrect.v
SniffQuic.v
SniffQuicCorrect.v
DomainDisk.v
DnsStore.v
DnsStoreCorrect.v
DnsMessage.v
DnsCache.v
DnsCacheCorrect.v
DnsPlugin.v
DnsPluginCorrect.v
Membuffer.v
MembufferCorrect.v
