(* ===== verification/Prelude.v ===== *)
(** * Verification of the traffic-splitting core of dae

    dae is a transparent proxy: an eBPF program decides for every packet which
    outbound it takes, a userspace daemon compiles the configuration into that
    program, repeats and refines the decision when a name is known, and keeps the
    kernel maps current. This library models that core as Rocq functions, translated
    from the Go and C sources under src/, and proves that it decides as the
    configuration means.

    ** Conventions

    [res] is the result of a Go call: [Ok], [Err] for a returned error (its text
    without the formatted values), [Panic] for a run-time panic, also used where a
    loop would outrun its fuel; a theorem whose result is [Ok] therefore says that the
    code returns. Machine integers are [Z] with [wrap] where a width matters. Maps are
    [gmap], slices are lists, byte strings are lists of integers. State is passed
    explicitly. Code that is not in the repository (the keyword automaton, [regexp],
    SHA-256, HKDF and AES, cryptobyte, the DNS library, the
    kernel map helpers, data files) is a parameter of the definitions
    that use it, with the behaviour relied on as named hypotheses.

    ** Sets of strings and addresses

    - [Bitlist] (pkg/trie/internal/bitlist): packed arrays of small integers refine
      arrays of integers.
    - [Netip], [NetipParse], [NetipString], [GoStrings], [GoSlices]: the parts of
      net/netip, strconv, strings, slices and of map iteration the sources use; printed
      addresses parse back.
    - [Trie] (pkg/trie/trie.go), with [TrieRank], [TrieBuild] and [TrieCorrect]: the
      succinct trie answers prefix queries, for strings and for CIDRs. Fuel of the
      loops: one unit per node of the prefix tree or per character, proved enough.
    - [DomainMatcher] (component/routing/domain_matcher): the bitmap of a name has bit
      [i] exactly when a pattern of rule [i] matches.

    ** Routing programs

    - [RoutingInstr], [RoutingCursor] (control/routing_instruction.go,
      routing_cursor.go, routing_program.go): instructions, spans, cursors; a cursor
      walks the concatenation of its spans.
    - [RoutingEval] (control/routing_matcher_userspace.go, routing_predicate.go) and
      [RoutingKernel] (control/kern/routing.h): the two interpreters. [RoutingEquiv]:
      on the same maps they take the same decision. Fuel: one unit per instruction,
      since every step moves forward.
    - [RoutingSem]: the structured three-valued meaning of a program, and that the
      evaluator computes it.

    ** From the configuration to programs

    - [ConfigSyntax] (pkg/config_parser): syntax trees, printing, quoting; quoting
      round trips.
    - [RoutingConfig] (config/routing_parser.go, routing_actions.go, rules.go) and
      [RoutingConfigCorrect]: validation terminates and accepts only distinct names,
      declared policies and sets, and well-founded, family-consistent references.
    - [RoutingOptimizer] (component/routing/optimizer.go, control/routing_prepare.go)
      and [RoutingOptimizerCorrect]: preparation changes no decision.
    - [RoutingRules] (component/routing), [RoutingBuilder]
      (control/routing_matcher_builder.go), [RoutingCompile]
      (control/routing_profile_compiler.go and the files beside it): the compiler.
    - [RoutingEmit], [RoutingDenote], [RoutingNodes], [RoutingPool], [RoutingKeys],
      [RoutingResolve], [RoutingCompileCorrect], [RoutingCompiled]: every compiled
      profile evaluates as the nodes of its policy, the source-level meaning defined in
      [RoutingNodes] by [run_policy]; cached rule sets are never confused.

    ** Live decisions

    - [RoutingState] (control/routing_state.go, routing_matcher_kernspace.go,
      routing_profile_runtime.go), [RoutingStateCorrect], [RoutingLive]: the built
      matcher, the uploaded maps, client and link updates as a step relation; at every
      reachable moment the userspace router decides as the policy means. A link
      notification is a step when its writes succeed; the code logs failed ones.
    - [RoutingKernelLive]: so does the eBPF program on the uploaded maps.
    - [RoutingKnowledge]: knowing more about a packet never changes a decision that was
      taken with less, and a policy with a fallback always decides.
    - [RoutingSource]: the same from the written configuration on; preparation changes
      no decision for a name, and what the kernel decides with less is that decision.

    ** Evidence about names

    - [DomainProjection], [DomainProjectionCorrect] (control/domain_projection.go): the
      writes that bring the kernel's map of address bitmaps to the wanted one, with
      failures, retries, batches and a capacity; publication converges, and which requests
      it leaves when some are not yet due.
    - [DomainRegistry] (control/domain_registry*.go, domain_activity.go): names,
      addresses and the deadlines of their pairs, indexed both ways with shared pairs.
      [DomainRegistryCorrect], [DomainRegistryObserve], [DomainRegistrySync]: the
      invariants and what each operation does; [DomainRegistryRun]: any run refines an
      abstract store of deadlines; [DomainRegistryFork]: reloads; and
      [DomainRegistryClaims]: the entries of the kernel map are exactly the bitmaps
      that hold for every name of the address, the usage counts are exact, and renewing
      evidence of resident addresses never asks for a new selection.
    - [DomainDisk] (control/domain_registry_disk.go): the snapshot a registry saves, as the
      tokens of its JSON, with every failure of the file system; what is saved is
      restored, exactly when names and addresses are ones the restore accepts. Fuel of the decoder: one unit per token.
    - [DnsObserver] (control/dns_observer.go), [DnsObserverCorrect]: which answers are
      observed, and that the evidence they leave is what they resolve.

    ** Cached DNS answers

    - [DnsStore], [DnsStoreCorrect] (pkg/dnscache/store.go): the bounded store is a list
      in the order of use. Fuel of the eviction loop: the length of the list.
    - [DnsMessage] (common/netutils/dns.go): the frame of a packet and the validation of
      responses; the DNS library is an interface with laws. Fuel of a name: the length
      of the packet.
    - [DnsCache], [DnsCacheCorrect] (pkg/dnscache, common/netutils/resolver_cache_message.go):
      what is cached and for how long; replies are aged, and answer only the question
      they were received for, in any interleaving of exchanges.
    - [DnsPlugin], [DnsPluginCorrect] (plugins/dns-cache/cache.go): the same for the cache
      plugin in front of an upstream resolver.

    ** Budgeted buffers

    - [Membuffer], [MembufferCorrect] (pkg/membuffer): budgets, buffers and shared views as
      calls on a heap; the accounting of memory in every run, the bytes of views that stay,
      readers that deliver them once and in order, and [Read] with every byte of its source.

    ** Connections

    - [Route] (control/route.go, route_plan.go, route_dial.go, destination_matcher.go):
      how a connection with a sniffed name is verified, rerouted, rewritten and dialed.
    - [DomainRouting], [RouteCorrect]: the published bitmaps are sound for every name of
      an address; so rerouting only where the kernel's decision may depend on the name
      ends as rerouting always, routing always ends with an outbound, and a rewritten
      connection dials a target of the first rewrite that applies.

    ** Names from traffic

    - [Sniff], [SniffCorrect] (component/sniffing/tls.go, http.go, sniffing.go): the
      server name of a ClientHello, the host of a request; exactly the streams that
      carry a name, and results that more bytes do not change.
    - [Sniffer], [SnifferCorrect] (sniffer.go, conn_sniffer.go): sniffing a connection
      loses no byte and does not depend on how the stream is cut into reads. Fuel: one
      unit per byte and piece that the connection delivers.
    - [QuicReassembly], [QuicReassemblyCorrect], [SniffQuic], [SniffQuicCorrect]
      (quic.go, internal/quicutils): frames, CRYPTO reassembly, keys, header
      protection; no datagram causes a panic or is changed, and the name is found with
      the last fragment. Fuel: the length of what is parsed.

    ** Bounds

    Rule sets nest at most [maxRoutingReferenceDepth] deep, which is what the code
    enforces and what the fuel of resolution counts; programs have at most
    [MaxMatchSetLen] instructions in the kernel. A DNS answer is followed over at most
    sixteen names, which is the fuel of that loop.

    ** Not modelled

    Locks (each operation sees one state), logging and diagnostic traces, decoding of
    geodata and MMDB files, the ANTLR grammar and generated parser, the parts of the
    control plane that only drive sockets, netlink, namespaces and goroutines, the
    outbound protocol clients, certificates and interception, the API server, the other
    plugins, the vendored HTTP/2 fork and the command line. They are effects on the operating
    system, cryptography or generated code, or parts no routing decision depends on. *)

From stdpp Require Export base numbers list option gmap strings.
From Stdlib Require Export ZArith Lia Bool.
#[global] Open Scope nat_scope.

#[global] Arguments Nat.mul : simpl never.
#[global] Arguments Nat.div : simpl never.
#[global] Arguments Nat.modulo : simpl never.
#[global] Arguments Nat.ltb : simpl never.
#[global] Arguments Nat.leb : simpl never.

(** ** Machine integers

    A [w]-bit unsigned word is a [Z]; [wrap w] is Go's conversion to it. *)
Definition wrap (w : nat) (x : Z) : Z := (x mod 2 ^ Z.of_nat w)%Z.

(** Arithmetic on the 64-bit [int]. *)
Definition int64 (x : Z) : Z := ((x + 2 ^ 63) mod 2 ^ 64 - 2 ^ 63)%Z.

Lemma int64_id x : (- 2 ^ 63 <= x < 2 ^ 63)%Z -> int64 x = x.
Proof. intros H. unfold int64. rewrite Z.mod_small; lia. Qed.

Lemma int64_add a b : int64 (int64 a + b) = int64 (a + b).
Proof. unfold int64. f_equal. replace ((a + 2 ^ 63) mod 2 ^ 64 - 2 ^ 63 + b + 2 ^ 63)%Z with ((a + 2 ^ 63) mod 2 ^ 64 + b)%Z by lia. rewrite Zplus_mod_idemp_l. f_equal. lia. Qed.

Lemma int64_sub a b : int64 (int64 a - b) = int64 (a - b).
Proof. rewrite <-!Z.add_opp_r. apply int64_add. Qed.

(** [x << n] on a [w]-bit unsigned operand. *)
Definition shl (w : nat) (x : Z) (n : nat) : Z := wrap w (Z.shiftl x (Z.of_nat n)).

(** [x >> n] on an unsigned operand. *)
Definition shr (x : Z) (n : nat) : Z := Z.shiftr x (Z.of_nat n).

(** [math/bits.Len64]. *)
Definition Len64 (v : Z) : nat := if (v =? 0)%Z then 0 else S (Z.to_nat (Z.log2 v)).

(** [x] is a value of the unsigned [w]-bit type. *)
Definition fits (w : nat) (x : Z) : Prop := (0 <= x < 2 ^ Z.of_nat w)%Z.

(** ** Results of Go calls

    [Ok] is a normal return, [Err] a non-nil [error] (its text without the
    formatted arguments), [Panic] a run-time panic. *)
Inductive res (A : Type) : Type :=
| Ok (a : A)
| Err (e : string)
| Panic.
Arguments Ok {A} a.
Arguments Err {A} e.
Arguments Panic {A}.

#[export] Instance res_ret : MRet res := @Ok.
#[export] Instance res_bind : MBind res := fun A B f m =>
  match m with Ok a => f a | Err e => Err e | Panic => Panic end.

#[export] Instance res_fmap : FMap res := fun A B f m =>
  match m with Ok a => Ok (f a) | Err e => Err e | Panic => Panic end.

(** An indexing expression: out of range panics. *)
Definition idx {A} (o : option A) : res A :=
  match o with Some a => Ok a | None => Panic end.

Definition is_Ok {A} (m : res A) : bool := match m with Ok _ => true | _ => false end.

(** The Go test [cond] guarding an early [return fmt.Errorf(msg)]. *)
Definition guard_err (cond : bool) (msg : string) : res () := if cond then Err msg else Ok tt.

(** A slice without elements. *)
Definition is_empty {A} (l : list A) : bool := match l with [] => true | _ => false end.

Fixpoint foldM {A S} (f : S -> A -> res S) (s : S) (l : list A) : res S :=
  match l with [] => Ok s | a :: l => s ← f s a; foldM f s l end.

(** *** Folds over a fallible step *)

Lemma foldM_ind {A S} (f : S -> A -> res S) (P : list A -> S -> Prop) l s s' :
  P [] s -> (forall done a s s', P done s -> a ∈ l -> f s a = Ok s' -> P (done ++ [a]) s') ->
  foldM f s l = Ok s' -> P l s'.
Proof.
  intros H0 Hstep.
  assert (Hg : forall rest done s1, (forall a, a ∈ rest -> a ∈ l) -> P done s1 -> foldM f s1 rest = Ok s' -> P (done ++ rest) s').
  { induction rest as [|a rest IH]; intros pre s1 Hin Hp Hf.
    - injection Hf as <-. by rewrite app_nil_r.
    - cbn [foldM] in Hf. destruct (f s1 a) as [s2| |] eqn:Ef; try done. cbn [mbind res_bind] in Hf.
      rewrite cons_middle, app_assoc. apply IH with s2; [set_solver|by eapply Hstep; [|set_solver|]|done]. }
  intros Hf. by apply (Hg l [] s).
Qed.

Lemma foldM_nopanic {A S} (f : S -> A -> res S) (J : S -> Prop) l s :
  J s -> (forall a s, a ∈ l -> J s -> f s a <> Panic) ->
  (forall a s s', a ∈ l -> J s -> f s a = Ok s' -> J s') -> foldM f s l <> Panic.
Proof.
  revert s. induction l as [|a l IH]; intros s Hs Hn Hp; [done|]. cbn [foldM].
  destruct (f s a) as [s'| |] eqn:E; cbn [mbind res_bind]; [|done|].
  - apply IH; [by eapply (Hp a s); [set_solver|..]| |]; intros; [apply Hn|eapply Hp]; set_solver.
  - exfalso. apply (Hn a s); [set_solver|done|done].
Qed.

(** A fold whose steps return, under an invariant on the elements that are left. *)
Lemma foldM_ext {A S} (f f' : S -> A -> res S) l : (forall s a, f s a = f' s a) -> forall s, foldM f s l = foldM f' s l.
Proof. intros H. induction l as [|a l IH]; intros s; [done|]. cbn [foldM]. rewrite H. by destruct (f' s a); cbn. Qed.

Lemma foldM_run {A S} (f : S -> A -> res S) (I : list A -> S -> Prop) l s : I l s ->
  (forall a rest s, I (a :: rest) s -> exists s', f s a = Ok s' /\ I rest s') -> exists s', foldM f s l = Ok s' /\ I [] s'.
Proof.
  intros H0 Hstep. revert s H0. induction l as [|a l IH]; intros s H0; [by exists s|].
  destruct (Hstep _ _ _ H0) as (s1 & E & H1). cbn [foldM]. rewrite E. cbn [mbind res_bind]. by apply IH.
Qed.

Lemma foldM_snoc {A S} (f : S -> A -> res S) s l a : foldM f s (l ++ [a]) = (s ← foldM f s l; f s a).
Proof.
  revert s. induction l as [|x l IH]; intros s; cbn [foldM app mbind res_bind].
  - destruct (f s a); done.
  - destruct (f s x); cbn [mbind res_bind]; [apply IH|done|done].
Qed.

(** ** Bit-level reasoning *)

(** Bit [n] of a non-negative integer, by a natural index. *)
Definition tb (x : Z) (n : nat) : bool := Z.testbit x (Z.of_nat n).

Lemma tb_inj x y : (0 <= x)%Z -> (0 <= y)%Z -> (forall n, tb x n = tb y n) -> x = y.
Proof.
  intros _ _ H. apply Z.bits_inj'. intros n Hn.
  specialize (H (Z.to_nat n)). unfold tb in H. by rewrite Z2Nat.id in H.
Qed.

Lemma tb_wrap w x n : tb (wrap w x) n = (n <? w) && tb x n.
Proof.
  unfold tb, wrap. destruct (Nat.ltb_spec n w).
  - rewrite Z.mod_pow2_bits_low by lia. done.
  - rewrite Z.mod_pow2_bits_high by lia. done.
Qed.

Lemma tb_shr x k n : tb (shr x k) n = tb x (n + k).
Proof. unfold tb, shr. rewrite Z.shiftr_spec by lia. f_equal. lia. Qed.

Lemma tb_shiftl x k n : tb (Z.shiftl x (Z.of_nat k)) n = (k <=? n) && tb x (n - k).
Proof.
  unfold tb. rewrite Z.shiftl_spec by lia. destruct (Nat.leb_spec k n); simpl.
  - f_equal. lia.
  - apply Z.testbit_neg_r. lia.
Qed.

Lemma tb_shl w x k n : tb (shl w x k) n = (n <? w) && (k <=? n) && tb x (n - k).
Proof. unfold shl. rewrite tb_wrap, tb_shiftl. by destruct (n <? w). Qed.

Lemma tb_lor x y n : tb (Z.lor x y) n = tb x n || tb y n.
Proof. apply Z.lor_spec. Qed.

Lemma tb_land x y n : tb (Z.land x y) n = tb x n && tb y n.
Proof. apply Z.land_spec. Qed.

Lemma tb_ldiff x y n : tb (Z.ldiff x y) n = tb x n && negb (tb y n).
Proof. apply Z.ldiff_spec. Qed.

Lemma tb_zero n : tb 0 n = false.
Proof. apply Z.testbit_0_l. Qed.

Lemma tb_one_shl k n : tb (Z.shiftl 1 (Z.of_nat k)) n = (n =? k).
Proof.
  rewrite tb_shiftl. unfold tb. destruct (Nat.leb_spec k n); simpl.
  - destruct (Nat.eqb_spec n k) as [->|Hn]; [by rewrite Nat.sub_diag|].
    apply Z.bits_above_log2; simpl; lia.
  - symmetry. apply Nat.eqb_neq. lia.
Qed.

Lemma fits_tb w x n : fits w x -> w <= n -> tb x n = false.
Proof.
  intros Hx Hn. unfold tb. destruct (decide (x = 0%Z)) as [->|]; [apply Z.testbit_0_l|].
  destruct Hx. apply Z.bits_above_log2; [lia|]. apply Z.log2_lt_pow2; [lia|].
  eapply Z.lt_le_trans; [done|]. apply Z.pow_le_mono_r; lia.
Qed.

Lemma tb_fits w x : (0 <= x)%Z -> (forall n, w <= n -> tb x n = false) -> fits w x.
Proof.
  intros H0 H. split; [done|]. destruct (decide (x = 0%Z)) as [->|Hx]; [lia|].
  apply Z.log2_lt_pow2; [lia|]. destruct (decide (Z.log2 x < Z.of_nat w)%Z) as [?|Hge]; [done|].
  exfalso. assert (Hb : tb x (Z.to_nat (Z.log2 x)) = false) by (apply H; lia).
  unfold tb in Hb. pose proof (Z.log2_nonneg x). rewrite Z2Nat.id in Hb by lia.
  rewrite Z.bit_log2 in Hb by lia. done.
Qed.

Lemma wrap_fits w x : fits w (wrap w x).
Proof. unfold fits, wrap. apply Z.mod_pos_bound. lia. Qed.

Lemma wrap_id w x : fits w x -> wrap w x = x.
Proof. intros. unfold wrap. by apply Z.mod_small. Qed.

Lemma fits_mono w w' x : w <= w' -> fits w x -> fits w' x.
Proof.
  intros Hw [? ?]. split; [done|]. eapply Z.lt_le_trans; [done|]. apply Z.pow_le_mono_r; lia.
Qed.

Lemma fits_lor w x y : fits w x -> fits w y -> fits w (Z.lor x y).
Proof.
  intros Hx Hy. apply tb_fits.
  - apply Z.lor_nonneg. split; [apply Hx|apply Hy].
  - intros n Hn. rewrite tb_lor. by rewrite (fits_tb w x), (fits_tb w y).
Qed.

Lemma fits_ldiff w x y : fits w x -> (0 <= y)%Z -> fits w (Z.ldiff x y).
Proof.
  intros Hx Hy. apply tb_fits.
  - apply Z.ldiff_nonneg. left. apply Hx.
  - intros n Hn. rewrite tb_ldiff. by rewrite (fits_tb w x).
Qed.

Lemma fits_shr w x k : fits w x -> fits w (shr x k).
Proof.
  intros Hx. apply tb_fits.
  - apply Z.shiftr_nonneg. apply Hx.
  - intros n Hn. rewrite tb_shr. apply (fits_tb w); [done|lia].
Qed.

Lemma fits_0 w : fits w 0.
Proof. split; lia. Qed.

Lemma Len64_fits v w : (0 <= v)%Z -> (Len64 v <= w <-> fits w v).
Proof.
  intros Hv. unfold Len64, fits. destruct (Z.eqb_spec v 0) as [->|Hn].
  - split; lia.
  - rewrite (Z.log2_lt_pow2 v) by lia. pose proof (Z.log2_nonneg v). lia.
Qed.

Create HintDb dae.
#[export] Hint Resolve wrap_fits fits_lor fits_ldiff fits_shr fits_0 : dae.
Create Rewrite HintDb bits.
#[export] Hint Rewrite tb_wrap tb_shr tb_shl tb_lor tb_land tb_ldiff tb_one_shl tb_zero : bits.

(** ** Proof automation *)

(** Split on every boolean comparison of naturals in the goal. *)
Ltac nat_cases :=
  repeat match goal with
  | |- context [?a <? ?b] => destruct (Nat.ltb_spec a b)
  | |- context [?a <=? ?b] => destruct (Nat.leb_spec a b)
  | |- context [?a =? ?b] => destruct (Nat.eqb_spec a b)
  end.

(** Decide an equation between bits of shifted and masked words. *)
Ltac bit_cases :=
  autorewrite with bits; nat_cases; simpl;
  rewrite ?andb_false_r, ?andb_true_r, ?orb_false_r, ?orb_true_r;
  try lia; try done; try (repeat f_equal; lia).

(** Evaluates the comparisons of string constants in the goal. *)
Ltac eqb_literals :=
  repeat match goal with
  | |- context [String.eqb ?a ?b] =>
    let v := eval vm_compute in (String.eqb a b) in
    match v with true => idtac | false => idtac end;
    change (String.eqb a b) with v
  end; cbn [orb andb negb].

Ltac eqb_literals_in H :=
  repeat match type of H with
  | context [String.eqb ?a ?b] =>
    let v := eval vm_compute in (String.eqb a b) in
    match v with true => idtac | false => idtac end;
    change (String.eqb a b) with v in H
  end; cbn [orb andb negb] in H.
