(* ===== verification/GoSlices.v ===== *)
(** * Slices and maps of the Go standard library

    Stable sorting, and iteration over maps, whose order Go leaves open. *)

From stdpp Require Import sorting.
From S2P Require Import Prelude.

(** ** Stable sorting *)

Section Sort.
Context {A : Type} (le : A -> A -> bool).

(** Before the first element that is not smaller. *)
Fixpoint insert_sorted (x : A) (l : list A) : list A :=
  match l with
  | [] => [x]
  | y :: l => if le x y then x :: y :: l else y :: insert_sorted x l
  end.

(** [slices.SortStableFunc]. *)
Definition SortStable (l : list A) : list A := foldr insert_sorted [] l.

Lemma insert_sorted_Permutation x l : insert_sorted x l ≡ₚ x :: l.
Proof. induction l as [|y l IH]; [done|]. cbn. destruct (le x y); [done|]. rewrite IH. apply Permutation_swap. Qed.

Lemma SortStable_Permutation l : SortStable l ≡ₚ l.
Proof. induction l as [|x l IH]; [done|]. cbn. by rewrite insert_sorted_Permutation, IH. Qed.

Context (le_total : forall x y, le x y = true \/ le y x = true).

Lemma insert_sorted_Sorted x l : Sorted le l -> Sorted le (insert_sorted x l).
Proof.
  induction 1 as [|y l H IH Hd]; [by repeat constructor|]. cbn. destruct (le x y) eqn:E.
  - constructor; [by constructor|]. constructor. by rewrite E.
  - constructor; [done|]. assert (Hyx : le y x = true) by (destruct (le_total x y); congruence).
    destruct l as [|z l]; cbn; [constructor; by rewrite Hyx|]. destruct (le x z); constructor; [by rewrite Hyx|]. by inversion Hd.
Qed.

Lemma SortStable_Sorted l : Sorted le (SortStable l).
Proof. induction l as [|x l IH]; [constructor|]. by apply insert_sorted_Sorted. Qed.
End Sort.

(** ** Iteration over maps *)

(** Some enumeration of the entries of maps and sets. *)
Record map_order := mkOrder {
  arrange : forall A : Type, list A -> list A;
  arrange_Permutation : forall A (l : list A), arrange A l ≡ₚ l;
}.
Arguments arrange m {A} l.

Definition in_order : map_order := mkOrder (fun _ l => l) (fun _ _ => Permutation_refl _).

Section Range.
Context (order : map_order) `{Countable K}.

(** [for k, v := range m]. *)
Definition range {V} (m : gmap K V) : list (K * V) := arrange order (map_to_list m).

(** [for k := range s]. *)
Definition range_set (s : gset K) : list K := arrange order (elements s).

Lemma elem_of_range {V} (m : gmap K V) k v : (k, v) ∈ range m <-> m !! k = Some v.
Proof. unfold range. by rewrite arrange_Permutation, elem_of_map_to_list. Qed.

Lemma elem_of_range_set (s : gset K) k : k ∈ range_set s <-> k ∈ s.
Proof. unfold range_set. by rewrite arrange_Permutation, elem_of_elements. Qed.

Lemma NoDup_range {V} (m : gmap K V) : NoDup (range m).*1.
Proof. unfold range. rewrite arrange_Permutation. apply NoDup_fst_map_to_list. Qed.

Lemma NoDup_range_set (s : gset K) : NoDup (range_set s).
Proof. unfold range_set. rewrite arrange_Permutation. apply NoDup_elements. Qed.

Lemma length_range {V} (m : gmap K V) : length (range m) = size m.
Proof. unfold range. by rewrite arrange_Permutation, length_map_to_list. Qed.

Lemma range_to_map {V} (m : gmap K V) : list_to_map (M := gmap K V) (range m) = m.
Proof.
  apply map_eq. intros k. destruct (m !! k) as [v|] eqn:E.
  - apply elem_of_list_to_map_1; [apply NoDup_range|by apply elem_of_range].
  - apply not_elem_of_list_to_map_1. intros ([k' v] & -> & Hin)%list_elem_of_fmap. apply elem_of_range in Hin. cbn in E. congruence.
Qed.
End Range.
