(* ===== verification/Bitlist.v ===== *)
(** * Packed arrays of fixed-width units (pkg/trie/internal/bitlist)

    [CompactBitList] packs units of [unitBitSize] bits into 16-bit words.  The
    file models [Set], [Get], [Append], [growByUnitIndex] and [Tighten] on the
    word array, and shows that together they implement an array of
    [unitBitSize]-bit naturals that grows on write and reads zero elsewhere. *)

From S2P Require Import Prelude.

(** ** The data structure *)

Record CompactBitList := mkBitList {
  unitBitSize : nat;
  words : list Z;     (* the field [b] of the Go struct *)
  unitNum : nat;
}.

Definition NewCompactBitList (size : nat) : CompactBitList := mkBitList size [] 0.

Definition growByUnitIndex (m : CompactBitList) (i : nat) : CompactBitList :=
  let bitBoundary := (i + 1) * unitBitSize m in
  if length (words m) * 16 <? bitBoundary then
    let needBytes := bitBoundary / 16 in
    let needBytes := if bitBoundary mod 16 =? 0 then needBytes else needBytes + 1 in
    mkBitList (unitBitSize m) (words m ++ replicate (needBytes - length (words m)) 0%Z) (unitNum m)
  else m.

(** The first inner loop of [Set]: copy bits [k..] of [v] into the word [w] at
    offset [j], until the unit or the word is exhausted.  Returns the final [k]. *)
Fixpoint set_this_word (fuel k j unitToTravel : nat) (v w : Z) : nat * Z :=
  match fuel with
  | 0 => (k, w)
  | S fuel =>
    if (k <? unitToTravel) && (j + k <? 16) then
      let w := Z.ldiff w (Z.shiftl 1 (Z.of_nat (k + j))) in
      let val := wrap 16 (shl 64 (Z.land v (Z.shiftl 1 (Z.of_nat k))) j) in
      set_this_word fuel (S k) j unitToTravel v (Z.lor w val)
    else (k, w)
  end.

(** The second inner loop: the remaining bits, up to bit 15 of [v], go to the
    low end of the next word. *)
Fixpoint set_next_word (fuel k j unitToTravel : nat) (v w : Z) : Z :=
  match fuel with
  | 0 => w
  | S fuel =>
    if (k <? unitToTravel) && (k <? 16) then
      let w := Z.ldiff w (Z.shiftl 1 (Z.of_nat (k - j))) in
      let val := wrap 16 (shr (Z.land v (Z.shiftl 1 (Z.of_nat k))) j) in
      set_next_word fuel (S k) j unitToTravel v (Z.lor w val)
    else w
  end.

(** The outer loop of [Set]: 16 bits of [v] per round.  [None] is an index
    panic. *)
Fixpoint set_loop (fuel i j unitToTravel : nat) (v : Z) (b : list Z) : option (list Z) :=
  match fuel with
  | 0 => Some b
  | S fuel =>
    if 0 <? unitToTravel then
      w ← b !! i;
      let '(k, w) := set_this_word 16 0 j unitToTravel v w in
      let b := <[i := w]> b in
      if unitToTravel <=? k then Some b
      else
        let i := S i in
        b ← (if (k <? unitToTravel) && (k <? 16)
             then w ← b !! i; Some (<[i := set_next_word 16 k k unitToTravel v w]> b)
             else Some b);
        set_loop fuel i ((j + 16) mod 16) (unitToTravel - 16) (shr v 16) b
    else Some b
  end.

(** [Set]; [None] is the panic on a value that exceeds the unit size. *)
Definition SetUnit (m : CompactBitList) (iUnit : nat) (v : Z) : option CompactBitList :=
  if unitBitSize m <? Len64 v then None
  else
    let m := growByUnitIndex m iUnit in
    let i := iUnit * unitBitSize m / 16 in
    let j := iUnit * unitBitSize m mod 16 in
    b ← set_loop (unitBitSize m) i j (unitBitSize m) v (words m);
    Some (mkBitList (unitBitSize m) b (Nat.max (unitNum m) (iUnit + 1))).

(** The loop of [Get] over whole words. *)
Fixpoint get_loop (fuel i offset unitToTravel : nat) (v : Z) (b : list Z)
    : option (nat * nat * nat * Z) :=
  match fuel with
  | 0 => Some (i, offset, unitToTravel, v)
  | S fuel =>
    if 16 <=? unitToTravel then
      w ← b !! i;
      get_loop fuel (i + 1) (offset + 16) (unitToTravel - 16) (Z.lor v (shl 64 w offset)) b
    else Some (i, offset, unitToTravel, v)
  end.

Definition GetUnit (m : CompactBitList) (iUnit : nat) : option Z :=
  let bitBoundary := (iUnit + 1) * unitBitSize m in
  if length (words m) * 16 <? bitBoundary then Some 0%Z
  else
    let i := iUnit * unitBitSize m / 16 in
    let j := iUnit * unitBitSize m mod 16 in
    w ← words m !! i;
    let byteSpace := 16 - j in
    if unitBitSize m <? byteSpace then
      let toTrimLeft := byteSpace - unitBitSize m in
      Some (shr (shl 16 w toTrimLeft) (toTrimLeft + j))
    else
      let v := shr w j in
      let offset := 16 - j in
      '(i, offset, unitToTravel, v) ←
        get_loop (unitBitSize m) (i + 1) offset (unitBitSize m - offset) v (words m);
      if unitToTravel =? 0 then Some v
      else
        w ← words m !! i;
        let toTrimLeft := 16 - unitToTravel in
        if toTrimLeft <? offset
        then Some (Z.lor v (shl 64 (shl 16 w toTrimLeft) (offset - toTrimLeft)))
        else Some (Z.lor v (shr (shl 16 w toTrimLeft) (toTrimLeft - offset))).

Definition Append (m : CompactBitList) (v : Z) : option CompactBitList :=
  SetUnit m (unitNum m) v.

(** [slices.Clip (slices.Clone m.b)] changes the capacity only. *)
Definition Tighten (m : CompactBitList) : CompactBitList := m.

Fixpoint AppendAll (m : CompactBitList) (vs : list Z) : option CompactBitList :=
  match vs with
  | [] => Some m
  | v :: vs => m ← Append m v; AppendAll m vs
  end.

(** ** Bits of the word array *)

(** Bit [p] of the array, zero past its end. *)
Definition bit_at (b : list Z) (p : nat) : bool :=
  match b !! (p / 16) with Some w => tb w (p mod 16) | None => false end.

Definition words_ok (b : list Z) : Prop := Forall (fits 16) b.

Lemma bit_at_insert b i w p :
  i < length b ->
  bit_at (<[i := w]> b) p = if p / 16 =? i then tb w (p mod 16) else bit_at b p.
Proof.
  intros Hi. unfold bit_at. destruct (Nat.eqb_spec (p / 16) i) as [->|Hne].
  - by rewrite list_lookup_insert_eq.
  - by rewrite list_lookup_insert_ne by done.
Qed.

Lemma set_this_word_spec fuel k j u v w k' w' :
  set_this_word fuel k j u v w = (k', w') ->
  16 - (j + k) <= fuel ->
  k' = Nat.max k (Nat.min u (16 - j)) /\
  (forall n, tb w' n = if (j + k <=? n) && (n <? j + k') then tb v (n - j) else tb w n) /\
  (fits 16 w -> fits 16 w').
Proof.
  revert k w. induction fuel as [|fuel IH]; intros k w H Hf; simpl in H.
  - injection H as <- <-. split; [lia|]. split; [|done]. intros n. by nat_cases; try lia.
  - destruct (Nat.ltb_spec k u); simpl in H;
      [|injection H as <- <-; split; [lia|]; split; [|done]; intros n; by nat_cases; try lia].
    destruct (Nat.ltb_spec (j + k) 16);
      [|injection H as <- <-; split; [lia|]; split; [|done]; intros n; by nat_cases; try lia].
    apply IH in H as (Hk & Hb & Hfit); [|lia]. split; [lia|]. split.
    + intros n. rewrite Hb. bit_cases.
    + intros Hw. apply Hfit.
      apply fits_lor; [|apply wrap_fits]. apply fits_ldiff; [done|]. apply Z.shiftl_nonneg. lia.
Qed.

Lemma set_next_word_spec fuel k j u v w :
  16 - k <= fuel -> j <= k ->
  (forall n, tb (set_next_word fuel k j u v w) n
     = if (k <=? n + j) && (n + j <? Nat.min u 16) then tb v (n + j) else tb w n) /\
  (fits 16 w -> fits 16 (set_next_word fuel k j u v w)).
Proof.
  revert k w. induction fuel as [|fuel IH]; intros k w Hf Hj; simpl.
  - split; [|done]. intros n. by nat_cases; try lia.
  - destruct (Nat.ltb_spec k u); simpl; [|split; [|done]; intros n; by nat_cases; try lia].
    destruct (Nat.ltb_spec k 16); simpl; [|split; [|done]; intros n; by nat_cases; try lia].
    destruct (IH (S k) (Z.lor (Z.ldiff w (Z.shiftl 1 (Z.of_nat (k - j))))
      (wrap 16 (shr (Z.land v (Z.shiftl 1 (Z.of_nat k))) j)))) as [Hb Hfit]; [lia..|]. split.
    + intros n. rewrite Hb. bit_cases.
    + intros Hw. apply Hfit.
      apply fits_lor; [|apply wrap_fits]. apply fits_ldiff; [done|]. apply Z.shiftl_nonneg. lia.
Qed.

#[local] Arguments set_this_word : simpl never.
#[local] Arguments set_next_word : simpl never.

Lemma div16 i r : r < 16 -> (16 * i + r) / 16 = i /\ (16 * i + r) mod 16 = r.
Proof.
  intros. split.
  - symmetry. apply (Nat.div_unique _ 16 i r); lia.
  - symmetry. apply (Nat.mod_unique _ 16 i r); lia.
Qed.

Lemma split16 p : exists i r, p = 16 * i + r /\ r < 16 /\ p / 16 = i /\ p mod 16 = r.
Proof.
  exists (p / 16), (p mod 16). pose proof (Nat.div_mod_eq p 16).
  pose proof (Nat.mod_upper_bound p 16). repeat split; lia.
Qed.

Lemma lookup_ok {A} (b : list A) i : i < length b -> exists w, b !! i = Some w.
Proof. intros H. apply lookup_lt_is_Some_2 in H as [w Hw]. eauto. Qed.

Lemma words_ok_insert b i w : words_ok b -> fits 16 w -> words_ok (<[i := w]> b).
Proof. intros. by apply Forall_insert. Qed.

Lemma words_ok_lookup b i w : words_ok b -> b !! i = Some w -> fits 16 w.
Proof. intros H ?. by eapply Forall_lookup_1 in H. Qed.

(** [writes b base u v b']: [b'] is [b] with bits [base .. base+u) taken from [v]. *)
Definition writes (b : list Z) (base u : nat) (v : Z) (b' : list Z) : Prop :=
  length b' = length b /\
  (forall p, bit_at b' p = if (base <=? p) && (p <? base + u) then tb v (p - base) else bit_at b p) /\
  (words_ok b -> words_ok b').

Lemma writes_this_word b i j u v w :
  b !! i = Some w -> j < 16 ->
  writes b (16 * i + j) (Nat.min u (16 - j)) v
    (<[i := snd (set_this_word 16 0 j u v w)]> b).
Proof.
  intros Hw Hj. destruct (set_this_word 16 0 j u v w) as [k w'] eqn:E.
  apply set_this_word_spec in E as (Hk & Hb & Hfit); [|lia].
  apply lookup_lt_Some in Hw as Hi. split; [by rewrite length_insert|]. split.
  - intros p. rewrite bit_at_insert by done.
    destruct (split16 p) as (q & r & Hp & Hr & Hdiv & Hmod). rewrite Hdiv, Hmod. simpl.
    destruct (Nat.eqb_spec q i) as [->|Hne]; [|nat_cases; simpl; try lia; done].
    rewrite Hb. unfold bit_at. rewrite Hdiv, Hmod, Hw. nat_cases; simpl; try lia; try done.
    f_equal. lia.
  - intros Hok. apply words_ok_insert; [done|]. apply Hfit. by eapply words_ok_lookup.
Qed.

Lemma writes_next_word b i k u v w :
  b !! i = Some w -> k <= 16 ->
  writes b (16 * i) (Nat.min u 16 - k) (shr v k) (<[i := set_next_word 16 k k u v w]> b).
Proof.
  intros Hw Hk. destruct (set_next_word_spec 16 k k u v w) as [Hb Hfit]; [lia..|].
  apply lookup_lt_Some in Hw as Hi. split; [by rewrite length_insert|]. split.
  - intros p. rewrite bit_at_insert by done.
    destruct (split16 p) as (q & r & Hp & Hr & Hdiv & Hmod). rewrite Hdiv, Hmod.
    destruct (Nat.eqb_spec q i) as [->|Hne]; [|nat_cases; simpl; try lia; done].
    rewrite Hb, tb_shr. unfold bit_at. rewrite Hdiv, Hmod, Hw. nat_cases; simpl; try lia; try done.
    f_equal. lia.
  - intros Hok. apply words_ok_insert; [done|]. apply Hfit. by eapply words_ok_lookup.
Qed.

(** Two adjacent writes of consecutive parts of [v] are one write. *)
Lemma writes_join b base u1 u2 v b1 b2 :
  writes b base u1 v b1 -> writes b1 (base + u1) u2 (shr v u1) b2 ->
  writes b base (u1 + u2) v b2.
Proof.
  intros (L1 & B1 & O1) (L2 & B2 & O2). split; [congruence|]. split; [|auto].
  intros p. rewrite B2, B1, tb_shr. nat_cases; simpl; try lia; try done. f_equal; lia.
Qed.

Lemma writes_nil b base v : writes b base 0 v b.
Proof. split; [done|]. split; [|done]. intros p. nat_cases; simpl; try lia; done. Qed.

Lemma set_loop_spec fuel i j u v b :
  u <= fuel -> j < 16 -> 16 * i + j + u <= 16 * length b ->
  exists b', set_loop fuel i j u v b = Some b' /\ writes b (16 * i + j) u v b'.
Proof.
  revert i u v b. induction fuel as [|fuel IH]; intros i u v b Hf Hj Hlen; cbn [set_loop].
  { exists b. replace u with 0 by lia. auto using writes_nil. }
  destruct (Nat.ltb_spec 0 u); [|exists b; replace u with 0 by lia; auto using writes_nil].
  destruct (lookup_ok b i) as [w Hw]; [lia|]. rewrite Hw. cbn [mbind option_bind].
  pose proof (writes_this_word b i j u v w Hw Hj) as W1.
  destruct (set_this_word 16 0 j u v w) as [k w'] eqn:E. cbn [snd] in W1.
  apply set_this_word_spec in E as (Hk & _ & _); [|lia]. simpl in Hk.
  destruct (Nat.leb_spec u k) as [Hle|Hgt].
  { exists (<[i:=w']> b). split; [done|]. replace u with (Nat.min u (16 - j)) by lia. done. }
  replace (Nat.min u (16 - j)) with k in W1 by lia.
  set (b1 := <[i:=w']> b) in *. destruct W1 as (L1 & W1).
  assert (exists b2, (if (k <? u) && (k <? 16)
             then w ← b1 !! S i; Some (<[S i := set_next_word 16 k k u v w]> b1) else Some b1) = Some b2
          /\ writes b1 (16 * i + j + k) (Nat.min u 16 - k) (shr v k) b2) as (b2 & E2 & W2).
  { destruct (Nat.ltb_spec k u); [|lia]. destruct (Nat.ltb_spec k 16); cbn [andb].
    - destruct (lookup_ok b1 (S i)) as [w2 Hw2]; [lia|]. rewrite Hw2. cbn [mbind option_bind]. eexists. split; [done|].
      replace (16 * i + j + k) with (16 * S i) by lia. by apply writes_next_word; [|lia].
    - exists b1. split; [done|]. replace (Nat.min u 16 - k) with 0 by lia. apply writes_nil. }
  rewrite E2. cbn [mbind option_bind].
  assert (W12 : writes b (16 * i + j) (Nat.min u 16) v b2).
  { replace (Nat.min u 16) with (k + (Nat.min u 16 - k)) by lia.
    eapply writes_join; [split; eassumption|]. done. }
  replace ((j + 16) mod 16) with j by (apply (Nat.mod_unique _ 16 1 j); lia).
  destruct (IH (S i) (u - 16) (shr v 16) b2) as (b' & E' & W'); [lia..| |].
  { destruct W12 as [-> _]. lia. }
  exists b'. split; [done|]. destruct (decide (u <= 16)).
  - replace (u - 16) with 0 in * by lia. replace (Nat.min u 16) with u in W12 by lia.
    replace u with (u + 0) by lia. eapply writes_join; [done|].
    destruct W' as (L' & B' & O'). split; [done|]. split; [|done].
    intros p. rewrite B'. nat_cases; simpl; try lia; done.
  - replace (Nat.min u 16) with 16 in W12 by lia. replace u with (16 + (u - 16)) at 1 by lia.
    eapply writes_join; [done|]. replace (16 * i + j + 16) with (16 * S i + j) by lia. done.
Qed.

(** ** Reading *)

(** [reads b base u x]: [x] is the [u]-bit number stored from bit [base] on. *)
Definition reads (b : list Z) (base u : nat) (x : Z) : Prop :=
  (0 <= x)%Z /\ forall n, tb x n = (n <? u) && bit_at b (base + n).

Lemma reads_unique b base u x y : reads b base u x -> reads b base u y -> x = y.
Proof. intros [Hx Bx] [Hy By]. apply tb_inj; [done..|]. intros n. by rewrite Bx, By. Qed.

Lemma reads_ext b b' base u x :
  (forall n, n < u -> bit_at b (base + n) = bit_at b' (base + n)) ->
  reads b base u x -> reads b' base u x.
Proof.
  intros H [Hx Bx]. split; [done|]. intros n. rewrite Bx.
  destruct (Nat.ltb_spec n u); simpl; auto.
Qed.

Lemma bit_at_word b i r w : b !! i = Some w -> r < 16 -> bit_at b (16 * i + r) = tb w r.
Proof. intros Hw Hr. unfold bit_at. destruct (div16 i r Hr) as [-> ->]. by rewrite Hw. Qed.

Lemma reads_word b i j u w :
  words_ok b -> b !! i = Some w -> j + u = 16 -> reads b (16 * i + j) u (shr w j).
Proof.
  intros Hok Hw Hj. pose proof (words_ok_lookup _ _ _ Hok Hw) as Hf. split.
  - apply Z.shiftr_nonneg. apply Hf.
  - intros n. rewrite tb_shr. destruct (Nat.ltb_spec n u); simpl.
    + rewrite <-Nat.add_assoc. erewrite bit_at_word by (eauto; lia). f_equal. lia.
    + apply (fits_tb 16); [done|lia].
Qed.

(** Extending a number read so far by the next [u'] bits, shifted into place. *)
Lemma reads_extend b base u k x y :
  u <= k -> reads b base u x -> (0 <= y)%Z ->
  (forall n, tb y n = (u <=? n) && (n <? k) && bit_at b (base + n)) ->
  reads b base k (Z.lor x y).
Proof.
  intros Huk [Hx Bx] Hy By. split; [by apply Z.lor_nonneg|].
  intros n. rewrite tb_lor, Bx, By. nat_cases; simpl; try lia; try done. by rewrite orb_false_r.
Qed.

Lemma get_loop_spec fuel b base i u u' x :
  words_ok b -> u' <= fuel -> u + u' <= 64 -> base + u = 16 * i ->
  16 * i + u' <= 16 * length b -> reads b base u x ->
  exists i' x', get_loop fuel i u u' x b = Some (i', u + (u' - u' mod 16), u' mod 16, x') /\
    16 * i' = base + (u + (u' - u' mod 16)) /\ reads b base (u + (u' - u' mod 16)) x'.
Proof.
  intros Hok. revert i u u' x. induction fuel as [|fuel IH];
    intros i u u' x Hf H64 Hbase Hlen Hr; cbn [get_loop].
  { replace u' with 0 by lia. exists i, x. rewrite Nat.Div0.mod_0_l, Nat.sub_0_r, Nat.add_0_r.
    split; [done|]. split; [lia|done]. }
  destruct (Nat.leb_spec 16 u') as [Hge|Hlt].
  - destruct (lookup_ok b i) as [w Hw]; [lia|]. rewrite Hw. cbn [mbind option_bind].
    pose proof (words_ok_lookup _ _ _ Hok Hw) as Hfw.
    assert (Hm : (u' - 16) mod 16 = u' mod 16).
    { replace u' with (u' - 16 + 1 * 16) at 2 by lia. by rewrite Nat.Div0.mod_add. }
    pose proof (Nat.Div0.mod_le (u' - 16) 16).
    destruct (IH (i + 1) (u + 16) (u' - 16) (Z.lor x (shl 64 w u))) as (i' & x' & E & Hi & Hx);
      [lia..| |].
    { eapply reads_extend; [|done|apply wrap_fits|]; [lia|]. intros n. rewrite tb_shl.
      nat_cases; simpl; try lia; try done.
      - replace (base + n) with (16 * i + (n - u)) by lia. by erewrite bit_at_word by (eauto; lia).
      - apply (fits_tb 16); [done|lia]. }
    exists i', x'. rewrite Hm in *.
    replace (u + 16 + (u' - 16 - u' mod 16)) with (u + (u' - u' mod 16)) in * by lia. done.
  - rewrite Nat.mod_small by lia. rewrite Nat.sub_diag, Nat.add_0_r. exists i, x.
    split; [done|]. split; [lia|done].
Qed.

(** Keeping the low [u] bits of a word by shifting left and right again. *)
Lemma tb_trim w t s n :
  fits 16 w -> t <= 16 -> tb (shr (shl 16 w t) (t + s)) n = (n + s <? 16 - t) && tb w (n + s).
Proof.
  intros Hf Ht. rewrite tb_shr, tb_shl. nat_cases; simpl; try lia; try done. f_equal. lia.
Qed.

Lemma GetUnit_in_range m i :
  words_ok (words m) -> 0 < unitBitSize m <= 64 ->
  (i + 1) * unitBitSize m <= length (words m) * 16 ->
  exists x, GetUnit m i = Some x /\ reads (words m) (i * unitBitSize m) (unitBitSize m) x.
Proof.
  destruct m as [u b num]. cbn [unitBitSize words]. intros Hok Hu Hlen.
  unfold GetUnit. cbn [unitBitSize words].
  destruct (Nat.ltb_spec (length b * 16) ((i + 1) * u)); [lia|].
  destruct (split16 (i * u)) as (q & r & Hp & Hr & Hdiv & Hmod). rewrite Hdiv, Hmod.
  destruct (lookup_ok b q) as [w Hw]; [lia|]. rewrite Hw. cbn [mbind option_bind].
  pose proof (words_ok_lookup _ _ _ Hok Hw) as Hfw.
  destruct (Nat.ltb_spec u (16 - r)).
  { eexists. split; [done|]. split; [apply Z.shiftr_nonneg, wrap_fits|]. intros n.
    rewrite tb_trim by (done || lia). rewrite Hp. nat_cases; simpl; try lia; try done.
    rewrite <-Nat.add_assoc. erewrite bit_at_word by (eauto; lia). f_equal. lia. }
  destruct (get_loop_spec u b (i * u) (q + 1) (16 - r) (u - (16 - r)) (shr w r))
    as (i' & x' & E & Hi & Hx); [done|lia..| |].
  { rewrite Hp. apply reads_word; [done..|lia]. }
  rewrite E. cbn [mbind option_bind].
  set (rest := (u - (16 - r)) mod 16) in *.
  assert (Hrest : rest < 16) by (apply Nat.mod_upper_bound; lia).
  assert (rest <= u - (16 - r)) by apply Nat.Div0.mod_le.
  destruct (Nat.eqb_spec rest 0) as [Hz|Hnz].
  { exists x'. split; [done|]. by replace (16 - r + (u - (16 - r) - rest)) with u in Hx by lia. }
  destruct (lookup_ok b i') as [w' Hw']; [lia|]. rewrite Hw'.
  pose proof (words_ok_lookup _ _ _ Hok Hw') as Hfw'. cbn [mbind option_bind].
  set (off := 16 - r + (u - (16 - r) - rest)) in *.
  destruct (Nat.ltb_spec (16 - rest) off).
  - eexists. split; [done|]. eapply reads_extend; [|done|apply wrap_fits|]; [lia|].
    intros n. rewrite tb_shl, tb_shl. nat_cases; simpl; try lia; try done.
    replace (i * u + n) with (16 * i' + (n - off)) by lia.
    erewrite bit_at_word by (eauto; lia). f_equal. lia.
  - eexists. split; [done|]. eapply reads_extend; [|done|apply Z.shiftr_nonneg, wrap_fits|]; [lia|].
    intros n. rewrite tb_shr, tb_shl. nat_cases; simpl; try lia; try done.
    replace (i * u + n) with (16 * i' + (n - off)) by lia.
    erewrite bit_at_word by (eauto; lia). f_equal. lia.
Qed.

(** ** Correctness of the packed array *)

(** Representation invariant: words are 16-bit, the unit size is usable, and a
    unit that is not entirely allocated has only zero bits. *)
Definition wf (m : CompactBitList) : Prop :=
  words_ok (words m) /\ 0 < unitBitSize m <= 64 /\
  forall i n, length (words m) * 16 < (i + 1) * unitBitSize m -> n < unitBitSize m ->
    bit_at (words m) (i * unitBitSize m + n) = false.

Lemma bit_at_past_end b p : length b * 16 <= p -> bit_at b p = false.
Proof.
  intros H. unfold bit_at. destruct (split16 p) as (q & r & Hp & Hr & -> & ->).
  rewrite lookup_ge_None_2 by lia. done.
Qed.

Lemma wf_new size : 0 < size <= 64 -> wf (NewCompactBitList size).
Proof.
  intros H. split; [constructor|]. split; [done|]. intros i n _ _. apply bit_at_past_end. simpl. lia.
Qed.

Lemma GetUnit_reads m i :
  wf m -> exists x, GetUnit m i = Some x /\ reads (words m) (i * unitBitSize m) (unitBitSize m) x.
Proof.
  intros (Hok & Hu & Hz). destruct (decide (length (words m) * 16 < (i + 1) * unitBitSize m)).
  - exists 0%Z. unfold GetUnit. rewrite (proj2 (Nat.ltb_lt _ _)) by done. split; [done|].
    split; [done|]. intros n. rewrite tb_zero. destruct (Nat.ltb_spec n (unitBitSize m)); [|done].
    rewrite Hz; done.
  - apply GetUnit_in_range; [done..|lia].
Qed.

Lemma bit_at_app_zeros b k p : bit_at (b ++ replicate k 0%Z) p = bit_at b p.
Proof.
  unfold bit_at. destruct (decide (p / 16 < length b)).
  - by rewrite lookup_app_l.
  - rewrite lookup_app_r by lia. rewrite (lookup_ge_None_2 b) by lia.
    destruct (replicate k 0%Z !! (p / 16 - length b)) eqn:E; [|done].
    apply lookup_replicate in E as [-> _]. apply tb_zero.
Qed.

Lemma growByUnitIndex_spec m i :
  let m' := growByUnitIndex m i in
  unitBitSize m' = unitBitSize m /\ unitNum m' = unitNum m /\
  (i + 1) * unitBitSize m <= length (words m') * 16 /\ length (words m) <= length (words m') /\
  (words_ok (words m) -> words_ok (words m')) /\
  forall p, bit_at (words m') p = bit_at (words m) p.
Proof.
  destruct m as [u b num]. unfold growByUnitIndex. cbn [unitBitSize words unitNum].
  destruct (Nat.ltb_spec (length b * 16) ((i + 1) * u)); cbn [unitBitSize words unitNum].
  - split; [done|]. split; [done|]. rewrite length_app, length_replicate.
    destruct (split16 ((i + 1) * u)) as (q & r & Hp & Hr & -> & ->). split; [|split; [|split]].
    + destruct (Nat.eqb_spec r 0); lia.
    + lia.
    + intros. apply Forall_app_2; [done|]. apply Forall_replicate, fits_0.
    + intros p. apply bit_at_app_zeros.
  - repeat split; auto; lia.
Qed.

(** Distinct units occupy disjoint bit ranges. *)
Lemma units_disjoint u i j n : i <> j -> n < u -> ~ (i * u <= j * u + n < (i + 1) * u).
Proof.
  intros Hij Hn [H1 H2]. destruct (Nat.lt_total i j) as [H|[H|H]]; [|lia|].
  - assert ((i + 1) * u <= j * u) by (apply Nat.mul_le_mono_r; lia). lia.
  - assert ((j + 1) * u <= i * u) by (apply Nat.mul_le_mono_r; lia). lia.
Qed.

Lemma SetUnit_writes m i v :
  wf m -> fits (unitBitSize m) v ->
  exists m', SetUnit m i v = Some m' /\ unitBitSize m' = unitBitSize m /\
    unitNum m' = Nat.max (unitNum m) (i + 1) /\
    (i + 1) * unitBitSize m <= length (words m') * 16 /\ length (words m) <= length (words m') /\
    words_ok (words m') /\
    forall p, bit_at (words m') p
      = if (i * unitBitSize m <=? p) && (p <? (i + 1) * unitBitSize m)
        then tb v (p - i * unitBitSize m) else bit_at (words m) p.
Proof.
  intros (Hok & Hu & Hz) Hv. unfold SetUnit.
  destruct (Nat.ltb_spec (unitBitSize m) (Len64 v)) as [Hlt|_].
  { apply Len64_fits in Hv; [lia|apply Hv]. }
  pose proof (growByUnitIndex_spec m i) as (Hs & Hn & Hlen & Hle & Hok' & Hb).
  set (g := growByUnitIndex m i) in *. rewrite Hs. specialize (Hok' Hok).
  destruct (split16 (i * unitBitSize m)) as (q & r & Hp & Hr & -> & ->).
  destruct (set_loop_spec (unitBitSize m) q r (unitBitSize m) v (words g))
    as (b' & E & HL & HB & HO); [lia..|]. rewrite E. cbn [mbind option_bind].
  eexists. split; [done|]. cbn [unitBitSize words unitNum]. rewrite Hn, HL.
  repeat split; auto; try lia.
  intros p. rewrite HB, Hb, <-Hp. replace ((i + 1) * unitBitSize m) with (i * unitBitSize m + unitBitSize m) by lia.
  done.
Qed.

(** Writing unit [i] changes unit [i] only; the invariant is kept and no index
    or size panic occurs. *)
Lemma SetUnit_correct m i v :
  wf m -> fits (unitBitSize m) v ->
  exists m', SetUnit m i v = Some m' /\ wf m' /\
    unitBitSize m' = unitBitSize m /\ unitNum m' = Nat.max (unitNum m) (i + 1) /\
    forall j, GetUnit m' j = if decide (i = j) then Some v else GetUnit m j.
Proof.
  intros Hwf Hv. destruct (SetUnit_writes m i v Hwf Hv) as (m' & E & Hs & Hn & Hlen & Hle & Hok' & Hb).
  assert (Hwf' : wf m').
  { destruct Hwf as (Hok & Hu & Hz). split; [done|]. rewrite Hs. split; [done|].
    intros j n Hj Hnu. rewrite Hb.
    destruct (decide (i = j)) as [->|Hij]; [lia|].
    pose proof (units_disjoint _ i j n Hij Hnu). nat_cases; cbn [andb]; try lia; apply Hz; lia. }
  exists m'. do 4 (split; [done|]). intros j.
  destruct (GetUnit_reads m' j Hwf') as (x & -> & Hx). rewrite Hs in Hx.
  destruct Hwf as (Hok & Hu & Hz). destruct (decide (i = j)) as [->|Hij].
  - f_equal. apply tb_inj; [apply Hx|apply Hv|]. intros n. destruct Hx as [_ ->]. rewrite Hb.
    destruct (Nat.ltb_spec n (unitBitSize m)); cbn [andb].
    + nat_cases; cbn [andb]; try lia. f_equal. lia.
    + symmetry. by apply (fits_tb (unitBitSize m)).
  - destruct (GetUnit_reads m j) as (y & -> & Hy); [done|]. f_equal.
    eapply reads_unique; [|exact Hy]. eapply reads_ext; [|exact Hx]. intros n Hnu. rewrite Hb.
    pose proof (units_disjoint _ i j n Hij Hnu). by nat_cases; cbn [andb]; try lia.
Qed.

(** [m] stores exactly the values [vs], and zero past them. *)
Definition holds (m : CompactBitList) (vs : list Z) : Prop :=
  wf m /\ unitNum m = length vs /\ forall i, GetUnit m i = Some (default 0%Z (vs !! i)).

Lemma holds_new size : 0 < size <= 64 -> holds (NewCompactBitList size) [].
Proof.
  intros Hs. split; [by apply wf_new|]. split; [done|]. intros i. unfold GetUnit. cbn [words unitBitSize NewCompactBitList length].
  destruct (Nat.ltb_spec (0 * 16) ((i + 1) * size)); [done|]. nia.
Qed.

Lemma Append_holds m vs v :
  holds m vs -> fits (unitBitSize m) v ->
  exists m', Append m v = Some m' /\ unitBitSize m' = unitBitSize m /\ holds m' (vs ++ [v]).
Proof.
  intros (Hwf & Hn & Hg) Hv. unfold Append.
  destruct (SetUnit_correct m (unitNum m) v Hwf Hv) as (m' & E & Hwf' & Hs & Hn' & Hg').
  exists m'. split; [done|]. split; [done|]. split; [done|]. split.
  { rewrite Hn', length_app. simpl. lia. }
  intros i. rewrite Hg', Hn. case_decide as Hi.
  - subst i. by rewrite list_lookup_middle.
  - rewrite Hg. do 2 f_equal. destruct (decide (i < length vs)).
    + by rewrite lookup_app_l.
    + rewrite lookup_ge_None_2, lookup_ge_None_2; [done| |lia]. rewrite length_app. simpl. lia.
Qed.

Lemma AppendAll_holds m vs ws :
  holds m vs -> Forall (fits (unitBitSize m)) ws ->
  exists m', AppendAll m ws = Some m' /\ unitBitSize m' = unitBitSize m /\ holds m' (vs ++ ws).
Proof.
  revert m vs. induction ws as [|w ws IH]; intros m vs Hm Hf; cbn [AppendAll].
  - exists m. by rewrite app_nil_r.
  - apply Forall_cons in Hf as [Hw Hf].
    destruct (Append_holds m vs w Hm Hw) as (m1 & -> & Hs & Hm1). cbn [mbind option_bind].
    destruct (IH m1 (vs ++ [w]) Hm1) as (m' & -> & Hs' & Hm'); [by rewrite Hs|].
    exists m'. split; [done|]. split; [congruence|]. by rewrite <-app_assoc in Hm'.
Qed.

(** ** The abstract array *)

(** The calls clients make, and the array they see: unset units read as zero. *)
Inductive bl_op := OpSet (i : nat) (v : Z) | OpAppend (v : Z).

Definition op_value (o : bl_op) : Z := match o with OpSet _ v | OpAppend v => v end.

Definition bl_step (m : CompactBitList) (o : bl_op) : option CompactBitList :=
  match o with OpSet i v => SetUnit m i v | OpAppend v => Append m v end.

Fixpoint bl_run (m : CompactBitList) (ops : list bl_op) : option CompactBitList :=
  match ops with [] => Some m | o :: ops => m ← bl_step m o; bl_run m ops end.

(** An array of [n] units of [size] bits; writing a wider value panics. *)
Definition array := ((nat -> Z) * nat)%type.

Definition array_step (size : nat) (a : array) (o : bl_op) : option array :=
  let '(f, n) := a in
  if bool_decide (fits size (op_value o)) then
    let i := match o with OpSet i _ => i | OpAppend _ => n end in
    Some (fun j => if decide (i = j) then op_value o else f j, Nat.max n (i + 1))
  else None.

Fixpoint array_run (size : nat) (a : array) (ops : list bl_op) : option array :=
  match ops with [] => Some a | o :: ops => a ← array_step size a o; array_run size a ops end.

Definition repr (m : CompactBitList) (a : array) : Prop :=
  wf m /\ unitNum m = a.2 /\ forall i, GetUnit m i = Some (a.1 i).

Lemma SetUnit_too_wide m i v : (0 <= v)%Z -> ~ fits (unitBitSize m) v -> SetUnit m i v = None.
Proof.
  intros Hv Hf. unfold SetUnit. destruct (Nat.ltb_spec (unitBitSize m) (Len64 v)); [done|].
  destruct Hf. by apply Len64_fits.
Qed.

Lemma bl_step_refines m a o :
  repr m a -> (0 <= op_value o)%Z ->
  match bl_step m o, array_step (unitBitSize m) a o with
  | Some m', Some a' => repr m' a' /\ unitBitSize m' = unitBitSize m
  | None, None => True
  | _, _ => False
  end.
Proof.
  destruct a as [f n]. intros (Hwf & Hn & Hg) Hv. unfold array_step.
  assert (Hstep : bl_step m o = SetUnit m (match o with OpSet i _ => i | OpAppend _ => n end) (op_value o)).
  { destruct o; [done|]. cbn in *. unfold Append. by rewrite Hn. }
  rewrite Hstep. set (i := match o with OpSet i _ => i | OpAppend _ => n end). case_bool_decide as Hf.
  - destruct (SetUnit_correct m i (op_value o) Hwf Hf) as (m' & -> & Hwf' & Hs & Hn' & Hg').
    split; [|done]. split; [done|]. cbn in *. split; [lia|]. intros j. rewrite Hg'. by case_decide.
  - by rewrite SetUnit_too_wide.
Qed.

(** Both panic, or both succeed and the list reads as the array. *)
Definition agree (m : option CompactBitList) (a : option array) : Prop :=
  match m, a with
  | Some m, Some (f, n) => unitNum m = n /\ forall i, GetUnit m i = Some (f i)
  | None, None => True
  | _, _ => False
  end.

(** A compact bit list of [size]-bit units behaves as an array of integers: after
    any sequence of [Set] and [Append] calls every [Get] returns the last value written
    to that unit (zero if none), [unitNum] is one more than the largest unit written,
    and the calls panic exactly when a value needs more than [size] bits. *)
Theorem CompactBitList_refines_array size ops :
  0 < size <= 64 -> Forall (fun o => 0 <= op_value o)%Z ops ->
  agree (bl_run (NewCompactBitList size) ops) (array_run size (fun _ => 0%Z, 0) ops).
Proof.
  intros Hs Hops. destruct (holds_new size Hs) as (Hwf & Hn & Hg).
  assert (Hr : repr (NewCompactBitList size) (fun _ => 0%Z, 0)) by done.
  change size with (unitBitSize (NewCompactBitList size)) at 2. clear Hwf Hn Hg.
  revert Hr. generalize (NewCompactBitList size) (fun _ : nat => 0%Z, 0). clear Hs.
  induction Hops as [|o ops Ho Hops IH]; intros m a Hr; cbn [bl_run array_run].
  - destruct a, Hr as (_ & ? & ?). done.
  - pose proof (bl_step_refines m a o Hr Ho) as H. destruct (bl_step m o) as [m'|], (array_step (unitBitSize m) a o) as [a'|]; try done.
    destruct H as [Hr' Hs]. cbn [mbind option_bind]. rewrite <-Hs. by apply IH.
Qed.

Lemma CompactBitList_refines_array_witness :
  agree (bl_run (NewCompactBitList 5) [OpAppend 3; OpSet 4 31; OpAppend 9]%Z)
        (array_run 5 (fun _ => 0%Z, 0) [OpAppend 3; OpSet 4 31; OpAppend 9]%Z).
Proof.
  apply (CompactBitList_refines_array 5 [OpAppend 3; OpSet 4 31; OpAppend 9]%Z); [lia|].
  repeat constructor; simpl; lia.
Defined.
