(* ===== verification/Netip.v ===== *)
(** * Addresses and prefixes (the parts of [net/netip] the sources use) *)

From S2P Require Import Prelude.

(** Bytes and Go strings are lists of integers in [0, 256). *)
Abbreviation bytes := (list Z).
Definition is_byte (c : Z) : Prop := fits 8 c.

Lemma Forall_forallb {A} (f : A -> bool) (P : A -> Prop) l : (forall x, f x = true -> P x) -> forallb f l = true -> Forall P l.
Proof. intros Hf H. apply Forall_forall. intros x Hx. apply Hf. rewrite forallb_forall in H. by apply H, list_elem_of_In. Qed.

(** Bytes, by computation. *)
Definition bytesb (l : bytes) : bool := forallb (fun x => (0 <=? x) && (x <? 256))%Z l.

Lemma bytesb_ok l : bytesb l = true -> Forall is_byte l.
Proof. apply Forall_forallb. intros x. unfold is_byte, fits. lia. Qed.

(** [netip.Addr]: the zero value, an IPv4 or an IPv6 address (zones are not used
    by the modelled code). *)
Inductive Addr :=
| AddrInvalid
| AddrV4 (a : bytes)   (* 4 bytes *)
| AddrV6 (a : bytes).  (* 16 bytes *)

#[export] Instance Addr_eq_dec : EqDecision Addr.
Proof. solve_decision. Defined.

#[export] Instance Addr_countable : Countable Addr.
Proof.
  refine (inj_countable' (fun a => match a with AddrInvalid => inl tt | AddrV4 b => inr (inl b) | AddrV6 b => inr (inr b) end)
    (fun x => match x with inl tt => AddrInvalid | inr (inl b) => AddrV4 b | inr (inr b) => AddrV6 b end) _). by intros [].
Defined.

Definition Is4 (a : Addr) : bool := match a with AddrV4 _ => true | _ => false end.
Definition Is6 (a : Addr) : bool := match a with AddrV6 _ => true | _ => false end.
Definition IsValid (a : Addr) : bool := match a with AddrInvalid => false | _ => true end.
Definition BitLen (a : Addr) : Z :=
  match a with AddrInvalid => 0%Z | AddrV4 _ => 32%Z | AddrV6 _ => 128%Z end.

(** The first twelve bytes of an IPv4-mapped IPv6 address. *)
Definition v4_mapped : bytes := [0; 0; 0; 0; 0; 0; 0; 0; 0; 0; 255; 255]%Z.

Definition As16 (a : Addr) : bytes :=
  match a with
  | AddrInvalid => replicate 16 0%Z
  | AddrV4 a => v4_mapped ++ a
  | AddrV6 a => a
  end.

Definition AddrFrom16 (a : bytes) : Addr := AddrV6 a.

Definition Is4In6 (a : Addr) : bool :=
  match a with AddrV6 a => bool_decide (take 12 a = v4_mapped) | _ => false end.

Definition Unmap (a : Addr) : Addr :=
  match a with AddrV6 b => if Is4In6 a then AddrV4 (drop 12 b) else a | _ => a end.

Definition Addr_wf (a : Addr) : Prop :=
  match a with
  | AddrInvalid => True
  | AddrV4 b => length b = 4 /\ Forall is_byte b
  | AddrV6 b => length b = 16 /\ Forall is_byte b
  end.

(** [netip.Prefix]; [Bits] is -1 for an invalid prefix. *)
Record Prefix := mkPrefix { pfx_addr : Addr; pfx_bits : Z }.

#[export] Instance Prefix_eq_dec : EqDecision Prefix.
Proof. solve_decision. Defined.

(** [netip.PrefixFrom]. *)
Definition PrefixFrom (a : Addr) (n : Z) : Prefix :=
  if (n <? 0)%Z || (BitLen a <? n)%Z || negb (IsValid a) then mkPrefix a (-1) else mkPrefix a n.

(** [netip.AddrPort]. *)
Record AddrPort := mkAddrPort { ap_addr : Addr; ap_port : Z }.

#[export] Instance AddrPort_eq_dec : EqDecision AddrPort.
Proof. solve_decision. Defined.

Definition AddrPort_IsValid (p : AddrPort) : bool := IsValid (ap_addr p).

(** The bits of a byte string, most significant first. *)
Definition byte_bits (c : Z) : list bool := map (fun j => tb c (7 - j)) (seq 0 8).
Definition bits_of (a : bytes) : list bool := flat_map byte_bits a.

(** The bytes of a string literal. *)
Fixpoint str (s : string) : bytes :=
  match s with
  | EmptyString => []
  | String c s => Z.of_nat (Ascii.nat_of_ascii c) :: str s
  end.

Lemma str_bytes s : Forall is_byte (str s).
Proof.
  induction s as [|c s IH]; [constructor|]. constructor; [|done].
  pose proof (Ascii.nat_ascii_bounded c). unfold is_byte, fits. simpl. lia.
Qed.
