(* ===== verification/Trie.v ===== *)
(** * The succinct string set (pkg/trie)

    Definitions of trie.go: the character table, 64-bit bitmaps with rank and
    select indexes, the breadth-first construction [NewTrie], the prefix query
    [HasPrefix] and the address query [HasPrefixIP] with its IPv4 cursor.
    Correctness is proved in TrieRank, TrieBuild and TrieCorrect. *)

From S2P Require Import Prelude Bitlist Netip.

(** ** Character tables *)

(** [vc_addr] is the identity of the Go pointer, which [NewTrie] and
    [HasPrefixIP] compare with [ValidCidrChars]. *)
Record ValidChars := mkValidChars {
  vc_addr : nat;
  vc_table : list Z;
  vc_n : Z;
  vc_zeroChar : Z;
}.

Definition NewValidChars (addr : nat) (validChars : bytes) : ValidChars :=
  fold_left (fun v c =>
    mkValidChars addr (<[Z.to_nat c := wrap 8 (vc_n v)]> (vc_table v)) (wrap 16 (vc_n v + 1))
      (if (vc_n v =? 0)%Z then c else vc_zeroChar v))
    validChars (mkValidChars addr (replicate 256 0%Z) 0 0).

Definition Size (v : ValidChars) : Z := vc_n v.

(** [v.table[c]] for a byte [c]. *)
Definition table_at (v : ValidChars) (c : Z) : Z := default 0%Z (vc_table v !! Z.to_nat c).

Definition IsValidChar (v : ValidChars) (c : Z) : bool :=
  (0 <? table_at v c)%Z || (c =? vc_zeroChar v)%Z.

(** '0' and '1'. *)
Definition ValidCidrChars : ValidChars := NewValidChars 0 [48; 49]%Z.

(** ** Bitmaps *)

Definition setBit (bm : list Z) (i : nat) (v : Z) : list Z :=
  let bm := bm ++ replicate (S (i / 64) - length bm) 0%Z in
  <[i / 64 := Z.lor (default 0%Z (bm !! (i / 64))) (shl 64 v (i mod 64))]> bm.

Definition getBit (bm : list Z) (i : nat) : option Z :=
  w ← bm !! (i / 64); Some (Z.land w (shl 64 1 (i mod 64))).

(** [math/bits.OnesCount64] and [TrailingZeros64]. *)
Definition OnesCount64 (w : Z) : nat := length (filter (fun n => tb w n = true) (seq 0 64)).

Definition TrailingZeros64 (w : Z) : nat :=
  default 64 (head (filter (fun n => tb w n = true) (seq 0 64))).

(** [countZeros]: zeros of the bitmap before bit [i]. *)
Definition countZeros (bm : list Z) (ranks : CompactBitList) (i : nat) : option nat :=
  r ← GetUnit ranks (i / 64);
  w ← bm !! (i / 64);
  Some (i - Z.to_nat r - OnesCount64 (Z.land w (shl 64 1 (i mod 64) - 1))).

(** The inner loop [w &= w - 1] of [selectIthOne]. *)
Fixpoint clear_ones (n : nat) (w : Z) : Z :=
  match n with 0 => w | S n => clear_ones n (Z.land w (w - 1)) end.

(** The word loop of [selectIthOne]: [i] is the word index. *)
Fixpoint select_loop (fuel i findIthOne : nat) (bm : list Z) : option nat :=
  match fuel with
  | 0 => None
  | S fuel =>
    w ← bm !! i;
    let n := OnesCount64 w in
    if n <=? findIthOne then select_loop fuel (S i) (findIthOne - n) bm
    else Some (i * 64 + TrailingZeros64 (clear_ones findIthOne w))
  end.

(** [selectIthOne]: the position of the [i]-th one.  [& ^63] clears the low six
    bits. *)
Definition selectIthOne (bm : list Z) (ranks selects : CompactBitList) (i : nat) : option nat :=
  s ← GetUnit selects (i / 64);
  let base := Z.to_nat s / 64 * 64 in
  r ← GetUnit ranks (base / 64);
  select_loop (length bm - base / 64) (base / 64) (i - Z.to_nat r) bm.

(** ** The trie *)

(** [node] is -1 on a miss. *)
Record ipCursor := mkCursor { cur_node : Z; cur_bitmap : nat }.

Record Trie := mkTrie {
  leaves : list Z;
  labelBitmap : list Z;
  labels : CompactBitList;
  ranksBL : CompactBitList;
  selectsBL : CompactBitList;
  chars : ValidChars;
  ipv4 : ipCursor;
}.

(** [int32(x)] and [uint64(v)] of an [int32]. *)
Definition to_int32 (x : Z) : Z :=
  let y := wrap 32 x in if (y <? 2 ^ 31)%Z then y else (y - 2 ^ 32)%Z.

(** [init]: cumulative counts of ones per word. *)
Fixpoint init_ranks (last : Z) (bm : list Z) : list Z :=
  match bm with
  | [] => []
  | w :: bm =>
    let r := to_int32 (last + to_int32 (Z.of_nat (OnesCount64 w))) in
    r :: init_ranks r bm
  end.

(** [init]: the position of every 64th one. *)
Fixpoint init_selects (fuel i n : nat) (bm : list Z) : list Z :=
  match fuel with
  | 0 => []
  | S fuel =>
    let z := tb (default 0%Z (bm !! (i / 64))) (i mod 64) in
    (if z && (n mod 64 =? 0) then [to_int32 (Z.of_nat i)] else [])
      ++ init_selects fuel (S i) (if z then S n else n) bm
  end.

Definition init (bm : list Z) : option (CompactBitList * CompactBitList) :=
  let ranks := 0%Z :: init_ranks 0 bm in
  let selects := init_selects (length bm * 64) 0 0 bm in
  lastRank ← last ranks;
  lastSelect ← last selects;
  ranksBL ← AppendAll (NewCompactBitList (Len64 (wrap 64 lastRank))) (map (wrap 64) ranks);
  selectsBL ← AppendAll (NewCompactBitList (Nat.max 1 (Len64 (wrap 64 lastSelect)))) (map (wrap 64) selects);
  Some (Tighten ranksBL, Tighten selectsBL).

(** ** Queries *)

(** The label scan [for ; ; bmIdx++] shared by [HasPrefix] and [seekIP]:
    [Some None] is a missing edge, [Some (Some i)] the matching bitmap index. *)
Fixpoint scan_labels (fuel : nat) (ss : Trie) (bmIdx nodeId : nat) (hit : Z -> bool)
    : option (option nat) :=
  match fuel with
  | 0 => None
  | S fuel =>
    bit ← getBit (labelBitmap ss) bmIdx;
    if negb (bit =? 0)%Z then Some None
    else
      l ← GetUnit (labels ss) (bmIdx - nodeId);
      if hit l then Some (Some bmIdx) else scan_labels fuel ss (S bmIdx) nodeId hit
  end.

Definition scan_fuel (ss : Trie) : nat := S (length (labelBitmap ss) * 64).

(** "Go to next level": the child node and its first bitmap index. *)
Definition descend (ss : Trie) (bmIdx : nat) : option (nat * nat) :=
  nodeId ← countZeros (labelBitmap ss) (ranksBL ss) (bmIdx + 1);
  one ← selectIthOne (labelBitmap ss) (ranksBL ss) (selectsBL ss) (nodeId - 1);
  Some (nodeId, one + 1).

Fixpoint HasPrefix_loop (ss : Trie) (nodeId bmIdx : nat) (word : bytes) : option bool :=
  leaf ← getBit (leaves ss) nodeId;
  match word with
  | [] => Some (negb (leaf =? 0)%Z)
  | c :: word =>
    if negb (leaf =? 0)%Z then Some true
    else if negb (IsValidChar (chars ss) c) then Some false
    else
      found ← scan_labels (scan_fuel ss) ss bmIdx nodeId
                (fun l => (wrap 8 l =? table_at (chars ss) c)%Z);
      match found with
      | None => Some false
      | Some bmIdx => '(nodeId, bmIdx) ← descend ss bmIdx; HasPrefix_loop ss nodeId bmIdx word
      end
  end.

(** [None] as a trie is the nil pointer, the empty set. *)
Definition HasPrefix (ss : option Trie) (word : bytes) : option bool :=
  match ss with None => Some false | Some ss => HasPrefix_loop ss 0 0 word end.

(** Bit [bit] of a 16-byte address, in network order. *)
Definition addr_bit (address : bytes) (bit : nat) : Z :=
  Z.land (shr (default 0%Z (address !! (bit / 8))) (7 - bit mod 8)) 1.

Fixpoint seekIP_loop (fuel : nat) (ss : Trie) (address : bytes) (bit stop node bitmap : nat)
    : option ipCursor :=
  match fuel with
  | 0 => Some (mkCursor (Z.of_nat node) bitmap)
  | S fuel =>
    if bit <? stop then
      leaf ← getBit (leaves ss) node;
      if negb (leaf =? 0)%Z then Some (mkCursor (Z.of_nat node) bitmap)
      else
        found ← scan_labels (scan_fuel ss) ss bitmap node (fun l => (l =? addr_bit address bit)%Z);
        match found with
        | None => Some (mkCursor (-1) 0)
        | Some bitmap =>
          '(node, bitmap) ← descend ss bitmap;
          seekIP_loop fuel ss address (S bit) stop node bitmap
        end
    else Some (mkCursor (Z.of_nat node) bitmap)
  end.

Definition seekIP (ss : Trie) (address : bytes) (start stop : nat) (cursor : ipCursor)
    : option ipCursor :=
  if (cur_node cursor <? 0)%Z then Some cursor
  else seekIP_loop (stop - start) ss address start stop (Z.to_nat (cur_node cursor)) (cur_bitmap cursor).

Definition HasPrefixIP (ss : option Trie) (address : bytes) : option bool :=
  match ss with
  | None => Some false
  | Some ss =>
    if negb (vc_addr (chars ss) =? vc_addr ValidCidrChars) then Some false
    else
      let '(cursor, start) :=
        if Is4In6 (AddrFrom16 address) then (ipv4 ss, 96) else (mkCursor 0 0, 0) in
      cursor ← seekIP ss address start 128 cursor;
      if (cur_node cursor <? 0)%Z then Some false
      else leaf ← getBit (leaves ss) (Z.to_nat (cur_node cursor)); Some (negb (leaf =? 0)%Z)
  end.

(** ** Construction *)

(** [keys[j][col]]. *)
Definition key_char (keys : list bytes) (j col : nat) : option Z := k ← keys !! j; k !! col.

Definition qElt := (nat * nat * nat)%type.  (* s, e, col *)

Record buildState := mkBuild {
  b_queue : list qElt;
  b_leaves : list Z;
  b_labels : CompactBitList;
  b_labelBitmap : list Z;
  b_lIdx : nat;
}.

(** [for ; j < elt.e && keys[j][elt.col] == keys[frm][elt.col]; j++]. *)
Fixpoint group_end (fuel : nat) (keys : list bytes) (col : nat) (c : Z) (j e : nat) : option nat :=
  match fuel with
  | 0 => Some j
  | S fuel =>
    if j <? e then
      x ← key_char keys j col;
      if (x =? c)%Z then group_end fuel keys col c (S j) e else Some j
    else Some j
  end.

(** [for j := elt.s; j < elt.e;]: one edge per distinct next character. *)
Fixpoint edge_loop (fuel : nat) (keys : list bytes) (cs : ValidChars) (j e col : nat)
    (st : buildState) : option buildState :=
  match fuel with
  | 0 => Some st
  | S fuel =>
    if j <? e then
      c ← key_char keys j col;
      j' ← group_end (e - j) keys col c j e;
      ls ← Append (b_labels st) (table_at cs c);
      edge_loop fuel keys cs j' e col
        (mkBuild (b_queue st ++ [(j, j', col + 1)]) (b_leaves st) ls
           (setBit (b_labelBitmap st) (b_lIdx st) 0) (b_lIdx st + 1))
    else Some st
  end.

(** One round of the breadth-first loop, for the node at queue index [i]. *)
Definition visit_node (keys : list bytes) (cs : ValidChars) (i : nat) (elt : qElt)
    (st : buildState) : option buildState :=
  let '(s, e, col) := elt in
  k ← keys !! s;
  let leaf := col =? length k in
  let s := if leaf then S s else s in
  let st := mkBuild (b_queue st) (if leaf then setBit (b_leaves st) i 1 else b_leaves st)
              (b_labels st) (b_labelBitmap st) (b_lIdx st) in
  st ← edge_loop (e - s) keys cs s e col st;
  Some (mkBuild (b_queue st) (b_leaves st) (b_labels st)
          (setBit (b_labelBitmap st) (b_lIdx st) 1) (b_lIdx st + 1)).

Fixpoint bfs_loop (fuel : nat) (keys : list bytes) (cs : ValidChars) (i : nat) (st : buildState)
    : option buildState :=
  match fuel with
  | 0 => None
  | S fuel =>
    match b_queue st !! i with
    | None => Some st
    | Some elt => st ← visit_node keys cs i elt st; bfs_loop fuel keys cs (S i) st
    end
  end.

(** Go's order on strings. *)
Fixpoint bytes_le (a b : bytes) : bool :=
  match a, b with
  | [], _ => true
  | _ :: _, [] => false
  | x :: a, y :: b => (x <? y)%Z || ((x =? y)%Z && bytes_le a b)
  end.

(** [slices.Sort]: the sorted permutation, here by insertion. *)
Fixpoint insert_key (k : bytes) (l : list bytes) : list bytes :=
  match l with
  | [] => [k]
  | x :: l => if bytes_le k x then k :: x :: l else x :: insert_key k l
  end.
Definition slices_Sort (l : list bytes) : list bytes := foldr insert_key [] l.

(** [slices.Compact]: drop equal neighbours. *)
Fixpoint slices_Compact (l : list bytes) : list bytes :=
  match l with
  | x :: l =>
    match l with
    | y :: _ => if bool_decide (x = y) then slices_Compact l else x :: slices_Compact l
    | [] => [x]
    end
  | [] => []
  end.

(** Rounds of [bfs_loop]: one per node, at most one node per key character, the
    root, and the final test. *)
Definition bfs_fuel (keys : list bytes) : nat := 2 + sum_list (map length keys).

Definition NewTrie (keys : list bytes) (cs : ValidChars) : res (option Trie) :=
  if length keys =? 0 then Ok None
  else
    let keys := slices_Compact (slices_Sort keys) in
    if negb (forallb (forallb (IsValidChar cs)) keys) then Err "char out of range"
    else
      st ← idx (bfs_loop (bfs_fuel keys) keys cs 0
             (mkBuild [(0, length keys, 0)] [] (NewCompactBitList (Len64 (Size cs))) [] 0));
      '(ranks, selects) ← idx (init (b_labelBitmap st));
      let ss := mkTrie (b_leaves st) (b_labelBitmap st) (Tighten (b_labels st)) ranks selects cs (mkCursor 0 0) in
      if vc_addr cs =? vc_addr ValidCidrChars then
        c ← idx (seekIP ss (v4_mapped ++ [0; 0; 0; 0]%Z) 0 96 (mkCursor 0 0));
        Ok (Some (mkTrie (leaves ss) (labelBitmap ss) (labels ss) ranks selects cs c))
      else Ok (Some ss).

(** The first [n] bits of an address as a string of '0' and '1'. *)
Fixpoint bin_loop (n : nat) (bs : list bool) : bytes :=
  match n, bs with
  | S n, b :: bs => (if b then 49 else 48)%Z :: bin_loop n bs
  | _, _ => []
  end.

Definition Prefix2bin128 (prefix : Prefix) : option bytes :=
  let n := pfx_bits prefix in
  if (n =? -1)%Z then None
  else
    let n := if Is4 (pfx_addr prefix) then (n + 96)%Z else n in
    Some (bin_loop (Z.to_nat n) (bits_of (As16 (pfx_addr prefix)))).

Definition NewTrieFromPrefixes (cidrs : list Prefix) : res (option Trie) :=
  keys ← idx (mapM Prefix2bin128 cidrs);
  NewTrie keys ValidCidrChars.
