(* ===== verification/TrieRank.v ===== *)
(** * Rank and select over the label bitmap (pkg/trie)

    A bitmap of 64-bit words is viewed as the list of its bits; the packed rank
    and select indexes built by [init] make [countZeros] and [selectIthOne]
    compute rank and select of that list. *)

From S2P Require Import Prelude Bitlist Netip Trie.

(** ** Bit lists *)

Fixpoint ones (l : list bool) : nat :=
  match l with [] => 0 | b :: l => (if b then 1 else 0) + ones l end.

Lemma ones_app l1 l2 : ones (l1 ++ l2) = ones l1 + ones l2.
Proof. induction l1; simpl; lia. Qed.

Lemma ones_le l : ones l <= length l.
Proof. induction l as [|[] l IH]; simpl; lia. Qed.

Lemma ones_replicate_false n : ones (replicate n false) = 0.
Proof. induction n; done. Qed.

Lemma ones_take_le l i : ones (take i l) <= ones l.
Proof. rewrite <-(take_drop i l) at 2. rewrite ones_app. lia. Qed.

Lemma ones_take_S (l : list bool) i (b : bool) :
  l !! i = Some b -> ones (take (S i) l) = ones (take i l) + (if b then 1 else 0).
Proof. intros H. erewrite take_S_r by done. rewrite ones_app. simpl. lia. Qed.

Lemma ones_take_true (l : list bool) i :
  l !! i = Some true -> ones (take (S i) l) = S (ones (take i l)).
Proof. intros H. rewrite (ones_take_S l i true) by done. lia. Qed.

Lemma ones_take_false (l : list bool) i :
  l !! i = Some false -> ones (take (S i) l) = ones (take i l).
Proof. intros H. rewrite (ones_take_S l i false) by done. lia. Qed.

Lemma ones_take_mono l i j : i <= j -> ones (take i l) <= ones (take j l).
Proof.
  intros H. replace j with (i + (j - i)) by lia. rewrite <-take_take_drop, ones_app. lia.
Qed.

(** [p] is the position of the [i]-th one of [l]. *)
Definition is_select (l : list bool) (i p : nat) : Prop :=
  l !! p = Some true /\ ones (take p l) = i.

Lemma is_select_lt l i p : is_select l i p -> i < ones l.
Proof.
  intros [Hp Hi]. pose proof (ones_take_true l p Hp). pose proof (ones_take_le l (S p)). lia.
Qed.

Lemma is_select_unique l i p q : is_select l i p -> is_select l i q -> p = q.
Proof.
  assert (Hlt : forall p q, p < q -> is_select l i p -> is_select l i q -> False).
  { clear. intros p q Hpq [Hp Hpi] [Hq Hqi]. pose proof (ones_take_true l p Hp).
    pose proof (ones_take_mono l (S p) q). lia. }
  intros Hp Hq. destruct (Nat.lt_total p q) as [H|[H|H]]; [|done|]; exfalso; eauto.
Qed.

(** ** Words and bitmaps as bit lists *)

Definition word_bits (w : Z) : list bool := map (tb w) (seq 0 64).
Definition bm_bits (bm : list Z) : list bool := flat_map word_bits bm.
Definition bm_ok (bm : list Z) : Prop := Forall (fits 64) bm.

Lemma length_word_bits w : length (word_bits w) = 64.
Proof. reflexivity. Qed.

Lemma length_bm_bits bm : length (bm_bits bm) = 64 * length bm.
Proof.
  induction bm as [|w bm IH]; [done|]. cbn [bm_bits flat_map]. rewrite length_app, length_word_bits.
  fold (bm_bits bm). simpl length. lia.
Qed.

Lemma lookup_map_seq {A} (f : nat -> A) n i : i < n -> map f (seq 0 n) !! i = Some (f i).
Proof. intros H. change (map f (seq 0 n)) with (f <$> seq 0 n). by rewrite list_lookup_fmap, lookup_seq_lt by done. Qed.

Lemma take_map_seq {A} (f : nat -> A) n i : i <= n -> take i (map f (seq 0 n)) = map f (seq 0 i).
Proof.
  intros H. change (fmap (M:=list)) with (@map nat A).
  rewrite firstn_map. f_equal. replace n with (i + (n - i)) by lia.
  rewrite seq_app, take_app_le by (rewrite length_seq; lia). apply take_ge. rewrite length_seq. lia.
Qed.

Lemma word_bits_lookup w i : i < 64 -> word_bits w !! i = Some (tb w i).
Proof. apply lookup_map_seq. Qed.

Lemma bm_bits_split bm k w :
  bm !! k = Some w ->
  take (64 * k) (bm_bits bm) = bm_bits (take k bm) /\
  drop (64 * k) (bm_bits bm) = word_bits w ++ bm_bits (drop (S k) bm).
Proof.
  intros H. rewrite <-(take_drop_middle bm k w H) at 1 3. apply lookup_lt_Some in H as Hlt.
  unfold bm_bits. rewrite flat_map_app. cbn [flat_map]. fold (bm_bits (take k bm)).
  assert (HL : length (bm_bits (take k bm)) = 64 * k).
  { rewrite length_bm_bits, length_take. lia. }
  split.
  - rewrite <-HL. apply take_app_length.
  - rewrite <-HL. apply drop_app_length.
Qed.

Lemma bm_bits_lookup bm p w :
  bm !! (p / 64) = Some w -> bm_bits bm !! p = Some (tb w (p mod 64)).
Proof.
  intros H. destruct (bm_bits_split _ _ _ H) as [_ Hd]. pose proof (Nat.div_mod_eq p 64) as Hp.
  pose proof (Nat.mod_upper_bound p 64). rewrite Hp at 1. rewrite <-lookup_drop, Hd.
  rewrite lookup_app_l by (rewrite length_word_bits; lia). apply word_bits_lookup. lia.
Qed.

Lemma bm_bits_lookup_Some bm p b :
  bm_bits bm !! p = Some b -> exists w, bm !! (p / 64) = Some w /\ b = tb w (p mod 64).
Proof.
  intros H. apply lookup_lt_Some in H as Hlt. rewrite length_bm_bits in Hlt.
  destruct (lookup_ok bm (p / 64)) as [w Hw]; [apply Nat.Div0.div_lt_upper_bound; lia|].
  exists w. split; [done|]. apply bm_bits_lookup in Hw. congruence.
Qed.

Lemma getBit_spec bm p b :
  bm_bits bm !! p = Some b ->
  exists z, getBit bm p = Some z /\ negb (z =? 0)%Z = b.
Proof.
  intros H. apply bm_bits_lookup_Some in H as (w & Hw & ->). unfold getBit. rewrite Hw.
  eexists. split; [done|]. pose proof (Nat.mod_upper_bound p 64).
  assert (Ht : forall n, tb (Z.land w (shl 64 1 (p mod 64))) n = tb w (p mod 64) && (n =? p mod 64)).
  { intros n. rewrite tb_land, tb_shl.
    destruct (Nat.eqb_spec n (p mod 64)) as [->|Hn].
    - rewrite Nat.sub_diag. nat_cases; try lia. cbn [andb]. change (tb 1 0) with true. done.
    - nat_cases; cbn [andb]; rewrite ?andb_false_r; try done. 
      replace (tb 1 (n - p mod 64)) with false; [by rewrite andb_false_r|].
      symmetry. apply (fits_tb 1); [unfold fits; lia|lia]. }
  destruct (tb w (p mod 64)) eqn:E.
  - destruct (Z.eqb_spec (Z.land w (shl 64 1 (p mod 64))) 0) as [Hz|]; [|done].
    specialize (Ht (p mod 64)). rewrite Hz, tb_zero, Nat.eqb_refl in Ht. done.
  - replace (Z.land w (shl 64 1 (p mod 64))) with 0%Z; [done|].
    apply Z.bits_inj'. intros n Hn. specialize (Ht (Z.to_nat n)). unfold tb in Ht.
    rewrite Z2Nat.id in Ht by done. by rewrite Ht, Z.testbit_0_l.
Qed.

(** ** Counting and selecting inside a word *)

(** The positions of the ones of a word, in increasing order. *)
Definition one_positions (w : Z) : list nat := filter (fun n => tb w n = true) (seq 0 64).

Lemma length_filter_ones (f : nat -> bool) l : length (filter (fun n => f n = true) l) = ones (map f l).
Proof.
  induction l as [|n l IH]; [done|]. rewrite filter_cons. case_decide as Hf; cbn [map ones].
  - rewrite Hf. simpl. lia.
  - destruct (f n); [done|]. simpl. lia.
Qed.

Lemma OnesCount64_word_bits w : OnesCount64 w = ones (word_bits w).
Proof. apply length_filter_ones. Qed.

Lemma filter_seq_select (f : nat -> bool) n i p :
  filter (fun k => f k = true) (seq 0 n) !! i = Some p ->
  p < n /\ f p = true /\ ones (map f (seq 0 p)) = i.
Proof.
  induction n as [|n IH] in i |- *; [done|]. rewrite seq_S, filter_app. simpl. intros H.
  apply lookup_app_Some in H as [H|[Hge H]].
  - apply IH in H as (? & ? & ?). split; [lia|done].
  - rewrite length_filter_ones in *. rewrite filter_cons, filter_nil in H.
    case_decide as Hf; [|done]. apply list_lookup_singleton_Some in H as [Hi <-].
    split; [lia|]. split; [done|lia].
Qed.

Lemma one_positions_select w i p :
  one_positions w !! i = Some p -> p < 64 /\ is_select (word_bits w) i p.
Proof.
  intros H. apply filter_seq_select in H as (Hp & Ht & Ho). split; [done|]. split.
  - rewrite word_bits_lookup by done. by rewrite Ht.
  - unfold word_bits. rewrite take_map_seq by lia. done.
Qed.

(** Splitting a number at bit [k]. *)
Lemma tb_split a b k n :
  fits k a -> tb (a + b * 2 ^ Z.of_nat k) n = if n <? k then tb a n else tb b (n - k).
Proof.
  intros [Ha1 Ha2]. destruct (Nat.ltb_spec n k).
  - assert (Hw : tb (wrap k (a + b * 2 ^ Z.of_nat k)) n = tb (a + b * 2 ^ Z.of_nat k) n).
    { rewrite tb_wrap. destruct (Nat.ltb_spec n k); [done|lia]. }
    rewrite <-Hw. unfold wrap. rewrite Z_mod_plus_full, Z.mod_small by lia. done.
  - replace n with (n - k + k) at 1 by lia. rewrite <-tb_shr. unfold shr.
    rewrite Z.shiftr_div_pow2, Z.div_add, Z.div_small by lia. done.
Qed.

Lemma one_positions_head w p :
  head (one_positions w) = Some p -> tb w p = true /\ forall n, n < p -> tb w n = false.
Proof.
  intros H. assert (Hl : one_positions w !! 0 = Some p) by (destruct (one_positions w); done).
  apply one_positions_select in Hl as (Hp & Ht & Ho).
  rewrite word_bits_lookup in Ht by done. injection Ht as Ht. split; [done|].
  intros n Hn. destruct (tb w n) eqn:E; [|done]. exfalso.
  assert (Hb : word_bits w !! n = Some true) by (rewrite word_bits_lookup by lia; by rewrite E).
  pose proof (ones_take_true _ _ Hb). pose proof (ones_take_mono (word_bits w) (S n) p). lia.
Qed.

(** [w & (w - 1)] clears the lowest one. *)
Lemma tb_clear_lowest w p n :
  fits 64 w -> tb w p = true -> (forall m, m < p -> tb w m = false) ->
  tb (Z.land w (w - 1)) n = tb w n && negb (n =? p).
Proof.
  intros Hw Hp Hlow. set (q := shr w (S p)).
  assert (E : w = (2 ^ Z.of_nat p + q * 2 ^ Z.of_nat (S p))%Z).
  { assert (Hf : fits (S p) (2 ^ Z.of_nat p)).
    { split; [lia|]. apply Z.pow_lt_mono_r; lia. }
    apply tb_inj; [apply Hw| |].
    - assert (0 <= q)%Z by (apply Z.shiftr_nonneg, Hw). lia.
    - intros m. rewrite tb_split by done. rewrite <-(Z.mul_1_l (2 ^ Z.of_nat p)), <-Z.shiftl_mul_pow2 by lia. rewrite tb_one_shl. unfold q. rewrite tb_shr.
      nat_cases; try lia; subst; auto.
      + apply Hlow. lia.
      + f_equal. lia. }
  assert (E1 : (w - 1 = Z.ones (Z.of_nat p) + q * 2 ^ Z.of_nat (S p))%Z).
  { rewrite Z.ones_equiv. lia. }
  assert (Hq : (0 <= q)%Z) by (apply Z.shiftr_nonneg, Hw).
  rewrite tb_land, E1, tb_split.
  - unfold tb at 2. destruct (Nat.ltb_spec n (S p)).
    + rewrite Z.testbit_ones_nonneg by lia.
      destruct (Nat.eqb_spec n p) as [->|Hn].
      * replace (Z.of_nat p <? Z.of_nat p)%Z with false by (symmetry; apply Z.ltb_ge; lia).
        by rewrite !andb_false_r.
      * rewrite Hlow by lia. done.
    + unfold q. rewrite tb_shr. replace (n - S p + S p) with n by lia.
      nat_cases; try lia. destruct (tb w n); done.
  - split; rewrite Z.ones_equiv; [lia|]. rewrite Nat2Z.inj_succ, Z.pow_succ_r by lia. lia.
Qed.

Lemma clear_lowest_positions w :
  fits 64 w -> one_positions w <> [] ->
  one_positions (Z.land w (w - 1)) = tail (one_positions w).
Proof.
  intros Hw Hne. destruct (one_positions w) as [|p l] eqn:E; [done|]. cbn [tail].
  destruct (one_positions_head w p) as [Hp Hlow]; [by rewrite E|].
  assert (Hnp : forall n, n ∈ l -> p <> n).
  { assert (Hnd : NoDup (one_positions w)) by (apply NoDup_filter, NoDup_seq).
    rewrite E in Hnd. apply NoDup_cons in Hnd as [Hnd _]. intros n Hn ->. done. }
  assert (Hf : filter (fun n => n <> p) (one_positions w) = l).
  { rewrite E, filter_cons. case_decide; [done|]. clear E Hne.
    induction l as [|n l IH]; [done|]. rewrite filter_cons. case_decide as Hn.
    - f_equal. apply IH. intros m Hm. apply Hnp. by right.
    - exfalso. apply (Hnp n); [by left|]. lia. }
  rewrite <-Hf. unfold one_positions. rewrite list_filter_filter.
  apply list_filter_iff. intros n. rewrite (tb_clear_lowest w p) by done.
  destruct (Nat.eqb_spec n p), (tb w n); simpl; split; intros; done || (split; done) || (destruct_and?; done).
Qed.

Lemma fits_land w x y : fits w x -> fits w (Z.land x y).
Proof.
  intros Hx. apply tb_fits.
  - apply Z.land_nonneg. left. apply Hx.
  - intros n Hn. rewrite tb_land, (fits_tb w x) by done. done.
Qed.

Lemma clear_ones_positions f w :
  fits 64 w -> f <= length (one_positions w) -> one_positions (clear_ones f w) = drop f (one_positions w).
Proof.
  revert w. induction f as [|f IH]; intros w Hw Hf; [by rewrite drop_0|]. cbn [clear_ones].
  assert (Hne : one_positions w <> []) by (intros E; rewrite E in Hf; simpl in Hf; lia).
  pose proof (clear_lowest_positions w Hw Hne) as Hc. rewrite IH.
  - rewrite Hc. by destruct (one_positions w).
  - by apply fits_land.
  - rewrite Hc. destruct (one_positions w); simpl in *; lia.
Qed.

(** Selecting inside one word. *)
Lemma select_in_word w f :
  fits 64 w -> f < OnesCount64 w ->
  exists p, TrailingZeros64 (clear_ones f w) = p /\ p < 64 /\ is_select (word_bits w) f p.
Proof.
  intros Hw Hf. change (OnesCount64 w) with (length (one_positions w)) in Hf.
  destruct (lookup_ok (one_positions w) f Hf) as [p Hp]. exists p. split.
  - unfold TrailingZeros64. fold (one_positions (clear_ones f w)).
    rewrite clear_ones_positions by (done || lia).
    rewrite (drop_S _ p) by done. done.
  - by apply one_positions_select.
Qed.

(** ** The rank index *)

Lemma ones_bm_bits_step bm k w :
  bm !! k = Some w ->
  ones (take (64 * S k) (bm_bits bm)) = ones (take (64 * k) (bm_bits bm)) + OnesCount64 w.
Proof.
  intros H. destruct (bm_bits_split _ _ _ H) as [Ht Hd].
  replace (64 * S k) with (64 * k + 64) by lia. rewrite <-take_take_drop, Hd, ones_app.
  rewrite take_app_le by (rewrite length_word_bits; lia). rewrite (take_ge (word_bits w)) by (rewrite length_word_bits; lia).
  by rewrite OnesCount64_word_bits.
Qed.

Lemma to_int32_id x : (0 <= x < 2 ^ 31)%Z -> to_int32 x = x.
Proof.
  intros H. unfold to_int32. rewrite wrap_id by (unfold fits; lia).
  destruct (Z.ltb_spec x (2 ^ 31)); lia.
Qed.

Lemma init_ranks_lookup acc bm k :
  (0 <= acc)%Z -> (acc + Z.of_nat (64 * length bm) < 2 ^ 31)%Z -> k < length bm ->
  init_ranks acc bm !! k = Some (acc + Z.of_nat (ones (take (64 * S k) (bm_bits bm))))%Z.
Proof.
  revert acc k. induction bm as [|w bm IH]; intros acc k Hacc Hb Hk; simpl in Hk; [lia|].
  assert (Hw : OnesCount64 w <= 64).
  { rewrite OnesCount64_word_bits. etrans; [apply ones_le|]. by rewrite length_word_bits. }
  cbn [length] in Hb. cbn [init_ranks].
  rewrite (to_int32_id (Z.of_nat (OnesCount64 w))) by lia.
  rewrite (to_int32_id (acc + Z.of_nat (OnesCount64 w))) by lia.
  assert (H0 : forall n, ones (take (64 + n) (bm_bits (w :: bm))) = OnesCount64 w + ones (take n (bm_bits bm))).
  { intros n. cbn [bm_bits flat_map]. rewrite take_app_ge by (rewrite length_word_bits; lia).
    rewrite length_word_bits, ones_app, OnesCount64_word_bits. repeat f_equal. lia. }
  destruct k as [|k].
  - cbn [lookup list_lookup]. replace (64 * 1) with (64 + 0) by lia. rewrite H0. simpl. do 2 f_equal. lia.
  - cbn [lookup list_lookup]. fold (bm_bits bm). rewrite IH by lia.
    replace (64 * S (S k)) with (64 + 64 * S k) by lia. rewrite H0. f_equal. lia.
Qed.

Lemma init_ranks_length acc bm : length (init_ranks acc bm) = length bm.
Proof. revert acc. induction bm; intros; simpl; auto. Qed.

(** [ranks]: the rank index of [bm]. *)
Definition rank_index (bm : list Z) (ranks : CompactBitList) : Prop :=
  forall k, k <= length bm -> GetUnit ranks k = Some (Z.of_nat (ones (take (64 * k) (bm_bits bm)))).

Lemma tb_low_mask r n : r < 64 -> tb (shl 64 1 r - 1) n = (n <? r).
Proof.
  intros Hr. unfold shl. rewrite wrap_id.
  - rewrite Z.shiftl_1_l. unfold tb. rewrite Z.sub_1_r, <-Z.ones_equiv, Z.testbit_ones_nonneg by lia.
    nat_cases; [apply Z.ltb_lt; lia|apply Z.ltb_ge; lia].
  - rewrite Z.shiftl_1_l. split; [lia|]. apply Z.pow_lt_mono_r; lia.
Qed.

Lemma OnesCount64_masked w r :
  r < 64 -> OnesCount64 (Z.land w (shl 64 1 r - 1)) = ones (take r (word_bits w)).
Proof.
  intros Hr. rewrite OnesCount64_word_bits. unfold word_bits at 2. rewrite take_map_seq by lia.
  unfold word_bits.
  assert (Hs : seq 0 64 = seq 0 r ++ seq r (64 - r)).
  { change r with (0 + r) at 2. rewrite <-(seq_app r (64 - r) 0). f_equal. lia. }
  rewrite Hs, map_app, ones_app.
  assert (Hhi : forall l, Forall (fun n => r <= n) l -> ones (map (tb (Z.land w (shl 64 1 r - 1))) l) = 0).
  { induction 1 as [|n l Hn _ IH]; [done|]. simpl. rewrite tb_land, tb_low_mask, IH by done.
    nat_cases; [lia|]. by rewrite andb_false_r. }
  rewrite (Hhi (seq r (64 - r))).
  - rewrite Nat.add_0_r. f_equal. apply map_ext_in. intros n Hn. apply in_seq in Hn.
    rewrite tb_land, tb_low_mask by done. nat_cases; [by rewrite andb_true_r|lia].
  - apply Forall_forall. intros n Hn. apply elem_of_seq in Hn. lia.
Qed.

(** [countZeros] is rank of zeros. *)
Lemma countZeros_spec bm ranks i :
  rank_index bm ranks -> i < 64 * length bm ->
  countZeros bm ranks i = Some (i - ones (take i (bm_bits bm))).
Proof.
  intros Hr Hi. unfold countZeros.
  assert (Hk : i / 64 < length bm) by (apply Nat.Div0.div_lt_upper_bound; lia).
  rewrite Hr by lia. cbn [mbind option_bind]. destruct (lookup_ok bm (i / 64) Hk) as [w Hw].
  rewrite Hw. cbn [mbind option_bind]. f_equal. pose proof (Nat.mod_upper_bound i 64).
  rewrite OnesCount64_masked by lia. destruct (bm_bits_split _ _ _ Hw) as [_ Hd].
  assert (Ht : ones (take i (bm_bits bm))
    = ones (take (64 * (i / 64)) (bm_bits bm)) + ones (take (i mod 64) (word_bits w))).
  { rewrite (Nat.div_mod_eq i 64) at 1. rewrite <-take_take_drop, Hd, ones_app.
    by rewrite take_app_le by (rewrite length_word_bits; lia). }
  rewrite Ht. lia.
Qed.

(** ** The select index *)

Lemma is_select_mono l i j p q : is_select l i p -> is_select l j q -> i <= j -> p <= q.
Proof.
  intros Hp Hq Hij. destruct (decide (p <= q)) as [|Hn]; [done|].
  destruct Hp as [Hp Hpi], Hq as [Hq Hqi].
  pose proof (ones_take_true l q Hq). pose proof (ones_take_mono l (S q) p). lia.
Qed.

Lemma ceil64_next n : n mod 64 = 0 -> (n + 63) / 64 = n / 64 /\ (S n + 63) / 64 = S (n / 64) /\ 64 * (n / 64) = n.
Proof.
  intros H. pose proof (Nat.div_mod_eq n 64) as Hn. rewrite H in Hn. repeat split.
  - symmetry. apply (Nat.div_unique _ _ _ 63); lia.
  - symmetry. apply (Nat.div_unique _ _ _ 0); lia.
  - lia.
Qed.

Lemma ceil64_same n : n mod 64 <> 0 -> (S n + 63) / 64 = (n + 63) / 64.
Proof.
  intros H. pose proof (Nat.div_mod_eq n 64) as Hn. pose proof (Nat.mod_upper_bound n 64).
  transitivity (S (n / 64)).
  - symmetry. apply (Nat.div_unique _ _ _ (n mod 64)); lia.
  - apply (Nat.div_unique _ _ _ (n mod 64 - 1)); lia.
Qed.

Lemma init_selects_spec bm fuel i n :
  (Z.of_nat (64 * length bm) < 2 ^ 31)%Z ->
  i + fuel = 64 * length bm -> n = ones (take i (bm_bits bm)) ->
  (forall k v, init_selects fuel i n bm !! k = Some v ->
     exists p, v = Z.of_nat p /\ is_select (bm_bits bm) (64 * ((n + 63) / 64 + k)) p) /\
  (forall k, 64 * ((n + 63) / 64 + k) < ones (bm_bits bm) -> k < length (init_selects fuel i n bm)).
Proof.
  intros Hsz. revert i n. induction fuel as [|fuel IH]; intros i n Hi Hn; cbn [init_selects].
  - split; [done|]. intros k Hk. exfalso. rewrite take_ge in Hn by (rewrite length_bm_bits; lia).
    rewrite <-Hn in Hk. pose proof (Nat.div_mod_eq (n + 63) 64).
    pose proof (Nat.mod_upper_bound (n + 63) 64). lia.
  - destruct (lookup_ok (bm_bits bm) i) as [z Hz]; [rewrite length_bm_bits; lia|].
    destruct (bm_bits_lookup_Some _ _ _ Hz) as (w & Hw & Hzw). rewrite Hw. change (default 0%Z (Some w)) with w.
    rewrite <-Hzw. destruct z; cbn [andb].
    + pose proof (ones_take_true _ _ Hz) as Hs.
      destruct (IH (S i) (S n)) as [IH1 IH2]; [lia|congruence|].
      destruct (Nat.eqb_spec (n mod 64) 0) as [Hm|Hm].
      * destruct (ceil64_next n Hm) as (E1 & E2 & E3). rewrite E1 in *. rewrite E2 in IH1, IH2.
        rewrite to_int32_id by lia. split.
        -- intros [|k] v Hv; cbn [app lookup list_lookup] in Hv.
           ++ injection Hv as <-. exists i. split; [done|]. split; [done|]. lia.
           ++ apply IH1 in Hv as (p & -> & Hp). exists p. split; [done|].
              by replace (n / 64 + S k) with (S (n / 64) + k) by lia.
        -- intros [|k] Hk; cbn [app length]; [lia|].
           apply (proj1 (Nat.succ_lt_mono _ _)), IH2. by replace (S (n / 64) + k) with (n / 64 + S k) by lia.
      * rewrite (ceil64_same n Hm) in *. done.
    + pose proof (ones_take_false _ _ Hz) as Hs.
      apply IH; [lia|congruence].
Qed.

Definition select_index (bm : list Z) (selects : CompactBitList) : Prop :=
  forall k, 64 * k < ones (bm_bits bm) ->
    exists p, GetUnit selects k = Some (Z.of_nat p) /\ is_select (bm_bits bm) (64 * k) p.

Lemma select_loop_spec bm fuel k f i :
  bm_ok bm -> fuel = length bm - k -> ones (take (64 * k) (bm_bits bm)) + f = i ->
  i < ones (bm_bits bm) ->
  exists p, select_loop fuel k f bm = Some p /\ is_select (bm_bits bm) i p.
Proof.
  intros Hok. revert k f. induction fuel as [|fuel IH]; intros k f Hf Hi Hlt; cbn [select_loop].
  - exfalso. rewrite take_ge in Hi by (rewrite length_bm_bits; lia). lia.
  - destruct (lookup_ok bm k) as [w Hw]; [lia|]. rewrite Hw. cbn [mbind option_bind].
    assert (Hfw : fits 64 w) by (by eapply Forall_lookup_1 in Hok).
    destruct (Nat.leb_spec (OnesCount64 w) f) as [Hle|Hgt].
    + apply IH; [lia| |done]. rewrite (ones_bm_bits_step _ _ w) by done. lia.
    + destruct (select_in_word w f Hfw Hgt) as (p & -> & Hp & Hsel & Hones). eexists. split; [done|].
      destruct (bm_bits_split _ _ _ Hw) as [_ Hd]. rewrite (Nat.mul_comm k 64). split.
      * rewrite <-lookup_drop, Hd, lookup_app_l by (rewrite length_word_bits; lia). done.
      * rewrite <-take_take_drop, Hd, ones_app, take_app_le by (rewrite length_word_bits; lia). lia.
Qed.

(** [selectIthOne] is select. *)
Lemma selectIthOne_spec bm ranks selects i :
  bm_ok bm -> rank_index bm ranks -> select_index bm selects -> i < ones (bm_bits bm) ->
  exists p, selectIthOne bm ranks selects i = Some p /\ is_select (bm_bits bm) i p.
Proof.
  intros Hok Hr Hs Hi. unfold selectIthOne.
  pose proof (Nat.div_mod_eq i 64). destruct (Hs (i / 64)) as (p & -> & Hp); [lia|].
  cbn [mbind option_bind]. rewrite Nat2Z.id.
  assert (Hb : p / 64 * 64 / 64 = p / 64) by (apply Nat.div_mul; lia). rewrite Hb.
  pose proof (Nat.div_mod_eq p 64). destruct Hp as [Hp Ho].
  apply lookup_lt_Some in Hp as Hpl. rewrite length_bm_bits in Hpl.
  assert (p / 64 < length bm) by (apply Nat.Div0.div_lt_upper_bound; lia).
  rewrite Hr by lia. cbn [mbind option_bind]. rewrite Nat2Z.id.
  pose proof (ones_take_mono (bm_bits bm) (64 * (p / 64)) p). 
  apply select_loop_spec; [done..|lia|done].
Qed.

Lemma fits_Len64 (x y : nat) : x <= y -> fits (Len64 (Z.of_nat y)) (Z.of_nat x).
Proof.
  intros H. assert (Hy : fits (Len64 (Z.of_nat y)) (Z.of_nat y)) by (apply Len64_fits; lia).
  unfold fits in *. lia.
Qed.

Lemma Len64_bounds (y w : nat) : fits w (Z.of_nat y) -> Len64 (Z.of_nat y) <= w.
Proof. intros H. apply Len64_fits; [lia|done]. Qed.

(** The packed list of naturals [vs], all at most [mx], in units of [size] bits. *)
Lemma packed_naturals size (vs : list nat) mx :
  0 < size <= 64 -> fits size (Z.of_nat mx) -> Forall (fun v => v <= mx) vs ->
  exists m, AppendAll (NewCompactBitList size) (map Z.of_nat vs) = Some m /\
    forall i v, vs !! i = Some v -> GetUnit m i = Some (Z.of_nat v).
Proof.
  intros Hs Hm Hv. destruct (AppendAll_holds (NewCompactBitList size) [] (map Z.of_nat vs))
    as (m & E & _ & _ & _ & Hg).
  - by apply holds_new.
  - apply Forall_map. eapply Forall_impl; [exact Hv|]. intros v Hle. simpl in *. unfold fits in *. lia.
  - exists m. split; [done|]. intros i v Hi. rewrite Hg. simpl.
    change (map Z.of_nat vs) with (Z.of_nat <$> vs). by rewrite list_lookup_fmap, Hi.
Qed.

Lemma map_wrap64 (vs : list nat) :
  Forall (fun v => (Z.of_nat v < 2 ^ 31)%Z) vs -> map (wrap 64) (map Z.of_nat vs) = map Z.of_nat vs.
Proof.
  induction 1 as [|v vs Hv _ IH]; [done|]. simpl. rewrite IH, wrap_id; [done|]. unfold fits. lia.
Qed.

Lemma init_ranks_naturals bm :
  (Z.of_nat (64 * length bm) < 2 ^ 31)%Z ->
  0%Z :: init_ranks 0 bm
  = map Z.of_nat (map (fun k => ones (take (64 * k) (bm_bits bm))) (seq 0 (S (length bm)))).
Proof.
  intros Hsz. apply list_eq. intros k. rewrite map_map.
  destruct (decide (k < S (length bm))).
  - rewrite lookup_map_seq by done. destruct k as [|k].
    + cbn [lookup list_lookup]. by rewrite Nat.mul_0_r.
    + cbn [lookup list_lookup]. rewrite init_ranks_lookup by lia. done.
  - rewrite !lookup_ge_None_2; [done|..].
    + rewrite length_map, length_seq. lia.
    + simpl. rewrite init_ranks_length. lia.
Qed.

Lemma last_map {A B} (f : A -> B) l : last (map f l) = f <$> last l.
Proof. apply fmap_last. Qed.

(** [init] succeeds and its indexes are the rank and select indexes of the
    bitmap, as long as bit positions fit an [int32]. *)
Lemma init_spec bm :
  bm_ok bm -> 0 < ones (bm_bits bm) -> (Z.of_nat (64 * length bm) < 2 ^ 31)%Z ->
  exists r s, init bm = Some (r, s) /\ rank_index bm r /\ select_index bm s.
Proof.
  intros Hok H1 Hsz. unfold init. rewrite init_ranks_naturals by done.
  set (B := bm_bits bm) in *. set (rs := map (fun k => ones (take (64 * k) B)) (seq 0 (S (length bm)))).
  assert (HB : ones B <= 64 * length bm).
  { etrans; [apply ones_le|]. unfold B. by rewrite length_bm_bits. }
  assert (Hall : take (64 * length bm) B = B) by (apply take_ge; unfold B; by rewrite length_bm_bits).
  assert (Hrs : Forall (fun v => v <= ones B) rs).
  { apply Forall_map, Forall_forall. intros k _. simpl. apply ones_take_le. }
  assert (Hlast : last rs = Some (ones B)).
  { unfold rs. rewrite seq_S, map_app, last_app. simpl. by rewrite Hall. }
  rewrite last_map, Hlast. cbn [mbind option_bind fmap option_fmap option_map].
  destruct (init_selects_spec bm (length bm * 64) 0 0 Hsz) as [Hsel Hlen]; [lia|done|].
  change ((0 + 63) / 64) with 0 in Hsel, Hlen. fold B in Hsel, Hlen.
  set (sel := init_selects (length bm * 64) 0 0 bm) in *.
  assert (exists ps, sel = map Z.of_nat ps /\ forall k p, ps !! k = Some p -> is_select B (64 * k) p)
    as (ps & Hps & Hpsel).
  { exists (map Z.to_nat sel). split.
    - rewrite map_map. symmetry. rewrite <-(map_id sel) at 2. apply map_ext_in.
      intros v Hv. apply list_elem_of_In, list_elem_of_lookup in Hv as [k Hk].
      apply Hsel in Hk as (p & -> & _). lia.
    - intros k p Hk. change (map Z.to_nat sel) with (Z.to_nat <$> sel) in Hk.
      apply list_lookup_fmap_Some in Hk as (v & -> & Hv). apply Hsel in Hv as (p' & -> & Hp').
      by rewrite Nat2Z.id. }
  assert (Hps0 : 0 < length ps).
  { rewrite <-(length_map Z.of_nat), <-Hps. apply Hlen. lia. }
  rewrite Hps, last_map. destruct (last ps) as [lp|] eqn:Hlp; [|apply last_None in Hlp; rewrite Hlp in Hps0; simpl in Hps0; lia].
  rewrite last_lookup in Hlp. cbn [mbind option_bind fmap option_fmap option_map].
  pose proof (Hpsel _ _ Hlp) as Hlp_sel.
  assert (Hlp_lt : lp < 64 * length bm).
  { destruct Hlp_sel as [Hl _]. apply lookup_lt_Some in Hl. unfold B in Hl. by rewrite length_bm_bits in Hl. }
  assert (Hps_le : Forall (fun p => p <= lp) ps).
  { apply Forall_lookup_2. intros k p Hk. eapply is_select_mono; [by apply Hpsel|exact Hlp_sel|].
    apply lookup_lt_Some in Hk. lia. }
  rewrite !map_wrap64, !wrap_id by
    (first [unfold fits; lia | eapply Forall_impl; [eassumption|]; intros; simpl in *; lia]).
  destruct (packed_naturals (Len64 (Z.of_nat (ones B))) rs (ones B)) as (r & -> & Hr).
  { split.
    - unfold Len64. destruct (Z.eqb_spec (Z.of_nat (ones B)) 0); lia.
    - apply Len64_bounds. unfold fits. lia. }
  { by apply fits_Len64. }
  { done. }
  destruct (packed_naturals (Nat.max 1 (Len64 (Z.of_nat lp))) ps lp) as (s & -> & Hs).
  { split; [lia|]. assert (Len64 (Z.of_nat lp) <= 64) by (apply Len64_bounds; unfold fits; lia). lia. }
  { eapply fits_mono; [|by apply fits_Len64]. lia. }
  { done. }
  cbn [mbind option_bind]. exists r, s. split; [done|]. split.
  - intros k Hk. apply Hr. unfold rs. rewrite lookup_map_seq by lia. done.
  - intros k Hk. fold B in Hk. assert (Hkl : k < length ps).
    { rewrite <-(length_map Z.of_nat), <-Hps. apply Hlen. lia. }
    destruct (lookup_ok ps k Hkl) as [p Hp]. exists p. split; [by apply Hs|by apply Hpsel].
Qed.
