(* ===== verification/TrieBuild.v ===== *)
(** * Construction of the trie (pkg/trie, NewTrie)

    The breadth-first loop numbers the nodes of the prefix tree of the sorted
    keys; this file shows which node each queue element is and what the leaf
    bitmap, the label array and the label bitmap contain when the loop ends,
    and that it ends. *)

From S2P Require Import Prelude Bitlist Netip Trie TrieRank.

(** ** Writing bitmaps *)

Definition bitd (bm : list Z) (p : nat) : bool := default false (bm_bits bm !! p).

Lemma bitd_word bm p : bitd bm p = tb (default 0%Z (bm !! (p / 64))) (p mod 64).
Proof.
  unfold bitd. destruct (bm !! (p / 64)) as [w|] eqn:E.
  - by rewrite (bm_bits_lookup _ _ w).
  - rewrite lookup_ge_None_2; [by rewrite tb_zero|]. rewrite length_bm_bits.
    apply lookup_ge_None in E. pose proof (Nat.div_mod_eq p 64). lia.
Qed.

Lemma lookup_pad (bm : list Z) n i :
  default 0%Z ((bm ++ replicate n 0%Z) !! i) = default 0%Z (bm !! i).
Proof.
  destruct (decide (i < length bm)).
  - by rewrite lookup_app_l.
  - rewrite lookup_app_r, (lookup_ge_None_2 bm) by lia.
    destruct (replicate n 0%Z !! (i - length bm)) eqn:E; [|done].
    by apply lookup_replicate in E as [-> _].
Qed.

Lemma length_setBit bm i v : length (setBit bm i v) = Nat.max (length bm) (S (i / 64)).
Proof. unfold setBit. rewrite length_insert, length_app, length_replicate. lia. Qed.

Lemma setBit_ok bm i v : bm_ok bm -> bm_ok (setBit bm i v).
Proof.
  intros H. unfold setBit.
  assert (H' : bm_ok (bm ++ replicate (S (i / 64) - length bm) 0%Z)).
  { apply Forall_app_2; [done|]. apply Forall_replicate, fits_0. }
  apply Forall_insert; [done|]. apply fits_lor; [|apply wrap_fits].
  destruct ((bm ++ _) !! (i / 64)) eqn:E; [|apply fits_0]. by eapply Forall_lookup_1 in H'.
Qed.

Lemma tb_bit_shifted (b : bool) r n : r < 64 -> tb (shl 64 (Z.b2z b) r) n = (n =? r) && b.
Proof.
  intros Hr. rewrite tb_shl. destruct (Nat.eqb_spec n r) as [->|Hn]; cbn [andb].
  - rewrite Nat.sub_diag. nat_cases; try lia. cbn [andb]. by destruct b.
  - replace (tb (Z.b2z b) (n - r)) with ((n - r =? 0) && b).
    + nat_cases; cbn [andb]; try lia; done.
    + destruct b; rewrite ?andb_false_r; [|by rewrite tb_zero]. rewrite andb_true_r.
      destruct (Nat.eqb_spec (n - r) 0) as [->|]; [done|].
      symmetry. apply (fits_tb 1); [unfold fits; simpl; lia|lia].
Qed.

Lemma setBit_bits bm i (b : bool) p :
  bitd (setBit bm i (Z.b2z b)) p = bitd bm p || ((p =? i) && b).
Proof.
  rewrite !bitd_word. unfold setBit. rewrite lookup_pad.
  pose proof (Nat.mod_upper_bound i 64). pose proof (Nat.div_mod_eq i 64). pose proof (Nat.div_mod_eq p 64).
  destruct (decide (p / 64 = i / 64)) as [Heq|Hne].
  - rewrite Heq, list_lookup_insert_eq by (rewrite length_app, length_replicate; lia).
    change (default 0%Z (Some ?w)) with w. rewrite tb_lor, tb_bit_shifted by lia.
    replace (p mod 64 =? i mod 64) with (p =? i); [done|]. nat_cases; try done; exfalso; subst; lia.
  - rewrite list_lookup_insert_ne by done. rewrite lookup_pad.
    destruct (Nat.eqb_spec p i) as [->|]; [done|]. by rewrite orb_false_r.
Qed.

(** [bm] holds exactly the bits [L], padded with zeros to whole words. *)
Definition bm_repr (bm : list Z) (L : list bool) : Prop :=
  bm_ok bm /\ length bm = (length L + 63) / 64 /\ forall p, bitd bm p = default false (L !! p).

Lemma bm_repr_nil : bm_repr [] [].
Proof. split; [constructor|]. done. Qed.

Lemma setBit_push bm L b :
  bm_repr bm L -> bm_repr (setBit bm (length L) (Z.b2z b)) (L ++ [b]).
Proof.
  intros (Hok & Hlen & Hb). split; [by apply setBit_ok|]. split.
  - rewrite length_setBit, length_app, Hlen. simpl length.
    pose proof (Nat.div_mod_eq (length L + 63) 64). pose proof (Nat.mod_upper_bound (length L + 63) 64).
    pose proof (Nat.div_mod_eq (length L) 64). pose proof (Nat.mod_upper_bound (length L) 64).
    pose proof (Nat.div_mod_eq (length L + 1 + 63) 64). pose proof (Nat.mod_upper_bound (length L + 1 + 63) 64). lia.
  - intros p. rewrite setBit_bits, Hb. destruct (Nat.eqb_spec p (length L)) as [->|Hp]; cbn [andb].
    + rewrite list_lookup_middle by done. rewrite lookup_ge_None_2 by done. done.
    + rewrite orb_false_r. destruct (decide (p < length L)).
      * by rewrite lookup_app_l.
      * rewrite !lookup_ge_None_2; [done| |lia]. rewrite length_app. simpl. lia.
Qed.

Lemma bm_repr_bits bm L :
  bm_repr bm L -> length L <= 64 * length bm /\ 64 * length bm < length L + 64 /\
  bm_bits bm = L ++ replicate (64 * length bm - length L) false.
Proof.
  intros (Hok & Hlen & Hb). pose proof (Nat.div_mod_eq (length L + 63) 64).
  pose proof (Nat.mod_upper_bound (length L + 63) 64). split; [lia|]. split; [lia|].
  apply list_eq_same_length with (64 * length bm).
  - by rewrite length_app, length_replicate; lia.
  - apply length_bm_bits.
  - intros i x y Hi Hx Hy. specialize (Hb i). unfold bitd in Hb. rewrite Hx in Hb. simpl in Hb. subst x.
    destruct (decide (i < length L)).
    + rewrite lookup_app_l in Hy by done. by rewrite Hy.
    + rewrite lookup_app_r in Hy by lia. apply lookup_replicate in Hy as [-> _].
      by rewrite lookup_ge_None_2 by lia.
Qed.

(** ** Sorted keys *)

Lemma bytes_le_refl a : bytes_le a a = true.
Proof. induction a as [|x a IH]; simpl; [done|]. by rewrite Z.eqb_refl, IH, orb_true_r. Qed.

Lemma bytes_le_cases x a y b :
  bytes_le (x :: a) (y :: b) = true <-> (x < y)%Z \/ (x = y /\ bytes_le a b = true).
Proof. simpl. rewrite orb_true_iff, andb_true_iff, Z.ltb_lt, Z.eqb_eq. done. Qed.

Lemma bytes_le_trans a b c : bytes_le a b = true -> bytes_le b c = true -> bytes_le a c = true.
Proof.
  revert b c. induction a as [|x a IH]; intros [|y b] [|z c] H1 H2; try done.
  apply bytes_le_cases in H1, H2. apply bytes_le_cases.
  destruct H1 as [?|[-> ?]], H2 as [?|[-> ?]]; eauto with lia.
Qed.

Lemma bytes_le_total a b : bytes_le a b = true \/ bytes_le b a = true.
Proof.
  revert b. induction a as [|x a IH]; intros [|y b]; auto. rewrite !bytes_le_cases.
  destruct (Z.lt_total x y) as [?|[->|?]]; auto. destruct (IH b); auto.
Qed.

Lemma bytes_le_antisym a b : bytes_le a b = true -> bytes_le b a = true -> a = b.
Proof.
  revert b. induction a as [|x a IH]; intros [|y b] H1 H2; try done.
  apply bytes_le_cases in H1, H2. destruct H1 as [?|[-> ?]], H2 as [?|[? ?]]; try lia. f_equal. auto.
Qed.

(** A key between two keys with a common prefix has that prefix. *)
Lemma prefix_between (p a b c : bytes) :
  p `prefix_of` a -> p `prefix_of` c -> bytes_le a b = true -> bytes_le b c = true -> p `prefix_of` b.
Proof.
  revert a b c. induction p as [|x p IH]; intros a b c Ha Hc Hab Hbc; [apply prefix_nil|].
  destruct a as [|xa a]; [by apply prefix_nil_not in Ha|].
  destruct c as [|xc c]; [by apply prefix_nil_not in Hc|].
  apply prefix_cons_inv_1 in Ha as Hx. apply prefix_cons_inv_2 in Ha.
  apply prefix_cons_inv_1 in Hc as Hx'. apply prefix_cons_inv_2 in Hc. subst xa xc.
  destruct b as [|y b]; [done|]. apply bytes_le_cases in Hab, Hbc.
  destruct Hab as [?|[-> ?]], Hbc as [?|[? ?]]; try lia. apply prefix_cons. eauto.
Qed.

Definition sorted_keys (keys : list bytes) : Prop :=
  forall i j a b, keys !! i = Some a -> keys !! j = Some b -> i < j -> bytes_le a b = true /\ a <> b.

Lemma insert_key_elem k l x : x ∈ insert_key k l <-> x = k \/ x ∈ l.
Proof.
  induction l as [|y l IH]; simpl; [by rewrite list_elem_of_singleton, elem_of_nil; naive_solver|].
  destruct (bytes_le k y); rewrite !elem_of_cons; [done|]. rewrite IH. naive_solver.
Qed.

Lemma slices_Sort_elem l x : x ∈ slices_Sort l <-> x ∈ l.
Proof.
  induction l as [|k l IH]; [done|]. cbn [slices_Sort foldr].
  rewrite insert_key_elem, elem_of_cons. fold (slices_Sort l). by rewrite IH.
Qed.

Inductive ascending : list bytes -> Prop :=
| asc_nil : ascending []
| asc_cons x l : (forall y, y ∈ l -> bytes_le x y = true) -> ascending l -> ascending (x :: l).

Lemma insert_key_ascending k l : ascending l -> ascending (insert_key k l).
Proof.
  induction 1 as [|x l Hx Hl IH]; simpl.
  { constructor; [|constructor]. by intros y ?%elem_of_nil. }
  destruct (bytes_le k x) eqn:E.
  - constructor; [|by constructor]. intros y [->|Hy]%elem_of_cons; [done|].
    eapply bytes_le_trans; eauto.
  - constructor; [|done]. intros y [->|Hy]%insert_key_elem; [|auto].
    destruct (bytes_le_total k x); congruence.
Qed.

Lemma slices_Sort_ascending l : ascending (slices_Sort l).
Proof. induction l; simpl; [constructor|]. by apply insert_key_ascending. Qed.

Lemma slices_Compact_elem l x : x ∈ slices_Compact l <-> x ∈ l.
Proof.
  induction l as [|a l IH]; [done|]. cbn [slices_Compact]. destruct l as [|b l]; [done|].
  case_bool_decide as Hab.
  - rewrite IH, !elem_of_cons. naive_solver.
  - rewrite (elem_of_cons _ x a), IH, (elem_of_cons (b :: l)). done.
Qed.

Lemma slices_Compact_sorted l :
  ascending l ->
  ascending (slices_Compact l) /\ NoDup (slices_Compact l).
Proof.
  induction l as [|a l IH]; intros Hl; [by repeat constructor|]. inversion Hl as [|? ? Ha Hl']; subst.
  destruct (IH Hl') as [IH1 IH2]. cbn [slices_Compact]. destruct l as [|b l].
  { split; [done|]. apply NoDup_singleton. }
  case_bool_decide as Hab; [done|]. split.
  - constructor; [|done]. intros y Hy. apply Ha. by apply slices_Compact_elem.
  - apply NoDup_cons. split; [|done]. rewrite slices_Compact_elem. intros Hin.
    apply Hab. apply bytes_le_antisym; [by apply Ha; left|].
    inversion Hl' as [|? ? Hb _]; subst. apply elem_of_cons in Hin as [->|Hin]; [apply bytes_le_refl|auto].
Qed.

Lemma ascending_lookup l i j a b :
  ascending l -> l !! i = Some a -> l !! j = Some b -> i < j -> bytes_le a b = true.
Proof.
  intros Hl. revert i j. induction Hl as [|x l Hx Hl IH]; intros i j Hi Hj Hij; [done|].
  destruct j as [|j]; [lia|]. destruct i as [|i].
  - injection Hi as <-. apply Hx. apply list_elem_of_lookup. eauto.
  - apply (IH i j); [done..|lia].
Qed.

Lemma normalized_keys_sorted l : sorted_keys (slices_Compact (slices_Sort l)).
Proof.
  destruct (slices_Compact_sorted (slices_Sort l)) as [Ha Hn]; [apply slices_Sort_ascending|].
  intros i j a b Hi Hj Hij. split; [by eapply ascending_lookup|]. intros ->.
  assert (i = j) by (by eapply NoDup_lookup). lia.
Qed.

Lemma normalized_keys_elem l x : x ∈ slices_Compact (slices_Sort l) <-> x ∈ l.
Proof. by rewrite slices_Compact_elem, slices_Sort_elem. Qed.

(** ** Edges of a node *)

(** [groups keys col j e gs]: [gs] splits [j, e) into the maximal runs of keys
    with the same character at column [col], as the inner loops do. *)
Inductive groups (keys : list bytes) (col : nat) : nat -> nat -> list (Z * qElt) -> Prop :=
| groups_nil j e : e <= j -> groups keys col j e []
| groups_cons j j' e c gs :
    j < j' -> j' <= e ->
    (forall x, j <= x < j' -> key_char keys x col = Some c) ->
    (j' < e -> key_char keys j' col <> Some c) ->
    groups keys col j' e gs ->
    groups keys col j e ((c, (j, j', col + 1)) :: gs).

Lemma groups_elem keys col j e gs c a b col' :
  groups keys col j e gs -> (c, (a, b, col')) ∈ gs ->
  col' = col + 1 /\ j <= a < b /\ b <= e /\
  (forall x, a <= x < b -> key_char keys x col = Some c) /\
  (a = j \/ key_char keys (a - 1) col <> Some c) /\
  (b = e \/ key_char keys b col <> Some c).
Proof.
  induction 1 as [|j j' e c0 gs Hj He Hc Hn Hgs IH]; [by intros ?%elem_of_nil|].
  intros [Heq|Hin]%elem_of_cons.
  - injection Heq as -> -> -> ->. split; [done|]. split; [lia|]. split; [done|]. split; [done|].
    split; [by left|]. destruct (decide (j' = e)); [by left|]. right. apply Hn. lia.
  - destruct (IH Hin) as (? & ? & ? & Hx & Ha & Hb). split; [done|]. split; [lia|].
    split; [done|]. split; [done|]. split; [|done]. right. destruct Ha as [->|Ha]; [|done].
    rewrite Hc by lia. intros [= ->]. apply Hn; [lia|]. apply Hx. lia.
Qed.

Lemma groups_cover keys col j e gs x :
  groups keys col j e gs -> j <= x < e ->
  exists c a b, (c, (a, b, col + 1)) ∈ gs /\ a <= x < b.
Proof.
  induction 1 as [|j j' e c0 gs Hj He Hc Hn Hgs IH]; intros Hx; [lia|].
  destruct (decide (x < j')).
  - exists c0, j, j'. split; [by left|lia].
  - destruct IH as (c & a & b & Hin & Hab); [lia|]. exists c, a, b. split; [by right|done].
Qed.

Lemma group_end_spec keys col c e fuel j :
  e - j <= fuel -> (forall x, j <= x < e -> is_Some (key_char keys x col)) -> j <= e ->
  exists j', group_end fuel keys col c j e = Some j' /\ j <= j' <= e /\
    (forall x, j <= x < j' -> key_char keys x col = Some c) /\
    (j' < e -> key_char keys j' col <> Some c).
Proof.
  revert j. induction fuel as [|fuel IH]; intros j Hf Hs Hj; cbn [group_end].
  - exists j. split; [done|]. split; [lia|]. split; [lia|]. lia.
  - destruct (Nat.ltb_spec j e) as [Hlt|Hge].
    + destruct (Hs j) as [x Hx]; [lia|]. rewrite Hx. cbn [mbind option_bind].
      destruct (Z.eqb_spec x c) as [->|Hne].
      * destruct (IH (S j)) as (j' & E & Hj' & Hr & Hm); [lia|intros; apply Hs; lia|lia|].
        exists j'. split; [done|]. split; [lia|]. split; [|done].
        intros y Hy. destruct (decide (y = j)) as [->|]; [done|]. apply Hr. lia.
      * exists j. split; [done|]. split; [lia|]. split; [lia|]. rewrite Hx. by intros _ [= ->].
    + exists j. split; [done|]. split; [lia|]. split; [lia|]. lia.
Qed.

(** ** Abstract contents of the build state *)

(** The state holds the queue, the leaf flags, the labels and the label bits. *)
Record build_repr (st : buildState) (Q : list qElt) (lf : list bool) (lb : list Z) (L : list bool) : Prop := {
  br_queue : b_queue st = Q;
  br_leaves_ok : bm_ok (b_leaves st);
  br_leaves : forall p, bitd (b_leaves st) p = default false (lf !! p);
  br_labels : holds (b_labels st) lb;
  br_bitmap : bm_repr (b_labelBitmap st) L;
  br_lIdx : b_lIdx st = length L;
}.

Definition labels_of (cs : ValidChars) (gs : list (Z * qElt)) : list Z :=
  map (fun g => table_at cs g.1) gs.

Lemma edge_loop_spec keys cs e col fuel j st Q lf lb L :
  build_repr st Q lf lb L -> e - j <= fuel -> j <= e ->
  (forall x, j <= x < e -> exists c, key_char keys x col = Some c /\
     fits (unitBitSize (b_labels st)) (table_at cs c)) ->
  exists gs st', edge_loop fuel keys cs j e col st = Some st' /\ groups keys col j e gs /\
    build_repr st' (Q ++ map snd gs) lf (lb ++ labels_of cs gs) (L ++ replicate (length gs) false) /\
    unitBitSize (b_labels st') = unitBitSize (b_labels st).
Proof.
  revert j st Q lb L. induction fuel as [|fuel IH]; intros j st Q lb L Hst Hf Hj Hc; cbn [edge_loop].
  - exists [], st. simpl. rewrite !app_nil_r. split; [done|]. split; [constructor; lia|done].
  - destruct (Nat.ltb_spec j e) as [Hlt|Hge].
    + destruct (Hc j) as (c & Hjc & Hfit); [lia|]. rewrite Hjc. cbn [mbind option_bind].
      destruct (group_end_spec keys col c e (e - j) j) as (j' & -> & Hj' & Hr & Hm);
        [lia|intros x Hx; destruct (Hc x Hx) as (? & ? & ?); eauto|lia|].
      assert (Hjj : j < j').
      { destruct (decide (j = j')) as [<-|]; [|lia]. destruct Hm; [lia|done]. }
      cbn [mbind option_bind]. destruct Hst as [Hq Hlo Hl Hlb Hbm Hix].
      destruct (Append_holds _ _ _ Hlb Hfit) as (ls & -> & Hsz & Hls). cbn [mbind option_bind].
      rewrite Hq, Hix. pose proof (setBit_push _ _ false Hbm) as Hbm'.
      set (st1 := mkBuild _ _ _ _ _).
      destruct (IH j' st1 (Q ++ [(j, j', col + 1)]) (lb ++ [table_at cs c]) (L ++ [false]))
        as (gs & st' & E & Hgs & Hrep & Hsz'); [|lia|lia| |].
      { split; simpl; auto. rewrite length_app. simpl. done. }
      { intros x Hx. simpl. rewrite Hsz. apply Hc. lia. }
      exists ((c, (j, j', col + 1)) :: gs), st'. split; [done|]. split; [by constructor; auto; lia|].
      split; [|by rewrite Hsz'].
      rewrite <-!app_assoc in Hrep. done.
    + exists [], st. simpl. rewrite !app_nil_r. split; [done|]. split; [constructor; lia|done].
Qed.

(** ** Nodes and key prefixes *)

(** The queue element [(s, e, col)] is the trie node of the prefix [p]: its range
    is exactly the keys that start with [p]. *)
Definition node_repr (keys : list bytes) (elt : qElt) (p : bytes) : Prop :=
  let '(s, e, col) := elt in
  length p = col /\ s < e /\ e <= length keys /\
  forall j k, keys !! j = Some k -> (s <= j < e <-> p `prefix_of` k).

Lemma root_repr keys : keys <> [] -> node_repr keys (0, length keys, 0) [].
Proof.
  intros Hne. split; [done|]. split; [destruct keys; simpl; done || lia|]. split; [done|].
  intros j k Hk. split; [intros; apply prefix_nil|]. intros _. apply lookup_lt_Some in Hk. lia.
Qed.

Lemma prefix_same_length (p k : bytes) : p `prefix_of` k -> length k = length p -> k = p.
Proof. intros [t ->] H. rewrite length_app in H. destruct t; [by rewrite app_nil_r|simpl in H; lia]. Qed.

Lemma prefix_bytes_le (p k : bytes) : p `prefix_of` k -> bytes_le p k = true.
Proof.
  intros [t ->]. induction p as [|x p IH]; [done|]. apply bytes_le_cases. right. by split.
Qed.

Section Nodes.
Context (keys : list bytes) (Hsorted : sorted_keys keys).
Context (s e col : nat) (p : bytes) (Hnode : node_repr keys (s, e, col) p).
Context (k : bytes) (Hk : keys !! s = Some k).

Definition first_edge : nat := if col =? length k then S s else s.

(** The head of the range is the shortest key: a leaf node stores its prefix. *)
Lemma leaf_iff : (col =? length k) = true <-> p ∈ keys.
Proof.
  destruct Hnode as (Hp & Hse & He & Hr). rewrite Nat.eqb_eq. split.
  - intros Hc. apply list_elem_of_lookup. exists s. rewrite Hk. f_equal.
    apply prefix_same_length; [|lia]. apply (Hr s); [done|lia].
  - intros Hin. apply list_elem_of_lookup in Hin as [j Hj].
    assert (Hjr : s <= j < e) by (apply (Hr j p Hj); done).
    destruct (decide (j = s)) as [->|Hne]; [rewrite Hk in Hj; injection Hj as ->; lia|].
    destruct (Hsorted s j k p) as [Hle Hneq]; [done..|lia|]. exfalso. apply Hneq.
    apply bytes_le_antisym; [done|]. apply prefix_bytes_le. apply (Hr s); [done|lia].
Qed.

(** Past the leaf, every key of the range continues after the prefix. *)
Lemma range_continues x : first_edge <= x < e ->
  exists c kx, keys !! x = Some kx /\ key_char keys x col = Some c /\ p ++ [c] `prefix_of` kx.
Proof.
  destruct Hnode as (Hp & Hse & He & Hr). unfold first_edge. intros Hx.
  destruct (lookup_ok keys x) as [kx Hkx]; [lia|].
  assert (Hpre : p `prefix_of` kx).
  { apply (Hr x kx Hkx). destruct (col =? length k); lia. }
  destruct Hpre as [t ->]. destruct t as [|c t].
  - exfalso. rewrite app_nil_r in Hkx. destruct (Nat.eqb_spec col (length k)) as [Hc|Hc].
    + destruct (Hsorted s x k p) as [_ Hne]; [done..|lia|]. apply Hne.
      apply prefix_same_length; [|lia]. apply (Hr s); [done|lia].
    + apply Hc, Nat.eqb_eq, leaf_iff. apply list_elem_of_lookup. eauto.
  - exists c, (p ++ c :: t). split; [done|]. split.
    + unfold key_char. rewrite Hkx. cbn [mbind option_bind]. by rewrite list_lookup_middle.
    + exists t. by rewrite <-app_assoc.
Qed.

Lemma key_char_prefix x kx c :
  keys !! x = Some kx -> p `prefix_of` kx -> key_char keys x col = Some c <-> p ++ [c] `prefix_of` kx.
Proof.
  destruct Hnode as (Hp & _). intros Hx [t ->]. unfold key_char. rewrite Hx. cbn [mbind option_bind].
  rewrite lookup_app_r by lia. replace (col - length p) with 0 by lia. split.
  - destruct t as [|c' t]; [done|]. intros [= ->]. exists t. by rewrite <-app_assoc.
  - intros [t' Ht]. rewrite <-app_assoc in Ht. apply app_inv_head in Ht as ->. done.
Qed.

Context (gs : list (Z * qElt)) (Hgs : groups keys col first_edge e gs).

Lemma first_edge_bounds : s <= first_edge /\ first_edge <= S s.
Proof. unfold first_edge. destruct (col =? length k); lia. Qed.

(** The edge labelled [c] leads to the node of [p ++ [c]]. *)
Lemma child_repr c child : (c, child) ∈ gs -> node_repr keys child (p ++ [c]).
Proof.
  intros Hin. destruct child as [[a b] col']. pose proof first_edge_bounds as Hfe.
  destruct (groups_elem _ _ _ _ _ _ _ _ _ Hgs Hin) as (-> & Ha & Hb & Hall & Hleft & Hright).
  destruct Hnode as (Hp & Hse & He & Hr).
  split; [rewrite length_app; simpl; lia|]. split; [lia|]. split; [lia|].
  assert (Hin_range : forall x kx, keys !! x = Some kx -> a <= x < b -> p ++ [c] `prefix_of` kx).
  { intros x kx Hkx Hx. apply (key_char_prefix x); [done| |by apply Hall]. apply (Hr x kx Hkx). lia. }
  intros j kj Hj. split; [by apply Hin_range|]. intros Hpre.
  destruct (lookup_ok keys a) as [ka Hka]; [lia|].
  assert (Hpj : p `prefix_of` kj) by (etrans; [|exact Hpre]; by apply prefix_app_r).
  assert (Hjr : s <= j < e) by (by apply (Hr j kj Hj)).
  destruct (decide (j < a)) as [Hja|]; [|destruct (decide (b <= j)) as [Hbj|]; [|lia]]; exfalso.
  - destruct Hleft as [Heq|Hleft].
    + unfold first_edge in *. destruct (Nat.eqb_spec col (length k)) as [Hc|]; [|lia].
      assert (j = s) as -> by lia. rewrite Hk in Hj. injection Hj as <-.
      apply prefix_length in Hpre. rewrite length_app in Hpre. simpl in Hpre. lia.
    + destruct (lookup_ok keys (a - 1)) as [kb Hkb]; [lia|]. apply Hleft.
      assert (Hkbpre : p ++ [c] `prefix_of` kb).
      { apply (prefix_between _ kj kb ka); [done|by apply (Hin_range a); [done|lia]| |].
        - destruct (decide (j = a - 1)) as [->|]; [rewrite Hj in Hkb; injection Hkb as ->; apply bytes_le_refl|].
          apply (Hsorted j (a - 1)); [done..|lia].
        - apply (Hsorted (a - 1) a); [done..|lia]. }
      apply (key_char_prefix (a - 1) kb); [done| |done]. etrans; [|exact Hkbpre]. by apply prefix_app_r.
  - destruct Hright as [->|Hright]; [lia|].
    destruct (lookup_ok keys b) as [kb Hkb]; [lia|]. apply Hright.
    assert (Hkbpre : p ++ [c] `prefix_of` kb).
    { apply (prefix_between _ ka kb kj); [by apply (Hin_range a); [done|lia]|done| |].
      - apply (Hsorted a b); [done..|lia].
      - destruct (decide (j = b)) as [->|]; [rewrite Hj in Hkb; injection Hkb as ->; apply bytes_le_refl|].
        apply (Hsorted b j); [done..|lia]. }
    apply (key_char_prefix b kb); [done| |done]. etrans; [|exact Hkbpre]. by apply prefix_app_r.
Qed.

(** Every continuation of [p] among the keys has an edge. *)
Lemma child_exists c x kx :
  keys !! x = Some kx -> p ++ [c] `prefix_of` kx -> exists child, (c, child) ∈ gs.
Proof.
  intros Hx Hpre. pose proof Hnode as (Hp & Hse & He & Hr).
  assert (Hpx : p `prefix_of` kx) by (etrans; [|exact Hpre]; by apply prefix_app_r).
  assert (Hxr : s <= x < e) by (by apply (Hr x kx Hx)).
  assert (Hfx : first_edge <= x).
  { unfold first_edge. destruct (Nat.eqb_spec col (length k)) as [Hc|]; [|lia].
    destruct (decide (x = s)) as [->|]; [|lia]. rewrite Hk in Hx. injection Hx as <-.
    apply prefix_length in Hpre. rewrite length_app in Hpre. simpl in Hpre. lia. }
  destruct (groups_cover _ _ _ _ _ x Hgs) as (c' & a & b & Hin & Hab); [lia|].
  exists (a, b, col + 1). replace c with c'; [done|].
  destruct (groups_elem _ _ _ _ _ _ _ _ _ Hgs Hin) as (_ & _ & _ & Hall & _).
  specialize (Hall x Hab). apply (key_char_prefix x kx) in Hpre; [|done..]. congruence.
Qed.
End Nodes.

(** ** The breadth-first loop *)

(** What the loop emits for one node: its leaf flag and its edges. *)
Definition node_info := (bool * list (Z * qElt))%type.

Definition node_spec (keys : list bytes) (elt : qElt) (g : node_info) : Prop :=
  let '(s, e, col) := elt in
  exists k, keys !! s = Some k /\ g.1 = (col =? length k) /\ groups keys col (first_edge s col k) e g.2.

Definition node_bits (g : node_info) : list bool := replicate (length g.2) false ++ [true].
Definition children (g : node_info) : list qElt := map snd g.2.

Lemma sum_list_with_app {A} (f : A -> nat) l1 l2 :
  sum_list_with f (l1 ++ l2) = sum_list_with f l1 + sum_list_with f l2.
Proof. induction l1; simpl; lia. Qed.

(** Characters still to be consumed by the keys of [a, b) past column [col]. *)
Definition wsum (keys : list bytes) (col a b : nat) : nat :=
  sum_list_with (fun x => length (default [] (keys !! x)) - col) (seq a (b - a)).

Lemma wsum_split keys col a b c : a <= b -> b <= c -> wsum keys col a c = wsum keys col a b + wsum keys col b c.
Proof.
  intros. unfold wsum. rewrite <-sum_list_with_app. f_equal.
  replace (c - a) with ((b - a) + (c - b)) by lia. rewrite seq_app. do 2 f_equal. lia.
Qed.

Lemma wsum_next keys col a b :
  (forall x, a <= x < b -> col < length (default [] (keys !! x))) ->
  wsum keys col a b = wsum keys (col + 1) a b + (b - a).
Proof.
  intros H. unfold wsum. remember (b - a) as n eqn:En. assert (Hb : b = a + n \/ n = 0) by lia. clear En.
  revert a H Hb. induction n as [|n IH]; intros a H Hb; [done|]. cbn [seq sum_list_with].
  destruct Hb as [->|]; [|lia]. rewrite (IH (S a)); [|intros; apply H; lia|lia].
  specialize (H a). lia.
Qed.

Definition weight (keys : list bytes) (elt : qElt) : nat :=
  let '(s, e, col) := elt in S (wsum keys col s e).

Lemma groups_weight keys col j e gs :
  groups keys col j e gs -> (forall x, j <= x < e -> col < length (default [] (keys !! x))) ->
  sum_list_with (weight keys) (map snd gs) <= wsum keys col j e.
Proof.
  induction 1 as [|j j' e c gs Hj He Hc Hn Hgs IH]; intros Hlen; simpl; [lia|].
  rewrite (wsum_split keys col j j' e) by lia. rewrite (wsum_next keys col j j') by (intros; apply Hlen; lia).
  assert (sum_list_with (weight keys) (map snd gs) <= wsum keys col j' e) by (apply IH; intros; apply Hlen; lia).
  lia.
Qed.

Lemma visit_node_spec keys cs i elt p st Q lf lb L :
  sorted_keys keys -> node_repr keys elt p ->
  (forall k c, k ∈ keys -> c ∈ k -> fits (unitBitSize (b_labels st)) (table_at cs c)) ->
  build_repr st Q lf lb L -> length lf = i ->
  exists g st', visit_node keys cs i elt st = Some st' /\ node_spec keys elt g /\
    build_repr st' (Q ++ children g) (lf ++ [g.1]) (lb ++ labels_of cs g.2) (L ++ node_bits g) /\
    unitBitSize (b_labels st') = unitBitSize (b_labels st) /\
    S (sum_list_with (weight keys) (children g)) <= weight keys elt /\
    (forall child, child ∈ children g -> exists q, node_repr keys child q).
Proof.
  destruct elt as [[s e] col]. intros Hsorted Hnode Hvalid [Hq Hlo Hl Hlb Hbm Hix] Hi.
  pose proof Hnode as (Hp & Hse & He & Hr). unfold visit_node.
  destruct (lookup_ok keys s) as [k Hk]; [lia|]. rewrite Hk. cbn [mbind option_bind].
  fold (first_edge s col k). pose proof (first_edge_bounds s col k) as Hfe.
  set (st1 := mkBuild _ _ _ _ _).
  assert (Hst1 : build_repr st1 Q (lf ++ [col =? length k]) lb L).
  { split; simpl; try done.
    - destruct (col =? length k); [by apply setBit_ok|done].
    - intros q. destruct (col =? length k) eqn:E.
      + change 1%Z with (Z.b2z true). rewrite setBit_bits, Hl, <-Hi.
        destruct (Nat.eqb_spec q (length lf)) as [->|Hne]; cbn [andb].
        * by rewrite list_lookup_middle, orb_true_r.
        * rewrite orb_false_r. destruct (decide (q < length lf)); [by rewrite lookup_app_l|].
          rewrite !lookup_ge_None_2; [done| |lia]. rewrite length_app. simpl. lia.
      + rewrite Hl. destruct (decide (q < length lf)); [by rewrite lookup_app_l|].
        destruct (decide (q = length lf)) as [->|].
        * rewrite list_lookup_middle, lookup_ge_None_2 by done. done.
        * rewrite !lookup_ge_None_2; [done| |lia]. rewrite length_app. simpl. lia. }
  pose proof (range_continues keys Hsorted s e col p Hnode k Hk) as Hcont.
  destruct (edge_loop_spec keys cs e col (e - first_edge s col k) (first_edge s col k) st1 Q
    (lf ++ [col =? length k]) lb L) as (gs & st' & E & Hgs & [Hq' Hlo' Hl' Hlb' Hbm' Hix'] & Hsz); [done|lia|lia| |].
  { intros x Hx. destruct (Hcont x Hx) as (c & kx & Hkx & Hc & Hpre). exists c. split; [done|].
    apply (Hvalid kx); [apply list_elem_of_lookup; eauto|]. destruct Hpre as [t ->].
    rewrite !elem_of_app, list_elem_of_singleton. auto. }
  rewrite E. cbn [mbind option_bind]. rewrite Hix'.
  exists (col =? length k, gs). eexists. split; [done|]. split; [by exists k|].
  pose proof (setBit_push _ _ true Hbm') as Hbm''. change (Z.b2z true) with 1%Z in Hbm''. split; [|split; [|split]].
  - unfold children, node_bits. cbn [fst snd]. rewrite app_assoc. split; simpl; try done.
    rewrite !length_app. simpl. lia.
  - done.
  - unfold children. cbn [weight snd]. apply le_n_S. rewrite (wsum_split keys col s (first_edge s col k) e) by lia.
    assert (sum_list_with (weight keys) (map snd gs) <= wsum keys col (first_edge s col k) e); [|lia].
    apply groups_weight; [done|]. intros x Hx. destruct (Hcont x Hx) as (c & kx & -> & _ & Hpre).
    apply prefix_length in Hpre. rewrite length_app in Hpre. simpl in *. lia.
  - intros child Hin. unfold children in Hin. cbn [snd] in Hin.
    apply list_elem_of_In, in_map_iff in Hin as ([c child'] & <- & Hin). exists (p ++ [c]).
    eapply child_repr; eauto. by apply list_elem_of_In.
Qed.

Definition root (keys : list bytes) : qElt := (0, length keys, 0).

(** The queue once the nodes described by [G] have been visited. *)
Definition queue_of (keys : list bytes) (G : list node_info) : list qElt :=
  root keys :: concat (map children G).

Definition all_labels (cs : ValidChars) (G : list node_info) : list Z :=
  concat (map (fun g => labels_of cs g.2) G).
Definition all_bits (G : list node_info) : list bool := concat (map node_bits G).

Definition built (cs : ValidChars) (keys : list bytes) (st : buildState) (G : list node_info) : Prop :=
  build_repr st (queue_of keys G) (map fst G) (all_labels cs G) (all_bits G).

(** Number of edges leaving the nodes [G]. *)
Definition edges (G : list node_info) : nat := length (concat (map children G)).

(** The visited nodes are described correctly, every node was queued before its
    visit, and queued nodes are nodes. *)
Definition visited (keys : list bytes) (G : list node_info) : Prop :=
  (forall t, t < length G -> t <= edges (take t G)) /\
  length G <= length (queue_of keys G) /\
  (forall t elt g, queue_of keys G !! t = Some elt -> G !! t = Some g -> node_spec keys elt g) /\
  (forall elt, elt ∈ queue_of keys G -> exists p, node_repr keys elt p).

Lemma queue_of_snoc keys G g : queue_of keys (G ++ [g]) = queue_of keys G ++ children g.
Proof. unfold queue_of. rewrite map_app, concat_app. simpl. by rewrite app_nil_r. Qed.

Lemma built_snoc cs keys st G g :
  build_repr st (queue_of keys G ++ children g) (map fst G ++ [g.1])
    (all_labels cs G ++ labels_of cs g.2) (all_bits G ++ node_bits g) ->
  built cs keys st (G ++ [g]).
Proof.
  unfold built, all_labels, all_bits. rewrite queue_of_snoc, !map_app, !concat_app. simpl.
  by rewrite !app_nil_r.
Qed.

Lemma visited_snoc keys G g elt :
  visited keys G -> queue_of keys G !! length G = Some elt -> node_spec keys elt g ->
  (forall child, child ∈ children g -> exists q, node_repr keys child q) ->
  visited keys (G ++ [g]).
Proof.
  intros (Hbefore & Hlen & Hspec & Hrep) He Hg Hc. apply lookup_lt_Some in He as Hlt.
  split; [|split; [|split]]; rewrite ?queue_of_snoc.
  - intros t Ht. rewrite length_app in Ht. cbn [length] in Ht. destruct (decide (t < length G)).
    + rewrite take_app_le by lia. auto.
    + replace t with (length G) by lia. rewrite take_app_length. unfold queue_of in Hlt.
      cbn [length] in Hlt. unfold edges. lia.
  - rewrite !length_app. cbn [length]. lia.
  - intros t elt' g' Ht Hg'. destruct (decide (t < length G)).
    + rewrite lookup_app_l in Ht by lia. rewrite lookup_app_l in Hg' by lia. eauto.
    + assert (t = length G) as ->.
      { apply lookup_lt_Some in Hg'. rewrite length_app in Hg'. simpl in Hg'. lia. }
      rewrite lookup_app_l in Ht by lia. rewrite list_lookup_middle in Hg' by done. congruence.
  - intros elt' [?|?]%elem_of_app; auto.
Qed.

Lemma bfs_loop_spec keys cs fuel st G :
  sorted_keys keys ->
  (forall k c, k ∈ keys -> c ∈ k -> fits (unitBitSize (b_labels st)) (table_at cs c)) ->
  built cs keys st G -> visited keys G ->
  sum_list_with (weight keys) (drop (length G) (queue_of keys G)) < fuel ->
  exists st' G', bfs_loop fuel keys cs (length G) st = Some st' /\
    built cs keys st' G' /\ visited keys G' /\ length G' = length (queue_of keys G') /\
    length G' <= length G + sum_list_with (weight keys) (drop (length G) (queue_of keys G)).
Proof.
  intros Hsorted. revert st G. induction fuel as [|fuel IH]; intros st G Hvalid Hb Hv Hw; [lia|].
  cbn [bfs_loop]. pose proof Hv as (_ & Hlen & Hspec & Hrep). rewrite (br_queue _ _ _ _ _ Hb).
  destruct (queue_of keys G !! length G) as [elt|] eqn:Helt.
  - destruct (Hrep elt) as [p Hp]; [apply list_elem_of_lookup; eauto|].
    destruct (visit_node_spec keys cs (length G) elt p st _ _ _ _ Hsorted Hp Hvalid Hb)
      as (g & st1 & -> & Hg & Hb1 & Hsz & Hwt & Hch); [by rewrite length_map|].
    cbn [mbind option_bind].
    assert (Hdrop : drop (length G) (queue_of keys G) = elt :: drop (S (length G)) (queue_of keys G)).
    { by apply drop_S. }
    assert (Hdrop' : drop (S (length G)) (queue_of keys (G ++ [g]))
      = drop (S (length G)) (queue_of keys G) ++ children g).
    { rewrite queue_of_snoc. apply lookup_lt_Some in Helt. apply drop_app_le. lia. }
    rewrite Hdrop in Hw |- *. cbn [sum_list_with] in Hw |- *.
    assert (HlenG : length (G ++ [g]) = S (length G)) by (rewrite length_app; simpl; lia).
    destruct (IH st1 (G ++ [g])) as (st' & G' & E & Hb' & Hv' & Hl' & Hn').
    + by rewrite Hsz.
    + by apply built_snoc.
    + by eapply visited_snoc.
    + rewrite HlenG, Hdrop', sum_list_with_app. lia.
    + rewrite HlenG in E, Hn'. rewrite Hdrop', sum_list_with_app in Hn'.
      exists st', G'. do 4 (split; [done|]). lia.
  - exists st, G. split; [done|]. split; [done|]. split; [done|]. split; [|lia].
    apply lookup_ge_None in Helt. lia.
Qed.
