(* ===== verification/TrieCorrect.v ===== *)
(** * Correctness of the trie queries (pkg/trie)

    [HasPrefix] on the trie built by [NewTrie] decides whether one of the keys
    is a prefix of the word, and [HasPrefixIP] whether one of the CIDRs contains
    the address. *)

From S2P Require Import Prelude Bitlist Netip Trie TrieRank TrieBuild.

(** ** Character tables *)

(** [l] is the alphabet of [v]: codes are the positions in [l]. *)
Definition alphabet (v : ValidChars) (l : bytes) : Prop :=
  l <> [] /\ length l <= 256 /\ vc_n v = Z.of_nat (length l) /\
  (forall c, is_byte c -> IsValidChar v c = true <-> c ∈ l) /\
  (forall i c, l !! i = Some c -> table_at v c = Z.of_nat i) /\
  (forall c, is_byte c -> c ∉ l -> table_at v c = 0%Z).

Lemma is_byte_inj c c' : is_byte c -> is_byte c' -> Z.to_nat c = Z.to_nat c' -> c = c'.
Proof. intros [? ?] [? ?]. lia. Qed.

Lemma fits8_nat n : n < 256 -> wrap 8 (Z.of_nat n) = Z.of_nat n.
Proof. intros. apply wrap_id. unfold fits. simpl. lia. Qed.

Lemma NewValidChars_table addr l :
  NoDup l -> Forall is_byte l -> length l <= 256 ->
  let v := NewValidChars addr l in
  vc_addr v = addr /\ length (vc_table v) = 256 /\ vc_n v = Z.of_nat (length l) /\
  (forall i c, l !! i = Some c -> table_at v c = Z.of_nat i) /\
  (forall c, is_byte c -> c ∉ l -> table_at v c = 0%Z) /\
  (forall c, head l = Some c -> vc_zeroChar v = c).
Proof.
  induction l as [|c0 l IH] using rev_ind; intros Hnd Hby Hlen v.
  { split; [done|]. split; [done|]. split; [done|]. split; [done|]. split; [|done].
    intros c _ _. unfold table_at, v, NewValidChars. cbn [fold_left vc_table].
    destruct (replicate 256 0%Z !! Z.to_nat c) eqn:E; [|done]. by apply lookup_replicate in E as [-> _]. }
  rewrite length_app in Hlen. simpl in Hlen. apply NoDup_app in Hnd as (Hnd & Hnot & _).
  apply Forall_app in Hby as [Hby Hc0]. apply Forall_cons in Hc0 as [Hc0 _].
  destruct IH as (Ha & Ht & Hn & Hi & Hz & Hh); [done|done|lia|].
  unfold v, NewValidChars in *. rewrite fold_left_app. cbn [fold_left].
  set (u := fold_left _ l _) in *. cbn [vc_addr vc_table vc_n vc_zeroChar].
  assert (Hc0n : Z.to_nat c0 < 256) by (unfold is_byte, fits in Hc0; simpl in Hc0; lia).
  assert (Htab : forall c, table_at (mkValidChars addr (<[Z.to_nat c0:=wrap 8 (vc_n u)]> (vc_table u))
      (wrap 16 (vc_n u + 1)) (if (vc_n u =? 0)%Z then c0 else vc_zeroChar u)) c
    = if decide (Z.to_nat c = Z.to_nat c0) then Z.of_nat (length l) else table_at u c).
  { intros c. unfold table_at. cbn [vc_table]. case_decide as He.
    - rewrite He, list_lookup_insert_eq by lia. simpl. rewrite Hn. apply fits8_nat. lia.
    - by rewrite list_lookup_insert_ne by done. }
  split; [done|]. split; [by rewrite length_insert|].
  split; [rewrite Hn, length_app, wrap_id; [simpl; lia|unfold fits; simpl; lia]|]. split; [|split].
  - intros i c Hic. rewrite Htab. apply lookup_app_Some in Hic as [Hic|[Hge Hic]].
    + case_decide as He; [|by apply Hi]. exfalso. apply (Hnot c); [apply list_elem_of_lookup; eauto|].
      apply list_elem_of_singleton. apply is_byte_inj; [|done|done]. by eapply Forall_lookup_1 in Hby.
    + apply list_lookup_singleton_Some in Hic as [Hi0 <-]. case_decide; [|done]. f_equal. lia.
  - intros c Hc Hnin. rewrite Htab. apply not_elem_of_app in Hnin as [Hn1 Hn2].
    case_decide as He; [|by apply Hz]. exfalso. apply Hn2, list_elem_of_singleton. by apply is_byte_inj.
  - intros c Hc. rewrite Hn. destruct l as [|x l]; simpl in Hc; [by injection Hc as ->|].
    injection Hc as ->. destruct (Z.eqb_spec (Z.of_nat (length (c :: l))) 0) as [H0|]; [simpl in H0; lia|].
    by apply Hh.
Qed.

Lemma NewValidChars_alphabet addr l :
  l <> [] -> NoDup l -> Forall is_byte l -> length l <= 256 -> alphabet (NewValidChars addr l) l.
Proof.
  intros Hne Hnd Hby Hlen. destruct (NewValidChars_table addr l Hnd Hby Hlen) as (_ & _ & Hn & Hi & Hz & Hh).
  split; [done|]. split; [done|]. split; [done|]. split; [|done].
  intros c Hc. unfold IsValidChar. rewrite orb_true_iff, Z.ltb_lt, Z.eqb_eq.
  destruct l as [|x l]; [done|]. rewrite (Hh x) by done. split.
  - intros [Hpos| ->]; [|by left]. destruct (decide (c ∈ x :: l)); [done|]. rewrite Hz in Hpos by done. lia.
  - intros [i Hic]%list_elem_of_lookup. rewrite (Hi i c) by done.
    destruct i as [|i]; [right|left; lia]. by injection Hic as ->.
Qed.

Lemma alphabet_fits v l c : alphabet v l -> is_byte c -> fits (Len64 (Size v)) (table_at v c).
Proof.
  intros (Hne & Hlen & Hn & _ & Hi & Hz) Hc. unfold Size. rewrite Hn.
  destruct (decide (c ∈ l)) as [[i Hic]%list_elem_of_lookup|Hnin].
  - rewrite (Hi i c) by done. apply fits_Len64. apply lookup_lt_Some in Hic. lia.
  - rewrite Hz by done. apply fits_0.
Qed.

Lemma alphabet_inj v l c c' :
  alphabet v l -> c ∈ l -> c' ∈ l -> table_at v c = table_at v c' -> c = c'.
Proof.
  intros (_ & _ & _ & _ & Hi & _) [i Hc]%list_elem_of_lookup [j Hc']%list_elem_of_lookup.
  rewrite (Hi i c), (Hi j c') by done. intros Heq. assert (i = j) as -> by lia. congruence.
Qed.

Lemma alphabet_unit v l : alphabet v l -> 0 < Len64 (Size v) <= 64.
Proof.
  intros (Hne & Hlen & Hn & _). unfold Size. rewrite Hn. destruct l as [|x l]; [done|]. split.
  - unfold Len64. destruct (Z.eqb_spec (Z.of_nat (length (x :: l))) 0) as [H|]; [simpl in H; lia|lia].
  - apply Len64_bounds. unfold fits. simpl in *. lia.
Qed.

(** ** The layout of the bitmap and of the labels *)

Lemma lookup_concat {A} (ls : list (list A)) i l t x :
  ls !! i = Some l -> l !! t = Some x -> concat ls !! (length (concat (take i ls)) + t) = Some x.
Proof.
  intros Hi Ht. assert (concat ls = concat (take i ls) ++ l ++ concat (drop (S i) ls)) as ->.
  { rewrite <-(take_drop_middle ls i l Hi) at 1. by rewrite concat_app. }
  rewrite lookup_app_r by lia. rewrite lookup_app_l by (apply lookup_lt_Some in Ht; lia).
  by replace (_ + t - _) with t by lia.
Qed.

Lemma lookup_map {A B} (f : A -> B) (l : list A) i x : l !! i = Some x -> map f l !! i = Some (f x).
Proof. intros Hi. by rewrite list_lookup_fmap, Hi. Qed.

Lemma concat_take_map {A B} (f : A -> list B) l i : concat (take i (map f l)) = concat (map f (take i l)).
Proof. by rewrite firstn_map. Qed.

Lemma all_bits_length G : length (all_bits G) = edges G + length G.
Proof.
  unfold all_bits, edges. induction G as [|g G IH]; [done|]. simpl. rewrite !length_app, IH.
  unfold node_bits, children. rewrite length_app, length_replicate, length_map. simpl. lia.
Qed.

Lemma all_labels_length cs G : length (all_labels cs G) = edges G.
Proof.
  unfold all_labels, edges. induction G as [|g G IH]; [done|]. simpl. rewrite !length_app, IH.
  unfold labels_of, children. by rewrite !length_map.
Qed.

Lemma all_bits_ones G : ones (all_bits G) = length G.
Proof.
  unfold all_bits. induction G as [|g G IH]; [done|]. simpl. rewrite ones_app, IH.
  unfold node_bits. rewrite ones_app, ones_replicate_false. done.
Qed.

(** First bitmap index of the node [i]. *)
Definition start (G : list node_info) (i : nat) : nat := edges (take i G) + i.

Lemma edges_step G i g : G !! i = Some g -> edges (take (S i) G) = edges (take i G) + length g.2.
Proof.
  intros Hg. erewrite take_S_r by done. unfold edges. rewrite map_app, concat_app, length_app. simpl.
  unfold children. rewrite app_nil_r, length_map. lia.
Qed.

Lemma edges_take_le G i : edges (take i G) <= edges G.
Proof.
  unfold edges. rewrite <-(take_drop i G) at 2. rewrite map_app, concat_app, length_app. lia.
Qed.

Lemma queue_of_length keys G : length (queue_of keys G) = S (edges G).
Proof. done. Qed.

Section Layout.
Context (G : list node_info) (i : nat) (g : node_info) (Hg : G !! i = Some g).

Lemma layout_prefix : take (start G i) (all_bits G) = all_bits (take i G).
Proof.
  rewrite <-(take_drop_middle G i g Hg) at 2. unfold all_bits. rewrite map_app, concat_app.
  apply take_app_length'. fold (all_bits (take i G)). rewrite all_bits_length. unfold start.
  rewrite length_take_le; [done|]. apply lookup_lt_Some in Hg. lia.
Qed.

Lemma layout_bit t b : node_bits g !! t = Some b -> all_bits G !! (start G i + t) = Some b.
Proof.
  intros Ht. pose proof (lookup_map node_bits _ _ _ Hg) as Hi.
  pose proof (lookup_concat _ _ _ _ _ Hi Ht) as H. rewrite concat_take_map in H.
  fold (all_bits (take i G)) in H. rewrite all_bits_length in H. unfold start.
  rewrite length_take_le in H; [done|]. apply lookup_lt_Some in Hg. lia.
Qed.

Lemma layout_edge_bit t : t < length g.2 -> all_bits G !! (start G i + t) = Some false.
Proof. intros Ht. apply layout_bit. unfold node_bits. rewrite lookup_app_l by (rewrite length_replicate; lia). by apply lookup_replicate_2. Qed.

Lemma layout_end_bit : all_bits G !! (start G i + length g.2) = Some true.
Proof.
  apply layout_bit. unfold node_bits. rewrite lookup_app_r by (rewrite length_replicate; lia).
  by rewrite length_replicate, Nat.sub_diag.
Qed.

Lemma layout_ones t : t <= length g.2 -> ones (take (start G i + t) (all_bits G)) = i.
Proof.
  induction t as [|t IH]; intros Ht.
  - rewrite Nat.add_0_r, layout_prefix, all_bits_ones, length_take_le; [done|]. apply lookup_lt_Some in Hg. lia.
  - rewrite Nat.add_succ_r, ones_take_false by (apply layout_edge_bit; lia). apply IH. lia.
Qed.

Lemma layout_select : is_select (all_bits G) i (start G (S i) - 1).
Proof.
  replace (start G (S i) - 1) with (start G i + length g.2)
    by (unfold start; rewrite (edges_step _ _ _ Hg); lia).
  split; [apply layout_end_bit|by apply layout_ones].
Qed.

Lemma layout_label cs t c child :
  g.2 !! t = Some (c, child) -> all_labels cs G !! (start G i + t - i) = Some (table_at cs c).
Proof.
  intros Ht. pose proof (lookup_map (fun g : node_info => labels_of cs g.2) _ _ _ Hg) as Hi.
  pose proof (lookup_map (fun g : Z * qElt => table_at cs g.1) _ _ _ Ht) as Hl.
  replace (start G i + t - i) with (length (all_labels cs (take i G)) + t)
    by (rewrite all_labels_length; unfold start; lia).
  unfold all_labels. rewrite <-concat_take_map. exact (lookup_concat _ _ _ _ _ Hi Hl).
Qed.

(** Children follow the root in the queue, in edge order. *)
Lemma layout_child keys t c child :
  g.2 !! t = Some (c, child) -> queue_of keys G !! S (edges (take i G) + t) = Some child.
Proof.
  intros Ht. unfold queue_of. cbn [lookup list_lookup].
  pose proof (lookup_map children _ _ _ Hg) as Hi. pose proof (lookup_map snd _ _ _ Ht) as Hl.
  pose proof (lookup_concat _ _ _ _ _ Hi Hl) as H. by rewrite concat_take_map in H.
Qed.
End Layout.

(** ** Queries on a well-built trie *)

(** [ss] stores the trie of [keys] over the alphabet [l]; [G] lists its nodes. *)
Record trie_ok (keys : list bytes) (ss : Trie) (l : bytes) (G : list node_info) : Prop := {
  tk_sorted : sorted_keys keys;
  tk_alphabet : alphabet (chars ss) l;
  tk_keys : forall k c, k ∈ keys -> c ∈ k -> c ∈ l;
  tk_bytes : Forall is_byte l;
  tk_visited : visited keys G;
  tk_all : length G = length (queue_of keys G);
  tk_leaves : forall p, bitd (leaves ss) p = default false (map fst G !! p);
  tk_labels : holds (labels ss) (all_labels (chars ss) G);
  tk_bitmap : bm_repr (labelBitmap ss) (all_bits G);
  tk_ranks : rank_index (labelBitmap ss) (ranksBL ss);
  tk_selects : select_index (labelBitmap ss) (selectsBL ss);
}.

Section Queries.
Context (keys : list bytes) (ss : Trie) (l : bytes) (G : list node_info) (Hok : trie_ok keys ss l G).

(** Node [i] is the node of the prefix [p]. *)
Definition is_node (i : nat) (p : bytes) : Prop :=
  exists elt, queue_of keys G !! i = Some elt /\ node_repr keys elt p.

Lemma is_node_info i p : is_node i p ->
  exists g, G !! i = Some g /\ (g.1 = true <-> p ∈ keys) /\
    (forall c child, (c, child) ∈ g.2 -> node_repr keys child (p ++ [c])) /\
    (forall c k, k ∈ keys -> p ++ [c] `prefix_of` k -> exists child, (c, child) ∈ g.2).
Proof.
  intros ([[s e] col] & Hq & Hn). pose proof (tk_visited _ _ _ _ Hok) as (_ & _ & Hspec & _).
  assert (is_Some (G !! i)) as [g Hg].
  { apply lookup_lt_is_Some. rewrite (tk_all _ _ _ _ Hok). by eapply lookup_lt_Some. }
  destruct (Hspec _ _ _ Hq Hg) as (k & Hk & Hleaf & Hgs). pose proof (tk_sorted _ _ _ _ Hok) as Hs.
  exists g. split; [done|]. split; [|split].
  - rewrite Hleaf. by eapply leaf_iff.
  - intros c child Hin. by eapply child_repr.
  - intros c k' [x Hx]%list_elem_of_lookup Hpre. by eapply child_exists.
Qed.

(** A child is queued after its parent, so the last node has no edge: it is a leaf. *)
Lemma last_node_leaf : exists g, G !! (length G - 1) = Some g /\ g.1 = true.
Proof.
  pose proof (tk_visited _ _ _ _ Hok) as (Hb & _ & Hspec & Hrep). pose proof (tk_all _ _ _ _ Hok) as Hall.
  assert (0 < length G) by (rewrite Hall; unfold queue_of; simpl; lia).
  destruct (lookup_lt_is_Some_2 G (length G - 1)) as [g Hg]; [lia|]. exists g. split; [done|].
  destruct (lookup_lt_is_Some_2 (queue_of keys G) (length G - 1)) as [elt Hq]; [lia|].
  assert (Hdeg : length g.2 = 0).
  { pose proof (edges_step _ _ _ Hg) as He. rewrite take_ge in He by lia.
    specialize (Hb (length G - 1)). rewrite queue_of_length in Hall. lia. }
  pose proof (Hspec _ _ _ Hq Hg) as Hs. destruct (Hrep elt) as [p Hp]; [apply list_elem_of_lookup; eauto|].
  destruct elt as [[s e] col]. destruct Hs as (k & Hk & -> & Hgs), Hp as (Hp & Hse & _).
  destruct (g.2) eqn:E; [|done]. inversion Hgs. unfold first_edge in *.
  destruct (col =? length k); [done|lia].
Qed.

Lemma leaf_bit i p : is_node i p ->
  exists z b, getBit (leaves ss) i = Some z /\ negb (z =? 0)%Z = b /\ (b = true <-> p ∈ keys).
Proof.
  intros (g & Hg & Hl & _)%is_node_info. pose proof (tk_leaves _ _ _ _ Hok) as Hlv.
  destruct last_node_leaf as (g' & Hg' & Ht). apply lookup_lt_Some in Hg as Hi.
  assert (Hlast : bitd (leaves ss) (length G - 1) = true).
  { rewrite Hlv. by rewrite (lookup_map fst _ _ _ Hg'). }
  assert (is_Some (bm_bits (leaves ss) !! i)) as [b Hb].
  { apply lookup_lt_is_Some. unfold bitd in Hlast.
    destruct (bm_bits (leaves ss) !! (length G - 1)) eqn:E; [|done]. apply lookup_lt_Some in E. unfold node_info in *. lia. }
  destruct (getBit_spec _ _ _ Hb) as (z & Hz & Hzb). exists z, b. split; [done|]. split; [done|].
  rewrite <-Hl. specialize (Hlv i). unfold bitd in Hlv. rewrite Hb, (lookup_map fst _ _ _ Hg) in Hlv.
  cbn in Hlv. by rewrite Hlv.
Qed.

Lemma bitmap_bit p b : all_bits G !! p = Some b -> bm_bits (labelBitmap ss) !! p = Some b.
Proof.
  intros H. destruct (bm_repr_bits _ _ (tk_bitmap _ _ _ _ Hok)) as (_ & _ & ->). by apply lookup_app_l_Some.
Qed.

Lemma scan_labels_spec hit i g fuel t :
  G !! i = Some g -> t <= length g.2 -> length g.2 - t < fuel ->
  (exists u c child, t <= u /\ g.2 !! u = Some (c, child) /\ hit (table_at (chars ss) c) = true /\
     scan_labels fuel ss (start G i + t) i hit = Some (Some (start G i + u))) \/
  (scan_labels fuel ss (start G i + t) i hit = Some None /\
     forall u c child, t <= u -> g.2 !! u = Some (c, child) -> hit (table_at (chars ss) c) = false).
Proof.
  intros Hg. revert t. induction fuel as [|fuel IH]; intros t Ht Hf; [lia|]. cbn [scan_labels].
  destruct (decide (t = length g.2)) as [->|Hne].
  - right. destruct (getBit_spec _ _ _ (bitmap_bit _ _ (layout_end_bit _ _ _ Hg))) as (z & -> & Hz).
    cbn [mbind option_bind]. rewrite Hz. split; [done|]. intros u c child Hu Hc. apply lookup_lt_Some in Hc. lia.
  - destruct (lookup_lt_is_Some_2 g.2 t) as [[c child] Hc]; [lia|].
    destruct (getBit_spec _ _ _ (bitmap_bit _ _ (layout_edge_bit _ _ _ Hg t ltac:(lia)))) as (z & -> & Hz).
    cbn [mbind option_bind]. rewrite Hz. destruct (tk_labels _ _ _ _ Hok) as (_ & _ & ->).
    rewrite (layout_label _ _ _ Hg _ _ _ _ Hc). cbn [mbind option_bind].
    change (default 0%Z (Some (table_at (chars ss) c))) with (table_at (chars ss) c).
    destruct (hit (table_at (chars ss) c)) eqn:Hh.
    + left. exists t, c, child. by auto.
    + rewrite <-Nat.add_succ_r. destruct (IH (S t)) as [(u & c' & ch' & Hu & H)|[Hs Hn]]; [lia|lia| |].
      * left. exists u, c', ch'. split; [lia|done].
      * right. split; [done|]. intros u c' ch' Hu Hc'. destruct (decide (u = t)) as [->|]; [congruence|].
        eapply Hn; [|done]. lia.
Qed.

Lemma descend_spec i g u c child p :
  is_node i p -> G !! i = Some g -> g.2 !! u = Some (c, child) ->
  exists n, descend ss (start G i + u) = Some (n, start G n) /\ is_node n (p ++ [c]).
Proof.
  intros Hn Hg Hu. destruct (is_node_info _ _ Hn) as (g' & Hg' & _ & Hch & _).
  rewrite Hg in Hg'. injection Hg' as <-. apply lookup_lt_Some in Hu as Hlt.
  pose proof (layout_child _ _ _ Hg keys _ _ _ Hu) as Hq. apply lookup_lt_Some in Hq as HqL.
  rewrite <-(tk_all _ _ _ _ Hok) in HqL. exists (S (edges (take i G) + u)). split.
  2: { eexists. split; [done|]. apply Hch, list_elem_of_lookup. eauto. }
  destruct (bm_repr_bits _ _ (tk_bitmap _ _ _ _ Hok)) as (HL & _ & HB). unfold descend.
  pose proof (lookup_lt_Some _ _ _ (layout_end_bit _ _ _ Hg)) as Hend.
  rewrite countZeros_spec by (first [apply (tk_ranks _ _ _ _ Hok)|lia]). cbn [mbind option_bind].
  rewrite HB, take_app_le by lia.
  assert (start G i + u + 1 - ones (take (start G i + u + 1) (all_bits G)) = S (edges (take i G) + u)) as ->.
  { replace (start G i + u + 1) with (start G i + S u) by lia.
    rewrite (layout_ones _ _ _ Hg) by lia. unfold start. lia. }
  set (m := edges (take i G) + u) in *. replace (S m - 1) with m by lia.
  destruct (lookup_lt_is_Some_2 G m) as [gm Hm]; [lia|].
  destruct (selectIthOne_spec (labelBitmap ss) (ranksBL ss) (selectsBL ss) m) as (q & -> & Hsel).
  - apply (tk_bitmap _ _ _ _ Hok).
  - apply (tk_ranks _ _ _ _ Hok).
  - apply (tk_selects _ _ _ _ Hok).
  - rewrite HB, ones_app, all_bits_ones. lia.
  - cbn [mbind option_bind]. do 2 f_equal.
    assert (q = start G (S m) - 1) as ->; [|unfold start; lia].
    eapply is_select_unique; [exact Hsel|]. rewrite HB. destruct (layout_select _ _ _ Hm) as [Hs1 Hs2].
    split; [by apply lookup_app_l_Some|]. rewrite take_app_le; [done|].
    apply lookup_lt_Some in Hs1. lia.
Qed.

Lemma edge_label_valid i p g c child :
  is_node i p -> G !! i = Some g -> (c, child) ∈ g.2 -> c ∈ l.
Proof.
  intros Hn Hg Hin. destruct (is_node_info _ _ Hn) as (g' & Hg' & _ & Hch & _).
  rewrite Hg in Hg'. injection Hg' as <-. specialize (Hch _ _ Hin). destruct child as [[s e] col].
  destruct Hch as (_ & Hse & He & Hr). destruct (lookup_lt_is_Some_2 keys s) as [k Hk]; [lia|].
  destruct (Hr s k Hk) as [Hpre _]. destruct Hpre as [t ->]; [lia|].
  eapply (tk_keys _ _ _ _ Hok); [apply list_elem_of_lookup; eauto|]. set_solver.
Qed.

(** One round of a query: follow the edge [c], or there is no key that way. *)
Lemma step_spec hit c i p :
  is_node i p -> (forall c', c' ∈ l -> hit (table_at (chars ss) c') = true <-> c' = c) ->
  (exists b n, scan_labels (scan_fuel ss) ss (start G i) i hit = Some (Some b) /\
     descend ss b = Some (n, start G n) /\ is_node n (p ++ [c])) \/
  (scan_labels (scan_fuel ss) ss (start G i) i hit = Some None /\
     forall k, k ∈ keys -> ~ (p ++ [c] `prefix_of` k)).
Proof.
  intros Hn Hhit. destruct (is_node_info _ _ Hn) as (g & Hg & _ & _ & Hex).
  destruct (bm_repr_bits _ _ (tk_bitmap _ _ _ _ Hok)) as (HL & _).
  pose proof (lookup_lt_Some _ _ _ (layout_end_bit _ _ _ Hg)) as Hend.
  destruct (scan_labels_spec hit i g (scan_fuel ss) 0 Hg) as [(u & c' & child & _ & Hu & Hh & Hs)|[Hs Hno]];
    [lia|unfold scan_fuel; lia| |]; rewrite Nat.add_0_r in Hs.
  - left. destruct (descend_spec _ _ _ _ _ _ Hn Hg Hu) as (n & Hd & Hnode). exists (start G i + u), n.
    split; [done|]. split; [done|]. assert (c' = c) as ->; [|done]. apply Hhit; [|done].
    eapply edge_label_valid; [exact Hn|exact Hg|]. apply list_elem_of_lookup. eauto.
  - right. split; [done|]. intros k Hk Hpre. destruct (Hex c k Hk Hpre) as [child Hin].
    pose proof (edge_label_valid _ _ _ _ _ Hn Hg Hin) as Hc. apply list_elem_of_lookup in Hin as [u Hu].
    specialize (Hno u c child ltac:(lia) Hu). apply (Hhit c) in Hc. destruct Hc as [_ Hc].
    rewrite Hc in Hno; done.
Qed.

Lemma prefix_cases (p k w : bytes) c : p `prefix_of` k -> k <> p ->
  k `prefix_of` p ++ c :: w -> p ++ [c] `prefix_of` k.
Proof.
  intros [t ->] Hne [t' Ht]. rewrite <-app_assoc in Ht. apply app_inv_head in Ht.
  destruct t as [|x t]; [by rewrite app_nil_r in Hne|]. injection Ht as -> _. exists t. by rewrite <-app_assoc.
Qed.

Lemma cons_snoc (p w : bytes) c : p ++ c :: w = (p ++ [c]) ++ w.
Proof. by rewrite <-app_assoc. Qed.

(** Some key lies on the path from [p] along [w]. *)
Definition key_on_path (p w : bytes) : Prop :=
  exists k, k ∈ keys /\ p `prefix_of` k /\ k `prefix_of` p ++ w.

Lemma key_on_path_here p w : p ∈ keys -> key_on_path p w.
Proof. intros Hp. exists p. split; [done|]. split; [done|]. by exists w. Qed.

Lemma key_on_path_cons p c w : p ∉ keys -> key_on_path p (c :: w) <-> key_on_path (p ++ [c]) w.
Proof.
  intros Hp. unfold key_on_path. rewrite cons_snoc. split; intros (k & Hk & Hpk & Hkw); exists k.
  - split; [done|]. split; [|done]. rewrite <-cons_snoc in Hkw. eapply prefix_cases; [done| |done]. by intros ->.
  - split; [done|]. split; [|done]. etrans; [|exact Hpk]. by exists [c].
Qed.

Lemma alphabet_hit c c' : c ∈ l -> c' ∈ l ->
  (wrap 8 (table_at (chars ss) c') =? table_at (chars ss) c)%Z = true <-> c' = c.
Proof.
  intros Hc Hc'. pose proof (tk_alphabet _ _ _ _ Hok) as Ha. pose proof Ha as (_ & Hlen & _ & _ & Hi & _).
  assert (wrap 8 (table_at (chars ss) c') = table_at (chars ss) c') as ->.
  { apply list_elem_of_lookup in Hc' as [i Hi']. rewrite (Hi i c' Hi'). apply fits8_nat.
    apply lookup_lt_Some in Hi'. lia. }
  rewrite Z.eqb_eq. split; [by eapply alphabet_inj|by intros ->].
Qed.

Lemma HasPrefix_loop_spec word i p :
  Forall is_byte word -> is_node i p ->
  exists b, HasPrefix_loop ss i (start G i) word = Some b /\ (b = true <-> key_on_path p word).
Proof.
  revert i p. induction word as [|c word IH]; intros i p Hby Hn;
    destruct (leaf_bit _ _ Hn) as (z & b & Hz & Hb & Hleaf); cbn [HasPrefix_loop]; rewrite Hz; cbn [mbind option_bind].
  - exists b. rewrite Hb. split; [done|]. rewrite Hleaf. split; [apply key_on_path_here|].
    intros (k & Hk & Hpk & Hkp). rewrite app_nil_r in Hkp. by rewrite <-(prefix_length_eq _ _ Hkp (prefix_length _ _ Hpk)).
  - rewrite Hb. destruct b.
    { exists true. split; [done|]. split; [intros _; by apply key_on_path_here, Hleaf|done]. }
    assert (Hp : p ∉ keys) by (by intros ?%Hleaf). apply Forall_cons in Hby as [Hc Hby].
    pose proof (tk_alphabet _ _ _ _ Hok) as (_ & _ & _ & Hval & _). specialize (Hval c Hc).
    destruct (IsValidChar (chars ss) c) eqn:Ev; cbn [negb]; setoid_rewrite (key_on_path_cons p c word Hp).
    + destruct (step_spec (fun l0 => (wrap 8 l0 =? table_at (chars ss) c)%Z) c i p Hn)
        as [(b & n & -> & Hd & Hnode)|[-> Hno]].
      * intros c' Hc'. apply alphabet_hit; [by apply Hval|done].
      * cbn [mbind option_bind]. rewrite Hd. cbn [mbind option_bind]. by apply IH.
      * cbn [mbind option_bind]. exists false. split; [done|]. split; [done|].
        intros (k & Hk & Hpk & _). by destruct (Hno k Hk).
    + exists false. split; [done|]. split; [done|]. intros (k & Hk & [t ->] & _).
      assert (false = true); [|done]. apply Hval. eapply (tk_keys _ _ _ _ Hok); [done|]. set_solver.
Qed.

(** ** Bit-directed descent *)

Context (Hchars : chars ss = ValidCidrChars) (Hl : l = [48; 49]%Z).

(** The bits [a .. b-1] of an address as the characters of a key. *)
Definition addr_path (address : bytes) (a b : nat) : bytes :=
  map (fun bit => 48 + addr_bit address bit)%Z (seq a (b - a)).

Lemma addr_path_cons address a b : a < b ->
  addr_path address a b = (48 + addr_bit address a)%Z :: addr_path address (S a) b.
Proof.
  intros Hab. unfold addr_path. replace (b - a) with (S (b - S a)) by lia. done.
Qed.

Lemma addr_bit_cases address bit : addr_bit address bit = 0%Z \/ addr_bit address bit = 1%Z.
Proof.
  unfold addr_bit. set (x := shr _ _). pose proof (Z.land_ones x 1 ltac:(lia)) as E.
  change (Z.ones 1) with 1%Z in E. pose proof (Z.mod_pos_bound x 2 eq_refl). rewrite E. change (2 ^ 1)%Z with 2%Z. lia.
Qed.

Lemma cidr_hit address bit c' : c' ∈ l ->
  (table_at (chars ss) c' =? addr_bit address bit)%Z = true <-> c' = (48 + addr_bit address bit)%Z.
Proof.
  rewrite Hl, Hchars, Z.eqb_eq. intros [-> | [-> | []%not_elem_of_nil]%elem_of_cons]%elem_of_cons.
  - change (table_at ValidCidrChars 48) with 0%Z. lia.
  - change (table_at ValidCidrChars 49) with 1%Z. lia.
Qed.

(** Where the descent from [p] along [w] stops: it fell off the trie, or it is
    at the first key on the way, or at the node of the whole path. *)
Definition seek_result (p w : bytes) (c : ipCursor) : Prop :=
  (cur_node c = (-1)%Z /\
     forall k, k ∈ keys -> p `prefix_of` k -> ~ (k `prefix_of` p ++ w) /\ ~ (p ++ w `prefix_of` k)) \/
  (exists i p', c = mkCursor (Z.of_nat i) (start G i) /\ is_node i p' /\
     p `prefix_of` p' /\ p' `prefix_of` p ++ w /\ (p' ∈ keys \/ p' = p ++ w) /\
     forall k, k ∈ keys -> p `prefix_of` k -> k `prefix_of` p' -> k = p').

Lemma prefix_antisym (a b : bytes) : a `prefix_of` b -> b `prefix_of` a -> a = b.
Proof. intros Ha Hb. by apply prefix_length_eq; [|apply prefix_length]. Qed.

Lemma seek_result_stop i p w : is_node i p -> p ∈ keys \/ w = [] ->
  seek_result p w (mkCursor (Z.of_nat i) (start G i)).
Proof.
  intros Hn Hc. right. exists i, p. split; [done|]. split; [done|]. split; [done|].
  split; [by exists w|]. split.
  - destruct Hc as [Hc| ->]; [by left|right; by rewrite app_nil_r].
  - intros k _ H1 H2. by apply prefix_antisym.
Qed.

Lemma seek_result_cons p c w cur :
  p ∉ keys -> seek_result (p ++ [c]) w cur -> seek_result p (c :: w) cur.
Proof.
  intros Hp. unfold seek_result. rewrite (cons_snoc p w c).
  assert (Hpc : p `prefix_of` p ++ [c]) by (by exists [c]).
  intros [[Hc Hno]|(i & p' & -> & Hn & Hpp & Hpw & Hor & Hfirst)].
  - left. split; [done|]. intros k Hk Hpk. split; intros Hkw.
    + assert (Hpk' : p ++ [c] `prefix_of` k); [|by destruct (Hno k Hk Hpk')].
      rewrite <-cons_snoc in Hkw. eapply prefix_cases; [done| |done]. by intros ->.
    + assert (Hpk' : p ++ [c] `prefix_of` k); [|by destruct (Hno k Hk Hpk')].
      etrans; [|exact Hkw]. by exists w.
  - right. exists i, p'. split; [done|]. split; [done|]. split; [by etrans|]. split; [done|]. split; [done|].
    intros k Hk Hpk Hkp. apply Hfirst; [done| |done]. apply (prefix_cases p k w); [done|by intros ->|].
    rewrite cons_snoc. by etrans.
Qed.

Lemma seekIP_loop_spec fuel address a stop i p :
  is_node i p -> a <= stop -> stop - a <= fuel ->
  exists c, seekIP_loop fuel ss address a stop i (start G i) = Some c /\
    seek_result p (addr_path address a stop) c.
Proof.
  revert a i p. induction fuel as [|fuel IH]; intros a i p Hn Ha Hf.
  { assert (a = stop) as -> by lia. unfold addr_path. rewrite Nat.sub_diag. eexists. split; [done|].
    apply seek_result_stop; auto. }
  cbn [seekIP_loop]. destruct (Nat.ltb_spec a stop) as [Hlt|Hge].
  2: { assert (a = stop) as -> by lia. unfold addr_path. rewrite Nat.sub_diag. eexists. split; [done|].
    apply seek_result_stop; auto. }
  destruct (leaf_bit _ _ Hn) as (z & b & -> & Hb & Hleaf). cbn [mbind option_bind]. rewrite Hb. destruct b.
  { eexists. split; [done|]. apply seek_result_stop; [done|]. left. by apply Hleaf. }
  assert (Hp : p ∉ keys) by (by intros ?%Hleaf). rewrite addr_path_cons by done.
  destruct (step_spec (fun l0 => (l0 =? addr_bit address a)%Z) (48 + addr_bit address a)%Z i p Hn)
    as [(b & n & -> & Hd & Hnode)|[-> Hno]]; [by apply cidr_hit| |]; cbn [mbind option_bind].
  - rewrite Hd. cbn [mbind option_bind]. destruct (IH (S a) n _ Hnode) as (c & Hc & Hres); [lia|lia|].
    exists c. split; [done|]. by apply seek_result_cons.
  - eexists. split; [done|]. left. split; [done|]. intros k Hk Hpk. split; intros Hkw; apply (Hno k Hk).
    + eapply prefix_cases; [done| |done]. by intros ->.
    + rewrite cons_snoc in Hkw. etrans; [|exact Hkw]. eexists. done.
Qed.
End Queries.

(** ** The trie built by [NewTrie] *)

Definition total_length (keys : list bytes) : nat := sum_list (map length keys).

(** The indexes of the trie fit the [int32] the ranks and selects are kept in. *)
Definition trie_fits (keys : list bytes) : Prop := (Z.of_nat (2 * total_length keys + 65) < 2 ^ 31)%Z.

Definition normalize (keys : list bytes) : list bytes := slices_Compact (slices_Sort keys).

(** [cs] is the CIDR alphabet when it is at its address. *)
Definition chars_id (cs : ValidChars) : Prop := vc_addr cs = vc_addr ValidCidrChars -> cs = ValidCidrChars.

Lemma total_insert k l : total_length (insert_key k l) = length k + total_length l.
Proof.
  unfold total_length. induction l as [|x l IH]; simpl; [done|]. destruct (bytes_le k x); simpl; [done|]. lia.
Qed.

Lemma total_sort l : total_length (slices_Sort l) = total_length l.
Proof. induction l as [|k l IH]; [done|]. change (slices_Sort (k :: l)) with (insert_key k (slices_Sort l)).
  rewrite total_insert, IH. done. Qed.

Lemma total_compact l : total_length (slices_Compact l) <= total_length l.
Proof.
  unfold total_length. induction l as [|x l IH]; [done|]. cbn [slices_Compact].
  destruct l as [|y l]; [done|]. case_bool_decide; simpl in *; lia.
Qed.

Lemma wsum_total keys : wsum keys 0 0 (length keys) = total_length keys.
Proof.
  unfold wsum, total_length. rewrite Nat.sub_0_r. induction keys as [|k keys IH] using rev_ind; [done|].
  rewrite length_app, Nat.add_1_r, seq_S, sum_list_with_app, map_app, sum_list_with_app. simpl.
  rewrite list_lookup_middle by done. f_equal; [|simpl; lia]. rewrite <-IH. unfold sum_list.
  assert (H : forall n, n <= length keys ->
    sum_list_with (fun x => length (default [] ((keys ++ [k]) !! x)) - 0) (seq 0 n)
    = sum_list_with (fun x => length (default [] (keys !! x)) - 0) (seq 0 n)); [|by apply H].
  induction n as [|n IHn]; intros Hn; [done|]. rewrite seq_S, !sum_list_with_app, IHn by lia. simpl.
  by rewrite lookup_app_l by lia.
Qed.

Lemma alphabet_all_valid cs l keys : alphabet cs l -> (forall k c, k ∈ keys -> c ∈ k -> is_byte c) ->
  forallb (forallb (IsValidChar cs)) keys = true <-> forall k c, k ∈ keys -> c ∈ k -> c ∈ l.
Proof.
  intros (_ & _ & _ & Hv & _) Hby. rewrite forallb_forall. split.
  - intros H k c Hk Hc. specialize (H k ltac:(by apply list_elem_of_In)). rewrite forallb_forall in H.
    apply Hv; [by eapply Hby|]. apply H. by apply list_elem_of_In.
  - intros H k Hk%list_elem_of_In. rewrite forallb_forall. intros c Hc%list_elem_of_In.
    apply Hv; [by eapply Hby|]. by eapply H.
Qed.

Lemma root_is_node keys G : keys <> [] -> is_node keys G 0 [].
Proof. intros Hne. exists (root keys). split; [done|]. by apply root_repr. Qed.

Lemma start_0 G : start G 0 = 0.
Proof. done. Qed.

Lemma normalize_nil keys : keys <> [] -> normalize keys <> [].
Proof.
  intros Hne Hn. destruct keys as [|k keys]; [done|].
  assert (Hk : k ∈ normalize (k :: keys)) by (apply normalized_keys_elem; by left). rewrite Hn in Hk. set_solver.
Qed.

Lemma build_phase keys cs l :
  sorted_keys keys -> keys <> [] -> alphabet cs l -> Forall is_byte l ->
  (forall k c, k ∈ keys -> c ∈ k -> c ∈ l) ->
  exists st G, bfs_loop (bfs_fuel keys) keys cs 0
      (mkBuild [(0, length keys, 0)] [] (NewCompactBitList (Len64 (Size cs))) [] 0) = Some st /\
    built cs keys st G /\ visited keys G /\ length G = length (queue_of keys G) /\
    length G <= S (total_length keys).
Proof.
  intros Hs Hne Ha Hby Hv.
  assert (Hw : sum_list_with (weight keys) (drop 0 (queue_of keys [])) = S (total_length keys)).
  { unfold queue_of. simpl. rewrite wsum_total. lia. }
  destruct (bfs_loop_spec keys cs (bfs_fuel keys)
    (mkBuild [(0, length keys, 0)] [] (NewCompactBitList (Len64 (Size cs))) [] 0) [] Hs)
    as (st & G & E & Hb & Hvis & Hall & Hn).
  - intros k c Hk Hc. cbn. eapply alphabet_fits; [done|]. rewrite Forall_forall in Hby. eauto.
  - split; cbn; try done.
    + constructor.
    + apply holds_new. by eapply alphabet_unit.
    + apply bm_repr_nil.
  - split; [intros t Ht; simpl in Ht; lia|]. split; [unfold queue_of; simpl; lia|]. split; [done|].
    intros elt [-> | []%not_elem_of_nil]%elem_of_cons. eexists. by apply root_repr.
  - change (length []) with 0. rewrite Hw. unfold bfs_fuel, total_length. lia.
  - change (length []) with 0 in Hn. rewrite Hw in Hn. exists st, G. done.
Qed.

Lemma NewTrie_spec keys cs l :
  keys <> [] -> alphabet cs l -> Forall is_byte l -> trie_fits keys -> chars_id cs ->
  (vc_addr cs = vc_addr ValidCidrChars -> l = [48; 49]%Z) ->
  (forall k c, k ∈ keys -> c ∈ k -> c ∈ l) ->
  exists ss G, NewTrie keys cs = Ok (Some ss) /\ chars ss = cs /\ trie_ok (normalize keys) ss l G /\
    (cs = ValidCidrChars ->
      seek_result (normalize keys) G [] (addr_path (v4_mapped ++ [0; 0; 0; 0]%Z) 0 96) (ipv4 ss)).
Proof.
  intros Hne Ha Hby Hfit Hid Hl Hv. unfold NewTrie. destruct (Nat.eqb_spec (length keys) 0) as [Hz|_];
    [by destruct keys|]. fold (normalize keys).
  assert (Hv' : forall k c, k ∈ normalize keys -> c ∈ k -> c ∈ l).
  { intros k c Hk. apply Hv. by apply normalized_keys_elem. }
  assert (Hall : forallb (forallb (IsValidChar cs)) (normalize keys) = true).
  { apply (alphabet_all_valid cs l); [done| |done]. intros k c Hk Hc. rewrite Forall_forall in Hby. eauto. }
  rewrite Hall. cbn [negb].
  destruct (build_phase (normalize keys) cs l) as (st & G & -> & Hb & Hvis & Hlen & Hn);
    [apply normalized_keys_sorted|by apply normalize_nil|done..|].
  assert (Htot : total_length (normalize keys) <= total_length keys).
  { unfold normalize. etrans; [apply total_compact|]. by rewrite total_sort. }
  destruct Hb as [_ Hlo Hlv Hlb Hbm _]. destruct (bm_repr_bits _ _ Hbm) as (HL & HL' & HB).
  rewrite all_bits_length in HL, HL'. pose proof (queue_of_length (normalize keys) G) as HQ.
  cbn [mbind res_bind idx]. destruct (init_spec (b_labelBitmap st)) as (r & s & -> & Hr & Hs).
  { apply Hbm. } { rewrite HB, ones_app, all_bits_ones. lia. } { unfold trie_fits in Hfit. lia. }
  cbn [mbind res_bind idx]. set (ss := mkTrie _ _ _ _ _ _ _).
  assert (Hok : forall cur, trie_ok (normalize keys) (mkTrie (leaves ss) (labelBitmap ss) (labels ss) r s cs cur) l G).
  { intros cur. split; try done. apply normalized_keys_sorted. }
  destruct (Nat.eqb_spec (vc_addr cs) (vc_addr ValidCidrChars)) as [Hcs|Hcs].
  - destruct (seekIP_loop_spec _ ss l G (Hok (mkCursor 0 0)) (Hid Hcs) (Hl Hcs) 96
      (v4_mapped ++ [0; 0; 0; 0]%Z) 0 96 0 []) as (c & Hc & Hres); [|lia|lia|].
    { apply root_is_node. by apply normalize_nil. }
    change (seekIP ss (v4_mapped ++ [0; 0; 0; 0]%Z) 0 96 (mkCursor 0 0)) with
      (seekIP_loop 96 ss (v4_mapped ++ [0; 0; 0; 0]%Z) 0 96 0 (start G 0)).
    rewrite Hc. cbn [mbind res_bind idx]. eexists _, G. split; [done|]. split; [done|]. split; [apply Hok|done].
  - exists ss, G. split; [done|]. split; [done|]. split; [apply Hok|]. intros ->. done.
Qed.

Lemma trie_fits_nil : trie_fits [].
Proof. done. Qed.

(** The keys that a word extends. *)
Definition any_prefix (keys : list bytes) (word : bytes) : bool :=
  existsb (fun k => bool_decide (k `prefix_of` word)) keys.

Lemma any_prefix_spec keys word :
  any_prefix keys word = true <-> exists k, k ∈ keys /\ k `prefix_of` word.
Proof.
  unfold any_prefix. rewrite existsb_exists. setoid_rewrite list_elem_of_In.
  by setoid_rewrite bool_decide_eq_true.
Qed.

Lemma key_on_path_root keys word :
  key_on_path (normalize keys) [] word <-> any_prefix keys word = true.
Proof.
  rewrite any_prefix_spec. unfold key_on_path, normalize. setoid_rewrite normalized_keys_elem.
  split; [naive_solver|]. intros (k & Hk & H). exists k. split; [done|]. split; [apply prefix_nil|done].
Qed.

Lemma bool_iff (a b : bool) : (a = true <-> b = true) -> a = b.
Proof. destruct a, b; naive_solver. Qed.

Lemma HasPrefix_trie_ok keys ss l G word :
  keys <> [] -> trie_ok (normalize keys) ss l G -> Forall is_byte word ->
  HasPrefix (Some ss) word = Some (any_prefix keys word).
Proof.
  intros Hne Hok Hw. destruct (HasPrefix_loop_spec _ _ _ _ Hok word 0 [] Hw) as (b & Hb & Hiff).
  { apply root_is_node. by apply normalize_nil. }
  cbn [HasPrefix]. rewrite start_0 in Hb. rewrite Hb. f_equal. apply bool_iff.
  by rewrite Hiff, key_on_path_root.
Qed.

(** ** Address queries *)

(** The character of a bit in a CIDR key. *)
Definition ip_char (b : bool) : Z := if b then 49%Z else 48%Z.

Lemma land_1_testbit x n : (48 + Z.land (shr x n) 1 = ip_char (tb x n))%Z.
Proof.
  unfold shr, tb, ip_char. pose proof (Z.land_ones (Z.shiftr x (Z.of_nat n)) 1 ltac:(lia)) as E.
  change (Z.ones 1) with 1%Z in E. rewrite E, Z.testbit_odd. change (2 ^ 1)%Z with 2%Z.
  rewrite Zmod_odd. by destruct (Z.odd _).
Qed.

Lemma addr_path_bits address :
  addr_path address 0 (8 * length address) = map ip_char (bits_of address).
Proof.
  unfold addr_path. rewrite Nat.sub_0_r. induction address as [|c address IH]; [done|].
  cbn [length bits_of flat_map]. fold (bits_of address). replace (8 * S (length address)) with (8 + 8 * length address) by lia.
  rewrite seq_app, !map_app. f_equal.
  - unfold byte_bits. rewrite map_map. apply map_ext_in. intros j Hj%in_seq. unfold addr_bit.
    rewrite Nat.div_small, Nat.mod_small by lia. cbn [lookup list_lookup default]. apply land_1_testbit.
  - rewrite <-IH. change (0 + 8) with 8. rewrite <-!seq_shift, !map_map.
    apply map_ext_in. intros j _. unfold addr_bit.
    change (S (S (S (S (S (S (S (S j)))))))) with (8 + j). replace (8 + j) with (j + 1 * 8) by lia.
    rewrite Nat.div_add, Nat.Div0.mod_add by lia. by rewrite Nat.add_1_r.
Qed.

Lemma addr_path_app address a b c : a <= b -> b <= c ->
  addr_path address a c = addr_path address a b ++ addr_path address b c.
Proof.
  intros. unfold addr_path. replace (c - a) with ((b - a) + (c - b)) by lia.
  rewrite seq_app, map_app. by replace (a + (b - a)) with b by lia.
Qed.

Lemma addr_path_mapped address :
  take 12 address = v4_mapped ->
  addr_path address 0 96 = addr_path (v4_mapped ++ [0; 0; 0; 0]%Z) 0 96.
Proof.
  intros Ht. apply map_ext_in. intros j Hj%in_seq. unfold addr_bit. do 4 f_equal.
  assert (Hb : j / 8 < 12) by (apply Nat.Div0.div_lt_upper_bound; lia).
  rewrite lookup_app_l by done. by rewrite <-Ht, lookup_take_lt.
Qed.

(** [HasPrefixIP] after the descent: is the node reached a leaf? *)
Definition at_leaf (ss : Trie) (c : ipCursor) : option bool :=
  if (cur_node c <? 0)%Z then Some false
  else leaf ← getBit (leaves ss) (Z.to_nat (cur_node c)); Some (negb (leaf =? 0)%Z).

Section AddressQueries.
Context (keys : list bytes) (ss : Trie) (G : list node_info).
Context (Hok : trie_ok keys ss [48; 49]%Z G) (Hchars : chars ss = ValidCidrChars).

Lemma seek_finish p w c :
  seek_result keys G p w c -> exists b, at_leaf ss c = Some b /\ (b = true <-> key_on_path keys p w).
Proof.
  unfold at_leaf. intros [[-> Hno]|(i & p' & -> & Hn & Hpp & Hpw & Hor & Hfirst)].
  - exists false. split; [done|]. split; [done|]. intros (k & Hk & Hpk & Hkw). by destruct (Hno k Hk Hpk).
  - cbn [cur_node]. destruct (Z.ltb_spec (Z.of_nat i) 0); [lia|]. rewrite Nat2Z.id.
    destruct (leaf_bit _ _ _ _ Hok _ _ Hn) as (z & b & -> & Hb & Hleaf). cbn [mbind option_bind].
    rewrite Hb. exists b. split; [done|]. rewrite Hleaf. split.
    + intros Hin. by exists p'.
    + intros (k & Hk & Hpk & Hkw). destruct Hor as [Hor| ->]; [done|]. by rewrite <-(Hfirst k).
Qed.

(** The cursor precomputed for IPv4-mapped addresses can be resumed. *)
Lemma seek_resume w address a stop c :
  seek_result keys G [] w c -> a <= stop ->
  exists c' b, seekIP ss address a stop c = Some c' /\ at_leaf ss c' = Some b /\
    (b = true <-> key_on_path keys [] (w ++ addr_path address a stop)).
Proof.
  intros [[Hc Hno]|(i & p & -> & Hn & _ & Hpw & Hor & Hfirst)] Ha; unfold seekIP.
  - rewrite Hc. exists c, false. split; [done|]. unfold at_leaf. rewrite Hc. split; [done|].
    split; [done|]. intros (k & Hk & Hpk & Hkw). destruct (Hno k Hk (prefix_nil _)) as [H1 H2].
    by destruct (prefix_weak_total _ _ _ Hkw (prefix_app_r _ _ _ (reflexivity w))).
  - cbn [cur_node cur_bitmap]. destruct (Z.ltb_spec (Z.of_nat i) 0); [lia|]. rewrite Nat2Z.id.
    destruct (seekIP_loop_spec _ _ _ _ Hok Hchars eq_refl (stop - a) address a stop i p Hn Ha)
      as (c' & -> & Hres); [lia|].
    destruct (seek_finish _ _ _ Hres) as (b & Hb & Hiff). exists c', b. split; [done|]. split; [done|].
    rewrite Hiff. cbn [app] in Hpw, Hor. split.
    + intros (k & Hk & Hpk & Hkp). destruct Hor as [Hin| ->].
      * exists p. split; [done|]. split; [apply prefix_nil|]. cbn [app]. by apply prefix_app_r.
      * exists k. split; [done|]. split; [apply prefix_nil|done].
    + intros (k & Hk & _ & Hkw). destruct Hor as [Hin| ->]; [by apply key_on_path_here|].
      exists k. split; [done|]. split; [|done]. cbn [app] in Hkw.
      destruct (prefix_weak_total _ _ _ Hkw (prefix_app_r _ _ _ (reflexivity w))) as [Hk2|]; [|done].
      by rewrite (Hfirst k Hk (prefix_nil _) Hk2).
Qed.
End AddressQueries.

Lemma HasPrefixIP_trie_ok keys ss G address :
  keys <> [] -> trie_ok (normalize keys) ss [48; 49]%Z G -> chars ss = ValidCidrChars ->
  seek_result (normalize keys) G [] (addr_path (v4_mapped ++ [0; 0; 0; 0]%Z) 0 96) (ipv4 ss) ->
  HasPrefixIP (Some ss) address = Some (any_prefix keys (addr_path address 0 128)).
Proof.
  intros Hne Hok Hch H4. cbn [HasPrefixIP]. rewrite Hch, Nat.eqb_refl. cbn [negb].
  assert (Hroot : seek_result (normalize keys) G [] [] (mkCursor 0 0)).
  { rewrite <-(start_0 G) at 1. apply (seek_result_stop _ _ 0); [|by right]. by apply root_is_node, normalize_nil. }
  assert (Hgoal : forall w c a, seek_result (normalize keys) G [] w c -> a <= 128 ->
    w ++ addr_path address a 128 = addr_path address 0 128 ->
    (seekIP ss address a 128 c ≫= at_leaf ss) = Some (any_prefix keys (addr_path address 0 128))).
  { intros w c a Hw Ha Hpath. destruct (seek_resume _ _ _ Hok Hch w address a 128 c Hw Ha) as (c' & b & -> & Hb & Hiff).
    cbn [mbind option_bind]. rewrite Hb. f_equal. apply bool_iff. by rewrite Hiff, Hpath, key_on_path_root. }
  destruct (Is4In6 (AddrFrom16 address)) eqn:E4.
  - cbn in E4. apply bool_decide_eq_true in E4. refine (Hgoal _ _ 96 H4 _ _); [lia|].
    rewrite <-(addr_path_mapped address E4). symmetry. apply addr_path_app; lia.
  - refine (Hgoal [] _ 0 Hroot _ _); [lia|done].
Qed.

(** ** CIDR keys *)

Lemma bin_loop_take n bs : bin_loop n bs = map ip_char (take n bs).
Proof. revert bs. induction n as [|n IH]; intros [|b bs]; simpl; [done..|]. by rewrite IH. Qed.

Lemma ip_char_inj a b : ip_char a = ip_char b -> a = b.
Proof. by destruct a, b. Qed.

Lemma map_ip_char_inj (a b : list bool) : map ip_char a = map ip_char b -> a = b.
Proof.
  revert b. induction a as [|x a IH]; intros [|y b] [=]; [done|]. f_equal; [by apply ip_char_inj|by apply IH].
Qed.

Lemma prefix_map_ip_char n (a b : list bool) :
  n <= length a -> map ip_char (take n a) `prefix_of` map ip_char b <-> take n a = take n b.
Proof.
  intros Hn. split.
  - intros [t Ht]. apply (f_equal (take n)) in Ht. rewrite take_app_length' in Ht
      by (rewrite length_map, length_take_le; done). rewrite firstn_map in Ht. symmetry. by apply map_ip_char_inj.
  - intros ->. exists (map ip_char (drop n b)). by rewrite <-map_app, take_drop.
Qed.

Lemma length_bits_of a : length (bits_of a) = 8 * length a.
Proof. induction a as [|c a IH]; [done|]. cbn [bits_of flat_map]. rewrite length_app. fold (bits_of a). rewrite IH. simpl. lia. Qed.

(** Length of the prefix in the 128-bit space. *)
Definition prefix_len128 (p : Prefix) : nat :=
  Z.to_nat (if Is4 (pfx_addr p) then pfx_bits p + 96 else pfx_bits p).

(** The CIDR contains the address: they agree on the bits of the prefix. *)
Definition cidr_contains (address : bytes) (p : Prefix) : bool :=
  bool_decide (take (prefix_len128 p) (bits_of (As16 (pfx_addr p))) = take (prefix_len128 p) (bits_of address)).

(** A valid prefix, as [netip.ParsePrefix] and [PrefixFrom] produce. *)
Definition Prefix_wf (p : Prefix) : Prop :=
  Addr_wf (pfx_addr p) /\ IsValid (pfx_addr p) = true /\ (0 <= pfx_bits p <= BitLen (pfx_addr p))%Z.

Lemma Addr_wf_As16 a : Addr_wf a -> IsValid a = true -> length (As16 a) = 16.
Proof. destruct a; simpl; [done| |]; intros [? _] _; [|done]. lia. Qed.

Lemma Prefix_wf_len p : Prefix_wf p -> prefix_len128 p <= 128 /\ (pfx_bits p =? -1)%Z = false.
Proof. destruct p as [[| |] n]; intros (_ & Hv & Hn); simpl in *; [done| |]; unfold prefix_len128; simpl; lia. Qed.

Lemma Prefix2bin128_wf p : Prefix_wf p ->
  Prefix2bin128 p = Some (map ip_char (take (prefix_len128 p) (bits_of (As16 (pfx_addr p))))).
Proof.
  intros Hp. unfold Prefix2bin128. destruct (Prefix_wf_len p Hp) as [_ ->]. by rewrite bin_loop_take.
Qed.

Definition bin_key (p : Prefix) : bytes := map ip_char (take (prefix_len128 p) (bits_of (As16 (pfx_addr p)))).

Lemma mapM_Prefix2bin128 cidrs : Forall Prefix_wf cidrs -> mapM Prefix2bin128 cidrs = Some (map bin_key cidrs).
Proof.
  induction 1 as [|p cidrs Hp _ IH]; [done|]. cbn [mapM]. rewrite Prefix2bin128_wf by done.
  cbn [mbind option_bind]. by rewrite IH.
Qed.

Lemma bin_key_prefix p address : Prefix_wf p -> length address = 16 ->
  bool_decide (bin_key p `prefix_of` addr_path address 0 128) = cidr_contains address p.
Proof.
  intros Hp Hlen. change 128 with (8 * 16). rewrite <-Hlen, addr_path_bits. apply bool_decide_ext.
  apply prefix_map_ip_char. destruct Hp as (Hw & Hv & Hb). rewrite length_bits_of, Addr_wf_As16 by done.
  apply (Prefix_wf_len p). done.
Qed.

Lemma bin_key_chars p c : c ∈ bin_key p -> c ∈ [48; 49]%Z.
Proof. unfold bin_key. rewrite list_elem_of_In, in_map_iff. intros (b & <- & _). destruct b; set_solver. Qed.

Lemma cidr_alphabet : alphabet ValidCidrChars [48; 49]%Z.
Proof.
  apply NewValidChars_alphabet; [done| | |simpl; lia].
  - apply (bool_decide_unpack _). by vm_compute.
  - repeat constructor; simpl; lia.
Qed.

Lemma cidr_bytes : Forall is_byte [48; 49]%Z.
Proof. repeat constructor; simpl; lia. Qed.

Lemma any_prefix_bin_keys cidrs address : Forall Prefix_wf cidrs -> length address = 16 ->
  any_prefix (map bin_key cidrs) (addr_path address 0 128) = existsb (cidr_contains address) cidrs.
Proof.
  intros Hc Hlen. unfold any_prefix. induction Hc as [|p cidrs Hp _ IH]; [done|]. simpl.
  by rewrite bin_key_prefix, IH.
Qed.

(** ** Main theorems *)

(** C38: On a trie that [NewTrie] builds from keys over its alphabet, [HasPrefix] answers
    whether some key is a prefix of the word, for every word of bytes; neither the
    construction nor the query panics or runs forever. The nil trie of an empty key list
    answers no. *)
Theorem HasPrefix_correct keys cs l :
  alphabet cs l -> Forall is_byte l -> chars_id cs ->
  (vc_addr cs = vc_addr ValidCidrChars -> l = [48; 49]%Z) ->
  trie_fits keys -> (forall k c, k ∈ keys -> c ∈ k -> c ∈ l) ->
  exists ss, NewTrie keys cs = Ok ss /\
    forall word, Forall is_byte word -> HasPrefix ss word = Some (any_prefix keys word).
Proof.
  intros Ha Hby Hid Hl Hfit Hv. destruct (decide (keys = [])) as [->|Hne]; [by exists None|].
  destruct (NewTrie_spec keys cs l) as (ss & G & HN & _ & Hok & _); [done..|].
  exists (Some ss). split; [done|]. intros word Hw. by eapply HasPrefix_trie_ok.
Qed.

Lemma trie_of_prefixes cidrs :
  Forall Prefix_wf cidrs -> trie_fits (map bin_key cidrs) ->
  exists ss, NewTrieFromPrefixes cidrs = Ok ss /\
    forall address, length address = 16 ->
      HasPrefixIP ss address = Some (existsb (cidr_contains address) cidrs).
Proof.
  intros Hwf Hfit. unfold NewTrieFromPrefixes. rewrite mapM_Prefix2bin128 by done. cbn [mbind res_bind idx].
  destruct (decide (cidrs = [])) as [->|Hne]; [by exists None|].
  assert (Hne' : map bin_key cidrs <> []) by (by destruct cidrs).
  destruct (NewTrie_spec (map bin_key cidrs) ValidCidrChars [48; 49]%Z) as (ss & G & HN & Hc & Hok & H4);
    [done|apply cidr_alphabet|apply cidr_bytes|done|done|done| |].
  { intros k c Hk Hc. apply list_elem_of_In, in_map_iff in Hk as (p & <- & _). by eapply bin_key_chars. }
  exists (Some ss). split; [done|]. intros address Hlen.
  rewrite (HasPrefixIP_trie_ok (map bin_key cidrs) ss G) by auto. by rewrite any_prefix_bin_keys.
Qed.

(** C39: A trie built from valid CIDRs answers address membership: [HasPrefixIP] holds of
    a 16-byte address exactly when one of the CIDRs contains it, IPv4 prefixes being
    compared with IPv4-mapped addresses; in particular resuming the precomputed cursor of
    the mapped range loses no match, shorter prefixes such as [::/0] included. *)
Theorem NewTrieFromPrefixes_correct cidrs :
  Forall Prefix_wf cidrs -> trie_fits (map bin_key cidrs) ->
  exists ss, NewTrieFromPrefixes cidrs = Ok ss /\
    forall address, length address = 16 ->
      HasPrefixIP ss address = Some (existsb (cidr_contains address) cidrs).
Proof. apply trie_of_prefixes. Qed.

(** [NewTrie] refuses keys with a character outside the alphabet: it returns an
    error, and no trie, as soon as one character of one key is invalid. *)
Theorem NewTrie_rejects_invalid keys cs l k c :
  alphabet cs l -> k ∈ keys -> c ∈ k -> is_byte c -> c ∉ l -> NewTrie keys cs = Err "char out of range".
Proof.
  intros (_ & _ & _ & Hv & _) Hk Hc Hb Hnin. unfold NewTrie. fold (normalize keys).
  destruct (Nat.eqb_spec (length keys) 0) as [Hz|_]; [by destruct keys; [set_solver|]|].
  destruct (forallb (forallb (IsValidChar cs)) (normalize keys)) eqn:E; [|done].
  rewrite forallb_forall in E. specialize (E k). rewrite forallb_forall in E.
  destruct Hnin. apply Hv; [done|]. apply E; rewrite <-list_elem_of_In; [by apply normalized_keys_elem|done].
Qed.

(** The bit-directed query agrees with the string query: on a trie over the CIDR
    alphabet, [HasPrefixIP] of an address equals [HasPrefix] of its 128 bits written as
    '0' and '1' characters. *)
Theorem HasPrefixIP_HasPrefix keys :
  trie_fits keys -> (forall k c, k ∈ keys -> c ∈ k -> c ∈ [48; 49]%Z) ->
  exists ss, NewTrie keys ValidCidrChars = Ok ss /\
    forall address, length address = 16 ->
      HasPrefixIP ss address = HasPrefix ss (bin_loop 128 (bits_of address)).
Proof.
  intros Hfit Hv. destruct (decide (keys = [])) as [->|Hne]; [by exists None|].
  destruct (NewTrie_spec keys ValidCidrChars [48; 49]%Z) as (ss & G & HN & Hc & Hok & H4);
    [done|apply cidr_alphabet|apply cidr_bytes|done..|].
  exists (Some ss). split; [done|]. intros address Hlen. rewrite (HasPrefixIP_trie_ok keys ss G) by auto.
  rewrite (HasPrefix_trie_ok keys ss [48; 49]%Z G); [|done..|].
  - rewrite bin_loop_take, take_ge by (rewrite length_bits_of; lia).
    change 128 with (8 * 16). by rewrite <-Hlen, addr_path_bits.
  - rewrite bin_loop_take. apply Forall_forall. intros c Hin.
    apply list_elem_of_In, in_map_iff in Hin as (b & <- & _). destruct b; split; simpl; lia.
Qed.

(** ** Instances *)

(** Discharges "every character of every key is in the alphabet" on literals. *)
Ltac literal_chars :=
  let k := fresh "k" in let c := fresh "c" in let Hk := fresh "Hk" in let Hc := fresh "Hc" in
  intros k c Hk Hc;
  repeat (apply elem_of_cons in Hk as [->|Hk];
    [repeat (apply elem_of_cons in Hc as [->|Hc]; [set_solver|]); set_solver|]);
  by apply not_elem_of_nil in Hk.

Definition sample_chars : ValidChars := NewValidChars 1 [97; 98; 46]%Z.
Definition sample_keys : list bytes := [[97; 46]; [97]; [98; 98; 46]]%Z.

Lemma sample_alphabet : alphabet sample_chars [97; 98; 46]%Z.
Proof.
  apply NewValidChars_alphabet; [done| | |simpl; lia].
  - apply (bool_decide_unpack _). by vm_compute.
  - repeat constructor; simpl; lia.
Defined.

Lemma HasPrefix_correct_witness :
  exists ss, NewTrie sample_keys sample_chars = Ok ss /\
    forall word, Forall is_byte word -> HasPrefix ss word = Some (any_prefix sample_keys word).
Proof.
  apply (HasPrefix_correct sample_keys sample_chars [97; 98; 46]%Z).
  - apply sample_alphabet.
  - repeat constructor; simpl; lia.
  - discriminate.
  - discriminate.
  - reflexivity.
  - literal_chars.
Defined.

(** The CIDRs 10.0.0.0/8 and 2000::/3. *)
Definition sample_cidrs : list Prefix :=
  [mkPrefix (AddrV4 [10; 0; 0; 0]) 8; mkPrefix (AddrV6 (32 :: replicate 15 0)) 3]%Z.

Lemma NewTrieFromPrefixes_correct_witness :
  exists ss, NewTrieFromPrefixes sample_cidrs = Ok ss /\
    forall address, length address = 16 ->
      HasPrefixIP ss address = Some (existsb (cidr_contains address) sample_cidrs).
Proof.
  apply (NewTrieFromPrefixes_correct sample_cidrs); [|reflexivity].
  repeat constructor; simpl; lia.
Defined.

Lemma NewTrie_rejects_invalid_witness :
  NewTrie [[97]; [97; 64]]%Z sample_chars = Err "char out of range".
Proof.
  apply (NewTrie_rejects_invalid [[97]; [97; 64]]%Z sample_chars [97; 98; 46]%Z [97; 64]%Z 64%Z).
  - apply sample_alphabet.
  - set_solver.
  - set_solver.
  - split; simpl; lia.
  - set_solver.
Defined.

Lemma HasPrefixIP_HasPrefix_witness :
  exists ss, NewTrie [[48; 49]; [49]]%Z ValidCidrChars = Ok ss /\
    forall address, length address = 16 ->
      HasPrefixIP ss address = HasPrefix ss (bin_loop 128 (bits_of address)).
Proof. apply (HasPrefixIP_HasPrefix [[48; 49]; [49]]%Z); [reflexivity|literal_chars]. Defined.
