(* ===== verification/DomainMatcher.v ===== *)
(** * Domain matching (component/routing/domain_matcher)

    [AhocorasickSlimtrie] collects the domain sets of the rules, builds one
    succinct trie, one keyword automaton and one list of regular expressions per
    rule, and answers a query with a bitmap over the rules. The keyword automaton
    (package ahocorasick-domain) and [regexp] are parameters. *)

From S2P Require Import Prelude Bitlist Netip Trie TrieRank TrieBuild TrieCorrect.

(** ** Strings *)

Definition TrimSuffix (s suffix : bytes) : bytes :=
  if bool_decide (suffix `suffix_of` s) then take (length s - length suffix) s else s.

Definition HasStrPrefix (s prefix : bytes) : bool := bool_decide (prefix `prefix_of` s).

Definition lower_byte (c : Z) : Z := if (65 <=? c)%Z && (c <=? 90)%Z then (c + 32)%Z else c.

(** [consts.RoutingDomainKey]. *)
Definition RoutingDomainKey_Full : string := "full".
Definition RoutingDomainKey_Keyword : string := "keyword".
Definition RoutingDomainKey_Suffix : string := "suffix".
Definition RoutingDomainKey_Regex : string := "regex".

(** The address tells this alphabet from the CIDR one. *)
Definition ValidDomainChars : ValidChars :=
  NewValidChars 1 (str "0123456789abcdefghijklmnopqrstuvwxyz-.^_").

Definition ToSuffixTrieString (s : bytes) : bytes := rev (TrimSuffix s (str "$")).
Definition ToSuffixTrieStrings (s : list bytes) : list bytes := map ToSuffixTrieString s.

(** ** Facts on strings and keys *)

(** What one pattern contributes to its rule. *)
Definition trie_keys (typ : string) (d : bytes) : list bytes :=
  if forallb (IsValidChar ValidDomainChars) d then
    if (typ =? RoutingDomainKey_Full)%string then [str "^" ++ d ++ str "$"]
    else if (typ =? RoutingDomainKey_Suffix)%string then
      if HasStrPrefix d (str ".") then [d ++ str "$"] else [str "." ++ d ++ str "$"; str "^" ++ d ++ str "$"]
    else []
  else [].
Lemma tb_shl_one w k n : k < w -> tb (shl w 1 k) n = (n =? k).
Proof.
  intros Hk. unfold shl. rewrite tb_wrap, tb_one_shl. destruct (Nat.eqb_spec n k) as [->|]; nat_cases; try lia; done.
Qed.

Definition substring (p s : bytes) : bool :=
  existsb (fun k => bool_decide (p `prefix_of` drop k s)) (seq 0 (S (length s))).

Lemma TrimSuffix_app s t : TrimSuffix (s ++ t) t = s.
Proof.
  unfold TrimSuffix. rewrite bool_decide_eq_true_2 by (by exists s).
  apply take_app_length'. rewrite length_app. lia.
Qed.

Lemma TrimSuffix_last s c : c ∉ s -> TrimSuffix s [c] = s.
Proof.
  intros Hc. unfold TrimSuffix. rewrite bool_decide_eq_false_2; [done|]. intros [t ->]. set_solver.
Qed.

Lemma prefix_rev (a b : bytes) : rev a `prefix_of` rev b <-> a `suffix_of` b.
Proof. rewrite !rev_alt. fold (reverse a) (reverse b). by rewrite <-suffix_prefix_reverse. Qed.

Lemma suffix_hat d dom : 94%Z ∉ dom -> (str "^" ++ d) `suffix_of` (str "^" ++ dom) <-> d = dom.
Proof.
  intros Hd. split; [|by intros ->]. intros [t Ht]. destruct t as [|c t]; [by injection Ht as ->|].
  injection Ht as <- Ht. destruct Hd. rewrite Ht. cbn [str app]. set_solver.
Qed.

Lemma suffix_dot d dom : (str "." ++ d) `suffix_of` (str "^" ++ dom) <-> (str "." ++ d) `suffix_of` dom.
Proof.
  split; intros [t Ht].
  - destruct t as [|c t]; [discriminate|]. injection Ht as _ Ht. by exists t.
  - exists (str "^" ++ t). by rewrite Ht, app_assoc.
Qed.

Definition domain_alphabet : bytes := str "0123456789abcdefghijklmnopqrstuvwxyz-.^_".

Lemma ValidDomainChars_alphabet : alphabet ValidDomainChars domain_alphabet.
Proof.
  apply NewValidChars_alphabet; [done| |apply str_bytes|by vm_compute; lia].
  apply (bool_decide_unpack _). by vm_compute.
Qed.

Lemma trie_keys_chars typ d k c :
  Forall is_byte d -> k ∈ trie_keys typ d -> c ∈ ToSuffixTrieString k -> c ∈ domain_alphabet.
Proof.
  intros Hd. pose proof ValidDomainChars_alphabet as (_ & _ & _ & Hv & _). unfold trie_keys.
  destruct (forallb _ d) eqn:Ev; [|set_solver].
  assert (Hdc : forall x, x ∈ d -> x ∈ domain_alphabet).
  { intros x Hx. rewrite forallb_forall in Ev. rewrite Forall_forall in Hd.
    apply Hv; [auto|]. apply Ev. by apply list_elem_of_In. }
  assert (Happ : forall p, (forall x, x ∈ p -> x ∈ domain_alphabet) -> c ∈ ToSuffixTrieString ((p ++ d) ++ str "$") ->
    c ∈ domain_alphabet).
  { intros p Hp Hc. unfold ToSuffixTrieString in Hc. rewrite TrimSuffix_app, list_elem_of_In, <-in_rev, <-list_elem_of_In in Hc.
    set_solver. }
  assert (Hhat : forall x, x ∈ str "^" -> x ∈ domain_alphabet).
  { intros x ->%list_elem_of_singleton. apply (bool_decide_unpack _). by vm_compute. }
  assert (Hdot : forall x, x ∈ str "." -> x ∈ domain_alphabet).
  { intros x ->%list_elem_of_singleton. apply (bool_decide_unpack _). by vm_compute. }
  destruct (typ =? RoutingDomainKey_Full)%string.
  { intros ->%list_elem_of_singleton. rewrite app_assoc. by apply Happ. }
  destruct (typ =? RoutingDomainKey_Suffix)%string; [|set_solver]. destruct (HasStrPrefix d (str ".")).
  - intros ->%list_elem_of_singleton. apply (Happ []). set_solver.
  - intros [->|Hk%list_elem_of_singleton]%elem_of_cons; [|subst k]; rewrite app_assoc; by apply Happ.
Qed.


Module Slimtrie.
Section Matcher.
(** Packages outside the repository, and Unicode case folding of non-ASCII text. *)
Context {AcMatcher Regexp : Type}.
Context (ahocorasick_NewMatcher : list bytes -> res AcMatcher).
Context (ahocorasick_Contains : AcMatcher -> bytes -> bool).
Context (ahocorasick_IsValidChar : Z -> bool).
Context (regexp_Compile : bytes -> option Regexp).
Context (regexp_MatchString : Regexp -> bytes -> bool).
Context (unicode_ToLower : bytes -> bytes).

Definition ToLower (s : bytes) : bytes :=
  if forallb (fun c => c <? 128)%Z s then map lower_byte s else unicode_ToLower s.

(** ** State *)

Record AhocorasickSlimtrie := mkMatcher {
  validAcIndexes : list nat;
  validTrieIndexes : list nat;
  validRegexpIndexes : list nat;
  ac : list (option AcMatcher);
  trie : list (option Trie);
  regexp : list (list Regexp);
  toBuildAc : list (list bytes);
  toBuildTrie : list (list bytes);
  err : option string;
}.

Definition NewAhocorasickSlimtrie (bitLength : nat) : AhocorasickSlimtrie :=
  mkMatcher [] [] [] (replicate bitLength None) (replicate bitLength None) (replicate bitLength [])
    (replicate bitLength []) (replicate bitLength []) None.

(** [l[i] = append(l[i], x)]; [None] is the index panic. *)
Definition append_at {A} (l : list (list A)) (i : nat) (x : A) : option (list (list A)) :=
  old ← l !! i; Some (<[i := old ++ [x]]> l).

Definition with_trie (n : AhocorasickSlimtrie) (t : list (list bytes)) : AhocorasickSlimtrie :=
  mkMatcher (validAcIndexes n) (validTrieIndexes n) (validRegexpIndexes n) (ac n) (trie n) (regexp n)
    (toBuildAc n) t (err n).
Definition with_ac (n : AhocorasickSlimtrie) (t : list (list bytes)) : AhocorasickSlimtrie :=
  mkMatcher (validAcIndexes n) (validTrieIndexes n) (validRegexpIndexes n) (ac n) (trie n) (regexp n)
    t (toBuildTrie n) (err n).
Definition with_regexp (n : AhocorasickSlimtrie) (r : list (list Regexp)) : AhocorasickSlimtrie :=
  mkMatcher (validAcIndexes n) (validTrieIndexes n) (validRegexpIndexes n) (ac n) (trie n) r
    (toBuildAc n) (toBuildTrie n) (err n).
Definition with_err (n : AhocorasickSlimtrie) (e : string) : AhocorasickSlimtrie :=
  mkMatcher (validAcIndexes n) (validTrieIndexes n) (validRegexpIndexes n) (ac n) (trie n) (regexp n)
    (toBuildAc n) (toBuildTrie n) (Some e).

Definition push_trie (n : AhocorasickSlimtrie) (i : nat) (k : bytes) : option AhocorasickSlimtrie :=
  with_trie n <$> append_at (toBuildTrie n) i k.

(** One round of the pattern loop of [AddSet]; [inl] continues, [inr] returns. *)
Definition AddSet_pattern (n : AhocorasickSlimtrie) (bitIndex : nat) (typ : string) (d : bytes)
    : option (AhocorasickSlimtrie + AhocorasickSlimtrie) :=
  if (typ =? RoutingDomainKey_Full)%string then
    if forallb (IsValidChar ValidDomainChars) d
    then inl <$> push_trie n bitIndex (str "^" ++ d ++ str "$")
    else Some (inl n)
  else if (typ =? RoutingDomainKey_Suffix)%string then
    if forallb (IsValidChar ValidDomainChars) d then
      if HasStrPrefix d (str ".") then inl <$> push_trie n bitIndex (d ++ str "$")
      else
        n ← push_trie n bitIndex (str "." ++ d ++ str "$");
        inl <$> push_trie n bitIndex (str "^" ++ d ++ str "$")
    else Some (inl n)
  else if (typ =? RoutingDomainKey_Keyword)%string then
    (fun t => inl (with_ac n t)) <$> append_at (toBuildAc n) bitIndex d
  else if (typ =? RoutingDomainKey_Regex)%string then
    match regexp_Compile d with
    | None => Some (inr (with_err n "failed to compile regex"))
    | Some r => (fun t => inl (with_regexp n t)) <$> append_at (regexp n) bitIndex r
    end
  else Some (inr (with_err n "unknown RoutingDomainKey")).

Fixpoint AddSet_loop (n : AhocorasickSlimtrie) (bitIndex : nat) (typ : string) (patterns : list bytes)
    : option AhocorasickSlimtrie :=
  match patterns with
  | [] => Some n
  | d :: patterns =>
    r ← AddSet_pattern n bitIndex typ d;
    match r with inl n => AddSet_loop n bitIndex typ patterns | inr n => Some n end
  end.

Definition AddSet (n : AhocorasickSlimtrie) (bitIndex : nat) (patterns : list bytes) (typ : string)
    : option AhocorasickSlimtrie :=
  match err n with Some _ => Some n | None => AddSet_loop n bitIndex typ patterns end.

(** ** Build *)

(** The construction loops of [Build]: matcher per non-empty set, and the indexes
    that have one. *)
Fixpoint build_loop {A} (mk : list bytes -> res A) (i : nat) (toBuild : list (list bytes))
    (built : list A) (valid : list nat) : res (list A * list nat) :=
  match toBuild with
  | [] => Ok (built, valid)
  | t :: toBuild =>
    if length t =? 0 then build_loop mk (S i) toBuild built valid
    else
      m ← mk t;
      built ← idx (if i <? length built then Some (<[i := m]> built) else None);
      build_loop mk (S i) toBuild built (valid ++ [i])
  end.

Fixpoint nonempty_indexes {A} (i : nat) (l : list (list A)) : list nat :=
  match l with
  | [] => []
  | x :: l => if length x =? 0 then nonempty_indexes (S i) l else i :: nonempty_indexes (S i) l
  end.

Definition Build (n : AhocorasickSlimtrie) : res AhocorasickSlimtrie :=
  match err n with
  | Some e => Err e
  | None =>
    '(acs, acIdx) ← build_loop (fun t => Some <$> ahocorasick_NewMatcher t) 0 (toBuildAc n) (ac n) [];
    '(tries, trieIdx) ← build_loop (fun t => NewTrie (ToSuffixTrieStrings t) ValidDomainChars) 0
                          (toBuildTrie n) (trie n) [];
    Ok (mkMatcher acIdx trieIdx (nonempty_indexes 0 (regexp n)) acs tries (regexp n) [] [] None)
  end.

(** ** Queries *)

(** [bitmap[i/32] & (1<<(i%32)) > 0] and [bitmap[i/32] |= 1 << (i%32)]. *)
Definition bitmap_test (bitmap : list Z) (i : nat) : option bool :=
  w ← bitmap !! (i / 32); Some (0 <? Z.land w (shl 32 1 (i mod 32)))%Z.
Definition bitmap_set (bitmap : list Z) (i : nat) : option (list Z) :=
  w ← bitmap !! (i / 32); Some (<[i / 32 := Z.lor w (shl 32 1 (i mod 32))]> bitmap).

(** One of the three matching loops over the valid indexes. *)
Fixpoint mark_loop (test : nat -> option bool) (indexes : list nat) (bitmap : list Z) : option (list Z) :=
  match indexes with
  | [] => Some bitmap
  | i :: indexes =>
    already ← bitmap_test bitmap i;
    if (already : bool) then mark_loop test indexes bitmap
    else
      hit ← test i;
      bitmap ← (if (hit : bool) then bitmap_set bitmap i else Some bitmap);
      mark_loop test indexes bitmap
  end.

Definition MatchDomainBitmap (n : AhocorasickSlimtrie) (domain : bytes) : option (list Z) :=
  let N := length (ac n) / 32 + (if length (ac n) mod 32 =? 0 then 0 else 1) in
  let bitmap := replicate N 0%Z in
  let domain := ToLower (TrimSuffix domain (str ".")) in
  let suffixTrieDomain := ToSuffixTrieString (str "^" ++ domain) in
  bitmap ← mark_loop (fun i => t ← trie n !! i; HasPrefix t suffixTrieDomain) (validTrieIndexes n) bitmap;
  let acDomain := str "^" ++ domain ++ str "$" in
  bitmap ← mark_loop (fun i => m ← ac n !! i; m ← m; Some (ahocorasick_Contains m acDomain))
             (validAcIndexes n) bitmap;
  mark_loop (fun i => rs ← regexp n !! i; Some (existsb (fun r => regexp_MatchString r domain) rs))
    (validRegexpIndexes n) bitmap.

(** [ValidateSet]: the errors a matcher would report, without building it. *)
Definition ValidateSet_pattern (typ : string) (pattern : bytes) : res () :=
  if (typ =? RoutingDomainKey_Regex)%string then
    match regexp_Compile pattern with None => Err "failed to compile regex" | Some _ => Ok tt end
  else if (typ =? RoutingDomainKey_Keyword)%string then
    guard_err (negb (forallb ahocorasick_IsValidChar pattern)) "char out of range"
  else if (typ =? RoutingDomainKey_Full)%string || (typ =? RoutingDomainKey_Suffix)%string then Ok tt
  else Err "unknown RoutingDomainKey".

Fixpoint ValidateSet (patterns : list bytes) (typ : string) : res () :=
  match patterns with
  | [] => Ok tt
  | p :: patterns => _ ← ValidateSet_pattern typ p; ValidateSet patterns typ
  end.

(** ** Collecting the sets *)

Definition ac_keys (typ : string) (d : bytes) : list bytes :=
  if (typ =? RoutingDomainKey_Keyword)%string then [d] else [].
Definition re_keys (typ : string) (d : bytes) : list Regexp :=
  if (typ =? RoutingDomainKey_Regex)%string then
    match regexp_Compile d with Some r => [r] | None => [] end
  else [].

(** The pattern sets no error. *)
Definition pattern_ok (typ : string) (d : bytes) : bool :=
  (typ =? RoutingDomainKey_Full)%string || (typ =? RoutingDomainKey_Suffix)%string ||
  (typ =? RoutingDomainKey_Keyword)%string ||
  (typ =? RoutingDomainKey_Regex)%string && match regexp_Compile d with Some _ => true | None => false end.

Definition extend (n : AhocorasickSlimtrie) (i : nat) (T A : list bytes) (R : list Regexp) : AhocorasickSlimtrie :=
  mkMatcher (validAcIndexes n) (validTrieIndexes n) (validRegexpIndexes n) (ac n) (trie n)
    (alter (.++ R) i (regexp n)) (alter (.++ A) i (toBuildAc n)) (alter (.++ T) i (toBuildTrie n)) (err n).

Definition sized (n : AhocorasickSlimtrie) (L : nat) : Prop :=
  length (ac n) = L /\ length (trie n) = L /\ length (regexp n) = L /\
  length (toBuildAc n) = L /\ length (toBuildTrie n) = L.

Lemma alter_app_nil {A} (l : list (list A)) i : alter (.++ []) i l = l.
Proof. rewrite list_alter_id; [done|]. intros. by rewrite app_nil_r. Qed.

Lemma alter_app_app {A} (l : list (list A)) i (xs ys : list A) :
  alter (.++ ys) i (alter (.++ xs) i l) = alter (.++ (xs ++ ys)) i l.
Proof.
  rewrite list_alter_alter_eq. apply list_alter_ext; [|done]. intros x _. simpl. by rewrite app_assoc.
Qed.

Lemma append_at_alter {A} (l : list (list A)) i x :
  i < length l -> append_at l i x = Some (alter (.++ [x]) i l).
Proof.
  intros Hi. unfold append_at. destruct (lookup_ok l i Hi) as [old Ho]. rewrite Ho. cbn [mbind option_bind].
  f_equal. apply list_eq. intros j. destruct (decide (i = j)) as [<-|].
  - rewrite list_lookup_insert_eq, list_lookup_alter_eq, Ho by done. done.
  - by rewrite list_lookup_insert_ne, list_lookup_alter_ne.
Qed.

Lemma extend_sized n i T A R L : sized n L -> sized (extend n i T A R) L.
Proof. unfold sized. cbn. by rewrite !length_alter. Qed.

Lemma extend_extend n i T A R T' A' R' :
  extend (extend n i T A R) i T' A' R' = extend n i (T ++ T') (A ++ A') (R ++ R').
Proof. unfold extend. cbn. by rewrite !alter_app_app. Qed.

Lemma extend_nil n i : extend n i [] [] [] = n.
Proof. unfold extend. rewrite !alter_app_nil. by destruct n. Qed.

Lemma push_trie_extend n i k L :
  sized n L -> i < L -> push_trie n i k = Some (extend n i [k] [] []).
Proof.
  intros (_ & _ & _ & _ & Ht) Hi. unfold push_trie. rewrite append_at_alter by lia. cbn. f_equal.
  unfold with_trie, extend. by rewrite !alter_app_nil.
Qed.

Lemma AddSet_pattern_spec n i typ d L :
  sized n L -> i < L ->
  if pattern_ok typ d
  then AddSet_pattern n i typ d = Some (inl (extend n i (trie_keys typ d) (ac_keys typ d) (re_keys typ d)))
  else exists e, AddSet_pattern n i typ d = Some (inr (with_err n e)).
Proof.
  intros Hs Hi. pose proof Hs as (_ & _ & Hr & Ha & _).
  unfold AddSet_pattern, pattern_ok, trie_keys, ac_keys, re_keys.
  destruct (String.eqb_spec typ RoutingDomainKey_Full) as [->|_]; cbn [orb].
  { eqb_literals. destruct (forallb _ d); [by rewrite (push_trie_extend _ _ _ L)|by rewrite extend_nil]. }
  destruct (String.eqb_spec typ RoutingDomainKey_Suffix) as [->|_]; cbn [orb].
  { eqb_literals. destruct (forallb _ d); [|by rewrite extend_nil].
    destruct (HasStrPrefix d (str ".")); [by rewrite (push_trie_extend _ _ _ L)|].
    rewrite (push_trie_extend _ _ _ L) by done. cbn [mbind option_bind].
    rewrite (push_trie_extend _ _ _ L) by (done || by apply extend_sized). cbn. by rewrite extend_extend. }
  replace (if forallb (IsValidChar ValidDomainChars) d then [] else []) with (@nil bytes)
    by (by destruct (forallb _ d)).
  destruct (String.eqb_spec typ RoutingDomainKey_Keyword) as [->|_]; cbn [orb].
  { rewrite append_at_alter by lia. cbn. do 2 f_equal. unfold with_ac, extend. by rewrite !alter_app_nil. }
  destruct (String.eqb_spec typ RoutingDomainKey_Regex) as [->|_]; cbn [andb orb]; [|by eexists].
  destruct (regexp_Compile d); [|by eexists]. rewrite append_at_alter by lia. cbn. do 2 f_equal.
  unfold with_regexp, extend. by rewrite !alter_app_nil.
Qed.

Lemma AddSet_loop_spec i typ ps n L :
  sized n L -> i < L ->
  if forallb (pattern_ok typ) ps
  then AddSet_loop n i typ ps =
       Some (extend n i (flat_map (trie_keys typ) ps) (flat_map (ac_keys typ) ps) (flat_map (re_keys typ) ps))
  else exists n' e, AddSet_loop n i typ ps = Some n' /\ err n' = Some e.
Proof.
  revert n. induction ps as [|d ps IH]; intros n Hs Hi; cbn [AddSet_loop forallb flat_map].
  { by rewrite extend_nil. }
  pose proof (AddSet_pattern_spec n i typ d L Hs Hi) as Hp. destruct (pattern_ok typ d); cbn [andb].
  - rewrite Hp. cbn [mbind option_bind]. 
    specialize (IH _ (extend_sized _ i (trie_keys typ d) (ac_keys typ d) (re_keys typ d) _ Hs) Hi).
    destruct (forallb (pattern_ok typ) ps); [|exact IH]. rewrite IH. by rewrite extend_extend.
  - destruct Hp as [e ->]. by exists (with_err n e), e.
Qed.

(** ** Sequences of sets *)

(** One [AddSet] call: rule index, patterns, kind. *)
Definition domain_set := (nat * list bytes * string)%type.

Fixpoint AddSets (n : AhocorasickSlimtrie) (sets : list domain_set) : option AhocorasickSlimtrie :=
  match sets with
  | [] => Some n
  | (i, ps, typ) :: sets => n ← AddSet n i ps typ; AddSets n sets
  end.

(** What the sets contribute to the rule [i], in order. *)
Definition collect {A} (f : string -> bytes -> list A) (sets : list domain_set) (i : nat) : list A :=
  flat_map (fun '(j, ps, typ) => if j =? i then flat_map (f typ) ps else []) sets.

Definition set_ok (L : nat) (s : domain_set) : Prop :=
  let '(i, ps, typ) := s in i < L /\ forallb (pattern_ok typ) ps = true.

Definition collected (n : AhocorasickSlimtrie) (L : nat) (sets : list domain_set) : Prop :=
  sized n L /\ err n = None /\
  forall i, i < L ->
    toBuildTrie n !! i = Some (collect trie_keys sets i) /\
    toBuildAc n !! i = Some (collect ac_keys sets i) /\
    regexp n !! i = Some (collect re_keys sets i).

Lemma collect_snoc {A} (f : string -> bytes -> list A) sets j ps typ i :
  collect f (sets ++ [(j, ps, typ)]) i =
  collect f sets i ++ (if j =? i then flat_map (f typ) ps else []).
Proof. unfold collect. rewrite flat_map_app. simpl. by rewrite app_nil_r. Qed.

Lemma alter_collect {A} (f : string -> bytes -> list A) sets j ps typ i (l : list (list A)) :
  l !! i = Some (collect f sets i) ->
  alter (.++ flat_map (f typ) ps) j l !! i = Some (collect f (sets ++ [(j, ps, typ)]) i).
Proof.
  intros Hl. rewrite collect_snoc. destruct (Nat.eqb_spec j i) as [->|Hne].
  - rewrite list_lookup_alter_eq, Hl. done.
  - rewrite list_lookup_alter_ne by done. by rewrite app_nil_r.
Qed.

Lemma AddSets_spec L sets n done :
  collected n L done -> Forall (set_ok L) sets ->
  exists n', AddSets n sets = Some n' /\ collected n' L (done ++ sets).
Proof.
  intros Hn Hs. revert n done Hn. induction Hs as [|[[j ps] typ] sets [Hj Hok] Hs IH]; intros n done Hn.
  { exists n. by rewrite app_nil_r. }
  cbn [AddSets]. destruct Hn as (Hsz & He & Hl). unfold AddSet. rewrite He.
  pose proof (AddSet_loop_spec j typ ps n L Hsz Hj) as Hp. rewrite Hok in Hp. rewrite Hp. cbn [mbind option_bind].
  destruct (IH (extend n j (flat_map (trie_keys typ) ps) (flat_map (ac_keys typ) ps) (flat_map (re_keys typ) ps))
    (done ++ [(j, ps, typ)])) as (n' & E & Hn').
  - split; [by apply extend_sized|]. split; [done|]. intros i Hi. destruct (Hl i Hi) as (H1 & H2 & H3). cbn.
    split; [|split]; by apply alter_collect.
  - exists n'. split; [done|]. by rewrite <-app_assoc in Hn'.
Qed.

Lemma collected_new L : collected (NewAhocorasickSlimtrie L) L [].
Proof.
  split; [by repeat split; cbn; rewrite ?length_replicate|]. split; [done|]. intros i Hi. cbn.
  rewrite !lookup_replicate_2 by done. done.
Qed.

(** ** The construction loops *)

Lemma build_loop_spec {A} (mk : list bytes -> res A) toBuild i built valid :
  length built = i + length toBuild ->
  Forall (fun t => t <> [] -> exists m, mk t = Ok m) toBuild ->
  exists built' valid', build_loop mk i toBuild built valid = Ok (built', valid ++ valid') /\
    length built' = length built /\
    (forall j, j < i -> built' !! j = built !! j) /\
    (forall j, j ∈ valid' -> i <= j /\ exists t, toBuild !! (j - i) = Some t /\ t <> []) /\
    (forall j t, toBuild !! j = Some t -> t <> [] ->
       i + j ∈ valid' /\ exists m, mk t = Ok m /\ built' !! (i + j) = Some m).
Proof using Type.
  revert i built valid. induction toBuild as [|t toBuild IH]; intros i built valid Hlen Hall; cbn [build_loop].
  { exists built, []. rewrite app_nil_r. do 3 (split; [done|]). split; [set_solver|done]. }
  apply Forall_cons in Hall as [Ht Hall]. cbn [length] in Hlen. destruct (Nat.eqb_spec (length t) 0) as [Hz|Hz].
  - apply nil_length_inv in Hz as ->.
    destruct (IH (S i) built valid) as (b' & v' & -> & Hl & Hb & Hv & Hm); [lia|done|].
    exists b', v'. do 2 (split; [done|]). split; [intros; apply Hb; lia|]. split.
    + intros j Hj. destruct (Hv j Hj) as (Hij & t & Ht' & Hne). split; [lia|]. exists t.
      by replace (j - i) with (S (j - S i)) by lia.
    + intros [|j] t Hj Hne; [by injection Hj as <-|]. rewrite Nat.add_succ_r. by apply Hm.
  - assert (Hne : t <> []) by (by intros ->). destruct (Ht Hne) as [m Hmk]. rewrite Hmk. cbn [mbind res_bind].
    destruct (Nat.ltb_spec i (length built)); [|lia]. cbn [idx mbind res_bind].
    destruct (IH (S i) (<[i:=m]> built) (valid ++ [i])) as (b' & v' & -> & Hl & Hb & Hv & Hm);
      [rewrite length_insert; lia|done|]. rewrite length_insert in Hl.
    exists b', (i :: v'). rewrite <-app_assoc. split; [done|]. split; [done|]. split; [|split].
    + intros j Hj. rewrite Hb by lia. by rewrite list_lookup_insert_ne by lia.
    + intros j [->|Hj]%elem_of_cons.
      * split; [done|]. exists t. by rewrite Nat.sub_diag.
      * destruct (Hv j Hj) as (Hij & t' & Ht' & Hne'). split; [lia|]. exists t'.
        by replace (j - i) with (S (j - S i)) by lia.
    + intros [|j] t' Hj Hne'.
      * injection Hj as <-. rewrite Nat.add_0_r. split; [by left|]. exists m. split; [done|].
        rewrite Hb by lia. by apply list_lookup_insert_eq.
      * rewrite Nat.add_succ_r. destruct (Hm j t' Hj Hne') as [Hin Hex]. split; [by right|done].
Qed.

Lemma nonempty_indexes_spec {A} (l : list (list A)) i j :
  j ∈ nonempty_indexes i l <-> i <= j /\ exists x, l !! (j - i) = Some x /\ x <> [].
Proof using Type.
  revert i. induction l as [|x l IH]; intros i; cbn [nonempty_indexes]; [set_solver|].
  destruct (decide (i = j)) as [->|Hij].
  - rewrite Nat.sub_diag. destruct x as [|a x]; cbn [length Nat.eqb].
    + rewrite IH. split; [intros [? _]; lia|]. by intros (_ & y & [= <-] & Hy).
    + split; [intros _; split; [done|]; by exists (a :: x)|]. intros _. by left.
  - assert (Hs : i <= j /\ (exists y, (x :: l) !! (j - i) = Some y /\ y <> []) <->
      S i <= j /\ exists y, l !! (j - S i) = Some y /\ y <> []).
    { split; (intros [Hle Hy]; split; [lia|]); replace (j - i) with (S (j - S i)) in * by lia; done. }
    rewrite Hs, <-IH. destruct (length x =? 0); [done|]. rewrite elem_of_cons.
    split; [by intros [->|?]|by right].
Qed.

(** ** The bitmap *)

Definition bit32 (bm : list Z) (j : nat) : bool := tb (default 0%Z (bm !! (j / 32))) (j mod 32).

Lemma land_bit_pos w r : (0 <= w)%Z -> r < 32 -> (0 <? Z.land w (shl 32 1 r))%Z = tb w r.
Proof.
  intros Hw Hr. assert (Hn : (0 <= Z.land w (shl 32 1 r))%Z) by (apply Z.land_nonneg; by left).
  destruct (tb w r) eqn:E.
  - apply Z.ltb_lt. destruct (Z.eq_dec (Z.land w (shl 32 1 r)) 0) as [H0|]; [|lia].
    assert (Hb : tb (Z.land w (shl 32 1 r)) r = true); [|by rewrite H0, tb_zero in Hb].
    by rewrite tb_land, E, tb_shl_one, Nat.eqb_refl by done.
  - apply Z.ltb_ge. assert (Z.land w (shl 32 1 r) = 0%Z) as ->; [|lia].
    apply tb_inj; [done|done|]. intros n. rewrite tb_land, tb_zero. destruct (decide (n = r)) as [->|]; [by rewrite E|].
    by rewrite tb_shl_one, (proj2 (Nat.eqb_neq n r)), andb_false_r by done.
Qed.

Definition words32 (bm : list Z) : Prop := Forall (fits 32) bm.

Lemma div32 j L : j < L -> j / 32 < L / 32 + (if L mod 32 =? 0 then 0 else 1).
Proof.
  intros Hj. pose proof (Nat.div_mod_eq j 32). pose proof (Nat.div_mod_eq L 32).
  pose proof (Nat.mod_upper_bound j 32). pose proof (Nat.mod_upper_bound L 32).
  destruct (Nat.eqb_spec (L mod 32) 0); nia.
Qed.

Lemma bitmap_test_spec bm j : words32 bm -> j / 32 < length bm -> bitmap_test bm j = Some (bit32 bm j).
Proof.
  intros Hw Hj. unfold bitmap_test, bit32. destruct (lookup_ok bm _ Hj) as [w E]. rewrite E.
  cbn [mbind option_bind]. f_equal. apply land_bit_pos; [|apply Nat.mod_upper_bound; lia].
  by destruct (Forall_lookup_1 _ _ _ _ Hw E).
Qed.

Lemma bitmap_set_spec bm j : words32 bm -> j / 32 < length bm ->
  exists bm', bitmap_set bm j = Some bm' /\ words32 bm' /\ length bm' = length bm /\
    forall i, bit32 bm' i = bit32 bm i || (i =? j).
Proof.
  intros Hw Hj. unfold bitmap_set, bit32. destruct (lookup_ok bm _ Hj) as [w E]. rewrite E.
  cbn [mbind option_bind]. eexists. split; [done|]. pose proof (Nat.mod_upper_bound j 32).
  split; [apply Forall_insert; [done|apply fits_lor; [by eapply Forall_lookup_1|apply wrap_fits]]|].
  split; [apply length_insert|]. intros i. destruct (decide (i / 32 = j / 32)) as [Heq|Hne].
  - rewrite Heq, list_lookup_insert_eq, E by done. change (default 0%Z (Some w)) with w.
    change (default 0%Z (Some (Z.lor w (shl 32 1 (j mod 32))))) with (Z.lor w (shl 32 1 (j mod 32))).
    rewrite tb_lor, tb_shl_one by lia. pose proof (Nat.mod_upper_bound i 32).
    pose proof (Nat.div_mod_eq i 32). pose proof (Nat.div_mod_eq j 32). f_equal.
    destruct (Nat.eqb_spec i j); nat_cases; try lia; done.
  - rewrite list_lookup_insert_ne by done. destruct (Nat.eqb_spec i j); [congruence|]. by rewrite orb_false_r.
Qed.

Lemma mark_loop_spec test f indexes bm :
  words32 bm -> (forall i, i ∈ indexes -> i / 32 < length bm /\ test i = Some (f i)) ->
  exists bm', mark_loop test indexes bm = Some bm' /\ words32 bm' /\ length bm' = length bm /\
    forall j, bit32 bm' j = bit32 bm j || (bool_decide (j ∈ indexes) && f j).
Proof.
  revert bm. induction indexes as [|i indexes IH]; intros bm Hw Ht; cbn [mark_loop].
  { exists bm. do 3 (split; [done|]). intros j. by rewrite bool_decide_eq_false_2, orb_false_r by set_solver. }
  destruct (Ht i) as [Hi Hf]; [by left|]. rewrite bitmap_test_spec by done. cbn [mbind option_bind].
  assert (Hrec : forall bm1, words32 bm1 -> length bm1 = length bm ->
    (forall j, bit32 bm1 j = bit32 bm j || ((j =? i) && f j)) ->
    exists bm', mark_loop test indexes bm1 = Some bm' /\ words32 bm' /\ length bm' = length bm /\
    forall j, bit32 bm' j = bit32 bm j || (bool_decide (j ∈ i :: indexes) && f j)).
  { intros bm1 Hw1 Hl1 Hb1. destruct (IH bm1 Hw1) as (bm' & E & Hw' & Hl' & Hb').
    { intros k Hk. rewrite Hl1. apply Ht. by right. }
    exists bm'. split; [done|]. split; [done|]. split; [lia|]. intros j. rewrite Hb', Hb1, <-orb_assoc. f_equal.
    rewrite <-andb_orb_distrib_l. f_equal. apply bool_iff. rewrite orb_true_iff, Nat.eqb_eq, !bool_decide_eq_true.
    by rewrite elem_of_cons. }
  destruct (bit32 bm i) eqn:Eb.
  - apply Hrec; [done..|]. intros j. destruct (Nat.eqb_spec j i) as [->|]; [by rewrite Eb|by rewrite orb_false_r].
  - rewrite Hf. cbn [mbind option_bind]. destruct (f i) eqn:Ef.
    + destruct (bitmap_set_spec bm i Hw Hi) as (bm1 & -> & Hw1 & Hl1 & Hb1). cbn [mbind option_bind].
      apply Hrec; [done..|]. intros j. rewrite Hb1. f_equal. destruct (Nat.eqb_spec j i) as [->|]; [by rewrite Ef|done].
    + cbn [mbind option_bind]. apply Hrec; [done..|]. intros j.
      destruct (Nat.eqb_spec j i) as [->|]; by rewrite ?Ef, orb_false_r.
Qed.

(** ** Meaning of the patterns *)

(** Whether the pattern [d] of kind [typ] matches the normalised domain. *)
Definition pattern_matches (typ : string) (d dom : bytes) : bool :=
  if (typ =? RoutingDomainKey_Full)%string then
    forallb (IsValidChar ValidDomainChars) d && bool_decide (d = dom)
  else if (typ =? RoutingDomainKey_Suffix)%string then
    forallb (IsValidChar ValidDomainChars) d &&
    (if HasStrPrefix d (str ".") then bool_decide (d `suffix_of` dom)
     else bool_decide (str "." ++ d `suffix_of` dom) || bool_decide (d = dom))
  else if (typ =? RoutingDomainKey_Keyword)%string then substring d (str "^" ++ dom ++ str "$")
  else if (typ =? RoutingDomainKey_Regex)%string then
    match regexp_Compile d with Some r => regexp_MatchString r dom | None => false end
  else false.

Lemma any_prefix_trie_keys typ d dom :
  94%Z ∉ dom -> 36%Z ∉ dom ->
  (exists k, k ∈ trie_keys typ d /\ ToSuffixTrieString k `prefix_of` ToSuffixTrieString (str "^" ++ dom)) <->
  (typ = RoutingDomainKey_Full \/ typ = RoutingDomainKey_Suffix) /\ pattern_matches typ d dom = true.
Proof using Type.
  clear unicode_ToLower ahocorasick_IsValidChar ahocorasick_NewMatcher ahocorasick_Contains.
  intros Hh Hd. unfold trie_keys, pattern_matches, ToSuffixTrieString.
  assert (TrimSuffix (str "^" ++ dom) (str "$") = str "^" ++ dom) as ->.
  { apply (TrimSuffix_last _ 36%Z). cbn [str app]. set_solver. }
  destruct (forallb _ d); cbn [andb].
  2: { split; [set_solver|]. intros [[-> | ->] H]; eqb_literals_in H; done. }
  destruct (String.eqb_spec typ RoutingDomainKey_Full) as [->|Hf].
  { setoid_rewrite list_elem_of_singleton. rewrite bool_decide_eq_true. split.
    - intros (k & -> & Hk). rewrite app_assoc, TrimSuffix_app, prefix_rev, suffix_hat in Hk by done. auto.
    - intros [_ ->]. eexists. split; [done|]. by rewrite app_assoc, TrimSuffix_app. }
  destruct (String.eqb_spec typ RoutingDomainKey_Suffix) as [->|Hs].
  2: { split; [set_solver|]. naive_solver. }
  unfold HasStrPrefix. destruct (bool_decide_reflect (str "." `prefix_of` d)) as [[x ->]|Hdot].
  - setoid_rewrite list_elem_of_singleton. rewrite bool_decide_eq_true. split.
    + intros (k & -> & Hk). rewrite TrimSuffix_app, prefix_rev, suffix_dot in Hk. auto.
    + intros [_ H]. eexists. split; [done|]. by rewrite TrimSuffix_app, prefix_rev, suffix_dot.
  - rewrite orb_true_iff, !bool_decide_eq_true. split.
    + intros (k & Hk & Hp). split; [by right|].
      apply elem_of_cons in Hk as [->|Hk%list_elem_of_singleton]; [left|right; subst k];
        rewrite app_assoc, TrimSuffix_app, prefix_rev in Hp; [by rewrite suffix_dot in Hp|by rewrite suffix_hat in Hp].
    + intros [_ [H|H]].
      * eexists. split; [by left|]. by rewrite app_assoc, TrimSuffix_app, prefix_rev, suffix_dot.
      * eexists. split; [by right; left|]. by rewrite app_assoc, TrimSuffix_app, prefix_rev, suffix_hat.
Qed.

(** ** Correctness of the bitmap *)

Lemma elem_of_collect {A} (f : string -> bytes -> list A) sets i x :
  x ∈ collect f sets i <-> exists ps typ d, (i, ps, typ) ∈ sets /\ d ∈ ps /\ x ∈ f typ d.
Proof.
  unfold collect. rewrite list_elem_of_In, in_flat_map. split.
  - intros ([[j ps] typ] & Hs & Hx). destruct (Nat.eqb_spec j i) as [->|]; [|done].
    apply in_flat_map in Hx as (d & Hd & Hx). exists ps, typ, d. by rewrite !list_elem_of_In.
  - intros (ps & typ & d & Hs & Hd & Hx). exists (i, ps, typ). rewrite <-list_elem_of_In. split; [done|].
    rewrite Nat.eqb_refl. apply in_flat_map. exists d. by rewrite <-!list_elem_of_In.
Qed.

(** The rule matches: one of its sets has a pattern that matches. *)
Definition rule_matches (sets : list domain_set) (i : nat) (dom : bytes) : Prop :=
  exists ps typ d, (i, ps, typ) ∈ sets /\ d ∈ ps /\ pattern_matches typ d dom = true.

(** Assumed of the keyword automaton: it can be built from valid patterns. *)
Context (ac_builds : forall ps, forallb (forallb ahocorasick_IsValidChar) ps = true ->
  exists m, ahocorasick_NewMatcher ps = Ok m).

Definition sets_wf (L : nat) (sets : list domain_set) : Prop :=
  Forall (set_ok L) sets /\
  (forall i ps typ d, (i, ps, typ) ∈ sets -> d ∈ ps -> Forall is_byte d /\
     (typ = RoutingDomainKey_Keyword -> forallb ahocorasick_IsValidChar d = true)) /\
  (forall i, trie_fits (ToSuffixTrieStrings (collect trie_keys sets i))).

Definition keywords_nonempty (sets : list domain_set) : Prop :=
  forall i ps d, (i, ps, RoutingDomainKey_Keyword) ∈ sets -> d ∈ ps -> d <> [].

Definition domain_ok (dom : bytes) : Prop :=
  (94%Z ∉ dom) /\ (36%Z ∉ dom) /\ forallb ahocorasick_IsValidChar (str "^" ++ dom ++ str "$") = true.

Lemma elem_of_collect_ac sets i d :
  d ∈ collect ac_keys sets i -> exists ps, (i, ps, RoutingDomainKey_Keyword) ∈ sets /\ d ∈ ps.
Proof.
  intros (ps & typ & d' & Hs & Hd & Hx)%elem_of_collect. unfold ac_keys in Hx.
  destruct (String.eqb_spec typ RoutingDomainKey_Keyword) as [->|]; [|set_solver].
  apply list_elem_of_singleton in Hx as ->. eauto.
Qed.

Lemma collect_ac_valid L sets i :
  sets_wf L sets -> forallb (forallb ahocorasick_IsValidChar) (collect ac_keys sets i) = true.
Proof.
  intros (_ & Hp & _). apply forallb_forall.
  intros d (ps & Hs & Hd)%list_elem_of_In%elem_of_collect_ac. by eapply Hp.
Qed.

Lemma collect_ac_nonempty sets i :
  keywords_nonempty sets -> Forall (fun p => p <> []) (collect ac_keys sets i).
Proof. intros Hk. apply Forall_forall. intros d (ps & Hs & Hd)%elem_of_collect_ac. by eapply Hk. Qed.

Lemma trie_of_rule L sets i :
  sets_wf L sets ->
  exists t, NewTrie (ToSuffixTrieStrings (collect trie_keys sets i)) ValidDomainChars = Ok t /\
    forall word, Forall is_byte word ->
      HasPrefix t word = Some (any_prefix (ToSuffixTrieStrings (collect trie_keys sets i)) word).
Proof using Type.
  intros (_ & Hp & Hfit). set (keys := ToSuffixTrieStrings _).
  destruct (decide (keys = [])) as [E|Hne]; [rewrite E; by exists None|].
  destruct (NewTrie_spec keys ValidDomainChars domain_alphabet) as (ss & G & HN & _ & Hok & _);
    [done|apply ValidDomainChars_alphabet|apply str_bytes|apply Hfit|done|done| |].
  - intros k c Hk Hc. apply list_elem_of_In, in_map_iff in Hk as (k' & <- & Hk').
    apply list_elem_of_In, elem_of_collect in Hk' as (ps & typ & d & Hs & Hd & Hk').
    eapply trie_keys_chars; [|done|done]. by apply (Hp i ps typ d).
  - exists (Some ss). split; [done|]. intros word Hw. by eapply HasPrefix_trie_ok.
Qed.

Lemma Build_spec L sets n :
  collected n L sets -> sets_wf L sets ->
  exists n', Build n = Ok n' /\ length (ac n') = L /\
    (forall i, i ∈ validTrieIndexes n' -> i < L) /\
    (forall i, i ∈ validAcIndexes n' -> i < L) /\
    (forall i, i ∈ validRegexpIndexes n' -> i < L) /\
    forall i, i < L ->
      (i ∈ validTrieIndexes n' <-> collect trie_keys sets i <> []) /\
      (i ∈ validAcIndexes n' <-> collect ac_keys sets i <> []) /\
      (i ∈ validRegexpIndexes n' <-> collect re_keys sets i <> []) /\
      (collect trie_keys sets i <> [] -> exists t, trie n' !! i = Some t /\
        NewTrie (ToSuffixTrieStrings (collect trie_keys sets i)) ValidDomainChars = Ok t) /\
      (collect ac_keys sets i <> [] -> exists m, ac n' !! i = Some (Some m) /\
        ahocorasick_NewMatcher (collect ac_keys sets i) = Ok m) /\
      regexp n' !! i = Some (collect re_keys sets i).
Proof using ac_builds.
  clear unicode_ToLower ahocorasick_Contains regexp_MatchString.
  intros ((Hac & Htr & Hre & Htac & Httr) & He & Hl) Hwf. unfold Build. rewrite He.
  destruct (build_loop_spec (fun t => Some <$> ahocorasick_NewMatcher t) (toBuildAc n) 0 (ac n) [])
    as (acs & vac & -> & Hal & _ & Hav & Ham); [lia| |].
  { apply Forall_lookup. intros i t Ht _. apply lookup_lt_Some in Ht as Hi. destruct (Hl i) as (_ & Ha & _); [lia|].
    rewrite Ha in Ht. injection Ht as <-. destruct (ac_builds (collect ac_keys sets i)) as [m Hm].
    { by eapply collect_ac_valid. } exists (Some m). by rewrite Hm. }
  cbn [mbind res_bind app].
  destruct (build_loop_spec (fun t => NewTrie (ToSuffixTrieStrings t) ValidDomainChars) (toBuildTrie n) 0 (trie n) [])
    as (tries & vtr & -> & Htl & _ & Htv & Htm); [lia| |].
  { apply Forall_lookup. intros i t Ht _. apply lookup_lt_Some in Ht as Hi. destruct (Hl i) as (Ha & _); [lia|].
    rewrite Ha in Ht. injection Ht as <-. destruct (trie_of_rule L sets i Hwf) as (t & E & _). eauto. }
  cbn [mbind res_bind app]. eexists. split; [done|]. cbn. split; [lia|]. split; [|split; [|split]].
  - intros i Hi. destruct (Htv i Hi) as (_ & t & Ht & _). rewrite Nat.sub_0_r in Ht. apply lookup_lt_Some in Ht. lia.
  - intros i Hi. destruct (Hav i Hi) as (_ & t & Ht & _). rewrite Nat.sub_0_r in Ht. apply lookup_lt_Some in Ht. lia.
  - intros i [_ (x & Hx & _)]%nonempty_indexes_spec. rewrite Nat.sub_0_r in Hx. apply lookup_lt_Some in Hx. lia.
  - intros i Hi. destruct (Hl i Hi) as (H1 & H2 & H3). split; [|split; [|split; [|split; [|split]]]].
    + split; [|intros Hne; by apply (Htm i _ H1)]. intros Hv. destruct (Htv i Hv) as (_ & t & Ht & Hne).
      rewrite Nat.sub_0_r in Ht. congruence.
    + split; [|intros Hne; by apply (Ham i _ H2)]. intros Hv. destruct (Hav i Hv) as (_ & t & Ht & Hne).
      rewrite Nat.sub_0_r in Ht. congruence.
    + rewrite nonempty_indexes_spec, Nat.sub_0_r, H3. split; [naive_solver|]. intros Hne. split; [lia|]. eauto.
    + intros Hne. destruct (Htm i _ H1 Hne) as (_ & t & Ht & Hlk). eauto.
    + intros Hne. destruct (Ham i _ H2 Hne) as (_ & m & Hm & Hlk).
      destruct (ahocorasick_NewMatcher (collect ac_keys sets i)) as [m'| |]; try discriminate. injection Hm as <-. eauto.
    + done.
Qed.

Lemma pattern_matches_cases sets i dom :
  (94%Z ∉ dom) -> (36%Z ∉ dom) ->
  rule_matches sets i dom <->
  any_prefix (ToSuffixTrieStrings (collect trie_keys sets i)) (ToSuffixTrieString (str "^" ++ dom)) = true \/
  existsb (fun p => substring p (str "^" ++ dom ++ str "$")) (collect ac_keys sets i) = true \/
  existsb (fun r => regexp_MatchString r dom) (collect re_keys sets i) = true.
Proof using Type.
  clear unicode_ToLower ac_builds ahocorasick_IsValidChar ahocorasick_NewMatcher ahocorasick_Contains.
  intros Hh Hd. rewrite any_prefix_spec, !existsb_exists. setoid_rewrite <-list_elem_of_In.
  setoid_rewrite elem_of_collect. unfold ToSuffixTrieStrings. setoid_rewrite list_elem_of_In.
  setoid_rewrite in_map_iff. setoid_rewrite <-list_elem_of_In. setoid_rewrite elem_of_collect. split.
  - intros (ps & typ & d & Hs & Hdp & Hm). pose proof (any_prefix_trie_keys typ d dom Hh Hd) as Htk.
    destruct (decide (typ = RoutingDomainKey_Full \/ typ = RoutingDomainKey_Suffix)) as [Hk|Hk].
    + left. destruct Htk as [_ Htk]. destruct Htk as (k & Hk1 & Hk2); [done|].
      exists (ToSuffixTrieString k). split; [|done]. exists k. split; [done|]. by exists ps, typ, d.
    + right. unfold pattern_matches in Hm.
      destruct (String.eqb_spec typ RoutingDomainKey_Full); [naive_solver|].
      destruct (String.eqb_spec typ RoutingDomainKey_Suffix); [naive_solver|].
      destruct (String.eqb_spec typ RoutingDomainKey_Keyword) as [->|].
      * left. exists d. split; [|done]. exists ps, RoutingDomainKey_Keyword, d. unfold ac_keys. eqb_literals. set_solver.
      * right. destruct (String.eqb_spec typ RoutingDomainKey_Regex) as [->|]; [|done].
        destruct (regexp_Compile d) as [r|] eqn:Er; [|done]. exists r. split; [|done].
        exists ps, RoutingDomainKey_Regex, d. unfold re_keys. eqb_literals. rewrite Er. set_solver.
  - intros [(k' & (k & <- & ps & typ & d & Hs & Hdp & Hk) & Hpre)|[(x & (ps & typ & d & Hs & Hdp & Hx) & Hm)|(r & (ps & typ & d & Hs & Hdp & Hr) & Hm)]];
      exists ps, typ, d; (split; [done|]; split; [done|]).
    + apply any_prefix_trie_keys; [done..|]. eauto.
    + unfold ac_keys in Hx. destruct (String.eqb_spec typ RoutingDomainKey_Keyword) as [->|]; [|set_solver].
      apply list_elem_of_singleton in Hx as ->. unfold pattern_matches. by eqb_literals.
    + unfold re_keys in Hr. destruct (String.eqb_spec typ RoutingDomainKey_Regex) as [->|]; [|set_solver].
      unfold pattern_matches. eqb_literals. destruct (regexp_Compile d); [|set_solver].
      by apply list_elem_of_singleton in Hr as ->.
Qed.

(** ** Early validation *)

Section Validation.
Context (ac_rejects : forall ps m, ahocorasick_NewMatcher ps = Ok m ->
  forallb (forallb ahocorasick_IsValidChar) ps = true).

Lemma build_loop_ok_inv {A} (mk : list bytes -> res A) toBuild i built valid r :
  build_loop mk i toBuild built valid = Ok r -> forall t, t ∈ toBuild -> t <> [] -> exists m, mk t = Ok m.
Proof.
  revert i built valid. induction toBuild as [|t0 toBuild IH]; intros i built valid H t Hin Hne; [set_solver|].
  cbn [build_loop] in H. destruct (Nat.eqb_spec (length t0) 0) as [Hz|].
  - apply nil_length_inv in Hz as ->. apply elem_of_cons in Hin as [->|Hin]; [done|]. eapply IH; eauto.
  - destruct (mk t0) eqn:E; try discriminate. cbn [mbind res_bind] in H.
    destruct (i <? length built); [|discriminate]. cbn [idx mbind res_bind] in H.
    apply elem_of_cons in Hin as [->|Hin]; [eauto|]. eapply IH; eauto.
Qed.

Lemma ValidateSet_ok ps typ :
  ValidateSet ps typ = Ok tt <->
  forallb (pattern_ok typ) ps = true /\
  (typ = RoutingDomainKey_Keyword -> forallb (forallb ahocorasick_IsValidChar) ps = true).
Proof using Type.
  clear unicode_ToLower regexp_MatchString ahocorasick_Contains.
  induction ps as [|p ps IH]; [done|]. cbn [ValidateSet forallb].
  assert (Hp : ValidateSet_pattern typ p = Ok tt <->
    pattern_ok typ p = true /\ (typ = RoutingDomainKey_Keyword -> forallb ahocorasick_IsValidChar p = true)).
  { unfold ValidateSet_pattern, pattern_ok, guard_err.
    destruct (String.eqb_spec typ RoutingDomainKey_Regex) as [->|]; [eqb_literals|].
    { destruct (regexp_Compile p); [|naive_solver]. split; [|done]. intros _. split; [done|discriminate]. }
    destruct (String.eqb_spec typ RoutingDomainKey_Keyword) as [->|];
      [eqb_literals; destruct (forallb _ p); naive_solver|].
    rewrite !orb_false_r. destruct (_ || _); naive_solver. }
  destruct (ValidateSet_pattern typ p) as [[]| |]; cbn [mbind res_bind]; rewrite ?IH, ?andb_true_iff; naive_solver.
Qed.

Lemma lone_set_wf L i ps typ :
  i < L -> Forall (Forall is_byte) ps -> ValidateSet ps typ = Ok tt ->
  (forall j, trie_fits (ToSuffixTrieStrings (collect trie_keys [(i, ps, typ)] j))) ->
  sets_wf L [(i, ps, typ)].
Proof using Type.
  clear unicode_ToLower regexp_MatchString ahocorasick_Contains.
  intros Hi Hby [Hok Hkw]%ValidateSet_ok Hfit. split; [by constructor|]. split; [|done].
  intros j ps' typ' d Hin%list_elem_of_singleton Hd. injection Hin as -> -> ->. rewrite Forall_forall in Hby.
  split; [by apply Hby|]. intros ->. specialize (Hkw eq_refl). rewrite forallb_forall in Hkw.
  apply Hkw. by apply list_elem_of_In.
Qed.

Lemma ac_keys_keyword ps : flat_map (ac_keys RoutingDomainKey_Keyword) ps = ps.
Proof.
  induction ps as [|p ps IH]; [done|]. cbn [flat_map]. rewrite IH. unfold ac_keys. by eqb_literals.
Qed.

(** [ValidateSet] reports exactly the sets that a matcher would fail on. *)
Lemma ValidateSet_build L i ps typ :
  i < L -> Forall (Forall is_byte) ps ->
  (forall j, trie_fits (ToSuffixTrieStrings (collect trie_keys [(i, ps, typ)] j))) ->
  ValidateSet ps typ = Ok tt <->
  exists n n', AddSet (NewAhocorasickSlimtrie L) i ps typ = Some n /\ Build n = Ok n'.
Proof using ac_builds ac_rejects.
  clear unicode_ToLower regexp_MatchString ahocorasick_Contains.
  intros Hi Hby Hfit. destruct (collected_new L) as (Hsz & _ & _).
  pose proof (AddSet_loop_spec i typ ps _ L Hsz Hi) as Hadd. split.
  - intros Hv. pose proof (lone_set_wf L i ps typ Hi Hby Hv Hfit) as Hwf.
    destruct (AddSets_spec L [(i, ps, typ)] _ [] (collected_new L)) as (n & HA & Hc); [apply Hwf|].
    destruct (Build_spec L _ n Hc Hwf) as (n' & HB & _). cbn [AddSets] in HA.
    destruct (AddSet _ i ps typ) as [n1|] eqn:E; [|done]. injection HA as ->. by exists n, n'.
  - intros (n & n' & HA & HB). apply ValidateSet_ok. cbn [AddSet err NewAhocorasickSlimtrie] in HA.
    unfold AddSet in HA. cbn [err NewAhocorasickSlimtrie] in HA. unfold Build in HB.
    destruct (forallb (pattern_ok typ) ps) eqn:Hok.
    + split; [done|]. intros ->. rewrite Hadd in HA. injection HA as <-.
      cbn [err extend NewAhocorasickSlimtrie] in HB. 
      destruct (build_loop (fun t => Some <$> ahocorasick_NewMatcher t) 0 _ _ _) as [r| |] eqn:E in HB; try discriminate.
      destruct (decide (ps = [])) as [->|Hne]; [done|].
      destruct (build_loop_ok_inv _ _ _ _ _ _ E ps) as [m Hm]; [|done|].
      * apply list_elem_of_lookup. exists i. cbn. rewrite list_lookup_alter_eq, lookup_replicate_2 by done. cbn.
        f_equal. apply ac_keys_keyword.
      * destruct (ahocorasick_NewMatcher ps) eqn:Em; try discriminate. by eapply ac_rejects.
    + destruct Hadd as (n1 & e & Hadd & He). rewrite Hadd in HA. injection HA as ->. by rewrite He in HB.
Qed.

(** [ValidateSet] is exact: it accepts a pattern set if and only if adding the set to
    a fresh matcher and building it succeeds, so skipping the construction for predicates
    that are never evaluated reports the same errors. *)
Theorem ValidateSet_exact L i ps typ :
  i < L -> Forall (Forall is_byte) ps ->
  (forall j, trie_fits (ToSuffixTrieStrings (collect trie_keys [(i, ps, typ)] j))) ->
  ValidateSet ps typ = Ok tt <->
  exists n n', AddSet (NewAhocorasickSlimtrie L) i ps typ = Some n /\ Build n = Ok n'.
Proof. apply ValidateSet_build. Qed.
End Validation.

(** Assumed further: the automaton finds its (non-empty) patterns in texts over
    its alphabet, and lowering a string gives a string. *)
Context (ac_finds : forall ps m text, ahocorasick_NewMatcher ps = Ok m -> Forall (fun p => p <> []) ps ->
  forallb ahocorasick_IsValidChar text = true ->
  ahocorasick_Contains m text = existsb (fun p => substring p text) ps).
Context (lower_bytes : forall s, Forall is_byte s -> Forall is_byte (unicode_ToLower s)).

Lemma ToLower_bytes s : Forall is_byte s -> Forall is_byte (ToLower s).
Proof.
  intros Hs. unfold ToLower. destruct (forallb _ s) eqn:E; [|by apply lower_bytes].
  apply Forall_forall. intros c Hc. apply list_elem_of_In, in_map_iff in Hc as (x & <- & Hx).
  rewrite forallb_forall in E. specialize (E x Hx). apply list_elem_of_In in Hx.
  rewrite Forall_forall in Hs. specialize (Hs x Hx). unfold is_byte, fits, lower_byte in *. simpl in *.
  destruct ((65 <=? x)%Z && (x <=? 90)%Z); lia.
Qed.

Lemma Forall_take_bytes s t : Forall is_byte s -> Forall is_byte (TrimSuffix s t).
Proof. unfold TrimSuffix. intros. destruct (bool_decide _); [by apply Forall_take|done]. Qed.

Lemma ToSuffixTrieString_bytes s : Forall is_byte s -> Forall is_byte (ToSuffixTrieString (str "^" ++ s)).
Proof.
  intros Hs. unfold ToSuffixTrieString. apply Forall_rev, Forall_take_bytes, Forall_app_2; [apply str_bytes|done].
Qed.

(** The bitmap a built matcher returns. *)
Lemma bitmap_of_sets L sets :
  sets_wf L sets -> keywords_nonempty sets ->
  exists n n', AddSets (NewAhocorasickSlimtrie L) sets = Some n /\ Build n = Ok n' /\
    forall domain, Forall is_byte domain -> domain_ok (ToLower (TrimSuffix domain (str "."))) ->
      exists bm, MatchDomainBitmap n' domain = Some bm /\
        length bm = L / 32 + (if L mod 32 =? 0 then 0 else 1) /\
        forall i, bit32 bm i = true <-> i < L /\ rule_matches sets i (ToLower (TrimSuffix domain (str "."))).
Proof.
  intros Hwf Hkw. destruct (AddSets_spec L sets _ [] (collected_new L)) as (n & HA & Hc); [apply Hwf|].
  destruct (Build_spec L sets n Hc Hwf) as (n' & HB & HL & Hvt & Hva & Hvr & Hi).
  exists n, n'. split; [done|]. split; [done|]. intros domain Hby (Hh & Hd & Hac).
  set (dom := ToLower _) in *. unfold MatchDomainBitmap. rewrite HL. fold dom.
  set (N := L / 32 + _). set (w := ToSuffixTrieString (str "^" ++ dom)).
  assert (Hw : Forall is_byte w) by (apply ToSuffixTrieString_bytes, ToLower_bytes, Forall_take_bytes, Hby).
  assert (HN : forall i, i < L -> i / 32 < N) by (intros; by apply div32).
  destruct (mark_loop_spec (fun i => t ← trie n' !! i; HasPrefix t w)
    (fun i => any_prefix (ToSuffixTrieStrings (collect trie_keys sets i)) w) (validTrieIndexes n') (replicate N 0%Z))
    as (bm1 & -> & Hw1 & Hl1 & Hb1).
  { apply Forall_replicate, fits_0. }
  { intros i Hv. rewrite length_replicate. pose proof (Hvt i Hv) as HiL. split; [by apply HN|].
    destruct (Hi i HiL) as (Hiff & _ & _ & Ht & _). destruct Ht as (t & -> & HNt); [by apply Hiff|].
    destruct (trie_of_rule L sets i Hwf) as (t' & HNt' & HP). cbn [mbind option_bind].
    rewrite HNt in HNt'. injection HNt' as <-. by apply HP. }
  rewrite length_replicate in Hl1. cbn [mbind option_bind].
  destruct (mark_loop_spec (fun i => m ← ac n' !! i; m ← m; Some (ahocorasick_Contains m (str "^" ++ dom ++ str "$")))
    (fun i => existsb (fun p => substring p (str "^" ++ dom ++ str "$")) (collect ac_keys sets i))
    (validAcIndexes n') bm1 Hw1) as (bm2 & -> & Hw2 & Hl2 & Hb2).
  { intros i Hv. rewrite Hl1. pose proof (Hva i Hv) as HiL. split; [by apply HN|].
    destruct (Hi i HiL) as (_ & Hiff & _ & _ & Ha & _). destruct Ha as (m & -> & HM); [by apply Hiff|].
    cbn [mbind option_bind]. f_equal. eapply ac_finds; [done|by apply collect_ac_nonempty|done]. }
  cbn [mbind option_bind].
  destruct (mark_loop_spec (fun i => rs ← regexp n' !! i; Some (existsb (fun r => regexp_MatchString r dom) rs))
    (fun i => existsb (fun r => regexp_MatchString r dom) (collect re_keys sets i))
    (validRegexpIndexes n') bm2 Hw2) as (bm3 & -> & Hw3 & Hl3 & Hb3).
  { intros i Hv. rewrite Hl2, Hl1. pose proof (Hvr i Hv) as HiL. split; [by apply HN|].
    destruct (Hi i HiL) as (_ & _ & _ & _ & _ & ->). done. }
  exists bm3. split; [done|]. split; [lia|]. intros i. rewrite pattern_matches_cases by done.
  rewrite Hb3, Hb2, Hb1, !orb_true_iff, !andb_true_iff, !bool_decide_eq_true.
  assert (bit32 (replicate N 0%Z) i = false) as ->.
  { unfold bit32. destruct (replicate N 0%Z !! (i / 32)) eqn:E; [|apply tb_zero].
    apply lookup_replicate in E as [-> _]. apply tb_zero. }
  assert (Hne : forall {A} (g : A -> bool) (l : list A), existsb g l = true -> l <> []) by (by intros A g [|]).
  split.
  - intros [[[?|[Hv H]]|[Hv H]]|[Hv H]]; [done|split; [by apply Hvt|]|split; [by apply Hva|]|split; [by apply Hvr|]]; auto.
  - intros [HiL H]. destruct (Hi i HiL) as (Ht & Ha & Hr & _). destruct H as [H|[H|H]].
    + left; left; right. split; [|done]. apply Ht. intros E. rewrite E in H. done.
    + left; right. split; [|done]. apply Ha. by eapply Hne.
    + right. split; [|done]. apply Hr. by eapply Hne.
Qed.

(** C40: The domain matcher computes the right rule bitmap: after adding pattern sets and
    building, [MatchDomainBitmap] sets bit [i] exactly when some pattern of a set of rule
    [i] matches the domain, lowered and without its final dot: [full] patterns by
    equality, [suffix] patterns on label boundaries, [keyword] patterns by containment in
    the anchored name, [regex] patterns by the regular expression. No bit beyond the rules
    is set and neither building nor querying panics.  The patterns are those [AddSet]
    accepts, keywords are not empty, and the domain is written in the alphabet of the
    matcher, without the anchors it reserves. *)
Theorem MatchDomainBitmap_correct L sets :
  sets_wf L sets -> keywords_nonempty sets ->
  exists n n', AddSets (NewAhocorasickSlimtrie L) sets = Some n /\ Build n = Ok n' /\
    forall domain, Forall is_byte domain -> domain_ok (ToLower (TrimSuffix domain (str "."))) ->
      exists bm, MatchDomainBitmap n' domain = Some bm /\
        length bm = L / 32 + (if L mod 32 =? 0 then 0 else 1) /\
        forall i, bit32 bm i = true <-> i < L /\ rule_matches sets i (ToLower (TrimSuffix domain (str "."))).
Proof. apply bitmap_of_sets. Qed.

End Matcher.

(** ** An instance of the parameters *)

(** A naive automaton that keeps its patterns, and no regular expressions. *)
Definition naive_valid (c : Z) : bool := IsValidChar ValidDomainChars c || (c =? 36)%Z.
Definition naive_NewMatcher (ps : list bytes) : res (list bytes) :=
  if forallb (forallb naive_valid) ps then Ok ps else Err "char out of range".
Definition naive_Contains (m : list bytes) (text : bytes) : bool := existsb (fun p => substring p text) m.
Definition no_regexp (d : bytes) : option unit := None.

Lemma naive_builds ps : forallb (forallb naive_valid) ps = true -> exists m, naive_NewMatcher ps = Ok m.
Proof. unfold naive_NewMatcher. intros ->. eauto. Defined.

Lemma naive_finds ps m text : naive_NewMatcher ps = Ok m -> Forall (fun p => p <> []) ps ->
  forallb naive_valid text = true -> naive_Contains m text = existsb (fun p => substring p text) ps.
Proof. unfold naive_NewMatcher. destruct (forallb _ ps); [|discriminate]. by intros [= <-]. Defined.

Lemma naive_rejects ps m : naive_NewMatcher ps = Ok m -> forallb (forallb naive_valid) ps = true.
Proof. unfold naive_NewMatcher. by destruct (forallb _ ps). Defined.

Definition sample_sets : list domain_set :=
  [(0, [str "example.com"; str ".cn"], "suffix"); (33, [str "ads"], "keyword"); (1, [str "a.b"], "full")]%string.

Lemma sample_sets_wf : @sets_wf unit naive_valid no_regexp 34 sample_sets.
Proof.
  split; [repeat constructor; simpl; lia|]. split.
  - assert (H : Forall (fun '(_, ps, typ) => Forall (fun d => Forall is_byte d /\
      (typ = RoutingDomainKey_Keyword -> forallb naive_valid d = true)) ps) sample_sets).
    { repeat constructor; try (simpl; lia); first [discriminate|by intros _; vm_compute]. }
    intros i ps typ d Hin Hd. rewrite Forall_forall in H. specialize (H _ Hin). cbn in H.
    rewrite Forall_forall in H. by apply H.
  - intros i. unfold trie_fits, collect, sample_sets. cbn [flat_map].
    destruct (0 =? i), (33 =? i), (1 =? i); reflexivity.
Defined.

Lemma MatchDomainBitmap_correct_witness :
  exists n n', AddSets no_regexp (NewAhocorasickSlimtrie 34) sample_sets = Some n /\
    Build naive_NewMatcher n = Ok n' /\
    forall domain, Forall is_byte domain -> domain_ok naive_valid (ToLower id (TrimSuffix domain (str "."))) ->
      exists bm, MatchDomainBitmap naive_Contains (fun _ _ => false) id n' domain = Some bm /\
        length bm = 2 /\
        forall i, bit32 bm i = true <->
          i < 34 /\ rule_matches no_regexp (fun _ _ => false) sample_sets i (ToLower id (TrimSuffix domain (str "."))).
Proof.
  apply (MatchDomainBitmap_correct naive_NewMatcher naive_Contains naive_valid no_regexp (fun _ _ => false) id
    naive_builds naive_finds (fun s H => H) 34 sample_sets).
  - apply sample_sets_wf.
  - assert (H : Forall (fun '(_, ps, _) => Forall (fun d : bytes => d <> []) ps) sample_sets)
      by (repeat constructor; discriminate).
    intros i ps d Hin Hd. rewrite Forall_forall in H. specialize (H _ Hin). cbn in H.
    rewrite Forall_forall in H. by apply H.
Defined.

Lemma ValidateSet_exact_witness :
  ValidateSet naive_valid no_regexp [str "ads"] "keyword" = Ok tt <->
  exists n n', AddSet no_regexp (NewAhocorasickSlimtrie 4) 2 [str "ads"] "keyword" = Some n /\
    Build naive_NewMatcher n = Ok n'.
Proof.
  apply (ValidateSet_exact naive_NewMatcher naive_valid no_regexp naive_builds naive_rejects 4 2 [str "ads"] "keyword").
  - lia.
  - repeat constructor; simpl; lia.
  - intros j. unfold collect. cbn [flat_map]. destruct (2 =? j); by vm_compute.
Defined.

End Slimtrie.
