(* ===== verification/RoutingInstr.v ===== *)
(** * Routing instructions, spans and the program cursor (control/routing_*.go)

    The instruction set shared by the userspace evaluator and the kernel program,
    the spans that place instructions in the execution order of a policy, and the
    cursor that walks them. *)

From stdpp Require Import pretty.
From S2P Require Import Prelude Netip.

(** ** Numeric ABI (common/consts/ebpf.go, internal/routingabi) *)

Definition MatchType_DomainSet : Z := 0.
Definition MatchType_IpSet : Z := 1.
Definition MatchType_SourceIpSet : Z := 2.
Definition MatchType_Port : Z := 3.
Definition MatchType_SourcePort : Z := 4.
Definition MatchType_L4Proto : Z := 5.
Definition MatchType_IpVersion : Z := 6.
Definition MatchType_Mac : Z := 7.
Definition MatchType_ProcessName : Z := 8.
Definition MatchType_IfIndex : Z := 9.
Definition MatchType_Dscp : Z := 10.
Definition MatchType_Fallback : Z := 11.
Definition MatchType_HTTPClient : Z := 12.

Definition MatchActionRoute : Z := 0.
Definition MatchActionOr : Z := 1.
Definition MatchActionAnd : Z := 2.
Definition MatchActionMust : Z := 3.
Definition MatchActionBump : Z := 4.
Definition MatchActionCapture : Z := 5.
Definition MatchActionFlowEnd : Z := 6.
Definition MatchActionConditionalJump : Z := 7.
Definition MatchActionMatch : Z := 8.
Definition MatchActionMiss : Z := 9.

Definition OutboundDirect : Z := 0.
Definition OutboundBlock : Z := 1.
Definition OutboundUserDefinedMin : Z := 2.
Definition OutboundMustRules : Z := 252.
Definition OutboundControlPlaneRouting : Z := 253.
Definition OutboundLogicalOr : Z := 254.
Definition OutboundLogicalAnd : Z := 255.

(** [OutboundIndex.String] on the reserved indexes the compiler names. *)
Definition OutboundIndex_String (i : Z) : string :=
  if (i =? OutboundMustRules)%Z then "must_rules"
  else if (i =? OutboundDirect)%Z then "direct"
  else if (i =? OutboundBlock)%Z then "block"
  else if (i =? OutboundControlPlaneRouting)%Z then "bump"
  else if (i =? OutboundLogicalOr)%Z then "<OR>"
  else if (i =? OutboundLogicalAnd)%Z then "<AND>"
  else "<index: " +:+ pretty (Z.to_N i) +:+ ">".

(** The default capacity; a build flag may choose another one. *)
Definition MaxMatchSetLen : nat := 32 * 32.

Definition L4ProtoType_TCP : Z := 1.
Definition L4ProtoType_UDP : Z := 2.
Definition L4ProtoType_uTP : Z := 4.
Definition IpVersion_4 : Z := 1.
Definition IpVersion_6 : Z := 2.
Definition IpVersion_X : Z := 3.

Definition IpVersionFromAddr (addr : Addr) : Z :=
  if Is4 addr || Is4In6 addr then IpVersion_4
  else if Is6 addr then IpVersion_6
  else IpVersion_X.

Definition matchFlagNot : Z := 1.
Definition matchFlagMust : Z := 2.
Definition matchFlagSkipNoalive : Z := 4.
Definition matchCaptureShift : nat := 3.
Definition matchFlagBypass : Z := 64.

Definition captureHTTP : Z := 1.
Definition captureDestination : Z := 2.
Definition captureHTTPRequest : Z := 4.
Definition captureDNS : Z := 8.

(** ** Instructions *)

(** [bpfMatchSet], the generated counterpart of [struct match_set]. *)
Record bpfMatchSet := mkMatch {
  Value : bytes;     (* 16 bytes *)
  Type_ : Z;
  Action : Z;
  Flags : Z;
  Outbound_ : Z;
  Mark : Z;
}.

#[export] Instance bpfMatchSet_eq_dec : EqDecision bpfMatchSet.
Proof. solve_decision. Defined.

Definition zero16 : bytes := replicate 16 0%Z.

(** Composite literals with the remaining fields zero. *)
Definition newMatchSet (kind action flags : Z) : bpfMatchSet := mkMatch zero16 kind action flags 0 0.

Definition with_Value (m : bpfMatchSet) (v : bytes) : bpfMatchSet :=
  mkMatch v (Type_ m) (Action m) (Flags m) (Outbound_ m) (Mark m).
Definition with_Mark (m : bpfMatchSet) (k : Z) : bpfMatchSet :=
  mkMatch (Value m) (Type_ m) (Action m) (Flags m) (Outbound_ m) k.
Definition with_Action (m : bpfMatchSet) (a : Z) : bpfMatchSet :=
  mkMatch (Value m) (Type_ m) a (Flags m) (Outbound_ m) (Mark m).
Definition with_Flags (m : bpfMatchSet) (f : Z) : bpfMatchSet :=
  mkMatch (Value m) (Type_ m) (Action m) f (Outbound_ m) (Mark m).

(** [x&flag != 0]. *)
Definition has_flag (x flag : Z) : bool := negb (Z.land x flag =? 0)%Z.

Definition routingMatchFlags (not_ must skipNoalive : bool) : Z :=
  let flags := 0%Z in
  let flags := if not_ then Z.lor flags matchFlagNot else flags in
  let flags := if must then Z.lor flags matchFlagMust else flags in
  if skipNoalive then Z.lor flags matchFlagSkipNoalive else flags.

(** ** Values *)

(** [binary.LittleEndian.PutUintN] into the head of a 16-byte array, and back. *)
Definition put_le (n : nat) (v : Z) : bytes := map (fun i => wrap 8 (shr v (8 * i))) (seq 0 n).
Fixpoint get_le (b : bytes) : Z :=
  match b with [] => 0%Z | x :: b => Z.lor x (Z.shiftl (get_le b) 8) end.

Definition PutUint32 (v : Z) : bytes := put_le 4 v ++ replicate 12 0%Z.
Definition Uint32 (value : bytes) : Z := get_le (take 4 value).

(** [_bpfPortRange.Encode] and [ParsePortRange]. *)
Definition encodePortRange (value : Z * Z) : bytes := put_le 2 value.1 ++ put_le 2 value.2 ++ replicate 12 0%Z.
Definition ParsePortRange (b : bytes) : Z * Z := (get_le (take 2 b), get_le (take 2 (drop 2 b))).

(** ** Spans *)

Inductive routingPhase := routingPhaseRoute | routingPhaseIngress | routingPhaseFlow.

#[export] Instance routingPhase_eq_dec : EqDecision routingPhase.
Proof. solve_decision. Defined.

Record routingSpan := mkSpan {
  Start : nat;
  End_ : nat;
  Phase : routingPhase;
  Global : bool;
}.

#[export] Instance routingSpan_eq_dec : EqDecision routingSpan.
Proof. solve_decision. Defined.

Definition span_len (s : routingSpan) : nat := End_ s - Start s.

Definition appendSpan (spans : list routingSpan) (span : routingSpan) : list routingSpan :=
  if Start span =? End_ span then spans
  else
    match last spans with
    | Some l =>
      if (End_ l =? Start span) && bool_decide (Phase l = Phase span) && eqb (Global l) (Global span)
      then removelast spans ++ [mkSpan (Start l) (End_ span) (Phase l) (Global l)]
      else spans ++ [span]
    | None => [span]
    end.

Definition spanExecutionLen (spans : list routingSpan) : nat :=
  fold_left (fun length span => length + span_len span) spans 0.

(** [resolvedRoutingBlock], with [appendSpan] and [appendBlock]. *)
Definition too_many : string := "executes too many match sets".

Definition block_appendSpan (b : list routingSpan) (span : routingSpan) : res (list routingSpan) :=
  if span_len span =? 0 then Ok b
  else if (Z.of_nat MaxMatchSetLen - Z.of_nat (span_len span) <? Z.of_nat (spanExecutionLen b))%Z
  then Err too_many
  else Ok (appendSpan b span).

Definition block_appendBlock (b other : list routingSpan) : res (list routingSpan) :=
  if (Z.of_nat MaxMatchSetLen - Z.of_nat (spanExecutionLen other) <? Z.of_nat (spanExecutionLen b))%Z
  then Err too_many
  else Ok (fold_left appendSpan other b).

(** ** Profiles *)

(** A compiled destination rewrite: its predicate and its targets. *)
Record destinationPredicate := mkDestination {
  d_span : routingSpan;
  d_domain : bool;
  d_targets : list Addr;
  d_port : Z;
}.

(** [routingProfile]; the destination program is its list of predicates. *)
Record routingProfile := mkRoutingProfile {
  ID : Z;
  Name : string;
  InterfaceNames : list string;
  Spans : list routingSpan;
  Destination : list destinationPredicate;
}.

(** ** The cursor *)

Record routingCursor := mkCursorR {
  c_spans : list routingSpan;
  c_span : nat;
  c_instruction : nat;
  c_position : nat;
  c_length : nat;
}.

(** The loop of [advance] over the remaining spans. *)
Fixpoint advance_loop (fuel : nat) (spans : list routingSpan) (span instruction distance : nat) : nat * nat :=
  match fuel with
  | 0 => (span, instruction)
  | S fuel =>
    match spans !! span with
    | None => (span, instruction)
    | Some s =>
      let instruction := if instruction <? Start s then Start s else instruction in
      let remaining := End_ s - instruction in
      if distance <? remaining then (span, instruction + distance)
      else advance_loop fuel spans (S span) 0 (distance - remaining)
    end
  end.

Definition advance (c : routingCursor) (distance : nat) : bool * routingCursor :=
  if c_length c - c_position c <? distance then (false, c)
  else
    let '(span, instruction) :=
      advance_loop (S (length (c_spans c))) (c_spans c) (c_span c) (c_instruction c) distance in
    (true, mkCursorR (c_spans c) span instruction (c_position c + distance) (c_length c)).

Definition newRoutingCursor (spans : list routingSpan) : routingCursor :=
  snd (advance (mkCursorR spans 0 0 0 (spanExecutionLen spans)) 0).

(** ** Jumps *)

(** One iteration of [encodeRoutingJumps], from the last instruction backwards:
    [ruleEnd] and [clauseTail] start at -1. *)
Definition encode_jump (i : nat) (rule : bpfMatchSet) (ruleEnd clauseTail : Z)
    : res (bpfMatchSet * Z * Z) :=
  let iz := Z.of_nat i in
  if (Action rule =? MatchActionAnd)%Z then
    if (ruleEnd <=? iz)%Z then Err "missing routing rule tail"
    else Ok (with_Mark rule (wrap 32 (ruleEnd - iz)), ruleEnd, iz)
  else if (Action rule =? MatchActionOr)%Z then
    if (clauseTail <=? iz)%Z then Err "missing routing clause tail"
    else Ok (with_Mark rule (wrap 32 (clauseTail - iz)), ruleEnd, clauseTail)
  else if (Action rule =? MatchActionConditionalJump)%Z then
    if (Mark rule <=? 1)%Z || (Z.of_nat MaxMatchSetLen <? Mark rule)%Z
    then Err "invalid conditional routing jump"
    else Ok (rule, iz + Mark rule, iz)%Z
  else Ok (rule, iz + 1, iz)%Z.

(** [rules] holds the instructions [i ..]; the last one is encoded first. *)
Fixpoint encode_jumps_from (i : nat) (rules : list bpfMatchSet) : res (list bpfMatchSet * Z * Z) :=
  match rules with
  | [] => Ok ([], (-1)%Z, (-1)%Z)
  | rule :: rules =>
    '(rules, ruleEnd, clauseTail) ← encode_jumps_from (S i) rules;
    '(rule, ruleEnd, clauseTail) ← encode_jump i rule ruleEnd clauseTail;
    Ok (rule :: rules, ruleEnd, clauseTail)
  end.

Definition encodeRoutingJumps (rules : list bpfMatchSet) : res (list bpfMatchSet) :=
  '(rules, _, _) ← encode_jumps_from 0 rules; Ok rules.

(** [setConditionalJump]; [None] is the index panic. *)
Definition setConditionalJump (rules : list bpfMatchSet) (tail bodyLength : nat) : option (list bpfMatchSet) :=
  m ← rules !! tail;
  Some (<[tail := with_Mark (with_Action m MatchActionConditionalJump) (wrap 32 (wrap 32 (Z.of_nat bodyLength) + 1))]> rules).

(** [validateRoutingBlocks]: scopes are (end, phase), innermost first. *)
Fixpoint pop_scopes (scopes : list (nat * routingPhase)) (position : nat) (previous : Z)
    : res (list (nat * routingPhase)) :=
  match scopes with
  | (e, ph) :: scopes' =>
    if e <=? position then
      if (previous =? MatchActionOr)%Z || (previous =? MatchActionAnd)%Z
      then Err "conditional routing block ends inside a rule"
      else pop_scopes scopes' position previous
    else Ok scopes
  | [] => Ok []
  end.

Definition is_jump (action : Z) : bool :=
  (action =? MatchActionOr)%Z || (action =? MatchActionAnd)%Z || (action =? MatchActionConditionalJump)%Z.

Fixpoint validate_loop (fuel : nat) (rules : list bpfMatchSet) (spans : list routingSpan)
    (cursor : routingCursor) (scopes : list (nat * routingPhase)) (previous : Z) : res () :=
  match fuel with
  | 0 => Panic
  | S fuel =>
    match spans !! c_span cursor with
    | None => Ok tt
    | Some span =>
      let position := c_position cursor in
      scopes ← pop_scopes scopes position previous;
      _ ← guard_err (match scopes with [] => false | (_, ph) :: _ => negb (bool_decide (Phase span = ph)) end)
            "conditional routing block crosses phases";
      m ← idx (rules !! c_instruction cursor);
      let action := Action m in
      _ ← guard_err (is_jump action &&
            ((Mark m =? 0)%Z || (Z.of_nat (c_length cursor - position) <? Mark m)%Z)) "invalid routing jump";
      scopes ← (if (action =? MatchActionConditionalJump)%Z then
          let e := position + Z.to_nat (Mark m) in
          if match scopes with [] => false | (e', _) :: _ => e' <? e end
          then Err "overlapping conditional routing blocks"
          else Ok ((e, Phase span) :: scopes)
        else Ok scopes);
      validate_loop fuel rules spans (snd (advance cursor 1)) scopes action
    end
  end.

(** One round per executed instruction, and the final test. *)
Definition validateRoutingBlocks (rules : list bpfMatchSet) (spans : list routingSpan) : res () :=
  validate_loop (S (spanExecutionLen spans)) rules spans (newRoutingCursor spans) [] MatchActionRoute.
