(* ===== verification/RoutingCursor.v ===== *)
(** * The cursor walks the flattened program

    Spans place fragments of the physical instruction pool in execution order;
    [flatten] is that order. A cursor is a position in it, whatever the fragments. *)

From S2P Require Import Prelude Netip RoutingInstr.

Definition span_wf (s : routingSpan) : Prop := Start s <= End_ s.

(** Execution order: physical index and span of each position. *)
Definition span_steps (s : routingSpan) : list (nat * routingSpan) :=
  map (fun i => (i, s)) (seq (Start s) (span_len s)).
Definition flatten (spans : list routingSpan) : list (nat * routingSpan) := flat_map span_steps spans.

Lemma length_span_steps s : length (span_steps s) = span_len s.
Proof. unfold span_steps. by rewrite length_map, length_seq. Qed.

Lemma flatten_cons s spans : flatten (s :: spans) = span_steps s ++ flatten spans.
Proof. done. Qed.

Lemma flatten_app a b : flatten (a ++ b) = flatten a ++ flatten b.
Proof. apply flat_map_app. Qed.

Lemma spanExecutionLen_acc spans n :
  fold_left (fun length span => length + span_len span) spans n = n + length (flatten spans).
Proof.
  revert n. induction spans as [|s spans IH]; intros n; simpl; [lia|].
  rewrite IH, length_app, length_span_steps. lia.
Qed.

Lemma spanExecutionLen_flatten spans : spanExecutionLen spans = length (flatten spans).
Proof. unfold spanExecutionLen. by rewrite spanExecutionLen_acc. Qed.

Lemma span_steps_lookup s k : k < span_len s -> span_steps s !! k = Some (Start s + k, s).
Proof. intros Hk. unfold span_steps. rewrite list_lookup_fmap, lookup_seq_lt by done. done. Qed.

(** Number of steps before the span [k]. *)
Definition before (spans : list routingSpan) (k : nat) : nat := length (flatten (take k spans)).

Lemma before_S spans k s : spans !! k = Some s -> before spans (S k) = before spans k + span_len s.
Proof.
  intros Hs. unfold before. erewrite take_S_r by done.
  rewrite flatten_app, length_app, flatten_cons, length_app, length_span_steps. simpl. lia.
Qed.

Lemma before_all spans k : length spans <= k -> before spans k = length (flatten spans).
Proof. intros. unfold before. by rewrite take_ge. Qed.

Lemma before_le spans k : before spans k <= length (flatten spans).
Proof.
  unfold before. rewrite <-(take_drop k spans) at 2. rewrite flatten_app, length_app. lia.
Qed.

Lemma flatten_lookup spans k s j :
  spans !! k = Some s -> j < span_len s -> flatten spans !! (before spans k + j) = Some (Start s + j, s).
Proof.
  intros Hs Hj. assert (flatten spans = flatten (take k spans) ++ span_steps s ++ flatten (drop (S k) spans)) as ->.
  { rewrite <-(take_drop_middle spans k s Hs) at 1. by rewrite flatten_app. }
  unfold before. rewrite lookup_app_r by lia. rewrite lookup_app_l by (rewrite length_span_steps; lia).
  rewrite <-(span_steps_lookup s j Hj). f_equal. lia.
Qed.

(** The cursor is at its position of the flattened program. *)
Definition at_position (spans : list routingSpan) (c : routingCursor) : Prop :=
  c_spans c = spans /\ c_length c = length (flatten spans) /\ c_position c <= length (flatten spans) /\
  (c_position c < length (flatten spans) ->
    exists s, spans !! c_span c = Some s /\ Start s <= c_instruction c < End_ s /\
      c_position c = before spans (c_span c) + (c_instruction c - Start s)) /\
  (c_position c = length (flatten spans) -> c_span c = length spans /\ c_instruction c = 0).

(** Where a cursor stands before [advance] normalises it. *)
Definition effective (s : routingSpan) (instruction : nat) : nat := Nat.max (Start s) instruction.

Lemma advance_loop_spec spans fuel k i d :
  Forall span_wf spans -> k <= length spans -> length spans - k < fuel ->
  (forall s, spans !! k = Some s -> i = 0 \/ (Start s <= i <= End_ s)) ->
  (k = length spans -> i = 0) ->
  let pos := before spans k + match spans !! k with Some s => effective s i - Start s | None => 0 end in
  pos + d <= length (flatten spans) ->
  let '(k', i') := advance_loop fuel spans k i d in
  (pos + d < length (flatten spans) ->
    exists s, spans !! k' = Some s /\ Start s <= i' < End_ s /\ pos + d = before spans k' + (i' - Start s)) /\
  (pos + d = length (flatten spans) -> k' = length spans /\ i' = 0).
Proof.
  intros Hwf. revert k i d. induction fuel as [|fuel IH]; intros k i d Hk Hf Hi Hend pos Hd; [lia|].
  cbn [advance_loop]. destruct (spans !! k) as [s|] eqn:Es; subst pos; cbn [option_map] in *.
  - assert (Hs : span_wf s) by (by eapply Forall_lookup_1). unfold span_wf in Hs.
    assert (Hnorm : (if i <? Start s then Start s else i) = effective s i).
    { unfold effective. destruct (Nat.ltb_spec i (Start s)); lia. }
    rewrite Hnorm. assert (He : Start s <= effective s i <= End_ s).
    { unfold effective. destruct (Hi s eq_refl) as [->|?]; lia. }
    pose proof (before_S spans k s Es) as HbS. unfold span_len in HbS.
    destruct (Nat.ltb_spec d (End_ s - effective s i)) as [Hlt|Hge].
    + split.
      * intros _. exists s. split; [done|]. lia.
      * intros Heq. exfalso. pose proof (before_le spans (S k)). lia.
    + assert (Hk' : S k <= length spans) by (apply lookup_lt_Some in Es; lia).
      specialize (IH (S k) 0 (d - (End_ s - effective s i)) Hk' ltac:(lia)).
      assert (Hpos : before spans (S k) + match spans !! S k with Some s => effective s 0 - Start s | None => 0 end
        = before spans (S k)).
      { destruct (spans !! S k) as [s'|]; [|lia]. unfold effective. lia. }
      rewrite Hpos in IH. assert (Hsum : before spans (S k) + (d - (End_ s - effective s i))
        = before spans k + (effective s i - Start s) + d) by lia.
      rewrite Hsum in IH. apply IH; [by left| done |lia].
  - apply lookup_ge_None in Es. assert (k = length spans) as -> by lia. rewrite before_all in Hd |- * by lia.
    split; [lia|]. intros _. split; [done|by apply Hend].
Qed.

Lemma advance_spec spans c d :
  Forall span_wf spans -> at_position spans c -> d <= c_length c - c_position c ->
  exists c', advance c d = (true, c') /\ at_position spans c' /\ c_position c' = c_position c + d.
Proof.
  intros Hwf (Hsp & Hlen & Hle & Hin & Hout) Hd. unfold advance.
  destruct (Nat.ltb_spec (c_length c - c_position c) d); [lia|].
  assert (Hspec : let '(k', i') := advance_loop (S (length spans)) spans (c_span c) (c_instruction c) d in
    (c_position c + d < length (flatten spans) ->
      exists s, spans !! k' = Some s /\ Start s <= i' < End_ s /\ c_position c + d = before spans k' + (i' - Start s)) /\
    (c_position c + d = length (flatten spans) -> k' = length spans /\ i' = 0)).
  { destruct (decide (c_position c < length (flatten spans))) as [Hlt|Hge].
    - destruct (Hin Hlt) as (s & Hs & Hi & Hp).
      pose proof (advance_loop_spec spans (S (length spans)) (c_span c) (c_instruction c) d Hwf) as H'.
      rewrite Hs in H'. assert (He : effective s (c_instruction c) = c_instruction c) by (unfold effective; lia).
      rewrite He in H'. cbn zeta in H'. rewrite <-Hp in H'. apply H'; [|lia| | |lia].
      + apply lookup_lt_Some in Hs. lia.
      + intros s' [= <-]. right. lia.
      + apply lookup_lt_Some in Hs. lia.
    - assert (Heq : c_position c = length (flatten spans)) by lia. destruct (Hout Heq) as [Hk Hi].
      pose proof (advance_loop_spec spans (S (length spans)) (c_span c) (c_instruction c) d Hwf) as H'.
      rewrite Hk, Hi in *. rewrite (lookup_ge_None_2 spans) in H' by lia. cbn zeta in H'.
      rewrite before_all, Nat.add_0_r in H' by lia. rewrite Heq in *. apply H'; [lia|lia|by left|done|lia]. }
  rewrite Hsp. destruct (advance_loop (S (length spans)) spans (c_span c) (c_instruction c) d) as [k' i'].
  eexists. split; [done|]. cbn. split; [|done]. split; [done|]. split; [done|]. cbn. split; [lia|]. done.
Qed.

Lemma new_cursor_spec spans : Forall span_wf spans ->
  at_position spans (newRoutingCursor spans) /\ c_position (newRoutingCursor spans) = 0.
Proof.
  intros Hwf. unfold newRoutingCursor, advance. cbn [c_length c_position c_spans c_span c_instruction].
  destruct (Nat.ltb_spec (spanExecutionLen spans - 0) 0); [lia|].
  pose proof (advance_loop_spec spans (S (length spans)) 0 0 0 Hwf) as H'. cbn zeta in H'.
  assert (Hpos : before spans 0 + match spans !! 0 with Some s => effective s 0 - Start s | None => 0 end = 0).
  { destruct spans as [|s spans]; [done|]. unfold before, effective. simpl. lia. }
  rewrite Hpos in H'. destruct (advance_loop (S (length spans)) spans 0 0 0) as [k' i'].
  cbn [snd]. split; [|done]. rewrite spanExecutionLen_flatten. split; [done|]. split; [done|]. cbn. split; [lia|].
  apply H'; [lia|lia|by left|done|lia].
Qed.

Lemma at_position_lookup spans c :
  at_position spans c -> c_position c < length (flatten spans) ->
  exists s, spans !! c_span c = Some s /\ flatten spans !! c_position c = Some (c_instruction c, s).
Proof.
  intros (_ & _ & _ & Hin & _) Hlt. destruct (Hin Hlt) as (s & Hs & Hi & ->). exists s. split; [done|].
  rewrite (flatten_lookup spans _ s) by (done || unfold span_len; lia). do 2 f_equal. lia.
Qed.

Lemma at_position_end spans c :
  at_position spans c -> c_position c = length (flatten spans) -> spans !! c_span c = None.
Proof. intros (_ & _ & _ & _ & Hout) Heq. destruct (Hout Heq) as [-> _]. by apply lookup_ge_None_2. Qed.

(** A walk: successive [advance] calls, stopping at the first refusal. *)
Fixpoint walk (c : routingCursor) (ds : list nat) : bool * routingCursor :=
  match ds with
  | [] => (true, c)
  | d :: ds => let '(ok, c) := advance c d in if ok then walk c ds else (false, c)
  end.

(** The cursor is a program counter over the flattened program: after any sequence of
    [advance] calls from [newRoutingCursor], a call is refused exactly when it would leave
    the program, otherwise the position is the sum of the distances, the cursor points at
    the instruction and span that the flattening has at that position, and at the end of
    the program it is past the last span, whatever empty or repeated spans it crossed. *)
Theorem cursor_refines_flat_program spans ds :
  Forall span_wf spans ->
  let '(ok, c) := walk (newRoutingCursor spans) ds in
  (ok = true <-> sum_list ds <= length (flatten spans)) /\
  (ok = true -> c_position c = sum_list ds /\
    if decide (sum_list ds < length (flatten spans))
    then exists s, spans !! c_span c = Some s /\ flatten spans !! sum_list ds = Some (c_instruction c, s)
    else c_span c = length spans).
Proof.
  intros Hwf. destruct (new_cursor_spec spans Hwf) as [Hat Hpos].
  assert (Hgen : forall c, at_position spans c ->
    let '(ok, c') := walk c ds in
    (ok = true <-> c_position c + sum_list ds <= length (flatten spans)) /\
    (ok = true -> at_position spans c' /\ c_position c' = c_position c + sum_list ds)).
  { clear Hat Hpos. induction ds as [|d ds IH]; intros c Hat; cbn [walk sum_list].
    - pose proof Hat as (_ & _ & Hle & _). split; [split; [|done]; intros; lia|]. intros _. split; [done|lia].
    - pose proof Hat as (_ & Hlen & Hle & _). destruct (decide (d <= c_length c - c_position c)) as [Hd|Hd].
      + destruct (advance_spec spans c d Hwf Hat Hd) as (c' & -> & Hat' & Hp'). specialize (IH c' Hat').
        destruct (walk c' ds) as [ok c'']. rewrite Hp', <-Nat.add_assoc in IH. done.
      + unfold advance. destruct (Nat.ltb_spec (c_length c - c_position c) d); [|lia]. split; [|done].
        split; [done|]. intros Hsum. exfalso. simpl in Hsum. lia. }
  specialize (Hgen _ Hat). destruct (walk (newRoutingCursor spans) ds) as [ok c]. rewrite Hpos in Hgen.
  cbn [Nat.add] in Hgen. destruct Hgen as [Hiff Hok]. split; [done|]. intros Hb. destruct (Hok Hb) as [Hat' Hp].
  split; [done|]. case_decide as Hlt.
  - rewrite <-Hp in *. by apply at_position_lookup.
  - apply Hiff in Hb. destruct Hat' as (_ & _ & _ & _ & Hout). apply Hout. lia.
Qed.

Lemma cursor_refines_flat_program_witness :
  let spans := [mkSpan 5 7 routingPhaseIngress false; mkSpan 3 3 routingPhaseFlow true; mkSpan 0 4 routingPhaseRoute false] in
  let '(ok, c) := walk (newRoutingCursor spans) [2; 1; 3] in
  (ok = true <-> sum_list [2; 1; 3] <= length (flatten spans)) /\
  (ok = true -> c_position c = sum_list [2; 1; 3] /\
    if decide (sum_list [2; 1; 3] < length (flatten spans))
    then exists s, spans !! c_span c = Some s /\ flatten spans !! sum_list [2; 1; 3] = Some (c_instruction c, s)
    else c_span c = length spans).
Proof.
  cbv zeta.
  apply (cursor_refines_flat_program
    [mkSpan 5 7 routingPhaseIngress false; mkSpan 3 3 routingPhaseFlow true; mkSpan 0 4 routingPhaseRoute false] [2; 1; 3]).
  repeat constructor; unfold span_wf; simpl; lia.
Defined.
