(* ===== verification/RoutingEval.v ===== *)
(** * The userspace routing evaluator (control/routing_matcher_userspace.go)

    [evaluateSpans] interprets the instructions of a profile with three-valued
    predicates: a domain whose name is not known exactly makes a clause unknown.
    Diagnostic tracing ([routingInput.trace]) records positions only and is left
    out; locks are not modelled, a call sees one state. *)

From S2P Require Import Prelude Netip Trie RoutingInstr.

(** ** Inputs *)

Inductive routingStage := routeFromIngress | routeAfterTarget.

#[export] Instance routingStage_eq_dec : EqDecision routingStage.
Proof. solve_decision. Defined.

(** Slices that may be nil are options. *)
Record routingInput := mkInput {
  src : AddrPort;
  dst : AddrPort;
  l4proto : Z;
  domain : bytes;
  processName : bytes;    (* 16 bytes *)
  ifindex : Z;
  profileID : Z;
  physinif : Z;
  dscp : Z;
  mac : bytes;            (* 6 bytes *)
  domainBitmap : option (list Z);
  domainBumpBitmap : option (list Z);
  kernel : bool;
  stage : routingStage;
}.

Definition with_domainBitmap (p : routingInput) (bm : option (list Z)) : routingInput :=
  mkInput (src p) (dst p) (l4proto p) (domain p) (processName p) (ifindex p) (profileID p) (physinif p)
    (dscp p) (mac p) bm (domainBumpBitmap p) (kernel p) (stage p).

Definition with_profileID (p : routingInput) (id : Z) : routingInput :=
  mkInput (src p) (dst p) (l4proto p) (domain p) (processName p) (ifindex p) id (physinif p)
    (dscp p) (mac p) (domainBitmap p) (domainBumpBitmap p) (kernel p) (stage p).

(** [targetInput]: routing after the destination has been selected. *)
Definition targetInput (input : routingInput) (dom : bytes) (explicit : bool) (bump routing : option (list Z))
    : routingInput :=
  let '(bump, routing) :=
    if bool_decide (dom = []) && negb explicit then (bump, routing) else (None, None) in
  mkInput (src input) (dst input) (l4proto input) dom (processName input) (ifindex input) (profileID input)
    (physinif input) (dscp input) (mac input) routing bump false routeAfterTarget.

(** ** Predicates *)

Inductive predicateResult := predicateMiss | predicateUnknown | predicateMatch.

#[export] Instance predicateResult_eq_dec : EqDecision predicateResult.
Proof. solve_decision. Defined.

(** [max] and [predicateMatch - r] on the truth order Miss < Unknown < Match. *)
Definition pmax (a b : predicateResult) : predicateResult :=
  match a, b with
  | predicateMatch, _ | _, predicateMatch => predicateMatch
  | predicateUnknown, _ | _, predicateUnknown => predicateUnknown
  | _, _ => predicateMiss
  end.
Definition pneg (a : predicateResult) : predicateResult :=
  match a with
  | predicateMiss => predicateMatch
  | predicateUnknown => predicateUnknown
  | predicateMatch => predicateMiss
  end.
Definition pbool (b : bool) : predicateResult := if b then predicateMatch else predicateMiss.

(** What the evaluator reads of a [RoutingMatcher]; a nil callback is [None]. *)
Record RoutingMatcher := mkRoutingMatcher {
  matches : list bpfMatchSet;
  lpmMatcher : list (option Trie);
  defaultProfileID : Z;
  profiles : gmap Z (list routingSpan);
  domainMatcher : bytes -> option (list Z);
  httpClientAllowed : option (Addr -> bytes -> bool);
  outboundUsable : option (Z -> Z -> Z -> bool);
}.

Record routingPredicates := mkPredicates {
  input : routingInput;
  ipVersion : Z;
  domainLoaded : bool;
  httpClientChecked : bool;
  httpClientResult : bool;
}.

Definition lpmKey (p : routingPredicates) (kind : Z) : bytes :=
  let address :=
    if (kind =? MatchType_IpSet)%Z then ap_addr (dst (input p))
    else if (kind =? MatchType_SourceIpSet)%Z then ap_addr (src (input p))
    else if (kind =? MatchType_Mac)%Z then AddrFrom16 (replicate 10 0%Z ++ mac (input p))
    else AddrInvalid in
  As16 address.

(** [int(id/32) < len(bm) && (bm[id/32]>>(id%32))&1 != 0], false on nil. *)
Definition bitmap_has (bm : option (list Z)) (id : Z) : bool :=
  match bm with
  | None => false
  | Some bm =>
    match bm !! Z.to_nat (id / 32) with
    | None => false
    | Some w => negb (Z.land (shr w (Z.to_nat (id mod 32))) 1 =? 0)%Z
    end
  end.

Definition in_port_range (value : bytes) (port : Z) : bool :=
  let '(start, end_) := ParsePortRange value in (start <=? port)%Z && (port <=? end_)%Z.

Definition byte0 (b : bytes) : Z := default 0%Z (head b).

(** Loading the caches on first use. *)
Definition load_http (m : RoutingMatcher) (p : routingPredicates) : routingPredicates :=
  if httpClientChecked p then p
  else mkPredicates (input p) (ipVersion p) (domainLoaded p) true
         (match httpClientAllowed m with
          | None => true
          | Some f => f (ap_addr (src (input p))) (mac (input p))
          end).

Definition load_domain (m : RoutingMatcher) (p : routingPredicates) : option routingPredicates :=
  if domainLoaded p then Some p
  else
    inp ← (match domainBitmap (input p) with
           | None => if bool_decide (domain (input p) = []) then Some (input p)
                     else bm ← domainMatcher m (domain (input p)); Some (with_domainBitmap (input p) (Some bm))
           | Some _ => Some (input p)
           end);
    Some (mkPredicates inp (ipVersion p) true (httpClientChecked p) (httpClientResult p)).

Definition predicates_match (m : RoutingMatcher) (p : routingPredicates) (mt : bpfMatchSet)
    : res (predicateResult * routingPredicates) :=
  let t := Type_ mt in
  let i := input p in
  if (t =? MatchType_HTTPClient)%Z then
    let p := load_http m p in Ok (pbool (httpClientResult p), p)
  else if (t =? MatchType_IpSet)%Z || (t =? MatchType_SourceIpSet)%Z || (t =? MatchType_Mac)%Z then
    trie ← idx (lpmMatcher m !! Z.to_nat (Uint32 (Value mt)));
    hit ← idx (HasPrefixIP trie (lpmKey p t));
    Ok (pbool hit, p)
  else if (t =? MatchType_DomainSet)%Z then
    p ← idx (load_domain m p);
    let id := Uint32 (Value mt) in
    if bitmap_has (domainBitmap (input p)) id then Ok (predicateMatch, p)
    else if bitmap_has (domainBumpBitmap (input p)) id then Ok (predicateUnknown, p)
    else Ok (predicateMiss, p)
  else if (t =? MatchType_Port)%Z then Ok (pbool (in_port_range (Value mt) (ap_port (dst i))), p)
  else if (t =? MatchType_SourcePort)%Z then Ok (pbool (in_port_range (Value mt) (ap_port (src i))), p)
  else if (t =? MatchType_IpVersion)%Z then Ok (pbool (has_flag (ipVersion p) (byte0 (Value mt))), p)
  else if (t =? MatchType_L4Proto)%Z then Ok (pbool (has_flag (l4proto i) (byte0 (Value mt))), p)
  else if (t =? MatchType_ProcessName)%Z then
    Ok (pbool (negb (byte0 (processName i) =? 0)%Z && bool_decide (Value mt = processName i)), p)
  else if (t =? MatchType_IfIndex)%Z then
    let index := Uint32 (Value mt) in
    Ok (pbool (negb (index =? 0)%Z && ((ifindex i =? index)%Z || (physinif i =? index)%Z)), p)
  else if (t =? MatchType_Dscp)%Z then Ok (pbool (dscp i =? byte0 (Value mt))%Z, p)
  else if (t =? MatchType_Fallback)%Z then Ok (predicateMatch, p)
  else Err "unknown match type".

(** ** The instruction loop *)

Record routingEvaluation := mkEval {
  outbound : Z;
  mark : Z;
  must_result : bool;
  captureFlags_result : Z;
  matched : bool;
}.

Definition no_evaluation : routingEvaluation := mkEval 0 0 false 0 false.

(** The local variables of [evaluateSpans] that outlive an iteration. *)
Record evalState := mkState {
  predicates : routingPredicates;
  subrule : predicateResult;
  must : predicateResult;
  ruleUnknown : bool;
  flowBump : bool;
  uncertainUntil : nat;
  captureFlags : Z;
}.

Definition initial_state (p : routingInput) : evalState :=
  mkState (mkPredicates p (IpVersionFromAddr (ap_addr (dst p))) false false false)
    predicateMiss predicateMiss false false 0 0.

(** How an iteration ends: return, or advance by a distance. *)
Inductive verdict :=
| Return (e : routingEvaluation)
| Advance (distance : Z) (s : evalState).

Definition simulateKernel (p : routingInput) : bool :=
  (kernel p || match domainBumpBitmap p with Some _ => true | None => false end) &&
  negb (bool_decide (stage p = routeAfterTarget)).

Definition is_match (r : predicateResult) : bool := bool_decide (r = predicateMatch).

(** Evaluate the predicate unless the clause is already decided. *)
Definition eval_clause (m : RoutingMatcher) (s : evalState) (mt : bpfMatchSet) : res (predicateResult * routingPredicates) :=
  if is_match (subrule s) then Ok (subrule s, predicates s)
  else '(r, ps) ← predicates_match m (predicates s) mt; Ok (pmax (subrule s) r, ps).

(** The [switch] on a matched terminal action; [s] has the rule's certainty. *)
Definition apply_action (m : RoutingMatcher) (p : routingInput) (mt : bpfMatchSet) (s : evalState)
    : res verdict :=
  let next s := Ok (Advance 1 (mkState (predicates s) (subrule s) (must s) false (flowBump s)
                                 (uncertainUntil s) (captureFlags s))) in
  let action := Action mt in
  let to_control := mkEval OutboundControlPlaneRouting 0 (is_match (must s)) (captureFlags s) false in
  if (action =? MatchActionMust)%Z then
    let must' := if negb (ruleUnknown s) then predicateMatch else pmax (must s) predicateUnknown in
    next (mkState (predicates s) (subrule s) must' (ruleUnknown s) (flowBump s) (uncertainUntil s) (captureFlags s))
  else if (action =? MatchActionBump)%Z then
    next (mkState (predicates s) (subrule s) (must s) (ruleUnknown s) true (uncertainUntil s) (captureFlags s))
  else if (action =? MatchActionCapture)%Z then
    let flags := Z.land (shr (Flags mt) matchCaptureShift) 7 in
    let captured := Z.lor (captureFlags s) flags in
    if simulateKernel p && has_flag captured (Z.lor captureDestination captureHTTPRequest)
    then Ok (Return (mkEval OutboundControlPlaneRouting 0 false captured false))
    else next (mkState (predicates s) (subrule s) (must s) (ruleUnknown s) (flowBump s) (uncertainUntil s) captured)
  else if (action =? MatchActionFlowEnd)%Z then
    if (simulateKernel p && flowBump s) || bool_decide (must s = predicateUnknown)
    then Ok (Return to_control)
    else next s
  else if (action =? MatchActionMatch)%Z then Ok (Return (mkEval 0 0 false 0 true))
  else if (action =? MatchActionMiss)%Z then Ok (Return no_evaluation)
  else if (action =? MatchActionRoute)%Z then
    if has_flag (Flags mt) matchFlagSkipNoalive &&
       match outboundUsable m with
       | None => false
       | Some usable => negb (usable (Outbound_ mt) (l4proto p) (ipVersion (predicates s)))
       end
    then next s
    else if ruleUnknown s then Ok (Return to_control)
    else
      let forced := is_match (must s) || has_flag (Flags mt) matchFlagMust in
      let captured :=
        if simulateKernel p && negb forced && (ap_port (dst p) =? 53)%Z && negb (has_flag (Flags mt) matchFlagBypass)
        then Z.lor (captureFlags s) captureDNS else captureFlags s in
      Ok (Return (mkEval (Outbound_ mt) (Mark mt) forced captured false))
  else Err "unknown match action".

(** One iteration on the instruction [mt] at [position] of a program of [len]
    instructions. *)
Definition eval_step (m : RoutingMatcher) (p : routingInput) (position len : nat) (mt : bpfMatchSet)
    (s : evalState) : res verdict :=
  let action := Action mt in
  '(sub, ps) ← eval_clause m s mt;
  if (action =? MatchActionOr)%Z then
    Ok (Advance (if is_match sub then Mark mt else 1)
          (mkState ps sub (must s) (ruleUnknown s) (flowBump s) (uncertainUntil s) (captureFlags s)))
  else
    let clause := if has_flag (Flags mt) matchFlagNot then pneg sub else sub in
    let st unknown until := mkState ps predicateMiss (must s) unknown (flowBump s) until (captureFlags s) in
    if bool_decide (clause = predicateMiss) then
      Ok (Advance (if (action =? MatchActionAnd)%Z || (action =? MatchActionConditionalJump)%Z then Mark mt else 1)
            (st false (uncertainUntil s)))
    else
      let unknown := ruleUnknown s || bool_decide (clause = predicateUnknown) in
      if (action =? MatchActionAnd)%Z then Ok (Advance 1 (st unknown (uncertainUntil s)))
      else if (action =? MatchActionConditionalJump)%Z then
        if (Mark mt =? 0)%Z || (Z.of_nat (len - position) <? Mark mt)%Z
        then Err "invalid conditional routing jump"
        else Ok (Advance 1 (st false
               (if unknown then Nat.max (uncertainUntil s) (position + Z.to_nat (Mark mt)) else uncertainUntil s)))
      else
        apply_action m p mt (st (unknown || (position <? uncertainUntil s)) (uncertainUntil s)).

Fixpoint eval_loop (fuel : nat) (m : RoutingMatcher) (spans : list routingSpan) (p : routingInput)
    (cursor : routingCursor) (s : evalState) : res routingEvaluation :=
  match fuel with
  | 0 => Panic
  | S fuel =>
    match spans !! c_span cursor with
    | None => Err "no match set hit"
    | Some span =>
      let i := c_instruction cursor in
      if bool_decide (stage p = routeAfterTarget) && bool_decide (Phase span = routingPhaseIngress)
      then eval_loop fuel m spans p (snd (advance cursor (End_ span - i))) s
      else
        mt ← idx (matches m !! i);
        v ← eval_step m p (c_position cursor) (c_length cursor) mt s;
        match v with
        | Return e => Ok e
        | Advance distance s =>
          let '(ok, cursor) := advance cursor (Z.to_nat distance) in
          if (distance =? 0)%Z || negb ok then Err "invalid routing jump"
          else eval_loop fuel m spans p cursor s
        end
    end
  end.

(** Every iteration moves the position forward, so one per instruction and the
    final test are enough. *)
Definition eval_fuel (spans : list routingSpan) : nat := S (spanExecutionLen spans).

Definition evaluateSpans (m : RoutingMatcher) (spans : list routingSpan) (p : routingInput) : res routingEvaluation :=
  if negb (AddrPort_IsValid (src p)) || negb (AddrPort_IsValid (dst p)) then Err "invalid routing address"
  else eval_loop (eval_fuel spans) m spans p (newRoutingCursor spans) (initial_state p).

(** ** Entry points *)

(** [RoutingMatcher.match]. *)
Definition match_ (m : RoutingMatcher) (p : routingInput) : res (Z * Z * bool) :=
  let p := if (profileID p =? 0)%Z then with_profileID p (defaultProfileID m) else p in
  match profiles m !! profileID p with
  | None => Err "unknown routing profile"
  | Some spans =>
    r ← evaluateSpans m spans p;
    Ok (outbound r, mark r, must_result r)
  end.

(** [RoutingMatcher.Match]. *)
Definition Match (m : RoutingMatcher) (source dest : bytes) (sport dport proto : Z) (dom pname : bytes)
    (ifx dscp_ : Z) (mac_ : bytes) (bitmaps : list (option (list Z))) : res (Z * Z * bool) :=
  if negb (length source =? 16) || negb (length dest =? 16) || negb (length mac_ =? 16)
  then Err "routing addresses must have 16 bytes"
  else
    match_ m (mkInput (mkAddrPort (Unmap (AddrFrom16 source)) sport) (mkAddrPort (Unmap (AddrFrom16 dest)) dport)
      proto dom pname ifx 0 0 dscp_ (drop 10 mac_)
      (match bitmaps with b :: _ => b | [] => None end)
      (match bitmaps with _ :: b :: _ => b | _ => None end)
      (match bitmaps with _ :: _ :: _ => true | _ => false end) routeFromIngress).
