(* ===== verification/RoutingKernel.v ===== *)
(** * The kernel routing interpreter (control/kern/routing.h)

    The same instructions interpreted by the eBPF program. BPF map lookups are
    operations of an interface: the maps are filled by the control plane and read
    through kernel helpers. *)

From S2P Require Import Prelude Netip RoutingInstr RoutingEval.

(** ** Inputs *)

(** [struct route_params]; ports in host order. *)
Record route_params := mkParams {
  k_saddr : bytes;
  k_daddr : bytes;
  k_pname : bytes;
  k_ifindex : Z;
  k_profile_id : Z;
  k_physinif : Z;
  k_sport : Z;
  k_dport : Z;
  k_mac : bytes;
  k_l4proto_type : Z;
  k_ipversion_type : Z;
  k_dscp : Z;
  k_isdns : bool;
  k_has_pname : bool;
}.

(** [struct routing_profile]: [steps] has [MAX_MATCH_SET_LEN] entries. *)
Record routing_profile := mkProfile { p_length : Z; p_steps : list Z }.

(** The element of [encodeRoutingProfiles] for one profile: appending past the
    fixed array panics. *)
Definition zero_profile : routing_profile := mkProfile 0 (replicate MaxMatchSetLen 0%Z).

Definition encode_step (value : res routing_profile) (matchIndex : nat) : res routing_profile :=
  value ← value;
  if Z.to_nat (p_length value) <? MaxMatchSetLen then
    Ok (mkProfile (p_length value + 1)
          (<[Z.to_nat (p_length value) := wrap 16 (Z.of_nat matchIndex)]> (p_steps value)))
  else Panic.

Definition encode_profile (spans : list routingSpan) : res routing_profile :=
  fold_left (fun value span => fold_left encode_step (seq (Start span) (span_len span)) value) spans (Ok zero_profile).

Fixpoint encodeRoutingProfiles (profiles : list routingProfile) : res (list Z * list routing_profile) :=
  match profiles with
  | [] => Ok ([], [])
  | profile :: profiles =>
    value ← encode_profile (Spans profile);
    '(ids, values) ← encodeRoutingProfiles profiles;
    Ok (ID profile :: ids, value :: values)
  end.

(** [struct domain_routing]. *)
Record domain_routing := mkDomainRouting { bump : list Z; routing : list Z }.

(** Lookups of the BPF maps, and the admission test of http_clients.h. *)
Class KernelMaps := {
  routing_map : nat -> option bpfMatchSet;
  lpm_array_map : Z -> option (bytes -> bool);
  domain_routing_map : bytes -> option domain_routing;
  outbound_connectivity_alive : Z -> Z -> Z -> bool;
  http_client_allowed : route_params -> bool;
  routing_interface_map : Z -> option Z;
  default_routing_profile : Z;
  routing_profile_map : Z -> option routing_profile;
}.

Definition EPERM : Z := 1.
Definition EFAULT : Z := 14.

(** ** State *)

Inductive http_client_admission := HTTP_CLIENT_UNCHECKED | HTTP_CLIENT_DENIED | HTTP_CLIENT_ALLOWED.

(** [struct route_state] together with the caches of [struct route_ctx]. *)
Record route_state := mkRouteState {
  ks_result : Z;
  ks_position : nat;
  ks_uncertain_until : nat;
  ks_clause_result : predicateResult;
  ks_must : predicateResult;
  ks_capture_flags : Z;
  ks_rule_uncertain : bool;
  ks_flow_bump : bool;
  ks_skipped_noalive : bool;
  ks_domain : option domain_routing;
  ks_domain_loaded : bool;
  ks_admission : http_client_admission;
}.

Inductive route_step_result := ROUTE_CONTINUE | ROUTE_STOP.

Section Kernel.
Context `{!KernelMaps}.

(** ** Predicates; [None] is a negative error code *)

Definition route_match_lpm (params : route_params) (m : bpfMatchSet) : option predicateResult :=
  let key :=
    if (Type_ m =? MatchType_Mac)%Z then Some (replicate 10 0%Z ++ k_mac params)
    else if (Type_ m =? MatchType_IpSet)%Z then Some (k_daddr params)
    else if (Type_ m =? MatchType_SourceIpSet)%Z then Some (k_saddr params)
    else None in
  key ← key;
  lpm ← lpm_array_map (Uint32 (Value m));
  Some (pbool (lpm key)).

Definition bit_of (words : list Z) (id : Z) : bool :=
  negb (Z.land (shr (default 0%Z (words !! Z.to_nat (id / 32))) (Z.to_nat (id mod 32))) 1 =? 0)%Z.

Definition with_admission (s : route_state) (a : http_client_admission) : route_state :=
  mkRouteState (ks_result s) (ks_position s) (ks_uncertain_until s) (ks_clause_result s) (ks_must s)
    (ks_capture_flags s) (ks_rule_uncertain s) (ks_flow_bump s) (ks_skipped_noalive s)
    (ks_domain s) (ks_domain_loaded s) a.

Definition with_domain (s : route_state) (d : option domain_routing) : route_state :=
  mkRouteState (ks_result s) (ks_position s) (ks_uncertain_until s) (ks_clause_result s) (ks_must s)
    (ks_capture_flags s) (ks_rule_uncertain s) (ks_flow_bump s) (ks_skipped_noalive s)
    d true (ks_admission s).

Definition route_predicate (params : route_params) (s : route_state) (m : bpfMatchSet)
    : option (predicateResult * route_state) :=
  let t := Type_ m in
  if (t =? MatchType_HTTPClient)%Z then
    let s :=
      match ks_admission s with
      | HTTP_CLIENT_UNCHECKED =>
        with_admission s (if http_client_allowed params then HTTP_CLIENT_ALLOWED else HTTP_CLIENT_DENIED)
      | _ => s
      end in
    Some (match ks_admission s with HTTP_CLIENT_ALLOWED => predicateMatch | _ => predicateMiss end, s)
  else if (t =? MatchType_Mac)%Z || (t =? MatchType_IpSet)%Z || (t =? MatchType_SourceIpSet)%Z then
    r ← route_match_lpm params m; Some (r, s)
  else if (t =? MatchType_Port)%Z then Some (pbool (in_port_range (Value m) (k_dport params)), s)
  else if (t =? MatchType_SourcePort)%Z then Some (pbool (in_port_range (Value m) (k_sport params)), s)
  else if (t =? MatchType_L4Proto)%Z then Some (pbool (has_flag (k_l4proto_type params) (Uint32 (Value m))), s)
  else if (t =? MatchType_IpVersion)%Z then Some (pbool (has_flag (k_ipversion_type params) (Uint32 (Value m))), s)
  else if (t =? MatchType_DomainSet)%Z then
    let s := if ks_domain_loaded s then s else with_domain s (domain_routing_map (k_daddr params)) in
    let domain_id := Uint32 (Value m) in
    if (Z.of_nat MaxMatchSetLen <=? domain_id)%Z then None
    else
      match ks_domain s with
      | None => Some (predicateMiss, s)
      | Some d =>
        if bit_of (routing d) domain_id then Some (predicateMatch, s)
        else if bit_of (bump d) domain_id then Some (predicateUnknown, s)
        else Some (predicateMiss, s)
      end
  else if (t =? MatchType_ProcessName)%Z then
    Some (pbool (k_has_pname params && bool_decide (Value m = k_pname params)), s)
  else if (t =? MatchType_IfIndex)%Z then
    let i := Uint32 (Value m) in
    Some (pbool (negb (i =? 0)%Z && ((k_ifindex params =? i)%Z || (k_physinif params =? i)%Z)), s)
  else if (t =? MatchType_Dscp)%Z then Some (pbool (k_dscp params =? byte0 (Value m))%Z, s)
  else if (t =? MatchType_Fallback)%Z then Some (predicateMatch, s)
  else None.

(** ** Actions *)

Definition IPPROTO_TCP : Z := 6.
Definition IPPROTO_UDP : Z := 17.

Definition route_outbound_alive (params : route_params) (o : Z) : bool :=
  outbound_connectivity_alive o
    (if has_flag (k_ipversion_type params) IpVersion_4 then 4 else 6)%Z
    (if has_flag (k_l4proto_type params) L4ProtoType_TCP then IPPROTO_TCP else IPPROTO_UDP).

Definition route_result_encode (o m : Z) (must_ : bool) : Z :=
  Z.lor (Z.lor o (Z.shiftl m 8)) (Z.shiftl (Z.b2z must_) 40).

Definition set_result (s : route_state) (r : Z) : route_state :=
  mkRouteState r (ks_position s) (ks_uncertain_until s) (ks_clause_result s) (ks_must s)
    (ks_capture_flags s) (ks_rule_uncertain s) (ks_flow_bump s) (ks_skipped_noalive s)
    (ks_domain s) (ks_domain_loaded s) (ks_admission s).
Definition set_must (s : route_state) (r : predicateResult) : route_state :=
  mkRouteState (ks_result s) (ks_position s) (ks_uncertain_until s) (ks_clause_result s) r
    (ks_capture_flags s) (ks_rule_uncertain s) (ks_flow_bump s) (ks_skipped_noalive s)
    (ks_domain s) (ks_domain_loaded s) (ks_admission s).
Definition set_capture (s : route_state) (f : Z) : route_state :=
  mkRouteState (ks_result s) (ks_position s) (ks_uncertain_until s) (ks_clause_result s) (ks_must s)
    f (ks_rule_uncertain s) (ks_flow_bump s) (ks_skipped_noalive s)
    (ks_domain s) (ks_domain_loaded s) (ks_admission s).
Definition set_uncertain (s : route_state) (u : bool) : route_state :=
  mkRouteState (ks_result s) (ks_position s) (ks_uncertain_until s) (ks_clause_result s) (ks_must s)
    (ks_capture_flags s) u (ks_flow_bump s) (ks_skipped_noalive s)
    (ks_domain s) (ks_domain_loaded s) (ks_admission s).
Definition set_flow_bump (s : route_state) : route_state :=
  mkRouteState (ks_result s) (ks_position s) (ks_uncertain_until s) (ks_clause_result s) (ks_must s)
    (ks_capture_flags s) (ks_rule_uncertain s) true (ks_skipped_noalive s)
    (ks_domain s) (ks_domain_loaded s) (ks_admission s).
Definition set_skipped (s : route_state) : route_state :=
  mkRouteState (ks_result s) (ks_position s) (ks_uncertain_until s) (ks_clause_result s) (ks_must s)
    (ks_capture_flags s) (ks_rule_uncertain s) (ks_flow_bump s) true
    (ks_domain s) (ks_domain_loaded s) (ks_admission s).
Definition set_clause (s : route_state) (c : predicateResult) : route_state :=
  mkRouteState (ks_result s) (ks_position s) (ks_uncertain_until s) c (ks_must s)
    (ks_capture_flags s) (ks_rule_uncertain s) (ks_flow_bump s) (ks_skipped_noalive s)
    (ks_domain s) (ks_domain_loaded s) (ks_admission s).
Definition set_until (s : route_state) (u : nat) : route_state :=
  mkRouteState (ks_result s) (ks_position s) u (ks_clause_result s) (ks_must s)
    (ks_capture_flags s) (ks_rule_uncertain s) (ks_flow_bump s) (ks_skipped_noalive s)
    (ks_domain s) (ks_domain_loaded s) (ks_admission s).
Definition set_position (s : route_state) (p : nat) : route_state :=
  mkRouteState (ks_result s) p (ks_uncertain_until s) (ks_clause_result s) (ks_must s)
    (ks_capture_flags s) (ks_rule_uncertain s) (ks_flow_bump s) (ks_skipped_noalive s)
    (ks_domain s) (ks_domain_loaded s) (ks_admission s).

Definition to_userspace (s : route_state) : route_step_result * route_state :=
  (ROUTE_STOP, set_result s (route_result_encode OutboundControlPlaneRouting 0 (is_match (ks_must s)))).

Definition MATCH_CAPTURE_FLAGS (m : bpfMatchSet) : Z := Z.land (shr (Flags m) matchCaptureShift) 7.

Definition route_apply (s : route_state) (m : bpfMatchSet) (params : route_params)
    : route_step_result * route_state :=
  let a := Action m in
  if (a =? MatchActionMust)%Z then
    (ROUTE_CONTINUE,
     if negb (ks_rule_uncertain s) then set_must s predicateMatch
     else if bool_decide (ks_must s = predicateMiss) then set_must s predicateUnknown else s)
  else if (a =? MatchActionBump)%Z then (ROUTE_CONTINUE, set_flow_bump s)
  else if (a =? MatchActionCapture)%Z then
    let s := set_capture s (Z.lor (ks_capture_flags s) (MATCH_CAPTURE_FLAGS m)) in
    if has_flag (ks_capture_flags s) (Z.lor captureDestination captureHTTPRequest) then to_userspace s
    else (ROUTE_CONTINUE, s)
  else if (a =? MatchActionFlowEnd)%Z then
    if ks_flow_bump s || bool_decide (ks_must s = predicateUnknown) then to_userspace s
    else (ROUTE_CONTINUE, s)
  else if (a =? MatchActionRoute)%Z then
    if has_flag (Flags m) matchFlagSkipNoalive && negb (route_outbound_alive params (Outbound_ m))
    then (ROUTE_CONTINUE, set_skipped s)
    else if ks_rule_uncertain s then to_userspace s
    else
      let must_ := is_match (ks_must s) || has_flag (Flags m) matchFlagMust in
      let s :=
        if negb must_ && k_isdns params && negb (has_flag (Flags m) matchFlagBypass)
        then set_capture s (Z.lor (ks_capture_flags s) captureDNS) else s in
      (ROUTE_STOP, set_result s (route_result_encode (Outbound_ m) (Mark m) must_))
  else (ROUTE_STOP, s).

(** The common exit of [route_step]: bounds check and move. *)
Definition route_advance (s : route_state) (position length_ : nat) (distance : Z) : route_step_result * route_state :=
  if (distance =? 0)%Z || (Z.of_nat (length_ - position) <? distance)%Z then (ROUTE_STOP, s)
  else (ROUTE_CONTINUE, set_position s (position + Z.to_nat distance)).

Definition route_step (params : route_params) (profile : routing_profile) (s : route_state)
    : route_step_result * route_state :=
  let position := ks_position s in
  let length_ := Z.to_nat (p_length profile) in
  if (MaxMatchSetLen <=? position) || (length_ <=? position) then (ROUTE_STOP, s)
  else
    let k := default 0%Z (p_steps profile !! position) in
    if (Z.of_nat MaxMatchSetLen <=? k)%Z then (ROUTE_STOP, s)
    else
      match routing_map (Z.to_nat k) with
      | None => (ROUTE_STOP, s)
      | Some m =>
        match (if is_match (ks_clause_result s) then Some (predicateMatch, s) else route_predicate params s m) with
        | None => (ROUTE_STOP, s)
        | Some (predicate_result, s) =>
          let clause := pmax (ks_clause_result s) predicate_result in
          if (Action m =? MatchActionOr)%Z then
            route_advance (set_clause s clause) position length_ (if is_match clause then Mark m else 1)
          else
            let s := set_clause s predicateMiss in
            let clause := if has_flag (Flags m) matchFlagNot then pneg clause else clause in
            if bool_decide (clause = predicateMiss) then
              route_advance (set_uncertain s false) position length_
                (if (Action m =? MatchActionAnd)%Z || (Action m =? MatchActionConditionalJump)%Z then Mark m else 1)
            else
              let s := set_uncertain s (ks_rule_uncertain s || bool_decide (clause = predicateUnknown)) in
              if (Action m =? MatchActionAnd)%Z then route_advance s position length_ 1
              else if (Action m =? MatchActionConditionalJump)%Z then
                if (Mark m =? 0)%Z || (Z.of_nat (length_ - position) <? Mark m)%Z then (ROUTE_STOP, s)
                else
                  let e := position + Z.to_nat (Mark m) in
                  let s := if ks_rule_uncertain s && (ks_uncertain_until s <? e) then set_until s e else s in
                  route_advance (set_uncertain s false) position length_ 1
              else
                let s := set_uncertain s (ks_rule_uncertain s || (position <? ks_uncertain_until s)) in
                match route_apply s m params with
                | (ROUTE_STOP, s) => (ROUTE_STOP, s)
                | (ROUTE_CONTINUE, s) => route_advance (set_uncertain s false) position length_ 1
                end
        end
      end.

(** [bpf_repeat]: at most [n] steps. *)
Fixpoint route_loop (n : nat) (params : route_params) (profile : routing_profile) (s : route_state) : route_state :=
  match n with
  | 0 => s
  | S n =>
    match route_step params profile s with
    | (ROUTE_STOP, s) => s
    | (ROUTE_CONTINUE, s) => route_loop n params profile s
    end
  end.

Definition initial_route_state : route_state :=
  mkRouteState (- EFAULT) 0 0 predicateMiss predicateMiss 0 false false false None false HTTP_CLIENT_UNCHECKED.

Definition ROUTE_RESULT_SKIPPED_NOALIVE : Z := Z.shiftl 1 41.

Definition finish_result (s : route_state) : Z :=
  if (0 <=? ks_result s)%Z then
    let r := Z.lor (ks_result s) (Z.shiftl (ks_capture_flags s) 42) in
    if ks_skipped_noalive s then Z.lor r ROUTE_RESULT_SKIPPED_NOALIVE else r
  else (- EPERM)%Z.

(** [decode_route_result] of tproxy.c: the fields of [struct routing_result]. *)
Definition decode_route_result (encoded : Z) : Z * Z * Z * Z :=
  (wrap 8 encoded, wrap 32 (shr encoded 8), Z.land (shr encoded 40) 1, wrap 8 (shr encoded 42)).

(** The policy of an ingress interface. *)
Definition selected_profile (params : route_params) : Z :=
  match routing_interface_map (k_ifindex params) with Some id => id | None => default_routing_profile end.

Definition route (params : route_params) : Z :=
  match routing_profile_map (selected_profile params) with
  | None => (- EFAULT)%Z
  | Some profile =>
    if (p_length profile =? 0)%Z || (Z.of_nat MaxMatchSetLen <? p_length profile)%Z then (- EFAULT)%Z
    else finish_result (route_loop MaxMatchSetLen params profile initial_route_state)
  end.
End Kernel.
