(* ===== verification/RoutingEquiv.v ===== *)
(** * The two routing interpreters agree

    The userspace evaluator walks spans with a cursor; the kernel walks the steps
    uploaded from the same spans. On the same instructions and the same evidence
    they take the same decision. *)

From S2P Require Import Prelude Netip Trie RoutingInstr RoutingCursor RoutingEval RoutingKernel.

(** ** Evaluation over the flattened program *)

Fixpoint flat_loop (fuel : nat) (m : RoutingMatcher) (code : list nat) (p : routingInput)
    (position : nat) (s : evalState) : res routingEvaluation :=
  match fuel with
  | 0 => Panic
  | S fuel =>
    match code !! position with
    | None => Err "no match set hit"
    | Some i =>
      mt ← idx (matches m !! i);
      v ← eval_step m p position (length code) mt s;
      match v with
      | Return e => Ok e
      | Advance distance s =>
        if (distance =? 0)%Z || (Z.of_nat (length code - position) <? distance)%Z then Err "invalid routing jump"
        else flat_loop fuel m code p (position + Z.to_nat distance) s
      end
    end
  end.

Definition code_of (spans : list routingSpan) : list nat := map fst (flatten spans).

Lemma length_code_of spans : length (code_of spans) = length (flatten spans).
Proof. apply length_map. Qed.

Lemma eval_step_distance m p position len mt s d s' :
  (0 <= Mark mt)%Z -> eval_step m p position len mt s = Ok (Advance d s') -> (0 <= d)%Z.
Proof.
  intros Hm. unfold eval_step. destruct (eval_clause m s mt) as [[sub ps]| |]; [|done|done]. cbn [mbind res_bind].
  destruct (Action mt =? MatchActionOr)%Z; [intros [= <- _]; by destruct (is_match sub)|].
  destruct (bool_decide _); [intros [= <- _]; by destruct (_ || _)|].
  destruct (Action mt =? MatchActionAnd)%Z; [by intros [= <- _]|].
  destruct (Action mt =? MatchActionConditionalJump)%Z.
  { destruct (_ || _); [done|]. by intros [= <- _]. }
  unfold apply_action. repeat (case_match; try (by intros [= <- _]); try done).
Qed.

Definition marks_ok (m : RoutingMatcher) : Prop := Forall (fun mt => 0 <= Mark mt)%Z (matches m).

Lemma eval_loop_flat m spans p fuel c s :
  Forall span_wf spans -> marks_ok m -> stage p = routeFromIngress -> at_position spans c ->
  eval_loop fuel m spans p c s = flat_loop fuel m (code_of spans) p (c_position c) s.
Proof.
  intros Hwf Hmarks Hst. revert c s. induction fuel as [|fuel IH]; intros c s Hat; [done|].
  cbn [eval_loop flat_loop]. pose proof Hat as (_ & Hlen & Hle & _).
  destruct (decide (c_position c < length (flatten spans))) as [Hlt|Hge].
  - destruct (at_position_lookup spans c Hat Hlt) as (span & -> & Hfl). rewrite Hst.
    rewrite bool_decide_eq_false_2 by done. cbn [andb].
    assert (code_of spans !! c_position c = Some (c_instruction c)) as ->.
    { unfold code_of. by rewrite list_lookup_fmap, Hfl. }
    destruct (matches m !! c_instruction c) as [mt|] eqn:Em; [|done]. cbn [idx mbind res_bind].
    rewrite length_code_of, Hlen. destruct (eval_step m p (c_position c) _ mt s) as [[e|d s']| |] eqn:Es; try done.
    cbn [mbind res_bind].
    assert (Hd : (0 <= d)%Z) by (eapply eval_step_distance; [|done]; by eapply (Forall_lookup_1 _ _ _ _ Hmarks)).
    destruct (Z.eqb_spec d 0) as [->|Hd0]; cbn [orb].
    { by destruct (advance c (Z.to_nat 0)). }
    destruct (Z.ltb_spec (Z.of_nat (length (flatten spans) - c_position c)) d) as [Hbig|Hfit].
    + unfold advance. destruct (Nat.ltb_spec (c_length c - c_position c) (Z.to_nat d)); [done|lia].
    + destruct (advance_spec spans c (Z.to_nat d) Hwf Hat) as (c' & -> & Hat' & Hp'); [lia|]. cbn [negb].
      rewrite IH by done. by rewrite Hp'.
  - rewrite (at_position_end spans c Hat) by lia.
    rewrite (lookup_ge_None_2 (code_of spans)) by (rewrite length_code_of; lia). done.
Qed.

Lemma evaluateSpans_flat m spans p :
  Forall span_wf spans -> marks_ok m -> stage p = routeFromIngress ->
  IsValid (ap_addr (src p)) = true -> IsValid (ap_addr (dst p)) = true ->
  evaluateSpans m spans p = flat_loop (S (length (code_of spans))) m (code_of spans) p 0 (initial_state p).
Proof.
  intros Hwf Hm Hst Hs Hd. unfold evaluateSpans, AddrPort_IsValid. rewrite Hs, Hd. cbn [negb orb].
  destruct (new_cursor_spec spans Hwf) as [Hat Hpos]. rewrite eval_loop_flat by done.
  unfold eval_fuel. by rewrite Hpos, spanExecutionLen_flatten, length_code_of.
Qed.

(** ** Agreement of the environments *)

Section Equivalence.
Context {KM : KernelMaps} (m : RoutingMatcher) (p : routingInput) (params : route_params) (code : list nat).

(** The bitmaps the control plane publishes for the destination are the evidence
    given to the evaluator, which knows no exact name. *)
Definition domain_agrees : Prop :=
  domain p = [] /\
  match domain_routing_map (k_daddr params) with
  | Some d => domainBitmap p = Some (routing d) /\ domainBumpBitmap p = Some (bump d)
  | None => domainBitmap p = None /\ domainBumpBitmap p = None
  end.

(** The table an address instruction names answers alike on both sides. *)
Definition lpm_agrees (mt : bpfMatchSet) : Prop :=
  Type_ mt = MatchType_IpSet \/ Type_ mt = MatchType_SourceIpSet \/ Type_ mt = MatchType_Mac ->
  forall key, length key = 16 -> Forall is_byte key ->
    match lpmMatcher m !! Z.to_nat (Uint32 (Value mt)), lpm_array_map (Uint32 (Value mt)) with
    | Some t, Some f => HasPrefixIP t key = Some (f key)
    | None, None => True
    | _, _ => False
    end.

Definition usable (o : Z) : bool :=
  match outboundUsable m with
  | None => true
  | Some f => f o (l4proto p) (IpVersionFromAddr (ap_addr (dst p)))
  end.

Record fields_agree : Prop := {
  fa_saddr : k_saddr params = As16 (ap_addr (src p));
  fa_daddr : k_daddr params = As16 (ap_addr (dst p));
  fa_pname : k_pname params = processName p;
  fa_has_pname : k_has_pname params = negb (byte0 (processName p) =? 0)%Z;
  fa_ifindex : k_ifindex params = ifindex p;
  fa_physinif : k_physinif params = physinif p;
  fa_sport : k_sport params = ap_port (src p);
  fa_dport : k_dport params = ap_port (dst p);
  fa_mac : k_mac params = mac p;
  fa_l4 : k_l4proto_type params = l4proto p;
  fa_ip : k_ipversion_type params = IpVersionFromAddr (ap_addr (dst p));
  fa_dscp : k_dscp params = dscp p;
  fa_dns : k_isdns params = (ap_port (dst p) =? 53)%Z;
  fa_src_len : length (As16 (ap_addr (src p))) = 16;
  fa_dst_len : length (As16 (ap_addr (dst p))) = 16;
  fa_mac_len : length (mac p) = 6;
  fa_src_bytes : Forall is_byte (As16 (ap_addr (src p)));
  fa_dst_bytes : Forall is_byte (As16 (ap_addr (dst p)));
  fa_mac_bytes : Forall is_byte (mac p);
}.

Record agreement : Prop := {
  ag_fields : fields_agree;
  ag_code : forall k, k ∈ code -> k < MaxMatchSetLen /\ routing_map k = matches m !! k;
  ag_lpm : forall k mt, k ∈ code -> matches m !! k = Some mt -> lpm_agrees mt;
  ag_domain : domain_agrees;
  ag_http : http_client_allowed params =
    match httpClientAllowed m with None => true | Some f => f (ap_addr (src p)) (mac p) end;
  ag_alive : forall o, route_outbound_alive params o = usable o;
}.

(** Instructions the compiler puts in the kernel pool. *)
Record kernel_instr (mt : bpfMatchSet) : Prop := {
  ki_action : Action mt <> MatchActionMatch /\ Action mt <> MatchActionMiss;
  ki_domain : Type_ mt = MatchType_DomainSet -> (Uint32 (Value mt) < Z.of_nat MaxMatchSetLen)%Z;
  ki_small : Type_ mt = MatchType_L4Proto \/ Type_ mt = MatchType_IpVersion -> Uint32 (Value mt) = byte0 (Value mt);
  ki_distance : (0 <= Mark mt)%Z;
  ki_outbound : Action mt = MatchActionRoute -> fits 8 (Outbound_ mt);
  ki_mark : Action mt = MatchActionRoute -> fits 32 (Mark mt);
}.

(** ** Related states *)

Definition caches_agree (ps : routingPredicates) (ks : route_state) : Prop :=
  input ps = p /\ ipVersion ps = IpVersionFromAddr (ap_addr (dst p)) /\
  (ks_domain_loaded ks = true -> ks_domain ks = domain_routing_map (k_daddr params)) /\
  match ks_admission ks with
  | HTTP_CLIENT_UNCHECKED => httpClientChecked ps = false
  | HTTP_CLIENT_DENIED => httpClientChecked ps = true /\ httpClientResult ps = false
  | HTTP_CLIENT_ALLOWED => httpClientChecked ps = true /\ httpClientResult ps = true
  end.

(** The kernel state with the control part of [s]. *)
Definition related (s : evalState) (position : nat) (ks : route_state) : Prop :=
  caches_agree (predicates s) ks /\ ks_result ks = (- EFAULT)%Z /\ ks_position ks = position /\
  ks_uncertain_until ks = uncertainUntil s /\ ks_clause_result ks = subrule s /\ ks_must ks = must s /\
  ks_capture_flags ks = captureFlags s /\ ks_rule_uncertain ks = ruleUnknown s /\ ks_flow_bump ks = flowBump s.

Context (Hag : agreement).

Lemma load_domain_same ps : input ps = p ->
  load_domain m ps = Some (mkPredicates p (ipVersion ps) true (httpClientChecked ps) (httpClientResult ps)).
Proof.
  intros Hp. unfold load_domain. destruct (domainLoaded ps) eqn:E.
  { f_equal. destruct ps; cbn in *; congruence. }
  rewrite Hp. destruct (ag_domain Hag) as [Hd _]. destruct (domainBitmap p); [done|].
  by rewrite bool_decide_eq_true_2.
Qed.

Lemma lpmKey_length ps kind : input ps = p -> length (lpmKey ps kind) = 16.
Proof.
  intros Hp. destruct (ag_fields Hag). unfold lpmKey. rewrite Hp.
  repeat case_match; try done. cbn. rewrite fa_mac_len0. done.
Qed.

Lemma lpmKey_bytes ps kind : input ps = p -> Forall is_byte (lpmKey ps kind).
Proof.
  intros Hp. destruct (ag_fields Hag). unfold lpmKey. rewrite Hp.
  assert (Hz : forall n, Forall is_byte (replicate n 0%Z)) by (intros n; apply Forall_replicate, (fits_0 8)).
  repeat case_match; try done; first [by apply (Hz 16)|by apply Forall_app].
Qed.

Lemma bit_of_has (words : list Z) id : bitmap_has (Some words) id = bit_of words id.
Proof.
  unfold bitmap_has, bit_of. destruct (words !! Z.to_nat (id / 32)); [done|]. cbn.
  unfold shr. by rewrite Z.shiftr_0_l.
Qed.

(** Errors on both sides, or the same truth value and related caches. *)
Definition same_predicate (g : res (predicateResult * routingPredicates)) (k : option (predicateResult * route_state))
    (ks : route_state) : Prop :=
  match g, k with
  | Ok (r, ps'), Some (r', ks') => r = r' /\ caches_agree ps' ks' /\
      ks_result ks' = ks_result ks /\ ks_position ks' = ks_position ks /\
      ks_uncertain_until ks' = ks_uncertain_until ks /\ ks_clause_result ks' = ks_clause_result ks /\
      ks_must ks' = ks_must ks /\ ks_capture_flags ks' = ks_capture_flags ks /\
      ks_rule_uncertain ks' = ks_rule_uncertain ks /\ ks_flow_bump ks' = ks_flow_bump ks
  | Err _, None | Panic, None => True
  | _, _ => False
  end.

Lemma same_predicate_ok ps ks r : caches_agree ps ks -> same_predicate (Ok (r, ps)) (Some (r, ks)) ks.
Proof. intros. cbn. repeat (split; [done|]). done. Qed.

Lemma http_predicate ps ks mt :
  caches_agree ps ks -> Type_ mt = MatchType_HTTPClient ->
  same_predicate (predicates_match m ps mt) (route_predicate params ks mt) ks.
Proof.
  intros (Hi & Hv & Hd & Hh) Ht. unfold predicates_match, route_predicate. rewrite Ht. cbn.
  unfold load_http. destruct (ks_admission ks) eqn:Ea.
  - rewrite Hh. rewrite (ag_http Hag), Hi. set (b := match httpClientAllowed m with None => _ | Some _ => _ end).
    cbn. split; [by destruct b|]. split; [|done]. split; [done|]. split; [done|]. split; [done|]. cbn. by destruct b.
  - destruct Hh as [Hc Hr]. rewrite Hc, Ea. cbn. rewrite Hr. split; [done|]. split; [|done].
    split; [done|]. split; [done|]. split; [done|]. by rewrite Ea.
  - destruct Hh as [Hc Hr]. rewrite Hc, Ea. cbn. rewrite Hr. split; [done|]. split; [|done].
    split; [done|]. split; [done|]. split; [done|]. by rewrite Ea.
Qed.

Lemma domain_predicate ps ks mt :
  caches_agree ps ks -> kernel_instr mt -> Type_ mt = MatchType_DomainSet ->
  same_predicate (predicates_match m ps mt) (route_predicate params ks mt) ks.
Proof.
  intros (Hi & Hv & Hd & Hh) Hk Ht. unfold predicates_match, route_predicate. rewrite Ht. cbn -[MaxMatchSetLen].
  rewrite load_domain_same by done. cbn [idx mbind res_bind input].
  pose proof (ki_domain _ Hk Ht). destruct (Z.leb_spec (Z.of_nat MaxMatchSetLen) (Uint32 (Value mt))); [lia|].
  set (ks1 := if ks_domain_loaded ks then ks else _).
  assert (Hks1 : ks_domain ks1 = domain_routing_map (k_daddr params) /\ ks_domain_loaded ks1 = true).
  { unfold ks1. destruct (ks_domain_loaded ks) eqn:E; [|done]. split; [by apply Hd|done]. }
  set (ps1 := mkPredicates p (ipVersion ps) true (httpClientChecked ps) (httpClientResult ps)).
  assert (Hsame : forall r, same_predicate (Ok (r, ps1)) (Some (r, ks1)) ks).
  { intros r. assert (Hks : caches_agree ps1 ks1).
    { split; [done|]. split; [done|]. split; [by intros _; apply Hks1|]. unfold ks1. by destruct (ks_domain_loaded ks). }
    cbn. split; [done|]. split; [done|]. unfold ks1. by destruct (ks_domain_loaded ks). }
  destruct Hks1 as [-> _]. destruct (ag_domain Hag) as [_ Hdom].
  destruct (domain_routing_map (k_daddr params)) as [d|]; destruct Hdom as [-> ->]; [|apply Hsame].
  rewrite !bit_of_has. destruct (bit_of (routing d) _); [apply Hsame|]. destruct (bit_of (bump d) _); apply Hsame.
Qed.

Lemma lpm_predicate ps ks mt :
  caches_agree ps ks -> lpm_agrees mt ->
  Type_ mt = MatchType_IpSet \/ Type_ mt = MatchType_SourceIpSet \/ Type_ mt = MatchType_Mac ->
  same_predicate (predicates_match m ps mt) (route_predicate params ks mt) ks.
Proof.
  intros Hc Hk Ht. pose proof Hc as (Hi & _). destruct (ag_fields Hag).
  assert (Hkey : route_predicate params ks mt =
    (r ← (lpm ← lpm_array_map (Uint32 (Value mt)); Some (pbool (lpm (lpmKey ps (Type_ mt))))); Some (r, ks))).
  { unfold route_predicate, route_match_lpm, lpmKey. rewrite Hi.
    destruct Ht as [Ht|[Ht|Ht]]; rewrite Ht; cbn; by rewrite ?fa_saddr0, ?fa_daddr0, ?fa_mac0. }
  assert (Hgo : predicates_match m ps mt =
    (t ← idx (lpmMatcher m !! Z.to_nat (Uint32 (Value mt))); hit ← idx (HasPrefixIP t (lpmKey ps (Type_ mt)));
     Ok (pbool hit, ps))).
  { unfold predicates_match. destruct Ht as [Ht|[Ht|Ht]]; by rewrite Ht. }
  rewrite Hkey, Hgo. pose proof (Hk Ht (lpmKey ps (Type_ mt)) (lpmKey_length ps _ Hi) (lpmKey_bytes ps _ Hi)) as Hl.
  destruct (lpmMatcher m !! _) as [t|], (lpm_array_map _) as [f|]; try done. cbn [idx mbind res_bind option_bind].
  rewrite Hl. cbn [idx mbind res_bind]. by apply same_predicate_ok.
Qed.

Lemma predicate_same ps ks mt :
  caches_agree ps ks -> kernel_instr mt -> lpm_agrees mt ->
  same_predicate (predicates_match m ps mt) (route_predicate params ks mt) ks.
Proof.
  intros Hc Hk Hl. pose proof Hc as (Hi & Hv & _).
  destruct (Z.eq_dec (Type_ mt) MatchType_HTTPClient) as [Ht|N1]; [by apply http_predicate|].
  destruct (Z.eq_dec (Type_ mt) MatchType_IpSet) as [Ht|N2]; [apply lpm_predicate; auto|].
  destruct (Z.eq_dec (Type_ mt) MatchType_SourceIpSet) as [Ht|N3]; [apply lpm_predicate; auto|].
  destruct (Z.eq_dec (Type_ mt) MatchType_Mac) as [Ht|N4]; [apply lpm_predicate; auto|].
  destruct (Z.eq_dec (Type_ mt) MatchType_DomainSet) as [Ht|N5]; [by apply domain_predicate|].
  pose proof (ki_small _ Hk) as Hsmall. destruct (ag_fields Hag).
  unfold predicates_match, route_predicate. rewrite Hi, Hv.
  apply Z.eqb_neq in N1, N2, N3, N4, N5. rewrite N1, N2, N3, N4, N5. cbn [orb].
  destruct (Z.eqb_spec (Type_ mt) MatchType_Port); [rewrite fa_dport0; by apply same_predicate_ok|].
  destruct (Z.eqb_spec (Type_ mt) MatchType_SourcePort); [rewrite fa_sport0; by apply same_predicate_ok|].
  destruct (Z.eqb_spec (Type_ mt) MatchType_IpVersion) as [E|].
  { rewrite E in *. cbn. rewrite fa_ip0, Hsmall by auto. by apply same_predicate_ok. }
  destruct (Z.eqb_spec (Type_ mt) MatchType_L4Proto) as [E|].
  { rewrite fa_l5, Hsmall by auto. by apply same_predicate_ok. }
  destruct (Z.eqb_spec (Type_ mt) MatchType_ProcessName); [rewrite fa_has_pname0, fa_pname0; by apply same_predicate_ok|].
  destruct (Z.eqb_spec (Type_ mt) MatchType_IfIndex); [rewrite fa_ifindex0, fa_physinif0; by apply same_predicate_ok|].
  destruct (Z.eqb_spec (Type_ mt) MatchType_Dscp); [rewrite fa_dscp0; by apply same_predicate_ok|].
  destruct (Z.eqb_spec (Type_ mt) MatchType_Fallback); [by apply same_predicate_ok|done].
Qed.

(** ** Steps *)

(** The decision as the kernel packs it. *)
Definition pack (e : routingEvaluation) (skipped : bool) : Z :=
  let r := Z.lor (route_result_encode (outbound e) (mark e) (must_result e)) (Z.shiftl (captureFlags_result e) 42) in
  if skipped then Z.lor r ROUTE_RESULT_SKIPPED_NOALIVE else r.

Definition redirects (mt : bpfMatchSet) : bool :=
  has_flag (Z.land (shr (Flags mt) matchCaptureShift) 7) (Z.lor captureDestination captureHTTPRequest).

(** Captures that hand the flow to userspace come before the [must] controls. *)
Definition captures_first : Prop :=
  forall i j ki kj mi mj, i < j -> code !! i = Some ki -> code !! j = Some kj ->
    matches m !! ki = Some mi -> matches m !! kj = Some mj ->
    Action mi = MatchActionMust -> Action mj = MatchActionCapture -> redirects mj = false.

Definition must_seen (position : nat) : Prop :=
  exists i k mt, i < position /\ code !! i = Some k /\ matches m !! k = Some mt /\ Action mt = MatchActionMust.

(** What holds between iterations of the evaluator. *)
Definition loop_inv (s : evalState) (position : nat) : Prop :=
  (must s <> predicateMiss -> must_seen position) /\
  has_flag (captureFlags s) (Z.lor captureDestination captureHTTPRequest) = false.

Context (Hstage : stage p = routeFromIngress) (Hkernel : kernel p = true).

Lemma simulates : simulateKernel p = true.
Proof. unfold simulateKernel. by rewrite Hkernel, Hstage. Qed.

Lemma has_flag_lor a b f : has_flag (Z.lor a b) f = has_flag a f || has_flag b f.
Proof.
  unfold has_flag. rewrite Z.land_lor_distr_l. apply eq_true_iff_eq. rewrite orb_true_iff, !negb_true_iff, !Z.eqb_neq.
  rewrite Z.lor_eq_0_iff. destruct (Z.eq_dec (Z.land a f) 0); tauto.
Qed.

Lemma must_seen_mono a b : a <= b -> must_seen a -> must_seen b.
Proof. intros Hab (i & k & mt & Hi & H). exists i, k, mt. split; [lia|done]. Qed.

(** An action: the same continuation, or the same decision. *)
Definition same_action (g : res verdict) (k : route_step_result * route_state) (position : nat) : Prop :=
  match g with
  | Ok (Return e) => exists ks', k = (ROUTE_STOP, ks') /\ finish_result ks' = pack e (ks_skipped_noalive ks')
  | Ok (Advance d s') => exists ks', k = (ROUTE_CONTINUE, ks') /\ d = 1%Z /\
      related s' position (set_uncertain ks' false) /\ loop_inv s' (S position)
  | _ => exists ks', k = (ROUTE_STOP, ks') /\ ks_result ks' = (- EFAULT)%Z
  end.

Lemma encode_nonneg o k b : (0 <= o)%Z -> (0 <= k)%Z -> (0 <= route_result_encode o k b)%Z.
Proof.
  intros Ho Hk. unfold route_result_encode. rewrite !Z.lor_nonneg, !Z.shiftl_nonneg.
  split; [done|]. destruct b; simpl; lia.
Qed.

Lemma finish_pack ks e :
  ks_result ks = route_result_encode (outbound e) (mark e) (must_result e) ->
  ks_capture_flags ks = captureFlags_result e -> (0 <= outbound e)%Z -> (0 <= mark e)%Z ->
  finish_result ks = pack e (ks_skipped_noalive ks).
Proof.
  intros Hr Hc Ho Hm. unfold finish_result, pack. rewrite Hr, Hc.
  pose proof (encode_nonneg (outbound e) (mark e) (must_result e) Ho Hm).
  destruct (Z.leb_spec 0 (route_result_encode (outbound e) (mark e) (must_result e))); [done|lia].
Qed.

Lemma apply_same position k mt s ks :
  kernel_instr mt -> captures_first -> code !! position = Some k -> matches m !! k = Some mt ->
  related s position ks -> loop_inv s position -> ipVersion (predicates s) = IpVersionFromAddr (ap_addr (dst p)) ->
  same_action (apply_action m p mt s) (route_apply ks mt params) position.
Proof.
  intros Hk Hcf Hcode Hmt Hrel [Hmust Hcap] Hv. pose proof (fa_dns (ag_fields Hag)) as Hdns.
  destruct s as [ps sub mu unk bmp until cap]. destruct ks as [kr kp ku kc km kcap kunk kb ksk kd kdl ka].
  destruct Hrel as (Hcaches & Hr & Hp & Hu & Hc & Hmu & Hcp & Hun & Hb). cbn in *. subst.
  unfold apply_action, route_apply. cbn -[captureDestination captureHTTPRequest].
  rewrite simulates, (ag_alive Hag). unfold usable. cbn [andb].
  assert (Hinv : forall mu' cap', (mu' <> predicateMiss -> must_seen (S position)) ->
    has_flag cap' (Z.lor captureDestination captureHTTPRequest) = false ->
    loop_inv (mkState ps sub mu' false bmp until cap') (S position)) by done.
  assert (Hold : mu <> predicateMiss -> must_seen (S position)).
  { intros Hne. eapply must_seen_mono; [|by apply Hmust]. lia. }
  destruct (Z.eqb_spec (Action mt) MatchActionMust) as [Ea|Na1].
  { assert (Hms : must_seen (S position)) by (exists position, k, mt; split; [lia|done]).
    eexists. split; [done|]. split; [done|]. split; [|by apply Hinv].
    destruct unk; [|done]. by destruct mu. }
  destruct (Z.eqb_spec (Action mt) MatchActionBump) as [Ea|Na2]; [by eexists|].
  destruct (Z.eqb_spec (Action mt) MatchActionCapture) as [Ea|Na3].
  { unfold MATCH_CAPTURE_FLAGS. rewrite has_flag_lor, Hcap. cbn [orb].
    change (has_flag (Z.land (shr (Flags mt) matchCaptureShift) 7) (Z.lor captureDestination captureHTTPRequest)) with (redirects mt).
    destruct (redirects mt) eqn:Er.
    - eexists. split; [done|]. apply (finish_pack _ (mkEval OutboundControlPlaneRouting 0 false _ false)); [|done|done|done].
      cbn. f_equal. destruct (decide (mu = predicateMiss)) as [->|Hne]; [done|]. exfalso.
      destruct (Hmust Hne) as (i & ki & mi & Hi & Hci & Hmi & Hai).
      rewrite (Hcf i position ki k mi mt) in Er; done.
    - eexists. split; [done|]. split; [done|]. split; [done|]. apply Hinv; [done|].
      rewrite has_flag_lor, Hcap. done. }
  destruct (Z.eqb_spec (Action mt) MatchActionFlowEnd) as [Ea|Na4].
  { destruct (bmp || bool_decide (mu = predicateUnknown)).
    - eexists. split; [done|]. by apply finish_pack.
    - eexists. split; [done|]. split; [done|]. split; [done|]. by apply Hinv. }
  destruct (ki_action _ Hk) as [Nm Ni]. apply Z.eqb_neq in Nm, Ni. rewrite Nm, Ni.
  destruct (Z.eqb_spec (Action mt) MatchActionRoute) as [Ea|Na5]; [|by eexists].
  rewrite Hv. destruct (has_flag (Flags mt) matchFlagSkipNoalive && _) eqn:Eskip.
  - assert (Eskip' : has_flag (Flags mt) matchFlagSkipNoalive &&
      negb match outboundUsable m with
           | Some f => f (Outbound_ mt) (l4proto p) (IpVersionFromAddr (ap_addr (dst p)))
           | None => true end = true) by (destruct (outboundUsable m); done).
    rewrite Eskip'. eexists. split; [done|]. split; [done|]. split; [done|]. by apply Hinv.
  - assert (Eskip' : has_flag (Flags mt) matchFlagSkipNoalive &&
      negb match outboundUsable m with
           | Some f => f (Outbound_ mt) (l4proto p) (IpVersionFromAddr (ap_addr (dst p)))
           | None => true end = false) by (destruct (outboundUsable m); done).
    rewrite Eskip'. destruct unk; [eexists; split; [done|]; by apply finish_pack|].
    eexists. split; [done|]. rewrite Hdns.
    destruct (ki_outbound _ Hk Ea), (ki_mark _ Hk Ea).
    destruct (negb (is_match mu || has_flag (Flags mt) matchFlagMust) && (ap_port (dst p) =? 53)%Z &&
      negb (has_flag (Flags mt) matchFlagBypass)); by apply finish_pack.
Qed.

(** The profile uploaded for the program. *)
Definition profile_agrees (profile : routing_profile) : Prop :=
  p_length profile = Z.of_nat (length code) /\ length code <= MaxMatchSetLen /\
  forall i k, code !! i = Some k -> p_steps profile !! i = Some (Z.of_nat k).

Definition same_step (g : res verdict) (k : route_step_result * route_state) (position : nat) : Prop :=
  match g with
  | Ok (Return e) => exists ks', k = (ROUTE_STOP, ks') /\ finish_result ks' = pack e (ks_skipped_noalive ks')
  | Ok (Advance d s') =>
    if (d =? 0)%Z || (Z.of_nat (length code - position) <? d)%Z
    then exists ks', k = (ROUTE_STOP, ks') /\ ks_result ks' = (- EFAULT)%Z
    else exists ks', k = (ROUTE_CONTINUE, ks') /\ related s' (position + Z.to_nat d) ks' /\
           loop_inv s' (position + Z.to_nat d)
  | _ => exists ks', k = (ROUTE_STOP, ks') /\ ks_result ks' = (- EFAULT)%Z
  end.

Lemma loop_inv_later s s' a b :
  must s' = must s -> captureFlags s' = captureFlags s -> a <= b -> loop_inv s a -> loop_inv s' b.
Proof.
  intros Hm Hc Hab [H1 H2]. unfold loop_inv. rewrite Hm, Hc. split; [|done].
  intros Hne. by eapply must_seen_mono, H1.
Qed.

Lemma related_moved s ks a b : related s a ks -> related s b (set_position ks b).
Proof. intros (? & ? & ? & ? & ? & ? & ? & ? & ?). unfold related. cbn. by repeat (split; [done|]). Qed.

Lemma advance_same d s s' position ks :
  related s' position ks -> must s' = must s -> captureFlags s' = captureFlags s -> loop_inv s position ->
  same_step (Ok (Advance d s')) (route_advance ks position (length code) d) position.
Proof.
  intros Hrel Hm Hc Hinv. unfold same_step, route_advance. destruct (_ || _) eqn:E.
  - exists ks. split; [done|]. apply Hrel.
  - eexists. split; [done|]. split; [|eapply loop_inv_later; [done|done| |done]; lia].
    by apply related_moved with position.
Qed.

Lemma eval_clause_same s ks mt position :
  kernel_instr mt -> lpm_agrees mt -> related s position ks ->
  match eval_clause m s mt, (if is_match (ks_clause_result ks) then Some (predicateMatch, ks) else route_predicate params ks mt) with
  | Ok (sub, ps), Some (r, ks') => sub = pmax (ks_clause_result ks') r /\
      related (mkState ps (subrule s) (must s) (ruleUnknown s) (flowBump s) (uncertainUntil s) (captureFlags s)) position ks'
  | Ok _, None => False
  | _, Some _ => False
  | _, None => True
  end.
Proof.
  intros Hk Hl (Hcaches & Hr & Hp & Hu & Hc & Hmu & Hcp & Hun & Hb). unfold eval_clause. rewrite Hc.
  destruct (is_match (subrule s)) eqn:Em.
  - rewrite Hc. split; [by destruct (subrule s)|]. by repeat (split; [done|]).
  - pose proof (predicate_same (predicates s) ks mt Hcaches Hk Hl) as Hs. unfold same_predicate in Hs.
    destruct (predicates_match m (predicates s) mt) as [[r ps]| |]; cbn [mbind res_bind].
    + destruct (route_predicate params ks mt) as [[r' ks']|]; [|done].
      destruct Hs as (<- & Hca & E1 & E2 & E3 & E4 & E5 & E6 & E7 & E8). rewrite E4, Hc. split; [done|].
      unfold related. cbn. rewrite E1, E2, E3, E4, E5, E6, E7, E8. by repeat (split; [done|]).
    + by destruct (route_predicate params ks mt).
    + by destruct (route_predicate params ks mt).
Qed.

Lemma step_same profile position k mt s ks :
  profile_agrees profile -> kernel_instr mt -> captures_first ->
  code !! position = Some k -> matches m !! k = Some mt -> related s position ks -> loop_inv s position ->
  same_step (eval_step m p position (length code) mt s) (route_step params profile ks) position.
Proof.
  intros (Hpl & HL & Hps) Hk Hcf Hcode Hmt Hrel Hinv. unfold route_step.
  pose proof Hrel as (_ & Hres & Hpos & _). rewrite Hpos, Hpl, Nat2Z.id.
  apply lookup_lt_Some in Hcode as Hlt.
  destruct (Nat.leb_spec MaxMatchSetLen position); [lia|]. destruct (Nat.leb_spec (length code) position); [lia|]. cbn [orb].
  rewrite (Hps _ _ Hcode). change (default 0%Z (Some (Z.of_nat k))) with (Z.of_nat k).
  destruct (ag_code Hag k) as [HkM Hrm]; [apply list_elem_of_lookup; eauto|].
  destruct (Z.leb_spec (Z.of_nat MaxMatchSetLen) (Z.of_nat k)); [lia|]. rewrite Nat2Z.id, Hrm, Hmt.
  pose proof (eval_clause_same s ks mt position Hk (ag_lpm Hag _ _ (list_elem_of_lookup_2 _ _ _ Hcode) Hmt) Hrel) as Hcl. unfold eval_step.
  destruct (eval_clause m s mt) as [[sub ps]| |].
  2, 3: destruct (if is_match (ks_clause_result ks) then _ else _) as [[r ks']|]; [done|by exists ks].
  destruct (if is_match (ks_clause_result ks) then _ else _) as [[r ks']|]; [|done]. destruct Hcl as [-> Hrel'].
  cbn [mbind res_bind]. clear Hrel Hpos Hres ks. generalize (pmax (ks_clause_result ks') r) as sub. intros sub.
  set (s0 := mkState ps _ _ _ _ _ _) in Hrel'.
  assert (Hinv0 : loop_inv s0 position) by (by eapply loop_inv_later).
  assert (Hip : ipVersion ps = IpVersionFromAddr (ap_addr (dst p))) by apply Hrel'.
  destruct ks' as [kr kp ku kc km kcap kunk kb ksk kd kdl ka].
  destruct Hrel' as (Hcaches & Hr & Hp & Hu & Hc & Hmu & Hcp & Hun & Hb). cbn in Hcaches, Hr, Hp, Hu, Hc, Hmu, Hcp, Hun, Hb. subst.
  cbn [set_clause set_uncertain set_until ks_result ks_position ks_uncertain_until ks_clause_result ks_must
       ks_capture_flags ks_rule_uncertain ks_flow_bump ks_skipped_noalive ks_domain ks_domain_loaded ks_admission].
  destruct (Action mt =? MatchActionOr)%Z; [by eapply advance_same|].
  set (clause := if has_flag (Flags mt) matchFlagNot then pneg sub else sub).
  case_bool_decide as Hmiss; [by eapply advance_same|].
  set (unknown := ruleUnknown s || bool_decide (clause = predicateUnknown)).
  destruct (Action mt =? MatchActionAnd)%Z; [by eapply advance_same|].
  destruct (Action mt =? MatchActionConditionalJump)%Z.
  - destruct ((Mark mt =? 0)%Z || _); [by eexists|].
    eapply advance_same; [|done|done|done]. unfold related. cbn [predicates uncertainUntil subrule must captureFlags ruleUnknown flowBump].
    destruct unknown; cbn [andb]; [|by repeat (split; [done|])].
    destruct (Nat.ltb_spec (uncertainUntil s) (position + Z.to_nat (Mark mt))).
    + rewrite Nat.max_r by lia. by repeat (split; [done|]).
    + rewrite Nat.max_l by lia. by repeat (split; [done|]).
  - set (s1 := mkState ps predicateMiss _ _ _ _ _).
    match goal with |- context [route_apply ?k _ _] => set (ks1 := k) end.
    pose proof (apply_same position k mt s1 ks1 Hk Hcf Hcode Hmt) as Hact.
    assert (Hrel1 : related s1 position ks1) by (by repeat (split; [done|])).
    specialize (Hact Hrel1 ltac:(by eapply loop_inv_later) Hip). unfold same_action in Hact.
    destruct (apply_action m p mt s1) as [[e|d s']| |].
    + destruct Hact as (ks' & -> & Hf). by exists ks'.
    + destruct Hact as (ks' & -> & -> & Hrel' & Hinv'). unfold same_step, route_advance.
      destruct ((1 =? 0)%Z || (Z.of_nat (length code - position) <? 1)%Z) eqn:E; [eexists; split; [done|]; apply Hrel'|].
      eexists. split; [done|]. change (Z.to_nat 1) with 1. rewrite Nat.add_1_r. split; [|done].
      by apply related_moved with position.
    + destruct Hact as (ks' & -> & Hf). by exists ks'.
    + destruct Hact as (ks' & -> & Hf). by exists ks'.
Qed.

Lemma loops_agree profile n fuel position s ks :
  profile_agrees profile -> captures_first ->
  (forall k, k ∈ code -> exists mt, matches m !! k = Some mt /\ kernel_instr mt) ->
  related s position ks -> loop_inv s position -> position <= length code ->
  length code - position <= n -> length code - position < fuel ->
  match flat_loop fuel m code p position s with
  | Ok e => exists skipped, finish_result (route_loop n params profile ks) = pack e skipped
  | _ => finish_result (route_loop n params profile ks) = (- EPERM)%Z
  end.
Proof.
  intros Hpr Hcf Hinstr. revert n position s ks.
  induction fuel as [|fuel IH]; intros n position s ks Hrel Hinv Hle Hn Hf; [lia|]. cbn [flat_loop].
  assert (Hbad : forall ks', ks_result ks' = (- EFAULT)%Z -> finish_result ks' = (- EPERM)%Z).
  { intros ks' E. unfold finish_result. by rewrite E. }
  destruct (code !! position) as [k|] eqn:Hcode.
  - destruct (Hinstr k) as (mt & Hmt & Hk); [apply list_elem_of_lookup; eauto|]. rewrite Hmt. cbn [idx mbind res_bind].
    apply lookup_lt_Some in Hcode as Hlt. destruct n as [|n]; [lia|]. cbn [route_loop].
    pose proof (step_same profile position k mt s ks Hpr Hk Hcf Hcode Hmt Hrel Hinv) as Hst. unfold same_step in Hst.
    destruct (eval_step m p position (length code) mt s) as [[e|d s']| |] eqn:Estep; cbn [mbind res_bind].
    + destruct Hst as (ks' & -> & Hfin). by exists (ks_skipped_noalive ks').
    + destruct (_ || _) eqn:E; [destruct Hst as (ks' & -> & Hr); by apply Hbad|].
      destruct Hst as (ks' & -> & Hrel' & Hinv'). apply orb_false_iff in E as [E0 E1].
      apply Z.eqb_neq in E0. apply Z.ltb_ge in E1.
      assert (0 <= d)%Z by (eapply eval_step_distance; [apply (ki_distance _ Hk)|done]). apply IH; [done..|lia|lia|lia].
    + destruct Hst as (ks' & -> & Hr). by apply Hbad.
    + destruct Hst as (ks' & -> & Hr). by apply Hbad.
  - apply lookup_ge_None in Hcode. assert (position = length code) as -> by lia.
    assert (Hstop : route_loop n params profile ks = ks).
    { destruct n as [|n]; [done|]. cbn [route_loop]. unfold route_step. pose proof Hrel as (_ & _ & Hpos & _).
      destruct Hpr as (Hpl & _). rewrite Hpos, Hpl, Nat2Z.id.
      destruct (Nat.leb_spec (length code) (length code)); [|lia]. by rewrite orb_true_r. }
    rewrite Hstop. apply Hbad. apply Hrel.
Qed.
End Equivalence.

(** ** The uploaded profile *)

Definition filled (value : routing_profile) (code : list nat) : Prop :=
  p_length value = Z.of_nat (length code) /\ length (p_steps value) = MaxMatchSetLen /\
  length code <= MaxMatchSetLen /\
  forall i k, code !! i = Some k -> p_steps value !! i = Some (wrap 16 (Z.of_nat k)).

Lemma encode_step_filled value code k value' :
  filled value code -> encode_step (Ok value) k = Ok value' -> filled value' (code ++ [k]).
Proof.
  intros (Hl & Hs & Hle & Hc). unfold encode_step. cbn [mbind res_bind]. rewrite Hl, Nat2Z.id.
  destruct (Nat.ltb_spec (length code) MaxMatchSetLen) as [Hlt|]; [|done]. intros [= <-].
  unfold filled. cbn [p_length p_steps]. rewrite length_app, length_insert. cbn [length].
  repeat split; [lia|done|lia|]. intros i j Hi. apply lookup_snoc_Some in Hi as [[Hi1 Hi2]|[-> ->]].
  - rewrite list_lookup_insert_ne by lia. by apply Hc.
  - apply list_lookup_insert_eq. lia.
Qed.

Lemma encode_steps_filled ks value code value' :
  filled value code -> fold_left encode_step ks (Ok value) = Ok value' -> filled value' (code ++ ks).
Proof.
  revert value code. induction ks as [|k ks IH]; intros value code Hf H.
  { injection H as <-. by rewrite app_nil_r. }
  cbn [fold_left] in H. destruct (encode_step (Ok value) k) as [v|e|] eqn:Es.
  - rewrite cons_middle, app_assoc. eapply IH; [|done]. by eapply encode_step_filled.
  - exfalso. clear -H. induction ks; [done|by apply IHks].
  - exfalso. clear -H. induction ks; [done|by apply IHks].
Qed.

Lemma encode_profile_steps spans :
  encode_profile spans = fold_left encode_step (code_of spans) (Ok zero_profile).
Proof.
  unfold encode_profile, code_of, flatten. generalize (Ok zero_profile).
  induction spans as [|s spans IH]; intros v; [done|]. cbn [fold_left flat_map].
  rewrite map_app, fold_left_app, IH. do 2 f_equal. unfold span_steps. rewrite map_map. cbn. by rewrite map_id.
Qed.

Lemma encode_profile_filled spans value : encode_profile spans = Ok value -> filled value (code_of spans).
Proof.
  rewrite encode_profile_steps. apply (encode_steps_filled _ _ []). unfold filled, zero_profile. cbn -[MaxMatchSetLen].
  rewrite length_replicate. repeat split; [lia|]. done.
Qed.

(** ** Packed decisions *)

Definition eval_fits (e : routingEvaluation) : Prop :=
  fits 8 (outbound e) /\ fits 32 (mark e) /\ fits 4 (captureFlags_result e).

Lemma decode_pack e skipped : eval_fits e ->
  decode_route_result (pack e skipped) = (outbound e, mark e, Z.b2z (must_result e), captureFlags_result e).
Proof.
  intros (Ho & Hm & Hc). unfold decode_route_result, pack, route_result_encode, ROUTE_RESULT_SKIPPED_NOALIVE.
  change 8%Z with (Z.of_nat 8). change 40%Z with (Z.of_nat 40). change 41%Z with (Z.of_nat 41). change 42%Z with (Z.of_nat 42).
  assert (Hb : forall b n, tb (Z.b2z b) n = (n =? 0) && b).
  { intros [] n; [rewrite andb_true_r; exact (tb_one_shl 0 n)|rewrite andb_false_r; exact (tb_zero n)]. }
  assert (Hnn : forall x, (0 <= wrap 8 x)%Z /\ (0 <= wrap 32 x)%Z) by (intros; split; apply wrap_fits).
  assert (Hbit : forall x n, tb (if skipped then Z.lor x (Z.shiftl 1 (Z.of_nat 41)) else x) n = tb x n || (skipped && (n =? 41))).
  { intros x n. destruct skipped; [by rewrite tb_lor, tb_one_shl|]. by rewrite orb_false_r. }
  repeat f_equal.
  - apply tb_inj; [apply Hnn|apply Ho|]. intros n. rewrite tb_wrap, Hbit, !tb_lor, !tb_shiftl.
    destruct (Nat.ltb_spec n 8); [|cbn; symmetry; by apply (fits_tb 8)].
    nat_cases; try lia. cbn. by rewrite andb_false_r, !orb_false_r.
  - apply tb_inj; [apply Hnn|apply Hm|]. intros n. rewrite tb_wrap, tb_shr, Hbit, !tb_lor, !tb_shiftl.
    destruct (Nat.ltb_spec n 32); [|cbn; symmetry; by apply (fits_tb 32)].
    nat_cases; try lia. cbn. rewrite (fits_tb 8 (outbound e)) by (done || lia).
    rewrite andb_false_r, !orb_false_r. cbn. f_equal. lia.
  - apply tb_inj; [apply Z.land_nonneg; right; lia|by destruct (must_result e)|]. intros n.
    pose proof (Hb true n) as H1. change (Z.b2z true) with 1%Z in H1. rewrite tb_land, tb_shr, Hbit, !tb_lor, !tb_shiftl, H1, !Hb. clear H1.
    destruct (Nat.eqb_spec n 0) as [->|]; [|cbn; by rewrite andb_false_r]. cbn.
    rewrite (fits_tb 8 (outbound e)), (fits_tb 32 (mark e)) by (done || lia). nat_cases; try lia. cbn. by rewrite andb_false_r, !orb_false_r, andb_true_r.
  - apply tb_inj; [apply Hnn|apply Hc|]. intros n. rewrite tb_wrap, tb_shr, Hbit, !tb_lor, !tb_shiftl, Hb.
    destruct (Nat.ltb_spec n 8); [|cbn; symmetry; apply (fits_tb 4); [done|lia]].
    rewrite (fits_tb 8 (outbound e)), (fits_tb 32 (mark e)) by (done || lia).
    nat_cases; try lia. cbn. rewrite andb_false_r, orb_false_r. f_equal. lia.
Qed.

(** Decisions of the evaluator have the widths of the result fields. *)
Lemma apply_action_fits m p mt s :
  (Action mt = MatchActionRoute -> fits 8 (Outbound_ mt) /\ fits 32 (Mark mt)) -> fits 4 (captureFlags s) ->
  match apply_action m p mt s with
  | Ok (Return e) => eval_fits e
  | Ok (Advance _ s') => fits 4 (captureFlags s')
  | _ => True
  end.
Proof.
  intros Hom Hc.
  assert (H253 : fits 8 OutboundControlPlaneRouting) by (split; by vm_compute).
  assert (Hcap : fits 4 (Z.lor (captureFlags s) (Z.land (shr (Flags mt) matchCaptureShift) 7))).
  { apply fits_lor; [done|]. change 7%Z with (Z.ones 3). rewrite Z.land_ones by lia.
    apply (fits_mono 3); [lia|]. apply Z.mod_pos_bound. lia. }
  assert (Hdns : fits 4 (Z.lor (captureFlags s) captureDNS)) by (apply fits_lor; [done|split; by vm_compute]).
  unfold apply_action, eval_fits. destruct (Z.eqb_spec (Action mt) MatchActionRoute) as [Ea|_]; [destruct (Hom Ea) as [Ho Hm]|clear Hom];
    repeat case_match; cbn; simplify_eq; auto using fits_0; by split_and!; auto using fits_0.
Qed.

Lemma eval_step_fits m p position len mt s :
  (Action mt = MatchActionRoute -> fits 8 (Outbound_ mt) /\ fits 32 (Mark mt)) -> fits 4 (captureFlags s) ->
  match eval_step m p position len mt s with
  | Ok (Return e) => eval_fits e
  | Ok (Advance _ s') => fits 4 (captureFlags s')
  | _ => True
  end.
Proof.
  intros Hom Hc. unfold eval_step. destruct (eval_clause m s mt) as [[sub ps]| |]; cbn [mbind res_bind]; try done.
  destruct (Action mt =? MatchActionOr)%Z; [done|]. case_bool_decide; [done|].
  destruct (Action mt =? MatchActionAnd)%Z; [done|].
  destruct (Action mt =? MatchActionConditionalJump)%Z; [by destruct (_ || _)|]. by apply apply_action_fits.
Qed.

Lemma flat_loop_fits m code p fuel position s e :
  (forall k mt, k ∈ code -> matches m !! k = Some mt -> Action mt = MatchActionRoute -> fits 8 (Outbound_ mt) /\ fits 32 (Mark mt)) ->
  fits 4 (captureFlags s) -> flat_loop fuel m code p position s = Ok e -> eval_fits e.
Proof.
  intros Hc. revert position s. induction fuel as [|fuel IH]; intros position s Hs; [done|]. cbn [flat_loop].
  destruct (code !! position) as [k|] eqn:Ek; [|done]. destruct (matches m !! k) as [mt|] eqn:Em; [|done].
  cbn [idx mbind res_bind]. pose proof (Hc k mt (list_elem_of_lookup_2 _ _ _ Ek) Em) as Hom.
  pose proof (eval_step_fits m p position (length code) mt s Hom Hs) as Hf.
  destruct (eval_step m p position (length code) mt s) as [[e'|d s']| |]; cbn [mbind res_bind]; try done.
  - by intros [= <-].
  - destruct (_ || _); [done|]. by apply IH.
Qed.

(** What the control plane installs for a profile: the spans uploaded as the
    interface's profile, instructions of the kernel pool, and capture programs
    before flow controls. *)
Record installed `{KM : KernelMaps} (m : RoutingMatcher) (params : route_params) (spans : list routingSpan)
    : Prop := {
  in_wf : Forall span_wf spans;
  in_nonempty : code_of spans <> [];
  in_pool : Forall (fun k => exists mt, matches m !! k = Some mt /\ kernel_instr mt) (code_of spans);
  in_range : Forall (fun k => k < MaxMatchSetLen) (code_of spans);
  in_marks : marks_ok m;
  in_first : captures_first m (code_of spans);
  in_profile : exists value, encode_profile spans = Ok value /\
    routing_profile_map (selected_profile params) = Some value;
}.

Lemma kernel_decides `{KM : KernelMaps} m p params spans :
  installed m params spans -> agreement m p params (code_of spans) ->
  stage p = routeFromIngress -> kernel p = true ->
  IsValid (ap_addr (src p)) = true -> IsValid (ap_addr (dst p)) = true ->
  match evaluateSpans m spans p with
  | Ok e => decode_route_result (route params) =
      (outbound e, mark e, Z.b2z (must_result e), captureFlags_result e)
  | _ => route params = (- EPERM)%Z
  end.
Proof.
  intros [Hwf Hne Hpool Hrange Hmarks Hcf (value & Henc & Hmap)] Hag Hst Hk Hs Hd.
  rewrite Forall_forall in Hpool, Hrange.
  destruct (encode_profile_filled _ _ Henc) as (Hlen & _ & Hle & Hsteps).
  assert (Hpr : profile_agrees (code_of spans) value).
  { split; [done|]. split; [done|]. intros i k Hi. rewrite (Hsteps i k Hi), wrap_id; [done|].
    pose proof (Hrange k (list_elem_of_lookup_2 _ _ _ Hi)). unfold MaxMatchSetLen in *. split; lia. }
  rewrite evaluateSpans_flat by done. unfold route. rewrite Hmap, Hlen.
  assert (0 < length (code_of spans)) by (destruct (code_of spans); [done|cbn; lia]).
  destruct (Z.eqb_spec (Z.of_nat (length (code_of spans))) 0); [lia|].
  destruct (Z.ltb_spec (Z.of_nat MaxMatchSetLen) (Z.of_nat (length (code_of spans)))); [lia|]. cbn [orb].
  pose proof (loops_agree m p params (code_of spans) Hag Hst Hk value MaxMatchSetLen (S (length (code_of spans))) 0
    (initial_state p) initial_route_state Hpr Hcf Hpool) as Hloop.
  destruct (flat_loop _ _ _ _ _ _) as [e| |] eqn:El.
  2, 3: apply Hloop; [by repeat (split; [done|])|by split|lia|lia|lia].
  destruct Hloop as [skipped ->]; [by repeat (split; [done|])|by split|lia|lia|lia|].
  apply decode_pack. refine (flat_loop_fits m (code_of spans) p _ 0 (initial_state p) e _ (fits_0 4) El).
  intros k mt Hin Hm Ha. destruct (Hpool k Hin) as (mt' & Hm' & Hi). simplify_eq. split; by apply Hi.
Qed.

(** C1: the eBPF interpreter and the userspace evaluator take the same decision on
    a profile: a returned evaluation is what the packed kernel result decodes to,
    and any userspace error is the kernel's [-EPERM]. *)
Theorem kernel_agrees_with_userspace `{KM : KernelMaps} m p params spans :
  installed m params spans -> agreement m p params (code_of spans) ->
  stage p = routeFromIngress -> kernel p = true ->
  IsValid (ap_addr (src p)) = true -> IsValid (ap_addr (dst p)) = true ->
  match evaluateSpans m spans p with
  | Ok e => decode_route_result (route params) =
      (outbound e, mark e, Z.b2z (must_result e), captureFlags_result e)
  | _ => route params = (- EPERM)%Z
  end.
Proof. intros. by apply kernel_decides. Qed.

(** A profile with one rule, [domain(...) && dport(443) -> proxy(mark: 7)], and a
    fallback, whose domain predicate is ambiguous for the destination. *)
Definition demo_matches : list bpfMatchSet :=
  [ mkMatch (PutUint32 0) MatchType_DomainSet MatchActionAnd 0 0 2;
    mkMatch (encodePortRange (443, 443)%Z) MatchType_Port MatchActionRoute matchFlagSkipNoalive 2 7;
    mkMatch zero16 MatchType_Fallback MatchActionRoute 0 0 0 ].
Definition demo_spans : list routingSpan := [mkSpan 0 2 routingPhaseRoute false; mkSpan 2 3 routingPhaseRoute false].
Definition demo_addr : Addr := AddrFrom16 (replicate 15 1%Z ++ [9%Z]).
Definition demo_input : routingInput :=
  mkInput (mkAddrPort demo_addr 5000) (mkAddrPort demo_addr 443) L4ProtoType_TCP [] zero16 3 0 0 0 (replicate 6 0%Z)
    (Some [0%Z]) (Some [1%Z]) true routeFromIngress.
Definition demo_matcher : RoutingMatcher :=
  mkRoutingMatcher demo_matches [] 1 {[ 1%Z := demo_spans ]} (fun _ => None) None None.
Definition demo_profile : routing_profile :=
  match encode_profile demo_spans with Ok v => v | _ => zero_profile end.
Definition demo_params : route_params :=
  mkParams (As16 demo_addr) (As16 demo_addr) zero16 3 0 0 5000 443 (replicate 6 0%Z) L4ProtoType_TCP
    (IpVersionFromAddr demo_addr) 0 false false.
Definition demo_maps : KernelMaps := {|
  routing_map := fun k => demo_matches !! k;
  lpm_array_map := fun _ => None;
  domain_routing_map := fun _ => Some (mkDomainRouting [1%Z] [0%Z]);
  outbound_connectivity_alive := fun _ _ _ => true;
  http_client_allowed := fun _ => true;
  routing_interface_map := fun _ => None;
  default_routing_profile := 1;
  routing_profile_map := fun id => if (id =? 1)%Z then Some demo_profile else None
|}.

Lemma demo_kernel_instr mt : mt ∈ demo_matches -> kernel_instr mt.
Proof.
  intros Hin. repeat (apply elem_of_cons in Hin as [->|Hin]; [|]); [..|by apply elem_of_nil in Hin];
    split; try (by vm_compute); try (by intros [|]); try (split; by vm_compute); by intros _; vm_compute.
Qed.

Lemma kernel_agrees_with_userspace_witness :
  @installed demo_maps demo_matcher demo_params demo_spans /\
  evaluateSpans demo_matcher demo_spans demo_input = Ok (mkEval OutboundControlPlaneRouting 0 false 0 false) /\
  decode_route_result (@route demo_maps demo_params) = (OutboundControlPlaneRouting, 0, 0, 0)%Z.
Proof.
  assert (Hin : @installed demo_maps demo_matcher demo_params demo_spans).
  { split.
    - unfold demo_spans, span_wf. rewrite !Forall_cons. cbn. split_and!; [lia..|done].
    - done.
    - change (code_of demo_spans) with [0; 1; 2]. rewrite !Forall_cons.
      split_and!; [..|done]; (eexists; split; [reflexivity|apply demo_kernel_instr; repeat constructor]).
    - change (code_of demo_spans) with [0; 1; 2]. unfold MaxMatchSetLen. rewrite !Forall_cons. split_and!; [lia..|done].
    - unfold marks_ok, demo_matcher. cbn [matches]. unfold demo_matches. rewrite !Forall_cons. by split_and!.
    - intros i j ki kj mi mj Hij Hi Hj Hmi Hmj Ha Hb. change (code_of demo_spans) with [0; 1; 2] in *.
      destruct i as [|[|[|]]]; cbn in Hi; simplify_eq; cbn in Hmi; simplify_eq; done.
    - by exists demo_profile. }
  assert (He : evaluateSpans demo_matcher demo_spans demo_input = Ok (mkEval OutboundControlPlaneRouting 0 false 0 false))
    by (by vm_compute).
  split; [done|]. split; [done|].
  pose proof (@kernel_agrees_with_userspace demo_maps demo_matcher demo_input demo_params demo_spans Hin) as H.
  rewrite He in H. apply H; [|done..].
  split; [split; first [done|by apply bytesb_ok]| | |done|done|done].
  2: { change (code_of demo_spans) with [0; 1; 2]. intros k mt Hk Hm _ key _ _. cbn. by destruct (Z.to_nat _). }
  change (code_of demo_spans) with [0; 1; 2]. intros k Hk. split; [|done].
  rewrite !elem_of_cons, elem_of_nil in Hk. unfold MaxMatchSetLen. lia.
Defined.
