(* ===== verification/RoutingSem.v ===== *)
(** * Meaning of compiled routing programs

    A policy is a list of items: rules, whose clauses are disjunctions of
    predicates, and conditional blocks. [run_items] gives it a direct three-valued
    meaning by recursion on that structure, with no jumps and no positions.
    [emit_items] is its instruction sequence, with the relative jumps of
    [encodeRoutingJumps] and [setConditionalJump]; the evaluator computes the
    direct meaning on it. *)

From S2P Require Import Prelude Netip Trie RoutingInstr RoutingCursor RoutingEval RoutingEquiv.

(** ** Evaluation of a list of instructions *)

Fixpoint prog_loop (fuel : nat) (m : RoutingMatcher) (prog : list bpfMatchSet) (p : routingInput)
    (position : nat) (s : evalState) : res routingEvaluation :=
  match fuel with
  | 0 => Panic
  | S fuel =>
    match prog !! position with
    | None => Err "no match set hit"
    | Some mt =>
      v ← eval_step m p position (length prog) mt s;
      match v with
      | Return e => Ok e
      | Advance distance s =>
        if (distance =? 0)%Z || (Z.of_nat (length prog - position) <? distance)%Z then Err "invalid routing jump"
        else prog_loop fuel m prog p (position + Z.to_nat distance) s
      end
    end
  end.

(** The instructions in execution order. *)
Definition program_of (m : RoutingMatcher) (spans : list routingSpan) : option (list bpfMatchSet) :=
  mapM (fun i => matches m !! i) (code_of spans).

Lemma flat_loop_prog m code prog p fuel position s :
  mapM (fun i => matches m !! i) code = Some prog ->
  flat_loop fuel m code p position s = prog_loop fuel m prog p position s.
Proof.
  intros Hp%mapM_Some. pose proof (Forall2_length _ _ _ Hp) as Hlen.
  revert position s. induction fuel as [|fuel IH]; intros position s; [done|]. cbn [flat_loop prog_loop].
  destruct (code !! position) as [k|] eqn:Ek.
  - destruct (Forall2_lookup_l _ _ _ _ _ Hp Ek) as (mt & -> & Hmt). rewrite Hmt. cbn [idx mbind res_bind].
    rewrite Hlen. destruct (eval_step m p position (length prog) mt s) as [[e|d s']| |]; try done. cbn [mbind res_bind].
    destruct (_ || _); [done|]. apply IH.
  - apply lookup_ge_None in Ek. rewrite lookup_ge_None_2 by lia. done.
Qed.

(** ** Programs *)

Record clause := mkClause { cl_preds : list (Z * bytes); cl_not : bool }.

Inductive item :=
| Rule (cs : list clause) (tail : bpfMatchSet)
| Block (cs : list clause) (body : list item).

Definition not_flag (c : clause) : Z := if cl_not c then matchFlagNot else 0.

(** Predicates of a clause; all but the last one are OR instructions. *)
Fixpoint emit_preds (flags : Z) (preds : list (Z * bytes)) (tail : Z * bytes -> bpfMatchSet) : list bpfMatchSet :=
  match preds with
  | [] => []
  | [pr] => [tail pr]
  | pr :: preds =>
    mkMatch pr.2 pr.1 MatchActionOr flags 0 (Z.of_nat (length preds)) :: emit_preds flags preds tail
  end.

Definition and_instr (flags distance : Z) (pr : Z * bytes) : bpfMatchSet :=
  mkMatch pr.2 pr.1 MatchActionAnd flags 0 distance.

(** The tail instruction of a rule has its last predicate. *)
Definition tail_instr (flags : Z) (tail : bpfMatchSet) (pr : Z * bytes) : bpfMatchSet :=
  mkMatch pr.2 pr.1 (Action tail) (Z.lor flags (Flags tail)) (Outbound_ tail) (Mark tail).

(** [after] instructions follow the tail before the end of the construct. *)
Fixpoint emit_clauses (cs : list clause) (tail : bpfMatchSet) (after : nat) : list bpfMatchSet :=
  match cs with
  | [] => []
  | [c] => emit_preds (not_flag c) (cl_preds c) (tail_instr (not_flag c) tail)
  | c :: cs =>
    let rest := emit_clauses cs tail after in
    emit_preds (not_flag c) (cl_preds c) (and_instr (not_flag c) (Z.of_nat (S (length rest + after)))) ++ rest
  end.

Definition jump_tail (body : nat) : bpfMatchSet :=
  mkMatch zero16 0 MatchActionConditionalJump 0 0 (Z.of_nat (S body)).

Fixpoint emit_item (it : item) : list bpfMatchSet :=
  match it with
  | Rule cs tail => emit_clauses cs tail 0
  | Block cs body =>
    let body := (fix go items := match items with [] => [] | it :: items => emit_item it ++ go items end) body in
    emit_clauses cs (jump_tail (length body)) (length body) ++ body
  end.
Fixpoint emit_items (items : list item) : list bpfMatchSet :=
  match items with [] => [] | it :: items => emit_item it ++ emit_items items end.

(** Rules have predicates in every clause and end with an action. *)
Definition clauses_wf (cs : list clause) : Prop := cs <> [] /\ Forall (fun c => cl_preds c <> []) cs.

Definition tail_wf (t : bpfMatchSet) : Prop :=
  is_jump (Action t) = false /\ has_flag (Flags t) matchFlagNot = false /\ (0 <= Flags t)%Z.

Fixpoint item_wf (it : item) : Prop :=
  match it with
  | Rule cs tail => clauses_wf cs /\ tail_wf tail
  | Block cs body =>
    clauses_wf cs /\ (fix go items := match items with [] => True | it :: items => item_wf it /\ go items end) body
  end.
Fixpoint items_wf (items : list item) : Prop :=
  match items with [] => True | it :: items => item_wf it /\ items_wf items end.

(** ** Direct meaning *)

Definition pmin (a b : predicateResult) : predicateResult :=
  match a, b with
  | predicateMiss, _ | _, predicateMiss => predicateMiss
  | predicateUnknown, _ | _, predicateUnknown => predicateUnknown
  | _, _ => predicateMatch
  end.

Section Meaning.
Context (m : RoutingMatcher) (p : routingInput).

Definition fresh : routingPredicates := predicates (initial_state p).

(** The value of a predicate, outside any evaluation. *)
Definition pvalue (pr : Z * bytes) : res predicateResult :=
  fst <$> predicates_match m fresh (mkMatch pr.2 pr.1 0 0 0 0).
Definition value (pr : Z * bytes) : predicateResult :=
  match pvalue pr with Ok v => v | _ => predicateMiss end.

Definition preds_value (preds : list (Z * bytes)) : predicateResult :=
  fold_right (fun pr v => pmax (value pr) v) predicateMiss preds.
Definition clause_value (c : clause) : predicateResult :=
  let v := preds_value (cl_preds c) in if cl_not c then pneg v else v.
Definition clauses_value (cs : list clause) : predicateResult :=
  fold_right (fun c v => pmin (clause_value c) v) predicateMatch cs.

(** What rules accumulate: [must], the flow bump and the captures. *)
Record control := mkControl { r_must : predicateResult; r_bump : bool; r_capture : Z }.

Inductive outcome :=
| Stop (r : res routingEvaluation)
| Continue (c : control).

(** The action of a rule that is not missed. *)
Definition act (tail : bpfMatchSet) (uncertain : bool) (c : control) : outcome :=
  match apply_action m p tail (mkState fresh predicateMiss (r_must c) uncertain (r_bump c) 0 (r_capture c)) with
  | Ok (Return e) => Stop (Ok e)
  | Ok (Advance _ s) => Continue (mkControl (must s) (flowBump s) (captureFlags s))
  | Err e => Stop (Err e)
  | Panic => Stop Panic
  end.

Definition is_unknown (v : predicateResult) : bool := bool_decide (v = predicateUnknown).

Fixpoint run_item (uncertain : bool) (it : item) (c : control) : outcome :=
  match it with
  | Rule cs tail =>
    match clauses_value cs with
    | predicateMiss => Continue c
    | v => act tail (uncertain || is_unknown v) c
    end
  | Block cs body =>
    match clauses_value cs with
    | predicateMiss => Continue c
    | v =>
      (fix go items c :=
         match items with
         | [] => Continue c
         | it :: items =>
           match run_item (uncertain || is_unknown v) it c with
           | Stop r => Stop r
           | Continue c => go items c
           end
         end) body c
    end
  end.

Fixpoint run_items (uncertain : bool) (items : list item) (c : control) : outcome :=
  match items with
  | [] => Continue c
  | it :: items =>
    match run_item uncertain it c with
    | Stop r => Stop r
    | Continue c => run_items uncertain items c
    end
  end.

(** A program is its items; running off the end is an error. *)
Definition run_program (items : list item) : res routingEvaluation :=
  match run_items false items (mkControl predicateMiss false 0) with
  | Stop r => r
  | Continue _ => Err "no match set hit"
  end.
End Meaning.

Lemma emit_item_block cs body :
  emit_item (Block cs body) =
  emit_clauses cs (jump_tail (length (emit_items body))) (length (emit_items body)) ++ emit_items body.
Proof.
  assert (Hgo : forall body, (fix go items := match items with [] => [] | it :: items => emit_item it ++ go items end) body
    = emit_items body) by (intros l; induction l as [|it l IH]; [done|cbn; by rewrite <-IH]).
  cbn [emit_item]. by rewrite Hgo.
Qed.

Lemma item_wf_block cs body : item_wf (Block cs body) <-> clauses_wf cs /\ items_wf body.
Proof.
  cbn [item_wf]. assert (Hgo : forall body,
    (fix go items := match items with [] => True | it :: items => item_wf it /\ go items end) body <-> items_wf body)
    by (intros l; induction l as [|it l IH]; [done|cbn; by rewrite <-IH]).
  by rewrite Hgo.
Qed.

Lemma run_item_block m p u cs body c :
  run_item m p u (Block cs body) c =
  match clauses_value m p cs with
  | predicateMiss => Continue c
  | v => run_items m p (u || is_unknown v) body c
  end.
Proof.
  assert (Hgo : forall u body c, (fix go items c :=
     match items with
     | [] => Continue c
     | it :: items => match run_item m p u it c with Stop r => Stop r | Continue c => go items c end
     end) body c = run_items m p u body c).
  { intros u' l. induction l as [|it l IH]; intros c'; [done|]. cbn. destruct (run_item m p u' it c'); [done|]. apply IH. }
  cbn [run_item]. destruct (clauses_value m p cs); [done|apply Hgo..].
Qed.

(** ** Predicate caches do not change predicate values *)

Section Sem.
Context (m : RoutingMatcher) (p : routingInput).

Definition allowed : bool :=
  match httpClientAllowed m with None => true | Some f => f (ap_addr (src p)) (mac p) end.

(** The caches hold what a first use would load. *)
Definition cache_ok (ps : routingPredicates) : Prop :=
  ipVersion ps = IpVersionFromAddr (ap_addr (dst p)) /\
  (httpClientChecked ps = true -> httpClientResult ps = allowed) /\
  (if domainLoaded ps then input <$> load_domain m (fresh p) = Some (input ps) else input ps = p).

Lemma fresh_ok : cache_ok (fresh p).
Proof. done. Qed.

(** Fields other than the domain bitmap are those of the request. *)
Definition same_request (i : routingInput) : Prop :=
  i = with_domainBitmap p (domainBitmap i).

Lemma with_domainBitmap_self i : i = with_domainBitmap i (domainBitmap i).
Proof. by destruct i. Qed.

Lemma load_domain_fresh_request ps : load_domain m (fresh p) = Some ps -> same_request (input ps).
Proof.
  unfold load_domain, same_request. cbn. destruct (domainBitmap p) eqn:E; [|case_bool_decide].
  - intros [= <-]. cbn. rewrite E. rewrite <-E. apply with_domainBitmap_self.
  - intros [= <-]. cbn. apply with_domainBitmap_self.
  - destruct (domainMatcher m (domain p)); [|done]. by intros [= <-].
Qed.

Lemma cache_same_request ps : cache_ok ps -> same_request (input ps).
Proof.
  intros (_ & _ & Hd). destruct (domainLoaded ps).
  - destruct (load_domain m (fresh p)) as [ps'|] eqn:E; [|done]. injection Hd as <-. by apply load_domain_fresh_request.
  - rewrite Hd. apply with_domainBitmap_self.
Qed.

Lemma load_http_ok ps : cache_ok ps -> cache_ok (load_http m ps) /\ httpClientResult (load_http m ps) = allowed.
Proof.
  intros Hc. pose proof (cache_same_request ps Hc) as Hs. destruct Hc as (Hi & Hh & Hd). unfold load_http.
  destruct (httpClientChecked ps) eqn:E; [split; [split; [done|]; split; [by intros _; apply Hh|done]|by apply Hh]|].
  assert (Hr : match httpClientAllowed m with
    | Some f => f (ap_addr (src (input ps))) (mac (input ps)) | None => true end = allowed)
    by (unfold allowed; by rewrite Hs).
  split; [|done]. split; [done|]. split; [by intros _|]. done.
Qed.

Lemma load_domain_ok ps : cache_ok ps ->
  match load_domain m (fresh p), load_domain m ps with
  | Some f, Some ps' => cache_ok ps' /\ input ps' = input f
  | None, None => True
  | _, _ => False
  end.
Proof.
  intros Hc. pose proof Hc as (Hi & Hh & Hd). destruct (domainLoaded ps) eqn:E.
  - assert (load_domain m ps = Some ps) as -> by (unfold load_domain; by rewrite E).
    destruct (load_domain m (fresh p)) as [f|] eqn:Ef; [|done]. injection Hd as Hd. split; [done|]. by rewrite Hd.
  - unfold cache_ok, load_domain. rewrite E, Hd. cbn [fresh predicates initial_state domainLoaded input].
    destruct (match domainBitmap p with Some _ => _ | None => _ end) as [i|] eqn:Ei; [|done].
    done.
Qed.

Definition pred_of (mt : bpfMatchSet) : Z * bytes := (Type_ mt, Value mt).

Lemma predicates_match_value ps mt : cache_ok ps ->
  match pvalue m p (pred_of mt) with
  | Ok v => exists ps', predicates_match m ps mt = Ok (v, ps') /\ cache_ok ps'
  | Err e => predicates_match m ps mt = Err e
  | Panic => predicates_match m ps mt = Panic
  end.
Proof.
  intros Hc. pose proof (cache_same_request ps Hc) as Hs. pose proof (load_domain_ok ps Hc) as Hld.
  pose proof (load_http_ok ps Hc) as [Hlh Hlr]. pose proof (load_http_ok _ fresh_ok) as [_ Hfr].
  pose proof Hc as (Hi & _ & _). unfold pvalue, predicates_match, pred_of. cbn [fst snd Type_ Value].
  assert (Hkey : lpmKey ps (Type_ mt) = lpmKey (fresh p) (Type_ mt)) by (unfold lpmKey; by rewrite Hs).
  destruct (Type_ mt =? MatchType_HTTPClient)%Z; [cbn -[load_http fresh]; rewrite Hfr; exists (load_http m ps); by rewrite Hlr|].
  destruct (_ || _).
  { rewrite Hkey. destruct (lpmMatcher m !! _) as [t|]; [|done]. cbn.
    destruct (HasPrefixIP t _); [|done]. by exists ps. }
  destruct (Type_ mt =? MatchType_DomainSet)%Z.
  { destruct (load_domain m (fresh p)) as [f|], (load_domain m ps) as [ps'|]; try done. cbn.
    destruct Hld as [Hc' ->]. destruct (bitmap_has _ _); [by exists ps'|]. destruct (bitmap_has _ _); by exists ps'. }
  rewrite Hs, Hi. change (input (fresh p)) with p. cbn [ipVersion fresh predicates initial_state].
  repeat (destruct (_ =? _)%Z; [by exists ps|]). done.
Qed.

(** ** Running a program *)

(** Every predicate has a value on this request. *)
Definition total (pr : Z * bytes) : Prop := exists v, pvalue m p pr = Ok v.

Lemma eval_clause_value s mt :
  cache_ok (predicates s) -> total (pred_of mt) ->
  exists ps, eval_clause m s mt = Ok (pmax (subrule s) (value m p (pred_of mt)), ps) /\ cache_ok ps.
Proof.
  intros Hc [v Hv]. unfold eval_clause, value. rewrite Hv. destruct (is_match (subrule s)) eqn:E.
  - apply bool_decide_eq_true in E. rewrite E. by exists (predicates s).
  - pose proof (predicates_match_value _ mt Hc) as Hm. rewrite Hv in Hm. destruct Hm as (ps & -> & Hps). by exists ps.
Qed.

Context (prog : list bpfMatchSet).

Definition run (position : nat) (s : evalState) : res routingEvaluation :=
  prog_loop (S (length prog - position)) m prog p position s.

Context (Hprog : Forall (fun mt => (0 <= Mark mt)%Z /\ total (pred_of mt)) prog).

Lemma prog_lookup position mt : prog !! position = Some mt -> (0 <= Mark mt)%Z /\ total (pred_of mt).
Proof using Hprog. apply (Forall_lookup_1 _ _ _ _ Hprog). Qed.

Lemma prog_loop_enough f f' position s :
  length prog - position < f -> length prog - position < f' ->
  prog_loop f m prog p position s = prog_loop f' m prog p position s.
Proof using Hprog.
  revert f' position s. induction f as [|f IH]; intros f' position s Hf Hf'; [lia|]. destruct f' as [|f']; [lia|].
  cbn [prog_loop]. destruct (prog !! position) as [mt|] eqn:Em; [|done].
  destruct (eval_step m p position (length prog) mt s) as [[e|d s']| |] eqn:Es; try done. cbn [mbind res_bind].
  pose proof (eval_step_distance _ _ _ _ _ _ _ _ (proj1 (prog_lookup _ _ Em)) Es).
  destruct (_ || _) eqn:E; [done|]. apply orb_false_iff in E as [E1 E2]. apply Z.eqb_neq in E1. apply Z.ltb_ge in E2.
  apply IH; lia.
Qed.

Lemma run_advance position s mt d s' :
  prog !! position = Some mt -> eval_step m p position (length prog) mt s = Ok (Advance d s') ->
  (1 <= d <= Z.of_nat (length prog - position))%Z -> run position s = run (position + Z.to_nat d) s'.
Proof using Hprog.
  intros Hm Hs Hd. unfold run at 1. cbn [prog_loop]. rewrite Hm, Hs. cbn [mbind res_bind].
  destruct (Z.eqb_spec d 0); [lia|]. destruct (Z.ltb_spec (Z.of_nat (length prog - position)) d); [lia|]. cbn [orb].
  apply prog_loop_enough; lia.
Qed.

Lemma run_stop position s mt :
  prog !! position = Some mt ->
  match eval_step m p position (length prog) mt s with
  | Ok (Return e) => run position s = Ok e
  | Ok (Advance _ _) => True
  | Err e => run position s = Err e
  | Panic => run position s = Panic
  end.
Proof.
  intros Hm. unfold run. cbn [prog_loop]. rewrite Hm.
  destruct (eval_step m p position (length prog) mt s) as [[e|d s']| |]; done.
Qed.

(** The instructions [l] are at [position]. *)
Definition code_at (position : nat) (l : list bpfMatchSet) : Prop :=
  forall i mt, l !! i = Some mt -> prog !! (position + i) = Some mt.

Lemma code_at_app position a b :
  code_at position (a ++ b) -> code_at position a /\ code_at (position + length a) b.
Proof.
  intros H. split.
  - intros i mt Hi. apply H. by apply lookup_app_l_Some.
  - intros i mt Hi. rewrite <-Nat.add_assoc. apply H. rewrite lookup_app_r by lia. by replace (_ + i - _) with i by lia.
Qed.

Lemma code_at_cons position x l : code_at position (x :: l) -> prog !! position = Some x /\ code_at (S position) l.
Proof.
  intros H. split; [rewrite <-(Nat.add_0_r position); by apply H|].
  intros i mt Hi. rewrite Nat.add_succ_comm. by apply H.
Qed.

Lemma code_at_length position l : code_at position l -> l <> [] -> position + length l <= length prog.
Proof.
  intros H Hne. destruct (exists_last Hne) as (l' & x & ->). rewrite length_app. cbn.
  specialize (H (length l') x). rewrite lookup_app_r, Nat.sub_diag in H by lia.
  specialize (H eq_refl). apply lookup_lt_Some in H. lia.
Qed.

(** [s] with other caches, clause accumulator, rule certainty and scope end. *)
Definition moved (s : evalState) (ps : routingPredicates) (sub : predicateResult) (unknown : bool) (until : nat) : evalState :=
  mkState ps sub (must s) unknown (flowBump s) until (captureFlags s).

Lemma emit_preds_cons flags pr pr' preds tail :
  emit_preds flags (pr :: pr' :: preds) tail =
  mkMatch pr.2 pr.1 MatchActionOr flags 0 (Z.of_nat (length (pr' :: preds))) :: emit_preds flags (pr' :: preds) tail.
Proof. done. Qed.

Lemma length_emit_preds flags preds tail : length (emit_preds flags preds tail) = length preds.
Proof. induction preds as [|pr [|pr' preds] IH]; [done|done|]. rewrite emit_preds_cons. cbn [length] in *. by rewrite IH. Qed.

(** Up to the tail of a clause. *)
Lemma run_preds flags preds tail position s :
  preds <> [] -> code_at position (emit_preds flags preds tail) -> cache_ok (predicates s) ->
  exists pr ps sub, prog !! (position + length preds - 1) = Some (tail pr) /\
    run position s = run (position + length preds - 1) (moved s ps sub (ruleUnknown s) (uncertainUntil s)) /\
    cache_ok ps /\ pmax sub (value m p pr) = pmax (subrule s) (preds_value m p preds).
Proof using Hprog.
  revert position s. induction preds as [|pr [|pr' preds] IH]; intros position s Hne Hat Hc; [done| |].
  - exists pr, (predicates s), (subrule s). apply code_at_cons in Hat as [Hx _].
    cbn [length]. rewrite Nat.add_sub. split; [done|]. split; [by destruct s|]. split; [done|].
    cbn. by destruct (value m p pr).
  - rewrite emit_preds_cons in Hat. pose proof (code_at_length _ _ Hat ltac:(done)) as Hlen.
    cbn [length] in Hlen. rewrite length_emit_preds in Hlen. cbn [length] in Hlen.
    apply code_at_cons in Hat as [Hx Hat]. pose proof (prog_lookup _ _ Hx) as [_ Ht]. destruct pr as [t v].
    destruct (eval_clause_value s _ Hc Ht) as (ps & Hev & Hps). unfold pred_of in Hev. cbn [Type_ Value fst snd] in Hev.
    set (sub := pmax (subrule s) (value m p (t, v))) in *.
    destruct (IH (S position) (moved s ps sub (ruleUnknown s) (uncertainUntil s)))
      as (pr2 & ps2 & sub2 & Htail & Hrun & Hc2 & Hv); [done..|].
    replace (S position + length (pr' :: preds) - 1) with (position + length ((t, v) :: pr' :: preds) - 1) in Htail, Hrun by (cbn; lia).
    assert (Hstep : eval_step m p position (length prog) (mkMatch v t MatchActionOr flags 0 (Z.of_nat (length (pr' :: preds)))) s =
      Ok (Advance (if is_match sub then Z.of_nat (length (pr' :: preds)) else 1)
        (moved s ps sub (ruleUnknown s) (uncertainUntil s)))).
    { unfold eval_step. by rewrite Hev. }
    assert (Hval : pmax sub (preds_value m p (pr' :: preds)) = pmax (subrule s) (preds_value m p ((t, v) :: pr' :: preds))).
    { cbn [preds_value fold_right]. unfold sub.
      destruct (subrule s), (value m p (t, v)), (pmax (value m p pr') _); done. }
    destruct (is_match sub) eqn:E.
    + apply bool_decide_eq_true in E. rewrite E in *.
      exists pr2, ps, predicateMatch. split; [done|]. split; [|split; [done|]].
      * rewrite (run_advance position s _ _ _ Hx Hstep) by (cbn [length]; lia). f_equal. cbn [length]. lia.
      * by rewrite <-Hval.
    + exists pr2, ps2, sub2. split; [done|]. split; [|split; [done|]].
      * rewrite (run_advance position s _ _ _ Hx Hstep) by lia. change (Z.to_nat 1) with 1. by rewrite Nat.add_1_r.
      * by rewrite Hv.
Qed.

(** The tail of a construct followed by [after] instructions of its body. *)
Definition tail_skips (tail : bpfMatchSet) (after : nat) : Prop :=
  has_flag (Flags tail) matchFlagNot = false /\
  ((is_jump (Action tail) = false /\ after = 0) \/
   (Action tail = MatchActionConditionalJump /\ Mark tail = Z.of_nat (S after))).

Lemma not_flag_tail c tail after pr :
  tail_skips tail after -> has_flag (Flags (tail_instr (not_flag c) tail pr)) matchFlagNot = cl_not c.
Proof.
  intros [Hn _]. cbn [tail_instr Flags]. unfold has_flag in *. rewrite Z.land_lor_distr_l.
  apply negb_false_iff, Z.eqb_eq in Hn. rewrite Hn, Z.lor_0_r. unfold not_flag. by destruct (cl_not c).
Qed.

Lemma tail_not_or tail after : tail_skips tail after ->
  (Action tail =? MatchActionOr)%Z = false /\ (Action tail =? MatchActionAnd)%Z = false.
Proof.
  intros [_ [[H _]|[-> _]]]; [|done]. unfold is_jump in H. by destruct (Action tail =? MatchActionOr)%Z, (Action tail =? MatchActionAnd)%Z.
Qed.

(** A clause tail that is missed: past the construct, with a fresh rule. *)
Lemma missed_distance tail after : tail_skips tail after ->
  (if (Action tail =? MatchActionAnd)%Z || (Action tail =? MatchActionConditionalJump)%Z then Mark tail else 1%Z) = Z.of_nat (S after).
Proof.
  intros Hs. destruct (tail_not_or _ _ Hs) as [_ ->]. destruct Hs as [_ [[H ->]|[-> ->]]]; [|done].
  unfold is_jump in H. by destruct (Action tail =? MatchActionOr)%Z, (Action tail =? MatchActionAnd)%Z, (Action tail =? MatchActionConditionalJump)%Z.
Qed.

Definition clause_of (mt : bpfMatchSet) (sub : predicateResult) : predicateResult :=
  if has_flag (Flags mt) matchFlagNot then pneg sub else sub.

Lemma eval_step_tail position len mt s sub ps :
  (Action mt =? MatchActionOr)%Z = false -> eval_clause m s mt = Ok (sub, ps) ->
  clause_of mt sub = predicateMiss ->
  eval_step m p position len mt s =
  Ok (Advance (if (Action mt =? MatchActionAnd)%Z || (Action mt =? MatchActionConditionalJump)%Z then Mark mt else 1)
        (moved s ps predicateMiss false (uncertainUntil s))).
Proof. intros Ha He Hc. unfold eval_step. rewrite He. cbn [mbind res_bind]. rewrite Ha. unfold clause_of in Hc. by rewrite Hc. Qed.

Lemma eval_step_and position len mt s sub ps :
  Action mt = MatchActionAnd -> eval_clause m s mt = Ok (sub, ps) -> clause_of mt sub <> predicateMiss ->
  eval_step m p position len mt s =
  Ok (Advance 1 (moved s ps predicateMiss (ruleUnknown s || is_unknown (clause_of mt sub)) (uncertainUntil s))).
Proof.
  intros Ha He Hc. unfold eval_step. rewrite He, Ha. cbn [mbind res_bind]. change (MatchActionAnd =? MatchActionOr)%Z with false.
  unfold clause_of in Hc. cbv iota. by rewrite bool_decide_eq_false_2.
Qed.

(** The predicates of one clause up to its tail instruction. *)
Lemma run_clause c tail position s :
  cl_preds c <> [] -> (forall pr, pred_of (tail pr) = pr) -> (forall pr, has_flag (Flags (tail pr)) matchFlagNot = cl_not c) ->
  code_at position (emit_preds (not_flag c) (cl_preds c) tail) -> cache_ok (predicates s) -> subrule s = predicateMiss ->
  exists mt ps s' sub, (exists pr, mt = tail pr) /\ prog !! (position + length (cl_preds c) - 1) = Some mt /\
    run position s = run (position + length (cl_preds c) - 1) s' /\
    (exists ps' sub', s' = moved s ps' sub' (ruleUnknown s) (uncertainUntil s)) /\
    eval_clause m s' mt = Ok (sub, ps) /\ cache_ok ps /\ clause_of mt sub = clause_value m p c.
Proof using Hprog.
  intros Hne Htp Hnot Hat Hc Hsub.
  destruct (run_preds _ _ _ _ s Hne Hat Hc) as (pr & ps & sub & Hmt & Hrun & Hps & Hv).
  destruct (eval_clause_value (moved s ps sub (ruleUnknown s) (uncertainUntil s)) (tail pr) Hps) as (ps' & Hev & Hps').
  { apply (prog_lookup _ _ Hmt). }
  rewrite Htp in Hev. cbn [subrule moved] in Hev. rewrite Hv, Hsub in Hev.
  exists (tail pr), ps', (moved s ps sub (ruleUnknown s) (uncertainUntil s)), (preds_value m p (cl_preds c)).
  split; [by exists pr|]. split; [done|]. split; [done|]. split; [by exists ps, sub|]. split; [|split; [done|]].
  - rewrite Hev. by destruct (preds_value m p (cl_preds c)).
  - unfold clause_of, clause_value. by rewrite Hnot.
Qed.

Lemma tail_pred flags tail pr : pred_of (tail_instr flags tail pr) = pr.
Proof. by destruct pr. Qed.
Lemma and_pred flags d pr : pred_of (and_instr flags d pr) = pr.
Proof. by destruct pr. Qed.

Lemma emit_clauses_cons c c' cs tail after :
  emit_clauses (c :: c' :: cs) tail after =
  emit_preds (not_flag c) (cl_preds c) (and_instr (not_flag c) (Z.of_nat (S (length (emit_clauses (c' :: cs) tail after) + after))))
  ++ emit_clauses (c' :: cs) tail after.
Proof. done. Qed.

Lemma not_flag_and c d pr : has_flag (Flags (and_instr (not_flag c) d pr)) matchFlagNot = cl_not c.
Proof. cbn. unfold not_flag, has_flag. by destruct (cl_not c). Qed.

(** Having reached the tail of a construct whose clauses have the value [v]. *)
Definition at_tail (tail : bpfMatchSet) (position end_ : nat) (s : evalState) (v : predicateResult) : Prop :=
  exists c pr ps s' sub,
    let mt := tail_instr (not_flag c) tail pr in
    prog !! (end_ - 1) = Some mt /\ position < end_ /\ run position s = run (end_ - 1) s' /\
    (exists ps' sub' u, s' = moved s ps' sub' u (uncertainUntil s)) /\
    eval_clause m s' mt = Ok (sub, ps) /\ cache_ok ps /\ clause_of mt sub <> predicateMiss /\
    ruleUnknown s' || is_unknown (clause_of mt sub) = ruleUnknown s || is_unknown v.

Lemma at_tail_later tail position position' end_ s ps u v v' :
  position <= position' -> run position s = run position' (moved s ps predicateMiss u (uncertainUntil s)) ->
  u || is_unknown v = ruleUnknown s || is_unknown v' ->
  at_tail tail position' end_ (moved s ps predicateMiss u (uncertainUntil s)) v -> at_tail tail position end_ s v'.
Proof.
  intros Hle Hrun Hu (c & pr & ps1 & s1 & sub & Hmt & Hlt & Hrun1 & (ps2 & sub2 & u2 & ->) & Hev & Hps & Hcl & Hun).
  exists c, pr, ps1, (moved s ps2 sub2 u2 (uncertainUntil s)), sub. cbn [moved ruleUnknown] in *.
  split; [done|]. split; [lia|]. split; [by rewrite Hrun|]. split; [by eexists _, _, _|].
  split; [done|]. split; [done|]. split; [done|]. by rewrite Hun.
Qed.

(** A list of clauses: past the construct when one is missed, else at its tail. *)
Lemma run_clauses cs tail after position s :
  clauses_wf cs -> tail_skips tail after -> code_at position (emit_clauses cs tail after) ->
  position + length (emit_clauses cs tail after) + after <= length prog ->
  cache_ok (predicates s) -> subrule s = predicateMiss ->
  let end_ := position + length (emit_clauses cs tail after) in
  match clauses_value m p cs with
  | predicateMiss => exists ps, cache_ok ps /\
      run position s = run (end_ + after) (moved s ps predicateMiss false (uncertainUntil s))
  | v => at_tail tail position end_ s v
  end.
Proof using Hprog.
  intros [Hne Hwf] Htail. revert position s. induction Hwf as [|c cs Hp Hwf IH]; intros position s Hat Hfit Hc Hsub; [done|].
  assert (0 < length (cl_preds c)) by (destruct (cl_preds c); [done|cbn; lia]). destruct cs as [|c' cs].
  - cbn [emit_clauses] in Hat, Hfit |- *. rewrite length_emit_preds in *.
    destruct (run_clause c _ _ s Hp (tail_pred _ _) (fun pr => not_flag_tail c tail after pr Htail) Hat Hc Hsub)
      as (mt & ps & s' & sub & (pr & ->) & Hmt & Hrun & (ps' & sub' & ->) & Hev & Hps & Hcl).
    assert (clauses_value m p [c] = clause_value m p c) as -> by (cbn; by destruct (clause_value m p c)).
    destruct (decide (clause_value m p c = predicateMiss)) as [Ev|Ev].
    + rewrite Ev in Hcl |- *. exists ps. split; [done|]. rewrite Hrun. destruct (tail_not_or _ _ Htail) as [Hor _].
      pose proof (eval_step_tail (position + length (cl_preds c) - 1) (length prog) (tail_instr (not_flag c) tail pr) _ _ _ Hor Hev Hcl) as Hstep.
      cbn [tail_instr Action Mark] in Hstep. rewrite (missed_distance _ _ Htail) in Hstep.
      rewrite (run_advance _ _ _ _ _ Hmt Hstep) by lia. cbn [moved uncertainUntil]. f_equal. lia.
    + assert (at_tail tail position (position + length (cl_preds c)) s (clause_value m p c)).
      { exists c, pr, ps, (moved s ps' sub' (ruleUnknown s) (uncertainUntil s)), sub.
        split; [exact Hmt|]. split; [lia|]. split; [done|]. split; [by eexists _, _, _|].
        split; [done|]. split; [done|]. by rewrite Hcl. }
      by destruct (clause_value m p c).
  - rewrite emit_clauses_cons in Hat, Hfit |- *. rewrite length_app, length_emit_preds in *.
    set (rest := emit_clauses (c' :: cs) tail after) in *. apply code_at_app in Hat as [Hat1 Hat2].
    rewrite length_emit_preds in Hat2.
    destruct (run_clause c _ _ s Hp (and_pred _ _) (not_flag_and c _) Hat1 Hc Hsub)
      as (mt & ps & s' & sub & (pr & ->) & Hmt & Hrun & (ps' & sub' & ->) & Hev & Hps & Hcl).
    set (mt := and_instr _ _ pr) in *.
    change (clauses_value m p (c :: c' :: cs)) with (pmin (clause_value m p c) (clauses_value m p (c' :: cs))).
    destruct (decide (clause_value m p c = predicateMiss)) as [Ev|Ev].
    + rewrite Ev in Hcl |- *. exists ps. split; [done|]. rewrite Hrun.
      pose proof (eval_step_tail (position + length (cl_preds c) - 1) (length prog) mt _ _ _ eq_refl Hev Hcl) as Hstep.
      rewrite (run_advance _ _ _ _ _ Hmt Hstep) by (unfold mt; cbn [and_instr Action Mark]; change (_ || _) with true; cbv iota; lia). cbn [moved uncertainUntil]. f_equal. unfold mt; cbn [and_instr Action Mark]; change (_ || _) with true; cbv iota; lia.
    + rewrite <-Hcl in Ev. pose proof (eval_step_and (position + length (cl_preds c) - 1) (length prog) mt _ _ _ eq_refl Hev Ev) as Hstep.
      rewrite Hcl in Ev, Hstep. cbn [moved ruleUnknown uncertainUntil] in Hstep.
      rewrite (run_advance _ _ _ _ _ Hmt Hstep) in Hrun by lia.
      replace (position + length (cl_preds c) - 1 + Z.to_nat 1) with (position + length (cl_preds c)) in Hrun by lia.
      specialize (IH ltac:(done) (position + length (cl_preds c))
        (moved s ps predicateMiss (ruleUnknown s || is_unknown (clause_value m p c)) (uncertainUntil s)) Hat2 ltac:(lia) Hps eq_refl).
      cbv zeta in IH |- *. rewrite Nat.add_assoc.
      destruct (clauses_value m p (c' :: cs)) eqn:Erest.
      * destruct (clause_value m p c); [done| |]; destruct IH as (ps2 & Hps2 & Hr2);
          (exists ps2; split; [done|]; by rewrite Hrun).
      * destruct (clause_value m p c); [done| |]; (eapply at_tail_later; [|exact Hrun| |exact IH]; [lia|]);
          destruct (ruleUnknown s); done.
      * destruct (clause_value m p c); [done| |]; (eapply at_tail_later; [|exact Hrun| |exact IH]; [lia|]);
          destruct (ruleUnknown s); done.
Qed.

(** *** Actions *)

Lemma tail_flags c f :
  (forall x, x ∈ [matchFlagMust; matchFlagSkipNoalive; matchFlagBypass] -> has_flag (Z.lor (not_flag c) f) x = has_flag f x) /\
  Z.land (shr (Z.lor (not_flag c) f) matchCaptureShift) 7 = Z.land (shr f matchCaptureShift) 7.
Proof.
  split.
  - intros x Hx. rewrite has_flag_lor. unfold not_flag.
    rewrite !elem_of_cons, elem_of_nil in Hx. destruct (cl_not c); destruct Hx as [->|[->|[->|[]]]]; done.
  - unfold shr. rewrite Z.shiftr_lor, Z.land_lor_distr_l. unfold not_flag. by destruct (cl_not c).
Qed.

Lemma apply_action_tail c tail pr s ps u until :
  cache_ok ps ->
  apply_action m p (tail_instr (not_flag c) tail pr) (moved s ps predicateMiss u until) =
  match apply_action m p tail (mkState (fresh p) predicateMiss (must s) u (flowBump s) 0 (captureFlags s)) with
  | Ok (Advance _ s') => Ok (Advance 1 (moved s' ps predicateMiss false until))
  | r => r
  end.
Proof.
  intros (Hip & _). destruct (tail_flags c (Flags tail)) as [Hf Hcap].
  assert (Hs : ipVersion (predicates (moved s ps predicateMiss u until)) = ipVersion (fresh p)) by done.
  unfold apply_action. cbn [tail_instr Action Flags Outbound_ Mark]. rewrite Hcap, !Hf by set_solver.
  rewrite Hs. cbn [moved predicates subrule must ruleUnknown flowBump uncertainUntil captureFlags].
  repeat (match goal with |- context [if ?b then _ else _] => destruct b end; try done).
Qed.

Lemma eval_step_action position len mt s sub ps :
  is_jump (Action mt) = false -> eval_clause m s mt = Ok (sub, ps) -> clause_of mt sub <> predicateMiss ->
  eval_step m p position len mt s =
  apply_action m p mt (moved s ps predicateMiss
    (ruleUnknown s || is_unknown (clause_of mt sub) || (position <? uncertainUntil s)) (uncertainUntil s)).
Proof.
  intros Ha He Hc. unfold eval_step. rewrite He. cbn [mbind res_bind]. unfold is_jump in Ha.
  apply orb_false_iff in Ha as [Ha Hcj]. apply orb_false_iff in Ha as [Hor Hand]. rewrite Hor, Hand, Hcj.
  unfold clause_of in *. by rewrite bool_decide_eq_false_2.
Qed.

Lemma eval_step_jump position len mt s sub ps :
  Action mt = MatchActionConditionalJump -> (0 < Mark mt <= Z.of_nat (len - position))%Z ->
  eval_clause m s mt = Ok (sub, ps) -> clause_of mt sub <> predicateMiss ->
  eval_step m p position len mt s =
  Ok (Advance 1 (moved s ps predicateMiss false
    (if ruleUnknown s || is_unknown (clause_of mt sub)
     then Nat.max (uncertainUntil s) (position + Z.to_nat (Mark mt)) else uncertainUntil s))).
Proof.
  intros Ha Hm He Hc. unfold eval_step. rewrite He, Ha. cbn [mbind res_bind].
  change (MatchActionConditionalJump =? MatchActionOr)%Z with false.
  change (MatchActionConditionalJump =? MatchActionAnd)%Z with false.
  change (MatchActionConditionalJump =? MatchActionConditionalJump)%Z with true. cbv iota.
  unfold clause_of in *. rewrite bool_decide_eq_false_2 by done.
  destruct (Z.eqb_spec (Mark mt) 0); [lia|]. destruct (Z.ltb_spec (Z.of_nat (len - position)) (Mark mt)); [lia|]. done.
Qed.

(** ** Items *)

(** Between rules. *)
Definition ready (s : evalState) : Prop :=
  cache_ok (predicates s) /\ subrule s = predicateMiss /\ ruleUnknown s = false.

Definition control_of (s : evalState) : control := mkControl (must s) (flowBump s) (captureFlags s).

(** The single register [uncertainUntil] tells whether [position .. end_) is
    inside an ambiguous block. *)
Definition scoped (uncertain : bool) (s : evalState) (position end_ : nat) : Prop :=
  if uncertain then end_ <= uncertainUntil s else uncertainUntil s <= position.

Definition reaches (uncertain : bool) (position end_ : nat) (s : evalState) (o : outcome) : Prop :=
  match o with
  | Stop r => run position s = r
  | Continue c => exists s', run position s = run end_ s' /\ ready s' /\ control_of s' = c /\
      if uncertain then uncertainUntil s' = uncertainUntil s else uncertainUntil s' <= end_
  end.

Lemma reaches_rule uncertain cs tail position s :
  clauses_wf cs -> tail_wf tail -> code_at position (emit_item (Rule cs tail)) ->
  position + length (emit_item (Rule cs tail)) <= length prog -> ready s ->
  scoped uncertain s position (position + length (emit_item (Rule cs tail))) ->
  reaches uncertain position (position + length (emit_item (Rule cs tail))) s
    (run_item m p uncertain (Rule cs tail) (control_of s)).
Proof using Hprog.
  intros Hcs (Hj & Hn & _) Hat Hfit (Hc & Hsub & Hun) Hscope. cbn [emit_item run_item] in *.
  assert (Hts : tail_skips tail 0) by (split; [done|]; by left).
  pose proof (run_clauses cs tail 0 position s Hcs Hts Hat ltac:(lia) Hc Hsub) as Hrun. cbv zeta in Hrun.
  set (end_ := position + length (emit_clauses cs tail 0)) in *.
  assert (Htail : forall v, at_tail tail position end_ s v ->
    reaches uncertain position end_ s (act m p tail (uncertain || is_unknown v) (control_of s))).
  { intros v (c & pr & ps & s' & sub & Hmt & Hlt & Hr & (ps' & sub' & u & ->) & Hev & Hps & Hcl & Hu).
    pose proof (eval_step_action (end_ - 1) (length prog) (tail_instr (not_flag c) tail pr) _ _ _ Hj Hev Hcl) as Hstep.
    rewrite Hu, Hun in Hstep. cbn [orb moved uncertainUntil] in Hstep.
    replace (is_unknown v || (end_ - 1 <? uncertainUntil s)) with (uncertain || is_unknown v) in Hstep.
    2: { destruct (Nat.ltb_spec (end_ - 1) (uncertainUntil s)), uncertain, (is_unknown v); cbn in Hscope; done || lia. }
    rewrite (apply_action_tail c tail pr) in Hstep by done.
    cbn [moved must flowBump captureFlags] in Hstep. unfold act, control_of. cbn [r_must r_bump r_capture].
    pose proof (run_stop _ (moved s ps' sub' u (uncertainUntil s)) _ Hmt) as Hstop. rewrite Hstep in Hstop.
    destruct (apply_action m p tail _) as [[e|d s2]| |]; cbn [reaches]; [by rewrite Hr| |by rewrite Hr|by rewrite Hr].
    exists (moved s2 ps predicateMiss false (uncertainUntil s)). split; [|split; [done|split; [done|]]].
    - rewrite Hr, (run_advance _ _ _ _ _ Hmt Hstep) by lia. f_equal. lia.
    - destruct uncertain; [done|]. cbn in Hscope |- *. lia. }
  destruct (clauses_value m p cs) eqn:Ev; [|by apply Htail..].
  destruct Hrun as (ps & Hps & Hr). rewrite Nat.add_0_r in Hr. eexists. split; [exact Hr|]. split; [done|]. split; [done|].
  destruct uncertain; [done|]. cbn in Hscope |- *. lia.
Qed.

Definition item_reaches (it : item) : Prop := forall uncertain position s,
  item_wf it -> code_at position (emit_item it) -> position + length (emit_item it) <= length prog -> ready s ->
  scoped uncertain s position (position + length (emit_item it)) ->
  reaches uncertain position (position + length (emit_item it)) s (run_item m p uncertain it (control_of s)).

Lemma reaches_items items uncertain position s :
  Forall item_reaches items -> items_wf items -> code_at position (emit_items items) ->
  position + length (emit_items items) <= length prog -> ready s ->
  scoped uncertain s position (position + length (emit_items items)) ->
  reaches uncertain position (position + length (emit_items items)) s (run_items m p uncertain items (control_of s)).
Proof.
  intros Hits. revert position s. induction Hits as [|it items Hit Hits IH]; intros position s Hwf Hat Hfit Hr Hsc.
  { cbn. exists s. rewrite Nat.add_0_r. split; [done|]. split; [done|]. split; [done|]. unfold scoped in Hsc. destruct uncertain; [done|lia]. }
  cbn [items_wf emit_items run_items] in *. destruct Hwf as [Hw Hws]. rewrite length_app in *.
  apply code_at_app in Hat as [Hat1 Hat2].
  assert (Hsc1 : scoped uncertain s position (position + length (emit_item it))) by (unfold scoped in *; destruct uncertain; lia).
  specialize (Hit uncertain position s Hw Hat1 ltac:(lia) Hr Hsc1).
  destruct (run_item m p uncertain it (control_of s)) as [r|c]; [done|].
  destruct Hit as (s' & Hrun & Hr' & <- & Hu). rewrite Nat.add_assoc.
  assert (Hsc2 : scoped uncertain s' (position + length (emit_item it)) (position + length (emit_item it) + length (emit_items items)))
    by (unfold scoped in *; destruct uncertain; lia).
  specialize (IH (position + length (emit_item it)) s' Hws Hat2 ltac:(lia) Hr' Hsc2).
  destruct (run_items m p uncertain items (control_of s')) as [r|c]; cbn [reaches] in *; [by rewrite Hrun|].
  destruct IH as (s2 & Hrun2 & Hr2 & Hc2 & Hu2). exists s2. rewrite Hrun. split; [done|]. split; [done|]. split; [done|].
  destruct uncertain; [by rewrite Hu2|done].
Qed.

Lemma reaches_block cs body : Forall item_reaches body -> item_reaches (Block cs body).
Proof using Hprog.
  intros Hits uncertain position s Hwf Hat Hfit (Hc & Hsub & Hun) Hscope.
  apply item_wf_block in Hwf as [Hcs Hbody]. rewrite emit_item_block in *. rewrite run_item_block.
  set (n := length (emit_items body)) in *. rewrite length_app in *. apply code_at_app in Hat as [Hat1 Hat2].
  assert (Hts : tail_skips (jump_tail n) n) by (split; [done|]; by right).
  pose proof (run_clauses cs (jump_tail n) n position s Hcs Hts Hat1 ltac:(lia) Hc Hsub) as Hrun. cbv zeta in Hrun.
  set (end_ := position + length (emit_clauses cs (jump_tail n) n)) in *. rewrite Nat.add_assoc in *. fold n end_ in Hfit, Hscope |- *.
  assert (Htail : forall v, at_tail (jump_tail n) position end_ s v ->
    reaches uncertain position (end_ + n) s (run_items m p (uncertain || is_unknown v) body (control_of s))).
  { intros v (c & pr & ps & s' & sub & Hmt & Hlt & Hr & (ps' & sub' & u & ->) & Hev & Hps & Hcl & Hu).
    pose proof (eval_step_jump (end_ - 1) (length prog) (tail_instr (not_flag c) (jump_tail n) pr) _ _ _ eq_refl
      ltac:(cbn [tail_instr Mark jump_tail]; lia) Hev Hcl) as Hstep.
    rewrite Hu, Hun in Hstep. cbn [orb moved must flowBump captureFlags tail_instr Mark jump_tail uncertainUntil] in Hstep.
    rewrite (run_advance _ _ _ _ _ Hmt Hstep) in Hr by lia. replace (end_ - 1 + Z.to_nat 1) with end_ in Hr by lia.
    replace (end_ - 1 + Z.to_nat (Z.of_nat (S n))) with (end_ + n) in Hr by lia.
    set (s1 := moved (moved _ _ _ _ _) _ _ _ _) in Hr.
    pose proof (reaches_items body (uncertain || is_unknown v) end_ s1 Hits Hbody Hat2 ltac:(lia) ltac:(done)) as Hb.
    fold n in Hb. assert (Hsc : scoped (uncertain || is_unknown v) s1 end_ (end_ + n)).
    { unfold scoped, s1. cbn [moved uncertainUntil]. destruct uncertain, (is_unknown v); cbn in *; lia. }
    specialize (Hb Hsc). change (control_of s1) with (control_of s) in Hb.
    destruct (run_items m p (uncertain || is_unknown v) body (control_of s)) as [r|c']; cbn [reaches] in *; [by rewrite Hr|].
    destruct Hb as (s2 & Hr2 & Hready & Hc2 & Hu2). exists s2. rewrite Hr. split; [done|]. split; [done|]. split; [done|].
    unfold s1 in Hu2. cbn [moved uncertainUntil] in Hu2. destruct uncertain, (is_unknown v); cbn in *; lia. }
  destruct (clauses_value m p cs) eqn:Ev; [|by apply Htail..].
  destruct Hrun as (ps & Hps & Hr). eexists. split; [exact Hr|]. split; [done|]. split; [done|].
  destruct uncertain; [done|]. cbn in Hscope |- *. lia.
Qed.

Lemma all_items_reach items : Forall item_reaches items.
Proof using Hprog.
  assert (Hitem : forall it, item_reaches it).
  { fix IH 1. intros [cs tail|cs body].
    - intros uncertain position s [Hcs Htw]. by apply reaches_rule.
    - apply reaches_block. induction body as [|it body IHb]; constructor; [apply IH|exact IHb]. }
  induction items; by constructor.
Qed.
End Sem.

(** The evaluator on the instructions of a program computes its direct meaning. *)
Lemma run_emit m p items :
  items_wf items -> Forall (fun mt => (0 <= Mark mt)%Z /\ total m p (pred_of mt)) (emit_items items) ->
  run m p (emit_items items) 0 (initial_state p) = run_program m p items.
Proof.
  intros Hwf Hprog. unfold run_program.
  pose proof (reaches_items m p (emit_items items) items false 0 (initial_state p) (all_items_reach m p _ Hprog items) Hwf) as Hr.
  specialize (Hr ltac:(by intros i mt) ltac:(lia) ltac:(by split; [apply fresh_ok|]) ltac:(cbn; lia)).
  change (control_of (initial_state p)) with (mkControl predicateMiss false 0) in Hr.
  destruct (run_items m p false items _) as [r|c]; [done|]. destruct Hr as (s' & -> & _). unfold run.
  cbn [prog_loop]. by rewrite lookup_ge_None_2 by done.
Qed.

Lemma evaluateSpans_items m p spans items :
  Forall span_wf spans -> marks_ok m -> stage p = routeFromIngress ->
  IsValid (ap_addr (src p)) = true -> IsValid (ap_addr (dst p)) = true ->
  items_wf items -> program_of m spans = Some (emit_items items) ->
  Forall (fun mt => total m p (pred_of mt)) (emit_items items) ->
  evaluateSpans m spans p = run_program m p items.
Proof.
  intros Hwf Hmarks Hst Hs Hd Hiw Hprog Htot. rewrite evaluateSpans_flat by done.
  rewrite (flat_loop_prog _ _ _ _ _ _ _ Hprog). apply mapM_Some in Hprog as Hall.
  rewrite (Forall2_length _ _ _ Hall), <-run_emit; [|done|].
  - unfold run. by rewrite Nat.sub_0_r.
  - apply Forall_forall. intros mt Hmt. split; [|by apply (proj1 (Forall_forall _ _) Htot)].
    apply list_elem_of_lookup in Hmt as [i Hi]. destruct (Forall2_lookup_r _ _ _ _ _ Hall Hi) as (k & _ & Hk).
    by apply (Forall_lookup_1 _ _ _ _ Hmarks Hk).
Qed.

(** C37: evaluating a profile is its structured meaning: rules in order, each the
    Kleene conjunction of its clauses, each clause the (negated) disjunction of its
    predicates, blocks guarded by their condition and ambiguous when it is; no
    jump fails and the single scope register implements the nesting. *)
Theorem evaluateSpans_meaning m p spans items :
  Forall span_wf spans -> marks_ok m -> stage p = routeFromIngress ->
  IsValid (ap_addr (src p)) = true -> IsValid (ap_addr (dst p)) = true ->
  items_wf items -> program_of m spans = Some (emit_items items) ->
  Forall (fun mt => total m p (pred_of mt)) (emit_items items) ->
  evaluateSpans m spans p = run_program m p items.
Proof. apply evaluateSpans_items. Qed.

(** [domain(...) { dport(443) && !sport(1-1023) -> 2 } fallback 0], the domain
    being ambiguous: the nested route is deferred to userspace. *)
Definition sem_items : list item :=
  [ Block [mkClause [(MatchType_DomainSet, PutUint32 0)] false]
      [ Rule [mkClause [(MatchType_Port, encodePortRange (80, 80)%Z); (MatchType_Port, encodePortRange (443, 443)%Z)] false;
              mkClause [(MatchType_SourcePort, encodePortRange (1, 1023)%Z)] true]
          (mkMatch zero16 0 MatchActionRoute 0 2 7) ];
    Rule [mkClause [(MatchType_Fallback, zero16)] false] (mkMatch zero16 0 MatchActionRoute 0 0 0) ].
Definition sem_matcher : RoutingMatcher :=
  mkRoutingMatcher (emit_items sem_items) [] 1 ∅ (fun _ => None) None None.
Definition sem_spans : list routingSpan := [mkSpan 0 2 routingPhaseRoute false; mkSpan 2 5 routingPhaseRoute true].

Lemma evaluateSpans_meaning_witness :
  evaluateSpans sem_matcher sem_spans demo_input = run_program sem_matcher demo_input sem_items /\
  run_program sem_matcher demo_input sem_items = Ok (mkEval OutboundControlPlaneRouting 0 false 0 false).
Proof.
  split; [|by vm_compute]. apply evaluateSpans_meaning; try done.
  - unfold sem_spans, span_wf. rewrite !Forall_cons. cbn. split_and!; [lia..|done].
  - unfold marks_ok, sem_matcher. cbn [matches]. vm_compute emit_items. rewrite !Forall_cons. by split_and!.
  - cbn. unfold clauses_wf, tail_wf. rewrite !Forall_cons. cbn. by split_and!.
  - vm_compute emit_items. rewrite !Forall_cons. split_and!; try (eexists; by vm_compute). done.
Defined.
