(* ===== verification/ConfigSyntax.v ===== *)
(** * Syntax trees of the configuration (pkg/config_parser/section.go, decoder.go)

    Parameters, functions, rules and sections as the parser returns them, their
    textual forms, and the quoting of literals with the decoder that undoes it. *)

From Stdlib Require Import Ascii String.
From stdpp Require Import pretty.
From S2P Require Import Prelude.

(** ** Trees *)

(** A nil [AndFunctions] slice is [None]. *)
Inductive Param :=
| mkParam (Key Val : string) (AndFunctions : option (list Function)) (Quoted : bool)
    (ValueList : list string) (Annotation : list Param)
with Function :=
| mkFunction (Name : string) (Not : bool) (Params : list Param) (Quoted : bool).

Definition p_Key (p : Param) : string := match p with mkParam k _ _ _ _ _ => k end.
Definition p_Val (p : Param) : string := match p with mkParam _ v _ _ _ _ => v end.
Definition p_AndFunctions (p : Param) : option (list Function) := match p with mkParam _ _ f _ _ _ => f end.
Definition p_Quoted (p : Param) : bool := match p with mkParam _ _ _ q _ _ => q end.
Definition p_ValueList (p : Param) : list string := match p with mkParam _ _ _ _ l _ => l end.
Definition p_Annotation (p : Param) : list Param := match p with mkParam _ _ _ _ _ a => a end.
Definition f_Name (f : Function) : string := match f with mkFunction n _ _ _ => n end.
Definition f_Not (f : Function) : bool := match f with mkFunction _ b _ _ => b end.
Definition f_Params (f : Function) : list Param := match f with mkFunction _ _ l _ => l end.
Definition f_Quoted (f : Function) : bool := match f with mkFunction _ _ _ q => q end.

(** [&Param{Key: k, Val: v}]. *)
Definition simpleParam (k v : string) : Param := mkParam k v None false [] [].

Record RuleSource := mkSource { File : string; Expression : string; Line : Z; Column : Z }.

Record RoutingRule := mkRule {
  r_AndFunctions : list Function;
  r_Outbound : Function;
  r_Sources : list RuleSource;
}.

Inductive Item :=
| ItemRule (r : RoutingRule)
| ItemPath (stages : list Param)
| ItemParam (p : Param)
| ItemSection (name : string) (items : list Item).

(** ** Textual form *)

Definition dquote : ascii := "034".
Definition backslash : ascii := "092".

(** A backslash before every quote and backslash. *)
Fixpoint escape (l : list ascii) : list ascii :=
  match l with
  | [] => []
  | c :: l =>
    if Ascii.eqb c dquote || Ascii.eqb c backslash then backslash :: c :: escape l else c :: escape l
  end.

Definition QuoteLiteral (value : string) : string :=
  string_of_list_ascii (dquote :: escape (list_ascii_of_string value) ++ [dquote]).

Definition bare_head : list ascii :=
  list_ascii_of_string "abcdefghijklmnopqrstuvwxyzABCDEFGHIJKLMNOPQRSTUVWXYZ_/\^*.+0123456789-".
Definition bare_rest : list ascii := bare_head ++ list_ascii_of_string "=@$!#%".

(** Every byte outside ASCII belongs to a rune outside both sets. *)
Definition IsBareLiteral (s : string) : bool :=
  match list_ascii_of_string s with
  | [] => false
  | c :: l => existsb (Ascii.eqb c) bare_head && forallb (fun c => existsb (Ascii.eqb c) bare_rest) l
  end.

Definition formatFunctionName (name : string) (quoted : bool) : string :=
  if quoted || negb (IsBareLiteral name) then QuoteLiteral name else name.

Fixpoint Param_String (compact quoteVal : bool) (p : Param) {struct p} : string :=
  match p with
  | mkParam key val fns _ _ annotation =>
    let value :=
      match fns with
      | Some fs => String.concat (if compact then "&&" else " && ") (map (Function_String compact quoteVal false) fs)
      | None => if quoteVal then QuoteLiteral val else val
      end in
    let value := if String.eqb key "" then value else key +:+ (if compact then ":" else ": ") +:+ value in
    if is_empty annotation then value
    else value +:+ " [" +:+ String.concat (if compact then "," else ", ") (map (Param_String compact quoteVal) annotation) +:+ "]"
  end
with Function_String (compact quoteVal omitEmpty : bool) (f : Function) {struct f} : string :=
  match f with
  | mkFunction name not_ params quoted =>
    (if not_ then "!" else "") +:+ formatFunctionName name quoted +:+
    (if omitEmpty && is_empty params then ""
     else "(" +:+ String.concat (if compact then "," else ", ") (map (Param_String compact quoteVal) params) +:+ ")")
  end.

(** [RoutingRule.String]. *)
Definition RoutingRule_String (replaceParamWithN compact quoteVal : bool) (r : RoutingRule) : string :=
  let text function :=
    if replaceParamWithN then
      (if f_Not function then "!" else "") +:+ formatFunctionName (f_Name function) (f_Quoted function) +:+
      "([n = " +:+ pretty (length (f_Params function)) +:+ "])"
    else Function_String compact quoteVal false function in
  String.concat (if compact then "&&" else " && ") (map text (r_AndFunctions r)) +:+
  (if compact then "->" else " -> ") +:+ Function_String compact quoteVal true (r_Outbound r).

Definition ProxyPath_String (compact quoteVal : bool) (stages : list Param) : string :=
  String.concat (if compact then "->" else " -> ") (map (Param_String compact quoteVal) stages).

(** [SetSourceFile] on the items of a section. *)
Fixpoint SetSourceFile_item (file : string) (i : Item) : Item :=
  match i with
  | ItemSection name items => ItemSection name (map (SetSourceFile_item file) items)
  | ItemRule r =>
    ItemRule (mkRule (r_AndFunctions r) (r_Outbound r)
      (map (fun s => mkSource file (Expression s) (Line s) (Column s)) (r_Sources r)))
  | _ => i
  end.

(** ** Literals *)

(** The loop of [getValueFromQuoteLiteral]. *)
Fixpoint unescape (quote : ascii) (content : list ascii) : list ascii :=
  match content with
  | [] => []
  | c :: rest =>
    match rest with
    | [] => [c]
    | d :: rest' =>
      if Ascii.eqb c backslash && (Ascii.eqb d quote || Ascii.eqb d backslash)
      then d :: unescape quote rest' else c :: unescape quote rest
    end
  end.

Definition getValueFromQuoteLiteral (text : string) : string :=
  match list_ascii_of_string text with
  | quote :: ((_ :: _) as rest) => string_of_list_ascii (unescape quote (removelast rest))
  | _ => text
  end.

(** ** Properties *)

Lemma unescape_escape l : unescape dquote (escape l) = l.
Proof.
  assert (Hcons : forall c l', c <> backslash -> unescape dquote (c :: l') = c :: unescape dquote l').
  { intros c [|d l'] Hc; [done|]. cbn [unescape]. destruct (Ascii.eqb_spec c backslash); done. }
  induction l as [|c l IH]; [done|]. cbn [escape].
  destruct (Ascii.eqb_spec c dquote) as [->|Hq]; [cbn; by rewrite IH|].
  destruct (Ascii.eqb_spec c backslash) as [->|Hb]; [cbn; by rewrite IH|]. cbn [orb]. rewrite Hcons by done. by rewrite IH.
Qed.

(** The decoder of quoted literals undoes [QuoteLiteral] on every string. *)
Theorem quote_roundtrip s : getValueFromQuoteLiteral (QuoteLiteral s) = s.
Proof.
  unfold getValueFromQuoteLiteral, QuoteLiteral. rewrite list_ascii_of_string_of_list_ascii.
  destruct (escape (list_ascii_of_string s) ++ [dquote]) as [|d rest] eqn:E; [by destruct (escape _)|].
  rewrite <-E, removelast_last, unescape_escape. apply string_of_list_ascii_of_string.
Qed.
