(* ===== verification/GoStrings.v ===== *)
(** * Standard-library string functions used by the configuration code

    [strings], [strconv] and [encoding/hex] on byte strings. *)

From S2P Require Import Prelude Netip.

(** ** Characters *)

Definition is_digit (c : Z) : bool := (48 <=? c)%Z && (c <=? 57)%Z.
(** [c | ('x' - 'X')]. *)
Definition lower_or (c : Z) : Z := Z.lor c 32.
Definition in_range (lo hi c : Z) : bool := (lo <=? c)%Z && (c <=? hi)%Z.

(** The value of a hexadecimal digit. *)
Definition hex_digit (c : Z) : option Z :=
  if is_digit c then Some (c - 48)%Z
  else if in_range 97 102 c then Some (c - 87)%Z
  else if in_range 65 70 c then Some (c - 55)%Z
  else None.

(** ** [strings] *)

(** [strings.Cut] at a byte: before, after and whether it occurs. *)
Fixpoint Cut (s : bytes) (sep : Z) : option (bytes * bytes) :=
  match s with
  | [] => None
  | c :: s =>
    if (c =? sep)%Z then Some ([], s)
    else '(a, b) ← Cut s sep; Some (c :: a, b)
  end.

(** [strings.SplitN(s, sep, n)] for a one-byte separator and [n > 0]. *)
Fixpoint SplitN (n : nat) (s : bytes) (sep : Z) : list bytes :=
  match n with
  | 0 => []
  | 1 => [s]
  | S n => match Cut s sep with Some (a, b) => a :: SplitN n b sep | None => [s] end
  end.

Definition ContainsByte (s : bytes) (c : Z) : bool := existsb (Z.eqb c) s.

(** [strings.LastIndexByte] as the split around it. *)
Fixpoint CutLast (s : bytes) (sep : Z) : option (bytes * bytes) :=
  match s with
  | [] => None
  | c :: s =>
    match CutLast s sep with
    | Some (a, b) => Some (c :: a, b)
    | None => if (c =? sep)%Z then Some ([], s) else None
    end
  end.

Fixpoint has_prefix (p s : bytes) : bool :=
  match p, s with
  | [], _ => true
  | a :: p, b :: s => (a =? b)%Z && has_prefix p s
  | _ :: _, [] => false
  end.

(** Byte-wise order, as of Go strings. *)
Fixpoint bytes_compare (a b : bytes) : comparison :=
  match a, b with
  | [], [] => Eq
  | [], _ :: _ => Lt
  | _ :: _, [] => Gt
  | x :: a, y :: b => match (x ?= y)%Z with Eq => bytes_compare a b | c => c end
  end.

(** ** [strconv] *)

(** The digit loop of [ParseUint] up to the bound [max]; [None] is an error. *)
Fixpoint parse_digits (base : Z) (underscore_ok : bool) (max n : Z) (s : bytes) : option Z :=
  match s with
  | [] => Some n
  | c :: s =>
    if (c =? 95)%Z && underscore_ok then parse_digits base underscore_ok max n s
    else
      d ← (if is_digit c then Some (c - 48)%Z
           else if in_range 97 122 (lower_or c) then Some (lower_or c - 87)%Z else None);
      if (base <=? d)%Z then None
      else let n := (n * base + d)%Z in if (max <? n)%Z then None else parse_digits base underscore_ok max n s
  end.

(** [underscoreOK]: the class of the previous character is a digit, an underscore
    or another one. *)
Inductive seen := SawStart | SawDigit | SawUnderscore | SawOther.

Fixpoint underscores (hex : bool) (saw : seen) (s : bytes) : bool :=
  match s with
  | [] => match saw with SawUnderscore => false | _ => true end
  | c :: s =>
    if is_digit c || (hex && in_range 97 102 (lower_or c)) then underscores hex SawDigit s
    else if (c =? 95)%Z then match saw with SawDigit => underscores hex SawUnderscore s | _ => false end
    else match saw with SawUnderscore => false | _ => underscores hex SawOther s end
  end.

(** Base prefixes of [ParseUint] with base 0. *)
Definition base_of (s : bytes) : Z * bytes :=
  match s with
  | 48%Z :: ((x :: _ :: _) as rest) =>
    let p := lower_or x in
    if (p =? 98)%Z then (2%Z, tail rest)
    else if (p =? 111)%Z then (8%Z, tail rest)
    else if (p =? 120)%Z then (16%Z, tail rest)
    else (8%Z, rest)
  | 48%Z :: rest => (8%Z, rest)
  | _ => (10%Z, s)
  end.

Definition underscoreOK (s : bytes) : bool :=
  let s := match s with c :: s' => if (c =? 45)%Z || (c =? 43)%Z then s' else s | [] => s end in
  match s with
  | 48%Z :: x :: rest =>
    let p := lower_or x in
    if (p =? 98)%Z || (p =? 111)%Z || (p =? 120)%Z then underscores (p =? 120)%Z SawDigit rest
    else underscores false SawStart s
  | _ => underscores false SawStart s
  end.

(** [strconv.ParseUint(s, 0, bits)]. *)
Definition ParseUint0 (bits : nat) (s : bytes) : option Z :=
  match s with
  | [] => None
  | _ =>
    let '(base, digits) := base_of s in
    n ← parse_digits base true (2 ^ Z.of_nat bits - 1) 0 digits;
    if ContainsByte digits 95 && negb (underscoreOK s) then None else Some n
  end.

(** [strconv.Atoi]: an optional sign and decimal digits, in the range of a 64-bit
    [int]. *)
Definition Atoi (s : bytes) : option Z :=
  let '(neg, digits) :=
    match s with
    | c :: s' => if (c =? 45)%Z then (true, s') else if (c =? 43)%Z then (false, s') else (false, s)
    | [] => (false, s)
    end in
  match digits with
  | [] => None
  | _ =>
    n ← parse_digits 10 false (if neg then 2 ^ 63 else 2 ^ 63 - 1) 0 digits;
    Some (if neg then (- n)%Z else n)
  end.

(** [strconv.ParseBool]. *)
Definition ParseBool (s : string) : option bool :=
  if existsb (String.eqb s) ["1"; "t"; "T"; "TRUE"; "true"; "True"] then Some true
  else if existsb (String.eqb s) ["0"; "f"; "F"; "FALSE"; "false"; "False"] then Some false
  else None.

(** [hex.DecodeString]. *)
Fixpoint DecodeHex (s : bytes) : option bytes :=
  match s with
  | [] => Some []
  | [_] => None
  | a :: b :: s =>
    h ← hex_digit a; l ← hex_digit b; rest ← DecodeHex s;
    Some (Z.lor (Z.shiftl h 4) l :: rest)
  end.

(** ** Decimal printing *)

Fixpoint digits_of (fuel : nat) (n : Z) (acc : bytes) : bytes :=
  match fuel with
  | 0 => acc
  | S fuel =>
    let acc := (48 + n mod 10)%Z :: acc in
    if (n <? 10)%Z then acc else digits_of fuel (n / 10) acc
  end.

(** [strconv.Itoa] of a number below [2 ^ 64]: at most twenty digits. *)
Definition Itoa (n : Z) : bytes := digits_of 20 n [].

(** ** Ranges of parsed numbers *)

Lemma parse_digits_nonneg base us limit acc s n : (0 <= acc)%Z -> (0 <= base)%Z -> parse_digits base us limit acc s = Some n -> (0 <= n)%Z.
Proof.
  revert acc. induction s as [|c s IH]; intros acc Ha Hb; cbn [parse_digits]; [by intros [= <-]|].
  destruct (_ && us); [by apply IH|]. destruct (if is_digit c then _ else _) as [d|] eqn:Ed; [|done]. cbn [mbind option_bind].
  assert (0 <= d)%Z.
  { destruct (is_digit c) eqn:E1; [injection Ed as <-; unfold is_digit in E1; lia|].
    destruct (in_range 97 122 (lower_or c)) eqn:E2; [injection Ed as <-; unfold in_range in E2; lia|done]. }
  destruct (base <=? d)%Z; [done|]. destruct (limit <? _)%Z; [done|]. apply IH; nia.
Qed.

Lemma ParseUint0_nonneg bits s n : ParseUint0 bits s = Some n -> (0 <= n)%Z.
Proof.
  unfold ParseUint0. destruct s as [|c s]; [done|]. destruct (base_of (c :: s)) as [base digits] eqn:Eb.
  destruct (parse_digits base true _ 0 digits) as [k|] eqn:E; [|done]. cbn [mbind option_bind]. destruct (_ && _); [done|].
  intros [= <-]. apply parse_digits_nonneg in E; [done|done|]. unfold base_of in Eb. repeat case_match; simplify_eq; lia.
Qed.

Lemma parse_digits_max base u max s : forall n k, parse_digits base u max n s = Some k -> (n <= max)%Z -> (k <= max)%Z.
Proof.
  induction s as [|c s IH]; intros n k; cbn [parse_digits]; [by intros [= <-]|]. destruct (_ && _); [apply IH|].
  destruct (if is_digit c then _ else _) as [d|]; [|done]. cbn [mbind option_bind]. destruct (_ <=? _)%Z; [done|]. cbn zeta.
  destruct (Z.ltb_spec max (n * base + d)); [done|]. intros Hk _. by eapply IH.
Qed.

Lemma ParseUint0_fits bits s n : ParseUint0 bits s = Some n -> fits bits n.
Proof.
  intros H. split; [by eapply ParseUint0_nonneg|]. unfold ParseUint0 in H. destruct s as [|c s]; [done|]. destruct (base_of (c :: s)) as [base digits].
  destruct (parse_digits base true _ 0 digits) as [k|] eqn:E; [|done]. cbn [mbind option_bind] in H. destruct (_ && _); [done|]. injection H as <-.
  apply parse_digits_max in E; lia.
Qed.
