(* ===== verification/NetipParse.v ===== *)
(** * Textual addresses and prefixes ([netip.ParseAddr], [ParsePrefix], [ParseAddrPort])

    The parsers of the Go standard library, and masking and ordering of prefixes. *)

From S2P Require Import Prelude Netip GoStrings.

(** ** IPv4 *)

(** [parseIPv4Fields]: [prev_dot] tells that the previous character is a dot or
    that there is none. *)
Fixpoint ipv4_loop (s : bytes) (val : Z) (digLen : nat) (prev_dot : bool) (fields : bytes) : option bytes :=
  match s with
  | [] => if length fields =? 3 then Some (fields ++ [val]) else None
  | c :: s =>
    if is_digit c then
      if (digLen =? 1) && (val =? 0)%Z then None
      else let val := (val * 10 + (c - 48))%Z in
           if (255 <? val)%Z then None else ipv4_loop s val (S digLen) false fields
    else if (c =? 46)%Z then
      if prev_dot || match s with [] => true | _ => false end then None
      else if length fields =? 3 then None
      else ipv4_loop s 0 0 true (fields ++ [val])
    else None
  end.

Definition parseIPv4Fields (s : bytes) : option bytes := ipv4_loop s 0 0 true [].

(** ** IPv6 *)

(** The digits of a group: its value, and what follows. *)
Fixpoint hex_group (s : bytes) (off : nat) (acc : Z) : option (Z * nat * bytes) :=
  match s with
  | [] => Some (acc, off, [])
  | c :: s' =>
    match hex_digit c with
    | None => Some (acc, off, s)
    | Some d =>
      let acc := (acc * 16 + d)%Z in
      if (3 <? off) || (65535 <? acc)%Z then None else hex_group s' (S off) acc
    end
  end.

(** The loop of [parseIPv6] over [s]: the bytes parsed so far are [ip], and
    [ellipsis] the position of [::]. *)
Fixpoint ipv6_loop (fuel : nat) (s : bytes) (ip : bytes) (ellipsis : option nat) : option (bytes * bytes * option nat) :=
  match fuel with
  | 0 => Some (s, ip, ellipsis)
  | S fuel =>
    if 16 <=? length ip then Some (s, ip, ellipsis)
    else
      '(acc, off, rest) ← hex_group s 0 0;
      if off =? 0 then None
      else
        if match rest with c :: _ => (c =? 46)%Z | [] => false end then
          if match ellipsis with None => negb (length ip =? 12) | Some _ => false end then None
          else if 16 <? length ip + 4 then None
          else fields ← parseIPv4Fields s; Some ([], ip ++ fields, ellipsis)
        else
          let ip := ip ++ [Z.shiftr acc 8; wrap 8 acc] in
          match rest with
          | [] => Some ([], ip, ellipsis)
          | c :: s =>
            if negb (c =? 58)%Z then None
            else
              match s with
              | [] => None
              | d :: s' =>
                if (d =? 58)%Z then
                  match ellipsis with
                  | Some _ => None
                  | None =>
                    match s' with
                    | [] => Some ([], ip, Some (length ip))
                    | _ => ipv6_loop fuel s' ip (Some (length ip))
                    end
                  end
                else ipv6_loop fuel s ip ellipsis
              end
          end
  end.

(** Zero bytes in place of the ellipsis. *)
Definition expand_ipv6 (ip : bytes) (ellipsis : option nat) : option bytes :=
  if length ip <? 16 then
    e ← ellipsis; Some (take e ip ++ replicate (16 - length ip) 0%Z ++ drop e ip)
  else match ellipsis with Some _ => None | None => Some ip end.

(** At most eight groups: the fuel is enough. *)
Definition parseIPv6 (s : bytes) : option (Addr * bytes) :=
  '(s, zone) ← (match Cut s 37 with
                | Some (_, []) => None
                | Some (a, zone) => Some (a, zone)
                | None => Some (s, [])
                end);
  let '(leading, s) := match s with 58%Z :: 58%Z :: s => (true, s) | _ => (false, s) end in
  if leading && bool_decide (s = []) then Some (AddrV6 (replicate 16 0%Z), zone)
  else
    '(rest, ip, ellipsis) ← ipv6_loop 9 s [] (if leading then Some 0 else None);
    if bool_decide (rest = []) then ip ← expand_ipv6 ip ellipsis; Some (AddrV6 ip, zone) else None.

(** [netip.ParseAddr]: the address and its zone. *)
Fixpoint addr_family (s : bytes) : option Z :=
  match s with
  | [] => None
  | c :: s => if (c =? 46)%Z || (c =? 58)%Z || (c =? 37)%Z then Some c else addr_family s
  end.

Definition ParseAddr (s : bytes) : option (Addr * bytes) :=
  c ← addr_family s;
  if (c =? 46)%Z then a ← parseIPv4Fields s; Some (AddrV4 a, [])
  else if (c =? 58)%Z then parseIPv6 s
  else None.

(** ** Prefixes *)

Definition ParsePrefix (s : bytes) : option Prefix :=
  '(addr, bitsStr) ← CutLast s 47;
  '(ip, zone) ← ParseAddr addr;
  if negb (bool_decide (zone = [])) then None
  else if (1 <? length bitsStr) && match bitsStr with c :: _ => negb (in_range 49 57 c) | [] => false end then None
  else
    bits ← Atoi bitsStr;
    if (bits <? 0)%Z || (BitLen ip <? bits)%Z then None else Some (PrefixFrom ip bits).

(** [netip.ParseAddrPort]. *)
Definition ParseAddrPort (s : bytes) : option (AddrPort * bytes) :=
  '(ip, port) ← CutLast s 58;
  if bool_decide (ip = []) || bool_decide (port = []) then None
  else
    '(ip, v6) ← (match ip with
                 | 91%Z :: rest => match last rest with Some 93%Z => Some (removelast rest, true) | _ => None end
                 | _ => Some (ip, false)
                 end);
    port ← parse_digits 10 false 65535 0 port;
    '(a, zone) ← ParseAddr ip;
    if v6 && Is4 a then None else if negb v6 && Is6 a then None else Some (mkAddrPort a port, zone).

(** The first [n] bits of a byte string; the others cleared. *)
Fixpoint mask_bytes (n : Z) (b : bytes) : bytes :=
  match b with
  | [] => []
  | c :: b =>
    let k := Z.min 8 (Z.max 0 n) in
    Z.land c (wrap 8 (Z.shiftl 255 (8 - k))) :: mask_bytes (n - 8) b
  end.

Definition Masked (p : Prefix) : Prefix :=
  if (pfx_bits p <? 0)%Z then mkPrefix AddrInvalid (-1)
  else
    match pfx_addr p with
    | AddrInvalid => mkPrefix AddrInvalid (-1)
    | AddrV4 a => mkPrefix (AddrV4 (mask_bytes (pfx_bits p) a)) (pfx_bits p)
    | AddrV6 a => mkPrefix (AddrV6 (mask_bytes (pfx_bits p) a)) (pfx_bits p)
    end.

Definition addr_bytes (a : Addr) : bytes := match a with AddrInvalid => [] | AddrV4 b | AddrV6 b => b end.

Definition Addr_Compare (a b : Addr) : comparison :=
  match (BitLen a ?= BitLen b)%Z with Eq => bytes_compare (addr_bytes a) (addr_bytes b) | c => c end.

Definition Prefix_Compare (p q : Prefix) : comparison :=
  match Addr_Compare (pfx_addr (Masked p)) (pfx_addr (Masked q)) with
  | Eq => match (pfx_bits p ?= pfx_bits q)%Z with Eq => Addr_Compare (pfx_addr p) (pfx_addr q) | c => c end
  | c => c
  end.

(** ** Well-formed results *)

Lemma ipv4_loop_wf s val digLen dot fields r :
  is_byte val -> Forall is_byte fields -> length fields <= 3 ->
  ipv4_loop s val digLen dot fields = Some r -> length r = 4 /\ Forall is_byte r.
Proof.
  revert val digLen dot fields. induction s as [|c s IH]; intros val digLen dot fields Hv Hf Hl; cbn [ipv4_loop].
  { destruct (Nat.eqb_spec (length fields) 3); [|done]. intros [= <-]. rewrite length_app, Forall_app. cbn. split; [lia|].
    split; [done|]. by apply Forall_singleton. }
  unfold is_digit. destruct ((48 <=? c)%Z && (c <=? 57)%Z) eqn:Ed.
  - cbv iota. destruct ((digLen =? 1) && (val =? 0)%Z); [done|]. destruct (Z.ltb_spec 255 (val * 10 + (c - 48))); [done|]. apply IH; [|done|done].
    apply andb_true_iff in Ed as [E1%Z.leb_le E2%Z.leb_le]. unfold is_byte, fits in *. lia.
  - destruct (c =? 46)%Z; [|done]. destruct (_ || _); [done|]. destruct (Nat.eqb_spec (length fields) 3); [done|].
    apply IH; [split; lia| |rewrite length_app; cbn; lia]. rewrite Forall_app. split; [done|]. by apply Forall_singleton.
Qed.

Lemma parseIPv4Fields_wf s r : parseIPv4Fields s = Some r -> length r = 4 /\ Forall is_byte r.
Proof. apply ipv4_loop_wf; [split; lia|constructor|cbn; lia]. Qed.

Lemma hex_digit_bounds c d : hex_digit c = Some d -> (0 <= d < 16)%Z.
Proof. unfold hex_digit, is_digit, in_range. repeat case_match; intros; simplify_eq; lia. Qed.

Lemma hex_group_bounds s off acc acc' off' rest :
  (0 <= acc <= 65535)%Z -> hex_group s off acc = Some (acc', off', rest) -> (0 <= acc' <= 65535)%Z.
Proof.
  revert off acc. induction s as [|c s IH]; intros off acc Ha; cbn [hex_group]; [by intros [= <- _ _]|].
  destruct (hex_digit c) as [d|] eqn:Ed; [|by intros [= <- _ _]]. apply hex_digit_bounds in Ed.
  destruct (3 <? off); [done|]. destruct (Z.ltb_spec 65535 (acc * 16 + d)); [done|]. apply IH. lia.
Qed.

Definition ip_ok (ip : bytes) : Prop := Forall is_byte ip /\ length ip <= 16 /\ exists k, length ip = 2 * k.

Lemma ip_ok_group ip acc : ip_ok ip -> length ip < 16 -> (0 <= acc <= 65535)%Z -> ip_ok (ip ++ [Z.shiftr acc 8; wrap 8 acc]).
Proof.
  intros (Hf & Hl & k & Hk) Hlt Ha. unfold ip_ok. rewrite Forall_app, length_app. cbn [length].
  split; [split; [done|]|split; [lia|exists (S k); lia]]. constructor; [|constructor; [apply wrap_fits|done]].
  unfold is_byte, fits. rewrite Z.shiftr_div_pow2 by lia. split; [apply Z.div_pos; lia|]. apply Z.div_lt_upper_bound; lia.
Qed.

Lemma ipv6_loop_wf fuel s ip e rest ip' e' :
  ip_ok ip -> ipv6_loop fuel s ip e = Some (rest, ip', e') -> ip_ok ip'.
Proof.
  revert s ip e. induction fuel as [|fuel IH]; intros s ip e Hok; cbn [ipv6_loop]; [by intros [= _ <- _]|].
  destruct (Nat.leb_spec 16 (length ip)); [by intros [= _ <- _]|].
  destruct (hex_group s 0 0) as [[[acc off] r]|] eqn:Eg; [|done]. cbn [mbind option_bind].
  apply hex_group_bounds in Eg; [|lia]. destruct (off =? 0); [done|].
  pose proof (ip_ok_group ip acc Hok ltac:(lia) Eg) as Hok'.
  assert (Hv4 : forall fields, parseIPv4Fields s = Some fields -> length ip + 4 <= 16 -> ip_ok (ip ++ fields)).
  { intros fields [Hl Hf]%parseIPv4Fields_wf Hle. destruct Hok as (Hb & _ & k & Hk).
    unfold ip_ok. rewrite Forall_app, length_app. split; [done|]. split; [lia|]. exists (k + 2). lia. }
  destruct (match r with [] => false | c :: _ => (c =? 46)%Z end).
  - destruct (match e with None => _ | Some _ => _ end); [done|]. destruct (Nat.ltb_spec 16 (length ip + 4)); [done|].
    destruct (parseIPv4Fields s) eqn:E4; [|done]. cbn. intros [= _ <- _]. apply Hv4; [done|lia].
  - destruct r as [|c [|d r]]; [by intros [= _ <- _]|by destruct (negb _)|]. destruct (negb _); [done|].
    destruct (d =? 58)%Z; [|by apply IH]. destruct e; [done|]. destruct r; [by intros [= _ <- _]|by apply IH].
Qed.

Lemma expand_ipv6_wf ip e r : ip_ok ip -> expand_ipv6 ip e = Some r -> length r = 16 /\ Forall is_byte r.
Proof.
  intros (Hf & Hl & _). unfold expand_ipv6. destruct (Nat.ltb_spec (length ip) 16).
  - destruct e as [e|]; [|done]. intros [= <-]. rewrite !length_app, length_replicate, !Forall_app.
    rewrite length_take, length_drop. split; [lia|]. split; [by apply Forall_take|]. split; [|by apply Forall_drop].
    apply Forall_replicate. split; lia.
  - destruct e; [done|]. intros [= <-]. split; [lia|done].
Qed.

Lemma ParseAddr_wf s a zone : ParseAddr s = Some (a, zone) -> Addr_wf a /\ IsValid a = true.
Proof.
  unfold ParseAddr. destruct (addr_family s) as [c|]; [|done]. cbn [mbind option_bind]. destruct (c =? 46)%Z.
  { destruct (parseIPv4Fields s) eqn:E; [|done]. intros [= <- _]. split; [by apply parseIPv4Fields_wf in E|done]. }
  destruct (c =? 58)%Z; [|done]. unfold parseIPv6.
  destruct (match Cut s 37 with Some _ => _ | None => _ end) as [[s' z]|]; [|done]. cbn [mbind option_bind].
  destruct (match s' with [] => _ | _ => _ end) as [leading s2]. destruct (_ && _).
  { intros [= <- _]. split; [|done]. split; [done|]. change (Forall is_byte (replicate 16 0%Z)). apply Forall_replicate. split; lia. }
  destruct (ipv6_loop 9 s2 [] _) as [[[rest ip] e]|] eqn:El; [|done]. cbn [mbind option_bind].
  apply ipv6_loop_wf in El; [|split; [constructor|split; [cbn; lia|by exists 0]]].
  case_bool_decide; [|done]. destruct (expand_ipv6 ip e) as [r|] eqn:Ee; [|done]. intros [= <- _].
  split; [|done]. by eapply expand_ipv6_wf.
Qed.

Lemma BitLen_pos a : IsValid a = true -> (0 <= BitLen a)%Z.
Proof. by destruct a. Qed.

Lemma PrefixFrom_valid a n : IsValid a = true -> (0 <= n <= BitLen a)%Z -> PrefixFrom a n = mkPrefix a n.
Proof.
  intros Hv Hn. unfold PrefixFrom. rewrite Hv. destruct (Z.ltb_spec n 0); [lia|]. destruct (Z.ltb_spec (BitLen a) n); [lia|]. done.
Qed.

Lemma ParsePrefix_wf s p : ParsePrefix s = Some p ->
  Addr_wf (pfx_addr p) /\ IsValid (pfx_addr p) = true /\ (0 <= pfx_bits p <= BitLen (pfx_addr p))%Z.
Proof.
  unfold ParsePrefix. destruct (CutLast s 47) as [[a b]|]; [|done]. cbn [mbind option_bind].
  destruct (ParseAddr a) as [[ip zone]|] eqn:Ea; [|done]. cbn [mbind option_bind]. apply ParseAddr_wf in Ea as [Hw Hv].
  destruct (negb _); [done|]. destruct (_ && _); [done|]. destruct (Atoi b) as [n|]; [|done]. cbn [mbind option_bind].
  destruct (Z.ltb_spec n 0); [done|]. destruct (Z.ltb_spec (BitLen ip) n); [done|]. cbn [orb].
  intros [= <-]. rewrite PrefixFrom_valid by (done || lia). cbn. split; [done|]. split; [done|lia].
Qed.
