(* ===== verification/NetipString.v ===== *)
(** * Printing of addresses ([netip.Addr.String], [netip.AddrPort.String]) and hosts

    The printers of the Go standard library, and that the parsers read back what they
    print. Zones are not used by the modelled code. *)

From S2P Require Import Prelude Netip GoStrings NetipParse.

(** ** Printers *)

Definition hex_char (d : Z) : Z := (if d <? 10 then 48 + d else 87 + d)%Z.

(** [appendHex]: a group without leading zeros. *)
Definition append_hex (g : Z) : bytes :=
  (if (4096 <=? g)%Z then [hex_char (g / 4096)] else []) ++ (if (256 <=? g)%Z then [hex_char (g / 256 mod 16)] else []) ++
  (if (16 <=? g)%Z then [hex_char (g / 16 mod 16)] else []) ++ [hex_char (g mod 16)].

Fixpoint join (sep : bytes) (xs : list bytes) : bytes :=
  match xs with
  | [] => []
  | [x] => x
  | x :: xs => x ++ sep ++ join sep xs
  end.

Definition string4 (a : bytes) : bytes := join (str ".") (map Itoa a).

(** The 16-bit groups of an IPv6 address. *)
Fixpoint groups (a : bytes) : list Z :=
  match a with
  | hi :: lo :: a => (hi * 256 + lo)%Z :: groups a
  | _ => []
  end.

Fixpoint leading_zeros (gs : list Z) : nat :=
  match gs with
  | g :: gs => if (g =? 0)%Z then S (leading_zeros gs) else 0
  | [] => 0
  end.

(** The first longest run of at least two zero groups: its start and its length. *)
Fixpoint zero_run (i : nat) (gs : list Z) (best : option (nat * nat)) : option (nat * nat) :=
  match gs with
  | [] => best
  | _ :: gs' =>
    let l := leading_zeros gs in
    let longest := match best with Some (_, n) => n | None => 0 end in
    zero_run (S i) gs' (if (2 <=? l) && (longest <? l) then Some (i, l) else best)
  end.

Definition hex_groups (gs : list Z) : bytes := join (str ":") (map append_hex gs).

Definition string6 (a : bytes) : bytes :=
  let gs := groups a in
  match zero_run 0 gs None with
  | Some (start, l) => hex_groups (take start gs) ++ str "::" ++ hex_groups (drop (start + l) gs)
  | None => hex_groups gs
  end.

Definition Addr_String (a : Addr) : bytes :=
  match a with
  | AddrInvalid => str "invalid IP"
  | AddrV4 b => string4 b
  | AddrV6 b => if Is4In6 a then str "::ffff:" ++ string4 (drop 12 b) else string6 b
  end.

(** [net.JoinHostPort]. *)
Definition JoinHostPort (host port : bytes) : bytes :=
  if ContainsByte host 58 then str "[" ++ host ++ str "]:" ++ port else host ++ str ":" ++ port.

(** [net.SplitHostPort]; [None] is an error. *)
Definition SplitHostPort (hostport : bytes) : option (bytes * bytes) :=
  '(before, port) ← CutLast hostport 58;
  match hostport with
  | 91%Z :: rest =>
    '(host, after) ← Cut rest 93;
    if bool_decide (91%Z :: host ++ [93%Z] = before) && negb (ContainsByte rest 91) && negb (ContainsByte after 93) then Some (host, port) else None
  | _ => if ContainsByte before 58 || ContainsByte hostport 91 || ContainsByte hostport 93 then None else Some (before, port)
  end.

(** [strings.Trim] with a set of bytes. *)
Fixpoint TrimLeft (s cutset : bytes) : bytes :=
  match s with
  | c :: s' => if ContainsByte cutset c then TrimLeft s' cutset else s
  | [] => []
  end.
Definition Trim (s cutset : bytes) : bytes := rev (TrimLeft (rev (TrimLeft s cutset)) cutset).

Definition AddrPort_String (p : AddrPort) : bytes :=
  match ap_addr p with
  | AddrInvalid => str "invalid AddrPort"
  | a => JoinHostPort (Addr_String a) (Itoa (ap_port p))
  end.

(** ** Decimal fields *)

(** One to three digits, without a leading zero. *)
Lemma Itoa_shape n : (0 <= n < 256)%Z ->
  Itoa n = [48 + n]%Z /\ (n < 10)%Z \/
  (exists a b, Itoa n = [48 + a; 48 + b]%Z /\ (1 <= a <= 9 /\ 0 <= b <= 9 /\ n = a * 10 + b)%Z) \/
  exists a b c, Itoa n = [48 + a; 48 + b; 48 + c]%Z /\ (1 <= a <= 9 /\ 0 <= b <= 9 /\ 0 <= c <= 9 /\ n = (a * 10 + b) * 10 + c)%Z.
Proof.
  intros Hn. unfold Itoa. change 20 with (S (S (S 17))). cbn [digits_of]. pose proof (Z.div_mod n 10 ltac:(lia)). pose proof (Z.mod_pos_bound n 10 ltac:(lia)).
  destruct (Z.ltb_spec n 10); [left; rewrite Z.mod_small by lia; done|]. right.
  pose proof (Z.div_mod (n / 10) 10 ltac:(lia)). pose proof (Z.mod_pos_bound (n / 10) 10 ltac:(lia)). assert (1 <= n / 10)%Z by (apply Z.div_le_lower_bound; lia).
  destruct (Z.ltb_spec (n / 10) 10).
  - left. exists (n / 10)%Z, (n mod 10)%Z. rewrite (Z.mod_small (n / 10)) by lia. split; [done|lia].
  - right. assert (1 <= n / 10 / 10)%Z by (apply Z.div_le_lower_bound; lia). assert (n / 10 / 10 < 10)%Z by (apply Z.div_lt_upper_bound; lia).
    exists (n / 10 / 10)%Z, ((n / 10) mod 10)%Z, (n mod 10)%Z. destruct (Z.ltb_spec (n / 10 / 10) 10); [|lia]. rewrite (Z.mod_small (n / 10 / 10)) by lia. split; [done|lia].
Qed.

Lemma ipv4_digit d s val k dot fields : (0 <= d <= 9)%Z -> (k =? 1) && (val =? 0)%Z = false -> (val * 10 + d <= 255)%Z ->
  ipv4_loop ((48 + d)%Z :: s) val k dot fields = ipv4_loop s (val * 10 + d) (S k) false fields.
Proof.
  intros Hd Hk Hv. cbn [ipv4_loop]. unfold is_digit. destruct (Z.leb_spec 48 (48 + d)), (Z.leb_spec (48 + d) 57); try lia. cbn [andb]. rewrite Hk.
  replace (48 + d - 48)%Z with d by lia. by destruct (Z.ltb_spec 255 (val * 10 + d)); [lia|].
Qed.

Lemma ipv4_field n : (0 <= n < 256)%Z ->
  (exists k, length (Itoa n) = S k) /\ forall rest fields, ipv4_loop (Itoa n ++ rest) 0 0 true fields = ipv4_loop rest n (length (Itoa n)) false fields.
Proof.
  intros Hn. destruct (Itoa_shape n Hn) as [[-> Hs]|[(a & b & -> & Ha & Hb & ->)|(a & b & c & -> & Ha & Hb & Hc & ->)]]; (split; [by eexists|]); intros rest fields; cbn [app length].
  - by rewrite ipv4_digit by (lia || done).
  - by rewrite !ipv4_digit by (lia || done || (destruct (Z.eqb_spec (0 * 10 + a) 0); [lia|done])).
  - by rewrite !ipv4_digit by (lia || done || (destruct (Z.eqb_spec (0 * 10 + a) 0); [lia|done])).
Qed.

Lemma ipv4_next n rest v k fields : (0 <= n < 256)%Z -> length fields < 3 ->
  ipv4_loop (46%Z :: Itoa n ++ rest) v (S k) false fields = ipv4_loop rest n (length (Itoa n)) false (fields ++ [v]).
Proof.
  intros Hn Hf. destruct (ipv4_field n Hn) as [[j Hj] Hl]. rewrite <-Hl. cbn [ipv4_loop]. cbn [is_digit Z.leb Z.compare andb Z.eqb orb].
  apply Nat.lt_neq, Nat.eqb_neq in Hf. rewrite Hf. by destruct (Itoa n).
Qed.

(** ** Hexadecimal groups *)

Lemma hex_char_digit d : (0 <= d < 16)%Z -> hex_digit (hex_char d) = Some d.
Proof.
  intros Hd. assert (Hall : Forall (fun d => hex_digit (hex_char d) = Some d) (map Z.of_nat (seq 0 16))) by (cbn; repeat constructor).
  rewrite Forall_forall in Hall. apply Hall, list_elem_of_fmap. exists (Z.to_nat d). split; [lia|]. apply elem_of_seq. lia.
Qed.

Lemma hex_group_step c d s off acc : hex_digit c = Some d -> off <= 3 -> (acc * 16 + d <= 65535)%Z -> hex_group (c :: s) off acc = hex_group s (S off) (acc * 16 + d).
Proof.
  intros Hc Ho Ha. cbn [hex_group]. rewrite Hc. destruct (Nat.ltb_spec 3 off); [lia|]. by destruct (Z.ltb_spec 65535 (acc * 16 + d)); [lia|].
Qed.

(** What follows a group. *)
Definition group_end (rest : bytes) : Prop := match rest with c :: _ => hex_digit c = None | [] => True end.

Lemma hex_group_end rest off acc : group_end rest -> hex_group rest off acc = Some (acc, off, rest).
Proof. destruct rest as [|c rest]; cbn; [done|]. by intros ->. Qed.

(** A decimal field read as the start of a group stops at the dot. *)
Lemma field_hex n rest : (0 <= n < 256)%Z -> group_end rest -> exists acc k, hex_group (Itoa n ++ rest) 0 0 = Some (acc, S k, rest).
Proof.
  intros Hn Hr. assert (Hd : forall d, (0 <= d <= 9)%Z -> hex_digit (48 + d) = Some d).
  { intros d Hd. rewrite <-(hex_char_digit d) by lia. unfold hex_char. by destruct (Z.ltb_spec d 10); [|lia]. }
  destruct (Itoa_shape n Hn) as [[-> Hs]|[(a & b & -> & Ha & Hb & ->)|(a & b & c & -> & Ha & Hb & Hc & ->)]]; cbn [app];
    repeat (erewrite hex_group_step by (by (apply Hd; lia) || lia)); rewrite hex_group_end by done; by eexists _, _.
Qed.

Lemma string4_fields a : length a = 4 -> Forall is_byte a -> parseIPv4Fields (string4 a) = Some a.
Proof.
  destruct a as [|a [|b [|c [|d [|]]]]]; try done. intros _ H. rewrite !Forall_cons in H. destruct H as (Ha & Hb & Hc & Hd & _).
  unfold string4, parseIPv4Fields. cbn [map join]. change (str ".") with [46%Z]. cbn [app].
  destruct (ipv4_field a Ha) as [[ka Ka] ->], (ipv4_field b Hb) as [[kb Kb] _], (ipv4_field c Hc) as [[kc Kc] _].
  rewrite Ka, ipv4_next, Kb, ipv4_next, Kc by (done || cbn; lia). rewrite <-(app_nil_r (Itoa d)), ipv4_next by (done || cbn; lia). done.
Qed.

(** ** IPv6 *)

Definition group_bytes (g : Z) : bytes := [Z.shiftr g 8; wrap 8 g].
Definition ungroup (gs : list Z) : bytes := flat_map group_bytes gs.
Definition is_group (g : Z) : Prop := (0 <= g < 65536)%Z.

Lemma hex_group_print g rest : is_group g -> group_end rest -> exists k, hex_group (append_hex g ++ rest) 0 0 = Some (g, S k, rest).
Proof.
  intros Hg Hr. unfold is_group in Hg. unfold append_hex. rewrite <-!app_assoc.
  pose proof (Z.div_mod g 16 ltac:(lia)). pose proof (Z.mod_pos_bound g 16 ltac:(lia)).
  pose proof (Z.div_mod (g / 16) 16 ltac:(lia)) as H2. pose proof (Z.mod_pos_bound (g / 16) 16 ltac:(lia)). rewrite Z.div_div in H2 by lia. change (16 * 16)%Z with 256%Z in H2.
  pose proof (Z.div_mod (g / 256) 16 ltac:(lia)) as H4. pose proof (Z.mod_pos_bound (g / 256) 16 ltac:(lia)). rewrite Z.div_div in H4 by lia. change (256 * 16)%Z with 4096%Z in H4.
  pose proof (Z.div_pos g 16 ltac:(lia) ltac:(lia)). pose proof (Z.div_pos g 256 ltac:(lia) ltac:(lia)). pose proof (Z.div_pos g 4096 ltac:(lia) ltac:(lia)).
  destruct (Z.leb_spec 4096 g), (Z.leb_spec 256 g), (Z.leb_spec 16 g); try lia; cbn [app];
    repeat (erewrite hex_group_step by (by (apply hex_char_digit; lia) || lia)); rewrite hex_group_end by done; eexists; repeat f_equal; lia.
Qed.

Lemma hex_char_not d c : (0 <= d < 16)%Z -> hex_digit c = None -> hex_char d <> c.
Proof. intros Hd Hc <-. by rewrite hex_char_digit in Hc. Qed.

(** A printed group starts with a digit. *)
Lemma append_hex_head g : is_group g -> exists c s, append_hex g = c :: s /\ is_Some (hex_digit c).
Proof.
  intros Hg. destruct (hex_group_print g [] Hg I) as [k Hk]. rewrite app_nil_r in Hk. destruct (append_hex g) as [|c s]; [done|]. exists c, s. split; [done|].
  cbn in Hk. destruct (hex_digit c); [by eexists|]. by injection Hk.
Qed.

Lemma hex_groups_cons g g' gs : hex_groups (g :: g' :: gs) = append_hex g ++ 58%Z :: hex_groups (g' :: gs).
Proof. done. Qed.

Lemma hex_groups_head g gs : is_group g -> exists c s, hex_groups (g :: gs) = c :: s /\ is_Some (hex_digit c).
Proof.
  intros Hg. destruct (append_hex_head g Hg) as (c & s & Hs & Hc). destruct gs as [|g' gs]; [exists c, s; by rewrite <-Hs|].
  rewrite hex_groups_cons, Hs. by eexists _, _.
Qed.

Lemma digit_not c x : is_Some (hex_digit c) -> hex_digit x = None -> (c =? x)%Z = false.
Proof. intros [d Hd] Hx. apply Z.eqb_neq. intros ->. congruence. Qed.

(** One group of the loop, and what comes after it. *)
Lemma loop_group fuel g rest ip e : is_group g -> length ip < 16 -> group_end rest -> match rest with c :: _ => (c =? 46)%Z = false | [] => True end ->
  ipv6_loop (S fuel) (append_hex g ++ rest) ip e =
    match rest with
    | [] => Some ([], ip ++ group_bytes g, e)
    | c :: s =>
      if negb (c =? 58)%Z then None
      else match s with
           | [] => None
           | d :: s' =>
             if (d =? 58)%Z then
               match e with
               | Some _ => None
               | None => match s' with [] => Some ([], ip ++ group_bytes g, Some (length (ip ++ group_bytes g))) | _ => ipv6_loop fuel s' (ip ++ group_bytes g) (Some (length (ip ++ group_bytes g))) end
               end
             else ipv6_loop fuel s (ip ++ group_bytes g) e
           end
    end.
Proof.
  intros Hg Hip Hr Hdot. cbn [ipv6_loop]. destruct (Nat.leb_spec 16 (length ip)); [lia|]. destruct (hex_group_print g rest Hg Hr) as [k ->]. cbn -[ipv6_loop].
  destruct rest as [|c s]; [done|]. by rewrite Hdot.
Qed.

Lemma loop_groups gs : forall fuel ip, gs <> [] -> Forall is_group gs -> length ip + 2 * length gs <= 16 -> length gs <= fuel ->
  (forall e, ipv6_loop fuel (hex_groups gs) ip e = Some ([], ip ++ ungroup gs, e)) /\
  (forall rest, ipv6_loop fuel (hex_groups gs ++ 58%Z :: 58%Z :: rest) ip None =
     let ip' := ip ++ ungroup gs in
     match rest with [] => Some ([], ip', Some (length ip')) | _ => ipv6_loop (fuel - length gs) rest ip' (Some (length ip')) end).
Proof.
  induction gs as [|g gs IH]; [done|]. intros fuel ip _ H Hl Hf. apply Forall_cons in H as [Hg H]. cbn [length] in *. destruct fuel as [|fuel]; [lia|].
  destruct gs as [|g' gs].
  - unfold hex_groups, ungroup. cbn [map join flat_map]. rewrite app_nil_r. split.
    + intros e. rewrite <-(app_nil_r (append_hex g)). by rewrite loop_group by (done || lia).
    + intros rest. rewrite loop_group by (done || lia). cbn -[ipv6_loop length group_bytes]. by rewrite Nat.sub_0_r.
  - rewrite hex_groups_cons. destruct (hex_groups_head g' gs) as (c & s & Hs & Hc); [by apply Forall_cons in H as []|].
    assert (Hc58 : (c =? 58)%Z = false) by (by apply digit_not).
    destruct (IH fuel (ip ++ group_bytes g)) as [IH1 IH2]; [done|done|rewrite length_app; cbn [length group_bytes] in *; lia|cbn [length] in *; lia|].
    rewrite Hs in *. rewrite <-!app_assoc in IH1. rewrite <-!app_assoc in IH2. change (group_bytes g ++ ungroup (g' :: gs)) with (ungroup (g :: g' :: gs)) in *. split.
    + intros e. rewrite loop_group by (done || lia). cbn [negb Z.eqb Pos.eqb]. rewrite Hc58. apply IH1.
    + intros rest. rewrite <-app_assoc. cbn [app]. rewrite loop_group by (done || lia). cbn [negb Z.eqb Pos.eqb]. rewrite Hc58. apply IH2.
Qed.

(** The collapsed run consists of zeros. *)
Definition is_run (all : list Z) (r : nat * nat) : Prop := exists a b, all = a ++ replicate r.2 0%Z ++ b /\ length a = r.1 /\ 2 <= r.2.

Lemma leading_zeros_split gs : exists b, gs = replicate (leading_zeros gs) 0%Z ++ b.
Proof.
  induction gs as [|g gs [b IH]]; [by exists []|]. cbn [leading_zeros]. destruct (Z.eqb_spec g 0) as [->|]; [|by eexists]. exists b. cbn. by rewrite <-IH.
Qed.

Lemma zero_run_ok gs : forall pre best r, (forall r', best = Some r' -> is_run (pre ++ gs) r') ->
  zero_run (length pre) gs best = Some r -> is_run (pre ++ gs) r.
Proof.
  induction gs as [|g gs IH]; intros pre best r Hb; cbn [zero_run]; [intros ->; by apply Hb|]. intros H.
  specialize (IH (pre ++ [g]) (if (2 <=? leading_zeros (g :: gs)) && (match best with Some (_, n) => n | None => 0 end <? leading_zeros (g :: gs)) then Some (length pre, leading_zeros (g :: gs)) else best) r).
  rewrite length_app, Nat.add_1_r in IH. rewrite <-app_assoc in IH. apply IH; [|exact H]. intros r'. destruct (Nat.leb_spec 2 (leading_zeros (g :: gs))); cbn [andb]; [|apply Hb].
  destruct (_ <? _); [|apply Hb]. intros [= <-]. destruct (leading_zeros_split (g :: gs)) as [b Hb']. exists pre, b. cbn [fst snd]. cbn [app]. by rewrite Hb' at 1.
Qed.

Lemma group_byte_bounds g x : is_group g -> x ∈ group_bytes g -> is_byte x.
Proof.
  unfold group_bytes, is_byte, fits, is_group. intros Hg. rewrite !elem_of_cons, elem_of_nil. intros [->|[->|[]]]; [|apply wrap_fits].
  rewrite Z.shiftr_div_pow2 by lia. change (2 ^ 8)%Z with 256%Z. split; [apply Z.div_pos; lia|]. apply Z.div_lt_upper_bound; cbn; lia.
Qed.

Lemma group_round hi lo : is_byte hi -> is_byte lo -> is_group (hi * 256 + lo) /\ group_bytes (hi * 256 + lo) = [hi; lo].
Proof.
  unfold is_byte, fits, is_group, group_bytes, wrap. intros Hh Hl. cbn in Hh, Hl. split; [lia|]. rewrite Z.shiftr_div_pow2 by lia. change (2 ^ 8)%Z with 256%Z. change (2 ^ Z.of_nat 8)%Z with 256%Z.
  rewrite Z.div_add_l, Z.div_small, Z.add_0_r by lia. rewrite Z.add_comm, Z_mod_plus_full, Z.mod_small by lia. done.
Qed.

Lemma ungroup_groups n a : length a = 2 * n -> Forall is_byte a -> Forall is_group (groups a) /\ ungroup (groups a) = a /\ length (groups a) = n.
Proof.
  revert a. induction n as [|n IH]; intros [|hi [|lo a]]; try (cbn; lia); intros Hl Ha; [done|]. rewrite !Forall_cons in Ha. destruct Ha as (Hh & Hlo & Ha).
  destruct (IH a) as (H1 & H2 & H3); [cbn in Hl; lia|done|]. destruct (group_round hi lo Hh Hlo) as [Hg Hb]. cbn [groups ungroup flat_map]. rewrite Hb. fold (ungroup (groups a)). rewrite H2.
  split; [by constructor|]. split; [done|]. cbn. by rewrite H3.
Qed.

Lemma length_ungroup gs : length (ungroup gs) = 2 * length gs.
Proof. induction gs as [|g gs IH]; [done|]. cbn [ungroup flat_map length]. rewrite length_app. fold (ungroup gs). rewrite IH. cbn. lia. Qed.

Lemma ungroup_zeros n : ungroup (replicate n 0%Z) = replicate (2 * n) 0%Z.
Proof. induction n as [|n IH]; [done|]. replace (2 * S n) with (S (S (2 * n))) by lia. cbn [replicate ungroup flat_map]. fold (ungroup (replicate n 0%Z)). by rewrite IH. Qed.

(** The characters of a printed address. *)
Lemma append_hex_digits g : is_group g -> Forall (fun c => is_Some (hex_digit c)) (append_hex g).
Proof.
  intros Hg. unfold is_group in Hg. unfold append_hex. pose proof (Z.mod_pos_bound g 16 ltac:(lia)). pose proof (Z.mod_pos_bound (g / 16) 16 ltac:(lia)).
  pose proof (Z.mod_pos_bound (g / 256) 16 ltac:(lia)). assert (0 <= g / 4096 < 16)%Z by (split; [apply Z.div_pos; lia|apply Z.div_lt_upper_bound; lia]).
  rewrite !Forall_app. split_and!; try (destruct (_ <=? _)%Z; [|constructor]); apply Forall_singleton; by rewrite hex_char_digit by lia.
Qed.

Lemma hex_groups_plain gs : Forall is_group gs -> Forall (fun c => c <> 37%Z) (hex_groups gs).
Proof.
  assert (Hone : forall g, is_group g -> Forall (fun c => c <> 37%Z) (append_hex g)).
  { intros g Hg. eapply Forall_impl; [by apply append_hex_digits|]. by intros c [d Hd] ->. }
  induction 1 as [|g gs Hg H IH]; [constructor|]. destruct gs as [|g' gs]; [by apply Hone|]. rewrite hex_groups_cons. apply Forall_app. split; [by apply Hone|]. by constructor.
Qed.

Lemma Cut_none s c : Forall (fun x => x <> c) s -> Cut s c = None.
Proof. induction 1 as [|x s Hx H IH]; [done|]. cbn. apply Z.eqb_neq in Hx. by rewrite Hx, IH. Qed.

Lemma family_colon s rest : Forall (fun c => is_Some (hex_digit c)) s -> addr_family (s ++ 58%Z :: rest) = Some 58%Z.
Proof. induction 1 as [|c s Hc H IH]; [done|]. cbn [app addr_family]. by rewrite !(digit_not c) by done. Qed.

Lemma not_leading c s : c <> 58%Z -> match c :: s with 58%Z :: 58%Z :: s' => (true, s') | _ => (false, c :: s) end = (false, c :: s).
Proof. intros Hc. repeat case_match; congruence. Qed.

(** The groups before and after the collapsed run. *)
Lemma parse_collapsed pre l post : Forall is_group pre -> Forall is_group post -> 1 <= l -> length pre + l + length post = 8 ->
  parseIPv6 (hex_groups pre ++ str "::" ++ hex_groups post) = Some (AddrV6 (ungroup (pre ++ replicate l 0%Z ++ post)), []).
Proof.
  intros Hpre Hpost Hl Hlen. unfold parseIPv6. rewrite Cut_none.
  2: { rewrite !Forall_app. split_and!; [by apply hex_groups_plain|by repeat constructor|by apply hex_groups_plain]. }
  change (str "::") with [58%Z; 58%Z]. cbn [mbind option_bind app].
  assert (Hu : ungroup (pre ++ replicate l 0%Z ++ post) = ungroup pre ++ replicate (2 * l) 0%Z ++ ungroup post) by (unfold ungroup at 1; rewrite !flat_map_app; by rewrite <-ungroup_zeros).
  assert (Hx : expand_ipv6 (ungroup pre ++ ungroup post) (Some (length (ungroup pre))) = Some (ungroup (pre ++ replicate l 0%Z ++ post))).
  { rewrite Hu. unfold expand_ipv6. rewrite length_app, !length_ungroup. destruct (Nat.ltb_spec (2 * length pre + 2 * length post) 16); [|lia]. cbn.
    rewrite <-!length_ungroup, take_app_length, drop_app_length, !length_ungroup. by replace (16 - (2 * length pre + 2 * length post)) with (2 * l) by lia. }
  destruct pre as [|g pre].
  - change (hex_groups []) with (@nil Z). cbn [app]. cbv beta iota zeta. destruct post as [|g post]; [cbn; replace l with 8 by (cbn in Hlen; lia); done|].
    destruct (hex_groups_head g post) as (c & s & Hs & Hc); [by apply Forall_cons in Hpost as []|]. rewrite (bool_decide_eq_false_2 (_ = [])) by (by rewrite Hs). cbn [andb].
    destruct (loop_groups (g :: post) 9 []) as [-> _]; [done|done|cbn in *; lia|cbn in *; lia|]. cbn [mbind option_bind app]. rewrite bool_decide_eq_true_2 by done.
    cbn [ungroup flat_map app length] in Hx. unfold ungroup. cbn [flat_map app]. cbn [app] in Hx. by rewrite Hx.
  - destruct (hex_groups_head g pre) as (c & s & Hs & Hc); [by apply Forall_cons in Hpre as []|]. rewrite Hs. cbn [app]. rewrite not_leading by (intros ->; by destruct Hc). cbn [andb].
    change (c :: s ++ 58%Z :: 58%Z :: hex_groups post) with ((c :: s) ++ 58%Z :: 58%Z :: hex_groups post). rewrite <-Hs.
    destruct (loop_groups (g :: pre) 9 []) as [_ ->]; [done|done|cbn in *; lia|cbn in *; lia|]. cbn zeta. rewrite app_nil_l. destruct post as [|g' post].
    + cbn [hex_groups map join mbind option_bind]. rewrite bool_decide_eq_true_2 by done. change (ungroup []) with (@nil Z) in Hx. rewrite !app_nil_r in Hx. rewrite !app_nil_r. by rewrite Hx.
    + destruct (hex_groups_head g' post) as (c' & s' & Hs' & Hc'); [by apply Forall_cons in Hpost as []|]. rewrite Hs' at 1.
      destruct (loop_groups (g' :: post) (9 - length (g :: pre)) (ungroup (g :: pre))) as [-> _]; [done|done|rewrite length_ungroup; cbn in *; lia|cbn in *; lia|].
      cbn [mbind option_bind]. rewrite bool_decide_eq_true_2 by done. by rewrite Hx.
Qed.

Lemma parse_string6 a : length a = 16 -> Forall is_byte a -> parseIPv6 (string6 a) = Some (AddrV6 a, []) /\ addr_family (string6 a) = Some 58%Z.
Proof.
  intros Hl Ha. destruct (ungroup_groups 8 a Hl Ha) as (Hg & Hu & Hn). unfold string6. destruct (zero_run 0 (groups a) None) as [[start l]|] eqn:E.
  - apply (zero_run_ok (groups a) [] None) in E as (pre & post & Hs & Hp & Hl2); [|done]. cbn [fst snd app] in *. rewrite Hs in Hg, Hn.
    rewrite !Forall_app in Hg. destruct Hg as (Hpre & _ & Hpost). rewrite !length_app, length_replicate in Hn.
    assert (Hd : drop (length pre + l) (pre ++ replicate l 0%Z ++ post) = post) by (rewrite app_assoc, drop_app_length'; [done|by rewrite length_app, length_replicate]).
    rewrite Hs, <-Hp, take_app_length, Hd. split.
    + rewrite (parse_collapsed pre l post), <-Hs, Hu by (done || lia). done.
    + destruct pre as [|g pre]; [done|]. apply Forall_cons in Hpre as [Hg _]. destruct pre as [|g' pre]; [apply family_colon; by apply append_hex_digits|].
      rewrite hex_groups_cons, <-app_assoc. apply family_colon. by apply append_hex_digits.
  - destruct (groups a) as [|g [|g' gs]] eqn:Eg; [done..|]. split.
    + unfold parseIPv6. rewrite Cut_none by (by apply hex_groups_plain). cbn [mbind option_bind].
      destruct (hex_groups_head g (g' :: gs)) as (c & s & Hs & Hc); [by apply Forall_cons in Hg as []|]. rewrite Hs, not_leading by (intros ->; by destruct Hc). cbn [andb].
      rewrite <-Hs. destruct (loop_groups (g :: g' :: gs) 9 []) as [-> _]; [done|done|rewrite Hn; cbn; lia|rewrite Hn; lia|]. cbn [mbind option_bind].
      rewrite bool_decide_eq_true_2 by done. rewrite app_nil_l, Hu. unfold expand_ipv6. by rewrite Hl.
    + rewrite hex_groups_cons. apply family_colon, append_hex_digits. by apply Forall_cons in Hg as [].
Qed.

Lemma family_dot a : length a = 4 -> Forall is_byte a -> addr_family (string4 a) = Some 46%Z.
Proof.
  destruct a as [|a [|b l]]; try done. intros _ [Ha _]%Forall_cons. unfold string4. cbn [map join]. change (str ".") with [46%Z]. cbn [app].
  assert (Hd : forall d s, (0 <= d <= 9)%Z -> addr_family ((48 + d)%Z :: s) = addr_family s).
  { intros d s Hd. cbn [addr_family]. by rewrite !(proj2 (Z.eqb_neq _ _)) by lia. }
  destruct (Itoa_shape a Ha) as [[-> Hs]|[(x & y & -> & Hx & Hy & _)|(x & y & z & -> & Hx & Hy & Hz & _)]]; cbn [app]; by rewrite !Hd by (unfold is_byte, fits in Ha; lia).
Qed.

Lemma parse_mapped a : length a = 4 -> Forall is_byte a -> parseIPv6 (str "::ffff:" ++ string4 a) = Some (AddrV6 (v4_mapped ++ a), []).
Proof.
  intros Hl Ha. pose proof (string4_fields a Hl Ha) as Hf. destruct a as [|b0 [|b1 [|b2 [|b3 [|]]]]]; try done. rewrite !Forall_cons in Ha. destruct Ha as (H0 & H1 & H2 & H3 & _).
  assert (Hplain : Forall (fun c => c <> 37%Z) (string4 [b0; b1; b2; b3])).
  { assert (Hi : forall n, is_byte n -> Forall (fun c => c <> 37%Z) (Itoa n)).
    { intros n Hn. unfold is_byte, fits in Hn. cbn in Hn. destruct (Itoa_shape n Hn) as [[-> Hs]|[(x & y & -> & Hx & Hy & _)|(x & y & z & -> & Hx & Hy & Hz & _)]]; repeat constructor; lia. }
    unfold string4. cbn [map join]. change (str ".") with [46%Z]. rewrite !Forall_app. split_and!; try (by apply Hi); by repeat constructor. }
  unfold parseIPv6. rewrite Cut_none by (apply Forall_app; split; [by repeat constructor|done]). cbn [mbind option_bind].
  change (str "::ffff:") with [58; 58; 102; 102; 102; 102; 58]%Z. cbn [app]. cbv beta iota zeta. rewrite bool_decide_eq_false_2 by done. cbn [andb].
  destruct (string4 [b0; b1; b2; b3]) as [|c s] eqn:Es; [done|]. assert (Hc : (c =? 58)%Z = false).
  { unfold string4 in Es. cbn [map join] in Es. destruct (Itoa_shape b0 H0) as [[E Hs]|[(x & y & E & Hx & Hy & _)|(x & y & z & E & Hx & Hy & Hz & _)]]; rewrite E in Es; injection Es as <- _;
      apply Z.eqb_neq; unfold is_byte, fits in H0; lia. }
  pose proof (loop_group 8 65535 (58%Z :: c :: s) [] (Some 0) ltac:(unfold is_group; lia) ltac:(cbn; lia) eq_refl eq_refl) as Hg.
  change (append_hex 65535) with [102; 102; 102; 102]%Z in Hg. cbn [app] in Hg. rewrite Hg. cbn [negb Z.eqb Pos.eqb]. rewrite Hc. change (group_bytes 65535) with [255; 255]%Z.
  assert (Hh : exists acc k rest, hex_group (c :: s) 0 0 = Some (acc, S k, 46%Z :: rest)).
  { rewrite <-Es. destruct (field_hex b0 (46%Z :: Itoa b1 ++ 46%Z :: Itoa b2 ++ 46%Z :: Itoa b3) H0 eq_refl) as (acc & k & Hh). by eexists _, _, _. }
  destruct Hh as (acc & k & rest & Hh). change 8 with (S 7). cbn [ipv6_loop length Nat.leb app]. rewrite Hh. cbn [mbind option_bind Nat.eqb Z.eqb Pos.eqb length Nat.add Nat.ltb Nat.leb].
  by rewrite Hf.
Qed.

(** The parser reads back a printed address. *)
Lemma Addr_String_parse a : Addr_wf a -> IsValid a = true -> ParseAddr (Addr_String a) = Some (a, []).
Proof.
  unfold ParseAddr. destruct a as [|b|b]; [done|intros [Hl Hb] _..]; cbn [Addr_String].
  - rewrite family_dot by done. cbn [mbind option_bind]. cbn. by rewrite string4_fields.
  - destruct (Is4In6 (AddrV6 b)) eqn:E.
    + unfold Is4In6 in E. apply bool_decide_eq_true in E. cbn [addr_family]. change (addr_family (str "::ffff:" ++ string4 (drop 12 b))) with (Some 58%Z). cbn [mbind option_bind]. cbn [Z.eqb Pos.eqb].
      rewrite parse_mapped by (by rewrite ?length_drop, ?Hl || by apply Forall_drop). by rewrite <-E, take_drop.
    + destruct (parse_string6 b Hl Hb) as [Hp ->]. exact Hp.
Qed.

Lemma Addr_String_inj a b : Addr_wf a -> Addr_wf b -> IsValid a = true -> IsValid b = true -> Addr_String a = Addr_String b -> a = b.
Proof.
  intros Ha Hb Va Vb E. pose proof (Addr_String_parse a Ha Va) as H. rewrite E, (Addr_String_parse b Hb Vb) in H. by injection H.
Qed.

(** ** Ports *)

Definition is_digit_char (c : Z) : Prop := (48 <= c <= 57)%Z.
Definition decimal (v : Z) (ds : bytes) : Z := fold_left (fun v c => v * 10 + (c - 48))%Z ds v.

Lemma digits_of_decimal fuel n acc : (0 <= n < 10 ^ Z.of_nat fuel)%Z -> 0 < fuel ->
  exists ds, digits_of fuel n acc = ds ++ acc /\ Forall is_digit_char ds /\ ds <> [] /\ decimal 0 ds = n.
Proof.
  revert n acc. induction fuel as [|fuel IH]; intros n acc Hn Hf; [lia|]. cbn [digits_of]. pose proof (Z.mod_pos_bound n 10 ltac:(lia)). pose proof (Z.div_mod n 10 ltac:(lia)).
  destruct (Z.ltb_spec n 10).
  - exists [48 + n mod 10]%Z. split; [done|]. split; [repeat constructor; unfold is_digit_char; lia|]. split; [done|]. unfold decimal. cbn. rewrite Z.mod_small by lia. lia.
  - destruct fuel as [|fuel]; [cbn in Hn; lia|]. destruct (IH (n / 10)%Z ((48 + n mod 10)%Z :: acc)) as (ds & -> & Hd & Hne & Hv); [|lia|].
    { split; [apply Z.div_pos; lia|]. apply Z.div_lt_upper_bound; [lia|]. rewrite (Nat2Z.inj_succ (S fuel)), Z.pow_succ_r in Hn by lia. lia. }
    exists (ds ++ [48 + n mod 10]%Z). split; [by rewrite <-app_assoc|]. split; [apply Forall_app; split; [done|]; repeat constructor; unfold is_digit_char; lia|]. split; [by destruct ds|].
    unfold decimal in *. rewrite fold_left_app. cbn. rewrite Hv. lia.
Qed.

Lemma decimal_ge ds v : Forall is_digit_char ds -> (0 <= v)%Z -> (v <= decimal v ds)%Z.
Proof.
  intros H. revert v. unfold decimal. induction H as [|c ds Hc H IH]; intros v Hv; cbn; [lia|]. unfold is_digit_char in Hc. etrans; [|apply IH; lia]. lia.
Qed.

Lemma parse_decimal ds u max v : Forall is_digit_char ds -> (0 <= v)%Z -> (decimal v ds <= max)%Z -> parse_digits 10 u max v ds = Some (decimal v ds).
Proof.
  intros H. revert v. unfold decimal. induction H as [|c ds Hc H IH]; intros v Hv Hm; [done|]. unfold is_digit_char in Hc. cbn [parse_digits fold_left] in *. pose proof (decimal_ge ds (v * 10 + (c - 48))%Z H ltac:(lia)) as Hge. unfold decimal in Hge.
  rewrite (proj2 (Z.eqb_neq c 95)) by lia. cbn [andb]. unfold is_digit. rewrite !(proj2 (Z.leb_le _ _)) by lia. cbn [andb mbind option_bind]. destruct (Z.leb_spec 10 (c - 48)); [lia|].
  destruct (Z.ltb_spec max (v * 10 + (c - 48))); [lia|]. by apply IH; [lia|].
Qed.

Lemma Itoa_decimal n : (0 <= n < 2 ^ 64)%Z -> Forall is_digit_char (Itoa n) /\ Itoa n <> [] /\ decimal 0 (Itoa n) = n.
Proof.
  intros Hn. destruct (digits_of_decimal 20 n []) as (ds & E & H); [|lia|].
  - split; [lia|]. etrans; [apply Hn|]. done.
  - unfold Itoa. rewrite E, app_nil_r. done.
Qed.

Lemma CutLast_none s c : Forall (fun x => x <> c) s -> CutLast s c = None.
Proof. induction 1 as [|x s Hx H IH]; [done|]. cbn. rewrite IH. by rewrite (proj2 (Z.eqb_neq x c)). Qed.
Lemma CutLast_app a s c : Forall (fun x => x <> c) s -> CutLast (a ++ c :: s) c = Some (a, s).
Proof. intros H. induction a as [|x a IH]; cbn; [by rewrite CutLast_none, Z.eqb_refl|by rewrite IH]. Qed.

Lemma string4_chars a : Forall is_byte a -> Forall (fun c => is_digit_char c \/ c = 46%Z) (string4 a).
Proof.
  unfold string4. change (str ".") with [46%Z]. induction 1 as [|b a Hb H IH]; [constructor|]. unfold is_byte, fits in Hb. cbn in Hb. destruct (Itoa_decimal b ltac:(lia)) as (Hd & _).
  assert (Hi : Forall (fun c => is_digit_char c \/ c = 46%Z) (Itoa b)) by (eapply Forall_impl; [exact Hd|]; by left).
  destruct a as [|b' a]; [done|]. cbn [map join] in *. rewrite !Forall_app. split; [done|]. split; [constructor; [by right|constructor]|done].
Qed.

Lemma family_contains s c : addr_family s = Some c -> ContainsByte s c = true.
Proof.
  induction s as [|x s IH]; [done|]. cbn [addr_family]. unfold ContainsByte. cbn [existsb]. destruct (_ || _); [intros [= ->]; by rewrite Z.eqb_refl|]. intros H. apply IH in H. unfold ContainsByte in H. rewrite H. apply orb_true_r.
Qed.

(** A printed address and port are read back. *)
Lemma AddrPort_String_parse p : Addr_wf (ap_addr p) -> AddrPort_IsValid p = true -> fits 16 (ap_port p) -> ParseAddrPort (AddrPort_String p) = Some (p, []).
Proof.
  destruct p as [a port]. unfold AddrPort_IsValid, fits. cbn [ap_addr ap_port]. intros Hw Hv Hp. pose proof (Addr_String_parse a Hw Hv) as Ha.
  destruct (Itoa_decimal port ltac:(cbn in Hp; lia)) as (Hd & Hne & Hdec).
  assert (Hport : parse_digits 10 false 65535 0 (Itoa port) = Some port) by (rewrite parse_decimal, Hdec; [done|done|lia|rewrite Hdec; cbn in Hp; lia]).
  assert (Hcut : Forall (fun x => x <> 58%Z) (Itoa port)) by (eapply Forall_impl; [exact Hd|]; unfold is_digit_char; intros; lia).
  unfold AddrPort_String, JoinHostPort. cbn [ap_addr ap_port]. destruct a as [|b|b]; [done|..]; destruct Hw as [Hl Hb].
  - assert (Hc : Forall (fun c => is_digit_char c \/ c = 46%Z) (string4 b)) by (by apply string4_chars). cbn [Addr_String] in *.
    assert (E : ContainsByte (string4 b) 58 = false).
    { apply not_true_is_false. unfold ContainsByte. intros (x & Hin & Hx)%existsb_exists. apply Z.eqb_eq in Hx as <-. rewrite Forall_forall in Hc. apply list_elem_of_In, Hc in Hin. unfold is_digit_char in Hin. lia. }
    rewrite E. unfold ParseAddrPort. change (str ":") with [58%Z]. cbn [app]. rewrite CutLast_app by done. cbn [mbind option_bind].
    destruct (string4 b) as [|c s]; [done|]. rewrite !bool_decide_eq_false_2 by done. cbn [orb].
    assert (Hc91 : (match c :: s with 91%Z :: rest => match last rest with Some 93%Z => Some (removelast rest, true) | _ => None end | _ => Some (c :: s, false) end) = Some (c :: s, false)).
    { apply Forall_cons in Hc as [Hc _]. unfold is_digit_char in Hc. repeat (case_match; try done); lia. }
    rewrite Hc91. cbn [mbind option_bind]. rewrite Hport. cbn [mbind option_bind]. by rewrite Ha.
  - assert (E : ContainsByte (Addr_String (AddrV6 b)) 58 = true).
    { cbn [Addr_String]. destruct (Is4In6 (AddrV6 b)); [done|]. by apply family_contains, parse_string6. }
    rewrite E. set (h := Addr_String (AddrV6 b)) in *. unfold ParseAddrPort. change (str "[") with [91%Z]. change (str "]:") with [93%Z; 58%Z].
    replace ([91%Z] ++ h ++ [93%Z; 58%Z] ++ Itoa port) with ((91%Z :: h ++ [93%Z]) ++ 58%Z :: Itoa port) by (cbn; by rewrite <-app_assoc).
    rewrite CutLast_app by done. cbn [mbind option_bind]. rewrite !bool_decide_eq_false_2 by done. cbn [orb]. rewrite last_snoc, removelast_last. cbn [mbind option_bind]. rewrite Hport. cbn [mbind option_bind]. by rewrite Ha.
Qed.
