(* ===== verification/RoutingRules.v ===== *)
(** * Rules, outbounds and function parsers (component/routing)

    How a parsed rule drives a builder: outbound parameters, grouping of function
    parameters by key, the logical target of every group, and the parsers that turn
    parameter values into typed arguments. The builder is a parameter [B]. *)

From S2P Require Import Prelude Netip GoStrings NetipParse ConfigSyntax RoutingInstr.

(** ** Names (common/consts/routing.go) *)

Definition Function_Domain : string := "domain".
Definition Function_DestIp : string := "dip".
Definition Function_SourceIp : string := "sip".
Definition Function_DestPort : string := "dport".
Definition Function_SourcePort : string := "sport".
Definition Function_L4Proto : string := "l4proto".
Definition Function_IpVersion : string := "ipversion".
Definition Function_Mac : string := "mac".
Definition Function_Client : string := "client".
Definition Function_ProcessName : string := "pname".
Definition Function_Dscp : string := "dscp".
Definition Function_Interface : string := "interface".
Definition Function_QName : string := "qname".

(** ** Outbounds *)

Record Outbound := mkOutbound {
  o_Name : string;
  o_Mark : Z;
  o_Must : bool;
  o_SkipWhileNoalive : bool;
}.

Definition outbound_param (o : Outbound) (p : Param) : res Outbound :=
  if String.eqb (p_Key p) "mark" then
    match ParseUint0 32 (str (p_Val p)) with
    | Some mark => Ok (mkOutbound (o_Name o) mark (o_Must o) (o_SkipWhileNoalive o))
    | None => Err "failed to parse mark"
    end
  else if String.eqb (p_Key p) "skip_while_noalive" then
    match ParseBool (p_Val p) with
    | Some skip => Ok (mkOutbound (o_Name o) (o_Mark o) (o_Must o) skip)
    | None => Err "failed to parse skip_while_noalive"
    end
  else if String.eqb (p_Key p) "" then
    if String.eqb (p_Val p) "must" then Ok (mkOutbound (o_Name o) (o_Mark o) true (o_SkipWhileNoalive o))
    else if String.eqb (p_Val p) "skip_while_noalive" then Ok (mkOutbound (o_Name o) (o_Mark o) (o_Must o) true)
    else Err "unknown outbound param"
  else Err "unknown outbound param key".

Definition ParseOutbound (rawOutbound : Function) : res Outbound :=
  foldM outbound_param (mkOutbound (f_Name rawOutbound) 0 false false) (f_Params rawOutbound).

(** ** Predicates *)

(** Groups in the order of first occurrence of their key. *)
Fixpoint add_value (groups : list (string * list string)) (key value : string) : list (string * list string) :=
  match groups with
  | [] => [(key, [value])]
  | (k, vs) :: groups =>
    if String.eqb k key then (k, vs ++ [value]) :: groups else (k, vs) :: add_value groups key value
  end.

Definition groupParamValuesByKey (params : list Param) : list (string * list string) :=
  fold_left (fun groups param => add_value groups (p_Key param) (p_Val param)) params [].

Section Builder.
Context {B : Type}.

Definition FunctionParser : Type := Function -> string -> list string -> Outbound -> B -> res B.

(** [RulesBuilder.parsers]: the registered parsers by name. *)
Definition RulesBuilder : Type := string -> option FunctionParser.

Definition with_Name (o : Outbound) (name : string) : Outbound :=
  mkOutbound name (o_Mark o) (o_Must o) (o_SkipWhileNoalive o).

(** The groups of one function; [last_function] tells that the rule ends with it. *)
Fixpoint apply_groups (parser : FunctionParser) (f : Function) (groups : list (string * list string))
    (last_function : bool) (outbound : Outbound) (b : B) : res B :=
  match groups with
  | [] => Ok b
  | (key, values) :: groups =>
    let name :=
      if is_empty groups then
        if last_function then o_Name outbound else OutboundIndex_String OutboundLogicalAnd
      else OutboundIndex_String OutboundLogicalOr in
    b ← parser f key values (with_Name outbound name) b;
    apply_groups parser f groups last_function outbound b
  end.

Fixpoint apply_functions (parsers : RulesBuilder) (functions : list Function) (outbound : Outbound) (b : B) : res B :=
  match functions with
  | [] => Ok b
  | f :: functions =>
    if is_empty (f_Params f) then Err "predicate functions require arguments"
    else
      match parsers (f_Name f) with
      | None => Err "unknown function"
      | Some parser =>
        if String.eqb (f_Name f) Function_Client && negb (length (f_Params f) =? 1)
        then Err "client requires exactly one set name"
        else
          b ← apply_groups parser f (groupParamValuesByKey (f_Params f)) (is_empty functions) outbound b;
          apply_functions parsers functions outbound b
      end
  end.

Definition ApplyPredicate (parsers : RulesBuilder) (functions : list Function) (outbound : Outbound) (b : B) : res B :=
  if is_empty functions then Err "empty predicate" else apply_functions parsers functions outbound b.

Definition Apply (parsers : RulesBuilder) (rules : list RoutingRule) (b : B) : res B :=
  foldM (fun b rule => outbound ← ParseOutbound (r_Outbound rule); ApplyPredicate parsers (r_AndFunctions rule) outbound b) b rules.
End Builder.
Arguments FunctionParser : clear implicits.
Arguments RulesBuilder : clear implicits.

(** ** Typed values *)

Definition parse_prefix (value : string) : option Prefix :=
  match ParsePrefix (str value) with
  | Some prefix => Some prefix
  | None => '(addr, _) ← ParseAddr (str value); Some (PrefixFrom addr (BitLen addr))
  end.

Definition values_of {A} (parse : string -> option A) (msg : string) (values : list string) : res (list A) :=
  match mapM parse values with Some l => Ok l | None => Err msg end.

Definition parsePrefixes (values : list string) : res (list Prefix) := values_of parse_prefix "cannot parse" values.

Definition parseMac (mac : string) : option bytes :=
  let fields := SplitN 6 (str mac) 58 in
  if negb (length fields =? 6) then None
  else mapM (fun field => v ← DecodeHex field; match v with [b] => Some b | _ => None end) fields.

Definition parse_port (field : bytes) : option Z :=
  match field with
  | [] => None
  | _ => port ← Atoi field; if (port <? 0)%Z || (65535 <? port)%Z then None else Some port
  end.

Definition parsePortRange (pr : string) : option (Z * Z) :=
  ports ← mapM parse_port (SplitN 2 (str pr) 45);
  match ports with
  | [p] => Some (p, p)
  | [p; q] => Some (p, q)
  | _ => None
  end.

Definition TaskCommLen : nat := 16.

(** [copy] into a zeroed array. *)
Definition toProcessName (processName : string) : bytes :=
  take TaskCommLen (str processName ++ replicate TaskCommLen 0%Z).

Definition parse_l4proto (v : string) : option Z :=
  if String.eqb v "tcp" then Some L4ProtoType_TCP
  else if String.eqb v "udp" then Some L4ProtoType_UDP
  else if String.eqb v "utp" then Some L4ProtoType_uTP
  else None.

Definition parse_ipversion (v : string) : option Z :=
  if String.eqb v "4" then Some IpVersion_4 else if String.eqb v "6" then Some IpVersion_6 else None.

Definition union_flags (l : list Z) : Z := fold_left Z.lor l 0%Z.

(** ** Parser factories *)

Section Factories.
Context {B : Type}.

Definition PlainParserFactory (callback : Function -> string -> list string -> Outbound -> B -> res B) : FunctionParser B :=
  callback.

Definition EmptyKeyPlainParserFactory (callback : Function -> list string -> Outbound -> B -> res B) : FunctionParser B :=
  fun f key values outbound b =>
    if negb (String.eqb key "") then Err "this function cannot accept a key" else callback f values outbound b.

(** Parse every value, then call back. *)
Definition typed_parser {A} (parse : list string -> res A) (callback : Function -> A -> Outbound -> B -> res B)
    : FunctionParser B :=
  EmptyKeyPlainParserFactory (fun f values outbound b => vs ← parse values; callback f vs outbound b).

Definition IpParserFactory := typed_parser parsePrefixes.
Definition MacParserFactory := typed_parser (values_of parseMac "invalid mac").
Definition PortRangeParserFactory := typed_parser (values_of parsePortRange "bad port range").
Definition L4ProtoParserFactory :=
  typed_parser (fun values => union_flags <$> values_of parse_l4proto "unsupported l4proto" values).
Definition IpVersionParserFactory :=
  typed_parser (fun values => union_flags <$> values_of parse_ipversion "unsupported ipversion" values).
Definition ProcessNameParserFactory := typed_parser (fun values => Ok (map toProcessName values)).
Definition UintParserFactory (bits : nat) :=
  typed_parser (values_of (fun v => ParseUint0 bits (str v)) "cannot parse").
End Factories.
