(* ===== verification/RoutingBuilder.v ===== *)
(** * The routing builder (control/routing_matcher_builder.go, routing_instruction.go)

    The builder appends instructions and interns the sets they refer to. Diagnostic
    metadata ([rememberMatch], [rememberRule]) is left out: no instruction depends
    on it. The signature hash is any function: equal signatures are always followed
    by a comparison of the sets. *)

From stdpp Require Import sorting.
From S2P Require Import Prelude Netip GoStrings NetipParse ConfigSyntax RoutingInstr RoutingRules.

(** ** State *)

Record DomainSet := mkDomainSet { ds_Key : string; ds_RuleIndex : nat; ds_Domains : list string }.

#[export] Instance DomainSet_eq_dec : EqDecision DomainSet.
Proof. solve_decision. Defined.

(** The sets instructions refer to by index. *)
Record Tables := mkTables {
  simulatedLpmTries : list (list Prefix);
  clientSetSlots : gmap string nat;
  domainSetIDs : gmap bytes (list nat);
  staticLpmIDs : gmap bytes (list nat);
  simulatedDomainSet : list DomainSet;
}.

Record Builder := mkBuilder {
  rules : list bpfMatchSet;
  tables : Tables;
  kernelLpmLen : nat;
  routing_end : nat;
  outboundName2Id : gmap string Z;
  defaultProfile : Z;
  b_profiles : list routingProfile;
  fallbackSpans : list (bpfMatchSet * routingSpan);
  interfaceRulePatches : list (string * nat);
}.

Definition with_rules (b : Builder) (r : list bpfMatchSet) : Builder :=
  mkBuilder r (tables b) (kernelLpmLen b) (routing_end b) (outboundName2Id b) (defaultProfile b) (b_profiles b)
    (fallbackSpans b) (interfaceRulePatches b).
Definition with_tables (b : Builder) (t : Tables) : Builder :=
  mkBuilder (rules b) t (kernelLpmLen b) (routing_end b) (outboundName2Id b) (defaultProfile b) (b_profiles b)
    (fallbackSpans b) (interfaceRulePatches b).
Definition with_ends (b : Builder) (kernel_len end_ : nat) : Builder :=
  mkBuilder (rules b) (tables b) kernel_len end_ (outboundName2Id b) (defaultProfile b) (b_profiles b)
    (fallbackSpans b) (interfaceRulePatches b).
Definition with_defaultProfile (b : Builder) (id : Z) : Builder :=
  mkBuilder (rules b) (tables b) (kernelLpmLen b) (routing_end b) (outboundName2Id b) id (b_profiles b)
    (fallbackSpans b) (interfaceRulePatches b).
Definition with_profiles (b : Builder) (ps : list routingProfile) : Builder :=
  mkBuilder (rules b) (tables b) (kernelLpmLen b) (routing_end b) (outboundName2Id b) (defaultProfile b) ps
    (fallbackSpans b) (interfaceRulePatches b).
Definition with_fallbacks (b : Builder) (fs : list (bpfMatchSet * routingSpan)) : Builder :=
  mkBuilder (rules b) (tables b) (kernelLpmLen b) (routing_end b) (outboundName2Id b) (defaultProfile b) (b_profiles b)
    fs (interfaceRulePatches b).
Definition with_patches (b : Builder) (ps : list (string * nat)) : Builder :=
  mkBuilder (rules b) (tables b) (kernelLpmLen b) (routing_end b) (outboundName2Id b) (defaultProfile b) (b_profiles b)
    (fallbackSpans b) ps.

Definition empty_tables : Tables := mkTables [] ∅ ∅ ∅ [].

(** The fields of [newRoutingMatcherBuilder]; the parsers it registers are
    [parsers] below. *)
Definition newRoutingMatcherBuilder (outbounds : gmap string Z) : Builder :=
  mkBuilder [] empty_tables 0 0 outbounds 0 [] [] [].

(** ** Instructions *)

Definition matchSet (b : Builder) (kind : Z) (not_ : bool) (outbound : Outbound) : res bpfMatchSet :=
  let set action := newMatchSet kind action (routingMatchFlags not_ false false) in
  if String.eqb (o_Name outbound) (OutboundIndex_String OutboundLogicalOr) then Ok (set MatchActionOr)
  else if String.eqb (o_Name outbound) (OutboundIndex_String OutboundLogicalAnd) then Ok (set MatchActionAnd)
  else
    match outboundName2Id b !! o_Name outbound with
    | None => Err "outbound (group) not found"
    | Some id =>
      if o_SkipWhileNoalive outbound && (kind =? MatchType_Fallback)%Z
      then Err "skip_while_noalive cannot be used on fallback"
      else if o_SkipWhileNoalive outbound && ((id =? OutboundDirect)%Z || (id =? OutboundBlock)%Z)
      then Err "skip_while_noalive cannot be used on outbound"
      else
        Ok (mkMatch zero16 kind MatchActionRoute
              (routingMatchFlags not_ (o_Must outbound) (o_SkipWhileNoalive outbound)) id (o_Mark outbound))
    end.

Definition addMatch (f : Function) (kind : Z) (value : bytes) (outbound : Outbound) (b : Builder) : res Builder :=
  set ← matchSet b kind (f_Not f) outbound;
  Ok (with_rules b (rules b ++ [with_Value set value])).

(** The OR instructions of [addMatches] before the tail. *)
Fixpoint match_list (kind : Z) (not_ : bool) (tail : bpfMatchSet) (values : list bytes) : list bpfMatchSet :=
  match values with
  | [] => []
  | [v] => [with_Value tail v]
  | v :: values =>
    with_Value (newMatchSet kind MatchActionOr (routingMatchFlags not_ false false)) v :: match_list kind not_ tail values
  end.

Definition addMatches {A} (f : Function) (kind : Z) (values : list A) (encode : A -> bytes) (outbound : Outbound)
    (b : Builder) : res Builder :=
  tail ← matchSet b kind (f_Not f) outbound;
  Ok (with_rules b (rules b ++ match_list kind (f_Not f) tail (map encode values))).

(** ** Sets *)

Definition string_le (a b : string) : Prop := Is_true (String.leb a b).
#[export] Instance string_le_dec : RelDecision string_le.
Proof. intros a b. unfold string_le. apply _. Defined.

(** [slices.Compact]. *)
Fixpoint Compact {A} `{EqDecision A} (l : list A) : list A :=
  match l with
  | [] => []
  | x :: l =>
    match l with
    | [] => [x]
    | y :: _ => if decide (x = y) then Compact l else x :: Compact l
    end
  end.

Definition sort_strings (values : list string) : list string := Compact (merge_sort string_le values).

Definition prefix_le (p q : Prefix) : Prop := Prefix_Compare p q <> Gt.
#[export] Instance prefix_le_dec : RelDecision prefix_le.
Proof. intros p q. unfold prefix_le. apply _. Defined.

Definition normalize_prefixes (values : list Prefix) : list Prefix := Compact (merge_sort prefix_le (map Masked values)).

(** The first of the candidate ids whose set passes the test. *)
Definition find_id (test : nat -> bool) (candidates : list nat) : option nat :=
  head (List.filter test candidates).

Section Hash.
Context (sha256 : bytes -> bytes).

(** The hashed encodings. *)
Definition sized (s : string) : bytes := put_le 8 (Z.of_nat (String.length s)) ++ str s.
Definition domain_signature (key : string) (values : list string) : bytes :=
  sha256 (flat_map sized (key :: values)).
Definition prefix_signature (values : list Prefix) : bytes :=
  sha256 (flat_map (fun p => As16 (pfx_addr p) ++ [wrap 8 (pfx_bits p); wrap 8 (BitLen (pfx_addr p))]) values).

Definition internLPM (values : list Prefix) (t : Tables) : nat * Tables :=
  let values := normalize_prefixes values in
  let key := prefix_signature values in
  let ids := default [] (staticLpmIDs t !! key) in
  match find_id (fun id => bool_decide (simulatedLpmTries t !! id = Some values)) ids with
  | Some id => (id, t)
  | None =>
    let id := length (simulatedLpmTries t) in
    (id, mkTables (simulatedLpmTries t ++ [values]) (clientSetSlots t) (domainSetIDs t)
           (<[key := ids ++ [id]]> (staticLpmIDs t)) (simulatedDomainSet t))
  end.

(** The domain set with these contents, or [None] when there is no room. *)
Definition internDomain (key : string) (values : list string) (t : Tables) : option (nat * Tables) :=
  let values := sort_strings values in
  let signature := domain_signature key values in
  let ids := default [] (domainSetIDs t !! signature) in
  match find_id (fun id => match simulatedDomainSet t !! id with
                           | Some set => String.eqb (ds_Key set) key && bool_decide (ds_Domains set = values)
                           | None => false
                           end) ids with
  | Some id => Some (id, t)
  | None =>
    let id := length (simulatedDomainSet t) in
    if MaxMatchSetLen <=? id then None
    else
      Some (id, mkTables (simulatedLpmTries t) (clientSetSlots t) (<[signature := ids ++ [id]]> (domainSetIDs t))
                  (staticLpmIDs t) (simulatedDomainSet t ++ [mkDomainSet key id values]))
  end.

Definition is_domain_key (key : string) : bool := existsb (String.eqb key) ["regex"; "full"; "keyword"; "suffix"].

Definition addDomain (f : Function) (key : string) (values : list string) (outbound : Outbound) (b : Builder) : res Builder :=
  if negb (is_domain_key key) then Err "addDomain: unsupported key"
  else
    match internDomain key values (tables b) with
    | None => Err "too many distinct domain predicates"
    | Some (id, t) => addMatch f MatchType_DomainSet (PutUint32 (Z.of_nat id)) outbound (with_tables b t)
    end.

Definition sourceMacPrefixes (macAddrs : list bytes) : list Prefix :=
  map (fun mac => PrefixFrom (AddrFrom16 (replicate 10 0%Z ++ mac)) 128) macAddrs.

(** [addIp], [addSourceIp] and [addSourceMac] differ in the match type. *)
Definition add_lpm (kind : Z) (f : Function) (values : list Prefix) (outbound : Outbound) (b : Builder) : res Builder :=
  let '(id, t) := internLPM values (tables b) in
  addMatch f kind (PutUint32 (Z.of_nat id)) outbound (with_tables b t).
Definition addIp := add_lpm MatchType_IpSet.
Definition addSourceIp := add_lpm MatchType_SourceIpSet.
Definition addSourceMac (f : Function) (macAddrs : list bytes) (outbound : Outbound) (b : Builder) : res Builder :=
  add_lpm MatchType_Mac f (sourceMacPrefixes macAddrs) outbound b.

(** ** Client sets *)

(** One leading white-space rune of a UTF-8 string. *)
Definition strip_space (s : bytes) : option bytes :=
  match s with
  | 194%Z :: c :: s => if (c =? 133)%Z || (c =? 160)%Z then Some s else None
  | 225%Z :: 154%Z :: 128%Z :: s => Some s
  | 226%Z :: 128%Z :: c :: s =>
    if in_range 128 138 c || (c =? 168)%Z || (c =? 169)%Z || (c =? 175)%Z then Some s else None
  | 226%Z :: 129%Z :: 159%Z :: s => Some s
  | 227%Z :: 128%Z :: 128%Z :: s => Some s
  | c :: s => if in_range 9 13 c || (c =? 32)%Z then Some s else None
  | [] => None
  end.

(** [strings.TrimSpace(s) == ""]; every rune consumes a byte. *)
Fixpoint all_space (fuel : nat) (s : bytes) : bool :=
  match s, fuel with
  | [], _ => true
  | _, 0 => false
  | _, S fuel => match strip_space s with Some s => all_space fuel s | None => false end
  end.

(** [strings.ContainsFunc(s, unicode.IsControl)]: C0 controls, DEL, and C1 controls
    in their two-byte encoding. *)
Fixpoint has_control (s : bytes) : bool :=
  match s with
  | [] => false
  | c :: s =>
    (c <? 32)%Z || (c =? 127)%Z ||
    ((c =? 194)%Z && match s with d :: _ => in_range 128 159 d | [] => false end) || has_control s
  end.

Definition ValidateClientName (name : string) : bool :=
  let s := str name in
  negb (all_space (length s) s || (128 <? length s) || ContainsByte s 47 || has_control s).

Definition addClient (f : Function) (names : list string) (outbound : Outbound) (b : Builder) : res Builder :=
  name ← idx (head names);
  if negb (ValidateClientName name) then Err "invalid client set name"
  else
    let t := tables b in
    let '(slot, t) :=
      match clientSetSlots t !! name with
      | Some slot => (slot, t)
      | None =>
        let slot := length (simulatedLpmTries t) in
        (slot, mkTables (simulatedLpmTries t ++ [[]]) (<[name := slot]> (clientSetSlots t)) (domainSetIDs t)
                 (staticLpmIDs t) (simulatedDomainSet t))
      end in
    addMatch f MatchType_Mac (PutUint32 (Z.of_nat slot)) outbound (with_tables b t).

(** ** Values without tables *)

Definition addPort (f : Function) (values : list (Z * Z)) := addMatches f MatchType_Port values encodePortRange.
Definition addSourcePort (f : Function) (values : list (Z * Z)) := addMatches f MatchType_SourcePort values encodePortRange.

(** [[16]byte{b}]. *)
Definition byte_value (v : Z) : bytes := v :: replicate 15 0%Z.
Definition addL4Proto (f : Function) (values : Z) := addMatch f MatchType_L4Proto (byte_value values).
Definition addIpVersion (f : Function) (values : Z) := addMatch f MatchType_IpVersion (byte_value values).
Definition addProcessName (f : Function) (values : list bytes) := addMatches f MatchType_ProcessName values (fun v => v).
Definition addDscp (f : Function) (values : list Z) := addMatches f MatchType_Dscp values byte_value.

Definition ValidateRoutingInterfaceName (name : string) : bool :=
  let s := str name in
  negb (bool_decide (s = []) || (15 <? length s) || String.eqb name "." || String.eqb name ".." ||
        existsb (fun c => ContainsByte [47; 58; 0; 32; 9; 10; 13; 11; 12]%Z c) s).

Definition addInterface (f : Function) (values : list string) (outbound : Outbound) (b : Builder) : res Builder :=
  if negb (forallb ValidateRoutingInterfaceName values) then Err "invalid exact routing interface name"
  else
    let start := length (rules b) in
    b ← addMatches f MatchType_IfIndex values (fun _ => zero16) outbound b;
    Ok (with_patches b (interfaceRulePatches b ++ imap (fun i value => (value, start + i)) values)).

(** The parsers [newRoutingMatcherBuilder] registers. *)
Definition parsers : RulesBuilder Builder := fun name =>
  if String.eqb name Function_Domain then Some (PlainParserFactory addDomain)
  else if String.eqb name Function_DestIp then Some (IpParserFactory addIp)
  else if String.eqb name Function_SourceIp then Some (IpParserFactory addSourceIp)
  else if String.eqb name Function_DestPort then Some (PortRangeParserFactory addPort)
  else if String.eqb name Function_SourcePort then Some (PortRangeParserFactory addSourcePort)
  else if String.eqb name Function_L4Proto then Some (L4ProtoParserFactory addL4Proto)
  else if String.eqb name Function_Mac then Some (MacParserFactory addSourceMac)
  else if String.eqb name Function_Client then Some (EmptyKeyPlainParserFactory addClient)
  else if String.eqb name Function_ProcessName then Some (ProcessNameParserFactory addProcessName)
  else if String.eqb name Function_Interface then Some (EmptyKeyPlainParserFactory addInterface)
  else if String.eqb name Function_Dscp then Some (UintParserFactory 8 addDscp)
  else if String.eqb name Function_IpVersion then Some (IpVersionParserFactory addIpVersion)
  else None.

Definition applyRules (rs : list RoutingRule) (b : Builder) : res Builder := Apply parsers rs b.

(** ** Fallbacks and validation *)

Definition parseFallback (fallback : Function) (b : Builder) : res bpfMatchSet :=
  outbound ← ParseOutbound fallback; matchSet b MatchType_Fallback false outbound.

Definition lookup_fallback (fs : list (bpfMatchSet * routingSpan)) (m : bpfMatchSet) : option routingSpan :=
  snd <$> head (List.filter (fun e => bool_decide (e.1 = m)) fs).

Definition addFallback (fallback : bpfMatchSet) (b : Builder) : res (routingSpan * Builder) :=
  match lookup_fallback (fallbackSpans b) fallback with
  | Some existing => Ok (existing, b)
  | None =>
    if MaxMatchSetLen <=? length (rules b) then Err "too many physical routing match sets"
    else
      let start := length (rules b) in
      let span := mkSpan start (S start) routingPhaseRoute false in
      Ok (span, with_fallbacks (with_rules b (rules b ++ [fallback])) (fallbackSpans b ++ [(fallback, span)]))
  end.

Definition maxRoutingInterfaces : nat := 256.

Definition validate (b : Builder) : res Builder :=
  _ ← guard_err (MaxMatchSetLen <? routing_end b) "too many routing match sets";
  _ ← guard_err (MaxMatchSetLen * 2 <? length (rules b) - routing_end b) "too many destination match sets";
  _ ← guard_err (maxRoutingInterfaces <? sum_list (map (fun p => length (InterfaceNames p)) (b_profiles b)))
        "too many routing interface bindings";
  rs ← encodeRoutingJumps (rules b);
  _ ← foldM (fun _ profile => validateRoutingBlocks rs (Spans profile)) tt (b_profiles b);
  Ok (with_rules b rs).

(** Groups referenced by a rule that stays active when they are unavailable. *)
Definition criticalOutbounds (b : Builder) (outboundCount : nat) : list bool :=
  fold_left (fun critical rule =>
      if negb (Action rule =? MatchActionRoute)%Z then critical
      else if (Outbound_ rule <? OutboundUserDefinedMin)%Z || (Z.of_nat outboundCount <=? Outbound_ rule)%Z ||
              has_flag (Flags rule) matchFlagSkipNoalive then critical
      else <[Z.to_nat (Outbound_ rule) := true]> critical)
    (take (routing_end b) (rules b)) (replicate outboundCount false).

(** ** Conditional blocks *)

Definition direct : Outbound := mkOutbound "direct" 0 false false.
End Hash.
