(* ===== verification/RoutingConfig.v ===== *)
(** * Routing configuration (config/routing_parser.go, routing_actions.go, rules.go)

    Policies and rule sets as parsed sections, their structural validation with the
    reference graph of rule sets, and the classification of rule sets into routing
    and flow-control families. *)

From Stdlib Require Import String.
From S2P Require Import Prelude Netip GoStrings NetipParse ConfigSyntax RoutingInstr RoutingRules RoutingBuilder.

(** ** Types (config/config.go) *)

Inductive RoutingStatementKind := RoutingStatementRule | RoutingStatementUse | RoutingStatementUnknown.

#[export] Instance RoutingStatementKind_eq_dec : EqDecision RoutingStatementKind.
Proof. solve_decision. Defined.

(** A nil rule pointer is [None]. *)
Record RoutingStatement := mkStatement {
  st_Kind : RoutingStatementKind;
  st_Rule : option RoutingRule;
  st_Use : string;
  st_Condition : list Function;
}.

Record RoutingRuleSet := mkRuleSet { rs_Name : string; rs_Statements : list RoutingStatement }.
Record RoutingPolicy := mkPolicy {
  po_Name : string;
  po_Rules : list RoutingStatement;
  po_Statements : list RoutingStatement;
  po_Fallback : option Function;
}.
Record RoutingInterface := mkInterface { if_Name : string; if_Policy : string }.
Record Routing := mkRouting {
  Default : string;
  RuleSets : list RoutingRuleSet;
  Policies : list RoutingPolicy;
  Interfaces : list RoutingInterface;
}.

Definition statement_rule (r : RoutingRule) : RoutingStatement := mkStatement RoutingStatementRule (Some r) "" [].
Definition statement_use (name : string) (condition : list Function) : RoutingStatement :=
  mkStatement RoutingStatementUse None name condition.

(** ** Sections *)

Definition routingReference (param : Param) : res string :=
  match p_Annotation param, p_AndFunctions param, p_ValueList param with
  | [], None, [v] => if String.eqb v "" then Err "requires exactly one policy name" else Ok v
  | _, _, _ => Err "requires exactly one policy name"
  end.

(** [ParseFunctionOrString] on the three forms of a fallback. *)
Definition parseRoutingFallback (param : Param) : res Function :=
  match p_AndFunctions param with
  | None =>
    if negb (List.length (p_ValueList param) =? 1) then Err "fallback requires exactly one outbound"
    else Ok (mkFunction (p_Val param) false [] (p_Quoted param))
  | Some [f] =>
    if String.eqb (f_Name f) "use" && negb (f_Quoted f) && negb (is_empty (f_Params f))
    then Err "conditional use cannot be a fallback" else Ok f
  | Some _ => Err "expected exactly 1 function"
  end.

Definition use_param (condition : list Function) (param : Param) : res RoutingStatement :=
  if negb (String.eqb (p_Key param) "") || String.eqb (p_Val param) "" ||
     match p_AndFunctions param with Some _ => true | None => false end || negb (is_empty (p_Annotation param))
  then Err "conditional use requires nonempty positional rule_set names"
  else Ok (statement_use (p_Val param) condition).

Fixpoint mapR {A C} (f : A -> res C) (l : list A) : res (list C) :=
  match l with [] => Ok [] | a :: l => c ← f a; cs ← mapR f l; Ok (c :: cs) end.

(** The statements and the fallback an item adds. *)
Definition block_item (policy : bool) (fallback : option Function) (item : Item)
    : res (list RoutingStatement * option Function) :=
  match item with
  | ItemRule r =>
    let target := r_Outbound r in
    if String.eqb (f_Name target) "use" && negb (f_Quoted target) && (f_Not target || negb (is_empty (f_Params target))) then
      if f_Not target || is_empty (f_Params target) then Err "conditional use requires use(rule_set, ...) without negation"
      else uses ← mapR (use_param (r_AndFunctions r)) (f_Params target); Ok (uses, fallback)
    else Ok ([statement_rule r], fallback)
  | ItemParam p =>
    if negb (is_empty (p_Annotation p)) then Err "field does not support annotations"
    else if String.eqb (p_Key p) "use" then
      if match p_AndFunctions p with Some _ => true | None => false end || is_empty (p_ValueList p)
      then Err "use requires one or more rule_set names"
      else if existsb (String.eqb "") (p_ValueList p) then Err "use requires nonempty rule_set names"
      else Ok (map (fun name => statement_use name []) (p_ValueList p), fallback)
    else if String.eqb (p_Key p) "fallback" then
      if negb policy then Err "rule_set cannot contain fallback"
      else
        match fallback with
        | Some _ => Err "duplicate policy fallback"
        | None => f ← parseRoutingFallback p; Ok ([], Some f)
        end
    else Err "unexpected key"
  | _ => Err "unsupported routing item"
  end.

Fixpoint block_items (policy : bool) (items : list Item) (fallback : option Function)
    : res (list RoutingStatement * option Function) :=
  match items with
  | [] => if policy && match fallback with None => true | Some _ => false end
          then Err "policy requires exactly one fallback" else Ok ([], fallback)
  | item :: items =>
    '(now, fallback) ← block_item policy fallback item;
    '(rest, fallback) ← block_items policy items fallback;
    Ok (now ++ rest, fallback)
  end.

Definition parseRoutingBlock (items : list Item) (policy : bool) : res (list RoutingStatement * option Function) :=
  block_items policy items None.

(** The [rules] section of a policy and the items of its body. *)
Fixpoint split_policy (items : list Item) (seenRules : bool) : res (list RoutingStatement * list Item) :=
  match items with
  | [] => Ok ([], [])
  | item :: items =>
    match item with
    | ItemSection name children =>
      if String.eqb name "rules" then
        if seenRules then Err "duplicate policy rules section"
        else
          '(rules, _) ← parseRoutingBlock children false;
          '(_, body) ← split_policy items true;
          Ok (rules, body)
      else '(rules, body) ← split_policy items seenRules; Ok (rules, item :: body)
    | _ => '(rules, body) ← split_policy items seenRules; Ok (rules, item :: body)
    end
  end.

Definition parseRoutingPolicy (name : string) (items : list Item) : res RoutingPolicy :=
  '(rules, body) ← split_policy items false;
  '(statements, fallback) ← parseRoutingBlock body true;
  Ok (mkPolicy name rules statements fallback).

(** ** Flow rules (config/rules.go) *)

Record DestinationRewrite := mkRewrite { dr_Filter : list Function; dr_To : list Addr; dr_Port : Z }.
Record FlowRule := mkFlowRule { fr_Filter : list Function; fr_Action : Z }.
Record RulePlan := mkPlan { Destinations : list DestinationRewrite; Controls : list FlowRule }.

(** The target of [dnat]: an address, or an address and a nonzero port. *)
Definition dnat_target (val : string) : option (Addr * Z) :=
  match ParseAddr (str val) with
  | Some (ip, zone) => if bool_decide (zone = []) then Some (ip, 0%Z) else None
  | None =>
    '(target, zone) ← ParseAddrPort (str val);
    if (ap_port target =? 0)%Z || negb (bool_decide (zone = [])) then None else Some (ap_addr target, ap_port target)
  end.

Definition plan_rule (plan : RulePlan) (rule : RoutingRule) : res RulePlan :=
  let a := r_Outbound rule in
  if is_empty (r_AndFunctions rule) then Err "empty filter"
  else if f_Not a || f_Quoted a then Err "actions cannot be quoted or negated"
  else if String.eqb (f_Name a) "must" || String.eqb (f_Name a) (OutboundIndex_String OutboundControlPlaneRouting) then
    if negb (is_empty (f_Params a)) then Err "takes no arguments"
    else
      Ok (mkPlan (Destinations plan) (Controls plan ++
        [mkFlowRule (r_AndFunctions rule) (if String.eqb (f_Name a) "must" then MatchActionMust else MatchActionBump)]))
  else if String.eqb (f_Name a) "dnat" then
    match f_Params a with
    | [p] =>
      if negb (String.eqb (p_Key p) "") || match p_AndFunctions p with Some _ => true | None => false end ||
         negb (is_empty (p_Annotation p)) then Err "expected dnat(ip) with exactly one IP argument"
      else
        match dnat_target (p_Val p) with
        | Some (ip, port) => Ok (mkPlan (Destinations plan ++ [mkRewrite (r_AndFunctions rule) [Unmap ip] port]) (Controls plan))
        | None => Err "dnat target must be an IP or IP:port without a zone"
        end
    | _ => Err "expected dnat(ip) with exactly one IP argument"
    end
  else Err "expected dnat(ip), must or bump".

Definition Plan (rules : list RoutingRule) : res RulePlan := foldM plan_rule (mkPlan [] []) rules.

(** ** Action families (config/routing_actions.go, patch.go) *)

Definition validateRoutingAction (f : Function) : res () :=
  _ ← guard_err (negb (f_Quoted f) && (String.eqb (f_Name f) "must" || has_prefix (str "must_") (str (f_Name f))))
        "reserved for must control";
  _ ← guard_err (String.eqb (f_Name f) (OutboundIndex_String OutboundControlPlaneRouting) ||
                 (negb (f_Quoted f) && String.eqb (f_Name f) "dnat")) "is a flow control";
  guard_err (existsb (fun p => String.eqb (p_Key p) "" && String.eqb (p_Val p) "must") (f_Params f))
    "must is not a routing outbound parameter".

Inductive RoutingRuleSetKind := RoutingRuleSetEmpty | RoutingRuleSetRoutes | RoutingRuleSetFlow.

#[export] Instance RoutingRuleSetKind_eq_dec : EqDecision RoutingRuleSetKind.
Proof. solve_decision. Defined.

Definition set_map (sets : list RoutingRuleSet) : gmap string (list RoutingStatement) :=
  fold_left (fun m set => <[rs_Name set := rs_Statements set]> m) sets ∅.

(** The family of a rule. *)
Definition rule_kind (rule : RoutingRule) : res RoutingRuleSetKind :=
  let action := r_Outbound rule in
  if negb (f_Quoted action) &&
     (String.eqb (f_Name action) "must" || String.eqb (f_Name action) "bump" || String.eqb (f_Name action) "dnat")
  then _ ← Plan [rule]; Ok RoutingRuleSetFlow
  else _ ← validateRoutingAction action; Ok RoutingRuleSetRoutes.

Definition merge_kind (kind current : RoutingRuleSetKind) : res RoutingRuleSetKind :=
  if bool_decide (current = RoutingRuleSetEmpty) then Ok kind
  else if negb (bool_decide (kind = RoutingRuleSetEmpty)) && negb (bool_decide (kind = current))
  then Err "mixes flow controls and outbounds"
  else Ok current.

(** [classify]: recursion along uses, memoised in [kinds]. *)
Fixpoint classify (fuel : nat) (sets : gmap string (list RoutingStatement)) (statements : list RoutingStatement)
    (kinds : gmap string RoutingRuleSetKind) : res (RoutingRuleSetKind * gmap string RoutingRuleSetKind) :=
  match fuel with
  | 0 => Panic
  | S fuel =>
    foldM (fun '(kind, kinds) statement =>
        '(current, kinds) ←
          (if bool_decide (st_Kind statement = RoutingStatementUse) then
             match kinds !! st_Use statement with
             | Some k => Ok (k, kinds)
             | None =>
               '(k, kinds) ← classify fuel sets (default [] (sets !! st_Use statement)) kinds;
               Ok (k, <[st_Use statement := k]> kinds)
             end
           else rule ← idx (st_Rule statement); k ← rule_kind rule; Ok (k, kinds));
        kind ← merge_kind kind current; Ok (kind, kinds))
      (RoutingRuleSetEmpty, kinds) statements
  end.

Definition maxRoutingReferenceDepth : nat := 64.

(** Validated references are at most [maxRoutingReferenceDepth] deep. *)
Definition classify_fuel : nat := S (S maxRoutingReferenceDepth).

Definition policy_kinds (sets : gmap string (list RoutingStatement)) (kinds : gmap string RoutingRuleSetKind)
    (policy : RoutingPolicy) : res (gmap string RoutingRuleSetKind) :=
  '(kind, kinds) ← classify classify_fuel sets (po_Statements policy) kinds;
  _ ← guard_err (bool_decide (kind = RoutingRuleSetFlow)) "flow controls belong in rules {}";
  '(kind, kinds) ← classify classify_fuel sets (po_Rules policy) kinds;
  _ ← guard_err (bool_decide (kind = RoutingRuleSetRoutes)) "expected dnat(ip), must or bump";
  fallback ← idx (po_Fallback policy);
  _ ← validateRoutingAction fallback;
  Ok kinds.

Definition RuleSetKinds (routing : Routing) : res (gmap string RoutingRuleSetKind) :=
  let sets := set_map (RuleSets routing) in
  kinds ← foldM (fun kinds set =>
      match kinds !! rs_Name set with
      | Some _ => Ok kinds
      | None => '(kind, kinds) ← classify classify_fuel sets (rs_Statements set) kinds; Ok (<[rs_Name set := kind]> kinds)
      end) ∅ (RuleSets routing);
  foldM (policy_kinds sets) kinds (Policies routing).

(** ** Validation *)

Definition maxRoutingBlocks : nat := 1024.
Definition maxRoutingStatements : Z := 65536.
Definition maxRoutingInterfaceBindings : nat := 256.

Definition isBareRoutingValue (value : string) : bool :=
  negb (has_prefix (str "/*") (str value)) && IsBareLiteral value.

Definition letters : bytes := str "abcdefghijklmnopqrstuvwxyzABCDEFGHIJKLMNOPQRSTUVWXYZ_".

Definition validateName (name : string) : res () :=
  guard_err (negb (isBareRoutingValue name) || negb (match str name with c :: _ => ContainsByte letters c | [] => false end))
    "cannot be represented as a section name".

Definition validateFunction (f : Function) : res () :=
  guard_err (existsb (fun p => match p_AndFunctions p with Some _ => true | None => false end || negb (is_empty (p_Annotation p)))
               (f_Params f)) "routing parameters cannot contain functions or annotations".

Definition validate_statement (statement : RoutingStatement) : res () :=
  match st_Kind statement with
  | RoutingStatementRule =>
    match st_Rule statement with
    | None => Err "contains an invalid rule"
    | Some rule =>
      if is_empty (r_AndFunctions rule) || negb (String.eqb (st_Use statement) "") || negb (is_empty (st_Condition statement))
      then Err "contains an invalid rule"
      else
        _ ← validateFunction (r_Outbound rule);
        foldM (fun _ f => validateFunction f) tt (r_AndFunctions rule)
    end
  | RoutingStatementUse =>
    if String.eqb (st_Use statement) "" || match st_Rule statement with Some _ => true | None => false end
    then Err "contains an invalid use"
    else foldM (fun _ f => validateFunction f) tt (st_Condition statement)
  | RoutingStatementUnknown => Err "contains an unknown statement"
  end.

(** [validateBlock]: threads the number of statements. *)
Definition validateBlock (count : Z) (statements : list RoutingStatement) : res Z :=
  let count := (count + Z.of_nat (List.length statements))%Z in
  _ ← guard_err (maxRoutingStatements <? count)%Z "routing exceeds statements";
  _ ← foldM (fun _ s => validate_statement s) tt statements;
  Ok count.

Definition validate_set (st : Z * gmap string (list RoutingStatement)) (set : RoutingRuleSet)
    : res (Z * gmap string (list RoutingStatement)) :=
  let '(count, sets) := st in
  _ ← validateName (rs_Name set);
  count ← validateBlock count (rs_Statements set);
  _ ← guard_err (match sets !! rs_Name set with Some _ => true | None => false end) "duplicate routing rule_set";
  Ok (count, <[rs_Name set := rs_Statements set]> sets).

Definition validate_policy (default_ : string) (st : Z * list string) (policy : RoutingPolicy) : res (Z * list string) :=
  let '(count, policies) := st in
  _ ← (if negb (String.eqb (po_Name policy) "") then validateName (po_Name policy)
       else guard_err (negb (String.eqb default_ "")) "routing default cannot be combined with an inline policy");
  _ ← guard_err (existsb (String.eqb (po_Name policy)) policies) "duplicate routing policy";
  match po_Fallback policy with
  | None => Err "requires exactly one fallback"
  | Some fallback =>
    _ ← validateFunction fallback;
    count ← validateBlock count (po_Statements policy);
    count ← validateBlock count (po_Rules policy);
    Ok (count, po_Name policy :: policies)
  end.

Definition validate_interface (policies : list string) (interfaces : list string) (binding : RoutingInterface)
    : res (list string) :=
  _ ← guard_err (negb (ValidateRoutingInterfaceName (if_Name binding))) "invalid exact routing interface name";
  _ ← guard_err (existsb (String.eqb (if_Name binding)) interfaces) "duplicate routing interface binding";
  _ ← guard_err (negb (existsb (String.eqb (if_Policy binding)) policies) || String.eqb (if_Policy binding) "")
        "selects undefined policy";
  Ok (if_Name binding :: interfaces).

(** [resolve]: depth of a block along its uses. [depths] is 0 for the sets being
    visited; the stack is bounded, and so is the recursion. *)
Fixpoint resolve (fuel : nat) (sets : gmap string (list RoutingStatement)) (statements : list RoutingStatement)
    (depths : gmap string nat) (stack : nat) : res (nat * gmap string nat) :=
  match fuel with
  | 0 => Panic
  | S fuel =>
    foldM (fun '(depth, depths) statement =>
        if negb (bool_decide (st_Kind statement = RoutingStatementUse)) then Ok (depth, depths)
        else
          match sets !! st_Use statement with
          | None => Err "uses undefined rule_set"
          | Some child =>
            '(childDepth, depths) ←
              match depths !! st_Use statement with
              | Some 0 => Err "routing rule_set cycle"
              | Some d => Ok (d, depths)
              | None =>
                if maxRoutingReferenceDepth <=? stack then Err "exceeds reference depth"
                else
                  '(d, depths) ← resolve fuel sets child (<[st_Use statement := 0]> depths) (S stack);
                  Ok (d, <[st_Use statement := d]> depths)
              end;
            let depth := Nat.max depth (S childDepth) in
            if maxRoutingReferenceDepth <? depth then Err "exceeds reference depth" else Ok (depth, depths)
          end)
      (1, depths) statements
  end.

(** The stack never exceeds [maxRoutingReferenceDepth]. *)
Definition resolve_fuel : nat := S maxRoutingReferenceDepth.

Definition resolve_top (sets : gmap string (list RoutingStatement)) (depths : gmap string nat)
    (statements : list RoutingStatement) : res (gmap string nat) :=
  '(_, depths) ← resolve resolve_fuel sets statements depths 0; Ok depths.

Definition Validate (routing : Routing) : res () :=
  _ ← guard_err (maxRoutingBlocks <? List.length (RuleSets routing) + List.length (Policies routing)) "routing exceeds blocks";
  '(count, sets) ← foldM validate_set (0%Z, ∅) (RuleSets routing);
  '(_, policies) ← foldM (validate_policy (Default routing)) (count, []) (Policies routing);
  _ ← guard_err (negb (existsb (String.eqb (Default routing)) policies)) "routing default selects undefined policy";
  _ ← guard_err (maxRoutingInterfaceBindings <? List.length (Interfaces routing)) "routing exceeds interface bindings";
  _ ← foldM (validate_interface policies) [] (Interfaces routing);
  depths ← foldM (resolve_top sets) ∅ (map rs_Statements (RuleSets routing));
  _ ← foldM (resolve_top sets) depths (flat_map (fun p => [po_Statements p; po_Rules p]) (Policies routing));
  _ ← RuleSetKinds routing;
  Ok tt.

(** ** The routing section *)

Definition parse_block_declaration (kind : string) (to : Routing) (declaration : Item) : res Routing :=
  match declaration with
  | ItemSection name items =>
    if String.eqb kind "rule_set" then
      '(statements, _) ← parseRoutingBlock items false;
      Ok (mkRouting (Default to) (RuleSets to ++ [mkRuleSet name statements]) (Policies to) (Interfaces to))
    else
      policy ← parseRoutingPolicy name items;
      Ok (mkRouting (Default to) (RuleSets to) (Policies to ++ [policy]) (Interfaces to))
  | _ => Err "only accepts named sections"
  end.

Definition parse_binding (to : Routing) (binding : Item) : res Routing :=
  match binding with
  | ItemParam param =>
    name ← routingReference param;
    Ok (mkRouting (Default to) (RuleSets to) (Policies to) (Interfaces to ++ [mkInterface (p_Key param) name]))
  | _ => Err "routing interface expects interface_name: policy_name"
  end.

(** One item of the section: the configuration, the inline items and whether a
    default has been selected. *)
Definition parse_routing_item (st : Routing * list Item * bool) (item : Item) : res (Routing * list Item * bool) :=
  let '(to, inline, selectedDefault) := st : Routing * list Item * bool in
  match item with
  | ItemSection name items =>
    if String.eqb name "rule_set" || String.eqb name "policy" then
      to ← foldM (parse_block_declaration name) to items; Ok (to, inline, selectedDefault)
    else if String.eqb name "rules" then Ok (to, inline ++ [item], selectedDefault)
    else if String.eqb name "interface" then
      to ← foldM parse_binding to items; Ok (to, inline, selectedDefault)
    else Err "unexpected routing section"
  | ItemParam param =>
    if String.eqb (p_Key param) "default" then
      if selectedDefault then Err "duplicate routing default"
      else
        name ← routingReference param;
        Ok (mkRouting name (RuleSets to) (Policies to) (Interfaces to), inline, true)
    else Ok (to, inline ++ [item], selectedDefault)
  | _ => Ok (to, inline ++ [item], selectedDefault)
  end.

Definition parseRouting (to : Routing) (items : list Item) : res Routing :=
  st ← foldM parse_routing_item (to, [], false) items;
  let '(to, inline, selectedDefault) := st : Routing * list Item * bool in
  to ← (if selectedDefault then
          if is_empty inline then Ok to else Err "routing default cannot be combined with inline rules"
        else
          policy ← parseRoutingPolicy "" inline;
          Ok (mkRouting (Default to) (RuleSets to) (policy :: Policies to) (Interfaces to)));
  _ ← Validate to;
  Ok to.
