(* ===== verification/RoutingConfigCorrect.v ===== *)
(** * Validated routing configurations

    [Validate] always returns; when it accepts, rule-set references are well founded
    and at most [maxRoutingReferenceDepth] deep, and every rule reachable from a
    policy body or from its [rules] section has the action family of that stage. *)

From Stdlib Require Import String.
From S2P Require Import Prelude Netip GoStrings NetipParse ConfigSyntax RoutingInstr RoutingRules RoutingBuilder RoutingConfig.

(** ** References *)

Definition is_use (s : RoutingStatement) : Prop := st_Kind s = RoutingStatementUse.

(** References from [stmts] are resolved and at most [n] deep. *)
Fixpoint height_le (sets : gmap string (list RoutingStatement)) (n : nat) (stmts : list RoutingStatement) : Prop :=
  match n with
  | 0 => False
  | S n => forall s, s ∈ stmts -> is_use s -> exists child, sets !! st_Use s = Some child /\ height_le sets n child
  end.

Lemma height_le_mono sets n n' stmts : n <= n' -> height_le sets n stmts -> height_le sets n' stmts.
Proof.
  revert n' stmts. induction n as [|n IH]; intros n' stmts Hn; [done|]. destruct n' as [|n']; [lia|].
  intros H s Hs Hu. destruct (H s Hs Hu) as (child & Hc & Hh). exists child. split; [done|]. apply IH; [lia|done].
Qed.

(** Finished entries of [depths] bound the height of their set. *)
Definition depths_ok (sets : gmap string (list RoutingStatement)) (depths : gmap string nat) : Prop :=
  forall name d, depths !! name = Some (S d) -> exists child, sets !! name = Some child /\ height_le sets (S d) child.

Lemma depths_ok_insert_0 sets depths name : depths_ok sets depths -> depths_ok sets (<[name := 0]> depths).
Proof. intros H n d Hn. destruct (decide (name = n)) as [->|Hne]; [by rewrite lookup_insert_eq in Hn|]. rewrite lookup_insert_ne in Hn by done. by apply H. Qed.

Lemma depths_ok_insert sets depths name d child :
  depths_ok sets depths -> sets !! name = Some child -> height_le sets d child -> depths_ok sets (<[name := d]> depths).
Proof.
  intros H Hc Hh n e Hn. destruct (decide (name = n)) as [->|Hne].
  - rewrite lookup_insert_eq in Hn. injection Hn as ->. by exists child.
  - rewrite lookup_insert_ne in Hn by done. by apply H.
Qed.

Lemma depths_ok_empty sets : depths_ok sets ∅.
Proof. intros name d Hn. by rewrite lookup_empty in Hn. Qed.

Lemma resolve_sound fuel sets stmts depths stack d depths' :
  depths_ok sets depths -> resolve fuel sets stmts depths stack = Ok (d, depths') ->
  depths_ok sets depths' /\ height_le sets d stmts /\ d <= maxRoutingReferenceDepth.
Proof.
  revert stmts depths stack d depths'. induction fuel as [|fuel IH]; intros stmts depths stack d depths' Hok; [done|].
  cbn [resolve]. intros Hf.
  refine (foldM_ind _ (fun pre '(d, depths) => depths_ok sets depths /\ height_le sets d pre /\ d <= maxRoutingReferenceDepth)
    stmts (1, depths) (d, depths') _ _ Hf).
  { split; [done|]. split; [|unfold maxRoutingReferenceDepth; lia]. intros s Hs. by apply elem_of_nil in Hs. }
  intros pre s [d1 ds1] [d2 ds2] (Hok1 & Hh1 & Hle1) Hin.
  assert (Hold : forall d', d1 <= d' -> (forall s', s' ∈ [s] -> is_use s' -> exists child, sets !! st_Use s' = Some child /\ height_le sets (pred d') child) ->
    height_le sets d' (pre ++ [s])).
  { intros d' Hd' Hs. destruct d1 as [|d1]; [done|]. destruct d' as [|d']; [lia|]. intros s' [Hs'|Hs']%elem_of_app Hu.
    - destruct (Hh1 s' Hs' Hu) as (child & Hc & Hh). exists child. split; [done|]. eapply height_le_mono; [|done]. lia.
    - by apply Hs. }
  case_bool_decide as Hu; cbn [negb].
  2: { intros [= <- <-]. split; [done|]. split; [|done]. apply Hold; [lia|]. intros s' ->%list_elem_of_singleton Hu'. done. }
  destruct (sets !! st_Use s) as [child|] eqn:Hc; [|done].
  destruct (match ds1 !! st_Use s with Some 0 => _ | Some (S _) => _ | None => _ end) as [[cd ds3]| |] eqn:Ec; try done.
  cbn [mbind res_bind]. destruct (Nat.ltb_spec maxRoutingReferenceDepth (Nat.max d1 (S cd))); [done|]. intros [= <- <-].
  assert (Hcd : depths_ok sets ds3 /\ height_le sets cd child).
  { destruct (ds1 !! st_Use s) as [[|e]|] eqn:El; [done| |].
    - injection Ec as <- <-. split; [done|]. destruct (Hok1 _ _ El) as (c' & Hc' & Hh). by simplify_eq.
    - destruct (_ <=? _); [done|].
      destruct (resolve fuel sets child (<[st_Use s:=0]> ds1) (S stack)) as [[e ds4]| |] eqn:Er; try done.
      injection Ec as <- <-. destruct (IH _ _ _ _ _ (depths_ok_insert_0 _ _ _ Hok1) Er) as (Hok4 & Hh4 & _).
      split; [by eapply depths_ok_insert|done]. }
  destruct Hcd as [Hok3 Hhc]. split; [done|]. split; [|lia]. apply Hold; [lia|].
  intros s' ->%list_elem_of_singleton _. exists child. split; [done|]. eapply height_le_mono; [|done]. lia.
Qed.

Lemma resolve_nopanic fuel sets stmts depths stack :
  maxRoutingReferenceDepth - stack < fuel -> resolve fuel sets stmts depths stack <> Panic.
Proof.
  revert stmts depths stack. induction fuel as [|fuel IH]; intros stmts depths stack Hf; [lia|]. cbn [resolve].
  apply foldM_nopanic with (J := fun _ => True); [done| |done]. intros s [d ds] _ _.
  destruct (negb _); [done|]. destruct (sets !! st_Use s) as [child|]; [|done].
  destruct (match ds !! st_Use s with Some 0 => _ | Some (S _) => _ | None => _ end) as [[cd ds3]| |] eqn:Ec; try done.
  - cbn [mbind res_bind]. by destruct (_ <? _).
  - exfalso. destruct (ds !! st_Use s) as [[|e]|]; [done|done|].
    destruct (Nat.leb_spec maxRoutingReferenceDepth stack); [done|].
    destruct (resolve fuel sets child (<[st_Use s:=0]> ds) (S stack)) as [[e ds4]| |] eqn:Er; try done.
    apply (IH child (<[st_Use s:=0]> ds) (S stack)); [lia|done].
Qed.

(** ** Reachable rules and their family *)

Inductive reachable (sets : gmap string (list RoutingStatement)) : list RoutingStatement -> RoutingRule -> Prop :=
| reach_rule stmts s r : s ∈ stmts -> ~ is_use s -> st_Rule s = Some r -> reachable sets stmts r
| reach_use stmts s r : s ∈ stmts -> is_use s -> reachable sets (default [] (sets !! st_Use s)) r -> reachable sets stmts r.

Lemma reachable_snoc sets pre s r :
  reachable sets (pre ++ [s]) r -> reachable sets pre r \/ reachable sets [s] r.
Proof.
  inversion 1 as [? s' ? Hs Hu Hr|? s' ? Hs Hu Hr]; subst; apply elem_of_app in Hs as [Hs|Hs].
  - left. by eapply reach_rule.
  - right. by eapply reach_rule.
  - left. by eapply reach_use.
  - right. by eapply reach_use.
Qed.

Lemma reachable_singleton sets s r : reachable sets [s] r ->
  (~ is_use s /\ st_Rule s = Some r) \/ (is_use s /\ reachable sets (default [] (sets !! st_Use s)) r).
Proof.
  inversion 1 as [? s' ? Hs Hu Hr|? s' ? Hs Hu Hr]; subst; apply list_elem_of_singleton in Hs as ->; auto.
Qed.

Lemma rule_kind_not_empty r : rule_kind r <> Ok RoutingRuleSetEmpty.
Proof.
  unfold rule_kind. destruct (_ && _); [destruct (Plan [r]) as [?| |]|destruct (validateRoutingAction _) as [?| |]]; done.
Qed.

(** All rules below [stmts] have the family [kind]. *)
Definition uniform (sets : gmap string (list RoutingStatement)) (kind : RoutingRuleSetKind) (stmts : list RoutingStatement) : Prop :=
  forall r, reachable sets stmts r -> rule_kind r = Ok kind.

Definition kinds_ok (sets : gmap string (list RoutingStatement)) (kinds : gmap string RoutingRuleSetKind) : Prop :=
  forall name k, kinds !! name = Some k -> uniform sets k (default [] (sets !! name)).

Lemma kinds_ok_insert sets kinds name k :
  kinds_ok sets kinds -> uniform sets k (default [] (sets !! name)) -> kinds_ok sets (<[name := k]> kinds).
Proof.
  intros H Hk n e Hn. destruct (decide (name = n)) as [->|Hne].
  - rewrite lookup_insert_eq in Hn. by injection Hn as <-.
  - rewrite lookup_insert_ne in Hn by done. by apply H.
Qed.

Lemma merge_kind_uniform sets kind current kind' pre s :
  uniform sets kind pre -> uniform sets current [s] -> merge_kind kind current = Ok kind' -> uniform sets kind' (pre ++ [s]).
Proof.
  intros Hd Hs Hm r Hr. unfold merge_kind in Hm.
  case_bool_decide as Hc; [|case_bool_decide as Hk; [|case_bool_decide as Hk2]]; cbn [negb andb] in Hm; simplify_eq.
  - apply reachable_snoc in Hr as [Hr|Hr]; [by apply Hd|]. exfalso. by apply (rule_kind_not_empty r), Hs.
  - apply reachable_snoc in Hr as [Hr|Hr]; [|by apply Hs]. exfalso. by apply (rule_kind_not_empty r), Hd.
  - apply reachable_snoc in Hr as [Hr|Hr]; [by apply Hd|by apply Hs].
Qed.

Lemma classify_sound fuel sets stmts kinds k kinds' :
  kinds_ok sets kinds -> classify fuel sets stmts kinds = Ok (k, kinds') -> kinds_ok sets kinds' /\ uniform sets k stmts.
Proof.
  revert stmts kinds k kinds'. induction fuel as [|fuel IH]; intros stmts kinds k kinds' Hok; [done|].
  cbn [classify]. intros Hf.
  refine (foldM_ind _ (fun pre '(k, kinds) => kinds_ok sets kinds /\ uniform sets k pre)
    stmts (RoutingRuleSetEmpty, kinds) (k, kinds') _ _ Hf).
  { split; [done|]. intros r Hr. by inversion Hr as [? ? ? Hs|? ? ? Hs]; subst; apply elem_of_nil in Hs. }
  intros pre s [k1 ks1] [k2 ks2] [Hok1 Hu1] Hin Hstep.
  destruct (if bool_decide (st_Kind s = RoutingStatementUse) then _ else _) as [[cur ks3]| |] eqn:Ec; try done.
  cbn [mbind res_bind] in Hstep. destruct (merge_kind k1 cur) as [k'| |] eqn:Em; try done. injection Hstep as <- <-.
  assert (Hcur : kinds_ok sets ks3 /\ uniform sets cur [s]).
  { case_bool_decide as Hu.
    - assert (Hlift : forall c, uniform sets c (default [] (sets !! st_Use s)) -> uniform sets c [s]).
      { intros c Hc r [[Hnu _]|[_ Hr]]%reachable_singleton; [done|by apply Hc]. }
      destruct (ks1 !! st_Use s) as [c|] eqn:El.
      + injection Ec as <- <-. split; [done|]. by apply Hlift, Hok1.
      + destruct (classify fuel sets _ ks1) as [[c ks4]| |] eqn:Er; try done. injection Ec as <- <-.
        destruct (IH _ _ _ _ Hok1 Er) as [Hok4 Hc]. split; [by apply kinds_ok_insert|by apply Hlift].
    - destruct (st_Rule s) as [r|] eqn:Er; [|done]. cbn [idx mbind res_bind] in Ec.
      destruct (rule_kind r) as [c| |] eqn:Ek; try done. injection Ec as <- <-. split; [done|].
      intros r' [[_ Hr']|[Hu' _]]%reachable_singleton; [|done]. by simplify_eq. }
  destruct Hcur as [Hok3 Hc]. split; [done|]. by eapply merge_kind_uniform.
Qed.

(** ** No panics *)

Definition stmts_ok (stmts : list RoutingStatement) : Prop := forall s, s ∈ stmts -> validate_statement s = Ok tt.

Lemma stmt_ok_rule s : validate_statement s = Ok tt -> ~ is_use s -> exists r, st_Rule s = Some r.
Proof. unfold validate_statement, is_use. destruct (st_Kind s); [|done|done]. destruct (st_Rule s); [eauto|done]. Qed.

Lemma validateFunction_nopanic f : validateFunction f <> Panic.
Proof. unfold validateFunction, guard_err. by destruct (existsb _ _). Qed.

Lemma guard_err_nopanic c e : guard_err c e <> Panic.
Proof. by destruct c. Qed.

Lemma bind_nopanic {A C} (m : res A) (f : A -> res C) : m <> Panic -> (forall a, m = Ok a -> f a <> Panic) -> (a ← m; f a) <> Panic.
Proof. intros Hm Hf. destruct m; cbn; [by apply Hf|done|done]. Qed.

Lemma bind_Ok {A C} (m : res A) (f : A -> res C) c : (a ← m; f a) = Ok c -> exists a, m = Ok a /\ f a = Ok c.
Proof. destruct m; cbn; [eauto|done|done]. Qed.

Lemma Plan_nopanic rules : Plan rules <> Panic.
Proof.
  apply foldM_nopanic with (J := fun _ => True); [done| |done]. intros r plan _ _. unfold plan_rule.
  repeat (case_match; try done).
Qed.

Lemma validateRoutingAction_nopanic f : validateRoutingAction f <> Panic.
Proof.
  unfold validateRoutingAction. apply bind_nopanic; [apply guard_err_nopanic|intros _ _].
  apply bind_nopanic; [apply guard_err_nopanic|intros _ _]. apply guard_err_nopanic.
Qed.

Lemma rule_kind_nopanic r : rule_kind r <> Panic.
Proof.
  unfold rule_kind. destruct (_ && _); (apply bind_nopanic; [|done]); [apply Plan_nopanic|apply validateRoutingAction_nopanic].
Qed.

Lemma classify_nopanic fuel n sets stmts kinds :
  (forall name child, sets !! name = Some child -> stmts_ok child) -> stmts_ok stmts ->
  height_le sets n stmts -> n <= fuel -> classify fuel sets stmts kinds <> Panic.
Proof.
  intros Hsets. revert n stmts kinds. induction fuel as [|fuel IH]; intros n stmts kinds Hst Hh Hn; [by destruct n; [|lia]|].
  cbn [classify]. apply foldM_nopanic with (J := fun _ => True); [done| |done]. intros s [k ks] Hin _.
  apply bind_nopanic; [|intros [cur ks'] _; apply bind_nopanic; [|done]; unfold merge_kind; repeat case_match; done].
  destruct n as [|n]; [done|]. case_bool_decide as Hu.
  - destruct (ks !! st_Use s); [done|]. destruct (Hh s Hin Hu) as (child & Hc & Hhc). rewrite Hc. cbn [default].
    apply bind_nopanic; [|by intros [? ?]]. apply (IH n); [by eapply Hsets|done|lia].
  - destruct (stmt_ok_rule s (Hst s Hin) Hu) as [r ->]. cbn [idx mbind res_bind].
    apply bind_nopanic; [apply rule_kind_nopanic|done].
Qed.

(** ** The stages of [Validate] *)

Lemma validateBlock_ok count stmts count' : validateBlock count stmts = Ok count' -> stmts_ok stmts.
Proof.
  unfold validateBlock. intros (_ & _ & H)%bind_Ok. apply bind_Ok in H as ([] & H & _). intros s Hs.
  refine (foldM_ind _ (fun pre _ => forall s, s ∈ pre -> validate_statement s = Ok tt) stmts tt tt _ _ H s Hs).
  { intros ? Hn. by apply elem_of_nil in Hn. }
  intros pre a [] [] Hd _ Ha s' [Hs'| ->%list_elem_of_singleton]%elem_of_app; [by apply Hd|done].
Qed.

Lemma validate_statement_nopanic s : validate_statement s <> Panic.
Proof.
  assert (Hfs : forall fs, foldM (fun _ f => validateFunction f) tt fs <> Panic).
  { intros fs. apply foldM_nopanic with (J := fun _ => True); [done| |done]. intros. apply validateFunction_nopanic. }
  unfold validate_statement. destruct (st_Kind s); [|destruct (_ || _); [done|apply Hfs]|done].
  destruct (st_Rule s); [|done]. destruct (_ || _); [done|]. apply bind_nopanic; [apply validateFunction_nopanic|intros; apply Hfs].
Qed.

Lemma validateBlock_nopanic count stmts : validateBlock count stmts <> Panic.
Proof.
  unfold validateBlock. apply bind_nopanic; [apply guard_err_nopanic|intros _ _]. apply bind_nopanic; [|done].
  apply foldM_nopanic with (J := fun _ => True); [done| |done]. intros. apply validate_statement_nopanic.
Qed.

Lemma set_map_snoc l set : set_map (l ++ [set]) = <[rs_Name set := rs_Statements set]> (set_map l).
Proof. unfold set_map. by rewrite fold_left_app. Qed.

Lemma validate_sets_spec l count sets : foldM validate_set (0%Z, ∅) l = Ok (count, sets) ->
  sets = set_map l /\ (forall set, set ∈ l -> stmts_ok (rs_Statements set) /\ sets !! rs_Name set = Some (rs_Statements set)) /\
  (forall name child, sets !! name = Some child -> stmts_ok child).
Proof.
  intros Hf. refine (foldM_ind _ (fun pre '(_, m) => m = set_map pre /\
    (forall set, set ∈ pre -> stmts_ok (rs_Statements set) /\ m !! rs_Name set = Some (rs_Statements set)) /\
    (forall name child, m !! name = Some child -> stmts_ok child)) l (0%Z, ∅) (count, sets) _ _ Hf).
  { split; [done|]. split; [by intros set Hs%elem_of_nil|]. intros name child Hn. by rewrite lookup_empty in Hn. }
  intros pre set [c m] [c' m'] (-> & Hs & Hm) _. unfold validate_set.
  intros (_ & _ & H)%bind_Ok. apply bind_Ok in H as (c1 & Hb%validateBlock_ok & H). apply bind_Ok in H as ([] & Hdup & [= <- <-]).
  destruct (set_map pre !! rs_Name set) eqn:Enew; [done|]. rewrite set_map_snoc. split; [done|]. split.
  - intros set' [Hs'| ->%list_elem_of_singleton]%elem_of_app; [|by rewrite lookup_insert_eq].
    destruct (Hs set' Hs') as [H1 H2]. split; [done|]. rewrite lookup_insert_ne; [done|]. intros E. by rewrite E, H2 in Enew.
  - intros name child Hn. destruct (decide (rs_Name set = name)) as [<-|Hne].
    + rewrite lookup_insert_eq in Hn. by injection Hn as <-.
    + rewrite lookup_insert_ne in Hn by done. by eapply Hm.
Qed.

Definition policy_ok (p : RoutingPolicy) : Prop :=
  stmts_ok (po_Statements p) /\ stmts_ok (po_Rules p) /\ is_Some (po_Fallback p).

Lemma validate_policies_spec d l st st' :
  foldM (validate_policy d) st l = Ok st' -> forall p, p ∈ l -> policy_ok p.
Proof.
  intros Hf p Hp. revert p Hp. refine (foldM_ind _ (fun pre _ => forall p, p ∈ pre -> policy_ok p) l st st' _ _ Hf).
  { intros p Hn. by apply elem_of_nil in Hn. }
  intros pre p [c ps] [c' ps'] Hd _. unfold validate_policy. intros (_ & _ & H)%bind_Ok. apply bind_Ok in H as (_ & _ & H).
  destruct (po_Fallback p) as [f|] eqn:Ef; [|done]. apply bind_Ok in H as (_ & _ & H).
  apply bind_Ok in H as (c1 & H1%validateBlock_ok & H). apply bind_Ok in H as (c2 & H2%validateBlock_ok & _).
  intros p' [Hp'| ->%list_elem_of_singleton]%elem_of_app; [by apply Hd|]. split; [done|]. split; [done|]. rewrite Ef. eauto.
Qed.

Lemma resolve_blocks_spec sets depths l depths' :
  depths_ok sets depths -> foldM (resolve_top sets) depths l = Ok depths' ->
  depths_ok sets depths' /\ forall stmts, stmts ∈ l -> height_le sets maxRoutingReferenceDepth stmts.
Proof.
  intros Hok Hf. refine (foldM_ind _ (fun pre ds => depths_ok sets ds /\
    forall stmts, stmts ∈ pre -> height_le sets maxRoutingReferenceDepth stmts) l depths depths' _ _ Hf).
  { split; [done|]. by intros ? Hn%elem_of_nil. }
  intros pre stmts ds ds' [Hds Hd] _. unfold resolve_top. intros ([d ds1] & Hr & [= <-])%bind_Ok.
  destruct (resolve_sound _ _ _ _ _ _ _ Hds Hr) as (Hds' & Hh & Hle). split; [done|].
  intros stmts' [Hs| ->%list_elem_of_singleton]%elem_of_app; [by apply Hd|]. by eapply height_le_mono.
Qed.

Lemma resolve_blocks_nopanic sets depths l : foldM (resolve_top sets) depths l <> Panic.
Proof.
  apply foldM_nopanic with (J := fun _ => True); [done| |done]. intros stmts ds _ _. unfold resolve_top.
  apply bind_nopanic; [|by intros [? ?]]. apply resolve_nopanic. unfold resolve_fuel. lia.
Qed.

Lemma policy_blocks (p : RoutingPolicy) l : p ∈ l ->
  po_Statements p ∈ flat_map (fun p => [po_Statements p; po_Rules p]) l /\
  po_Rules p ∈ flat_map (fun p => [po_Statements p; po_Rules p]) l.
Proof. intros Hp. rewrite !list_elem_of_In, !in_flat_map. apply list_elem_of_In in Hp. split; exists p; cbn; auto. Qed.

Lemma RuleSetKinds_nopanic routing :
  let sets := set_map (RuleSets routing) in
  (forall name child, sets !! name = Some child -> stmts_ok child) ->
  (forall set, set ∈ RuleSets routing -> stmts_ok (rs_Statements set) /\ height_le sets maxRoutingReferenceDepth (rs_Statements set)) ->
  (forall p, p ∈ Policies routing -> policy_ok p /\
    height_le sets maxRoutingReferenceDepth (po_Statements p) /\ height_le sets maxRoutingReferenceDepth (po_Rules p)) ->
  RuleSetKinds routing <> Panic.
Proof.
  intros sets Hm Hs Hp. unfold RuleSetKinds. fold sets.
  assert (Hcl : forall stmts kinds, stmts_ok stmts -> height_le sets maxRoutingReferenceDepth stmts ->
    classify classify_fuel sets stmts kinds <> Panic).
  { intros stmts kinds H1 H2. apply (classify_nopanic _ maxRoutingReferenceDepth); [done|done|done|unfold classify_fuel; lia]. }
  apply bind_nopanic; [|intros kinds _]; (apply foldM_nopanic with (J := fun _ => True); [done| |done]).
  - intros set ks Hin _. destruct (ks !! rs_Name set); [done|]. apply bind_nopanic; [|by intros [? ?]]. by apply Hcl; apply Hs.
  - intros p ks Hin _. destruct (Hp p Hin) as ((H1 & H2 & f & Hf) & Hh1 & Hh2). unfold policy_kinds.
    apply bind_nopanic; [by apply Hcl|intros [k1 ks1] _]. apply bind_nopanic; [apply guard_err_nopanic|intros _ _].
    apply bind_nopanic; [by apply Hcl|intros [k2 ks2] _]. apply bind_nopanic; [apply guard_err_nopanic|intros _ _].
    rewrite Hf. cbn [idx mbind res_bind]. apply bind_nopanic; [apply validateRoutingAction_nopanic|done].
Qed.

Lemma Validate_nopanic routing : Validate routing <> Panic.
Proof.
  unfold Validate. apply bind_nopanic; [apply guard_err_nopanic|intros _ _].
  apply bind_nopanic.
  { apply foldM_nopanic with (J := fun _ => True); [done| |done]. intros set [c m] _ _. unfold validate_set.
    apply bind_nopanic; [apply guard_err_nopanic|intros _ _]. apply bind_nopanic; [apply validateBlock_nopanic|intros c' _].
    apply bind_nopanic; [apply guard_err_nopanic|done]. }
  intros [count sets] (-> & Hs & Hm)%validate_sets_spec. apply bind_nopanic.
  { apply foldM_nopanic with (J := fun _ => True); [done| |done]. intros p [c ps] _ _. unfold validate_policy.
    apply bind_nopanic; [destruct (negb _); apply guard_err_nopanic|intros _ _]. apply bind_nopanic; [apply guard_err_nopanic|intros _ _].
    destruct (po_Fallback p); [|done]. apply bind_nopanic; [apply validateFunction_nopanic|intros _ _].
    apply bind_nopanic; [apply validateBlock_nopanic|intros c1 _]. apply bind_nopanic; [apply validateBlock_nopanic|done]. }
  intros [c2 policies] Hpol. pose proof (validate_policies_spec _ _ _ _ Hpol) as Hpo.
  do 2 (apply bind_nopanic; [apply guard_err_nopanic|intros _ _]). apply bind_nopanic.
  { apply foldM_nopanic with (J := fun _ => True); [done| |done]. intros b ifs _ _. unfold validate_interface.
    do 3 (apply bind_nopanic; [apply guard_err_nopanic|intros _ _]). done. }
  intros _ _. apply bind_nopanic; [apply resolve_blocks_nopanic|intros depths Hr1].
  apply bind_nopanic; [apply resolve_blocks_nopanic|intros depths2 Hr2]. apply bind_nopanic; [|done].
  destruct (resolve_blocks_spec (set_map (RuleSets routing)) ∅ _ _ (depths_ok_empty _) Hr1) as [Hd1 Hh1].
  destruct (resolve_blocks_spec _ _ _ _ Hd1 Hr2) as [_ Hh2]. apply RuleSetKinds_nopanic; [done| |].
  - intros set Hin. split; [by apply Hs|]. apply Hh1. by apply list_elem_of_fmap_2.
  - intros p Hin. split; [by apply Hpo|]. destruct (policy_blocks p _ Hin). split; by apply Hh2.
Qed.

(** C36: validation always returns: whatever the rule sets refer to, neither the
    depth computation nor the classification recurses for ever, and no nil rule or
    fallback is dereferenced. *)
Theorem Validate_returns (routing : Routing) :
  Validate routing = Ok tt \/ exists reason : string, Validate routing = Err reason.
Proof. pose proof (Validate_nopanic routing). destruct (Validate routing) as [[]| |]; eauto; done. Qed.

(** The blocks of a configuration. *)
Definition block_of (routing : Routing) (stmts : list RoutingStatement) : Prop :=
  (exists set, set ∈ RuleSets routing /\ stmts = rs_Statements set) \/
  (exists p, p ∈ Policies routing /\ (stmts = po_Statements p \/ stmts = po_Rules p)).

Lemma Validate_stages routing : Validate routing = Ok tt ->
  (forall stmts, block_of routing stmts -> height_le (set_map (RuleSets routing)) maxRoutingReferenceDepth stmts) /\
  (forall set, set ∈ RuleSets routing -> set_map (RuleSets routing) !! rs_Name set = Some (rs_Statements set)) /\
  exists kinds, RuleSetKinds routing = Ok kinds.
Proof.
  unfold Validate. intros (_ & _ & H)%bind_Ok. apply bind_Ok in H as ([count sets] & (-> & Hs & _)%validate_sets_spec & H).
  apply bind_Ok in H as ([c policies] & _ & H). do 3 (apply bind_Ok in H as (_ & _ & H)).
  apply bind_Ok in H as (depths & Hr1 & H). apply bind_Ok in H as (depths2 & Hr2 & H). apply bind_Ok in H as (kinds & Hk & _).
  destruct (resolve_blocks_spec (set_map (RuleSets routing)) ∅ _ _ (depths_ok_empty _) Hr1) as [Hd1 Hh1].
  destruct (resolve_blocks_spec _ _ _ _ Hd1 Hr2) as [_ Hh2]. split; [|split; [intros set Hset; by apply Hs|eauto]].
  intros stmts [(set & Hin & ->)|(p & Hin & [->| ->])].
  - apply Hh1. by apply list_elem_of_fmap_2.
  - apply Hh2. by apply policy_blocks.
  - apply Hh2. by apply policy_blocks.
Qed.

(** ** References *)

Lemma guard_err_false c msg u : guard_err c msg = Ok u -> c = false.
Proof. by destruct c. Qed.

Lemma existsb_eqb_in n l : existsb (String.eqb n) l = true <-> n ∈ l.
Proof.
  rewrite existsb_exists. split; [intros (x & Hx & ->%String.eqb_eq); by apply list_elem_of_In|]. intros Hn%list_elem_of_In. exists n. split; [done|apply String.eqb_refl].
Qed.

Lemma NoDup_snoc {A} (l : list A) x : NoDup l -> x ∉ l -> NoDup (l ++ [x]).
Proof. intros Hl Hx. apply NoDup_app. split; [done|]. split; [by intros y Hy Hxy; apply list_elem_of_singleton in Hxy as ->|apply NoDup_singleton]. Qed.

(** The loops over sets, policies and bindings refuse duplicates and collect the names. *)
Lemma set_names l count sets : foldM validate_set (0%Z, ∅) l = Ok (count, sets) -> NoDup (map rs_Name l) /\ forall n, is_Some (sets !! n) <-> n ∈ map rs_Name l.
Proof.
  intros Hf. refine (foldM_ind _ (fun pre '(_, m) => NoDup (map rs_Name pre) /\ forall n, is_Some (m !! n) <-> n ∈ map rs_Name pre) l (0%Z, ∅) (count, sets) _ _ Hf).
  { split; [constructor|]. intros n. rewrite lookup_empty. split; [by intros []|by intros ?%elem_of_nil]. }
  intros pre set [c m] [c' m'] [Hd Hm] _. unfold validate_set. intros (_ & _ & H)%bind_Ok. apply bind_Ok in H as (c1 & _ & H). apply bind_Ok in H as ([] & Hdup%guard_err_false & [= <- <-]).
  rewrite map_app. split.
  - apply NoDup_snoc; [done|]. rewrite <-Hm. intros [? Hs]. by rewrite Hs in Hdup.
  - intros n. cbn [map]. rewrite elem_of_app, list_elem_of_singleton, <-Hm. destruct (decide (rs_Name set = n)) as [<-|Hne]; [rewrite lookup_insert_eq; split; [by right|by eexists]|]. rewrite lookup_insert_ne by done. split; [by left|intros [?| ->]; done].
Qed.

Lemma policy_names d c l c' ps : foldM (validate_policy d) (c, []) l = Ok (c', ps) -> NoDup (map po_Name l) /\ forall n, n ∈ ps <-> n ∈ map po_Name l.
Proof.
  intros Hf. refine (foldM_ind _ (fun pre '(_, ps) => NoDup (map po_Name pre) /\ forall n, n ∈ ps <-> n ∈ map po_Name pre) l (c, []) (c', ps) _ _ Hf).
  { split; [constructor|done]. }
  intros pre p [c1 ps1] [c2 ps2] [Hd Hm] _. unfold validate_policy. intros (_ & _ & H)%bind_Ok. apply bind_Ok in H as (_ & Hdup%guard_err_false & H).
  destruct (po_Fallback p); [|done]. do 3 (apply bind_Ok in H as (? & _ & H)). injection H as _ <-. rewrite map_app. split.
  - apply NoDup_snoc; [done|]. rewrite <-Hm, <-existsb_eqb_in. congruence.
  - intros n. cbn [map]. rewrite elem_of_app, list_elem_of_singleton, elem_of_cons, Hm. tauto.
Qed.

Lemma binding_policies policies l ifs : foldM (validate_interface policies) [] l = Ok ifs -> NoDup (map if_Name l) /\ forall b, b ∈ l -> if_Policy b <> ""%string /\ if_Policy b ∈ policies.
Proof.
  intros Hf. refine (proj1 (foldM_ind _ (fun pre ifs => (NoDup (map if_Name pre) /\ forall b, b ∈ pre -> if_Policy b <> ""%string /\ if_Policy b ∈ policies) /\ forall n, n ∈ ifs <-> n ∈ map if_Name pre) l [] ifs _ _ Hf)).
  { split; [split; [constructor|by intros ? ?%elem_of_nil]|done]. }
  intros pre b ifs1 ifs2 [[Hd Hb] Hm] _. unfold validate_interface. intros (_ & _ & H)%bind_Ok. apply bind_Ok in H as (_ & Hdup%guard_err_false & H). apply bind_Ok in H as (_ & [Hpol%negb_false_iff%existsb_eqb_in Hne%String.eqb_neq]%guard_err_false%orb_false_iff & [= <-]).
  rewrite map_app. split; [split|].
  - apply NoDup_snoc; [done|]. rewrite <-Hm, <-existsb_eqb_in. congruence.
  - intros b' [?| ->%list_elem_of_singleton]%elem_of_app; [by apply Hb|done].
  - intros n. cbn [map]. rewrite elem_of_app, list_elem_of_singleton, elem_of_cons, Hm. tauto.
Qed.

(** One rule set uses another. *)
Definition uses (routing : Routing) (name used : string) : Prop :=
  exists set s, set ∈ RuleSets routing /\ rs_Name set = name /\ s ∈ rs_Statements set /\ is_use s /\ st_Use s = used.

(** Uses lower the height, so that none leads back. *)
Lemma uses_height routing n n' : (forall set, set ∈ RuleSets routing -> set_map (RuleSets routing) !! rs_Name set = Some (rs_Statements set)) ->
  tc (uses routing) n n' -> forall k child, set_map (RuleSets routing) !! n = Some child -> height_le (set_map (RuleSets routing)) k child ->
  exists k' child', k' < k /\ set_map (RuleSets routing) !! n' = Some child' /\ height_le (set_map (RuleSets routing)) k' child'.
Proof.
  intros Hs. assert (Hone : forall n n', uses routing n n' -> forall k child, set_map (RuleSets routing) !! n = Some child -> height_le (set_map (RuleSets routing)) k child ->
    exists k' child', k' < k /\ set_map (RuleSets routing) !! n' = Some child' /\ height_le (set_map (RuleSets routing)) k' child').
  { intros n1 n2 (set & s & Hin & <- & Hst & Hu & <-) k child Hc Hk. rewrite (Hs set Hin) in Hc. injection Hc as <-. destruct k as [|k]; [done|]. destruct (Hk s Hst Hu) as (child' & ? & ?). exists k, child'. split; [lia|done]. }
  induction 1 as [n1 n2 H|n1 n2 n3 H _ IH]; intros k child Hc Hk; [by eapply Hone|]. destruct (Hone _ _ H k child Hc Hk) as (k1 & c1 & L1 & E1 & H1). destruct (IH k1 c1 E1 H1) as (k2 & c2 & L2 & ? & ?). exists k2, c2. split; [lia|done].
Qed.

Lemma uses_acyclic routing n k child : (forall set, set ∈ RuleSets routing -> set_map (RuleSets routing) !! rs_Name set = Some (rs_Statements set)) ->
  set_map (RuleSets routing) !! n = Some child -> height_le (set_map (RuleSets routing)) k child -> ~ tc (uses routing) n n.
Proof.
  intros Hs. revert child. induction (lt_wf k) as [k _ IH]. intros child Hc Hk Ht. destruct (uses_height routing n n Hs Ht k child Hc Hk) as (k' & child' & L & Hc' & Hk'). by apply (IH k' L child' Hc' Hk').
Qed.

(** C34: an accepted configuration refers only to what it declares.  Names of rule sets, of
    policies and of bound interfaces are distinct; the default is a declared policy and every
    interface is bound to a declared, named one; every use in a rule set or a policy names a declared rule set,
    chains of uses are at most [maxRoutingReferenceDepth] long, and no rule set leads back
    to itself. *)
Theorem Validate_references routing : Validate routing = Ok tt ->
  NoDup (map rs_Name (RuleSets routing)) /\ NoDup (map po_Name (Policies routing)) /\ NoDup (map if_Name (Interfaces routing)) /\
  (exists p, p ∈ Policies routing /\ po_Name p = Default routing) /\
  (forall b, b ∈ Interfaces routing -> if_Policy b <> ""%string /\ exists p, p ∈ Policies routing /\ po_Name p = if_Policy b) /\
  (forall stmts, block_of routing stmts -> height_le (set_map (RuleSets routing)) maxRoutingReferenceDepth stmts) /\
  (forall stmts s, block_of routing stmts -> s ∈ stmts -> is_use s -> exists set, set ∈ RuleSets routing /\ rs_Name set = st_Use s) /\
  (forall n, ~ tc (uses routing) n n).
Proof.
  intros Hv. destruct (Validate_stages routing Hv) as (Hh & Hs & _). unfold Validate in Hv. apply bind_Ok in Hv as (_ & _ & H). apply bind_Ok in H as ([count sets] & Hsets & H).
  apply bind_Ok in H as ([c policies] & [Hpd Hpn]%policy_names & H). apply bind_Ok in H as (_ & Hdef%guard_err_false%negb_false_iff%existsb_eqb_in & H). apply bind_Ok in H as (_ & _ & H). apply bind_Ok in H as (ifs & [Hid Hip]%binding_policies & _).
  destruct (set_names _ _ _ Hsets) as [Hsd Hsn]. apply validate_sets_spec in Hsets as (-> & _ & _). assert (Hpol : forall n, n ∈ policies -> exists p, p ∈ Policies routing /\ po_Name p = n) by (intros n Hn; apply Hpn, list_elem_of_fmap in Hn as (p & -> & Hp); eauto).
  split_and!; try done; [by apply Hpol|intros b Hb; destruct (Hip b Hb); split; [done|by apply Hpol]| |].
  - intros stmts s Hbl Hin Hu. specialize (Hh _ Hbl). cbn [height_le maxRoutingReferenceDepth] in Hh. destruct (Hh s Hin Hu) as (child & Hc & _). assert (Hn : st_Use s ∈ map rs_Name (RuleSets routing)) by (apply Hsn; by eexists). apply list_elem_of_fmap in Hn as (set & -> & Hset). eauto.
  - intros n Ht. assert (Hn : exists set, set ∈ RuleSets routing /\ rs_Name set = n) by (inversion Ht as [? ? (set & s & Hin & Hn & _)|? ? ? (set & s & Hin & Hn & _) _]; subst; eauto). destruct Hn as (set & Hin & <-).
    eapply uses_acyclic; [exact Hs|by apply Hs|apply Hh; left; eauto|done].
Qed.

Lemma uniform_not_empty sets k k' stmts : k = k' \/ k = RoutingRuleSetEmpty -> uniform sets k stmts -> uniform sets k' stmts.
Proof. intros [->| ->] Hu; [done|]. intros r Hr. exfalso. by apply (rule_kind_not_empty r), Hu. Qed.

Lemma RuleSetKinds_sound routing kinds :
  (forall set, set ∈ RuleSets routing -> set_map (RuleSets routing) !! rs_Name set = Some (rs_Statements set)) ->
  RuleSetKinds routing = Ok kinds ->
  forall p, p ∈ Policies routing ->
    uniform (set_map (RuleSets routing)) RoutingRuleSetRoutes (po_Statements p) /\
    uniform (set_map (RuleSets routing)) RoutingRuleSetFlow (po_Rules p).
Proof.
  unfold RuleSetKinds. set (sets := set_map (RuleSets routing)). intros Hsets (k0 & Hk0 & Hp)%bind_Ok.
  assert (Hok0 : kinds_ok sets k0).
  { refine (foldM_ind _ (fun _ ks => kinds_ok sets ks) (RuleSets routing) ∅ k0 _ _ Hk0).
    { intros name k Hn. by rewrite lookup_empty in Hn. }
    intros pre set ks ks' Hks Hin. destruct (ks !! rs_Name set); [by intros [= <-]|].
    intros ([k ks1] & Hc & [= <-])%bind_Ok. destruct (classify_sound _ _ _ _ _ _ Hks Hc) as [Hks1 Hu].
    apply kinds_ok_insert; [done|]. by rewrite (Hsets set Hin). }
  refine (proj2 (foldM_ind _ (fun pre ks => kinds_ok sets ks /\ forall p, p ∈ pre ->
    uniform sets RoutingRuleSetRoutes (po_Statements p) /\ uniform sets RoutingRuleSetFlow (po_Rules p))
    (Policies routing) k0 kinds _ _ Hp)).
  { split; [done|]. by intros ? Hn%elem_of_nil. }
  intros pre p ks ks' [Hks Hpre] _. unfold policy_kinds. intros ([k1 ks1] & Hc1 & H)%bind_Ok.
  apply bind_Ok in H as ([] & Hg1 & H). apply bind_Ok in H as ([k2 ks2] & Hc2 & H). apply bind_Ok in H as ([] & Hg2 & H).
  apply bind_Ok in H as (f & _ & H). apply bind_Ok in H as (_ & _ & [= <-]).
  destruct (classify_sound _ _ _ _ _ _ Hks Hc1) as [Hks1 Hu1]. destruct (classify_sound _ _ _ _ _ _ Hks1 Hc2) as [Hks2 Hu2].
  split; [done|]. intros p' [Hp'| ->%list_elem_of_singleton]%elem_of_app; [by apply Hpre|]. split.
  - eapply uniform_not_empty; [|exact Hu1]. destruct k1; [by right|by left|done].
  - eapply uniform_not_empty; [|exact Hu2]. destruct k2; [by right|done|by left].
Qed.

(** C35: in an accepted configuration, every rule a policy body reaches through
    rule sets selects an outbound, and every rule its [rules] section reaches is a
    flow control: no rule set mixes the two families. *)
Theorem Validate_families routing p r :
  Validate routing = Ok tt -> p ∈ Policies routing ->
  (reachable (set_map (RuleSets routing)) (po_Statements p) r -> rule_kind r = Ok RoutingRuleSetRoutes) /\
  (reachable (set_map (RuleSets routing)) (po_Rules p) r -> rule_kind r = Ok RoutingRuleSetFlow).
Proof.
  intros H Hp. destruct (Validate_stages _ H) as (_ & Hs & kinds & Hk).
  destruct (RuleSetKinds_sound _ _ Hs Hk p Hp) as [H1 H2]. split; [apply H1|apply H2].
Qed.

(** ** A configuration *)

Definition demo_rule (name : string) (outbound : Function) : RoutingRule :=
  mkRule [mkFunction name false [simpleParam "" "443"] false] outbound [].
Definition demo_policy : RoutingPolicy :=
  mkPolicy "main" [statement_use "flow" []] [statement_use "base" []; statement_rule (demo_rule "dport" (mkFunction "proxy" false [] false))]
    (Some (mkFunction "direct" false [] false)).
Definition demo_routing : Routing :=
  mkRouting "main"
    [ mkRuleSet "base" [statement_use "leaf" [mkFunction "dport" false [simpleParam "" "80"] false]];
      mkRuleSet "leaf" [statement_rule (demo_rule "sport" (mkFunction "block" false [] false))];
      mkRuleSet "flow" [statement_rule (demo_rule "dport" (mkFunction "must" false [] false))] ]
    [demo_policy] [mkInterface "eth0" "main"].

Lemma Validate_references_witness :
  Validate demo_routing = Ok tt /\ (exists p, p ∈ Policies demo_routing /\ po_Name p = Default demo_routing) /\
  height_le (set_map (RuleSets demo_routing)) maxRoutingReferenceDepth (po_Statements demo_policy).
Proof.
  assert (Hv : Validate demo_routing = Ok tt) by (by vm_compute). split; [done|]. destruct (Validate_references demo_routing Hv) as (_ & _ & _ & Hd & _ & Hh & _). split; [exact Hd|]. apply Hh.
  right. exists demo_policy. split; [|by left]. constructor.
Defined.

Lemma Validate_families_witness :
  let r := demo_rule "sport" (mkFunction "block" false [] false) in
  reachable (set_map (RuleSets demo_routing)) (po_Statements demo_policy) r /\ rule_kind r = Ok RoutingRuleSetRoutes.
Proof.
  cbv zeta. assert (Hr : reachable (set_map (RuleSets demo_routing)) (po_Statements demo_policy)
    (demo_rule "sport" (mkFunction "block" false [] false))).
  { eapply reach_use; [by constructor|done|]. eapply reach_use; [by constructor|done|].
    eapply reach_rule; [by constructor|done|done]. }
  split; [done|].
  apply (Validate_families demo_routing demo_policy); [by vm_compute|by constructor|done].
Defined.
