(* ===== verification/RoutingCompile.v ===== *)
(** * The routing compiler (control/routing_profile_compiler.go, routing_flow_compiler.go,
    routing_rule_set_compiler.go, routing_conditional.go)

    Rule sets and policies become spans over one pool of instructions. Rule sets are
    compiled once per condition and shared; conditions are entry blocks that jump
    past their body. Fragments of destination rewrites are shared by reference: they
    are numbered here. Error texts lose the names they quote. *)

From Stdlib Require Import String.
From S2P Require Import Prelude Netip Trie GoStrings NetipParse DomainMatcher ConfigSyntax RoutingInstr RoutingRules RoutingBuilder RoutingConfig.

(** ** State *)

Record destinationFragment := mkFragment { fg_rules : list DestinationRewrite }.

Record resolvedFlowBlock := mkFlowBlock {
  capture : list routingSpan;
  controls : list routingSpan;
  destinations : list nat;
}.
Definition empty_flow : resolvedFlowBlock := mkFlowBlock [] [] [].

Definition zero_span : routingSpan := mkSpan 0 0 routingPhaseRoute false.

Record sharedRoutingPrograms := mkShared {
  sh_bypass : routingSpan;
  sh_request : routingSpan;
  sh_http : routingSpan;
  sh_early : routingSpan;
  sh_late : routingSpan;
  sh_destinations : resolvedFlowBlock;
}.
Definition no_shared : sharedRoutingPrograms := mkShared zero_span zero_span zero_span zero_span zero_span empty_flow.

Definition routingRuleSetKey : Type := string * string.

Record routingCompiler := mkCompiler {
  builder : Builder;
  c_sets : gmap string (list RoutingStatement);
  setKinds : gmap string RoutingRuleSetKind;
  resolved : gmap routingRuleSetKey (list routingSpan);
  flows : gmap routingRuleSetKey resolvedFlowBlock;
  fragments : list destinationFragment;
  shared : sharedRoutingPrograms;
  profileDestinations : gmap Z (list nat);
  flowEnd : routingSpan;
  validationOutbounds : option (gmap string Z);
}.

Definition with_builder (c : routingCompiler) (b : Builder) : routingCompiler :=
  mkCompiler b (c_sets c) (setKinds c) (resolved c) (flows c) (fragments c) (shared c) (profileDestinations c) (flowEnd c)
    (validationOutbounds c).
Definition with_resolved (c : routingCompiler) (r : gmap routingRuleSetKey (list routingSpan)) : routingCompiler :=
  mkCompiler (builder c) (c_sets c) (setKinds c) r (flows c) (fragments c) (shared c) (profileDestinations c) (flowEnd c)
    (validationOutbounds c).
Definition with_flows (c : routingCompiler) (f : gmap routingRuleSetKey resolvedFlowBlock) : routingCompiler :=
  mkCompiler (builder c) (c_sets c) (setKinds c) (resolved c) f (fragments c) (shared c) (profileDestinations c) (flowEnd c)
    (validationOutbounds c).
Definition with_fragments (c : routingCompiler) (f : list destinationFragment) : routingCompiler :=
  mkCompiler (builder c) (c_sets c) (setKinds c) (resolved c) (flows c) f (shared c) (profileDestinations c) (flowEnd c)
    (validationOutbounds c).
Definition with_shared (c : routingCompiler) (s : sharedRoutingPrograms) : routingCompiler :=
  mkCompiler (builder c) (c_sets c) (setKinds c) (resolved c) (flows c) (fragments c) s (profileDestinations c) (flowEnd c)
    (validationOutbounds c).
Definition with_destinations (c : routingCompiler) (d : gmap Z (list nat)) : routingCompiler :=
  mkCompiler (builder c) (c_sets c) (setKinds c) (resolved c) (flows c) (fragments c) (shared c) d (flowEnd c)
    (validationOutbounds c).
Definition with_flowEnd (c : routingCompiler) (s : routingSpan) : routingCompiler :=
  mkCompiler (builder c) (c_sets c) (setKinds c) (resolved c) (flows c) (fragments c) (shared c) (profileDestinations c) s
    (validationOutbounds c).

(** ** Stateful computations *)

Definition M (A : Type) : Type := routingCompiler -> res (A * routingCompiler).
#[export] Instance M_ret : MRet M := fun A a c => Ok (a, c).
#[export] Instance M_bind : MBind M := fun A B f m c => '(a, c) ← m c; f a c.

Definition lift {A} (r : res A) : M A := fun c => a ← r; Ok (a, c).
Definition gets {A} (f : routingCompiler -> A) : M A := fun c => Ok (f c, c).
Definition modify (f : routingCompiler -> routingCompiler) : M () := fun c => Ok (tt, f c).
Definition in_builder {A} (f : Builder -> res (A * Builder)) : M A :=
  fun c => '(a, b) ← f (builder c); Ok (a, with_builder c b).
Definition on_builder (f : Builder -> res Builder) : M () := fun c => b ← f (builder c); Ok (tt, with_builder c b).
Definition rules_len : M nat := gets (fun c => List.length (rules (builder c))).

Fixpoint foldMM {A S} (f : S -> A -> M S) (s : S) (l : list A) : M S :=
  match l with [] => mret s | a :: l => s ← f s a; foldMM f s l end.

Section Compiler.
Context (sha256 : bytes -> bytes).
Context {Regexp : Type} (ahocorasick_IsValidChar : Z -> bool) (regexp_Compile : bytes -> option Regexp).

Let ApplyPredicate' := ApplyPredicate (parsers sha256).

(** ** Validation of predicates *)

Definition validatePredicates (b : Builder) : res () :=
  foldM (fun _ set => Slimtrie.ValidateSet ahocorasick_IsValidChar regexp_Compile (map str (ds_Domains set)) (ds_Key set)) tt
    (simulatedDomainSet (tables b)).

Definition validateEmptyRoutingUse (condition : list Function) : res () :=
  b ← ApplyPredicate' condition direct (newRoutingMatcherBuilder {[ "direct"%string := OutboundDirect ]});
  b ← validate (with_ends b (kernelLpmLen b) (List.length (rules b)));
  validatePredicates b.

(** ** Conditional blocks *)

Definition conditionalBlock (body : list routingSpan) (condition : list Function) (b : Builder)
    : res (list routingSpan * Builder) :=
  if is_empty condition then Ok (body, b)
  else
    match body with
    | [] => _ ← validateEmptyRoutingUse condition; Ok (body, b)
    | first :: _ =>
      let start := List.length (rules b) in
      b ← ApplyPredicate' condition direct b;
      rs ← idx (setConditionalJump (rules b) (List.length (rules b) - 1) (spanExecutionLen body));
      let b := with_rules b rs in
      block ← block_appendSpan [] (mkSpan start (List.length (rules b)) (Phase first) false);
      block ← block_appendBlock block body;
      Ok (block, b)
    end.

Definition flow_append (b other : resolvedFlowBlock) : res resolvedFlowBlock :=
  cap ← block_appendBlock (capture b) (capture other);
  con ← block_appendBlock (controls b) (controls other);
  Ok (mkFlowBlock cap con (destinations b ++ destinations other)).

(** The rules of a fragment, each guarded by the condition. *)
Definition conditioned (condition : list Function) (f : destinationFragment) : destinationFragment :=
  mkFragment (map (fun r => mkRewrite (condition ++ dr_Filter r) (dr_To r) (dr_Port r)) (fg_rules f)).

Definition add_conditioned (condition : list Function) (ids : list nat) (id : nat) : M (list nat) :=
  fun c =>
    f ← idx (fragments c !! id);
    Ok (ids ++ [List.length (fragments c)], with_fragments c (fragments c ++ [conditioned condition f])).

Definition conditionalFlowBlock (body : resolvedFlowBlock) (condition : list Function) : M resolvedFlowBlock :=
  cap ← in_builder (conditionalBlock (capture body) condition);
  con ← in_builder (conditionalBlock (controls body) condition);
  ids ← foldMM (add_conditioned condition) [] (destinations body);
  mret (mkFlowBlock cap con ids).

(** ** Batches of rules *)

Definition set_last (rs : list bpfMatchSet) (f : bpfMatchSet -> bpfMatchSet) : option (list bpfMatchSet) :=
  m ← last rs; Some (removelast rs ++ [f m]).

(** [flags] is 8 bits wide. *)
Definition applyFlowEffect (functions : list Function) (action flags : Z) (b : Builder) : res Builder :=
  b ← ApplyPredicate' functions direct b;
  rs ← idx (set_last (rules b) (fun tail =>
         with_Flags (with_Action tail action) (Z.lor (Flags tail) (shl 8 flags matchCaptureShift))));
  Ok (with_rules b rs).

Definition compileRuleBatch (rs : list RoutingRule) : M routingSpan :=
  start ← rules_len;
  _ ← on_builder (applyRules sha256 rs);
  end_ ← rules_len;
  _ ← lift (guard_err (MaxMatchSetLen <? end_) "too many physical routing match sets");
  mret (mkSpan start end_ routingPhaseRoute false).

Definition compileDestinations (rs : list DestinationRewrite) (global : bool) : M resolvedFlowBlock :=
  if is_empty rs then mret empty_flow
  else
    start ← rules_len;
    _ ← on_builder (fun b => foldM (fun b rule => applyFlowEffect (dr_Filter rule) MatchActionCapture captureDestination b) b rs);
    end_ ← rules_len;
    cap ← lift (block_appendSpan [] (mkSpan start end_ routingPhaseIngress global));
    id ← gets (fun c => List.length (fragments c));
    _ ← modify (fun c => with_fragments c (fragments c ++ [mkFragment rs]));
    mret (mkFlowBlock cap [] [id]).

Definition compileFlowBatch (rs : list RoutingRule) : M resolvedFlowBlock :=
  plan ← lift (Plan rs);
  block ← compileDestinations (Destinations plan) false;
  start ← rules_len;
  _ ← on_builder (fun b => foldM (fun b rule => applyFlowEffect (fr_Filter rule) (fr_Action rule) 0 b) b (Controls plan));
  end_ ← rules_len;
  _ ← lift (guard_err (MaxMatchSetLen <? end_) "too many physical routing match sets");
  con ← lift (block_appendSpan (controls block) (mkSpan start end_ routingPhaseFlow false));
  mret (mkFlowBlock (capture block) con (destinations block)).

(** ** Rule sets *)

Record ruleSetCompiler (B : Type) := mkRuleSetCompiler {
  rc_empty : B;
  rc_lookup : routingRuleSetKey -> routingCompiler -> option B;
  rc_store : routingRuleSetKey -> B -> routingCompiler -> routingCompiler;
  rc_compile : list RoutingRule -> M B;
  rc_condition : B -> list Function -> M B;
  rc_append : B -> B -> res B;
}.
Arguments rc_empty {B} r.
Arguments rc_lookup {B} r.
Arguments rc_store {B} r.
Arguments rc_compile {B} r.
Arguments rc_condition {B} r.
Arguments rc_append {B} r.

Definition routingProgram : ruleSetCompiler (list routingSpan) :=
  mkRuleSetCompiler _ [] (fun k c => resolved c !! k) (fun k b c => with_resolved c (<[k := b]> (resolved c)))
    (fun rs => span ← compileRuleBatch rs; lift (block_appendSpan [] span))
    (fun body condition => in_builder (conditionalBlock body condition)) block_appendBlock.

Definition flowProgram : ruleSetCompiler resolvedFlowBlock :=
  mkRuleSetCompiler _ empty_flow (fun k c => flows c !! k) (fun k b c => with_flows c (<[k := b]> (flows c)))
    compileFlowBatch conditionalFlowBlock flow_append.

Definition routingSetKey (name : string) (condition : list Function) : routingRuleSetKey :=
  (name, String.concat "" (map (fun f => Function_String true true false f +:+ "&&") condition)).

Section RuleSets.
Context {B : Type} (program : ruleSetCompiler B).

(** [flush] of [resolveBlockStatements]: compile the pending rules. *)
Definition flush (block : B) (local : list (option RoutingRule)) : M B :=
  if is_empty local then mret block
  else
    rs ← lift (idx (mapM id local));
    batch ← rc_compile program rs;
    lift (rc_append program block batch).

(** The statements with the rules accumulated so far; [resolve_use] is
    [resolveRuleSet]. *)
Fixpoint block_statements (resolve_use : string -> list Function -> M B) (block : B)
    (local : list (option RoutingRule)) (statements : list RoutingStatement) : M B :=
  match statements with
  | [] => flush block local
  | statement :: statements =>
    match st_Kind statement with
    | RoutingStatementRule => block_statements resolve_use block (local ++ [st_Rule statement]) statements
    | RoutingStatementUse =>
      block ← flush block local;
      called ← resolve_use (st_Use statement) (st_Condition statement);
      block ← lift (rc_append program block called);
      block_statements resolve_use block [] statements
    | RoutingStatementUnknown => lift (Err "contains an unknown statement")
    end
  end.

Definition remember (key : routingRuleSetKey) (block : B) : M B :=
  n ← gets (fun c => size (resolved c) + size (flows c));
  _ ← lift (guard_err (MaxMatchSetLen <=? n) "too many routing rule_set condition variants");
  _ ← modify (rc_store program key block);
  mret block.

(** Fuel counts nested rule sets; a conditional use takes two levels. *)
Fixpoint resolveRuleSet (fuel : nat) (name : string) (condition : list Function) : M B :=
  match fuel with
  | 0 => lift Panic
  | S fuel =>
    let key := routingSetKey name condition in
    cached ← gets (rc_lookup program key);
    match cached with
    | Some block => mret block
    | None =>
      set ← gets (fun c => c_sets c !! name);
      match set with
      | None => lift (Err "undefined routing rule_set")
      | Some statements =>
        block ← (if is_empty condition
                 then block_statements (resolveRuleSet fuel) (rc_empty program) [] statements
                 else block ← resolveRuleSet fuel name []; rc_condition program block condition);
        remember key block
      end
    end
  end.

Definition resolve_set_fuel : nat := 2 * S maxRoutingReferenceDepth.

Definition resolveBlockStatements (statements : list RoutingStatement) : M B :=
  block_statements (resolveRuleSet resolve_set_fuel) (rc_empty program) [] statements.
End RuleSets.

Definition resolveSet (name : string) (condition : list Function) : M (list routingSpan) :=
  resolveRuleSet routingProgram resolve_set_fuel name condition.
Definition resolveStatements := resolveBlockStatements routingProgram.
Definition resolveFlowSet (name : string) (condition : list Function) : M resolvedFlowBlock :=
  resolveRuleSet flowProgram resolve_set_fuel name condition.
Definition resolveFlowStatements := resolveBlockStatements flowProgram.

(** ** Profiles *)

Definition append_blocks (block : list routingSpan) (blocks : list (list routingSpan)) : res (list routingSpan) :=
  foldM block_appendBlock block blocks.

(** The shared [FlowEnd] instruction, created by the first profile with controls. *)
Definition use_flowEnd : M routingSpan :=
  span ← gets flowEnd;
  if span_len span =? 0 then
    start ← rules_len;
    let span := mkSpan start (S start) routingPhaseFlow false in
    _ ← modify (fun c => with_builder c (with_rules (builder c)
                          (rules (builder c) ++ [newMatchSet MatchType_Fallback MatchActionFlowEnd 0])));
    _ ← modify (fun c => with_flowEnd c span);
    mret span
  else mret span.

Definition addProfile (id : Z) (interfaceNames : list string) (policy : RoutingPolicy) : M () :=
  flow ← resolveFlowStatements (po_Rules policy);
  body ← resolveStatements (po_Statements policy);
  sh ← gets shared;
  block ← lift (append_blocks [] [[sh_bypass sh]; capture flow; capture (sh_destinations sh); [sh_request sh];
                                  controls flow; [sh_http sh]]);
  block ← (if negb (is_empty (controls flow)) || negb (span_len (sh_http sh) =? 0)
           then span ← use_flowEnd; lift (block_appendSpan block span)
           else mret block);
  block ← lift (append_blocks block [[sh_early sh]; body; [sh_late sh]]);
  raw ← lift (idx (po_Fallback policy));
  fallback ← fun c => m ← parseFallback raw (builder c); Ok (m, c);
  span ← in_builder (addFallback fallback);
  block ← lift (block_appendSpan block span);
  _ ← modify (fun c => with_builder c (with_profiles (builder c)
        (b_profiles (builder c) ++ [mkRoutingProfile id (po_Name policy) interfaceNames block []])));
  modify (fun c => with_destinations c
    (<[id := destinations flow ++ destinations (sh_destinations sh)]> (profileDestinations c))).

(** ** Shared programs *)

(** [preparedRules]; the HTTP capture scopes are given by their predicates, [None]
    when there is no capture. *)
Record preparedRules := mkPrepared {
  pr_routing : Routing;
  pr_validationOutbounds : option (gmap string Z);
  pr_bypass : list RoutingRule;
  pr_destinations : list DestinationRewrite;
  pr_earlyRoutes : list RoutingRule;
  pr_lateRoutes : list RoutingRule;
  pr_capture : option (list (list Function) * list (list Function));  (* requestRouting, http *)
}.

Definition compileHTTPCapture (predicates : list (list Function)) (flags : Z) (phase : routingPhase) : M routingSpan :=
  if is_empty predicates then mret zero_span
  else
    start ← rules_len;
    _ ← modify (fun c => with_builder c (with_rules (builder c) (rules (builder c) ++ [newMatchSet MatchType_HTTPClient 0 0])));
    _ ← on_builder (fun b => foldM (fun b predicate => applyFlowEffect predicate MatchActionCapture flags b) b predicates);
    end_ ← rules_len;
    _ ← on_builder (fun b => rs ← idx (setConditionalJump (rules b) start (end_ - start - 1)); Ok (with_rules b rs));
    mret (mkSpan start end_ phase true).

(** Routes of the instructions from [start] on bypass DNS capture. *)
Definition mark_bypass (start : nat) (rs : list bpfMatchSet) : list bpfMatchSet :=
  take start rs ++
  map (fun r => if (Action r =? MatchActionRoute)%Z then with_Flags r (Z.lor (Flags r) matchFlagBypass) else r) (drop start rs).

Definition as_global (s : routingSpan) : routingSpan := mkSpan (Start s) (End_ s) (Phase s) true.

Definition compileShared (p : preparedRules) : M () :=
  start ← rules_len;
  _ ← on_builder (applyRules sha256 (pr_bypass p));
  _ ← modify (fun c => with_builder c (with_rules (builder c) (mark_bypass start (rules (builder c)))));
  end_ ← rules_len;
  let bypass := mkSpan start end_ routingPhaseIngress true in
  destinations ← compileDestinations (pr_destinations p) true;
  captures ← (match pr_capture p with
              | None => mret (zero_span, zero_span)
              | Some (request, http) =>
                r ← compileHTTPCapture request (Z.lor captureHTTP captureHTTPRequest) routingPhaseIngress;
                h ← compileHTTPCapture http captureHTTP routingPhaseFlow;
                mret (r, h)
              end);
  early ← compileRuleBatch (pr_earlyRoutes p);
  late ← compileRuleBatch (pr_lateRoutes p);
  modify (fun c => with_shared c (mkShared bypass captures.1 captures.2 (as_global early) (as_global late) destinations)).

(** ** The whole program *)

Definition addDestinationPredicate (ps : list destinationPredicate) (rule : DestinationRewrite) (b : Builder)
    : res (list destinationPredicate * Builder) :=
  let start := List.length (rules b) in
  let domain := existsb (fun f => String.eqb (f_Name f) Function_Domain) (dr_Filter rule) in
  b ← ApplyPredicate' (dr_Filter rule) direct b;
  rs ← idx (set_last (rules b) (fun tail => with_Action tail MatchActionMatch));
  let rs := rs ++ [newMatchSet MatchType_Fallback MatchActionMiss 0] in
  Ok (ps ++ [mkDestination (mkSpan start (List.length rs) routingPhaseRoute false) domain (dr_To rule) (dr_Port rule)],
      with_rules b rs).

Definition addDestinationPredicates (rs : list DestinationRewrite) (b : Builder) : res (list destinationPredicate * Builder) :=
  foldM (fun '(ps, b) rule => addDestinationPredicate ps rule b) ([], b) rs.

(** The predicates of a fragment, compiled on its first use. *)
Definition fragment_predicates (compiled : gmap nat (list destinationPredicate)) (id : nat)
    : M (list destinationPredicate * gmap nat (list destinationPredicate)) :=
  match compiled !! id with
  | Some ps => mret (ps, compiled)
  | None =>
    f ← fun c => f ← idx (fragments c !! id); Ok (f, c);
    ps ← in_builder (addDestinationPredicates (fg_rules f));
    mret (ps, <[id := ps]> compiled)
  end.

Definition with_Destination (p : routingProfile) (d : list destinationPredicate) : routingProfile :=
  mkRoutingProfile (ID p) (Name p) (InterfaceNames p) (Spans p) d.

Definition finish_profile (compiled : gmap nat (list destinationPredicate)) (i : nat) : M (gmap nat (list destinationPredicate)) :=
  profile ← fun c => p ← idx (b_profiles (builder c) !! i); Ok (p, c);
  ids ← gets (fun c => default [] (profileDestinations c !! ID profile));
  '(ps, compiled) ← foldMM (fun '(ps, compiled) id =>
      '(more, compiled) ← fragment_predicates compiled id; mret (ps ++ more, compiled)) (Destination profile, compiled) ids;
  _ ← modify (fun c => with_builder c (with_profiles (builder c) (<[i := with_Destination profile ps]> (b_profiles (builder c)))));
  mret compiled.

Definition finish : M () :=
  _ ← modify (fun c => with_builder c (with_ends (builder c) (List.length (simulatedLpmTries (tables (builder c))))
                                         (List.length (rules (builder c)))));
  n ← gets (fun c => List.length (b_profiles (builder c)));
  _ ← foldMM finish_profile ∅ (seq 0 n);
  on_builder validate.

Definition newValidator (c : routingCompiler) : routingCompiler :=
  mkCompiler (newRoutingMatcherBuilder (default (outboundName2Id (builder c)) (validationOutbounds c)))
    (c_sets c) (setKinds c) ∅ ∅ [] no_shared ∅ zero_span None.

(** Run a computation on a fresh compiler, keeping only its errors. *)
Definition with_validator (m : M ()) : M () := fun c =>
  '(_, v) ← m (newValidator c);
  '(_, v) ← finish v;
  _ ← validatePredicates (builder v);
  Ok (tt, c).

Definition validateUnusedRuleSets (ruleSets : list RoutingRuleSet) : M () :=
  names ← gets (fun c => map (fun e => (e.1).1) (map_to_list (resolved c)) ++ map (fun e => (e.1).1) (map_to_list (flows c)));
  foldMM (fun _ set =>
      if existsb (String.eqb (rs_Name set)) names then mret tt
      else
        kinds ← gets setKinds;
        with_validator
          (if bool_decide (kinds !! rs_Name set = Some RoutingRuleSetFlow)
           then _ ← resolveFlowSet (rs_Name set) []; mret tt
           else _ ← resolveSet (rs_Name set) []; mret tt))
    tt ruleSets.

(** Profile names in order of selection, with the interfaces bound to them. *)
Definition bind_interface (profiles : list (string * list string)) (binding : RoutingInterface) : list (string * list string) :=
  if existsb (fun e => String.eqb e.1 (if_Policy binding)) profiles
  then map (fun e => if String.eqb e.1 (if_Policy binding) then (e.1, e.2 ++ [if_Name binding]) else e) profiles
  else profiles ++ [(if_Policy binding, [if_Name binding])].

Definition profile_bindings (routing : Routing) : list (string * list string) :=
  fold_left bind_interface (Interfaces routing) [(Default routing, [])].

Definition find_policy (routing : Routing) (name : string) : RoutingPolicy :=
  default (mkPolicy "" [] [] None) (last (List.filter (fun p => String.eqb (po_Name p) name) (Policies routing))).

Definition compile (routing : Routing) : M () :=
  let profiles := profile_bindings routing in
  _ ← modify (fun c => with_builder c (with_defaultProfile (builder c) 1));
  _ ← foldMM (fun i '(name, interfaces) =>
        _ ← addProfile i interfaces (find_policy routing name); mret (i + 1)%Z) 1%Z profiles;
  _ ← foldMM (fun _ policy =>
        if existsb (fun e => String.eqb e.1 (po_Name policy)) profiles then mret tt
        else with_validator (addProfile 0 [] policy)) tt (Policies routing);
  validateUnusedRuleSets (RuleSets routing).

Definition compileRouting (p : preparedRules) (outbounds : gmap string Z) : res Builder :=
  kinds ← RuleSetKinds (pr_routing p);
  let c := mkCompiler (newRoutingMatcherBuilder outbounds) (set_map (RuleSets (pr_routing p))) kinds ∅ ∅ [] no_shared ∅ zero_span
             (pr_validationOutbounds p) in
  '(_, c) ← (_ ← compileShared p; _ ← compile (pr_routing p); finish) c;
  Ok (builder c).

(** [requiresSniffing]: a domain-dependent rewrite or an HTTP capture is installed. *)
Definition requiresSniffing (b : Builder) : bool :=
  existsb (fun profile =>
    existsb d_domain (Destination profile) ||
    existsb (fun span =>
        existsb (fun rule => (Action rule =? MatchActionCapture)%Z && has_flag (Flags rule) (shl 8 captureHTTP matchCaptureShift))
          (take (End_ span - Start span) (drop (Start span) (rules b)))) (Spans profile)) (b_profiles b).
End Compiler.
