(* ===== verification/RoutingEmit.v ===== *)
(** * Instruction pools of the compiler

    The compiler appends constructs to one pool: the clauses of a rule or of a block
    condition, ended by an action or by a conditional jump. [raw] is a construct as
    the builder writes it, without relative jumps; [encodeRoutingJumps] turns a pool
    of raw constructs into the concatenation of their encoded forms, so a span of
    whole constructs keeps its meaning wherever it is referenced from. *)

From S2P Require Import Prelude Netip RoutingInstr RoutingCursor RoutingEval RoutingEquiv RoutingSem.

(** ** Constructs *)

Fixpoint raw_preds (flags : Z) (preds : list (Z * bytes)) (tail : Z * bytes -> bpfMatchSet) : list bpfMatchSet :=
  match preds with
  | [] => []
  | [pr] => [tail pr]
  | pr :: preds => mkMatch pr.2 pr.1 MatchActionOr flags 0 0 :: raw_preds flags preds tail
  end.

Fixpoint raw_clauses (cs : list clause) (tail : bpfMatchSet) : list bpfMatchSet :=
  match cs with
  | [] => []
  | [c] => raw_preds (not_flag c) (cl_preds c) (tail_instr (not_flag c) tail)
  | c :: cs => raw_preds (not_flag c) (cl_preds c) (and_instr (not_flag c) 0) ++ raw_clauses cs tail
  end.

Record construct := mkConstruct { k_clauses : list clause; k_tail : bpfMatchSet }.

(** Instructions a missed construct skips after its tail. *)
Definition k_after (k : construct) : nat :=
  if (Action (k_tail k) =? MatchActionConditionalJump)%Z then Z.to_nat (Mark (k_tail k) - 1) else 0.

Definition raw (k : construct) : list bpfMatchSet := raw_clauses (k_clauses k) (k_tail k).
Definition emit (k : construct) : list bpfMatchSet := emit_clauses (k_clauses k) (k_tail k) (k_after k).

Definition k_wf (k : construct) : Prop :=
  clauses_wf (k_clauses k) /\ Action (k_tail k) <> MatchActionOr /\ Action (k_tail k) <> MatchActionAnd.

Definition raw_pool (ks : list construct) : list bpfMatchSet := concat (map raw ks).
Definition emit_pool (ks : list construct) : list bpfMatchSet := concat (map emit ks).

Lemma length_raw_preds flags preds tail : length (raw_preds flags preds tail) = length preds.
Proof. induction preds as [|pr [|pr' preds] IH]; [done..|]. cbn [raw_preds length] in *. by rewrite IH. Qed.

Lemma emit_clauses_snoc2 c c' cs tail after :
  emit_clauses (c :: c' :: cs) tail after =
  emit_preds (not_flag c) (cl_preds c) (and_instr (not_flag c) (Z.of_nat (S (length (emit_clauses (c' :: cs) tail after) + after))))
  ++ emit_clauses (c' :: cs) tail after.
Proof. done. Qed.

Lemma length_raw_clauses cs tail after : length (raw_clauses cs tail) = length (emit_clauses cs tail after).
Proof.
  induction cs as [|c [|c' cs] IH]; [done| |].
  - cbn. by rewrite length_raw_preds, length_emit_preds.
  - rewrite emit_clauses_snoc2. change (raw_clauses (c :: c' :: cs) tail)
      with (raw_preds (not_flag c) (cl_preds c) (and_instr (not_flag c) 0) ++ raw_clauses (c' :: cs) tail).
    by rewrite !length_app, IH, length_raw_preds, length_emit_preds.
Qed.

Lemma length_raw k : length (raw k) = length (emit k).
Proof. apply length_raw_clauses. Qed.

(** ** Encoding *)

Lemma encode_preds flags preds T T' i rest rest' re :
  preds <> [] -> (Z.of_nat (i + length preds) < 2 ^ 32)%Z ->
  (forall pr, last preds = Some pr ->
    encode_jumps_from (i + length preds - 1) (T pr :: rest) =
    Ok (T' pr :: rest', re, Z.of_nat (i + length preds - 1))) ->
  encode_jumps_from i (raw_preds flags preds T ++ rest) =
  Ok (emit_preds flags preds T' ++ rest', re, Z.of_nat (i + length preds - 1)).
Proof.
  revert i. induction preds as [|pr [|pr' preds] IH]; intros i Hne Hb Hlast; [done| |].
  - cbn [length raw_preds emit_preds app] in *. replace (i + 1 - 1) with i in * by lia. by apply Hlast.
  - rewrite emit_preds_cons. change (raw_preds flags (pr :: pr' :: preds) T)
      with (mkMatch pr.2 pr.1 MatchActionOr flags 0 0 :: raw_preds flags (pr' :: preds) T).
    rewrite <-!app_comm_cons. cbn [encode_jumps_from].
    rewrite (IH (S i)); [|done|cbn [length] in *; lia|].
    + cbn [mbind res_bind encode_jump Action]. unfold encode_jump. cbn [Action]. change (MatchActionOr =? MatchActionAnd)%Z with false.
      change (MatchActionOr =? MatchActionOr)%Z with true. cbv iota. cbn [length] in *.
      assert ((Z.of_nat (S i + S (length preds) - 1) <=? Z.of_nat i)%Z = false) as -> by (apply Z.leb_gt; lia).
      cbn [mbind res_bind with_Mark Value Type_ Action Flags Outbound_]. do 3 f_equal; [|lia]. f_equal. f_equal.
      unfold with_Mark. cbn. f_equal. rewrite wrap_id by (unfold fits; lia). lia.
    + intros p Hp. replace (S i + length (pr' :: preds) - 1) with (i + length (pr :: pr' :: preds) - 1) by (cbn; lia).
      by apply Hlast.
Qed.

Definition tail_after (tail : bpfMatchSet) (after : nat) : Prop :=
  Action tail <> MatchActionOr /\ Action tail <> MatchActionAnd /\
  (if (Action tail =? MatchActionConditionalJump)%Z
   then (1 < Mark tail)%Z /\ (Mark tail <= Z.of_nat MaxMatchSetLen)%Z /\ Mark tail = Z.of_nat (S after)
   else after = 0).

Lemma encode_tail i flags tail after pr rest rest' re ct :
  tail_after tail after ->
  encode_jumps_from (S i) rest = Ok (rest', re, ct) ->
  encode_jumps_from i (tail_instr flags tail pr :: rest) =
  Ok (tail_instr flags tail pr :: rest', Z.of_nat (S i + after), Z.of_nat i).
Proof.
  intros (Hor & Hand & Hj) Hrest. cbn [encode_jumps_from]. rewrite Hrest. cbn [mbind res_bind].
  unfold encode_jump. cbn [tail_instr Action Mark].
  rewrite (proj2 (Z.eqb_neq _ _) Hor), (proj2 (Z.eqb_neq _ _) Hand).
  destruct (Action tail =? MatchActionConditionalJump)%Z.
  - destruct Hj as (H1 & H2 & H3).
    rewrite (proj2 (Z.leb_gt (Mark tail) 1) H1), (proj2 (Z.ltb_ge (Z.of_nat MaxMatchSetLen) (Mark tail)) H2).
    cbn [orb mbind res_bind]. do 3 f_equal. rewrite H3. lia.
  - subst after. cbn [mbind res_bind]. do 3 f_equal. lia.
Qed.

Lemma encode_and i flags pr rest rest' (re : nat) ct :
  S i <= re -> (Z.of_nat re < 2 ^ 32)%Z ->
  encode_jumps_from (S i) rest = Ok (rest', Z.of_nat re, ct) ->
  encode_jumps_from i (and_instr flags 0 pr :: rest) =
  Ok (and_instr flags (Z.of_nat (re - i)) pr :: rest', Z.of_nat re, Z.of_nat i).
Proof.
  intros Hle Hb Hrest. cbn [encode_jumps_from]. rewrite Hrest. cbn [mbind res_bind].
  unfold encode_jump. cbn [and_instr Action]. change (MatchActionAnd =? MatchActionAnd)%Z with true. cbv iota.
  rewrite (proj2 (Z.leb_gt (Z.of_nat re) (Z.of_nat i))) by lia. cbn [mbind res_bind]. do 3 f_equal.
  unfold with_Mark. cbn. unfold and_instr. do 2 f_equal. rewrite wrap_id by (unfold fits; lia). lia.
Qed.

Lemma encode_clauses cs tail after i rest rest' re ct :
  clauses_wf cs -> tail_after tail after -> (Z.of_nat (i + length (raw_clauses cs tail) + after) < 2 ^ 32)%Z ->
  encode_jumps_from (i + length (raw_clauses cs tail)) rest = Ok (rest', re, ct) ->
  exists ct', encode_jumps_from i (raw_clauses cs tail ++ rest) =
    Ok (emit_clauses cs tail after ++ rest', Z.of_nat (i + length (raw_clauses cs tail) + after), ct').
Proof.
  intros [Hne Hps] Ht. revert i. induction cs as [|c [|c' cs] IH]; intros i Hb Hrest; [done| |].
  - apply Forall_cons in Hps as [Hc _]. cbn [raw_clauses emit_clauses] in *. rewrite length_raw_preds in *.
    eexists. rewrite (encode_preds _ _ _ (tail_instr (not_flag c) tail) _ _ rest' (Z.of_nat (i + length (cl_preds c) + after)));
      [reflexivity|done|lia|]. intros pr _.
    assert (0 < length (cl_preds c)) by (destruct (cl_preds c); [done|cbn; lia]).
    rewrite (encode_tail _ _ _ after _ _ rest' re ct); [|done|by replace (S _) with (i + length (cl_preds c)) by lia].
    do 3 f_equal. lia.
  - apply Forall_cons in Hps as [Hc Hps]. rewrite emit_clauses_snoc2.
    change (raw_clauses (c :: c' :: cs) tail)
      with (raw_preds (not_flag c) (cl_preds c) (and_instr (not_flag c) 0) ++ raw_clauses (c' :: cs) tail) in *.
    rewrite length_app, length_raw_preds in *.
    destruct (IH ltac:(done) Hps (i + length (cl_preds c))) as [ct' IH']; [lia|by rewrite <-Nat.add_assoc|].
    rewrite <-!app_assoc. eexists.
    assert (0 < length (cl_preds c)) by (destruct (cl_preds c); [done|cbn; lia]).
    erewrite encode_preds; [reflexivity|done|lia|]. intros pr _.
    replace (i + length (cl_preds c)) with (S (i + length (cl_preds c) - 1)) in IH' by lia.
    rewrite (fun H1 H2 => encode_and _ (not_flag c) pr _ _ _ _ H1 H2 IH') by lia. do 3 f_equal; [|lia]. f_equal.
    unfold and_instr. f_equal. rewrite <-(length_raw_clauses (c' :: cs) tail after). lia.
Qed.

Lemma encode_app_inv a b i rs re ct :
  encode_jumps_from i (a ++ b) = Ok (rs, re, ct) ->
  exists rs' re' ct', encode_jumps_from (i + length a) b = Ok (rs', re', ct').
Proof.
  revert i rs re ct. induction a as [|x a IH]; intros i rs re ct; cbn [app length].
  - rewrite Nat.add_0_r. eauto.
  - cbn [encode_jumps_from]. intros H. destruct (encode_jumps_from (S i) (a ++ b)) as [[[rs1 re1] ct1]| |] eqn:E; [|done..].
    replace (i + S (length a)) with (S i + length a) by lia. eauto.
Qed.

(** The last instruction of a construct is its tail with its last predicate. *)
Lemma raw_preds_last flags preds T : preds <> [] -> exists pre pr, raw_preds flags preds T = pre ++ [T pr].
Proof.
  induction preds as [|pr [|pr' preds] IH]; intros Hne; [done|by exists [], pr|].
  destruct IH as (pre & pr0 & Heq); [done|]. exists (mkMatch pr.2 pr.1 MatchActionOr flags 0 0 :: pre), pr0.
  change (raw_preds flags (pr :: pr' :: preds) T)
    with (mkMatch pr.2 pr.1 MatchActionOr flags 0 0 :: raw_preds flags (pr' :: preds) T). by rewrite Heq.
Qed.

Lemma raw_clauses_last cs tail : clauses_wf cs ->
  exists pre c pr, raw_clauses cs tail = pre ++ [tail_instr (not_flag c) tail pr] /\ last cs = Some c.
Proof.
  intros [Hne Hps]. induction cs as [|c [|c' cs] IH]; [done| |]; apply Forall_cons in Hps as [Hc Hps].
  - destruct (raw_preds_last (not_flag c) (cl_preds c) (tail_instr (not_flag c) tail) Hc) as (pre & pr & Heq).
    by exists pre, c, pr.
  - destruct IH as (pre & c0 & pr & Heq & Hl); [done..|].
    exists (raw_preds (not_flag c) (cl_preds c) (and_instr (not_flag c) 0) ++ pre), c0, pr.
    change (raw_clauses (c :: c' :: cs) tail)
      with (raw_preds (not_flag c) (cl_preds c) (and_instr (not_flag c) 0) ++ raw_clauses (c' :: cs) tail).
    rewrite Heq, app_assoc. by split; [|rewrite last_cons_cons].
Qed.

Lemma encode_tail_bounds i k rest rs re ct : k_wf k ->
  encode_jumps_from i (raw k ++ rest) = Ok (rs, re, ct) -> tail_after (k_tail k) (k_after k).
Proof.
  intros (Hcs & Hor & Hand) Henc. split; [done|]. split; [done|]. unfold k_after.
  destruct (raw_clauses_last (k_clauses k) (k_tail k) Hcs) as (pre & c & pr & Heq & _). unfold raw in Henc.
  rewrite Heq, <-app_assoc in Henc. apply encode_app_inv in Henc as (rs' & re' & ct' & Henc).
  cbn [app encode_jumps_from] in Henc. destruct (encode_jumps_from _ rest) as [[[r1 re1] ct1]| |]; [|done..].
  cbn [mbind res_bind] in Henc. unfold encode_jump in Henc. cbn [tail_instr Action Mark] in Henc.
  rewrite (proj2 (Z.eqb_neq _ _) Hor), (proj2 (Z.eqb_neq _ _) Hand) in Henc.
  destruct (Action (k_tail k) =? MatchActionConditionalJump)%Z; [|done].
  destruct (Z.leb_spec (Mark (k_tail k)) 1), (Z.ltb_spec (Z.of_nat MaxMatchSetLen) (Mark (k_tail k))); try done. lia.
Qed.

(** Encoding a pool is encoding its constructs. *)
Lemma encode_pool ks i rs re ct :
  Forall k_wf ks -> (Z.of_nat (i + length (raw_pool ks) + MaxMatchSetLen) < 2 ^ 32)%Z ->
  encode_jumps_from i (raw_pool ks) = Ok (rs, re, ct) ->
  rs = emit_pool ks /\ Forall (fun k => tail_after (k_tail k) (k_after k)) ks.
Proof.
  intros Hwf. revert i rs re ct. induction Hwf as [|k ks Hk Hwf IH]; intros i rs re ct Hb Henc.
  - cbn in Henc. by injection Henc as <- _ _.
  - unfold raw_pool in *. cbn [map concat] in *. rewrite length_app in Hb.
    pose proof (encode_tail_bounds _ _ _ _ _ _ Hk Henc) as Ht.
    destruct (encode_app_inv _ _ _ _ _ _ Henc) as (rs' & re' & ct' & Henc').
    destruct (IH (i + length (raw k)) _ _ _ ltac:(lia) Henc') as [-> Hks]. split; [|by constructor].
    assert (k_after k <= MaxMatchSetLen) as Hle.
    { destruct Ht as (_ & _ & Ht). destruct (_ =? MatchActionConditionalJump)%Z; lia. }
    destruct (encode_clauses (k_clauses k) (k_tail k) (k_after k) i _ _ _ _ (proj1 Hk) Ht ltac:(unfold raw in *; lia) Henc')
      as [ct2 Heq]. fold (raw k) in Heq. rewrite Heq in Henc. by injection Henc as <- _ _.
Qed.

Lemma encodeRoutingJumps_pool ks rs :
  Forall k_wf ks -> (Z.of_nat (length (raw_pool ks) + MaxMatchSetLen) < 2 ^ 32)%Z ->
  encodeRoutingJumps (raw_pool ks) = Ok rs ->
  rs = emit_pool ks /\ Forall (fun k => tail_after (k_tail k) (k_after k)) ks.
Proof.
  intros Hwf Hb. unfold encodeRoutingJumps. destruct (encode_jumps_from 0 (raw_pool ks)) as [[[r re] ct]| |] eqn:E; [|done..].
  cbn. intros [= <-]. by apply (encode_pool ks 0 r re ct).
Qed.
