(* ===== verification/RoutingDenote.v ===== *)
(** * Meaning of rule functions

    The value of a function of a rule on a request is defined from its parameters
    alone; the instructions and table entries the builder emits for it have that
    value on every matcher that answers for the tables ([models]). Constructs are
    related to the functions they were built from, so a pool of constructs is a
    compiled list of rules. *)

From stdpp Require Import sorting.
From S2P Require Import Prelude Netip GoStrings NetipParse Trie TrieCorrect ConfigSyntax RoutingInstr RoutingCursor RoutingEval RoutingEquiv RoutingSem RoutingEmit RoutingRules RoutingBuilder.

(** ** Encodings of operands *)

Lemma get_le_bits v k n :
  get_le (map (fun i => wrap 8 (shr v (8 * i))) (seq k n)) = wrap (8 * n) (shr v (8 * k)).
Proof.
  revert k. induction n as [|n IH]; intros k.
  - cbn. unfold wrap. by rewrite Z.mod_1_r.
  - cbn [seq map get_le]. rewrite IH. change 8%Z with (Z.of_nat 8). apply tb_inj.
    + apply Z.lor_nonneg. split; [apply wrap_fits|]. apply Z.shiftl_nonneg, wrap_fits.
    + apply wrap_fits.
    + intros j. rewrite tb_lor, tb_shiftl, !tb_wrap, !tb_shr. nat_cases; cbn; try lia; try done.
      all: rewrite ?orb_false_r, ?orb_true_r; try done. all: f_equal; lia.
Qed.

Lemma get_put_le n v : fits (8 * n) v -> get_le (put_le n v) = v.
Proof. intros Hv. unfold put_le. rewrite get_le_bits. change (8 * 0) with 0. unfold shr. rewrite Z.shiftr_0_r. by apply wrap_id. Qed.

Lemma length_put_le n v : length (put_le n v) = n.
Proof. unfold put_le. by rewrite length_map, length_seq. Qed.

Lemma Uint32_PutUint32 v : fits 32 v -> Uint32 (PutUint32 v) = v.
Proof.
  intros Hv. unfold Uint32, PutUint32. rewrite take_app_length' by (by rewrite length_put_le). by apply (get_put_le 4).
Qed.

Lemma ParsePortRange_encode a b : fits 16 a -> fits 16 b -> ParsePortRange (encodePortRange (a, b)) = (a, b).
Proof.
  intros Ha Hb. unfold ParsePortRange, encodePortRange. cbn [fst snd].
  rewrite take_app_length', drop_app_length' by (by rewrite length_put_le).
  rewrite take_app_length' by (by rewrite length_put_le). by rewrite (get_put_le 2), (get_put_le 2).
Qed.

(** ** Masked prefixes *)

Lemma byte_bits_mask c (k : nat) : k <= 8 ->
  take k (byte_bits (Z.land c (wrap 8 (Z.shiftl 255 (8 - Z.of_nat k))))) = take k (byte_bits c).
Proof.
  intros Hk. unfold byte_bits. rewrite !firstn_map. apply map_ext_in. intros j Hj.
  apply list_elem_of_In, elem_of_take in Hj as (i & Hi & Hlt). apply lookup_seq in Hi as [-> Hi].
  rewrite tb_land, tb_wrap. replace (8 - Z.of_nat k)%Z with (Z.of_nat (8 - k)) by lia. rewrite tb_shiftl.
  assert (tb 255 (7 - i - (8 - k)) = true) as Hb.
  { change 255%Z with (Z.ones 8). unfold tb. rewrite Z.ones_spec_low by lia. done. }
  cbn [Nat.add]. nat_cases; try lia. rewrite Hb. by rewrite andb_true_r.
Qed.

Lemma length_byte_bits c : length (byte_bits c) = 8.
Proof. done. Qed.

Lemma bits_of_mask n a : (0 <= n)%Z ->
  take (Z.to_nat n) (bits_of (mask_bytes n a)) = take (Z.to_nat n) (bits_of a).
Proof.
  revert n. induction a as [|c a IH]; intros n Hn; [done|]. cbn [mask_bytes bits_of flat_map].
  fold (bits_of a) (bits_of (mask_bytes (n - 8) a)). rewrite !take_app, !length_byte_bits.
  destruct (Z.le_gt_cases 8 n) as [Hge|Hlt].
  - replace (Z.min 8 (Z.max 0 n)) with (Z.of_nat 8) by lia.
    assert (Hb : byte_bits (Z.land c (wrap 8 (Z.shiftl 255 (8 - Z.of_nat 8)))) = byte_bits c).
    { pose proof (byte_bits_mask c 8 ltac:(lia)) as H. by rewrite !take_ge in H by done. }
    rewrite Hb. f_equal. replace (Z.to_nat n - 8) with (Z.to_nat (n - 8)) by lia. apply IH. lia.
  - replace (Z.to_nat n - 8) with 0 by lia. f_equal.
    pose proof (byte_bits_mask c (Z.to_nat n) ltac:(lia)) as H. rewrite Z2Nat.id in H by lia.
    by replace (Z.min 8 (Z.max 0 n)) with n by lia.
Qed.

Lemma mask_bytes_wf n a : Forall is_byte a -> Forall is_byte (mask_bytes n a) /\ length (mask_bytes n a) = length a.
Proof.
  intros Ha. revert n. induction Ha as [|c a Hc Ha IH]; intros n; [done|]. cbn [mask_bytes length].
  destruct (IH (n - 8)%Z) as [H1 H2]. rewrite H2. split; [|done]. constructor; [|done].
  apply tb_fits; [apply Z.land_nonneg; left; apply Hc|]. intros j Hj. rewrite tb_land, (fits_tb 8 c) by done. done.
Qed.

Lemma Masked_wf p : Prefix_wf p -> Prefix_wf (Masked p).
Proof.
  intros (Hw & Hv & Hb). unfold Masked. rewrite (proj2 (Z.ltb_ge _ _)) by lia.
  destruct p as [[|a|a] n]; [done|..]; cbn in *; destruct (mask_bytes_wf n a (proj2 Hw)) as [H1 H2];
    split; [split; [by rewrite H2; apply Hw|done]|done|split; [by rewrite H2; apply Hw|done]|done].
Qed.

Lemma cidr_contains_Masked address p : Prefix_wf p -> cidr_contains address (Masked p) = cidr_contains address p.
Proof.
  intros (Hw & Hv & Hb). unfold cidr_contains, Masked. rewrite (proj2 (Z.ltb_ge _ _)) by lia.
  destruct p as [[|a|a] n]; [done|..]; cbn [pfx_addr pfx_bits] in *.
  - assert (take (prefix_len128 (mkPrefix (AddrV4 (mask_bytes n a)) n)) (bits_of (As16 (AddrV4 (mask_bytes n a)))) =
      take (prefix_len128 (mkPrefix (AddrV4 a) n)) (bits_of (As16 (AddrV4 a)))) as ->; [|done].
    cbn [As16]. unfold bits_of. rewrite !flat_map_app. fold (bits_of v4_mapped) (bits_of a) (bits_of (mask_bytes n a)).
    rewrite !take_app. f_equal. rewrite length_bits_of. change (8 * length v4_mapped) with 96.
    unfold prefix_len128. cbn. replace (Z.to_nat _ - 96) with (Z.to_nat n) by lia. apply bits_of_mask. lia.
  - unfold prefix_len128. cbn. by rewrite bits_of_mask by lia.
Qed.

(** ** Sets of values *)

Lemma elem_of_Compact {A} `{EqDecision A} (l : list A) x : x ∈ Compact l <-> x ∈ l.
Proof.
  induction l as [|y [|z l] IH]; [done..|]. change (Compact (y :: z :: l))
    with (if decide (y = z) then Compact (z :: l) else y :: Compact (z :: l)).
  destruct (decide (y = z)) as [->|Hn]; [rewrite IH, !elem_of_cons; tauto|].
  rewrite (elem_of_cons (Compact (z :: l)) x y), IH, !elem_of_cons. tauto.
Qed.

Lemma existsb_same {A} (f : A -> bool) l l' : (forall x, x ∈ l <-> x ∈ l') -> existsb f l = existsb f l'.
Proof.
  intros H. apply eq_true_iff_eq. rewrite !existsb_exists. split; intros (x & Hx & Hf); exists x; split; try done;
    apply list_elem_of_In, H, list_elem_of_In, Hx.
Qed.

Lemma existsb_map {A B} (f : B -> bool) (g : A -> B) l : existsb f (map g l) = existsb (fun x => f (g x)) l.
Proof. induction l as [|x l IH]; [done|]. cbn. by rewrite IH. Qed.

Lemma elem_of_sort_strings values x : x ∈ sort_strings values <-> x ∈ values.
Proof. unfold sort_strings. rewrite elem_of_Compact. by rewrite (merge_sort_Permutation string_le values). Qed.

Lemma existsb_normalize address ps : Forall Prefix_wf ps ->
  existsb (cidr_contains address) (normalize_prefixes ps) = existsb (cidr_contains address) ps.
Proof.
  intros Hwf. rewrite (existsb_same _ (normalize_prefixes ps) (map Masked ps)).
  - rewrite existsb_map. induction Hwf as [|p ps Hp Hwf IH]; [done|]. cbn [existsb]. by rewrite cidr_contains_Masked, IH.
  - intros x. unfold normalize_prefixes. rewrite elem_of_Compact. by rewrite (merge_sort_Permutation prefix_le).
Qed.

Lemma Forall_normalize ps : Forall Prefix_wf ps -> Forall Prefix_wf (normalize_prefixes ps).
Proof.
  intros Hwf. apply Forall_forall. intros x Hx. unfold normalize_prefixes in Hx. rewrite elem_of_Compact in Hx.
  rewrite (merge_sort_Permutation prefix_le) in Hx. apply list_elem_of_fmap in Hx as (p & -> & Hp).
  apply Masked_wf. by eapply Forall_forall.
Qed.

(** ** Byte strings and their bits *)

Lemma byte_bits_inj a b : is_byte a -> is_byte b -> byte_bits a = byte_bits b -> a = b.
Proof.
  intros Ha Hb H. apply tb_inj; [apply Ha|apply Hb|]. intros n.
  destruct (Nat.lt_ge_cases n 8) as [Hn|Hn]; [|by rewrite (fits_tb 8 a), (fits_tb 8 b)].
  assert (byte_bits a !! (7 - n) = byte_bits b !! (7 - n)) as He by (by rewrite H).
  unfold byte_bits in He. rewrite !list_lookup_fmap, lookup_seq_lt in He by lia. cbn [fmap option_fmap option_map] in He.
  injection He as He. cbn [Nat.add] in He. by replace (7 - (7 - n)) with n in He by lia.
Qed.

Lemma bits_of_inj a b : Forall is_byte a -> Forall is_byte b -> length a = length b -> bits_of a = bits_of b -> a = b.
Proof.
  intros Ha. revert b. induction Ha as [|x a Hx Ha IH]; intros [|y b] Hb Hl H; try done.
  apply Forall_cons in Hb as [Hy Hb]. cbn [bits_of flat_map] in H. apply app_inj_1 in H as [H1 H2]; [|done].
  f_equal; [by apply byte_bits_inj|]. apply IH; [done|by injection Hl|done].
Qed.

Definition mac_wf (mac : bytes) : Prop := length mac = 6 /\ Forall is_byte mac.

Lemma mac_prefix_contains m m' : mac_wf m -> mac_wf m' ->
  cidr_contains (replicate 10 0%Z ++ m) (PrefixFrom (AddrFrom16 (replicate 10 0%Z ++ m')) 128) = bool_decide (m' = m).
Proof.
  intros [Hl Hm] [Hl' Hm']. change (PrefixFrom (AddrFrom16 ?a) 128) with (mkPrefix (AddrV6 a) 128).
  unfold cidr_contains, prefix_len128. cbn [Is4 pfx_addr pfx_bits As16].
  assert (Hz : Forall is_byte (replicate 10 0%Z)) by (apply Forall_replicate; split; lia).
  rewrite !take_ge by (rewrite length_bits_of, length_app, length_replicate; lia).
  apply bool_decide_ext. split.
  - intros H%bits_of_inj; [by simplify_list_eq|by apply Forall_app..|by rewrite !length_app, Hl, Hl'].
  - by intros ->.
Qed.

Lemma mac_prefix_wf m : mac_wf m -> Prefix_wf (PrefixFrom (AddrFrom16 (replicate 10 0%Z ++ m)) 128).
Proof.
  intros [Hl Hm]. cbn. split; [|split; [done|cbn; lia]]. cbn. rewrite Hl. split; [done|].
  rewrite !Forall_cons. split_and!; try (split; lia). done.
Qed.

Lemma existsb_mac mac macs : mac_wf mac -> Forall mac_wf macs ->
  existsb (cidr_contains (replicate 10 0%Z ++ mac)) (sourceMacPrefixes macs) = existsb (fun m => bool_decide (m = mac)) macs.
Proof.
  intros Hm Hms. unfold sourceMacPrefixes. rewrite existsb_map. induction Hms as [|m macs H Hms IH]; [done|].
  cbn [existsb]. by rewrite mac_prefix_contains, IH.
Qed.

(** ** The meaning of functions *)

Section Meaning.
(** Interface indices by name (0 for an absent one), members of the client sets, and
    what is known of the domain name: the value of a set of patterns. *)
Context (ifenv : string -> Z) (members : string -> list bytes) (dv : string -> list string -> predicateResult).

Definition value_holds (p : routingInput) (name value : string) : bool :=
  if String.eqb name Function_DestIp then
    match parse_prefix value with Some pfx => cidr_contains (As16 (ap_addr (dst p))) pfx | None => false end
  else if String.eqb name Function_SourceIp then
    match parse_prefix value with Some pfx => cidr_contains (As16 (ap_addr (src p))) pfx | None => false end
  else if String.eqb name Function_DestPort then
    match parsePortRange value with Some (a, b) => (a <=? ap_port (dst p))%Z && (ap_port (dst p) <=? b)%Z | None => false end
  else if String.eqb name Function_SourcePort then
    match parsePortRange value with Some (a, b) => (a <=? ap_port (src p))%Z && (ap_port (src p) <=? b)%Z | None => false end
  else if String.eqb name Function_L4Proto then
    match parse_l4proto value with Some k => has_flag (l4proto p) k | None => false end
  else if String.eqb name Function_Mac then bool_decide (parseMac value = Some (mac p))
  else if String.eqb name Function_Client then existsb (fun m => bool_decide (m = mac p)) (members value)
  else if String.eqb name Function_ProcessName then
    negb (byte0 (processName p) =? 0)%Z && bool_decide (toProcessName value = processName p)
  else if String.eqb name Function_Interface then
    negb (ifenv value =? 0)%Z && ((ifindex p =? ifenv value)%Z || (physinif p =? ifenv value)%Z)
  else if String.eqb name Function_Dscp then bool_decide (ParseUint0 8 (str value) = Some (dscp p))
  else if String.eqb name Function_IpVersion then
    match parse_ipversion value with Some k => has_flag (IpVersionFromAddr (ap_addr (dst p))) k | None => false end
  else false.

(** Parameters with the same key form a group: one set of values. *)
Definition group_value (p : routingInput) (name key : string) (values : list string) : predicateResult :=
  if String.eqb name Function_Domain then dv key values
  else pbool (existsb (value_holds p name) values).

Definition groups_value (p : routingInput) (name : string) (groups : list (string * list string)) : predicateResult :=
  fold_right (fun g v => pmax (group_value p name g.1 g.2) v) predicateMiss groups.

Definition function_value (p : routingInput) (f : Function) : predicateResult :=
  let v := groups_value p (f_Name f) (groupParamValuesByKey (f_Params f)) in if f_Not f then pneg v else v.

Definition functions_value (p : routingInput) (fs : list Function) : predicateResult :=
  fold_right (fun f v => pmin (function_value p f) v) predicateMatch fs.

(** ** Tables and matchers *)

Definition static_slot (t : Tables) (id : nat) : Prop := forall name, clientSetSlots t !! name <> Some id.

(** The request is well formed. *)
Definition input_wf (p : routingInput) : Prop :=
  Addr_wf (ap_addr (src p)) /\ Addr_wf (ap_addr (dst p)) /\ mac_wf (mac p).

(** The matcher [m] answers for the tables [t] on the request [p]. *)
Record models (t : Tables) (m : RoutingMatcher) (p : routingInput) : Prop := {
  models_input : input_wf p;
  models_size : (Z.of_nat (length (simulatedLpmTries t)) < 2 ^ 32)%Z;
  models_ifenv : forall name, fits 32 (ifenv name);
  models_members : forall name, Forall mac_wf (members name);
  models_lpm : forall id prefixes, simulatedLpmTries t !! id = Some prefixes -> static_slot t id ->
    exists trie, lpmMatcher m !! id = Some trie /\
      forall address, length address = 16 -> HasPrefixIP trie address = Some (existsb (cidr_contains address) prefixes);
  models_client : forall name slot, clientSetSlots t !! name = Some slot ->
    exists trie, lpmMatcher m !! slot = Some trie /\
      forall address, length address = 16 ->
        HasPrefixIP trie address = Some (existsb (cidr_contains address) (sourceMacPrefixes (members name)));
  models_domain : forall id key values, simulatedDomainSet t !! id = Some (mkDomainSet key id values) ->
    pvalue m p (MatchType_DomainSet, PutUint32 (Z.of_nat id)) = Ok (dv key values);
}.

(** Tables only grow; new client sets take new slots. *)
Record tables_le (t t' : Tables) : Prop := {
  le_lpm : simulatedLpmTries t `prefix_of` simulatedLpmTries t';
  le_domain : simulatedDomainSet t `prefix_of` simulatedDomainSet t';
  le_client : clientSetSlots t ⊆ clientSetSlots t';
  le_fresh : forall name slot, clientSetSlots t' !! name = Some slot ->
    clientSetSlots t !! name = Some slot \/ length (simulatedLpmTries t) <= slot;
}.

Lemma tables_le_refl t : tables_le t t.
Proof. split; [done..|]. by left. Qed.

Lemma tables_le_trans t1 t2 t3 : tables_le t1 t2 -> tables_le t2 t3 -> tables_le t1 t3.
Proof.
  intros H12 H23. split; [etrans; [apply H12|apply H23]..|].
  intros name slot Hs. destruct (le_fresh _ _ H23 _ _ Hs) as [H|H]; [by apply (le_fresh _ _ H12)|].
  right. pose proof (prefix_length _ _ (le_lpm _ _ H12)). lia.
Qed.

Lemma static_slot_le t t' id : tables_le t t' -> id < length (simulatedLpmTries t) -> static_slot t id -> static_slot t' id.
Proof. intros Hle Hlt Hst name Hs. destruct (le_fresh _ _ Hle _ _ Hs) as [H|H]; [by apply (Hst name)|lia]. Qed.

Lemma models_le t t' m p : tables_le t t' -> models t' m p -> models t m p.
Proof.
  intros Hle Hm. split; [apply Hm|..].
  - pose proof (models_size _ _ _ Hm). pose proof (prefix_length _ _ (le_lpm _ _ Hle)). lia.
  - apply Hm.
  - apply Hm.
  - intros id prefixes Hid Hst. apply (models_lpm _ _ _ Hm); [by apply (prefix_lookup_Some _ _ _ _ Hid), Hle|].
    by apply (static_slot_le t); [|apply lookup_lt_Some in Hid|].
  - intros name slot Hs. apply (models_client _ _ _ Hm). by apply (lookup_weaken _ _ _ _ Hs), Hle.
  - intros id key values Hid. apply (models_domain _ _ _ Hm). by apply (prefix_lookup_Some _ _ _ _ Hid), Hle.
Qed.

(** Operands in the ranges the kernel checks: a domain bit, a byte of flags, a reserved
    slot of the address tables. *)
Definition pred_ok (t : Tables) (pr : Z * bytes) : Prop :=
  (pr.1 = MatchType_DomainSet -> (Uint32 pr.2 < Z.of_nat MaxMatchSetLen)%Z) /\
  (pr.1 = MatchType_L4Proto \/ pr.1 = MatchType_IpVersion -> Uint32 pr.2 = byte0 pr.2) /\
  (pr.1 = MatchType_IpSet \/ pr.1 = MatchType_SourceIpSet \/ pr.1 = MatchType_Mac ->
    exists id, id < length (simulatedLpmTries t) /\ pr.2 = PutUint32 (Z.of_nat id)).

Lemma pred_ok_le t t' pr : tables_le t t' -> pred_ok t pr -> pred_ok t' pr.
Proof.
  intros Hle (H1 & H2 & H3). split_and!; try done. intros Hk. destruct (H3 Hk) as (id & Hid & Hv). exists id. split; [|done].
  pose proof (prefix_length _ _ (le_lpm _ _ Hle)). lia.
Qed.

(** Predicates of the other kinds have no such range. *)
Lemma pred_ok_other t kind v :
  negb (existsb (Z.eqb kind) [MatchType_DomainSet; MatchType_L4Proto; MatchType_IpVersion; MatchType_IpSet; MatchType_SourceIpSet; MatchType_Mac]) = true ->
  pred_ok t (kind, v).
Proof.
  intros H. apply negb_true_iff in H. cbn [existsb] in H. rewrite !orb_false_iff, !Z.eqb_neq in H. unfold pred_ok. cbn [fst snd]. split_and!; tauto.
Qed.

Lemma pred_ok_flags t kind v : kind = MatchType_L4Proto \/ kind = MatchType_IpVersion -> pred_ok t (kind, byte_value v).
Proof. intros [-> | ->]; (split; [done|]; split; [|by intros [|[|]]]); intros _; unfold Uint32, byte_value; cbn; by rewrite ?Z.lor_0_r. Qed.

Lemma pred_ok_lpm t kind id : kind = MatchType_IpSet \/ kind = MatchType_SourceIpSet \/ kind = MatchType_Mac ->
  id < length (simulatedLpmTries t) -> pred_ok t (kind, PutUint32 (Z.of_nat id)).
Proof. intros Hk Hid. split_and!; [by destruct Hk as [-> | [-> | ->]]|by destruct Hk as [-> | [-> | ->]]; intros [|]|]. intros _. by exists id. Qed.

(** [preds] has the value [v] on every matcher of the tables. *)
Definition preds_mean (t : Tables) (preds : list (Z * bytes)) (v : routingInput -> predicateResult) : Prop :=
  Forall (pred_ok t) preds /\
  forall m p, models t m p -> Forall (total m p) preds /\ preds_value m p preds = v p.

Lemma preds_mean_le t t' preds v : tables_le t t' -> preds_mean t preds v -> preds_mean t' preds v.
Proof.
  intros Hle [Ho H]. split; [eapply Forall_impl; [exact Ho|]; intros pr; by apply pred_ok_le|]. intros m p Hm. by apply H, (models_le t t').
Qed.

Lemma preds_mean_ext t preds v v' : (forall m p, models t m p -> v p = v' p) -> preds_mean t preds v -> preds_mean t preds v'.
Proof. intros Hv [Ho H]. split; [done|]. intros m p Hm. rewrite <-(Hv m p Hm). by apply H. Qed.

Lemma pmax_assoc a b c : pmax a (pmax b c) = pmax (pmax a b) c.
Proof. by destruct a, b, c. Qed.
Lemma pmax_miss a : pmax a predicateMiss = a.
Proof. by destruct a. Qed.

Lemma preds_mean_app t preds preds' v v' :
  preds_mean t preds v -> preds_mean t preds' v' -> preds_mean t (preds ++ preds') (fun p => pmax (v p) (v' p)).
Proof.
  intros [Ho H] [Ho' H']. split; [by apply Forall_app|].
  intros m p Hm. destruct (H m p Hm) as [Ht Hv], (H' m p Hm) as [Ht' Hv']. split; [by apply Forall_app|].
  rewrite <-Hv, <-Hv'. clear. unfold preds_value. induction preds as [|pr preds IH]; cbn; [by destruct (fold_right _ _ _)|].
  by rewrite IH, pmax_assoc.
Qed.

Lemma preds_mean_one t pr v : pred_ok t pr -> (forall m p, models t m p -> pvalue m p pr = Ok (v p)) -> preds_mean t [pr] v.
Proof.
  intros Ho H. split; [by apply Forall_singleton|]. intros m p Hm. specialize (H m p Hm). split; [apply Forall_cons; split; [by eexists|done]|].
  unfold preds_value, value. cbn. rewrite H. apply pmax_miss.
Qed.

(** ** Interning *)

Record tables_ok (t : Tables) : Prop := {
  ok_client_empty : forall name slot, clientSetSlots t !! name = Some slot -> simulatedLpmTries t !! slot = Some [];
  ok_client_inj : forall n n' slot, clientSetSlots t !! n = Some slot -> clientSetSlots t !! n' = Some slot -> n = n';
  ok_static : forall key ids id, staticLpmIDs t !! key = Some ids -> id ∈ ids ->
    id < length (simulatedLpmTries t) /\ static_slot t id;
  ok_domain : forall id set, simulatedDomainSet t !! id = Some set ->
    ds_RuleIndex set = id /\ is_domain_key (ds_Key set) = true;
  ok_prefixes : Forall (Forall Prefix_wf) (simulatedLpmTries t);
  ok_size : length (simulatedDomainSet t) <= MaxMatchSetLen;
}.

Lemma ok_client t : tables_ok t -> forall name slot, clientSetSlots t !! name = Some slot -> slot < length (simulatedLpmTries t).
Proof. intros Hok name slot H%(ok_client_empty _ Hok). by eapply lookup_lt_Some. Qed.

Lemma empty_tables_ok : tables_ok empty_tables.
Proof. split; try done; [intros; simplify_map_eq..|cbn; lia]. Qed.

Lemma find_id_Some test ids id : find_id test ids = Some id -> id ∈ ids /\ test id = true.
Proof.
  unfold find_id. intros H. destruct (List.filter test ids) as [|x l] eqn:E; [done|]. injection H as ->.
  assert (In id (List.filter test ids)) as Hin by (rewrite E; by left). apply filter_In in Hin as [Hin Ht].
  by rewrite list_elem_of_In.
Qed.

Lemma internLPM_spec sha256 values t id t' :
  tables_ok t -> Forall Prefix_wf values -> internLPM sha256 values t = (id, t') ->
  tables_le t t' /\ tables_ok t' /\ simulatedLpmTries t' !! id = Some (normalize_prefixes values) /\ static_slot t' id /\
  length (simulatedLpmTries t') <= S (length (simulatedLpmTries t)).
Proof.
  intros Hok Hv. unfold internLPM.
  set (key := prefix_signature _ _). set (ids := default [] (staticLpmIDs t !! key)).
  assert (Hids : forall id, id ∈ ids -> id < length (simulatedLpmTries t) /\ static_slot t id).
  { intros i Hi. unfold ids in Hi. destruct (staticLpmIDs t !! key) as [l|] eqn:E; [|by apply elem_of_nil in Hi].
    by apply (ok_static _ Hok key l). }
  destruct (find_id _ ids) as [i|] eqn:Ef.
  - intros [= <- <-]. apply find_id_Some in Ef as [Hin Ht]. apply bool_decide_eq_true in Ht.
    split; [apply tables_le_refl|]. split; [done|]. split; [done|]. split; [by apply Hids|lia].
  - intros [= <- <-]. set (n := length (simulatedLpmTries t)).
    assert (Hn : static_slot t n) by (intros name Hs; apply (ok_client _ Hok) in Hs; unfold n in Hs; lia).
    split; [split; [by apply prefix_app_r|done|done|by left]|]. split; [split; cbn|].
    + intros name slot Hs%(ok_client_empty _ Hok). by apply lookup_app_l_Some.
    + apply (ok_client_inj _ Hok).
    + intros k l i. destruct (decide (k = key)) as [->|Hk]; [rewrite lookup_insert_eq|rewrite lookup_insert_ne by done].
      * intros [= <-] [Hi|Hi%list_elem_of_singleton]%elem_of_app; rewrite length_app; cbn.
        -- destruct (Hids i Hi). split; [lia|done].
        -- subst i. split; [unfold n; lia|done].
      * intros H1 H2. destruct (ok_static _ Hok k l i H1 H2). rewrite length_app. split; [lia|done].
    + apply (ok_domain _ Hok).
    + apply Forall_app. split; [apply (ok_prefixes _ Hok)|]. apply Forall_cons. split; [by apply Forall_normalize|done].
    + apply (ok_size _ Hok).
    + split; [cbn; by rewrite lookup_app_r, Nat.sub_diag by (unfold n; lia)|]. split; [done|]. cbn. rewrite length_app. cbn. lia.
Qed.

Lemma internDomain_spec sha256 key values t id t' :
  tables_ok t -> is_domain_key key = true -> internDomain sha256 key values t = Some (id, t') ->
  tables_le t t' /\ tables_ok t' /\ simulatedDomainSet t' !! id = Some (mkDomainSet key id (sort_strings values)) /\
  simulatedLpmTries t' = simulatedLpmTries t.
Proof.
  intros Hok Hkey. unfold internDomain.
  set (sg := domain_signature _ _ _). set (ids := default [] (domainSetIDs t !! sg)).
  destruct (find_id _ ids) as [i|] eqn:Ef.
  - intros [= <- <-]. apply find_id_Some in Ef as [Hin Ht].
    destruct (simulatedDomainSet t !! i) as [set|] eqn:E; [|done]. apply andb_prop in Ht as [Hk Hd].
    apply String.eqb_eq in Hk. apply bool_decide_eq_true in Hd. destruct set as [k ri ds]. cbn in *. subst k ds.
    destruct (ok_domain _ Hok _ _ E) as [Hri _]. cbn in Hri. subst ri.
    split; [apply tables_le_refl|]. split; [done|]. done.
  - destruct (Nat.leb_spec MaxMatchSetLen (length (simulatedDomainSet t))) as [|Hlt]; [done|].
    intros [= <- <-]. set (n := length (simulatedDomainSet t)) in *.
    split; [split; [done|by apply prefix_app_r|done|by left]|]. split; [split; cbn|].
    + apply (ok_client_empty _ Hok).
    + apply (ok_client_inj _ Hok).
    + apply (ok_static _ Hok).
    + intros i set. rewrite lookup_app_Some. intros [H|[Hge H]]; [by apply (ok_domain _ Hok)|].
      apply list_lookup_singleton_Some in H as [Hi <-]. cbn. split; [unfold n; lia|done].
    + apply (ok_prefixes _ Hok).
    + rewrite length_app. cbn. unfold n in Hlt. lia.
    + split; [cbn; by rewrite lookup_app_r, Nat.sub_diag by (unfold n; lia)|]. done.
Qed.

(** ** Emitted instructions *)

(** Where a group leads: the next group of its function, the next function, or the
    end of the rule. *)
Inductive edge := EOr | EAnd | ETail (tail : bpfMatchSet).

Definition edge_instr (flags : Z) (e : edge) (pr : Z * bytes) : bpfMatchSet :=
  match e with
  | EOr => mkMatch pr.2 pr.1 MatchActionOr flags 0 0
  | EAnd => and_instr flags 0 pr
  | ETail tail => tail_instr flags tail pr
  end.

Definition route_tail (o : Outbound) (id : Z) : bpfMatchSet :=
  mkMatch zero16 0 MatchActionRoute (routingMatchFlags false (o_Must o) (o_SkipWhileNoalive o)) id (o_Mark o).

Definition edge_of (outbounds : gmap string Z) (o : Outbound) : option edge :=
  if String.eqb (o_Name o) (OutboundIndex_String OutboundLogicalOr) then Some EOr
  else if String.eqb (o_Name o) (OutboundIndex_String OutboundLogicalAnd) then Some EAnd
  else id ← outbounds !! o_Name o; Some (ETail (route_tail o id)).

Definition flag_of (not_ : bool) : Z := if not_ then matchFlagNot else 0.

Lemma matchSet_edge b kind not_ o set : matchSet b kind not_ o = Ok set ->
  exists e, edge_of (outboundName2Id b) o = Some e /\ forall v, with_Value set v = edge_instr (flag_of not_) e (kind, v).
Proof.
  unfold matchSet, edge_of. destruct (String.eqb _ _); [intros [= <-]; exists EOr; by destruct not_|].
  destruct (String.eqb _ _); [intros [= <-]; exists EAnd; by destruct not_|].
  destruct (outboundName2Id b !! o_Name o) as [id|]; [|done]. do 2 (destruct (_ && _); [done|]).
  intros [= <-]. eexists. split; [done|]. intros v. unfold with_Value. cbn. unfold tail_instr. cbn.
  by destruct not_, (o_Must o), (o_SkipWhileNoalive o).
Qed.

(** Interface predicates are patched with the index of their interface. *)
Definition bind_patch (patches : list (string * nat)) (i : nat) (r : bpfMatchSet) : bpfMatchSet :=
  match head (List.filter (fun e => e.2 =? i) patches) with
  | Some e => with_Value r (PutUint32 (ifenv e.1))
  | None => r
  end.

Definition bound_rules (b : Builder) : list bpfMatchSet := imap (bind_patch (interfaceRulePatches b)) (rules b).

(** [b'] is [b] with instructions appended, [new] once their interfaces are bound. *)
Definition extends (b b' : Builder) (new : list bpfMatchSet) : Prop :=
  exists t rs ps,
    b' = with_patches (with_rules (with_tables b t) (rules b ++ rs)) (interfaceRulePatches b ++ ps) /\
    tables_le (tables b) t /\
    Forall (fun e => length (rules b) <= e.2 < length (rules b) + length rs) ps /\
    new = imap (fun i => bind_patch ps (length (rules b) + i)) rs.

(** The instruction of a patch, before an interface is bound to it. *)
Definition unbound (rs : list bpfMatchSet) (e : string * nat) : Prop := exists r, rs !! e.2 = Some r /\ Value r = zero16.

Definition patches_ok (rs : list bpfMatchSet) (ps : list (string * nat)) : Prop := Forall (unbound rs) ps /\ NoDup (map snd ps).

Definition builder_ok (b : Builder) : Prop :=
  tables_ok (tables b) /\ length (simulatedLpmTries (tables b)) <= length (rules b) /\
  patches_ok (rules b) (interfaceRulePatches b).

Lemma unbound_lt rs e : unbound rs e -> e.2 < length rs.
Proof. intros (r & Hr & _). by eapply lookup_lt_Some. Qed.
Lemma unbound_app rs rs' ps : patches_ok rs ps -> patches_ok (rs ++ rs') ps.
Proof. intros [H Hd]. split; [|done]. eapply Forall_impl; [exact H|]. intros e (r & Hr & Hv). exists r. split; [by apply lookup_app_l_Some|done]. Qed.

Lemma with_self b : with_patches (with_rules (with_tables b (tables b)) (rules b)) (interfaceRulePatches b) = b.
Proof. by destruct b. Qed.

Lemma extends_refl b : extends b b [].
Proof.
  exists (tables b), [], []. split; [by rewrite !app_nil_r, with_self|]. split; [apply tables_le_refl|]. by split.
Qed.

Lemma filter_all_false {A} (f : A -> bool) l : Forall (fun x => f x = false) l -> List.filter f l = [].
Proof. induction 1 as [|x l Hx Hl IH]; [done|]. cbn. by rewrite Hx. Qed.

Lemma filter_app_ {A} (f : A -> bool) l l' : List.filter f (l ++ l') = List.filter f l ++ List.filter f l'.
Proof. induction l as [|x l IH]; [done|]. cbn. rewrite IH. by destruct (f x). Qed.

Lemma bind_patch_l ps ps' i r : Forall (fun e => i <> e.2) ps' -> bind_patch (ps ++ ps') i r = bind_patch ps i r.
Proof.
  intros H. unfold bind_patch. rewrite filter_app_, (filter_all_false _ ps'), app_nil_r; [done|].
  apply (Forall_impl _ _ _ H). intros e He. apply Nat.eqb_neq. lia.
Qed.

Lemma bind_patch_r ps ps' i r : Forall (fun e => i <> e.2) ps -> bind_patch (ps ++ ps') i r = bind_patch ps' i r.
Proof.
  intros H. unfold bind_patch. rewrite filter_app_, (filter_all_false _ ps); [done|].
  apply (Forall_impl _ _ _ H). intros e He. apply Nat.eqb_neq. lia.
Qed.

Lemma imap_ext_lt {A B} (f g : nat -> A -> B) l : (forall i x, i < length l -> f i x = g i x) -> imap f l = imap g l.
Proof. intros H. apply imap_ext. intros i x Hi%lookup_lt_Some. by apply H. Qed.

Lemma extends_trans b b1 b2 n1 n2 : extends b b1 n1 -> extends b1 b2 n2 -> extends b b2 (n1 ++ n2).
Proof.
  intros (t1 & rs1 & ps1 & -> & Ht1 & Hp1 & ->) (t2 & rs2 & ps2 & -> & Ht2 & Hp2 & ->). cbn in *.
  rewrite length_app in Hp2. exists t2, (rs1 ++ rs2), (ps1 ++ ps2). split; [by rewrite !app_assoc|].
  split; [by eapply tables_le_trans|]. rewrite length_app. split.
  - apply Forall_app. split; (eapply Forall_impl; [done|]); cbn; intros; lia.
  - rewrite imap_app. f_equal; apply imap_ext_lt; intros i x Hi; symmetry.
    + apply bind_patch_l. eapply Forall_impl; [exact Hp2|]. cbn. lia.
    + unfold compose. rewrite length_app. replace (length (rules b) + (length rs1 + i)) with (length (rules b) + length rs1 + i) by lia.
      apply bind_patch_r. eapply Forall_impl; [exact Hp1|]. cbn. lia.
Qed.

Lemma bound_extends b b' new : builder_ok b -> extends b b' new -> bound_rules b' = bound_rules b ++ new.
Proof.
  intros (_ & _ & Hp) (t & rs & ps & -> & _ & Hps & ->). unfold bound_rules. cbn. rewrite imap_app.
  f_equal; apply imap_ext_lt; intros i x Hi.
  - apply bind_patch_l. eapply Forall_impl; [exact Hps|]. cbn. lia.
  - unfold compose. apply bind_patch_r. eapply Forall_impl; [exact (proj1 Hp)|]. cbn. intros e He%unbound_lt. lia.
Qed.

Lemma imap_bind_nil n rs : imap (fun i => bind_patch [] (n + i)) rs = rs.
Proof. apply list_eq. intros i. rewrite list_lookup_imap. by destruct (rs !! i). Qed.

Lemma addMatch_spec f kind v o b t b' :
  addMatch f kind v o (with_tables b t) = Ok b' -> tables_le (tables b) t ->
  exists e, edge_of (outboundName2Id b) o = Some e /\
    extends b b' [edge_instr (flag_of (f_Not f)) e (kind, v)] /\
    tables b' = t /\ length (rules b') = S (length (rules b)) /\ interfaceRulePatches b' = interfaceRulePatches b.
Proof.
  unfold addMatch. intros H Hle. destruct (matchSet _ kind (f_Not f) o) as [set| |] eqn:Em; [|done..].
  apply matchSet_edge in Em as (e & He & Hv). injection H as <-. exists e. split; [done|]. rewrite Hv. split; [|cbn; rewrite length_app; cbn; by rewrite Nat.add_1_r].
  exists t, [edge_instr (flag_of (f_Not f)) e (kind, v)], []. rewrite imap_bind_nil, app_nil_r. by destruct b.
Qed.

Lemma match_list_preds kind not_ set e values : (forall v, with_Value set v = edge_instr (flag_of not_) e (kind, v)) ->
  match_list kind not_ set values = raw_preds (flag_of not_) (map (fun v => (kind, v)) values) (edge_instr (flag_of not_) e).
Proof.
  intros Hv. induction values as [|v [|v' values] IH]; [done|cbn; by rewrite Hv|].
  change (match_list kind not_ set (v :: v' :: values)) with
    (with_Value (newMatchSet kind MatchActionOr (routingMatchFlags not_ false false)) v :: match_list kind not_ set (v' :: values)).
  rewrite IH. by destruct not_.
Qed.

Lemma addMatches_spec {A} f kind (values : list A) encode o b b' :
  addMatches f kind values encode o b = Ok b' ->
  exists e, edge_of (outboundName2Id b) o = Some e /\
    b' = with_rules b (rules b ++ raw_preds (flag_of (f_Not f)) (map (fun v => (kind, encode v)) values)
                                    (edge_instr (flag_of (f_Not f)) e)).
Proof.
  unfold addMatches. intros H. destruct (matchSet b kind (f_Not f) o) as [set| |] eqn:Em; [|done..].
  apply matchSet_edge in Em as (e & He & Hv). injection H as <-. exists e. split; [done|].
  by rewrite (match_list_preds _ _ _ _ _ Hv), map_map.
Qed.

Lemma extends_rules b rs : extends b (with_rules b (rules b ++ rs)) rs.
Proof.
  exists (tables b), rs, []. rewrite imap_bind_nil, app_nil_r. split; [by destruct b|]. split; [apply tables_le_refl|]. done.
Qed.

Lemma builder_ok_rules b rs : builder_ok b -> builder_ok (with_rules b (rules b ++ rs)).
Proof.
  intros (Ht & Hl & Hp). split; [done|]. cbn. rewrite length_app. split; [lia|]. by apply unbound_app.
Qed.

Lemma extends_unbound b b' new : extends b b' new -> interfaceRulePatches b' = interfaceRulePatches b ->
  patches_ok (rules b) (interfaceRulePatches b) -> patches_ok (rules b') (interfaceRulePatches b').
Proof. intros (t & rs & ps & -> & _) -> H. by apply unbound_app. Qed.

(** ** Values of single predicates *)

Lemma pvalue_lpm m p kind (id : nat) trie hit :
  kind = MatchType_IpSet \/ kind = MatchType_SourceIpSet \/ kind = MatchType_Mac ->
  (Z.of_nat id < 2 ^ 32)%Z -> lpmMatcher m !! id = Some trie -> HasPrefixIP trie (lpmKey (fresh p) kind) = Some hit ->
  pvalue m p (kind, PutUint32 (Z.of_nat id)) = Ok (pbool hit).
Proof.
  intros Hk Hid Ht Hh. unfold pvalue, predicates_match. cbn [Type_ Value fst snd].
  rewrite Uint32_PutUint32, Nat2Z.id, Ht by (unfold fits; lia).
  destruct Hk as [->|[->| ->]]; cbn -[HasPrefixIP lpmKey fresh] in *; by rewrite Hh.
Qed.

Lemma has_flag_union x l : has_flag x (union_flags l) = existsb (has_flag x) l.
Proof.
  assert (H : forall fs acc, has_flag x (fold_left Z.lor fs acc) = has_flag x acc || existsb (has_flag x) fs).
  { induction fs as [|a fs IH]; intros acc; cbn [fold_left existsb]; [by rewrite orb_false_r|]. rewrite IH, orb_assoc. f_equal.
    unfold has_flag. rewrite Z.land_lor_distr_r.
    destruct (Z.eqb_spec (Z.land x acc) 0) as [->|H1], (Z.eqb_spec (Z.land x a) 0) as [->|H2]; cbn; try done;
      apply negb_true_iff, Z.eqb_neq; intros [? ?]%Z.lor_eq_0_iff; done. }
  unfold union_flags. rewrite H. unfold has_flag. by rewrite Z.land_0_r.
Qed.

Lemma preds_mean_list {A} t (pr : A -> Z * bytes) (h : routingInput -> A -> bool) vs :
  (forall v, pred_ok t (pr v)) ->
  (forall v m p, v ∈ vs -> models t m p -> pvalue m p (pr v) = Ok (pbool (h p v))) ->
  preds_mean t (map pr vs) (fun p => pbool (existsb (h p) vs)).
Proof.
  intros Ho. induction vs as [|v vs IH]; intros H; [by split|]. cbn [map].
  apply (preds_mean_ext _ _ (fun p => pmax (pbool (h p v)) (pbool (existsb (h p) vs)))).
  { intros m p _. cbn. by destruct (h p v), (existsb _ vs). }
  apply (preds_mean_app t [pr v]); [apply preds_mean_one; [done|]; intros; apply H; [by left|done]|apply IH; intros; apply H; [by right|done]].
Qed.

Lemma existsb_mapM {A} (parse : string -> option A) (g : string -> bool) (h : A -> bool) values vs :
  mapM parse values = Some vs -> (forall value v, parse value = Some v -> g value = h v) -> existsb g values = existsb h vs.
Proof.
  intros Hm Hgh. apply mapM_Some in Hm. induction Hm as [|value v values vs Hv Hm IH]; [done|]. cbn. by rewrite (Hgh _ _ Hv), IH.
Qed.

Lemma values_of_Ok {A} (parse : string -> option A) msg values vs : values_of parse msg values = Ok vs -> mapM parse values = Some vs.
Proof. unfold values_of. destruct (mapM parse values); [by intros [= ->]|done]. Qed.

Lemma mapM_nonempty {A} (parse : string -> option A) values vs : mapM parse values = Some vs -> values <> [] -> vs <> [].
Proof. intros Hm%mapM_Some Hne ->. inversion Hm. by subst. Qed.

Lemma mapM_Forall {A} (parse : string -> option A) (P : A -> Prop) values vs :
  mapM parse values = Some vs -> (forall value v, parse value = Some v -> P v) -> Forall P vs.
Proof. intros Hm%mapM_Some H. induction Hm; constructor; eauto. Qed.

Lemma parse_prefix_wf value pfx : parse_prefix value = Some pfx -> Prefix_wf pfx.
Proof.
  unfold parse_prefix. destruct (ParsePrefix (str value)) as [q|] eqn:E; [intros [= <-]; by apply ParsePrefix_wf in E|].
  destruct (ParseAddr (str value)) as [[a zone]|] eqn:Ea; [|done]. cbn. intros [= <-]. apply ParseAddr_wf in Ea as [Hw Hv].
  assert (0 <= BitLen a)%Z by (by destruct a). rewrite PrefixFrom_valid by (done || lia). split; [done|]. split; [done|cbn; lia].
Qed.

Lemma lpm_key_length p kind : input_wf p -> length (lpmKey (fresh p) kind) = 16.
Proof.
  intros (Hs & Hd & Hm & _). assert (Ha : forall a, Addr_wf a -> length (As16 a) = 16).
  { intros [|a|a] Hw; [done|..]; cbn in *; rewrite ?length_app; cbn; by rewrite (proj1 Hw). }
  unfold lpmKey. change (input (fresh p)) with p. repeat case_match; auto. cbn. by rewrite Hm.
Qed.

Lemma add_lpm_ok sha256 kind f ps o b b' :
  kind = MatchType_IpSet \/ kind = MatchType_SourceIpSet \/ kind = MatchType_Mac ->
  Forall Prefix_wf ps -> add_lpm sha256 kind f ps o b = Ok b' -> builder_ok b ->
  exists pr e, edge_of (outboundName2Id b) o = Some e /\
    extends b b' [edge_instr (flag_of (f_Not f)) e pr] /\ builder_ok b' /\
    preds_mean (tables b') [pr] (fun p => pbool (existsb (cidr_contains (lpmKey (fresh p) kind)) ps)).
Proof.
  intros Hk Hps Hadd (Ht & Hl & Hp). unfold add_lpm in Hadd.
  destruct (internLPM sha256 ps (tables b)) as [id t] eqn:Ei.
  destruct (internLPM_spec _ _ _ _ _ Ht Hps Ei) as (Hle & Ht' & Hid & Hst & Hsz).
  destruct (addMatch_spec _ _ _ _ _ _ _ Hadd Hle) as (e & He & Hx & Htb & Hlen & Hpa).
  exists (kind, PutUint32 (Z.of_nat id)), e. split; [done|]. split; [done|]. split.
  { split; [by rewrite Htb|]. split; [rewrite Htb, Hlen; lia|]. by eapply extends_unbound. }
  rewrite Htb. apply preds_mean_one; [apply pred_ok_lpm; [done|]; by eapply lookup_lt_Some|]. intros m p Hm.
  destruct (models_lpm _ _ _ Hm id _ Hid Hst) as (trie & Hlm & Hh).
  specialize (Hh (lpmKey (fresh p) kind) (lpm_key_length _ _ (models_input _ _ _ Hm))).
  rewrite existsb_normalize in Hh by done. apply lookup_lt_Some in Hid. pose proof (models_size _ _ _ Hm).
  by apply (pvalue_lpm m p kind id trie); [|lia|..].
Qed.

(** ** The registered parsers *)

(** On success a parser appends the predicates of its group, OR-joined, and they
    have the value of the group. *)
Definition parser_ok (name : string) (P : FunctionParser Builder) : Prop :=
  forall f key values o b b',
    P f key values o b = Ok b' -> builder_ok b -> values <> [] -> (name = Function_Client -> length values = 1) ->
    exists preds e, preds <> [] /\ edge_of (outboundName2Id b) o = Some e /\
      extends b b' (raw_preds (flag_of (f_Not f)) preds (edge_instr (flag_of (f_Not f)) e)) /\ builder_ok b' /\
      preds_mean (tables b') preds (fun p => group_value p name key values).

(** Parsers of keyless functions whose values are tested one by one. *)
Lemma typed_parser_ok {A} (parse : list string -> res A) callback name :
  String.eqb name Function_Domain = false ->
  (forall f values vs o b b', parse values = Ok vs -> callback f vs o b = Ok b' -> builder_ok b -> values <> [] ->
    exists preds e, preds <> [] /\ edge_of (outboundName2Id b) o = Some e /\
      extends b b' (raw_preds (flag_of (f_Not f)) preds (edge_instr (flag_of (f_Not f)) e)) /\ builder_ok b' /\
      preds_mean (tables b') preds (fun p => pbool (existsb (value_holds p name) values))) ->
  parser_ok name (typed_parser parse callback).
Proof.
  intros Hn H f key values o b b' Hp Hok Hne _. unfold typed_parser, EmptyKeyPlainParserFactory in Hp.
  destruct (negb _); [done|]. destruct (parse values) as [vs| |] eqn:Ep; [|done..].
  unfold group_value. rewrite Hn. by apply (H f values vs o).
Qed.

(** Lists of predicates without tables. *)
Lemma addMatches_ok {A} name (parse : string -> option A) kind (encode : A -> bytes) (h : routingInput -> A -> bool) :
  (forall t v, pred_ok t (kind, encode v)) ->
  (forall value v, parse value = Some v ->
    (forall m p t, models t m p -> pvalue m p (kind, encode v) = Ok (pbool (h p v))) /\
    forall p, value_holds p name value = h p v) ->
  forall f values vs o b b', mapM parse values = Some vs -> addMatches f kind vs encode o b = Ok b' -> builder_ok b -> values <> [] ->
  exists preds e, preds <> [] /\ edge_of (outboundName2Id b) o = Some e /\
    extends b b' (raw_preds (flag_of (f_Not f)) preds (edge_instr (flag_of (f_Not f)) e)) /\ builder_ok b' /\
    preds_mean (tables b') preds (fun p => pbool (existsb (value_holds p name) values)).
Proof.
  intros Hko Hpv f values vs o b b' Hm Hadd Hok Hne. apply addMatches_spec in Hadd as (e & He & ->).
  exists (map (fun v => (kind, encode v)) vs), e. split; [intros Hnil%map_eq_nil; by eapply mapM_nonempty|].
  split; [done|]. split; [apply extends_rules|]. split; [by apply builder_ok_rules|].
  eapply preds_mean_ext; [|apply (preds_mean_list (tables b) (fun v => (kind, encode v)) h vs); [intros; apply Hko|]].
  { intros m p _. cbn beta. f_equal. symmetry. apply (existsb_mapM parse _ _ _ _ Hm). intros; by apply Hpv. }
  intros v m' p' Hv Hm'.
  apply list_elem_of_lookup in Hv as [i Hi]. apply mapM_Some in Hm.
  destruct (Forall2_lookup_r _ _ _ _ _ Hm Hi) as (value & _ & Hval). by apply (proj1 (Hpv _ _ Hval) m' p' (tables b)).
Qed.

Lemma parse_port_fits field v : parse_port field = Some v -> fits 16 v.
Proof.
  unfold parse_port. destruct field; [done|]. destruct (Atoi _) as [n|]; [|done]. cbn.
  destruct (Z.ltb_spec n 0), (Z.ltb_spec 65535 n); cbn; try done. intros [= <-]. unfold fits. lia.
Qed.

Lemma parsePortRange_fits value a b : parsePortRange value = Some (a, b) -> fits 16 a /\ fits 16 b.
Proof.
  unfold parsePortRange. destruct (mapM parse_port _) as [ports|] eqn:E; [|done]. cbn.
  assert (Forall (fits 16) ports) as Hf.
  { apply mapM_Some in E. induction E; constructor; eauto using parse_port_fits. }
  destruct ports as [|x [|y [|? ?]]]; try done; intros [= <- <-]; rewrite ?Forall_cons in Hf; tauto.
Qed.

Lemma pvalue_port m p kind port a b :
  (kind = MatchType_Port /\ port = ap_port (dst p)) \/ (kind = MatchType_SourcePort /\ port = ap_port (src p)) ->
  fits 16 a -> fits 16 b ->
  pvalue m p (kind, encodePortRange (a, b)) = Ok (pbool ((a <=? port)%Z && (port <=? b)%Z)).
Proof.
  intros Hk Ha Hb. unfold pvalue, predicates_match. cbn [Type_ Value fst snd].
  destruct Hk as [[-> ->]|[-> ->]]; cbn -[encodePortRange in_port_range]; unfold in_port_range; by rewrite ParsePortRange_encode.
Qed.


Lemma DecodeHex_bytes fuel s v : length s <= fuel -> DecodeHex s = Some v -> Forall is_byte v.
Proof.
  revert s v. induction fuel as [|fuel IH]; intros [|a [|b s]] v Hl; cbn in Hl; try lia; cbn [DecodeHex]; try (by intros [= <-]).
  destruct (hex_digit a) as [h|] eqn:Ea; [|done]. destruct (hex_digit b) as [l|] eqn:Eb; [|done]. cbn [mbind option_bind].
  destruct (DecodeHex s) as [rest|] eqn:Es; [|done]. intros [= <-]. constructor; [|eapply IH; [|done]; lia].
  apply hex_digit_bounds in Ea, Eb. apply fits_lor; [|unfold fits; lia]. unfold fits. rewrite Z.shiftl_mul_pow2 by lia. lia.
Qed.

Lemma parseMac_wf value m : parseMac value = Some m -> mac_wf m.
Proof.
  unfold parseMac. destruct (Nat.eqb_spec (length (SplitN 6 (str value) 58)) 6) as [Hl|]; [|done]. cbn. intros H%mapM_Some.
  split; [by rewrite <-(Forall2_length _ _ _ H)|]. clear Hl. induction H as [|field b fields m Hb H IH]; constructor; [|done].
  destruct (DecodeHex field) as [[|x [|]]|] eqn:E; cbn in Hb; try done. injection Hb as ->.
  by apply (DecodeHex_bytes (length field)) in E as ?%Forall_cons; [|lia]; tauto.
Qed.

Lemma addDomain_ok sha256 : (forall key vs vs', (forall v, v ∈ vs <-> v ∈ vs') -> dv key vs = dv key vs') ->
  parser_ok Function_Domain (PlainParserFactory (addDomain sha256)).
Proof.
  intros Hdv f key values o b b' Hadd (Ht & Hl & Hp) Hne _. unfold PlainParserFactory, addDomain in Hadd.
  destruct (is_domain_key key) eqn:Hk; [|done]. cbn [negb] in Hadd.
  destruct (internDomain sha256 key values (tables b)) as [[id t]|] eqn:Ei; [|done].
  destruct (internDomain_spec _ _ _ _ _ _ Ht Hk Ei) as (Hle & Ht' & Hid & Hsz).
  destruct (addMatch_spec _ _ _ _ _ _ _ Hadd Hle) as (e & He & Hx & Htb & Hlen & Hpa).
  exists [(MatchType_DomainSet, PutUint32 (Z.of_nat id))], e. split; [done|]. split; [done|]. split; [done|]. split.
  { split; [by rewrite Htb|]. split; [rewrite Htb, Hlen, Hsz; lia|]. by eapply extends_unbound. }
  rewrite Htb. apply preds_mean_one.
  { apply lookup_lt_Some in Hid. pose proof (ok_size _ Ht') as Hs. assert (MaxMatchSetLen = 1024) as Hmax by done.
    split_and!; [|by intros [|]|by intros [|[|]]]. intros _. cbn [snd]. rewrite Uint32_PutUint32 by (split; lia). lia. }
  intros m p Hm. rewrite (models_domain _ _ _ Hm _ _ _ Hid). f_equal.
  apply Hdv, elem_of_sort_strings.
Qed.

Lemma ip_parser_ok sha256 kind name :
  (kind = MatchType_IpSet /\ name = Function_DestIp) \/ (kind = MatchType_SourceIpSet /\ name = Function_SourceIp) ->
  parser_ok name (IpParserFactory (add_lpm sha256 kind)).
Proof.
  intros Hk. apply typed_parser_ok; [by destruct Hk as [[_ ->]|[_ ->]]|].
  intros f values ps o b b' Hps%values_of_Ok Hadd Hok Hne.
  assert (Hwf : Forall Prefix_wf ps) by (eapply mapM_Forall; [done|]; apply parse_prefix_wf).
  destruct (add_lpm_ok sha256 kind f ps o b b') as (pr & e & He & Hx & Hok' & Hmean); [tauto|done..|].
  exists [pr], e. split_and!; try done. eapply preds_mean_ext, Hmean. intros m p Hm. cbn beta. f_equal.
  symmetry. apply (existsb_mapM parse_prefix _ _ _ _ Hps). intros value pfx Hpfx. unfold value_holds.
  destruct Hk as [[-> ->]|[-> ->]]; eqb_literals; cbn [String.eqb]; by rewrite Hpfx.
Qed.

Lemma mac_parser_ok sha256 : parser_ok Function_Mac (MacParserFactory (addSourceMac sha256)).
Proof.
  apply typed_parser_ok; [done|]. intros f values macs o b b' Hms%values_of_Ok Hadd Hok Hne.
  assert (Hwf : Forall mac_wf macs) by (eapply mapM_Forall; [done|]; apply parseMac_wf).
  destruct (add_lpm_ok sha256 MatchType_Mac f (sourceMacPrefixes macs) o b b') as (pr & e & He & Hx & Hok' & Hmean); [tauto| |done..|].
  { unfold sourceMacPrefixes. apply Forall_fmap. eapply Forall_impl; [exact Hwf|]. apply mac_prefix_wf. }
  exists [pr], e. split_and!; try done. eapply preds_mean_ext, Hmean. intros m p Hm. cbn beta. f_equal.
  change (lpmKey (fresh p) MatchType_Mac) with (replicate 10 0%Z ++ mac p).
  rewrite existsb_mac by (done || apply (models_input _ _ _ Hm)). symmetry.
  apply (existsb_mapM parseMac _ _ _ _ Hms). intros value v Hval. unfold value_holds. eqb_literals. cbn [String.eqb].
  rewrite Hval. apply bool_decide_ext. split; [by intros [= ->]|by intros ->].
Qed.

Lemma port_parser_ok kind name :
  (kind = MatchType_Port /\ name = Function_DestPort) \/ (kind = MatchType_SourcePort /\ name = Function_SourcePort) ->
  parser_ok name (PortRangeParserFactory (fun f values => addMatches f kind values encodePortRange)).
Proof.
  intros Hk. apply typed_parser_ok; [by destruct Hk as [[_ ->]|[_ ->]]|].
  intros f values vs o b b' Hvs%values_of_Ok. revert f values vs o b b' Hvs.
  apply (addMatches_ok _ _ _ _ (fun p v => let port := if String.eqb name Function_DestPort then ap_port (dst p) else ap_port (src p) in
    (v.1 <=? port)%Z && (port <=? v.2)%Z)).
  { intros t v. apply pred_ok_other. by destruct Hk as [[-> _]|[-> _]]. }
  intros value [x y] Hv. destruct (parsePortRange_fits _ _ _ Hv) as [Hx Hy]. split.
  - intros m p t _. destruct Hk as [[-> ->]|[-> ->]]; apply pvalue_port; tauto.
  - intros p. unfold value_holds. destruct Hk as [[-> ->]|[-> ->]]; eqb_literals; by rewrite Hv.
Qed.

(** A union of flags is one predicate. *)
Lemma flags_parser_ok kind name (parse : string -> option Z) msg (field : routingInput -> Z) :
  (kind = MatchType_L4Proto /\ name = Function_L4Proto /\ parse = parse_l4proto /\ field = l4proto) \/
  (kind = MatchType_IpVersion /\ name = Function_IpVersion /\ parse = parse_ipversion /\
     field = fun p => IpVersionFromAddr (ap_addr (dst p))) ->
  parser_ok name (typed_parser (fun values => union_flags <$> values_of parse msg values) (fun f values => addMatch f kind (byte_value values))).
Proof.
  intros Hk. apply typed_parser_ok; [by destruct Hk as [(_ & -> & _)|(_ & -> & _)]|].
  intros f values k o b b' Hp Hadd (Ht & Hl & Hpa) Hne. destruct (values_of parse msg values) as [ks| |] eqn:Ev; [|done..].
  injection Hp as <-. apply values_of_Ok in Ev.
  assert (Hb : b = with_tables b (tables b)) by (by destruct b). rewrite Hb in Hadd.
  destruct (addMatch_spec _ _ _ _ _ _ _ Hadd (tables_le_refl _)) as (e & He & Hx & Htb & Hlen & Hpat).
  exists [(kind, byte_value (union_flags ks))], e. split; [done|]. split; [done|]. split; [done|]. split.
  { split; [by rewrite Htb|]. split; [rewrite Htb, Hlen; lia|]. by eapply extends_unbound. }
  apply preds_mean_one; [apply pred_ok_flags; destruct Hk as [(-> & _)|(-> & _)]; tauto|]. intros m p _.
  rewrite (existsb_mapM parse _ (has_flag (field p)) values ks Ev), <-has_flag_union.
  - unfold pvalue, predicates_match. cbn [Type_ Value fst snd]. destruct Hk as [(-> & -> & -> & ->)|(-> & -> & -> & ->)]; done.
  - intros value v Hv. unfold value_holds. destruct Hk as [(-> & -> & -> & ->)|(-> & -> & -> & ->)]; eqb_literals; by rewrite Hv.
Qed.

Lemma mapM_Some_map {A} (g : string -> A) values : mapM (fun v => Some (g v)) values = Some (map g values).
Proof. induction values as [|v values IH]; [done|]. cbn. by rewrite IH. Qed.

Lemma pname_parser_ok : parser_ok Function_ProcessName (ProcessNameParserFactory addProcessName).
Proof.
  apply typed_parser_ok; [done|]. intros f values vs o b b' [= <-].
  apply (addMatches_ok Function_ProcessName (fun v => Some (toProcessName v)) MatchType_ProcessName (fun v => v)
    (fun p v => negb (byte0 (processName p) =? 0)%Z && bool_decide (v = processName p))); [intros; by apply pred_ok_other| |apply mapM_Some_map].
  intros value v [= <-]. split; [by intros m p t _|]. by intros p.
Qed.

Lemma dscp_parser_ok : parser_ok Function_Dscp (UintParserFactory 8 addDscp).
Proof.
  apply typed_parser_ok; [done|]. intros f values vs o b b' Hvs%values_of_Ok. revert f values vs o b b' Hvs.
  apply (addMatches_ok _ _ _ _ (fun p v => (dscp p =? v)%Z)); [intros; by apply pred_ok_other|]. intros value v Hv. split; [by intros m p t _|].
  intros p. unfold value_holds. eqb_literals. cbn [String.eqb]. rewrite Hv. destruct (Z.eqb_spec (dscp p) v) as [->|Hn].
  - by rewrite bool_decide_eq_true_2.
  - rewrite bool_decide_eq_false_2; [done|]. intros [= ->]. done.
Qed.

(** The slot of a client set, reserved on its first use. *)
Lemma client_slot_spec name t slot t' : tables_ok t ->
  (match clientSetSlots t !! name with
   | Some slot => (slot, t)
   | None =>
     let slot := length (simulatedLpmTries t) in
     (slot, mkTables (simulatedLpmTries t ++ [[]]) (<[name := slot]> (clientSetSlots t)) (domainSetIDs t)
              (staticLpmIDs t) (simulatedDomainSet t))
   end) = (slot, t') ->
  tables_le t t' /\ tables_ok t' /\ clientSetSlots t' !! name = Some slot /\
  length (simulatedLpmTries t') <= S (length (simulatedLpmTries t)).
Proof.
  intros Ht Et. destruct (clientSetSlots t !! name) as [s|] eqn:Es; injection Et as <- <-; [split_and!; auto using tables_le_refl|].
  cbn. rewrite length_app, lookup_insert_eq. cbn. split_and!; [split|split|done|lia]; cbn.
  - by apply prefix_app_r.
  - done.
  - by apply insert_subseteq.
  - intros n sl. destruct (decide (name = n)) as [->|Hn]; [rewrite lookup_insert_eq; intros [= <-]; by right|].
    rewrite lookup_insert_ne by done. by left.
  - intros n sl. destruct (decide (name = n)) as [->|Hn]; [rewrite lookup_insert_eq; intros [= <-]; by rewrite lookup_app_r, Nat.sub_diag by lia|].
    rewrite lookup_insert_ne by done. intros ?%(ok_client_empty _ Ht). by apply lookup_app_l_Some.
  - intros n n' sl. rewrite !lookup_insert_Some. intros [[<- <-]|[Hn Hs]] [[<- Hs']|[Hn' Hs']]; try done.
    + apply (ok_client _ Ht) in Hs'. lia.
    + subst sl. apply (ok_client _ Ht) in Hs. lia.
    + by eapply (ok_client_inj _ Ht).
  - intros k ids id Hids Hid. destruct (ok_static _ Ht _ _ _ Hids Hid) as [Hlt Hst]. rewrite length_app. split; [lia|].
    intros n Hn. cbn in Hn. apply lookup_insert_Some in Hn as [[<- Hs]|[Hn Hs]]; [lia|by apply (Hst n)].
  - apply (ok_domain _ Ht).
  - apply Forall_app. split; [apply (ok_prefixes _ Ht)|]. by apply Forall_cons.
  - apply (ok_size _ Ht).
Qed.

Lemma client_parser_ok : parser_ok Function_Client (EmptyKeyPlainParserFactory addClient).
Proof.
  intros f key values o b b' Hp (Ht & Hl & Hpa) Hne Hone. specialize (Hone eq_refl). destruct values as [|name [|]]; try done.
  unfold EmptyKeyPlainParserFactory, addClient in Hp. destruct (negb (String.eqb key "")); [done|]. cbn [head idx mbind res_bind] in Hp.
  destruct (negb (ValidateClientName name)); [done|].
  set (t := match clientSetSlots (tables b) !! name with Some slot => _ | None => _ end) in Hp. destruct t as [slot t'] eqn:Et. subst t.
  assert (tables_le (tables b) t' /\ tables_ok t' /\ clientSetSlots t' !! name = Some slot /\
    length (simulatedLpmTries t') <= S (length (simulatedLpmTries (tables b)))) as (Hle & Ht' & Hslot & Hsz).
  { by apply (client_slot_spec name). }
  destruct (addMatch_spec _ _ _ _ _ _ _ Hp Hle) as (e & He & Hx & Htb & Hlen & Hpat).
  exists [(MatchType_Mac, PutUint32 (Z.of_nat slot))], e. split; [done|]. split; [done|]. split; [done|]. split.
  { split; [by rewrite Htb|]. split; [rewrite Htb, Hlen; lia|]. by eapply extends_unbound. }
  rewrite Htb. apply preds_mean_one; [apply pred_ok_lpm; [tauto|by apply (ok_client _ Ht' name)]|]. intros m p Hm. destruct (models_client _ _ _ Hm _ _ Hslot) as (trie & Hlm & Hh).
  specialize (Hh (lpmKey (fresh p) MatchType_Mac) (lpm_key_length _ _ (models_input _ _ _ Hm))).
  change (lpmKey (fresh p) MatchType_Mac) with (replicate 10 0%Z ++ mac p) in Hh at 2.
  rewrite existsb_mac in Hh by (apply (models_input _ _ _ Hm) || apply (models_members _ _ _ Hm)).
  apply (ok_client _ Ht') in Hslot. pose proof (models_size _ _ _ Hm).
  rewrite (pvalue_lpm m p MatchType_Mac slot trie _ ltac:(tauto) ltac:(lia) Hlm Hh). unfold group_value, value_holds.
  eqb_literals. cbn [existsb]. by rewrite orb_false_r.
Qed.

Lemma bind_interfaces kind z flags T (values : list string) n :
  (forall pr v, with_Value (T pr) v = T (pr.1, v)) ->
  imap (fun i => bind_patch (imap (fun j v => (v, n + j)) values) (n + i)) (raw_preds flags (map (fun _ => (kind, z)) values) T) =
  raw_preds flags (map (fun v => (kind, PutUint32 (ifenv v))) values) T.
Proof.
  intros HT. revert n. induction values as [|v values IH]; intros n; [done|].
  assert (Hhead : forall x, bind_patch (imap (fun j v => (v, n + j)) (v :: values)) (n + 0) x = with_Value x (PutUint32 (ifenv v))).
  { intros x. unfold bind_patch. cbn [imap List.filter snd]. by rewrite Nat.eqb_refl. }
  destruct values as [|v' values]; [cbn [map raw_preds imap]; unfold compose in *; rewrite Hhead, HT; done|].
  change (raw_preds flags (map (fun v => (kind, PutUint32 (ifenv v))) (v :: v' :: values)) T) with
    (mkMatch (PutUint32 (ifenv v)) kind MatchActionOr flags 0 0 :: raw_preds flags (map (fun v => (kind, PutUint32 (ifenv v))) (v' :: values)) T).
  rewrite <-(IH (S n)).
  change (raw_preds flags (map (fun _ => (kind, z)) (v :: v' :: values)) T) with
    (mkMatch z kind MatchActionOr flags 0 0 :: raw_preds flags (map (fun _ => (kind, z)) (v' :: values)) T).
  rewrite imap_cons, Hhead. f_equal. apply imap_ext_lt. intros i x Hi. unfold compose.
  change (imap (fun j v => (v, n + j)) (v :: v' :: values)) with ([(v, n + 0)] ++ imap ((fun j v => (v, n + j)) ∘ S) (v' :: values)).
  rewrite bind_patch_r by (apply Forall_cons; split; [cbn; lia|done]). replace (n + S i) with (S n + i) by lia. f_equal.
  apply imap_ext. intros j w _. unfold compose. f_equal. lia.
Qed.

Lemma edge_instr_value flags e pr v : with_Value (edge_instr flags e pr) v = edge_instr flags e (pr.1, v).
Proof. by destruct e. Qed.

Lemma edge_instr_Value flags e pr : Value (edge_instr flags e pr) = pr.2.
Proof. by destruct e. Qed.

Lemma raw_preds_zero kind flags T (values : list string) i w : values !! i = Some w -> (forall pr, Value (T pr) = pr.2) ->
  exists r, raw_preds flags (map (fun _ => (kind, zero16)) values) T !! i = Some r /\ Value r = zero16.
Proof.
  intros Hi HT. revert i Hi. induction values as [|v [|v' values] IH]; intros i Hi; [done| |].
  - destruct i; [|done]. eexists. split; [done|]. apply HT.
  - destruct i as [|i]; [by eexists|]. by apply IH.
Qed.

Lemma interface_parser_ok : parser_ok Function_Interface (EmptyKeyPlainParserFactory addInterface).
Proof.
  intros f key values o b b' Hp Hok Hne _. unfold EmptyKeyPlainParserFactory, addInterface in Hp.
  destruct (negb (String.eqb key "")); [done|]. destruct (negb _); [done|].
  destruct (addMatches f MatchType_IfIndex values (fun _ => zero16) o b) as [b1| |] eqn:Ea; [|done..].
  injection Hp as <-. apply addMatches_spec in Ea as (e & He & ->). set (flags := flag_of (f_Not f)).
  set (ps := imap (fun i value => (value, length (rules b) + i)) values).
  assert (Hps : Forall (fun q => length (rules b) <= q.2 < length (rules b) + length values) ps).
  { apply Forall_forall. intros q (i & Hi)%list_elem_of_lookup. unfold ps in Hi. rewrite list_lookup_imap in Hi.
    destruct (values !! i) as [w|] eqn:Ew; [|done]. injection Hi as <-. apply lookup_lt_Some in Ew. cbn. lia. }
  exists (map (fun v => (MatchType_IfIndex, PutUint32 (ifenv v))) values), e. split; [by destruct values|]. split; [done|].
  assert (Hlen : forall T, length (raw_preds flags (map (fun _ => (MatchType_IfIndex, zero16)) values) T) = length values)
    by (intros T; by rewrite length_raw_preds, length_map).
  split; [|split].
  - eexists (tables b), _, ps. split; [by destruct b|]. split; [apply tables_le_refl|]. split; [by rewrite Hlen|].
    symmetry. apply bind_interfaces. intros pr v. apply edge_instr_value.
  - destruct Hok as (Ht & Hl & Hpa). split; [done|]. cbn. rewrite length_app, Hlen. split; [lia|]. split.
    + apply Forall_app. split; [by apply unbound_app|]. apply Forall_forall. intros q (i & Hi)%list_elem_of_lookup. unfold ps in Hi. rewrite list_lookup_imap in Hi.
      destruct (values !! i) as [w|] eqn:Ew; [|done]. injection Hi as <-. unfold unbound. cbn [snd]. rewrite lookup_app_r by lia.
      replace (length (rules b) + i - length (rules b)) with i by lia. by apply (raw_preds_zero MatchType_IfIndex _ _ _ _ _ Ew (edge_instr_Value flags e)).
    + rewrite map_app. apply NoDup_app. split; [apply Hpa|]. split.
      * intros x (q & -> & Hq)%list_elem_of_fmap (q' & Hx & Hq')%list_elem_of_fmap. rewrite Forall_forall in Hps. specialize (Hps _ Hq').
        pose proof (unbound_lt _ _ (proj1 (Forall_forall _ _) (proj1 Hpa) _ Hq)). lia.
      * replace (map snd ps) with (seq (length (rules b)) (length values)); [apply NoDup_seq|].
        apply list_eq. intros i. unfold ps. rewrite list_lookup_fmap, list_lookup_imap. destruct (values !! i) as [w|] eqn:Ew.
        -- apply lookup_lt_Some in Ew. by rewrite lookup_seq_lt.
        -- apply lookup_ge_None in Ew. by rewrite lookup_seq_ge.
  - unfold group_value. change (String.eqb Function_Interface Function_Domain) with false. cbv iota.
    apply (preds_mean_list (tables b) (fun v => (MatchType_IfIndex, PutUint32 (ifenv v))) (fun p => value_holds p Function_Interface) values); [intros; by apply pred_ok_other|].
    intros v m' p' _ Hm'. unfold pvalue, predicates_match. cbn [Type_ Value fst snd]. cbn -[PutUint32 Uint32 value_holds].
    by rewrite Uint32_PutUint32 by (apply (models_ifenv _ _ _ Hm')).
Qed.

Lemma parsers_ok sha256 name P : (forall key vs vs', (forall v, v ∈ vs <-> v ∈ vs') -> dv key vs = dv key vs') ->
  parsers sha256 name = Some P -> parser_ok name P.
Proof.
  intros Hdv. unfold parsers.
  repeat match goal with |- context [String.eqb name ?k] => destruct (String.eqb_spec name k) as [->|_]; [intros [= <-]|] end; [..|done].
  - by apply addDomain_ok.
  - apply (ip_parser_ok sha256 MatchType_IpSet). tauto.
  - apply (ip_parser_ok sha256 MatchType_SourceIpSet). tauto.
  - apply (port_parser_ok MatchType_Port). tauto.
  - apply (port_parser_ok MatchType_SourcePort). tauto.
  - apply (flags_parser_ok MatchType_L4Proto _ _ _ l4proto). tauto.
  - apply mac_parser_ok.
  - apply client_parser_ok.
  - apply pname_parser_ok.
  - apply interface_parser_ok.
  - apply dscp_parser_ok.
  - apply (flags_parser_ok MatchType_IpVersion _ _ _ (fun p => IpVersionFromAddr (ap_addr (dst p)))). tauto.
Qed.

(** ** Rules *)

Context (sha256 : bytes -> bytes).
Context (dv_set : forall key vs vs', (forall v, v ∈ vs <-> v ∈ vs') -> dv key vs = dv key vs').

Lemma extends_outbounds b b' new : extends b b' new -> outboundName2Id b' = outboundName2Id b.
Proof. by intros (t & rs & ps & -> & _). Qed.

Lemma extends_tables b b' new : extends b b' new -> tables_le (tables b) (tables b').
Proof. by intros (t & rs & ps & -> & Ht & _). Qed.

Lemma raw_preds_app flags preds preds' T : preds' <> [] ->
  raw_preds flags (preds ++ preds') T = raw_preds flags preds (edge_instr flags EOr) ++ raw_preds flags preds' T.
Proof.
  intros Hne. induction preds as [|pr [|pr' preds] IH]; [done|by destruct preds'|].
  change (raw_preds flags ((pr :: pr' :: preds) ++ preds') T) with
    (mkMatch pr.2 pr.1 MatchActionOr flags 0 0 :: raw_preds flags ((pr' :: preds) ++ preds') T). rewrite IH. done.
Qed.

Definition group_wf (name : string) (g : string * list string) : Prop :=
  g.2 <> [] /\ (name = Function_Client -> length g.2 = 1).

Lemma apply_groups_ok name P f groups last_function o b b' :
  parser_ok name P -> apply_groups P f groups last_function o b = Ok b' -> builder_ok b ->
  groups <> [] -> Forall (group_wf name) groups ->
  exists preds e, preds <> [] /\
    edge_of (outboundName2Id b) (with_Name o (if last_function then o_Name o else OutboundIndex_String OutboundLogicalAnd)) = Some e /\
    extends b b' (raw_preds (flag_of (f_Not f)) preds (edge_instr (flag_of (f_Not f)) e)) /\ builder_ok b' /\
    preds_mean (tables b') preds (fun p => groups_value p name groups).
Proof.
  intros HP. revert b. induction groups as [|[key values] groups IH]; intros b Happ Hok Hne Hg; [done|].
  apply Forall_cons in Hg as [[Hv Hc] Hg]. cbn [apply_groups] in Happ.
  destruct (P f key values _ b) as [b1| |] eqn:Ep; [|done..]. cbn [mbind res_bind] in Happ.
  destruct (HP _ _ _ _ _ _ Ep Hok Hv Hc) as (preds & e & Hpn & He & Hx & Hok1 & Hm).
  destruct groups as [|g groups].
  - injection Happ as <-. exists preds, e. split_and!; try done.
    eapply preds_mean_ext, Hm. intros m p _. cbn. symmetry. apply pmax_miss.
  - destruct (IH b1 Happ Hok1 ltac:(done) Hg) as (preds' & e' & Hpn' & He' & Hx' & Hok' & Hm').
    exists (preds ++ preds'), e'. split; [by destruct preds|]. split; [by rewrite <-(extends_outbounds _ _ _ Hx)|].
    split; [rewrite raw_preds_app by done; eapply extends_trans; [|done]; by injection He as <-|]. split; [done|].
    apply (preds_mean_app _ preds preds' (fun p => group_value p name key values)); [|done].
    eapply preds_mean_le; [|done]. by eapply extends_tables.
Qed.

Lemma add_value_wf groups key value : Forall (fun g => g.2 <> []) groups -> Forall (fun g => g.2 <> []) (add_value groups key value).
Proof.
  intros H. induction H as [|[k vs] groups Hg H IH]; [by apply Forall_cons|]. cbn. destruct (String.eqb k key); apply Forall_cons; split; try done.
  cbn. by destruct vs.
Qed.

Lemma add_value_nonempty groups key value : add_value groups key value <> [].
Proof. destruct groups as [|[k vs] groups]; [done|]. cbn. by destruct (String.eqb k key). Qed.

Lemma groups_wf name params : params <> [] -> (name = Function_Client -> length params = 1) ->
  groupParamValuesByKey params <> [] /\ Forall (group_wf name) (groupParamValuesByKey params).
Proof.
  intros Hne Hone. unfold groupParamValuesByKey.
  assert (Hgen : forall gs, Forall (fun g : string * list string => g.2 <> []) gs -> (gs <> [] \/ params <> []) ->
    let r := fold_left (fun groups param => add_value groups (p_Key param) (p_Val param)) params gs in r <> [] /\ Forall (fun g => g.2 <> []) r).
  { clear Hne Hone. induction params as [|q params IH]; intros gs Hgs Hd; cbn; [by destruct Hd|].
    apply IH; [by apply add_value_wf|]. left. apply add_value_nonempty. }
  destruct (Hgen [] ltac:(done) ltac:(by right)) as [H1 H2]. split; [done|]. cbn in H2. destruct (decide (name = Function_Client)) as [Hn|Hn].
  - specialize (Hone Hn). destruct params as [|q [|]]; try done. cbn. by apply Forall_cons.
  - eapply Forall_impl; [exact H2|]. by intros g Hg.
Qed.

(** The clause compiled from a function. *)
Definition clause_means (t : Tables) (f : Function) (c : clause) : Prop :=
  cl_not c = f_Not f /\ cl_preds c <> [] /\
  preds_mean t (cl_preds c) (fun p => groups_value p (f_Name f) (groupParamValuesByKey (f_Params f))).

Lemma clause_means_le t t' f c : tables_le t t' -> clause_means t f c -> clause_means t' f c.
Proof. intros Hle (H1 & H2 & H3). split_and!; [done..|]. by eapply preds_mean_le. Qed.

Definition proper_target (o : Outbound) : Prop :=
  o_Name o <> OutboundIndex_String OutboundLogicalOr /\ o_Name o <> OutboundIndex_String OutboundLogicalAnd.

Lemma edge_of_proper outbounds o e : proper_target o -> edge_of outbounds o = Some e ->
  exists id, outbounds !! o_Name o = Some id /\ e = ETail (route_tail o id).
Proof.
  intros [Hor Hand]. unfold edge_of. rewrite (proj2 (String.eqb_neq _ _) Hor), (proj2 (String.eqb_neq _ _) Hand).
  destruct (outbounds !! o_Name o) as [id|]; [|done]. intros [= <-]. by exists id.
Qed.

Lemma with_Name_self o : with_Name o (o_Name o) = o.
Proof. by destruct o. Qed.

Lemma not_flag_of c f : cl_not c = f_Not f -> not_flag c = flag_of (f_Not f).
Proof. intros H. unfold not_flag, flag_of. by rewrite H. Qed.

Lemma apply_functions_ok functions o b b' :
  apply_functions (parsers sha256) functions o b = Ok b' -> builder_ok b -> functions <> [] -> proper_target o ->
  exists cs id, outboundName2Id b !! o_Name o = Some id /\ Forall2 (clause_means (tables b')) functions cs /\
    extends b b' (raw_clauses cs (route_tail o id)) /\ builder_ok b'.
Proof.
  revert b. induction functions as [|f functions IH]; intros b Happ Hok Hne Ho; [done|]. cbn [apply_functions] in Happ.
  destruct (f_Params f) as [|q params] eqn:Epar; [done|]. cbn [is_empty] in Happ.
  destruct (parsers sha256 (f_Name f)) as [P|] eqn:EP; [|done].
  destruct (String.eqb (f_Name f) Function_Client && _) eqn:Ecl; [done|].
  destruct (apply_groups P f _ _ o b) as [b1| |] eqn:Eg; [|done..]. cbn [mbind res_bind] in Happ.
  destruct (groups_wf (f_Name f) (q :: params)) as [Hgn Hgw]; [done| |].
  { intros Hc. rewrite Hc in Ecl. destruct (Nat.eqb_spec (length (q :: params)) 1) as [Hl|]; [exact Hl|done]. }
  apply (parsers_ok _ _ _ dv_set) in EP.
  destruct (apply_groups_ok _ _ _ _ _ _ _ _ EP Eg Hok Hgn Hgw) as (preds & e & Hpn & He & Hx & Hok1 & Hm).
  rewrite <-Epar in Hm. set (c := mkClause preds (f_Not f)). assert (Hc1 : clause_means (tables b1) f c) by done.
  destruct functions as [|f' functions].
  - injection Happ as <-. cbn [is_empty] in He. rewrite with_Name_self in He.
    apply edge_of_proper in He as (id & Hid & ->); [|done]. exists [c], id. split_and!; try done. by constructor.
  - destruct (IH b1 Happ Hok1 ltac:(done) Ho) as (cs & id & Hid & Hcs & Hx' & Hok').
    injection He as <-. exists (c :: cs), id. rewrite <-(extends_outbounds _ _ _ Hx). split; [done|].
    split; [constructor; [|done]; eapply clause_means_le; [|done]; by eapply extends_tables|]. split; [|done].
    destruct cs as [|c' cs]; [inversion Hcs|]. by eapply (extends_trans _ _ _ _ (raw_clauses (c' :: cs) _)).
Qed.

Lemma ApplyPredicate_ok functions o b b' :
  ApplyPredicate (parsers sha256) functions o b = Ok b' -> builder_ok b -> proper_target o ->
  exists cs id, outboundName2Id b !! o_Name o = Some id /\ functions <> [] /\ Forall2 (clause_means (tables b')) functions cs /\
    extends b b' (raw_clauses cs (route_tail o id)) /\ builder_ok b'.
Proof.
  unfold ApplyPredicate. destruct functions as [|f functions]; [done|]. cbn [is_empty]. intros H Hok Ho.
  destruct (apply_functions_ok _ _ _ _ H Hok ltac:(done) Ho) as (cs & id & Hid & Hcs & Hx & Hok'). by exists cs, id.
Qed.

Lemma clauses_wf_means t functions cs : functions <> [] -> Forall2 (clause_means t) functions cs -> clauses_wf cs.
Proof.
  intros Hne H. split; [intros ->; by inversion H; subst|]. clear Hne. induction H as [|f c fs cs (_ & Hp & _) H IH]; by constructor.
Qed.

Lemma clauses_value_means t functions cs m p : models t m p -> Forall2 (clause_means t) functions cs ->
  clauses_value m p cs = functions_value p functions /\ Forall (fun c => Forall (total m p) (cl_preds c)) cs.
Proof.
  intros Hm H. induction H as [|f c fs cs (Hn & _ & Hv) H [IH1 IH2]]; [done|]. destruct (proj2 Hv m p Hm) as [Ht Hval].
  split; [|by constructor]. cbn. fold (clauses_value m p cs) (functions_value p fs). rewrite IH1. f_equal.
  unfold clause_value, function_value. by rewrite Hn, Hval.
Qed.
End Meaning.
