(* ===== verification/RoutingNodes.v ===== *)
(** * Source-level meaning of routing statements

    A block of statements denotes a list of nodes: rules, and bodies of conditional
    uses of rule sets, with unconditional uses spliced in. [run_nodes] evaluates nodes
    from the functions of the configuration, without instructions or tables. [elab]
    relates nodes to the structured programs of the compiled instructions; related
    programs evaluate alike. *)

From stdpp Require Import sorting.
From S2P Require Import Prelude Netip ConfigSyntax RoutingInstr RoutingCursor RoutingEval RoutingEquiv RoutingSem RoutingEmit RoutingRules RoutingBuilder RoutingConfig RoutingDenote.

(** ** Nodes *)

(** What a rule or a block depends on: a conjunction of functions, an admitted HTTP
    client, or nothing. *)
Inductive guard :=
| GFunctions (fs : list Function)
| GHTTPClient
| GAlways.

Inductive node :=
| NRule (g : guard) (tail : bpfMatchSet)
| NBlock (g : guard) (body : list node).

(** Induction with the nodes of a block. *)
Lemma node_rect' (P : node -> Prop) :
  (forall g tail, P (NRule g tail)) -> (forall g body, Forall P body -> P (NBlock g body)) -> forall n, P n.
Proof.
  intros HR HB. fix IH 1. intros [g tail|g body]; [apply HR|]. apply HB. induction body as [|n body IHb]; constructor; [apply IH|exact IHb].
Qed.

Section Nodes.
Context (ifenv : string -> Z) (members : string -> list bytes) (dv : string -> list string -> predicateResult).

Section Run.
Context (m : RoutingMatcher) (p : routingInput).

Definition guard_value (g : guard) : predicateResult :=
  match g with
  | GFunctions fs => functions_value ifenv members dv p fs
  | GHTTPClient => pbool (allowed m p)
  | GAlways => predicateMatch
  end.

Fixpoint run_node (uncertain : bool) (n : node) (c : control) : outcome :=
  match n with
  | NRule g tail =>
    match guard_value g with
    | predicateMiss => Continue c
    | v => act m p tail (uncertain || is_unknown v) c
    end
  | NBlock g body =>
    match guard_value g with
    | predicateMiss => Continue c
    | v =>
      (fix go nodes c :=
         match nodes with
         | [] => Continue c
         | n :: nodes =>
           match run_node (uncertain || is_unknown v) n c with
           | Stop r => Stop r
           | Continue c => go nodes c
           end
         end) body c
    end
  end.

Fixpoint run_nodes (uncertain : bool) (nodes : list node) (c : control) : outcome :=
  match nodes with
  | [] => Continue c
  | n :: nodes =>
    match run_node uncertain n c with
    | Stop r => Stop r
    | Continue c => run_nodes uncertain nodes c
    end
  end.

(** A policy is its nodes; running off the end is an error. *)
Definition run_policy (nodes : list node) : res routingEvaluation :=
  match run_nodes false nodes (mkControl predicateMiss false 0) with
  | Stop r => r
  | Continue _ => Err "no match set hit"
  end.

Lemma run_node_block uncertain g body c :
  run_node uncertain (NBlock g body) c =
  match guard_value g with
  | predicateMiss => Continue c
  | v => run_nodes (uncertain || is_unknown v) body c
  end.
Proof.
  assert (Hgo : forall u body c, (fix go nodes c :=
     match nodes with
     | [] => Continue c
     | n :: nodes => match run_node u n c with Stop r => Stop r | Continue c => go nodes c end
     end) body c = run_nodes u body c).
  { intros u l. induction l as [|n l IH]; intros c'; [done|]. cbn. destruct (run_node u n c'); [done|]. apply IH. }
  cbn [run_node]. destruct (guard_value g); [done|apply Hgo..].
Qed.
End Run.

(** ** Elaboration *)

Definition guard_means (t : Tables) (g : guard) (cs : list clause) : Prop :=
  match g with
  | GFunctions fs => fs <> [] /\ Forall2 (clause_means ifenv members dv t) fs cs
  | GHTTPClient => cs = [mkClause [(MatchType_HTTPClient, zero16)] false]
  | GAlways => cs = [mkClause [(MatchType_Fallback, zero16)] false]
  end.

Fixpoint elab (t : Tables) (n : node) (it : item) : Prop :=
  match n, it with
  | NRule g tail, Rule cs tail' => guard_means t g cs /\ tail = tail' /\ tail_wf tail
  | NBlock g body, Block cs items =>
    guard_means t g cs /\
    (fix go nodes items :=
       match nodes, items with
       | [], [] => True
       | n :: nodes, it :: items => elab t n it /\ go nodes items
       | _, _ => False
       end) body items
  | _, _ => False
  end.

Definition elabs (t : Tables) : list node -> list item -> Prop := Forall2 (elab t).

Lemma elab_block t g body cs items : elab t (NBlock g body) (Block cs items) <-> guard_means t g cs /\ elabs t body items.
Proof.
  cbn [elab]. apply and_iff_compat_l. revert items. unfold elabs. induction body as [|n body IH]; intros [|it items].
  - by split; [intros; constructor|].
  - by split; [done|intros H; inversion H].
  - by split; [done|intros H; inversion H].
  - rewrite Forall2_cons. apply and_iff_compat_l, IH.
Qed.

Lemma guard_means_le t t' g cs : tables_le t t' -> guard_means t g cs -> guard_means t' g cs.
Proof.
  intros Hle. destruct g as [fs| |]; cbn; [|done..]. intros [Hne H]. split; [done|]. eapply Forall2_impl; [exact H|].
  intros f c. by apply clause_means_le.
Qed.

Lemma elab_le t t' n it : tables_le t t' -> elab t n it -> elab t' n it.
Proof.
  intros Hle. revert it. induction n as [g tail|g body IH] using node_rect'; intros [cs tail'|cs items]; try done.
  - cbn. intros (Hg & -> & Hw). split; [by eapply guard_means_le|done].
  - rewrite !elab_block. intros [Hg Hb]. split; [by eapply guard_means_le|]. unfold elabs in *.
    revert items Hb. induction IH as [|n body Hn IH IHb]; intros items Hb; inversion Hb; subst; constructor; auto.
Qed.

Lemma elabs_le t t' ns its : tables_le t t' -> elabs t ns its -> elabs t' ns its.
Proof. intros Hle H. eapply Forall2_impl; [exact H|]. intros n it. by apply elab_le. Qed.

(** Predicates of an item. *)
Fixpoint item_preds (it : item) : list (Z * bytes) :=
  match it with
  | Rule cs _ => flat_map cl_preds cs
  | Block cs body =>
    flat_map cl_preds cs ++ (fix go items := match items with [] => [] | it :: items => item_preds it ++ go items end) body
  end.
Definition items_preds (items : list item) : list (Z * bytes) := flat_map item_preds items.

Lemma item_preds_block cs body : item_preds (Block cs body) = flat_map cl_preds cs ++ items_preds body.
Proof. done. Qed.

Lemma single_clause_wf pr : clauses_wf [mkClause [pr] false].
Proof. split; [done|]. apply Forall_cons. by split. Qed.

Lemma guard_means_value t g cs m p : models ifenv members dv t m p -> guard_means t g cs ->
  clauses_wf cs /\ clauses_value m p cs = guard_value m p g /\ Forall (total m p) (flat_map cl_preds cs).
Proof.
  intros Hm. destruct g as [fs| |]; cbn.
  - intros [Hne H]. split; [by eapply clauses_wf_means|]. destruct (clauses_value_means _ _ _ _ _ _ _ _ Hm H) as [-> Ht].
    split; [done|]. apply Forall_flat_map. exact Ht.
  - intros ->. split; [apply single_clause_wf|]. assert (Hv : pvalue m p (MatchType_HTTPClient, zero16) = Ok (pbool (allowed m p))) by done.
    split; [|cbn; apply Forall_cons; split; [by eexists|done]].
    assert (Hval : value m p (MatchType_HTTPClient, zero16) = pbool (allowed m p)) by (unfold value; by rewrite Hv).
    change (clauses_value m p _) with (pmin (pmax (value m p (MatchType_HTTPClient, zero16)) predicateMiss) predicateMatch).
    rewrite Hval. by destruct (allowed m p).
  - intros ->. split; [apply single_clause_wf|]. split; [done|]. apply Forall_cons. split; [by eexists|done].
Qed.

(** Related programs evaluate alike. *)
Lemma elab_run t n it m p : models ifenv members dv t m p -> elab t n it ->
  item_wf it /\ Forall (total m p) (item_preds it) /\ forall u c, run_item m p u it c = run_node m p u n c.
Proof.
  intros Hm. revert it. induction n as [g tail|g body IH] using node_rect'; intros [cs tail'|cs items]; try done.
  - cbn [elab]. intros (Hg & -> & Hw). destruct (guard_means_value _ _ _ _ _ Hm Hg) as (Hcs & Hv & Ht).
    split; [done|]. split; [done|]. intros u c. cbn. by rewrite Hv.
  - rewrite elab_block. intros [Hg Hb]. destruct (guard_means_value _ _ _ _ _ Hm Hg) as (Hcs & Hv & Ht).
    assert (Hbody : items_wf items /\ Forall (total m p) (items_preds items) /\ forall u c, run_items m p u items c = run_nodes m p u body c).
    { unfold elabs in Hb. clear Hg Hcs Hv Ht. revert IH. induction Hb as [|n it body items Hn Hb IHb]; intros IH; [done|].
      apply Forall_cons in IH as [IHn IH]. destruct (IHn _ Hn) as (Hw & Ht & Hr), (IHb IH) as (Hws & Hts & Hrs).
      split; [done|]. split; [by apply Forall_app|]. intros u c. cbn. rewrite Hr. destruct (run_node m p u n c); [done|]. apply Hrs. }
    destruct Hbody as (Hws & Hts & Hrs). rewrite item_wf_block, item_preds_block. split; [done|].
    split; [by apply Forall_app|]. intros u c. rewrite run_item_block, run_node_block, Hv. destruct (guard_value m p g); [done|apply Hrs..].
Qed.

Lemma elabs_run t ns its m p : models ifenv members dv t m p -> elabs t ns its ->
  items_wf its /\ Forall (total m p) (items_preds its) /\ run_program m p its = run_policy m p ns.
Proof.
  intros Hm H. assert (Hgo : items_wf its /\ Forall (total m p) (items_preds its) /\ forall u c, run_items m p u its c = run_nodes m p u ns c).
  { induction H as [|n it ns its Hn H IH]; [done|]. destruct (elab_run _ _ _ _ _ Hm Hn) as (Hw & Ht & Hr), IH as (Hws & Hts & Hrs).
    split; [done|]. split; [by apply Forall_app|]. intros u c. cbn. rewrite Hr. destruct (run_node m p u n c); [done|]. apply Hrs. }
  destruct Hgo as (Hw & Ht & Hr). split; [done|]. split; [done|]. unfold run_program, run_policy. by rewrite Hr.
Qed.

(** Emitted instructions have the predicates of the items. *)
Lemma pred_of_emit_preds flags preds T mt : (forall pr, pred_of (T pr) = pr) -> mt ∈ emit_preds flags preds T -> pred_of mt ∈ preds.
Proof.
  intros HT. induction preds as [|pr [|pr' preds] IH]; [by intros ?%elem_of_nil| |].
  - cbn. intros ->%list_elem_of_singleton. rewrite HT. by left.
  - rewrite emit_preds_cons. intros [->|H]%elem_of_cons; [apply elem_of_cons; left; by destruct pr|]. right. by apply IH.
Qed.

Lemma pred_of_emit_clauses cs tail after mt : mt ∈ emit_clauses cs tail after -> pred_of mt ∈ flat_map cl_preds cs.
Proof.
  induction cs as [|c [|c' cs] IH]; [by intros ?%elem_of_nil| |].
  - cbn. rewrite app_nil_r. apply pred_of_emit_preds. by intros [? ?].
  - rewrite emit_clauses_snoc2. cbn [flat_map]. rewrite !elem_of_app. intros [H|H]; [left|right; by apply elem_of_app, IH].
    apply pred_of_emit_preds in H; [done|]. by intros [? ?].
Qed.

Lemma pred_of_emit_item it : forall mt, mt ∈ emit_item it -> pred_of mt ∈ item_preds it.
Proof.
  revert it. fix IH 1. intros [cs tail|cs body] mt; [apply pred_of_emit_clauses|].
  rewrite emit_item_block, item_preds_block, !elem_of_app. intros [H|H]; [left; by eapply pred_of_emit_clauses|right].
  unfold items_preds. induction body as [|it body IHb]; [by apply elem_of_nil in H|]. cbn [emit_items flat_map] in H |- *.
  apply elem_of_app in H as [H|H]; apply elem_of_app; [left; exact (IH _ _ H)|right; exact (IHb H)].
Qed.

Lemma pred_of_emit_items its mt : mt ∈ emit_items its -> pred_of mt ∈ items_preds its.
Proof.
  induction its as [|it its IH]; [by intros ?%elem_of_nil|]. cbn [emit_items]. unfold items_preds in *. cbn [flat_map]. rewrite !elem_of_app.
  intros [H|H]; [left; by apply pred_of_emit_item|right; by apply IH].
Qed.
End Nodes.
