(* ===== verification/RoutingPool.v ===== *)
(** * The builder as a pool of constructs

    Every operation of the builder that emits rules appends whole constructs, whose
    encoded form is a structured program of the rules it was given. *)

From stdpp Require Import sorting.
From S2P Require Import Prelude Netip GoStrings ConfigSyntax RoutingInstr RoutingCursor RoutingEval RoutingEquiv RoutingSem RoutingEmit RoutingRules RoutingBuilder RoutingConfig RoutingConfigCorrect RoutingCompile RoutingDenote RoutingNodes.

(** ** Editing the instructions just appended *)

Section Edit.
Context (ifenv : string -> Z).
Local Abbreviation extends := (extends ifenv).

Definition keeps_value (F : bpfMatchSet -> bpfMatchSet) : Prop := forall m v, F (with_Value m v) = with_Value (F m) v.

Lemma bind_patch_keeps F ps i m : keeps_value F -> bind_patch ifenv ps i (F m) = F (bind_patch ifenv ps i m).
Proof. intros HF. unfold bind_patch. destruct (head _); [by rewrite HF|done]. Qed.

Lemma extends_insert b b' new i x m F :
  keeps_value F -> extends b b' new -> new !! i = Some x -> rules b' !! (length (rules b) + i) = Some m ->
  extends b (with_rules b' (<[length (rules b) + i := F m]> (rules b'))) (<[i := F x]> new).
Proof.
  intros HF (t & rs & ps & -> & Ht & Hps & ->) Hx Hm. cbn in *. rewrite lookup_app_r in Hm by lia.
  replace (length (rules b) + i - length (rules b)) with i in Hm by lia.
  exists t, (<[i := F m]> rs), ps. split; [by rewrite insert_app_r|]. split; [done|]. split; [by rewrite length_insert|].
  rewrite list_lookup_imap, Hm in Hx. injection Hx as <-.
  apply list_eq. intros j. rewrite list_lookup_imap. destruct (decide (i = j)) as [<-|Hj].
  - assert (i < length rs) by (by eapply lookup_lt_Some). rewrite !list_lookup_insert_eq by (by rewrite ?length_imap).
    cbn. by rewrite bind_patch_keeps.
  - by rewrite !list_lookup_insert_ne, list_lookup_imap by done.
Qed.

Lemma keeps_value_Value F m : keeps_value F -> Value (F m) = Value m.
Proof. intros HF. pose proof (HF m (Value m)) as H. replace (with_Value m (Value m)) with m in H by by destruct m. by rewrite H. Qed.

Lemma unbound_insert rs i m F ps : keeps_value F -> rs !! i = Some m -> patches_ok rs ps -> patches_ok (<[i := F m]> rs) ps.
Proof.
  intros HF Hm [H Hd]. split; [|done]. eapply Forall_impl; [exact H|]. intros e (r & Hr & Hv). destruct (decide (i = e.2)) as [->|Hne].
  - exists (F m). rewrite list_lookup_insert_eq by by eapply lookup_lt_Some. split; [done|]. rewrite keeps_value_Value by done. congruence.
  - exists r. by rewrite list_lookup_insert_ne.
Qed.

Lemma unbound_map rs n F ps : keeps_value F -> patches_ok rs ps -> patches_ok (take n rs ++ map F (drop n rs)) ps.
Proof.
  intros HF [H Hd]. split; [|done]. eapply Forall_impl; [exact H|]. intros e (r & Hr & Hv). unfold unbound. destruct (decide (e.2 < n)) as [Hlt|Hge].
  - exists r. split; [|done]. apply lookup_app_l_Some. by rewrite lookup_take_lt.
  - exists (F r). split; [|by rewrite keeps_value_Value]. apply lookup_lt_Some in Hr as Hl. rewrite lookup_app_r by (rewrite length_take; lia).
    rewrite length_take, list_lookup_fmap, lookup_drop. replace (n + (e.2 - n `min` length rs)) with e.2 by lia. by rewrite Hr.
Qed.

Lemma extends_length b b' new : extends b b' new -> length (rules b') = length (rules b) + length new.
Proof. intros (t & rs & ps & -> & _ & _ & ->). cbn. by rewrite length_app, length_imap. Qed.

Lemma extends_last b b' pre x m F :
  keeps_value F -> extends b b' (pre ++ [x]) -> last (rules b') = Some m ->
  extends b (with_rules b' (<[length (rules b') - 1 := F m]> (rules b'))) (pre ++ [F x]).
Proof.
  intros HF Hx Hl. pose proof (extends_length _ _ _ Hx) as Hlen. rewrite length_app in Hlen. cbn in Hlen.
  replace (length (rules b') - 1) with (length (rules b) + length pre) by lia.
  assert (Hin : <[length pre := F x]> (pre ++ [x]) = pre ++ [F x]).
  { rewrite insert_app_r_alt by lia. by rewrite Nat.sub_diag. }
  rewrite <-Hin. apply extends_insert; [done|done|by rewrite lookup_app_r, Nat.sub_diag|].
  rewrite last_lookup in Hl. rewrite <-Hl. f_equal. lia.
Qed.

Lemma extends_map b b' new F : keeps_value F -> extends b b' new ->
  extends b (with_rules b' (take (length (rules b)) (rules b') ++ map F (drop (length (rules b)) (rules b')))) (map F new).
Proof.
  intros HF (t & rs & ps & -> & Ht & Hps & ->). cbn in *. rewrite take_app_length, drop_app_length.
  exists t, (map F rs), ps. split; [done|]. split; [done|]. split; [by rewrite length_map|].
  apply list_eq. intros j. rewrite list_lookup_fmap, !list_lookup_imap, list_lookup_fmap. destruct (rs !! j); [|done].
  cbn. by rewrite bind_patch_keeps.
Qed.
End Edit.

Lemma set_last_insert (rs : list bpfMatchSet) F m : last rs = Some m -> removelast rs ++ [F m] = <[length rs - 1 := F m]> rs.
Proof.
  intros Hl. destruct (exists_last (l := rs)) as (pre & x & ->); [by destruct rs|]. rewrite last_snoc in Hl. injection Hl as ->.
  rewrite removelast_last, length_app. cbn. replace (length pre + 1 - 1) with (length pre) by lia.
  rewrite insert_app_r_alt by lia. by rewrite Nat.sub_diag.
Qed.

(** The last instruction of a construct, with its tail edited. *)
Lemma raw_clauses_tail cs tail tail' F : clauses_wf cs ->
  (forall flags pr, F (tail_instr flags tail pr) = tail_instr flags tail' pr) ->
  exists pre x, raw_clauses cs tail = pre ++ [x] /\ raw_clauses cs tail' = pre ++ [F x].
Proof.
  intros [Hne Hps] HF. induction cs as [|c [|c' cs] IH]; [done| |]; apply Forall_cons in Hps as [Hc Hps].
  - cbn [raw_clauses]. clear Hne Hps IH. induction (cl_preds c) as [|pr [|pr' preds] IH]; [done| |].
    + exists [], (tail_instr (not_flag c) tail pr). cbn. by rewrite HF.
    + destruct (IH ltac:(done)) as (pre & x & E1 & E2). exists (mkMatch pr.2 pr.1 MatchActionOr (not_flag c) 0 0 :: pre), x.
      change (raw_preds ?f (pr :: pr' :: preds) ?T) with (mkMatch pr.2 pr.1 MatchActionOr f 0 0 :: raw_preds f (pr' :: preds) T).
      by rewrite E1, E2.
  - destruct (IH ltac:(done) Hps) as (pre & x & E1 & E2).
    exists (raw_preds (not_flag c) (cl_preds c) (and_instr (not_flag c) 0) ++ pre), x.
    change (raw_clauses (c :: c' :: cs) ?t) with (raw_preds (not_flag c) (cl_preds c) (and_instr (not_flag c) 0) ++ raw_clauses (c' :: cs) t).
    by rewrite E1, E2, !app_assoc.
Qed.

(** Editing every route of a construct. *)
Lemma raw_clauses_map cs tail tail' F : clauses_wf cs ->
  (forall m, Action m = MatchActionOr \/ Action m = MatchActionAnd -> F m = m) ->
  (forall flags pr, F (tail_instr flags tail pr) = tail_instr flags tail' pr) ->
  map F (raw_clauses cs tail) = raw_clauses cs tail'.
Proof.
  intros [Hne Hps] Hid HF.
  assert (Hp : forall flags preds T T', (forall pr, F (T pr) = T' pr) -> map F (raw_preds flags preds T) = raw_preds flags preds T').
  { intros flags preds T T' HT. induction preds as [|pr [|pr' preds] IH]; [done|cbn; by rewrite HT|].
    change (raw_preds flags (pr :: pr' :: preds) ?T) with (mkMatch pr.2 pr.1 MatchActionOr flags 0 0 :: raw_preds flags (pr' :: preds) T).
    cbn [map]. rewrite IH, Hid by (by left). done. }
  induction cs as [|c [|c' cs] IH]; [done| |]; apply Forall_cons in Hps as [Hc Hps].
  - cbn [raw_clauses]. by apply Hp.
  - change (raw_clauses (c :: c' :: cs) ?t) with (raw_preds (not_flag c) (cl_preds c) (and_instr (not_flag c) 0) ++ raw_clauses (c' :: cs) t).
    rewrite map_app, IH by done. f_equal. apply Hp. intros pr. apply Hid. by right.
Qed.

(** ** Worlds *)

(** The tables and the constructs a builder holds. *)
Record world := mkWorld { w_tables : Tables; w_pool : list construct }.

Definition w_le (w w' : world) : Prop := tables_le (w_tables w) (w_tables w') /\ w_pool w `prefix_of` w_pool w'.

Lemma w_le_refl w : w_le w w.
Proof. split; [apply tables_le_refl|done]. Qed.
Lemma w_le_trans w1 w2 w3 : w_le w1 w2 -> w_le w2 w3 -> w_le w1 w3.
Proof. intros [? ?] [? ?]. split; [by eapply tables_le_trans|by etrans]. Qed.

Definition k_ok (k : construct) : Prop := k_wf k /\ (0 <= Mark (k_tail k))%Z.

Section Pool.
Context (ifenv : string -> Z) (members : string -> list bytes) (dv : string -> list string -> predicateResult).
Local Abbreviation extends := (extends ifenv).
Local Abbreviation elabs := (elabs ifenv members dv).

Definition represents (b : Builder) (w : world) : Prop :=
  builder_ok b /\ w_tables w = tables b /\ bound_rules ifenv b = raw_pool (w_pool w) /\ Forall k_ok (w_pool w).

(** The encoded instructions of the spans are a program of the nodes. *)
Definition denotes (w : world) (spans : list routingSpan) (nodes : list node) : Prop :=
  exists items, elabs (w_tables w) nodes items /\ Forall span_wf spans /\
    mapM (fun i => emit_pool (w_pool w) !! i) (code_of spans) = Some (emit_items items).

(** Constructs that are a program of the nodes. *)
Definition builds (t : Tables) (ks : list construct) (nodes : list node) : Prop :=
  exists items, elabs t nodes items /\ emit_pool ks = emit_items items.

Lemma emit_pool_app ks ks' : emit_pool (ks ++ ks') = emit_pool ks ++ emit_pool ks'.
Proof. unfold emit_pool. by rewrite map_app, concat_app. Qed.
Lemma raw_pool_app ks ks' : raw_pool (ks ++ ks') = raw_pool ks ++ raw_pool ks'.
Proof. unfold raw_pool. by rewrite map_app, concat_app. Qed.

Lemma emit_items_app its its' : emit_items (its ++ its') = emit_items its ++ emit_items its'.
Proof. induction its as [|it its IH]; [done|]. cbn. by rewrite IH, app_assoc. Qed.

Lemma length_raw_pool ks : length (raw_pool ks) = length (emit_pool ks).
Proof.
  induction ks as [|k ks IH]; [done|]. unfold raw_pool, emit_pool in *. cbn. by rewrite !length_app, length_raw, IH.
Qed.

Lemma denotes_le w w' spans nodes : w_le w w' -> denotes w spans nodes -> denotes w' spans nodes.
Proof.
  intros [Ht [ks Hk]] (items & He & Hw & Hm). exists items. split; [by eapply elabs_le|]. split; [done|].
  apply mapM_Some in Hm. apply mapM_Some. eapply Forall2_impl; [exact Hm|]. intros i mt Hi. cbn in *.
  rewrite Hk, emit_pool_app. by apply lookup_app_l_Some.
Qed.

Lemma denotes_nil w : denotes w [] [].
Proof. exists []. split; [constructor|]. by split. Qed.

Lemma code_of_app spans spans' : code_of (spans ++ spans') = code_of spans ++ code_of spans'.
Proof. unfold code_of. by rewrite flatten_app, map_app. Qed.

Lemma mapM_app_ {A B} (f : A -> option B) l l' r r' : mapM f l = Some r -> mapM f l' = Some r' -> mapM f (l ++ l') = Some (r ++ r').
Proof. rewrite !mapM_Some. apply Forall2_app. Qed.

(** Only the execution order matters. *)
Lemma denotes_code w spans spans' nodes :
  code_of spans = code_of spans' -> Forall span_wf spans' -> denotes w spans nodes -> denotes w spans' nodes.
Proof. intros Hc Hw (items & He & _ & Hm). exists items. rewrite <-Hc. done. Qed.

Lemma denotes_app w spans spans' nodes nodes' :
  denotes w spans nodes -> denotes w spans' nodes' -> denotes w (spans ++ spans') (nodes ++ nodes').
Proof.
  intros (its & He & Hw & Hm) (its' & He' & Hw' & Hm'). exists (its ++ its'). split; [by apply Forall2_app|].
  split; [by apply Forall_app|]. rewrite code_of_app, emit_items_app. by apply mapM_app_.
Qed.

Lemma denotes_length w spans nodes items : elabs (w_tables w) nodes items ->
  mapM (fun i => emit_pool (w_pool w) !! i) (code_of spans) = Some (emit_items items) -> length (emit_items items) = spanExecutionLen spans.
Proof. intros _ Hm%mapM_Some%Forall2_length. rewrite <-Hm, length_code_of. symmetry. apply spanExecutionLen_flatten. Qed.

(** ** Appending spans and blocks *)

Lemma code_of_cons s spans : code_of (s :: spans) = seq (Start s) (span_len s) ++ code_of spans.
Proof.
  unfold code_of. rewrite flatten_cons, map_app. f_equal. unfold span_steps. rewrite map_map. cbn. apply map_id.
Qed.

Lemma code_of_single s : code_of [s] = seq (Start s) (span_len s).
Proof. by rewrite code_of_cons, app_nil_r. Qed.

Lemma appendSpan_code spans span : Forall span_wf spans -> span_wf span ->
  code_of (appendSpan spans span) = code_of spans ++ code_of [span] /\ Forall span_wf (appendSpan spans span).
Proof.
  intros Hw Hs. unfold span_wf in Hs. unfold appendSpan. destruct (Nat.eqb_spec (Start span) (End_ span)) as [Heq|Hne].
  { rewrite code_of_single. unfold span_len. rewrite Heq, Nat.sub_diag, app_nil_r. done. }
  destruct (last spans) as [l|] eqn:El.
  2: { apply last_None in El as ->. split; [done|]. by apply Forall_cons. }
  destruct (_ && _ && _) eqn:Ec.
  - apply andb_prop in Ec as [[Ec _]%andb_prop _]. apply Nat.eqb_eq in Ec.
    destruct (exists_last (l := spans)) as (pre & x & ->); [by destruct spans|]. rewrite last_snoc in El. injection El as ->.
    rewrite removelast_last. apply Forall_app in Hw as [Hw Hl]. apply Forall_cons in Hl as [Hl _]. unfold span_wf in Hl.
    split; [|apply Forall_app; split; [done|]; apply Forall_cons; split; [unfold span_wf; cbn; lia|done]].
    rewrite !code_of_app, !code_of_single, <-app_assoc. f_equal. unfold span_len. cbn. rewrite <-Ec.
    replace (End_ span - Start l) with ((End_ l - Start l) + (End_ span - End_ l)) by lia. rewrite seq_app. f_equal. f_equal. lia.
  - rewrite code_of_app. split; [done|]. apply Forall_app. split; [done|]. by apply Forall_cons.
Qed.

Lemma block_appendSpan_denotes w b span r nodes nodes' :
  block_appendSpan b span = Ok r -> span_wf span -> denotes w b nodes -> denotes w [span] nodes' -> denotes w r (nodes ++ nodes').
Proof.
  intros Hr Hs Hb Hs'. pose proof (denotes_app _ _ _ _ _ Hb Hs') as Happ. unfold block_appendSpan in Hr.
  destruct Hb as (its & He & Hw & Hm). destruct (Nat.eqb_spec (span_len span) 0) as [Hz|Hz].
  - injection Hr as <-. eapply denotes_code; [|done|exact Happ]. rewrite code_of_app, code_of_single, Hz. apply app_nil_r.
  - destruct (_ <? _)%Z; [done|]. injection Hr as <-. destruct (appendSpan_code b span Hw Hs) as [Hc Hw'].
    eapply denotes_code; [|done|exact Happ]. by rewrite code_of_app.
Qed.

Lemma fold_appendSpan_code other b : Forall span_wf b -> Forall span_wf other ->
  code_of (fold_left appendSpan other b) = code_of b ++ code_of other /\ Forall span_wf (fold_left appendSpan other b).
Proof.
  intros Hb Ho. revert b Hb. induction Ho as [|s other Hs Ho IH]; intros b Hb; cbn [fold_left]; [by rewrite app_nil_r|].
  destruct (appendSpan_code b s Hb Hs) as [Hc Hw]. destruct (IH _ Hw) as [Hc' Hw']. split; [|done].
  by rewrite Hc', Hc, <-app_assoc, <-code_of_app.
Qed.

Lemma block_appendBlock_denotes w b other r nodes nodes' :
  block_appendBlock b other = Ok r -> denotes w b nodes -> denotes w other nodes' -> denotes w r (nodes ++ nodes').
Proof.
  intros Hr Hb Ho. pose proof (denotes_app _ _ _ _ _ Hb Ho) as Happ. unfold block_appendBlock in Hr.
  destruct (_ <? _)%Z; [done|]. injection Hr as <-. destruct Hb as (? & _ & Hw & _), Ho as (? & _ & Hw' & _).
  destruct (fold_appendSpan_code other b Hw Hw') as [Hc Hwf]. eapply denotes_code; [|done|exact Happ]. by rewrite code_of_app.
Qed.

(** ** Emitting nodes *)

Definition emits (b b' : Builder) (nodes : list node) : Prop :=
  exists ks, extends b b' (raw_pool ks) /\ builder_ok b' /\ Forall k_ok ks /\ builds (tables b') ks nodes.

Lemma builds_nil t : builds t [] [].
Proof. exists []. by split; [constructor|]. Qed.

Lemma builds_app t ks ks' nodes nodes' : builds t ks nodes -> builds t ks' nodes' -> builds t (ks ++ ks') (nodes ++ nodes').
Proof.
  intros (its & He & Hk) (its' & He' & Hk'). exists (its ++ its'). split; [by apply Forall2_app|].
  by rewrite emit_pool_app, emit_items_app, Hk, Hk'.
Qed.

Lemma builds_le t t' ks nodes : tables_le t t' -> builds t ks nodes -> builds t' ks nodes.
Proof. intros Hle (its & He & Hk). exists its. split; [by eapply elabs_le|done]. Qed.

Lemma emits_refl b : builder_ok b -> emits b b [].
Proof. intros Hok. exists []. split; [apply extends_refl|]. split; [done|]. split; [done|apply builds_nil]. Qed.

Lemma emits_trans b b1 b2 n1 n2 : emits b b1 n1 -> emits b1 b2 n2 -> emits b b2 (n1 ++ n2).
Proof.
  intros (k1 & Hx1 & Hok1 & Hk1 & Hb1) (k2 & Hx2 & Hok2 & Hk2 & Hb2). exists (k1 ++ k2).
  rewrite raw_pool_app. split; [by eapply extends_trans|]. split; [done|]. split; [by apply Forall_app|].
  apply builds_app; [|done]. eapply builds_le; [|done]. by eapply extends_tables.
Qed.

Lemma emits_outbounds b b' nodes : emits b b' nodes -> outboundName2Id b' = outboundName2Id b.
Proof. intros (ks & Hx & _). by eapply extends_outbounds. Qed.

Lemma represents_length b w : represents b w -> length (rules b) = length (emit_pool (w_pool w)).
Proof. intros (_ & _ & Hb & _). rewrite <-length_raw_pool, <-Hb. unfold bound_rules. by rewrite length_imap. Qed.

(** Appending constructs to a represented builder. *)
Lemma represents_extends b b' w ks : represents b w -> extends b b' (raw_pool ks) -> builder_ok b' -> Forall k_ok ks ->
  let w' := mkWorld (tables b') (w_pool w ++ ks) in w_le w w' /\ represents b' w'.
Proof.
  intros (Hok & Ht & Hb & Hk) Hx Hok' Hks. cbn. split.
  - split; cbn; [rewrite Ht; by eapply extends_tables|by apply prefix_app_r].
  - split; [done|]. split; [done|]. cbn [w_pool]. split; [|by apply Forall_app]. by rewrite (bound_extends _ _ _ _ Hok Hx), Hb, raw_pool_app.
Qed.

Lemma lookup_seq_app {A} (pre l post : list A) : mapM (fun i => (pre ++ l ++ post) !! i) (seq (length pre) (length l)) = Some l.
Proof.
  apply mapM_Some. apply Forall2_same_length_lookup. rewrite length_seq. split; [done|]. intros i k x Hk Hx.
  apply lookup_seq in Hk as [-> Hi]. rewrite lookup_app_r by lia. replace (length pre + i - length pre) with i by lia.
  by apply lookup_app_l_Some.
Qed.

(** The span of the constructs just appended. *)
Lemma built_span b b' w ks nodes phase global : represents b w -> extends b b' (raw_pool ks) -> builds (tables b') ks nodes ->
  denotes (mkWorld (tables b') (w_pool w ++ ks)) [mkSpan (length (rules b)) (length (rules b')) phase global] nodes.
Proof.
  intros Hr Hx (its & He & Hb). exists its. split; [done|].
  pose proof (extends_length _ _ _ _ Hx) as Hl. rewrite length_raw_pool in Hl. split.
  - apply Forall_cons. split; [unfold span_wf; cbn; lia|done].
  - rewrite code_of_single. unfold span_len. cbn [Start End_ w_pool]. rewrite emit_pool_app, <-Hb, (represents_length _ _ Hr).
    rewrite Hl, (represents_length _ _ Hr), Nat.add_comm, Nat.add_sub.
    pose proof (lookup_seq_app (emit_pool (w_pool w)) (emit_pool ks) []) as H. by rewrite app_nil_r in H.
Qed.

Lemma emitted_span b b' w nodes phase global : represents b w -> emits b b' nodes ->
  exists w', w_le w w' /\ represents b' w' /\ denotes w' [mkSpan (length (rules b)) (length (rules b')) phase global] nodes.
Proof.
  intros Hr (ks & Hx & Hok' & Hks & Hb). destruct (represents_extends _ _ _ _ Hr Hx Hok' Hks) as [Hle Hr'].
  eexists. split; [done|]. split; [done|]. by apply built_span.
Qed.

(** ** Rules and flow effects *)

Context (sha256 : bytes -> bytes).
Context (dv_set : forall key vs vs', (forall v, v ∈ vs <-> v ∈ vs') -> dv key vs = dv key vs').
Context (outbounds : gmap string Z) (direct_id : outbounds !! "direct"%string = Some OutboundDirect).

Definition rule_node (rule : RoutingRule) : option node :=
  match ParseOutbound (r_Outbound rule) with
  | Ok o => id ← outbounds !! o_Name o; Some (NRule (GFunctions (r_AndFunctions rule)) (route_tail o id))
  | _ => None
  end.

(** The target is not spelled like a logical edge. *)
Definition rule_proper (rule : RoutingRule) : Prop :=
  f_Name (r_Outbound rule) <> OutboundIndex_String OutboundLogicalOr /\
  f_Name (r_Outbound rule) <> OutboundIndex_String OutboundLogicalAnd.

Lemma ParseOutbound_spec f o : ParseOutbound f = Ok o -> o_Name o = f_Name f /\ (0 <= o_Mark o)%Z.
Proof.
  unfold ParseOutbound. assert (Hgen : forall ps acc, foldM outbound_param acc ps = Ok o ->
    (0 <= o_Mark acc)%Z -> o_Name o = o_Name acc /\ (0 <= o_Mark o)%Z).
  { induction ps as [|q ps IH]; intros acc; cbn [foldM]; [by intros [= <-]|].
    destruct (outbound_param acc q) as [acc'| |] eqn:E; [|done..]. cbn [mbind res_bind]. intros H Hm.
    assert (o_Name acc' = o_Name acc /\ (0 <= o_Mark acc')%Z) as [<- Hm'].
    { unfold outbound_param in E. repeat case_match; simplify_eq; cbn; split; try done. by eapply ParseUint0_nonneg. }
    by apply IH. }
  intros H. by apply Hgen in H.
Qed.

Lemma raw_pool_single k : raw_pool [k] = raw k.
Proof. unfold raw_pool. cbn. apply app_nil_r. Qed.
Lemma emit_pool_single k : emit_pool [k] = emit k.
Proof. unfold emit_pool. cbn. apply app_nil_r. Qed.

Lemma tail_wf_k_ok cs tail : clauses_wf cs -> tail_wf tail -> (0 <= Mark tail)%Z ->
  k_ok (mkConstruct cs tail) /\ emit (mkConstruct cs tail) = emit_clauses cs tail 0.
Proof.
  intros Hcs (Hj & _ & _) Hm. unfold is_jump in Hj. apply orb_false_iff in Hj as [[Hor Hand]%orb_false_iff Hjump].
  split; [|unfold emit, k_after; cbn; by rewrite Hjump]. split; [|done]. split; [done|]. cbn.
  split; by apply Z.eqb_neq.
Qed.

(** Constructs that are rules, one for each node. *)
Definition rule_construct (t : Tables) (k : construct) (n : node) : Prop :=
  exists g, n = NRule g (k_tail k) /\ guard_means ifenv members dv t g (k_clauses k) /\ clauses_wf (k_clauses k) /\
    tail_wf (k_tail k) /\ (0 <= Mark (k_tail k))%Z.

Definition emits_rules (b b' : Builder) (nodes : list node) : Prop :=
  exists ks, extends b b' (raw_pool ks) /\ builder_ok b' /\ Forall2 (rule_construct (tables b')) ks nodes.

Lemma rule_construct_le t t' k n : tables_le t t' -> rule_construct t k n -> rule_construct t' k n.
Proof. intros Hle (g & -> & Hg & H). exists g. split; [done|]. split; [by eapply guard_means_le|done]. Qed.

Lemma emits_rules_emits b b' nodes : emits_rules b b' nodes -> emits b b' nodes.
Proof.
  intros (ks & Hx & Hok & Hks). exists ks. split; [done|]. split; [done|]. clear Hx.
  induction Hks as [|k n ks nodes (g & -> & Hg & Hcs & Ht & Hm) Hks IH]; [split; [done|apply builds_nil]|].
  destruct k as [cs tail]. cbn in *. destruct (tail_wf_k_ok cs tail Hcs Ht Hm) as [Hk He]. destruct IH as [IH1 IH2].
  split; [by apply Forall_cons|]. apply (builds_app _ [_] _ [_]); [|done].
  exists [Rule cs tail]. split; [by apply Forall2_cons|]. rewrite emit_pool_single, He. cbn. by rewrite app_nil_r.
Qed.

Lemma emits_rules_trans b b1 b2 n1 n2 : emits_rules b b1 n1 -> emits_rules b1 b2 n2 -> emits_rules b b2 (n1 ++ n2).
Proof.
  intros (k1 & Hx1 & Hok1 & Hk1) (k2 & Hx2 & Hok2 & Hk2). exists (k1 ++ k2). rewrite raw_pool_app.
  split; [by eapply extends_trans|]. split; [done|]. apply Forall2_app; [|done]. eapply Forall2_impl; [exact Hk1|].
  intros k n. apply rule_construct_le. by eapply extends_tables.
Qed.

Lemma emits_rules_nil b : builder_ok b -> emits_rules b b [].
Proof. intros Hok. exists []. split; [apply extends_refl|]. by split. Qed.

Lemma emits_rule b b' g cs tail : guard_means ifenv members dv (tables b') g cs -> clauses_wf cs -> tail_wf tail -> (0 <= Mark tail)%Z ->
  extends b b' (raw_clauses cs tail) -> builder_ok b' -> emits_rules b b' [NRule g tail].
Proof.
  intros Hg Hcs Ht Hm Hx Hok. exists [mkConstruct cs tail]. rewrite raw_pool_single. split; [done|]. split; [done|].
  apply Forall2_cons. split; [|done]. by exists g.
Qed.

Lemma route_tail_wf o id : (0 <= o_Mark o)%Z -> tail_wf (route_tail o id) /\ (0 <= Mark (route_tail o id))%Z.
Proof.
  intros Hm. split; [|done]. unfold tail_wf, route_tail. cbn. destruct (o_Must o), (o_SkipWhileNoalive o); by split_and!.
Qed.

(** A predicate whose final instruction is edited. *)
Lemma ApplyPredicate_emits fs o b b' tail' F m rs :
  ApplyPredicate (parsers sha256) fs o b = Ok b' -> builder_ok b -> outboundName2Id b = outbounds -> proper_target o ->
  keeps_value F -> (forall id flags pr, outbounds !! o_Name o = Some id ->
    F (tail_instr flags (route_tail o id) pr) = tail_instr flags (tail' id) pr) ->
  last (rules b') = Some m -> rs = <[length (rules b') - 1 := F m]> (rules b') ->
  exists cs id, outbounds !! o_Name o = Some id /\ guard_means ifenv members dv (tables b') (GFunctions fs) cs /\ clauses_wf cs /\
    extends b (with_rules b' rs) (raw_clauses cs (tail' id)) /\ builder_ok (with_rules b' rs).
Proof.
  intros Happ Hok Ho Hp HF HT Hl ->.
  destruct (ApplyPredicate_ok ifenv members dv sha256 dv_set _ _ _ _ Happ Hok Hp) as (cs & id & Hid & Hne & Hcs & Hx & Hok').
  rewrite Ho in Hid. exists cs, id. split; [done|]. split; [done|].
  assert (Hwf : clauses_wf cs) by (by eapply clauses_wf_means). split; [done|].
  destruct (raw_clauses_tail cs (route_tail o id) (tail' id) F Hwf) as (pre & x & E1 & E2); [intros; by apply HT|].
  rewrite E1 in Hx. rewrite E2. split; [by apply extends_last|].
  destruct Hok' as (H1 & H2 & H3). split; [done|]. cbn. rewrite length_insert. split; [done|].
  apply unbound_insert; [done| |done]. rewrite last_lookup in Hl. by rewrite <-Nat.sub_1_r in Hl.
Qed.

Lemma last_insert_self (rs : list bpfMatchSet) m : last rs = Some m -> <[length rs - 1 := m]> rs = rs.
Proof. rewrite last_lookup. intros H. apply list_insert_id. rewrite <-H. f_equal. lia. Qed.

Lemma with_rules_self b : with_rules b (rules b) = b.
Proof. by destruct b. Qed.

Lemma extends_last_Some b b' cs tail : clauses_wf cs -> extends b b' (raw_clauses cs tail) -> exists m, last (rules b') = Some m.
Proof.
  intros Hcs Hx. destruct (raw_clauses_last cs tail Hcs) as (pre & c & pr & Heq & _). apply extends_length in Hx.
  rewrite Heq, length_app in Hx. cbn in Hx. destruct (last (rules b')) eqn:E; [by eexists|]. apply last_None in E. rewrite E in Hx. cbn in Hx. lia.
Qed.

Lemma applyRule_emits rule o b b' :
  rule_proper rule -> ParseOutbound (r_Outbound rule) = Ok o -> ApplyPredicate (parsers sha256) (r_AndFunctions rule) o b = Ok b' ->
  builder_ok b -> outboundName2Id b = outbounds -> exists n, rule_node rule = Some n /\ emits_rules b b' [n].
Proof.
  intros Hp Ho Happ Hok Hout. destruct (ParseOutbound_spec _ _ Ho) as [Hname Hmark].
  assert (Hpt : proper_target o) by (unfold proper_target; by rewrite Hname).
  destruct (ApplyPredicate_ok ifenv members dv sha256 dv_set _ _ _ _ Happ Hok Hpt) as (cs & id & Hid & Hne & Hcs & Hx & Hok').
  assert (Hwf : clauses_wf cs) by (by eapply clauses_wf_means). destruct (route_tail_wf o id Hmark).
  exists (NRule (GFunctions (r_AndFunctions rule)) (route_tail o id)). split.
  - unfold rule_node. rewrite Ho, <-Hout, Hid. done.
  - by apply (emits_rule b b' _ cs).
Qed.

Lemma applyRules_emits rs b b' : Forall rule_proper rs -> applyRules sha256 rs b = Ok b' -> builder_ok b -> outboundName2Id b = outbounds ->
  exists nodes, mapM rule_node rs = Some nodes /\ emits_rules b b' nodes.
Proof.
  intros Hp. revert b. induction Hp as [|rule rs Hr Hp IH]; intros b Happ Hok Hout; unfold applyRules, Apply in *; cbn [foldM] in Happ.
  { injection Happ as <-. exists []. split; [done|]. by apply emits_rules_nil. }
  destruct (ParseOutbound (r_Outbound rule)) as [o| |] eqn:Eo; [|done..]. cbn [mbind res_bind] in Happ.
  destruct (ApplyPredicate _ _ o b) as [b1| |] eqn:Ea; [|done..].
  destruct (applyRule_emits rule o b b1 Hr Eo Ea Hok Hout) as (n & Hn & He).
  destruct (IH b1 Happ) as (nodes & Hns & Hes); [by destruct He as (? & _ & ? & _)|by rewrite (emits_outbounds _ _ _ (emits_rules_emits _ _ _ He))|].
  exists (n :: nodes). split; [cbn; by rewrite Hn, Hns|]. by eapply (emits_rules_trans _ _ _ [n]).
Qed.

(** The tail of a flow effect. *)
Definition effect_tail (action flags : Z) : bpfMatchSet :=
  mkMatch zero16 0 action (shl 8 flags matchCaptureShift) OutboundDirect 0.

Lemma direct_proper : proper_target direct.
Proof. by split. Qed.

Lemma shl_no_not flags : has_flag (shl 8 flags matchCaptureShift) matchFlagNot = false.
Proof.
  unfold has_flag. apply negb_false_iff, Z.eqb_eq. apply tb_inj; [apply Z.land_nonneg; by right|done|].
  intros n. rewrite tb_land, tb_shl, tb_zero. change matchFlagNot with (Z.shiftl 1 (Z.of_nat 0)). rewrite tb_one_shl.
  unfold matchCaptureShift. nat_cases; try lia; by rewrite ?andb_false_r, ?andb_false_l.
Qed.

Lemma effect_tail_wf action flags : is_jump action = false -> tail_wf (effect_tail action flags).
Proof. intros Hj. split; [done|]. split; [apply shl_no_not|apply wrap_fits]. Qed.

Lemma applyFlowEffect_emits fs action flags b b' :
  is_jump action = false -> applyFlowEffect sha256 fs action flags b = Ok b' -> builder_ok b -> outboundName2Id b = outbounds ->
  emits_rules b b' [NRule (GFunctions fs) (effect_tail action flags)].
Proof.
  intros Hj Happ Hok Hout. unfold applyFlowEffect in Happ.
  destruct (ApplyPredicate (parsers sha256) fs direct b) as [b1| |] eqn:Ea; [|done..]. cbn [mbind res_bind] in Happ.
  unfold set_last in Happ. destruct (last (rules b1)) as [m|] eqn:El; [|done]. cbn [mbind option_bind idx res_bind] in Happ.
  injection Happ as <-.
  set (F := fun tail : bpfMatchSet => with_Flags (with_Action tail action) (Z.lor (Flags tail) (shl 8 flags matchCaptureShift))).
  destruct (ApplyPredicate_emits fs direct b b1 (fun _ => effect_tail action flags) F m (removelast (rules b1) ++ [F m]) Ea Hok Hout direct_proper)
    as (cs & id & Hid & Hg & Hwf & Hx & Hok'); [done| |done|by apply set_last_insert|].
  { intros id fl pr Hid. cbn [o_Name direct] in Hid. rewrite direct_id in Hid. injection Hid as <-. unfold F, tail_instr, with_Flags. cbn.
    by rewrite Z.lor_0_r. }
  apply (emits_rule _ _ _ cs); try done. by apply effect_tail_wf.
Qed.

(** ** Blocks *)

Definition strict : list routingSpan -> Prop := Forall (fun s => Start s < End_ s).

Lemma appendSpan_strict spans span : strict spans -> span_wf span -> strict (appendSpan spans span).
Proof.
  intros Hs Hw. unfold span_wf in Hw. unfold appendSpan, strict in *. destruct (Nat.eqb_spec (Start span) (End_ span)) as [|Hne]; [done|].
  destruct (last spans) as [l|] eqn:El.
  2: { apply Forall_cons. split; [lia|done]. }
  destruct (_ && _ && _) eqn:Ec.
  - apply andb_prop in Ec as [[Ec _]%andb_prop _]. apply Nat.eqb_eq in Ec.
    destruct (exists_last (l := spans)) as (pre & x & ->); [by destruct spans|]. rewrite last_snoc in El. injection El as ->.
    rewrite removelast_last. apply Forall_app in Hs as [Hs Hl]. apply Forall_cons in Hl as [Hl _].
    apply Forall_app. split; [done|]. apply Forall_cons. cbn. split; [lia|done].
  - apply Forall_app. split; [done|]. apply Forall_cons. split; [lia|done].
Qed.

Lemma block_appendSpan_strict b span r : block_appendSpan b span = Ok r -> span_wf span -> strict b -> strict r.
Proof.
  unfold block_appendSpan. destruct (_ =? 0); [by intros [= <-]|]. destruct (_ <? _)%Z; [done|]. intros [= <-] Hw Hs. by apply appendSpan_strict.
Qed.

Lemma block_appendBlock_strict b other r : block_appendBlock b other = Ok r -> Forall span_wf other -> strict b -> strict r.
Proof.
  unfold block_appendBlock. destruct (_ <? _)%Z; [done|]. intros [= <-] Ho. revert b. induction Ho as [|s other Hs Ho IH]; intros b Hb; [done|].
  cbn [fold_left]. by apply IH, appendSpan_strict.
Qed.

Lemma strict_wf spans : strict spans -> Forall span_wf spans.
Proof. intros H. eapply Forall_impl; [exact H|]. unfold span_wf. cbn. lia. Qed.

(** What a use of a rule set contributes. *)
Definition use_nodes (condition : list Function) (nodes : list node) : list node :=
  match condition, nodes with
  | [], _ => nodes
  | _, [] => []
  | _, _ => [NBlock (GFunctions condition) nodes]
  end.

Lemma emit_item_pos t n it : RoutingNodes.elab ifenv members dv t n it -> 0 < length (emit_item it).
Proof.
  assert (Hcs : forall t g cs, guard_means ifenv members dv t g cs -> clauses_wf cs).
  { intros t0 [fs| |] cs; cbn; [intros [Hne H]; by eapply clauses_wf_means|intros ->; apply single_clause_wf..]. }
  assert (Hpos : forall cs tail after, clauses_wf cs -> 0 < length (emit_clauses cs tail after)).
  { intros cs tail after Hwf. rewrite <-(length_raw_clauses cs tail after).
    destruct (raw_clauses_last cs tail Hwf) as (pre & c & pr & -> & _). rewrite length_app. cbn. lia. }
  destruct n as [g tail|g body], it as [cs tail'|cs items]; try done.
  - intros (Hg & _). cbn. apply Hpos. by eapply Hcs.
  - rewrite elab_block, emit_item_block, length_app. intros [Hg _]. pose proof (Hpos cs (jump_tail (length (emit_items items))) (length (emit_items items)) (Hcs _ _ _ Hg)). lia.
Qed.

Lemma denotes_empty w spans nodes : denotes w spans nodes -> strict spans -> (spans = [] <-> nodes = []).
Proof.
  intros (its & He & Hw & Hm) Hs. pose proof (denotes_length _ _ _ _ He Hm) as Hl. split.
  - intros ->. cbn in Hl. destruct He as [|n it nodes its Hn He]; [done|]. cbn in Hl. rewrite length_app in Hl.
    pose proof (emit_item_pos _ _ _ Hn). lia.
  - intros ->. inversion He; subst. cbn in Hl. destruct Hs as [|s spans Hlt Hs]; [done|]. rewrite spanExecutionLen_flatten, flatten_cons, length_app, length_span_steps in Hl.
    unfold span_len in Hl. lia.
Qed.

(** A block of nodes: what it denotes, with no empty span. *)
Definition block_denotes (w : world) (spans : list routingSpan) (nodes : list node) : Prop := denotes w spans nodes /\ strict spans.

Lemma block_denotes_le w w' spans nodes : w_le w w' -> block_denotes w spans nodes -> block_denotes w' spans nodes.
Proof. intros Hle [H Hs]. split; [by eapply denotes_le|done]. Qed.

Lemma header_code w b b' cs n : represents b w -> extends b b' (raw_clauses cs (jump_tail n)) -> builder_ok b' -> clauses_wf cs -> 0 < n ->
  let w' := mkWorld (tables b') (w_pool w ++ [mkConstruct cs (jump_tail n)]) in
  w_le w w' /\ represents b' w' /\
  mapM (fun i => emit_pool (w_pool w') !! i) (seq (length (rules b)) (length (rules b') - length (rules b))) =
    Some (emit_clauses cs (jump_tail n) n).
Proof.
  intros Hr Hx Hok Hwf Hn. set (k := mkConstruct cs (jump_tail n)). assert (Hk : k_ok k) by (by split; [split|cbn; lia]).
  assert (Hafter : k_after k = n) by (unfold k_after, k, jump_tail; cbn; lia).
  assert (Hx' : extends b b' (raw_pool [k])) by (by rewrite raw_pool_single). cbv zeta.
  destruct (represents_extends _ _ _ [k] Hr Hx' Hok ltac:(by apply Forall_cons)) as [Hle Hr']. split; [done|]. split; [done|].
  cbn [w_pool]. apply extends_length in Hx. change (raw_clauses cs (jump_tail n)) with (raw k) in Hx. rewrite length_raw in Hx.
  rewrite emit_pool_app, emit_pool_single, (represents_length _ _ Hr).
  replace (length (rules b') - _) with (length (emit k)) by (rewrite <-(represents_length _ _ Hr); lia).
  pose proof (lookup_seq_app (emit_pool (w_pool w)) (emit k) []) as H. rewrite app_nil_r in H. rewrite H. unfold emit. by rewrite Hafter.
Qed.

Context {Regexp : Type} (ahocorasick_IsValidChar : Z -> bool) (regexp_Compile : bytes -> option Regexp).

(** The entry of a conditional block. *)
Definition conditional (n : nat) (m : bpfMatchSet) : bpfMatchSet :=
  with_Mark (with_Action m MatchActionConditionalJump) (wrap 32 (wrap 32 (Z.of_nat n) + 1)).

Lemma conditional_header condition n b b1 mt w :
  ApplyPredicate (parsers sha256) condition direct b = Ok b1 -> rules b1 !! (length (rules b1) - 1) = Some mt ->
  0 < n <= MaxMatchSetLen -> represents b w -> outboundName2Id b = outbounds ->
  let b2 := with_rules b1 (<[length (rules b1) - 1 := conditional n mt]> (rules b1)) in
  exists cs w', guard_means ifenv members dv (w_tables w') (GFunctions condition) cs /\ w_le w w' /\ represents b2 w' /\
    extends b b2 (raw_clauses cs (jump_tail n)) /\ length (rules b) < length (rules b2) /\
    mapM (fun i => emit_pool (w_pool w') !! i) (seq (length (rules b)) (length (rules b2) - length (rules b))) =
      Some (emit_clauses cs (jump_tail n) n).
Proof.
  intros Ea Em Hn Hr Hout b2. assert (MaxMatchSetLen = 1024) as Hmax by done.
  destruct (ApplyPredicate_emits condition direct b b1 (fun _ => jump_tail n) (conditional n) mt (<[length (rules b1) - 1 := conditional n mt]> (rules b1))
    Ea (proj1 Hr) Hout direct_proper) as (cs & id & Hid & Hg & Hwf & Hx & Hok'); [done| |rewrite last_lookup; rewrite <-Em; f_equal; lia|done|].
  { intros id fl pr Hid. cbn [o_Name direct] in Hid. rewrite direct_id in Hid. injection Hid as <-. unfold conditional, tail_instr, with_Mark, jump_tail.
    cbn [Value Type_ Action Flags Outbound_ Mark with_Action route_tail]. f_equal.
    rewrite (wrap_id 32 (Z.of_nat n)), wrap_id by (unfold fits; lia). lia. }
  destruct (header_code w b b2 cs n Hr Hx Hok' Hwf ltac:(lia)) as (Hle & Hr' & Hcode).
  exists cs, (mkWorld (tables b2) (w_pool w ++ [mkConstruct cs (jump_tail n)])). split_and!; try done.
  apply extends_length in Hx. destruct (raw_clauses_last cs (jump_tail n) Hwf) as (? & ? & ? & Hl & _). rewrite Hl, length_app in Hx.
  cbn [length] in Hx. fold b2 in Hx. lia.
Qed.

(** Its span followed by the body. *)
Lemma header_block w sp body condition cs nodes blk blk' :
  Start sp < End_ sp -> block_appendSpan [] sp = Ok blk -> block_appendBlock blk body = Ok blk' ->
  guard_means ifenv members dv (w_tables w) (GFunctions condition) cs -> block_denotes w body nodes ->
  mapM (fun i => emit_pool (w_pool w) !! i) (seq (Start sp) (span_len sp)) = Some (emit_clauses cs (jump_tail (spanExecutionLen body)) (spanExecutionLen body)) ->
  block_denotes w blk' [NBlock (GFunctions condition) nodes].
Proof.
  intros Hlt Es Eb Hg [(items & He & Hw & Hm) Hs] Hh. pose proof (denotes_length _ _ _ _ He Hm) as Hlen.
  assert (Hsp : span_wf sp) by (unfold span_wf; lia).
  assert (Hblk : strict blk /\ code_of blk = code_of [sp]).
  { split; [eapply block_appendSpan_strict; [exact Es|done|constructor]|]. unfold block_appendSpan in Es.
    rewrite (proj2 (Nat.eqb_neq (span_len sp) 0)) in Es by (unfold span_len; lia).
    destruct (_ <? _)%Z; [done|]. injection Es as <-. by destruct (appendSpan_code [] sp ltac:(done) Hsp) as [-> _]. }
  destruct Hblk as [Hst Hcd]. split; [|eapply block_appendBlock_strict; [done|by apply strict_wf|done]].
  unfold block_appendBlock in Eb. destruct (_ <? _)%Z; [done|]. injection Eb as <-.
  destruct (fold_appendSpan_code body blk (strict_wf _ Hst) Hw) as [Hcode2 Hw2].
  exists [Block cs items]. split; [|split; [done|]].
  - apply Forall2_cons. split; [|done]. apply elab_block. by split.
  - rewrite Hcode2, Hcd, code_of_single. cbn [emit_items]. rewrite app_nil_r, emit_item_block, Hlen. by apply mapM_app_.
Qed.

Lemma conditionalBlock_denotes w body condition b block b' nodes :
  conditionalBlock sha256 ahocorasick_IsValidChar regexp_Compile body condition b = Ok (block, b') ->
  represents b w -> outboundName2Id b = outbounds -> block_denotes w body nodes ->
  exists w' new, w_le w w' /\ represents b' w' /\ block_denotes w' block (use_nodes condition nodes) /\ extends b b' new.
Proof.
  intros Hc Hr Hout [Hb Hs]. pose proof (denotes_empty _ _ _ Hb Hs) as Hemp. unfold conditionalBlock in Hc.
  destruct condition as [|f condition]; [injection Hc as <- <-; exists w, []; split_and!; auto using w_le_refl, extends_refl; by split|].
  cbn [is_empty] in Hc. destruct body as [|first body].
  { destruct (validateEmptyRoutingUse _ _ _ _); [|done..]. injection Hc as <- <-. exists w, [].
    rewrite (proj1 Hemp eq_refl) in *. split_and!; auto using w_le_refl, extends_refl. by split. }
  destruct (ApplyPredicate (parsers sha256) (f :: condition) direct b) as [b1| |] eqn:Ea; [|done..]. cbn [mbind res_bind] in Hc.
  set (n := spanExecutionLen (first :: body)) in Hc. unfold setConditionalJump in Hc.
  destruct (rules b1 !! (length (rules b1) - 1)) as [mt|] eqn:Em; [|done]. cbn [mbind option_bind idx res_bind] in Hc.
  fold (conditional n mt) in Hc. destruct (block_appendSpan [] _) as [blk| |] eqn:Es; [|done..]. cbn [mbind res_bind] in Hc.
  destruct (block_appendBlock blk _) as [blk'| |] eqn:Eb; [|done..]. injection Hc as <- <-.
  assert (Hn : 0 < n <= MaxMatchSetLen).
  { split.
    - unfold n. rewrite spanExecutionLen_flatten, flatten_cons, length_app, length_span_steps. apply Forall_cons in Hs as [Hs _]. unfold span_len. lia.
    - unfold block_appendBlock in Eb. fold n in Eb.
      destruct (Z.ltb_spec (Z.of_nat MaxMatchSetLen - Z.of_nat n) (Z.of_nat (spanExecutionLen blk))); [done|]. lia. }
  destruct (conditional_header _ n _ _ _ _ Ea Em Hn Hr Hout) as (cs & w' & Hg & Hle & Hr' & Hx & Hlt & Hcode).
  exists w', (raw_clauses cs (jump_tail n)). split; [done|]. split; [done|]. split; [|done].
  assert (nodes <> []) by (intros Hnil; by apply Hemp in Hnil). destruct nodes as [|nd nodes]; [done|]. cbn [use_nodes].
  eapply header_block; [|exact Es|exact Eb|exact Hg| |].
  - exact Hlt.
  - eapply block_denotes_le; [done|]. by split.
  - exact Hcode.
Qed.

(** ** Fallbacks, the end of the flow section, bypass marks *)

Definition always_clause : clause := mkClause [(MatchType_Fallback, zero16)] false.

Lemma raw_always tail : raw_clauses [always_clause] tail = [tail_instr 0 tail (MatchType_Fallback, zero16)].
Proof. done. Qed.

Lemma append_always b tail : builder_ok b -> tail_wf tail -> (0 <= Mark tail)%Z ->
  emits_rules b (with_rules b (rules b ++ [tail_instr 0 tail (MatchType_Fallback, zero16)])) [NRule GAlways tail].
Proof.
  intros Hok Ht Hm. apply (emits_rule _ _ _ [always_clause]); try done; [apply single_clause_wf|apply extends_rules|by apply builder_ok_rules].
Qed.

Lemma parseFallback_tail raw b m : f_Name raw <> OutboundIndex_String OutboundLogicalOr -> f_Name raw <> OutboundIndex_String OutboundLogicalAnd ->
  parseFallback raw b = Ok m ->
  exists o id, ParseOutbound raw = Ok o /\ outboundName2Id b !! o_Name o = Some id /\ (0 <= o_Mark o)%Z /\
    m = tail_instr 0 (route_tail o id) (MatchType_Fallback, zero16).
Proof.
  intros Hor Hand. unfold parseFallback. destruct (ParseOutbound raw) as [o| |] eqn:Eo; [|done..]. cbn [mbind res_bind]. intros Hm.
  destruct (ParseOutbound_spec _ _ Eo) as [Hname Hmark]. destruct (matchSet_edge _ _ _ _ _ Hm) as (e & He & Hv).
  apply edge_of_proper in He as (id & Hid & ->); [|unfold proper_target; by rewrite Hname]. exists o, id. split_and!; try done.
  assert (Value m = zero16) as Hz by (unfold matchSet in Hm; repeat case_match; by simplify_eq). specialize (Hv zero16).
  destruct m. cbn in *. by rewrite Hz in *.
Qed.

Lemma fallback_tail_inj o id o' id' pr : tail_instr 0 (route_tail o id) pr = tail_instr 0 (route_tail o' id') pr -> route_tail o id = route_tail o' id'.
Proof.
  intros H. unfold tail_instr, route_tail in *. cbn [Flags Outbound_ Mark Action] in *. injection H as Hf Hi Hm.
  rewrite !Z.lor_0_l in Hf. by rewrite Hf, Hi, Hm.
Qed.

(** [mark_bypass] flags the routes it has just emitted. *)
Definition bypassed (tail : bpfMatchSet) : bpfMatchSet :=
  if (Action tail =? MatchActionRoute)%Z then with_Flags tail (Z.lor (Flags tail) matchFlagBypass) else tail.
Definition bypass_node (n : node) : node := match n with NRule g tail => NRule g (bypassed tail) | _ => n end.

Lemma bypassed_wf tail : tail_wf tail -> tail_wf (bypassed tail).
Proof.
  intros (Hj & Hn & Hf). unfold bypassed. destruct (_ =? _)%Z; [|done]. split; [done|]. cbn. split.
  - unfold has_flag in *. rewrite Z.land_lor_distr_l. apply negb_false_iff, Z.eqb_eq in Hn. by rewrite Hn.
  - apply Z.lor_nonneg. by split.
Qed.

Lemma mark_bypass_emits b b' nodes : emits_rules b b' nodes ->
  emits_rules b (with_rules b' (mark_bypass (length (rules b)) (rules b'))) (map bypass_node nodes).
Proof.
  intros (ks & Hx & Hok & Hks). exists (map (fun k => mkConstruct (k_clauses k) (bypassed (k_tail k))) ks).
  set (F := fun r : bpfMatchSet => if (Action r =? MatchActionRoute)%Z then with_Flags r (Z.lor (Flags r) matchFlagBypass) else r).
  assert (Hraw : raw_pool (map (fun k => mkConstruct (k_clauses k) (bypassed (k_tail k))) ks) = map F (raw_pool ks)).
  { clear Hx Hok. unfold raw_pool. induction Hks as [|k n ks nodes (g & _ & _ & Hcs & _) Hks IH]; [done|]. cbn [map concat]. rewrite map_app, IH. f_equal.
    symmetry. apply raw_clauses_map; [done| |].
    - intros m Hm. unfold F. by destruct Hm as [-> | ->].
    - intros flags pr. unfold F, bypassed, tail_instr. cbn. destruct (_ =? _)%Z; [|done]. unfold with_Flags. cbn. by rewrite Z.lor_assoc. }
  rewrite Hraw. split; [apply extends_map; [|done]|split].
  - intros m v. unfold F. cbn. by destruct (_ =? _)%Z.
  - destruct Hok as (H1 & H2 & H3). split; [done|]. cbn. unfold mark_bypass. rewrite length_app, length_map, <-length_app, take_drop. split; [done|].
    apply unbound_map; [|done]. intros r v. cbn. by destruct (_ =? _)%Z.
  - cbn. clear Hx Hok Hraw. induction Hks as [|k n ks nodes (g & -> & Hg & Hcs & Ht & Hm) Hks IH]; cbn; constructor; [|done].
    exists g. split; [done|]. split; [done|]. split; [done|]. cbn. split; [by apply bypassed_wf|]. unfold bypassed. by destruct (_ =? _)%Z.
Qed.

(** ** Lists of flow effects, HTTP captures *)

Definition effect_node (action flags : Z) (fs : list Function) : node := NRule (GFunctions fs) (effect_tail action flags).

Lemma flow_effects_emit {A} (filter_of : A -> list Function) (action_of : A -> Z) flags xs b b' :
  (forall x, x ∈ xs -> is_jump (action_of x) = false) ->
  foldM (fun b x => applyFlowEffect sha256 (filter_of x) (action_of x) flags b) b xs = Ok b' ->
  builder_ok b -> outboundName2Id b = outbounds ->
  emits_rules b b' (map (fun x => effect_node (action_of x) flags (filter_of x)) xs).
Proof.
  intros Hj. revert b. induction xs as [|x xs IH]; intros b Hf Hok Hout; cbn [foldM] in Hf.
  { injection Hf as <-. by apply emits_rules_nil. }
  destruct (applyFlowEffect sha256 (filter_of x) (action_of x) flags b) as [b1| |] eqn:Ea; [|done..].
  pose proof (applyFlowEffect_emits _ _ _ _ _ (Hj x ltac:(by left)) Ea Hok Hout) as H1.
  apply (emits_rules_trans _ _ _ [_] _ H1). apply IH; [intros y Hy; apply Hj; by right|done|by destruct H1 as (? & _ & ? & _)|].
  by rewrite (emits_outbounds _ _ _ (emits_rules_emits _ _ _ H1)).
Qed.

Definition http_instr : bpfMatchSet := newMatchSet MatchType_HTTPClient 0 0.
Definition http_clause : clause := mkClause [(MatchType_HTTPClient, zero16)] false.

Lemma http_capture_emits preds flags b b2 mt :
  let b1 := with_rules b (rules b ++ [http_instr]) in
  let n := length (rules b2) - length (rules b) - 1 in
  let b3 := with_rules b2 (<[length (rules b) := conditional n mt]> (rules b2)) in
  foldM (fun b predicate => applyFlowEffect sha256 predicate MatchActionCapture flags b) b1 preds = Ok b2 ->
  rules b2 !! length (rules b) = Some mt -> builder_ok b -> outboundName2Id b = outbounds ->
  exists ks, extends b b3 (raw_pool ks) /\ builder_ok b3 /\ Forall k_ok ks /\
    (n <= MaxMatchSetLen -> builds (tables b3) ks [NBlock GHTTPClient (map (effect_node MatchActionCapture flags) preds)]).
Proof.
  intros b1 n b3 Hf Hmt Hok Hout.
  pose proof (flow_effects_emit (fun x => x) (fun _ => MatchActionCapture) flags preds b1 b2 ltac:(done) Hf (builder_ok_rules _ _ Hok) Hout) as He.
  apply emits_rules_emits in He as (ks & Hx & Hok2 & Hks & Hb).
  assert (Hx2 : extends b b2 ([http_instr] ++ raw_pool ks)) by (eapply extends_trans; [apply extends_rules|done]).
  set (k := mkConstruct [http_clause] (mkMatch zero16 0 MatchActionConditionalJump 0 0 (wrap 32 (wrap 32 (Z.of_nat n) + 1)))).
  exists (k :: ks). split_and!.
  - change (raw_pool (k :: ks)) with (<[0 := conditional n http_instr]> ([http_instr] ++ raw_pool ks)).
    unfold b3. rewrite <-(Nat.add_0_r (length (rules b))) in Hmt |- *. by apply extends_insert.
  - destruct Hok2 as (H1 & H2 & H3). split; [done|]. cbn. rewrite length_insert. split; [done|]. by apply unbound_insert.
  - apply Forall_cons. split; [|done]. split; [split; [apply single_clause_wf|done]|apply wrap_fits].
  - intros Hn. destruct Hb as (its & Hel & Hem). exists [Block [http_clause] its]. split.
    + apply Forall2_cons. split; [|done]. apply elab_block. by split.
    + assert (Hlen : length (emit_items its) = n).
      { rewrite <-Hem, <-length_raw_pool. apply extends_length in Hx2. rewrite length_app in Hx2. cbn [length] in Hx2. unfold n. lia. }
      cbn [emit_items]. rewrite app_nil_r, emit_item_block, Hlen, <-Hem. change (emit_pool (k :: ks)) with (emit k ++ emit_pool ks). f_equal.
      assert (MaxMatchSetLen = 1024) as Hmax by done. unfold emit, k, jump_tail, k_after. cbn [k_clauses k_tail Action Mark].
      rewrite (wrap_id 32 (Z.of_nat n)), wrap_id by (unfold fits; lia). change (MatchActionConditionalJump =? MatchActionConditionalJump)%Z with true.
      cbv iota. replace (Z.of_nat n + 1)%Z with (Z.of_nat (S n)) by lia. by replace (Z.to_nat (Z.of_nat (S n) - 1)) with n by lia.
Qed.
End Pool.
