(* ===== verification/RoutingKeys.v ===== *)
(** * Cache keys of conditional rule sets

    [routingSetKey] prints a condition; printing is injective on the conditions the
    grammar produces, up to what no meaning depends on. A cached block is therefore
    never used for another condition. *)

From Stdlib Require Import Ascii String.
From S2P Require Import Prelude Netip ConfigSyntax RoutingInstr RoutingRules RoutingBuilder RoutingConfig RoutingCompile.

(** What the meaning of a function depends on. *)
Definition skeleton (f : Function) : string * bool * list (string * string) :=
  (f_Name f, f_Not f, map (fun p => (p_Key p, p_Val p)) (f_Params f)).

(** No parameter holds functions or annotations; keys are absent or bare words. *)
Definition param_plain (p : Param) : Prop :=
  p_AndFunctions p = None /\ p_Annotation p = [] /\ (p_Key p = ""%string \/ IsBareLiteral (p_Key p) = true).
Definition plain (condition : list Function) : Prop := Forall (fun f => Forall param_plain (f_Params f)) condition.

Local Abbreviation la := list_ascii_of_string.

Lemma la_app s t : la (s +:+ t) = la s ++ la t.
Proof. induction s as [|c s IH]; [done|]. change (c :: la (s +:+ t) = c :: (la s ++ la t)). by rewrite IH. Qed.

Lemma la_inj s t : la s = la t -> s = t.
Proof. intros H. rewrite <-(string_of_list_ascii_of_string s), <-(string_of_list_ascii_of_string t). by rewrite H. Qed.

Lemma la_quote v : la (QuoteLiteral v) = dquote :: escape (la v) ++ [dquote].
Proof. unfold QuoteLiteral. by rewrite list_ascii_of_string_of_list_ascii. Qed.

(** The text before the first occurrence of a character. *)
Lemma split_unique (c : ascii) pre pre' rest rest' :
  c ∉ pre -> c ∉ pre' -> pre ++ c :: rest = pre' ++ c :: rest' -> pre = pre' /\ rest = rest'.
Proof.
  revert pre'. induction pre as [|x pre IH]; intros [|y pre'] Hp Hp' H; cbn in H.
  - by injection H as ->.
  - injection H as <- _. set_solver.
  - injection H as -> _. set_solver.
  - injection H as -> H. apply IH in H as [-> ->]; [done|set_solver..].
Qed.

(** ** Literals *)

Lemma escape_inj l l' rest rest' : escape l ++ dquote :: rest = escape l' ++ dquote :: rest' -> l = l' /\ rest = rest'.
Proof.
  assert (Hq : Ascii.eqb dquote dquote = true) by done.
  revert l'. induction l as [|c l IH]; intros [|c' l'] H; cbn [escape] in H.
  - by injection H as ->.
  - destruct (Ascii.eqb c' dquote) eqn:E; cbn [orb] in H; [by injection H|].
    destruct (Ascii.eqb c' backslash); cbn [app] in H; [by injection H|]. injection H as <- _. by rewrite Hq in E.
  - destruct (Ascii.eqb c dquote) eqn:E; cbn [orb] in H; [by injection H|].
    destruct (Ascii.eqb c backslash); cbn [app] in H; [by injection H|]. injection H as -> _. by rewrite Hq in E.
  - destruct (Ascii.eqb c dquote || Ascii.eqb c backslash) eqn:E, (Ascii.eqb c' dquote || Ascii.eqb c' backslash) eqn:E';
      cbn [app] in H; injection H.
    + intros H1 ->. apply IH in H1 as [-> ->]. done.
    + intros _ <-. cbn in E'. done.
    + intros _ ->. cbn in E. done.
    + intros H1 ->. apply IH in H1 as [-> ->]. done.
Qed.

Lemma quote_inj v v' rest rest' : la (QuoteLiteral v) ++ rest = la (QuoteLiteral v') ++ rest' -> v = v' /\ rest = rest'.
Proof.
  rewrite !la_quote, <-!app_comm_cons, <-!app_assoc. cbn [app]. intros [= H]. apply escape_inj in H as [H ->]. split; [by apply la_inj|done].
Qed.

Lemma bare_chars s c : IsBareLiteral s = true -> c ∈ la s -> existsb (Ascii.eqb c) bare_rest = true.
Proof.
  unfold IsBareLiteral. destruct (la s) as [|x l]; [done|]. intros [Hx Hl]%andb_prop [->|Hc]%elem_of_cons.
  - unfold bare_rest. rewrite existsb_app. by rewrite Hx.
  - rewrite forallb_forall in Hl. by apply Hl, list_elem_of_In.
Qed.

Lemma bare_not s c : IsBareLiteral s = true -> existsb (Ascii.eqb c) bare_rest = false -> c ∉ la s.
Proof. intros Hb Hc Hin. by rewrite (bare_chars s c Hb Hin) in Hc. Qed.

Lemma bare_first s : IsBareLiteral s = true -> exists c l, la s = c :: l /\ existsb (Ascii.eqb c) bare_head = true.
Proof. unfold IsBareLiteral. destruct (la s) as [|c l]; [done|]. intros [H _]%andb_prop. eauto. Qed.

(** ** Parameters *)

Definition key_text (p : Param) : list ascii := if String.eqb (p_Key p) "" then [] else la (p_Key p) ++ [":"%char].

Lemma la_param p : param_plain p -> la (Param_String true true p) = key_text p ++ la (QuoteLiteral (p_Val p)).
Proof.
  destruct p as [key val fns q vl ann]. intros (Hf & Ha & _). cbn in Hf, Ha. subst fns ann. unfold key_text. cbn [Param_String p_Key p_Val is_empty].
  destruct (String.eqb key ""); [done|]. rewrite !la_app. by rewrite <-app_assoc.
Qed.

Lemma key_text_quote p : param_plain p -> dquote ∉ key_text p.
Proof.
  intros (_ & _ & Hk). unfold key_text. destruct (String.eqb_spec (p_Key p) ""); [set_solver|]. destruct Hk as [Hk|Hk]; [done|].
  rewrite not_elem_of_app. split; [by apply bare_not|]. by intros ?%list_elem_of_singleton.
Qed.

Lemma key_text_inj p p' : key_text p = key_text p' -> p_Key p = p_Key p'.
Proof.
  unfold key_text. destruct (String.eqb_spec (p_Key p) "") as [->|Hn], (String.eqb_spec (p_Key p') "") as [->|Hn']; try done.
  - intros H. by destruct (la (p_Key p')).
  - intros H. by destruct (la (p_Key p)).
  - intros [H _]%app_inj_tail. by apply la_inj.
Qed.

Lemma param_inj p p' rest rest' : param_plain p -> param_plain p' ->
  la (Param_String true true p) ++ rest = la (Param_String true true p') ++ rest' ->
  (p_Key p, p_Val p) = (p_Key p', p_Val p') /\ rest = rest'.
Proof.
  intros Hp Hp'. rewrite !la_param, !la_quote by done. rewrite <-!app_assoc, <-!app_comm_cons. intros H.
  apply split_unique in H as [Hk H]; [|by apply key_text_quote..]. apply key_text_inj in Hk as ->.
  rewrite <-!app_assoc in H. cbn [app] in H. apply escape_inj in H as [->%la_inj ->]. done.
Qed.

(** A parameter list up to its closing parenthesis. *)
Fixpoint params_text (ps : list Param) : list ascii :=
  match ps with
  | [] => [")"%char]
  | [p] => la (Param_String true true p) ++ [")"%char]
  | p :: ps => la (Param_String true true p) ++ ","%char :: params_text ps
  end.

Lemma la_params ps : la (String.concat "," (map (Param_String true true) ps)) ++ [")"%char] = params_text ps.
Proof.
  induction ps as [|p [|p' ps] IH]; [done..|]. cbn [map] in *.
  change (String.concat "," (Param_String true true p :: Param_String true true p' :: map (Param_String true true) ps)) with
    (Param_String true true p +:+ "," +:+ String.concat "," (Param_String true true p' :: map (Param_String true true) ps)).
  rewrite !la_app, <-!app_assoc, IH. done.
Qed.

(** No parameter starts with the closing parenthesis. *)
Lemma param_not_close p rest : param_plain p -> forall l, la (Param_String true true p) ++ rest <> ")"%char :: l.
Proof.
  intros Hp l. rewrite la_param, la_quote by done. pose proof (proj2 (proj2 Hp)) as Hk. unfold key_text.
  destruct (String.eqb_spec (p_Key p) "") as [|Hn]; [done|]. destruct Hk as [|Hk]; [done|].
  destruct (bare_first _ Hk) as (c & l' & -> & Hc). intros [= -> _]. done.
Qed.

Lemma params_inj ps ps' rest rest' : Forall param_plain ps -> Forall param_plain ps' ->
  params_text ps ++ rest = params_text ps' ++ rest' ->
  map (fun p => (p_Key p, p_Val p)) ps = map (fun p => (p_Key p, p_Val p)) ps' /\ rest = rest'.
Proof.
  intros Hps. revert ps'. induction Hps as [|p ps Hp Hps IH]; intros ps' Hps' H.
  - destruct Hps' as [|p' ps' Hp' Hps']; [by injection H as ->|]. exfalso. cbn [params_text] in H. symmetry in H.
    destruct ps'; rewrite <-app_assoc in H; by apply param_not_close in H.
  - destruct Hps' as [|p' ps' Hp' Hps'].
    { exfalso. cbn [params_text] in H. destruct ps; rewrite <-app_assoc in H; by apply param_not_close in H. }
    destruct ps as [|q ps], ps' as [|q' ps']; cbn [params_text] in H; rewrite <-!app_assoc in H;
      apply param_inj in H as [Hkv H]; try done.
    + injection H as ->. cbn. by rewrite Hkv.
    + destruct (IH (q' :: ps') Hps') as [Hm ->]; [by injection H|]. split; [|done]. cbn in *. by rewrite Hkv, Hm.
Qed.

(** ** Functions and conditions *)

Lemma la_function f : la (Function_String true true false f) =
  (if f_Not f then ["!"%char] else []) ++ la (formatFunctionName (f_Name f) (f_Quoted f)) ++ "("%char :: params_text (f_Params f).
Proof.
  destruct f as [name not_ params quoted]. cbn [Function_String andb f_Not f_Name f_Quoted f_Params]. rewrite !la_app, <-la_params.
  by destruct not_.
Qed.

Lemma name_first name quoted : exists c l, la (formatFunctionName name quoted) = c :: l /\ c <> "!"%char.
Proof.
  unfold formatFunctionName. destruct quoted; cbn [orb]; [rewrite la_quote; by eexists _, _|].
  destruct (IsBareLiteral name) eqn:E; cbn [negb]; [|rewrite la_quote; by eexists _, _].
  destruct (bare_first _ E) as (c & l & H & Hc). exists c, l. split; [done|]. intros ->. done.
Qed.

Lemma name_inj name quoted name' quoted' rest rest' :
  la (formatFunctionName name quoted) ++ "("%char :: rest = la (formatFunctionName name' quoted') ++ "("%char :: rest' ->
  name = name' /\ rest = rest'.
Proof.
  unfold formatFunctionName. set (q := quoted || negb (IsBareLiteral name)). set (q' := quoted' || negb (IsBareLiteral name')).
  assert (Hb : q = false -> IsBareLiteral name = true) by (unfold q; intros [_ H]%orb_false_iff; by apply negb_false_iff).
  assert (Hb' : q' = false -> IsBareLiteral name' = true) by (unfold q'; intros [_ H]%orb_false_iff; by apply negb_false_iff).
  destruct q, q'; intros H.
  - apply quote_inj in H as [-> H]. by injection H as ->.
  - exfalso. destruct (bare_first _ (Hb' eq_refl)) as (c & l & E & Hc). rewrite la_quote, E in H. injection H as <- _. done.
  - exfalso. destruct (bare_first _ (Hb eq_refl)) as (c & l & E & Hc). rewrite la_quote, E in H. injection H as -> _. done.
  - apply split_unique in H as [->%la_inj ->]; [done|by apply bare_not; auto..].
Qed.

Lemma function_inj f f' rest rest' : Forall param_plain (f_Params f) -> Forall param_plain (f_Params f') ->
  la (Function_String true true false f) ++ rest = la (Function_String true true false f') ++ rest' -> skeleton f = skeleton f' /\ rest = rest'.
Proof.
  intros Hp Hp'. rewrite !la_function, <-!app_assoc. intros H.
  assert (f_Not f = f_Not f' /\ la (formatFunctionName (f_Name f) (f_Quoted f)) ++ ("("%char :: params_text (f_Params f)) ++ rest =
    la (formatFunctionName (f_Name f') (f_Quoted f')) ++ ("("%char :: params_text (f_Params f')) ++ rest') as [Hn H'].
  { destruct (name_first (f_Name f) (f_Quoted f)) as (c & l & E & Hc), (name_first (f_Name f') (f_Quoted f')) as (c' & l' & E' & Hc').
    destruct (f_Not f), (f_Not f'); cbn [app] in H; rewrite ?E, ?E' in *; cbn [app] in *; split; try done; injection H; try done; congruence. }
  rewrite <-!app_comm_cons in H'. apply name_inj in H' as [Hname H']. apply params_inj in H' as [Hps ->]; [|done..].
  split; [|done]. unfold skeleton. by rewrite Hname, Hn, Hps.
Qed.

Lemma la_concat_nil l : la (String.concat "" l) = concat (map la l).
Proof.
  induction l as [|x [|y l] IH]; [done|cbn; by rewrite app_nil_r|].
  change (String.concat "" (x :: y :: l)) with (x +:+ "" +:+ String.concat "" (y :: l)). rewrite !la_app, IH. done.
Qed.

Lemma condition_inj cond cond' : plain cond -> plain cond' ->
  concat (map la (map (fun f => Function_String true true false f +:+ "&&") cond)) =
  concat (map la (map (fun f => Function_String true true false f +:+ "&&") cond')) ->
  map skeleton cond = map skeleton cond'.
Proof.
  intros Hp. revert cond'. induction Hp as [|f cond Hf Hp IH]; intros [|f' cond'] Hp' H; try done; cbn [map concat] in H.
  - exfalso. rewrite la_app in H. destruct (la (Function_String true true false f')); done.
  - exfalso. rewrite la_app in H. destruct (la (Function_String true true false f)); done.
  - apply Forall_cons in Hp' as [Hf' Hp']. rewrite !la_app, <-!app_assoc in H. apply function_inj in H as [Hs H]; [|done..].
    cbn [map]. rewrite Hs, (IH cond'); [done|done|]. by injection H.
Qed.

Lemma set_key_inj name cond name' cond' : plain cond -> plain cond' -> routingSetKey name cond = routingSetKey name' cond' ->
  name = name' /\ map skeleton cond = map skeleton cond'.
Proof.
  intros Hp Hp' H. unfold routingSetKey in H. injection H as -> H. split; [done|]. apply condition_inj; [done..|].
  rewrite <-!la_concat_nil. by rewrite H.
Qed.

(** A cached rule set is reused only for the condition it was compiled for: equal
    keys mean the same rule set and conditions with the same functions, negations,
    parameter keys and values, however names were quoted. *)
Theorem routingSetKey_injective name cond name' cond' :
  plain cond -> plain cond' -> routingSetKey name cond = routingSetKey name' cond' ->
  name = name' /\ map skeleton cond = map skeleton cond'.
Proof. apply set_key_inj. Qed.

Lemma routingSetKey_injective_witness :
  let f q := mkFunction "domain" true [mkParam "suffix" "a\b" None q [] []; mkParam "" "x,y" None q [] []] false in
  routingSetKey "cn" [f true] = routingSetKey "cn" [f false] /\ map skeleton [f true] = map skeleton [f false].
Proof.
  intros f. split; [reflexivity|]. apply (routingSetKey_injective "cn" [f true] "cn" [f false]); [..|reflexivity].
  all: unfold f, plain, param_plain; rewrite !Forall_cons; cbn [f_Params]; rewrite !Forall_cons; cbn.
  all: split_and!; auto.
Defined.
