(* ===== verification/RoutingResolve.v ===== *)
(** * Correctness of rule-set resolution

    Resolving a block of statements yields spans that denote the nodes the block
    expands to. Triples state what a computation of the compiler establishes about the
    pool; worlds only grow, so what was denoted stays denoted. The caches are sound
    because their keys determine the condition a block was compiled for. *)

From stdpp Require Import sorting.
From S2P Require Import Prelude Netip ConfigSyntax RoutingInstr RoutingCursor RoutingEval RoutingEquiv RoutingSem RoutingEmit RoutingRules RoutingBuilder RoutingConfig RoutingConfigCorrect RoutingCompile RoutingDenote RoutingNodes RoutingPool RoutingKeys.

Lemma groups_skeleton ps ps' : map (fun p => (p_Key p, p_Val p)) ps = map (fun p => (p_Key p, p_Val p)) ps' ->
  groupParamValuesByKey ps = groupParamValuesByKey ps'.
Proof.
  unfold groupParamValuesByKey. generalize (@nil (string * list string)). revert ps'.
  induction ps as [|p ps IH]; intros [|p' ps'] gs H; try done. cbn in H |- *. injection H as Hk Hv H. rewrite Hk, Hv. by apply IH.
Qed.

Section Resolve.
Context (ifenv : string -> Z) (members : string -> list bytes) (dv : string -> list string -> predicateResult).
Context (sha256 : bytes -> bytes).
Context (dv_set : forall key vs vs', (forall v, v ∈ vs <-> v ∈ vs') -> dv key vs = dv key vs').
Context (outbounds : gmap string Z) (direct_id : outbounds !! "direct"%string = Some OutboundDirect).
Context {Regexp : Type} (ahocorasick_IsValidChar : Z -> bool) (regexp_Compile : bytes -> option Regexp).
Context (sets : gmap string (list RoutingStatement)).

Local Abbreviation denotes := (denotes ifenv members dv).
Local Abbreviation block_denotes := (block_denotes ifenv members dv).
Local Abbreviation represents := (represents ifenv).
Local Abbreviation extends := (extends ifenv).

(** Equal skeletons are interchangeable in a use. *)
Lemma guard_means_skeleton t cond cond' cs : map skeleton cond = map skeleton cond' ->
  guard_means ifenv members dv t (GFunctions cond) cs -> guard_means ifenv members dv t (GFunctions cond') cs.
Proof.
  intros Hs [Hne H]. split; [by destruct cond, cond'|]. clear Hne. revert cond' Hs.
  induction H as [|f c cond cs (Hn & Hp & Hv) H IH]; intros [|f' cond'] Hs; try done. cbn in Hs. injection Hs as Hname Hnot Hps Hs.
  constructor; [|by apply IH]. split; [congruence|]. split; [done|]. by rewrite <-Hname, <-(groups_skeleton _ _ Hps).
Qed.

Lemma use_nodes_skeleton w block cond cond' nodes : map skeleton cond = map skeleton cond' ->
  block_denotes w block (use_nodes cond nodes) -> block_denotes w block (use_nodes cond' nodes).
Proof.
  intros Hs. destruct cond as [|f cond], cond' as [|f' cond'], nodes as [|n nodes]; try done. cbn [use_nodes].
  intros [(its & He & Hw & Hm) Hst]. split; [|done]. exists its. split; [|done]. inversion He as [|? [|cs body] ? ? Hb Hr]; subst; try done.
  inversion Hr; subst. apply Forall2_cons. split; [|done]. apply elab_block in Hb as [Hg Hb]. apply elab_block. split; [|done].
  by eapply guard_means_skeleton.
Qed.

(** ** Expansion of statements *)

Section Expand.
Context (rule_nodes : RoutingRule -> option (list node)).

(** The nodes of a block: those of its rules, and of the rule sets it uses. *)
Inductive expands : list RoutingStatement -> list node -> Prop :=
| expands_nil : expands [] []
| expands_rule st rule ns stmts nodes :
    st_Kind st = RoutingStatementRule -> st_Rule st = Some rule -> rule_nodes rule = Some ns ->
    expands stmts nodes -> expands (st :: stmts) (ns ++ nodes)
| expands_use st body bn stmts nodes :
    st_Kind st = RoutingStatementUse -> sets !! st_Use st = Some body -> expands body bn ->
    expands stmts nodes -> expands (st :: stmts) (use_nodes (st_Condition st) bn ++ nodes).

(** Expansion is a partial function. *)
Lemma expands_fun stmts nodes nodes' : expands stmts nodes -> expands stmts nodes' -> nodes = nodes'.
Proof.
  intros H. revert nodes'. induction H as [|st rule ns stmts nodes Hk Hr Hn H IH|st body bn stmts nodes Hk Hb H1 IH1 H IH];
    intros nodes' H'; inversion H'; subst; try congruence.
  - f_equal; [congruence|by apply IH].
  - f_equal; [|by apply IH]. f_equal. apply IH1. congruence.
Qed.
End Expand.

(** ** Compiler states *)

(** How the spans of a block are read: a projection and the nodes of a rule. *)
Record view (B : Type) := mkView { v_proj : B -> list routingSpan; v_nodes : RoutingRule -> option (list node) }.
Arguments mkView {B}.
Arguments v_proj {B}.
Arguments v_nodes {B}.

Definition cached {B} (views : list (view B)) (w : world) (k : routingRuleSetKey) (block : B) : Prop :=
  exists name cond body, k = routingSetKey name cond /\ plain cond /\ sets !! name = Some body /\
    forall v, v ∈ views -> exists nodes, expands (v_nodes v) body nodes /\ block_denotes w (v_proj v block) (use_nodes cond nodes).

Lemma cached_le {B} (views : list (view B)) w w' k block : w_le w w' -> cached views w k block -> cached views w' k block.
Proof.
  intros Hle (name & cond & body & Hk & Hp & Hb & H). exists name, cond, body. split_and!; try done. intros v Hv.
  destruct (H v Hv) as (nodes & He & Hd). exists nodes. split; [done|]. by eapply block_denotes_le.
Qed.

Definition route_nodes (rule : RoutingRule) : option (list node) := (fun n => [n]) <$> rule_node outbounds rule.

(** Rewrites and controls, from the plan of the rule alone. *)
Definition capture_nodes (rule : RoutingRule) : option (list node) :=
  match plan_rule (mkPlan [] []) rule with
  | Ok plan => Some (map (fun d => effect_node MatchActionCapture captureDestination (dr_Filter d)) (Destinations plan))
  | _ => None
  end.
Definition control_nodes (rule : RoutingRule) : option (list node) :=
  match plan_rule (mkPlan [] []) rule with
  | Ok plan => Some (map (fun c => effect_node (fr_Action c) 0 (fr_Filter c)) (Controls plan))
  | _ => None
  end.

Definition route_views : list (view (list routingSpan)) := [mkView (fun b => b) route_nodes].
Definition flow_views : list (view resolvedFlowBlock) := [mkView capture capture_nodes; mkView controls control_nodes].

Definition flowEnd_tail : bpfMatchSet := mkMatch zero16 0 MatchActionFlowEnd 0 0 0.

Record ok (c : routingCompiler) (w : world) : Prop := {
  ok_rep : represents (builder c) w;
  ok_out : outboundName2Id (builder c) = outbounds;
  ok_sets : c_sets c = sets;
  ok_resolved : forall k block, resolved c !! k = Some block -> cached route_views w k block;
  ok_flows : forall k block, flows c !! k = Some block -> cached flow_views w k block;
  ok_flowEnd : span_len (flowEnd c) = 0 \/ denotes w [flowEnd c] [NRule GAlways flowEnd_tail];
  ok_fallbacks : forall m span, (m, span) ∈ fallbackSpans (builder c) -> exists o id,
    m = tail_instr 0 (route_tail o id) (MatchType_Fallback, zero16) /\ span_wf span /\
    denotes w [span] [NRule GAlways (route_tail o id)];
}.

(** The part of the pool the kernel gets. *)
Definition same_ends (b b' : Builder) : Prop := kernelLpmLen b' = kernelLpmLen b /\ routing_end b' = routing_end b.

(** What resolution leaves alone. *)
Definition frame (c c' : routingCompiler) : Prop :=
  shared c' = shared c /\ b_profiles (builder c') = b_profiles (builder c) /\ setKinds c' = setKinds c /\
  defaultProfile (builder c') = defaultProfile (builder c) /\ same_ends (builder c) (builder c').

Lemma frame_refl c : frame c c.
Proof. done. Qed.
Lemma frame_trans c1 c2 c3 : frame c1 c2 -> frame c2 c3 -> frame c1 c3.
Proof. unfold frame, same_ends. intros (? & ? & ? & ? & ? & ?) (? & ? & ? & ? & ? & ?). split_and!; congruence. Qed.

(** Replacing the builder by a larger one. *)
Lemma ok_with_builder c w b' w' new : ok c w -> w_le w w' -> represents b' w' -> extends (builder c) b' new ->
  ok (with_builder c b') w' /\ frame c (with_builder c b').
Proof.
  intros Hok Hle Hr Hx. destruct Hok as [H1 H2 H3 H4 H5 H6 H7]. destruct Hx as (t & rs & ps & -> & _). split; [|by split_and!].
  split; cbn; try done.
  - intros k block Hk. eapply cached_le; [done|by apply H4].
  - intros k block Hk. eapply cached_le; [done|by apply H5].
  - destruct H6; [by left|right]. by eapply denotes_le.
  - intros m span Hin. destruct (H7 m span Hin) as (o & id & Hm & Hw & Hd). exists o, id. split_and!; try done. by eapply denotes_le.
Qed.

(** ** Triples *)

Definition triple {A} (m : M A) (P : world -> Prop) (Q : world -> A -> Prop) : Prop :=
  forall c w a c', ok c w -> P w -> m c = Ok (a, c') -> exists w', w_le w w' /\ ok c' w' /\ frame c c' /\ Q w' a.

Definition mono (P : world -> Prop) : Prop := forall w w', w_le w w' -> P w -> P w'.

Lemma triple_bind {A B} (m : M A) (f : A -> M B) P Q R :
  mono P -> triple m P Q -> (forall a, triple (f a) (fun w => P w /\ Q w a) R) -> triple (m ≫= f) P R.
Proof.
  intros HP Hm Hf c w b c2 Hok Hw Hrun. unfold mbind, M_bind in Hrun. destruct (m c) as [[a c1]| |] eqn:E; [|done..]. cbn in Hrun.
  destruct (Hm _ _ _ _ Hok Hw E) as (w1 & Hle & Hok1 & Hfr & Hq).
  destruct (Hf a _ _ _ _ Hok1 (conj (HP _ _ Hle Hw) Hq) Hrun) as (w2 & Hle2 & Hok2 & Hfr2 & Hr).
  exists w2. split; [by eapply w_le_trans|]. split; [done|]. split; [by eapply frame_trans|done].
Qed.

Lemma triple_ret {A} (a : A) (P : world -> Prop) (Q : world -> A -> Prop) : (forall w, P w -> Q w a) -> triple (mret a) P Q.
Proof. intros H c w b c' Hok Hw [= <- <-]. exists w. split; [apply w_le_refl|]. split; [done|]. split; [done|by apply H]. Qed.

Lemma triple_lift {A} (r : res A) (P : world -> Prop) (Q : world -> A -> Prop) : (forall w a, P w -> r = Ok a -> Q w a) -> triple (lift r) P Q.
Proof.
  intros H c w b c' Hok Hw. unfold lift. destruct r as [a| |]; [|done..]. intros [= <- <-]. exists w.
  split; [apply w_le_refl|]. split; [done|]. split; [done|by apply H].
Qed.

Lemma triple_gets {A} (f : routingCompiler -> A) (P : world -> Prop) (Q : world -> A -> Prop) :
  (forall c w, ok c w -> P w -> Q w (f c)) -> triple (gets f) P Q.
Proof. intros H c w b c' Hok Hw [= <- <-]. exists w. split; [apply w_le_refl|]. split; [done|]. split; [done|by apply H]. Qed.

Lemma triple_weaken {A} (m : M A) (P P' : world -> Prop) (Q Q' : world -> A -> Prop) :
  (forall w, P w -> P' w) -> (forall w a, Q' w a -> Q w a) -> triple m P' Q' -> triple m P Q.
Proof.
  intros HP HQ H c w a c' Hok Hw Hrun. destruct (H _ _ _ _ Hok (HP _ Hw) Hrun) as (w' & Hle & Hok' & Hf & Hq).
  exists w'. split_and!; auto.
Qed.

Lemma triple_true {A} (m : M A) (P : world -> Prop) (Q : world -> A -> Prop) : triple m (fun _ => True) Q -> triple m P Q.
Proof. by apply triple_weaken. Qed.

Lemma triple_lift_bind {A B} (r : res A) (k : A -> M B) (P : world -> Prop) (R : world -> B -> Prop) :
  (forall a, r = Ok a -> triple (k a) P R) -> triple (a ← lift r; k a) P R.
Proof.
  intros H c w b c' Hok Hw Hrun. unfold lift, mbind, M_bind in Hrun. destruct r as [a| |]; [|done..]. by eapply (H a).
Qed.

(** A fact that survives growth can be carried along. *)
Lemma triple_keep {A} (m : M A) (P : world -> Prop) (Q : world -> A -> Prop) (K : world -> Prop) :
  mono K -> triple m P Q -> triple m (fun w => P w /\ K w) (fun w a => Q w a /\ K w).
Proof.
  intros HK H c w a c' Hok [Hp Hk] Hrun. destruct (H _ _ _ _ Hok Hp Hrun) as (w' & Hle & Hok' & Hf & Hq).
  exists w'. split_and!; auto. by eapply HK.
Qed.

(** ** Rule-set compilers *)

Definition statement_ok (st : RoutingStatement) : Prop :=
  (forall rule, st_Rule st = Some rule -> rule_proper rule) /\ plain (st_Condition st).
Definition statements_ok : list RoutingStatement -> Prop := Forall statement_ok.

Context (sets_ok : forall name body, sets !! name = Some body -> statements_ok body).

Section Program.
Context {B : Type} (program : ruleSetCompiler B) (views : list (view B)).

(** Every view of the block denotes nodes with the property [X]. *)
Definition shows (X : view B -> list node -> Prop) (w : world) (block : B) : Prop :=
  forall v, v ∈ views -> exists nodes, X v nodes /\ block_denotes w (v_proj v block) nodes.

Lemma shows_mono X block : mono (fun w => shows X w block).
Proof.
  intros w w' Hle H v Hv. destruct (H v Hv) as (nodes & Hx & Hd). exists nodes. split; [done|]. by eapply block_denotes_le.
Qed.

Record program_ok : Prop := {
  po_empty : forall v, v ∈ views -> v_proj v (rc_empty _ program) = [];
  po_append : forall v a b r, v ∈ views -> rc_append _ program a b = Ok r ->
    block_appendBlock (v_proj v a) (v_proj v b) = Ok (v_proj v r);
  po_compile : forall rs, Forall rule_proper rs ->
    triple (rc_compile _ program rs) (fun _ => True)
      (fun w block => shows (fun v nodes => exists nss, mapM (v_nodes v) rs = Some nss /\ nodes = concat nss) w block);
  po_condition : forall X body cond,
    triple (rc_condition _ program body cond) (fun w => shows X w body)
      (fun w block => shows (fun v nodes => exists ns, X v ns /\ nodes = use_nodes cond ns) w block);
  po_lookup : forall c w k block, ok c w -> rc_lookup _ program k c = Some block -> cached views w k block;
  po_store : forall c w k block, ok c w -> cached views w k block ->
    ok (rc_store _ program k block c) w /\ frame c (rc_store _ program k block c);
}.

Context (Hprog : program_ok).

Lemma shows_append X Y w a b r : rc_append _ program a b = Ok r -> shows X w a -> shows Y w b ->
  shows (fun v nodes => exists n1 n2, X v n1 /\ Y v n2 /\ nodes = n1 ++ n2) w r.
Proof.
  intros Hr Ha Hb v Hv. destruct (Ha v Hv) as (n1 & Hx & [Hd1 Hs1]), (Hb v Hv) as (n2 & Hy & [Hd2 Hs2]).
  pose proof (po_append Hprog v _ _ _ Hv Hr) as Happ. exists (n1 ++ n2). split; [by exists n1, n2|].
  split; [by eapply block_appendBlock_denotes|]. eapply block_appendBlock_strict; [done|by apply strict_wf|done].
Qed.

Lemma shows_impl X Y w b : (forall v nodes, v ∈ views -> X v nodes -> Y v nodes) -> shows X w b -> shows Y w b.
Proof. intros H Hb v Hv. destruct (Hb v Hv) as (nodes & Hx & Hd). exists nodes. split; [by apply H|done]. Qed.

(** Nodes of the pending rules. *)
Definition local_nodes (v : view B) (local : list (option RoutingRule)) (nodes : list node) : Prop :=
  exists rs nss, mapM id local = Some rs /\ mapM (v_nodes v) rs = Some nss /\ nodes = concat nss.

Lemma local_nodes_nil v : local_nodes v [] [].
Proof. by exists [], []. Qed.

Lemma mapM_snoc {A C} (f : A -> option C) l x r : mapM f (l ++ [x]) = Some r -> exists r' y, mapM f l = Some r' /\ f x = Some y /\ r = r' ++ [y].
Proof.
  rewrite mapM_Some. intros H. apply Forall2_app_inv_l in H as (r' & t & Hl & Ht & ->). inversion Ht as [|? y ? ? Hy Hn]; subst.
  inversion Hn; subst. exists r', y. by rewrite mapM_Some.
Qed.

Lemma local_nodes_snoc v local r nodes : local_nodes v (local ++ [r]) nodes ->
  exists rule ns n1, r = Some rule /\ v_nodes v rule = Some ns /\ local_nodes v local n1 /\ nodes = n1 ++ ns.
Proof.
  intros (rs & nss & Hrs & Hns & ->). apply mapM_snoc in Hrs as (rs' & rule & Hl & Hr & ->).
  apply mapM_snoc in Hns as (nss' & ns & Hl' & Hn & ->). exists rule, ns, (concat nss').
  split; [exact Hr|]. split; [done|]. split; [by exists rs', nss'|]. rewrite concat_app. cbn. by rewrite app_nil_r.
Qed.

Definition local_ok (local : list (option RoutingRule)) : Prop := Forall (fun r => forall rule, r = Some rule -> rule_proper rule) local.

Lemma flush_ok X block local : local_ok local ->
  triple (flush program block local) (fun w => shows X w block)
    (fun w r => shows (fun v nodes => exists n1 n2, X v n1 /\ local_nodes v local n2 /\ nodes = n1 ++ n2) w r).
Proof.
  intros Hl. unfold flush. destruct local as [|r local]; cbn [is_empty].
  - apply triple_ret. intros w H. eapply shows_impl; [|exact H]. intros v nodes _ Hx. exists nodes, []. rewrite app_nil_r.
    split; [done|]. split; [apply local_nodes_nil|done].
  - eapply triple_bind with (Q := fun _ rs => mapM id (r :: local) = Some rs); [apply shows_mono| |].
    { apply triple_lift. intros w rs _ Hrs. by destruct (mapM id (r :: local)); [injection Hrs as ->|]. }
    intros rs c w a c' Hok [Hb Er]. revert c w a c' Hok Hb.
    change (triple (batch ← rc_compile B program rs; lift (rc_append B program block batch)) (fun w => shows X w block)
      (fun w a => shows (fun v nodes => exists n1 n2, X v n1 /\ local_nodes v (r :: local) n2 /\ nodes = n1 ++ n2) w a)).
    eapply triple_bind; [apply shows_mono| |].
    + apply triple_true, (po_compile Hprog).
      apply mapM_Some in Er. clear -Hl Er. revert rs Er. remember (r :: local) as l0. clear Heql0. induction Hl as [|r0 l Hr Hl IH]; intros rs Er; inversion Er; subst; constructor; eauto.
    + intros batch. apply triple_lift. intros w r' [Hb Hc] Happ. eapply shows_impl; [|by eapply shows_append].
      intros v nodes _ (n1 & n2 & Hx & (nss & Hn & ->) & ->). exists n1, (concat nss). split_and!; try done. by exists rs, nss.
Qed.

(** [resolve_use] gives the nodes of the named set. *)
Definition use_ok (resolve_use : string -> list Function -> M B) : Prop := forall name cond, plain cond ->
  triple (resolve_use name cond) (fun _ => True)
    (fun w block => shows (fun v nodes => exists body bn, sets !! name = Some body /\ expands (v_nodes v) body bn /\ nodes = use_nodes cond bn) w block).

Lemma block_statements_ok resolve_use X stmts block local : use_ok resolve_use -> local_ok local -> statements_ok stmts ->
  triple (block_statements program resolve_use block local stmts) (fun w => shows X w block)
    (fun w r => shows (fun v nodes => exists n1 n2 n3, X v n1 /\ local_nodes v local n2 /\ expands (v_nodes v) stmts n3 /\ nodes = n1 ++ n2 ++ n3) w r).
Proof.
  intros Huse. revert X block local. induction stmts as [|st stmts IH]; intros X block local Hl Hst; cbn [block_statements].
  { eapply triple_weaken; [intros w H; exact H| |by apply flush_ok]. intros w r H. eapply shows_impl; [|exact H].
    intros v nodes _ (n1 & n2 & Hx & Hln & ->). exists n1, n2, []. rewrite app_nil_r. split_and!; try done. constructor. }
  apply Forall_cons in Hst as [[Hrule Hcond] Hst]. destruct (st_Kind st) eqn:Ek; [| |by apply triple_lift].
  - eapply triple_weaken; [intros w H; exact H| |apply IH; [|exact Hst]].
    + intros w r H. eapply shows_impl; [|exact H]. intros v nodes _ (n1 & n2 & n3 & Hx & Hln & He & ->).
      apply local_nodes_snoc in Hln as (rule & ns & n2' & Hr & Hn & Hl2 & ->). exists n1, n2', (ns ++ n3). split_and!; try done.
      * by eapply expands_rule.
      * by rewrite <-app_assoc.
    + apply Forall_app. split; [done|]. by apply Forall_cons.
  - eapply triple_bind; [apply shows_mono|apply flush_ok; exact Hl|]. intros b1.
    eapply triple_bind; [intros w w' Hle [H1 H2]; split; [by eapply shows_mono|by eapply shows_mono]|apply triple_true; by apply Huse|].
    intros called. eapply triple_bind; [|apply triple_lift; intros w r [[_ H1] H2] Happ; exact (shows_append _ _ _ _ _ _ Happ H1 H2)|].
    { intros w w' Hle [[H1 H2] H3]. split_and!; by eapply shows_mono. }
    intros b2. eapply triple_weaken; [intros w [_ H]; exact H| |apply IH; [constructor|exact Hst]].
    intros w r H. eapply shows_impl; [|exact H].
    intros v nodes _ (n1 & n2 & n3 & (m1 & m2 & (p1 & p2 & Hx & Hln & ->) & (body & bn & Hb & He & ->) & ->) & (rs & nss & [= <-] & [= <-] & ->) & He3 & ->).
    exists p1, p2, (use_nodes (st_Condition st) bn ++ n3). split_and!; try done.
    + by eapply expands_use.
    + cbn. by rewrite !app_assoc.
Qed.

Lemma remember_ok key block : triple (remember program key block) (fun w => cached views w key block)
  (fun w b => b = block /\ cached views w key block).
Proof.
  intros c w b c' Hok Hc Hrun. unfold remember, mbind, M_bind, gets, modify, lift in Hrun. cbn in Hrun.
  destruct (guard_err _ _); [|done..]. injection Hrun as <- <-. destruct (po_store Hprog _ _ _ _ Hok Hc) as [Hok' Hfr].
  exists w. split_and!; try done. apply w_le_refl.
Qed.

Lemma cached_shows w name cond block : plain cond -> cached views w (routingSetKey name cond) block ->
  shows (fun v nodes => exists body bn, sets !! name = Some body /\ expands (v_nodes v) body bn /\ nodes = use_nodes cond bn) w block.
Proof.
  intros Hp (name' & cond' & body & Hk & Hp' & Hb & H) v Hv. destruct (set_key_inj _ _ _ _ Hp Hp' Hk) as [-> Hs].
  destruct (H v Hv) as (bn & He & Hd). exists (use_nodes cond bn). split; [by exists body, bn|]. by eapply use_nodes_skeleton.
Qed.

Lemma shows_cached w name cond block body : plain cond -> sets !! name = Some body ->
  shows (fun v nodes => exists bn, expands (v_nodes v) body bn /\ nodes = use_nodes cond bn) w block ->
  cached views w (routingSetKey name cond) block.
Proof.
  intros Hp Hb H. exists name, cond, body. split_and!; try done. intros v Hv. destruct (H v Hv) as (nodes & (bn & He & ->) & Hd). by exists bn.
Qed.

Lemma shows_empty w : shows (fun _ nodes => nodes = []) w (rc_empty _ program).
Proof. intros v Hv. exists []. split; [done|]. rewrite (po_empty Hprog v Hv). split; [apply denotes_nil|constructor]. Qed.

Lemma resolveBlock_ok resolve_use stmts : use_ok resolve_use -> statements_ok stmts ->
  triple (block_statements program resolve_use (rc_empty _ program) [] stmts) (fun _ => True)
    (fun w r => shows (fun v nodes => expands (v_nodes v) stmts nodes) w r).
Proof.
  intros Huse Hst. eapply triple_weaken; [intros w _; apply shows_empty| |apply block_statements_ok; [done|constructor|done]].
  intros w r H. eapply shows_impl; [|exact H].
  intros v nodes _ (n1 & n2 & n3 & -> & (rs & nss & [= <-] & [= <-] & ->) & He & ->). done.
Qed.

Lemma resolveRuleSet_ok fuel : use_ok (resolveRuleSet program fuel).
Proof.
  induction fuel as [|fuel IH]; intros name cond Hp; cbn [resolveRuleSet]; [by apply triple_lift|].
  eapply triple_bind with (Q := fun w o => match o with Some block => cached views w (routingSetKey name cond) block | None => True end); [done| |].
  { apply triple_gets. intros c w Hok _. destruct (rc_lookup _ _ _ c) eqn:E; [|done]. by eapply (po_lookup Hprog). }
  intros [block|]; [apply triple_ret; intros w [_ H]; by apply cached_shows|].
  apply triple_true. eapply triple_bind with (Q := fun _ o => o = sets !! name); [done| |].
  { apply triple_gets. intros c w Hok _. by rewrite (ok_sets _ _ Hok). }
  intros [body|]; [|by apply triple_lift]. intros c w a c' Hok [Ht Hb]. symmetry in Hb. revert c w a c' Hok Ht.
  change (triple (block ← (if is_empty cond then block_statements program (resolveRuleSet program fuel) (rc_empty _ program) [] body
      else block ← resolveRuleSet program fuel name []; rc_condition _ program block cond); remember program (routingSetKey name cond) block)
      (fun _ => True) (fun w block => shows (fun v nodes => exists body bn, sets !! name = Some body /\ expands (v_nodes v) body bn /\ nodes = use_nodes cond bn) w block)).
  eapply triple_bind with (Q := fun w block => cached views w (routingSetKey name cond) block); [done| |].
  - destruct cond as [|f cond]; cbn [is_empty].
    + eapply triple_weaken; [intros w H; exact H| |apply resolveBlock_ok; [done|by eapply sets_ok]].
      intros w a H. eapply shows_cached; [done..|]. eapply shows_impl; [|exact H]. intros v nodes _ He. by exists nodes.
    + eapply triple_bind; [done|apply IH; constructor|]. intros block.
      eapply triple_weaken; [intros w [_ H]; exact H| |apply (po_condition Hprog)].
      intros w a H. eapply shows_cached; [done..|]. eapply shows_impl; [|exact H].
      intros v nodes _ (ns & (body' & bn & Hb' & He & ->) & ->). exists bn. split; [congruence|done].
  - intros block. eapply triple_weaken; [intros w [_ H]; exact H| |apply remember_ok]. intros w a [-> H]. by apply cached_shows.
Qed.

Lemma resolveBlockStatements_ok stmts : statements_ok stmts ->
  triple (resolveBlockStatements program stmts) (fun _ => True) (fun w r => shows (fun v nodes => expands (v_nodes v) stmts nodes) w r).
Proof. intros H. apply resolveBlock_ok; [apply resolveRuleSet_ok|done]. Qed.
End Program.

(** ** Instances *)

(** A span over the instructions a builder operation emits. *)
Lemma triple_emits {A} (f : Builder -> res Builder) (N : list node -> Prop) (k : nat -> nat -> M A) P R :
  (forall b b', f b = Ok b' -> builder_ok b -> outboundName2Id b = outbounds -> exists nodes, N nodes /\ emits ifenv members dv b b' nodes) ->
  mono P ->
  (forall s e, triple (k s e) (fun w => P w /\ e = length (emit_pool (w_pool w)) /\ s <= e /\ exists nodes, N nodes /\ forall phase global, denotes w [mkSpan s e phase global] nodes) R) ->
  triple (start ← rules_len; _ ← on_builder f; end_ ← rules_len; k start end_) P R.
Proof.
  intros Hf HP Hk c w a c' Hok Hw Hrun. unfold rules_len, gets, on_builder, mbind, M_bind in Hrun. cbn in Hrun.
  destruct (f (builder c)) as [b'| |] eqn:Ef; [|done..]. cbn in Hrun.
  destruct (Hf _ _ Ef (proj1 (ok_rep _ _ Hok)) (ok_out _ _ Hok)) as (nodes & Hn & Hem).
  destruct (emitted_span _ _ _ _ _ _ _ routingPhaseRoute false (ok_rep _ _ Hok) Hem) as (w1 & Hle & Hrep & Hd).
  destruct Hem as (ks & Hx & _). destruct (ok_with_builder _ _ _ _ _ Hok Hle Hrep Hx) as [Hok1 Hfr1].
  apply (Hk _ _ _ w1) in Hrun as (w2 & Hle2 & Hok2 & Hfr2 & Hr); [|done|].
  - exists w2. split; [by eapply w_le_trans|]. split; [done|]. split; [by eapply frame_trans|done].
  - split; [by eapply HP|]. split; [exact (represents_length _ _ _ Hrep)|]. pose proof (extends_length _ _ _ _ Hx). split; [lia|]. exists nodes. split; [done|]. intros phase global.
    eapply denotes_code; [| |exact Hd]; [by rewrite !code_of_single|]. apply Forall_singleton. unfold span_wf. cbn. lia.
Qed.

Lemma block_appendSpan_empty w span r nodes : block_appendSpan [] span = Ok r -> span_wf span -> denotes w [span] nodes -> block_denotes w r nodes.
Proof.
  intros Hr Hw Hd. split; [|eapply block_appendSpan_strict; [done..|constructor]].
  change nodes with ([] ++ nodes). eapply block_appendSpan_denotes; [done..|apply denotes_nil|done].
Qed.

Lemma mapM_route_nodes rs nodes : mapM (rule_node outbounds) rs = Some nodes -> mapM route_nodes rs = Some (map (fun n => [n]) nodes).
Proof.
  rewrite !mapM_Some, Forall2_fmap_r. intros H. eapply Forall2_impl; [exact H|]. intros r n Hr. unfold route_nodes. by rewrite Hr.
Qed.

Lemma concat_singletons {A} (l : list A) : concat (map (fun n => [n]) l) = l.
Proof. induction l as [|x l IH]; [done|]. cbn. by rewrite IH. Qed.

(** The rules of a batch, in order, as one span. *)
Lemma compileRuleBatch_ok rs : Forall rule_proper rs ->
  triple (compileRuleBatch sha256 rs) (fun _ => True)
    (fun w s => span_wf s /\ length (emit_pool (w_pool w)) <= MaxMatchSetLen /\ Phase s = routingPhaseRoute /\ exists nodes, mapM (rule_node outbounds) rs = Some nodes /\
       forall phase global, denotes w [mkSpan (Start s) (End_ s) phase global] nodes).
Proof.
  intros Hrs. unfold compileRuleBatch. apply triple_emits with (N := fun nodes => mapM (rule_node outbounds) rs = Some nodes); [|done|].
  - intros b b' Hf Hok Ho. destruct (applyRules_emits ifenv members _ _ dv_set _ _ _ _ Hrs Hf Hok Ho) as (nodes & Hn & He).
    exists nodes. split; [done|]. by apply emits_rules_emits.
  - intros s e. apply triple_lift_bind. intros [] Hg. unfold guard_err in Hg. destruct (Nat.ltb_spec MaxMatchSetLen e) as [|Hmax]; [done|].
    apply triple_ret. intros w (_ & He & Hse & nodes & Hn & Hd). split_and!; try done; [cbn; congruence|]. by exists nodes.
Qed.

Local Abbreviation routingProgram := (routingProgram sha256 ahocorasick_IsValidChar regexp_Compile).
Local Abbreviation flowProgram := (flowProgram sha256 ahocorasick_IsValidChar regexp_Compile).

Lemma conditional_ok (X : list node -> Prop) P body cond : mono P ->
  (forall w, P w -> exists nodes, X nodes /\ block_denotes w body nodes) ->
  triple (in_builder (conditionalBlock sha256 ahocorasick_IsValidChar regexp_Compile body cond)) P
    (fun w block => P w /\ exists nodes, X nodes /\ block_denotes w block (use_nodes cond nodes)).
Proof.
  intros HP HX c w block c' Hok Hw Hrun. unfold in_builder in Hrun.
  destruct (conditionalBlock _ _ _ body cond (builder c)) as [[blk b']| |] eqn:Ec; [|done..]. injection Hrun as <- <-.
  destruct (HX w Hw) as (nodes & Hx & Hd).
  destruct (conditionalBlock_denotes _ _ _ _ dv_set _ direct_id _ _ _ _ _ _ _ _ _ Ec (ok_rep _ _ Hok) (ok_out _ _ Hok) Hd) as (w' & new & Hle & Hrep & Hd' & Hext).
  destruct (ok_with_builder _ _ _ _ _ Hok Hle Hrep Hext) as [Hok' Hfr].
  exists w'. split_and!; try done; [by eapply HP|]. by exists nodes.
Qed.

Lemma routingProgram_ok : program_ok routingProgram route_views.
Proof.
  split.
  - intros v Hv. apply list_elem_of_singleton in Hv as ->. done.
  - intros v a b r Hv Hr. apply list_elem_of_singleton in Hv as ->. done.
  - intros rs Hrs. cbn. eapply triple_bind; [done|by apply compileRuleBatch_ok|]. intros s. apply triple_lift.
    intros w r [_ (Hw & _ & _ & nodes & Hn & Hd)] Hr v Hv. apply list_elem_of_singleton in Hv as ->. exists nodes. split.
    + exists (map (fun n => [n]) nodes). split; [by apply mapM_route_nodes|]. by rewrite concat_singletons.
    + eapply block_appendSpan_empty; [done..|]. destruct s as [st en ph gl]. apply Hd.
  - intros X body cond. cbn. eapply triple_weaken; [intros w H; exact H| |apply (conditional_ok (X (mkView (fun b => b) route_nodes)))].
    + intros w block [_ (nodes & Hx & Hd)] v Hv. apply list_elem_of_singleton in Hv as ->. exists (use_nodes cond nodes). split; [by exists nodes|done].
    + apply shows_mono.
    + intros w H. apply H. by apply list_elem_of_singleton.
  - intros c w k block Hok Hl. by apply (ok_resolved _ _ Hok).
  - intros c w k block Hok Hc. split; [|done]. destruct Hok as [H1 H2 H3 H4 H5 H6 H7]. split; cbn; try done.
    intros k' block'. rewrite lookup_insert_Some. intros [[<- <-]|[_ Hl]]; [done|by apply H4].
Qed.

(** *** Flow rules *)

Lemma plan_rule_app plan rule plan' : plan_rule plan rule = Ok plan' -> exists d, plan_rule (mkPlan [] []) rule = Ok d /\
  Destinations plan' = Destinations plan ++ Destinations d /\ Controls plan' = Controls plan ++ Controls d /\
  Forall (fun r => is_jump (fr_Action r) = false) (Controls d).
Proof.
  unfold plan_rule. destruct (is_empty _); [done|]. destruct (_ || _); [done|]. destruct (_ || _).
  - destruct (negb _); [done|]. intros [= <-]. eexists. split; [done|]. cbn. rewrite app_nil_r. split_and!; try done.
    apply Forall_singleton. by destruct (String.eqb _ _).
  - destruct (String.eqb _ _); [|done]. destruct (f_Params _) as [|p [|]]; try done. destruct (_ || _); [done|].
    destruct (dnat_target _) as [[ip port]|]; [|done]. intros [= <-]. eexists. split; [done|]. cbn. rewrite app_nil_r. by split_and!.
Qed.

Definition capture_node (d : DestinationRewrite) : node := effect_node MatchActionCapture captureDestination (dr_Filter d).
Definition control_node (r : FlowRule) : node := effect_node (fr_Action r) 0 (fr_Filter r).

Lemma Plan_nodes rs : forall plan plan', foldM plan_rule plan rs = Ok plan' -> exists ds cs,
  Destinations plan' = Destinations plan ++ ds /\ Controls plan' = Controls plan ++ cs /\
  Forall (fun r => is_jump (fr_Action r) = false) cs /\
  (exists nss, mapM capture_nodes rs = Some nss /\ concat nss = map capture_node ds) /\
  (exists nss, mapM control_nodes rs = Some nss /\ concat nss = map control_node cs).
Proof.
  induction rs as [|r rs IH]; intros plan plan'; cbn [foldM].
  { intros [= <-]. exists [], []. rewrite !app_nil_r. split_and!; try done; by exists []. }
  destruct (plan_rule plan r) as [p1| |] eqn:E; [|done..]. intros H. cbn in H.
  apply plan_rule_app in E as (d & Hd & Hds & Hcs & Hj). apply IH in H as (ds & cs & -> & -> & Hj' & (n1 & Hn1 & Hc1) & (n2 & Hn2 & Hc2)).
  exists (Destinations d ++ ds), (Controls d ++ cs). rewrite Hds, Hcs, !app_assoc. split_and!; try done; [by apply Forall_app| |].
  - exists (map capture_node (Destinations d) :: n1). split; [|cbn; by rewrite Hc1, map_app]. rewrite mapM_Some. apply Forall2_cons; split; [unfold capture_nodes; by rewrite Hd|by rewrite <-mapM_Some].
  - exists (map control_node (Controls d) :: n2). split; [|cbn; by rewrite Hc2, map_app]. rewrite mapM_Some. apply Forall2_cons; split; [unfold control_nodes; by rewrite Hd|by rewrite <-mapM_Some].
Qed.

Lemma triple_modify f (P : world -> Prop) (Q : world -> () -> Prop) :
  (forall c w, ok c w -> P w -> ok (f c) w /\ frame c (f c) /\ Q w ()) -> triple (modify f) P Q.
Proof.
  intros H c w a c' Hok Hw [= <- <-]. destruct (H _ _ Hok Hw) as (H1 & H2 & H3). exists w. split; [apply w_le_refl|]. by split_and!.
Qed.

Lemma ok_with_fragments c w fs : ok c w -> ok (with_fragments c fs) w.
Proof. intros [H1 H2 H3 H4 H5 H6 H7]. by split. Qed.

Lemma compileDestinations_ok rs global :
  triple (compileDestinations sha256 rs global) (fun _ => True)
    (fun w block => controls block = [] /\ block_denotes w (capture block) (map capture_node rs)).
Proof.
  unfold compileDestinations. destruct rs as [|r rs]; cbn [is_empty].
  { apply triple_ret. intros w _. split; [done|]. split; [apply denotes_nil|constructor]. }
  apply triple_emits with (N := fun nodes => nodes = map capture_node (r :: rs)); [|done|].
  - intros b b' Hf Hok Ho. eexists. split; [done|]. apply emits_rules_emits.
    exact (flow_effects_emit _ _ _ _ dv_set _ direct_id dr_Filter (fun _ => MatchActionCapture) captureDestination _ _ _ ltac:(done) Hf Hok Ho).
  - intros s e. apply triple_lift_bind. intros cap Hr.
    apply triple_weaken with (P' := fun w => block_denotes w cap (map capture_node (r :: rs))) (Q' := fun w block => controls block = [] /\ block_denotes w (capture block) (map capture_node (r :: rs))).
    + intros w (_ & _ & Hse & nodes & -> & Hd). eapply block_appendSpan_empty; [done..|apply Hd].
    + done.
    + assert (Hm : mono (fun w => block_denotes w cap (map capture_node (r :: rs)))) by (intros w w' Hle H; by eapply block_denotes_le).
      apply triple_bind with (Q := fun _ _ => True); [done|by apply triple_gets|]. intros id.
      apply triple_bind with (Q := fun _ _ => True); [intros w w' Hle [H _]; split; [by eapply Hm|done]| |].
      * apply triple_modify. intros c w Hok _. split; [by apply ok_with_fragments|done].
      * intros _. apply triple_ret. intros w [[H _] _]. done.
Qed.

Lemma mono_and P Q : mono P -> mono Q -> mono (fun w => P w /\ Q w).
Proof. intros HP HQ w w' Hle [H1 H2]. split; [by eapply HP|by eapply HQ]. Qed.
Lemma mono_const (P : Prop) : mono (fun _ => P).
Proof. by intros w w' _. Qed.
Lemma mono_block spans nodes : mono (fun w => block_denotes w spans nodes).
Proof. intros w w'. apply block_denotes_le. Qed.
Lemma mono_span (N : list node -> Prop) s e : mono (fun w => s <= e /\ exists nodes, N nodes /\ forall phase global, denotes w [mkSpan s e phase global] nodes).
Proof.
  intros w w' Hle (Hse & nodes & Hn & Hd). split; [done|]. exists nodes. split; [done|]. intros phase global. by eapply denotes_le.
Qed.

(** The rewrites of a batch are captures, its controls a block of their own. *)
Lemma compileFlowBatch_ok rs :
  triple (compileFlowBatch sha256 rs) (fun _ => True) (fun w block => exists plan, Plan rs = Ok plan /\
    block_denotes w (capture block) (map capture_node (Destinations plan)) /\
    block_denotes w (controls block) (map control_node (Controls plan))).
Proof.
  unfold compileFlowBatch. apply triple_lift_bind. intros plan Hplan.
  apply triple_bind with (Q := fun w block => controls block = [] /\ block_denotes w (capture block) (map capture_node (Destinations plan)));
    [done|apply compileDestinations_ok|].
  intros block. apply triple_emits with (N := fun nodes => nodes = map control_node (Controls plan)).
  - intros b b' Hf Hok Ho. exists (map control_node (Controls plan)). split; [done|]. apply emits_rules_emits.
    refine (flow_effects_emit _ _ _ _ dv_set _ direct_id fr_Filter fr_Action 0 _ _ _ _ Hf Hok Ho).
    apply Plan_nodes in Hplan as (ds & cs & _ & -> & Hj & _). intros x Hx. cbn in Hx. by eapply Forall_forall in Hj.
  - apply mono_and; [done|]. apply mono_and; [apply mono_const|apply mono_block].
  - intros s e. apply triple_lift_bind. intros _ _. apply triple_lift_bind. intros con Hcon. apply triple_ret.
    intros w ((_ & Hc & Hcap) & _ & Hse & nodes & -> & Hd). exists plan. split; [done|]. split; [done|]. rewrite Hc in Hcon.
    eapply block_appendSpan_empty; [done..|apply Hd].
Qed.

Lemma add_conditioned_ok cond ids P : mono P -> triple (foldMM (add_conditioned cond) [] ids) P (fun w _ => P w).
Proof.
  intros HP. generalize (@nil nat). induction ids as [|id ids IH]; intros acc; cbn [foldMM]; [by apply triple_ret|].
  apply triple_bind with (Q := fun w _ => P w); [done| |intros acc'; eapply triple_weaken; [intros w [H _]; exact H|intros w a H; exact H|apply IH]].
  intros c w a c' Hok Hw Hrun. unfold add_conditioned in Hrun. destruct (fragments c !! id); [|done]. injection Hrun as <- <-.
  exists w. split; [apply w_le_refl|]. split; [by apply ok_with_fragments|done].
Qed.

Lemma flow_views_spec v : v ∈ flow_views -> v = mkView capture capture_nodes \/ v = mkView controls control_nodes.
Proof. unfold flow_views. rewrite elem_of_cons, list_elem_of_singleton. tauto. Qed.

Lemma shows_flow X w block : shows flow_views X w block <->
  (exists n, X (mkView capture capture_nodes) n /\ block_denotes w (capture block) n) /\
  (exists n, X (mkView controls control_nodes) n /\ block_denotes w (controls block) n).
Proof.
  split.
  - intros H. split; apply (H (mkView _ _)); unfold flow_views; rewrite elem_of_cons, list_elem_of_singleton; tauto.
  - intros [H1 H2] v Hv. by destruct (flow_views_spec v Hv) as [->| ->].
Qed.

Lemma conditionalFlowBlock_ok X body cond :
  triple (conditionalFlowBlock sha256 ahocorasick_IsValidChar regexp_Compile body cond) (fun w => shows flow_views X w body)
    (fun w block => shows flow_views (fun v nodes => exists ns, X v ns /\ nodes = use_nodes cond ns) w block).
Proof.
  unfold conditionalFlowBlock. set (P := fun w => shows flow_views X w body).
  assert (HP : mono P) by apply shows_mono.
  set (Y v (w : world) block := exists nodes, X v nodes /\ block_denotes w block (use_nodes cond nodes)).
  assert (HY : forall v block, mono (fun w => Y v w block)).
  { intros v block w w' Hle (nodes & Hx & Hd). exists nodes. split; [done|]. by eapply block_denotes_le. }
  eapply triple_bind; [done|apply (conditional_ok (X (mkView capture capture_nodes)) P); [done|]|].
  { intros w Hw. by apply shows_flow in Hw as [H _]. }
  intros cap. fold (Y (mkView capture capture_nodes)).
  eapply triple_bind; [apply mono_and; [done|]; apply mono_and; [done|apply HY]| |].
  { eapply triple_weaken; [intros w [H _]; exact H|intros w a H; exact H|]. apply (conditional_ok (X (mkView controls control_nodes)) P); [done|].
    intros w Hw. by apply shows_flow in Hw as [_ H]. }
  intros con. eapply triple_bind; [|apply add_conditioned_ok|].
  1, 2: repeat apply mono_and; first [done|apply HY].
  intros ids. apply triple_ret. intros w [[[_ [_ (n1 & Hx1 & Hd1)]] [_ (n2 & Hx2 & Hd2)]] _]. apply shows_flow.
  split; eexists; (split; [by eexists|done]).
Qed.

Lemma flowProgram_ok : program_ok flowProgram flow_views.
Proof.
  split.
  - intros v Hv. by destruct (flow_views_spec v Hv) as [->| ->].
  - intros v a b r Hv Hr. cbn in Hr. unfold flow_append in Hr.
    destruct (block_appendBlock (capture a) _) as [cap| |] eqn:E1; [|done..]. destruct (block_appendBlock (controls a) _) as [con| |] eqn:E2; [|done..].
    injection Hr as <-. by destruct (flow_views_spec v Hv) as [->| ->].
  - intros rs Hrs. eapply triple_weaken; [intros w H; exact H| |apply compileFlowBatch_ok].
    intros w block (plan & Hplan & H1 & H2). apply Plan_nodes in Hplan as (ds & cs & Hds & Hcs & _ & (n1 & Hn1 & Hc1) & n2 & Hn2 & Hc2).
    cbn in Hds, Hcs. rewrite Hds, <-Hc1 in H1. rewrite Hcs, <-Hc2 in H2. apply shows_flow. split; [exists (concat n1)|exists (concat n2)]; (split; [|done]); [by exists n1|by exists n2].
  - intros X body cond. apply conditionalFlowBlock_ok.
  - intros c w k block Hok Hl. by apply (ok_flows _ _ Hok).
  - intros c w k block Hok Hc. split; [|done]. destruct Hok as [H1 H2 H3 H4 H5 H6 H7]. split; cbn; try done.
    intros k' block'. rewrite lookup_insert_Some. intros [[<- <-]|[_ Hl]]; [done|by apply H5].
Qed.

(** ** Blocks of a policy *)

Lemma resolveStatements_ok stmts : statements_ok stmts ->
  triple (resolveStatements sha256 ahocorasick_IsValidChar regexp_Compile stmts) (fun _ => True)
    (fun w block => exists nodes, expands route_nodes stmts nodes /\ block_denotes w block nodes).
Proof.
  intros Hs. eapply triple_weaken; [intros w H; exact H| |by apply (resolveBlockStatements_ok _ _ routingProgram_ok)].
  intros w block H. apply (H (mkView (fun b => b) route_nodes)). by apply list_elem_of_singleton.
Qed.

Lemma resolveFlowStatements_ok stmts : statements_ok stmts ->
  triple (resolveFlowStatements sha256 ahocorasick_IsValidChar regexp_Compile stmts) (fun _ => True)
    (fun w block => exists caps cons, expands capture_nodes stmts caps /\ expands control_nodes stmts cons /\
       block_denotes w (capture block) caps /\ block_denotes w (controls block) cons).
Proof.
  intros Hs. eapply triple_weaken; [intros w H; exact H| |by apply (resolveBlockStatements_ok _ _ flowProgram_ok)].
  intros w block H. apply shows_flow in H as [(caps & H1 & H2) (cons & H3 & H4)]. by exists caps, cons.
Qed.
End Resolve.
