(* ===== verification/RoutingCompileCorrect.v ===== *)
(** * Correctness of the routing compiler

    Every profile of a compiled configuration evaluates as the nodes of its policy: the
    shared programs, the flow rules and the statements of the policy, in the order the
    compiler lays them out, and its fallback. *)

From stdpp Require Import sorting.
From S2P Require Import Prelude Netip ConfigSyntax RoutingInstr RoutingCursor RoutingEval RoutingEquiv RoutingSem RoutingEmit RoutingRules RoutingBuilder RoutingConfig RoutingConfigCorrect RoutingCompile RoutingDenote RoutingNodes RoutingPool RoutingKeys RoutingResolve.

(** Runs of a sequence. *)
Lemma M_bind_Ok {A B} (m : M A) (f : A -> M B) c r : (m ≫= f) c = Ok r -> exists a c1, m c = Ok (a, c1) /\ f a c1 = Ok r.
Proof. unfold mbind, M_bind. destruct (m c) as [[a c1]| |]; [|done..]. intros H. by exists a, c1. Qed.

Lemma lift_Ok {A} (r : res A) c a c' : lift r c = Ok (a, c') -> r = Ok a /\ c' = c.
Proof. unfold lift. destruct r; [|done..]. by intros [= -> ->]. Qed.

Tactic Notation "step" ident(H) "as" simple_intropattern(a) simple_intropattern(c) simple_intropattern(E) :=
  apply M_bind_Ok in H as (a & c & E & H).

Section Correct.
Context (ifenv : string -> Z) (members : string -> list bytes) (dv : string -> list string -> predicateResult).
Context (sha256 : bytes -> bytes).
Context (dv_set : forall key vs vs', (forall v, v ∈ vs <-> v ∈ vs') -> dv key vs = dv key vs').
Context (outbounds : gmap string Z) (direct_id : outbounds !! "direct"%string = Some OutboundDirect).
Context {Regexp : Type} (ahocorasick_IsValidChar : Z -> bool) (regexp_Compile : bytes -> option Regexp).
Context (sets : gmap string (list RoutingStatement)).
Context (sets_ok : forall name body, sets !! name = Some body -> statements_ok body).

Local Abbreviation denotes := (denotes ifenv members dv).
Local Abbreviation block_denotes := (block_denotes ifenv members dv).
Local Abbreviation represents := (represents ifenv).
Local Abbreviation extends := (extends ifenv).
Local Abbreviation ok := (ok ifenv members dv outbounds sets).
Local Abbreviation triple := (triple ifenv members dv outbounds sets).
Local Abbreviation rule_node := (rule_node outbounds).

(** ** The nodes of a policy *)

Definition http_nodes (flags : Z) (predicates : list (list Function)) : list node :=
  match predicates with
  | [] => []
  | _ => [NBlock GHTTPClient (map (effect_node MatchActionCapture flags) predicates)]
  end.

Definition request_nodes (p : preparedRules) : list node :=
  match pr_capture p with Some (request, _) => http_nodes (Z.lor captureHTTP captureHTTPRequest) request | None => [] end.
Definition capture_http_nodes (p : preparedRules) : list node :=
  match pr_capture p with Some (_, http) => http_nodes captureHTTP http | None => [] end.

Definition flowEnd_nodes (controls : list node) : list node :=
  if is_empty controls then [] else [NRule GAlways flowEnd_tail].

(** The program of a policy: the bypass routes, the rewrites of its flow rules and the
    shared ones, the request capture, the controls and the HTTP capture with the end of
    the flow rules after them, then the early routes, the statements, the late routes
    and the fallback. *)
Definition policy_nodes (p : preparedRules) (policy : RoutingPolicy) (nodes : list node) : Prop :=
  exists bypass early late caps cons body fallback o id,
    mapM rule_node (pr_bypass p) = Some bypass /\ mapM rule_node (pr_earlyRoutes p) = Some early /\
    mapM rule_node (pr_lateRoutes p) = Some late /\
    expands sets capture_nodes (po_Rules policy) caps /\ expands sets control_nodes (po_Rules policy) cons /\
    expands sets (route_nodes outbounds) (po_Statements policy) body /\
    po_Fallback policy = Some fallback /\ ParseOutbound fallback = Ok o /\ outbounds !! o_Name o = Some id /\
    nodes = map bypass_node bypass ++ caps ++ map capture_node (pr_destinations p) ++ request_nodes p ++
            cons ++ capture_http_nodes p ++ flowEnd_nodes (cons ++ capture_http_nodes p) ++
            early ++ body ++ late ++ [NRule GAlways (route_tail o id)].

(** A policy has one program. *)
Lemma policy_nodes_fun p policy nodes nodes' : policy_nodes p policy nodes -> policy_nodes p policy nodes' -> nodes = nodes'.
Proof.
  intros (by1 & ea1 & la1 & ca1 & co1 & bo1 & f1 & o1 & id1 & A1 & A2 & A3 & A4 & A5 & A6 & A7 & A8 & A9 & ->)
    (by2 & ea2 & la2 & ca2 & co2 & bo2 & f2 & o2 & id2 & B1 & B2 & B3 & B4 & B5 & B6 & B7 & B8 & B9 & ->).
  pose proof (expands_fun _ _ _ _ _ A4 B4). pose proof (expands_fun _ _ _ _ _ A5 B5). pose proof (expands_fun _ _ _ _ _ A6 B6).
  assert (by1 = by2) by congruence. assert (ea1 = ea2) by congruence. assert (la1 = la2) by congruence. assert (f1 = f2) by congruence. subst.
  assert (o1 = o2) by congruence. subst. assert (id1 = id2) by congruence. by subst.
Qed.

(** ** Spans with a meaning *)

Definition span_denotes (w : world) (s : routingSpan) (nodes : list node) : Prop := span_wf s /\ denotes w [s] nodes.

Lemma span_denotes_le w w' s nodes : w_le w w' -> span_denotes w s nodes -> span_denotes w' s nodes.
Proof. intros Hle [H1 H2]. split; [done|]. by eapply denotes_le. Qed.

Lemma zero_span_denotes w : span_denotes w zero_span [].
Proof. split; [unfold span_wf; cbn; lia|]. exists []. split; [constructor|]. split; [|done]. apply Forall_singleton. unfold span_wf. cbn. lia. Qed.

(** An HTTP capture means its block as long as the pool is small. *)
Definition http_span (w : world) (s : routingSpan) (nodes : list node) : Prop :=
  span_wf s /\ End_ s <= length (emit_pool (w_pool w)) /\ (End_ s <= MaxMatchSetLen -> denotes w [s] nodes).

Lemma pool_length_le w w' : w_le w w' -> length (emit_pool (w_pool w)) <= length (emit_pool (w_pool w')).
Proof. intros [_ [ks ->]]. rewrite emit_pool_app, length_app. lia. Qed.

Lemma http_span_le w w' s nodes : w_le w w' -> http_span w s nodes -> http_span w' s nodes.
Proof.
  intros Hle (Hw & He & Hd). split; [done|]. pose proof (pool_length_le _ _ Hle). split; [lia|]. intros Hmax. eapply denotes_le; [done|]. by apply Hd.
Qed.

Lemma setConditionalJump_spec rs i n rs' : setConditionalJump rs i n = Some rs' ->
  exists m, rs !! i = Some m /\ rs' = <[i := conditional n m]> rs.
Proof. unfold setConditionalJump. destruct (rs !! i) as [m|]; [|done]. intros [= <-]. by exists m. Qed.

Lemma compileHTTPCapture_ok predicates flags phase :
  triple (compileHTTPCapture sha256 predicates flags phase) (fun _ => True) (fun w s => http_span w s (http_nodes flags predicates)).
Proof.
  unfold compileHTTPCapture. destruct predicates as [|pr prs]; cbn [is_empty].
  { apply triple_ret. intros w _. destruct (zero_span_denotes w) as [H1 H2]. split; [done|]. split; [cbn; lia|done]. }
  intros c w s c' Hok _ H. step H as start c0 E. injection E as <- <-. step H as [] c0 E. injection E as <-.
  step H as [] c1 E. unfold on_builder in E. cbn [builder with_builder] in E.
  destruct (foldM _ _ _) as [b2| |] eqn:Ef; [|done..]. injection E as <-.
  step H as end_ c1 E. injection E as <- <-. step H as [] c1 E. unfold on_builder in E. cbn [builder with_builder] in E.
  destruct (setConditionalJump _ _ _) as [rs|] eqn:Es; [|done]. injection E as <-. injection H as <- <-.
  apply setConditionalJump_spec in Es as (mt & Hmt & ->).
  destruct (http_capture_emits ifenv members _ _ dv_set _ direct_id _ _ _ _ _ Ef Hmt (proj1 (ok_rep _ _ _ _ _ _ _ Hok)) (ok_out _ _ _ _ _ _ _ Hok)) as (ks & Hx & Hb & Hks & Hbuilds).
  set (b3 := with_rules b2 _) in Hx, Hb, Hbuilds.
  destruct (represents_extends _ _ _ _ _ (ok_rep _ _ _ _ _ _ _ Hok) Hx Hb Hks) as [Hle Hrep].
  destruct (ok_with_builder _ _ _ _ _ _ _ _ _ _ Hok Hle Hrep Hx) as [Hok' Hfr].
  assert (Hlen : length (rules b3) = length (rules b2)) by apply length_insert.
  pose proof (extends_length _ _ _ _ Hx) as Hl. eexists. split; [exact Hle|]. split; [exact Hok'|]. split; [done|]. rewrite <-Hlen. split_and!.
  - unfold span_wf. cbn [Start End_]. lia.
  - cbn [End_]. by rewrite (represents_length _ _ _ Hrep).
  - cbn [End_]. intros Hmax. apply built_span; [by apply (ok_rep _ _ _ _ _ _ _ Hok)|done|]. apply Hbuilds. lia.
Qed.

(** ** Shared programs *)

Record shared_ok (p : preparedRules) (w : world) (sh : sharedRoutingPrograms) : Prop := {
  sho_bypass : exists nodes, mapM rule_node (pr_bypass p) = Some nodes /\ span_denotes w (sh_bypass sh) (map bypass_node nodes);
  sho_destinations : block_denotes w (capture (sh_destinations sh)) (map capture_node (pr_destinations p));
  sho_request : span_denotes w (sh_request sh) (request_nodes p);
  sho_http : span_denotes w (sh_http sh) (capture_http_nodes p);
  sho_early : exists nodes, mapM rule_node (pr_earlyRoutes p) = Some nodes /\ span_denotes w (sh_early sh) nodes;
  sho_late : exists nodes, mapM rule_node (pr_lateRoutes p) = Some nodes /\ span_denotes w (sh_late sh) nodes;
}.

Lemma shared_ok_le p w w' sh : w_le w w' -> shared_ok p w sh -> shared_ok p w' sh.
Proof.
  intros Hle [(n1 & H1 & D1) H2 H3 H4 (n2 & H5 & D2) (n3 & H6 & D3)].
  split; [|by eapply block_denotes_le|by eapply span_denotes_le..| |].
  - exists n1. split; [done|]. by eapply span_denotes_le.
  - exists n2. split; [done|]. by eapply span_denotes_le.
  - exists n3. split; [done|]. by eapply span_denotes_le.
Qed.

(** The captures of the request and of other HTTP flows. *)
Lemma compile_captures_ok p :
  triple (match pr_capture p with
          | None => mret (zero_span, zero_span)
          | Some (request, http) =>
            r ← compileHTTPCapture sha256 request (Z.lor captureHTTP captureHTTPRequest) routingPhaseIngress;
            h ← compileHTTPCapture sha256 http captureHTTP routingPhaseFlow;
            mret (r, h)
          end) (fun _ => True)
    (fun w caps => http_span w caps.1 (request_nodes p) /\ http_span w caps.2 (capture_http_nodes p)).
Proof.
  unfold request_nodes, capture_http_nodes. destruct (pr_capture p) as [[request http]|].
  - eapply triple_bind; [done|apply compileHTTPCapture_ok|]. intros r.
    eapply triple_bind; [|apply triple_true, compileHTTPCapture_ok|].
    { intros w w' Hle [_ H]. split; [done|]. by eapply http_span_le. }
    intros h. apply triple_ret. intros w [[_ H1] H2]. done.
  - apply triple_ret. intros w _. destruct (zero_span_denotes w) as [H1 H2].
    assert (Hz : http_span w zero_span []) by (split; [done|]; split; [cbn; lia|done]). done.
Qed.

Lemma bypass_ok start rs c w b : ok c w -> Forall rule_proper rs -> start = length (rules (builder c)) ->
  applyRules sha256 rs (builder c) = Ok b ->
  let c' := with_builder c (with_rules b (mark_bypass start (rules b))) in
  exists w' nodes, w_le w w' /\ ok c' w' /\ frame c c' /\ mapM rule_node rs = Some nodes /\
    span_denotes w' (mkSpan start (length (rules (builder c'))) routingPhaseIngress true) (map bypass_node nodes).
Proof.
  intros Hok Hrs -> Hb c'. pose proof (ok_rep _ _ _ _ _ _ _ Hok) as Hrep.
  destruct (applyRules_emits ifenv members _ _ dv_set _ _ _ _ Hrs Hb (proj1 Hrep) (ok_out _ _ _ _ _ _ _ Hok)) as (nodes & Hn & He).
  apply mark_bypass_emits, emits_rules_emits in He.
  destruct (emitted_span _ _ _ _ _ _ _ routingPhaseIngress true Hrep He) as (w' & Hle & Hrep' & Hd).
  destruct He as (ks & Hx & _). destruct (ok_with_builder _ _ _ _ _ _ _ _ _ _ Hok Hle Hrep' Hx) as [Hok' Hfr].
  exists w', nodes. split_and!; try done. split; [|done]. pose proof (extends_length _ _ _ _ Hx). unfold span_wf, c'. cbn [Start End_ builder with_builder]. lia.
Qed.

Lemma compileShared_ok p c w c' : ok c w -> Forall rule_proper (pr_bypass p) -> Forall rule_proper (pr_earlyRoutes p) ->
  Forall rule_proper (pr_lateRoutes p) -> compileShared sha256 p c = Ok (tt, c') ->
  exists w', w_le w w' /\ ok c' w' /\ shared_ok p w' (shared c') /\ b_profiles (builder c') = b_profiles (builder c).
Proof.
  intros Hok Hby Hea Hla H. unfold compileShared in H. step H as start c0 E. injection E as <- <-.
  step H as [] c0 E. unfold on_builder in E. destruct (applyRules _ _ _) as [b| |] eqn:Eb; [|done..]. injection E as <-.
  step H as [] c0 E. injection E as <-. step H as end_ c0 E. injection E as <- <-.
  destruct (bypass_ok _ _ _ _ _ Hok Hby eq_refl Eb) as (w1 & by_ & Hle1 & Hok1 & Hfr1 & Hby_ & Hd1).
  change (with_builder (with_builder c b) ?b') with (with_builder c b') in H. set (c1 := with_builder c _) in *.
  step H as dest c2 E. destruct (compileDestinations_ok _ _ _ _ dv_set _ direct_id _ _ _ _ _ _ _ Hok1 I E) as (w2 & Hle2 & Hok2 & Hfr2 & _ & Hd2); clear E.
  step H as caps c3 E. destruct (compile_captures_ok _ _ _ _ _ Hok2 I E) as (w3 & Hle3 & Hok3 & Hfr3 & Hd3 & Hd3'); clear E.
  step H as early c4 E. destruct (compileRuleBatch_ok _ _ _ _ dv_set _ _ _ Hea _ _ _ _ Hok3 I E) as (w4 & Hle4 & Hok4 & Hfr4 & Hw4 & Hmax & _ & n4 & Hn4 & Hd4); clear E.
  step H as late c5 E. destruct (compileRuleBatch_ok _ _ _ _ dv_set _ _ _ Hla _ _ _ _ Hok4 I E) as (w5 & Hle5 & Hok5 & Hfr5 & Hw5 & _ & _ & n5 & Hn5 & Hd5); clear E.
  injection H as <-. exists w5.
  assert (L45 : w_le w4 w5) by done. assert (L35 : w_le w3 w5) by by eapply w_le_trans. assert (L25 : w_le w2 w5) by by eapply w_le_trans.
  assert (L15 : w_le w1 w5) by by eapply w_le_trans.
  assert (Hhttp : forall s ns, http_span w3 s ns -> span_denotes w5 s ns).
  { intros s ns (Hw & He & Hd). split; [done|]. eapply denotes_le; [exact L35|]. apply Hd. pose proof (pool_length_le _ _ Hle4). lia. }
  split_and!; [by eapply w_le_trans| | |].
  - destruct Hok5 as [O1 O2 O3 O4 O5 O6 O7]. by split.
  - split; cbn [shared with_shared sh_bypass sh_destinations sh_request sh_http sh_early sh_late].
    + exists by_. split; [done|]. by eapply span_denotes_le.
    + eapply block_denotes_le; [exact L25|done].
    + by apply Hhttp.
    + by apply Hhttp.
    + exists n4. split; [done|]. split; [exact Hw4|]. eapply denotes_le; [exact L45|]. apply Hd4.
    + exists n5. split; [done|]. split; [exact Hw5|]. apply Hd5.
  - assert (Hfr : frame c c5) by (do 4 (eapply frame_trans; [eassumption|]); assumption). apply Hfr.
Qed.

(** ** Profiles *)

Lemma append_blocks_denotes w blocks nss : Forall2 (denotes w) blocks nss -> forall block nodes r,
  append_blocks block blocks = Ok r -> denotes w block nodes -> denotes w r (nodes ++ concat nss).
Proof.
  unfold append_blocks. induction 1 as [|b ns blocks nss Hb H IH]; intros block nodes r; cbn [foldM].
  { intros [= <-] Hd. by rewrite app_nil_r. }
  destruct (block_appendBlock block b) as [blk| |] eqn:E; [|done..]. cbn [mbind res_bind]. intros Hr Hd. cbn [concat]. rewrite app_assoc.
  apply (IH _ _ _ Hr). by eapply block_appendBlock_denotes.
Qed.

Lemma flowEnd_tail_wf : tail_wf flowEnd_tail /\ (0 <= Mark flowEnd_tail)%Z.
Proof. done. Qed.

Lemma use_flowEnd_ok : triple use_flowEnd (fun _ => True) (fun w s => span_denotes w s [NRule GAlways flowEnd_tail]).
Proof.
  intros c w s c' Hok _ H. unfold use_flowEnd in H. step H as span c0 E. injection E as <- <-.
  destruct (span_len (flowEnd c) =? 0) eqn:Ez.
  2: { injection H as <- <-. exists w. split; [apply w_le_refl|]. split; [done|]. split; [done|].
    destruct (ok_flowEnd _ _ _ _ _ _ _ Hok) as [Hz|Hd]; [by apply Nat.eqb_neq in Ez|]. split; [|done]. destruct Hd as (its & _ & Hw & _). by inversion Hw. }
  step H as start c0 E. injection E as <- <-. step H as [] c0 E. injection E as <-. step H as [] c0 E. injection E as <-. injection H as <- <-.
  pose proof (ok_rep _ _ _ _ _ _ _ Hok) as Hrep.
  pose proof (append_always ifenv members dv (builder c) flowEnd_tail (proj1 Hrep) (proj1 flowEnd_tail_wf) (proj2 flowEnd_tail_wf)) as He.
  apply emits_rules_emits in He.
  destruct (emitted_span _ _ _ _ _ _ _ routingPhaseFlow false Hrep He) as (w' & Hle & Hrep' & Hd).
  destruct He as (ks & Hx & _). destruct (ok_with_builder _ _ _ _ _ _ _ _ _ _ Hok Hle Hrep' Hx) as [Hok' Hfr].
  cbn [rules with_rules] in Hd. rewrite length_app, Nat.add_1_r in Hd. exists w'. split; [done|].
  assert (Hs : span_denotes w' (mkSpan (length (rules (builder c))) (S (length (rules (builder c)))) routingPhaseFlow false) [NRule GAlways flowEnd_tail]).
  { split; [unfold span_wf; cbn; lia|done]. }
  split; [|by split]. destruct Hok' as [O1 O2 O3 O4 O5 O6 O7]. split; try done. right. exact Hd.
Qed.

Lemma lookup_fallback_Some l m s : lookup_fallback l m = Some s -> (m, s) ∈ l.
Proof.
  unfold lookup_fallback. destruct (List.filter _ l) as [|[k s'] l'] eqn:E; [done|]. intros [= <-].
  assert (Hin : In (k, s') (List.filter (fun e : bpfMatchSet * routingSpan => bool_decide (e.1 = m)) l)) by (rewrite E; by left).
  apply filter_In in Hin as [Hin Hk]. apply bool_decide_eq_true in Hk. cbn in Hk. subst k. by apply list_elem_of_In.
Qed.

Lemma addFallback_ok o id : (0 <= o_Mark o)%Z ->
  triple (in_builder (addFallback (tail_instr 0 (route_tail o id) (MatchType_Fallback, zero16)))) (fun _ => True)
    (fun w s => span_denotes w s [NRule GAlways (route_tail o id)]).
Proof.
  intros Hm c w s c' Hok _ H. unfold in_builder, addFallback in H. set (m := tail_instr 0 (route_tail o id) _) in *.
  destruct (lookup_fallback _ m) as [existing|] eqn:El.
  - injection H as <- <-. exists w. split; [apply w_le_refl|]. destruct (ok_fallbacks _ _ _ _ _ _ _ Hok _ _ (lookup_fallback_Some _ _ _ El)) as (o' & id' & Hm' & Hw & Hd).
    apply fallback_tail_inj in Hm'. rewrite Hm'. by destruct c.
  - destruct (_ <=? _); [done|]. injection H as <- <-. pose proof (ok_rep _ _ _ _ _ _ _ Hok) as Hrep.
    destruct (route_tail_wf o id Hm) as [Ht Hmark].
    pose proof (emits_rules_emits _ _ _ _ _ _ (append_always ifenv members dv (builder c) _ (proj1 Hrep) Ht Hmark)) as He. fold m in He.
    destruct (emitted_span _ _ _ _ _ _ _ routingPhaseRoute false Hrep He) as (w' & Hle & Hrep' & Hd).
    destruct He as (ks & Hx & _). destruct (ok_with_builder _ _ _ _ _ _ _ _ _ _ Hok Hle Hrep' Hx) as [Hok' Hfr].
    cbn [rules with_rules] in Hd. rewrite length_app, Nat.add_1_r in Hd. exists w'. split; [done|].
    split; [|split; [done|split; [unfold span_wf; cbn; lia|exact Hd]]]. destruct Hok' as [O1 O2 O3 O4 O5 O6 O7]. split; try done. cbn. intros m' s'. rewrite elem_of_app, list_elem_of_singleton.
    intros [Hin|[= -> ->]]; [by apply O7|]. exists o, id. split; [done|]. split; [unfold span_wf; cbn; lia|exact Hd].
Qed.

Lemma span_denotes_empty w s nodes : span_denotes w s nodes -> (span_len s =? 0) = is_empty nodes.
Proof.
  intros [Hw Hd]. destruct (span_len s =? 0) eqn:E.
  - apply Nat.eqb_eq in E. assert (Hnil : denotes w [] nodes).
    { eapply denotes_code; [|constructor|exact Hd]. by rewrite code_of_single, E. }
    assert (Hn : nodes = []) by (apply (denotes_empty _ _ _ _ _ _ Hnil); [constructor|done]). by subst.
  - apply Nat.eqb_neq in E. destruct nodes; [|done]. exfalso.
    assert (Hs : [s] = []) by (apply (denotes_empty _ _ _ _ _ _ Hd); [|done]; apply Forall_singleton; unfold span_wf, span_len in *; lia). done.
Qed.

Lemma block_denotes_empty w spans nodes : block_denotes w spans nodes -> is_empty spans = is_empty nodes.
Proof.
  intros [Hd Hs]. pose proof (denotes_empty _ _ _ _ _ _ Hd Hs) as [H1 H2]. destruct spans, nodes; try done; [by specialize (H1 eq_refl)|by specialize (H2 eq_refl)].
Qed.

Definition policy_ok (policy : RoutingPolicy) : Prop :=
  statements_ok (po_Rules policy) /\ statements_ok (po_Statements policy) /\
  forall f, po_Fallback policy = Some f -> f_Name f <> OutboundIndex_String OutboundLogicalOr /\ f_Name f <> OutboundIndex_String OutboundLogicalAnd.

(** The head of a profile: everything before the early routes. *)
Lemma profile_head_ok p w c flow caps cons block block' c' : ok c w -> shared_ok p w (shared c) ->
  block_denotes w (capture flow) caps -> block_denotes w (controls flow) cons ->
  let sh := shared c in
  append_blocks [] [[sh_bypass sh]; capture flow; capture (sh_destinations sh); [sh_request sh]; controls flow; [sh_http sh]] = Ok block ->
  (if negb (is_empty (controls flow)) || negb (span_len (sh_http sh) =? 0)
   then span ← use_flowEnd; lift (block_appendSpan block span)
   else mret block) c = Ok (block', c') ->
  exists w' bypass, w_le w w' /\ ok c' w' /\ frame c c' /\ mapM rule_node (pr_bypass p) = Some bypass /\
    denotes w' block' (map bypass_node bypass ++ caps ++ map capture_node (pr_destinations p) ++ request_nodes p ++
      cons ++ capture_http_nodes p ++ flowEnd_nodes (cons ++ capture_http_nodes p)).
Proof.
  intros Hok Hsh Hcap Hcon sh Hb H. destruct Hsh as [(by_ & Hby & [_ Db]) [Dd _] [_ Dr] Dh _ _].
  assert (Hblock : denotes w block (map bypass_node by_ ++ caps ++ map capture_node (pr_destinations p) ++ request_nodes p ++ cons ++ capture_http_nodes p)).
  { rewrite <-(app_nil_r (capture_http_nodes p)).
    refine (append_blocks_denotes w _ [_; _; _; _; _; _] _ [] [] block Hb (denotes_nil _ _ _ _)).
    repeat (apply Forall2_cons; split; [first [done|apply Hcap|apply Hcon|apply Dh]|]). constructor. }
  unfold flowEnd_nodes. subst sh. rewrite (block_denotes_empty _ _ _ Hcon), (span_denotes_empty _ _ _ Dh) in H.
  replace (negb (is_empty cons) || negb (is_empty (capture_http_nodes p))) with (negb (is_empty (cons ++ capture_http_nodes p))) in H by by destruct cons.
  destruct (is_empty (cons ++ capture_http_nodes p)); cbn [negb] in H.
  - injection H as <- <-. exists w, by_. split; [apply w_le_refl|]. split_and!; try done. by rewrite app_nil_r.
  - step H as span c1 E. apply lift_Ok in H as [Happ ->]. destruct (use_flowEnd_ok _ _ _ _ Hok I E) as (w' & Hle & Hok' & Hfr & Hw & Hd).
    exists w', by_. split_and!; try done. pose proof (block_appendSpan_denotes _ _ _ _ _ _ _ _ _ Happ Hw (denotes_le _ _ _ _ _ _ _ Hle Hblock) Hd) as Hall. by rewrite <-!app_assoc in Hall.
Qed.

Local Abbreviation addProfile := (addProfile sha256 ahocorasick_IsValidChar regexp_Compile).

(** A profile is compiled from its policy. *)
Definition profile_of (p : preparedRules) (w : world) (policy : RoutingPolicy) (profile : routingProfile) : Prop :=
  Name profile = po_Name policy /\ exists nodes, policy_nodes p policy nodes /\ denotes w (Spans profile) nodes.

Lemma addProfile_ok p id interfaces policy c w c' : ok c w -> shared_ok p w (shared c) -> policy_ok policy ->
  addProfile id interfaces policy c = Ok (tt, c') ->
  exists w' profile, w_le w w' /\ ok c' w' /\ shared c' = shared c /\ b_profiles (builder c') = b_profiles (builder c) ++ [profile] /\
    ID profile = id /\ InterfaceNames profile = interfaces /\ profile_of p w' policy profile /\
    defaultProfile (builder c') = defaultProfile (builder c).
Proof.
  intros Hok Hsh (Hst1 & Hst2 & Hfb) H. unfold RoutingCompile.addProfile in H.
  step H as flow c1 E. destruct (resolveFlowStatements_ok _ _ _ _ dv_set _ direct_id _ _ _ sets_ok _ Hst1 _ _ _ _ Hok I E) as (w1 & L1 & Hok1 & F1 & caps & cons & Xc & Xn & Dc & Dn); clear E.
  step H as body c2 E. destruct (resolveStatements_ok _ _ _ _ dv_set _ direct_id _ _ _ sets_ok _ Hst2 _ _ _ _ Hok1 I E) as (w2 & L2 & Hok2 & F2 & bn & Xb & Db & _); clear E.
  assert (Hs2 : shared c2 = shared c) by (rewrite (proj1 F2); apply F1).
  step H as sh c3 E. injection E as <- <-. step H as head c3 E. apply lift_Ok in E as [Eh ->].
  step H as block c3 E.
  assert (Hsh2 : shared_ok p w2 (shared c2)) by (rewrite Hs2; eapply shared_ok_le; [|exact Hsh]; by eapply w_le_trans).
  destruct (profile_head_ok p w2 c2 flow caps cons head block c3 Hok2 Hsh2 (block_denotes_le _ _ _ _ _ _ _ L2 Dc) (block_denotes_le _ _ _ _ _ _ _ L2 Dn) Eh E) as (w3 & by_ & L3 & Hok3 & F3 & Hby & Dh); clear E.
  step H as full c4 E. apply lift_Ok in E as [Ef ->]. step H as raw c4 E. apply lift_Ok in E as [Er ->].
  destruct (po_Fallback policy) as [fb|] eqn:Efb; [|done]. injection Er as <-.
  step H as fm c4 E. destruct (parseFallback fb (builder c3)) as [m| |] eqn:Ep; [|done..]. injection E as <- <-.
  destruct (Hfb _ eq_refl) as [Hor Hand]. destruct (parseFallback_tail _ _ _ Hor Hand Ep) as (o & oid & Ho & Hid & Hmk & ->).
  rewrite (ok_out _ _ _ _ _ _ _ Hok3) in Hid.
  step H as span c4 E. destruct (addFallback_ok o oid Hmk _ _ _ _ Hok3 I E) as (w4 & L4 & Hok4 & F4 & Wf & Df); clear E.
  step H as last c5 E. apply lift_Ok in E as [El ->]. step H as [] c5 E. injection E as <-. injection H as <-.
  destruct Hsh2 as [_ _ _ _ (early & He & [_ De]) (late & Hl & [_ Dl])].
  assert (L24 : w_le w2 w4) by by eapply w_le_trans.
  assert (Hparts : Forall2 (denotes w4) [[sh_early (shared c2)]; body; [sh_late (shared c2)]] [early; bn; late]).
  { repeat (apply Forall2_cons; split; [eapply denotes_le; [exact L24|assumption]|]). constructor. }
  pose proof (append_blocks_denotes _ _ _ Hparts _ _ _ Ef (denotes_le _ _ _ _ _ _ _ L4 Dh)) as Hfull.
  pose proof (block_appendSpan_denotes _ _ _ _ _ _ _ _ _ El Wf Hfull Df) as Hlast. cbn [concat] in Hlast. rewrite app_nil_r, <-!app_assoc in Hlast.
  exists w4, (mkRoutingProfile id (po_Name policy) interfaces last []). split; [eapply w_le_trans; [exact L1|]; by eapply w_le_trans|]. split; [|split; [|split; [|split; [reflexivity|split; [reflexivity|]]]]].
  - destruct Hok4 as [O1 O2 O3 O4 O5 O6 O7]. by split.
  - cbn. rewrite (proj1 F4), (proj1 F3). exact Hs2.
  - cbn. assert (Hfr : frame c c4) by (do 3 (eapply frame_trans; [eassumption|]); assumption). by rewrite (proj1 (proj2 Hfr)).
  - split; [split; [done|]; eexists; split; [|exact Hlast]; by exists by_, early, late, caps, cons, bn, fb, o, oid|].
    assert (Hfr : frame c c4) by (do 3 (eapply frame_trans; [eassumption|]); assumption). apply Hfr.
Qed.

(** ** The routing section *)

Definition bound_profile (routing : Routing) (p : preparedRules) (w : world) (binding : string * list string) (profile : routingProfile) : Prop :=
  InterfaceNames profile = binding.2 /\ profile_of p w (find_policy routing binding.1) profile.

Lemma bound_profile_le routing p w w' binding profile : w_le w w' -> bound_profile routing p w binding profile -> bound_profile routing p w' binding profile.
Proof. intros Hle (H1 & H2 & nodes & Hn & Hd). split; [done|]. split; [done|]. exists nodes. split; [done|]. by eapply denotes_le. Qed.

Lemma find_policy_ok routing name : Forall policy_ok (Policies routing) -> policy_ok (find_policy routing name).
Proof.
  intros H. unfold find_policy. destruct (last _) as [policy|] eqn:E; cbn; [|split; [constructor|split; [constructor|done]]].
  apply last_Some_elem_of, list_elem_of_In, filter_In in E as [Hin _]. eapply Forall_forall in H; [exact H|]. by apply list_elem_of_In.
Qed.

(** A fold that leaves the compiler alone. *)
Lemma foldMM_state {A S} (f : S -> A -> M S) l : (forall s a c s' c', f s a c = Ok (s', c') -> c' = c) ->
  forall s c s' c', foldMM f s l c = Ok (s', c') -> c' = c.
Proof.
  intros Hf. induction l as [|a l IH]; intros s c s' c' H; cbn [foldMM] in H; [by injection H|].
  step H as s1 c1 E. apply Hf in E as ->. by eapply IH.
Qed.

Lemma with_validator_state m c r : with_validator sha256 ahocorasick_IsValidChar regexp_Compile m c = Ok r -> r = (tt, c).
Proof.
  unfold with_validator. destruct (m _) as [[[] v]| |]; [|done..]. cbn. destruct (finish _ v) as [[[] v']| |]; [|done..]. cbn.
  destruct (validatePredicates _ _ _) as [[]| |]; [|done..]. by intros [= <-].
Qed.

Lemma validateUnusedRuleSets_state l c r : validateUnusedRuleSets sha256 ahocorasick_IsValidChar regexp_Compile l c = Ok r -> r = (tt, c).
Proof.
  destruct r as [[] c']. intros H. unfold validateUnusedRuleSets in H. step H as names c1 E. injection E as _ <-. f_equal.
  eapply foldMM_state; [|exact H]. intros [] set c0 [] c2. destruct (existsb _ _); [by intros [= ->]|].
  intros E. step E as kinds c3 E'. injection E' as _ <-. apply with_validator_state in E. congruence.
Qed.

Lemma add_profiles_ok p routing bindings : Forall policy_ok (Policies routing) -> forall i c w c' i',
  ok c w -> shared_ok p w (shared c) ->
  foldMM (fun i '(name, interfaces) => _ ← addProfile i interfaces (find_policy routing name); mret (i + 1)%Z) i bindings c = Ok (i', c') ->
  exists w' new, w_le w w' /\ ok c' w' /\ b_profiles (builder c') = b_profiles (builder c) ++ new /\
    Forall2 (bound_profile routing p w') bindings new /\ map ID new = map (fun k => i + Z.of_nat k)%Z (seq 0 (length bindings)) /\
    defaultProfile (builder c') = defaultProfile (builder c).
Proof.
  intros Hpol. induction bindings as [|[name ifs] bindings IH]; intros i c w c' i' Hok Hsh H; cbn [foldMM] in H.
  { injection H as <- <-. exists w, []. rewrite app_nil_r. split; [apply w_le_refl|]. by split_and!. }
  step H as i1 c1 E. step E as [] c2 E'. injection E as <- <-.
  destruct (addProfile_ok _ _ _ _ _ _ _ Hok Hsh (find_policy_ok _ _ Hpol) E') as (w1 & prof & L1 & Hok1 & Hs1 & Hp1 & Hid & Hif & Hprof & Hdf).
  assert (Hsh1 : shared_ok p w1 (shared c2)) by (rewrite Hs1; by eapply shared_ok_le).
  destruct (IH _ _ _ _ _ Hok1 Hsh1 H) as (w2 & new & L2 & Hok2 & Hp2 & Hnew & Hids & Hdf2).
  exists w2, (prof :: new). split; [by eapply w_le_trans|]. split; [done|]. split; [by rewrite Hp2, Hp1, <-app_assoc|]. split; [|split; [|congruence]].
  - apply Forall2_cons. split; [|done]. eapply bound_profile_le; [exact L2|]. by split.
  - cbn [map length seq]. rewrite Hid, Hids, Z.add_0_r, <-seq_shift, map_map. f_equal. apply map_ext. intros k. lia.
Qed.

Lemma compile_ok p routing c w c' : Forall policy_ok (Policies routing) -> ok c w -> shared_ok p w (shared c) ->
  compile sha256 ahocorasick_IsValidChar regexp_Compile routing c = Ok (tt, c') ->
  exists w' new, w_le w w' /\ ok c' w' /\ b_profiles (builder c') = b_profiles (builder c) ++ new /\
    Forall2 (bound_profile routing p w') (profile_bindings routing) new /\
    map ID new = map (fun k => 1 + Z.of_nat k)%Z (seq 0 (length (profile_bindings routing))) /\ defaultProfile (builder c') = 1%Z.
Proof.
  intros Hpol Hok Hsh H. unfold compile in H. step H as [] c1 E. injection E as <-.
  step H as i c2 E. step H as [] c3 E'. apply validateUnusedRuleSets_state in H. injection H as ->.
  assert (c3 = c2) as ->.
  { eapply foldMM_state; [|exact E']. intros [] policy c0 [] c4. destruct (existsb _ _); [by intros [= ->]|]. intros Ev.
    apply with_validator_state in Ev. congruence. }
  refine (add_profiles_ok _ _ _ Hpol _ _ _ _ _ _ _ E); [|done]. destruct Hok as [O1 O2 O3 O4 O5 O6 O7]. by split.
Qed.

(** ** Destination predicates *)

Definition miss_tail : bpfMatchSet := mkMatch zero16 0 MatchActionMiss 0 0 0.
Definition match_nodes (filter : list Function) : list node :=
  [effect_node MatchActionMatch 0 filter; NRule GAlways miss_tail].

(** A compiled rewrite: its filter as a program that matches or misses. *)
Definition predicate_of (w : world) (rule : DestinationRewrite) (d : destinationPredicate) : Prop :=
  d_targets d = dr_To rule /\ d_port d = dr_Port rule /\
  d_domain d = existsb (fun f => String.eqb (f_Name f) Function_Domain) (dr_Filter rule) /\
  span_denotes w (d_span d) (match_nodes (dr_Filter rule)).

Lemma predicate_of_le w w' rule d : w_le w w' -> predicate_of w rule d -> predicate_of w' rule d.
Proof. intros Hle (H1 & H2 & H3 & H4). split_and!; try done. by eapply span_denotes_le. Qed.

Lemma set_last_ext rs F G : (forall m, F m = G m) -> set_last rs F = set_last rs G.
Proof. intros H. unfold set_last. destruct (last rs); cbn; [|done]. by rewrite H. Qed.

Lemma addDestinationPredicate_emits ps rule b ps' b' : builder_ok b -> outboundName2Id b = outbounds ->
  addDestinationPredicate sha256 ps rule b = Ok (ps', b') ->
  emits ifenv members dv b b' (match_nodes (dr_Filter rule)) /\
  ps' = ps ++ [mkDestination (mkSpan (length (rules b)) (length (rules b')) routingPhaseRoute false)
                 (existsb (fun f => String.eqb (f_Name f) Function_Domain) (dr_Filter rule)) (dr_To rule) (dr_Port rule)].
Proof.
  intros Hok Ho H. unfold addDestinationPredicate in H. destruct (ApplyPredicate _ _ _ b) as [b1| |] eqn:Ea; [|done..]. cbn [mbind res_bind] in H.
  destruct (set_last _ _) as [rs|] eqn:Es; [|done]. injection H as <- <-.
  assert (He : applyFlowEffect sha256 (dr_Filter rule) MatchActionMatch 0 b = Ok (with_rules b1 rs)).
  { unfold applyFlowEffect. rewrite Ea. cbn [mbind res_bind]. rewrite <-(set_last_ext _ (fun tail => with_Action tail MatchActionMatch)), Es; [done|].
    intros m. unfold with_Flags. cbn. by rewrite Z.lor_0_r. }
  apply (applyFlowEffect_emits ifenv members _ _ dv_set _ direct_id) in He as He; try done.
  split; [|done]. apply emits_rules_emits. eapply (emits_rules_trans _ _ _ _ _ _ [_] [_]); [exact He|].
  refine (append_always ifenv members dv (with_rules b1 rs) miss_tail _ _ _); [|done..]. by destruct He as (ks & _ & Hb & _).
Qed.

Lemma addDestinationPredicates_ok rs :
  triple (in_builder (addDestinationPredicates sha256 rs)) (fun _ => True) (fun w ps => Forall2 (predicate_of w) rs ps).
Proof.
  intros c w ps c' Hok _ H. unfold in_builder, addDestinationPredicates in H.
  destruct (foldM _ _ _) as [[ps0 b']| |] eqn:E; [|done..]. injection H as <- <-.
  assert (Hgen : forall pre qs c w, ok c w -> Forall2 (predicate_of w) pre qs ->
    foldM (fun '(ps, b) rule => addDestinationPredicate sha256 ps rule b) (qs, builder c) rs = Ok (ps0, b') ->
    exists w', w_le w w' /\ ok (with_builder c b') w' /\ frame c (with_builder c b') /\ Forall2 (predicate_of w') (pre ++ rs) ps0).
  2: { exact (Hgen [] [] c w Hok ltac:(constructor) E). }
  clear c w Hok E. induction rs as [|rule rs IH]; intros pre qs c w Hok Hpre E; cbn [foldM] in E.
  { injection E as <- <-. exists w. rewrite app_nil_r. split; [apply w_le_refl|]. by destruct c. }
  destruct (addDestinationPredicate _ _ _ _) as [[qs1 b1]| |] eqn:Ea; [|done..]. cbn [mbind res_bind] in E.
  pose proof (ok_rep _ _ _ _ _ _ _ Hok) as Hrep.
  apply addDestinationPredicate_emits in Ea as [He ->]; [|by apply Hrep|by apply (ok_out _ _ _ _ _ _ _ Hok)].
  destruct (emitted_span _ _ _ _ _ _ _ routingPhaseRoute false Hrep He) as (w1 & L1 & Hrep1 & Hd).
  destruct He as (ks & Hx & _). destruct (ok_with_builder _ _ _ _ _ _ _ _ _ _ Hok L1 Hrep1 Hx) as [Hok1 F1].
  change b1 with (builder (with_builder c b1)) in E at 2.
  destruct (fun H => IH (pre ++ [rule]) _ _ _ Hok1 H E) as (w2 & L2 & Hok2 & F2 & Hps).
  { apply Forall2_app; [eapply Forall2_impl; [exact Hpre|]; intros x y; by apply predicate_of_le|]. apply Forall2_cons. split; [|constructor].
    split_and!; try done. split; [|exact Hd]. pose proof (extends_length _ _ _ _ Hx). unfold span_wf. cbn [d_span Start End_ builder with_builder]. lia. }
  exists w2. split; [by eapply w_le_trans|]. split; [done|]. split; [by eapply frame_trans|]. by rewrite <-app_assoc in Hps.
Qed.

(** ** Finishing *)

Section Finish.
Context (frs : list destinationFragment) (dests : gmap Z (list nat)).

(** The rewrites of some fragments, in order. *)
Definition rewrites_of (ids : list nat) : option (list DestinationRewrite) :=
  fs ← mapM (fun id => frs !! id) ids; Some (concat (map fg_rules fs)).

Lemma rewrites_of_cons id ids f rs : frs !! id = Some f -> rewrites_of ids = Some rs -> rewrites_of (id :: ids) = Some (fg_rules f ++ rs).
Proof. unfold rewrites_of. cbn. intros ->. cbn. destruct (mapM _ ids); [|done]. cbn. by intros [= <-]. Qed.

Definition compiled_ok (w : world) (compiled : gmap nat (list destinationPredicate)) : Prop :=
  forall id ps, compiled !! id = Some ps -> exists f, frs !! id = Some f /\ Forall2 (predicate_of w) (fg_rules f) ps.

Lemma predicates_le w w' rs ps : w_le w w' -> Forall2 (predicate_of w) rs ps -> Forall2 (predicate_of w') rs ps.
Proof. intros Hle H. eapply Forall2_impl; [exact H|]. intros x y. by apply predicate_of_le. Qed.

Lemma compiled_ok_le w w' compiled : w_le w w' -> compiled_ok w compiled -> compiled_ok w' compiled.
Proof. intros Hle H id ps Hid. destruct (H id ps Hid) as (f & Hf & Hps). exists f. split; [done|]. by eapply predicates_le. Qed.

(** What finishing keeps. *)
Definition same_flows (c c' : routingCompiler) : Prop := fragments c' = fragments c /\ profileDestinations c' = profileDestinations c.

Lemma fragment_predicates_ok compiled id c w ps compiled' c' : ok c w -> fragments c = frs -> compiled_ok w compiled ->
  fragment_predicates sha256 compiled id c = Ok ((ps, compiled'), c') ->
  exists w' f, w_le w w' /\ ok c' w' /\ frame c c' /\ same_flows c c' /\ compiled_ok w' compiled' /\
    frs !! id = Some f /\ Forall2 (predicate_of w') (fg_rules f) ps.
Proof.
  intros Hok Hfr Hc H. unfold fragment_predicates in H. destruct (compiled !! id) as [ps0|] eqn:El.
  { injection H as <- <- <-. destruct (Hc _ _ El) as (f & Hf & Hps). exists w, f. split; [apply w_le_refl|]. by split_and!. }
  step H as f c1 E. destruct (fragments c !! id) as [f0|] eqn:Ef; [|done]. injection E as <- <-. rewrite Hfr in Ef.
  step H as ps1 c1 E. injection H as <- <- <-. destruct (addDestinationPredicates_ok _ _ _ _ _ Hok I E) as (w' & Hle & Hok' & Hf & Hps).
  assert (Hs : same_flows c c1). { unfold in_builder in E. destruct (addDestinationPredicates _ _ _) as [[? ?]| |]; [|done..]. injection E as _ <-. done. }
  exists w', f0. split_and!; try done; try apply Hs. intros id' ps'. rewrite lookup_insert_Some. intros [[<- <-]|[_ Hl]]; [by exists f0|].
  by eapply compiled_ok_le.
Qed.

Lemma profile_predicates_ok ids : forall acc compiled c w acc' compiled' c', ok c w -> fragments c = frs -> compiled_ok w compiled ->
  foldMM (fun '(ps, compiled) id => '(more, compiled) ← fragment_predicates sha256 compiled id; mret (ps ++ more, compiled)) (acc, compiled) ids c
    = Ok ((acc', compiled'), c') ->
  exists w' rs ps, w_le w w' /\ ok c' w' /\ frame c c' /\ same_flows c c' /\ compiled_ok w' compiled' /\
    rewrites_of ids = Some rs /\ acc' = acc ++ ps /\ Forall2 (predicate_of w') rs ps.
Proof.
  induction ids as [|id ids IH]; intros acc compiled c w acc' compiled' c' Hok Hfr Hc H; cbn [foldMM] in H.
  { injection H as <- <- <-. exists w, [], []. rewrite app_nil_r. split; [apply w_le_refl|]. by split_and!. }
  step H as [acc1 comp1] c1 E. step E as [more comp2] c2 E'. injection E as <- <- <-.
  destruct (fragment_predicates_ok _ _ _ _ _ _ _ Hok Hfr Hc E') as (w1 & f & L1 & Hok1 & F1 & [S1 S1'] & Hc1 & Hf & Hps).
  rewrite <-S1 in Hfr. destruct (IH _ _ _ _ _ _ _ Hok1 Hfr Hc1 H) as (w2 & rs & ps & L2 & Hok2 & F2 & [S2 S2'] & Hc2 & Hrs & -> & Hps2).
  exists w2, (fg_rules f ++ rs), (more ++ ps). split; [by eapply w_le_trans|]. split; [done|]. split; [by eapply frame_trans|].
  split; [split; congruence|]. split; [done|]. split; [by apply rewrites_of_cons|]. split; [by rewrite app_assoc|].
  apply Forall2_app; [by eapply predicates_le|done].
Qed.

(** A profile with its rewrites. *)
Definition finished (w : world) (profile profile' : routingProfile) : Prop :=
  exists rs ps, rewrites_of (default [] (dests !! ID profile)) = Some rs /\ Forall2 (predicate_of w) rs ps /\
    profile' = with_Destination profile (Destination profile ++ ps).

Lemma finished_le w w' a b : w_le w w' -> finished w a b -> finished w' a b.
Proof. intros Hle (rs & ps & H1 & H2 & H3). exists rs, ps. split_and!; try done. by eapply predicates_le. Qed.

Lemma ok_with_profiles c w ps : ok c w -> ok (with_builder c (with_profiles (builder c) ps)) w.
Proof. intros [O1 O2 O3 O4 O5 O6 O7]. by split. Qed.

Lemma finish_profile_ok compiled pre profile post c w compiled' c' : ok c w -> fragments c = frs -> profileDestinations c = dests -> compiled_ok w compiled ->
  b_profiles (builder c) = pre ++ profile :: post -> finish_profile sha256 compiled (length pre) c = Ok (compiled', c') ->
  exists w' profile', w_le w w' /\ ok c' w' /\ same_flows c c' /\ defaultProfile (builder c') = defaultProfile (builder c) /\ same_ends (builder c) (builder c') /\ compiled_ok w' compiled' /\
    b_profiles (builder c') = pre ++ profile' :: post /\ finished w' profile profile'.
Proof.
  intros Hok Hfr Hd Hc Hp H. unfold finish_profile in H. step H as prof c1 E. rewrite Hp, list_lookup_middle in E by done. injection E as <- <-.
  step H as ids c1 E. injection E as <- <-. step H as [ps comp] c1 E.
  destruct (profile_predicates_ok _ _ _ _ _ _ _ _ Hok Hfr Hc E) as (w' & rs & more & Hle & Hok' & F & S & Hc' & Hrs & -> & Hps).
  step H as [] c2 E'. injection E' as <-. injection H as <- <-. exists w', (with_Destination profile (Destination profile ++ more)).
  split; [done|]. split; [by apply ok_with_profiles|]. split; [done|]. split; [apply F|]. split; [apply F|]. split; [done|]. split.
  - cbn. rewrite (proj1 (proj2 F)), Hp. by rewrite insert_app_r_alt, Nat.sub_diag.
  - exists rs, more. by rewrite <-Hd.
Qed.

Lemma finish_profiles_ok todo : forall pre compiled c w compiled' c', ok c w -> fragments c = frs -> profileDestinations c = dests -> compiled_ok w compiled ->
  b_profiles (builder c) = pre ++ todo -> foldMM (finish_profile sha256) compiled (seq (length pre) (length todo)) c = Ok (compiled', c') ->
  exists w' todo', w_le w w' /\ ok c' w' /\ b_profiles (builder c') = pre ++ todo' /\ Forall2 (finished w') todo todo' /\
    defaultProfile (builder c') = defaultProfile (builder c) /\ same_ends (builder c) (builder c').
Proof.
  induction todo as [|profile todo IH]; intros pre compiled c w compiled' c' Hok Hfr Hd Hc Hp H; cbn [length seq foldMM] in H.
  { injection H as <- <-. exists w, []. split; [apply w_le_refl|]. by split_and!. }
  step H as comp1 c1 E. destruct (finish_profile_ok _ _ _ _ _ _ _ _ Hok Hfr Hd Hc Hp E) as (w1 & prof' & L1 & Hok1 & [S1 S2] & Hdf1 & [He1 He1'] & Hc1 & Hp1 & Hf).
  replace (S (length pre)) with (length (pre ++ [prof'])) in H by (rewrite length_app; cbn; lia).
  rewrite cons_middle, app_assoc in Hp1. rewrite <-S1 in Hfr. rewrite <-S2 in Hd.
  destruct (IH _ _ _ _ _ _ Hok1 Hfr Hd Hc1 Hp1 H) as (w2 & todo' & L2 & Hok2 & Hp2 & Hall & Hdf2 & [He2 He2']).
  exists w2, (prof' :: todo'). split; [by eapply w_le_trans|]. split; [done|]. split; [by rewrite <-app_assoc in Hp2|].
  split; [|split; [congruence|split; congruence]]. apply Forall2_cons. split; [by eapply finished_le|done].
Qed.
End Finish.
End Correct.
