(* ===== verification/RoutingCompiled.v ===== *)
(** * Compiled configurations

    The instructions [compileRouting] returns are the encoded pool, with interface
    indexes bound at any later time; every profile evaluates as its policy and its
    rewrites apply when their filter holds. *)

From stdpp Require Import sorting.
From S2P Require Import Prelude Netip ConfigSyntax RoutingInstr RoutingCursor RoutingEval RoutingEquiv RoutingSem RoutingEmit RoutingRules RoutingBuilder RoutingConfig RoutingConfigCorrect RoutingCompile RoutingDenote RoutingNodes RoutingPool RoutingKeys RoutingResolve RoutingCompileCorrect.

(** ** Binding interfaces commutes with the encoding of jumps *)

Section Bind.
Context (ifenv : string -> Z) (ps : list (string * nat)).
Local Abbreviation bind := (bind_patch ifenv ps).

Lemma bind_with_Mark i r k : bind i (with_Mark r k) = with_Mark (bind i r) k.
Proof. apply (bind_patch_keeps ifenv (fun m => with_Mark m k)). done. Qed.

Lemma bind_Action i r : Action (bind i r) = Action r /\ Mark (bind i r) = Mark r.
Proof. unfold bind_patch. by destruct (head _). Qed.

Lemma encode_jump_bind i r re ct r' re' ct' : encode_jump i r re ct = Ok (r', re', ct') ->
  encode_jump i (bind i r) re ct = Ok (bind i r', re', ct').
Proof.
  unfold encode_jump. destruct (bind_Action i r) as [-> ->].
  destruct (_ =? _)%Z; [destruct (_ <=? _)%Z; [done|]; intros [= <- <- <-]; by rewrite bind_with_Mark|].
  destruct (_ =? _)%Z; [destruct (_ <=? _)%Z; [done|]; intros [= <- <- <-]; by rewrite bind_with_Mark|].
  destruct (_ =? _)%Z; [destruct (_ || _); [done|]|]; by intros [= <- <- <-].
Qed.

Lemma encode_jumps_bind rs : forall i rs' e t, encode_jumps_from i rs = Ok (rs', e, t) ->
  encode_jumps_from i (imap (fun j => bind (i + j)) rs) = Ok (imap (fun j => bind (i + j)) rs', e, t).
Proof.
  induction rs as [|r rs IH]; intros i rs' e t; cbn [encode_jumps_from]; [by intros [= <- <- <-]|].
  destruct (encode_jumps_from (S i) rs) as [[[rs1 e1] t1]| |] eqn:E; [|done..]. cbn [mbind res_bind].
  destruct (encode_jump i r e1 t1) as [[[r1 e2] t2]| |] eqn:Er; [|done..]. cbn [mbind res_bind]. intros [= <- <- <-].
  apply IH in E. cbn [imap encode_jumps_from]. unfold compose. rewrite Nat.add_0_r.
  rewrite (imap_ext _ (fun j => bind (S i + j)) rs) by (intros; f_equal; lia). rewrite E. cbn [mbind res_bind].
  apply encode_jump_bind in Er. rewrite Er. cbn [mbind res_bind]. do 4 f_equal. apply imap_ext. intros. f_equal. lia.
Qed.

Lemma encode_jump_Value i r re ct r' re' ct' : encode_jump i r re ct = Ok (r', re', ct') -> Value r' = Value r.
Proof.
  unfold encode_jump. destruct (_ =? _)%Z; [destruct (_ <=? _)%Z; [done|]; by intros [= <- <- <-]|].
  destruct (_ =? _)%Z; [destruct (_ <=? _)%Z; [done|]; by intros [= <- <- <-]|].
  destruct (_ =? _)%Z; [destruct (_ || _); [done|]|]; by intros [= <- <- <-].
Qed.

Lemma encode_jumps_Value rs : forall i rs' e t, encode_jumps_from i rs = Ok (rs', e, t) -> map Value rs' = map Value rs.
Proof.
  induction rs as [|r rs IH]; intros i rs' e t; cbn [encode_jumps_from]; [by intros [= <- <- <-]|].
  destruct (encode_jumps_from (S i) rs) as [[[rs1 e1] t1]| |] eqn:E; [|done..]. cbn [mbind res_bind].
  destruct (encode_jump i r e1 t1) as [[[r1 e2] t2]| |] eqn:Er; [|done..]. cbn [mbind res_bind]. intros [= <- <- <-].
  cbn. by rewrite (encode_jump_Value _ _ _ _ _ _ _ Er), (IH _ _ _ _ E).
Qed.

Lemma encode_unbound rs rs' : encodeRoutingJumps rs = Ok rs' -> patches_ok rs ps -> patches_ok rs' ps.
Proof.
  unfold encodeRoutingJumps. destruct (encode_jumps_from 0 rs) as [[[rs1 e] t]| |] eqn:E; [|done..]. cbn [mbind res_bind]. intros [= <-] [H Hd].
  apply encode_jumps_Value in E. split; [|done]. eapply Forall_impl; [exact H|]. intros q (r & Hr & Hv).
  assert (Hq : map Value rs1 !! q.2 = Some (Value r)) by by rewrite E, list_lookup_fmap, Hr.
  rewrite list_lookup_fmap in Hq. destruct (rs1 !! q.2) as [r'|] eqn:E'; [|done]. injection Hq as Hq. exists r'. split; [done|congruence].
Qed.

Lemma encodeRoutingJumps_bind rs rs' : encodeRoutingJumps rs = Ok rs' -> encodeRoutingJumps (imap bind rs) = Ok (imap bind rs').
Proof.
  unfold encodeRoutingJumps. destruct (encode_jumps_from 0 rs) as [[[rs1 e] t]| |] eqn:E; [|done..]. cbn [mbind res_bind]. intros [= <-].
  apply encode_jumps_bind in E. change (fun j => bind (0 + j)) with bind in E. by rewrite E.
Qed.
End Bind.

(** ** Marks of an encoded pool *)

Lemma emit_preds_marks flags preds T : (forall pr, 0 <= Mark (T pr))%Z -> Forall (fun mt => 0 <= Mark mt)%Z (emit_preds flags preds T).
Proof.
  intros HT. induction preds as [|pr [|pr' preds] IH]; [constructor|by apply Forall_singleton|]. rewrite emit_preds_cons. apply Forall_cons. split; [cbn; lia|done].
Qed.

Lemma emit_clauses_marks cs tail after : (0 <= Mark tail)%Z -> Forall (fun mt => 0 <= Mark mt)%Z (emit_clauses cs tail after).
Proof.
  intros Ht. induction cs as [|c [|c' cs] IH]; [constructor|by apply emit_preds_marks|]. rewrite emit_clauses_snoc2. apply Forall_app. split; [|done].
  apply emit_preds_marks. intros pr. cbn. lia.
Qed.

Lemma emit_pool_marks ks : Forall k_ok ks -> Forall (fun mt => 0 <= Mark mt)%Z (emit_pool ks).
Proof.
  induction 1 as [|k ks [_ Hk] H IH]; [constructor|]. change (emit_pool (k :: ks)) with (emit k ++ emit_pool ks). apply Forall_app.
  split; [by apply emit_clauses_marks|done].
Qed.

Section Compiled.
Context (ifenv : string -> Z) (members : string -> list bytes) (dv : string -> list string -> predicateResult).
Context (sha256 : bytes -> bytes).
Context (dv_set : forall key vs vs', (forall v, v ∈ vs <-> v ∈ vs') -> dv key vs = dv key vs').
Context (outbounds : gmap string Z) (direct_id : outbounds !! "direct"%string = Some OutboundDirect).
Context {Regexp : Type} (ahocorasick_IsValidChar : Z -> bool) (regexp_Compile : bytes -> option Regexp).

(** The part of a finished builder that goes to the kernel: the pool before the
    destination predicates. *)
Definition kernel_part (b : Builder) (w : world) : Prop :=
  length (emit_pool (w_pool w)) = routing_end b /\ length (simulatedLpmTries (w_tables w)) = kernelLpmLen b /\ routing_end b <= MaxMatchSetLen.

(** A finished builder. *)
Definition encoded (b : Builder) (w : world) : Prop :=
  bound_rules ifenv b = emit_pool (w_pool w) /\ tables b = w_tables w /\ Forall k_ok (w_pool w) /\
  tables_ok (tables b) /\ patches_ok (rules b) (interfaceRulePatches b) /\
  length (simulatedLpmTries (tables b)) <= 3 * MaxMatchSetLen.

Lemma validate_encoded b w b' : represents ifenv b w -> validate b = Ok b' ->
  encoded b' w /\ b_profiles b' = b_profiles b /\ defaultProfile b' = defaultProfile b /\ same_ends b b' /\ routing_end b <= MaxMatchSetLen.
Proof.
  intros (Hok & Ht & Hb & Hks) H. unfold validate, guard_err in H.
  destruct (Nat.ltb_spec MaxMatchSetLen (routing_end b)) as [|H1]; [done|]. cbn [mbind res_bind] in H.
  destruct (Nat.ltb_spec (MaxMatchSetLen * 2) (length (rules b) - routing_end b)) as [|H2]; [done|]. cbn [mbind res_bind] in H.
  destruct (_ <? _); [done|]. cbn [mbind res_bind] in H. destruct (encodeRoutingJumps (rules b)) as [rs| |] eqn:E; [|done..]. cbn [mbind res_bind] in H.
  destruct (foldM _ _ _); [|done..]. injection H as <-. split; [|done]. destruct Hok as (Hto & Hlen & Hun).
  split; [|split_and!; [done..|by eapply encode_unbound|cbn; lia]]. unfold bound_rules. cbn.
  apply (encodeRoutingJumps_bind ifenv (interfaceRulePatches b)) in E. unfold bound_rules in Hb. rewrite Hb in E.
  apply encodeRoutingJumps_pool in E; [by destruct E| |].
  - eapply Forall_impl; [exact Hks|]. by intros k [].
  - rewrite <-Hb, length_imap. assert (MaxMatchSetLen = 1024) as Hmax by done. lia.
Qed.

Section Sets.
Context (sets : gmap string (list RoutingStatement)).
Local Abbreviation ok := (ok ifenv members dv outbounds sets).

Lemma finish_ok c w c' : ok c w -> finish sha256 c = Ok (tt, c') ->
  exists w', w_le w w' /\ encoded (builder c') w' /\
    Forall2 (finished ifenv members dv (fragments c) (profileDestinations c) w') (b_profiles (builder c)) (b_profiles (builder c')) /\
    defaultProfile (builder c') = defaultProfile (builder c) /\ kernel_part (builder c') w.
Proof.
  intros Hok H. unfold finish in H. step H as [] c0 E. injection E as <-. step H as n c1 E. injection E as <- <-. step H as comp c1 E.
  set (c0 := with_builder c _) in E. assert (Hok0 : ok c0 w) by (destruct Hok as [O1 O2 O3 O4 O5 O6 O7]; by split).
  assert (Hempty : compiled_ok ifenv members dv (fragments c) w ∅) by (intros id ps; by rewrite lookup_empty).
  destruct (finish_profiles_ok ifenv members dv sha256 dv_set outbounds direct_id sets (fragments c) (profileDestinations c)
    (b_profiles (builder c)) [] ∅ c0 w comp c1 Hok0 eq_refl eq_refl Hempty eq_refl E) as (w' & new & Hle & Hok' & Hp & Hall & Hdf & [He1 He2]).
  unfold on_builder in H. destruct (validate _) as [b'| |] eqn:Ev; [|done..]. injection H as <-.
  destruct (validate_encoded _ _ _ (ok_rep _ _ _ _ _ _ _ Hok') Ev) as (Henc & Hp' & Hdf' & [He1' He2'] & Hmax). exists w'. split; [done|]. split; [done|]. cbn. rewrite Hp', Hp, Hdf'. split; [done|]. split; [exact Hdf|].
  pose proof (ok_rep _ _ _ _ _ _ _ Hok) as Hrep. unfold kernel_part. rewrite He1', He2', He1, He2 in *. cbn in Hmax |- *.
  rewrite <-(represents_length _ _ _ Hrep). destruct Hrep as (_ & -> & _). done.
Qed.
End Sets.

(** ** Evaluation of denoted spans *)

Lemma evaluateSpans_denotes b w spans nodes m p : encoded b w -> denotes ifenv members dv w spans nodes ->
  matches m = bound_rules ifenv b -> models ifenv members dv (tables b) m p -> stage p = routeFromIngress ->
  IsValid (ap_addr (src p)) = true -> IsValid (ap_addr (dst p)) = true ->
  evaluateSpans m spans p = run_policy ifenv members dv m p nodes.
Proof.
  intros (Hb & Ht & Hks & _) (its & He & Hw & Hprog) Hm Hmod Hst Hs Hd. rewrite Ht in Hmod. rewrite Hb in Hm.
  destruct (elabs_run _ _ _ _ _ _ _ _ Hmod He) as (Hiw & Htot & <-). apply evaluateSpans_items; try done.
  - unfold marks_ok. rewrite Hm. by apply emit_pool_marks.
  - unfold program_of. by rewrite Hm.
  - apply Forall_forall. intros mt Hmt. apply pred_of_emit_items in Hmt. by eapply Forall_forall in Htot.
Qed.

(** ** Compiled configurations *)

(** No rule or fallback is spelled like the internal edges, and the conditions of uses
    are plain functions. *)
Record prepared_ok (p : preparedRules) : Prop := {
  pok_bypass : Forall rule_proper (pr_bypass p);
  pok_early : Forall rule_proper (pr_earlyRoutes p);
  pok_late : Forall rule_proper (pr_lateRoutes p);
  pok_policies : Forall policy_ok (Policies (pr_routing p));
  pok_sets : forall name body, set_map (RuleSets (pr_routing p)) !! name = Some body -> statements_ok body;
}.

Definition initial_world : world := mkWorld empty_tables [].

Lemma initial_ok sets kinds vo : ok ifenv members dv outbounds sets
  (mkCompiler (newRoutingMatcherBuilder outbounds) sets kinds ∅ ∅ [] no_shared ∅ zero_span vo) initial_world.
Proof.
  split; cbn; try done; try (intros k block; by rewrite lookup_empty).
  - split; [|by split_and!]. split; [apply empty_tables_ok|]. split; [cbn; lia|]. split; constructor.
  - by left.
  - intros m span Hin. by apply elem_of_nil in Hin.
Qed.

(** What [compileRouting] establishes about the profiles. *)
Definition compiled_profile (p : preparedRules) (w : world) (binding : string * list string) (profile : routingProfile) : Prop :=
  InterfaceNames profile = binding.2 /\
  let policy := find_policy (pr_routing p) binding.1 in
  Name profile = po_Name policy /\ exists nodes,
    policy_nodes outbounds (set_map (RuleSets (pr_routing p))) p policy nodes /\ denotes ifenv members dv w (Spans profile) nodes.

Lemma compiled_profile_le p w w' binding profile : w_le w w' -> compiled_profile p w binding profile -> compiled_profile p w' binding profile.
Proof. intros Hle (H1 & H2 & nodes & Hn & Hd). split; [done|]. split; [done|]. exists nodes. split; [done|]. by eapply denotes_le. Qed.

(** The profiles lie in the part of the pool the kernel gets. *)
Lemma compileRouting_kernel p b : prepared_ok p -> compileRouting sha256 ahocorasick_IsValidChar regexp_Compile p outbounds = Ok b ->
  exists w0 w, w_le w0 w /\ kernel_part b w0 /\ encoded b w /\ Forall2 (compiled_profile p w0) (profile_bindings (pr_routing p)) (b_profiles b) /\
    map ID (b_profiles b) = map (fun k => 1 + Z.of_nat k)%Z (seq 0 (length (profile_bindings (pr_routing p)))) /\ defaultProfile b = 1%Z.
Proof.
  intros Hp H. unfold compileRouting in H. destruct (RuleSetKinds _) as [kinds| |]; [|done..]. cbn [mbind res_bind] in H.
  set (c0 := mkCompiler _ _ _ _ _ _ _ _ _ _) in H. assert (Hok0 := initial_ok (set_map (RuleSets (pr_routing p))) kinds (pr_validationOutbounds p)).
  fold c0 in Hok0. match type of H with ?x ≫= _ = _ => destruct x as [[[] c]| |] eqn:E end; [|done..].
  cbn in H. injection H as <-. step E as [] c1 E1. step E as [] c2 E2.
  destruct (compileShared_ok _ _ _ _ dv_set _ direct_id _ _ _ _ _ Hok0 (pok_bypass _ Hp) (pok_early _ Hp) (pok_late _ Hp) E1) as (w1 & L1 & Hok1 & Hsh & Hp1).
  destruct (compile_ok _ _ _ _ dv_set _ direct_id _ _ _ (pok_sets _ Hp) _ _ _ _ _ (pok_policies _ Hp) Hok1 Hsh E2) as (w2 & new & L2 & Hok2 & Hp2 & Hb & Hid & Hdf).
  destruct (finish_ok _ _ _ _ Hok2 E) as (w3 & L3 & Henc & Hfin & Hdf' & Hker). rewrite Hp2, Hp1 in Hfin. cbn [app b_profiles builder c0 newRoutingMatcherBuilder] in Hfin.
  exists w2, w3. split; [done|]. split; [done|]. split; [done|]. apply and_assoc. split; [|congruence]. rewrite <-Hid. clear -Hb Hfin L3. revert Hb Hfin. generalize (profile_bindings (pr_routing p)).
  generalize (b_profiles (builder c)). intros fin. revert fin. induction new as [|prof new IH]; intros fin bs Hb Hfin; inversion Hb; subst; inversion Hfin; subst.
  { split; [constructor|done]. }
  destruct (IH _ _ ltac:(eassumption) ltac:(eassumption)) as [Hall Hids]. match goal with H : finished _ _ _ _ _ _ prof ?f |- _ => destruct H as (rs & ps & _ & _ & ->) end.
  split; [|cbn; by rewrite Hids]. apply Forall2_cons. split; [|done].
  match goal with H : bound_profile _ _ _ _ _ _ _ _ _ prof |- _ => destruct H as (Hif & Hname & nodes & Hn & Hd) end.
  split; [done|]. split; [done|]. by exists nodes.
Qed.

Lemma compileRouting_spec p b : prepared_ok p -> compileRouting sha256 ahocorasick_IsValidChar regexp_Compile p outbounds = Ok b ->
  exists w, encoded b w /\ Forall2 (compiled_profile p w) (profile_bindings (pr_routing p)) (b_profiles b) /\
    map ID (b_profiles b) = map (fun k => 1 + Z.of_nat k)%Z (seq 0 (length (profile_bindings (pr_routing p)))) /\ defaultProfile b = 1%Z.
Proof.
  intros Hp H. destruct (compileRouting_kernel _ _ Hp H) as (w0 & w & Hle & _ & Henc & Hall & Hids & Hd). exists w. split_and!; try done.
  eapply Forall2_impl; [exact Hall|]. intros x y. by apply compiled_profile_le.
Qed.

Lemma profile_id {B} (bs : list B) ps i binding profile : map ID ps = map (fun k => 1 + Z.of_nat k)%Z (seq 0 (length bs)) ->
  bs !! i = Some binding -> ps !! i = Some profile -> ID profile = (1 + Z.of_nat i)%Z.
Proof.
  intros Hids Hi Hp. assert (H : map ID ps !! i = Some (ID profile)) by by rewrite list_lookup_fmap, Hp.
  rewrite Hids, list_lookup_fmap in H. rewrite lookup_seq_lt in H by by apply lookup_lt_Some in Hi. by injection H as <-.
Qed.

(** C6: the profile compiled for a binding evaluates as the nodes of its policy: rules in
    order, blocks under their condition, each function read from its configured values,
    for every state of the interfaces, client sets and domain tables. *)
Theorem compileRouting_correct (p : preparedRules) (b : Builder) (i : nat) (name : string) (interfaces : list string) :
  prepared_ok p -> compileRouting sha256 ahocorasick_IsValidChar regexp_Compile p outbounds = Ok b ->
  profile_bindings (pr_routing p) !! i = Some (name, interfaces) ->
  exists profile nodes,
    b_profiles b !! i = Some profile /\ ID profile = (1 + Z.of_nat i)%Z /\ InterfaceNames profile = interfaces /\
    policy_nodes outbounds (set_map (RuleSets (pr_routing p))) p (find_policy (pr_routing p) name) nodes /\
    forall m input, matches m = bound_rules ifenv b -> models ifenv members dv (tables b) m input -> stage input = routeFromIngress ->
      IsValid (ap_addr (src input)) = true -> IsValid (ap_addr (dst input)) = true ->
      evaluateSpans m (Spans profile) input = run_policy ifenv members dv m input nodes.
Proof.
  intros Hp Hc Hi. destruct (compileRouting_spec _ _ Hp Hc) as (w & Henc & Hall & Hids & _).
  destruct (Forall2_lookup_l _ _ _ _ _ Hall Hi) as (profile & Hprof & Hif & Hname & nodes & Hn & Hd).
  exists profile, nodes. split; [done|]. split; [by eapply profile_id|]. split; [done|]. split; [done|]. intros; by eapply evaluateSpans_denotes.
Qed.
End Compiled.

(** ** Deciding the side conditions *)

Definition target_okb (f : Function) : bool :=
  negb (String.eqb (f_Name f) (OutboundIndex_String OutboundLogicalOr)) && negb (String.eqb (f_Name f) (OutboundIndex_String OutboundLogicalAnd)).
Definition plainb (fs : list Function) : bool :=
  forallb (fun f => forallb (fun q => match p_AndFunctions q with None => true | _ => false end && is_empty (p_Annotation q) &&
    (String.eqb (p_Key q) "" || IsBareLiteral (p_Key q))) (f_Params f)) fs.
Definition statement_okb (st : RoutingStatement) : bool :=
  match st_Rule st with Some rule => target_okb (r_Outbound rule) | None => true end && plainb (st_Condition st).
Definition policy_okb (policy : RoutingPolicy) : bool :=
  forallb statement_okb (po_Rules policy) && forallb statement_okb (po_Statements policy) &&
  match po_Fallback policy with Some f => target_okb f | None => true end.
Definition prepared_okb (p : preparedRules) : bool :=
  let rules_ok := forallb (fun r => target_okb (r_Outbound r)) in
  rules_ok (pr_bypass p) && rules_ok (pr_earlyRoutes p) && rules_ok (pr_lateRoutes p) &&
  forallb policy_okb (Policies (pr_routing p)) &&
  forallb (fun e => forallb statement_okb (snd e)) (map_to_list (set_map (RuleSets (pr_routing p)))).

Lemma target_okb_ok f : target_okb f = true -> f_Name f <> OutboundIndex_String OutboundLogicalOr /\ f_Name f <> OutboundIndex_String OutboundLogicalAnd.
Proof. unfold target_okb. intros [H1 H2]%andb_prop. apply negb_true_iff, String.eqb_neq in H1. by apply negb_true_iff, String.eqb_neq in H2. Qed.

Lemma plainb_ok fs : plainb fs = true -> plain fs.
Proof.
  apply Forall_forallb. intros f. apply Forall_forallb. intros q [[H1 H2]%andb_prop H3]%andb_prop. split; [by destruct (p_AndFunctions q)|].
  split; [by destruct (p_Annotation q)|]. apply orb_true_iff in H3 as [H3|H3]; [left; by apply String.eqb_eq|by right].
Qed.

Lemma statement_okb_ok st : statement_okb st = true -> statement_ok st.
Proof.
  unfold statement_okb. intros [H1 H2]%andb_prop. split; [|by apply plainb_ok]. intros rule E. rewrite E in H1. by apply target_okb_ok.
Qed.

Lemma policy_okb_ok policy : policy_okb policy = true -> policy_ok policy.
Proof.
  unfold policy_okb. intros [[H1 H2]%andb_prop H3]%andb_prop. split; [by eapply Forall_forallb, H1; apply statement_okb_ok|].
  split; [by eapply Forall_forallb, H2; apply statement_okb_ok|]. intros f E. rewrite E in H3. by apply target_okb_ok.
Qed.

Lemma prepared_okb_ok p : prepared_okb p = true -> prepared_ok p.
Proof.
  unfold prepared_okb. intros [[[[H1 H2]%andb_prop H3]%andb_prop H4]%andb_prop H5]%andb_prop.
  assert (Hr : forall l, forallb (fun r => target_okb (r_Outbound r)) l = true -> Forall rule_proper l).
  { intros l. apply Forall_forallb. intros r. apply target_okb_ok. }
  split; [by apply Hr..| |].
  - eapply Forall_forallb, H4. apply policy_okb_ok.
  - intros name body Hb. rewrite forallb_forall in H5. eapply Forall_forallb; [apply statement_okb_ok|].
    apply (H5 (name, body)). by apply list_elem_of_In, elem_of_map_to_list.
Qed.

(** ** An example *)

Definition demo_fn (name : string) (not_ : bool) (params : list Param) : Function := mkFunction name not_ params false.
Definition demo_rule (fs : list Function) (target : string) : RoutingRule := mkRule fs (demo_fn target false []) [].
Definition demo_statement (rule : RoutingRule) : RoutingStatement := mkStatement RoutingStatementRule (Some rule) "" [].

(** [rule_set web { l4proto(tcp) -> proxy }], used under an ambiguous domain, then
    [dport(443) && !sport(1-1023) -> proxy] and [fallback: direct]. *)
Definition demo_body : list RoutingStatement := [demo_statement (demo_rule [demo_fn "l4proto" false [simpleParam "" "tcp"]] "proxy")].
Definition demo_routing : Routing :=
  mkRouting "main"
    [mkRuleSet "web" demo_body]
    [mkPolicy "main" []
       [mkStatement RoutingStatementUse None "web" [demo_fn "domain" false [simpleParam "suffix" "example.com"]];
        demo_statement (demo_rule [demo_fn "dport" false [simpleParam "" "443"]; demo_fn "sport" true [simpleParam "" "1-1023"]] "proxy")]
       (Some (demo_fn "direct" false []))]
    [].
Definition demo_prepared : preparedRules := mkPrepared demo_routing None [] [] [] [] None.
Definition demo_outbounds : gmap string Z := {[ "direct"%string := OutboundDirect; "proxy"%string := 2%Z ]}.
Definition demo_hash (_ : bytes) : bytes := [].
Definition demo_compile (p : preparedRules) : res Builder := compileRouting demo_hash (fun _ => true) (fun _ => @None unit) p demo_outbounds.
Definition demo_builder : Builder :=
  match demo_compile demo_prepared with Ok b => b | _ => newRoutingMatcherBuilder ∅ end.
Definition no_interfaces (_ : string) : Z := 0.
Definition no_members (_ : string) : list bytes := [].
Definition unknown_domains (_ : string) (_ : list string) : predicateResult := predicateUnknown.
Definition demo_live : RoutingMatcher :=
  mkRoutingMatcher (bound_rules no_interfaces demo_builder) [] 1 ∅ (fun _ => None) None None.

Lemma demo_prepared_ok : prepared_ok demo_prepared.
Proof. by apply prepared_okb_ok. Qed.

Lemma demo_input_wf : input_wf demo_input.
Proof.
  assert (Ha : Addr_wf demo_addr) by (split; [done|by apply bytesb_ok]). split; [exact Ha|]. split; [exact Ha|]. split; [done|by apply bytesb_ok].
Qed.

Lemma demo_models : models no_interfaces no_members unknown_domains (tables demo_builder) demo_live demo_input.
Proof.
  assert (Hl : simulatedLpmTries (tables demo_builder) = []) by (by vm_compute).
  assert (Hs : clientSetSlots (tables demo_builder) = ∅) by (by vm_compute).
  split.
  - apply demo_input_wf.
  - by rewrite Hl.
  - intros name. apply fits_0.
  - intros name. constructor.
  - rewrite Hl. intros id prefixes H. by rewrite lookup_nil in H.
  - rewrite Hs. intros name slot H. by rewrite lookup_empty in H.
  - assert (Hd : simulatedDomainSet (tables demo_builder) = [mkDomainSet "suffix" 0 ["example.com"%string]]) by (by vm_compute).
    rewrite Hd. intros [|id] key values H; [injection H as <- <-; by vm_compute|by apply list_lookup_singleton_Some in H as [? _]].
Qed.

Lemma compileRouting_correct_witness : exists profile nodes,
  b_profiles demo_builder !! 0 = Some profile /\
  policy_nodes demo_outbounds (set_map (RuleSets demo_routing)) demo_prepared (find_policy demo_routing "main") nodes /\
  evaluateSpans demo_live (Spans profile) demo_input = run_policy no_interfaces no_members unknown_domains demo_live demo_input nodes /\
  evaluateSpans demo_live (Spans profile) demo_input = Ok (mkEval OutboundControlPlaneRouting 0 false 0 false).
Proof.
  destruct (compileRouting_correct no_interfaces no_members unknown_domains demo_hash ltac:(done) demo_outbounds ltac:(by vm_compute)
    (fun _ => true) (fun _ => @None unit) demo_prepared demo_builder 0 "main" [] demo_prepared_ok ltac:(by vm_compute) ltac:(by vm_compute))
    as (profile & nodes & Hp & _ & _ & Hn & Heval).
  exists profile, nodes. split; [done|]. split; [done|]. split; [exact (Heval demo_live demo_input eq_refl demo_models eq_refl eq_refl eq_refl)|].
  clear -Hp. assert (Hs : option_map (fun q => evaluateSpans demo_live (Spans q) demo_input) (b_profiles demo_builder !! 0) =
    Some (Ok (mkEval OutboundControlPlaneRouting 0 false 0 false))) by (by vm_compute). rewrite Hp in Hs. by injection Hs.
Defined.
