(* ===== verification/RoutingState.v ===== *)
(** * Live routing state (control/routing_state.go, routing_matcher_userspace.go,
    routing_matcher_kernspace.go)

    A compiled builder becomes a matcher with its own copy of the instructions, one
    trie per address set and one domain matcher; the same tables are uploaded to the
    eBPF maps. Client sets and interface indexes change afterwards, in the matcher and
    in the maps. Map operations of the ebpf package may fail: their errors are a
    parameter. Locks are not modelled: every operation below runs under the write
    lock, or reads under the read lock. *)

From S2P Require Import Prelude Netip Trie DomainMatcher RoutingInstr RoutingEval RoutingKernel RoutingRules RoutingBuilder.

(** ** Keys of the kernel tries *)

Record bpfLpmKey := mkLpmKey { PrefixLen : Z; Data : list Z }.

(** [binary.NativeEndian] is little-endian on the supported platforms. *)
Definition ipv6BytesToWords (ip : bytes) : list Z := map (fun j => Uint32 (drop j ip)) [0; 4; 8; 12].

Definition cidrToBpfLpmKey (prefix : Prefix) : bpfLpmKey :=
  let bits := if Is4 (pfx_addr prefix) then (pfx_bits prefix + 96)%Z else pfx_bits prefix in
  mkLpmKey (wrap 32 bits) (ipv6BytesToWords (As16 (pfx_addr prefix))).

(** ** eBPF maps *)

Record BPFState := mkBPF {
  LpmArrayMap : gmap nat (list bpfLpmKey);
  RoutingMap : gmap nat bpfMatchSet;
  RoutingProfileMap : gmap Z routing_profile;
  RoutingInterfaceMap : gmap Z Z;
  DefaultRoutingProfile : Z;
}.
Definition with_LpmArrayMap (k : BPFState) (x : gmap nat (list bpfLpmKey)) : BPFState :=
  mkBPF x (RoutingMap k) (RoutingProfileMap k) (RoutingInterfaceMap k) (DefaultRoutingProfile k).
Definition with_RoutingMap (k : BPFState) (x : gmap nat bpfMatchSet) : BPFState :=
  mkBPF (LpmArrayMap k) x (RoutingProfileMap k) (RoutingInterfaceMap k) (DefaultRoutingProfile k).
Definition with_RoutingProfileMap (k : BPFState) (x : gmap Z routing_profile) : BPFState :=
  mkBPF (LpmArrayMap k) (RoutingMap k) x (RoutingInterfaceMap k) (DefaultRoutingProfile k).
Definition with_RoutingInterfaceMap (k : BPFState) (x : gmap Z Z) : BPFState :=
  mkBPF (LpmArrayMap k) (RoutingMap k) (RoutingProfileMap k) x (DefaultRoutingProfile k).
Definition with_DefaultRoutingProfile (k : BPFState) (x : Z) : BPFState :=
  mkBPF (LpmArrayMap k) (RoutingMap k) (RoutingProfileMap k) (RoutingInterfaceMap k) x.

(** Calls of the ebpf package. *)
Inductive ebpf_call :=
| NewMap
| FillLpmMap (keys : list bpfLpmKey)
| UpdateLpmArray (slot : nat)
| UpdateRouting (index : nat) (value : bpfMatchSet)
| BatchRouting
| BatchProfiles
| UpdateInterface (ifindex id : Z)
| SetDefaultProfile.

(** ** State *)

Record routingState := mkRoutingState {
  s_matches : list bpfMatchSet;
  s_lpmMatcher : list (option Trie);
  s_simulatedLpmTries : list (list Prefix);
  s_clientSetSlots : gmap string nat;
  s_kernelLpmLen : nat;
  s_end : nat;
}.
Definition with_matches (s : routingState) (ms : list bpfMatchSet) : routingState :=
  mkRoutingState ms (s_lpmMatcher s) (s_simulatedLpmTries s) (s_clientSetSlots s) (s_kernelLpmLen s) (s_end s).
Definition with_lpm (s : routingState) (tries : list (option Trie)) (prefixes : list (list Prefix)) : routingState :=
  mkRoutingState (s_matches s) tries prefixes (s_clientSetSlots s) (s_kernelLpmLen s) (s_end s).

Section State.
Context (ebpf_error : BPFState -> ebpf_call -> option string).

Definition newLpmMap (prefixes : list Prefix) (k : BPFState) : res (list bpfLpmKey) :=
  match ebpf_error k NewMap with
  | Some e => Err e
  | None =>
    match prefixes with
    | [] => Ok []
    | _ =>
      let keys := map cidrToBpfLpmKey prefixes in
      match ebpf_error k (FillLpmMap keys) with Some e => Err e | None => Ok keys end
    end
  end.

(** Only immutable tries at matching slots are reused. *)
Definition reuseStaticTries (s : routingState) (dst : list (option Trie)) (prefixes : list (list Prefix))
    (clients : gmap string nat) : res (list (option Trie)) :=
  let dynamic i := existsb (fun e => snd e =? i) (map_to_list clients ++ map_to_list (s_clientSetSlots s)) in
  foldM (fun dst i =>
      if dynamic i then Ok dst
      else
        mine ← idx (prefixes !! i);
        theirs ← idx (s_simulatedLpmTries s !! i);
        if bool_decide (mine = theirs) then trie ← idx (s_lpmMatcher s !! i); Ok (<[i := trie]> dst) else Ok dst)
    dst (seq 0 (min (length dst) (length (s_lpmMatcher s)))).

(** [SetClientMembers] of a non-nil state: both replacements are prepared before either
    is published. The result carries the error, since the state survives it. *)
Definition SetClientMembers (name : string) (members : list bytes) (kernelReady : bool) (s : routingState) (k : BPFState)
    : res (routingState * BPFState * option string) :=
  match s_clientSetSlots s !! name with
  | None => Ok (s, k, None)
  | Some slot =>
    let prefixes := sourceMacPrefixes members in
    old ← idx (s_simulatedLpmTries s !! slot);
    if bool_decide (old = prefixes) then Ok (s, k, None)
    else
      match NewTrieFromPrefixes prefixes with
      | Panic => Panic
      | Err e => Ok (s, k, Some e)
      | Ok next =>
        let publish k :=
          _ ← idx (s_lpmMatcher s !! slot);
          Ok (with_lpm s (<[slot := next]> (s_lpmMatcher s)) (<[slot := prefixes]> (s_simulatedLpmTries s)), k, None) in
        if kernelReady && (slot <? s_kernelLpmLen s) then
          match newLpmMap prefixes k with
          | Panic => Panic
          | Err e => Ok (s, k, Some e)
          | Ok kernelMap =>
            match ebpf_error k (UpdateLpmArray slot) with
            | Some e => Ok (s, k, Some e)
            | None => publish (with_LpmArrayMap k (<[slot := kernelMap]> (LpmArrayMap k)))
            end
          end
        else publish k
      end
  end.

Definition updateIfindex (index : nat) (ifindex : Z) (active : bool) (s : routingState) (k : BPFState)
    : res (routingState * BPFState * option string) :=
  current ← idx (s_matches s !! index);
  let current := with_Value current (put_le 4 ifindex ++ drop 4 (Value current)) in
  let publish k := Ok (with_matches s (<[index := current]> (s_matches s)), k, None) in
  if active && (index <? s_end s) then
    match ebpf_error k (UpdateRouting index current) with
    | Some e => Ok (s, k, Some e)
    | None => publish (with_RoutingMap k (<[index := current]> (RoutingMap k)))
    end
  else publish k.

(** Only what evaluation reads; a snapshot has no kernel handles and no client sets. *)
Definition snapshot (s : routingState) : routingState := mkRoutingState (s_matches s) (s_lpmMatcher s) [] ∅ 0 0.

(** ** Matchers *)

#[export] Instance DomainSet_eq_dec : EqDecision DomainSet.
Proof. solve_decision. Defined.

(** What [RoutingMatcher] adds to its state; evaluation callbacks and diagnostic
    metadata are left out. *)
Section Matcher.
Context {AcMatcher Regexp : Type}.
Context (ahocorasick_NewMatcher : list bytes -> res AcMatcher) (ahocorasick_Contains : AcMatcher -> bytes -> bool).
Context (ahocorasick_IsValidChar : Z -> bool) (regexp_Compile : bytes -> option Regexp).
Context (regexp_MatchString : Regexp -> bytes -> bool) (unicode_ToLower : bytes -> bytes).

Record liveMatcher := mkLive {
  l_state : routingState;
  l_interfaceRulePatches : list (string * nat);
  l_defaultProfileID : Z;
  l_profiles : gmap Z (list routingSpan);
  l_destinations : gmap Z (list destinationPredicate);
  l_domainMatcher : Slimtrie.AhocorasickSlimtrie (AcMatcher := AcMatcher) (Regexp := Regexp);
  l_domainSets : list DomainSet;
  l_profileInfo : list routingProfile;
}.

Definition domain_set_of (set : DomainSet) : Slimtrie.domain_set := (ds_RuleIndex set, map str (ds_Domains set), ds_Key set).

Definition build_domains (sets : list DomainSet) : res (Slimtrie.AhocorasickSlimtrie (AcMatcher := AcMatcher) (Regexp := Regexp)) :=
  built ← idx (Slimtrie.AddSets regexp_Compile (Slimtrie.NewAhocorasickSlimtrie MaxMatchSetLen) (map domain_set_of sets));
  Slimtrie.Build ahocorasick_NewMatcher built.

(** Tries not reused are built. *)
Fixpoint build_tries (tries : list (option Trie)) (prefixes : list (list Prefix)) : res (list (option Trie)) :=
  match tries, prefixes with
  | Some t :: tries, _ :: prefixes => rest ← build_tries tries prefixes; Ok (Some t :: rest)
  | None :: tries, ps :: prefixes => t ← NewTrieFromPrefixes ps; rest ← build_tries tries prefixes; Ok (t :: rest)
  | _, _ => Ok []
  end.

Definition buildUserspace (previous : option liveMatcher) (b : Builder) : res liveMatcher :=
  let sets := simulatedDomainSet (tables b) in
  let prefixes := simulatedLpmTries (tables b) in
  let fresh := replicate (length prefixes) None in
  dm ← (match previous with
        | Some prev => if bool_decide (l_domainSets prev = sets) then Ok (l_domainMatcher prev) else build_domains sets
        | None => build_domains sets
        end);
  lpm ← (match previous with
         | Some prev => reuseStaticTries (l_state prev) fresh prefixes (clientSetSlots (tables b))
         | None => Ok fresh
         end);
  lpm ← build_tries lpm prefixes;
  Ok (mkLive
    (mkRoutingState (rules b) lpm prefixes (clientSetSlots (tables b)) (kernelLpmLen b) (routing_end b))
    (interfaceRulePatches b) (defaultProfile b)
    (fold_left (fun m p => <[ID p := Spans p]> m) (b_profiles b) ∅)
    (fold_left (fun m p => <[ID p := Destination p]> m) (b_profiles b) ∅)
    dm sets (b_profiles b)).

(** The matcher as the evaluator reads it. *)
Definition evaluated (l : liveMatcher) (allowed : option (Addr -> bytes -> bool)) (usable : option (Z -> Z -> Z -> bool)) : RoutingMatcher :=
  mkRoutingMatcher (s_matches (l_state l)) (s_lpmMatcher (l_state l)) (l_defaultProfileID l) (l_profiles l)
    (Slimtrie.MatchDomainBitmap ahocorasick_Contains regexp_MatchString unicode_ToLower (l_domainMatcher l)) allowed usable.

Definition with_state (l : liveMatcher) (s : routingState) : liveMatcher :=
  mkLive s (l_interfaceRulePatches l) (l_defaultProfileID l) (l_profiles l) (l_destinations l) (l_domainMatcher l)
    (l_domainSets l) (l_profileInfo l).

(** *** Kernel tables *)

Definition ebpf (call : ebpf_call) (k k' : BPFState) : res BPFState :=
  match ebpf_error k call with Some e => Err e | None => Ok k' end.

Definition uploadLPMTries (s : routingState) (k : BPFState) : res BPFState :=
  if length (s_simulatedLpmTries s) <? s_kernelLpmLen s then Panic
  else
    foldM (fun k '(i, cidrs) =>
        kernelMap ← newLpmMap cidrs k;
        ebpf (UpdateLpmArray i) k (with_LpmArrayMap k (<[i := kernelMap]> (LpmArrayMap k))))
      k (imap pair (take (s_kernelLpmLen s) (s_simulatedLpmTries s))).

Definition uploadRoutingPool (s : routingState) (k : BPFState) : res BPFState :=
  if length (s_matches s) <? s_end s then Panic
  else
    ebpf BatchRouting k (with_RoutingMap k
      (fold_left (fun m e => <[e.1 := e.2]> m) (imap pair (take (s_end s) (s_matches s))) (RoutingMap k))).

Definition uploadRoutingProfiles (l : liveMatcher) (k : BPFState) : res BPFState :=
  '(ids, values) ← encodeRoutingProfiles (l_profileInfo l);
  ebpf BatchProfiles k (with_RoutingProfileMap k (fold_left (fun m e => <[e.1 := e.2]> m) (zip ids values) (RoutingProfileMap k))).

(** Registration calls back with the link when it exists: [links] are the present ones. *)
Definition activateInterfaceRulePatches (links : string -> option Z) (l : liveMatcher) (k : BPFState) : res (routingState * BPFState) :=
  foldM (fun '(s, k) patch =>
      match links (fst patch) with
      | None => Ok (s, k)
      | Some ifindex =>
        '(s, k, err) ← updateIfindex (snd patch) ifindex true s k;
        match err with Some e => Err e | None => Ok (s, k) end
      end)
    (l_state l, k) (l_interfaceRulePatches l).

Definition activateProfileBindings (links : string -> option Z) (l : liveMatcher) (k : BPFState) : res BPFState :=
  foldM (fun k profile =>
      foldM (fun k ifname =>
          match links ifname with
          | None => Ok k
          | Some ifindex =>
            ebpf (UpdateInterface ifindex (ID profile)) k (with_RoutingInterfaceMap k (<[ifindex := ID profile]> (RoutingInterfaceMap k)))
          end)
        k (InterfaceNames profile))
    k (l_profileInfo l).

Definition BuildKernspace (links : string -> option Z) (l : liveMatcher) (k : BPFState) : res (liveMatcher * BPFState) :=
  k ← uploadLPMTries (l_state l) k;
  k ← uploadRoutingPool (l_state l) k;
  k ← uploadRoutingProfiles l k;
  '(s, k) ← activateInterfaceRulePatches links l k;
  k ← activateProfileBindings links l k;
  k ← ebpf SetDefaultProfile k (with_DefaultRoutingProfile k (l_defaultProfileID l));
  Ok (with_state l s, k).

(** A link notification reaches the callback of every patch of its interface; the
    errors of the writes are logged. *)
Definition link_event (name : string) (ifindex : Z) (l : liveMatcher) (k : BPFState) : res (liveMatcher * BPFState * list string) :=
  '(s, k, errs) ← foldM (fun '(s, k, errs) patch =>
      if String.eqb (fst patch) name then
        '(s, k, err) ← updateIfindex (snd patch) ifindex true s k;
        Ok (s, k, match err with Some e => errs ++ [e] | None => errs end)
      else Ok (s, k, errs))
    (l_state l, k, []) (l_interfaceRulePatches l);
  Ok (with_state l s, k, errs).
End Matcher.
End State.
