(* ===== verification/RoutingStateCorrect.v ===== *)
(** * Live routing state: invariants

    Whatever sequence of client updates and link notifications a matcher has seen, its
    state is that of its builder with the interfaces bound and the client sets holding
    their members, and its tries decide membership in the sets they stand for. *)

From S2P Require Import Prelude Netip Trie TrieCorrect DomainMatcher RoutingInstr RoutingCursor RoutingEval RoutingKernel RoutingEquiv RoutingSem RoutingRules RoutingBuilder RoutingDenote RoutingState.

(** ** Tries of the matcher *)

Definition trie_for (trie : option Trie) (prefixes : list Prefix) : Prop :=
  forall address, length address = 16 -> HasPrefixIP trie address = Some (existsb (cidr_contains address) prefixes).

Definition prefixes_fit (prefixes : list Prefix) : Prop := trie_fits (map bin_key prefixes).

Lemma NewTrie_for prefixes trie : Forall Prefix_wf prefixes -> prefixes_fit prefixes -> NewTrieFromPrefixes prefixes = Ok trie -> trie_for trie prefixes.
Proof. intros Hwf Hfit H. destruct (trie_of_prefixes prefixes Hwf Hfit) as (ss & Hn & Hs). rewrite H in Hn. by injection Hn as ->. Qed.

Lemma NewTrie_succeeds prefixes : Forall Prefix_wf prefixes -> prefixes_fit prefixes -> exists trie, NewTrieFromPrefixes prefixes = Ok trie.
Proof. intros Hwf Hfit. destruct (trie_of_prefixes prefixes Hwf Hfit) as (ss & Hn & _). by exists ss. Qed.

Lemma build_tries_for tries : forall prefixes r, Forall (Forall Prefix_wf) prefixes -> Forall prefixes_fit prefixes ->
  length tries = length prefixes ->
  (forall i t ps, tries !! i = Some (Some t) -> prefixes !! i = Some ps -> trie_for (Some t) ps) ->
  build_tries tries prefixes = Ok r -> Forall2 trie_for r prefixes.
Proof.
  induction tries as [|t tries IH]; intros [|ps prefixes] r Hwf Hfit Hlen Hre H; try done.
  { injection H as <-. constructor. }
  apply Forall_cons in Hwf as [Hw Hwf]. apply Forall_cons in Hfit as [Hf Hfit]. injection Hlen as Hlen. cbn [build_tries] in H.
  assert (Hre' : forall i t ps, tries !! i = Some (Some t) -> prefixes !! i = Some ps -> trie_for (Some t) ps) by (intros i; apply (Hre (S i))).
  destruct t as [t|].
  - destruct (build_tries tries prefixes) as [rest| |] eqn:E; [|done..]. injection H as <-.
    constructor; [by apply (Hre 0)|]. by eapply IH.
  - destruct (NewTrieFromPrefixes ps) as [t| |] eqn:Et; [|done..]. cbn [mbind res_bind] in H.
    destruct (build_tries tries prefixes) as [rest| |] eqn:E; [|done..]. injection H as <-.
    constructor; [by apply NewTrie_for|]. by eapply IH.
Qed.

(** ** The invariant *)

Section Live.
Context (ifenv : string -> Z) (members : string -> list bytes).

Record live (b : Builder) (s : routingState) : Prop := {
  lv_matches : s_matches s = bound_rules ifenv b;
  lv_slots : s_clientSetSlots s = clientSetSlots (tables b);
  lv_static : forall id, static_slot (tables b) id -> s_simulatedLpmTries s !! id = simulatedLpmTries (tables b) !! id;
  lv_client : forall name slot, clientSetSlots (tables b) !! name = Some slot ->
    s_simulatedLpmTries s !! slot = Some (sourceMacPrefixes (members name));
  lv_tries : Forall2 trie_for (s_lpmMatcher s) (s_simulatedLpmTries s);
  lv_kernel : s_kernelLpmLen s = kernelLpmLen b;
  lv_end : s_end s = routing_end b;
}.

(** A live state gives the matcher the meaning the compiler relies on. *)
Lemma live_models dv b s m p : live b s -> lpmMatcher m = s_lpmMatcher s ->
  input_wf p -> (Z.of_nat (length (simulatedLpmTries (tables b))) < 2 ^ 32)%Z ->
  (forall name, fits 32 (ifenv name)) -> (forall name, Forall mac_wf (members name)) ->
  (forall id key values, simulatedDomainSet (tables b) !! id = Some (mkDomainSet key id values) ->
    pvalue m p (MatchType_DomainSet, PutUint32 (Z.of_nat id)) = Ok (dv key values)) ->
  models ifenv members dv (tables b) m p.
Proof.
  intros Hl Hm Hi Hs Hif Hme Hd. split; try done; rewrite Hm.
  - intros id prefixes Hp Hst. rewrite <-(lv_static _ _ Hl id Hst) in Hp.
    destruct (Forall2_lookup_r _ _ _ _ _ (lv_tries _ _ Hl) Hp) as (trie & Ht & Hf). by exists trie.
  - intros name slot Hslot. pose proof (lv_client _ _ Hl _ _ Hslot) as Hp.
    destruct (Forall2_lookup_r _ _ _ _ _ (lv_tries _ _ Hl) Hp) as (trie & Ht & Hf). by exists trie.
Qed.
End Live.

(** ** Interface bindings *)

Definition bind_with (f : nat -> option Z) (rs : list bpfMatchSet) : list bpfMatchSet :=
  imap (fun i r => match f i with Some v => with_Value r (PutUint32 v) | None => r end) rs.

Definition patch_env (ifenv : string -> Z) (ps : list (string * nat)) (i : nat) : option Z :=
  (fun e => ifenv e.1) <$> head (List.filter (fun e => e.2 =? i) ps).

Lemma bound_bind ifenv b : bound_rules ifenv b = bind_with (patch_env ifenv (interfaceRulePatches b)) (rules b).
Proof. apply imap_ext. intros i r _. unfold bind_patch, patch_env. by destruct (head _). Qed.

Lemma filter_unique (ps : list (string * nat)) e : NoDup (map snd ps) -> e ∈ ps -> head (List.filter (fun q => q.2 =? e.2) ps) = Some e.
Proof.
  induction ps as [|q ps IH]; intros Hnd Hin; [by apply elem_of_nil in Hin|]. cbn in Hnd. apply NoDup_cons in Hnd as [Hq Hnd]. cbn [List.filter].
  apply elem_of_cons in Hin as [->|Hin]; [by rewrite Nat.eqb_refl|]. destruct (Nat.eqb_spec q.2 e.2) as [He|Hne]; [|by apply IH].
  exfalso. apply Hq. rewrite He. apply list_elem_of_fmap. by exists e.
Qed.

Lemma patch_env_Some ifenv ps e : NoDup (map snd ps) -> e ∈ ps -> patch_env ifenv ps e.2 = Some (ifenv e.1).
Proof. intros H1 H2. unfold patch_env. by rewrite filter_unique. Qed.

Lemma patch_env_None ifenv ps i : (forall e, e ∈ ps -> e.2 <> i) -> patch_env ifenv ps i = None.
Proof.
  intros H. unfold patch_env. destruct (List.filter _ ps) as [|e l] eqn:E; [done|]. exfalso.
  assert (Hin : In e (List.filter (fun e => e.2 =? i) ps)) by (rewrite E; by left). apply filter_In in Hin as [Hin He%Nat.eqb_eq].
  apply (H e); [by apply list_elem_of_In|done].
Qed.

Lemma with_Value_twice r v v' : with_Value (with_Value r v) v' = with_Value r v'.
Proof. by destruct r. Qed.

Lemma PutUint32_over v v' : put_le 4 v' ++ drop 4 (PutUint32 v) = PutUint32 v'.
Proof. done. Qed.

Lemma bind_with_lookup f rs i : bind_with f rs !! i = (fun r => match f i with Some v => with_Value r (PutUint32 v) | None => r end) <$> rs !! i.
Proof. apply list_lookup_imap. Qed.

(** Writing the index of a bound instruction. *)
Lemma bind_with_update f rs i r v0 v : f i = Some v0 -> bind_with f rs !! i = Some r ->
  <[i := with_Value r (put_le 4 v ++ drop 4 (Value r))]> (bind_with f rs) = bind_with (fun j => if j =? i then Some v else f j) rs.
Proof.
  intros Hf Hr. apply list_eq. intros j. rewrite (bind_with_lookup (fun j => _)). destruct (Nat.eqb_spec j i) as [->|Hne].
  - rewrite list_lookup_insert_eq by by eapply lookup_lt_Some. rewrite bind_with_lookup, Hf in Hr. destruct (rs !! i) as [x|]; [|done].
    injection Hr as <-. cbn [fmap option_fmap option_map]. by destruct x.
  - by rewrite list_lookup_insert_ne, bind_with_lookup.
Qed.

Lemma bind_with_ext f g rs : (forall i, i < length rs -> f i = g i) -> bind_with f rs = bind_with g rs.
Proof. intros H. apply imap_ext. intros i r Hi%lookup_lt_Some. by rewrite H. Qed.

(** Before any link is known. *)
Lemma unbound_rules b : patches_ok (rules b) (interfaceRulePatches b) -> bound_rules (fun _ => 0%Z) b = rules b.
Proof.
  intros [H _]. rewrite bound_bind. apply list_eq. intros i. rewrite bind_with_lookup. destruct (rules b !! i) as [r|] eqn:Er; [|done]. cbn. f_equal.
  unfold patch_env. destruct (head _) as [e|] eqn:E; [|done]. cbn.
  assert (Hin : e ∈ interfaceRulePatches b /\ e.2 = i).
  { destruct (List.filter _ _) as [|q l] eqn:Ef; [done|]. injection E as ->.
    assert (Hin : In e (List.filter (fun q => q.2 =? i) (interfaceRulePatches b))) by (rewrite Ef; by left). apply filter_In in Hin as [Hin He%Nat.eqb_eq].
    split; [by apply list_elem_of_In|done]. }
  destruct Hin as [Hin He]. rewrite Forall_forall in H. destruct (H e Hin) as (r' & Hr' & Hv). rewrite He, Er in Hr'. injection Hr' as <-.
  destruct r as [v]. cbn in Hv. by subst v.
Qed.

(** ** Kernel tables *)

(** The maps hold what the state holds. *)
Record synced (s : routingState) (k : BPFState) : Prop := {
  sy_routing : forall i, i < s_end s -> RoutingMap k !! i = s_matches s !! i;
  sy_lpm : forall slot prefixes, slot < s_kernelLpmLen s -> s_simulatedLpmTries s !! slot = Some prefixes ->
    LpmArrayMap k !! slot = Some (map cidrToBpfLpmKey prefixes);
}.

Section Updates.
Context (ebpf_error : BPFState -> ebpf_call -> option string).

Lemma newLpmMap_keys prefixes k keys : newLpmMap ebpf_error prefixes k = Ok keys -> keys = map cidrToBpfLpmKey prefixes.
Proof.
  unfold newLpmMap. destruct (ebpf_error _ _); [done|]. destruct prefixes; [by intros [= <-]|]. destruct (ebpf_error _ _); [done|]. by intros [= <-].
Qed.

Lemma updateIfindex_spec f rs index v0 v s k s' k' err : s_matches s = bind_with f rs -> f index = Some v0 -> synced s k ->
  updateIfindex ebpf_error index v true s k = Ok (s', k', err) ->
  synced s' k' /\ s' = with_matches s (s_matches s') /\
  match err with Some _ => s' = s | None => s_matches s' = bind_with (fun j => if j =? index then Some v else f j) rs end.
Proof.
  intros Hs Hf Hsy H. unfold updateIfindex in H. destruct (s_matches s !! index) as [r|] eqn:Er; [|done]. cbn [idx mbind res_bind] in H.
  rewrite Hs in Er. pose proof (bind_with_update f rs index r v0 v Hf Er) as Hu. rewrite <-Hs in Hu, Er.
  set (current := with_Value r _) in H, Hu. cbn [andb] in H.
  assert (Hself : s = with_matches s (s_matches s)) by by destruct s.
  destruct (Nat.ltb_spec index (s_end s)) as [Hlt|Hge].
  - destruct (ebpf_error _ _); injection H as <- <- <-; [done|]. split; [|by split]. destruct Hsy as [H1 H2]. split; [|exact H2].
    cbn. intros i Hi. destruct (decide (index = i)) as [<-|Hne].
    + rewrite lookup_insert_eq, list_lookup_insert_eq; [done|by eapply lookup_lt_Some].
    + rewrite lookup_insert_ne, list_lookup_insert_ne by done. by apply H1.
  - injection H as <- <- <-. split; [|by split]. destruct Hsy as [H1 H2]. split; [|exact H2]. cbn. intros i Hi.
    rewrite list_lookup_insert_ne by lia. by apply H1.
Qed.

(** The writes of one notification. *)
Lemma link_writes_spec name v rs qs : forall f s k errs s' k' errs', s_matches s = bind_with f rs -> synced s k ->
  (forall e, e ∈ qs -> f e.2 <> None) ->
  foldM (fun '(s, k, errs) patch =>
      if String.eqb (fst patch) name then
        '(s, k, err) ← updateIfindex ebpf_error (snd patch) v true s k;
        Ok (s, k, match err with Some e => errs ++ [e] | None => errs end)
      else Ok (s, k, errs)) (s, k, errs) qs = Ok (s', k', errs') ->
  synced s' k' /\ s' = with_matches s (s_matches s') /\ (exists more, errs' = errs ++ more) /\
  (errs' = [] -> s_matches s' = bind_with (fun j => if existsb (fun e => String.eqb e.1 name && (e.2 =? j)) qs then Some v else f j) rs).
Proof.
  induction qs as [|q qs IH]; intros f s k errs s' k' errs' Hs Hsy Hdom H; cbn [foldM] in H.
  { injection H as <- <- <-. split; [done|]. split; [by destruct s|]. split; [exists []; by rewrite app_nil_r|done]. }
  destruct (String.eqb (fst q) name) eqn:Eq.
  2: { cbn [mbind res_bind] in H. destruct (IH f s k errs s' k' errs' Hs Hsy) as (H1 & H2 & H3 & H4); [intros e He; apply Hdom; by right|done|].
    split; [done|]. split; [done|]. split; [done|]. intros He. rewrite (H4 He). apply bind_with_ext. intros i _. cbn. by rewrite Eq. }
  destruct (updateIfindex _ _ _ _ _ _) as [[[s1 k1] err]| |] eqn:Eu; [|done..]. cbn [mbind res_bind] in H.
  destruct (f (snd q)) as [v0|] eqn:Ef; [|exfalso; by apply (Hdom q ltac:(by left))].
  destruct (updateIfindex_spec _ _ _ _ _ _ _ _ _ _ Hs Ef Hsy Eu) as (Hsy1 & Hw1 & Hm1).
  destruct err as [e|].
  - subst s1. destruct (IH f s k1 (errs ++ [e]) s' k' errs' Hs Hsy1) as (H1 & H2 & (more & ->) & H4); [intros e' He; apply Hdom; by right|done|].
    split; [done|]. split; [done|]. split; [exists (e :: more); by rewrite <-app_assoc|]. intros He. by destruct errs.
  - destruct (IH _ s1 k1 errs s' k' errs' Hm1 Hsy1) as (H1 & H2 & H3 & H4); [|done|].
    { intros e He. destruct (_ =? _); [done|]. apply Hdom. by right. }
    split; [done|]. split; [rewrite H2, Hw1; by destruct s, s1|]. split; [done|]. intros He. rewrite (H4 He). apply bind_with_ext. intros i _. cbn.
    rewrite Eq. cbn. rewrite (Nat.eqb_sym i). by destruct (snd q =? i), (existsb _ qs).
Qed.

Definition set_env {A} (env : string -> A) (name : string) (v : A) (n : string) : A := if String.eqb n name then v else env n.

Lemma link_bindings ifenv ps name v i : NoDup (map snd ps) ->
  (if existsb (fun e => String.eqb e.1 name && (e.2 =? i)) ps then Some v else patch_env ifenv ps i) = patch_env (set_env ifenv name v) ps i.
Proof.
  intros Hnd. destruct (existsb _ ps) eqn:E.
  - apply existsb_exists in E as (e & Hin & He). apply andb_prop in He as [He Hi%Nat.eqb_eq]. subst i.
    rewrite patch_env_Some by (done || by apply list_elem_of_In). unfold set_env. by rewrite He.
  - unfold patch_env. destruct (List.filter _ ps) as [|e l] eqn:Ef; [done|]. cbn. f_equal. unfold set_env.
    destruct (String.eqb e.1 name) eqn:En; [|done]. exfalso.
    assert (Hin : In e (List.filter (fun e => e.2 =? i) ps)) by (rewrite Ef; by left). apply filter_In in Hin as [Hin Hi].
    assert (Ht : existsb (fun e => String.eqb e.1 name && (e.2 =? i)) ps = true) by (apply existsb_exists; exists e; by rewrite En, Hi). congruence.
Qed.

Section Operations.
Context (b : Builder) (Hpatches : patches_ok (rules b) (interfaceRulePatches b)) (Htables : tables_ok (tables b)).

Lemma patch_bound ifenv e : e ∈ interfaceRulePatches b -> patch_env ifenv (interfaceRulePatches b) e.2 <> None.
Proof. intros He. by rewrite patch_env_Some by apply Hpatches || done. Qed.

Lemma live_with_matches ifenv ifenv' members s ms : live ifenv members b s -> ms = bound_rules ifenv' b -> live ifenv' members b (with_matches s ms).
Proof. intros [H1 H2 H3 H4 H5 H6 H7] ->. by split. Qed.

Lemma link_event_live {AcMatcher Regexp} ifenv members name v (l l' : liveMatcher (AcMatcher := AcMatcher) (Regexp := Regexp)) k k' errs :
  live ifenv members b (l_state l) -> l_interfaceRulePatches l = interfaceRulePatches b -> synced (l_state l) k ->
  link_event ebpf_error name v l k = Ok (l', k', errs) ->
  synced (l_state l') k' /\ l' = with_state l (l_state l') /\ (errs = [] -> live (set_env ifenv name v) members b (l_state l')).
Proof.
  intros Hl Hps Hsy H. unfold link_event in H. destruct (foldM _ _ _) as [[[s k1] es]| |] eqn:E; [|done..]. injection H as <- <- <-. cbn [l_state with_state].
  rewrite Hps in E. pose proof (lv_matches _ _ _ _ Hl) as Hm. rewrite bound_bind in Hm.
  destruct (link_writes_spec _ _ _ _ _ _ _ _ _ _ _ Hm Hsy (fun e => patch_bound ifenv e) E) as (H1 & H2 & _ & H4).
  split; [done|]. split; [by destruct l|]. intros ->. rewrite H2. eapply live_with_matches; [done|]. rewrite (H4 eq_refl), bound_bind.
  apply bind_with_ext. intros i _. apply link_bindings, Hpatches.
Qed.

Lemma live_publish ifenv members name ms slot next s : live ifenv members b s -> clientSetSlots (tables b) !! name = Some slot ->
  trie_for next (sourceMacPrefixes ms) ->
  live ifenv (set_env members name ms) b
    (with_lpm s (<[slot := next]> (s_lpmMatcher s)) (<[slot := sourceMacPrefixes ms]> (s_simulatedLpmTries s))).
Proof.
  intros [H1 H2 H3 H4 H5 H6 H7] Hslot Hnext. split; try done; cbn.
  - intros id Hst. rewrite list_lookup_insert_ne; [by apply H3|]. intros <-. by apply (Hst name).
  - intros n sl Hn. unfold set_env. destruct (String.eqb_spec n name) as [->|Hne].
    + rewrite Hslot in Hn. injection Hn as <-. apply list_lookup_insert_eq. by eapply lookup_lt_Some, H4.
    + rewrite list_lookup_insert_ne; [by apply H4|]. intros <-. by apply Hne, (ok_client_inj _ Htables n name slot).
  - by apply Forall2_insert.
Qed.

Lemma synced_publish s k slot next prefixes keys : synced s k -> slot < s_kernelLpmLen s -> keys = map cidrToBpfLpmKey prefixes ->
  slot < length (s_simulatedLpmTries s) ->
  synced (with_lpm s (<[slot := next]> (s_lpmMatcher s)) (<[slot := prefixes]> (s_simulatedLpmTries s)))
    (with_LpmArrayMap k (<[slot := keys]> (LpmArrayMap k))).
Proof.
  intros [H1 H2] Hslot -> Hlen. split; [exact H1|]. cbn. intros sl ps Hsl. destruct (decide (slot = sl)) as [<-|Hne].
  - rewrite list_lookup_insert_eq by done. intros [= <-]. by rewrite lookup_insert_eq.
  - rewrite list_lookup_insert_ne, lookup_insert_ne by done. by apply H2.
Qed.

Lemma synced_high s k slot next prefixes : synced s k -> s_kernelLpmLen s <= slot ->
  synced (with_lpm s (<[slot := next]> (s_lpmMatcher s)) (<[slot := prefixes]> (s_simulatedLpmTries s))) k.
Proof. intros [H1 H2] Hslot. split; [exact H1|]. cbn. intros sl ps Hsl. rewrite list_lookup_insert_ne by lia. by apply H2. Qed.

Lemma SetClientMembers_live ifenv members name ms ready s k s' k' err : live ifenv members b s -> synced s k ->
  Forall Prefix_wf (sourceMacPrefixes ms) -> prefixes_fit (sourceMacPrefixes ms) ->
  SetClientMembers ebpf_error name ms ready s k = Ok (s', k', err) ->
  match err with
  | Some _ => s' = s /\ k' = k
  | None => live ifenv (set_env members name ms) b s' /\ (ready = true -> synced s' k')
  end.
Proof.
  intros Hl Hsy Hwf Hfit H. unfold SetClientMembers in H. rewrite (lv_slots _ _ _ _ Hl) in H.
  assert (Hsame : forall n slot, clientSetSlots (tables b) !! name = Some slot -> sourceMacPrefixes ms = sourceMacPrefixes (members name) ->
    sourceMacPrefixes (set_env members name ms n) = sourceMacPrefixes (members n)).
  { intros n slot _ Heq. unfold set_env. destruct (String.eqb_spec n name) as [->|]; [exact Heq|done]. }
  destruct (clientSetSlots (tables b) !! name) as [slot|] eqn:Eslot.
  2: { injection H as <- <- <-. split; [|done]. destruct Hl as [H1 H2 H3 H4 H5 H6 H7]. split; try done. intros n slot Hn. unfold set_env.
    destruct (String.eqb_spec n name) as [->|]; [congruence|by apply H4]. }
  pose proof (lv_client _ _ _ _ Hl _ _ Eslot) as Hold. rewrite Hold in H. cbn [idx mbind res_bind] in H.
  destruct (bool_decide_reflect (sourceMacPrefixes (members name) = sourceMacPrefixes ms)) as [Heq|Hne].
  { injection H as <- <- <-. split; [|done]. destruct Hl as [H1 H2 H3 H4 H5 H6 H7]. split; try done. intros n sl Hn.
    rewrite (Hsame n slot eq_refl (eq_sym Heq)). by apply H4. }
  destruct (NewTrieFromPrefixes _) as [next| |] eqn:En; [|by injection H as <- <- <-|done].
  pose proof (live_publish _ _ _ _ _ _ _ Hl Eslot (NewTrie_for _ _ Hwf Hfit En)) as Hpub.
  destruct (Forall2_lookup_r _ _ _ _ _ (lv_tries _ _ _ _ Hl) Hold) as (old & Ho & _).
  destruct (ready && (slot <? s_kernelLpmLen s)) eqn:Er.
  - destruct (newLpmMap _ _ _) as [keys| |] eqn:Ek; [|by injection H as <- <- <-|done].
    destruct (ebpf_error _ _); [by injection H as <- <- <-|]. rewrite Ho in H. cbn [idx mbind res_bind] in H. injection H as <- <- <-. split; [done|].
    intros _. apply andb_prop in Er as [_ Hlt%Nat.ltb_lt]. apply synced_publish; [done..|by eapply newLpmMap_keys|by eapply lookup_lt_Some].
  - rewrite Ho in H. cbn [idx mbind res_bind] in H. injection H as <- <- <-. split; [done|]. intros ->. apply synced_high; [done|].
    by apply Nat.ltb_ge.
Qed.
End Operations.

(** ** Building a matcher *)

Definition tries_ok (tries : list (option Trie)) (prefixes : list (list Prefix)) : Prop :=
  length tries = length prefixes /\ forall i t ps, tries !! i = Some (Some t) -> prefixes !! i = Some ps -> trie_for (Some t) ps.

Lemma reuseStaticTries_ok s dst prefixes clients r : Forall2 trie_for (s_lpmMatcher s) (s_simulatedLpmTries s) ->
  tries_ok dst prefixes -> reuseStaticTries s dst prefixes clients = Ok r -> tries_ok r prefixes.
Proof.
  intros Hs. unfold reuseStaticTries. generalize (seq 0 (min (length dst) (length (s_lpmMatcher s)))). intros idxs. revert dst.
  induction idxs as [|i idxs IH]; intros dst Hd; cbn [foldM]; [by intros [= <-]|]. destruct (existsb _ _); [by apply IH|].
  destruct (prefixes !! i) as [mine|] eqn:Em; [|done]. destruct (s_simulatedLpmTries s !! i) as [theirs|] eqn:Et; [|done]. cbn [idx mbind res_bind].
  destruct (bool_decide_reflect (mine = theirs)) as [->|]; [|by apply IH].
  destruct (Forall2_lookup_r _ _ _ _ _ Hs Et) as (trie & Htr & Hfor). rewrite Htr. cbn [idx mbind res_bind]. apply IH. destruct Hd as [Hlen Hd].
  split; [by rewrite length_insert|]. intros j t ps. destruct (decide (i = j)) as [<-|Hne].
  - destruct (decide (i < length dst)) as [Hlt|Hge]; [|rewrite list_insert_ge by lia; by apply Hd].
    rewrite list_lookup_insert_eq by done. intros [= ->]. rewrite Em. by intros [= <-].
  - rewrite list_lookup_insert_ne by done. apply Hd.
Qed.

Section Build.
Context {AcMatcher Regexp : Type}.
Context (ahocorasick_NewMatcher : list bytes -> res AcMatcher) (regexp_Compile : bytes -> option Regexp).
Local Abbreviation liveMatcher := (liveMatcher (AcMatcher := AcMatcher) (Regexp := Regexp)).
Local Abbreviation build_domains := (build_domains ahocorasick_NewMatcher regexp_Compile).
Local Abbreviation buildUserspace := (buildUserspace ahocorasick_NewMatcher regexp_Compile).

(** A matcher that may lend its tables: its tries and its domain matcher are its own sets'. *)
Definition lender (l : liveMatcher) : Prop :=
  Forall2 trie_for (s_lpmMatcher (l_state l)) (s_simulatedLpmTries (l_state l)) /\ build_domains (l_domainSets l) = Ok (l_domainMatcher l).

Record built (b : Builder) (l : liveMatcher) : Prop := {
  bu_patches : l_interfaceRulePatches l = interfaceRulePatches b;
  bu_default : l_defaultProfileID l = defaultProfile b;
  bu_profiles : l_profiles l = fold_left (fun m p => <[ID p := Spans p]> m) (b_profiles b) ∅;
  bu_destinations : l_destinations l = fold_left (fun m p => <[ID p := Destination p]> m) (b_profiles b) ∅;
  bu_domains : build_domains (simulatedDomainSet (tables b)) = Ok (l_domainMatcher l);
  bu_sets : l_domainSets l = simulatedDomainSet (tables b);
  bu_info : l_profileInfo l = b_profiles b;
}.

Lemma buildUserspace_live previous b l : tables_ok (tables b) -> patches_ok (rules b) (interfaceRulePatches b) ->
  Forall prefixes_fit (simulatedLpmTries (tables b)) -> (forall p, previous = Some p -> lender p) ->
  buildUserspace previous b = Ok l -> live (fun _ => 0%Z) (fun _ => []) b (l_state l) /\ built b l.
Proof.
  intros Ht Hp Hfit Hprev H. unfold RoutingState.buildUserspace in H. set (prefixes := simulatedLpmTries (tables b)) in *.
  match type of H with ?x ≫= _ = _ => destruct x as [dm| |] eqn:Ed end; [|done..]. cbn [mbind res_bind] in H.
  match type of H with ?x ≫= _ = _ => destruct x as [lpm| |] eqn:El end; [|done..]. cbn [mbind res_bind] in H.
  destruct (build_tries lpm prefixes) as [tries| |] eqn:Eb; [|done..]. injection H as <-.
  assert (Hfresh : tries_ok (replicate (length prefixes) None) prefixes).
  { split; [apply length_replicate|]. intros i t ps Hi. by apply lookup_replicate in Hi as [? _]. }
  assert (Hlpm : tries_ok lpm prefixes).
  { destruct previous as [p|]; [|by injection El as <-]. eapply reuseStaticTries_ok; [by apply Hprev|exact Hfresh|exact El]. }
  assert (Hdm : build_domains (simulatedDomainSet (tables b)) = Ok dm).
  { destruct previous as [p|]; [|done]. destruct (bool_decide_reflect (l_domainSets p = simulatedDomainSet (tables b))) as [Heq|]; [|done].
    injection Ed as <-. rewrite <-Heq. by apply Hprev. }
  split; [|by split]. split; cbn; try done.
  - by rewrite unbound_rules.
  - intros name slot Hs. by apply (ok_client_empty _ Ht) in Hs.
  - destruct Hlpm. eapply build_tries_for; try done. apply (ok_prefixes _ Ht).
Qed.
End Build.

(** ** Uploading a matcher *)

Definition linked (links : string -> option Z) (n : string) : Z := default 0%Z (links n).

Section Upload.
Context {AcMatcher Regexp : Type}.
Local Abbreviation liveMatcher := (liveMatcher (AcMatcher := AcMatcher) (Regexp := Regexp)).

Lemma ebpf_Ok call k k' r : ebpf ebpf_error call k k' = Ok r -> r = k'.
Proof. unfold ebpf. destruct (ebpf_error _ _); [done|]. by intros [= <-]. Qed.

Lemma fold_insert_lookup {A} (l : list A) : forall (base : gmap nat A) n i x, l !! i = Some x ->
  fold_left (fun m e => <[e.1 := e.2]> m) (imap (fun j y => (n + j, y)) l) base !! (n + i) = Some x.
Proof.
  assert (Hkeep : forall (l0 : list A) (base : gmap nat A) n j, j < n ->
    fold_left (fun m e => <[e.1 := e.2]> m) (imap (fun j y => (n + j, y)) l0) base !! j = base !! j).
  { induction l0 as [|y l' IH]; intros base n j Hj; [done|]. rewrite imap_cons. cbn [fold_left fst snd].
    rewrite (imap_ext _ (fun j y => (S n + j, y)) l') by (intros; unfold compose; f_equal; lia). rewrite IH by lia. rewrite lookup_insert_ne by lia. done. }
  induction l as [|y l IH]; intros base n i x Hi; [done|]. rewrite imap_cons. cbn [fold_left fst snd].
  rewrite (imap_ext _ (fun j y => (S n + j, y)) l) by (intros; unfold compose; f_equal; lia). destruct i as [|i].
  - injection Hi as ->. rewrite Nat.add_0_r, Hkeep by lia. apply lookup_insert_eq.
  - replace (n + S i) with (S n + i) by lia. by apply IH.
Qed.

Lemma uploadLPM_loop ps : forall n k k', foldM (fun k '(i, cidrs) =>
      kernelMap ← newLpmMap ebpf_error cidrs k;
      ebpf ebpf_error (UpdateLpmArray i) k (with_LpmArrayMap k (<[i := kernelMap]> (LpmArrayMap k)))) k (imap (fun j y => (n + j, y)) ps) = Ok k' ->
  RoutingMap k' = RoutingMap k /\ RoutingProfileMap k' = RoutingProfileMap k /\
  (forall j, j < n -> LpmArrayMap k' !! j = LpmArrayMap k !! j) /\
  (forall j cidrs, ps !! j = Some cidrs -> LpmArrayMap k' !! (n + j) = Some (map cidrToBpfLpmKey cidrs)).
Proof.
  induction ps as [|cidrs ps IH]; intros n k k' H; [injection H as <-; split_and!; try done; intros j c Hj; by rewrite lookup_nil in Hj|].
  rewrite imap_cons in H. cbn [foldM] in H.
  destruct (newLpmMap _ _ _) as [keys| |] eqn:Ek; [|done..]. cbn [mbind res_bind] in H. apply newLpmMap_keys in Ek.
  destruct (ebpf _ _ _ _) as [k1| |] eqn:Ee; [|done..]. cbn [mbind res_bind] in H. apply ebpf_Ok in Ee. rewrite Nat.add_0_r in Ee.
  rewrite (imap_ext _ (fun j y => (S n + j, y)) ps) in H by (intros; unfold compose; f_equal; lia).
  destruct (IH _ _ _ H) as (H1 & H2 & H3 & H4). rewrite H1, H2. subst k1. cbn in *. split; [done|]. split; [done|]. split.
  - intros j Hj. rewrite H3, lookup_insert_ne by lia. done.
  - intros [|j] c Hj; [|replace (n + S j) with (S (n + j)) by lia; by apply H4].
    injection Hj as <-. rewrite Nat.add_0_r, H3, lookup_insert_eq by lia. by rewrite Ek.
Qed.

Definition same_profiles (k k' : BPFState) : Prop :=
  RoutingProfileMap k' = RoutingProfileMap k /\ RoutingInterfaceMap k' = RoutingInterfaceMap k /\ DefaultRoutingProfile k' = DefaultRoutingProfile k.

Lemma same_profiles_trans k1 k2 k3 : same_profiles k1 k2 -> same_profiles k2 k3 -> same_profiles k1 k3.
Proof. unfold same_profiles. intros (? & ? & ?) (? & ? & ?). split_and!; congruence. Qed.

Lemma updateIfindex_profiles index v active s k s' k' err : updateIfindex ebpf_error index v active s k = Ok (s', k', err) -> same_profiles k k'.
Proof.
  unfold updateIfindex. destruct (s_matches s !! index); [|done]. cbn [idx mbind res_bind]. destruct (_ && _); [destruct (ebpf_error _ _)|]; by intros [= <- <- <-].
Qed.

Lemma SetClientMembers_profiles name ms ready s k s' k' err : SetClientMembers ebpf_error name ms ready s k = Ok (s', k', err) -> same_profiles k k'.
Proof.
  unfold SetClientMembers. destruct (s_clientSetSlots s !! name) as [slot|]; [|by intros [= <- <- <-]].
  destruct (s_simulatedLpmTries s !! slot); [|done]. cbn [idx mbind res_bind].
  destruct (bool_decide _); [by intros [= <- <- <-]|]. destruct (NewTrieFromPrefixes _); [|by intros [= <- <- <-]|done].
  destruct (_ && _).
  - destruct (newLpmMap _ _ _); [|by intros [= <- <- <-]|done]. destruct (ebpf_error _ _); [by intros [= <- <- <-]|].
    destruct (s_lpmMatcher s !! _); [|done]. by intros [= <- <- <-].
  - destruct (s_lpmMatcher s !! _); [|done]. by intros [= <- <- <-].
Qed.

Lemma link_event_profiles name v (l l' : liveMatcher) k k' errs : link_event ebpf_error name v l k = Ok (l', k', errs) -> same_profiles k k'.
Proof.
  unfold link_event. destruct (foldM _ _ _) as [[[s k1] es]| |] eqn:E; [|done..]. intros [= _ <- _]. revert E.
  generalize (l_state l). generalize (l_interfaceRulePatches l). intros ps. set (errs0 := @nil string) at 2. clearbody errs0. clear l l' errs. revert k errs0.
  induction ps as [|q ps IH]; intros k errs0 s0 H; cbn [foldM] in H; [by injection H as <- <- <-|].
  destruct (String.eqb (fst q) name); [|by eapply IH]. destruct (updateIfindex _ _ _ _ _ _) as [[[s1 k2] err]| |] eqn:Eu; [|done..].
  eapply same_profiles_trans; [by eapply updateIfindex_profiles|exact (IH _ _ _ H)].
Qed.

(** The callbacks of registration. *)
Lemma activate_spec (links : string -> option Z) rs (qs : list (string * nat)) : forall f s k s' k', NoDup (map snd qs) -> s_matches s = bind_with f rs -> synced s k ->
  (forall e, e ∈ qs -> f e.2 <> None) ->
  foldM (fun '(s, k) patch =>
      match links (fst patch) with
      | None => Ok (s, k)
      | Some ifindex =>
        '(s, k, err) ← updateIfindex ebpf_error (snd patch) ifindex true s k;
        match err with Some e => Err e | None => Ok (s, k) end
      end) (s, k) qs = Ok (s', k') ->
  synced s' k' /\ s' = with_matches s (s_matches s') /\ same_profiles k k' /\
  s_matches s' = bind_with (fun j => match head (List.filter (fun e => e.2 =? j) qs) ≫= (fun e => links e.1) with Some v => Some v | None => f j end) rs.
Proof.
  induction qs as [|q qs IH]; intros f s k s' k' Hnd Hs Hsy Hdom H; cbn [foldM] in H.
  { injection H as <- <-. split; [done|]. split; [by destruct s|]. split; [done|exact Hs]. }
  cbn in Hnd. apply NoDup_cons in Hnd as [Hq Hnd].
  assert (Hrest : forall j, q.2 = j -> List.filter (fun e => e.2 =? j) qs = []).
  { intros j <-. destruct (List.filter _ qs) as [|e l] eqn:Ef; [done|]. exfalso. apply Hq.
    assert (Hin : In e (List.filter (fun e => e.2 =? q.2) qs)) by (rewrite Ef; by left). apply filter_In in Hin as [Hin He%Nat.eqb_eq].
    rewrite <-He. apply list_elem_of_fmap. exists e. split; [done|by apply list_elem_of_In]. }
  destruct (links (fst q)) as [v|] eqn:Eq; cbn [mbind res_bind] in H.
  - destruct (updateIfindex _ _ _ _ _ _) as [[[s1 k1] err]| |] eqn:Eu; [|done..]. cbn [mbind res_bind] in H.
    destruct (f (snd q)) as [v0|] eqn:Ef; [|exfalso; by apply (Hdom q ltac:(by left))].
    destruct (updateIfindex_spec _ _ _ _ _ _ _ _ _ _ Hs Ef Hsy Eu) as (Hsy1 & Hw1 & Hm1). apply updateIfindex_profiles in Eu as Hp1.
    destruct err as [e|]; [done|]. cbn [mbind res_bind] in H.
    destruct (IH _ s1 k1 s' k' Hnd Hm1 Hsy1) as (H1 & H2 & H3 & H4); [|done|].
    { intros e He. destruct (_ =? _); [done|]. apply Hdom. by right. }
    split; [done|]. split; [rewrite H2, Hw1; by destruct s, s1|]. split; [by eapply same_profiles_trans|]. rewrite H4. apply bind_with_ext. intros j _.
    cbn [List.filter]. destruct (Nat.eqb_spec q.2 j) as [Hj|Hj].
    + rewrite (Hrest j Hj). cbn. rewrite Eq. by rewrite <-Hj, Nat.eqb_refl.
    + by destruct (Nat.eqb_spec j q.2) as [->|].
  - destruct (IH f s k s' k' Hnd Hs Hsy) as (H1 & H2 & H3 & H4); [intros e He; apply Hdom; by right|done|].
    split; [done|]. split; [done|]. split; [done|]. rewrite H4. apply bind_with_ext. intros j _. cbn [List.filter].
    destruct (Nat.eqb_spec q.2 j) as [Hj|Hj]; [|done]. rewrite (Hrest j Hj). cbn. by rewrite Eq.
Qed.

Lemma encodeRoutingProfiles_spec ps : forall ids values, encodeRoutingProfiles ps = Ok (ids, values) ->
  ids = map ID ps /\ Forall2 (fun p v => encode_profile (Spans p) = Ok v) ps values.
Proof.
  induction ps as [|p ps IH]; intros ids values H; cbn [encodeRoutingProfiles] in H; [injection H as <- <-; split; [done|constructor]|].
  destruct (encode_profile _) as [v| |] eqn:Ev; [|done..]. cbn [mbind res_bind] in H.
  destruct (encodeRoutingProfiles ps) as [[ids' vs]| |] eqn:E; [|done..]. injection H as <- <-. destruct (IH _ _ eq_refl) as [-> Hall].
  split; [done|]. by constructor.
Qed.

Lemma fold_profiles_lookup ps values : Forall2 (fun p v => encode_profile (Spans p) = Ok v) ps values -> NoDup (map ID ps) ->
  forall (base : gmap Z routing_profile) p, p ∈ ps -> exists v, encode_profile (Spans p) = Ok v /\
    fold_left (fun m e => <[e.1 := e.2]> m) (zip (map ID ps) values) base !! ID p = Some v.
Proof.
  assert (Hkeep : forall ids (vs : list routing_profile) (base : gmap Z routing_profile) id, id ∉ ids ->
    fold_left (fun m e => <[e.1 := e.2]> m) (zip ids vs) base !! id = base !! id).
  { induction ids as [|x ids IH]; intros [|v vs] base id Hid; try done. cbn [zip_with fold_left fst snd].
    apply not_elem_of_cons in Hid as [Hne Hid]. rewrite IH by done. by apply lookup_insert_ne. }
  induction 1 as [|q v ps values Hq H IH]; intros Hnd base p Hp; [by apply elem_of_nil in Hp|].
  cbn in Hnd. apply NoDup_cons in Hnd as [Hni Hnd]. cbn [map zip_with fold_left fst snd]. apply elem_of_cons in Hp as [->|Hp].
  - exists v. split; [done|]. rewrite Hkeep by done. apply lookup_insert_eq.
  - by apply IH.
Qed.

Record uploaded (b : Builder) (k : BPFState) : Prop := {
  up_profiles : forall p, p ∈ b_profiles b -> exists v, encode_profile (Spans p) = Ok v /\ RoutingProfileMap k !! ID p = Some v;
  up_default : DefaultRoutingProfile k = defaultProfile b;
}.

Lemma uploaded_same b k k' : same_profiles k k' -> uploaded b k -> uploaded b k'.
Proof. intros (H1 & H2 & H3) [U1 U2]. split; [by rewrite H1|by rewrite H3]. Qed.

Lemma uploadLPMTries_ok s k k' : uploadLPMTries ebpf_error s k = Ok k' -> RoutingMap k' = RoutingMap k /\
  (forall slot ps, slot < s_kernelLpmLen s -> s_simulatedLpmTries s !! slot = Some ps -> LpmArrayMap k' !! slot = Some (map cidrToBpfLpmKey ps)).
Proof.
  unfold uploadLPMTries. destruct (_ <? _); [done|]. intros H. destruct (uploadLPM_loop _ 0 _ _ H) as (H1 & _ & _ & H4). split; [done|].
  intros slot ps Hlt Hs. apply (H4 slot). by rewrite lookup_take_lt.
Qed.

Lemma uploadRoutingPool_ok s k k' : uploadRoutingPool ebpf_error s k = Ok k' -> LpmArrayMap k' = LpmArrayMap k /\
  forall i, i < s_end s -> RoutingMap k' !! i = s_matches s !! i.
Proof.
  unfold uploadRoutingPool. destruct (Nat.ltb_spec (length (s_matches s)) (s_end s)) as [|Hle]; [done|]. intros H%ebpf_Ok. subst k'. split; [done|]. cbn. intros i Hi.
  destruct (lookup_lt_is_Some_2 (s_matches s) i) as [x Hx]; [lia|]. rewrite Hx. apply (fold_insert_lookup _ _ 0 i). by rewrite lookup_take_lt.
Qed.

Lemma activateProfileBindings_ok links (l : liveMatcher) k k' : activateProfileBindings ebpf_error links l k = Ok k' ->
  LpmArrayMap k' = LpmArrayMap k /\ RoutingMap k' = RoutingMap k /\ RoutingProfileMap k' = RoutingProfileMap k.
Proof.
  unfold activateProfileBindings. generalize (l_profileInfo l). intros ps. revert k. induction ps as [|p ps IH]; intros k H; cbn [foldM] in H; [by injection H as <-|].
  match type of H with ?x ≫= _ = _ => destruct x as [k1| |] eqn:E end; [|done..]. cbn [mbind res_bind] in H. destruct (IH _ H) as (-> & -> & ->). clear H IH.
  revert k E. induction (InterfaceNames p) as [|n ns IH]; intros k E; cbn [foldM] in E; [by injection E as <-|].
  destruct (links n) as [v|].
  - destruct (ebpf _ _ _ _) as [k2| |] eqn:Ee; [|done..]. cbn [mbind res_bind] in E. apply ebpf_Ok in Ee. subst k2. by destruct (IH _ E) as (-> & -> & ->).
  - cbn [mbind res_bind] in E. by apply IH.
Qed.

(** Activation binds the present links and leaves the maps equal to the state. *)
Lemma BuildKernspace_ok b links (l l' : liveMatcher) k k' : patches_ok (rules b) (interfaceRulePatches b) -> NoDup (map ID (b_profiles b)) ->
  live (fun _ => 0%Z) (fun _ => []) b (l_state l) -> l_interfaceRulePatches l = interfaceRulePatches b -> l_profileInfo l = b_profiles b ->
  l_defaultProfileID l = defaultProfile b ->
  BuildKernspace ebpf_error links l k = Ok (l', k') ->
  live (linked links) (fun _ => []) b (l_state l') /\ synced (l_state l') k' /\ uploaded b k' /\ l' = with_state l (l_state l').
Proof.
  intros Hp Hnd Hl Hps Hinfo Hdef H. unfold BuildKernspace in H.
  destruct (uploadLPMTries _ _ _) as [k1| |] eqn:E1; [|done..]. cbn [mbind res_bind] in H. apply uploadLPMTries_ok in E1 as [_ HL].
  destruct (uploadRoutingPool _ _ _) as [k2| |] eqn:E2; [|done..]. cbn [mbind res_bind] in H. apply uploadRoutingPool_ok in E2 as [HL2 HR].
  destruct (uploadRoutingProfiles _ _ _) as [k3| |] eqn:E3; [|done..]. cbn [mbind res_bind] in H.
  unfold uploadRoutingProfiles in E3. destruct (encodeRoutingProfiles _) as [[ids values]| |] eqn:Ee; [|done..]. cbn [mbind res_bind] in E3. apply ebpf_Ok in E3.
  rewrite Hinfo in Ee. apply encodeRoutingProfiles_spec in Ee as [-> Hvals].
  assert (Hsy : synced (l_state l) k3). { subst k3. split; [exact HR|]. cbn. intros slot ps. rewrite HL2. apply HL. }
  destruct (activateInterfaceRulePatches _ _ _ _) as [[s4 k4]| |] eqn:E4; [|done..]. cbn [mbind res_bind] in H. unfold activateInterfaceRulePatches in E4.
  rewrite Hps in E4. pose proof (lv_matches _ _ _ _ Hl) as Hm. rewrite bound_bind in Hm.
  destruct (activate_spec links (rules b) _ _ _ _ _ _ (proj2 Hp) Hm Hsy (fun e => patch_bound b Hp _ e) E4) as (Hsy4 & Hw4 & Hprof4 & Hm4).
  destruct (activateProfileBindings _ _ _ _) as [k5| |] eqn:E5; [|done..]. cbn [mbind res_bind] in H. apply activateProfileBindings_ok in E5 as (HL5 & HR5 & HP5).
  destruct (ebpf _ _ _ _) as [k6| |] eqn:E6; [|done..]. cbn [mbind res_bind] in H. apply ebpf_Ok in E6. injection H as <- <-. cbn [l_state with_state].
  split; [|split; [|split; [|by destruct l]]].
  - rewrite Hw4. eapply live_with_matches; [done|]. rewrite Hm4, bound_bind. apply bind_with_ext. intros i _. unfold patch_env, linked.
    destruct (head _) as [e|]; [|done]. cbn. by destruct (links e.1).
  - subst k6. destruct Hsy4 as [S1 S2]. split; cbn; [by rewrite HR5|by rewrite HL5].
  - subst k6. split; [|exact Hdef]. cbn. rewrite HP5. intros p Hin. rewrite (proj1 Hprof4). subst k3. by apply fold_profiles_lookup.
Qed.
End Upload.
End Updates.
