(* ===== verification/RoutingLive.v ===== *)
(** * From configurations to live decisions

    The composition of the compiler, the userspace build, the upload to the eBPF maps and
    the later updates: at every reachable moment a routing decision is the meaning of the
    policy for the interfaces and client members of that moment. *)

From S2P Require Import Prelude Netip Trie TrieCorrect DomainMatcher ConfigSyntax RoutingInstr RoutingCursor RoutingEval RoutingKernel RoutingEquiv RoutingSem RoutingRules RoutingBuilder RoutingConfig RoutingCompile RoutingDenote RoutingNodes RoutingPool RoutingResolve RoutingCompileCorrect RoutingCompiled RoutingState RoutingStateCorrect.

Section Reach.
Context (ebpf_error : BPFState -> ebpf_call -> option string).
Context {AcMatcher Regexp : Type}.
Local Abbreviation liveMatcher := (liveMatcher (AcMatcher := AcMatcher) (Regexp := Regexp)).

(** A moment: the links, the client members, the matcher and the maps. *)
Record moment := mkMoment {
  m_links : string -> Z;
  m_members : string -> list bytes;
  m_matcher : liveMatcher;
  m_maps : BPFState;
}.

(** Client updates, failed ones included, and link notifications whose writes succeed. *)
Inductive routing_step : moment -> moment -> Prop :=
| step_members links members l k name ms s' k' :
    Forall mac_wf ms -> prefixes_fit (sourceMacPrefixes ms) ->
    SetClientMembers ebpf_error name ms true (l_state l) k = Ok (s', k', None) ->
    routing_step (mkMoment links members l k) (mkMoment links (set_env members name ms) (with_state l s') k')
| step_members_failed links members l k name ms s' k' e :
    Forall mac_wf ms -> prefixes_fit (sourceMacPrefixes ms) ->
    SetClientMembers ebpf_error name ms true (l_state l) k = Ok (s', k', Some e) ->
    routing_step (mkMoment links members l k) (mkMoment links members (with_state l s') k')
| step_link links members l k name ifindex l' k' :
    fits 32 ifindex -> link_event ebpf_error name ifindex l k = Ok (l', k', []) ->
    routing_step (mkMoment links members l k) (mkMoment (set_env links name ifindex) members l' k').

(** What holds at every moment. *)
Record moment_ok (b : Builder) (l0 : liveMatcher) (m : moment) : Prop := {
  mo_live : live (m_links m) (m_members m) b (l_state (m_matcher m));
  mo_synced : synced (l_state (m_matcher m)) (m_maps m);
  mo_uploaded : uploaded b (m_maps m);
  mo_matcher : m_matcher m = with_state l0 (l_state (m_matcher m));
  mo_links : forall name, fits 32 (m_links m name);
  mo_members : forall name, Forall mac_wf (m_members m name);
}.

Lemma mac_prefixes_wf ms : Forall mac_wf ms -> Forall Prefix_wf (sourceMacPrefixes ms).
Proof.
  intros H. unfold sourceMacPrefixes. apply Forall_map. eapply Forall_impl; [exact H|]. intros m [Hl Hb]. by apply mac_prefix_wf.
Qed.

Lemma with_state_twice (l : liveMatcher) s s' : with_state (with_state l s) s' = with_state l s'.
Proof. by destruct l. Qed.

Lemma step_ok b l0 m m' : patches_ok (rules b) (interfaceRulePatches b) -> tables_ok (tables b) ->
  l_interfaceRulePatches l0 = interfaceRulePatches b -> moment_ok b l0 m -> routing_step m m' -> moment_ok b l0 m'.
Proof.
  intros Hp Ht Hl0 Hok Hstep. destruct Hstep as [links members l k name ms s' k' Hms Hfit H|links members l k name ms s' k' e Hms Hfit H|links members l k name ifx l' k' Hifx H];
    destruct Hok as [Hl Hsy Hup Hm Hli Hme]; cbn [m_links m_members m_matcher m_maps] in *.
  - destruct (SetClientMembers_live _ _ Ht _ _ _ _ _ _ _ _ _ _ Hl Hsy (mac_prefixes_wf _ Hms) Hfit H) as [Hl' Hsy'].
    split; cbn; [done|by apply Hsy'| |rewrite Hm; by destruct l0|done|].
    + eapply uploaded_same; [|exact Hup]. by eapply SetClientMembers_profiles.
    + intros n. unfold set_env. by destruct (String.eqb _ _).
  - destruct (SetClientMembers_live _ _ Ht _ _ _ _ _ _ _ _ _ _ Hl Hsy (mac_prefixes_wf _ Hms) Hfit H) as [-> ->].
    split; cbn; try done. rewrite Hm. by destruct l0.
  - assert (Hpa : l_interfaceRulePatches l = interfaceRulePatches b) by (rewrite Hm; by destruct l0).
    destruct (link_event_live _ _ Hp _ _ _ _ _ _ _ _ _ Hl Hpa Hsy H) as (Hsy' & Hl' & Hlive).
    split; cbn; [by apply Hlive|done| |rewrite Hl', Hm; by destruct l0| |done].
    + eapply uploaded_same; [|exact Hup]. by eapply link_event_profiles.
    + intros n. unfold set_env. by destruct (String.eqb _ _).
Qed.
End Reach.

(** ** Domain sets *)

Section Domains.
Context {AcMatcher Regexp : Type}.
Context (ahocorasick_NewMatcher : list bytes -> res AcMatcher) (ahocorasick_Contains : AcMatcher -> bytes -> bool).
Context (ahocorasick_IsValidChar : Z -> bool) (regexp_Compile : bytes -> option Regexp).
Context (regexp_MatchString : Regexp -> bytes -> bool) (unicode_ToLower : bytes -> bytes).
(** Assumed of the keyword automaton and of Unicode folding, as for the domain matcher. *)
Context (ac_builds : forall ps, forallb (forallb ahocorasick_IsValidChar) ps = true -> exists m, ahocorasick_NewMatcher ps = Ok m).
Context (ac_finds : forall ps m text, ahocorasick_NewMatcher ps = Ok m -> Forall (fun p => p <> []) ps ->
  forallb ahocorasick_IsValidChar text = true -> ahocorasick_Contains m text = existsb (fun p => substring p text) ps).
Context (lower_bytes : forall s, Forall is_byte s -> Forall is_byte (unicode_ToLower s)).

Definition normal_domain (d : bytes) : bytes := Slimtrie.ToLower unicode_ToLower (TrimSuffix d (str ".")).

(** Whether a pattern of a set matches a name. *)
Definition set_matches (d : bytes) (key : string) (values : list string) : bool :=
  existsb (fun v => Slimtrie.pattern_matches regexp_Compile regexp_MatchString key (str v) (normal_domain d)) values.

Lemma set_matches_set d key vs vs' : (forall v, v ∈ vs <-> v ∈ vs') -> set_matches d key vs = set_matches d key vs'.
Proof.
  intros H. apply eq_true_iff_eq. unfold set_matches. rewrite !existsb_exists. setoid_rewrite <-list_elem_of_In. by setoid_rewrite H.
Qed.

(** The value of a domain group for a known name: some pattern matches it; nothing
    matches an unknown name. *)
Definition domain_value (p : routingInput) (key : string) (values : list string) : predicateResult :=
  pbool (negb (bool_decide (domain p = [])) && set_matches (domain p) key values).

Lemma domain_value_set p key vs vs' : (forall v, v ∈ vs <-> v ∈ vs') -> domain_value p key vs = domain_value p key vs'.
Proof. intros H. unfold domain_value. by rewrite (set_matches_set _ _ _ _ H). Qed.

(** The name of the input, and no bitmaps of the kernel. *)
Definition named_input (p : routingInput) : Prop :=
  domainBitmap p = None /\ domainBumpBitmap p = None /\ Forall is_byte (domain p) /\
  (domain p <> [] -> Slimtrie.domain_ok ahocorasick_IsValidChar (normal_domain (domain p))).

Definition domains_ok (b : Builder) : Prop :=
  let sets := map domain_set_of (simulatedDomainSet (tables b)) in
  Slimtrie.sets_wf ahocorasick_IsValidChar regexp_Compile MaxMatchSetLen sets /\ Slimtrie.keywords_nonempty sets.

Lemma bitmap_has_bit32 bm (id : nat) : bitmap_has (Some bm) (Z.of_nat id) = Slimtrie.bit32 bm id.
Proof.
  unfold bitmap_has, Slimtrie.bit32. replace (Z.to_nat (Z.of_nat id / 32)) with (id / 32).
  2: { rewrite <-(Nat2Z.id (id / 32)), Nat2Z.inj_div. done. }
  replace (Z.to_nat (Z.of_nat id mod 32)) with (id mod 32).
  2: { rewrite <-(Nat2Z.id (id mod 32)), Nat2Z.inj_mod. done. }
  destruct (bm !! (id / 32)) as [w|]; cbn [default]; [|unfold tb; by rewrite Z.bits_0]. unfold shr, tb.
  rewrite Z.testbit_odd. change 1%Z with (Z.ones 1). rewrite Z.land_ones by lia. change (2 ^ 1)%Z with 2%Z. rewrite Zmod_odd. by destruct (Z.odd _).
Qed.

Lemma rule_matches_existsb b id key values dom : tables_ok (tables b) ->
  simulatedDomainSet (tables b) !! id = Some (mkDomainSet key id values) ->
  Slimtrie.rule_matches regexp_Compile regexp_MatchString (map domain_set_of (simulatedDomainSet (tables b))) id dom <->
  existsb (fun v => Slimtrie.pattern_matches regexp_Compile regexp_MatchString key (str v) dom) values = true.
Proof.
  intros Ht Hid. rewrite existsb_exists. split.
  - intros (ps & typ & d & Hin & Hd & Hm). apply list_elem_of_fmap in Hin as (set & Heq & Hset). apply list_elem_of_lookup in Hset as [j Hj].
    destruct (ok_domain _ Ht _ _ Hj) as [Hri _]. unfold domain_set_of in Heq. injection Heq as Hi -> ->. rewrite Hri in Hi. subst j. rewrite Hid in Hj. injection Hj as <-.
    cbn in Hd, Hm. apply list_elem_of_fmap in Hd as (v & -> & Hv). exists v. split; [by apply list_elem_of_In|done].
  - intros (v & Hv & Hm). exists (map str values), key, (str v). split; [|split; [|done]].
    + apply list_elem_of_fmap. eexists. split; [|by eapply list_elem_of_lookup_2]. done.
    + apply list_elem_of_fmap. exists v. split; [done|by apply list_elem_of_In].
Qed.

Local Abbreviation evaluated := (evaluated ahocorasick_Contains regexp_MatchString unicode_ToLower).

(** The bitmap of a name has the bits of the sets that match it. *)
Lemma built_bits b (l : liveMatcher) d : tables_ok (tables b) -> domains_ok b ->
  build_domains ahocorasick_NewMatcher regexp_Compile (simulatedDomainSet (tables b)) = Ok (l_domainMatcher l) ->
  Forall is_byte d -> Slimtrie.domain_ok ahocorasick_IsValidChar (normal_domain d) ->
  exists bm, Slimtrie.MatchDomainBitmap ahocorasick_Contains regexp_MatchString unicode_ToLower (l_domainMatcher l) d = Some bm /\
    forall id key values, simulatedDomainSet (tables b) !! id = Some (mkDomainSet key id values) ->
      bitmap_has (Some bm) (Z.of_nat id) = set_matches d key values.
Proof.
  intros Ht [Hwf Hkw] Hbuild Hby Hdok.
  destruct (Slimtrie.bitmap_of_sets ahocorasick_NewMatcher ahocorasick_Contains ahocorasick_IsValidChar regexp_Compile regexp_MatchString unicode_ToLower
    ac_builds ac_finds lower_bytes MaxMatchSetLen _ Hwf Hkw) as (n & n' & HA & HB & Hbits).
  unfold build_domains in Hbuild. rewrite HA in Hbuild. cbn [idx mbind res_bind] in Hbuild. rewrite HB in Hbuild. injection Hbuild as <-.
  destruct (Hbits d Hby Hdok) as (bm & Hm & _ & Hbit). exists bm. split; [done|]. intros id key values Hid. rewrite bitmap_has_bit32.
  apply lookup_lt_Some in Hid as Hlt. pose proof (ok_size _ Ht) as Hsize. fold (normal_domain d) in Hbit.
  specialize (Hbit id). rewrite (rule_matches_existsb b id key values _ Ht Hid) in Hbit. fold (set_matches d key values) in Hbit.
  destruct (Slimtrie.bit32 bm id), (set_matches d key values); try done; [by destruct (proj1 Hbit eq_refl)|].
  destruct (proj2 Hbit); [split; [lia|done]|done].
Qed.

(** The domain matcher of a built matcher gives domain groups their value. *)
Lemma domain_models b (l : liveMatcher) allowed usable p id key values : tables_ok (tables b) -> domains_ok b -> named_input p ->
  build_domains ahocorasick_NewMatcher regexp_Compile (simulatedDomainSet (tables b)) = Ok (l_domainMatcher l) ->
  simulatedDomainSet (tables b) !! id = Some (mkDomainSet key id values) ->
  pvalue (evaluated l allowed usable) p (MatchType_DomainSet, PutUint32 (Z.of_nat id)) = Ok (domain_value p key values).
Proof.
  intros Ht Hd (Hbm & Hbump & Hby & Hdok) Hbuild Hid. unfold pvalue, predicates_match. cbn [Type_ Value fst snd]. cbn -[PutUint32 Uint32 Slimtrie.MatchDomainBitmap domain_value bitmap_has].
  apply lookup_lt_Some in Hid as Hlt. pose proof (ok_size _ Ht) as Hsize. assert (MaxMatchSetLen = 1024) as Hmax by done.
  rewrite Uint32_PutUint32 by (split; lia). unfold load_domain. cbn [domainLoaded input fresh initial_state predicates]. cbn [domainLoaded input]. rewrite Hbm.
  unfold domain_value. destruct (bool_decide_reflect (domain p = [])) as [Hnil|Hne]; [cbn; by rewrite Hbm, Hbump|].
  destruct (built_bits b l (domain p) Ht Hd Hbuild Hby (Hdok Hne)) as (bm & Hm & Hbit). cbn [domainMatcher RoutingState.evaluated]. rewrite Hm. cbn -[bitmap_has].
  rewrite (Hbit _ _ _ Hid), Hbump. cbn [bitmap_has negb andb]. by destruct (set_matches _ _ _).
Qed.
End Domains.

(** ** Deployed configurations *)

Section Deployed.
Context (ebpf_error : BPFState -> ebpf_call -> option string) (sha256 : bytes -> bytes).
Context {AcMatcher Regexp : Type}.
Context (ahocorasick_NewMatcher : list bytes -> res AcMatcher) (ahocorasick_Contains : AcMatcher -> bytes -> bool).
Context (ahocorasick_IsValidChar : Z -> bool) (regexp_Compile : bytes -> option Regexp).
Context (regexp_MatchString : Regexp -> bytes -> bool) (unicode_ToLower : bytes -> bytes).
Context (outbounds : gmap string Z).
Local Abbreviation liveMatcher := (liveMatcher (AcMatcher := AcMatcher) (Regexp := Regexp)).
Local Abbreviation moment := (moment (AcMatcher := AcMatcher) (Regexp := Regexp)).

(** A configuration compiled, built, possibly on the tables of a previous matcher, and
    uploaded while [links] are present. *)
Record deployed (p : preparedRules) (b : Builder) (l0 : liveMatcher) (m : moment) : Prop := {
  dp_direct : outbounds !! "direct"%string = Some OutboundDirect;
  dp_prepared : prepared_ok p;
  dp_compile : compileRouting sha256 ahocorasick_IsValidChar regexp_Compile p outbounds = Ok b;
  dp_fit : Forall prefixes_fit (simulatedLpmTries (tables b));
  dp_build : exists previous, (forall q, previous = Some q -> lender ahocorasick_NewMatcher regexp_Compile q) /\
    buildUserspace ahocorasick_NewMatcher regexp_Compile previous b = Ok l0;
  dp_upload : exists links k0, (forall n v, links n = Some v -> fits 32 v) /\
    BuildKernspace ebpf_error links l0 k0 = Ok (m_matcher m, m_maps m) /\ m_links m = linked links /\ m_members m = (fun _ => []);
}.

Lemma compiled_facts p b : outbounds !! "direct"%string = Some OutboundDirect -> prepared_ok p ->
  compileRouting sha256 ahocorasick_IsValidChar regexp_Compile p outbounds = Ok b ->
  tables_ok (tables b) /\ patches_ok (rules b) (interfaceRulePatches b) /\ NoDup (map ID (b_profiles b)) /\ defaultProfile b = 1%Z /\
  length (simulatedLpmTries (tables b)) <= 3 * MaxMatchSetLen.
Proof.
  intros Hd Hp Hc. destruct (compileRouting_spec (fun _ => 0%Z) (fun _ => []) (fun _ _ => predicateMiss) sha256 ltac:(done) outbounds Hd _ _ _ _ Hp Hc)
    as (w & (_ & _ & _ & Ht & Hpa & Hlen) & _ & Hids & Hdef). split_and!; try done. rewrite Hids. apply NoDup_fmap; [|apply NoDup_seq]. intros x y. lia.
Qed.

Lemma deployed_facts p b l0 m : deployed p b l0 m ->
  built ahocorasick_NewMatcher regexp_Compile b l0 /\ moment_ok b l0 m.
Proof.
  intros [Hd Hp Hc Hf (previous & Hprev & Hb) (links & k0 & Hlinks & Hk & Hml & Hmm)].
  destruct (compiled_facts _ _ Hd Hp Hc) as (Ht & Hpa & Hnd & _).
  destruct (buildUserspace_live _ _ _ _ _ Ht Hpa Hf Hprev Hb) as [Hl Hbu]. split; [done|].
  destruct (BuildKernspace_ok _ _ _ _ _ _ _ Hpa Hnd Hl (bu_patches _ _ _ _ Hbu) (bu_info _ _ _ _ Hbu) (bu_default _ _ _ _ Hbu) Hk) as (Hl1 & Hsy & Hup & Hm).
  split; rewrite ?Hml, ?Hmm; try done.
  intros n. unfold linked. destruct (links n) as [v|] eqn:E; [by apply (Hlinks n)|apply fits_0].
Qed.

Lemma reachable_ok (p : preparedRules) (b : Builder) (l0 : liveMatcher) (m0 m : moment) :
  deployed p b l0 m0 -> rtc (routing_step ebpf_error) m0 m -> moment_ok b l0 m.
Proof.
  intros Hdep Hr. destruct (deployed_facts _ _ _ _ Hdep) as [Hbu Hok0].
  destruct (compiled_facts _ _ (dp_direct _ _ _ _ Hdep) (dp_prepared _ _ _ _ Hdep) (dp_compile _ _ _ _ Hdep)) as (Ht & Hpa & _).
  revert Hok0. clear Hdep. induction Hr as [m|m m1 m2 Hstep Hr IH]; intros Hok; [done|]. apply IH. by eapply step_ok; [..|apply (bu_patches _ _ _ _ Hbu)| |].
Qed.

(** C8: at every moment a deployed configuration reaches through client updates and link
    notifications whose writes to the maps succeed, the matcher holds the compiled instructions with the present links
    bound, tries for exactly the compiled prefixes and the present client members, and
    the eBPF maps hold the same instructions, prefixes and profiles. *)
Theorem routing_reachable_ok (p : preparedRules) (b : Builder) (l0 : liveMatcher) (m0 m : moment) :
  deployed p b l0 m0 -> rtc (routing_step ebpf_error) m0 m -> moment_ok b l0 m.
Proof. apply reachable_ok. Qed.

(** *** Decisions *)

Lemma fold_spans_lookup ps : NoDup (map ID ps) -> forall (base : gmap Z (list routingSpan)) p, p ∈ ps ->
  fold_left (fun m p => <[ID p := Spans p]> m) ps base !! ID p = Some (Spans p).
Proof.
  assert (Hkeep : forall qs (base : gmap Z (list routingSpan)) id, id ∉ map ID qs -> fold_left (fun m p => <[ID p := Spans p]> m) qs base !! id = base !! id).
  { induction qs as [|q qs IH]; intros base id Hid; [done|]. cbn in *. apply not_elem_of_cons in Hid as [Hne Hid]. rewrite IH by done. by apply lookup_insert_ne. }
  induction ps as [|q ps IH]; intros Hnd base p Hp; [by apply elem_of_nil in Hp|]. cbn in *. apply NoDup_cons in Hnd as [Hni Hnd].
  apply elem_of_cons in Hp as [->|Hp]; [|by apply IH]. rewrite Hkeep by done. apply lookup_insert_eq.
Qed.

Local Abbreviation evaluated := (evaluated ahocorasick_Contains regexp_MatchString unicode_ToLower).
Local Abbreviation domain_value := (domain_value regexp_Compile regexp_MatchString unicode_ToLower).

(** The input with the profile it selects. *)
Definition selected_input (p : routingInput) : routingInput := if (profileID p =? 0)%Z then with_profileID p 1 else p.


Section Decide.
Context (ac_builds : forall ps, forallb (forallb ahocorasick_IsValidChar) ps = true -> exists m, ahocorasick_NewMatcher ps = Ok m).
Context (ac_finds : forall ps m text, ahocorasick_NewMatcher ps = Ok m -> Forall (fun p => p <> []) ps ->
  forallb ahocorasick_IsValidChar text = true -> ahocorasick_Contains m text = existsb (fun p => substring p text) ps).
Context (lower_bytes : forall s, Forall is_byte s -> Forall is_byte (unicode_ToLower s)).

(** Inputs of the userspace router. *)
Record decidable_input (p : routingInput) : Prop := {
  di_wf : input_wf p;
  di_stage : stage p = routeFromIngress;
  di_src : IsValid (ap_addr (src p)) = true;
  di_dst : IsValid (ap_addr (dst p)) = true;
  di_named : named_input ahocorasick_IsValidChar unicode_ToLower p;
}.

(** What a built matcher has from the builder, whatever its state. *)
Lemma moment_fields b l0 m : built ahocorasick_NewMatcher regexp_Compile b l0 -> m_matcher m = with_state l0 (l_state (m_matcher m)) ->
  l_profiles (m_matcher m) = fold_left (fun m p => <[ID p := Spans p]> m) (b_profiles b) ∅ /\
  build_domains ahocorasick_NewMatcher regexp_Compile (simulatedDomainSet (tables b)) = Ok (l_domainMatcher (m_matcher m)) /\
  l_defaultProfileID (m_matcher m) = defaultProfile b.
Proof. intros [H1 H2 H3 H4 H5 H6 H7] ->. by destruct l0. Qed.

Lemma moment_models p b l0 m allowed usable input : deployed p b l0 m -> forall m', moment_ok b l0 m' ->
  domains_ok ahocorasick_IsValidChar regexp_Compile b -> input_wf input -> named_input ahocorasick_IsValidChar unicode_ToLower input ->
  models (m_links m') (m_members m') (domain_value input) (tables b) (evaluated (m_matcher m') allowed usable) input.
Proof.
  intros Hdep m' Hok Hdom Hwf Hn. destruct (deployed_facts _ _ _ _ Hdep) as [Hbu _].
  destruct (compiled_facts _ _ (dp_direct _ _ _ _ Hdep) (dp_prepared _ _ _ _ Hdep) (dp_compile _ _ _ _ Hdep)) as (Ht & _ & _ & _ & Hlen).
  destruct (moment_fields _ _ _ Hbu (mo_matcher _ _ _ Hok)) as (_ & Hd & _).
  eapply live_models; [apply (mo_live _ _ _ Hok)|done|done| |apply (mo_links _ _ _ Hok)|apply (mo_members _ _ _ Hok)|].
  - assert (MaxMatchSetLen = 1024) as Hmax by done. lia.
  - intros id key values Hid. by eapply domain_models.
Qed.

Lemma live_decides (p : preparedRules) (b : Builder) (l0 : liveMatcher) (m0 m : moment) (i : nat) (name : string)
    (interfaces : list string) (nodes : list node) (input : routingInput) allowed usable :
  deployed p b l0 m0 -> rtc (routing_step ebpf_error) m0 m -> domains_ok ahocorasick_IsValidChar regexp_Compile b ->
  profile_bindings (pr_routing p) !! i = Some (name, interfaces) ->
  policy_nodes outbounds (set_map (RuleSets (pr_routing p))) p (find_policy (pr_routing p) name) nodes ->
  profileID (selected_input input) = (1 + Z.of_nat i)%Z -> decidable_input input ->
  let router := evaluated (m_matcher m) allowed usable in
  match_ router input =
    (r ← run_policy (m_links m) (m_members m) (domain_value input) router (selected_input input) nodes;
     Ok (outbound r, mark r, must_result r)).
Proof.
  intros Hdep Hr Hdom Hi Hn Hid [Hwf Hst Hs Hd Hnm] router.
  destruct (deployed_facts _ _ _ _ Hdep) as [Hbu Hok0].
  destruct (compiled_facts _ _ (dp_direct _ _ _ _ Hdep) (dp_prepared _ _ _ _ Hdep) (dp_compile _ _ _ _ Hdep)) as (Ht & Hpa & Hnd & Hdef & _).
  pose proof (reachable_ok _ _ _ _ _ Hdep Hr) as Hok.
  destruct (moment_fields _ _ _ Hbu (mo_matcher _ _ _ Hok)) as (Hprof & _ & Hdm).
  destruct (compileRouting_spec (m_links m) (m_members m) (domain_value input) sha256 (domain_value_set _ _ _ input) outbounds (dp_direct _ _ _ _ Hdep) _ _ _ _
    (dp_prepared _ _ _ _ Hdep) (dp_compile _ _ _ _ Hdep)) as (w & Henc & Hall & Hids & _).
  destruct (Forall2_lookup_l _ _ _ _ _ Hall Hi) as (profile & Hp & _ & _ & nodes' & Hn' & Hden).
  rewrite <-(policy_nodes_fun _ _ _ _ _ _ Hn Hn') in Hden.
  pose proof (profile_id _ _ _ _ _ Hids Hi Hp) as Hpid.
  assert (Hspans : l_profiles (m_matcher m) !! (1 + Z.of_nat i)%Z = Some (Spans profile)).
  { rewrite Hprof, <-Hpid. apply fold_spans_lookup; [done|]. by eapply list_elem_of_lookup_2. }
  unfold match_. cbn [profiles router RoutingState.evaluated defaultProfileID]. rewrite Hdm, Hdef. fold (selected_input input). rewrite Hid, Hspans.
  assert (Hsame : forall q, selected_input q = q \/ selected_input q = with_profileID q 1) by (intros q; unfold selected_input; destruct (_ =? _)%Z; tauto).
  rewrite (evaluateSpans_denotes (m_links m) (m_members m) (domain_value input) b w (Spans profile) nodes router (selected_input input) Henc Hden); [done|..].
  - apply (lv_matches _ _ _ _ (mo_live _ _ _ Hok)).
  - assert (Hdv : domain_value input = domain_value (selected_input input)) by (destruct (Hsame input) as [-> | ->]; done). rewrite Hdv.
    eapply moment_models; [exact Hdep|done|done|destruct (Hsame input) as [-> | ->]; done|destruct (Hsame input) as [-> | ->]; done].
  - by destruct (Hsame input) as [-> | ->].
  - by destruct (Hsame input) as [-> | ->].
  - by destruct (Hsame input) as [-> | ->].
Qed.

(** C4: at every reachable moment the userspace router decides as the selected policy
    means: the first rule that holds of the packet, of the name, of the present links
    and of the present client members, through every nested condition. *)
Theorem live_decision (p : preparedRules) (b : Builder) (l0 : liveMatcher) (m0 m : moment) (i : nat) (name : string)
    (interfaces : list string) (nodes : list node) (input : routingInput) allowed usable :
  deployed p b l0 m0 -> rtc (routing_step ebpf_error) m0 m -> domains_ok ahocorasick_IsValidChar regexp_Compile b ->
  profile_bindings (pr_routing p) !! i = Some (name, interfaces) ->
  policy_nodes outbounds (set_map (RuleSets (pr_routing p))) p (find_policy (pr_routing p) name) nodes ->
  profileID (selected_input input) = (1 + Z.of_nat i)%Z -> decidable_input input ->
  let router := evaluated (m_matcher m) allowed usable in
  match_ router input =
    (r ← run_policy (m_links m) (m_members m) (domain_value input) router (selected_input input) nodes;
     Ok (outbound r, mark r, must_result r)).
Proof. apply live_decides. Qed.
End Decide.
End Deployed.

(** ** An example *)

(** [client(phones) -> proxy], [dip(10.0.0.0/8) -> direct], then
    [interface(eth0) && domain(suffix: example.com) -> proxy] and [fallback: direct]. *)
Definition home_routing : Routing :=
  mkRouting "main" []
    [mkPolicy "main" []
       [demo_statement (demo_rule [demo_fn "client" false [simpleParam "" "phones"]] "proxy");
        demo_statement (demo_rule [demo_fn "dip" false [simpleParam "" "10.0.0.0/8"]] "direct");
        demo_statement (demo_rule [demo_fn "interface" false [simpleParam "" "eth0"]; demo_fn "domain" false [simpleParam "suffix" "example.com"]] "proxy")]
       (Some (demo_fn "direct" false []))]
    [].
Definition home_prepared : preparedRules := mkPrepared home_routing None [] [] [] [] None.
Definition home_compile : res Builder := compileRouting demo_hash Slimtrie.naive_valid Slimtrie.no_regexp home_prepared demo_outbounds.
Definition home_builder : Builder := match home_compile with Ok b => b | _ => newRoutingMatcherBuilder ∅ end.
Definition no_errors (_ : BPFState) (_ : ebpf_call) : option string := None.
Definition empty_maps : BPFState := mkBPF ∅ ∅ ∅ ∅ 0.
(** The value of a computation that is known to succeed. *)
Definition ok_or {A} (d : A) (r : res A) : A := match r with Ok a => a | _ => d end.
Lemma ok_or_ok {A} (d : A) r : (match r with Ok _ => true | _ => false end) = true -> r = Ok (ok_or d r).
Proof. by destruct r. Qed.

Definition empty_live : liveMatcher (AcMatcher := list bytes) (Regexp := unit) :=
  mkLive (mkRoutingState [] [] [] ∅ 0 0) [] 0 ∅ ∅ (Slimtrie.NewAhocorasickSlimtrie 0) [] [].
Definition home_matcher : liveMatcher :=
  ok_or empty_live (buildUserspace Slimtrie.naive_NewMatcher Slimtrie.no_regexp None home_builder).
Definition home_links (name : string) : option Z := if String.eqb name "eth0" then Some 7%Z else None.
Definition home_uploaded : liveMatcher * BPFState :=
  ok_or (empty_live, empty_maps) (BuildKernspace no_errors home_links home_matcher empty_maps).
Definition home_moment : moment := mkMoment (linked home_links) (fun _ => []) home_uploaded.1 home_uploaded.2.
Definition phone : bytes := [2; 0; 0; 0; 0; 9]%Z.
Definition home_update : routingState * BPFState * option string :=
  ok_or (l_state empty_live, empty_maps, None) (SetClientMembers no_errors "phones" [phone] true (l_state home_uploaded.1) home_uploaded.2).
Definition home_later : moment :=
  mkMoment (linked home_links) (set_env (fun _ => []) "phones" [phone]) (with_state home_uploaded.1 home_update.1.1) home_update.1.2.

Lemma home_deployed : deployed no_errors demo_hash Slimtrie.naive_NewMatcher Slimtrie.naive_valid Slimtrie.no_regexp demo_outbounds home_prepared home_builder home_matcher home_moment.
Proof.
  split.
  - by vm_compute.
  - by apply prepared_okb_ok.
  - by vm_compute.
  - apply (Forall_forallb (fun ps => (Z.of_nat (2 * total_length (map bin_key ps) + 65) <? 2 ^ 31)%Z)); [intros ps; apply Z.ltb_lt|by vm_compute].
  - exists None. split; [done|by vm_compute].
  - exists home_links, empty_maps. split; [|split; [|done]].
    + intros n v. unfold home_links. destruct (String.eqb n "eth0"); [|done]. by intros [= <-].
    + cbn [m_matcher m_maps home_moment]. rewrite <-surjective_pairing. by apply ok_or_ok; vm_compute.
Qed.

Lemma home_step : rtc (routing_step no_errors) home_moment home_later.
Proof.
  apply rtc_once. apply step_members.
  - apply Forall_singleton. split; [done|]. by apply bytesb_ok.
  - by vm_compute.
  - assert (He : home_update.2 = None) by (by vm_compute). rewrite <-He.
    rewrite <-!surjective_pairing. by apply ok_or_ok; vm_compute.
Qed.

Lemma routing_reachable_ok_witness : moment_ok home_builder home_matcher home_later /\ m_members home_later "phones" = [phone].
Proof.
  split; [|reflexivity].
  exact (routing_reachable_ok no_errors demo_hash Slimtrie.naive_NewMatcher Slimtrie.naive_valid Slimtrie.no_regexp demo_outbounds home_prepared home_builder home_matcher home_moment home_later home_deployed home_step).
Defined.

Definition phone_input : routingInput :=
  mkInput (mkAddrPort demo_addr 5000) (mkAddrPort demo_addr 443) L4ProtoType_TCP (str "example.com") zero16 3 0 0 0 phone None None false routeFromIngress.
Definition no_match (_ : unit) (_ : bytes) : bool := false.
Definition home_router : RoutingMatcher := evaluated Slimtrie.naive_Contains no_match id (m_matcher home_later) None None.

Lemma home_domains : domains_ok Slimtrie.naive_valid Slimtrie.no_regexp home_builder.
Proof.
  assert (Hs : map domain_set_of (simulatedDomainSet (tables home_builder)) = [(0, [str "example.com"], "suffix"%string)]) by (by vm_compute).
  unfold domains_ok. rewrite Hs. split; [split; [|split]|].
  - apply Forall_singleton. split; [unfold MaxMatchSetLen; lia|done].
  - intros i ps typ d Hin Hd. apply list_elem_of_singleton in Hin as [= -> -> ->]. apply list_elem_of_singleton in Hd as ->. split; [exact (str_bytes "example.com")|done].
  - intros i. unfold Slimtrie.collect. cbn [flat_map]. destruct (0 =? i); by vm_compute.
  - intros i ps d Hin Hd. apply list_elem_of_singleton in Hin. done.
Qed.

Lemma phone_decidable : decidable_input Slimtrie.naive_valid id phone_input.
Proof.
  destruct demo_input_wf as (Ha & _). split; [|done..|].
  - split; [exact Ha|]. split; [exact Ha|]. split; [done|].
    by apply bytesb_ok.
  - split; [done|]. split; [done|]. split; [apply str_bytes|]. intros _.
    assert (Hd : normal_domain id (domain phone_input) = str "example.com") by (by vm_compute). rewrite Hd.
    assert (Hno : forall c, forallb (fun x => negb (x =? c)%Z) (str "example.com") = true -> c ∉ str "example.com").
    { intros c H Hin. rewrite forallb_forall in H. specialize (H c (proj1 (list_elem_of_In _ _) Hin)). by rewrite Z.eqb_refl in H. }
    split; [by apply Hno|]. split; [by apply Hno|by vm_compute].
Qed.

Lemma live_decision_witness : exists nodes,
  policy_nodes demo_outbounds (set_map (RuleSets home_routing)) home_prepared (find_policy home_routing "main") nodes /\
  match_ home_router phone_input =
    (r ← run_policy (m_links home_later) (m_members home_later) (domain_value Slimtrie.no_regexp no_match id phone_input) home_router (selected_input phone_input) nodes;
     Ok (outbound r, mark r, must_result r)) /\
  match_ home_router phone_input = Ok (2, 0, false)%Z.
Proof.
  destruct (compileRouting_spec (fun _ => 0%Z) (fun _ => []) (fun _ _ => predicateMiss) demo_hash ltac:(done) demo_outbounds (dp_direct _ _ _ _ _ _ _ _ _ _ home_deployed)
    _ _ _ _ (dp_prepared _ _ _ _ _ _ _ _ _ _ home_deployed) (dp_compile _ _ _ _ _ _ _ _ _ _ home_deployed)) as (w & _ & Hall & _).
  assert (Hb : profile_bindings (pr_routing home_prepared) !! 0 = Some ("main"%string, [])) by (by vm_compute).
  destruct (Forall2_lookup_l _ _ _ _ _ Hall Hb) as (profile & _ & _ & _ & nodes & Hn & _). exists nodes. split; [exact Hn|]. split; [|by vm_compute].
  exact (live_decision no_errors demo_hash Slimtrie.naive_NewMatcher Slimtrie.naive_Contains Slimtrie.naive_valid Slimtrie.no_regexp no_match id demo_outbounds
    Slimtrie.naive_builds Slimtrie.naive_finds (fun s H => H) home_prepared home_builder home_matcher home_moment home_later 0 "main" [] nodes phone_input None None
    home_deployed home_step home_domains Hb Hn eq_refl phone_decidable).
Defined.
