(* ===== verification/RoutingKernelLive.v ===== *)
(** * Decisions of the kernel

    The eBPF program run on the uploaded maps decides as the policy means. The maps are
    those of [RoutingState]; the lookup of a kernel prefix trie, the published domain
    bitmaps, the connectivity of the outbounds and the admission of HTTP clients are
    parameters. *)

From S2P Require Import Prelude Netip GoStrings Trie TrieCorrect DomainMatcher ConfigSyntax RoutingInstr RoutingCursor RoutingEval RoutingKernel RoutingEquiv RoutingSem RoutingEmit RoutingRules RoutingBuilder RoutingConfig RoutingCompile RoutingDenote RoutingNodes RoutingPool RoutingResolve RoutingCompileCorrect RoutingCompiled RoutingState RoutingStateCorrect RoutingLive.

(** ** Tails of a program *)

(** Every action of the node satisfies [P]. *)
Fixpoint node_tails (P : bpfMatchSet -> Prop) (n : node) : Prop :=
  match n with
  | NRule _ tail => P tail
  | NBlock _ body => (fix go nodes := match nodes with [] => True | n :: nodes => node_tails P n /\ go nodes end) body
  end.

Lemma node_tails_block P g body : node_tails P (NBlock g body) <-> Forall (node_tails P) body.
Proof.
  cbn [node_tails]. induction body as [|n body IH]; [by split|]. rewrite Forall_cons. by apply and_iff_compat_l.
Qed.

Lemma node_tails_mono (P Q : bpfMatchSet -> Prop) n : (forall t, P t -> Q t) -> node_tails P n -> node_tails Q n.
Proof.
  intros H. induction n as [g tail|g body IH] using node_rect'; [apply H|]. rewrite !node_tails_block.
  induction IH as [|n body Hn IH IHb]; [done|]. rewrite !Forall_cons. intros [? ?]. split; [by apply Hn|by apply IHb].
Qed.

Lemma nodes_tails_mono (P Q : bpfMatchSet -> Prop) ns : (forall t, P t -> Q t) -> Forall (node_tails P) ns -> Forall (node_tails Q) ns.
Proof. intros H Hns. eapply Forall_impl; [exact Hns|]. intros n. by apply node_tails_mono. Qed.

(** What an emitted instruction is: an edge of its construct, or the tail of a rule. *)
Definition emitted_as (P : bpfMatchSet -> Prop) (mt : bpfMatchSet) : Prop :=
  ((Action mt = MatchActionOr \/ Action mt = MatchActionAnd \/ Action mt = MatchActionConditionalJump) /\ (0 <= Mark mt)%Z) \/
  exists c tail pr, P tail /\ mt = tail_instr (not_flag c) tail pr.

Lemma emit_preds_as P flags preds T mt : (forall pr, emitted_as P (T pr)) -> mt ∈ emit_preds flags preds T -> emitted_as P mt.
Proof.
  intros HT. induction preds as [|pr [|pr' preds] IH]; [by intros ?%elem_of_nil|by intros ->%list_elem_of_singleton|].
  rewrite emit_preds_cons. intros [->|H]%elem_of_cons; [left; cbn; split; [by left|lia]|by apply IH].
Qed.

Lemma emit_clauses_as P cs tail after mt : (forall c pr, emitted_as P (tail_instr (not_flag c) tail pr)) ->
  mt ∈ emit_clauses cs tail after -> emitted_as P mt.
Proof.
  intros HT. induction cs as [|c [|c' cs] IH]; [by intros ?%elem_of_nil|by apply emit_preds_as|].
  rewrite emit_clauses_cons, elem_of_app. intros [H|H]; [|by apply IH]. eapply emit_preds_as, H. intros pr. left. cbn. split; [tauto|lia].
Qed.

Section Emitted.
Context (ifenv : string -> Z) (members : string -> list bytes) (dv : string -> list string -> predicateResult).

Lemma emitted_item t P n : forall it mt, elab ifenv members dv t n it -> node_tails P n -> mt ∈ emit_item it -> emitted_as P mt.
Proof.
  induction n as [g tail|g body IH] using node_rect'; intros [cs tail'|cs items] mt; try done.
  - cbn [elab node_tails]. intros (_ & <- & _) HP. apply emit_clauses_as. intros c pr. right. by exists c, tail, pr.
  - rewrite elab_block, node_tails_block, emit_item_block, elem_of_app. intros [_ Hb] HP [H|H].
    + eapply emit_clauses_as, H. intros c pr. left. cbn. split; [tauto|lia].
    + unfold elabs in Hb. clear cs. induction Hb as [|n it body items Hn Hb IHb]; [by apply elem_of_nil in H|].
      apply Forall_cons in IH as [IHn IH]. apply Forall_cons in HP as [HPn HP]. cbn [emit_items] in H. apply elem_of_app in H as [H|H]; [by eapply IHn|by apply IHb].
Qed.

Lemma emitted_items t P ns its mt : elabs ifenv members dv t ns its -> Forall (node_tails P) ns -> mt ∈ emit_items its -> emitted_as P mt.
Proof.
  unfold elabs. induction 1 as [|n it ns its Hn H IH]; intros HP Hmt; [by apply elem_of_nil in Hmt|].
  apply Forall_cons in HP as [HPn HP]. cbn [emit_items] in Hmt. apply elem_of_app in Hmt as [Hmt|Hmt]; [by eapply emitted_item|by apply IH].
Qed.

(** Operands of the emitted instructions. *)
Lemma guard_preds_ok t g cs : guard_means ifenv members dv t g cs -> Forall (pred_ok t) (flat_map cl_preds cs).
Proof.
  destruct g as [fs| |]; cbn [guard_means].
  - intros [_ H]. induction H as [|f c fs cs (_ & _ & Ho & _) H IH]; [constructor|]. cbn. by apply Forall_app.
  - intros ->. apply Forall_singleton. by apply pred_ok_other.
  - intros ->. apply Forall_singleton. by apply pred_ok_other.
Qed.

Lemma item_preds_ok t n : forall it, elab ifenv members dv t n it -> Forall (pred_ok t) (item_preds it).
Proof.
  induction n as [g tail|g body IH] using node_rect'; intros [cs tail'|cs items]; try done.
  - cbn [elab item_preds]. intros (Hg & _). by eapply guard_preds_ok.
  - rewrite elab_block, item_preds_block. intros [Hg Hb]. apply Forall_app. split; [by eapply guard_preds_ok|].
    unfold elabs, items_preds in *. clear Hg. induction Hb as [|n it body items Hn Hb IHb]; [constructor|].
    apply Forall_cons in IH as [IHn IH]. cbn. apply Forall_app. split; [by apply IHn|by apply IHb].
Qed.

Lemma items_preds_ok t ns its : elabs ifenv members dv t ns its -> Forall (pred_ok t) (items_preds its).
Proof.
  unfold elabs, items_preds. induction 1 as [|n it ns its Hn H IH]; [constructor|]. cbn. apply Forall_app. split; [by eapply item_preds_ok|done].
Qed.
End Emitted.

(** ** Tails of a policy *)

Section Policy.
Context (outbounds : gmap string Z) (sets : gmap string (list RoutingStatement)).
(** Outbound indexes are bytes. *)
Context (outbounds_fit : forall name id, outbounds !! name = Some id -> fits 8 id).

Definition kernel_tail (t : bpfMatchSet) : Prop :=
  (Action t <> MatchActionMatch /\ Action t <> MatchActionMiss) /\ (0 <= Mark t)%Z /\
  (Action t = MatchActionRoute -> fits 8 (Outbound_ t) /\ fits 32 (Mark t)).

(** Before the flow controls, and from them on. *)
Definition early_tail (t : bpfMatchSet) : Prop := kernel_tail t /\ Action t <> MatchActionMust.
Definition late_tail (t : bpfMatchSet) : Prop := kernel_tail t /\ (Action t = MatchActionCapture -> redirects t = false).

Lemma ParseOutbound_mark f o : ParseOutbound f = Ok o -> fits 32 (o_Mark o).
Proof.
  unfold ParseOutbound. assert (Hgen : forall ps acc, foldM outbound_param acc ps = Ok o -> fits 32 (o_Mark acc) -> fits 32 (o_Mark o)).
  { induction ps as [|q ps IH]; intros acc; cbn [foldM]; [by intros [= <-]|].
    destruct (outbound_param acc q) as [acc'| |] eqn:E; [|done..]. cbn [mbind res_bind]. intros H Hm. apply (IH _ H).
    unfold outbound_param in E. repeat case_match; simplify_eq; cbn; try done. by eapply ParseUint0_fits. }
  intros H. apply Hgen in H; [done|]. apply fits_0.
Qed.

Lemma route_tail_kernel o id f name : ParseOutbound f = Ok o -> outbounds !! name = Some id -> early_tail (route_tail o id) /\ late_tail (route_tail o id).
Proof.
  intros Ho%ParseOutbound_mark Hid%outbounds_fit.
  assert (Hk : kernel_tail (route_tail o id)) by (split; [done|]; split; [apply Ho|done]). by split.
Qed.

Lemma rule_node_tails rule n : rule_node outbounds rule = Some n -> node_tails early_tail n /\ node_tails late_tail n /\ node_tails early_tail (bypass_node n).
Proof.
  unfold rule_node. destruct (ParseOutbound _) as [o| |] eqn:Eo; [|done..]. destruct (outbounds !! o_Name o) as [id|] eqn:Ei; [|done]. intros [= <-].
  destruct (route_tail_kernel _ _ _ _ Eo Ei) as [H1 H2]. split_and!; [done..|]. destruct H1 as [(_ & H3 & H4) _]. cbn. split; [split; [done|split; [done|exact H4]]|done].
Qed.

Lemma rules_tails rs ns : mapM (rule_node outbounds) rs = Some ns ->
  Forall (node_tails early_tail) ns /\ Forall (node_tails late_tail) ns /\ Forall (node_tails early_tail) (map bypass_node ns).
Proof.
  intros H%mapM_Some. induction H as [|rule n rs ns Hn H (H1 & H2 & H3)]; [by split_and!|].
  destruct (rule_node_tails _ _ Hn) as (? & ? & ?). cbn [map]. rewrite !Forall_cons. by split_and!.
Qed.

Lemma use_nodes_tails P cond ns : Forall (node_tails P) ns -> Forall (node_tails P) (use_nodes cond ns).
Proof. intros H. destruct cond, ns; try done. cbn [use_nodes]. apply Forall_singleton. by apply node_tails_block. Qed.

Lemma expands_tails P rule_nodes stmts nodes : (forall rule ns, rule_nodes rule = Some ns -> Forall (node_tails P) ns) ->
  expands sets rule_nodes stmts nodes -> Forall (node_tails P) nodes.
Proof.
  intros HP. induction 1 as [|st rule ns stmts nodes _ _ Hn _ IH|st body bn stmts nodes _ _ _ IH1 _ IH]; [constructor|..]; apply Forall_app; split; try done.
  - by eapply HP.
  - by apply use_nodes_tails.
Qed.

Lemma effect_kernel action flags : action ∈ [MatchActionCapture; MatchActionMust; MatchActionBump] -> kernel_tail (effect_tail action flags).
Proof. rewrite !elem_of_cons, elem_of_nil. intros [-> | [-> | [-> | []]]]; (split; [done|]; split; [cbn; lia|done]). Qed.

Lemma plan_rule_controls rule plan : plan_rule (mkPlan [] []) rule = Ok plan ->
  Forall (fun c => fr_Action c = MatchActionMust \/ fr_Action c = MatchActionBump) (Controls plan).
Proof.
  unfold plan_rule. intros H. repeat case_match; simplify_eq; cbn; try constructor; try constructor; cbn; tauto.
Qed.

Lemma policy_split p policy nodes : policy_nodes outbounds sets p policy nodes ->
  exists first rest, nodes = first ++ rest /\ Forall (node_tails early_tail) first /\ Forall (node_tails late_tail) rest /\ nodes <> [].
Proof.
  intros (by_ & early & late & caps & cons & body & fb & o & id & Hby & Hea & Hla & Hcap & Hcon & Hbody & Hfb & Ho & Hid & ->).
  eexists (map bypass_node by_ ++ caps ++ map capture_node (pr_destinations p) ++ request_nodes p), _.
  split; [by rewrite <-!app_assoc|]. split; [|split].
  3: { rewrite !app_assoc. by intros [_ ?]%app_eq_nil. }
  - apply rules_tails in Hby as (_ & _ & Hby). rewrite !Forall_app. split; [done|].
    assert (Hc : forall flags, early_tail (effect_tail MatchActionCapture flags)) by (intros; split; [apply effect_kernel; set_solver|done]).
    split_and!.
    + eapply expands_tails, Hcap. intros rule ns. unfold capture_nodes. destruct (plan_rule _ _) as [plan| |]; [|done..]. intros [= <-].
      apply Forall_map, Forall_true. intros d. apply Hc.
    + apply Forall_map, Forall_true. intros d. apply Hc.
    + unfold request_nodes, http_nodes. destruct (pr_capture p) as [[[|pr prs] http]|]; [constructor| |constructor].
      apply Forall_singleton, node_tails_block, Forall_map, Forall_true. intros fs. apply Hc.
  - apply rules_tails in Hea as (_ & Hea & _), Hla as (_ & Hla & _). rewrite !Forall_app. split_and!; try done.
    + eapply expands_tails, Hcon. intros rule ns. unfold control_nodes. destruct (plan_rule _ _) as [plan| |] eqn:Ep; [|done..]. intros [= <-].
      apply plan_rule_controls in Ep. apply Forall_map. eapply Forall_impl; [exact Ep|]. intros c Hc. cbn.
      split; [apply effect_kernel; set_solver|]. by destruct Hc as [-> | ->].
    + unfold capture_http_nodes, http_nodes. destruct (pr_capture p) as [[request [|pr prs]]|]; [constructor| |constructor].
      apply Forall_singleton, node_tails_block, Forall_map, Forall_true. intros fs. split; [apply effect_kernel; set_solver|done].
    + unfold flowEnd_nodes. destruct (is_empty _); [constructor|]. apply Forall_singleton. split; [split; [done|by split]|done].
    + eapply expands_tails, Hbody. intros rule ns. unfold route_nodes. destruct (rule_node outbounds rule) as [n|] eqn:En; [|done]. intros [= <-].
      apply Forall_singleton. by apply rule_node_tails in En as (_ & ? & _).
    + apply Forall_singleton. by apply (route_tail_kernel _ _ _ _ Ho Hid).
Qed.
End Policy.

(** ** Kernel prefix tries *)

(** The bytes of a key in memory, and the comparison of [BPF_MAP_TYPE_LPM_TRIE]: the
    first [PrefixLen] bits, the most significant bit of each byte first. *)
Definition key_bytes (k : bpfLpmKey) : bytes := flat_map (put_le 4) (Data k).
Definition key_covers (data : bytes) (k : bpfLpmKey) : bool :=
  let n := Z.to_nat (PrefixLen k) in bool_decide (take n (bits_of (key_bytes k)) = take n (bits_of data)).

Lemma get_le_nonneg b : Forall is_byte b -> (0 <= get_le b)%Z.
Proof. induction 1 as [|x b [Hx _] H IH]; [done|]. cbn. rewrite Z.lor_nonneg, Z.shiftl_nonneg. done. Qed.

Lemma put_get_le b : Forall is_byte b -> put_le (length b) (get_le b) = b.
Proof.
  induction 1 as [|x b Hx Hb IH]; [done|]. pose proof (get_le_nonneg b Hb) as Hy. set (y := get_le b) in *.
  unfold put_le in *. cbn [length seq map get_le]. fold y. f_equal.
  - apply tb_inj; [apply wrap_fits|apply Hx|]. intros n. rewrite tb_wrap, tb_shr, tb_lor. change 8%Z with (Z.of_nat 8). rewrite tb_shiftl.
    destruct (Nat.ltb_spec n 8); [|symmetry; apply (fits_tb 8); [exact Hx|done]]. nat_cases; try lia. cbn. by rewrite orb_false_r, Nat.add_0_r.
  - rewrite <-IH at 2. rewrite <-seq_shift, map_map. apply map_ext. intros i. f_equal. unfold shr.
    replace (8 * S i) with (8 + 8 * i) by lia. rewrite Nat2Z.inj_add, <-Z.shiftr_shiftr by lia. f_equal. change (Z.of_nat 8) with 8%Z.
    rewrite Z.shiftr_lor, Z.shiftr_shiftl_l by lia. rewrite Z.sub_diag, Z.shiftl_0_r, Z.shiftr_div_pow2, Z.div_small by (done || exact Hx). done.
Qed.

Lemma key_bytes_address ip : length ip = 16 -> Forall is_byte ip -> flat_map (put_le 4) (ipv6BytesToWords ip) = ip.
Proof.
  intros Hl Hb. unfold ipv6BytesToWords, Uint32. cbn [map flat_map].
  assert (Hw : forall j, j + 4 <= 16 -> put_le 4 (get_le (take 4 (drop j ip))) = take 4 (drop j ip)).
  { intros j Hj. rewrite <-(put_get_le (take 4 (drop j ip))) at 2 by by apply Forall_take, Forall_drop. f_equal. rewrite length_take, length_drop. lia. }
  rewrite !Hw by lia. do 16 (destruct ip as [|? ip]; [done|]). by destruct ip.
Qed.

Lemma As16_bytes a : Addr_wf a -> length (As16 a) = 16 /\ Forall is_byte (As16 a).
Proof.
  destruct a as [|a|a]; cbn [As16 Addr_wf].
  - intros _. split; [done|]. by apply bytesb_ok.
  - intros [Hl Hb]. rewrite length_app. split; [cbn; by rewrite Hl|]. apply Forall_app. split; [by apply bytesb_ok|done].
  - done.
Qed.

Lemma key_covers_cidr data p : Prefix_wf p -> key_covers data (cidrToBpfLpmKey p) = cidr_contains data p.
Proof.
  intros (Ha & Hv & Hb). unfold key_covers, cidr_contains, key_bytes. cbn [cidrToBpfLpmKey Data PrefixLen].
  destruct (As16_bytes _ Ha) as [Hl Hby]. rewrite key_bytes_address by done.
  assert (Hn : Z.to_nat (wrap 32 (if Is4 (pfx_addr p) then (pfx_bits p + 96)%Z else pfx_bits p)) = prefix_len128 p); [|by rewrite Hn].
  unfold prefix_len128. destruct (pfx_addr p); cbn in *; rewrite wrap_id; try (split; lia); lia.
Qed.

(** ** The uploaded program *)

Section KernelLive.
Context (ebpf_error : BPFState -> ebpf_call -> option string) (sha256 : bytes -> bytes).
Context {AcMatcher Regexp : Type}.
Context (ahocorasick_NewMatcher : list bytes -> res AcMatcher) (ahocorasick_Contains : AcMatcher -> bytes -> bool).
Context (ahocorasick_IsValidChar : Z -> bool) (regexp_Compile : bytes -> option Regexp).
Context (regexp_MatchString : Regexp -> bytes -> bool) (unicode_ToLower : bytes -> bytes).
Context (outbounds : gmap string Z) (outbounds_fit : forall name id, outbounds !! name = Some id -> fits 8 id).
Local Abbreviation moment := (moment (AcMatcher := AcMatcher) (Regexp := Regexp)).
Local Abbreviation deployed := (deployed ebpf_error sha256 ahocorasick_NewMatcher ahocorasick_IsValidChar regexp_Compile outbounds).
Local Abbreviation evaluated := (evaluated ahocorasick_Contains regexp_MatchString unicode_ToLower).

(** Lookups of the kernel that the sources do not implement. *)
Context (lpm_trie_lookup : list bpfLpmKey -> bytes -> bool).
Context (lpm_trie_found : forall keys data, length data = 16 -> Forall is_byte data -> lpm_trie_lookup keys data = existsb (key_covers data) keys).
Context (domains : bytes -> option domain_routing) (alive : Z -> Z -> Z -> bool) (admitted : route_params -> bool).

Definition kernel_maps (k : BPFState) : KernelMaps := {|
  routing_map := fun i => RoutingMap k !! i;
  lpm_array_map := fun i => keys ← LpmArrayMap k !! Z.to_nat i; Some (lpm_trie_lookup keys);
  domain_routing_map := domains;
  outbound_connectivity_alive := alive;
  http_client_allowed := admitted;
  routing_interface_map := fun ifindex => RoutingInterfaceMap k !! ifindex;
  default_routing_profile := DefaultRoutingProfile k;
  routing_profile_map := fun id => RoutingProfileMap k !! id
|}.

(** The userspace router that shares the kernel's view of clients and outbounds. *)
Definition kernel_router (m : moment) (params : route_params) : RoutingMatcher :=
  evaluated (m_matcher m) (Some (fun _ _ => admitted params))
    (Some (fun o l4 ip => alive o (if has_flag ip IpVersion_4 then 4 else 6)%Z (if has_flag l4 L4ProtoType_TCP then IPPROTO_TCP else IPPROTO_UDP))).

(** A packet as the kernel sees it: no name, only the bitmaps of its destination. *)
Record kernel_packet (params : route_params) (p : routingInput) : Prop := {
  kp_fields : fields_agree p params;
  kp_wf : input_wf p;
  kp_domain : domain p = [] /\
    match domains (k_daddr params) with
    | Some d => domainBitmap p = Some (routing d) /\ domainBumpBitmap p = Some (bump d)
    | None => domainBitmap p = None /\ domainBumpBitmap p = None
    end;
  kp_stage : stage p = routeFromIngress;
  kp_kernel : kernel p = true;
  kp_src : IsValid (ap_addr (src p)) = true;
  kp_dst : IsValid (ap_addr (dst p)) = true;
}.

(** What the published bitmaps say of a domain set. *)
Definition published (p : routingInput) (id : nat) : predicateResult :=
  if bitmap_has (domainBitmap p) (Z.of_nat id) then predicateMatch
  else if bitmap_has (domainBumpBitmap p) (Z.of_nat id) then predicateUnknown else predicateMiss.

Lemma published_value m p id : domain p = [] -> id < MaxMatchSetLen ->
  pvalue m p (MatchType_DomainSet, PutUint32 (Z.of_nat id)) = Ok (published p id).
Proof.
  intros Hd Hid. assert (MaxMatchSetLen = 1024) as Hmax by done. unfold pvalue, predicates_match. cbn [Type_ Value fst snd]. cbn -[PutUint32 Uint32 bitmap_has published].
  rewrite Uint32_PutUint32 by (split; lia). unfold load_domain. cbn [domainLoaded input fresh initial_state predicates].
  cbn [domainLoaded input]. rewrite Hd, bool_decide_eq_true_2 by done.
  unfold published. destruct (domainBitmap p) as [bm|] eqn:Eb; cbn -[bitmap_has]; rewrite Eb; by repeat destruct (bitmap_has _ _).
Qed.

(** The prefixes of every slot of a live state are well formed. *)
Lemma live_slot links members b s slot : tables_ok (tables b) -> live links members b s -> (forall name, Forall mac_wf (members name)) ->
  slot < length (simulatedLpmTries (tables b)) -> exists prefixes, s_simulatedLpmTries s !! slot = Some prefixes /\ Forall Prefix_wf prefixes.
Proof.
  intros Ht Hl Hm Hlt. destruct (decide (Exists (fun e => e.2 = slot) (map_to_list (clientSetSlots (tables b))))) as [He|He].
  - apply Exists_exists in He as ([name slot'] & Hin & Hs). cbn in Hs. subst slot'. apply elem_of_map_to_list in Hin.
    eexists. split; [by apply (lv_client _ _ _ _ Hl)|]. by apply mac_prefixes_wf.
  - assert (Hst : static_slot (tables b) slot).
    { intros name Hn. apply He, Exists_exists. exists (name, slot). split; [by apply elem_of_map_to_list|done]. }
    rewrite (lv_static _ _ _ _ Hl _ Hst). apply lookup_lt_is_Some_2 in Hlt as [prefixes Hp]. exists prefixes. split; [done|].
    by eapply Forall_lookup_1, Hp; apply (ok_prefixes _ Ht).
Qed.

Lemma existsb_ext_Forall {A} (f g : A -> bool) (P : A -> Prop) l : (forall x, P x -> f x = g x) -> Forall P l -> existsb f l = existsb g l.
Proof. intros Hfg. induction 1 as [|x l Hx H IH]; [done|]. cbn. by rewrite Hfg, IH. Qed.

(** Address tables answer alike in the matcher and in the kernel. *)
Lemma slot_agrees links members b s k (m : RoutingMatcher) slot key : tables_ok (tables b) -> live links members b s -> synced s k ->
  (forall name, Forall mac_wf (members name)) -> lpmMatcher m = s_lpmMatcher s -> slot < kernelLpmLen b ->
  kernelLpmLen b <= length (simulatedLpmTries (tables b)) ->
  length key = 16 -> Forall is_byte key ->
  exists t keys, lpmMatcher m !! slot = Some t /\ LpmArrayMap k !! slot = Some keys /\ HasPrefixIP t key = Some (lpm_trie_lookup keys key).
Proof.
  intros Ht Hl Hsy Hmem Hm Hslot Hk Hkl Hkb. destruct (live_slot _ _ _ _ slot Ht Hl Hmem) as (prefixes & Hp & Hwf); [lia|].
  destruct (Forall2_lookup_r _ _ _ _ _ (lv_tries _ _ _ _ Hl) Hp) as (t & Htr & Hf). exists t, (map cidrToBpfLpmKey prefixes).
  rewrite Hm. split; [done|]. split; [apply (sy_lpm _ _ Hsy); [by rewrite (lv_kernel _ _ _ _ Hl)|done]|].
  rewrite (Hf key Hkl). f_equal. rewrite lpm_trie_found, existsb_map by done. symmetry. eapply existsb_ext_Forall; [intros p; apply key_covers_cidr|done].
Qed.

(** *** Programs in the kernel part of the pool *)

Section Program.
Context (links : string -> Z) (members : string -> list bytes) (dv : string -> list string -> predicateResult).
Context (sets : gmap string (list RoutingStatement)) (p : preparedRules) (policy : RoutingPolicy) (nodes : list node).
Context (Hnodes : policy_nodes outbounds sets p policy nodes).
Context (b : Builder) (w0 w : world) (spans : list routingSpan) (m : RoutingMatcher).
Context (Hle : w_le w0 w) (Hpart : kernel_part b w0) (Henc : encoded links b w) (Hden : denotes links members dv w0 spans nodes).
Context (Hm : matches m = bound_rules links b).

(** The instructions of the program, and where they are. *)
Lemma program_instructions : exists first rest, mapM (fun i => emit_pool (w_pool w0) !! i) (code_of spans) = Some (first ++ rest) /\
  first ++ rest <> [] /\ Forall (fun mt => kernel_instr mt /\ pred_ok (w_tables w0) (pred_of mt)) (first ++ rest) /\
  Forall (fun mt => Action mt <> MatchActionMust) first /\ Forall (fun mt => Action mt = MatchActionCapture -> redirects mt = false) rest.
Proof.
  destruct (policy_split outbounds sets outbounds_fit _ _ _ Hnodes) as (na & nb & Hn & Ha & Hb & Hne).
  destruct Hden as (its & He & _ & Hprog). pose proof (items_preds_ok _ _ _ _ _ _ He) as Hpreds. rewrite Hn in He.
  apply Forall2_app_inv_l in He as (ia & ib & Hea & Heb & ->). rewrite emit_items_app in Hprog. exists (emit_items ia), (emit_items ib).
  assert (Hkt : forall mt, emitted_as kernel_tail mt -> pred_ok (w_tables w0) (pred_of mt) -> kernel_instr mt).
  { intros mt Hem (H1 & H2 & _). destruct Hem as [[Hact Hmark]|(c & tail & pr & (Hact & Hmark & Hroute) & ->)].
    - split; try done; destruct Hact as [-> | [-> | ->]]; done.
    - split; try done; intros E; by apply Hroute. }
  assert (Hall : Forall (fun mt => kernel_instr mt /\ pred_ok (w_tables w0) (pred_of mt)) (emit_items ia ++ emit_items ib)).
  { apply Forall_forall. intros mt Hmt. assert (Hpr : pred_ok (w_tables w0) (pred_of mt)).
    { rewrite <-emit_items_app in Hmt. apply pred_of_emit_items in Hmt. by eapply Forall_forall in Hpreds. }
    split; [|done]. apply Hkt; [|done]. apply elem_of_app in Hmt as [Hmt|Hmt].
    - eapply emitted_items; [exact Hea| |exact Hmt]. eapply nodes_tails_mono, Ha. by intros t [].
    - eapply emitted_items; [exact Heb| |exact Hmt]. eapply nodes_tails_mono, Hb. by intros t []. }
  split; [done|]. split; [|split; [done|split]].
  - intros Hnil. rewrite <-emit_items_app in Hnil. assert (Hd : denotes links members dv w0 [] nodes).
    { exists (ia ++ ib). rewrite Hnil. split; [rewrite Hn; by apply Forall2_app|]. by split. }
    apply Hne. by apply (proj1 (denotes_empty _ _ _ _ _ _ Hd ltac:(constructor))).
  - apply Forall_forall. intros mt Hmt. destruct (emitted_items _ _ _ _ _ _ _ mt Hea Ha Hmt) as [[Hact _]|(c & tail & pr & [_ Hact] & ->)]; [|done].
    by destruct Hact as [-> | [-> | ->]].
  - apply Forall_forall. intros mt Hmt. destruct (emitted_items _ _ _ _ _ _ _ mt Heb Hb Hmt) as [[Hact _]|(c & tail & pr & [_ Hact] & ->)].
    + by destruct Hact as [-> | [-> | ->]].
    + intros E. specialize (Hact E). unfold redirects in *. cbn [tail_instr Flags]. rewrite <-Hact. unfold shr. rewrite Z.shiftr_lor.
      assert (Hnot : (not_flag c ≫ Z.of_nat matchCaptureShift)%Z = 0%Z) by (unfold not_flag; by destruct (cl_not c)). by rewrite Hnot.
Qed.

(** Every step of the program names an instruction of the kernel. *)
Lemma program_step k : k ∈ code_of spans ->
  exists mt, matches m !! k = Some mt /\ k < routing_end b /\ kernel_instr mt /\ pred_ok (w_tables w0) (pred_of mt).
Proof.
  intros Hk. destruct program_instructions as (first & rest & Hprog & _ & Hall & _). apply mapM_Some in Hprog. apply list_elem_of_lookup in Hk as [i Hi].
  destruct (Forall2_lookup_l _ _ _ _ _ Hprog Hi) as (mt & Hmt & Hpool). exists mt. destruct (Forall_lookup_1 _ _ _ _ Hall Hmt) as [H1 H2].
  destruct Hpart as (Hend & _ & _). split; [|split; [|done]].
  - destruct Henc as (Hb & _). rewrite Hm, Hb. destruct Hle as [_ [ks ->]]. rewrite emit_pool_app. by apply lookup_app_l_Some.
  - rewrite <-Hend. by eapply lookup_lt_Some.
Qed.

Lemma program_captures_first : captures_first m (code_of spans).
Proof.
  destruct program_instructions as (first & rest & Hprog & _ & _ & Hfirst & Hrest). apply mapM_Some in Hprog.
  assert (Hat : forall i k mt, code_of spans !! i = Some k -> matches m !! k = Some mt -> (first ++ rest) !! i = Some mt).
  { intros i k mt Hi Hk. destruct (Forall2_lookup_l _ _ _ _ _ Hprog Hi) as (mt' & Hmt & Hpool). rewrite Hmt. destruct Henc as (Hb & _).
    rewrite Hm, Hb in Hk. destruct Hle as [_ [ks Hks]]. rewrite Hks, emit_pool_app, (lookup_app_l_Some _ _ _ _ Hpool) in Hk. congruence. }
  intros i j ki kj mi mj Hij Hi Hj Hmi Hmj Hmust Hcap. pose proof (Hat _ _ _ Hi Hmi) as Ei. pose proof (Hat _ _ _ Hj Hmj) as Ej.
  apply lookup_app_Some in Ei as [Ei|[Hge _]]; [by destruct (Forall_lookup_1 _ _ _ _ Hfirst Ei)|].
  apply lookup_app_Some in Ej as [Ej|[_ Ej]]; [apply lookup_lt_Some in Ej; lia|]. by apply (Forall_lookup_1 _ _ _ _ Hrest Ej).
Qed.
End Program.

(** *** Decisions *)

(** The program of a profile is installed and the kernel maps agree with the router. *)
Section Installed.
Context (p : preparedRules) (b : Builder) (l0 : liveMatcher) (m : moment) (Hok : moment_ok b l0 m) (Ht : tables_ok (tables b)).
Context (Hlen : length (simulatedLpmTries (tables b)) <= 3 * MaxMatchSetLen).
Context (dv : string -> list string -> predicateResult) (sets : gmap string (list RoutingStatement)) (policy : RoutingPolicy) (nodes : list node).
Context (Hnodes : policy_nodes outbounds sets p policy nodes).
Context (w0 w : world) (Hle : w_le w0 w) (Hpart : kernel_part b w0) (Henc : encoded (m_links m) b w).
Context (profile : routingProfile) (Hprofile : profile ∈ b_profiles b).
Context (Hden : denotes (m_links m) (m_members m) dv w0 (Spans profile) nodes).
Context (params : route_params) (input : routingInput) (Hpacket : kernel_packet params input).

Lemma router_matches : matches (kernel_router m params) = bound_rules (m_links m) b.
Proof. apply (lv_matches _ _ _ _ (mo_live _ _ _ Hok)). Qed.

Lemma step_of k : k ∈ code_of (Spans profile) -> exists mt, matches (kernel_router m params) !! k = Some mt /\ k < routing_end b /\
  kernel_instr mt /\ pred_ok (w_tables w0) (pred_of mt).
Proof. intros Hk. by eapply program_step; [exact Hnodes|exact Hle|exact Hpart|exact Henc|exact Hden|apply router_matches|]. Qed.

Lemma router_installed : @selected_profile (kernel_maps (m_maps m)) params = ID profile ->
  @installed (kernel_maps (m_maps m)) (kernel_router m params) params (Spans profile).
Proof.
  intros Hsel. edestruct program_instructions as (first & rest & Hprog & Hne & _); [exact Hnodes|exact Hden|].
  destruct Hpart as (_ & _ & Hmax). split.
  - by destruct Hden as (its & _ & Hw & _).
  - intros Hnil. rewrite Hnil in Hprog. injection Hprog as Heq. by rewrite <-Heq in Hne.
  - apply Forall_forall. intros k Hk. destruct (step_of k Hk) as (mt & Hmt & _ & Hi & _). by exists mt.
  - apply Forall_forall. intros k Hk. destruct (step_of k Hk) as (mt & _ & Hlt & _). lia.
  - unfold marks_ok. rewrite router_matches. destruct Henc as (-> & _ & Hks & _). by apply emit_pool_marks.
  - by eapply program_captures_first; [exact Hnodes|exact Hle|exact Henc|exact Hden|apply router_matches].
  - destruct (up_profiles _ _ (mo_uploaded _ _ _ Hok) _ Hprofile) as (v & Hv & Hmap). exists v. rewrite Hsel. done.
Qed.

Lemma router_agreement : @agreement (kernel_maps (m_maps m)) (kernel_router m params) input params (code_of (Spans profile)).
Proof.
  destruct Hpacket as [Hf _ Hdom _ _ _ _]. pose proof Hpart as (_ & Hlpm & Hmax). split; [exact Hf| | |exact Hdom|done|].
  - intros k Hk. destruct (step_of k Hk) as (mt & _ & Hlt & _). split; [lia|].
    apply (sy_routing _ _ (mo_synced _ _ _ Hok)). by rewrite (lv_end _ _ _ _ (mo_live _ _ _ Hok)).
  - intros k mt Hk Hmt Htype key Hkl Hkb. destruct (step_of k Hk) as (mt' & Hmt' & _ & _ & _ & _ & Hpo). rewrite Hmt in Hmt'. injection Hmt' as <-.
    destruct (Hpo Htype) as (id & Hid & Hv). cbn [pred_of snd] in Hv.
    assert (Hkl' : kernelLpmLen b <= length (simulatedLpmTries (tables b))).
    { rewrite <-Hlpm. destruct Henc as (_ & -> & _). destruct Hle as [Hl _]. apply prefix_length, (le_lpm _ _ Hl). }
    assert (MaxMatchSetLen = 1024) as Hmax' by done. rewrite Hv, Uint32_PutUint32 by (split; lia). rewrite Nat2Z.id.
    destruct (slot_agrees _ _ _ _ (m_maps m) (kernel_router m params) id key Ht (mo_live _ _ _ Hok) (mo_synced _ _ _ Hok) (mo_members _ _ _ Hok) eq_refl)
      as (t & keys & -> & Hkeys & Hhas); [lia|done..|]. cbn [lpm_array_map kernel_maps]. rewrite Nat2Z.id, Hkeys. exact Hhas.
  - intros o. destruct Hf. unfold route_outbound_alive, usable. rewrite fa_ip, fa_l4. done.
Qed.

Lemma router_models : (forall id key values, simulatedDomainSet (tables b) !! id = Some (mkDomainSet key id values) -> published input id = dv key values) ->
  models (m_links m) (m_members m) dv (tables b) (kernel_router m params) input.
Proof.
  intros Hdv. destruct Hpacket as [_ Hwf [Hdom _] _ _ _ _]. assert (MaxMatchSetLen = 1024) as Hmax by done.
  eapply live_models; [apply (mo_live _ _ _ Hok)|done|done|lia|apply (mo_links _ _ _ Hok)|apply (mo_members _ _ _ Hok)|].
  intros id key values Hid. rewrite published_value; [by rewrite (Hdv _ _ _ Hid)|done|]. apply lookup_lt_Some in Hid. pose proof (ok_size _ Ht). lia.
Qed.
End Installed.

Lemma kernel_live_decides (p : preparedRules) (b : Builder) l0 (m0 m : moment) (i : nat) (name : string) (interfaces : list string)
    (nodes : list node) (params : route_params) (input : routingInput) (dv : string -> list string -> predicateResult) :
  deployed p b l0 m0 -> rtc (routing_step ebpf_error) m0 m ->
  profile_bindings (pr_routing p) !! i = Some (name, interfaces) ->
  policy_nodes outbounds (set_map (RuleSets (pr_routing p))) p (find_policy (pr_routing p) name) nodes ->
  @selected_profile (kernel_maps (m_maps m)) params = (1 + Z.of_nat i)%Z -> kernel_packet params input ->
  (forall key vs vs', (forall v, v ∈ vs <-> v ∈ vs') -> dv key vs = dv key vs') ->
  (forall id key values, simulatedDomainSet (tables b) !! id = Some (mkDomainSet key id values) -> published input id = dv key values) ->
  match run_policy (m_links m) (m_members m) dv (kernel_router m params) input nodes with
  | Ok e => decode_route_result (@route (kernel_maps (m_maps m)) params) = (outbound e, mark e, Z.b2z (must_result e), captureFlags_result e)
  | _ => @route (kernel_maps (m_maps m)) params = (- EPERM)%Z
  end.
Proof.
  intros Hdep Hr Hi Hn Hsel Hpacket Hset Hdv. pose proof Hpacket as [_ _ _ Hst Hk Hs Hd].
  pose proof (reachable_ok _ _ _ _ _ _ _ _ _ _ _ Hdep Hr) as Hok.
  destruct (compiled_facts _ _ _ _ _ _ (dp_direct _ _ _ _ _ _ _ _ _ _ Hdep) (dp_prepared _ _ _ _ _ _ _ _ _ _ Hdep) (dp_compile _ _ _ _ _ _ _ _ _ _ Hdep)) as (Ht & _ & _ & _ & Hlen).
  destruct (compileRouting_kernel (m_links m) (m_members m) dv sha256 Hset outbounds (dp_direct _ _ _ _ _ _ _ _ _ _ Hdep) _ _ _ _
    (dp_prepared _ _ _ _ _ _ _ _ _ _ Hdep) (dp_compile _ _ _ _ _ _ _ _ _ _ Hdep)) as (w0 & w & Hle & Hpart & Henc & Hall & Hids & _).
  destruct (Forall2_lookup_l _ _ _ _ _ Hall Hi) as (profile & Hp & _ & _ & nodes' & Hn' & Hden). rewrite <-(policy_nodes_fun _ _ _ _ _ _ Hn Hn') in Hden. clear nodes' Hn'.
  pose proof (profile_id _ _ _ _ _ Hids Hi Hp) as Hid. apply list_elem_of_lookup_2 in Hp.
  rewrite <-(evaluateSpans_denotes (m_links m) (m_members m) dv b w (Spans profile) nodes (kernel_router m params) input Henc
    (denotes_le _ _ _ _ _ _ _ Hle Hden) (router_matches _ _ _ Hok _) (router_models _ _ _ Hok Ht Hlen _ _ _ Hpacket Hdv) Hst Hs Hd).
  rewrite <-Hid in Hsel. apply kernel_decides; try done.
  - eapply router_installed; eassumption.
  - eapply router_agreement; eassumption.
Qed.

(** C2: at every reachable moment the eBPF program, run on the uploaded maps, decides as
    the policy of the packet's profile means for the present links, the present client
    members and the published domain bitmaps; where the policy decides nothing the
    packet is refused. A moment is reached by client updates and by link notifications whose
    writes to the maps succeed. *)
Theorem kernel_live_decision (p : preparedRules) (b : Builder) l0 (m0 m : moment) (i : nat) (name : string) (interfaces : list string)
    (nodes : list node) (params : route_params) (input : routingInput) (dv : string -> list string -> predicateResult) :
  deployed p b l0 m0 -> rtc (routing_step ebpf_error) m0 m ->
  profile_bindings (pr_routing p) !! i = Some (name, interfaces) ->
  policy_nodes outbounds (set_map (RuleSets (pr_routing p))) p (find_policy (pr_routing p) name) nodes ->
  @selected_profile (kernel_maps (m_maps m)) params = (1 + Z.of_nat i)%Z -> kernel_packet params input ->
  (forall key vs vs', (forall v, v ∈ vs <-> v ∈ vs') -> dv key vs = dv key vs') ->
  (forall id key values, simulatedDomainSet (tables b) !! id = Some (mkDomainSet key id values) -> published input id = dv key values) ->
  match run_policy (m_links m) (m_members m) dv (kernel_router m params) input nodes with
  | Ok e => decode_route_result (@route (kernel_maps (m_maps m)) params) = (outbound e, mark e, Z.b2z (must_result e), captureFlags_result e)
  | _ => @route (kernel_maps (m_maps m)) params = (- EPERM)%Z
  end.
Proof. apply kernel_live_decides. Qed.
End KernelLive.

(** ** An example *)

Definition phone_packet : routingInput :=
  mkInput (mkAddrPort demo_addr 5000) (mkAddrPort demo_addr 443) L4ProtoType_TCP [] zero16 3 0 0 0 phone None None true routeFromIngress.
Definition phone_params : route_params :=
  mkParams (As16 demo_addr) (As16 demo_addr) zero16 3 0 0 5000 443 phone L4ProtoType_TCP (IpVersionFromAddr demo_addr) 0 false false.
Definition no_bitmaps (_ : bytes) : option domain_routing := None.
Definition linear_lookup (keys : list bpfLpmKey) (data : bytes) : bool := existsb (key_covers data) keys.
Definition all_alive (_ _ _ : Z) : bool := true.
Definition all_admitted (_ : route_params) : bool := true.
Definition home_kernel : KernelMaps := kernel_maps linear_lookup no_bitmaps all_alive all_admitted (m_maps home_later).

Lemma phone_kernel_packet : kernel_packet no_bitmaps phone_params phone_packet.
Proof.
  destruct demo_input_wf as (Ha & _). assert (Hmac : mac_wf phone) by (split; [done|by apply bytesb_ok]).
  split; [|by split_and!|by split_and!|done..]. split; try done; by apply bytesb_ok.
Qed.

Lemma demo_outbounds_fit name id : demo_outbounds !! name = Some id -> fits 8 id.
Proof.
  unfold demo_outbounds. rewrite lookup_insert_Some, lookup_singleton_Some. intros [[_ <-]|[_ [_ <-]]]; split; by vm_compute.
Qed.

Lemma kernel_live_decision_witness : exists nodes,
  policy_nodes demo_outbounds (set_map (RuleSets home_routing)) home_prepared (find_policy home_routing "main") nodes /\
  match run_policy (m_links home_later) (m_members home_later) (fun _ _ => predicateMiss)
      (kernel_router Slimtrie.naive_Contains no_match id all_alive all_admitted home_later phone_params) phone_packet nodes with
  | Ok e => decode_route_result (@route home_kernel phone_params) = (outbound e, mark e, Z.b2z (must_result e), captureFlags_result e)
  | _ => @route home_kernel phone_params = (- EPERM)%Z
  end /\
  decode_route_result (@route home_kernel phone_params) = (2, 0, 0, 0)%Z.
Proof.
  destruct (compileRouting_spec (fun _ => 0%Z) (fun _ => []) (fun _ _ => predicateMiss) demo_hash ltac:(done) demo_outbounds (dp_direct _ _ _ _ _ _ _ _ _ _ home_deployed)
    _ _ _ _ (dp_prepared _ _ _ _ _ _ _ _ _ _ home_deployed) (dp_compile _ _ _ _ _ _ _ _ _ _ home_deployed)) as (w & _ & Hall & _).
  assert (Hb : profile_bindings (pr_routing home_prepared) !! 0 = Some ("main"%string, [])) by (by vm_compute).
  destruct (Forall2_lookup_l _ _ _ _ _ Hall Hb) as (profile & _ & _ & _ & nodes & Hn & _). exists nodes. split; [exact Hn|]. split; [|by vm_compute].
  assert (Hsel : @selected_profile home_kernel phone_params = 1%Z) by (by vm_compute).
  exact (kernel_live_decision no_errors demo_hash Slimtrie.naive_NewMatcher Slimtrie.naive_Contains Slimtrie.naive_valid Slimtrie.no_regexp no_match id demo_outbounds
    demo_outbounds_fit linear_lookup (fun _ _ _ _ => eq_refl) no_bitmaps all_alive all_admitted home_prepared home_builder home_matcher home_moment home_later 0 "main" [] nodes
    phone_params phone_packet (fun _ _ => predicateMiss) home_deployed home_step Hb Hn Hsel phone_kernel_packet (fun _ _ _ _ => eq_refl) (fun _ _ _ _ => eq_refl)).
Defined.
