(* ===== verification/RoutingOptimizer.v ===== *)
(** * Rule optimizers and rule preparation (component/routing/optimizer.go,
    control/routing_profile_compiler.go, control/routing_prepare.go)

    Before compilation the rules of a configuration are rewritten: aliases become the
    authoritative names, references to data files become the values they list,
    neighbouring rules with one target are merged, and functions and values are sorted
    and deduplicated. The optimizers work on deep copies, so values are passed along.
    What the data files list and the state of the context are parameters; caches are
    not observable. *)

From Stdlib Require Import Ascii String.
From S2P Require Import Prelude GoSlices Netip GoStrings ConfigSyntax RoutingInstr RoutingRules RoutingBuilder RoutingConfig RoutingCompile.

(** ** Orders *)

(** [cmp.Or(cmp.Compare(..), cmp.Compare(..)) <= 0]. *)
Definition lex_le {K} (lt : K -> K -> bool) (k k' : K) (v v' : string) : bool :=
  if lt k k' then true else if lt k' k then false else String.leb v v'.

(** ** Editing the tree *)

Definition with_f_Name (f : Function) (name : string) : Function := mkFunction name (f_Not f) (f_Params f) (f_Quoted f).
Definition with_f_Params (f : Function) (params : list Param) : Function := mkFunction (f_Name f) (f_Not f) params (f_Quoted f).
Definition with_p_Key (p : Param) (key : string) : Param :=
  mkParam key (p_Val p) (p_AndFunctions p) (p_Quoted p) (p_ValueList p) (p_Annotation p).
Definition with_AndFunctions (r : RoutingRule) (fs : list Function) : RoutingRule := mkRule fs (r_Outbound r) (r_Sources r).
Definition map_functions (g : Function -> Function) (r : RoutingRule) : RoutingRule := with_AndFunctions r (map g (r_AndFunctions r)).

(** ** Aliases *)

Definition alias_key (key : string) : string :=
  if String.eqb key "" || String.eqb key "domain" then "suffix"
  else if String.eqb key "contains" then "keyword" else key.

Definition alias_function (f : Function) : Function :=
  let name := if String.eqb (f_Name f) "port" then Function_DestPort
              else if String.eqb (f_Name f) "ip" then Function_DestIp else f_Name f in
  with_f_Params (with_f_Name f name)
    (if String.eqb name Function_Domain then map (fun p => with_p_Key p (alias_key (p_Key p))) (f_Params f) else f_Params f).

Definition AliasOptimizer_Optimize (rules : list RoutingRule) : res (list RoutingRule) := Ok (map (map_functions alias_function) rules).

(** ** Merging and sorting *)

Definition singleton (r : RoutingRule) : option Function := match r_AndFunctions r with [f] => Some f | _ => None end.

(** Rules of one function, of the same name and target, are one rule. *)
Definition mergeable (merging rule : RoutingRule) : bool :=
  match singleton merging, singleton rule with
  | Some f, Some g =>
    negb (f_Not f) && negb (String.eqb (f_Name f) Function_Client) && String.eqb (f_Name f) (f_Name g) &&
    Bool.eqb (f_Not f) (f_Not g) &&
    String.eqb (Function_String true false true (r_Outbound rule)) (Function_String true false true (r_Outbound merging))
  | _, _ => false
  end.

Definition merge_rule (merging rule : RoutingRule) : RoutingRule :=
  match singleton merging, singleton rule with
  | Some f, Some g => mkRule [with_f_Params f (f_Params f ++ f_Params g)] (r_Outbound merging) (r_Sources merging ++ r_Sources rule)
  | _, _ => merging
  end.

Fixpoint merge_rules (merging : RoutingRule) (rules : list RoutingRule) : list RoutingRule :=
  match rules with
  | [] => [merging]
  | rule :: rules =>
    if mergeable merging rule then merge_rules (merge_rule merging rule) rules
    else merging :: merge_rules rule rules
  end.

Definition function_le (f g : Function) : bool := String.leb (f_Name f) (f_Name g).

(** The IP version an address value is sorted under. *)
Definition value_version (p : Param) : Z := if existsb (Ascii.eqb ":") (list_ascii_of_string (p_Val p)) then 6 else 4.
Definition ip_param_le (p q : Param) : bool := lex_le Z.ltb (value_version p) (value_version q) (p_Val p) (p_Val q).
Definition param_le (p q : Param) : bool := lex_le String.ltb (p_Key p) (p_Key q) (p_Val p) (p_Val q).

Definition sort_params (f : Function) : Function :=
  with_f_Params f
    (SortStable (if String.eqb (f_Name f) Function_DestIp || String.eqb (f_Name f) Function_SourceIp then ip_param_le else param_le) (f_Params f)).

Definition sort_functions (r : RoutingRule) : RoutingRule := with_AndFunctions r (SortStable function_le (r_AndFunctions r)).

Definition MergeAndSortRulesOptimizer_Optimize (rules : list RoutingRule) : res (list RoutingRule) :=
  match map sort_functions rules with
  | [] => Ok rules
  | rule :: rules => Ok (map (map_functions sort_params) (merge_rules rule rules))
  end.

(** ** Deduplication *)

Fixpoint deduplicate (seen : list string) (list_ : list Param) : list Param :=
  match list_ with
  | [] => []
  | v :: list_ =>
    let key := Param_String true false v in
    if existsb (String.eqb key) seen then deduplicate seen list_ else v :: deduplicate (key :: seen) list_
  end.
Definition deduplicateParams (list_ : list Param) : list Param := deduplicate [] list_.

Definition DeduplicateParamsOptimizer_Optimize (rules : list RoutingRule) : res (list RoutingRule) :=
  Ok (map (map_functions (fun f => with_f_Params f (deduplicateParams (f_Params f)))) rules).

(** ** Data files *)

(** [strings.Cut] at a one-byte separator. *)
Fixpoint cut_list (sep : ascii) (l : list ascii) : option (list ascii * list ascii) :=
  match l with
  | [] => None
  | c :: l => if Ascii.eqb c sep then Some ([], l) else '(a, b) ← cut_list sep l; Some (c :: a, b)
  end.
Definition Cut (s : string) (sep : ascii) : string * string * bool :=
  match cut_list sep (list_ascii_of_string s) with
  | Some (a, b) => (string_of_list_ascii a, string_of_list_ascii b, true)
  | None => (s, ""%string, false)
  end.

Definition with_suffix (name suffix : string) : string :=
  if has_prefix (rev (str suffix)) (rev (str name)) then name else (name +:+ suffix)%string.

(** [geodata.Domain]. *)
Inductive Domain_Type := Domain_Plain | Domain_Regex | Domain_RootDomain | Domain_Full | Domain_Other.
Record geo_Domain := mkDomain { d_Type : Domain_Type; d_Value : string; d_Attribute : list string }.

Definition domain_param (d : geo_Domain) : list Param :=
  match d_Type d with
  | Domain_Full => [simpleParam "full" (d_Value d)]
  | Domain_RootDomain => [simpleParam "suffix" (d_Value d)]
  | Domain_Plain => [simpleParam "keyword" (d_Value d)]
  | Domain_Regex => [simpleParam "regex" (d_Value d)]
  | Domain_Other => []
  end.

Definition paramsFromSubnets (subnets : list string) : list Param := map (simpleParam "") subnets.

Section DatReader.
(** The entry of a site list, the subnets of an address list and of a database field,
    Unicode folding, and the state of the context. *)
Context (geosite : string -> string -> res (list geo_Domain)).
Context (geoip : string -> string -> res (list string)) (mmdb : string -> string -> string -> res (list string)).
Context (EqualFold : string -> string -> bool) (strings_ToLower : string -> string) (contextErr : option string).

Definition check_context : res () := match contextErr with Some e => Err e | None => Ok tt end.

Definition loadGeoSite (filename code : string) : res (list Param) :=
  let '(code, attr, _) := Cut code "@" in
  domains ← geosite (with_suffix filename ".dat") code;
  _ ← check_context;
  Ok (flat_map (fun d => if String.eqb attr "" || existsb (fun key => EqualFold key attr) (d_Attribute d) then domain_param d else []) domains).

Definition loadGeoIp (filename code : string) : res (list Param) :=
  subnets ← geoip (with_suffix filename ".dat") code;
  _ ← check_context;
  Ok (paramsFromSubnets subnets).

Definition loadMMDB (filename field value : string) : res (list Param) :=
  _ ← check_context;
  subnets ← mmdb (with_suffix filename ".mmdb") field value;
  Ok (paramsFromSubnets subnets).

(** The parameters that replace one parameter. *)
Definition read_param (name : string) (param : Param) : res (list Param) :=
  _ ← check_context;
  if String.eqb (p_Key param) "geosite" then loadGeoSite "geosite" (p_Val param)
  else if String.eqb (p_Key param) "geoip" then loadGeoIp "geoip" (p_Val param)
  else if String.eqb (p_Key param) "mmdb" then
    let '(field, value, ok) := Cut (p_Val param) "=" in
    if negb ok || String.eqb field "" || String.eqb value "" then Err "invalid mmdb parameter"
    else loadMMDB "geoip" (strings_ToLower field) (strings_ToLower value)
  else if String.eqb (p_Key param) "ext" then
    let '(filename, code, ok) := Cut (p_Val param) ":" in
    if negb ok || String.eqb filename "" || String.eqb code "" then Err "invalid ext parameter"
    else if String.eqb name Function_Domain || String.eqb name Function_QName then loadGeoSite filename code
    else if String.eqb name Function_DestIp || String.eqb name Function_SourceIp then loadGeoIp filename code
    else Err "unsupported extension file extraction"
  else Ok [param].

Definition read_function (f : Function) : res Function :=
  pss ← mapR (read_param (f_Name f)) (f_Params f); Ok (with_f_Params f (concat pss)).

Definition read_rule (r : RoutingRule) : res RoutingRule :=
  fs ← mapR read_function (r_AndFunctions r); Ok (with_AndFunctions r fs).

Definition DatReaderOptimizer_Optimize (rules : list RoutingRule) : res (list RoutingRule) := mapR read_rule rules.

(** ** Preparation *)

Fixpoint ApplyRulesOptimizers (rules : list RoutingRule) (optimizers : list (list RoutingRule -> res (list RoutingRule)))
    : res (list RoutingRule) :=
  match optimizers with
  | [] => Ok rules
  | opt :: optimizers => rules ← opt rules; ApplyRulesOptimizers rules optimizers
  end.

(** The rules of one batch. *)
Definition prepare_rules (flow : bool) (rules : list RoutingRule) : res (list RoutingRule) :=
  ApplyRulesOptimizers rules
    ([AliasOptimizer_Optimize; DatReaderOptimizer_Optimize] ++
     (if flow then [] else [MergeAndSortRulesOptimizer_Optimize]) ++ [DeduplicateParamsOptimizer_Optimize]).

Definition prepare_condition (condition : list Function) : res (list Function) :=
  if is_empty condition then Ok condition
  else
    normalized ← ApplyRulesOptimizers [mkRule condition (mkFunction "" false [] false) []]
      [AliasOptimizer_Optimize; DatReaderOptimizer_Optimize; MergeAndSortRulesOptimizer_Optimize; DeduplicateParamsOptimizer_Optimize];
    rule ← idx (head normalized);
    Ok (r_AndFunctions rule).

Definition flush_batch (flow : bool) (batch : list RoutingRule) : res (list RoutingStatement) :=
  if is_empty batch then Ok [] else rules ← prepare_rules flow batch; Ok (map statement_rule rules).

(** [prepare]: maximal runs of rules are batches, [batch] is the run being collected. *)
Fixpoint prepare_statements (flow : bool) (batch : list RoutingRule) (statements : list RoutingStatement) : res (list RoutingStatement) :=
  match statements with
  | [] => flush_batch flow batch
  | st :: statements =>
    if bool_decide (st_Kind st = RoutingStatementRule) then
      match st_Rule st with
      | Some rule => prepare_statements flow (batch ++ [rule]) statements
      | None => Panic
      end
    else
      done_ ← flush_batch flow batch;
      condition ← prepare_condition (st_Condition st);
      rest ← prepare_statements flow [] statements;
      Ok (done_ ++ mkStatement (st_Kind st) (st_Rule st) (st_Use st) condition :: rest)
  end.
Definition prepare (flow : bool) (statements : list RoutingStatement) : res (list RoutingStatement) := prepare_statements flow [] statements.

Definition prepareRoutingConfig (source : Routing) : res Routing :=
  _ ← Validate source;
  kinds ← RuleSetKinds source;
  sets ← mapR (fun set =>
      statements ← prepare (bool_decide (kinds !! rs_Name set = Some RoutingRuleSetFlow)) (rs_Statements set);
      Ok (mkRuleSet (rs_Name set) statements)) (RuleSets source);
  policies ← mapR (fun policy =>
      rules ← prepare true (po_Rules policy);
      statements ← prepare false (po_Statements policy);
      Ok (mkPolicy (po_Name policy) rules statements (po_Fallback policy))) (Policies source);
  Ok (mkRouting (Default source) sets policies (Interfaces source)).

(** [prepareDestinationRules]: filters are normalized, rules are kept apart. *)
Definition prepare_destination (rule : DestinationRewrite) : res DestinationRewrite :=
  if is_empty (dr_To rule) then Err "missing target"
  else if existsb (fun ip => negb (IsValid ip)) (dr_To rule) then Err "invalid target IP"
  else if is_empty (dr_Filter rule) then Err "missing predicate"
  else
    normalized ← ApplyRulesOptimizers [mkRule (dr_Filter rule) (mkFunction "direct" false [] false) []]
      [AliasOptimizer_Optimize; DatReaderOptimizer_Optimize; DeduplicateParamsOptimizer_Optimize];
    r ← idx (head normalized);
    Ok (mkRewrite (r_AndFunctions r) (dr_To rule) (dr_Port rule)).
Definition prepareDestinationRules (rules : list DestinationRewrite) : res (list DestinationRewrite) := mapR prepare_destination rules.
End DatReader.
