(* ===== verification/RoutingOptimizerCorrect.v ===== *)
(** * Meaning of the optimized rules

    For a known name the optimizers do not change what a policy decides: the prepared
    configuration decides as the configuration whose aliases and data files were merely
    resolved, rule by rule. *)

From Stdlib Require Import Ascii String.
From S2P Require Import Prelude GoSlices Netip GoStrings ConfigSyntax RoutingInstr RoutingEval RoutingEquiv RoutingSem RoutingRules RoutingBuilder RoutingConfig RoutingCompile RoutingDenote RoutingNodes RoutingPool RoutingKeys RoutingResolve RoutingCompileCorrect RoutingOptimizer.

(** ** Lists *)

Lemma existsb_elems {A B} (f : B -> bool) (key : A -> B) l l' : (forall k, k ∈ map key l <-> k ∈ map key l') ->
  existsb (fun x => f (key x)) l = existsb (fun x => f (key x)) l'.
Proof.
  intros H. apply eq_true_iff_eq. rewrite !existsb_exists. split; intros (x & Hx & Hf); apply list_elem_of_In in Hx.
  - assert (Hk : key x ∈ map key l') by (apply H; by apply list_elem_of_fmap_2).
    apply list_elem_of_fmap in Hk as (y & Hy & Hin). exists y. rewrite <-Hy. split; [by apply list_elem_of_In|done].
  - assert (Hk : key x ∈ map key l) by (apply H; by apply list_elem_of_fmap_2).
    apply list_elem_of_fmap in Hk as (y & Hy & Hin). exists y. rewrite <-Hy. split; [by apply list_elem_of_In|done].
Qed.

(** ** Texts of targets *)

Local Abbreviation la := list_ascii_of_string.

Definition param_bare (q : Param) : Prop := p_AndFunctions q = None /\ p_Annotation q = [].
Definition target_plain (o : Function) : Prop := Forall param_bare (f_Params o).

(** The unquoted text of a parameter. *)
Lemma la_bare q : param_bare q -> la (Param_String true false q) = key_text q ++ la (p_Val q).
Proof.
  destruct q as [key val fns q vl ann]. intros [Hf Ha]. cbn in Hf, Ha. subst fns ann. unfold key_text. cbn [Param_String p_Key p_Val is_empty].
  destruct (String.eqb key ""); [done|]. rewrite !la_app. by rewrite <-app_assoc.
Qed.

Definition params_joined (ps : list Param) : list ascii := la (String.concat "," (map (Param_String true false) ps)).

Lemma la_target o : la (Function_String true false true o) =
  (if f_Not o then ["!"%char] else []) ++ la (formatFunctionName (f_Name o) (f_Quoted o)) ++
  (if is_empty (f_Params o) then [] else "("%char :: params_joined (f_Params o) ++ [")"%char]).
Proof.
  destruct o as [name not_ params quoted]. cbn [Function_String andb f_Not f_Name f_Quoted f_Params]. rewrite !la_app. unfold params_joined.
  destruct not_, (is_empty params); cbn [andb]; by rewrite ?la_app.
Qed.

(** Equal texts have equal names and equal parameter texts. *)
Lemma target_inj o o' : Function_String true false true o = Function_String true false true o' ->
  f_Name o = f_Name o' /\ (f_Params o = [] <-> f_Params o' = []) /\ (f_Params o <> [] -> params_joined (f_Params o) = params_joined (f_Params o')).
Proof.
  intros H. apply (f_equal la) in H. rewrite !la_target in H.
  set (r := if is_empty (f_Params o) then _ else _) in H. set (r' := if is_empty (f_Params o') then _ else _) in H.
  assert (Hname : la (formatFunctionName (f_Name o) (f_Quoted o)) ++ r = la (formatFunctionName (f_Name o') (f_Quoted o')) ++ r').
  { destruct (name_first (f_Name o) (f_Quoted o)) as (c & l & E & Hc), (name_first (f_Name o') (f_Quoted o')) as (c' & l' & E' & Hc').
    destruct (f_Not o), (f_Not o'); cbn [app] in H; rewrite ?E, ?E' in *; cbn [app] in *; try done; injection H; try done; congruence. }
  clear H. apply (f_equal (fun l => l ++ ["("%char])) in Hname. rewrite <-!app_assoc in Hname. unfold r, r' in *. clear r r'.
  destruct (f_Params o) as [|q ps] eqn:Ep, (f_Params o') as [|q' ps'] eqn:Ep'; cbn [is_empty app] in Hname; apply name_inj in Hname as [Hn Hr].
  - done.
  - by destruct (params_joined (q' :: ps')).
  - by destruct (params_joined (q :: ps)).
  - split; [done|]. split; [done|]. intros _. rewrite <-!app_assoc in Hr. by apply app_inv_tail in Hr.
Qed.

Lemma joined_cons q q' ps : params_joined (q :: q' :: ps) = la (Param_String true false q) ++ ","%char :: params_joined (q' :: ps).
Proof.
  unfold params_joined. cbn [map].
  change (String.concat "," (Param_String true false q :: Param_String true false q' :: map (Param_String true false) ps)) with
    (Param_String true false q +:+ "," +:+ String.concat "," (Param_String true false q' :: map (Param_String true false) ps)).
  by rewrite !la_app.
Qed.

Lemma joined_one q : params_joined [q] = la (Param_String true false q).
Proof. done. Qed.

Lemma joined_inj ps ps' : Forall (fun q => ","%char ∉ la (Param_String true false q)) ps -> Forall (fun q => ","%char ∉ la (Param_String true false q)) ps' ->
  ps <> [] -> ps' <> [] -> params_joined ps = params_joined ps' -> map (Param_String true false) ps = map (Param_String true false) ps'.
Proof.
  intros Hps. revert ps'. induction Hps as [|q ps Hq Hps IH]; intros ps' Hps' Hne Hne' H; [done|]. destruct Hps' as [|q' ps' Hq' Hps']; [done|].
  destruct ps as [|r ps], ps' as [|r' ps']; rewrite ?joined_cons, ?joined_one in H.
  - cbn. by rewrite (la_inj _ _ H).
  - exfalso. apply Hq. rewrite H. set_solver.
  - exfalso. apply Hq'. rewrite <-H. set_solver.
  - apply split_unique in H as [H1 H2]; [|done..]. apply la_inj in H1. cbn [map] in *. rewrite H1. f_equal. by apply (IH (r' :: ps')).
Qed.

Lemma str_la s : str s = map (fun c => Z.of_nat (nat_of_ascii c)) (la s).
Proof. induction s as [|c s IH]; [done|]. cbn. by rewrite <-IH. Qed.

Lemma parse_digits_comma base u max s : forall n k, parse_digits base u max n s = Some k -> 44%Z ∉ s.
Proof.
  induction s as [|c s IH]; intros n k; cbn [parse_digits]; [intros _; set_solver|].
  destruct (Z.eqb_spec c 95) as [->|_]; cbn [andb].
  - destruct u; cbn [andb]; [intros H%IH; set_solver|]. done.
  - destruct (decide (c = 44%Z)) as [->|Hc]; [done|]. destruct (if is_digit c then _ else _) as [d|]; [|done]. cbn [mbind option_bind].
    destruct (_ <=? _)%Z; [done|]. cbn zeta. destruct (_ <? _)%Z; [done|]. intros H%IH. set_solver.
Qed.

Lemma ParseUint0_comma bits s n : ParseUint0 bits s = Some n -> 44%Z ∉ s.
Proof.
  unfold ParseUint0. destruct s as [|c s]; [done|]. destruct (base_of (c :: s)) as [base digits] eqn:Eb.
  destruct (parse_digits base true _ 0 digits) as [k|] eqn:E; [|done]. intros _. apply parse_digits_comma in E.
  unfold base_of in Eb. repeat case_match; simplify_eq; try done; set_solver.
Qed.

(** A parameter a target accepts. *)
Definition target_param (q : Param) : Prop :=
  (","%char ∉ la (p_Val q)) /\ (p_Key q = "mark"%string \/ p_Key q = "skip_while_noalive"%string \/ (p_Key q = ""%string /\ ":"%char ∉ la (p_Val q))).

Lemma ParseBool_values s b : ParseBool s = Some b -> s ∈ ["1"; "t"; "T"; "TRUE"; "true"; "True"; "0"; "f"; "F"; "FALSE"; "false"; "False"]%string.
Proof.
  unfold ParseBool. destruct (existsb _ _) eqn:E1.
  - intros _. apply existsb_exists in E1 as (x & Hx & ->%String.eqb_eq). apply list_elem_of_In in Hx. set_solver.
  - destruct (existsb (String.eqb s) ["0"; _; _; _; _; _]%string) eqn:E2; [|done]. intros _.
    apply existsb_exists in E2 as (x & Hx & ->%String.eqb_eq). apply list_elem_of_In in Hx. set_solver.
Qed.

Lemma outbound_param_ok acc q o : outbound_param acc q = Ok o -> target_param q.
Proof.
  unfold outbound_param, target_param. destruct (String.eqb_spec (p_Key q) "mark") as [->|_].
  { destruct (ParseUint0 32 (str (p_Val q))) as [n|] eqn:E; [|done]. intros _. split; [|by left]. intros Hin. apply ParseUint0_comma in E. apply E.
    rewrite str_la. by apply (list_elem_of_fmap_2 (fun c => Z.of_nat (nat_of_ascii c))) in Hin. }
  destruct (String.eqb_spec (p_Key q) "skip_while_noalive") as [->|_].
  { destruct (ParseBool (p_Val q)) as [b|] eqn:E; [|done]. intros _. split; [|tauto]. apply ParseBool_values in E.
    intros Hin. repeat (apply elem_of_cons in E as [E|E]; [rewrite E in Hin; cbn in Hin; set_solver|]). by apply elem_of_nil in E. }
  destruct (String.eqb_spec (p_Key q) "") as [->|_]; [|done].
  destruct (String.eqb_spec (p_Val q) "must") as [->|_]; [intros _; split; [cbn; set_solver|]; right; right; split; [done|cbn; set_solver]|].
  destruct (String.eqb_spec (p_Val q) "skip_while_noalive") as [->|_]; [|done].
  intros _; split; [cbn; set_solver|]; right; right; split; [done|cbn; set_solver].
Qed.

Lemma ParseOutbound_params ps : forall acc o, foldM outbound_param acc ps = Ok o -> Forall target_param ps.
Proof.
  induction ps as [|q ps IH]; intros acc o; cbn [foldM]; [done|]. destruct (outbound_param acc q) as [acc'| |] eqn:E; [|done..]. cbn [mbind res_bind].
  intros H. constructor; [by eapply outbound_param_ok|by eapply IH].
Qed.

Lemma target_text_comma q : param_bare q -> target_param q -> ","%char ∉ la (Param_String true false q).
Proof.
  intros Hb [Hc Hk]. rewrite la_bare by done. apply not_elem_of_app. split; [|done]. unfold key_text.
  destruct Hk as [-> | [-> | [-> _]]]; cbn; set_solver.
Qed.

Lemma target_text_inj q q' : param_bare q -> param_bare q' -> target_param q -> target_param q' ->
  Param_String true false q = Param_String true false q' -> (p_Key q, p_Val q) = (p_Key q', p_Val q').
Proof.
  intros Hb Hb' [_ Hk] [_ Hk'] H. apply (f_equal la) in H. rewrite !la_bare in H by done. unfold key_text in H.
  assert (Hc : forall s, s = "mark"%string \/ s = "skip_while_noalive"%string -> String.eqb s "" = false /\ ":"%char ∉ la s).
  { intros s [-> | ->]; (split; [done|cbn; set_solver]). }
  assert (Hcases : forall q, p_Key q = "mark"%string \/ p_Key q = "skip_while_noalive"%string \/ (p_Key q = ""%string /\ ":"%char ∉ la (p_Val q)) ->
    (String.eqb (p_Key q) "" = false /\ ":"%char ∉ la (p_Key q)) \/ (p_Key q = ""%string /\ ":"%char ∉ la (p_Val q))).
  { intros r [Hr|[Hr|Hr]]; [left; apply Hc; tauto..|by right]. }
  apply Hcases in Hk. apply Hcases in Hk'. clear Hc Hcases.
  destruct Hk as [[E N]|[E N]], Hk' as [[E' N']|[E' N']]; rewrite ?E, ?E' in H; cbn [String.eqb app] in H.
  - rewrite <-!app_assoc in H. apply split_unique in H as [->%la_inj ->%la_inj]; done.
  - exfalso. apply N'. rewrite <-H. set_solver.
  - exfalso. apply N. rewrite H. set_solver.
  - by rewrite E, E', (la_inj _ _ H).
Qed.

Lemma foldM_outbound_pairs ps : forall ps' acc, map (fun q => (p_Key q, p_Val q)) ps = map (fun q => (p_Key q, p_Val q)) ps' ->
  foldM outbound_param acc ps = foldM outbound_param acc ps'.
Proof.
  induction ps as [|q ps IH]; intros [|q' ps'] acc H; try done. cbn in H. injection H as Hk Hv H. cbn [foldM].
  assert (Hq : outbound_param acc q = outbound_param acc q') by (unfold outbound_param; by rewrite Hk, Hv). rewrite Hq.
  destruct (outbound_param acc q') as [acc'| |]; [|done..]. by apply IH.
Qed.

(** Targets that print alike and that the router accepts are one target. *)
Lemma same_target f f' o o' : target_plain f -> target_plain f' -> ParseOutbound f = Ok o -> ParseOutbound f' = Ok o' ->
  Function_String true false true f = Function_String true false true f' -> o = o'.
Proof.
  intros Hp Hp' Ho Ho' H. apply target_inj in H as (Hn & He & Hj). unfold ParseOutbound in *. rewrite Hn in Ho.
  pose proof (ParseOutbound_params _ _ _ Ho) as Ht. pose proof (ParseOutbound_params _ _ _ Ho') as Ht'.
  assert (Hpairs : map (fun q => (p_Key q, p_Val q)) (f_Params f) = map (fun q => (p_Key q, p_Val q)) (f_Params f')).
  { destruct (decide (f_Params f = [])) as [E|E]; [by rewrite E, (proj1 He E)|]. specialize (Hj E).
    assert (E' : f_Params f' <> []) by (intros E'; by apply E, He). clear He Hn Ho Ho'. unfold target_plain in *.
    assert (Hno : forall ps, Forall param_bare ps -> Forall target_param ps -> Forall (fun q => ","%char ∉ la (Param_String true false q)) ps).
    { intros ps H1 H2. apply Forall_forall. intros q Hq. rewrite Forall_forall in H1, H2. by apply target_text_comma; auto. }
    apply joined_inj in Hj; [|by apply Hno..|done|done].
    clear E E'. revert Hj Hp' Ht'. generalize (f_Params f') as ps'. revert Hp Ht. generalize (f_Params f) as ps.
    induction ps as [|q ps IH]; intros Hp Ht [|q' ps'] Hj Hp' Ht'; try done. cbn in Hj. injection Hj as Hq Hj.
    apply Forall_cons in Hp as [? ?], Ht as [? ?], Hp' as [? ?], Ht' as [? ?]. cbn. rewrite (target_text_inj q q') by done. f_equal. by apply IH. }
  rewrite (foldM_outbound_pairs _ _ _ Hpairs), Ho' in Ho. by injection Ho.
Qed.

(** ** Deduplication and sorting *)

Definition pairs (ps : list Param) : list (string * string) := map (fun q => (p_Key q, p_Val q)) ps.

(** Functions that read the same parameters. *)
Definition same_function (f g : Function) : Prop :=
  f_Name f = f_Name g /\ f_Not f = f_Not g /\ forall kv, kv ∈ pairs (f_Params f) <-> kv ∈ pairs (f_Params g).

(** Parameters as the parsers accept them: a pattern key in a domain function, no key
    elsewhere. *)
Definition param_ok (name : string) (q : Param) : Prop :=
  param_bare q /\ (if String.eqb name Function_Domain then is_domain_key (p_Key q) = true else p_Key q = ""%string).
Definition settled_function (f : Function) : Prop := Forall (param_ok (f_Name f)) (f_Params f).
Definition settled (fs : list Function) : Prop := Forall settled_function fs.

Lemma domain_key_text key : is_domain_key key = true -> String.eqb key "" = false /\ ":"%char ∉ la key.
Proof.
  unfold is_domain_key. rewrite existsb_exists. intros (k & Hk & E%String.eqb_eq). subst k. apply list_elem_of_In in Hk.
  repeat (apply elem_of_cons in Hk as [->|Hk]; [split; [done|cbn; set_solver]|]). by apply elem_of_nil in Hk.
Qed.

Lemma param_ok_inj name q q' : param_ok name q -> param_ok name q' -> Param_String true false q = Param_String true false q' ->
  (p_Key q, p_Val q) = (p_Key q', p_Val q').
Proof.
  intros [Hb Hk] [Hb' Hk'] H. apply (f_equal la) in H. rewrite !la_bare in H by done. unfold key_text in H. destruct (String.eqb name Function_Domain).
  - apply domain_key_text in Hk as [E N], Hk' as [E' N']. rewrite E, E', <-!app_assoc in H. by apply split_unique in H as [->%la_inj ->%la_inj].
  - rewrite Hk, Hk' in *. cbn in H. by rewrite (la_inj _ _ H).
Qed.

Lemma deduplicate_pairs name ps : Forall (param_ok name) ps -> forall seen kv,
  kv ∈ pairs (deduplicate seen ps) <-> exists q, q ∈ ps /\ (p_Key q, p_Val q) = kv /\ Param_String true false q ∉ seen.
Proof.
  induction 1 as [|q ps Hq Hps IH]; intros seen kv; cbn [deduplicate]; [split; [by intros ?%elem_of_nil|by intros (q & ?%elem_of_nil & _)]|].
  assert (Hseen : existsb (String.eqb (Param_String true false q)) seen = true <-> Param_String true false q ∈ seen).
  { rewrite existsb_exists. setoid_rewrite <-list_elem_of_In. split; [by intros (x & Hx & ->%String.eqb_eq)|]. intros Hx. eexists. split; [done|]. apply String.eqb_refl. }
  destruct (existsb _ seen) eqn:E.
  - rewrite IH. split; intros (r & Hr & Hkv & Hn); exists r; (split; [|done]); [by right|]. apply elem_of_cons in Hr as [->|Hr]; [|done].
    by destruct Hn; apply Hseen.
  - cbn [pairs map]. rewrite elem_of_cons. fold (pairs (deduplicate (Param_String true false q :: seen) ps)). rewrite IH. split.
    + intros [->|(r & Hr & Hkv & Hn)].
      * exists q. split; [by left|]. split; [done|]. intros Hin%Hseen. done.
      * exists r. split; [by right|]. split; [done|]. set_solver.
    + intros (r & Hr & Hkv & Hn). apply elem_of_cons in Hr as [->|Hr]; [by left|].
      destruct (decide (Param_String true false r = Param_String true false q)) as [Es|Es].
      * left. rewrite <-Hkv. apply (param_ok_inj name); [|done|done]. rewrite Forall_forall in Hps. by apply Hps.
      * right. exists r. split; [done|]. split; [done|]. set_solver.
Qed.

Lemma elem_of_pairs ps kv : kv ∈ pairs ps <-> exists q, q ∈ ps /\ (p_Key q, p_Val q) = kv.
Proof. unfold pairs. rewrite list_elem_of_fmap. split; intros (q & H1 & H2); eauto. Qed.

Definition dedup_function (f : Function) : Function := with_f_Params f (deduplicateParams (f_Params f)).

Lemma dedup_same f : settled_function f -> same_function f (dedup_function f).
Proof.
  intros Hf. split; [done|]. split; [done|]. intros kv. cbn [dedup_function with_f_Params f_Params]. unfold deduplicateParams.
  rewrite (deduplicate_pairs _ _ Hf), elem_of_pairs. split; intros (q & Hq & H); exists q; (split; [done|]); [split; [done|]; set_solver|tauto].
Qed.

Lemma sort_same f : same_function f (sort_params f).
Proof.
  split; [done|]. split; [done|]. intros kv. cbn [sort_params with_f_Params f_Params]. unfold pairs. by rewrite SortStable_Permutation.
Qed.

Lemma sort_settled f : settled_function f -> settled_function (sort_params f).
Proof. unfold settled_function. cbn. by rewrite SortStable_Permutation. Qed.

Section Meaning.
Context (ifenv : string -> Z) (members : string -> list bytes) (dv : string -> list string -> predicateResult).
(** A known name: a group of patterns holds when one of them does. *)
Context (dv1 : string -> string -> bool) (dv_known : forall key vs, dv key vs = pbool (existsb (dv1 key) vs)).
Context (m : RoutingMatcher) (p : routingInput).

Local Abbreviation function_value := (function_value ifenv members dv p).
Local Abbreviation functions_value := (functions_value ifenv members dv p).
Local Abbreviation run_nodes := (run_nodes ifenv members dv m p).

(** ** Values of functions *)

Definition pair_holds (name : string) (kv : string * string) : bool :=
  if String.eqb name Function_Domain then dv1 kv.1 kv.2 else value_holds ifenv members p name kv.2.
Definition params_hold (name : string) (ps : list Param) : bool := existsb (pair_holds name) (pairs ps).

Lemma pmax_pbool a b : pmax (pbool a) (pbool b) = pbool (a || b).
Proof. by destruct a, b. Qed.
Lemma pmin_pbool a b : pmin (pbool a) (pbool b) = pbool (a && b).
Proof. by destruct a, b. Qed.

Definition group_holds (name : string) (g : string * list string) : bool := existsb (fun v => pair_holds name (g.1, v)) g.2.

Lemma groups_hold name gs : groups_value ifenv members dv p name gs = pbool (existsb (group_holds name) gs).
Proof.
  induction gs as [|[key vs] gs IH]; [done|].
  change (groups_value ifenv members dv p name ((key, vs) :: gs)) with
    (pmax (group_value ifenv members dv p name key vs) (groups_value ifenv members dv p name gs)). rewrite IH. cbn [existsb].
  assert (Hg : group_value ifenv members dv p name key vs = pbool (group_holds name (key, vs))).
  { unfold group_value, group_holds, pair_holds. cbn. destruct (String.eqb name Function_Domain); [apply dv_known|done]. }
  by rewrite Hg, pmax_pbool.
Qed.

Lemma add_value_hold name gs key v : existsb (group_holds name) (add_value gs key v) = existsb (group_holds name) gs || pair_holds name (key, v).
Proof.
  induction gs as [|[k vs] gs IH]; cbn [add_value existsb]; [unfold group_holds; cbn; by rewrite !orb_false_r|].
  destruct (String.eqb_spec k key) as [->|_]; cbn [existsb]; rewrite ?IH.
  - assert (Hg : group_holds name (key, vs ++ [v]) = group_holds name (key, vs) || pair_holds name (key, v)).
    { unfold group_holds. cbn [fst snd]. rewrite existsb_app. cbn. by rewrite orb_false_r. }
    rewrite Hg, <-!orb_assoc. f_equal. apply orb_comm.
  - by rewrite orb_assoc.
Qed.

Lemma grouped_hold name ps : groups_value ifenv members dv p name (groupParamValuesByKey ps) = pbool (params_hold name ps).
Proof.
  rewrite groups_hold. f_equal. unfold groupParamValuesByKey, params_hold.
  assert (Hgen : forall gs, existsb (group_holds name) (fold_left (fun gs q => add_value gs (p_Key q) (p_Val q)) ps gs) =
    existsb (group_holds name) gs || existsb (pair_holds name) (pairs ps)).
  { induction ps as [|q ps IH]; intros gs; cbn; [by rewrite orb_false_r|]. rewrite IH, add_value_hold. by rewrite <-orb_assoc. }
  by rewrite Hgen.
Qed.

Lemma function_holds f : function_value f = pbool (xorb (f_Not f) (params_hold (f_Name f) (f_Params f))).
Proof. unfold RoutingDenote.function_value. rewrite grouped_hold. destruct (f_Not f); [|by destruct (params_hold _ _)]. by destruct (params_hold _ _). Qed.

Definition functions_hold (fs : list Function) : bool := forallb (fun f => xorb (f_Not f) (params_hold (f_Name f) (f_Params f))) fs.

Lemma functions_held fs : functions_value fs = pbool (functions_hold fs).
Proof.
  induction fs as [|f fs IH]; [done|]. change (functions_value (f :: fs)) with (pmin (function_value f) (functions_value fs)).
  by rewrite IH, function_holds, pmin_pbool.
Qed.

Lemma guard_held fs : guard_value ifenv members dv m p (GFunctions fs) = pbool (functions_hold fs).
Proof. apply functions_held. Qed.

Lemma functions_hold_one f : f_Not f = false -> functions_hold [f] = params_hold (f_Name f) (f_Params f).
Proof. intros Hn. unfold functions_hold. cbn [forallb]. by rewrite Hn, andb_true_r, xorb_false_l. Qed.

Lemma params_hold_elems name ps ps' : (forall kv, kv ∈ pairs ps <-> kv ∈ pairs ps') -> params_hold name ps = params_hold name ps'.
Proof.
  intros H. unfold params_hold. apply eq_true_iff_eq. rewrite !existsb_exists. setoid_rewrite <-list_elem_of_In. by setoid_rewrite H.
Qed.

Lemma same_function_holds fs gs : Forall2 same_function fs gs -> functions_hold fs = functions_hold gs.
Proof.
  induction 1 as [|f g fs gs (Hn & Hnot & Hps) H IH]; [done|]. unfold functions_hold in *. cbn [forallb].
  by rewrite IH, Hn, Hnot, (params_hold_elems _ _ _ Hps).
Qed.

Lemma functions_hold_Permutation fs gs : fs ≡ₚ gs -> functions_hold fs = functions_hold gs.
Proof.
  intros H. unfold functions_hold. induction H as [|f fs gs H IH|f g fs|fs gs hs H1 IH1 H2 IH2]; cbn; [done|by rewrite IH| |by rewrite IH1].
  rewrite !andb_assoc. f_equal. apply andb_comm.
Qed.

(** ** Runs *)

Lemma run_nodes_app u ns ns' c : run_nodes u (ns ++ ns') c = match run_nodes u ns c with Stop r => Stop r | Continue c => run_nodes u ns' c end.
Proof. revert c. induction ns as [|n ns IH]; intros c; [done|]. cbn. destruct (run_node _ _ _ _ _ _ _ _); [done|apply IH]. Qed.

Definition same_run (ns ns' : list node) : Prop := (ns = [] <-> ns' = []) /\ forall u c, run_nodes u ns c = run_nodes u ns' c.

Lemma same_run_refl ns : same_run ns ns.
Proof. done. Qed.
Lemma same_run_trans a b c : same_run a b -> same_run b c -> same_run a c.
Proof. intros [H1 H2] [H3 H4]. split; [tauto|]. intros u x. by rewrite H2. Qed.

Lemma same_run_app a a' b b' : same_run a a' -> same_run b b' -> same_run (a ++ b) (a' ++ b').
Proof.
  intros [E1 H1] [E2 H2]. split; [rewrite !app_nil; tauto|]. intros u c. rewrite !run_nodes_app, H1. destruct (run_nodes u a' c); [done|apply H2].
Qed.

Lemma same_run_block g g' ns ns' : guard_value ifenv members dv m p g = guard_value ifenv members dv m p g' -> same_run ns ns' ->
  same_run [NBlock g ns] [NBlock g' ns'].
Proof.
  intros Hg [_ H]. split; [done|]. intros u c. cbn [RoutingNodes.run_nodes]. rewrite !run_node_block, Hg.
  destruct (guard_value _ _ _ _ _ g'); [done|by rewrite H..].
Qed.

Lemma same_run_rule g g' t : guard_value ifenv members dv m p g = guard_value ifenv members dv m p g' -> same_run [NRule g t] [NRule g' t].
Proof. intros Hg. split; [done|]. intros u c. cbn. by rewrite Hg. Qed.

(** An action taken twice. *)
Lemma act_twice t u c c' : act m p t u c = Continue c' -> act m p t u c' = Continue c'.
Proof.
  destruct c as [mu b cap]. unfold act, apply_action. cbn [r_must r_bump r_capture ruleUnknown must flowBump captureFlags predicates].
  destruct (Action t =? MatchActionMust)%Z; [intros [= <-]; cbn; by destruct u, mu|].
  destruct (Action t =? MatchActionBump)%Z; [by intros [= <-]|].
  destruct (Action t =? MatchActionCapture)%Z.
  { set (flags := Z.land _ 7). destruct (simulateKernel p && has_flag (Z.lor cap flags) _) eqn:E; [done|]. intros [= <-]. cbn [r_must r_bump r_capture captureFlags].
    by rewrite <-Z.lor_assoc, Z.lor_diag, E. }
  destruct (Action t =? MatchActionFlowEnd)%Z; [destruct (_ || _) eqn:E; [done|]; intros [= <-]; cbn [r_must r_bump r_capture]; by rewrite E|].
  destruct (Action t =? MatchActionMatch)%Z; [done|]. destruct (Action t =? MatchActionMiss)%Z; [done|].
  destruct (Action t =? MatchActionRoute)%Z; [|done]. destruct (has_flag (Flags t) matchFlagSkipNoalive && _) eqn:E; [|by destruct u].
  by intros [= <-].
Qed.

(** Two rules with one target are one rule that holds when one of them does. *)
Lemma same_run_merge g1 g2 g t : is_unknown (guard_value ifenv members dv m p g1) = false -> is_unknown (guard_value ifenv members dv m p g2) = false ->
  guard_value ifenv members dv m p g = pmax (guard_value ifenv members dv m p g1) (guard_value ifenv members dv m p g2) ->
  same_run [NRule g1 t; NRule g2 t] [NRule g t].
Proof.
  intros H1 H2 Hg. split; [done|]. intros u c. cbn [RoutingNodes.run_nodes run_node]. rewrite Hg.
  destruct (guard_value _ _ _ _ _ g1); try done; destruct (guard_value _ _ _ _ _ g2); try done; cbn; rewrite ?orb_false_r; try (by destruct (act m p t u c)).
  destruct (act m p t u c) as [r|c'] eqn:E; [done|]. by rewrite (act_twice _ _ _ _ E).
Qed.

(** ** Batches *)

(** How rules become nodes: the actions of the target under the functions of the rule. *)
Record rule_view (rule_nodes : RoutingRule -> option (list node)) := {
  rv_strict : bool;
  rv_tails : Function -> option (list bpfMatchSet);
  rv_nodes : forall r, rule_nodes r =
    if rv_strict && is_empty (r_AndFunctions r) then None
    else ts ← rv_tails (r_Outbound r); Some (map (NRule (GFunctions (r_AndFunctions r))) ts);
  rv_single : forall o ts, rv_tails o = Some ts -> length ts <= 1;
  rv_target : forall o o' ts ts', target_plain o -> target_plain o' -> Function_String true false true o = Function_String true false true o' ->
    rv_tails o = Some ts -> rv_tails o' = Some ts' -> ts = ts';
}.

Section View.
Context (rule_nodes : RoutingRule -> option (list node)) (V : rule_view rule_nodes).

Definition nodes_of (rs : list RoutingRule) : option (list node) := nss ← mapM rule_nodes rs; Some (concat nss).

Lemma nodes_of_cons r rs ns : nodes_of (r :: rs) = Some ns <-> exists n1 n2, rule_nodes r = Some n1 /\ nodes_of rs = Some n2 /\ ns = n1 ++ n2.
Proof.
  unfold nodes_of. cbn. destruct (rule_nodes r) as [n1|]; cbn; [|split; [done|by intros (? & ? & ? & _)]].
  destruct (mapM rule_nodes rs) as [nss|]; cbn; [|split; [done|by intros (? & ? & _ & ? & _)]].
  split; [intros [= <-]; by exists n1, (concat nss)|]. by intros (? & ? & [= <-] & [= <-] & ->).
Qed.

Lemma nodes_of_app rs rs' ns ns' : nodes_of rs = Some ns -> nodes_of rs' = Some ns' -> nodes_of (rs ++ rs') = Some (ns ++ ns').
Proof.
  revert ns. induction rs as [|r rs IH]; intros ns; [by intros [= <-]|]. intros (n1 & n2 & H1 & H2 & ->)%nodes_of_cons H'.
  cbn [app]. apply nodes_of_cons. exists n1, (n2 ++ ns'). split; [done|]. split; [by apply IH|]. by rewrite app_assoc.
Qed.

(** Rules with the same target and value. *)
Definition same_rule (r r' : RoutingRule) : Prop :=
  r_Outbound r = r_Outbound r' /\ (r_AndFunctions r = [] <-> r_AndFunctions r' = []) /\ functions_hold (r_AndFunctions r) = functions_hold (r_AndFunctions r').

Lemma same_rule_nodes r r' ns : same_rule r r' -> rule_nodes r = Some ns -> exists ns', rule_nodes r' = Some ns' /\ same_run ns ns'.
Proof.
  intros (Ho & He & Hh). rewrite !(rv_nodes _ V), Ho. assert (Hemp : is_empty (r_AndFunctions r) = is_empty (r_AndFunctions r')).
  { destruct (r_AndFunctions r), (r_AndFunctions r'); try done; [by destruct (proj1 He)|by destruct (proj2 He)]. }
  rewrite Hemp. destruct (_ && _); [done|]. destruct (rv_tails _ V (r_Outbound r')) as [ts|]; [|done]. cbn. intros [= <-]. eexists. split; [done|].
  induction ts as [|t ts IH]; [apply same_run_refl|]. cbn. apply (same_run_app [_] [_]); [|done]. apply same_run_rule. by rewrite !guard_held, Hh.
Qed.

Lemma same_rules_nodes rs rs' : Forall2 same_rule rs rs' -> forall ns, nodes_of rs = Some ns -> exists ns', nodes_of rs' = Some ns' /\ same_run ns ns'.
Proof.
  induction 1 as [|r r' rs rs' Hr H IH]; intros ns; [intros [= <-]; exists []; by split|]. intros (n1 & n2 & H1 & H2 & ->)%nodes_of_cons.
  destruct (same_rule_nodes _ _ _ Hr H1) as (n1' & H1' & S1), (IH _ H2) as (n2' & H2' & S2). exists (n1' ++ n2').
  split; [apply nodes_of_cons; by exists n1', n2'|by apply same_run_app].
Qed.

(** Merging. *)
Lemma merge_rule_nodes a b n1 n2 : target_plain (r_Outbound a) -> target_plain (r_Outbound b) -> mergeable a b = true ->
  rule_nodes a = Some n1 -> rule_nodes b = Some n2 -> exists ns, rule_nodes (merge_rule a b) = Some ns /\ same_run (n1 ++ n2) ns.
Proof.
  intros Hpa Hpb Hm. unfold mergeable, merge_rule, singleton in *.
  destruct (r_AndFunctions a) as [|f [|? ?]] eqn:Ea; try done. destruct (r_AndFunctions b) as [|g [|? ?]] eqn:Eb; try done.
  repeat rewrite !andb_true_iff in Hm. destruct Hm as ((((Hnot & _) & Hname) & Hnots) & Hstr). apply negb_true_iff in Hnot. apply String.eqb_eq in Hname, Hstr. apply eqb_prop in Hnots.
  rewrite !(rv_nodes _ V), Ea, Eb. cbn [is_empty r_AndFunctions r_Outbound]. rewrite andb_false_r.
  destruct (rv_tails _ V (r_Outbound a)) as [ts|] eqn:Ta; [|done]. destruct (rv_tails _ V (r_Outbound b)) as [ts'|] eqn:Tb; [|done]. cbn.
  assert (ts' = ts) as -> by by eapply (rv_target _ V (r_Outbound b) (r_Outbound a)). intros [= <-] [= <-]. eexists. split; [done|].
  pose proof (rv_single _ V _ _ Ta) as Hlen. destruct ts as [|t [|? ?]]; [apply same_run_refl| |cbn in Hlen; lia]. cbn.
  rewrite Hnot in Hnots. apply same_run_merge; rewrite !guard_held, !functions_hold_one by done; [by destruct (params_hold _ _)..|].
  rewrite pmax_pbool, <-Hname. f_equal. unfold params_hold, pairs. cbn [with_f_Params f_Params f_Name]. by rewrite map_app, existsb_app.
Qed.

Lemma merge_rules_nodes rs : forall a ns, target_plain (r_Outbound a) -> Forall (fun r => target_plain (r_Outbound r)) rs -> nodes_of (a :: rs) = Some ns ->
  exists ns', nodes_of (merge_rules a rs) = Some ns' /\ same_run ns ns'.
Proof.
  induction rs as [|b rs IH]; intros a ns Ha Hrs H; cbn [merge_rules]; [exists ns; by split|]. apply Forall_cons in Hrs as [Hb Hrs].
  apply nodes_of_cons in H as (n1 & n' & H1 & H' & ->). destruct (mergeable a b) eqn:Em.
  - apply nodes_of_cons in H' as (n2 & n3 & H2 & H3 & ->). destruct (merge_rule_nodes _ _ _ _ Ha Hb Em H1 H2) as (nm & Hnm & Hs).
    destruct (IH (merge_rule a b) (nm ++ n3)) as (ns' & Hns' & Hs'); [|done|apply nodes_of_cons; by exists nm, n3|].
    { unfold merge_rule. by repeat case_match. }
    exists ns'. split; [done|]. eapply same_run_trans, Hs'. rewrite app_assoc. by apply same_run_app.
  - destruct (IH b n' Hb Hrs H') as (ns' & Hns' & Hs'). exists (n1 ++ ns'). split; [apply nodes_of_cons; by exists n1, ns'|]. by apply same_run_app.
Qed.
End View.

(** ** The three readings of a rule *)

Section Views.
Context (outbounds : gmap string Z).

Definition route_tails (o : Function) : option (list bpfMatchSet) :=
  match ParseOutbound o with Ok t => id ← outbounds !! o_Name t; Some [route_tail t id] | _ => None end.

Definition route_view : rule_view (route_nodes outbounds).
Proof.
  refine {| rv_strict := false; rv_tails := route_tails |}.
  - intros r. cbn [andb]. unfold route_nodes, rule_node, route_tails. destruct (ParseOutbound _) as [o| |]; [|done..]. by destruct (outbounds !! o_Name o).
  - intros o ts. unfold route_tails. destruct (ParseOutbound o) as [t| |]; [|done..]. destruct (outbounds !! o_Name t); [|done]. intros [= <-]. cbn. lia.
  - intros o o' ts ts' Hp Hp' Hs. unfold route_tails. destruct (ParseOutbound o) as [t| |] eqn:E; [|done..]. destruct (ParseOutbound o') as [t'| |] eqn:E'; [|done..].
    rewrite (same_target _ _ _ _ Hp Hp' E E' Hs). destruct (outbounds !! o_Name t'); [|done]. by intros [= <-] [= <-].
Defined.
End Views.

(** The plan of a rule, whatever its filter. *)
Definition any_filter : list Function := [mkFunction "" false [] false].
Definition plan_of (o : Function) : res RulePlan := plan_rule (mkPlan [] []) (mkRule any_filter o []).

Lemma plan_rule_shape r : match plan_rule (mkPlan [] []) r with
  | Ok plan => r_AndFunctions r <> [] /\ exists plan', plan_of (r_Outbound r) = Ok plan' /\
      map dr_Filter (Destinations plan) = map (fun _ => r_AndFunctions r) (Destinations plan') /\
      map (fun c => (fr_Filter c, fr_Action c)) (Controls plan) = map (fun c => (r_AndFunctions r, fr_Action c)) (Controls plan') /\
      length (Destinations plan') <= 1 /\ length (Controls plan') <= 1
  | _ => r_AndFunctions r = [] \/ match plan_of (r_Outbound r) with Ok _ => False | _ => True end
  end.
Proof.
  unfold plan_of, plan_rule. cbn [r_AndFunctions r_Outbound any_filter is_empty]. destruct (r_AndFunctions r) as [|f fs] eqn:E; cbn [is_empty]; [by left|].
  set (a := r_Outbound r). destruct (_ || _); [by right|]. destruct (_ || _).
  - destruct (negb _); [by right|]. split; [done|]. eexists. split; [done|]. cbn. split_and!; [done|done|lia|lia].
  - destruct (String.eqb _ "dnat"); [|by right]. destruct (f_Params a) as [|q [|? ?]]; [by right| |by right]. destruct (_ || _); [by right|].
    destruct (dnat_target (p_Val q)) as [[ip port]|]; [|by right]. split; [done|]. eexists. split; [done|]. cbn. split_and!; [done|done|lia|lia].
Qed.

Definition capture_tails (o : Function) : option (list bpfMatchSet) :=
  match plan_of o with Ok plan => Some (map (fun _ => effect_tail MatchActionCapture captureDestination) (Destinations plan)) | _ => None end.
Definition control_tails (o : Function) : option (list bpfMatchSet) :=
  match plan_of o with Ok plan => Some (map (fun c => effect_tail (fr_Action c) 0) (Controls plan)) | _ => None end.

Lemma plan_target o o' plan plan' : Function_String true false true o = Function_String true false true o' -> plan_of o = Ok plan -> plan_of o' = Ok plan' ->
  length (Destinations plan) = length (Destinations plan') /\ map fr_Action (Controls plan) = map fr_Action (Controls plan').
Proof.
  intros Hs. apply target_inj in Hs as (Hn & _). unfold plan_of, plan_rule. cbn [r_AndFunctions r_Outbound any_filter is_empty]. rewrite Hn.
  destruct (f_Not o || _); [done|]. destruct (f_Not o' || _); [done|]. destruct (_ || _).
  - destruct (negb _); [done|]. destruct (negb _); [done|]. by intros [= <-] [= <-].
  - destruct (String.eqb _ "dnat"); [|done]. destruct (f_Params o) as [|q [|? ?]]; [done| |done]. destruct (f_Params o') as [|q' [|? ?]]; [done| |done].
    destruct (_ || _); [done|]. destruct (dnat_target (p_Val q)) as [[ip port]|]; [|done]. destruct (_ || _); [done|].
    destruct (dnat_target (p_Val q')) as [[ip' port']|]; [|done]. by intros [= <-] [= <-].
Qed.

Lemma map_const {A B} (x : B) (l : list A) : map (fun _ => x) l = replicate (length l) x.
Proof. induction l; cbn; congruence. Qed.

Definition capture_view : rule_view capture_nodes.
Proof.
  refine {| rv_strict := true; rv_tails := capture_tails |}.
  - intros r. pose proof (plan_rule_shape r) as H. unfold capture_nodes, capture_tails. cbn [andb]. destruct (plan_rule _ r) as [plan| |].
    + destruct H as (Hne & plan' & -> & Hd & _). destruct (r_AndFunctions r) as [|f fs]; [done|]. cbn. f_equal. rewrite map_map.
      rewrite <-(map_map dr_Filter (fun filter => effect_node MatchActionCapture captureDestination filter)), Hd. by rewrite map_map.
    + destruct H as [-> |H]; [done|]. destruct (plan_of _); [done|..]; by destruct (is_empty _).
    + destruct H as [-> |H]; [done|]. destruct (plan_of _); [done|..]; by destruct (is_empty _).
  - intros o ts. pose proof (plan_rule_shape (mkRule any_filter o [])) as H. unfold capture_tails. unfold plan_of in *. cbn [r_Outbound] in H.
    destruct (plan_rule _ _) as [plan| |]; [|done..]. destruct H as (_ & plan' & [= ->] & _ & _ & Hl & _). intros [= <-]. by rewrite length_map.
  - intros o o' ts ts' _ _ Hs. unfold capture_tails. destruct (plan_of o) as [plan| |] eqn:E; [|done..]. destruct (plan_of o') as [plan'| |] eqn:E'; [|done..].
    destruct (plan_target _ _ _ _ Hs E E') as [Hl _]. intros [= <-] [= <-]. by rewrite !map_const, Hl.
Defined.

Definition control_view : rule_view control_nodes.
Proof.
  refine {| rv_strict := true; rv_tails := control_tails |}.
  - intros r. pose proof (plan_rule_shape r) as H. unfold control_nodes, control_tails. cbn [andb]. destruct (plan_rule _ r) as [plan| |].
    + destruct H as (Hne & plan' & -> & _ & Hc & _). destruct (r_AndFunctions r) as [|f fs]; [done|]. cbn. f_equal. rewrite map_map.
      rewrite <-(map_map (fun c => (fr_Filter c, fr_Action c)) (fun e => effect_node e.2 0 e.1)), Hc. by rewrite map_map.
    + destruct H as [-> |H]; [done|]. destruct (plan_of _); [done|..]; by destruct (is_empty _).
    + destruct H as [-> |H]; [done|]. destruct (plan_of _); [done|..]; by destruct (is_empty _).
  - intros o ts. pose proof (plan_rule_shape (mkRule any_filter o [])) as H. unfold control_tails. unfold plan_of in *. cbn [r_Outbound] in H.
    destruct (plan_rule _ _) as [plan| |]; [|done..]. destruct H as (_ & plan' & [= ->] & _ & _ & _ & Hl). intros [= <-]. by rewrite length_map.
  - intros o o' ts ts' _ _ Hs. unfold control_tails. destruct (plan_of o) as [plan| |] eqn:E; [|done..]. destruct (plan_of o') as [plan'| |] eqn:E'; [|done..].
    destruct (plan_target _ _ _ _ Hs E E') as [_ Ha]. intros [= <-] [= <-]. rewrite <-!(map_map fr_Action (fun a => effect_tail a 0)). by rewrite Ha.
Defined.

(** ** Optimized batches *)

Definition settled_rule (r : RoutingRule) : Prop := settled (r_AndFunctions r) /\ target_plain (r_Outbound r).

Definition merged_sorted (rs : list RoutingRule) : list RoutingRule :=
  match map sort_functions rs with [] => rs | r :: rs => map (map_functions sort_params) (merge_rules r rs) end.
Definition optimized (flow : bool) (rs : list RoutingRule) : list RoutingRule :=
  map (map_functions dedup_function) (if flow then rs else merged_sorted rs).

Lemma map_functions_same g r : Forall (fun f => same_function f (g f)) (r_AndFunctions r) -> same_rule r (map_functions g r).
Proof.
  intros H. split; [done|]. cbn. split; [by destruct (r_AndFunctions r)|]. apply same_function_holds. induction H; [constructor|]. by constructor.
Qed.

Lemma sort_functions_same r : same_rule r (sort_functions r).
Proof.
  pose proof (SortStable_Permutation function_le (r_AndFunctions r)) as Hp. split; [done|]. cbn. split.
  - split; intros E; [by rewrite E|]. rewrite E in Hp. by apply Permutation_nil_l in Hp.
  - symmetry. by apply functions_hold_Permutation.
Qed.

Lemma sort_functions_settled r : settled_rule r -> settled_rule (sort_functions r).
Proof. unfold settled_rule, settled. cbn. by rewrite SortStable_Permutation. Qed.

Lemma merge_rule_settled a b : settled_rule a -> settled_rule b -> mergeable a b = true -> settled_rule (merge_rule a b).
Proof.
  unfold settled_rule, mergeable, merge_rule, singleton. intros [Ha Ta] [Hb Tb]. destruct (r_AndFunctions a) as [|f [|? ?]]; try done.
  destruct (r_AndFunctions b) as [|g [|? ?]]; try done. rewrite !andb_true_iff. intros ((((_ & _) & Hn) & _) & _). apply String.eqb_eq in Hn.
  cbn. split; [|done]. apply Forall_cons in Ha as [Ha _], Hb as [Hb _]. apply Forall_singleton. unfold settled_function in *. cbn. rewrite <-Hn in Hb. by apply Forall_app.
Qed.

Lemma merge_rules_settled rs : forall a, settled_rule a -> Forall settled_rule rs -> Forall settled_rule (merge_rules a rs).
Proof.
  induction rs as [|b rs IH]; intros a Ha Hrs; cbn; [by apply Forall_singleton|]. apply Forall_cons in Hrs as [Hb Hrs]. destruct (mergeable a b) eqn:E.
  - apply IH; [by apply merge_rule_settled|done].
  - apply Forall_cons. split; [done|by apply IH].
Qed.

Lemma Forall2_map_same (g : RoutingRule -> RoutingRule) (P : RoutingRule -> Prop) rs : (forall r, P r -> same_rule r (g r)) -> Forall P rs -> Forall2 same_rule rs (map g rs).
Proof. intros Hg. induction 1; constructor; auto. Qed.

Section Batches.
Context (rule_nodes : RoutingRule -> option (list node)) (V : rule_view rule_nodes).

Lemma merged_sorted_nodes rs ns : Forall settled_rule rs -> nodes_of rule_nodes rs = Some ns ->
  exists ns', nodes_of rule_nodes (merged_sorted rs) = Some ns' /\ same_run ns ns' /\ Forall settled_rule (merged_sorted rs).
Proof.
  intros Hs H. unfold merged_sorted.
  destruct (same_rules_nodes _ V rs (map sort_functions rs) (Forall2_map_same _ _ _ (fun r _ => sort_functions_same r) Hs) _ H) as (n1 & H1 & S1).
  assert (Hs1 : Forall settled_rule (map sort_functions rs)) by (apply Forall_map; eapply Forall_impl; [exact Hs|apply sort_functions_settled]).
  destruct (map sort_functions rs) as [|a rs'] eqn:E; [apply map_eq_nil in E as ->; by exists ns|].
  apply Forall_cons in Hs1 as [Ha Hs1].
  destruct (merge_rules_nodes _ V rs' a n1 (proj2 Ha)) as (n2 & H2 & S2); [eapply Forall_impl; [exact Hs1|]; by intros r []|done|].
  pose proof (merge_rules_settled rs' a Ha Hs1) as Hs2.
  destruct (same_rules_nodes _ V _ _ (Forall2_map_same (map_functions sort_params) (fun _ => True) _
    (fun r _ => map_functions_same _ r (Forall_true _ _ sort_same)) (Forall_true _ _ (fun _ => I))) _ H2) as (n3 & H3 & S3).
  exists n3. split; [done|]. split; [by eapply same_run_trans, same_run_trans|]. apply Forall_map. eapply Forall_impl; [exact Hs2|]. intros r [Hr Ht].
  split; [|done]. cbn. apply Forall_map. eapply Forall_impl; [exact Hr|apply sort_settled].
Qed.

Lemma optimized_nodes flow rs ns : Forall settled_rule rs -> nodes_of rule_nodes rs = Some ns ->
  exists ns', nodes_of rule_nodes (optimized flow rs) = Some ns' /\ same_run ns ns'.
Proof.
  intros Hs H. assert (Hd : forall rs ns, Forall settled_rule rs -> nodes_of rule_nodes rs = Some ns ->
    exists ns', nodes_of rule_nodes (map (map_functions dedup_function) rs) = Some ns' /\ same_run ns ns').
  { intros rs' ns1 Hs' H1. refine (same_rules_nodes _ V _ _ (Forall2_map_same _ _ _ _ Hs') _ H1). intros r [Hr _]. apply map_functions_same.
    eapply Forall_impl; [exact Hr|apply dedup_same]. }
  unfold optimized. destruct flow; [by apply Hd|]. destruct (merged_sorted_nodes _ _ Hs H) as (n1 & H1 & S1 & Hs1).
  destruct (Hd _ _ Hs1 H1) as (n2 & H2 & S2). exists n2. split; [done|]. by eapply same_run_trans.
Qed.
End Batches.

(** ** Preparation *)

Section Prepare.
Context (geosite : string -> string -> res (list geo_Domain)).
Context (geoip : string -> string -> res (list string)) (mmdb : string -> string -> string -> res (list string)).
Context (EqualFold : string -> string -> bool) (strings_ToLower : string -> string) (contextErr : option string).
Local Abbreviation read_function := (read_function geosite geoip mmdb EqualFold strings_ToLower contextErr).
Local Abbreviation read_rule := (read_rule geosite geoip mmdb EqualFold strings_ToLower contextErr).
Local Abbreviation prepare_rules := (prepare_rules geosite geoip mmdb EqualFold strings_ToLower contextErr).
Local Abbreviation prepare_condition := (prepare_condition geosite geoip mmdb EqualFold strings_ToLower contextErr).
Local Abbreviation prepare_statements := (prepare_statements geosite geoip mmdb EqualFold strings_ToLower contextErr).
Local Abbreviation prepare := (prepare geosite geoip mmdb EqualFold strings_ToLower contextErr).
Local Abbreviation prepareRoutingConfig := (prepareRoutingConfig geosite geoip mmdb EqualFold strings_ToLower contextErr).

(** The reference: aliases and data files resolved, everything else in place. *)
Definition resolve_rule (r : RoutingRule) : res RoutingRule := read_rule (map_functions alias_function r).
Definition resolve_condition (fs : list Function) : res (list Function) := mapR read_function (map alias_function fs).
Definition resolve_statement (st : RoutingStatement) : res RoutingStatement :=
  if bool_decide (st_Kind st = RoutingStatementRule) then
    match st_Rule st with Some r => r ← resolve_rule r; Ok (statement_rule r) | None => Panic end
  else condition ← resolve_condition (st_Condition st); Ok (mkStatement (st_Kind st) (st_Rule st) (st_Use st) condition).
Definition resolve_statements : list RoutingStatement -> res (list RoutingStatement) := mapR resolve_statement.
Definition resolve_set (set : RoutingRuleSet) : res RoutingRuleSet :=
  statements ← resolve_statements (rs_Statements set); Ok (mkRuleSet (rs_Name set) statements).
Definition resolve_policy (policy : RoutingPolicy) : res RoutingPolicy :=
  rules ← resolve_statements (po_Rules policy);
  statements ← resolve_statements (po_Statements policy);
  Ok (mkPolicy (po_Name policy) rules statements (po_Fallback policy)).
Definition resolveRoutingConfig (source : Routing) : res Routing :=
  sets ← mapR resolve_set (RuleSets source);
  policies ← mapR resolve_policy (Policies source);
  Ok (mkRouting (Default source) sets policies (Interfaces source)).

Definition settled_statement (st : RoutingStatement) : Prop :=
  settled (st_Condition st) /\ forall r, st_Rule st = Some r -> settled_rule r.
Definition settled_routing (routing : Routing) : Prop :=
  Forall (fun set => Forall settled_statement (rs_Statements set)) (RuleSets routing) /\
  Forall (fun policy => Forall settled_statement (po_Rules policy) /\ Forall settled_statement (po_Statements policy)) (Policies routing).

Lemma mapR_map {A B C} (f : B -> res C) (g : A -> B) l : mapR f (map g l) = mapR (fun x => f (g x)) l.
Proof. induction l as [|x l IH]; [done|]. cbn. destruct (f (g x)); [|done..]. cbn. by rewrite IH. Qed.

Lemma mapR_Forall2 {A B} (f : A -> res B) l l' : mapR f l = Ok l' -> Forall2 (fun x y => f x = Ok y) l l'.
Proof.
  revert l'. induction l as [|x l IH]; intros l'; cbn [mapR]; [by intros [= <-]|]. destruct (f x) as [y| |] eqn:E; [|done..]. cbn [mbind res_bind].
  destruct (mapR f l) as [ys| |]; [|done..]. intros [= <-]. constructor; [done|by apply IH].
Qed.

Lemma Forall2_mapR {A B} (f : A -> res B) l l' : Forall2 (fun x y => f x = Ok y) l l' -> mapR f l = Ok l'.
Proof. induction 1 as [|x y l l' H _ IH]; [done|]. cbn. rewrite H. cbn. by rewrite IH. Qed.

Lemma MergeAndSort_Ok rs : MergeAndSortRulesOptimizer_Optimize rs = Ok (merged_sorted rs).
Proof. unfold MergeAndSortRulesOptimizer_Optimize, merged_sorted. by destruct (map sort_functions rs). Qed.

Lemma prepare_rules_Ok flow rs out : prepare_rules flow rs = Ok out -> exists R, mapR resolve_rule rs = Ok R /\ out = optimized flow R.
Proof.
  unfold RoutingOptimizer.prepare_rules, AliasOptimizer_Optimize. cbn [app ApplyRulesOptimizers mbind res_bind]. unfold DatReaderOptimizer_Optimize. rewrite mapR_map.
  fold resolve_rule. change (mapR (fun x => read_rule (map_functions alias_function x)) rs) with (mapR resolve_rule rs).
  destruct (mapR resolve_rule rs) as [R| |]; [|done..]. intros H. exists R. split; [done|]. unfold optimized.
  destruct flow; cbn [app ApplyRulesOptimizers mbind res_bind] in H; [by injection H as <-|]. rewrite MergeAndSort_Ok in H. by injection H as <-.
Qed.

(** A condition is a batch of one rule. *)
Lemma prepare_condition_Ok fs out : prepare_condition fs = Ok out -> exists ref, resolve_condition fs = Ok ref /\ (ref = [] <-> fs = []) /\
  (settled ref -> (out = [] <-> ref = []) /\ functions_hold out = functions_hold ref).
Proof.
  unfold RoutingOptimizer.prepare_condition. destruct (is_empty fs) eqn:Ee; [destruct fs; [|done]; intros [= <-]; by exists []|].
  unfold AliasOptimizer_Optimize, DatReaderOptimizer_Optimize. cbn [ApplyRulesOptimizers mbind res_bind map mapR].
  unfold RoutingOptimizer.read_rule. cbn [map_functions with_AndFunctions r_AndFunctions]. fold (resolve_condition fs).
  destruct (resolve_condition fs) as [ref| |] eqn:E; [|done..]. cbn [mbind res_bind].
  rewrite MergeAndSort_Ok. cbn -[SortStable]. intros [= <-]. exists ref. split; [done|]. apply mapR_Forall2 in E. split.
  { split; [intros ->; by destruct fs; inversion E|]. by intros ->. }
  intros Hs. pose proof (SortStable_Permutation function_le ref) as Hp. split.
  - split; [intros H%map_eq_nil%map_eq_nil|by intros ->]. rewrite H in Hp. by apply Permutation_nil_l in Hp.
  - rewrite <-(functions_hold_Permutation _ _ Hp). symmetry. apply same_function_holds. rewrite map_map.
    assert (Hs' : settled (SortStable function_le ref)) by (unfold settled; by rewrite Hp). clear -Hs'. induction Hs' as [|g gs Hg Hgs IH]; cbn; [constructor|].
    constructor; [|done]. destruct (sort_same g) as (H1 & H2 & H3), (dedup_same _ (sort_settled _ Hg)) as (H4 & H5 & H6).
    split; [done|]. split; [done|]. intros kv. rewrite H3. apply H6.
Qed.

(** *** Statements *)

Section Expand.
Context (rule_nodes : RoutingRule -> option (list node)) (V : rule_view rule_nodes).
Context (ref_sets opt_sets : gmap string (list RoutingStatement)).
(** Each resolved rule set and the prepared one come from the same statements. *)
Context (sets_related : forall name body, ref_sets !! name = Some body -> Forall settled_statement body /\ exists src flow body',
  resolve_statements src = Ok body /\ prepare flow src = Ok body' /\ opt_sets !! name = Some body').

Lemma expands_rules rs ns stmts nodes : nodes_of rule_nodes rs = Some ns -> expands opt_sets rule_nodes stmts nodes ->
  expands opt_sets rule_nodes (map statement_rule rs ++ stmts) (ns ++ nodes).
Proof.
  revert ns. induction rs as [|r rs IH]; intros ns; [by intros [= <-]|]. intros (n1 & n2 & H1 & H2 & ->)%nodes_of_cons Hx. cbn [map app].
  rewrite <-app_assoc. eapply expands_rule; [done|done|exact H1|by apply IH].
Qed.

Lemma flush_expands flow batch R bn out stmts nodes : mapR resolve_rule batch = Ok R -> Forall settled_rule R -> nodes_of rule_nodes R = Some bn ->
  flush_batch geosite geoip mmdb EqualFold strings_ToLower contextErr flow batch = Ok out -> expands opt_sets rule_nodes stmts nodes ->
  exists bn', same_run bn bn' /\ expands opt_sets rule_nodes (out ++ stmts) (bn' ++ nodes).
Proof.
  intros HR Hs Hn. unfold flush_batch. destruct (is_empty batch) eqn:Ee.
  { destruct batch; [|done]. injection HR as <-. injection Hn as <-. intros [= <-] Hx. exists []. by split. }
  destruct (prepare_rules flow batch) as [rs| |] eqn:Ep; [|done..]. apply prepare_rules_Ok in Ep as (R' & HR' & ->). rewrite HR in HR'. injection HR' as <-.
  cbn [mbind res_bind]. intros [= <-] Hx. destruct (optimized_nodes _ V flow _ _ Hs Hn) as (bn' & Hbn & Hsr). exists bn'. split; [done|]. by apply expands_rules.
Qed.

Lemma same_run_use cond cond' ns ns' : (cond = [] <-> cond' = []) -> functions_hold cond = functions_hold cond' -> same_run ns ns' ->
  same_run (use_nodes cond ns) (use_nodes cond' ns').
Proof.
  intros He Hh Hs. destruct cond as [|f cond], cond' as [|f' cond'].
  - exact Hs.
  - by specialize (proj1 He eq_refl).
  - by specialize (proj2 He eq_refl).
  - pose proof (proj1 Hs) as Hn. destruct ns as [|n ns], ns' as [|n' ns']; [done|by specialize (proj1 Hn eq_refl)|by specialize (proj2 Hn eq_refl)|].
    cbn [use_nodes]. apply same_run_block; [|done]. by rewrite !guard_held, Hh.
Qed.

Lemma prepare_expands stmts nodes : expands ref_sets rule_nodes stmts nodes -> forall src flow batch R bn out,
  Forall settled_statement stmts -> resolve_statements src = Ok stmts -> mapR resolve_rule batch = Ok R -> Forall settled_rule R ->
  nodes_of rule_nodes R = Some bn -> prepare_statements flow batch src = Ok out ->
  exists nodes', expands opt_sets rule_nodes out nodes' /\ same_run (bn ++ nodes) nodes'.
Proof.
  induction 1 as [|st rule ns stmts nodes Hk Hr Hn _ IH|st body un stmts nodes Hk Hb _ IHb _ IH]; intros src flow batch R bn out Hset Hsrc HR HsR Hbn Hp.
  - apply mapR_Forall2 in Hsrc. inversion Hsrc; subst. cbn [RoutingOptimizer.prepare_statements] in Hp.
    destruct (flush_expands _ _ _ _ _ [] [] HR HsR Hbn Hp (expands_nil _ _)) as (bn' & Hs & Hx). rewrite !app_nil_r in *. by exists bn'.
  - apply mapR_Forall2 in Hsrc. inversion Hsrc as [|src0 ? srcs ? H1 H2]; subst. apply Forall_cons in Hset as [[_ Hset0] Hset].
    unfold resolve_statement in H1. cbn [RoutingOptimizer.prepare_statements] in Hp. case_bool_decide as Hkind.
    2: { destruct (resolve_condition _); [|done..]. injection H1 as <-. by cbn in Hk. }
    destruct (st_Rule src0) as [r0|]; [|done]. destruct (resolve_rule r0) as [r| |] eqn:Er; [|done..]. injection H1 as <-. cbn in Hr. injection Hr as ->.
    destruct (IH srcs flow (batch ++ [r0]) (R ++ [rule]) (bn ++ ns) out) as (nodes' & Hx & Hs); [done|by apply Forall2_mapR| | | |done|].
    + apply Forall2_mapR, Forall2_app; [by apply mapR_Forall2|]. by constructor.
    + apply Forall_app. split; [done|]. apply Forall_singleton. by apply Hset0.
    + apply nodes_of_app; [done|]. unfold nodes_of. cbn. rewrite Hn. cbn. by rewrite app_nil_r.
    + exists nodes'. split; [done|]. by rewrite <-app_assoc in Hs.
  - apply mapR_Forall2 in Hsrc. inversion Hsrc as [|src0 ? srcs ? H1 H2]; subst. apply Forall_cons in Hset as [[Hcond _] Hset].
    unfold resolve_statement in H1. cbn [RoutingOptimizer.prepare_statements] in Hp. case_bool_decide as Hkind.
    { destruct (st_Rule src0) as [r0|]; [|done]. destruct (resolve_rule r0); [|done..]. injection H1 as <-. by cbn in Hk. }
    destruct (flush_batch _ _ _ _ _ _ _ _) as [done_| |] eqn:Ef; [|done..]. cbn [mbind res_bind] in Hp.
    destruct (prepare_condition (st_Condition src0)) as [cond'| |] eqn:Ec; [|done..]. cbn [mbind res_bind] in Hp.
    destruct (prepare_statements flow [] srcs) as [rest| |] eqn:Es; [|done..]. cbn [mbind res_bind] in Hp. injection Hp as <-.
    apply prepare_condition_Ok in Ec as (cond & Ec & _ & Hc). rewrite Ec in H1. injection H1 as <-. cbn [st_Condition st_Use st_Kind] in *.
    destruct (Hc Hcond) as [Hce Hch]. destruct (sets_related _ _ Hb) as (Hsb & bsrc & bflow & body' & Hbsrc & Hbp & Hopt).
    destruct (IHb bsrc bflow [] [] [] body' Hsb Hbsrc eq_refl (Forall_nil_2 _) eq_refl Hbp) as (un' & Hxu & Hsu).
    destruct (IH srcs flow [] [] [] rest Hset (Forall2_mapR _ _ _ H2) eq_refl (Forall_nil_2 _) eq_refl Es) as (nodes' & Hx & Hs).
    destruct (flush_expands _ _ _ _ _ (mkStatement (st_Kind src0) (st_Rule src0) (st_Use src0) cond' :: rest) (use_nodes cond' un' ++ nodes') HR HsR Hbn Ef) as (bn' & Hsb' & Hxb).
    { eapply expands_use; [done|exact Hopt|done|done]. }
    eexists. split; [exact Hxb|]. apply same_run_app; [done|]. apply same_run_app; [|done]. apply same_run_use; [by symmetry|done|done].
Qed.
End Expand.

(** *** Configurations *)

Lemma flush_resolves flow batch out : flush_batch geosite geoip mmdb EqualFold strings_ToLower contextErr flow batch = Ok out ->
  exists R, mapR resolve_rule batch = Ok R.
Proof.
  unfold flush_batch. destruct (is_empty batch) eqn:E; [destruct batch; [|done]; by exists []|]. destruct (prepare_rules flow batch) as [rs| |] eqn:Ep; [|done..].
  intros _. apply prepare_rules_Ok in Ep as (R & HR & _). by exists R.
Qed.

Lemma prepare_resolves src : forall flow batch out, prepare_statements flow batch src = Ok out ->
  (exists R, mapR resolve_rule batch = Ok R) /\ exists ref, resolve_statements src = Ok ref.
Proof.
  induction src as [|st src IH]; intros flow batch out; cbn [RoutingOptimizer.prepare_statements].
  { intros Hf. split; [by eapply flush_resolves|by exists []]. }
  assert (Hcons : forall st' ref, resolve_statement st = Ok st' -> resolve_statements src = Ok ref -> exists ref, resolve_statements (st :: src) = Ok ref).
  { intros st' ref H1 H2. exists (st' :: ref). apply Forall2_mapR. constructor; [done|by apply mapR_Forall2]. }
  unfold resolve_statement in Hcons. case_bool_decide.
  - destruct (st_Rule st) as [r|]; [|done]. intros Hp. apply IH in Hp as [[R HR] [ref Href]].
    apply mapR_Forall2, Forall2_app_inv_l in HR as (R1 & R2 & HR1 & HR2 & _). split; [exists R1; by apply Forall2_mapR|].
    inversion HR2 as [|? r' ? ? Hr]; subst. rewrite Hr in Hcons. by eapply Hcons.
  - destruct (flush_batch _ _ _ _ _ _ _ _) as [d| |] eqn:Ef; [|done..]. cbn [mbind res_bind]. destruct (prepare_condition _) as [c| |] eqn:Ec; [|done..]. cbn [mbind res_bind].
    destruct (prepare_statements flow [] src) as [rest| |] eqn:Es; [|done..]. intros _. apply IH in Es as [_ [ref Href]]. apply prepare_condition_Ok in Ec as (cond & Ec & _).
    split; [by eapply flush_resolves|]. rewrite Ec in Hcons. by eapply Hcons.
Qed.

(** What a resolved block and a prepared block have in common. *)
Definition block_related (ref opt : list RoutingStatement) : Prop := exists src flow, resolve_statements src = Ok ref /\ prepare flow src = Ok opt.

Lemma set_map_related ref opt : Forall2 (fun s s' => rs_Name s = rs_Name s' /\ block_related (rs_Statements s) (rs_Statements s')) ref opt ->
  forall name body, set_map ref !! name = Some body -> exists body', set_map opt !! name = Some body' /\ block_related body body'.
Proof.
  intros H. unfold set_map.
  assert (Hgen : forall m1 m2 : gmap string (list RoutingStatement),
    (forall name body, m1 !! name = Some body -> exists body', m2 !! name = Some body' /\ block_related body body') -> forall name body,
    fold_left (fun m set => <[rs_Name set := rs_Statements set]> m) ref m1 !! name = Some body ->
    exists body', fold_left (fun m set => <[rs_Name set := rs_Statements set]> m) opt m2 !! name = Some body' /\ block_related body body').
  { induction H as [|s s' ref opt [Hn Hs] H IH]; intros m1 m2 Hm; [exact Hm|]. cbn. apply IH. intros name body. rewrite Hn.
    destruct (decide (rs_Name s' = name)) as [->|Hne]; [rewrite !lookup_insert_eq; intros [= <-]; eauto|]. rewrite !lookup_insert_ne by done. apply Hm. }
  apply Hgen. intros name body. by rewrite lookup_empty.
Qed.

Definition policy_related (ref opt : RoutingPolicy) : Prop :=
  po_Name ref = po_Name opt /\ po_Fallback ref = po_Fallback opt /\ block_related (po_Rules ref) (po_Rules opt) /\ block_related (po_Statements ref) (po_Statements opt).

Lemma find_policy_related a b name : Forall2 policy_related (Policies a) (Policies b) -> policy_related (find_policy a name) (find_policy b name).
Proof.
  intros H. unfold find_policy. assert (Hd : policy_related (mkPolicy "" [] [] None) (mkPolicy "" [] [] None)).
  { split; [done|]. split; [done|]. split; by exists [], true. }
  assert (Hf : Forall2 policy_related (List.filter (fun p => String.eqb (po_Name p) name) (Policies a)) (List.filter (fun p => String.eqb (po_Name p) name) (Policies b))).
  { induction H as [|x y xs ys Hxy H IH]; [constructor|]. cbn. rewrite (proj1 Hxy). destruct (String.eqb _ _); [by constructor|done]. }
  clear H. induction Hf as [|x y xs ys Hxy H IH]; [done|]. destruct H; [done|]. exact IH.
Qed.

Lemma prepared_related source routing : prepareRoutingConfig source = Ok routing -> exists reference, resolveRoutingConfig source = Ok reference /\
  Forall2 (fun s s' => rs_Name s = rs_Name s' /\ block_related (rs_Statements s) (rs_Statements s')) (RuleSets reference) (RuleSets routing) /\
  Forall2 policy_related (Policies reference) (Policies routing) /\ Default reference = Default routing /\ Interfaces reference = Interfaces routing.
Proof.
  unfold RoutingOptimizer.prepareRoutingConfig. destruct (Validate source); [|done..]. cbn [mbind res_bind]. destruct (RuleSetKinds source) as [kinds| |]; [|done..]. cbn [mbind res_bind].
  destruct (mapR _ (RuleSets source)) as [sets| |] eqn:Es; [|done..]. cbn [mbind res_bind]. destruct (mapR _ (Policies source)) as [policies| |] eqn:Ep; [|done..]. intros [= <-].
  apply mapR_Forall2 in Es, Ep.
  assert (Hsets : exists rsets, mapR resolve_set (RuleSets source) = Ok rsets /\ Forall2 (fun s s' => rs_Name s = rs_Name s' /\ block_related (rs_Statements s) (rs_Statements s')) rsets sets).
  { clear Ep. induction Es as [|x y xs ys Hx H IH]; [exists []; by split|]. destruct IH as (rsets & Hr & Hrel).
    destruct (prepare _ (rs_Statements x)) as [st| |] eqn:E; [|done..]. injection Hx as <-. destruct (prepare_resolves _ _ _ _ E) as [_ [ref Href]].
    exists (mkRuleSet (rs_Name x) ref :: rsets). split; [apply Forall2_mapR; constructor; [unfold resolve_set; by rewrite Href|by apply mapR_Forall2]|]. constructor; [|done]. split; [done|]. by exists (rs_Statements x), (bool_decide (kinds !! rs_Name x = Some RoutingRuleSetFlow)). }
  assert (Hpol : exists rpols, mapR resolve_policy (Policies source) = Ok rpols /\ Forall2 policy_related rpols policies).
  { clear Es Hsets. induction Ep as [|x y xs ys Hx H IH]; [exists []; by split|]. destruct IH as (rpols & Hr & Hrel).
    destruct (prepare true (po_Rules x)) as [r1| |] eqn:E1; [|done..]. cbn [mbind res_bind] in Hx. destruct (prepare false (po_Statements x)) as [r2| |] eqn:E2; [|done..]. injection Hx as <-.
    destruct (prepare_resolves _ _ _ _ E1) as [_ [ref1 Href1]], (prepare_resolves _ _ _ _ E2) as [_ [ref2 Href2]].
    exists (mkPolicy (po_Name x) ref1 ref2 (po_Fallback x) :: rpols).
    split; [apply Forall2_mapR; constructor; [unfold resolve_policy; rewrite Href1; cbn; by rewrite Href2|by apply mapR_Forall2]|].
    constructor; [|done]. split; [done|]. split; [done|]. split; [by exists (po_Rules x), true|by exists (po_Statements x), false]. }
  destruct Hsets as (rsets & Hrs & Hs), Hpol as (rpols & Hrp & Hp). eexists. unfold resolveRoutingConfig. rewrite Hrs. cbn. rewrite Hrp. cbn. by split_and!.
Qed.

Lemma set_map_Forall (P : list RoutingStatement -> Prop) sets : Forall (fun set => P (rs_Statements set)) sets ->
  forall name body, set_map sets !! name = Some body -> P body.
Proof.
  intros H. unfold set_map.
  assert (Hgen : forall m : gmap string (list RoutingStatement), (forall name body, m !! name = Some body -> P body) -> forall name body,
    fold_left (fun m set => <[rs_Name set := rs_Statements set]> m) sets m !! name = Some body -> P body).
  { induction H as [|s sets Hs H IH]; intros m0 Hm; [exact Hm|]. cbn. apply IH. intros name body. rewrite lookup_insert_Some. intros [[_ <-]|[_ ?]]; [done|by eapply Hm]. }
  apply Hgen. intros name body. by rewrite lookup_empty.
Qed.

Lemma find_policy_settled routing name : settled_routing routing ->
  Forall settled_statement (po_Rules (find_policy routing name)) /\ Forall settled_statement (po_Statements (find_policy routing name)).
Proof.
  intros [_ H]. unfold find_policy. destruct (last _) as [policy|] eqn:E; [|by split; constructor]. cbn.
  apply last_Some_elem_of, list_elem_of_In, filter_In in E as [Hin _]. rewrite Forall_forall in H. apply H. by apply list_elem_of_In.
Qed.

Lemma is_empty_same {A} (l l' : list A) : (l = [] <-> l' = []) -> is_empty l = is_empty l'.
Proof. destruct l, l'; intros H; try done; [by specialize (proj1 H eq_refl)|by specialize (proj2 H eq_refl)]. Qed.

Lemma prepared_nodes outbounds source routing reference rules name nodes :
  prepareRoutingConfig source = Ok routing -> resolveRoutingConfig source = Ok reference -> settled_routing reference ->
  policy_nodes outbounds (set_map (RuleSets reference)) rules (find_policy reference name) nodes ->
  exists nodes', policy_nodes outbounds (set_map (RuleSets routing)) rules (find_policy routing name) nodes' /\ same_run nodes nodes'.
Proof.
  intros Hprep Href Hset Hn. destruct (prepared_related _ _ Hprep) as (reference' & Href' & Hsets & Hpols & _). rewrite Href in Href'. injection Href' as <-.
  destruct (find_policy_related _ _ name Hpols) as (_ & Hfb & (src1 & fl1 & Hs1 & Hp1) & (src2 & fl2 & Hs2 & Hp2)).
  destruct (find_policy_settled _ name Hset) as [Hset1 Hset2].
  assert (Hrel : forall n body, set_map (RuleSets reference) !! n = Some body -> Forall settled_statement body /\ exists src flow body',
    resolve_statements src = Ok body /\ prepare flow src = Ok body' /\ set_map (RuleSets routing) !! n = Some body').
  { intros n body Hb. split; [exact (set_map_Forall (Forall settled_statement) _ (proj1 Hset) _ _ Hb)|].
    destruct (set_map_related _ _ Hsets _ _ Hb) as (body' & Hb' & src & flow & H1 & H2). by exists src, flow, body'. }
  destruct Hn as (by_ & early & late & caps & cons & body & fb & o & id & Hby & Hea & Hla & Hcap & Hcon & Hbody & Hf & Ho & Hid & ->).
  destruct (prepare_expands _ capture_view _ _ Hrel _ _ Hcap src1 fl1 [] [] [] _ Hset1 Hs1 eq_refl (Forall_nil_2 _) eq_refl Hp1) as (caps' & Hcap' & Scap).
  destruct (prepare_expands _ control_view _ _ Hrel _ _ Hcon src1 fl1 [] [] [] _ Hset1 Hs1 eq_refl (Forall_nil_2 _) eq_refl Hp1) as (cons' & Hcon' & Scon).
  destruct (prepare_expands _ (route_view outbounds) _ _ Hrel _ _ Hbody src2 fl2 [] [] [] _ Hset2 Hs2 eq_refl (Forall_nil_2 _) eq_refl Hp2) as (body' & Hbody' & Sbody).
  cbn [app] in Scap, Scon, Sbody. rewrite Hfb in Hf. eexists. split; [exists by_, early, late, caps', cons', body', fb, o, id; by split_and!|].
  assert (Hend : flowEnd_nodes (cons ++ capture_http_nodes rules) = flowEnd_nodes (cons' ++ capture_http_nodes rules)).
  { unfold flowEnd_nodes. assert (He : is_empty (cons ++ capture_http_nodes rules) = is_empty (cons' ++ capture_http_nodes rules)); [|by rewrite He].
    apply is_empty_same. rewrite !app_nil. destruct Scon as [Hc _]. tauto. }
  rewrite Hend. repeat (apply same_run_app; [first [apply same_run_refl|assumption]|]). apply same_run_refl.
Qed.
End Prepare.
End Meaning.
