(* ===== verification/DomainProjection.v ===== *)
(** * The kernel projection of DNS evidence (control/domain_projection.go)

    The domain map of the kernel holds, for some addresses, two bitmaps over the domain
    sets of the rules. The projection knows which entries it wants, which were written,
    and which requests are outstanding; writes may fail and are retried. The map is part
    of the state. Log throttling is left out. *)

From S2P Require Import Prelude GoSlices Netip RoutingInstr.

(** ** Times *)

(** [time.Time] and [time.Duration] in nanoseconds; 0 is the zero time. *)
Abbreviation Time := Z.
Definition IsZero (t : Time) : bool := (t =? 0)%Z.
Definition After (t u : Time) : bool := (u <? t)%Z.
Definition Before (t u : Time) : bool := (t <? u)%Z.
Definition time_Second : Z := 1000000000.

(** ** Data *)

Record domainBitmaps := mkBitmaps { b_bump : list Z; b_routing : list Z }.

#[export] Instance domainBitmaps_eq_dec : EqDecision domainBitmaps.
Proof. solve_decision. Defined.

Definition bitmaps_equal (b other : domainBitmaps) : bool :=
  bool_decide (b_bump b = b_bump other) && bool_decide (b_routing b = b_routing other).

Record domainMapEntry := mkEntry { e_ip : Addr; e_bitmaps : domainBitmaps }.

Record domainPublication := mkPublication { due : Time; p_force : bool }.
Definition no_publication : domainPublication := mkPublication 0 false.

Record domainProjection := mkProjection {
  k_max : nat;
  resident : gmap Addr domainBitmaps;
  desired : gmap Addr domainBitmaps;
  pending : gmap Addr domainPublication;
  k_err : option string;
  k_force : bool;
}.

Definition with_resident (k : domainProjection) (m : gmap Addr domainBitmaps) : domainProjection :=
  mkProjection (k_max k) m (desired k) (pending k) (k_err k) (k_force k).
Definition with_desired (k : domainProjection) (m : gmap Addr domainBitmaps) : domainProjection :=
  mkProjection (k_max k) (resident k) m (pending k) (k_err k) (k_force k).
Definition with_pending (k : domainProjection) (m : gmap Addr domainPublication) : domainProjection :=
  mkProjection (k_max k) (resident k) (desired k) m (k_err k) (k_force k).
Definition with_err (k : domainProjection) (e : option string) : domainProjection :=
  mkProjection (k_max k) (resident k) (desired k) (pending k) e (k_force k).
Definition with_force (k : domainProjection) (f : bool) : domainProjection :=
  mkProjection (k_max k) (resident k) (desired k) (pending k) (k_err k) f.

Definition domainBitmapWords : nat := MaxMatchSetLen / 32.

Definition domainBitmapAllZero (bitmap : list Z) : bool := forallb (fun word => word =? 0)%Z bitmap.

(** The entries of [domain_routing_map], by the 16 bytes of the address. *)
Definition domain_map : Type := gmap bytes domainBitmaps.

(** ** Requests *)

Definition set_desired (ip : Addr) (s : option domainBitmaps) (k : domainProjection) : domainProjection :=
  match s with
  | None => with_desired k (delete ip (desired k))
  | Some value =>
    match desired k !! ip with
    | Some old => if bitmaps_equal old value then k else with_desired k (<[ip := value]> (desired k))
    | None => with_desired k (<[ip := value]> (desired k))
    end
  end.

(** [want]: [s] is the summary of the address, if it is to be in the kernel. *)
Definition want (ip : Addr) (s : option domainBitmaps) (force : bool) (k : domainProjection) : domainProjection :=
  let request := default no_publication (pending k !! ip) in
  let force := force || k_force k || p_force request in
  let k := set_desired ip s k in
  let settled :=
    match desired k !! ip, resident k !! ip with
    | None, None => true
    | Some value, Some installed => negb force && bitmaps_equal value installed
    | _, _ => false
    end in
  if settled then with_pending k (delete ip (pending k))
  else with_pending k (<[ip := mkPublication (due request) (p_force request || force)]> (pending k)).

Section Kernel.
(** Failures of the map operations; a batch reports how many entries were applied. *)
Context (update_error : domain_map -> bytes -> domainBitmaps -> option string).
Context (delete_error : domain_map -> bytes -> option string).
Context (batch_result : domain_map -> list (bytes * domainBitmaps) -> nat * option string).
Context (order : map_order).

Definition value_fits (v : domainBitmaps) : bool :=
  (length (b_bump v) =? domainBitmapWords) && (length (b_routing v) =? domainBitmapWords).

(** ** Map operations (control/control_plane_core.go) *)

Definition writeDomainBitmaps (ip : Addr) (v : domainBitmaps) (m : domain_map) : res domain_map :=
  if negb (value_fits v) then Panic
  else
    let key := As16 ip in
    match update_error m key v with
    | Some e => Err e
    | None => Ok (<[key := v]> m)
    end.

Definition insert_entries (entries : list (bytes * domainBitmaps)) (m : domain_map) : domain_map :=
  fold_left (fun m e => <[e.1 := e.2]> m) entries m.

(** The map afterwards, and whether every entry was applied. *)
Definition writeDomainBitmapBatch (entries : list domainMapEntry) (m : domain_map) : res (domain_map * bool) :=
  if negb (forallb (fun e => value_fits (e_bitmaps e)) entries) then Panic
  else
    let kvs := map (fun e => (As16 (e_ip e), e_bitmaps e)) entries in
    let '(n, err) := batch_result m kvs in
    Ok (insert_entries (take n kvs) m, match err with Some _ => false | None => n =? List.length entries end).

(** A missing key is not an error. *)
Definition deleteDomainBitmaps (ip : Addr) (m : domain_map) : res domain_map :=
  let key := As16 ip in
  match delete_error m key with
  | Some e => Err e
  | None => Ok (delete key m)
  end.

(** ** Publication *)

Definition publish_one (now : Time) (removing : bool) (st : domainProjection * domain_map) (e : Addr * domainPublication)
    : res (domainProjection * domain_map) :=
  let '(k, m) := st in
  let '(ip, request) := e in
  let wanted := match desired k !! ip with Some _ => true | None => false end in
  if Bool.eqb removing wanted || Before now (due request) then Ok (k, m)
  else if wanted && match resident k !! ip with None => true | Some _ => false end && (k_max k <=? size (resident k))
  then Ok (k, m)
  else
    let written := match desired k !! ip with
                   | Some value => writeDomainBitmaps ip value m
                   | None => deleteDomainBitmaps ip m
                   end in
    match written with
    | Panic => Panic
    | Err cause =>
      Ok (with_pending (with_err k (Some cause)) (<[ip := mkPublication (now + time_Second) (p_force request)]> (pending k)), m)
    | Ok m =>
      let k := with_resident k (match desired k !! ip with Some value => <[ip := value]> (resident k) | None => delete ip (resident k) end) in
      Ok (with_pending k (delete ip (pending k)), m)
    end.

Definition batchSize : nat := 256.

(** [flush] of [publishBatch]. *)
Definition flush_entries (batch : list domainMapEntry) (st : domainProjection * domain_map) : res (bool * (domainProjection * domain_map)) :=
  let '(k, m) := st in
  match writeDomainBitmapBatch batch m with
  | Ok (m, applied) =>
    if applied then
      Ok (true, (fold_left (fun k e => with_pending (with_resident k (<[e_ip e := e_bitmaps e]> (resident k))) (delete (e_ip e) (pending k))) batch k, m))
    else Ok (false, (k, m))
  | Err e => Err e
  | Panic => Panic
  end.

Fixpoint batch_loop (now : Time) (requests : list (Addr * domainPublication)) (batch : list domainMapEntry) (remaining : nat)
    (st : domainProjection * domain_map) : res (domainProjection * domain_map) :=
  match requests with
  | [] => if is_empty batch then Ok st else snd <$> flush_entries batch st
  | (ip, request) :: requests =>
    match desired st.1 !! ip with
    | None => batch_loop now requests batch remaining st
    | Some value =>
      let fresh := match resident st.1 !! ip with None => true | Some _ => false end in
      if Before now (due request) || (fresh && (remaining =? 0)) then batch_loop now requests batch remaining st
      else
        let remaining := if fresh then remaining - 1 else remaining in
        let batch := batch ++ [mkEntry ip value] in
        if List.length batch =? batchSize then
          match flush_entries batch st with
          | Ok (true, st) => batch_loop now requests [] remaining st
          | Ok (false, st) => Ok st
          | Err e => Err e
          | Panic => Panic
          end
        else batch_loop now requests batch remaining st
    end
  end.

Definition publishBatch (now : Time) (st : domainProjection * domain_map) : res (domainProjection * domain_map) :=
  batch_loop now (range order (pending st.1)) [] (k_max st.1 - size (resident st.1)) st.

Definition publish (now : Time) (st : domainProjection * domain_map) : res (domainProjection * domain_map) :=
  st ← foldM (publish_one now true) st (range order (pending st.1));
  st ← (if k_force st.1 && (1 <? size (pending st.1)) then publishBatch now st else Ok st);
  st ← foldM (publish_one now false) st (range order (pending st.1));
  Ok (if size (pending st.1) =? 0 then with_err st.1 None else st.1, st.2).
End Kernel.
