(* ===== verification/DomainProjectionCorrect.v ===== *)
(** * The kernel map follows the projection

    Whatever writes fail, an address without an outstanding request has in the kernel
    exactly the entry that is wanted for it; the map never exceeds its capacity and the
    requests never exceed twice of it. When writes succeed, one publication settles
    every request that is due. *)

From S2P Require Import Prelude GoSlices Netip RoutingInstr DomainProjection.

(** Addresses of the registry: their map keys differ. *)
Definition canonical (ip : Addr) : Prop := IsValid ip = true /\ Addr_wf ip /\ Unmap ip = ip.

Lemma As16_canonical a b : canonical a -> canonical b -> As16 a = As16 b -> a = b.
Proof.
  assert (Hm : forall x y, length x = 4 -> canonical (AddrV6 y) -> v4_mapped ++ x <> y).
  { intros x y Hx (_ & _ & Hu) <-. cbn [Unmap] in Hu. unfold Is4In6 in Hu. rewrite bool_decide_eq_true_2 in Hu; [done|].
    by rewrite take_app_length' by done. }
  intros Ha Hb. destruct a as [|a|a], b as [|b|b]; cbn [As16]; try (by destruct Ha as [? _]); try (by destruct Hb as [? _]).
  - intros H%app_inv_head. by subst.
  - intros H. exfalso. destruct Ha as (_ & [Hl _] & _). by eapply (Hm a b).
  - intros H. exfalso. destruct Hb as (_ & [Hl _] & _). by eapply (Hm b a).
  - by intros ->.
Qed.

Lemma bitmaps_equal_spec a b : bitmaps_equal a b = true <-> a = b.
Proof.
  unfold bitmaps_equal. rewrite andb_true_iff, !bool_decide_eq_true. destruct a, b; cbn. split; [by intros [-> ->]|by intros [= -> ->]].
Qed.

(** In a strict state the map is exactly what was written; after a failed batch it may
    be ahead for the outstanding requests. *)
Record proj_inv (strict : bool) (k : domainProjection) (m : domain_map) : Prop := {
  pi_settled : forall ip, pending k !! ip = None -> resident k !! ip = desired k !! ip;
  pi_size : size (resident k) <= k_max k;
  pi_pending : forall ip, is_Some (pending k !! ip) -> is_Some (desired k !! ip) \/ is_Some (resident k !! ip);
  pi_keys : forall ip, is_Some (desired k !! ip) \/ is_Some (resident k !! ip) -> canonical ip;
  pi_values : forall ip v, desired k !! ip = Some v -> value_fits v = true;
  pi_mirror : forall ip, canonical ip -> strict = true \/ pending k !! ip = None -> m !! As16 ip = resident k !! ip;
}.

Lemma proj_inv_weaken k m : proj_inv true k m -> proj_inv false k m.
Proof. intros [H1 H2 H3 H4 H5 H6]. split; try done. intros ip Hc _. apply H6; auto. Qed.

Lemma proj_inv_strict k m : pending k = ∅ -> proj_inv false k m -> proj_inv true k m.
Proof. intros Hp [H1 H2 H3 H4 H5 H6]. split; try done. intros ip Hc _. apply H6; [done|]. right. by rewrite Hp. Qed.

Lemma proj_inv_err strict k m e : proj_inv strict k m -> proj_inv strict (with_err k e) m.
Proof. intros [H1 H2 H3 H4 H5 H6]. by split. Qed.

Lemma proj_inv_force strict k m f : proj_inv strict k m -> proj_inv strict (with_force k f) m.
Proof. intros [H1 H2 H3 H4 H5 H6]. by split. Qed.

(** At most twice the capacity is outstanding. *)
Lemma pending_bound strict k m : proj_inv strict k m -> size (desired k) <= k_max k -> size (pending k) <= 2 * k_max k.
Proof.
  intros H Hd. rewrite <-(size_dom (pending k)). trans (size (dom (desired k) ∪ dom (resident k))).
  - apply subseteq_size. intros ip. rewrite elem_of_union, !elem_of_dom. apply (pi_pending _ _ _ H).
  - pose proof (pi_size _ _ _ H) as Hs. rewrite size_union_alt, size_dom.
    assert (Hr : size (dom (resident k) ∖ dom (desired k)) <= size (resident k)) by (rewrite <-(size_dom (resident k)); apply subseteq_size; set_solver).
    lia.
Qed.

(** ** Requests *)

Section Want.
Context (ip : Addr) (s : option domainBitmaps) (force : bool) (k : domainProjection).

Lemma set_desired_eq : set_desired ip s k = with_desired k (partial_alter (fun _ => s) ip (desired k)).
Proof.
  unfold set_desired. destruct s as [v|]; [|done]. destruct (desired k !! ip) as [old|] eqn:E; [|done]. destruct (bitmaps_equal old v) eqn:Eq; [|done].
  apply bitmaps_equal_spec in Eq as ->. change (k = with_desired k (<[ip := v]> (desired k))). rewrite insert_id by done. by destruct k.
Qed.

Lemma want_desired : desired (want ip s force k) = partial_alter (fun _ => s) ip (desired k).
Proof. unfold want. rewrite set_desired_eq. by destruct (match _ with None => _ | Some _ => _ end). Qed.
Lemma want_resident : resident (want ip s force k) = resident k.
Proof. unfold want. rewrite set_desired_eq. by destruct (match _ with None => _ | Some _ => _ end). Qed.
Lemma want_max : k_max (want ip s force k) = k_max k.
Proof. unfold want. rewrite set_desired_eq. by destruct (match _ with None => _ | Some _ => _ end). Qed.
Lemma want_force : k_force (want ip s force k) = k_force k.
Proof. unfold want. rewrite set_desired_eq. by destruct (match _ with None => _ | Some _ => _ end). Qed.

Lemma want_pending ip' : ip' <> ip -> pending (want ip s force k) !! ip' = pending k !! ip'.
Proof.
  intros Hne. unfold want. rewrite set_desired_eq. destruct (match _ with None => _ | Some _ => _ end); cbn; rewrite ?lookup_delete_ne, ?lookup_insert_ne; done.
Qed.

(** The request of the address is dropped only when the kernel already agrees. *)
Lemma want_settled : pending (want ip s force k) !! ip = None -> resident k !! ip = s.
Proof.
  unfold want. rewrite set_desired_eq. cbn [desired with_desired resident]. rewrite lookup_partial_alter_eq.
  destruct s as [v|], (resident k !! ip) as [v'|]; cbn; rewrite ?lookup_insert_eq; try done.
  destruct (_ && bitmaps_equal v v') eqn:Eq; cbn; rewrite ?lookup_insert_eq; try done.
  apply andb_prop in Eq as [_ Eq%bitmaps_equal_spec]. by subst.
Qed.

Lemma want_requested : is_Some (pending (want ip s force k) !! ip) -> is_Some s \/ is_Some (resident k !! ip).
Proof.
  unfold want. rewrite set_desired_eq. cbn [desired with_desired resident]. rewrite lookup_partial_alter_eq.
  destruct s as [v|], (resident k !! ip) as [v'|]; cbn; eauto. rewrite lookup_delete_eq. by intros [? ?].
Qed.

Lemma want_inv m : proj_inv true k m -> canonical ip -> (forall v, s = Some v -> value_fits v = true) ->
  proj_inv true (want ip s force k) m.
Proof.
  intros H Hc Hv. split.
  - intros ip'. rewrite want_desired, want_resident. destruct (decide (ip' = ip)) as [->|E].
    + intros Hp. rewrite lookup_partial_alter_eq. by apply want_settled.
    + rewrite want_pending, lookup_partial_alter_ne by done. apply (pi_settled _ _ _ H).
  - rewrite want_resident, want_max. apply (pi_size _ _ _ H).
  - intros ip'. rewrite want_desired, want_resident. destruct (decide (ip' = ip)) as [->|E].
    + rewrite lookup_partial_alter_eq. apply want_requested.
    + rewrite want_pending, lookup_partial_alter_ne by done. apply (pi_pending _ _ _ H).
  - intros ip'. rewrite want_desired, want_resident. destruct (decide (ip' = ip)) as [->|E]; [done|].
    rewrite lookup_partial_alter_ne by done. apply (pi_keys _ _ _ H).
  - intros ip' v. rewrite want_desired. destruct (decide (ip' = ip)) as [->|E]; [rewrite lookup_partial_alter_eq; apply Hv|].
    rewrite lookup_partial_alter_ne by done. apply (pi_values _ _ _ H).
  - intros ip' Hc' _. rewrite want_resident. by apply (pi_mirror _ _ _ H); auto.
Qed.
End Want.

(** ** Publication *)

Definition same_plan (k k' : domainProjection) : Prop := desired k' = desired k /\ k_max k' = k_max k /\ k_force k' = k_force k.

Lemma same_plan_trans k1 k2 k3 : same_plan k1 k2 -> same_plan k2 k3 -> same_plan k1 k3.
Proof. intros (? & ? & ?) (? & ? & ?). split_and!; congruence. Qed.

(** Requests that are left keep their terms. *)
Definition fewer (k k' : domainProjection) : Prop := forall ip, pending k' !! ip = None \/ pending k' !! ip = pending k !! ip.

Lemma proj_requested strict k m ip : proj_inv strict k m -> is_Some (pending k !! ip) -> canonical ip.
Proof. intros H Hp. by apply (pi_keys _ _ _ H), (pi_pending _ _ _ H). Qed.

(** The value of one address has reached the kernel. *)
Lemma proj_installed strict k m m' ip : proj_inv strict k m -> is_Some (pending k !! ip) ->
  (desired k !! ip = None \/ is_Some (resident k !! ip) \/ size (resident k) < k_max k) ->
  m' !! As16 ip = desired k !! ip -> (forall key, key <> As16 ip -> m' !! key = m !! key) ->
  proj_inv strict (with_pending (with_resident k (partial_alter (fun _ => desired k !! ip) ip (resident k))) (delete ip (pending k))) m'.
Proof.
  intros H Hp Hroom Hm Hrest. pose proof (proj_requested _ _ _ _ H Hp) as Hc. split; cbn.
  - intros ip'. destruct (decide (ip' = ip)) as [->|E]; [by rewrite lookup_partial_alter_eq|].
    rewrite lookup_delete_ne, lookup_partial_alter_ne by done. apply (pi_settled _ _ _ H).
  - pose proof (pi_size _ _ _ H). destruct (desired k !! ip) as [v|] eqn:Ed.
    + change (size (<[ip := v]> (resident k)) <= k_max k). rewrite map_size_insert. destruct (resident k !! ip) eqn:Er; [done|].
      destruct Hroom as [?|[[? ?]|?]]; [done..|lia].
    + change (size (delete ip (resident k)) <= k_max k). rewrite map_size_delete. destruct (resident k !! ip); cbn; lia.
  - intros ip'. destruct (decide (ip' = ip)) as [->|E]; [rewrite lookup_delete_eq; by intros [? ?]|].
    rewrite lookup_delete_ne, lookup_partial_alter_ne by done. apply (pi_pending _ _ _ H).
  - intros ip'. destruct (decide (ip' = ip)) as [->|E]; [done|]. rewrite lookup_partial_alter_ne by done. apply (pi_keys _ _ _ H).
  - apply (pi_values _ _ _ H).
  - intros ip' Hc'. destruct (decide (ip' = ip)) as [->|E]; [by rewrite lookup_partial_alter_eq|].
    rewrite lookup_delete_ne, lookup_partial_alter_ne by done. rewrite Hrest; [by apply (pi_mirror _ _ _ H)|]. intros Heq. by apply E, As16_canonical.
Qed.

Section Publish.
Context (update_error : domain_map -> bytes -> domainBitmaps -> option string).
Context (delete_error : domain_map -> bytes -> option string).
Context (batch_result : domain_map -> list (bytes * domainBitmaps) -> nat * option string).
Context (order : map_order).
Local Abbreviation publish_one := (publish_one update_error delete_error).
Local Abbreviation publish := (publish update_error delete_error batch_result order).

(** A request stays with a later due time, or is settled. *)
Lemma publish_one_ok strict now removing k m ip request : proj_inv strict k m -> pending k !! ip = Some request ->
  exists k' m', publish_one now removing (k, m) (ip, request) = Ok (k', m') /\ proj_inv strict k' m' /\ same_plan k k' /\
    (forall ip', ip' <> ip -> pending k' !! ip' = pending k !! ip' /\ resident k' !! ip' = resident k !! ip').
Proof.
  intros H Hp. assert (Hs : is_Some (pending k !! ip)) by by eexists. unfold DomainProjection.publish_one.
  destruct (Bool.eqb removing _ || _); [by exists k, m|].
  destruct (match desired k !! ip with Some _ => true | None => false end && _ && _) eqn:Eroom; [by exists k, m|].
  assert (Hroom : desired k !! ip = None \/ is_Some (resident k !! ip) \/ size (resident k) < k_max k).
  { destruct (desired k !! ip); [|by left]. right. destruct (resident k !! ip) as [v|]; [left; by eexists|]. right. by apply Nat.leb_gt in Eroom. }
  assert (Hfail : forall e, proj_inv strict (with_pending (with_err k (Some e)) (<[ip := mkPublication (now + time_Second) (p_force request)]> (pending k))) m).
  { intros e. destruct H as [H1 H2 H3 H4 H5 H6]. split; cbn; try done.
    - intros ip'. rewrite lookup_insert_None. intros [? _]. by apply H1.
    - intros ip'. destruct (decide (ip' = ip)) as [->|E]; [intros _; by apply H3|]. rewrite lookup_insert_ne by done. apply H3.
    - intros ip' Hc [Hst|Hn]; apply H6; auto. right. by apply lookup_insert_None in Hn as [? _]. }
  assert (Hdone : forall m', m' !! As16 ip = desired k !! ip -> (forall key, key <> As16 ip -> m' !! key = m !! key) ->
    let k' := with_pending (with_resident k (partial_alter (fun _ => desired k !! ip) ip (resident k))) (delete ip (pending k)) in
    proj_inv strict k' m' /\ same_plan k k' /\
    (forall ip', ip' <> ip -> pending k' !! ip' = pending k !! ip' /\ resident k' !! ip' = resident k !! ip')).
  { intros m' H1 H2 k'. split; [by apply (proj_installed strict k m)|]. split; [done|]. intros ip' E. cbn. by rewrite lookup_delete_ne, lookup_partial_alter_ne. }
  destruct (desired k !! ip) as [v|] eqn:Ed.
  - unfold writeDomainBitmaps. rewrite (pi_values _ _ _ H _ _ Ed). cbn [negb]. destruct (update_error m (As16 ip) v) as [e|].
    + do 2 eexists. split; [reflexivity|]. split; [apply Hfail|]. split; [done|]. intros ip' E. cbn. by rewrite lookup_insert_ne.
    + do 2 eexists. split; [reflexivity|]. apply Hdone; [apply lookup_insert_eq|]. intros key E. by apply lookup_insert_ne.
  - unfold deleteDomainBitmaps. destruct (delete_error m (As16 ip)) as [e|].
    + do 2 eexists. split; [reflexivity|]. split; [apply Hfail|]. split; [done|]. intros ip' E. cbn. by rewrite lookup_insert_ne.
    + do 2 eexists. split; [reflexivity|]. apply Hdone; [apply lookup_delete_eq|]. intros key E. by apply lookup_delete_ne.
Qed.

(** The entries of one pass. *)
Definition listed (k : domainProjection) (l : list (Addr * domainPublication)) : Prop :=
  NoDup (l.*1) /\ Forall (fun e => pending k !! e.1 = Some e.2) l.

Lemma listed_range k : listed k (range order (pending k)).
Proof. split; [apply NoDup_range|]. apply Forall_forall. intros [ip r] H. by apply elem_of_range in H. Qed.

Lemma listed_cons k e l : listed k (e :: l) -> pending k !! e.1 = Some e.2 /\ (e.1 ∉ l.*1) /\ listed k l.
Proof. intros [Hn Hl]. apply NoDup_cons in Hn as [H1 H2]. apply Forall_cons in Hl as [H3 H4]. by split_and!. Qed.

Lemma listed_step k k' e l : e ∉ l.*1 -> listed k l -> (forall ip, ip <> e -> pending k' !! ip = pending k !! ip) -> listed k' l.
Proof.
  intros He [Hn Hl] Hsame. split; [done|]. apply Forall_forall. intros [ip r] Hin. rewrite Forall_forall in Hl. specialize (Hl _ Hin). cbn in *. rewrite <-Hl. apply Hsame.
  intros ->. apply He, list_elem_of_fmap. by exists (e, r).
Qed.

Lemma publish_pass strict now removing k m l : proj_inv strict k m -> listed k l ->
  exists k' m', foldM (publish_one now removing) (k, m) l = Ok (k', m') /\ proj_inv strict k' m' /\ same_plan k k'.
Proof.
  intros H Hl. destruct (foldM_run (publish_one now removing) (fun rest st => proj_inv strict st.1 st.2 /\ listed st.1 rest /\ same_plan k st.1) l (k, m))
    as ([k' m'] & E & H1 & _ & H3); [by split_and!| |by exists k', m'].
  intros [ip r] rest [k1 m1] (H1 & H2 & H3). cbn [fst snd] in *. apply listed_cons in H2 as (Hp & Hn & Hrest). cbn [fst snd] in *.
  destruct (publish_one_ok strict now removing k1 m1 ip r H1 Hp) as (k2 & m2 & E & H4 & H5 & H6). exists (k2, m2). split; [done|]. cbn [fst snd].
  split; [done|]. split; [|by eapply same_plan_trans]. eapply listed_step; [exact Hn|done|]. intros ip' Hne. by apply H6.
Qed.

(** *** Batches *)

Lemma insert_entries_ne kvs m key : key ∉ kvs.*1 -> insert_entries kvs m !! key = m !! key.
Proof.
  revert m. induction kvs as [|[key' v] kvs IH]; intros m; [done|]. cbn. rewrite not_elem_of_cons. intros [H1 H2].
  unfold insert_entries in IH. rewrite IH by done. by apply lookup_insert_ne.
Qed.

Lemma insert_entries_in kvs m key v : NoDup (kvs.*1) -> (key, v) ∈ kvs -> insert_entries kvs m !! key = Some v.
Proof.
  revert m. induction kvs as [|[key' v'] kvs IH]; intros m; [by intros _ ?%elem_of_nil|]. cbn [fmap list_fmap fst]. rewrite NoDup_cons, elem_of_cons.
  intros [Hn Hd] [[= -> ->]|Hin]; [|by apply (IH _ Hd)]. change (insert_entries kvs (<[key' := v']> m) !! key' = Some v').
  rewrite insert_entries_ne by done. apply lookup_insert_eq.
Qed.

Definition install (e : domainMapEntry) (k : domainProjection) : domainProjection :=
  with_pending (with_resident k (<[e_ip e := e_bitmaps e]> (resident k))) (delete (e_ip e) (pending k)).

(** The entries collected for one flush. *)
Record batch_ok (k : domainProjection) (batch : list domainMapEntry) : Prop := {
  bo_distinct : NoDup (map e_ip batch);
  bo_wanted : Forall (fun e => is_Some (pending k !! e_ip e) /\ desired k !! e_ip e = Some (e_bitmaps e)) batch;
}.
Definition fresh_entries (k : domainProjection) (batch : list domainMapEntry) : nat :=
  List.length (filter (fun e => resident k !! e_ip e = None) batch).

Lemma fresh_entries_cons k e batch : fresh_entries k (e :: batch) = (if decide (resident k !! e_ip e = None) then 1 else 0) + fresh_entries k batch.
Proof. unfold fresh_entries. rewrite filter_cons. by destruct (decide _). Qed.

Lemma fresh_entries_ext k k' batch : Forall (fun e => resident k' !! e_ip e = resident k !! e_ip e) batch -> fresh_entries k' batch = fresh_entries k batch.
Proof. induction 1 as [|e batch He H IH]; [done|]. by rewrite !fresh_entries_cons, He, IH. Qed.

(** Installing the entries one by one, once the kernel has them all. *)
Lemma install_batch batch : forall k m, proj_inv false k m -> batch_ok k batch -> size (resident k) + fresh_entries k batch <= k_max k ->
  (forall e, e ∈ batch -> m !! As16 (e_ip e) = Some (e_bitmaps e)) ->
  let k' := fold_left (fun k e => install e k) batch k in
  proj_inv false k' m /\ same_plan k k' /\ fewer k k' /\ size (resident k') <= size (resident k) + fresh_entries k batch /\
  (forall ip, ip ∉ map e_ip batch -> pending k' !! ip = pending k !! ip /\ resident k' !! ip = resident k !! ip).
Proof.
  induction batch as [|e batch IH]; intros k m H [Hd Hw] Hroom Hm; cbn [fold_left].
  { split; [done|]. split; [done|]. split; [intros ip; by right|]. split; [lia|done]. }
  cbn [map] in Hd. apply NoDup_cons in Hd as [He Hd]. apply Forall_cons in Hw as [[Hp Hde] Hw].
  rewrite fresh_entries_cons in *.
  assert (Hf' : fresh_entries (install e k) batch = fresh_entries k batch).
  { apply fresh_entries_ext, Forall_forall. intros e' He'. cbn. rewrite lookup_insert_ne; [done|].
    intros Heq. apply He. rewrite Heq. by apply list_elem_of_fmap_2. }
  assert (Hsz : size (resident (install e k)) <= size (resident k) + (if decide (resident k !! e_ip e = None) then 1 else 0)).
  { cbn. rewrite map_size_insert. destruct (decide _) as [E|E]; [rewrite E; cbn; lia|]. destruct (resident k !! e_ip e); [cbn; lia|done]. }
  assert (H1 : proj_inv false (install e k) m).
  { pose proof (proj_installed false k m m (e_ip e) H Hp) as Hi. rewrite Hde in Hi. apply Hi; try done.
    - right. destruct (decide (resident k !! e_ip e = None)) as [E|E]; [right; lia|left]. by destruct (resident k !! e_ip e).
    - apply Hm, elem_of_cons. by left. }
  assert (H2 : batch_ok (install e k) batch).
  { split; [done|]. rewrite Forall_forall in Hw. apply Forall_forall. intros e' He'. destruct (Hw _ He') as [Hp' Hd']. split; [|done]. cbn.
    rewrite lookup_delete_ne; [done|]. intros Heq. apply He. rewrite Heq. by apply list_elem_of_fmap_2. }
  destruct (IH (install e k) m H1 H2) as (I1 & I2 & I3 & I4 & I5).
  { rewrite Hf'. cbn [k_max install with_pending with_resident] in *. lia. }
  { intros e' He'. apply Hm, elem_of_cons. by right. }
  split; [done|]. split; [by eapply same_plan_trans; [|exact I2]|]. split; [|split].
  - intros ip. destruct (I3 ip) as [E|E]; [by left|]. rewrite E. cbn. destruct (decide (ip = e_ip e)) as [->|Hne]; [left; apply lookup_delete_eq|right].
    by apply lookup_delete_ne.
  - rewrite Hf' in I4. lia.
  - intros ip. cbn [map]. rewrite not_elem_of_cons. intros [Hne Hin]. destruct (I5 ip Hin) as [-> ->]. cbn. by rewrite lookup_delete_ne, lookup_insert_ne.
Qed.

Definition batch_entry (e : domainMapEntry) : bytes * domainBitmaps := (As16 (e_ip e), e_bitmaps e).

Lemma batch_canonical k m batch : proj_inv false k m -> batch_ok k batch -> Forall (fun e => canonical (e_ip e)) batch.
Proof. intros H [_ Hw]. eapply Forall_impl; [exact Hw|]. intros e [Hp _]. by eapply proj_requested. Qed.

Lemma batch_keys k m batch : proj_inv false k m -> batch_ok k batch -> NoDup ((map batch_entry batch).*1).
Proof.
  intros H Hb. pose proof (batch_canonical _ _ _ H Hb) as Hc. destruct Hb as [Hd _]. clear H. induction Hc as [|e batch He Hc IH]; [constructor|].
  cbn [map fmap list_fmap fst] in *. apply NoDup_cons in Hd as [Hn Hd]. apply NoDup_cons. split; [|by apply IH].
  intros Hin. apply list_elem_of_fmap in Hin as ([key v] & Hkey & Hin). apply list_elem_of_fmap in Hin as (e' & He' & Hin). injection He' as -> ->.
  apply Hn. rewrite Forall_forall in Hc. cbn in Hkey. rewrite (As16_canonical (e_ip e) (e_ip e')); [by apply list_elem_of_fmap_2|done|by apply Hc|done].
Qed.

Lemma flush_entries_ok k m batch : proj_inv false k m -> batch_ok k batch -> size (resident k) + fresh_entries k batch <= k_max k ->
  exists ok k' m', flush_entries batch_result batch (k, m) = Ok (ok, (k', m')) /\ proj_inv false k' m' /\ same_plan k k' /\ fewer k k' /\
    size (resident k') <= size (resident k) + fresh_entries k batch /\
    (forall ip, ip ∉ map e_ip batch -> pending k' !! ip = pending k !! ip /\ resident k' !! ip = resident k !! ip).
Proof.
  intros H Hb Hroom. pose proof (batch_canonical _ _ _ H Hb) as Hc. pose proof (batch_keys _ _ _ H Hb) as Hk. destruct (Hb) as [Hd Hw].
  unfold flush_entries, writeDomainBitmapBatch. assert (Hfit : forallb (fun e => value_fits (e_bitmaps e)) batch = true).
  { apply forallb_forall. intros e He%list_elem_of_In. rewrite Forall_forall in Hw. destruct (Hw _ He) as [_ Hde]. by apply (pi_values _ _ _ H _ _ Hde). }
  rewrite Hfit. cbn [negb]. fold batch_entry. change (map (fun e => (As16 (e_ip e), e_bitmaps e)) batch) with (map batch_entry batch).
  destruct (batch_result m (map batch_entry batch)) as [n err]. set (m1 := insert_entries _ m).
  assert (Hout : forall ip, canonical ip -> ip ∉ map e_ip batch -> m1 !! As16 ip = m !! As16 ip).
  { intros ip Hip Hn. apply insert_entries_ne. intros Hin. apply list_elem_of_fmap in Hin as ([key v] & Hkey & Hin).
    apply elem_of_take in Hin as (i & Hi & _). apply list_elem_of_lookup_2, list_elem_of_fmap in Hi as (e & He & Hi). injection He as -> ->.
    apply Hn. rewrite Forall_forall in Hc. cbn in Hkey. rewrite (As16_canonical ip (e_ip e)); [by apply list_elem_of_fmap_2|done|by apply Hc|done]. }
  assert (H1 : proj_inv false k m1).
  { destruct H as [P1 P2 P3 P4 P5 P6]. split; try done. intros ip Hip [?|Hn]; [done|]. rewrite Hout by (try done; intros Hin;
      apply list_elem_of_fmap in Hin as (e & -> & Hin); rewrite Forall_forall in Hw; destruct (Hw _ Hin) as [[? Hp] _]; congruence). apply P6; auto. }
  destruct (match err with Some _ => false | None => n =? length batch end) eqn:Eapp.
  - destruct (install_batch batch k m1 H1 Hb Hroom) as (I1 & I2 & I3 & I4 & I5).
    { intros e He. assert (Hall : take n (map batch_entry batch) = map batch_entry batch).
      { destruct err; [done|]. apply Nat.eqb_eq in Eapp as ->. apply take_ge. by rewrite length_map. }
      subst m1. rewrite Hall. apply insert_entries_in; [done|]. by apply (list_elem_of_fmap_2 batch_entry). }
    by do 3 eexists.
  - exists false, k, m1. split; [done|]. split; [done|]. split; [done|]. split; [intros ip; by right|]. split; [lia|done].
Qed.

Lemma batch_ok_snoc k batch ip value : batch_ok k batch -> ip ∉ map e_ip batch -> is_Some (pending k !! ip) -> desired k !! ip = Some value ->
  batch_ok k (batch ++ [mkEntry ip value]).
Proof.
  intros [Hd Hw] Hn Hp Hv. split.
  - rewrite map_app. apply NoDup_app. split; [done|]. split; [|apply NoDup_singleton]. intros x Hx ->%list_elem_of_singleton. done.
  - apply Forall_app. split; [done|]. by apply Forall_singleton.
Qed.

Lemma fresh_entries_snoc k batch e : fresh_entries k (batch ++ [e]) = fresh_entries k batch + (if decide (resident k !! e_ip e = None) then 1 else 0).
Proof. induction batch as [|e' batch IH]; [rewrite Nat.add_comm; apply (fresh_entries_cons k e [])|]. cbn [app]. rewrite !fresh_entries_cons, IH. lia. Qed.

Lemma fewer_trans k1 k2 k3 : fewer k1 k2 -> fewer k2 k3 -> fewer k1 k3.
Proof. intros H1 H2 ip. destruct (H2 ip) as [E|E]; [by left|]. rewrite E. apply H1. Qed.

Lemma batch_loop_ok now requests : forall batch remaining k m, proj_inv false k m -> listed k requests -> batch_ok k batch ->
  (forall ip, ip ∈ map e_ip batch -> ip ∉ requests.*1) -> size (resident k) + fresh_entries k batch + remaining <= k_max k ->
  exists k' m', batch_loop batch_result now requests batch remaining (k, m) = Ok (k', m') /\ proj_inv false k' m' /\ same_plan k k' /\ fewer k k'.
Proof.
  induction requests as [|[ip r] requests IH]; intros batch remaining k m H Hl Hb Hdis Hroom; cbn [batch_loop].
  { destruct (is_empty batch); [exists k, m; split; [done|]; split; [done|]; split; [done|]; intros ip; by right|].
    destruct (flush_entries_ok k m batch H Hb) as (ok & k' & m' & E & H1 & H2 & H3 & _); [lia|]. exists k', m'. by rewrite E. }
  apply listed_cons in Hl as (Hp & Hn & Hl). cbn [fst snd] in *.
  assert (Hdis' : forall ip0, ip0 ∈ map e_ip batch -> ip0 ∉ requests.*1) by (intros ip0 Hin Hin'; apply (Hdis ip0 Hin); by apply elem_of_cons; right).
  destruct (desired k !! ip) as [value|] eqn:Ed; [|by apply IH].
  destruct (Before now (due r) || _) eqn:Eskip; [by apply IH|]. apply orb_false_iff in Eskip as [_ Eskip].
  assert (Hnb : ip ∉ map e_ip batch) by (intros Hin; apply (Hdis ip Hin); by apply elem_of_cons; left).
  assert (Hb' : batch_ok k (batch ++ [mkEntry ip value])) by (apply batch_ok_snoc; eauto).
  set (rem := if match resident k !! ip with None => true | Some _ => false end then remaining - 1 else remaining).
  assert (Hroom' : size (resident k) + fresh_entries k (batch ++ [mkEntry ip value]) + rem <= k_max k).
  { rewrite fresh_entries_snoc. cbn [e_ip]. subst rem. destruct (decide (resident k !! ip = None)) as [E|E].
    - rewrite E in *. apply Nat.eqb_neq in Eskip. lia.
    - destruct (resident k !! ip); [lia|done]. }
  destruct (length (batch ++ [mkEntry ip value]) =? batchSize).
  - destruct (flush_entries_ok k m _ H Hb') as ([|] & k1 & m1 & E & H1 & H2 & H3 & Hsz & Hout); [lia|..]; rewrite E; [|by exists k1, m1].
    destruct (IH [] rem k1 m1) as (k2 & m2 & E2 & H4 & H5 & H6); try done.
    + destruct Hl as [Hnd Hl]. split; [done|]. rewrite Forall_forall in Hl. apply Forall_forall. intros e He. destruct (Hout e.1) as [-> _]; [|by apply Hl].
      rewrite map_app, elem_of_app. cbn [map e_ip]. rewrite list_elem_of_singleton. assert (Hin : e.1 ∈ requests.*1) by by apply list_elem_of_fmap_2.
      intros [Hx|Hx]; [by eapply Hdis'|]. by rewrite Hx in Hin.
    + split; constructor.
    + by intros ip0 ?%elem_of_nil.
    + destruct H2 as (_ & -> & _). unfold fresh_entries at 1. cbn. lia.
    + exists k2, m2. split; [done|]. split; [done|]. split; [by eapply same_plan_trans|by eapply fewer_trans].
  - apply IH; try done. intros ip0. rewrite map_app, elem_of_app. cbn [map e_ip]. rewrite list_elem_of_singleton. intros [Hin| ->]; [by apply Hdis'|done].
Qed.

(** *** The whole publication *)

Lemma publishBatch_ok now k m : proj_inv false k m ->
  exists k' m', publishBatch batch_result order now (k, m) = Ok (k', m') /\ proj_inv false k' m' /\ same_plan k k' /\ fewer k k'.
Proof.
  intros H. apply batch_loop_ok; [done|apply listed_range|split; constructor|by intros ip ?%elem_of_nil|].
  unfold fresh_entries. cbn. pose proof (pi_size _ _ _ H). lia.
Qed.

(** A forced publication may batch; another one keeps the mirror exact. *)
Lemma publish_ok now k m : proj_inv (negb (k_force k)) k m ->
  exists k' m', publish now (k, m) = Ok (k', m') /\ proj_inv (negb (k_force k)) k' m' /\ same_plan k k'.
Proof.
  intros H. unfold DomainProjection.publish.
  destruct (publish_pass (negb (k_force k)) now true k m _ H (listed_range k)) as (k1 & m1 & E1 & H1 & P1). cbn [fst]. rewrite E1. cbn [mbind res_bind fst].
  assert (Hmid : exists k2 m2, (if k_force k1 && (1 <? size (pending k1)) then publishBatch batch_result order now (k1, m1) else Ok (k1, m1)) = Ok (k2, m2) /\
    proj_inv (negb (k_force k)) k2 m2 /\ same_plan k1 k2).
  { destruct (k_force k1 && _) eqn:Ef; [|by exists k1, m1]. apply andb_prop in Ef as [Ef _]. destruct P1 as (_ & _ & Pf). rewrite Pf in Ef. rewrite Ef in *. cbn [negb] in *.
    destruct (publishBatch_ok now k1 m1 H1) as (k2 & m2 & E2 & H2 & P2 & _). by exists k2, m2. }
  destruct Hmid as (k2 & m2 & E2 & H2 & P2). rewrite E2. cbn [mbind res_bind fst].
  destruct (publish_pass (negb (k_force k)) now false k2 m2 _ H2 (listed_range k2)) as (k3 & m3 & E3 & H3 & P3). rewrite E3. cbn [mbind res_bind fst snd].
  assert (P : same_plan k k3) by (eapply same_plan_trans; [|exact P3]; by eapply same_plan_trans).
  destruct (size (pending k3) =? 0); [|by exists k3, m3]. exists (with_err k3 None), m3. split; [done|]. split; [by apply proj_inv_err|done].
Qed.

Definition all_due (now : Time) (k : domainProjection) : Prop := forall ip r, pending k !! ip = Some r -> (due r <= now)%Z.

Lemma fewer_due now k k' : fewer k k' -> all_due now k -> all_due now k'.
Proof. intros Hf Hd ip r Hr. destruct (Hf ip) as [E|E]; [congruence|]. apply (Hd ip). congruence. Qed.

Definition installed_ip (ip : Addr) (k : domainProjection) : domainProjection :=
  with_pending (with_resident k (partial_alter (fun _ => desired k !! ip) ip (resident k))) (delete ip (pending k)).

Lemma publish_one_other now removing k m ip r : removing <> bool_decide (desired k !! ip = None) -> publish_one now removing (k, m) (ip, r) = Ok (k, m).
Proof.
  intros H. unfold DomainProjection.publish_one. by destruct (desired k !! ip), removing.
Qed.

Lemma fewer_installed ip k : fewer k (installed_ip ip k).
Proof. intros ip'. cbn. destruct (decide (ip' = ip)) as [->|E]; [left; apply lookup_delete_eq|right; by apply lookup_delete_ne]. Qed.

(** With only wanted entries outstanding there is room for one that is not resident. *)
Lemma wanted_room strict k m ip : proj_inv strict k m -> size (desired k) <= k_max k -> (forall ip, is_Some (pending k !! ip) -> is_Some (desired k !! ip)) ->
  is_Some (desired k !! ip) -> is_Some (resident k !! ip) \/ size (resident k) < k_max k.
Proof.
  intros H Hsize Hw Hdes. destruct (resident k !! ip) as [v|] eqn:Er; [left; by eexists|right]. assert (Hsub : dom (resident k) ⊂ dom (desired k)).
  { split.
    - intros ip'. rewrite !elem_of_dom. intros Hr. destruct (pending k !! ip') eqn:Ep; [apply Hw; by eexists|]. by rewrite <-(pi_settled _ _ _ H _ Ep).
    - intros Hsub. apply elem_of_dom in Hdes. apply Hsub, elem_of_dom in Hdes as [? ?]. congruence. }
  apply subset_size in Hsub. rewrite !size_dom in Hsub. lia.
Qed.

(** *** Failures are reported *)

Lemma publish_one_err now removing k m e k' m' : publish_one now removing (k, m) e = Ok (k', m') -> k_err k' = None ->
  k_err k = None /\ (k' = k \/ pending k' = delete e.1 (pending k)).
Proof.
  unfold DomainProjection.publish_one. destruct e as [ip r]. cbn [fst]. destruct (Bool.eqb removing _ || _); [intros [= <- <-]; auto|].
  destruct (_ && _ && _); [intros [= <- <-]; auto|]. destruct (match desired k !! ip with Some _ => _ | None => _ end); intros [= <- <-]; try done. cbn. auto.
Qed.

Lemma publish_one_attempt now k m ip r k' m' v : pending k !! ip = Some r -> (due r <= now)%Z -> desired k !! ip = Some v ->
  is_Some (resident k !! ip) \/ size (resident k) < k_max k -> publish_one now false (k, m) (ip, r) = Ok (k', m') -> k_err k' = None -> pending k' !! ip = None.
Proof.
  intros Hp Hdue Hd Hroom. unfold DomainProjection.publish_one. rewrite Hd. assert (Hb : Before now (due r) = false) by (apply Z.ltb_ge; lia). rewrite Hb. cbn [Bool.eqb orb andb].
  assert (Hno : match resident k !! ip with None => true | Some _ => false end && (k_max k <=? size (resident k)) = false).
  { destruct (resident k !! ip); [done|]. apply Nat.leb_gt. by destruct Hroom as [[? ?]|?]. }
  rewrite Hno. destruct (writeDomainBitmaps _ _ _ _); intros [= <- <-]; try done. intros _. cbn. apply lookup_delete_eq.
Qed.

(** The second pass settles every wanted entry or reports a failure. *)
Lemma insertion_or_error strict now k m : proj_inv strict k m -> all_due now k -> size (desired k) <= k_max k ->
  (forall ip, is_Some (pending k !! ip) -> is_Some (desired k !! ip)) ->
  exists k' m', foldM (publish_one now false) (k, m) (range order (pending k)) = Ok (k', m') /\ proj_inv strict k' m' /\ same_plan k k' /\ (k_err k' = None -> pending k' = ∅).
Proof.
  intros H Hdue Hsize Hwant.
  destruct (foldM_run (publish_one now false) (fun rest st => proj_inv strict st.1 st.2 /\ listed st.1 rest /\ same_plan k st.1 /\
    (k_err st.1 = None -> all_due now st.1 /\ forall ip, is_Some (pending st.1 !! ip) -> is_Some (desired st.1 !! ip) /\ ip ∈ rest.*1)) (range order (pending k)) (k, m))
    as ([k' m'] & E & H1 & _ & H2 & H4).
  - split; [done|]. split; [apply listed_range|]. split; [done|]. intros _. split; [done|]. intros ip Hs. split; [by apply Hwant|]. destruct Hs as [r Hr].
    apply list_elem_of_fmap. exists (ip, r). split; [done|]. by apply elem_of_range.
  - intros [ip r] rest [k1 m1] (H1 & H2 & H3 & H4). cbn [fst snd] in *. apply listed_cons in H2 as (Hp & Hn & Hl). cbn [fst snd] in *.
    destruct (publish_one_ok strict now false k1 m1 ip r H1 Hp) as (k2 & m2 & E & I2 & P2 & O2). exists (k2, m2). split; [done|]. cbn [fst snd]. split; [done|].
    split; [eapply listed_step; [exact Hn|done|]; intros ip' Hne; by apply O2|]. split; [by eapply same_plan_trans|]. intros Hno.
    destruct (publish_one_err _ _ _ _ _ _ _ E Hno) as [Hno1 _]. destruct (H4 Hno1) as [D W]. destruct (W ip) as [[v Hv] _]; [by eexists|].
    assert (Hout : pending k2 !! ip = None).
    { eapply publish_one_attempt; [exact Hp|by eapply D|exact Hv| |exact E|done]. destruct H3 as (Hd3 & Hm3 & _).
      eapply wanted_room; [done|by rewrite Hd3, Hm3|by intros ip' Hs; apply W|by eexists]. }
    destruct P2 as (Hd2 & _ & _). split.
    + intros ip' r' Hr'. destruct (decide (ip' = ip)) as [->|Hne]; [congruence|]. destruct (O2 ip' Hne) as [Ho _]. apply (D ip'). congruence.
    + intros ip' Hs. destruct (decide (ip' = ip)) as [->|Hne]; [rewrite Hout in Hs; by destruct Hs|]. destruct (O2 ip' Hne) as [Ho _]. rewrite Ho in Hs.
      rewrite Hd2. destruct (W ip' Hs) as [? Hin]. split; [done|]. by apply elem_of_cons in Hin as [?|?].
  - exists k', m'. cbn [fst snd] in *. split_and!; try done; try apply H2. intros Hno. apply map_eq. intros ip. rewrite lookup_empty.
    destruct (pending k' !! ip) eqn:Ep; [|done]. destruct (proj2 (H4 Hno) ip) as [_ ?%elem_of_nil]; [by eexists|done].
Qed.

(** Without entries to remove, a publication that reports no failure is complete. *)
Lemma publish_or_error now k m : proj_inv (negb (k_force k)) k m -> size (desired k) <= k_max k -> all_due now k ->
  (forall ip, is_Some (pending k !! ip) -> is_Some (desired k !! ip)) ->
  exists k' m', publish now (k, m) = Ok (k', m') /\ proj_inv (negb (k_force k)) k' m' /\ same_plan k k' /\ (k_err k' = None -> pending k' = ∅).
Proof.
  intros H Hsize Hdue Hw. unfold DomainProjection.publish. assert (E1 : foldM (publish_one now true) (k, m) (range order (pending k)) = Ok (k, m)).
  { destruct (foldM_run (publish_one now true) (fun rest st => st = (k, m) /\ Forall (fun e => is_Some (desired k !! e.1)) rest) (range order (pending k)) (k, m)) as (st & E & -> & _); [| |done].
    - split; [done|]. apply Forall_forall. intros [ip r] Hin. apply elem_of_range in Hin. apply Hw. by eexists.
    - intros [ip r] rest st [-> Hf]. apply Forall_cons in Hf as [[v Hv] Hf]. exists (k, m). split; [|done]. apply publish_one_other. cbn in Hv. by rewrite Hv. }
  cbn [fst]. rewrite E1. cbn [mbind res_bind fst].
  assert (Hmid : exists k2 m2, (if k_force k && (1 <? size (pending k)) then publishBatch batch_result order now (k, m) else Ok (k, m)) = Ok (k2, m2) /\
    proj_inv (negb (k_force k)) k2 m2 /\ same_plan k k2 /\ fewer k k2).
  { destruct (k_force k && _) eqn:Ef; [|exists k, m; split_and!; try done; intros ip; by right]. apply andb_prop in Ef as [Ef _].
    rewrite Ef in *. cbn [negb] in *. destruct (publishBatch_ok now k m H) as (k2 & m2 & E2 & H2 & P2 & F2). by exists k2, m2. }
  destruct Hmid as (k2 & m2 & E2 & H2 & P2 & F2). rewrite E2. cbn [mbind res_bind fst].
  destruct (insertion_or_error _ now k2 m2 H2 (fewer_due _ _ _ F2 Hdue)) as (k3 & m3 & E3 & H3 & P3 & Hp).
  - by destruct P2 as (-> & -> & _).
  - intros ip [r Hr]. destruct P2 as (-> & _). apply Hw. destruct (F2 ip) as [E|E]; [congruence|]. exists r. congruence.
  - rewrite E3. cbn [mbind res_bind fst snd]. assert (P : same_plan k k3) by by eapply same_plan_trans. destruct (Nat.eqb_spec (size (pending k3)) 0) as [Ez|Ez].
    + exists (with_err k3 None), m3. split; [done|]. split; [by apply proj_inv_err|]. split; [done|]. intros _. by apply map_size_empty_iff.
    + exists k3, m3. by split_and!.
Qed.

(** *** Convergence *)

Section Converge.
Context (updates_succeed : forall m key v, update_error m key v = None) (deletes_succeed : forall m key, delete_error m key = None).

(** A due request is settled in the pass of its kind. *)
Lemma publish_one_settles strict now removing k m ip r : proj_inv strict k m -> pending k !! ip = Some r -> (due r <= now)%Z ->
  removing = bool_decide (desired k !! ip = None) -> (desired k !! ip = None \/ is_Some (resident k !! ip) \/ size (resident k) < k_max k) ->
  exists m', publish_one now removing (k, m) (ip, r) = Ok (installed_ip ip k, m') /\ proj_inv strict (installed_ip ip k) m'.
Proof.
  intros H Hp Hdue -> Hroom. assert (Hs : is_Some (pending k !! ip)) by by eexists. unfold DomainProjection.publish_one.
  assert (Hb : Before now (due r) = false) by (apply Z.ltb_ge; lia). rewrite Hb, orb_false_r.
  destruct (desired k !! ip) as [v|] eqn:Ed.
  - rewrite bool_decide_eq_false_2 by done. cbn [Bool.eqb andb].
    assert (Hno : match resident k !! ip with None => true | Some _ => false end && (k_max k <=? size (resident k)) = false).
    { destruct (resident k !! ip); [done|]. apply Nat.leb_gt. destruct Hroom as [?|[[? ?]|?]]; done. }
    rewrite Hno. unfold writeDomainBitmaps. rewrite (pi_values _ _ _ H _ _ Ed), updates_succeed. cbn [negb]. exists (<[As16 ip := v]> m).
    unfold installed_ip. rewrite Ed. split; [done|]. pose proof (proj_installed strict k m (<[As16 ip := v]> m) ip H Hs) as Hi. rewrite Ed in Hi.
    apply Hi; [done|apply lookup_insert_eq|]. intros key E. by apply lookup_insert_ne.
  - rewrite bool_decide_eq_true_2 by done. cbn [Bool.eqb andb]. unfold deleteDomainBitmaps. rewrite deletes_succeed. exists (delete (As16 ip) m).
    unfold installed_ip. rewrite Ed. split; [done|]. pose proof (proj_installed strict k m (delete (As16 ip) m) ip H Hs) as Hi. rewrite Ed in Hi.
    apply Hi; [done|apply lookup_delete_eq|]. intros key E. by apply lookup_delete_ne.
Qed.

(** A request is settled, or it waits: for the other pass, for its time, or for a slot. *)
Lemma publish_one_success strict now removing k m ip r : proj_inv strict k m -> pending k !! ip = Some r ->
  exists k' m', publish_one now removing (k, m) (ip, r) = Ok (k', m') /\ proj_inv strict k' m' /\
    ((k' = k /\ (removing <> bool_decide (desired k !! ip = None) \/ (now < due r)%Z \/ (resident k !! ip = None /\ size (resident k) = k_max k))) \/
     (k' = installed_ip ip k /\ removing = bool_decide (desired k !! ip = None) /\ (desired k !! ip = None \/ is_Some (resident k !! ip) \/ size (resident k) < k_max k))).
Proof.
  intros H Hp. destruct (decide (removing = bool_decide (desired k !! ip = None))) as [Hrem|Hrem]; [|exists k, m; rewrite publish_one_other by done; split; [done|]; split; [done|]; left; split; [done|]; by left].
  destruct (decide (due r <= now)%Z) as [Hdue|Hdue].
  2: { exists k, m. split; [|split; [done|]; left; split; [done|]; right; left; lia]. unfold DomainProjection.publish_one. assert (Hb : Before now (due r) = true) by (apply Z.ltb_lt; lia). by rewrite Hb, orb_true_r. }
  destruct (decide (desired k !! ip = None \/ is_Some (resident k !! ip) \/ size (resident k) < k_max k)) as [Hroom|Hroom].
  - destruct (publish_one_settles strict now removing k m ip r H Hp Hdue Hrem Hroom) as (m' & E & H'). exists (installed_ip ip k), m'. split; [done|]. split; [done|]. by right.
  - assert (Hd : desired k !! ip <> None /\ resident k !! ip = None /\ k_max k <= size (resident k)).
    { split; [tauto|]. split; [destruct (resident k !! ip); [|done]; exfalso; apply Hroom; eauto|]. apply Nat.le_ngt. tauto. }
    destruct Hd as (Hd & Hr & Hfull). exists k, m. split; [|pose proof (pi_size _ _ _ H); split; [done|]; left; split; [done|]; right; right; split; [done|lia]].
    unfold DomainProjection.publish_one. rewrite Hr. apply Nat.leb_le in Hfull as ->. by destruct (desired k !! ip), removing, (Before now (due r)).
Qed.

(** One pass leaves the requests of the other kind, those that are not due and those without
    a slot. *)
Lemma publish_pass_success strict now removing k m : proj_inv strict k m ->
  exists k' m', foldM (publish_one now removing) (k, m) (range order (pending k)) = Ok (k', m') /\ proj_inv strict k' m' /\ same_plan k k' /\ fewer k k' /\
    forall ip r, pending k' !! ip = Some r -> removing <> bool_decide (desired k !! ip = None) \/ (now < due r)%Z \/ (removing = false /\ resident k' !! ip = None /\ size (resident k') = k_max k).
Proof.
  intros H. set (waits (k1 : domainProjection) ip (r : domainPublication) := removing <> bool_decide (desired k !! ip = None) \/ (now < due r)%Z \/ (removing = false /\ resident k1 !! ip = None /\ size (resident k1) = k_max k)).
  destruct (foldM_run (publish_one now removing) (fun rest st => proj_inv strict st.1 st.2 /\ listed st.1 rest /\ same_plan k st.1 /\ fewer k st.1 /\
    forall ip r, pending st.1 !! ip = Some r -> ip ∈ rest.*1 \/ waits st.1 ip r) (range order (pending k)) (k, m)) as ([k' m'] & E & H1 & _ & H2 & H3 & H4).
  - split; [done|]. split; [apply listed_range|]. split; [done|]. split; [intros ip; by right|]. intros ip r Hr. left. apply list_elem_of_fmap. exists (ip, r). split; [done|]. by apply elem_of_range.
  - intros [ip r] rest [k1 m1] (H1 & H2 & H3 & H4 & H5). cbn [fst snd] in *. apply listed_cons in H2 as (Hp & Hn & Hl). cbn [fst snd] in *. pose proof H3 as (Hd & Hm & _).
    destruct (publish_one_success strict now removing k1 m1 ip r H1 Hp) as (k2 & m2 & E & I2 & Hc). exists (k2, m2). split; [done|]. cbn [fst snd]. split; [done|]. destruct Hc as [[-> Hw]|(-> & Hkind & Hroom)].
    + split; [done|]. split; [done|]. split; [done|]. intros ip' r' Hr'. destruct (H5 _ _ Hr') as [Hin|?]; [|by right]. apply elem_of_cons in Hin as [->|?]; [|by left]. right. cbn [fst] in *. assert (r' = r) as -> by congruence. rewrite Hd, Hm in Hw.
      destruct Hw as [?|[?|[? ?]]]; [by left|by right; left|]. destruct removing; [|by right; right]. destruct (decide (desired k !! ip = None)) as [Hdn|Hdn]; [|left; by rewrite bool_decide_eq_false_2].
      exfalso. destruct (pi_pending _ _ _ H1 ip) as [Hs|Hs]; [by eexists|rewrite Hd, Hdn in Hs; by destruct Hs|]. destruct Hs as [? ?]. congruence.
    + split; [eapply listed_step; [exact Hn|done|]; intros ip' Hne; by apply lookup_delete_ne|]. split; [done|]. split; [eapply fewer_trans; [exact H4|apply fewer_installed]|]. intros ip' r'. cbn [pending installed_ip with_pending]. intros [Hne Hr']%lookup_delete_Some.
      destruct (H5 _ _ Hr') as [Hin|Hw]; [left; by apply elem_of_cons in Hin as [->|?]|right]. destruct Hw as [?|[?|(Hfalse & Hres & Hfull)]]; [by left|by right; left|]. right; right. split; [done|]. cbn. rewrite lookup_partial_alter_ne by done. split; [done|].
      destruct (desired k1 !! ip) as [v|] eqn:Ed.
      * change (size (<[ip := v]> (resident k1)) = k_max k). rewrite map_size_insert_Some; [done|]. destruct Hroom as [?|[?|?]]; [done|done|lia].
      * by rewrite Hfalse, bool_decide_eq_true_2 in Hkind.
  - exists k', m'. split_and!; try done. intros ip r Hr. destruct (H4 ip r Hr) as [?%elem_of_nil|?]; done.
Qed.

(** A wanted address without a slot waits for one that is to be removed. *)
Lemma slot_held strict k m ip : proj_inv strict k m -> size (desired k) <= k_max k -> is_Some (desired k !! ip) -> resident k !! ip = None -> size (resident k) = k_max k ->
  exists ip0 r0, pending k !! ip0 = Some r0 /\ desired k !! ip0 = None /\ is_Some (resident k !! ip0).
Proof.
  intros H Hsize Hw Hr Hfull. destruct (set_choose_or_empty (dom (resident k) ∖ dom (desired k))) as [[ip0 [Hin Hout]%elem_of_difference]|Hsub]; cycle 1.
  - exfalso. assert (dom (resident k) ⊆ dom (desired k)) by set_solver. assert (Hss : dom (resident k) ⊂ dom (desired k)) by (split; [done|]; intros Hs; apply elem_of_dom in Hw; apply Hs, elem_of_dom in Hw as [? ?]; congruence). apply subset_size in Hss. rewrite !size_dom in Hss. lia.
  - apply elem_of_dom in Hin. apply not_elem_of_dom in Hout. destruct (pending k !! ip0) as [r0|] eqn:Ep; [by exists ip0, r0|]. rewrite (pi_settled _ _ _ H _ Ep), Hout in Hin. by destruct Hin.
Qed.

Lemma publish_settles now k m : proj_inv (negb (k_force k)) k m -> size (desired k) <= k_max k ->
  exists k' m', publish now (k, m) = Ok (k', m') /\ proj_inv (negb (k_force k)) k' m' /\ same_plan k k' /\ fewer k k' /\ (pending k' = ∅ -> k_err k' = None) /\
    forall ip r, pending k' !! ip = Some r -> (now < due r)%Z \/ (is_Some (desired k !! ip) /\ resident k' !! ip = None /\ size (resident k') = k_max k).
Proof.
  intros H Hsize. unfold DomainProjection.publish. destruct (publish_pass_success _ now true k m H) as (k1 & m1 & E1 & H1 & P1 & F1 & W1). cbn [fst]. rewrite E1. cbn [mbind res_bind fst].
  assert (Hmid : exists k2 m2, (if k_force k1 && (1 <? size (pending k1)) then publishBatch batch_result order now (k1, m1) else Ok (k1, m1)) = Ok (k2, m2) /\
    proj_inv (negb (k_force k)) k2 m2 /\ same_plan k1 k2 /\ fewer k1 k2).
  { destruct (k_force k1 && _) eqn:Ef; [|exists k1, m1; split_and!; try done; intros ip; by right]. apply andb_prop in Ef as [Ef _]. destruct P1 as (_ & _ & Pf).
    rewrite Pf in Ef. rewrite Ef in *. cbn [negb] in *. destruct (publishBatch_ok now k1 m1 H1) as (k2 & m2 & E2 & H2 & P2 & F2). by exists k2, m2. }
  destruct Hmid as (k2 & m2 & E2 & H2 & P2 & F2). rewrite E2. cbn [mbind res_bind fst]. assert (P : same_plan k k2) by by eapply same_plan_trans.
  destruct (publish_pass_success _ now false k2 m2 H2) as (k3 & m3 & E3 & H3 & P3 & F3 & W3). rewrite E3. cbn [mbind res_bind fst snd].
  set (k4 := if _ =? 0 then _ else _). assert (Hk4 : same_plan k3 k4 /\ pending k4 = pending k3 /\ resident k4 = resident k3 /\ proj_inv (negb (k_force k)) k4 m3 /\ (pending k4 = ∅ -> k_err k4 = None)).
  { unfold k4. destruct (Nat.eqb_spec (size (pending k3)) 0) as [Ez|Ez]; [split_and!; try done; by apply proj_inv_err|split_and!; try done]. intros Hp. by rewrite Hp, map_size_empty in Ez. }
  destruct Hk4 as (P4 & Ep & Er & H4 & He). exists k4, m3. split; [done|]. split; [done|]. split; [eapply same_plan_trans; [exact P|by eapply same_plan_trans]|]. split; [|split; [done|]].
  - intros ip. rewrite Ep. destruct (fewer_trans _ _ _ F1 (fewer_trans _ _ _ F2 F3) ip); auto.
  - intros ip r. rewrite Ep, Er. intros Hr. destruct P as (Pd & Pm & _). rewrite Pd, Pm in W3. destruct (W3 ip r Hr) as [Hk|[?|(_ & ? & ?)]]; [|by left|].
    + left. assert (Hr1 : pending k1 !! ip = Some r) by (destruct (fewer_trans _ _ _ F2 F3 ip); congruence). destruct (W1 ip r Hr1) as [Hk'|[?|(? & _)]]; [|done|done]. exfalso. by destruct (bool_decide _).
    + destruct (desired k !! ip) as [v|] eqn:Ed; [by right|]. left. assert (Hr1 : pending k1 !! ip = Some r) by (destruct (fewer_trans _ _ _ F2 F3 ip); congruence). destruct (W1 ip r Hr1) as [Hk'|[?|(? & _)]]; [|done|done]. rewrite Ed, bool_decide_eq_true_2 in Hk' by done. done.
Qed.

(** C24: when the map operations succeed, one publication settles every request that is due,
    whatever failed before and whichever batches fail now, and the kernel map holds the
    wanted value of each settled address.  A due request stays only if it is an insertion, the map is full
    and a removal that is not yet due holds one of its slots.  Once all requests are due
    nothing is left and the map holds exactly the wanted entries. *)
Theorem publish_converges (now : Time) (k : domainProjection) (m : domain_map) :
  proj_inv (negb (k_force k)) k m -> size (desired k) <= k_max k ->
  exists k' m', publish now (k, m) = Ok (k', m') /\ desired k' = desired k /\
    (forall ip, canonical ip -> pending k' !! ip = None -> m' !! As16 ip = desired k !! ip) /\
    (forall ip r, pending k' !! ip = Some r -> pending k !! ip = Some r /\
      ((now < due r)%Z \/
       (is_Some (desired k !! ip) /\ resident k' !! ip = None /\ size (resident k') = k_max k /\
        exists ip0 r0, pending k' !! ip0 = Some r0 /\ (now < due r0)%Z /\ desired k !! ip0 = None /\ is_Some (resident k' !! ip0)))) /\
    (all_due now k -> pending k' = ∅ /\ k_err k' = None /\ resident k' = desired k /\ forall ip, canonical ip -> m' !! As16 ip = desired k !! ip).
Proof.
  intros H Hsize. destruct (publish_settles now k m H Hsize) as (k' & m' & E & H1 & (Hd & Hm & _) & Hf & He & Hw). exists k', m'. split; [done|]. split; [done|].
  assert (Hval : forall ip, canonical ip -> pending k' !! ip = None -> m' !! As16 ip = desired k !! ip) by (intros ip Hc Hp; rewrite (pi_mirror _ _ _ H1 ip Hc (or_intror Hp)), <-Hd; by apply (pi_settled _ _ _ H1)).
  assert (Hstay : forall ip r, pending k' !! ip = Some r -> pending k !! ip = Some r) by (intros ip r Hr; destruct (Hf ip); congruence).
  assert (Hlate : forall ip r, pending k' !! ip = Some r -> (now < due r)%Z \/ (is_Some (desired k !! ip) /\ resident k' !! ip = None /\ size (resident k') = k_max k /\
        exists ip0 r0, pending k' !! ip0 = Some r0 /\ (now < due r0)%Z /\ desired k !! ip0 = None /\ is_Some (resident k' !! ip0))).
  { intros ip r Hr. destruct (Hw ip r Hr) as [?|(Hs & Hn & Hz)]; [by left|right]. split; [done|]. split; [done|]. split; [done|].
    destruct (slot_held _ k' m' ip H1) as (ip0 & r0 & Hr0 & Hd0 & Hs0); [by rewrite Hd, Hm|by rewrite Hd|done|by rewrite Hm|]. rewrite Hd in Hd0. exists ip0, r0. split; [done|]. split; [|done].
    destruct (Hw ip0 r0 Hr0) as [?|(Hs' & _)]; [done|]. rewrite Hd0 in Hs'. by destruct Hs'. }
  split; [done|]. split; [intros ip r Hr; split; auto|]. intros Hdue. assert (Hp : pending k' = ∅).
  { apply map_eq. intros ip. rewrite lookup_empty. destruct (pending k' !! ip) as [r|] eqn:Er; [|done]. exfalso. destruct (Hlate ip r Er) as [Hx|(_ & _ & _ & ip0 & r0 & Hr0 & Hx & _)]; [pose proof (Hdue _ _ (Hstay _ _ Er))|pose proof (Hdue _ _ (Hstay _ _ Hr0))]; lia. }
  split; [done|]. split; [auto|]. split; [|intros ip Hc; apply Hval; [done|by rewrite Hp]]. apply map_eq. intros ip. rewrite <-Hd. apply (pi_settled _ _ _ H1). by rewrite Hp.
Qed.
End Converge.
End Publish.

(** A full map, one entry to remove and one to add. *)
Definition demo_value : domainBitmaps := mkBitmaps (replicate domainBitmapWords 1%Z) (replicate domainBitmapWords 0%Z).
Definition demo_kernel : domainProjection :=
  mkProjection 1 {[ AddrV4 [192; 0; 2; 1]%Z := demo_value ]} {[ AddrV4 [192; 0; 2; 2]%Z := demo_value ]}
    {[ AddrV4 [192; 0; 2; 1]%Z := mkPublication 5 false; AddrV4 [192; 0; 2; 2]%Z := no_publication ]} (Some "busy"%string) false.
Definition demo_map : domain_map := {[ As16 (AddrV4 [192; 0; 2; 1]%Z) := demo_value ]}.

Lemma demo_inv : proj_inv true demo_kernel demo_map.
Proof.
  assert (Hc : forall c, is_byte c -> canonical (AddrV4 [192; 0; 2; c]%Z)).
  { intros c Hc. split; [done|]. split; [|done]. split; [done|]. repeat constructor; try done; apply Hc. }
  assert (H1 : canonical (AddrV4 [192; 0; 2; 1]%Z)) by by apply Hc. assert (H2 : canonical (AddrV4 [192; 0; 2; 2]%Z)) by by apply Hc.
  split; cbn [pending desired resident k_max demo_kernel].
  - intros ip. rewrite lookup_insert_None, lookup_singleton_None. intros [Ha Hb]. by rewrite !lookup_singleton_ne.
  - vm_compute. lia.
  - intros ip [r Hr]. apply lookup_insert_Some in Hr as [[<- _]|[_ [<- _]%lookup_singleton_Some]]; [right|left]; by rewrite lookup_singleton_eq.
  - intros ip [[v [<- _]%lookup_singleton_Some]|[v [<- _]%lookup_singleton_Some]]; done.
  - intros ip v [<- <-]%lookup_singleton_Some. done.
  - intros ip Hip _. unfold demo_map. destruct (decide (ip = AddrV4 [192; 0; 2; 1]%Z)) as [->|Hne]; [by rewrite !lookup_singleton_eq|].
    rewrite (lookup_singleton_ne _ ip) by congruence. apply lookup_singleton_ne. intros E%As16_canonical; [congruence|done|done].
Qed.

Lemma publish_converges_witness : exists k' m', publish (fun _ _ _ => None) (fun _ _ => None) (fun _ _ => (0, None)) in_order 7 (demo_kernel, demo_map) = Ok (k', m') /\
  pending k' = ∅ /\ k_err k' = None /\ resident k' = desired demo_kernel /\ forall ip, canonical ip -> m' !! As16 ip = desired demo_kernel !! ip.
Proof.
  destruct (publish_converges (fun _ _ _ => None) (fun _ _ => None) (fun _ _ => (0, None)) in_order ltac:(done) ltac:(done) 7 demo_kernel demo_map) as (k' & m' & E & _ & _ & _ & Hall); [exact demo_inv|vm_compute; lia|].
  exists k', m'. split; [done|]. apply Hall. intros ip r Hr. cbn [pending demo_kernel] in Hr. apply lookup_insert_Some in Hr as [[<- <-]|[_ [<- <-]%lookup_singleton_Some]]; cbn; lia.
Defined.
