(* ===== verification/DomainRegistry.v ===== *)
(** * The registry of DNS evidence (control/domain_registry.go, domain_activity.go,
    domain_projection.go, domain_registry_lifecycle.go, domain_registry_disk.go)

    Pairs of a name and an address are kept until a deadline, in two indexes that share
    the pairs; the bitmaps of the names of an address are folded into the summary the
    kernel gets. Records and pairs are heap objects: the indexes hold references.
    Background work, locks and the encoding of the file are left out. *)

From S2P Require Import Prelude GoSlices Netip NetipParse RoutingInstr DomainProjection.

(** ** State *)

Record domainRecord := mkRecord { r_bitmap : list Z; r_addresses : gmap Addr nat }.

Record ipRecord := mkIPRecord {
  s_domains : gmap nat nat;      (* record to pair *)
  s_bump : list Z;
  s_routing : list Z;
  s_priority : Time;
}.

Definition domainActivityKey : Type := Addr * string.
Definition domainActivityShards : nat := 32.
Definition domainActivityBatch : Type := list (gmap domainActivityKey Time).
Definition no_activity : domainActivityBatch := replicate domainActivityShards ∅.

(** The queue; [a_registry] identifies its owner. *)
Record domainActivity := mkActivity { a_registry : option nat; a_pending : domainActivityBatch }.

Record DomainRegistry := mkRegistry {
  g_id : nat;
  records : gmap nat domainRecord;      (* heap *)
  pairs : gmap nat Time;                (* heap: [domainPair.retainUntil] *)
  next_ref : nat;
  byName : gmap string nat;
  byIP : gmap Addr ipRecord;
  kernel_ : domainProjection;
  window : Z;
  activityLag : Z;
  evaluatedAt : Time;
  nextGC : Time;
  gcCount : Z;
  generation : Z;
  activityBatch : domainActivityBatch;
  closed : bool;
}.

Definition with_heap (g : DomainRegistry) (rs : gmap nat domainRecord) (ps : gmap nat Time) (next : nat) : DomainRegistry :=
  mkRegistry (g_id g) rs ps next (byName g) (byIP g) (kernel_ g) (window g) (activityLag g) (evaluatedAt g) (nextGC g) (gcCount g) (generation g) (activityBatch g) (closed g).
Definition with_records (g : DomainRegistry) (rs : gmap nat domainRecord) : DomainRegistry := with_heap g rs (pairs g) (next_ref g).
Definition with_pairs (g : DomainRegistry) (ps : gmap nat Time) : DomainRegistry := with_heap g (records g) ps (next_ref g).
Definition with_byName (g : DomainRegistry) (m : gmap string nat) : DomainRegistry :=
  mkRegistry (g_id g) (records g) (pairs g) (next_ref g) m (byIP g) (kernel_ g) (window g) (activityLag g) (evaluatedAt g) (nextGC g) (gcCount g) (generation g) (activityBatch g) (closed g).
Definition with_byIP (g : DomainRegistry) (m : gmap Addr ipRecord) : DomainRegistry :=
  mkRegistry (g_id g) (records g) (pairs g) (next_ref g) (byName g) m (kernel_ g) (window g) (activityLag g) (evaluatedAt g) (nextGC g) (gcCount g) (generation g) (activityBatch g) (closed g).
Definition with_kernel (g : DomainRegistry) (k : domainProjection) : DomainRegistry :=
  mkRegistry (g_id g) (records g) (pairs g) (next_ref g) (byName g) (byIP g) k (window g) (activityLag g) (evaluatedAt g) (nextGC g) (gcCount g) (generation g) (activityBatch g) (closed g).
Definition with_evaluatedAt (g : DomainRegistry) (t : Time) : DomainRegistry :=
  mkRegistry (g_id g) (records g) (pairs g) (next_ref g) (byName g) (byIP g) (kernel_ g) (window g) (activityLag g) t (nextGC g) (gcCount g) (generation g) (activityBatch g) (closed g).
Definition with_nextGC (g : DomainRegistry) (t : Time) : DomainRegistry :=
  mkRegistry (g_id g) (records g) (pairs g) (next_ref g) (byName g) (byIP g) (kernel_ g) (window g) (activityLag g) (evaluatedAt g) t (gcCount g) (generation g) (activityBatch g) (closed g).
Definition with_counts (g : DomainRegistry) (gc gen : Z) : DomainRegistry :=
  mkRegistry (g_id g) (records g) (pairs g) (next_ref g) (byName g) (byIP g) (kernel_ g) (window g) (activityLag g) (evaluatedAt g) (nextGC g) gc gen (activityBatch g) (closed g).
Definition with_batch (g : DomainRegistry) (b : domainActivityBatch) : DomainRegistry :=
  mkRegistry (g_id g) (records g) (pairs g) (next_ref g) (byName g) (byIP g) (kernel_ g) (window g) (activityLag g) (evaluatedAt g) (nextGC g) (gcCount g) (generation g) b (closed g).
Definition with_closed (g : DomainRegistry) : DomainRegistry :=
  mkRegistry (g_id g) (records g) (pairs g) (next_ref g) (byName g) (byIP g) (kernel_ g) (window g) (activityLag g) (evaluatedAt g) (nextGC g) (gcCount g) (generation g) (activityBatch g) true.

(** [uint64] counters. *)
Definition count_change (g : DomainRegistry) : DomainRegistry := with_counts g (gcCount g) (wrap 64 (generation g + 1)).
Definition count_gc (g : DomainRegistry) : DomainRegistry := with_counts g (wrap 64 (gcCount g + 1)) (wrap 64 (generation g + 1)).

Definition newDomainRegistry (id kernelMax : nat) (window lag : Z) : DomainRegistry :=
  mkRegistry id ∅ ∅ 0 ∅ ∅ (mkProjection kernelMax ∅ ∅ ∅ None false) window lag 0 0 0 0 no_activity false.

Definition clock (now : Time) (g : DomainRegistry) : DomainRegistry :=
  if After now (evaluatedAt g) then with_evaluatedAt g now else g.

(** ** Pairs *)

Definition trackDeadline (deadline : Time) (g : DomainRegistry) : DomainRegistry :=
  if IsZero (nextGC g) || Before deadline (nextGC g) then with_nextGC g deadline else g.

(** [extend]: the record [r], the record of [ip] and their pair are dereferenced here. *)
Definition extend (r : nat) (ip : Addr) (pair_ : nat) (deadline : Time) (g : DomainRegistry) : res (DomainRegistry * bool) :=
  retainUntil ← idx (pairs g !! pair_);
  if After deadline retainUntil then
    let g := count_change (trackDeadline deadline (with_pairs g (<[pair_ := deadline]> (pairs g)))) in
    record ← idx (records g !! r);
    if domainBitmapAllZero (r_bitmap record) then Ok (g, false)
    else
      s ← idx (byIP g !! ip);
      if After deadline (s_priority s) then
        Ok (with_byIP g (<[ip := mkIPRecord (s_domains s) (s_bump s) (s_routing s) deadline]> (byIP g)), true)
      else Ok (g, false)
  else Ok (g, false).

Definition new_ipRecord : ipRecord :=
  mkIPRecord ∅ (replicate domainBitmapWords 0%Z) (replicate domainBitmapWords 0%Z) 0.

Definition addPair (r : nat) (ip : Addr) (pair_ : nat) (g : DomainRegistry) : res DomainRegistry :=
  let s := default new_ipRecord (byIP g !! ip) in
  record ← idx (records g !! r);
  retainUntil ← idx (pairs g !! pair_);
  let g := with_records g (<[r := mkRecord (r_bitmap record) (<[ip := pair_]> (r_addresses record))]> (records g)) in
  let g := with_byIP g (<[ip := mkIPRecord (<[r := pair_]> (s_domains s)) (s_bump s) (s_routing s) (s_priority s)]> (byIP g)) in
  Ok (trackDeadline retainUntil g).

Definition removePair (r : nat) (ip : Addr) (g : DomainRegistry) : res DomainRegistry :=
  record ← idx (records g !! r);
  let g := with_records g (<[r := mkRecord (r_bitmap record) (delete ip (r_addresses record))]> (records g)) in
  s ← idx (byIP g !! ip);
  let domains := delete r (s_domains s) in
  Ok (with_byIP g (if size domains =? 0 then delete ip (byIP g)
                   else <[ip := mkIPRecord domains (s_bump s) (s_routing s) (s_priority s)]> (byIP g))).

(** ** Verification *)

Record DomainVerification := mkVerification { Registered : bool; Paired : bool; KernelCovered : bool }.
Definition no_verification : DomainVerification := mkVerification false false false.

Definition summary (s : ipRecord) : domainBitmaps := mkBitmaps (s_bump s) (s_routing s).

Definition verifyLocked (name : string) (ip : Addr) (g : DomainRegistry) : res DomainVerification :=
  match byName g !! name with
  | None => Ok no_verification
  | Some r =>
    record ← idx (records g !! r);
    match r_addresses record !! ip with
    | Some _ =>
      match resident (kernel_ g) !! ip with
      | Some installed => s ← idx (byIP g !! ip); Ok (mkVerification true true (bitmaps_equal installed (summary s)))
      | None => Ok (mkVerification true true (domainBitmapAllZero (r_bitmap record)))
      end
    | None => Ok (mkVerification (existsb (fun e => Bool.eqb (Is4 e.1) (Is4 ip)) (map_to_list (r_addresses record))) false false)
    end
  end.
Definition Verify (name : string) (ip : Addr) (g : DomainRegistry) : res DomainVerification := verifyLocked name (Unmap ip) g.

Definition kernelRoutingBitmaps (ip : Addr) (g : DomainRegistry) : option domainBitmaps := resident (kernel_ g) !! Unmap ip.

(** ** Summaries *)

(** [acc[i] = op(acc[i], words[i])] for every word. *)
Fixpoint merge_words (op : Z -> Z -> Z) (acc words : list Z) : res (list Z) :=
  match words, acc with
  | [], _ => Ok acc
  | word :: words, a :: acc => rest ← merge_words op acc words; Ok (op a word :: rest)
  | _ :: _, [] => Panic
  end.

(** The bitmaps and deadlines of the names of an address. *)
Definition rebuild_member (g : DomainRegistry) (s : ipRecord) (e : nat * nat) : res ipRecord :=
  record ← idx (records g !! e.1);
  retainUntil ← idx (pairs g !! e.2);
  bump ← merge_words Z.lor (s_bump s) (r_bitmap record);
  routing ← merge_words Z.land (s_routing s) (r_bitmap record);
  Ok (mkIPRecord (s_domains s) bump routing
        (if negb (domainBitmapAllZero (r_bitmap record)) && After retainUntil (s_priority s) then retainUntil else s_priority s)).

(** Names, addresses and deadlines. *)
Abbreviation evidence := (gmap string (gmap Addr Time)).

Section Ops.
Context (update_error : domain_map -> bytes -> domainBitmaps -> option string).
Context (delete_error : domain_map -> bytes -> option string).
Context (batch_result : domain_map -> list (bytes * domainBitmaps) -> nat * option string).
Context (order : map_order).
Local Abbreviation range := (range order).
Local Abbreviation publish := (publish update_error delete_error batch_result order).

Definition rebuild (g : DomainRegistry) (s : ipRecord) : res ipRecord :=
  foldM (rebuild_member g)
    (mkIPRecord (s_domains s) (map (fun _ => 0%Z) (s_bump s)) (map (fun _ => (2 ^ 32 - 1)%Z) (s_routing s)) 0)
    (range (s_domains s)).

Definition rebuild_ip (g : DomainRegistry) (ip : Addr) : res DomainRegistry :=
  match byIP g !! ip with
  | None => Ok g
  | Some s => s ← rebuild g s; Ok (with_byIP g (<[ip := s]> (byIP g)))
  end.

(** ** The projection *)

Definition priority_of (g : DomainRegistry) (ip : Addr) : Time :=
  match byIP g !! ip with Some s => s_priority s | None => 0%Z end.

(** The later deadline first, then the smaller address. *)
Definition candidate_le (g : DomainRegistry) (a b : Addr) : bool :=
  if (priority_of g b <? priority_of g a)%Z then true
  else if (priority_of g a <? priority_of g b)%Z then false
  else match Addr_Compare a b with Gt => false | _ => true end.

Definition has_rules (s : ipRecord) : bool := negb (domainBitmapAllZero (s_bump s)).

Definition candidates (g : DomainRegistry) : list Addr :=
  map fst (filter (fun e => has_rules e.2) (range (byIP g))).

Definition select_residents (g : DomainRegistry) : list Addr :=
  let states := candidates g in
  let max := k_max (kernel_ g) in
  take max (if max <? length states then SortStable (candidate_le g) states else states).

(** The requests of [syncProjection], before publication. *)
Definition request_changed (g : DomainRegistry) (changed : gset Addr) (k : domainProjection) : domainProjection :=
  fold_left (fun k ip =>
    want ip (match byIP g !! ip with Some s => if has_rules s then Some (summary s) else None | None => None end) false k)
    (range_set order changed) k.

Definition request_selected (g : DomainRegistry) (changed : gset Addr) (k : domainProjection) : domainProjection :=
  let chosen : gset Addr := list_to_set (select_residents g) in
  let k := fold_left (fun k e => if bool_decide (e.1 ∈ chosen) then k else want e.1 None false k) (range (desired k)) k in
  fold_left (fun k ip =>
    if bool_decide (desired k !! ip = None) || bool_decide (ip ∈ changed) then want ip (summary <$> byIP g !! ip) false k else k)
    (range_set order chosen) k.

Definition syncProjection (changed : gset Addr) (reconsider : bool) (now : Time) (st : DomainRegistry * domain_map)
    : res (DomainRegistry * domain_map) :=
  let '(g, m) := st in
  g ← foldM rebuild_ip g (range_set order changed);
  let k := kernel_ g in
  let k := if negb reconsider && (size (desired k) + size changed <=? k_max k)
           then request_changed g changed k else request_selected g changed k in
  st ← publish now (k, m);
  Ok (with_kernel g st.1, st.2).

Definition rebuildProjection (now : Time) (st : DomainRegistry * domain_map) : res (DomainRegistry * domain_map * option string) :=
  let '(g, m) := st in
  let g := with_kernel g (with_force (kernel_ g) true) in
  st ← syncProjection (dom (byIP g)) true now (g, m);
  let g := with_kernel st.1 (with_force (kernel_ st.1) false) in
  Ok (g, st.2, k_err (kernel_ g)).

Definition retryProjection (now : Time) (st : DomainRegistry * domain_map) : res (DomainRegistry * domain_map) :=
  let '(g, m) := st in
  if closed g then Ok (g, m)
  else st ← publish now (kernel_ g, m); Ok (with_kernel g st.1, st.2).

(** ** Collection *)

Definition gc_pair (cutoff : Time) (r : nat) (st : DomainRegistry * gset Addr) (e : Addr * nat) : res (DomainRegistry * gset Addr) :=
  let '(g, changed) := st in
  deadline ← idx (pairs g !! e.2);
  if negb (After deadline cutoff) then
    g ← removePair r e.1 g;
    Ok (count_gc g, {[e.1]} ∪ changed)
  else Ok (trackDeadline deadline g, changed).

Definition gc_name (cutoff : Time) (st : DomainRegistry * gset Addr) (e : string * nat) : res (DomainRegistry * gset Addr) :=
  record ← idx (records st.1 !! e.2);
  st ← foldM (gc_pair cutoff e.2) st (range (r_addresses record));
  record ← idx (records st.1 !! e.2);
  Ok (if size (r_addresses record) =? 0 then with_byName st.1 (delete e.1 (byName st.1)) else st.1, st.2).

Definition gc (now : Time) (g : DomainRegistry) : res (DomainRegistry * gset Addr) :=
  let cutoff := (now - activityLag g)%Z in
  if IsZero (nextGC g) || Before cutoff (nextGC g) then Ok (g, ∅)
  else foldM (gc_name cutoff) (with_nextGC g 0, ∅) (range (byName g)).

(** ** Activity *)

Definition touch (key : domainActivityKey) (at_ : Time) (g : DomainRegistry) : res (DomainRegistry * bool) :=
  let '(ip, domain) := key in
  let deadline := (at_ + window g)%Z in
  if negb (String.eqb domain "") then
    match byName g !! domain with
    | None => Ok (g, false)
    | Some r =>
      record ← idx (records g !! r);
      match r_addresses record !! ip with
      | Some pair_ => extend r ip pair_ deadline g
      | None => Ok (g, false)
      end
    end
  else
    match byIP g !! ip with
    | None => Ok (g, false)
    | Some s =>
      foldM (fun '(g, reconsider) e => '(g, raised) ← extend e.1 ip e.2 deadline g; Ok (g, reconsider || raised)) (g, false) (range (s_domains s))
    end.

Definition not_resident (g : DomainRegistry) (ip : Addr) : bool :=
  match resident (kernel_ g) !! ip with Some _ => false | None => true end.

Definition apply_entry (st : DomainRegistry * bool) (e : domainActivityKey * Time) : res (DomainRegistry * bool) :=
  let '(g, reconsider) := st in
  '(g, raised) ← touch e.1 e.2 (clock e.2 g);
  Ok (g, reconsider || (raised && not_resident g e.1.1)).

Definition applyActivity (g : DomainRegistry) : res (DomainRegistry * bool) :=
  '(g, reconsider) ← foldM (fun st batch => foldM apply_entry st (range batch)) (g, false) (activityBatch g);
  Ok (with_batch g (map (fun _ => ∅) (activityBatch g)), reconsider).

Definition drainActivity (g : DomainRegistry) (a : domainActivity) : res (DomainRegistry * domainActivity * bool) :=
  if negb (bool_decide (a_registry a = Some (g_id g))) then Ok (g, a, false)
  else
    let a' := mkActivity (a_registry a) (activityBatch g) in
    '(g, reconsider) ← applyActivity (with_batch g (a_pending a));
    Ok (g, a', reconsider).

Definition enqueueShard (key : domainActivityKey) (shard : nat) (at_ : Time) (a : domainActivity) : domainActivity :=
  match a_registry a with
  | None => a
  | Some _ =>
    mkActivity (a_registry a)
      (alter (fun pending => if After at_ (default 0%Z (pending !! key)) then <[key := at_]> pending else pending) shard (a_pending a))
  end.

(** ** Entry points *)

Definition state : Type := DomainRegistry * domainActivity * domain_map.

Definition sync_after (collected : DomainRegistry * gset Addr) (a : domainActivity) (m : domain_map) (reconsider : bool) (now : Time) : res state :=
  st ← syncProjection collected.2 reconsider now (collected.1, m);
  Ok (st.1, a, st.2).

Definition flushActivity (st : state) : res state :=
  let '(g, a, m) := st in
  if closed g then Ok st
  else
    '(g, a, reconsider) ← drainActivity g a;
    collected ← gc (evaluatedAt g) g;
    sync_after collected a m reconsider (evaluatedAt g).

Definition Sweep (now : Time) (st : state) : res state :=
  let '(g, a, m) := st in
  if closed g then Ok st
  else
    '(g, a, reconsider) ← drainActivity g a;
    let g := clock now g in
    collected ← gc (evaluatedAt g) g;
    sync_after collected a m reconsider (evaluatedAt g).

Record domainObservation := mkObservation { o_name : string; o_ips : list Addr; o_bitmap : list Z; o_ttl : Z }.

(** One address of an observation. *)
Definition observe_ip (o : domainObservation) (deadline : Time) (st : DomainRegistry * gset Addr * bool) (ip : Addr)
    : res (DomainRegistry * gset Addr * bool) :=
  let '(g, changed, reconsider) := st in
  let ip := Unmap ip in
  let '(r, g) :=
    match byName g !! o_name o with
    | Some r => (r, g)
    | None =>
      let r := next_ref g in
      (r, with_byName (with_heap g (<[r := mkRecord (o_bitmap o) ∅]> (records g)) (pairs g) (S r)) (<[o_name o := r]> (byName g)))
    end in
  record ← idx (records g !! r);
  match r_addresses record !! ip with
  | Some pair_ =>
    '(g, raised) ← extend r ip pair_ deadline g;
    Ok (g, changed, reconsider || (raised && not_resident g ip))
  | None =>
    let pair_ := next_ref g in
    g ← addPair r ip pair_ (with_heap g (records g) (<[pair_ := deadline]> (pairs g)) (S pair_));
    Ok (count_change g, {[ip]} ∪ changed, reconsider)
  end.

Definition observe (at_ now : Time) (st : DomainRegistry * gset Addr * bool) (o : domainObservation) : res (DomainRegistry * gset Addr * bool) :=
  let deadline := (at_ + Z.max (o_ttl o * time_Second) (window st.1.1))%Z in
  if negb (After deadline now) then Ok st else foldM (observe_ip o deadline) st (o_ips o).

Definition ObserveDNS (observations : list domainObservation) (at_ : Time) (st : state) : res state :=
  let '(g, a, m) := st in
  if closed g then Ok st
  else
    '(g, a, reconsider) ← drainActivity g a;
    let g := clock at_ g in
    let now := evaluatedAt g in
    '(g, changed) ← gc now g;
    '(g, changed, reconsider) ← foldM (observe at_ now) (g, changed, reconsider) observations;
    sync_after (g, changed) a m reconsider now.

(** [Close], without the worker and the file. *)
Definition Close (st : state) : res state :=
  let '(g, a, m) := st in
  if closed g then Ok st
  else
    let g := with_closed g in
    let '(g, a) :=
      if bool_decide (a_registry a = Some (g_id g)) then (with_batch g (a_pending a), mkActivity None (activityBatch g)) else (g, a) in
    '(g, reconsider) ← applyActivity g;
    collected ← gc (evaluatedAt g) g;
    sync_after collected a m reconsider (evaluatedAt g).

(** ** Usage *)

Record RegistryUsage := mkUsage {
  UserUsed : nat; Domains : nat; IPs : nat; IPv4 : nat; IPv6 : nat; GC : Z;
  KernelUsed : nat; KernelMax : nat; KernelCandidates : nat; KernelPending : nat;
}.

Definition count_addresses (g : DomainRegistry) (used : nat) (e : string * nat) : res nat :=
  record ← idx (records g !! e.2); Ok (used + size (r_addresses record)).

Definition Usage (g : DomainRegistry) : res RegistryUsage :=
  used ← foldM (count_addresses g) 0 (range (byName g));
  let ips := range (byIP g) in
  Ok (mkUsage used (size (byName g)) (size (byIP g))
        (length (filter (fun e => Is4 e.1 = true) ips)) (length (filter (fun e => Is4 e.1 = false) ips)) (gcCount g)
        (size (resident (kernel_ g))) (k_max (kernel_ g))
        (length (filter (fun e => has_rules e.2 = true) ips)) (size (pending (kernel_ g)))).

(** ** Restoring and forking *)

(** [installRecords], with the allocation of the supplied records and pairs. *)
Definition install_pair (r : nat) (g : DomainRegistry) (e : Addr * Time) : res DomainRegistry :=
  let pair_ := next_ref g in
  addPair r e.1 pair_ (with_heap g (records g) (<[pair_ := e.2]> (pairs g)) (S pair_)).

Definition install_record (matchBitmap : string -> list Z) (g : DomainRegistry) (e : string * gmap Addr Time) : res DomainRegistry :=
  let r := next_ref g in
  let g := with_heap g (<[r := mkRecord (matchBitmap e.1) ∅]> (records g)) (pairs g) (S r) in
  g ← foldM (install_pair r) g (range e.2);
  Ok (with_byName g (<[e.1 := r]> (byName g))).

Definition installRecords (entries : evidence) (matchBitmap : string -> list Z) (g : DomainRegistry) : res DomainRegistry :=
  foldM (install_record matchBitmap) g (range entries).

(** [Restore] from the decoded snapshot; expired pairs are dropped before they are
    indexed. *)
Definition live_part (cutoff : Time) (entries : evidence) : evidence :=
  filter (fun e => e.2 ≠ ∅) (fmap (M := gmap string) (filter (fun e : Addr * Time => After e.2 cutoff = true)) entries).

Definition expired_count (cutoff : Time) (entries : evidence) : nat :=
  sum_list (map (fun e => size (filter (fun e : Addr * Time => After e.2 cutoff = false) e.2)) (map_to_list entries)).

Definition Restore_entries (entries : evidence) (matchBitmap : string -> list Z) (now : Time) (st : DomainRegistry * domain_map)
    : res (DomainRegistry * domain_map) :=
  let '(g, m) := st in
  let g := clock now g in
  let now := evaluatedAt g in
  let cutoff := (now - activityLag g)%Z in
  let dropped := Z.of_nat (expired_count cutoff entries) in
  let g := with_counts g (wrap 64 (gcCount g + dropped)) (wrap 64 (generation g + dropped)) in
  g ← installRecords (live_part cutoff entries) matchBitmap g;
  '(g, m, err) ← rebuildProjection now (g, m);
  match err with
  | Some e => Err e
  | None => Ok (count_change g, m)
  end.

(** The checks of [Restore] on the decoded file; names are checked by the DNS library. *)
Section Decode.
Context (is_domain_name : string -> bool) (canonical_name : string -> string).

Definition IsUnspecified (ip : Addr) : bool :=
  bool_decide (ip = AddrV4 (replicate 4 0%Z)) || bool_decide (ip = AddrV6 (replicate 16 0%Z)).

Definition restore_pair (addresses : gmap Addr Time) (e : bytes * Time) : res (gmap Addr Time) :=
  match ParseAddr e.1 with
  | None => Err "invalid domain registry address"
  | Some (ip, zone) =>
    if IsUnspecified ip || negb (bool_decide (zone = [])) || negb (bool_decide (ip = Unmap ip)) || IsZero e.2 then Err "invalid domain registry address"
    else
      match addresses !! ip with
      | Some _ => Err "duplicate domain registry address"
      | None => Ok (<[ip := e.2]> addresses)
      end
  end.

Definition restore_entry (records : evidence) (e : string * gmap bytes Time) : res evidence :=
  if negb (is_domain_name e.1) || negb (String.eqb e.1 (canonical_name e.1)) || (size e.2 =? 0) then Err "invalid domain registry entry"
  else
    addresses ← foldM restore_pair ∅ (range e.2);
    Ok (<[e.1 := addresses]> records).

Definition restore_records (entries : gmap string (gmap bytes Time)) : res evidence := foldM restore_entry ∅ (range entries).

(** [Restore] of a file that was read; [None] is a JSON null. *)
Definition Restore (decoded : option (gmap string (gmap bytes Time))) (matchBitmap : string -> list Z) (now : Time) (st : DomainRegistry * domain_map)
    : res (DomainRegistry * domain_map) :=
  match decoded with
  | None => Err "domain registry snapshot must be an object"
  | Some entries => records ← restore_records entries; Restore_entries records matchBitmap now st
  end.
End Decode.

(** The copies of the records of [ForkFrom]. *)
Definition copy_pair (g : DomainRegistry) (addresses : gmap Addr Time) (e : Addr * nat) : res (gmap Addr Time) :=
  retainUntil ← idx (pairs g !! e.2); Ok (<[e.1 := retainUntil]> addresses).
Definition copy_record (g : DomainRegistry) (entries : evidence) (e : string * nat) : res evidence :=
  record ← idx (records g !! e.2);
  addresses ← foldM (copy_pair g) ∅ (range (r_addresses record));
  Ok (<[e.1 := addresses]> entries).
Definition copy_records (g : DomainRegistry) : res evidence := foldM (copy_record g) ∅ (range (byName g)).

Definition enqueue_all (events : list (domainActivityKey * nat * Time)) (a : domainActivity) : domainActivity :=
  fold_left (fun a e => enqueueShard e.1.1 e.1.2 e.2 a) events a.

(** The copied evidence and the queued activity [pending] in the new registry; [at_] is
    the clock of the old one. *)
Definition adopt (matchBitmap : string -> list Z) (entries : evidence) (at_ now : Time) (pending : domainActivityBatch) (g : DomainRegistry) : res DomainRegistry :=
  g ← installRecords entries matchBitmap g;
  let g := clock at_ g in
  let g := with_batch g (zip_with (fun own queued => queued ∪ own) (activityBatch g) pending) in
  '(g, _) ← applyActivity g;
  let g := clock now g in
  '(g, _) ← gc (evaluatedAt g) g;
  Ok g.

(** [ForkFrom] up to the publication: the old registry and its map, and the new registry.
    [arrived] is what connections enqueue after the old registry has drained. *)
Definition fork_evidence (matchBitmap : string -> list Z) (now : Time) (arrived : list (domainActivityKey * nat * Time)) (old : state) (g : DomainRegistry)
    : res (state * DomainRegistry) :=
  let '(old, a, m) := old in
  '(old, a, reconsider) ← drainActivity old a;
  collected ← gc (evaluatedAt old) old;
  '(old, a, m) ← sync_after collected a m reconsider (evaluatedAt old);
  entries ← copy_records old;
  let a := enqueue_all arrived a in
  g ← adopt matchBitmap entries (evaluatedAt old) now (a_pending a) (with_counts g (gcCount old) (generation g));
  Ok (old, a, m, g).

(** [ForkFrom]: with a map failure the queue stays with the old registry. [late] is what
    connections enqueue during the publication. *)
Definition ForkFrom (matchBitmap : string -> list Z) (now : Time) (arrived late : list (domainActivityKey * nat * Time)) (old : state)
    (new : DomainRegistry * domain_map) : res (state * (DomainRegistry * domain_map) * option string) :=
  '(old, a, m, g) ← fork_evidence matchBitmap now arrived old new.1;
  '(g, m', err) ← rebuildProjection (evaluatedAt g) (g, new.2);
  let a := enqueue_all late a in
  match err with
  | Some e => Ok (old, a, m, (g, m'), Some e)
  | None => Ok (old, mkActivity (Some (g_id g)) (a_pending a), m, (count_change g, m'), None)
  end.
End Ops.
