(* ===== verification/DomainRegistryCorrect.v ===== *)
(** * Invariants of the registry of DNS evidence

    The two indexes share their pairs, every pair is found by its name and its address,
    and the summaries of the addresses are exact. What the registry stores is a partial
    function from names and addresses to deadlines; its operations are those of that
    function. *)

From S2P Require Import Prelude GoSlices Netip RoutingInstr RoutingEval DomainProjection DomainProjectionCorrect DomainRegistry.

(** ** Structure *)

(** The pair of a name and an address. *)
Definition pair_of (g : DomainRegistry) (name : string) (ip : Addr) : option nat :=
  r ← byName g !! name; record ← records g !! r; r_addresses record !! ip.
Definition deadline_of (g : DomainRegistry) (name : string) (ip : Addr) : option Time :=
  p ← pair_of g name ip; pairs g !! p.

Definition bitmap_ok (bm : list Z) : Prop := length bm = domainBitmapWords /\ Forall (fits 32) bm.

Record reg_ok (g : DomainRegistry) : Prop := {
  ro_names : forall n1 n2 r, byName g !! n1 = Some r -> byName g !! n2 = Some r -> n1 = n2;
  ro_record : forall n r, byName g !! n = Some r -> r < next_ref g /\ exists record, records g !! r = Some record /\ bitmap_ok (r_bitmap record);
  ro_forward : forall n r record ip p, byName g !! n = Some r -> records g !! r = Some record -> r_addresses record !! ip = Some p ->
    canonical ip /\ p < next_ref g /\ (exists t, pairs g !! p = Some t /\ (0 < t)%Z) /\ exists s, byIP g !! ip = Some s /\ s_domains s !! r = Some p;
  ro_backward : forall ip s r p, byIP g !! ip = Some s -> s_domains s !! r = Some p ->
    exists n record, byName g !! n = Some r /\ records g !! r = Some record /\ r_addresses record !! ip = Some p;
  ro_ip : forall ip s, byIP g !! ip = Some s -> s_domains s <> ∅ /\ bitmap_ok (s_bump s) /\ bitmap_ok (s_routing s);
  ro_unique : forall n ip n' ip' p, pair_of g n ip = Some p -> pair_of g n' ip' = Some p -> n = n' /\ ip = ip';
}.

Lemma pair_of_Some g n ip p : pair_of g n ip = Some p <->
  exists r record, byName g !! n = Some r /\ records g !! r = Some record /\ r_addresses record !! ip = Some p.
Proof.
  unfold pair_of. split.
  - destruct (byName g !! n) as [r|]; [|done]. cbn. destruct (records g !! r) as [record|] eqn:E; [|done]. cbn. eauto.
  - intros (r & record & -> & E & H). cbn. rewrite E. cbn. done.
Qed.

(** Every deadline is at or after the next collection. *)
Definition tracked (g : DomainRegistry) : Prop :=
  forall n ip t, deadline_of g n ip = Some t -> nextGC g <> 0%Z /\ (nextGC g <= t)%Z.

(** ** Summaries *)

Definition has_bit (bm : list Z) (i : nat) : bool := bitmap_has (Some bm) (Z.of_nat i).

(** The bitmap and the deadline of a name of an address. *)
Definition member (g : DomainRegistry) (s : ipRecord) (bm : list Z) (t : Time) : Prop :=
  exists r p, s_domains s !! r = Some p /\ r_bitmap <$> records g !! r = Some bm /\ pairs g !! p = Some t.

Record summary_ok (g : DomainRegistry) (s : ipRecord) : Prop := {
  su_bump : forall i, i < MaxMatchSetLen -> has_bit (s_bump s) i = true <-> exists bm t, member g s bm t /\ has_bit bm i = true;
  su_routing : forall i, i < MaxMatchSetLen -> has_bit (s_routing s) i = true <-> forall bm t, member g s bm t -> has_bit bm i = true;
  su_above : forall bm t, member g s bm t -> domainBitmapAllZero bm = false -> (t <= s_priority s)%Z;
  su_reached : s_priority s = 0%Z \/ exists bm, member g s bm (s_priority s) /\ domainBitmapAllZero bm = false;
}.

Lemma summary_ext g g' s : (forall bm t, member g' s bm t <-> member g s bm t) -> summary_ok g s -> summary_ok g' s.
Proof.
  intros Hm [S1 S2 S3 S4]. split.
  - intros i Hi. rewrite S1 by done. by setoid_rewrite Hm.
  - intros i Hi. rewrite S2 by done. by setoid_rewrite Hm.
  - intros bm t. rewrite Hm. apply S3.
  - destruct S4 as [?|(bm & ? & ?)]; [by left|right]. exists bm. by rewrite Hm.
Qed.

(** The summaries of the addresses outside [changed] are exact. *)
Definition summaries (g : DomainRegistry) (changed : gset Addr) : Prop :=
  forall ip s, byIP g !! ip = Some s -> ip ∉ changed -> summary_ok g s.

(** ** Operations that keep the structure *)

(** Same names, addresses and bitmaps; deadlines and priorities may differ. *)
Record same_shape (g g' : DomainRegistry) : Prop := {
  ss_names : byName g' = byName g;
  ss_records : records g' = records g;
  ss_next : next_ref g' = next_ref g;
  ss_ips : forall ip, (fun s => (s_domains s, s_bump s, s_routing s)) <$> byIP g' !! ip = (fun s => (s_domains s, s_bump s, s_routing s)) <$> byIP g !! ip;
  ss_kernel : kernel_ g' = kernel_ g;
  ss_window : window g' = window g /\ activityLag g' = activityLag g;
  ss_id : g_id g' = g_id g /\ closed g' = closed g;
}.

Lemma same_shape_refl g : same_shape g g.
Proof. by split. Qed.
Lemma same_shape_trans g1 g2 g3 : same_shape g1 g2 -> same_shape g2 g3 -> same_shape g1 g3.
Proof.
  intros [A1 A2 A3 A4 A5 [A6 A7] [A8 A9]] [B1 B2 B3 B4 B5 [B6 B7] [B8 B9]]. split; [congruence..|intros ip; by rewrite B4|congruence|split; congruence|split; congruence].
Qed.

Lemma same_shape_ip g g' ip s' : same_shape g g' -> byIP g' !! ip = Some s' ->
  exists s, byIP g !! ip = Some s /\ s_domains s' = s_domains s /\ s_bump s' = s_bump s /\ s_routing s' = s_routing s.
Proof. intros H E. pose proof (ss_ips _ _ H ip) as Hi. rewrite E in Hi. destruct (byIP g !! ip) as [s|]; [|done]. injection Hi as ? ? ?. by exists s. Qed.

Lemma same_shape_sym_ip g g' ip s : same_shape g g' -> byIP g !! ip = Some s ->
  exists s', byIP g' !! ip = Some s' /\ s_domains s' = s_domains s /\ s_bump s' = s_bump s /\ s_routing s' = s_routing s.
Proof. intros H E. pose proof (ss_ips _ _ H ip) as Hi. rewrite E in Hi. destruct (byIP g' !! ip) as [s'|]; [|done]. injection Hi as ? ? ?. by exists s'. Qed.

Lemma same_shape_pair g g' n ip : same_shape g g' -> pair_of g' n ip = pair_of g n ip.
Proof. intros H. unfold pair_of. by rewrite (ss_names _ _ H), (ss_records _ _ H). Qed.

(** Later deadlines on the same pairs. *)
Definition later (g g' : DomainRegistry) : Prop := forall p t, pairs g !! p = Some t -> exists t', pairs g' !! p = Some t' /\ (t <= t')%Z.

Lemma later_refl g : later g g.
Proof. intros p t H. by exists t. Qed.
Lemma later_trans g1 g2 g3 : later g1 g2 -> later g2 g3 -> later g1 g3.
Proof. intros H1 H2 p t H. destruct (H1 _ _ H) as (t1 & E1 & ?). destruct (H2 _ _ E1) as (t2 & E2 & ?). exists t2. split; [done|lia]. Qed.

Lemma reg_ok_shape g g' : same_shape g g' -> later g g' -> reg_ok g -> reg_ok g'.
Proof.
  intros S L [H1 H2 H3 H4 H5 H6]. pose proof (ss_names _ _ S) as En. pose proof (ss_records _ _ S) as Er. pose proof (ss_next _ _ S) as Ex. split.
  - intros n1 n2 r. rewrite En. apply H1.
  - intros n r. rewrite En, Er, Ex. apply H2.
  - intros n r record ip p. rewrite En, Er, Ex. intros A B C. destruct (H3 _ _ _ _ _ A B C) as (Hc & Hp & (t & Ht & Hpos) & s & Hs & Hd).
    split; [done|]. split; [done|]. destruct (L _ _ Ht) as (t' & Ht' & Hle). split; [exists t'; split; [done|lia]|].
    destruct (same_shape_sym_ip _ _ _ _ S Hs) as (s' & Hs' & Hd' & _). exists s'. by rewrite Hd'.
  - intros ip s' r p Hs'. destruct (same_shape_ip _ _ _ _ S Hs') as (s & Hs & -> & _). rewrite En, Er. apply (H4 _ _ _ _ Hs).
  - intros ip s' Hs'. destruct (same_shape_ip _ _ _ _ S Hs') as (s & Hs & -> & -> & ->). by apply (H5 _ _ Hs).
  - intros n ip n' ip' p. rewrite !(same_shape_pair _ _ _ _ S). apply H6.
Qed.

(** ** Extending a pair *)

(** A pair belongs to one address and one record. *)
Lemma domains_unique g ip s r p ip' s' r' : reg_ok g -> byIP g !! ip = Some s -> s_domains s !! r = Some p ->
  byIP g !! ip' = Some s' -> s_domains s' !! r' = Some p -> ip = ip' /\ r = r'.
Proof.
  intros H Hs Hr Hs' Hr'. destruct (ro_backward _ H _ _ _ _ Hs Hr) as (n & rec & A & B & C). destruct (ro_backward _ H _ _ _ _ Hs' Hr') as (n' & rec' & A' & B' & C').
  destruct (ro_unique _ H n ip n' ip' p) as [-> ->]; [apply pair_of_Some; eauto..|]. split; congruence.
Qed.

Section Extend.
Context (g : DomainRegistry) (Hok : reg_ok g) (n : string) (r : nat) (record : domainRecord) (ip : Addr) (p : nat) (d : Time).
Context (Hn : byName g !! n = Some r) (Hr : records g !! r = Some record) (Hp : r_addresses record !! ip = Some p).

(** Raising the pair of one address does not disturb another address. *)
Lemma other_summary g' ip' s : pairs g' = alter (Z.max d) p (pairs g) -> records g' = records g ->
  byIP g !! ip' = Some s -> ip' <> ip -> summary_ok g s -> summary_ok g' s.
Proof.
  intros Ep Er Hs Hne. destruct (ro_forward _ Hok _ _ _ _ _ Hn Hr Hp) as (_ & _ & _ & s0 & Hs0 & Hd0). apply summary_ext.
  intros bm t. unfold member. rewrite Er, Ep. split; intros (r1 & p1 & A & B & C); exists r1, p1; (split; [done|]; split; [done|]).
  - rewrite lookup_alter_ne in C; [done|]. intros <-. by destruct (domains_unique _ _ _ _ _ _ _ _ Hok Hs A Hs0 Hd0).
  - rewrite lookup_alter_ne; [done|]. intros <-. by destruct (domains_unique _ _ _ _ _ _ _ _ Hok Hs A Hs0 Hd0).
Qed.

Context (t : Time) (Ht : pairs g !! p = Some t) (Hlt : (t < d)%Z).

Lemma own_summary g' s q : pairs g' = <[p := d]> (pairs g) -> records g' = records g -> byIP g !! ip = Some s -> summary_ok g s ->
  q = (if domainBitmapAllZero (r_bitmap record) then s_priority s else Z.max (s_priority s) d) ->
  summary_ok g' (mkIPRecord (s_domains s) (s_bump s) (s_routing s) q).
Proof.
  intros Ep Er Hs [S1 S2 S3 S4] Hq. destruct (ro_forward _ Hok _ _ _ _ _ Hn Hr Hp) as (_ & _ & _ & s0 & Hs0 & Hd0). rewrite Hs in Hs0. injection Hs0 as <-.
  set (s' := mkIPRecord _ _ _ _). assert (Hmem' : member g' s' (r_bitmap record) d) by (exists r, p; by rewrite Er, Hr, Ep, lookup_insert_eq).
  assert (Hold : forall bm t1, member g s bm t1 -> (bm = r_bitmap record /\ t1 = t) \/ member g' s' bm t1).
  { intros bm t1 (r1 & p1 & A & B & C). destruct (decide (p1 = p)) as [->|Hne].
    - destruct (domains_unique _ _ _ _ _ _ _ _ Hok Hs A Hs Hd0) as [_ ->]. left. rewrite Hr in B. cbn in B. split; congruence.
    - right. exists r1, p1. by rewrite Er, Ep, lookup_insert_ne. }
  assert (Hnew : forall bm t1, member g' s' bm t1 -> (bm = r_bitmap record /\ t1 = d) \/ member g s bm t1).
  { intros bm t1 (r1 & p1 & A & B & C). rewrite Er in B. rewrite Ep in C. destruct (decide (p1 = p)) as [->|Hne].
    - destruct (domains_unique _ _ _ _ _ _ _ _ Hok Hs A Hs Hd0) as [_ ->]. rewrite lookup_insert_eq in C. rewrite Hr in B. cbn in B. left. split; congruence.
    - rewrite lookup_insert_ne in C by done. right. by exists r1, p1. }
  assert (Hmem : member g s (r_bitmap record) t) by (exists r, p; by rewrite Hr).
  split; cbn [s' s_bump s_routing s_priority].
  - intros i Hi. rewrite S1 by done. split; intros (bm & t1 & A & B).
    + destruct (Hold _ _ A) as [[-> _]|A']; eauto.
    + destruct (Hnew _ _ A) as [[-> _]|A']; eauto.
  - intros i Hi. rewrite S2 by done. split; intros A bm t1 B.
    + destruct (Hnew _ _ B) as [[-> _]|B']; eauto.
    + destruct (Hold _ _ B) as [[-> _]|B']; eauto.
  - intros bm t1 A Hz. destruct (Hnew _ _ A) as [[-> ->]|A'].
    + rewrite Hz in Hq. lia.
    + specialize (S3 _ _ A' Hz). destruct (domainBitmapAllZero (r_bitmap record)); lia.
  - destruct (domainBitmapAllZero (r_bitmap record)) eqn:Ez; subst q.
    + destruct S4 as [?|(bm & A & B)]; [by left|right]. exists bm. split; [|done]. destruct (Hold _ _ A) as [[-> _]|A']; [congruence|done].
    + right. destruct (decide (s_priority s < d)%Z) as [Hge|Hge].
      * rewrite Z.max_r by lia. by exists (r_bitmap record).
      * rewrite Z.max_l by lia. destruct S4 as [E0|(bm & A & B)].
        { specialize (S3 _ _ Hmem Ez). destruct (ro_forward _ Hok _ _ _ _ _ Hn Hr Hp) as (_ & _ & (t2 & Ht2 & Hpos) & _). rewrite Ht in Ht2. injection Ht2 as <-. lia. }
        exists bm. split; [|done]. destruct (Hold _ _ A) as [[-> E]|A']; [|done]. rewrite E in Hge. lia.
Qed.
End Extend.

(** What [extend] does, on a linked pair. *)
Record extended (g g' : DomainRegistry) (p : nat) (d : Time) : Prop := {
  ex_shape : same_shape g g';
  ex_pairs : pairs g' = alter (Z.max d) p (pairs g);
  ex_tracked : tracked g -> tracked g';
  ex_summaries : forall changed, summaries g changed -> summaries g' changed;
  ex_rest : evaluatedAt g' = evaluatedAt g /\ activityBatch g' = activityBatch g;
}.

Lemma alter_later g g' p d : pairs g' = alter (Z.max d) p (pairs g) -> later g g'.
Proof.
  intros E p' t Ht. rewrite E. destruct (decide (p' = p)) as [->|Hne]; [rewrite lookup_alter_eq, Ht|rewrite lookup_alter_ne, Ht by done]; cbn; eexists; split; eauto; lia.
Qed.

Lemma extended_deadline g g' n ip p d : reg_ok g -> pair_of g n ip = Some p -> extended g g' p d -> forall n' ip',
  deadline_of g' n' ip' = if bool_decide (n' = n /\ ip' = ip) then Z.max d <$> deadline_of g n ip else deadline_of g n' ip'.
Proof.
  intros H Hp [S E _ _ _] n' ip'. unfold deadline_of. rewrite (same_shape_pair _ _ _ _ S), E. case_bool_decide as Hb.
  - destruct Hb as [-> ->]. rewrite Hp. cbn. by rewrite lookup_alter_eq.
  - destruct (pair_of g n' ip') as [p'|] eqn:E'; [|done]. cbn. rewrite lookup_alter_ne; [done|]. intros <-.
    apply Hb. by eapply ro_unique.
Qed.

Lemma extend_ok g n r record ip p d : reg_ok g -> byName g !! n = Some r -> records g !! r = Some record -> r_addresses record !! ip = Some p ->
  exists g' b, extend r ip p d g = Ok (g', b) /\ extended g g' p d.
Proof.
  intros H Hn Hr Hp. destruct (ro_forward _ H _ _ _ _ _ Hn Hr Hp) as (_ & _ & (t & Ht & Hpos) & s & Hs & Hd). unfold extend. rewrite Ht. cbn [idx mbind res_bind].
  unfold After. destruct (Z.ltb_spec t d) as [Hlt|Hge].
  2: { exists g, false. split; [done|]. split; try done. symmetry. apply map_eq. intros p'. destruct (decide (p' = p)) as [->|Hne].
       - rewrite lookup_alter_eq, Ht. cbn. f_equal. lia.
       - by rewrite lookup_alter_ne. }
  set (g1 := count_change _). assert (Ep : pairs g1 = <[p := d]> (pairs g)) by (unfold g1, trackDeadline; by destruct (_ || _)).
  assert (Ea : <[p := d]> (pairs g) = alter (Z.max d) p (pairs g)).
  { apply map_eq. intros p'. destruct (decide (p' = p)) as [->|Hne]; [rewrite lookup_insert_eq, lookup_alter_eq, Ht; cbn; f_equal; lia|].
    by rewrite lookup_insert_ne, lookup_alter_ne. }
  assert (Eg : same_shape g g1 /\ byIP g1 = byIP g /\ evaluatedAt g1 = evaluatedAt g /\ activityBatch g1 = activityBatch g /\
    (tracked g -> forall g', same_shape g g' -> pairs g' = pairs g1 -> nextGC g' = nextGC g1 -> tracked g')).
  { assert (Hsh : same_shape g g1) by (unfold g1, trackDeadline; destruct (_ || _); by split).
    split; [done|]. do 3 (split; [unfold g1, trackDeadline; by destruct (_ || _)|]).
    intros Htr g' Sg Epg Eng n' ip' t'. assert (Hg1 : nextGC g1 = nextGC g).
    { destruct (Htr n ip t) as [Hz Hle]; [unfold deadline_of; rewrite (proj2 (pair_of_Some g n ip p)); eauto|].
      unfold g1, trackDeadline, IsZero, Before. cbn. destruct (Z.eqb_spec (nextGC g) 0); [done|]. cbn. destruct (Z.ltb_spec d (nextGC g)); [lia|done]. }
    unfold deadline_of. rewrite (same_shape_pair _ _ _ _ Sg), Epg, Eng, Ep, Hg1. destruct (pair_of g n' ip') as [p'|] eqn:E'; [|done]. cbn.
    destruct (decide (p' = p)) as [->|Hne].
    - rewrite lookup_insert_eq. intros [= <-]. destruct (Htr n' ip' t) as [? ?]; [unfold deadline_of; by rewrite E'|]. split; [done|lia].
    - rewrite lookup_insert_ne by done. intros Ht'. apply (Htr n' ip'). unfold deadline_of. by rewrite E'. }
  destruct Eg as (Sg & Ei & Ev & Eb & Etr). assert (Er : records g1 = records g) by apply Sg.
  assert (Hout : forall g' q, byIP g' = <[ip := mkIPRecord (s_domains s) (s_bump s) (s_routing s) q]> (byIP g) -> pairs g' = pairs g1 -> records g' = records g ->
    q = (if domainBitmapAllZero (r_bitmap record) then s_priority s else Z.max (s_priority s) d) -> forall changed, summaries g changed -> summaries g' changed).
  { intros g' q Eig Epg Erg Hq changed Hsum ip' s'. rewrite Eig. destruct (decide (ip' = ip)) as [->|Hne].
    - rewrite lookup_insert_eq. intros [= <-] Hc. eapply own_summary; eauto; congruence.
    - rewrite lookup_insert_ne by done. intros Hs' Hc. eapply (other_summary g H n r record ip p d Hn Hr Hp g' ip'); eauto; congruence. }
  rewrite Er, Hr. cbn [idx mbind res_bind]. destruct (domainBitmapAllZero (r_bitmap record)) eqn:Ez.
  { exists g1, false. split; [done|]. split; [done|by rewrite Ep, Ea| | |done].
    - intros Htr. by apply Etr.
    - apply (Hout g1 (s_priority s)); try done. rewrite Ei. symmetry. apply insert_id. rewrite Hs. by destruct s. }
  rewrite Ei, Hs. cbn [idx mbind res_bind]. destruct (Z.ltb_spec (s_priority s) d) as [Hpr|Hpr].
  - eexists _, true. split; [reflexivity|]. split; [|by rewrite <-Ea, <-Ep| | |done].
    + destruct Sg as [A1 A2 A3 A4 A5 A6 A7]. split; try done. intros ip'. cbn. destruct (decide (ip' = ip)) as [->|Hne]; [by rewrite lookup_insert_eq, Hs|by rewrite lookup_insert_ne].
    + intros Htr. apply Etr; try done. destruct Sg as [A1 A2 A3 A4 A5 A6 A7]. split; try done.
      intros ip'. cbn. destruct (decide (ip' = ip)) as [->|Hne]; [by rewrite lookup_insert_eq, Hs|by rewrite lookup_insert_ne].
    + apply (Hout _ d); try done. cbn. lia.
  - exists g1, false. split; [done|]. split; [done|by rewrite Ep, Ea| | |done].
    + intros Htr. by apply Etr.
    + apply (Hout g1 (s_priority s)); try done; [|lia]. rewrite Ei. symmetry. apply insert_id. rewrite Hs. by destruct s.
Qed.

(** ** Activity *)

(** Whether observed traffic concerns a pair, and the deadline it leaves. *)
Definition relevant (n : string) (ip : Addr) (e : domainActivityKey * Time) : bool :=
  bool_decide (e.1.1 = ip) && (bool_decide (e.1.2 = n) || bool_decide (e.1.2 = ""%string)).
Definition refresh (w : Z) (n : string) (ip : Addr) (es : list (domainActivityKey * Time)) (t : Time) : Time :=
  fold_left (fun t e => if relevant n ip e then Z.max (e.2 + w) t else t) es t.

(** The state after deadlines were raised by [f]. *)
Record raised (f : string -> Addr -> Time -> Time) (g g' : DomainRegistry) : Prop := {
  ra_shape : same_shape g g';
  ra_later : later g g';
  ra_deadlines : forall n ip, deadline_of g' n ip = f n ip <$> deadline_of g n ip;
  ra_tracked : tracked g -> tracked g';
  ra_summaries : forall changed, summaries g changed -> summaries g' changed;
}.

Lemma raised_refl g : raised (fun _ _ t => t) g g.
Proof. split; [apply same_shape_refl|apply later_refl| |done|done]. intros n ip. by destruct (deadline_of g n ip). Qed.

Lemma raised_trans f1 f2 g1 g2 g3 : raised f1 g1 g2 -> raised f2 g2 g3 -> raised (fun n ip t => f2 n ip (f1 n ip t)) g1 g3.
Proof.
  intros [A1 A2 A3 A4 A5] [B1 B2 B3 B4 B5]. split; [by eapply same_shape_trans|by eapply later_trans| |auto|auto].
  intros n ip. rewrite B3, A3. by destruct (deadline_of g1 n ip).
Qed.

Lemma raised_ext f f' g g' : (forall n ip t, deadline_of g n ip = Some t -> f n ip t = f' n ip t) -> raised f g g' -> raised f' g g'.
Proof. intros H [A1 A2 A3 A4 A5]. split; try done. intros n ip. rewrite A3. destruct (deadline_of g n ip) eqn:E; cbn; [by rewrite (H _ _ _ E)|done]. Qed.

Lemma raised_reg_ok f g g' : raised f g g' -> reg_ok g -> reg_ok g'.
Proof. intros H. apply reg_ok_shape; apply H. Qed.

(** Fields outside the evidence. *)
Lemma raised_same f g g' g'' : raised f g g' -> same_shape g' g'' -> pairs g'' = pairs g' -> byIP g'' = byIP g' -> nextGC g'' = nextGC g' -> raised f g g''.
Proof.
  intros [A1 A2 A3 A4 A5] S Ep Ei En. assert (Hd : forall n ip, deadline_of g'' n ip = deadline_of g' n ip).
  { intros n ip. unfold deadline_of. by rewrite (same_shape_pair _ _ _ _ S), Ep. }
  split.
  - by eapply same_shape_trans.
  - intros p t Ht. destruct (A2 _ _ Ht) as (t' & ? & ?). exists t'. by rewrite Ep.
  - intros n ip. by rewrite Hd.
  - intros Htr n ip t. rewrite Hd, En. by apply A4.
  - intros changed Hs ip s. rewrite Ei. intros Hi Hc. eapply summary_ext, (A5 _ Hs _ _ Hi Hc). intros; unfold member; by rewrite Ep, (ss_records _ _ S).
Qed.

Lemma clock_raised t g : raised (fun _ _ t => t) g (clock t g).
Proof. apply (raised_same _ g g); [apply raised_refl|..]; unfold clock; destruct (After _ _); try done; apply same_shape_refl. Qed.

Lemma extended_raised g g' n ip p d : reg_ok g -> pair_of g n ip = Some p -> extended g g' p d ->
  raised (fun n' ip' t => if bool_decide (n' = n /\ ip' = ip) then Z.max d t else t) g g'.
Proof.
  intros H Hp He. split; [apply He|by eapply alter_later, He| |apply He|apply He].
  intros n' ip'. rewrite (extended_deadline _ _ _ _ _ _ H Hp He). case_bool_decide as E; [by destruct E as [-> ->]|]. by destruct (deadline_of g n' ip').
Qed.

Section Activity.
Context (order : map_order).

Lemma touch_ip_ok d ip s g : reg_ok g -> byIP g !! ip = Some s ->
  exists g' b, foldM (fun '(g, reconsider) e => '(g, raised) ← extend e.1 ip e.2 d g; Ok (g, reconsider || raised)) (g, false) (range order (s_domains s)) = Ok (g', b) /\
    raised (fun _ ip' t => if bool_decide (ip' = ip) then Z.max d t else t) g g' /\ evaluatedAt g' = evaluatedAt g /\ activityBatch g' = activityBatch g.
Proof.
  intros H Hs.
  destruct (foldM_run (fun '(g, reconsider) e => '(g, raised) ← extend e.1 ip e.2 d g; Ok (g, reconsider || raised))
    (fun rest st => NoDup (rest.*1) /\ (forall r p, (r, p) ∈ rest -> s_domains s !! r = Some p) /\ evaluatedAt st.1 = evaluatedAt g /\ activityBatch st.1 = activityBatch g /\
      raised (fun n ip' t => if bool_decide (ip' = ip) && negb (match byName g !! n with Some r => bool_decide (r ∈ rest.*1) | None => true end) then Z.max d t else t) g st.1) (range order (s_domains s)) (g, false))
    as ([g' b] & E & _ & _ & Ev & Eb & Hr).
  - split; [apply NoDup_range|]. split; [intros r p; by rewrite elem_of_range|]. split; [done|]. split; [done|]. cbn [fst].
    split; [apply same_shape_refl|apply later_refl| |done|done]. intros n ip'. case_bool_decide as E; cbn; [subst ip'|by destruct (deadline_of g n ip')].
    destruct (deadline_of g n ip) as [t|] eqn:Et; [|done]. cbn. f_equal. unfold deadline_of in Et. destruct (pair_of g n ip) as [p|] eqn:Ep; [|done].
    apply pair_of_Some in Ep as (r & rec & Hn & Hrec & Hp). rewrite Hn. rewrite bool_decide_eq_true_2; [done|].
    destruct (ro_forward _ H _ _ _ _ _ Hn Hrec Hp) as (_ & _ & _ & s1 & Hs1 & Hd). rewrite Hs in Hs1. injection Hs1 as <-.
    apply list_elem_of_fmap. exists (r, p). split; [done|]. by apply elem_of_range.
  - intros [r p] rest [g1 b1] (Hnd & Hin & Ev & Eb & Hr). cbn [fst] in *. apply NoDup_cons in Hnd as [Hnr Hnd]. cbn [fst snd].
    pose proof (Hin r p ltac:(by apply elem_of_cons; left)) as Hd. destruct (ro_backward _ H _ _ _ _ Hs Hd) as (n & rec & Hn & Hrec & Hp).
    pose proof (raised_reg_ok _ _ _ Hr H) as H1. pose proof (ra_shape _ _ _ Hr) as S1.
    destruct (extend_ok g1 n r rec ip p d H1) as (g2 & b2 & E & He); [by rewrite (ss_names _ _ S1)|by rewrite (ss_records _ _ S1)|done|].
    exists (g2, b1 || b2). cbn [fst snd]. rewrite E. split; [done|]. split; [done|]. split; [intros r' p' Hin'; apply Hin; by apply elem_of_cons; right|].
    destruct (ex_rest _ _ _ _ He) as [Ev2 Eb2]. split; [congruence|]. split; [congruence|].
    assert (Hp1 : pair_of g1 n ip = Some p) by (rewrite (same_shape_pair _ _ _ _ S1); apply pair_of_Some; eauto).
    eapply raised_ext; [|eapply raised_trans; [exact Hr|by eapply extended_raised]]. intros n' ip' t _. cbn beta.
    destruct (decide (ip' = ip)) as [->|Hne]; [|rewrite (bool_decide_eq_false_2 (ip' = ip)), (bool_decide_eq_false_2 (n' = n /\ ip' = ip)) by naive_solver; done]. rewrite !(bool_decide_eq_true_2 (ip = ip)) by done. cbn [andb].
    destruct (decide (n' = n)) as [->|Hne].
    + rewrite Hn. rewrite bool_decide_eq_true_2 by done. rewrite (bool_decide_eq_true_2 (r ∈ _)) by (by apply elem_of_cons; left).
      by rewrite bool_decide_eq_false_2.
    + rewrite bool_decide_eq_false_2 by naive_solver. destruct (byName g !! n') as [r'|] eqn:En'; [|done].
      rewrite (bool_decide_ext (r' ∈ ((r, p) :: rest).*1) (r' ∈ rest.*1)); [done|]. change (r' ∈ r :: rest.*1 <-> r' ∈ rest.*1). rewrite elem_of_cons.
      split; [intros [->|?]; [|done]|by right]. exfalso. apply Hne. exact (ro_names _ H n' n r En' Hn).
  - exists g', b. split; [exact E|]. split; [|done]. eapply raised_ext; [|exact Hr]. intros n ip' t Ht. cbn beta.
    destruct (byName g !! n) as [r|] eqn:En; [|unfold deadline_of, pair_of in Ht; by rewrite En in Ht].
    rewrite (bool_decide_eq_false_2 (r ∈ _)) by apply not_elem_of_nil. by rewrite andb_true_r.
Qed.

Lemma touch_ok key at_ g : reg_ok g ->
  exists g' b, touch order key at_ g = Ok (g', b) /\ raised (fun n ip => refresh (window g) n ip [(key, at_)]) g g' /\
    evaluatedAt g' = evaluatedAt g /\ activityBatch g' = activityBatch g.
Proof.
  intros H. destruct key as [ip dom]. unfold touch.
  assert (Hnone : (forall n t, deadline_of g n ip = Some t -> dom <> n /\ dom <> ""%string) ->
    raised (fun n ip' => refresh (window g) n ip' [((ip, dom), at_)]) g g).
  { intros Hno. eapply raised_ext; [|apply raised_refl]. intros n ip' t Ht. cbn. unfold relevant. cbn. case_bool_decide as E; [subst|done].
    destruct (Hno _ _ Ht) as [? ?]. by rewrite !bool_decide_eq_false_2. }
  destruct (String.eqb_spec dom "") as [->|Hd]; cbn [negb].
  - destruct (byIP g !! ip) as [s|] eqn:Es.
    + destruct (touch_ip_ok (at_ + window g) ip s g H Es) as (g' & b & E & Hr & Ev & Eb). exists g', b. split; [done|]. split; [|done].
      eapply raised_ext; [|exact Hr]. intros n ip' t _. cbn. unfold relevant. cbn. rewrite orb_true_r, andb_true_r. by rewrite (bool_decide_ext (ip = ip') (ip' = ip)).
    + exists g, false. split; [done|]. split; [|done]. apply Hnone. intros n t Ht. exfalso. unfold deadline_of in Ht. destruct (pair_of g n ip) as [p|] eqn:Ep; [|done].
      apply pair_of_Some in Ep as (r & rec & A & B & C). destruct (ro_forward _ H _ _ _ _ _ A B C) as (_ & _ & _ & s & Hs & _). congruence.
  - destruct (byName g !! dom) as [r|] eqn:En.
    + destruct (ro_record _ H _ _ En) as (_ & rec & Hrec & _). rewrite Hrec. cbn [idx mbind res_bind]. destruct (r_addresses rec !! ip) as [p|] eqn:Ep.
      * destruct (extend_ok g dom r rec ip p (at_ + window g) H En Hrec Ep) as (g' & b & E & He). exists g', b. split; [done|]. split; [|apply He].
        eapply raised_ext; [|eapply extended_raised; [exact H|apply pair_of_Some; eauto|exact He]]. intros n ip' t _. cbn. unfold relevant. cbn.
        rewrite (bool_decide_eq_false_2 (dom = "")), orb_false_r by done. rewrite <-bool_decide_and. by rewrite (bool_decide_ext (ip = ip' /\ dom = n) (n = dom /\ ip' = ip)) by naive_solver.
      * exists g, false. split; [done|]. split; [|done]. apply Hnone. intros n t Ht. split; [|done]. intros <-. unfold deadline_of, pair_of in Ht.
        rewrite En in Ht. cbn in Ht. rewrite Hrec in Ht. cbn in Ht. by rewrite Ep in Ht.
    + exists g, false. split; [done|]. split; [|done]. apply Hnone. intros n t Ht. split; [|done]. intros <-. unfold deadline_of, pair_of in Ht. by rewrite En in Ht.
Qed.

(** Sequences of observations. *)
Definition latest (es : list (domainActivityKey * Time)) (t : Time) : Time := fold_left (fun t e => Z.max t e.2) es t.

Record drained (es : list (domainActivityKey * Time)) (g g' : DomainRegistry) : Prop := {
  dr_raised : raised (fun n ip => refresh (window g) n ip es) g g';
  dr_clock : evaluatedAt g' = latest es (evaluatedAt g);
}.

Lemma drained_nil g : drained [] g g.
Proof. split; [apply raised_refl|done]. Qed.

Lemma drained_app es1 es2 g1 g2 g3 : drained es1 g1 g2 -> drained es2 g2 g3 -> drained (es1 ++ es2) g1 g3.
Proof.
  intros [A1 A2] [B1 B2]. split.
  - eapply raised_ext; [|eapply raised_trans; [exact A1|exact B1]]. intros n ip t _. cbn beta. destruct (ss_window _ _ (ra_shape _ _ _ A1)) as [-> _].
    unfold refresh. by rewrite fold_left_app.
  - unfold latest. by rewrite fold_left_app, B2, A2.
Qed.

Lemma apply_entry_ok g reconsider e : reg_ok g ->
  exists g' b, apply_entry order (g, reconsider) e = Ok (g', b) /\ drained [e] g g' /\ activityBatch g' = activityBatch g.
Proof.
  intros H. destruct e as [key at_]. unfold apply_entry. cbn [fst snd]. pose proof (clock_raised at_ g) as Hc.
  destruct (touch_ok key at_ (clock at_ g)) as (g' & b & E & Hr & Ev & Eb); [by eapply raised_reg_ok|]. rewrite E. cbn [mbind res_bind].
  exists g', (reconsider || (b && not_resident g' key.1)). split; [done|]. split; [|rewrite Eb; unfold clock; by destruct (After _ _)]. split.
  - eapply raised_ext; [|eapply raised_trans; [exact Hc|exact Hr]]. intros n ip t _. cbn beta. by destruct (ss_window _ _ (ra_shape _ _ _ Hc)) as [-> _].
  - rewrite Ev. cbn. unfold clock, After. destruct (Z.ltb_spec (evaluatedAt g) at_); cbn; lia.
Qed.

Lemma apply_batch_ok es : forall g reconsider, reg_ok g ->
  exists g' b, foldM (apply_entry order) (g, reconsider) es = Ok (g', b) /\ drained es g g' /\ activityBatch g' = activityBatch g.
Proof.
  induction es as [|e es IH]; intros g reconsider H; [exists g, reconsider; split; [done|]; split; [apply drained_nil|done]|].
  destruct (apply_entry_ok g reconsider e H) as (g1 & b1 & E1 & D1 & B1). cbn [foldM]. rewrite E1. cbn [mbind res_bind].
  destruct (IH g1 b1) as (g2 & b2 & E2 & D2 & B2); [eapply raised_reg_ok, H; apply D1|]. exists g2, b2. split; [done|].
  split; [by apply (drained_app [e] es _ g1)|congruence].
Qed.

Definition queued (batch : domainActivityBatch) : list (domainActivityKey * Time) := concat (map (range order) batch).

Lemma apply_batches_ok bs : forall g reconsider, reg_ok g ->
  exists g' b, foldM (fun st batch => foldM (apply_entry order) st (range order batch)) (g, reconsider) bs = Ok (g', b) /\ drained (queued bs) g g' /\ activityBatch g' = activityBatch g.
Proof.
  induction bs as [|b bs IH]; intros g reconsider H; [exists g, reconsider; split; [done|]; split; [apply drained_nil|done]|].
  destruct (apply_batch_ok (range order b) g reconsider H) as (g1 & b1 & E1 & D1 & B1). cbn [foldM]. rewrite E1. cbn [mbind res_bind].
  destruct (IH g1 b1) as (g2 & b2 & E2 & D2 & B2); [eapply raised_reg_ok, H; apply D1|]. exists g2, b2. split; [done|].
  split; [by apply (drained_app (range order b) (queued bs) _ g1)|congruence].
Qed.

Lemma drained_same es g g' g'' : drained es g g' -> same_shape g' g'' -> pairs g'' = pairs g' -> byIP g'' = byIP g' -> nextGC g'' = nextGC g' ->
  evaluatedAt g'' = evaluatedAt g' -> drained es g g''.
Proof. intros [A1 A2] S E1 E2 E3 E4. split; [by eapply raised_same|congruence]. Qed.

Lemma applyActivity_ok g : reg_ok g ->
  exists g' b, applyActivity order g = Ok (g', b) /\ drained (queued (activityBatch g)) g g' /\ activityBatch g' = map (fun _ => ∅) (activityBatch g).
Proof.
  intros H. unfold applyActivity. destruct (apply_batches_ok (activityBatch g) g false H) as (g1 & b1 & E & D & B). rewrite E. cbn [mbind res_bind].
  eexists _, b1. split; [reflexivity|]. split; [|cbn; by rewrite B]. by apply (drained_same _ _ g1).
Qed.

(** The owner of the queue drains it. *)
Lemma drainActivity_ok g a : reg_ok g -> a_registry a = Some (g_id g) ->
  exists g' b, drainActivity order g a = Ok (g', mkActivity (a_registry a) (activityBatch g), b) /\ drained (queued (a_pending a)) g g' /\
    activityBatch g' = map (fun _ => ∅) (a_pending a).
Proof.
  intros H Ha. unfold drainActivity. rewrite Ha, bool_decide_eq_true_2 by done. cbn [negb].
  set (g0 := with_batch g (a_pending a)). assert (S0 : same_shape g g0) by by split.
  destruct (applyActivity_ok g0) as (g1 & b1 & E & D & B).
  { eapply reg_ok_shape, H; [done|]. intros p t. by exists t. }
  rewrite E. cbn [mbind res_bind]. exists g1, b1. split; [done|]. split; [|done]. cbn [activityBatch g0 with_batch] in D.
  apply (drained_app [] _ g g0 g1); [|done]. apply (drained_same [] g g); try done. apply drained_nil.
Qed.
End Activity.


(** ** Collection *)

(** The fields no evidence depends on. *)
Record same_rest (g g' : DomainRegistry) : Prop := {
  sr_kernel : kernel_ g' = kernel_ g;
  sr_window : window g' = window g;
  sr_lag : activityLag g' = activityLag g;
  sr_clock : evaluatedAt g' = evaluatedAt g;
  sr_batch : activityBatch g' = activityBatch g;
  sr_id : g_id g' = g_id g;
  sr_closed : closed g' = closed g;
}.

Lemma same_rest_refl g : same_rest g g.
Proof. by split. Qed.
Lemma same_rest_trans g1 g2 g3 : same_rest g1 g2 -> same_rest g2 g3 -> same_rest g1 g3.
Proof. intros [A1 A2 A3 A4 A5 A6 A7] [B1 B2 B3 B4 B5 B6 B7]. split; congruence. Qed.

(** Names without addresses are not kept. *)
Definition used (g : DomainRegistry) : Prop :=
  forall n r record, byName g !! n = Some r -> records g !! r = Some record -> r_addresses record <> ∅.

Definition bitmap_at (g : DomainRegistry) (r : nat) : option (list Z) := r_bitmap <$> records g !! r.

Lemma member_same g g' s bm t : (forall r, bitmap_at g' r = bitmap_at g r) -> pairs g' = pairs g -> member g' s bm t <-> member g s bm t.
Proof. intros Hb Hp. unfold member. rewrite Hp. split; intros (r & p & A & B & C); exists r, p; (split; [done|]; split; [|done]); [rewrite <-B|rewrite <-B]; [symmetry|]; apply Hb. Qed.

Lemma removePair_ok g n r record ip p : reg_ok g -> byName g !! n = Some r -> records g !! r = Some record -> r_addresses record !! ip = Some p ->
  exists g', removePair r ip g = Ok g' /\ reg_ok g' /\ same_rest g g' /\ byName g' = byName g /\ pairs g' = pairs g /\ nextGC g' = nextGC g /\
    records g' = <[r := mkRecord (r_bitmap record) (delete ip (r_addresses record))]> (records g) /\
    (forall ip', ip' <> ip -> byIP g' !! ip' = byIP g !! ip') /\
    (forall n' ip', pair_of g' n' ip' = if bool_decide (n' = n /\ ip' = ip) then None else pair_of g n' ip').
Proof.
  intros H Hn Hr Hp. destruct (ro_forward _ H _ _ _ _ _ Hn Hr Hp) as (Hc & _ & _ & s & Hs & Hd). unfold removePair. rewrite Hr. cbn [idx mbind res_bind byIP with_records with_heap].
  rewrite Hs. cbn [idx mbind res_bind]. eexists. split; [reflexivity|]. set (g' := with_byIP _ _).
  assert (Ei : forall ip', ip' <> ip -> byIP g' !! ip' = byIP g !! ip').
  { intros ip' Hne. cbn. destruct (size _ =? 0); [by apply lookup_delete_ne|by apply lookup_insert_ne]. }
  assert (Eip : byIP g' !! ip = if decide (delete r (s_domains s) = ∅) then None else Some (mkIPRecord (delete r (s_domains s)) (s_bump s) (s_routing s) (s_priority s))).
  { cbn. destruct (Nat.eqb_spec (size (delete r (s_domains s))) 0) as [E|E].
    - apply map_size_empty_iff in E. rewrite decide_True by done. apply lookup_delete_eq.
    - rewrite decide_False; [apply lookup_insert_eq|]. intros E'. apply E. by apply map_size_empty_iff. }
  assert (Epair : forall n' ip', pair_of g' n' ip' = if bool_decide (n' = n /\ ip' = ip) then None else pair_of g n' ip').
  { intros n' ip'. unfold pair_of. cbn [g' byName records with_byIP with_records with_heap]. destruct (byName g !! n') as [r'|] eqn:En'; [|by case_bool_decide].
    cbn. destruct (decide (r' = r)) as [->|Hne].
    - rewrite lookup_insert_eq. cbn. assert (n' = n) as -> by by eapply ro_names. rewrite Hr. cbn.
      case_bool_decide as E; [destruct E as [_ ->]; apply lookup_delete_eq|]. apply lookup_delete_ne. naive_solver.
    - rewrite lookup_insert_ne by done. case_bool_decide as E; [|done]. destruct E as [-> _]. congruence. }
  split; [|by split_and!]. destruct H as [H1 H2 H3 H4 H5 H6]. split; cbn [g' byName records pairs next_ref with_byIP with_records with_heap].
  - apply H1.
  - intros n' r' Hn'. destruct (H2 _ _ Hn') as (Hlt & rec' & Hrec' & Hbm). split; [done|]. destruct (decide (r' = r)) as [->|Hne].
    + rewrite lookup_insert_eq. eexists. split; [done|]. cbn. rewrite Hr in Hrec'. injection Hrec' as <-. done.
    + rewrite lookup_insert_ne by done. eauto.
  - intros n' r' rec' ip' p' Hn' Hr' Hp'. fold g'. assert (Hold : exists rec0, records g !! r' = Some rec0 /\ r_addresses rec0 !! ip' = Some p' /\ (r' = r -> ip' <> ip)).
    { destruct (decide (r' = r)) as [->|Hne]; [rewrite lookup_insert_eq in Hr'|rewrite lookup_insert_ne in Hr' by done; by exists rec'].
      injection Hr' as <-. cbn in Hp'. apply lookup_delete_Some in Hp' as [? ?]. by exists record. }
    destruct Hold as (rec0 & Hr0 & Hp0 & Hne). destruct (H3 _ _ _ _ _ Hn' Hr0 Hp0) as (? & ? & ? & s' & Hs' & Hd'). split_and!; try done.
    destruct (decide (ip' = ip)) as [->|Hnip]; [|exists s'; by rewrite Ei]. rewrite Hs in Hs'. injection Hs' as <-.
    assert (Hdel : delete r (s_domains s) !! r' = Some p') by (rewrite lookup_delete_ne; [done|]; intros ->; by apply Hne).
    rewrite Eip, decide_False; [by eexists|]. intros E. rewrite E in Hdel. done.
  - intros ip' s' r' p' Hs' Hd'. change (byIP g' !! ip' = Some s') in Hs'. assert (Hold : exists s0, byIP g !! ip' = Some s0 /\ s_domains s0 !! r' = Some p' /\ (ip' = ip -> r' <> r)).
    { destruct (decide (ip' = ip)) as [->|Hne]; [|rewrite Ei in Hs' by done; by exists s'].
      rewrite Eip in Hs'. destruct (decide _); [done|]. injection Hs' as <-. cbn in Hd'. apply lookup_delete_Some in Hd' as [? ?]. exists s. by split_and!. }
    destruct Hold as (s0 & Hs0 & Hd0 & Hne). destruct (H4 _ _ _ _ Hs0 Hd0) as (n' & rec' & A & B & C). exists n'. destruct (decide (r' = r)) as [->|Hnr].
    + rewrite lookup_insert_eq. eexists. split; [done|]. split; [done|]. cbn. rewrite Hr in B. injection B as <-. rewrite lookup_delete_ne; [done|]. intros ->. by apply Hne.
    + rewrite lookup_insert_ne by done. by exists rec'.
  - intros ip' s' Hs'. change (byIP g' !! ip' = Some s') in Hs'. destruct (decide (ip' = ip)) as [->|Hne]; [|rewrite Ei in Hs' by done; by eapply H5].
    rewrite Eip in Hs'. destruct (decide _) as [|E]; [done|]. injection Hs' as <-. cbn. split; [done|]. by apply (H5 _ _ Hs).
  - intros n1 ip1 n2 ip2 p'. fold g'. rewrite !Epair. case_bool_decide; [done|]. case_bool_decide; [done|]. apply H6.
Qed.

(** What a collection has done so far: [gone] says which pairs were considered. *)
Record collected (cutoff : Time) (gone : string -> Addr -> bool) (g g' : DomainRegistry) (changed : gset Addr) : Prop := {
  co_ok : reg_ok g';
  co_rest : same_rest g g';
  co_pairs : pairs g' = pairs g;
  co_bitmaps : forall r, bitmap_at g' r = bitmap_at g r;
  co_names : forall n r, byName g' !! n = Some r -> byName g !! n = Some r;
  co_pair : forall n ip, pair_of g' n ip = (p ← pair_of g n ip; if gone n ip && (default 0%Z (pairs g !! p) <=? cutoff)%Z then None else Some p);
  co_others : forall ip, ip ∉ changed -> byIP g' !! ip = byIP g !! ip;
  co_changed : forall ip, ip ∈ changed -> canonical ip;
  co_tracked : forall n ip t, gone n ip = true -> deadline_of g' n ip = Some t -> nextGC g' <> 0%Z /\ (nextGC g' <= t)%Z;
}.

Lemma collected_ext cutoff gone gone' g g' changed : (forall n ip, is_Some (pair_of g n ip) -> gone' n ip = gone n ip) ->
  collected cutoff gone g g' changed -> collected cutoff gone' g g' changed.
Proof.
  intros He [A1 A2 A3 A4 A5 A6 A7 A8 A9]. split; try done.
  - intros n ip. rewrite A6. destruct (pair_of g n ip) eqn:E; [|done]. cbn. rewrite He; [done|by rewrite E].
  - intros n ip t Hg Hd. apply (A9 n ip t); [|done]. rewrite <-He; [done|]. unfold deadline_of in Hd. rewrite A6 in Hd. destruct (pair_of g n ip); [by eexists|done].
Qed.

Lemma trackDeadline_lower t g : (0 < t)%Z -> nextGC (trackDeadline t g) <> 0%Z /\ (nextGC (trackDeadline t g) <= t)%Z /\
  (nextGC g <> 0%Z -> (nextGC (trackDeadline t g) <= nextGC g)%Z).
Proof.
  intros Ht. unfold trackDeadline, IsZero, Before. destruct (Z.eqb_spec (nextGC g) 0); cbn; [lia|]. destruct (Z.ltb_spec t (nextGC g)); cbn; lia.
Qed.

Lemma trackDeadline_same t g : same_shape g (trackDeadline t g) /\ same_rest g (trackDeadline t g) /\ pairs (trackDeadline t g) = pairs g /\ byIP (trackDeadline t g) = byIP g.
Proof. unfold trackDeadline. destruct (_ || _); by split_and!. Qed.

Lemma gc_pair_ok cutoff gone g g1 changed n r ip p : collected cutoff gone g g1 changed -> gone n ip = false ->
  byName g1 !! n = Some r -> pair_of g1 n ip = Some p ->
  exists g2 changed', gc_pair cutoff r (g1, changed) (ip, p) = Ok (g2, changed') /\ byName g2 = byName g1 /\
    collected cutoff (fun n' ip' => gone n' ip' || bool_decide (n' = n /\ ip' = ip)) g g2 changed' /\
    (forall r', r' <> r -> records g2 !! r' = records g1 !! r').
Proof.
  intros [A1 A2 A3 A4 A5 A6 A7 A8 A9] Hgone Hn Hp. pose proof (proj1 (pair_of_Some _ _ _ _) Hp) as (r' & rec & Hn' & Hr & Ha). rewrite Hn in Hn'. injection Hn' as <-.
  destruct (ro_forward _ A1 _ _ _ _ _ Hn Hr Ha) as (Hc & _ & (t & Ht & Hpos) & _). unfold gc_pair. cbn [fst snd]. rewrite Ht. cbn [idx mbind res_bind].
  assert (Ht0 : pairs g !! p = Some t) by (by rewrite <-A3). pose proof (A6 n ip) as Hp0. rewrite Hp, Hgone in Hp0. cbn [andb] in Hp0.
  destruct (pair_of g n ip) as [p0|] eqn:Ep0; [|done]. cbn in Hp0. injection Hp0 as <-. unfold After. destruct (Z.ltb_spec cutoff t) as [Hlt|Hge]; cbn [negb].
  - exists (trackDeadline t g1), changed. split; [done|]. destruct (trackDeadline_same t g1) as (S & R & E1 & E2). split; [apply S|].
    destruct (trackDeadline_lower t g1 Hpos) as (L1 & L2 & L3). assert (Hpair : forall n' ip', pair_of (trackDeadline t g1) n' ip' = pair_of g1 n' ip') by (intros; by apply same_shape_pair).
    split; [|intros r' _; by rewrite (ss_records _ _ S)]. split.
    + eapply reg_ok_shape, A1; [done|]. intros p' t' Ht'. exists t'. by rewrite E1.
    + by eapply same_rest_trans.
    + congruence.
    + intros r'. rewrite <-A4. unfold bitmap_at. by rewrite (ss_records _ _ S).
    + intros n' r'. rewrite (ss_names _ _ S). apply A5.
    + intros n' ip'. rewrite Hpair, A6. destruct (pair_of g n' ip') as [p'|] eqn:Ep'; [|done]. cbn. case_bool_decide as E; [|by rewrite orb_false_r].
      destruct E as [-> ->]. rewrite Ep0 in Ep'. injection Ep' as <-. rewrite Hgone, Ht0. cbn. destruct (Z.leb_spec t cutoff); [lia|done].
    + intros ip'. rewrite E2. apply A7.
    + done.
    + intros n' ip' t' Hg'. unfold deadline_of. rewrite Hpair, E1. fold (deadline_of g1 n' ip'). intros Hd. apply orb_prop in Hg' as [Hg'|Hg'].
      * destruct (A9 _ _ _ Hg' Hd). split; [done|lia].
      * apply bool_decide_eq_true in Hg' as [-> ->]. unfold deadline_of in Hd. rewrite Hp in Hd. cbn in Hd. rewrite Ht in Hd. injection Hd as <-. done.
  - destruct (removePair_ok g1 n r rec ip p A1 Hn Hr Ha) as (g2 & E & B1 & B2 & B3 & B4 & B5 & B6 & B7 & B8). rewrite E. cbn [mbind res_bind].
    exists (count_gc g2), ({[ip]} ∪ changed). split; [done|]. split; [done|].
    assert (Hpair : forall n' ip', pair_of (count_gc g2) n' ip' = pair_of g2 n' ip') by done.
    split; [|intros r' Hne; cbn; rewrite B6; by apply lookup_insert_ne]. split.
    + eapply (reg_ok_shape g2); [by split| |done]. intros p' t' Ht'. by exists t'.
    + eapply same_rest_trans; [exact A2|]. destruct B2. by split.
    + cbn. congruence.
    + intros r'. rewrite <-A4. unfold bitmap_at. cbn. rewrite B6. destruct (decide (r' = r)) as [->|Hne]; [by rewrite lookup_insert_eq, Hr|by rewrite lookup_insert_ne].
    + intros n' r'. cbn. rewrite B3. apply A5.
    + intros n' ip'. rewrite Hpair, B8. case_bool_decide as Eb.
      * destruct Eb as [-> ->]. rewrite Ep0. cbn. rewrite orb_true_r, Ht0. cbn. destruct (Z.leb_spec t cutoff); [done|lia].
      * rewrite A6. by rewrite orb_false_r.
    + intros ip'. rewrite not_elem_of_union, elem_of_singleton. intros [Hne Hch]. cbn. rewrite B7 by done. by apply A7.
    + intros ip'. rewrite elem_of_union, elem_of_singleton. intros [->|?]; [done|by apply A8].
    + intros n' ip' t' Hg'. unfold deadline_of. rewrite Hpair, B8. cbn. case_bool_decide as Eb; [done|]. rewrite B4, B5. fold (deadline_of g1 n' ip').
      rewrite orb_false_r in Hg'. by apply A9.
Qed.

Section Gc.
Context (order : map_order).

(** The pairs of one name. *)
Lemma gc_pairs_ok cutoff gone g g1 changed n r rec : collected cutoff gone g g1 changed -> (forall ip, gone n ip = false) -> byName g1 !! n = Some r ->
  records g1 !! r = Some rec ->
  exists g2 changed', foldM (gc_pair cutoff r) (g1, changed) (range order (r_addresses rec)) = Ok (g2, changed') /\ byName g2 = byName g1 /\
    collected cutoff (fun n' ip' => gone n' ip' || bool_decide (n' = n)) g g2 changed' /\ (forall r', r' <> r -> records g2 !! r' = records g1 !! r').
Proof.
  intros Hco Hgone Hn Hr.
  destruct (foldM_run (gc_pair cutoff r) (fun rest st => NoDup (rest.*1) /\ (forall ip p, (ip, p) ∈ rest -> r_addresses rec !! ip = Some p) /\ byName st.1 = byName g1 /\
      collected cutoff (fun n' ip' => gone n' ip' || (bool_decide (n' = n) && negb (bool_decide (ip' ∈ rest.*1)))) g st.1 st.2 /\
      (forall r', r' <> r -> records st.1 !! r' = records g1 !! r')) (range order (r_addresses rec)) (g1, changed))
    as ([g2 ch2] & E & _ & _ & En & C2 & Hrec2).
  - cbn [fst snd]. split; [apply NoDup_range|]. split; [intros ip p; by rewrite elem_of_range|]. split; [done|]. split; [|done].
    eapply collected_ext, Hco. intros n' ip' [p' Hp']. case_bool_decide as Eb; [|by rewrite orb_false_r]. subst n'. rewrite Hgone. cbn.
    rewrite bool_decide_eq_true_2; [done|]. pose proof (co_pair _ _ _ _ _ Hco n ip') as Hq. rewrite Hp', Hgone in Hq. cbn in Hq.
    unfold pair_of in Hq. rewrite Hn in Hq. cbn in Hq. rewrite Hr in Hq. cbn in Hq. apply list_elem_of_fmap. exists (ip', p'). split; [done|]. by apply elem_of_range.
  - intros [ip p] rest [g3 ch3] (Hnd & Hin & En & C3 & Hrec3). cbn [fst snd] in *. apply NoDup_cons in Hnd as [Hni Hnd].
    assert (Hp3 : pair_of g3 n ip = Some p).
    { rewrite (co_pair _ _ _ _ _ C3). pose proof (co_pair _ _ _ _ _ Hco n ip) as Hq. rewrite Hgone in Hq. unfold pair_of at 1 in Hq. rewrite Hn in Hq. cbn in Hq.
      rewrite Hr in Hq. cbn in Hq. rewrite (Hin ip p) in Hq by (by apply elem_of_cons; left). destruct (pair_of g n ip) as [p0|]; [|done]. cbn in Hq |- *. injection Hq as <-.
      rewrite (bool_decide_eq_true_2 (ip ∈ _)) by (by apply elem_of_cons; left). rewrite Hgone. cbn. by rewrite andb_false_r. }
    destruct (gc_pair_ok cutoff _ g g3 ch3 n r ip p C3) as (g4 & ch4 & E4 & En4 & C4 & Hrec4); [|by rewrite En|done|].
    { rewrite Hgone. rewrite (bool_decide_eq_true_2 (ip ∈ _)) by (by apply elem_of_cons; left). by rewrite andb_false_r. }
    exists (g4, ch4). split; [done|]. cbn [fst snd]. split; [done|]. split; [intros ip' p' Hin'; apply Hin; by apply elem_of_cons; right|]. split; [congruence|].
    split; [|intros r' Hne; rewrite <-Hrec3 by done; by apply Hrec4].
    eapply collected_ext, C4. intros n' ip' _. cbn beta. rewrite <-orb_assoc. f_equal. destruct (decide (n' = n)) as [->|Hne].
    + rewrite !(bool_decide_eq_true_2 (n = n)) by done. cbn [andb]. rewrite <-bool_decide_not, <-bool_decide_not, <-bool_decide_or. apply bool_decide_ext.
      change ((ip' ∉ rest.*1) <-> (ip' ∉ ip :: rest.*1) \/ n = n /\ ip' = ip). rewrite not_elem_of_cons. destruct (decide (ip' = ip)) as [->|]; naive_solver.
    + rewrite !(bool_decide_eq_false_2 (n' = n)) by done. by rewrite (bool_decide_eq_false_2 (n' = n /\ ip' = ip)) by naive_solver.
  - exists g2, ch2. split; [done|]. split; [done|]. split; [|done].
    eapply collected_ext, C2. intros n' ip' _. cbn beta. rewrite (bool_decide_eq_false_2 (ip' ∈ _)) by apply not_elem_of_nil. by rewrite andb_true_r.
Qed.

(** A name whose addresses are gone is dropped. *)
Lemma drop_name_ok cutoff gone g g2 changed n r rec : collected cutoff gone g g2 changed -> byName g2 !! n = Some r -> records g2 !! r = Some rec ->
  r_addresses rec = ∅ -> collected cutoff gone g (with_byName g2 (delete n (byName g2))) changed.
Proof.
  intros [A1 A2 A3 A4 A5 A6 A7 A8 A9] Hn Hr Ez. set (g3 := with_byName g2 _). assert (Hpair : forall n' ip', pair_of g3 n' ip' = pair_of g2 n' ip').
  { intros n' ip'. unfold pair_of. cbn. destruct (decide (n' = n)) as [->|Hne]; [|by rewrite lookup_delete_ne].
    rewrite lookup_delete_eq, Hn. cbn. rewrite Hr. cbn. by rewrite Ez. }
  split; try done.
  - destruct A1 as [H1 H2 H3 H4 H5 H6]. split; cbn.
    + intros n1 n2 r'. rewrite !lookup_delete_Some. intros [_ ?] [_ ?]. by eapply H1.
    + intros n' r'. rewrite lookup_delete_Some. intros [_ ?]. by eapply H2.
    + intros n' r' rec' ip' p'. rewrite lookup_delete_Some. intros [_ ?]. by eapply H3.
    + intros ip' s' r' p' Hs' Hd'. destruct (H4 _ _ _ _ Hs' Hd') as (n' & rec' & B1 & B2 & B3). exists n', rec'. split; [|done]. apply lookup_delete_Some. split; [|done].
      intros <-. rewrite Hn in B1. injection B1 as <-. rewrite Hr in B2. injection B2 as <-. by rewrite Ez in B3.
    + apply H5.
    + intros n1 ip1 n2 ip2 p'. change (pair_of g3 n1 ip1 = Some p' -> pair_of g3 n2 ip2 = Some p' -> n1 = n2 /\ ip1 = ip2). rewrite !Hpair. apply H6.
  - eapply same_rest_trans; [exact A2|]. by split.
  - intros n' r'. cbn. rewrite lookup_delete_Some. intros [_ ?]. by apply A5.
  - intros n' ip'. rewrite Hpair. apply A6.
  - intros n' ip' t' Hg'. unfold deadline_of. rewrite Hpair. by apply A9.
Qed.

Lemma gc_name_ok cutoff gone g g1 changed n r : collected cutoff gone g g1 changed -> (forall ip, gone n ip = false) -> byName g1 !! n = Some r ->
  exists g2 changed', gc_name order cutoff (g1, changed) (n, r) = Ok (g2, changed') /\
    collected cutoff (fun n' ip' => gone n' ip' || bool_decide (n' = n)) g g2 changed' /\
    (forall n', n' <> n -> byName g2 !! n' = byName g1 !! n') /\
    (forall r' rec, byName g2 !! n = Some r' -> records g2 !! r' = Some rec -> r_addresses rec <> ∅) /\
    (forall n' r', n' <> n -> byName g1 !! n' = Some r' -> records g2 !! r' = records g1 !! r').
Proof.
  intros Hco Hgone Hn. pose proof (co_ok _ _ _ _ _ Hco) as H1. destruct (ro_record _ H1 _ _ Hn) as (_ & rec & Hr & _). unfold gc_name. cbn [fst snd]. rewrite Hr. cbn [idx mbind res_bind].
  destruct (gc_pairs_ok _ _ _ _ _ _ _ _ Hco Hgone Hn Hr) as (g2 & ch2 & E & En & C2 & Hrec2). rewrite E. cbn [mbind res_bind fst snd].
  assert (Hn2 : byName g2 !! n = Some r) by by rewrite En. destruct (ro_record _ (co_ok _ _ _ _ _ C2) _ _ Hn2) as (_ & rec2 & Hr2 & _). rewrite Hr2. cbn [idx mbind res_bind].
  assert (Hoth : forall n' r', n' <> n -> byName g1 !! n' = Some r' -> records g2 !! r' = records g1 !! r').
  { intros n' r' Hne Hn'. apply Hrec2. intros ->. apply Hne. eapply (ro_names _ H1); eauto. }
  eexists _, ch2. split; [reflexivity|]. destruct (Nat.eqb_spec (size (r_addresses rec2)) 0) as [Ez|Ez].
  - apply map_size_empty_iff in Ez. split; [by eapply drop_name_ok|]. split; [intros n' Hne; cbn; by rewrite lookup_delete_ne, En|].
    split; [intros r' rec'; cbn; by rewrite lookup_delete_eq|done].
  - split; [done|]. split; [intros n' _; by rewrite En|]. split; [|done].
    intros r' rec' Hr' Hrec'. rewrite Hn2 in Hr'. injection Hr' as <-. rewrite Hr2 in Hrec'. injection Hrec' as <-. intros E0. apply Ez. by rewrite E0, map_size_empty.
Qed.

(** The evidence that is left. *)
Definition unexpired (cutoff : Time) (t : Time) : option Time := if (t <=? cutoff)%Z then None else Some t.

Record gc_done (now : Time) (g g' : DomainRegistry) (changed : gset Addr) : Prop := {
  gd_ok : reg_ok g';
  gd_rest : same_rest g g';
  gd_tracked : tracked g';
  gd_used : used g';
  gd_deadlines : forall n ip, deadline_of g' n ip = deadline_of g n ip ≫= unexpired (now - activityLag g);
  gd_pairs : pairs g' = pairs g;
  gd_bitmaps : forall r, bitmap_at g' r = bitmap_at g r;
  gd_names : forall n r, byName g' !! n = Some r -> byName g !! n = Some r;
  gd_others : forall ip, ip ∉ changed -> byIP g' !! ip = byIP g !! ip;
  gd_changed : forall ip, ip ∈ changed -> canonical ip;
}.

Lemma gc_ok now g : reg_ok g -> tracked g -> used g -> exists g' changed, gc order now g = Ok (g', changed) /\ gc_done now g g' changed.
Proof.
  intros H Htr Hu. unfold gc. set (cutoff := (now - activityLag g)%Z). destruct (IsZero (nextGC g) || Before cutoff (nextGC g)) eqn:Eskip.
  { exists g, ∅. split; [done|]. split; try done.
    intros n ip. destruct (deadline_of g n ip) as [t|] eqn:Et; [|done]. cbn. destruct (Htr _ _ _ Et) as [Hz Hle]. unfold unexpired.
    unfold IsZero, Before in Eskip. apply orb_prop in Eskip as [Eskip|Eskip]; [lia|]. fold cutoff. destruct (Z.leb_spec t cutoff); [lia|done]. }
  destruct (foldM_run (gc_name order cutoff) (fun rest st => NoDup (rest.*1) /\ (forall n r, (n, r) ∈ rest -> byName st.1 !! n = Some r) /\
      collected cutoff (fun n _ => negb (bool_decide (n ∈ rest.*1))) g st.1 st.2 /\
      (forall n r rec, n ∉ rest.*1 -> byName st.1 !! n = Some r -> records st.1 !! r = Some rec -> r_addresses rec <> ∅)) (range order (byName g)) (with_nextGC g 0, ∅))
    as ([g' ch] & E & _ & _ & C & Hused).
  - cbn [fst snd]. split; [apply NoDup_range|]. split; [intros n r; by rewrite elem_of_range|].
    assert (Hdom : forall n r, byName g !! n = Some r -> n ∈ (range order (byName g)).*1) by (intros n r Hn; apply list_elem_of_fmap; exists (n, r); split; [done|]; by apply elem_of_range).
    split; [|intros n r rec Hno Hn; exfalso; by eapply Hno, Hdom].
    eapply (collected_ext _ (fun _ _ => false)); [|].
    { intros n ip [p Hp]. apply pair_of_Some in Hp as (r & rec & Hn & _). by rewrite (bool_decide_eq_true_2 (n ∈ _)) by by eapply Hdom. }
    assert (S : same_shape g (with_nextGC g 0)) by by split. split; try done.
    + eapply reg_ok_shape, H; [done|]. intros p t. by exists t.
    + intros n ip. change (pair_of g n ip = (p ← pair_of g n ip; Some p)). by destruct (pair_of g n ip).
  - intros [n r] rest [g1 ch1] (Hnd & Hin & C1 & Hu1). cbn [fst snd] in *. apply NoDup_cons in Hnd as [Hnn Hnd].
    destruct (gc_name_ok cutoff _ g g1 ch1 n r C1) as (g2 & ch2 & E2 & C2 & N2 & U2 & R2).
    { intros ip. by rewrite bool_decide_eq_true_2 by (by apply elem_of_cons; left). }
    { apply Hin, elem_of_cons. by left. }
    exists (g2, ch2). split; [done|]. cbn [fst snd]. split; [done|]. assert (Hne : forall n' r', (n', r') ∈ rest -> n' <> n).
    { intros n' r' Hin' ->. apply Hnn. by apply (list_elem_of_fmap_2 fst rest (n, r')). }
    split; [intros n' r' Hin'; rewrite N2 by (by eapply Hne); apply Hin, elem_of_cons; by right|]. split.
    + eapply collected_ext, C2. intros n' ip' _. cbn beta. rewrite <-!bool_decide_not, <-bool_decide_or. apply bool_decide_ext.
      change ((n' ∉ rest.*1) <-> (n' ∉ n :: rest.*1) \/ n' = n). rewrite not_elem_of_cons. destruct (decide (n' = n)) as [->|]; naive_solver.
    + intros n' r' rec' Hno Hn' Hr'. destruct (decide (n' = n)) as [->|Hnn']; [by eapply U2|]. rewrite N2 in Hn' by done.
      eapply (Hu1 n' r' rec'); [|done|by rewrite <-(R2 n' r')]. by apply not_elem_of_cons.
  - exists g', ch. cbn [fst snd] in *. split; [exact E|]. destruct C as [A1 A2 A3 A4 A5 A6 A7 A8 A9].
    assert (Hall : forall n : string, negb (bool_decide (n ∈ ([] : list (string * nat)).*1)) = true) by (intros n; by rewrite bool_decide_eq_false_2 by apply not_elem_of_nil).
    split; try done.
    + intros n ip t. apply A9, Hall.
    + intros n r rec. apply Hused, not_elem_of_nil.
    + intros n ip. unfold deadline_of. rewrite A6, A3. destruct (pair_of g n ip) as [p|] eqn:Ep; [|done]. cbn. rewrite Hall. cbn [andb]. fold cutoff.
      apply pair_of_Some in Ep as (r & rec & B1 & B2 & B3). destruct (ro_forward _ H _ _ _ _ _ B1 B2 B3) as (_ & _ & (t & Ht & _) & _). rewrite Ht. cbn. unfold unexpired.
      fold cutoff. destruct (t <=? cutoff)%Z; cbn; [done|by rewrite Ht].
Qed.

Lemma gc_summaries now g g' changed : gc_done now g g' changed -> summaries g ∅ -> summaries g' changed.
Proof.
  intros Hd Hs ip s Hi Hc. rewrite (gd_others _ _ _ _ Hd) in Hi by done. eapply summary_ext, (Hs _ _ Hi ltac:(set_solver)).
  intros bm t. apply member_same; apply Hd.
Qed.
End Gc.
