(* ===== verification/DomainRegistryObserve.v ===== *)
(** * Evidence is added and projected

    Observed and restored pairs enter both indexes; the summaries of the addresses they
    change are recomputed, and the projection is asked for the summaries of the addresses
    with the latest deadlines. *)

From S2P Require Import Prelude GoSlices Netip RoutingInstr RoutingEval DomainProjection DomainProjectionCorrect DomainRegistry DomainRegistryCorrect.

(** ** Invariant *)

(** Every name carries the bitmap the matcher gives it. *)
Definition labelled (bits : string -> list Z) (g : DomainRegistry) : Prop :=
  forall n r rec, byName g !! n = Some r -> records g !! r = Some rec -> r_bitmap rec = bits n.

Record good (bits : string -> list Z) (g : DomainRegistry) (changed : gset Addr) : Prop := {
  go_ok : reg_ok g;
  go_tracked : tracked g;
  go_used : used g;
  go_labelled : labelled bits g;
  go_summaries : summaries g changed;
  go_changed : forall ip, ip ∈ changed -> canonical ip;
}.

(** The summaries of the addresses outside [changed] are as before. *)
Definition kept (g g' : DomainRegistry) (changed : gset Addr) : Prop :=
  forall ip, ip ∉ changed -> summary <$> byIP g' !! ip = summary <$> byIP g !! ip.

Lemma kept_refl g changed : kept g g changed.
Proof. by intros ip. Qed.
Lemma kept_trans g1 g2 g3 c1 c2 : c1 ⊆ c2 -> kept g1 g2 c1 -> kept g2 g3 c2 -> kept g1 g3 c2.
Proof. intros Hc H1 H2 ip Hip. rewrite H2 by done. apply H1. set_solver. Qed.

Lemma kept_shape g g' changed : same_shape g g' -> kept g g' changed.
Proof.
  intros S ip _. pose proof (ss_ips _ _ S ip) as E. destruct (byIP g' !! ip) as [s'|], (byIP g !! ip) as [s|]; cbn in *; try done.
  unfold summary. congruence.
Qed.

Lemma used_shape g g' : same_shape g g' -> used g -> used g'.
Proof. intros S H n r rec. rewrite (ss_names _ _ S), (ss_records _ _ S). apply H. Qed.
Lemma labelled_shape bits g g' : same_shape g g' -> labelled bits g -> labelled bits g'.
Proof. intros S H n r rec. rewrite (ss_names _ _ S), (ss_records _ _ S). apply H. Qed.

Lemma good_raised bits f g g' changed : raised f g g' -> good bits g changed -> good bits g' changed.
Proof.
  intros R [G1 G2 G3 G4 G5 G6]. split; [by eapply raised_reg_ok|by eapply ra_tracked|by eapply used_shape, G3; apply R|by eapply labelled_shape, G4; apply R| |done].
  by eapply ra_summaries.
Qed.

Lemma good_collected bits now g g' changed : gc_done now g g' changed -> good bits g ∅ -> good bits g' changed.
Proof.
  intros D [G1 G2 G3 G4 G5 G6]. split; try apply D; [|by eapply gc_summaries].
  intros n r rec Hn Hr. pose proof (gd_bitmaps _ _ _ _ D r) as Hb. unfold bitmap_at in Hb. rewrite Hr in Hb. cbn in Hb.
  destruct (records g !! r) as [rec0|] eqn:E; [|done]. injection Hb as ->. by apply (G4 n r rec0); [apply (gd_names _ _ _ _ D)|].
Qed.

(** ** New names *)

Definition alloc_record (n : string) (bm : list Z) (g : DomainRegistry) : DomainRegistry :=
  with_byName (with_heap g (<[next_ref g := mkRecord bm ∅]> (records g)) (pairs g) (S (next_ref g))) (<[n := next_ref g]> (byName g)).

(** Evidence and summaries are the same. *)
Record same_evidence (g g' : DomainRegistry) : Prop := {
  se_pair : forall n ip, pair_of g' n ip = pair_of g n ip;
  se_pairs : forall p, p < next_ref g -> pairs g' !! p = pairs g !! p;
  se_ip : byIP g' = byIP g;
  se_next : nextGC g' = nextGC g;
}.

Lemma alloc_record_ok n bm g : reg_ok g -> byName g !! n = None -> bitmap_ok bm ->
  reg_ok (alloc_record n bm g) /\ same_rest g (alloc_record n bm g) /\ same_evidence g (alloc_record n bm g).
Proof.
  intros H Hn Hb. set (g' := alloc_record n bm g).
  assert (Hold : forall n' r, byName g !! n' = Some r -> records g' !! r = records g !! r).
  { intros n' r Hr. cbn. apply lookup_insert_ne. destruct (ro_record _ H _ _ Hr). lia. }
  assert (Hpair : forall n' ip, pair_of g' n' ip = pair_of g n' ip).
  { intros n' ip. unfold pair_of. cbn [g' byName records alloc_record with_byName with_heap]. destruct (decide (n' = n)) as [->|Hne].
    - rewrite lookup_insert_eq, Hn. cbn. rewrite lookup_insert_eq. cbn. apply lookup_empty.
    - rewrite lookup_insert_ne by done. destruct (byName g !! n') as [r|] eqn:En; [|done]. cbn. by rewrite <-(Hold n' r). }
  split; [|by split_and!]. destruct H as [H1 H2 H3 H4 H5 H6]. split.
  - intros n1 n2 r. cbn. destruct (decide (n1 = n)) as [->|], (decide (n2 = n)) as [->|]; rewrite ?lookup_insert_eq, ?lookup_insert_ne by done; try done.
    + intros [= <-] Hr. destruct (H2 _ _ Hr). lia.
    + intros Hr [= <-]. destruct (H2 _ _ Hr). lia.
    + apply H1.
  - intros n' r. cbn. destruct (decide (n' = n)) as [->|]; rewrite ?lookup_insert_eq, ?lookup_insert_ne by done.
    + intros [= <-]. split; [lia|]. exists (mkRecord bm ∅). by rewrite lookup_insert_eq.
    + intros Hr. destruct (H2 _ _ Hr) as (? & rec & ? & ?). split; [lia|]. exists rec. by rewrite lookup_insert_ne by lia.
  - intros n' r rec ip p Hr Hrec Hp. pose proof (Hpair n' ip) as Hq. rewrite (proj2 (pair_of_Some g' n' ip p)) in Hq by eauto. symmetry in Hq.
    apply pair_of_Some in Hq as (r0 & rec0 & A & B & C). assert (r0 = r) as ->.
    { cbn in Hr. destruct (decide (n' = n)) as [->|]; [congruence|]. rewrite lookup_insert_ne in Hr by done. congruence. }
    destruct (H3 _ _ _ _ _ A B C) as (? & ? & ? & ?). split_and!; try done. cbn. lia.
  - intros ip s r p Hs Hd. destruct (H4 _ _ _ _ Hs Hd) as (n' & rec & A & B & C). exists n', rec. rewrite (Hold n' r A). split; [|done]. cbn.
    rewrite lookup_insert_ne; [done|]. intros <-. congruence.
  - apply H5.
  - intros n1 ip1 n2 ip2 p. rewrite !Hpair. apply H6.
Qed.

(** ** New pairs *)

Definition new_pair (r : nat) (ip : Addr) (d : Time) (g : DomainRegistry) : res DomainRegistry :=
  addPair r ip (next_ref g) (with_heap g (records g) (<[next_ref g := d]> (pairs g)) (S (next_ref g))).

Section Pair.
Context (g : DomainRegistry) (H : reg_ok g) (n : string) (r : nat) (rec : domainRecord) (ip : Addr) (d : Time).
Context (Hn : byName g !! n = Some r) (Hr : records g !! r = Some rec) (Hnew : r_addresses rec !! ip = None) (Hc : canonical ip) (Hd : (0 < d)%Z).

Let s0 := default new_ipRecord (byIP g !! ip).
Let linked := trackDeadline d (with_byIP
  (with_records (with_heap g (records g) (<[next_ref g := d]> (pairs g)) (S (next_ref g)))
    (<[r := mkRecord (r_bitmap rec) (<[ip := next_ref g]> (r_addresses rec))]> (records g)))
  (<[ip := mkIPRecord (<[r := next_ref g]> (s_domains s0)) (s_bump s0) (s_routing s0) (s_priority s0)]> (byIP g))).

Lemma new_pair_eq : new_pair r ip d g = Ok linked.
Proof. unfold new_pair, addPair. cbn. rewrite Hr. cbn. by rewrite lookup_insert_eq. Qed.

Lemma linked_fields : byName linked = byName g /\ pairs linked = <[next_ref g := d]> (pairs g) /\ next_ref linked = S (next_ref g) /\
  records linked = <[r := mkRecord (r_bitmap rec) (<[ip := next_ref g]> (r_addresses rec))]> (records g) /\
  byIP linked = <[ip := mkIPRecord (<[r := next_ref g]> (s_domains s0)) (s_bump s0) (s_routing s0) (s_priority s0)]> (byIP g).
Proof. unfold linked, trackDeadline. by destruct (_ || _). Qed.

Lemma linked_pair n' ip' : pair_of linked n' ip' = if bool_decide (n' = n /\ ip' = ip) then Some (next_ref g) else pair_of g n' ip'.
Proof.
  destruct linked_fields as (E1 & _ & _ & E2 & _). unfold pair_of. rewrite E1, E2. destruct (byName g !! n') as [r'|] eqn:En; cbn.
  2: { case_bool_decide as Hb; [|done]. destruct Hb as [-> _]. congruence. }
  destruct (decide (r' = r)) as [->|Hne].
  - assert (n' = n) as -> by by eapply (ro_names _ H). rewrite lookup_insert_eq, Hr. cbn. case_bool_decide as Hb.
    + destruct Hb as [_ ->]. apply lookup_insert_eq.
    + apply lookup_insert_ne. naive_solver.
  - rewrite lookup_insert_ne by done. case_bool_decide as Hb; [|done]. destruct Hb as [-> _]. congruence.
Qed.

Lemma pair_below n' ip' p : pair_of g n' ip' = Some p -> p < next_ref g.
Proof. intros (r' & rec' & A & B & C)%pair_of_Some. by destruct (ro_forward _ H _ _ _ _ _ A B C) as (_ & ? & _). Qed.

Lemma s0_ok : bitmap_ok (s_bump s0) /\ bitmap_ok (s_routing s0).
Proof.
  unfold s0. destruct (byIP g !! ip) as [s|] eqn:Es; [apply (ro_ip _ H _ _ Es)|]. cbn. unfold bitmap_ok. rewrite length_replicate.
  split; (split; [done|]); apply Forall_replicate; unfold fits; lia.
Qed.

Lemma linked_ok : reg_ok linked.
Proof.
  pose proof linked_pair as Hpair. destruct linked_fields as (E1 & E2 & E3 & E4 & E5). pose proof H as [H1 H2 H3 H4 H5 H6]. split.
  - rewrite E1. apply H1.
  - intros n' r'. rewrite E1, E3, E4. intros Hr'. destruct (H2 _ _ Hr') as (? & rec' & A & B). split; [lia|]. destruct (decide (r' = r)) as [->|].
    + rewrite lookup_insert_eq. eexists. split; [done|]. cbn. congruence.
    + rewrite lookup_insert_ne by done. eauto.
  - intros n' r' rec' ip' p Hn' Hr' Hp. pose proof (proj2 (pair_of_Some linked n' ip' p)) as Hq. rewrite Hpair in Hq. specialize (Hq ltac:(eauto)).
    rewrite E1 in Hn'. rewrite E2, E3, E5. case_bool_decide as Hb.
    + destruct Hb as [-> ->]. injection Hq as <-. rewrite Hn in Hn'. injection Hn' as <-. split_and!; [done|lia|exists d; by rewrite lookup_insert_eq|].
      eexists. split; [apply lookup_insert_eq|]. apply lookup_insert_eq.
    + pose proof (pair_below _ _ _ Hq) as Hlt. apply pair_of_Some in Hq as (r0 & rec0 & A & B & C). rewrite Hn' in A. injection A as <-.
      destruct (H3 _ _ _ _ _ Hn' B C) as (? & ? & ? & s & Hs & Hd'). split_and!; [done|lia|by rewrite lookup_insert_ne by lia|].
      destruct (decide (ip' = ip)) as [->|]; [|exists s; by rewrite lookup_insert_ne]. eexists. split; [apply lookup_insert_eq|]. cbn. unfold s0. rewrite Hs. cbn.
      rewrite lookup_insert_ne; [done|]. intros <-. apply Hb. split; [by eapply H1|done].
  - intros ip' s r' p. rewrite E5. intros Hs Hd'. assert (Hcase : (ip' = ip /\ r' = r /\ p = next_ref g) \/ exists s', byIP g !! ip' = Some s' /\ s_domains s' !! r' = Some p).
    { destruct (decide (ip' = ip)) as [->|]; [|rewrite lookup_insert_ne in Hs by done; eauto]. rewrite lookup_insert_eq in Hs. injection Hs as <-. cbn in Hd'.
      destruct (decide (r' = r)) as [->|]; [rewrite lookup_insert_eq in Hd'; injection Hd' as <-; by left|]. rewrite lookup_insert_ne in Hd' by done.
      unfold s0 in Hd'. destruct (byIP g !! ip); [eauto|]. done. }
    rewrite E1, E4. destruct Hcase as [(-> & -> & ->)|(s' & Hs' & Hp)].
    + exists n. rewrite lookup_insert_eq. eexists. split; [done|]. split; [done|]. apply lookup_insert_eq.
    + destruct (H4 _ _ _ _ Hs' Hp) as (n' & rec' & A & B & C). exists n'. destruct (decide (r' = r)) as [->|]; [|rewrite lookup_insert_ne by done; eauto].
      rewrite lookup_insert_eq. eexists. split; [done|]. split; [done|]. cbn. rewrite lookup_insert_ne; [congruence|]. intros <-. congruence.
  - intros ip' s. rewrite E5. destruct (decide (ip' = ip)) as [->|]; [|rewrite lookup_insert_ne by done; apply H5].
    rewrite lookup_insert_eq. intros [= <-]. cbn. split; [apply insert_non_empty|]. apply s0_ok.
  - intros n1 ip1 n2 ip2 p. rewrite !Hpair. case_bool_decide as B1; case_bool_decide as B2; intros P1 P2.
    + naive_solver.
    + injection P1 as <-. pose proof (pair_below _ _ _ P2). lia.
    + injection P2 as <-. pose proof (pair_below _ _ _ P1). lia.
    + by eapply H6.
Qed.

Lemma linked_deadline n' ip' : deadline_of linked n' ip' = if bool_decide (n' = n /\ ip' = ip) then Some d else deadline_of g n' ip'.
Proof.
  destruct linked_fields as (_ & E2 & _). unfold deadline_of. rewrite linked_pair, E2. case_bool_decide; [apply lookup_insert_eq|].
  destruct (pair_of g n' ip') as [p|] eqn:Ep; [|done]. cbn. apply lookup_insert_ne. pose proof (pair_below _ _ _ Ep). lia.
Qed.

Lemma linked_tracked : tracked g -> tracked linked.
Proof.
  intros Ht n' ip' t. rewrite linked_deadline. unfold linked. set (g1 := with_byIP _ _). destruct (trackDeadline_lower d g1 Hd) as (A & B & C).
  case_bool_decide; [intros [= <-]; done|]. intros Hdl. destruct (Ht _ _ _ Hdl) as [? ?]. split; [done|]. etrans; [by apply C|done].
Qed.

Lemma linked_rest : same_rest g linked.
Proof. unfold linked, trackDeadline. destruct (_ || _); by split. Qed.

Lemma linked_summaries changed : summaries g changed -> summaries linked ({[ip]} ∪ changed).
Proof.
  destruct linked_fields as (E1 & E2 & E3 & E4 & E5). intros Hs ip' s. rewrite E5. intros Hi Hnc. rewrite lookup_insert_ne in Hi by set_solver.
  assert (Hsame : forall r' p, s_domains s !! r' = Some p -> bitmap_at linked r' = bitmap_at g r' /\ pairs linked !! p = pairs g !! p).
  { intros r' p Hdom. destruct (ro_backward _ H _ _ _ _ Hi Hdom) as (n' & rec' & A & B & C). unfold bitmap_at. rewrite E2, E4.
    rewrite (lookup_insert_ne (pairs g)) by (destruct (ro_forward _ H _ _ _ _ _ A B C) as (_ & ? & _); lia). split; [|done].
    destruct (decide (r' = r)) as [->|]; [|by rewrite lookup_insert_ne]. by rewrite lookup_insert_eq, Hr. }
  eapply summary_ext, (Hs _ _ Hi ltac:(set_solver)). intros bm t. split; intros (r' & p & Hdom & Hb & Hp); exists r', p;
    destruct (Hsame _ _ Hdom) as [S1 S2]; unfold bitmap_at in S1; split_and!; congruence.
Qed.
(** The pair is linked; only its name may have been without addresses. *)
Lemma new_pair_ok bits changed : labelled bits g -> tracked g -> summaries g changed -> (forall ip, ip ∈ changed -> canonical ip) ->
  (forall n' r' rec', n' <> n -> byName g !! n' = Some r' -> records g !! r' = Some rec' -> r_addresses rec' <> ∅) ->
  exists g', new_pair r ip d g = Ok g' /\ good bits g' ({[ip]} ∪ changed) /\ same_rest g g' /\ byName g' = byName g /\
    records g' !! r = Some (mkRecord (r_bitmap rec) (<[ip := next_ref g]> (r_addresses rec))) /\ kept g g' ({[ip]} ∪ changed) /\
    forall n' ip', deadline_of g' n' ip' = if bool_decide (n' = n /\ ip' = ip) then Some d else deadline_of g n' ip'.
Proof.
  intros L T S C U. exists linked. split; [exact new_pair_eq|]. destruct linked_fields as (F1 & F2 & F3 & F4 & F5).
  split; [|split; [exact linked_rest|split; [done|split; [by rewrite F4, lookup_insert_eq|split; [|exact linked_deadline]]]]].
  2: { intros ip' Hip. rewrite F5. by rewrite lookup_insert_ne by set_solver. }
  split; [exact linked_ok|by apply linked_tracked| | |by apply linked_summaries|].
  - intros n' r' rec'. rewrite F1, F4. intros A B. destruct (decide (r' = r)) as [->|]; [|rewrite lookup_insert_ne in B by done; eapply U; [|done..]; congruence].
    rewrite lookup_insert_eq in B. injection B as <-. apply insert_non_empty.
  - intros n' r' rec'. rewrite F1, F4. intros A B. destruct (decide (r' = r)) as [->|]; [|rewrite lookup_insert_ne in B by done; by eapply L].
    rewrite lookup_insert_eq in B. injection B as <-. cbn. by eapply L.
  - intros ip'. rewrite elem_of_union, elem_of_singleton. intros [->|?]; [done|by apply C].
Qed.
End Pair.

(** ** Observations *)

Lemma Unmap_canonical ip : IsValid ip = true -> Addr_wf ip -> canonical (Unmap ip).
Proof.
  intros Hv Hw. unfold canonical. destruct ip as [|b|b]; [done|done|]. cbn [Unmap]. destruct (Is4In6 (AddrV6 b)) eqn:E.
  - split; [done|]. split; [|done]. destruct Hw as [Hl Hf]. split; [rewrite length_drop; cbn in Hl |- *; lia|]. by apply Forall_drop.
  - split; [done|]. split; [done|]. cbn [Unmap]. by rewrite E.
Qed.

(** Evidence as a function, up to extensionality, and what an observation does to it. *)
Definition Evidence : Type := string -> Addr -> option Time.
Definition ev_eq (e1 e2 : Evidence) : Prop := forall n ip, e1 n ip = e2 n ip.

Definition ev_observe (n : string) (ip : Addr) (d : Time) (e : Evidence) : Evidence :=
  fun n' ip' => if bool_decide (n' = n /\ ip' = ip) then Some (match e n ip with Some t => Z.max d t | None => d end) else e n' ip'.

Definition ev_observation (w : Z) (at_ now : Time) (o : domainObservation) (e : Evidence) : Evidence :=
  let d := (at_ + Z.max (o_ttl o * time_Second) w)%Z in
  if (d <=? now)%Z then e else fold_left (fun e ip => ev_observe (o_name o) (Unmap ip) d e) (o_ips o) e.

#[export] Instance ev_eq_equivalence : Equivalence ev_eq.
Proof. split; [by intros ???|by intros ?????|]. intros e1 e2 e3 H1 H2 n ip. by rewrite H1, H2. Qed.

#[export] Instance ev_observe_proper n ip d : Proper (ev_eq ==> ev_eq) (ev_observe n ip d).
Proof. intros e1 e2 H n' ip'. unfold ev_observe. by rewrite !H. Qed.

#[export] Instance fold_left_ev_proper {A} (f : Evidence -> A -> Evidence) (Hf : forall a, Proper (ev_eq ==> ev_eq) (fun e => f e a)) l :
  Proper (ev_eq ==> ev_eq) (fun e => fold_left f l e).
Proof. induction l as [|a l IH]; intros e1 e2 H; [done|]. cbn [fold_left]. apply IH. by apply Hf. Qed.

#[export] Instance ev_observation_proper w at_ now o : Proper (ev_eq ==> ev_eq) (ev_observation w at_ now o).
Proof. intros e1 e2 H. unfold ev_observation. destruct (_ <=? _)%Z; [done|]. apply fold_left_ev_proper; [|done]. intros ip. apply ev_observe_proper. Qed.

(** Answers as the DNS layer hands them over. *)
Definition observation_ok (bits : string -> list Z) (o : domainObservation) : Prop :=
  o_bitmap o = bits (o_name o) /\ Forall (fun ip => IsValid ip = true /\ Addr_wf ip) (o_ips o).

Section Observe.
Context (bits : string -> list Z) (bits_ok : forall n, bitmap_ok (bits n)).

(** The record of the name, allocated when it is missing. *)
Lemma ensure_record n g : reg_ok g -> labelled bits g ->
  let '(r, g1) := match byName g !! n with Some r => (r, g) | None => (next_ref g, alloc_record n (bits n) g) end in
  exists rec, byName g1 !! n = Some r /\ records g1 !! r = Some rec /\ reg_ok g1 /\ labelled bits g1 /\ same_rest g g1 /\ same_evidence g g1 /\
    (forall changed, summaries g changed -> summaries g1 changed) /\
    (forall n' r' rec', n' <> n -> byName g1 !! n' = Some r' -> records g1 !! r' = Some rec' -> byName g !! n' = Some r' /\ records g !! r' = Some rec').
Proof.
  intros H L. destruct (byName g !! n) as [r|] eqn:En.
  - destruct (ro_record _ H _ _ En) as (_ & rec & Hr & _). exists rec. split_and!; try done.
  - destruct (alloc_record_ok n (bits n) g H En (bits_ok n)) as (A1 & A2 & A3). exists (mkRecord (bits n) ∅). cbn. rewrite !lookup_insert_eq.
    assert (Hrec : forall n' r', byName g !! n' = Some r' -> records (alloc_record n (bits n) g) !! r' = records g !! r').
    { intros n' r' Hn'. cbn. apply lookup_insert_ne. destruct (ro_record _ H _ _ Hn'). lia. }
    assert (Hoth : forall n' r' rec', n' <> n -> byName (alloc_record n (bits n) g) !! n' = Some r' -> records (alloc_record n (bits n) g) !! r' = Some rec' ->
      byName g !! n' = Some r' /\ records g !! r' = Some rec').
    { intros n' r' rec' Hne Hn' Hr'. cbn in Hn'. rewrite lookup_insert_ne in Hn' by done. by rewrite <-(Hrec n' r'). }
    split_and!; try done.
    + intros n' r' rec' Hn' Hr'. destruct (decide (n' = n)) as [->|Hne]; [|destruct (Hoth _ _ _ Hne Hn' Hr'); by eapply L].
      cbn in Hn', Hr'. rewrite lookup_insert_eq in Hn'. injection Hn' as <-. rewrite lookup_insert_eq in Hr'. by injection Hr' as <-.
    + intros changed Hs ip s Hi Hc. eapply summary_ext, (Hs _ _ Hi Hc). intros bm t.
      assert (Hm : forall r' p, s_domains s !! r' = Some p -> records (alloc_record n (bits n) g) !! r' = records g !! r').
      { intros r' p Hd. destruct (ro_backward _ H _ _ _ _ Hi Hd) as (n' & rec' & B & _). by apply (Hrec n'). }
      split; intros (r' & p & Hd & Hb & Hp); exists r', p; (split; [done|]; split; [|done]); [by rewrite <-(Hm r' p)|by rewrite (Hm r' p)].
Qed.

Lemma observe_ip_ok o d g changed rc ip : o_bitmap o = bits (o_name o) -> good bits g changed -> IsValid ip = true -> Addr_wf ip -> (0 < d)%Z ->
  exists g' changed' b, observe_ip o d (g, changed, rc) ip = Ok (g', changed', b) /\ good bits g' changed' /\ same_rest g g' /\ changed ⊆ changed' /\ kept g g' changed' /\
    ev_eq (deadline_of g') (ev_observe (o_name o) (Unmap ip) d (deadline_of g)).
Proof.
  intros Hb [G1 G2 G3 G4 G5 G6] Hv Hw Hd. pose proof (Unmap_canonical ip Hv Hw) as Hc. unfold observe_ip. set (u := Unmap ip) in *. rewrite Hb.
  pose proof (ensure_record (o_name o) g G1 G4) as He. fold (alloc_record (o_name o) (bits (o_name o)) g).
  destruct (match byName g !! o_name o with Some r => _ | None => _ end) as [r g1].
  destruct He as (rec & Hn & Hr & H1 & L1 & R1 & [V1 V2 V3 V4] & S1 & Hoth). rewrite Hr. cbn [idx mbind res_bind].
  assert (Hdl : forall n' ip', deadline_of g1 n' ip' = deadline_of g n' ip').
  { intros n' ip'. unfold deadline_of. rewrite V1. destruct (pair_of g n' ip') as [p|] eqn:Ep; [|done]. cbn. apply V2. by eapply pair_below. }
  assert (T1 : tracked g1) by (intros n' ip' t; rewrite Hdl, V4; apply G2). specialize (S1 _ G5).
  assert (U1 : forall n' r' rec', n' <> o_name o -> byName g1 !! n' = Some r' -> records g1 !! r' = Some rec' -> r_addresses rec' <> ∅).
  { intros n' r' rec' Hne A B. destruct (Hoth _ _ _ Hne A B). by eapply G3. }
  destruct (r_addresses rec !! u) as [p|] eqn:Ep.
  - destruct (extend_ok g1 _ r rec u p d H1 Hn Hr Ep) as (g2 & b & E & X). rewrite E. cbn [mbind res_bind].
    eexists g2, changed, _. split; [done|]. assert (Hp1 : pair_of g1 (o_name o) u = Some p) by (apply pair_of_Some; eauto).
    assert (K : kept g g2 changed).
    { apply (kept_trans _ g1 _ changed); [done| |apply kept_shape, X]. intros ip' _. by rewrite V3. }
    split; [|split; [|split; [done|split; [exact K|]]]].
    + eapply good_raised; [by eapply extended_raised|]. split; try done. intros n' r' rec' A B. destruct (decide (n' = o_name o)) as [->|]; [|by eapply U1].
      rewrite Hn in A. injection A as <-. rewrite Hr in B. injection B as <-. intros E0. by rewrite E0 in Ep.
    + eapply same_rest_trans; [exact R1|]. destruct X as [[X1 X2 X3 X4 X5 [X6 X7] [X8 X9]] _ _ _ [X10 X11]]. by split.
    + intros n' ip'. rewrite (extended_deadline _ _ _ _ _ _ H1 Hp1 X), !Hdl. unfold ev_observe. case_bool_decide; [|done].
      destruct (deadline_of g (o_name o) u) eqn:E0; [done|]. exfalso. rewrite <-Hdl in E0. unfold deadline_of in E0. rewrite Hp1 in E0. cbn in E0.
      destruct (ro_forward _ H1 _ _ _ _ _ Hn Hr Ep) as (_ & _ & (t & Ht & _) & _). congruence.
  - fold (new_pair r u d g1). destruct (new_pair_ok g1 H1 (o_name o) r rec u d Hn Hr Ep Hc Hd bits changed L1 T1 S1 G6 U1) as (g2 & E & G & R2 & _ & _ & K2 & D2).
    rewrite E. cbn [mbind res_bind]. eexists (count_change g2), _, rc. split; [reflexivity|].
    split; [|split; [|split; [set_solver|split]]].
    + eapply good_raised, G. apply (raised_same _ g2 g2); try done; apply raised_refl.
    + eapply same_rest_trans; [exact R1|]. eapply same_rest_trans; [exact R2|]. by split.
    + apply (kept_trans _ g1 _ changed); [set_solver| |exact K2]. intros ip' _. by rewrite V3.
    + intros n' ip'. change (deadline_of g2 n' ip' = ev_observe (o_name o) u d (deadline_of g) n' ip'). rewrite D2, Hdl. unfold ev_observe. case_bool_decide; [|done].
      assert (deadline_of g (o_name o) u = None) as ->; [|done]. rewrite <-Hdl. unfold deadline_of, pair_of. rewrite Hn. cbn. rewrite Hr. cbn. by rewrite Ep.
Qed.

Lemma observe_ips_ok o d ips : o_bitmap o = bits (o_name o) -> (0 < d)%Z -> Forall (fun ip => IsValid ip = true /\ Addr_wf ip) ips ->
  forall g changed rc, good bits g changed ->
  exists g' changed' b, foldM (observe_ip o d) (g, changed, rc) ips = Ok (g', changed', b) /\ good bits g' changed' /\ same_rest g g' /\ changed ⊆ changed' /\ kept g g' changed' /\
    ev_eq (deadline_of g') (fold_left (fun e ip => ev_observe (o_name o) (Unmap ip) d e) ips (deadline_of g)).
Proof.
  intros Hb Hd Hips. induction Hips as [|ip ips [Hv Hw] _ IH]; intros g changed rc G; [exists g, changed, rc; split_and!; done|].
  destruct (observe_ip_ok o d g changed rc ip Hb G Hv Hw Hd) as (g1 & ch1 & b1 & E1 & G1 & R1 & C1 & K1 & D1). cbn [foldM]. rewrite E1. cbn [mbind res_bind].
  destruct (IH g1 ch1 b1 G1) as (g2 & ch2 & b2 & E2 & G2 & R2 & C2 & K2 & D2). exists g2, ch2, b2. split; [done|]. split; [done|].
  split; [by eapply same_rest_trans|]. split; [set_solver|]. split; [by apply (kept_trans _ g1 _ ch1)|]. etrans; [exact D2|]. cbn [fold_left]. apply fold_left_ev_proper; [|done]. intros a. apply ev_observe_proper.
Qed.

Lemma observe_ok at_ now o g changed rc : (0 <= now)%Z -> observation_ok bits o -> good bits g changed ->
  exists g' changed' b, observe at_ now (g, changed, rc) o = Ok (g', changed', b) /\ good bits g' changed' /\ same_rest g g' /\ changed ⊆ changed' /\ kept g g' changed' /\
    ev_eq (deadline_of g') (ev_observation (window g) at_ now o (deadline_of g)).
Proof.
  intros Hnow [Hb Hips] G. unfold observe, ev_observation, After. cbn [fst]. set (d := (at_ + _)%Z). rewrite <-Z.leb_antisym.
  destruct (Z.leb_spec d now); [by exists g, changed, rc|]. apply observe_ips_ok; try done. lia.
Qed.

Lemma observations_ok at_ now obs : (0 <= now)%Z -> Forall (observation_ok bits) obs -> forall g changed rc, good bits g changed ->
  exists g' changed' b, foldM (observe at_ now) (g, changed, rc) obs = Ok (g', changed', b) /\ good bits g' changed' /\ same_rest g g' /\ changed ⊆ changed' /\ kept g g' changed' /\
    ev_eq (deadline_of g') (fold_left (fun e o => ev_observation (window g) at_ now o e) obs (deadline_of g)).
Proof.
  intros Hnow Hobs. induction Hobs as [|o obs Ho _ IH]; intros g changed rc G; [exists g, changed, rc; split_and!; done|].
  destruct (observe_ok at_ now o g changed rc Hnow Ho G) as (g1 & ch1 & b1 & E1 & G1 & R1 & C1 & K1 & D1). cbn [foldM]. rewrite E1. cbn [mbind res_bind].
  destruct (IH g1 ch1 b1 G1) as (g2 & ch2 & b2 & E2 & G2 & R2 & C2 & K2 & D2). exists g2, ch2, b2. split; [done|]. split; [done|].
  split; [by eapply same_rest_trans|]. split; [set_solver|]. split; [by apply (kept_trans _ g1 _ ch1)|]. etrans; [exact D2|]. rewrite (sr_window _ _ R1). cbn [fold_left]. apply fold_left_ev_proper; [|done]. intros a. apply ev_observation_proper.
Qed.
End Observe.
