(* ===== verification/DomainRegistrySync.v ===== *)
(** * Summaries and the projection

    A rebuilt summary is the union and the intersection of the bitmaps of the names of its
    address. The projection is asked for the summaries of the addresses with rules, all of
    them when they fit, else the ones with the latest deadlines. *)

From S2P Require Import Prelude GoSlices Netip RoutingInstr RoutingEval DomainProjection DomainProjectionCorrect DomainRegistry DomainRegistryCorrect DomainRegistryObserve.

(** ** Words *)

Lemma merge_words_ok op acc words : length acc = length words -> merge_words op acc words = Ok (zip_with op acc words).
Proof.
  revert words. induction acc as [|a acc IH]; intros [|w words]; try done. intros [= E]. cbn. by rewrite IH.
Qed.

Lemma low_bit x n : negb (Z.land (shr x n) 1 =? 0)%Z = tb x n.
Proof.
  pose proof (Z.land_ones (shr x n) 1 ltac:(lia)) as E. change (Z.ones 1) with 1%Z in E. rewrite E. change (2 ^ 1)%Z with 2%Z. rewrite <-Z.bit0_mod.
  change (Z.testbit (shr x n) 0) with (tb (shr x n) 0). rewrite tb_shr, Nat.add_0_l. by destruct (tb x n).
Qed.

Lemma has_bit_tb bm i : has_bit bm i = match bm !! (i / 32) with Some w => tb w (i mod 32) | None => false end.
Proof.
  unfold has_bit, bitmap_has. change 32%Z with (Z.of_nat 32). rewrite <-Nat2Z.inj_div, <-Nat2Z.inj_mod, !Nat2Z.id.
  destruct (bm !! _); [apply low_bit|done].
Qed.

Section Zip.
Context (op : Z -> Z -> Z) (f : bool -> bool -> bool) (op_bits : forall x y n, tb (op x y) n = f (tb x n) (tb y n)) (f_false : f false false = false).

Lemma has_bit_zip a b i : length a = length b -> has_bit (zip_with op a b) i = f (has_bit a i) (has_bit b i).
Proof.
  intros Hl. rewrite !has_bit_tb, lookup_zip_with. destruct (a !! _) as [x|] eqn:Ea, (b !! _) as [y|] eqn:Eb; cbn; [done| | |done].
  - apply lookup_ge_None in Eb. apply lookup_lt_Some in Ea. lia.
  - apply lookup_ge_None in Ea. apply lookup_lt_Some in Eb. lia.
Qed.

Lemma bitmap_ok_zip a b : (forall x y, (0 <= x)%Z -> (0 <= y)%Z -> (0 <= op x y)%Z) -> bitmap_ok a -> bitmap_ok b -> bitmap_ok (zip_with op a b).
Proof.
  intros Hpos [La Fa] [Lb Fb]. split; [rewrite length_zip_with; lia|].
  clear La Lb. revert b Fb. induction Fa as [|x a Hx _ IH]; intros [|y b] Fb; cbn; try constructor; [|apply IH; by inversion Fb].
  inversion_clear Fb as [|? ? Hy _]. apply tb_fits; [apply Hpos; [apply Hx|apply Hy]|].
  intros n Hn. by rewrite op_bits, (fits_tb _ _ _ Hx Hn), (fits_tb _ _ _ Hy Hn).
Qed.
End Zip.

(** ** Rebuilding *)

Section Rebuild.
Context (g : DomainRegistry) (Hok : reg_ok g).

(** The bitmap and the deadline an index entry refers to. *)
Definition entry_bits (e : nat * nat) : list Z := default [] (r_bitmap <$> records g !! e.1).
Definition entry_deadline (e : nat * nat) : Time := default 0%Z (pairs g !! e.2).
Definition entry_ok (e : nat * nat) : Prop :=
  exists rec t, records g !! e.1 = Some rec /\ pairs g !! e.2 = Some t /\ bitmap_ok (r_bitmap rec).

Definition later_priority (q : Time) (e : nat * nat) : Time :=
  if negb (domainBitmapAllZero (entry_bits e)) && (q <? entry_deadline e)%Z then entry_deadline e else q.

Lemma rebuild_fold es : forall s, Forall entry_ok es -> bitmap_ok (s_bump s) -> bitmap_ok (s_routing s) ->
  exists s', foldM (rebuild_member g) s es = Ok s' /\ s_domains s' = s_domains s /\ bitmap_ok (s_bump s') /\ bitmap_ok (s_routing s') /\
    (forall i, has_bit (s_bump s') i = has_bit (s_bump s) i || existsb (fun e => has_bit (entry_bits e) i) es) /\
    (forall i, has_bit (s_routing s') i = has_bit (s_routing s) i && forallb (fun e => has_bit (entry_bits e) i) es) /\
    s_priority s' = fold_left later_priority es (s_priority s).
Proof.
  induction es as [|e es IH]; intros s He Hb Hr.
  { exists s. split_and!; try done; intros i; cbn; [by rewrite orb_false_r|by rewrite andb_true_r]. }
  inversion_clear He as [|? ? (rec & t & E1 & E2 & E3) He'].
  assert (L1 : length (s_bump s) = length (r_bitmap rec)) by (destruct Hb as [-> _], E3 as [-> _]; done).
  assert (L2 : length (s_routing s) = length (r_bitmap rec)) by (destruct Hr as [-> _], E3 as [-> _]; done).
  assert (Em : rebuild_member g s e = Ok (mkIPRecord (s_domains s) (zip_with Z.lor (s_bump s) (r_bitmap rec)) (zip_with Z.land (s_routing s) (r_bitmap rec))
     (if negb (domainBitmapAllZero (r_bitmap rec)) && After t (s_priority s) then t else s_priority s))).
  { unfold rebuild_member. rewrite E1, E2. cbn [idx mbind res_bind]. by rewrite !merge_words_ok by done. }
  cbn [foldM]. rewrite Em. cbn [mbind res_bind].
  destruct (IH (mkIPRecord (s_domains s) (zip_with Z.lor (s_bump s) (r_bitmap rec)) (zip_with Z.land (s_routing s) (r_bitmap rec))
     (if negb (domainBitmapAllZero (r_bitmap rec)) && After t (s_priority s) then t else s_priority s))) as (s' & F1 & F2 & F3 & F4 & F5 & F6 & F7).
  - done.
  - apply (bitmap_ok_zip _ orb tb_lor); [done| |done|done]. intros. by apply Z.lor_nonneg.
  - apply (bitmap_ok_zip _ andb tb_land); [done| |done|done]. intros. apply Z.land_nonneg. by left.
  - exists s'. assert (Eb : entry_bits e = r_bitmap rec) by (unfold entry_bits; by rewrite E1).
    split_and!; try done; cbn [existsb forallb fold_left].
    + intros i. rewrite F5. cbn [s_bump]. rewrite (has_bit_zip _ orb tb_lor) by done. rewrite Eb. by rewrite orb_assoc.
    + intros i. rewrite F6. cbn [s_routing]. rewrite (has_bit_zip _ andb tb_land) by done. rewrite Eb. by rewrite andb_assoc.
    + rewrite F7. cbn [s_priority]. f_equal. unfold later_priority, entry_deadline, After. by rewrite Eb, E2.
Qed.

Lemma priority_above es q : (q <= fold_left later_priority es q)%Z /\
  forall e, e ∈ es -> domainBitmapAllZero (entry_bits e) = false -> (entry_deadline e <= fold_left later_priority es q)%Z.
Proof.
  revert q. induction es as [|e es IH]; intros q; [split; [done|by intros e ?%elem_of_nil]|]. cbn [fold_left]. destruct (IH (later_priority q e)) as [A B].
  assert (Hq : (q <= later_priority q e)%Z) by (unfold later_priority; destruct (_ && _) eqn:E; [apply andb_prop in E as [_ E]; lia|lia]).
  split; [lia|]. intros e' [->|He']%elem_of_cons Hz; [|by apply B]. etrans; [|exact A]. unfold later_priority. rewrite Hz. cbn. destruct (Z.ltb_spec q (entry_deadline e)); lia.
Qed.

Lemma priority_reached es q : fold_left later_priority es q = q \/
  exists e, e ∈ es /\ domainBitmapAllZero (entry_bits e) = false /\ entry_deadline e = fold_left later_priority es q.
Proof.
  revert q. induction es as [|e es IH]; intros q; [by left|]. cbn [fold_left]. destruct (IH (later_priority q e)) as [E|(e' & He & Hz & E)].
  - rewrite E. unfold later_priority. destruct (_ && _) eqn:Eb; [|by left]. apply andb_prop in Eb as [Ez _]. right. exists e. split; [by apply elem_of_cons; left|].
    split; [by apply negb_true_iff in Ez|done].
  - right. exists e'. split; [by apply elem_of_cons; right|done].
Qed.
End Rebuild.

Lemma zero_bits n i : has_bit (replicate n 0%Z) i = false.
Proof. rewrite has_bit_tb. destruct (replicate n 0%Z !! _) eqn:E; [|done]. apply lookup_replicate in E as [-> _]. apply tb_zero. Qed.

Lemma one_bits i : i < MaxMatchSetLen -> has_bit (replicate domainBitmapWords (2 ^ 32 - 1)%Z) i = true.
Proof.
  intros Hi. rewrite has_bit_tb. rewrite lookup_replicate_2 by (apply Nat.Div0.div_lt_upper_bound; exact Hi).
  unfold tb. change (2 ^ 32 - 1)%Z with (Z.ones 32). apply Z.ones_spec_low. pose proof (Nat.mod_upper_bound i 32). lia.
Qed.

Lemma map_replicate {A B} (f : A -> B) y l : (forall x, f x = y) -> map f l = replicate (length l) y.
Proof. intros H. induction l as [|a l IH]; [done|]. cbn. by rewrite H, IH. Qed.

(** [g'] differs from [g] in summaries only. *)
Record resummed (g g' : DomainRegistry) : Prop := {
  rs_names : byName g' = byName g;
  rs_records : records g' = records g;
  rs_pairs : pairs g' = pairs g;
  rs_next : next_ref g' = next_ref g;
  rs_gc : nextGC g' = nextGC g;
  rs_rest : same_rest g g';
  rs_domains : forall ip, s_domains <$> byIP g' !! ip = s_domains <$> byIP g !! ip;
}.

Lemma resummed_refl g : resummed g g.
Proof. by split. Qed.
Lemma resummed_trans g1 g2 g3 : resummed g1 g2 -> resummed g2 g3 -> resummed g1 g3.
Proof.
  intros [A1 A2 A3 A4 A5 A6 A7] [B1 B2 B3 B4 B5 B6 B7]. split; [congruence..|by eapply same_rest_trans|]. intros ip. by rewrite B7, A7.
Qed.

Lemma resummed_pair g g' n ip : resummed g g' -> pair_of g' n ip = pair_of g n ip.
Proof. intros [A1 A2 A3 A4 A5 A6 A7]. unfold pair_of. by rewrite A1, A2. Qed.
Lemma resummed_deadline g g' n ip : resummed g g' -> deadline_of g' n ip = deadline_of g n ip.
Proof. intros R. unfold deadline_of. by rewrite (resummed_pair _ _ _ _ R), (rs_pairs _ _ R). Qed.

Lemma resummed_member g g' s s' bm t : resummed g g' -> s_domains s' = s_domains s -> member g' s' bm t <-> member g s bm t.
Proof. intros R E. unfold member. by rewrite E, (rs_pairs _ _ R), (rs_records _ _ R). Qed.

Lemma resummed_ok g g' : resummed g g' -> (forall ip s, byIP g' !! ip = Some s -> bitmap_ok (s_bump s) /\ bitmap_ok (s_routing s)) -> reg_ok g -> reg_ok g'.
Proof.
  intros R Hb [H1 H2 H3 H4 H5 H6]. pose proof R as [A1 A2 A3 A4 A5 A6 A7]. assert (Hd : forall ip s', byIP g' !! ip = Some s' -> exists s, byIP g !! ip = Some s /\ s_domains s' = s_domains s).
  { intros ip s' Hs. specialize (A7 ip). rewrite Hs in A7. cbn in A7. destruct (byIP g !! ip) as [s|]; [|done]. exists s. split; [done|]. by injection A7. }
  split.
  - rewrite A1. apply H1.
  - rewrite A1, A2, A4. apply H2.
  - intros n r rec ip p. rewrite A1, A2, A3, A4. intros Hn Hr Hp. destruct (H3 _ _ _ _ _ Hn Hr Hp) as (? & ? & ? & s & Hs & Hdom). split_and!; try done.
    specialize (A7 ip). rewrite Hs in A7. cbn in A7. destruct (byIP g' !! ip) as [s'|]; [|done]. exists s'. split; [done|]. injection A7 as ->. done.
  - intros ip s' r p Hs' Hp. destruct (Hd _ _ Hs') as (s & Hs & E). rewrite A1, A2. eapply H4; [done|]. by rewrite <-E.
  - intros ip s' Hs'. destruct (Hd _ _ Hs') as (s & Hs & E). rewrite E. split; [by eapply H5|by eapply Hb].
  - intros n ip n' ip' p. rewrite !(resummed_pair g g') by done. apply H6.
Qed.

Section Summaries.
Context (order : map_order).

Lemma rebuild_ok g ip s : reg_ok g -> byIP g !! ip = Some s ->
  exists s', rebuild order g s = Ok s' /\ s_domains s' = s_domains s /\ bitmap_ok (s_bump s') /\ bitmap_ok (s_routing s') /\ summary_ok g s'.
Proof.
  intros H Hs. destruct (ro_ip _ H _ _ Hs) as (_ & Hb & Hr). unfold rebuild. set (es := range order (s_domains s)).
  assert (Hes : forall e, e ∈ es -> entry_ok g e).
  { intros [r p] He. apply elem_of_range in He. destruct (ro_backward _ H _ _ _ _ Hs He) as (n & rec & A & B & C). destruct (ro_record _ H _ _ A) as (_ & rec' & D & E).
    destruct (ro_forward _ H _ _ _ _ _ A B C) as (_ & _ & (t & Ht & _) & _). exists rec, t. split_and!; try done. congruence. }
  assert (Hm : forall bm t, member g s bm t <-> exists e, e ∈ es /\ entry_bits g e = bm /\ entry_deadline g e = t).
  { intros bm t. split.
    - intros (r & p & A & B & C). exists (r, p). split; [by apply elem_of_range|]. unfold entry_bits, entry_deadline. cbn. by rewrite B, C.
    - intros ([r p] & He & <- & <-). exists r, p. split; [by apply elem_of_range in He|]. destruct (Hes _ He) as (rec & t & A & B & _).
      unfold entry_bits, entry_deadline. cbn in *. by rewrite A, B. }
  rewrite (map_replicate _ 0%Z), (map_replicate _ (2 ^ 32 - 1)%Z) by done. destruct Hb as [-> _], Hr as [-> _].
  destruct (rebuild_fold g es (mkIPRecord (s_domains s) (replicate domainBitmapWords 0%Z) (replicate domainBitmapWords (2 ^ 32 - 1)%Z) 0))
    as (s' & E & F2 & F3 & F4 & F5 & F6 & F7); [by apply Forall_forall| | |].
  1,2: cbn [s_bump s_routing]; split; [by rewrite length_replicate|]; apply Forall_replicate; unfold fits; cbn; lia.
  cbn [s_domains s_bump s_routing s_priority] in *. exists s'. split; [done|]. split; [done|]. split; [done|]. split; [done|].
  assert (Hm' : forall bm t, member g s' bm t <-> member g s bm t) by (intros; apply resummed_member; [apply resummed_refl|done]). split.
  - intros i Hi. rewrite F5, zero_bits, orb_false_l. setoid_rewrite Hm'. setoid_rewrite Hm. rewrite existsb_exists. setoid_rewrite <-list_elem_of_In. naive_solver.
  - intros i Hi. rewrite F6, one_bits by done. rewrite andb_true_l. setoid_rewrite Hm'. setoid_rewrite Hm. rewrite forallb_forall. setoid_rewrite <-list_elem_of_In. naive_solver.
  - intros bm t. rewrite Hm', Hm, F7. intros (e & He & <- & <-) Hz. by apply priority_above.
  - rewrite F7. destruct (priority_reached g es 0) as [->|(e & He & Hz & Ee)]; [by left|right]. exists (entry_bits g e). rewrite Hm', Hm. split; [by exists e|done].
Qed.

Lemma rebuild_ip_ok bits g changed ip : good bits g changed ->
  exists g', rebuild_ip order g ip = Ok g' /\ good bits g' (changed ∖ {[ip]}) /\ resummed g g' /\ (forall ip', ip' <> ip -> byIP g' !! ip' = byIP g !! ip').
Proof.
  intros [G1 G2 G3 G4 G5 G6]. unfold rebuild_ip. destruct (byIP g !! ip) as [s|] eqn:Es.
  2: { exists g. split; [done|]. split; [|split; [apply resummed_refl|done]]. split; try done; [|intros ip'; set_solver].
       intros ip' s' Hs' Hc. apply (G5 ip'); [done|]. assert (ip' <> ip) by congruence. set_solver. }
  destruct (rebuild_ok g ip s G1 Es) as (s' & E & F1 & F2 & F3 & F4). rewrite E. cbn [mbind res_bind]. eexists. split; [reflexivity|]. set (g' := with_byIP _ _).
  assert (R : resummed g g').
  { split; try done. intros ip'. cbn. destruct (decide (ip' = ip)) as [->|]; [rewrite lookup_insert_eq, Es; cbn; by rewrite F1|by rewrite lookup_insert_ne]. }
  assert (Hi : forall ip' s0, byIP g' !! ip' = Some s0 -> (ip' = ip /\ s0 = s') \/ (ip' <> ip /\ byIP g !! ip' = Some s0)).
  { intros ip' s0. cbn. destruct (decide (ip' = ip)) as [->|]; [rewrite lookup_insert_eq; intros [= <-]; by left|rewrite lookup_insert_ne by done; by right]. }
  split; [|split; [done|intros ip' Hne; cbn; by rewrite lookup_insert_ne]]. split.
  - eapply resummed_ok, G1; [done|]. intros ip' s0 [[-> ->]|[_ Hs0]]%Hi; [done|]. by eapply (ro_ip _ G1).
  - intros n ip' t. rewrite (resummed_deadline g g') by done. apply G2.
  - intros n r rec. apply G3.
  - intros n r rec. apply G4.
  - intros ip' s0 [[-> ->]|[Hne Hs0]]%Hi Hc; (eapply summary_ext; [intros bm t; by apply (resummed_member g g')|]); [done|]. apply (G5 ip'); [done|]. set_solver.
  - intros ip' Hc. apply G6. set_solver.
Qed.

Lemma rebuild_ips_ok bits l : forall g changed, good bits g changed ->
  exists g', foldM (rebuild_ip order) g l = Ok g' /\ good bits g' (changed ∖ list_to_set l) /\ resummed g g' /\ (forall ip', ip' ∉ l -> byIP g' !! ip' = byIP g !! ip').
Proof.
  induction l as [|ip l IH]; intros g changed G.
  { exists g. split; [done|]. split; [|split; [apply resummed_refl|done]]. cbn. by rewrite difference_empty_L. }
  destruct (rebuild_ip_ok bits g changed ip G) as (g1 & E1 & G1 & R1 & O1). cbn [foldM]. rewrite E1. cbn [mbind res_bind].
  destruct (IH g1 _ G1) as (g2 & E2 & G2 & R2 & O2). exists g2. split; [done|]. split; [|split; [by eapply resummed_trans|]].
  - by rewrite list_to_set_cons, <-difference_difference_l_L.
  - intros ip' [? ?]%not_elem_of_cons. by rewrite O2, O1.
Qed.

Lemma rebuild_changed_ok bits g changed : good bits g changed ->
  exists g', foldM (rebuild_ip order) g (range_set order changed) = Ok g' /\ good bits g' ∅ /\ resummed g g' /\ (forall ip', ip' ∉ changed -> byIP g' !! ip' = byIP g !! ip').
Proof.
  intros G. destruct (rebuild_ips_ok bits (range_set order changed) g changed G) as (g' & E & G' & R & O). exists g'. split; [done|].
  split; [|split; [done|intros ip' Hc; apply O; by rewrite elem_of_range_set]].
  replace (changed ∖ list_to_set (range_set order changed)) with (∅ : gset Addr) in G'; [done|]. apply set_eq. intros x. rewrite elem_of_difference, elem_of_list_to_set, elem_of_range_set. set_solver.
Qed.
End Summaries.

(** ** Requests *)

(** What the kernel should hold for an address: the summary, if it has rules. *)
Definition rules_summary (g : DomainRegistry) (ip : Addr) : option domainBitmaps :=
  s ← byIP g !! ip; if has_rules s then Some (summary s) else None.

Lemma rules_summary_kept g g' changed ip : kept g g' changed -> ip ∉ changed -> rules_summary g' ip = rules_summary g ip.
Proof.
  intros K Hip. specialize (K ip Hip). unfold rules_summary, has_rules. destruct (byIP g' !! ip) as [s'|], (byIP g !! ip) as [s|]; cbn in *; try done.
  injection K as E1 E2. rewrite E1. unfold summary. by rewrite E1, E2.
Qed.

(** The plan of the projection, up to the addresses still to be synchronised. *)
Record planned (g : DomainRegistry) (k : domainProjection) (changed : gset Addr) : Prop := {
  pl_size : size (desired k) <= k_max k;
  pl_faithful : forall ip v, ip ∉ changed -> desired k !! ip = Some v -> rules_summary g ip = Some v;
  pl_complete : size (desired k) < k_max k -> forall ip, ip ∉ changed -> desired k !! ip = rules_summary g ip;
}.

(** The state between operations. *)
Record projected (g : DomainRegistry) (m : domain_map) (changed : gset Addr) : Prop := {
  pj_inv : proj_inv true (kernel_ g) m;
  pj_force : k_force (kernel_ g) = false;
  pj_planned : planned g (kernel_ g) changed;
}.

Lemma planned_kept g g' k c1 c2 : c1 ⊆ c2 -> kept g g' c2 -> planned g k c1 -> planned g' k c2.
Proof.
  intros Hc K [P3 P4 P5]. split; [done| |].
  - intros ip v Hip. rewrite (rules_summary_kept _ _ _ _ K Hip). apply P4. set_solver.
  - intros Hlt ip Hip. rewrite (rules_summary_kept _ _ _ _ K Hip). apply P5; [done|]. set_solver.
Qed.

Lemma projected_kept g g' m c1 c2 : c1 ⊆ c2 -> kernel_ g' = kernel_ g -> kept g g' c2 -> projected g m c1 -> projected g' m c2.
Proof. intros Hc Ek K [P1 P2 P3]. split; rewrite ?Ek; [done|done|]. by eapply planned_kept. Qed.

(** The requests of [syncProjection] are of this form. *)
Definition wants (value : Addr -> option domainBitmaps) (k : domainProjection) (ips : list Addr) : domainProjection :=
  fold_left (fun k ip => want ip (value ip) false k) ips k.

Lemma wants_spec value ips : forall k m, proj_inv true k m -> Forall canonical ips -> (forall ip v, ip ∈ ips -> value ip = Some v -> value_fits v = true) ->
  proj_inv true (wants value k ips) m /\ k_max (wants value k ips) = k_max k /\ k_force (wants value k ips) = k_force k /\ resident (wants value k ips) = resident k /\
  forall ip, desired (wants value k ips) !! ip = if decide (ip ∈ ips) then value ip else desired k !! ip.
Proof.
  unfold wants. induction ips as [|ip ips IH]; intros k m H Hc Hv; cbn [fold_left].
  { by split_and!. }
  inversion_clear Hc as [|? ? Hip Hips]. destruct (IH (want ip (value ip) false k) m) as (A & B & C & D & E).
  - apply want_inv; [done|done|]. intros v Hval. apply (Hv ip); [by apply elem_of_cons; left|done].
  - done.
  - intros ip' v Hin. apply Hv. by apply elem_of_cons; right.
  - rewrite want_max in B. rewrite want_force in C. rewrite want_resident in D. split_and!; try done. intros ip'. rewrite E, want_desired. destruct (decide (ip' ∈ ips)).
    + by rewrite decide_True by (by apply elem_of_cons; right).
    + destruct (decide (ip' = ip)) as [->|].
      * rewrite lookup_partial_alter_eq. by rewrite decide_True by (by apply elem_of_cons; left).
      * rewrite lookup_partial_alter_ne by done. by rewrite decide_False by (by apply not_elem_of_cons).
Qed.

Section Projection.
Context (order : map_order).

Lemma request_changed_eq g changed k : request_changed order g changed k = wants (rules_summary g) k (range_set order changed).
Proof.
  unfold request_changed, wants. generalize (range_set order changed). intros l. revert k. induction l as [|ip l IH]; intros k; [done|]. cbn [fold_left].
  apply IH.
Qed.

(** *** Selection *)

Lemma candidates_spec g ip : ip ∈ candidates order g <-> is_Some (rules_summary g ip).
Proof.
  unfold candidates. rewrite list_elem_of_fmap. unfold rules_summary. split.
  - intros ([ip' s] & -> & [Hr Hin]%list_elem_of_filter). apply elem_of_range in Hin. cbn in *. rewrite Hin. cbn. destruct (has_rules s); [by eexists|done].
  - intros [v Hv]. destruct (byIP g !! ip) as [s|] eqn:Es; [|done]. cbn in Hv. exists (ip, s). split; [done|]. apply list_elem_of_filter. cbn.
    split; [by destruct (has_rules s)|]. by apply elem_of_range.
Qed.

Lemma candidates_NoDup g : NoDup (candidates order g).
Proof.
  unfold candidates. pose proof (NoDup_range order (byIP g)) as H. revert H. generalize (range order (byIP g)). intros l. induction l as [|[ip s] l IH]; intros H; [constructor|].
  apply NoDup_cons in H as [H1 H2]. rewrite filter_cons. destruct (decide _); [|by apply IH]. cbn [map fst]. constructor; [|by apply IH].
  intros ([ip' s'] & -> & [_ Hin]%list_elem_of_filter)%list_elem_of_fmap. apply H1. by apply (list_elem_of_fmap_2 fst l (ip', s')).
Qed.

Lemma select_spec g : NoDup (select_residents order g) /\ length (select_residents order g) <= k_max (kernel_ g) /\
  (forall ip, ip ∈ select_residents order g -> is_Some (rules_summary g ip)) /\
  (length (select_residents order g) < k_max (kernel_ g) -> forall ip, is_Some (rules_summary g ip) -> ip ∈ select_residents order g).
Proof.
  unfold select_residents. set (max := k_max _). assert (Hl : (if max <? length (candidates order g) then SortStable (candidate_le g) (candidates order g) else candidates order g) ≡ₚ candidates order g).
  { destruct (_ <? _); [apply SortStable_Permutation|done]. }
  revert Hl. generalize (if max <? length (candidates order g) then SortStable (candidate_le g) (candidates order g) else candidates order g). intros l Hl.
  rewrite length_take. split_and!.
  - apply (sublist_NoDup _ l); [rewrite Hl; apply candidates_NoDup|apply sublist_take].
  - lia.
  - intros ip Hip. apply candidates_spec. rewrite <-Hl. by eapply elem_of_take in Hip as (? & ? & _); eapply list_elem_of_lookup_2.
  - intros Hlt ip Hip. rewrite take_ge by lia. rewrite Hl. by apply candidates_spec.
Qed.

Lemma fold_left_filter_wants {A} (f : A -> Addr) (keep : A -> bool) value l : forall k,
  fold_left (fun k e => if keep e then k else want (f e) (value (f e)) false k) l k = wants value k (map f (filter (fun e => keep e = false) l)).
Proof.
  induction l as [|e l IH]; intros k; [done|]. cbn [fold_left]. rewrite filter_cons, IH. destruct (keep e); [rewrite decide_False by done|rewrite decide_True by done]; done.
Qed.

Lemma filter_ext_elem {A} (P Q : A -> Prop) `{!forall x, Decision (P x)} `{!forall x, Decision (Q x)} (l : list A) :
  (forall x, x ∈ l -> P x <-> Q x) -> filter P l = filter Q l.
Proof.
  induction l as [|x l IH]; intros Hiff; [done|]. rewrite !filter_cons. rewrite IH by (intros y Hy; apply Hiff; by apply elem_of_cons; right).
  rewrite (decide_ext (P x) (Q x)) by (apply Hiff; by apply elem_of_cons; left). done.
Qed.

Lemma fold_left_pick_wants (pick : Addr -> bool) value l : NoDup l -> forall k,
  fold_left (fun k ip => if bool_decide (desired k !! ip = None) || pick ip then want ip (value ip) false k else k) l k =
  wants value k (filter (fun ip => bool_decide (desired k !! ip = None) || pick ip = true) l).
Proof.
  induction 1 as [|ip l Hni _ IH]; intros k; [done|]. cbn [fold_left]. rewrite filter_cons. destruct (bool_decide _ || pick ip) eqn:E.
  - rewrite decide_True by done. rewrite IH. cbn [wants fold_left]. unfold wants. f_equal. apply filter_ext_elem. intros ip' Hip'.
    rewrite want_desired, lookup_partial_alter_ne; [done|]. intros ->. done.
  - rewrite decide_False by done. apply IH.
Qed.

Lemma request_selected_spec g m changed k : proj_inv true k m -> (forall ip s, byIP g !! ip = Some s -> canonical ip /\ value_fits (summary s) = true) ->
  (forall ip v, ip ∉ changed -> desired k !! ip = Some v -> rules_summary g ip = Some v) ->
  let k' := request_selected order g changed k in
  proj_inv true k' m /\ k_max k' = k_max k /\ k_force k' = k_force k /\ forall ip, desired k' !! ip = if decide (ip ∈ select_residents order g) then rules_summary g ip else None.
Proof.
  intros H Hg Hf. cbv zeta. unfold request_selected. destruct (select_spec g) as (_ & _ & Hsel & _). set (chosen := list_to_set (select_residents order g) : gset Addr).
  assert (Hch : forall ip, ip ∈ chosen <-> ip ∈ select_residents order g) by (intros ip; apply elem_of_list_to_set).
  rewrite (fold_left_filter_wants fst (fun e => bool_decide (e.1 ∈ chosen)) (fun _ => None)).
  rewrite fold_left_pick_wants by apply NoDup_range_set. set (l1 := map fst _).
  assert (Hl1 : forall ip, ip ∈ l1 <-> is_Some (desired k !! ip) /\ ip ∉ chosen).
  { intros ip. unfold l1. rewrite list_elem_of_fmap. split.
    - intros ([ip' v] & -> & [Hc Hin]%list_elem_of_filter). apply elem_of_range in Hin. cbn in *. split; [by eexists|]. by apply bool_decide_eq_false in Hc.
    - intros [[v Hv] Hc]. exists (ip, v). split; [done|]. apply list_elem_of_filter. split; [by apply bool_decide_eq_false|by apply elem_of_range]. }
  destruct (wants_spec (fun _ => None) l1 k m H) as (A1 & A2 & A3 & A4 & A5); [|done|].
  { apply Forall_forall. intros ip Hip%Hl1. apply (pi_keys _ _ _ H). left. apply Hip. }
  set (k1 := wants (fun _ => None) k l1) in *. set (l2 := filter _ _).
  assert (Hl2 : forall ip, ip ∈ l2 <-> ip ∈ chosen /\ (desired k1 !! ip = None \/ ip ∈ changed)).
  { intros ip. unfold l2. rewrite list_elem_of_filter, elem_of_range_set, orb_true_iff, !bool_decide_eq_true. naive_solver. }
  assert (Hby : forall ip, ip ∈ chosen -> exists s, byIP g !! ip = Some s /\ rules_summary g ip = Some (summary s)).
  { intros ip Hip%Hch. destruct (Hsel _ Hip) as [v Hv]. unfold rules_summary in *. destruct (byIP g !! ip) as [s|]; [|done]. exists s. cbn in *. by destruct (has_rules s). }
  destruct (wants_spec (fun ip => summary <$> byIP g !! ip) l2 k1 m A1) as (B1 & B2 & B3 & B4 & B5).
  { apply Forall_forall. intros ip [Hip _]%Hl2. destruct (Hby _ Hip) as (s & Hs & _). by apply (Hg _ _ Hs). }
  { intros ip v _ Hv. destruct (byIP g !! ip) as [s|] eqn:Es; [|done]. injection Hv as <-. by apply (Hg _ _ Es). }
  split_and!; [done|congruence|congruence|]. intros ip. rewrite B5, A5. destruct (decide (ip ∈ select_residents order g)) as [Hs%Hch|Hs].
  - destruct (Hby _ Hs) as (s & Es & ->). destruct (decide (ip ∈ l2)) as [|Hn]; [by rewrite Es|]. rewrite decide_False by (rewrite Hl1; naive_solver).
    rewrite Hl2 in Hn. destruct (desired k !! ip) as [v|] eqn:Ev; [|exfalso; apply Hn; split; [done|left]; rewrite A5, decide_False; [done|rewrite Hl1; naive_solver]].
    rewrite <-(Hf ip v); [by destruct (Hby _ Hs) as (s' & Es' & ->); congruence| |done]. intros Hc. apply Hn. by split; [|right].
  - rewrite decide_False by (rewrite Hl2, Hch; naive_solver). destruct (decide (ip ∈ l1)) as [|Hn]; [done|]. rewrite Hl1, Hch in Hn.
    destruct (desired k !! ip) eqn:Ev; [|done]. exfalso. apply Hn. by split.
Qed.

(** *** Synchronisation *)

Lemma reg_ok_address g ip s : reg_ok g -> byIP g !! ip = Some s -> canonical ip /\ value_fits (summary s) = true.
Proof.
  intros H Hs. destruct (ro_ip _ H _ _ Hs) as (Hne & [L1 _] & [L2 _]). split.
  - apply map_choose in Hne as (r & p & Hd). destruct (ro_backward _ H _ _ _ _ Hs Hd) as (n & rec & A & B & C). by destruct (ro_forward _ H _ _ _ _ _ A B C).
  - unfold value_fits. cbn. by rewrite L1, L2, Nat.eqb_refl.
Qed.

Lemma rules_summary_fits g ip v : reg_ok g -> rules_summary g ip = Some v -> canonical ip /\ value_fits v = true.
Proof.
  intros H. unfold rules_summary. destruct (byIP g !! ip) as [s|] eqn:Es; [|done]. cbn. destruct (has_rules s); [|done]. intros [= <-]. by eapply reg_ok_address.
Qed.

(** Both ways to request the summaries of a registry lead to a plan for it. *)
Lemma request_changed_planned g m changed k : reg_ok g -> (forall ip, ip ∈ changed -> canonical ip) -> proj_inv true k m -> planned g k changed -> size (desired k) + size changed <= k_max k ->
  let k' := request_changed order g changed k in proj_inv true k' m /\ k_max k' = k_max k /\ k_force k' = k_force k /\ planned g k' ∅.
Proof.
  intros H Hc Hk [P1 P2 P3] Hsz. cbv zeta. rewrite request_changed_eq. destruct (wants_spec (rules_summary g) (range_set order changed) k m Hk) as (A1 & A2 & A3 & _ & A5).
  { apply Forall_forall. intros ip. rewrite elem_of_range_set. apply Hc. }
  { intros ip v _ Hv. by apply (rules_summary_fits g ip). }
  set (k' := wants _ _ _) in *. split_and!; try done.
  assert (Hd : forall ip, desired k' !! ip = if decide (ip ∈ changed) then rules_summary g ip else desired k !! ip).
  { intros ip. rewrite A5. apply decide_ext. apply elem_of_range_set. }
  assert (Hs : size (desired k') <= size (desired k) + size changed).
  { rewrite <-(size_dom (desired k')), <-(size_dom (desired k)). trans (size (dom (desired k) ∪ changed)); [apply subseteq_size|rewrite size_union_alt].
    - intros ip. rewrite elem_of_union, !elem_of_dom, Hd. case_decide; [by right|by left].
    - assert (size (changed ∖ dom (desired k)) <= size changed) by (apply subseteq_size; set_solver). lia. }
  split; [lia| |].
  - intros ip v _. rewrite Hd. case_decide; [done|]. by apply P2.
  - intros Hlt' ip _. rewrite Hd. case_decide as Hin; [done|]. destruct (decide (size (desired k) < k_max k)) as [Hlt|Hge]; [by apply P3|].
    exfalso. assert (Hz : size changed = 0) by lia. apply size_empty_inv in Hz. assert (desired k' = desired k) as E.
    { apply map_eq. intros ip'. rewrite Hd. rewrite decide_False; [done|]. rewrite Hz. set_solver. }
    rewrite E in Hlt'. lia.
Qed.

Lemma request_selected_planned g m changed k : reg_ok g -> proj_inv true k m -> planned g k changed -> k_max (kernel_ g) = k_max k ->
  let k' := request_selected order g changed k in proj_inv true k' m /\ k_max k' = k_max k /\ k_force k' = k_force k /\ planned g k' ∅.
Proof.
  intros H Hk [P1 P2 P3] Hm. cbv zeta. destruct (request_selected_spec g m changed k Hk) as (A1 & A2 & A3 & A4); [intros ip s; by apply reg_ok_address|done|].
  set (k' := request_selected _ _ _ _) in *. split_and!; try done. destruct (select_spec g) as (S1 & S2 & S3 & S4). rewrite Hm in *.
  assert (Hs : size (desired k') = length (select_residents order g)).
  { rewrite <-(size_dom (desired k')), <-(size_list_to_set (C := gset Addr) _ S1). f_equal. apply set_eq. intros ip.
    rewrite elem_of_dom, A4, elem_of_list_to_set. case_decide as Hin; [|naive_solver]. split; [done|]. by apply S3. }
  split.
  - lia.
  - intros ip v _. rewrite A4. by case_decide.
  - intros Hlt ip _. rewrite A4. case_decide as Hin; [done|]. destruct (rules_summary g ip) eqn:E; [|done]. exfalso. apply Hin, S4; [lia|]. by rewrite E.
Qed.

Lemma sync_requests bits g m changed reconsider : good bits g changed -> proj_inv true (kernel_ g) m -> planned g (kernel_ g) changed ->
  exists g1, foldM (rebuild_ip order) g (range_set order changed) = Ok g1 /\ good bits g1 ∅ /\ resummed g g1 /\
    let k := if negb reconsider && (size (desired (kernel_ g1)) + size changed <=? k_max (kernel_ g1)) then request_changed order g1 changed (kernel_ g1) else request_selected order g1 changed (kernel_ g1) in
    proj_inv true k m /\ k_max k = k_max (kernel_ g) /\ k_force k = k_force (kernel_ g) /\ planned g1 k ∅.
Proof.
  intros G Hk Hp. destruct (rebuild_changed_ok order bits g changed G) as (g1 & E & G1 & R & O). exists g1. split; [done|]. split; [done|]. split; [done|]. cbv zeta.
  pose proof (sr_kernel _ _ (rs_rest _ _ R)) as Ek. rewrite Ek.
  assert (Hp1 : planned g1 (kernel_ g) changed).
  { apply (planned_kept g g1 _ changed changed); [done| |done]. intros ip Hip. by rewrite O. }
  destruct (negb reconsider && _) eqn:Eb.
  - apply andb_prop in Eb as [_ Eb%Nat.leb_le]. apply (request_changed_planned g1 m); [apply G1|apply G|done|done|done].
  - apply (request_selected_planned g1 m); [apply G1|done|done|]. by rewrite Ek.
Qed.

Lemma good_kernel bits g changed k : good bits g changed -> good bits (with_kernel g k) changed.
Proof. intros [[H1 H2 H3 H4 H5 H6] G2 G3 G4 G5 G6]. split; [by split|done|done|done| |done]. intros ip s Hi Hc. by destruct (G5 ip s Hi Hc). Qed.

(** Everything but summaries and the projection is as before. *)
Record synced (g g' : DomainRegistry) : Prop := {
  sy_deadlines : forall n ip, deadline_of g' n ip = deadline_of g n ip;
  sy_bitmaps : forall n, (r ← byName g' !! n; bitmap_at g' r) = (r ← byName g !! n; bitmap_at g r);
  sy_window : window g' = window g;
  sy_lag : activityLag g' = activityLag g;
  sy_clock : evaluatedAt g' = evaluatedAt g;
  sy_batch : activityBatch g' = activityBatch g;
  sy_id : g_id g' = g_id g;
  sy_closed : closed g' = closed g;
  sy_max : k_max (kernel_ g') = k_max (kernel_ g);
}.

Lemma synced_kernel g g1 k : resummed g g1 -> k_max k = k_max (kernel_ g) -> synced g (with_kernel g1 k).
Proof.
  intros R Hk. destruct (rs_rest _ _ R) as [S1 S2 S3 S4 S5 S6 S7]. split; try done.
  - intros n ip. change (deadline_of g1 n ip = deadline_of g n ip). by apply resummed_deadline.
  - intros n. cbn. rewrite (rs_names _ _ R). destruct (byName g !! n); [|done]. cbn. unfold bitmap_at. cbn. by rewrite (rs_records _ _ R).
Qed.

Context (update_error : domain_map -> bytes -> domainBitmaps -> option string).
Context (delete_error : domain_map -> bytes -> option string).
Context (batch_result : domain_map -> list (bytes * domainBitmaps) -> nat * option string).
Local Abbreviation syncProjection := (syncProjection update_error delete_error batch_result order).

Lemma syncProjection_ok bits changed reconsider now g m : good bits g changed -> projected g m changed ->
  exists g' m', syncProjection changed reconsider now (g, m) = Ok (g', m') /\ good bits g' ∅ /\ projected g' m' ∅ /\ synced g g'.
Proof.
  intros G [P1 P2 P3]. destruct (sync_requests bits g m changed reconsider G P1 P3) as (g1 & E & G1 & R & K). unfold DomainRegistry.syncProjection. rewrite E. cbn [mbind res_bind].
  cbv zeta in K. set (k := if negb reconsider && _ then _ else _) in *. destruct K as (K1 & K2 & K3 & K4).
  destruct (publish_ok update_error delete_error batch_result order now k m) as (k' & m' & Ep & Hk' & (D1 & D2 & D3)); [by rewrite K3, P2|].
  rewrite Ep. cbn [mbind res_bind fst snd]. exists (with_kernel g1 k'), m'. split; [done|]. split; [by apply good_kernel|]. split.
  - rewrite K3, P2 in Hk'. split; cbn; [done|congruence|]. destruct K4 as [L1 L2 L3]. split; rewrite ?D1, ?D2; done.
  - apply synced_kernel; [done|congruence].
Qed.
End Projection.
