(* ===== verification/DomainRegistryRun.v ===== *)
(** * Runs of the registry

    Any sequence of operations of the registry returns, keeps the indexes, the summaries
    and the kernel map consistent, and changes the evidence as the operations of an
    abstract store do: observed pairs get their deadline, activity extends it, expired
    pairs are dropped. Map errors and iteration orders are arbitrary at every step. *)

From S2P Require Import Prelude GoSlices Netip RoutingInstr RoutingEval DomainProjection DomainProjectionCorrect DomainRegistry DomainRegistryCorrect DomainRegistryObserve DomainRegistrySync.

(** ** The abstract store *)

Record store := mkStore { evidence_ : Evidence; now_ : Time; queue_ : domainActivityBatch }.

Definition activity (q : domainActivityBatch) : list (domainActivityKey * Time) := concat (map map_to_list q).

Definition ev_refresh (w : Z) (q : domainActivityBatch) (e : Evidence) : Evidence := fun n ip => refresh w n ip (activity q) <$> e n ip.
Definition ev_expire (cutoff : Time) (e : Evidence) : Evidence := fun n ip => e n ip ≫= unexpired cutoff.

Definition st_drain (w : Z) (s : store) : store :=
  mkStore (ev_refresh w (queue_ s) (evidence_ s)) (latest (activity (queue_ s)) (now_ s)) no_activity.
Definition st_clock (t : Time) (s : store) : store := mkStore (evidence_ s) (Z.max t (now_ s)) (queue_ s).
Definition st_expire (lag : Z) (s : store) : store := mkStore (ev_expire (now_ s - lag) (evidence_ s)) (now_ s) (queue_ s).
Definition st_observe (w : Z) (at_ : Time) (obs : list domainObservation) (s : store) : store :=
  mkStore (fold_left (fun e o => ev_observation w at_ (now_ s) o e) obs (evidence_ s)) (now_ s) (queue_ s).
Definition st_enqueue (key : domainActivityKey) (shard : nat) (at_ : Time) (s : store) : store :=
  mkStore (evidence_ s) (now_ s)
    (alter (fun pending => if After at_ (default 0%Z (pending !! key)) then <[key := at_]> pending else pending) shard (queue_ s)).

Definition st_eq (s1 s2 : store) : Prop := ev_eq (evidence_ s1) (evidence_ s2) /\ now_ s1 = now_ s2 /\ queue_ s1 = queue_ s2.

(** What a registry stores. *)
Definition abs (st : state) : store := mkStore (deadline_of st.1.1) (evaluatedAt st.1.1) (a_pending st.1.2).

(** ** Permutations of the queue *)

Lemma fold_left_max_Permutation {A} (p : A -> bool) (f : A -> Z) l l' : l ≡ₚ l' -> forall t,
  fold_left (fun t e => if p e then Z.max (f e) t else t) l t = fold_left (fun t e => if p e then Z.max (f e) t else t) l' t.
Proof.
  induction 1 as [|x l l' _ IH|x y l|l1 l2 l3 _ IH1 _ IH2]; intros t; cbn [fold_left]; [done|apply IH| |by rewrite IH1].
  f_equal. destruct (p x), (p y); lia.
Qed.

Lemma queued_activity order q : queued order q ≡ₚ activity q.
Proof. unfold queued, activity. induction q as [|b q IH]; [done|]. cbn [map concat]. rewrite IH. unfold range. by rewrite arrange_Permutation. Qed.

Lemma refresh_Permutation w n ip l l' t : l ≡ₚ l' -> refresh w n ip l t = refresh w n ip l' t.
Proof. intros H. by apply (fold_left_max_Permutation (relevant n ip) (fun e => (e.2 + w)%Z)). Qed.

Lemma latest_Permutation l l' t : l ≡ₚ l' -> latest l t = latest l' t.
Proof.
  intros H. unfold latest. pose proof (fold_left_max_Permutation (fun _ : domainActivityKey * Time => true) snd l l' H t) as E. cbn in E.
  assert (Hs : forall l t, fold_left (fun t (e : domainActivityKey * Time) => Z.max t e.2) l t = fold_left (fun t e => Z.max e.2 t) l t).
  { intros l0. induction l0 as [|e l0 IH]; intros t0; [done|]. cbn. by rewrite Z.max_comm, IH. }
  by rewrite !Hs.
Qed.

Lemma activity_none : activity no_activity = [].
Proof. done. Qed.

(** ** The invariant *)

Record state_inv (bits : string -> list Z) (st : state) : Prop := {
  si_good : good bits st.1.1 ∅;
  si_projected : projected st.1.1 st.2 ∅;
  si_clock : (0 <= evaluatedAt st.1.1)%Z;
  si_batch : activityBatch st.1.1 = no_activity;
  si_queue : length (a_pending st.1.2) = domainActivityShards;
}.

Lemma clear_batch (q : domainActivityBatch) : length q = domainActivityShards -> map (fun _ => (∅ : gmap domainActivityKey Time)) q = no_activity.
Proof. intros H. unfold no_activity. rewrite <-H. by apply map_replicate. Qed.

Lemma latest_ge l t : (t <= latest l t)%Z.
Proof. unfold latest. revert t. induction l as [|e l IH]; intros t; cbn; [lia|]. specialize (IH (Z.max t e.2)). lia. Qed.

(** The state inside an operation: activity was applied, the map is still to be told. *)
Record mid (bits : string -> list Z) (g0 g : DomainRegistry) (m : domain_map) (changed : gset Addr) : Prop := {
  md_good : good bits g changed;
  md_projected : projected g m changed;
  md_clock : (0 <= evaluatedAt g)%Z;
  md_batch : activityBatch g = no_activity;
  md_window : window g = window g0;
  md_lag : activityLag g = activityLag g0;
  md_id : g_id g = g_id g0;
  md_closed : closed g = closed g0;
  md_max : k_max (kernel_ g) = k_max (kernel_ g0);
}.

Section Operations.
Context (bits : string -> list Z).
Context (update_error : domain_map -> bytes -> domainBitmaps -> option string).
Context (delete_error : domain_map -> bytes -> option string).
Context (batch_result : domain_map -> list (bytes * domainBitmaps) -> nat * option string).
Context (order : map_order).

Definition owns (g : DomainRegistry) (a : domainActivity) : bool := bool_decide (a_registry a = Some (g_id g)).

Lemma mid_drained es g0 g g' m : drained es g g' -> mid bits g0 g m ∅ -> activityBatch g' = no_activity -> mid bits g0 g' m ∅.
Proof.
  intros [R C] [M1 M2 M3 M4 M5 M6 M7 M8 M9] Hb. pose proof (ra_shape _ _ _ R) as [S1 S2 S3 S4 S5 [S6 S6'] [S7 S7']]. split; try congruence.
  - by eapply good_raised.
  - eapply (projected_kept g g' m ∅ ∅); [done|done| |done]. apply kept_shape, R.
  - rewrite C. pose proof (latest_ge es (evaluatedAt g)). lia.
Qed.

Lemma drain_mid g a m : state_inv bits (g, a, m) ->
  exists g' b, drainActivity order g a = Ok (g', mkActivity (a_registry a) (if owns g a then no_activity else a_pending a), b) /\ mid bits g g' m ∅ /\
    st_eq (abs (g', mkActivity (a_registry a) no_activity, m)) (if owns g a then st_drain (window g) (abs (g, a, m)) else mkStore (deadline_of g) (evaluatedAt g) no_activity).
Proof.
  intros [I1 I2 I3 I4 I5]. cbn [fst snd] in *. assert (M : mid bits g g m ∅) by by split. unfold owns. case_bool_decide as Ho.
  - destruct (drainActivity_ok order g a (go_ok _ _ _ I1) Ho) as (g' & b & E & D & B). rewrite I4 in E. exists g', b. split; [done|].
    split; [eapply mid_drained; [exact D|done|]; rewrite B; by apply clear_batch|]. destruct D as [R C]. split; [|split; [|done]]; cbn.
    + intros n ip. rewrite (ra_deadlines _ _ _ R). unfold ev_refresh. destruct (deadline_of g n ip) as [t|]; [|done]. cbn. f_equal. apply refresh_Permutation, queued_activity.
    + rewrite C. apply latest_Permutation, queued_activity.
  - exists g, false. unfold drainActivity. rewrite bool_decide_eq_false_2 by done. cbn [negb]. destruct a. done.
Qed.

Lemma mid_clock g0 g m t : mid bits g0 g m ∅ -> mid bits g0 (clock t g) m ∅ /\ ev_eq (deadline_of (clock t g)) (deadline_of g) /\ evaluatedAt (clock t g) = Z.max t (evaluatedAt g).
Proof.
  intros M. pose proof (clock_raised t g) as R. assert (Ht : evaluatedAt (clock t g) = Z.max t (evaluatedAt g)) by (unfold clock, After; destruct (Z.ltb_spec (evaluatedAt g) t); cbn; lia).
  split; [|split; [|done]].
  - destruct M as [M1 M2 M3 M4 M5 M6 M7 M8 M9]. pose proof (ra_shape _ _ _ R) as [S1 S2 S3 S4 S5 [S6 S6'] [S7 S7']]. split; try congruence.
    + by eapply good_raised.
    + eapply (projected_kept g _ m ∅ ∅); [done|done| |done]. apply kept_shape, R.
    + lia.
    + unfold clock. by destruct (After t _).
  - intros n ip. rewrite (ra_deadlines _ _ _ R). by destruct (deadline_of g n ip).
Qed.

Lemma mid_rest g0 g g' m c1 c2 : c1 ⊆ c2 -> mid bits g0 g m c1 -> same_rest g g' -> good bits g' c2 -> kept g g' c2 -> mid bits g0 g' m c2.
Proof.
  intros Hc [M1 M2 M3 M4 M5 M6 M7 M8 M9] [S1 S2 S3 S4 S5 S6 S7] G K. split; try congruence. by eapply (projected_kept g).
Qed.

Lemma mid_gc g0 g m : mid bits g0 g m ∅ -> exists g' changed, gc order (evaluatedAt g) g = Ok (g', changed) /\ mid bits g0 g' m changed /\
  ev_eq (deadline_of g') (ev_expire (evaluatedAt g - activityLag g) (deadline_of g)) /\ evaluatedAt g' = evaluatedAt g.
Proof.
  intros M. pose proof (md_good _ _ _ _ _ M) as G. destruct (gc_ok order (evaluatedAt g) g) as (g' & changed & E & D); [apply G..|]. exists g', changed. split; [done|].
  split; [|split; [exact (gd_deadlines _ _ _ _ D)|apply (gd_rest _ _ _ _ D)]]. eapply (mid_rest g0 g g' m ∅ changed); [set_solver|done|apply D|by eapply good_collected|].
  intros ip Hip. by rewrite (gd_others _ _ _ _ D).
Qed.

Lemma mid_sync g0 g a m changed reconsider now : mid bits g0 g m changed -> length (a_pending a) = domainActivityShards ->
  exists g' m', sync_after update_error delete_error batch_result order (g, changed) a m reconsider now = Ok (g', a, m') /\
    state_inv bits (g', a, m') /\ mid bits g0 g' m' ∅ /\ ev_eq (deadline_of g') (deadline_of g) /\ evaluatedAt g' = evaluatedAt g.
Proof.
  intros [M1 M2 M3 M4 M5 M6 M7 M8 M9] Hq. unfold sync_after. cbn [fst snd].
  destruct (syncProjection_ok order update_error delete_error batch_result bits changed reconsider now g m M1 M2) as (g' & m' & E & G & P & Y). rewrite E. cbn [mbind res_bind fst snd].
  exists g', m'. destruct Y as [Y1 Y2 Y3 Y4 Y5 Y6 Y7 Y8 Y9]. split; [done|].
  split; [split; cbn [fst snd]; [done|done|by rewrite Y5|congruence|done]|]. split; [split; [done|done|by rewrite Y5|congruence..]|]. split; [exact Y1|done].
Qed.

(** *** Entry points *)

(** What draining leaves of the store, and of the queue. *)
Definition drained_store (g : DomainRegistry) (a : domainActivity) : store :=
  if owns g a then st_drain (window g) (mkStore (deadline_of g) (evaluatedAt g) (a_pending a)) else mkStore (deadline_of g) (evaluatedAt g) (a_pending a).

Lemma ev_expire_proper cutoff e1 e2 : ev_eq e1 e2 -> ev_eq (ev_expire cutoff e1) (ev_expire cutoff e2).
Proof. intros H n ip. unfold ev_expire. by rewrite H. Qed.

Lemma drain_state g a m : state_inv bits (g, a, m) ->
  exists g' a' b, drainActivity order g a = Ok (g', a', b) /\ mid bits g g' m ∅ /\ st_eq (abs (g', a', m)) (drained_store g a) /\
    length (a_pending a') = domainActivityShards /\ a_registry a' = a_registry a.
Proof.
  intros I. destruct (drain_mid g a m I) as (g' & b & E & M & (S1 & S2 & _)). eexists g', _, b. split; [exact E|]. split; [done|].
  unfold drained_store, st_eq. cbn in *. destruct (owns g a); cbn in *; split_and!; try done. apply (si_queue _ _ I).
Qed.

Lemma flush_spec g a m : state_inv bits (g, a, m) -> closed g = false ->
  exists st', flushActivity update_error delete_error batch_result order (g, a, m) = Ok st' /\ state_inv bits st' /\ mid bits g st'.1.1 st'.2 ∅ /\ a_registry st'.1.2 = a_registry a /\
    st_eq (abs st') (st_expire (activityLag g) (drained_store g a)).
Proof.
  intros I Hc. unfold flushActivity. rewrite Hc. destruct (drain_state g a m I) as (g1 & a1 & b & E1 & M1 & (S1 & S2 & S3) & Q1 & O1). rewrite E1. cbn [mbind res_bind].
  destruct (mid_gc g g1 m M1) as (g2 & changed & E2 & M2 & V2 & C2). rewrite E2. cbn [mbind res_bind].
  destruct (mid_sync g g2 a1 m changed b (evaluatedAt g1) M2 Q1) as (g3 & m3 & E3 & I3 & M3 & V3 & C3). exists (g3, a1, m3). split; [exact E3|]. split; [done|]. split; [done|]. split; [done|].
  cbn in *. split; [|split; [cbn; congruence|done]]. cbn. etrans; [exact V3|]. etrans; [exact V2|]. rewrite S2, (md_lag _ _ _ _ _ M1). by apply ev_expire_proper.
Qed.

Lemma sweep_spec now g a m : state_inv bits (g, a, m) -> closed g = false ->
  exists st', Sweep update_error delete_error batch_result order now (g, a, m) = Ok st' /\ state_inv bits st' /\ mid bits g st'.1.1 st'.2 ∅ /\ a_registry st'.1.2 = a_registry a /\
    st_eq (abs st') (st_expire (activityLag g) (st_clock now (drained_store g a))).
Proof.
  intros I Hc. unfold Sweep. rewrite Hc. destruct (drain_state g a m I) as (g1 & a1 & b & E1 & M1 & (S1 & S2 & S3) & Q1 & O1). rewrite E1. cbn [mbind res_bind].
  destruct (mid_clock g g1 m now M1) as (M1' & V1 & C1). set (g1' := clock now g1) in *.
  destruct (mid_gc g g1' m M1') as (g2 & changed & E2 & M2 & V2 & C2). rewrite E2. cbn [mbind res_bind].
  destruct (mid_sync g g2 a1 m changed b (evaluatedAt g1') M2 Q1) as (g3 & m3 & E3 & I3 & M3 & V3 & C3). exists (g3, a1, m3). split; [exact E3|]. split; [done|]. split; [done|]. split; [done|].
  cbn in *. split; [|split; [cbn; congruence|done]]. cbn. etrans; [exact V3|]. etrans; [exact V2|]. rewrite C1, S2, (md_lag _ _ _ _ _ M1'). apply ev_expire_proper. by etrans.
Qed.

Lemma fold_observations_proper w at_ now obs : Proper (ev_eq ==> ev_eq) (fun e => fold_left (fun e o => ev_observation w at_ now o e) obs e).
Proof. apply fold_left_ev_proper. intros o. apply ev_observation_proper. Qed.

Lemma observe_spec (bits_ok : forall n, bitmap_ok (bits n)) obs at_ g a m : state_inv bits (g, a, m) -> closed g = false -> Forall (observation_ok bits) obs ->
  exists st', ObserveDNS update_error delete_error batch_result order obs at_ (g, a, m) = Ok st' /\ state_inv bits st' /\ mid bits g st'.1.1 st'.2 ∅ /\ a_registry st'.1.2 = a_registry a /\
    st_eq (abs st') (st_observe (window g) at_ obs (st_expire (activityLag g) (st_clock at_ (drained_store g a)))).
Proof.
  intros I Hc Hobs. unfold ObserveDNS. rewrite Hc. destruct (drain_state g a m I) as (g1 & a1 & b & E1 & M1 & (S1 & S2 & S3) & Q1 & O1). rewrite E1. cbn [mbind res_bind].
  destruct (mid_clock g g1 m at_ M1) as (M1' & V1 & C1). set (g1' := clock at_ g1) in *.
  destruct (mid_gc g g1' m M1') as (g2 & changed & E2 & M2 & V2 & C2). rewrite E2. cbn [mbind res_bind].
  destruct (observations_ok bits bits_ok at_ (evaluatedAt g1') obs (md_clock _ _ _ _ _ M1') Hobs g2 changed b (md_good _ _ _ _ _ M2)) as (g3 & ch3 & b3 & E3 & G3 & R3 & Hsub & K3 & V3).
  rewrite E3. cbn [mbind res_bind]. assert (M3 : mid bits g g3 m ch3) by by eapply (mid_rest g g2 g3 m changed).
  destruct (mid_sync g g3 a1 m ch3 b3 (evaluatedAt g1') M3 Q1) as (g4 & m4 & E4 & I4 & M4 & V4 & C4). exists (g4, a1, m4). split; [exact E4|]. split; [done|]. split; [done|]. split; [done|].
  cbn in *. pose proof (sr_clock _ _ R3) as Hc3. split; [|split; [cbn; congruence|done]]. cbn. etrans; [exact V4|]. etrans; [exact V3|].
  rewrite (md_window _ _ _ _ _ M2), C1, S2. apply fold_observations_proper. etrans; [exact V2|]. rewrite C1, S2, (md_lag _ _ _ _ _ M1'). apply ev_expire_proper. by etrans.
Qed.

Lemma state_inv_closed g a m : state_inv bits (g, a, m) -> state_inv bits (with_closed g, a, m).
Proof.
  intros [[[H1 H2 H3 H4 H5 H6] G2 G3 G4 G5 G6] [P1 P2 [P3 P4 P5]] I3 I4 I5]. cbn [fst snd] in *. split; cbn [fst snd]; [|by split|done|done|done].
  split; [by split|done|done|done| |done]. intros ip s Hi Hc. by destruct (G5 ip s Hi Hc).
Qed.

(** Nothing is queued in the registry itself between operations. *)
Lemma apply_nothing g m : state_inv bits (g, mkActivity None no_activity, m) ->
  exists g' b, applyActivity order g = Ok (g', b) /\ mid bits g g' m ∅ /\ ev_eq (deadline_of g') (deadline_of g) /\ evaluatedAt g' = evaluatedAt g.
Proof.
  intros [I1 I2 I3 I4 I5]. cbn [fst snd] in *. destruct (applyActivity_ok order g (go_ok _ _ _ I1)) as (g' & b & E & D & B). exists g', b. split; [done|].
  assert (M : mid bits g g m ∅) by by split. rewrite I4 in D, B. assert (queued order no_activity = []) as Eq by (apply Permutation_nil_r; rewrite queued_activity; done). rewrite Eq in D.
  split; [eapply mid_drained; [exact D|done|]; rewrite B; by apply clear_batch|]. destruct D as [R C]. split; [|done]. intros n ip. rewrite (ra_deadlines _ _ _ R). by destruct (deadline_of g n ip).
Qed.

Lemma close_spec g a m : state_inv bits (g, a, m) -> closed g = false ->
  exists st', Close update_error delete_error batch_result order (g, a, m) = Ok st' /\ state_inv bits st' /\ mid bits (with_closed g) st'.1.1 st'.2 ∅ /\
    a_registry st'.1.2 = (if owns g a then None else a_registry a) /\ st_eq (abs st') (st_expire (activityLag g) (drained_store g a)).
Proof.
  intros I Hc. unfold Close. rewrite Hc. pose proof (state_inv_closed _ _ _ I) as Ic. set (gc_ := with_closed g) in *. cbv zeta. change (g_id gc_) with (g_id g).
  assert (Happly : exists g1 a1 b, applyActivity order (if owns g a then with_batch gc_ (a_pending a) else gc_) = Ok (g1, b) /\ mid bits gc_ g1 m ∅ /\
    a1 = (if owns g a then mkActivity None (activityBatch gc_) else a) /\ st_eq (abs (g1, a1, m)) (drained_store g a) /\ length (a_pending a1) = domainActivityShards).
  { unfold drained_store. destruct (owns g a) eqn:Ho.
    - destruct (drain_mid gc_ a m Ic) as (g1 & b & E1 & M1 & (S1 & S2 & S3)). unfold owns in Ho, E1, S1, S2, S3. change (g_id gc_) with (g_id g) in *. rewrite Ho in *. unfold drainActivity in E1.
      change (g_id gc_) with (g_id g) in E1. rewrite Ho in E1. cbn [negb] in E1.
      destruct (applyActivity order (with_batch gc_ (a_pending a))) as [[g1' b']| |] eqn:Ea; try done. cbn in E1. injection E1 as -> _ ->.
      exists g1, (mkActivity None (activityBatch gc_)), b. split; [done|]. split; [done|]. split; [done|]. assert (Hb : activityBatch gc_ = no_activity) by apply (si_batch _ _ Ic). rewrite Hb. split; [|done]. by split.
    - destruct (apply_nothing gc_ m) as (g1 & b & E1 & M1 & V1 & C1); [destruct Ic; by split|]. exists g1, a, b. split; [done|]. split; [done|]. split; [done|]. split; [|apply I]. by split. }
  destruct Happly as (g1 & a1 & b & E1 & M1 & -> & (S1 & S2 & S3) & Q1). unfold owns in *. destruct (bool_decide _) eqn:Ho; rewrite E1; cbn [mbind res_bind].
  all: destruct (mid_gc gc_ g1 m M1) as (g2 & changed & E2 & M2 & V2 & C2); rewrite E2; cbn [mbind res_bind].
  all: edestruct (mid_sync gc_ g2 _ m changed b (evaluatedAt g1) M2 Q1) as (g3 & m3 & E3 & I3 & M3 & V3 & C3); eexists; split; [exact E3|]; split; [done|]; split; [done|]; split; [done|].
  all: unfold abs in *; cbn [fst snd evidence_ now_ queue_ st_expire] in *; split; [|split; [change (evaluatedAt g3 = now_ (drained_store g a)); congruence|done]].
  all: cbn [evidence_]; etrans; [exact V3|]; etrans; [exact V2|]; rewrite S2, (md_lag _ _ _ _ _ M1); by apply ev_expire_proper.
Qed.

Lemma retry_spec now g a m : state_inv bits (g, a, m) ->
  exists g' m', retryProjection update_error delete_error batch_result order now (g, m) = Ok (g', m') /\ state_inv bits (g', a, m') /\ mid bits g g' m' ∅ /\ ev_eq (deadline_of g') (deadline_of g) /\ evaluatedAt g' = evaluatedAt g.
Proof.
  intros [I1 I2 I3 I4 I5]. cbn [fst snd] in *. unfold retryProjection. destruct (closed g) eqn:Hc; [exists g, m; split_and!; done|].
  destruct I2 as [P1 P2 [L1 L2 L3]]. destruct (publish_ok update_error delete_error batch_result order now (kernel_ g) m) as (k' & m' & E & Hk & (D1 & D2 & D3)); [by rewrite P2|].
  rewrite P2 in Hk. rewrite E. cbn [mbind res_bind fst snd]. exists (with_kernel g k'), m'. split; [done|].
  assert (Pj : projected (with_kernel g k') m' ∅) by (split; cbn; [done|congruence|]; split; rewrite ?D1, ?D2; done).
  split; [split; cbn [fst snd]; [by apply good_kernel|done..]|]. split; [|done]. split; try done. by apply good_kernel.
Qed.
End Operations.

(** ** Runs *)

Inductive operation :=
  | OpEnqueue (key : domainActivityKey) (shard : nat) (at_ : Time)
  | OpFlush
  | OpSweep (now : Time)
  | OpObserve (observations : list domainObservation) (at_ : Time)
  | OpRetry (now : Time)
  | OpClose.

(** What the kernel and the runtime decide during an operation. *)
Record environment := mkEnv {
  update_fails : domain_map -> bytes -> domainBitmaps -> option string;
  delete_fails : domain_map -> bytes -> option string;
  batch_applies : domain_map -> list (bytes * domainBitmaps) -> nat * option string;
  iteration : map_order;
}.

Definition run_op (env : environment) (op : operation) (st : state) : res state :=
  let '(g, a, m) := st in
  match op with
  | OpEnqueue key shard at_ => Ok (g, enqueueShard key shard at_ a, m)
  | OpFlush => flushActivity (update_fails env) (delete_fails env) (batch_applies env) (iteration env) st
  | OpSweep now => Sweep (update_fails env) (delete_fails env) (batch_applies env) (iteration env) now st
  | OpObserve observations at_ => ObserveDNS (update_fails env) (delete_fails env) (batch_applies env) (iteration env) observations at_ st
  | OpRetry now => '(g, m) ← retryProjection (update_fails env) (delete_fails env) (batch_applies env) (iteration env) now (g, m); Ok (g, a, m)
  | OpClose => Close (update_fails env) (delete_fails env) (batch_applies env) (iteration env) st
  end.
Definition run_ops (ops : list (environment * operation)) (st : state) : res state :=
  foldM (fun st e => run_op e.1 e.2 st) st ops.

(** A registry that serves its own queue. *)
Definition initial (id max : nat) (w lag : Z) : state := (newDomainRegistry id max w lag, mkActivity (Some id) no_activity, ∅).

Definition op_ok (bits : string -> list Z) (op : operation) : Prop :=
  match op with
  | OpEnqueue _ shard _ => shard < domainActivityShards
  | OpObserve observations _ => Forall (observation_ok bits) observations
  | _ => True
  end.

(** The same on the store, which is open or closed. *)
Definition st_op (w lag : Z) (op : operation) (s : store * bool) : store * bool :=
  let '(s, shut) := s in
  if shut then (s, true)
  else
    match op with
    | OpEnqueue key shard at_ => (st_enqueue key shard at_ s, false)
    | OpFlush => (st_expire lag (st_drain w s), false)
    | OpSweep now => (st_expire lag (st_clock now (st_drain w s)), false)
    | OpObserve observations at_ => (st_observe w at_ observations (st_expire lag (st_clock at_ (st_drain w s))), false)
    | OpRetry _ => (s, false)
    | OpClose => (st_expire lag (st_drain w s), true)
    end.
Definition st_ops (w lag : Z) (ops : list operation) : store * bool -> store * bool := fold_left (fun s op => st_op w lag op s) ops.
Definition empty_store : store := mkStore (fun _ _ => None) 0 no_activity.

Record serving (bits : string -> list Z) (max : nat) (w lag : Z) (st : state) : Prop := {
  sv_inv : state_inv bits st;
  sv_owner : a_registry st.1.2 = if closed st.1.1 then None else Some (g_id st.1.1);
  sv_window : window st.1.1 = w;
  sv_lag : activityLag st.1.1 = lag;
  sv_max : k_max (kernel_ st.1.1) = max;
}.

Lemma initial_serving bits id max w lag : serving bits max w lag (initial id max w lag).
Proof.
  split; [|done..]. split; cbn [initial fst snd newDomainRegistry]; [| |done|done|done].
  - split; [split|..]; cbn; try (intros *; unfold deadline_of, pair_of; cbn; by rewrite ?lookup_empty); try done; intros *; set_solver.
  - split; [split|done|split]; cbn; rewrite ?map_size_empty; try lia; intros *; unfold rules_summary; cbn; rewrite ?lookup_empty; try done.
    + by intros [[? ?]|[? ?]].
Qed.

#[export] Instance st_eq_equivalence : Equivalence st_eq.
Proof.
  split; [by intros ?; split|by intros ?? (? & ? & ?); split|]. intros s1 s2 s3 (A1 & A2 & A3) (B1 & B2 & B3). split; [by etrans|split; congruence].
Qed.

(** Equal stores stay equal. *)
Lemma st_op_proper w lag op s1 s2 b : st_eq s1 s2 -> st_eq (st_op w lag op (s1, b)).1 (st_op w lag op (s2, b)).1 /\ (st_op w lag op (s1, b)).2 = (st_op w lag op (s2, b)).2.
Proof.
  intros (E1 & E2 & E3). destruct s1 as [e1 t1 q1], s2 as [e2 t2 q2]. cbn in *. subst. destruct b; [done|].
  assert (Hr : ev_eq (ev_refresh w q2 e1) (ev_refresh w q2 e2)) by (intros n ip; unfold ev_refresh; by rewrite E1).
  destruct op; cbn; (split; [|done]); split; cbn; try done; try (by apply ev_expire_proper). apply fold_observations_proper. by apply ev_expire_proper.
Qed.

Section Runs.
Context (bits : string -> list Z) (bits_ok : forall n, bitmap_ok (bits n)) (max : nat) (w lag : Z).


Lemma run_op_ok env op st : serving bits max w lag st -> op_ok bits op ->
  exists st', run_op env op st = Ok st' /\ serving bits max w lag st' /\
    st_eq (abs st') (st_op w lag op (abs st, closed st.1.1)).1 /\ closed st'.1.1 = (st_op w lag op (abs st, closed st.1.1)).2.
Proof.
  intros [I O W L K] Hop. destruct st as [[g a] m]. cbn [fst snd] in *.
  assert (Hdr : closed g = false -> drained_store g a = st_drain w (abs (g, a, m))).
  { intros Hc. unfold drained_store, owns. rewrite Hc in O. rewrite bool_decide_eq_true_2 by done. by rewrite W. }
  assert (Hmid : forall st', closed g = false -> state_inv bits st' -> mid bits g st'.1.1 st'.2 ∅ -> a_registry st'.1.2 = a_registry a -> serving bits max w lag st').
  { intros st' Hc I' [M1 M2 M3 M4 M5 M6 M7 M8 M9] Ha. split; [done| |congruence..]. rewrite Ha, O, M8, M7. done. }
  destruct (closed g) eqn:Hc.
  - exists (g, a, m). assert (S : serving bits max w lag (g, a, m)) by (split; cbn [fst snd]; [done|by rewrite Hc|done..]).
    destruct op; cbn [run_op st_op fst snd]; unfold flushActivity, Sweep, ObserveDNS, Close, retryProjection, enqueueShard; rewrite ?Hc, ?O; cbn; split_and!; done.
  - specialize (Hdr eq_refl). destruct op as [key shard at_| |now|obs at_|now|]; cbn [run_op st_op fst snd].
    + eexists. split; [reflexivity|]. unfold enqueueShard. rewrite O. cbn match. split; [|by split]. destruct I as [I1 I2 I3 I4 I5]. split; cbn [fst snd a_registry]; [|by rewrite Hc|done..].
      split; cbn [fst snd a_pending] in *; try done. etrans; [apply length_alter|done].
    + destruct (flush_spec bits (update_fails env) (delete_fails env) (batch_applies env) (iteration env) g a m I Hc) as (st' & E & I' & M & Ha & S).
      exists st'. split; [done|]. split; [by apply Hmid|]. rewrite <-Hdr, <-L. split; [done|]. by rewrite (md_closed _ _ _ _ _ M).
    + destruct (sweep_spec bits (update_fails env) (delete_fails env) (batch_applies env) (iteration env) now g a m I Hc) as (st' & E & I' & M & Ha & S).
      exists st'. split; [done|]. split; [by apply Hmid|]. rewrite <-Hdr, <-L. split; [done|]. by rewrite (md_closed _ _ _ _ _ M).
    + destruct (observe_spec bits (update_fails env) (delete_fails env) (batch_applies env) (iteration env) bits_ok obs at_ g a m I Hc Hop) as (st' & E & I' & M & Ha & S).
      exists st'. split; [done|]. split; [by apply Hmid|]. rewrite <-Hdr, <-L, <-W. split; [done|]. by rewrite (md_closed _ _ _ _ _ M).
    + destruct (retry_spec bits (update_fails env) (delete_fails env) (batch_applies env) (iteration env) now g a m I) as (g' & m' & E & I' & M & V & C). rewrite E. cbn [mbind res_bind].
      exists (g', a, m'). split; [done|]. split; [by apply Hmid|]. split; [by split|]. cbn. by rewrite (md_closed _ _ _ _ _ M).
    + destruct (close_spec bits (update_fails env) (delete_fails env) (batch_applies env) (iteration env) g a m I Hc) as (st' & E & I' & M & Ha & S).
      exists st'. split; [done|]. destruct M as [M1 M2 M3 M4 M5 M6 M7 M8 M9]. unfold owns in Ha. rewrite O, bool_decide_eq_true_2 in Ha by done.
      cbn [window activityLag kernel_ closed with_closed] in M5, M6, M8, M9.
      split; [split; [done| |congruence..]; by rewrite Ha, M8|]. rewrite <-Hdr, <-L. split; [done|]. by rewrite M8.
Qed.

Lemma run_ops_ok ops : Forall (fun e => op_ok bits e.2) ops -> forall st s b, serving bits max w lag st -> st_eq (abs st) s -> closed st.1.1 = b ->
  exists st', run_ops ops st = Ok st' /\ serving bits max w lag st' /\ st_eq (abs st') (st_ops w lag ops.*2 (s, b)).1 /\ closed st'.1.1 = (st_ops w lag ops.*2 (s, b)).2.
Proof.
  induction 1 as [|[env op] ops Hop _ IH]; intros st s b Sv Hs Hb; [by exists st|]. destruct (run_op_ok env op st Sv Hop) as (st1 & E & S1 & V1 & C1).
  unfold run_ops in *. cbn [foldM fst snd]. rewrite E. cbn [mbind res_bind]. rewrite Hb in V1, C1. destruct (st_op_proper w lag op (abs st) s b Hs) as [P1 P2].
  destruct (IH st1 (st_op w lag op (s, b)).1 (st_op w lag op (s, b)).2 S1) as (st2 & E2 & S2 & V2 & C2); [by etrans|congruence|].
  exists st2. split; [done|]. split; [done|]. unfold st_ops in *. cbn [fmap list_fmap fold_left snd]. by destruct (st_op w lag op (s, b)).
Qed.
End Runs.
