(* ===== verification/DomainRegistryFork.v ===== *)
(** * Restoring and forking the registry

    A cold start installs the evidence of a snapshot, a reload that of the registry it
    replaces, under the bitmaps of the new rules. The new projection is exact, or the
    publication reports the failure. *)

From S2P Require Import Prelude GoSlices Netip NetipParse RoutingInstr RoutingEval DomainProjection DomainProjectionCorrect DomainRegistry DomainRegistryCorrect DomainRegistryObserve DomainRegistrySync DomainRegistryRun.

(** ** Installing records *)

Section Install.
Context (bits : string -> list Z) (bits_ok : forall n, bitmap_ok (bits n)) (order : map_order).

(** [good] while [n] may have no addresses yet. *)
Record nearly (g : DomainRegistry) (changed : gset Addr) (n : string) : Prop := {
  ne_ok : reg_ok g;
  ne_tracked : tracked g;
  ne_labelled : labelled bits g;
  ne_summaries : summaries g changed;
  ne_changed : forall ip, ip ∈ changed -> canonical ip;
  ne_used : forall n' r rec, n' <> n -> byName g !! n' = Some r -> records g !! r = Some rec -> r_addresses rec <> ∅;
}.

Lemma good_nearly g changed n : good bits g changed -> nearly g changed n.
Proof. intros [G1 G2 G3 G4 G5 G6]. split; try done. intros n' r rec _. apply G3. Qed.

Definition pair_ok (e : Addr * Time) : Prop := canonical e.1 /\ (0 < e.2)%Z.

Lemma install_pairs_ok n r l : NoDup (l.*1) -> Forall pair_ok l -> forall g changed rec, nearly g changed n -> byName g !! n = Some r -> records g !! r = Some rec ->
  (forall ip, ip ∈ l.*1 -> r_addresses rec !! ip = None) ->
  exists g' changed' rec', foldM (install_pair r) g l = Ok g' /\ nearly g' changed' n /\ same_rest g g' /\ byName g' = byName g /\
    records g' !! r = Some rec' /\ (forall ip, is_Some (r_addresses rec' !! ip) <-> is_Some (r_addresses rec !! ip) \/ ip ∈ l.*1) /\
    forall n' ip, deadline_of g' n' ip = if decide (n' = n) then match list_to_map (M := gmap Addr Time) l !! ip with Some d => Some d | None => deadline_of g n ip end else deadline_of g n' ip.
Proof.
  induction l as [|[ip d] l IH]; intros Hnd Hl g changed rec N Hn Hr Hnew.
  { exists g, changed, rec. split; [done|]. split; [done|]. split; [done|]. split; [done|]. split; [done|]. split; [intros ip; cbn; rewrite elem_of_nil; naive_solver|].
    intros n' ip. cbn. rewrite lookup_empty. by case_decide; [subst|]. }
  apply NoDup_cons in Hnd as [Hni Hnd]. apply Forall_cons in Hl as [[Hc Hd] Hl]. destruct N as [N1 N2 N3 N4 N5 N6]. cbn [foldM fst snd] in *. change (install_pair r g (ip, d)) with (new_pair r ip d g).
  destruct (new_pair_ok g N1 n r rec ip d Hn Hr (Hnew ip ltac:(by apply elem_of_cons; left)) Hc Hd bits changed N3 N2 N4 N5 N6) as (g1 & E1 & G1 & R1 & B1 & Hr1 & _ & D1).
  rewrite E1. cbn [mbind res_bind]. destruct (IH Hnd Hl g1 _ _ (good_nearly _ _ n G1) ltac:(by rewrite B1) Hr1) as (g2 & ch2 & rec2 & E2 & N' & R2 & B2 & Hr2 & A2 & D2).
  { intros ip' Hin. cbn. rewrite lookup_insert_ne by (intros ->; done). apply Hnew. by apply elem_of_cons; right. }
  exists g2, ch2, rec2. split; [done|]. split; [done|]. split; [by eapply same_rest_trans|]. split; [congruence|]. split; [done|]. split.
  - intros ip'. rewrite A2. cbn. rewrite elem_of_cons. cbn. destruct (decide (ip' = ip)) as [->|]; [rewrite lookup_insert_eq; naive_solver|rewrite lookup_insert_ne by done; naive_solver].
  - intros n' ip'. rewrite D2, !D1. cbn. case_decide as Hn'; [subst n'|by rewrite bool_decide_eq_false_2 by naive_solver].
    destruct (decide (ip' = ip)) as [->|Hne].
    + rewrite lookup_insert_eq, (not_elem_of_list_to_map_1 l ip) by done. by rewrite bool_decide_eq_true_2.
    + rewrite lookup_insert_ne by done. by rewrite bool_decide_eq_false_2 by naive_solver.
Qed.

(** Naming a record before or after its pairs are linked is the same. *)
Lemma install_pair_name r nm g e : install_pair r (with_byName g nm) e = g' ← install_pair r g e; Ok (with_byName g' nm).
Proof.
  unfold install_pair, addPair. cbn. destruct (records g !! r) as [rec|]; [|done]. cbn. rewrite lookup_insert_eq. cbn. unfold trackDeadline. cbn. by destruct (_ || _).
Qed.

Lemma install_pairs_name r nm l : forall g, foldM (install_pair r) (with_byName g nm) l = g' ← foldM (install_pair r) g l; Ok (with_byName g' nm).
Proof.
  induction l as [|e l IH]; intros g; [done|]. cbn [foldM]. rewrite install_pair_name. destruct (install_pair r g e) as [g1| |]; cbn; [apply IH|done|done].
Qed.

Lemma install_pair_byName r g e g' : install_pair r g e = Ok g' -> byName g' = byName g.
Proof.
  unfold install_pair, addPair. cbn. destruct (records g !! r) as [rec|]; [|done]. cbn. rewrite lookup_insert_eq. cbn. unfold trackDeadline. cbn. destruct (_ || _); by intros [= <-].
Qed.
Lemma install_pairs_byName r l : forall g g', foldM (install_pair r) g l = Ok g' -> byName g' = byName g.
Proof.
  induction l as [|e l IH]; intros g g'; cbn [foldM]; [by intros [= <-]|]. destruct (install_pair r g e) as [g1| |] eqn:E; cbn; [|done|done].
  intros H. rewrite (IH _ _ H). by eapply install_pair_byName.
Qed.

Lemma install_record_eq g n addrs : install_record order bits g (n, addrs) = foldM (install_pair (next_ref g)) (alloc_record n (bits n) g) (range order addrs).
Proof.
  unfold install_record. cbn [fst snd]. unfold alloc_record. set (g0 := with_heap g _ _ _). change (with_byName g0 (<[n := next_ref g]> (byName g))) with (with_byName g0 (<[n := next_ref g]> (byName g0))).
  rewrite install_pairs_name. destruct (foldM (install_pair (next_ref g)) g0 (range order addrs)) as [g'| |] eqn:E; [|done|done]. cbn. by rewrite (install_pairs_byName _ _ _ _ E).
Qed.

Definition record_ok (addrs : gmap Addr Time) : Prop := addrs <> ∅ /\ forall ip d, addrs !! ip = Some d -> canonical ip /\ (0 < d)%Z.

Lemma install_record_ok g changed n addrs : good bits g changed -> byName g !! n = None -> record_ok addrs ->
  exists g' changed', install_record order bits g (n, addrs) = Ok g' /\ good bits g' changed' /\ same_rest g g' /\ dom (byName g') = {[n]} ∪ dom (byName g) /\
    forall n' ip, deadline_of g' n' ip = if decide (n' = n) then addrs !! ip else deadline_of g n' ip.
Proof.
  intros [G1 G2 G3 G4 G5 G6] Hn [Hne Haddr]. pose proof (ensure_record bits bits_ok n g G1 G4) as He. rewrite Hn in He.
  destruct He as (rec & Hn1 & Hr1 & H1 & L1 & R1 & [V1 V2 V3 V4] & S1 & Hoth). set (g1 := alloc_record n (bits n) g) in *. rewrite install_record_eq. fold g1.
  assert (Hrec : rec = mkRecord (bits n) ∅) by (cbn in Hr1; rewrite lookup_insert_eq in Hr1; by injection Hr1).
  assert (Hdl : forall n' ip', deadline_of g1 n' ip' = deadline_of g n' ip').
  { intros n' ip'. unfold deadline_of. rewrite V1. destruct (pair_of g n' ip') as [p|] eqn:Ep; [|done]. cbn. apply V2. by eapply pair_below. }
  destruct (install_pairs_ok n (next_ref g) (range order addrs)) with (g := g1) (changed := changed) (rec := rec) as (g2 & ch2 & rec2 & E2 & N2 & R2 & B2 & Hr2 & A2 & D2).
  - apply NoDup_range.
  - apply Forall_forall. intros [ip d] Hin. apply elem_of_range in Hin. by apply Haddr.
  - split; try done; [|by apply S1|].
    + intros n' ip' t. rewrite Hdl, V4. apply G2.
    + intros n' r' rec' Hne' A B. destruct (Hoth _ _ _ Hne' A B). by eapply G3.
  - done.
  - done.
  - intros ip _. rewrite Hrec. apply lookup_empty.
  - exists g2, ch2. split; [done|]. destruct N2 as [N1 N2 N3 N4 N5 N6]. split; [|split; [by eapply same_rest_trans|split; [rewrite B2; cbn; apply dom_insert_L|]]].
    + split; try done. intros n' r' rec' A B. destruct (decide (n' = n)) as [->|]; [|by eapply N6]. rewrite B2, Hn1 in A. injection A as <-. rewrite Hr2 in B. injection B as <-.
      apply map_choose in Hne as (ip & d & Hip). intros E0. destruct (A2 ip) as [_ [p Hp]]; [right; apply list_elem_of_fmap; exists (ip, d); split; [done|by apply elem_of_range]|]. by rewrite E0 in Hp.
    + intros n' ip. rewrite D2, range_to_map. case_decide as E0; [|apply Hdl]. subst n'. destruct (addrs !! ip); [done|]. rewrite Hdl. unfold deadline_of, pair_of. by rewrite Hn.
Qed.

Lemma install_records_ok l : NoDup (l.*1) -> Forall (fun e => record_ok e.2) l -> forall g changed, good bits g changed -> (forall n, n ∈ l.*1 -> byName g !! n = None) ->
  exists g' changed', foldM (install_record order bits) g l = Ok g' /\ good bits g' changed' /\ same_rest g g' /\
    forall n ip, deadline_of g' n ip = match list_to_map (M := gmap string (gmap Addr Time)) l !! n with Some addrs => addrs !! ip | None => deadline_of g n ip end.
Proof.
  induction l as [|[n addrs] l IH]; intros Hnd Hl g changed G Hnew; [exists g, changed; split_and!; try done; intros n ip; cbn; by rewrite lookup_empty|].
  apply NoDup_cons in Hnd as [Hni Hnd]. apply Forall_cons in Hl as [Ha Hl]. cbn [fst snd] in *.
  destruct (install_record_ok g changed n addrs G) as (g1 & ch1 & E1 & G1 & R1 & B1 & D1); [apply Hnew; by apply elem_of_cons; left|done|]. cbn [foldM]. rewrite E1. cbn [mbind res_bind].
  destruct (IH Hnd Hl g1 ch1 G1) as (g2 & ch2 & E2 & G2 & R2 & D2).
  { intros n' Hn'. apply not_elem_of_dom. rewrite B1, not_elem_of_union, not_elem_of_singleton, not_elem_of_dom. split; [by intros ->|]. apply Hnew. by apply elem_of_cons; right. }
  exists g2, ch2. split; [done|]. split; [done|]. split; [by eapply same_rest_trans|]. intros n' ip. rewrite D2, D1. cbn. destruct (decide (n' = n)) as [->|Hne].
  - by rewrite lookup_insert_eq, (not_elem_of_list_to_map_1 l n).
  - by rewrite lookup_insert_ne.
Qed.
End Install.

(** Evidence of a decoded snapshot. *)
Definition evidence_ok (entries : evidence) : Prop := forall n addrs, entries !! n = Some addrs -> record_ok addrs.
Definition evidence_at (entries : evidence) : Evidence := fun n ip => addrs ← entries !! n; addrs !! ip.

Lemma installRecords_ok bits order entries g changed : (forall n, bitmap_ok (bits n)) -> evidence_ok entries -> good bits g changed -> byName g = ∅ ->
  exists g' changed', installRecords order entries bits g = Ok g' /\ good bits g' changed' /\ same_rest g g' /\ ev_eq (deadline_of g') (evidence_at entries).
Proof.
  intros Hb He G Hn. destruct (install_records_ok bits Hb order (range order entries)) with (g := g) (changed := changed) as (g' & ch & E & G' & R & D).
  - apply NoDup_range.
  - apply Forall_forall. intros [n addrs] Hin. apply elem_of_range in Hin. by eapply He.
  - done.
  - intros n _. by rewrite Hn.
  - exists g', ch. split; [done|]. split; [done|]. split; [done|]. intros n ip. rewrite D. unfold evidence_at.
    rewrite range_to_map. destruct (entries !! n); [done|]. cbn. unfold deadline_of, pair_of. by rewrite Hn.
Qed.

(** ** Publishing everything *)

Definition fresh_kernel (k : domainProjection) : Prop := resident k = ∅ /\ desired k = ∅ /\ pending k = ∅ /\ k_err k = None.

Lemma want_due ip v k : (forall ip r, pending k !! ip = Some r -> due r = 0%Z) -> forall ip' r, pending (want ip v false k) !! ip' = Some r -> due r = 0%Z.
Proof.
  intros H ip' r. destruct (decide (ip' = ip)) as [->|Hne]; [|rewrite want_pending by done; apply H]. unfold want. rewrite set_desired_eq.
  destruct (match _ with None => _ | Some _ => _ end); cbn; [by rewrite lookup_delete_eq|]. rewrite lookup_insert_eq. intros [= <-]. cbn. destruct (pending k !! ip) eqn:E; [by eapply H|done].
Qed.

Lemma wants_due value ips : forall k, (forall ip r, pending k !! ip = Some r -> due r = 0%Z) -> forall ip r, pending (wants value k ips) !! ip = Some r -> due r = 0%Z.
Proof.
  unfold wants. induction ips as [|ip ips IH]; intros k H; [done|]. cbn [fold_left]. apply IH. by apply want_due.
Qed.

Lemma request_selected_due order g changed k : (forall ip r, pending k !! ip = Some r -> due r = 0%Z) -> forall ip r, pending (request_selected order g changed k) !! ip = Some r -> due r = 0%Z.
Proof.
  intros H. unfold request_selected. rewrite (fold_left_filter_wants fst (fun e => bool_decide (e.1 ∈ _)) (fun _ => None)).
  rewrite fold_left_pick_wants by apply NoDup_range_set. apply wants_due. by apply wants_due.
Qed.

Lemma request_selected_resident order g changed k : resident (request_selected order g changed k) = resident k.
Proof.
  unfold request_selected. rewrite (fold_left_filter_wants fst (fun e => bool_decide (e.1 ∈ _)) (fun _ => None)). rewrite fold_left_pick_wants by apply NoDup_range_set.
  assert (Hw : forall value ips k, resident (wants value k ips) = resident k).
  { intros value ips. unfold wants. induction ips as [|ip ips IH]; intros k0; [done|]. cbn [fold_left]. by rewrite IH, want_resident. }
  by rewrite !Hw.
Qed.

Section Rebuild.
Context (bits : string -> list Z).
Context (update_error : domain_map -> bytes -> domainBitmaps -> option string).
Context (delete_error : domain_map -> bytes -> option string).
Context (batch_result : domain_map -> list (bytes * domainBitmaps) -> nat * option string).
Context (order : map_order).

Lemma good_all g changed : good bits g changed -> good bits g (dom (byIP g)).
Proof.
  intros [G1 G2 G3 G4 G5 G6]. split; try done.
  - intros ip s Hs Hc. exfalso. apply Hc, elem_of_dom. by eexists.
  - intros ip [s Hs]%elem_of_dom. by eapply reg_ok_address.
Qed.

Lemma rebuildProjection_ok now g changed : good bits g changed -> fresh_kernel (kernel_ g) -> (0 <= now)%Z ->
  exists g' m' err, rebuildProjection update_error delete_error batch_result order now (g, ∅) = Ok (g', m', err) /\ good bits g' ∅ /\ synced g g' /\ (err = None -> projected g' m' ∅).
Proof.
  intros G%good_all (F1 & F2 & F3 & F4) Hnow. unfold rebuildProjection. set (k0 := with_force (kernel_ g) true). set (g0 := with_kernel g k0).
  assert (G0 : good bits g0 (dom (byIP g0))) by by apply good_kernel.
  assert (Hk0 : proj_inv true k0 ∅).
  { split; cbn; rewrite ?F1, ?F2, ?F3, ?map_size_empty; try lia; intros *; rewrite ?lookup_empty; try done; by intros [[? ?]|[? ?]]. }
  assert (Hpl : planned g0 k0 (dom (byIP g0))).
  { split; cbn; rewrite F2; [rewrite map_size_empty; lia|intros *; by rewrite lookup_empty|]. intros _ ip Hip. rewrite lookup_empty. unfold rules_summary. cbn. by rewrite (not_elem_of_dom_1 _ _ Hip). }
  destruct (sync_requests order bits g0 ∅ (dom (byIP g0)) true G0 Hk0 Hpl) as (g1 & E1 & G1 & R1 & K). cbn [negb andb] in K. cbv zeta in K. unfold DomainRegistry.syncProjection.
  rewrite E1. cbn [mbind res_bind negb andb]. pose proof (sr_kernel _ _ (rs_rest _ _ R1)) as Ek. set (k := request_selected order g1 (dom (byIP g0)) (kernel_ g1)) in *.
  destruct K as (K1 & K2 & K3 & [L1 L2 L3]). cbn in K2, K3.
  assert (Hres : resident k = ∅) by (unfold k; rewrite request_selected_resident, Ek; exact F1).
  destruct (publish_or_error update_error delete_error batch_result order now k ∅) as (k' & m' & Ep & Hk' & (D1 & D2 & D3) & He).
  - rewrite K3. by apply proj_inv_weaken.
  - done.
  - intros ip r Hr. rewrite (request_selected_due order g1 (dom (byIP g0)) (kernel_ g1)) with (ip := ip) (r := r); [done| |done]. intros ip' r'. rewrite Ek. cbn. rewrite F3. by rewrite lookup_empty.
  - intros ip Hs. destruct (pi_pending _ _ _ K1 ip Hs) as [|Hr]; [done|]. rewrite Hres, lookup_empty in Hr. by destruct Hr.
  - rewrite Ep. cbn [mbind res_bind fst snd]. eexists _, m', _. split; [reflexivity|].
    set (g' := with_kernel (with_kernel g1 k') (with_force (kernel_ (with_kernel g1 k')) false)). split; [by apply good_kernel, good_kernel|]. split.
    + assert (Y : synced g (with_kernel g1 (with_force k' false))); [|exact Y]. destruct (synced_kernel g0 g1 (with_force k' false) R1) as [Y1 Y2 Y3 Y4 Y5 Y6 Y7 Y8 Y9]; [cbn; congruence|]. by split.
    + cbn. intros Herr. specialize (He Herr). rewrite K3 in Hk'. split; cbn; [|done|].
      * apply proj_inv_force. by apply proj_inv_strict.
      * split; cbn; rewrite ?D1, ?D2; done.
Qed.
End Rebuild.

(** ** Copying the evidence *)

Lemma foldM_insert `{Countable K} {V W} (F : K * V -> res W) (l : list (K * V)) : NoDup (l.*1) -> (forall e, e ∈ l -> exists x, F e = Ok x) -> forall acc : gmap K W,
  exists m, foldM (fun acc e => x ← F e; Ok (<[e.1 := x]> acc)) acc l = Ok m /\
    (forall e x, e ∈ l -> F e = Ok x -> m !! e.1 = Some x) /\ (forall k, k ∉ l.*1 -> m !! k = acc !! k).
Proof.
  induction l as [|e l IH]; intros Hnd HF acc; [exists acc; split; [done|]; split; [by intros ? ? ?%elem_of_nil|done]|]. apply NoDup_cons in Hnd as [Hni Hnd].
  destruct (HF e) as [x Hx]; [by apply elem_of_cons; left|]. destruct (IH Hnd ltac:(intros e' He'; apply HF; by apply elem_of_cons; right) (<[e.1 := x]> acc)) as (m & E & A & B).
  exists m. split; [cbn [foldM]; rewrite Hx; exact E|]. split.
  - intros e' x' [->|Hin]%elem_of_cons Hx'; [|by apply A]. rewrite B by done. rewrite lookup_insert_eq. congruence.
  - intros k Hk. change (k ∉ e.1 :: l.*1) in Hk. apply not_elem_of_cons in Hk as [? ?]. rewrite B by done. by apply lookup_insert_ne.
Qed.

Lemma foldM_insert_range `{Countable K} {V W} (order : map_order) (F : K * V -> res W) (m : gmap K V) : (forall k v, m !! k = Some v -> exists x, F (k, v) = Ok x) ->
  exists m', foldM (fun acc e => x ← F e; Ok (<[e.1 := x]> acc)) (∅ : gmap K W) (range order m) = Ok m' /\
    (forall k v x, m !! k = Some v -> F (k, v) = Ok x -> m' !! k = Some x) /\ (forall k, m !! k = None -> m' !! k = None).
Proof.
  intros HF. destruct (foldM_insert F (range order m)) with (acc := (∅ : gmap K W)) as (m' & E & A & B); [apply NoDup_range|intros [k v] Hin; apply HF; by apply elem_of_range in Hin|].
  exists m'. split; [done|]. split; [intros k v x Hk Hx; apply (A (k, v)); [by apply elem_of_range|done]|]. intros k Hk. rewrite B, lookup_empty; [done|].
  intros ([k' v] & -> & Hin)%list_elem_of_fmap. apply elem_of_range in Hin. cbn in Hk. congruence.
Qed.

Lemma copy_records_ok order g : reg_ok g -> used g -> exists entries, copy_records order g = Ok entries /\ evidence_ok entries /\ ev_eq (evidence_at entries) (deadline_of g).
Proof.
  intros H U.
  assert (Hrec : forall n r, byName g !! n = Some r -> exists rec addrs, records g !! r = Some rec /\ foldM (copy_pair g) ∅ (range order (r_addresses rec)) = Ok addrs /\
    (forall ip, addrs !! ip = r_addresses rec !! ip ≫= fun p => pairs g !! p) /\ record_ok addrs).
  { intros n r Hn. destruct (ro_record _ H _ _ Hn) as (_ & rec & Hr & _). exists rec. assert (Hpair : forall ip p, r_addresses rec !! ip = Some p -> exists t, pairs g !! p = Some t /\ canonical ip /\ (0 < t)%Z).
    { intros ip p Hp. destruct (ro_forward _ H _ _ _ _ _ Hn Hr Hp) as (Hc & _ & (t & Ht & Hpos) & _). eauto. }
    destruct (foldM_insert_range order (fun e => idx (pairs g !! e.2)) (r_addresses rec)) as (addrs & E & A & B).
    { intros ip p Hp. destruct (Hpair _ _ Hp) as (t & Ht & _). cbn. rewrite Ht. by eexists. }
    assert (Hat : forall ip, addrs !! ip = r_addresses rec !! ip ≫= fun p => pairs g !! p).
    { intros ip. destruct (r_addresses rec !! ip) as [p|] eqn:Ep; [|by apply B]. destruct (Hpair _ _ Ep) as (t & Ht & _). cbn. rewrite Ht. eapply (A ip p); [done|]. cbn. by rewrite Ht. }
    exists addrs. split; [done|]. split; [exact E|]. split; [done|]. split.
    - pose proof (U _ _ _ Hn Hr) as Hne. apply map_choose in Hne as (ip & p & Hp). destruct (Hpair _ _ Hp) as (t & Ht & _). intros E0. specialize (Hat ip). rewrite E0, Hp in Hat. cbn in Hat. rewrite Ht in Hat. done.
    - intros ip d. rewrite Hat. destruct (r_addresses rec !! ip) as [p|] eqn:Ep; [|done]. cbn. destruct (Hpair _ _ Ep) as (t & -> & ? & ?). by intros [= <-]. }
  destruct (foldM_insert_range order (fun e => record ← idx (records g !! e.2); foldM (copy_pair g) ∅ (range order (r_addresses record))) (byName g)) as (entries & E & A & B).
  { intros n r Hn. destruct (Hrec _ _ Hn) as (rec & addrs & Hr & Ea & _). cbn. rewrite Hr. cbn. by exists addrs. }
  exists entries. split; [|split].
  - unfold copy_records. rewrite <-E. apply foldM_ext. intros acc e. unfold copy_record. by destruct (records g !! e.2).
  - intros n addrs Hn. destruct (byName g !! n) as [r|] eqn:En; [|by rewrite B in Hn]. destruct (Hrec _ _ En) as (rec & addrs' & Hr & Ea & _ & Hok).
    rewrite (A n r addrs') in Hn; [by injection Hn as <-|done|]. cbn. by rewrite Hr.
  - intros n ip. unfold evidence_at, deadline_of, pair_of. destruct (byName g !! n) as [r|] eqn:En; [|by rewrite B]. destruct (Hrec _ _ En) as (rec & addrs & Hr & Ea & Hat & _). cbn. rewrite Hr. cbn.
    rewrite (A n r addrs); [apply Hat|done|]. cbn. by rewrite Hr.
Qed.

(** ** Forking *)

Lemma enqueueShard_keeps key shard at_ a : a_registry (enqueueShard key shard at_ a) = a_registry a /\ length (a_pending (enqueueShard key shard at_ a)) = length (a_pending a).
Proof. unfold enqueueShard. destruct (a_registry a) eqn:E; [|done]. split; [done|]. apply length_alter. Qed.

Lemma enqueue_all_keeps events : forall a, a_registry (enqueue_all events a) = a_registry a /\ length (a_pending (enqueue_all events a)) = length (a_pending a).
Proof.
  unfold enqueue_all. induction events as [|e events IH]; intros a; [done|]. cbn [fold_left]. destruct (IH (enqueueShard e.1.1 e.1.2 e.2 a)) as [-> ->]. apply enqueueShard_keeps.
Qed.

Lemma merge_queue (q : domainActivityBatch) : length q = domainActivityShards -> zip_with (fun own queued => queued ∪ own) no_activity q = q.
Proof.
  unfold no_activity. intros <-. induction q as [|b q IH]; [done|]. cbn. rewrite IH. by rewrite map_union_empty.
Qed.

Definition fresh (id max : nat) (w lag : Z) (g : DomainRegistry) : Prop :=
  exists gcs gen, g = with_counts (newDomainRegistry id max w lag) gcs gen.

Lemma fresh_good bits id max w lag g : fresh id max w lag g -> good bits g ∅.
Proof.
  intros (gcs & gen & ->). destruct (initial_serving bits id max w lag) as [[[H T U L S C] _ _ _ _] _ _ _ _]. cbn [initial fst snd] in *.
  split; [destruct H as [H1 H2 H3 H4 H5 H6]; by split|done|done|done|done|done].
Qed.

Section Fork.
Context (bits bits' : string -> list Z) (bits_ok' : forall n, bitmap_ok (bits' n)).
Context (update_error : domain_map -> bytes -> domainBitmaps -> option string).
Context (delete_error : domain_map -> bytes -> option string).
Context (batch_result : domain_map -> list (bytes * domainBitmaps) -> nat * option string).
Context (order : map_order).

(** The evidence of the new registry before its publication. *)
Lemma adopt_ok entries a id max w lag g t now : evidence_ok entries -> fresh id max w lag g -> length (a_pending a) = domainActivityShards ->
  exists g' changed, adopt order bits' entries t now (a_pending a) g = Ok g' /\ good bits' g' changed /\
    fresh_kernel (kernel_ g') /\ activityBatch g' = no_activity /\ window g' = w /\ activityLag g' = lag /\ g_id g' = id /\ closed g' = false /\ k_max (kernel_ g') = max /\
    evaluatedAt g' = Z.max now (latest (activity (a_pending a)) (Z.max t 0)) /\
    ev_eq (deadline_of g') (ev_expire (evaluatedAt g' - lag) (ev_refresh w (a_pending a) (evidence_at entries))).
Proof.
  intros He Hf Hq. pose proof (fresh_good bits' _ _ _ _ _ Hf) as G0. assert (Hn : byName g = ∅) by by destruct Hf as (? & ? & ->).
  destruct (installRecords_ok bits' order entries g ∅ bits_ok' He G0 Hn) as (g1 & ch1 & E1 & G1 & [R1 R2 R3 R4 R5 R6 R7] & V1). unfold adopt. rewrite E1. cbn [mbind res_bind]. cbv zeta.
  destruct Hf as (gcs & gen & ->). cbn in R1, R2, R3, R4, R5, R6, R7.
  pose proof (clock_raised t g1) as C1. set (g2 := clock t g1) in *. pose proof (ra_shape _ _ _ C1) as [S1 S2 S3 S4 S5 [S6 S6'] [S7 S7']].
  assert (Hb2 : activityBatch g2 = no_activity) by (unfold g2, clock; destruct (After t _); exact R5). rewrite Hb2, merge_queue by done.
  assert (Ht2 : evaluatedAt g2 = Z.max t 0) by (unfold g2, clock, After; rewrite R4; destruct (Z.ltb_spec 0 t); cbn; lia).
  set (g3 := with_batch g2 (a_pending a)). pose proof (good_raised _ _ _ _ _ C1 G1) as G2.
  assert (G3 : good bits' g3 ch1) by (eapply good_raised, G2; apply (raised_same _ g2 g2); try done; apply raised_refl).
  destruct (applyActivity_ok order g3 (go_ok _ _ _ G3)) as (g4 & b & E4 & [D4 T4] & B4). rewrite E4. cbn [mbind res_bind]. cbn [activityBatch g3 with_batch] in B4, D4, T4.
  pose proof (ra_shape _ _ _ D4) as [U1 U2 U3 U4 U5 [U6 U6'] [U7 U7']]. pose proof (good_raised _ _ _ _ _ D4 G3) as G4. pose proof (clock_raised now g4) as C5. set (g5 := clock now g4) in *.
  pose proof (ra_shape _ _ _ C5) as [W1 W2 W3 W4 W5 [W6 W6'] [W7 W7']]. pose proof (good_raised _ _ _ _ _ C5 G4) as G5.
  destruct (gc_ok order (evaluatedAt g5) g5) as (g6 & ch6 & E6 & D6); [apply G5..|]. rewrite E6. cbn [mbind res_bind]. destruct (gd_rest _ _ _ _ D6) as [X1 X2 X3 X4 X5 X6 X7].
  cbn in U5, U6, U6', U7, U7'. exists g6, (ch1 ∪ ch6). assert (Ht5 : evaluatedAt g6 = Z.max now (latest (activity (a_pending a)) (Z.max t 0))).
  { rewrite X4. unfold g5, clock, After. destruct (Z.ltb_spec (evaluatedAt g4) now); cbn; rewrite T4 in *; cbn [evaluatedAt g3 with_batch] in *; rewrite Ht2 in *;
      rewrite (latest_Permutation _ _ _ (queued_activity order (a_pending a))) in *; lia. }
  split; [done|]. split; [|split_and!; try congruence].
  - destruct G5 as [A1 A2 A3 A4 A5 A6]. split; try apply D6.
    + intros n r rec Hn' Hr. pose proof (gd_bitmaps _ _ _ _ D6 r) as Hb. unfold bitmap_at in Hb. rewrite Hr in Hb. cbn in Hb.
      destruct (records g5 !! r) as [rec0|] eqn:E; [|done]. injection Hb as ->. by apply (A4 n r rec0); [apply (gd_names _ _ _ _ D6)|].
    + intros ip s Hi Hc. rewrite (gd_others _ _ _ _ D6) in Hi by set_solver. eapply summary_ext, (A5 _ _ Hi ltac:(set_solver)). intros bm t'. apply member_same; apply D6.
    + intros ip [Hip|Hip]%elem_of_union; [by apply A6|by apply (gd_changed _ _ _ _ D6)].
  - rewrite X1, W5, U5, S5, R1. by split.
  - rewrite X5. unfold g5, clock. destruct (After now _); cbn; rewrite B4; by apply clear_batch.
  - rewrite X1, W5, U5, S5, R1. done.
  - intros n ip. rewrite (gd_deadlines _ _ _ _ D6), (ra_deadlines _ _ _ C5), (ra_deadlines _ _ _ D4). change (deadline_of g3 n ip) with (deadline_of g2 n ip).
    rewrite (ra_deadlines _ _ _ C1), V1. unfold ev_expire, ev_refresh. rewrite X4. replace (activityLag g5) with lag by congruence. change (window g3) with (window g2). replace (window g2) with w by congruence.
    destruct (evidence_at entries n ip) as [d|]; [|done]. cbn. f_equal. apply refresh_Permutation, queued_activity.
Qed.

Lemma fork_evidence_ok now arrived old a m id max w lag g : state_inv bits (old, a, m) -> fresh id max w lag g ->
  exists old' a' m' g' changed, fork_evidence update_error delete_error batch_result order bits' now arrived (old, a, m) g = Ok (old', a', m', g') /\
    state_inv bits (old', a', m') /\ mid bits old old' m' ∅ /\ a' = enqueue_all arrived (mkActivity (a_registry a) (queue_ (drained_store old a))) /\
    ev_eq (deadline_of old') (evidence_ (st_expire (activityLag old) (drained_store old a))) /\
    good bits' g' changed /\ fresh_kernel (kernel_ g') /\ activityBatch g' = no_activity /\ window g' = w /\ activityLag g' = lag /\ g_id g' = id /\ closed g' = false /\
    k_max (kernel_ g') = max /\ (0 <= evaluatedAt g')%Z /\
    ev_eq (deadline_of g') (ev_expire (evaluatedAt g' - lag) (ev_refresh w (a_pending a') (deadline_of old'))).
Proof.
  intros I Hf. unfold fork_evidence. destruct (drain_state bits order old a m I) as (g1 & a1 & b & E1 & M1 & (S1 & S2 & S3) & Q1 & O1). rewrite E1. cbn [mbind res_bind].
  destruct (mid_gc bits order old g1 m M1) as (g2 & changed & E2 & M2 & V2 & C2). rewrite E2. cbn [mbind res_bind].
  destruct (mid_sync bits update_error delete_error batch_result order old g2 a1 m changed b (evaluatedAt g1) M2 Q1) as (g3 & m3 & E3 & I3 & M3 & V3 & C3). rewrite E3. cbn [mbind res_bind].
  destruct (copy_records_ok order g3) as (entries & E4 & He & V4); [apply M3..|]. rewrite E4. cbn [mbind res_bind]. destruct (enqueue_all_keeps arrived a1) as [K1 K2].
  destruct (adopt_ok entries (enqueue_all arrived a1) id max w lag (with_counts g (gcCount g3) (generation g)) (evaluatedAt g3) now He) as (g4 & ch & E5 & G4 & F1 & F2 & F3 & F4 & F5 & F6 & F7 & F8 & V5).
  { destruct Hf as (gcs & gen & ->). by do 2 eexists. }
  { by rewrite K2. }
  rewrite E5. cbn [mbind res_bind]. exists g3, (enqueue_all arrived a1), m3, g4, ch. split; [done|].
  split; [destruct I3; split; cbn [fst snd] in *; [done..|by rewrite K2]|]. split; [done|].
  split; [f_equal; destruct a1; cbn in *; congruence|]. split_and!; try done.
  - cbn in *. etrans; [exact V3|]. etrans; [exact V2|]. rewrite S2, (md_lag _ _ _ _ _ M1). by apply ev_expire_proper.
  - rewrite F8. pose proof (latest_ge (activity (a_pending (enqueue_all arrived a1))) (Z.max (evaluatedAt g3) 0)). lia.
  - etrans; [exact V5|]. apply ev_expire_proper. intros n ip. unfold ev_refresh. by rewrite V4.
Qed.

Lemma ForkFrom_ok now arrived late old a m id max w lag g : state_inv bits (old, a, m) -> fresh id max w lag g ->
  exists old' a' m' g' m2 err, ForkFrom update_error delete_error batch_result order bits' now arrived late (old, a, m) (g, ∅) = Ok (old', a', m', (g', m2), err) /\
    state_inv bits (old', a', m') /\ mid bits old old' m' ∅ /\
    ev_eq (deadline_of old') (evidence_ (st_expire (activityLag old) (drained_store old a))) /\
    (let q := a_pending (enqueue_all arrived (mkActivity (a_registry a) (queue_ (drained_store old a)))) in
     ev_eq (deadline_of g') (ev_expire (evaluatedAt g' - lag) (ev_refresh w q (deadline_of old')))) /\
    match err with
    | None => a_registry a' = Some id /\ serving bits' max w lag (g', a', m2)
    | Some _ => a_registry a' = a_registry a
    end.
Proof.
  intros I Hf. unfold ForkFrom. cbn [fst snd].
  destruct (fork_evidence_ok now arrived old a m id max w lag g I Hf) as (old' & a' & m' & g' & ch & E & I' & M' & O' & V' & G' & F1 & F2 & F3 & F4 & F5 & F6 & F7 & F8 & V2). rewrite E. cbn [mbind res_bind].
  destruct (rebuildProjection_ok bits' update_error delete_error batch_result order (evaluatedAt g') g' ch G' F1 F8) as (g2 & m2 & err & E2 & G2 & Y & P). rewrite E2. cbn [mbind res_bind].
  destruct Y as [Y1 Y2 Y3 Y4 Y5 Y6 Y7 Y8 Y9]. destruct (enqueue_all_keeps late a') as [K1 K2]. assert (Hq : length (a_pending (enqueue_all late a')) = domainActivityShards) by (rewrite K2; apply I').
  assert (Iq : forall r, state_inv bits (old', mkActivity r (a_pending (enqueue_all late a')), m')) by (intros r; destruct I'; split; cbn [fst snd] in *; done).
  assert (Hreg : a_registry a' = a_registry a) by (rewrite O'; by rewrite (proj1 (enqueue_all_keeps _ _))).
  assert (Hev : ev_eq (deadline_of g2) (ev_expire (evaluatedAt g2 - lag) (ev_refresh w (a_pending a') (deadline_of old')))) by (intros n ip; rewrite Y1, Y5; apply V2).
  rewrite O' in Hev.
  destruct err as [e|].
  - eexists old', (enqueue_all late a'), m', g2, m2, (Some e). split; [done|]. split; [|split; [done|split; [done|split; [exact Hev|by rewrite K1]]]]. destruct I'; split; cbn [fst snd] in *; done.
  - eexists old', (mkActivity (Some (g_id g2)) (a_pending (enqueue_all late a'))), m', (count_change g2), m2, None. split; [done|]. split; [apply Iq|]. split; [done|]. split; [done|].
    split; [exact Hev|]. cbn. split; [congruence|]. specialize (P eq_refl). split; cbn; try congruence.
    + split; cbn [fst snd]; [| |change (0 <= evaluatedAt g2)%Z; by rewrite Y5|change (activityBatch g2 = no_activity); congruence|done].
      * eapply good_raised, G2. apply (raised_same _ g2 g2); try done; apply raised_refl.
      * by eapply (projected_kept g2 _ m2 ∅ ∅).
    + rewrite Y8, F6. done.
Qed.
End Fork.

(** ** Restoring *)

Definition decoded_ok (entries : evidence) : Prop :=
  forall n addrs, entries !! n = Some addrs -> forall ip d, addrs !! ip = Some d -> canonical ip.

Lemma restore_pair_ok addrs e addrs' : (forall ip d, addrs !! ip = Some d -> canonical ip) -> restore_pair addrs e = Ok addrs' -> forall ip d, addrs' !! ip = Some d -> canonical ip.
Proof.
  intros H. unfold restore_pair. destruct (ParseAddr e.1) as [[ip zone]|] eqn:Ep; [|done]. destruct (IsUnspecified ip || _ || _ || _) eqn:Ec; [done|]. apply orb_false_iff in Ec as [Ec _].
  apply orb_false_iff in Ec as [_ Eu%negb_false_iff%bool_decide_eq_true]. destruct (addrs !! ip); [done|]. intros [= <-] ip' d.
  destruct (decide (ip' = ip)) as [->|]; [|rewrite lookup_insert_ne by done; apply H]. intros _. destruct (ParseAddr_wf _ _ _ Ep) as [? ?]. by split.
Qed.

Lemma restore_entry_ok order is_name canon recs e recs' : decoded_ok recs -> restore_entry order is_name canon recs e = Ok recs' -> decoded_ok recs'.
Proof.
  intros H. unfold restore_entry. destruct (_ || _ || _); [done|]. destruct (foldM restore_pair ∅ (range order e.2)) as [addrs| |] eqn:Ea; try done. cbn [mbind res_bind]. intros [= <-] n addrs'.
  destruct (decide (n = e.1)) as [->|]; [|rewrite lookup_insert_ne by done; apply H]. rewrite lookup_insert_eq. intros [= <-].
  eapply (foldM_ind restore_pair (fun _ addrs => forall ip d, addrs !! ip = Some d -> canonical ip)); [intros ip d; by rewrite lookup_empty| |exact Ea]. intros _ x s s' Hs _ Hx. by eapply restore_pair_ok.
Qed.

Lemma restore_records_ok order is_name canon entries recs : restore_records order is_name canon entries = Ok recs -> decoded_ok recs.
Proof.
  intros E. eapply (foldM_ind (restore_entry order is_name canon) (fun _ => decoded_ok)); [intros n addrs; by rewrite lookup_empty| |exact E]. intros _ x s s' Hs _ Hx. by eapply restore_entry_ok.
Qed.

Lemma live_part_lookup cutoff entries n : live_part cutoff entries !! n =
  addrs ← entries !! n; let kept := filter (fun e : Addr * Time => After e.2 cutoff = true) addrs in if decide (kept = ∅) then None else Some kept.
Proof.
  unfold live_part. rewrite map_lookup_filter, lookup_fmap. destruct (entries !! n) as [addrs|]; [|done]. cbn. case_guard as Hg; cbn in *.
  - by rewrite decide_False.
  - by rewrite decide_True.
Qed.

Section Restore.
Context (bits : string -> list Z) (bits_ok : forall n, bitmap_ok (bits n)).
Context (update_error : domain_map -> bytes -> domainBitmaps -> option string).
Context (delete_error : domain_map -> bytes -> option string).
Context (batch_result : domain_map -> list (bytes * domainBitmaps) -> nat * option string).
Context (order : map_order).

Lemma Restore_entries_ok entries now id max w lag : decoded_ok entries -> (0 <= lag <= now)%Z ->
  match Restore_entries update_error delete_error batch_result order entries bits now (newDomainRegistry id max w lag, ∅) with
  | Ok (g, m) => serving bits max w lag (g, mkActivity (Some id) no_activity, m) /\ evaluatedAt g = now /\
      forall n ip, deadline_of g n ip = evidence_at entries n ip ≫= unexpired (now - lag)
  | Err e => exists g g' m', k_err (kernel_ g) = None /\ rebuildProjection update_error delete_error batch_result order now (g, ∅) = Ok (g', m', Some e)
  | Panic => False
  end.
Proof.
  intros Hd Hlag. unfold Restore_entries. set (g0 := newDomainRegistry id max w lag). assert (Ht : evaluatedAt (clock now g0) = now) by (unfold clock, After; cbn; destruct (Z.ltb_spec 0 now); cbn; lia).
  rewrite Ht. set (g1 := with_counts _ _ _). assert (Hl : activityLag (clock now g0) = lag) by (unfold clock; by destruct (After _ _)). rewrite Hl in *. set (cutoff := (now - lag)%Z) in *.
  assert (Hn1 : byName g1 = ∅) by (unfold g1, clock; by destruct (After _ _)).
  assert (G1 : good bits g1 ∅).
  { assert (G0 : good bits g0 ∅) by (apply (fresh_good bits id max w lag); by exists 0%Z, 0%Z). assert (R : raised (fun _ _ t => t) g0 g1); [|by eapply good_raised].
    eapply raised_same; [apply (clock_raised now)|by split|done..]. }
  assert (He : evidence_ok (live_part cutoff entries)).
  { intros n addrs. rewrite live_part_lookup. destruct (entries !! n) as [a|] eqn:Ea; [|done]. cbn. destruct (decide _) as [|Hne]; [done|]. intros [= <-]. split; [done|].
    intros ip d. rewrite map_lookup_filter_Some. intros [Hip Haf]. split; [by eapply Hd|]. unfold After in Haf. cbn in Haf. lia. }
  destruct (installRecords_ok bits order _ g1 ∅ bits_ok He G1 Hn1) as (g2 & ch & E2 & G2 & [R1 R2 R3 R4 R5 R6 R7] & V2). rewrite E2. cbn [mbind res_bind].
  assert (Hg1 : kernel_ g1 = kernel_ g0 /\ window g1 = w /\ activityLag g1 = lag /\ evaluatedAt g1 = now /\ activityBatch g1 = no_activity /\ g_id g1 = id /\ closed g1 = false).
  { unfold g1. cbn. rewrite Ht, Hl. unfold clock. by destruct (After _ _). }
  destruct Hg1 as (K1 & K2 & K3 & K4 & K5 & K6 & K7).
  destruct (rebuildProjection_ok bits update_error delete_error batch_result order now g2 ch G2) as (g3 & m3 & err & E3 & G3 & Y & P); [rewrite R1, K1; by split|lia|]. rewrite E3. cbn [mbind res_bind].
  destruct err as [e|]; [exists g2, g3, m3; by rewrite R1, K1|]. destruct Y as [Y1 Y2 Y3 Y4 Y5 Y6 Y7 Y8 Y9]. specialize (P eq_refl). split; [|split].
  - split; cbn [fst snd a_registry]; cbn [count_change with_counts closed g_id window activityLag kernel_].
    + split; cbn [fst snd]; [| |change (0 <= evaluatedAt g3)%Z; rewrite Y5, R4, K4; lia|change (activityBatch g3 = no_activity); congruence|done].
      * eapply good_raised, G3. apply (raised_same _ g3 g3); try done; apply raised_refl.
      * by eapply (projected_kept g3 _ m3 ∅ ∅).
    + rewrite Y8, R7, K7, Y7, R6, K6. done.
    + congruence.
    + congruence.
    + rewrite Y9, R1, K1. done.
  - change (evaluatedAt g3 = now). congruence.
  - intros n ip. change (deadline_of (count_change g3) n ip) with (deadline_of g3 n ip). rewrite Y1, V2. unfold evidence_at. rewrite live_part_lookup. destruct (entries !! n) as [addrs|]; [|done]. cbn.
    assert (Hf : filter (fun e : Addr * Time => After e.2 cutoff = true) addrs !! ip = addrs !! ip ≫= unexpired cutoff).
    { rewrite map_lookup_filter. destruct (addrs !! ip) as [d|]; [|done]. cbn. unfold unexpired, After. destruct (Z.leb_spec d cutoff), (Z.ltb_spec cutoff d); try lia; done. }
    destruct (decide _) as [E0|]; [|exact Hf]. rewrite <-Hf, E0. by rewrite lookup_empty.
Qed.
End Restore.
