(* ===== verification/DomainRegistryClaims.v ===== *)
(** * What the registry guarantees

    The theorems on the registry of DNS evidence: what a run stores, what it leaves in the
    kernel map, what [Verify] and [Usage] report. *)

From stdpp Require Import sorting.
From S2P Require Import Prelude GoSlices GoStrings Netip NetipParse RoutingInstr RoutingEval DomainProjection DomainProjectionCorrect DomainRegistry DomainRegistryCorrect DomainRegistryObserve DomainRegistrySync DomainRegistryRun DomainRegistryFork.

(** ** Bits of an address *)

Lemma all_zero_bits bm : bitmap_ok bm -> domainBitmapAllZero bm = true <-> forall i, i < MaxMatchSetLen -> has_bit bm i = false.
Proof.
  intros [Hl Hf]. unfold domainBitmapAllZero. rewrite forallb_forall. split.
  - intros Hz i _. rewrite has_bit_tb. destruct (bm !! _) as [w|] eqn:E; [|done]. apply list_elem_of_lookup_2, list_elem_of_In in E. apply Hz in E.
    apply Z.eqb_eq in E as ->. apply tb_zero.
  - intros Hb w [j Hj]%list_elem_of_In%list_elem_of_lookup. apply Z.eqb_eq. rewrite Forall_forall in Hf. pose proof (Hf w) as Hw.
    specialize (Hw ltac:(by eapply list_elem_of_lookup_2)). apply tb_inj; [apply Hw|done|]. intros n. rewrite tb_zero.
    destruct (decide (n < 32)) as [Hn|Hn]; [|apply (fits_tb 32); [done|lia]]. pose proof (lookup_lt_Some _ _ _ Hj) as Hlt. rewrite Hl in Hlt. change domainBitmapWords with 32 in Hlt.
    specialize (Hb (n + j * 32)). rewrite has_bit_tb in Hb. rewrite Nat.div_add, Nat.div_small, Nat.Div0.mod_add, Nat.mod_small, Nat.add_0_l, Hj in Hb by lia.
    apply Hb. unfold MaxMatchSetLen. lia.
Qed.

Section Good.
Context (bits : string -> list Z) (g : DomainRegistry) (G : good bits g ∅).

Lemma member_names ip s bm t : byIP g !! ip = Some s -> member g s bm t <-> exists n, deadline_of g n ip = Some t /\ bits n = bm.
Proof.
  destruct G as [H _ _ L _ _]. intros Hs. split.
  - intros (r & p & Hd & Hb & Hp). destruct (ro_backward _ H _ _ _ _ Hs Hd) as (n & rec & A & B & C). exists n. split.
    + unfold deadline_of. rewrite (proj2 (pair_of_Some g n ip p)) by eauto. done.
    + rewrite B in Hb. injection Hb as <-. symmetry. by eapply L.
  - intros (n & Hdl & <-). unfold deadline_of in Hdl. destruct (pair_of g n ip) as [p|] eqn:Ep; [|done]. cbn in Hdl. apply pair_of_Some in Ep as (r & rec & A & B & C).
    destruct (ro_forward _ H _ _ _ _ _ A B C) as (_ & _ & _ & s' & Hs' & Hd). rewrite Hs in Hs'. injection Hs' as <-.
    exists r, p. split; [done|]. split; [|done]. rewrite B. cbn. f_equal. by eapply L.
Qed.

Lemma evidence_indexed n ip t : deadline_of g n ip = Some t -> canonical ip /\ is_Some (byIP g !! ip).
Proof.
  unfold deadline_of. destruct (pair_of g n ip) as [p|] eqn:Ep; [|done]. intros _. apply pair_of_Some in Ep as (r & rec & A & B & C).
  destruct (ro_forward _ (go_ok _ _ _ G) _ _ _ _ _ A B C) as (Hc & _ & _ & s & Hs & _). split; [done|by exists s].
Qed.

Lemma summary_names ip s i : byIP g !! ip = Some s -> i < MaxMatchSetLen ->
  (has_bit (s_bump s) i = true <-> exists n t, deadline_of g n ip = Some t /\ has_bit (bits n) i = true) /\
  (has_bit (s_routing s) i = true <-> forall n t, deadline_of g n ip = Some t -> has_bit (bits n) i = true).
Proof.
  intros Hs Hi. destruct (go_summaries _ _ _ G ip s Hs ltac:(set_solver)) as [S1 S2 _ _]. rewrite S1, S2 by done. setoid_rewrite (member_names ip s _ _ Hs). naive_solver.
Qed.

(** An address without rules: no name of it has any. *)
Lemma no_rules_names ip : (forall n, bitmap_ok (bits n)) -> rules_summary g ip = None -> forall n t, deadline_of g n ip = Some t -> domainBitmapAllZero (bits n) = true.
Proof.
  intros Hb Hr n t Hd. destruct (evidence_indexed n ip t Hd) as [_ [s Hs]]. unfold rules_summary in Hr. rewrite Hs in Hr. cbn in Hr. unfold has_rules in Hr.
  destruct (domainBitmapAllZero (s_bump s)) eqn:Ez; [|done]. apply all_zero_bits; [done|]. intros i Hi. destruct (ro_ip _ (go_ok _ _ _ G) _ _ Hs) as (_ & Hbm & _).
  rewrite (all_zero_bits _ Hbm) in Ez. specialize (Ez i Hi). destruct (has_bit (bits n) i) eqn:E; [|done]. rewrite <-Ez. symmetry. apply (summary_names ip s i Hs Hi). eauto.
Qed.
End Good.

(** ** Evidence *)

(** C10: any sequence of observations, activity, sweeps, retries and closing returns,
    whatever the kernel rejects and in whichever order maps are visited, and leaves the
    evidence of the abstract store: a pair of a name and an address is kept from an
    observation of both until its latest deadline has passed. *)
Theorem registry_refines_store (bits : string -> list Z) (id max : nat) (w lag : Z) (ops : list (environment * operation)) :
  (forall n, bitmap_ok (bits n)) -> Forall (fun e => op_ok bits e.2) ops ->
  exists st, run_ops ops (initial id max w lag) = Ok st /\
    let '(s, shut) := st_ops w lag ops.*2 (empty_store, false) in
    (forall n ip, deadline_of st.1.1 n ip = evidence_ s n ip) /\ evaluatedAt st.1.1 = now_ s /\ a_pending st.1.2 = queue_ s /\ closed st.1.1 = shut.
Proof.
  intros Hb Hops. destruct (run_ops_ok bits Hb max w lag ops Hops (initial id max w lag) empty_store false) as (st & E & _ & (V1 & V2 & V3) & C).
  - apply initial_serving.
  - split; [|done]. intros n ip. cbn. unfold deadline_of, pair_of. cbn. by rewrite lookup_empty.
  - done.
  - exists st. split; [done|]. destruct (st_ops w lag ops.*2 (empty_store, false)) as [s shut]. done.
Qed.

(** ** Reachable registries *)

(** The states of a registry of rules with bitmaps [bits] and a map of capacity [max]:
    started empty, from a snapshot or from the registry it replaces, in any environment;
    other registries may serve the queue it uses. *)
Inductive reachable : (string -> list Z) -> nat -> state -> Prop :=
  | reach_new bits id max w lag a : (forall n, bitmap_ok (bits n)) -> length (a_pending a) = domainActivityShards ->
      reachable bits max (newDomainRegistry id max w lag, a, ∅)
  | reach_op bits max env op st st' : reachable bits max st -> op_ok bits op -> run_op env op st = Ok st' -> reachable bits max st'
  | reach_queue bits max g a a' m : reachable bits max (g, a, m) -> length (a_pending a') = domainActivityShards -> reachable bits max (g, a', m)
  | reach_fork_old bits bits' max env now arrived late st id max' w lag old new err : reachable bits max st -> (forall n, bitmap_ok (bits' n)) ->
      ForkFrom (update_fails env) (delete_fails env) (batch_applies env) (iteration env) bits' now arrived late st (newDomainRegistry id max' w lag, ∅) = Ok (old, new, err) ->
      reachable bits max old
  | reach_fork_new bits bits' max env now arrived late st id max' w lag old a m g m' : reachable bits max st -> (forall n, bitmap_ok (bits' n)) ->
      ForkFrom (update_fails env) (delete_fails env) (batch_applies env) (iteration env) bits' now arrived late st (newDomainRegistry id max' w lag, ∅) = Ok (old, a, m, (g, m'), None) ->
      reachable bits' max' (g, a, m')
  | reach_restore bits max env is_name canon decoded now id w lag g m a : (forall n, bitmap_ok (bits n)) -> (0 <= lag <= now)%Z -> length (a_pending a) = domainActivityShards ->
      Restore (update_fails env) (delete_fails env) (batch_applies env) (iteration env) is_name canon decoded bits now (newDomainRegistry id max w lag, ∅) = Ok (g, m) ->
      reachable bits max (g, a, m).

Lemma state_inv_queue bits g a a' m : state_inv bits (g, a, m) -> length (a_pending a') = domainActivityShards -> state_inv bits (g, a', m).
Proof. intros [I1 I2 I3 I4 I5] H. by split. Qed.

Lemma run_op_inv bits env op st st' : (forall n, bitmap_ok (bits n)) -> state_inv bits st -> op_ok bits op -> run_op env op st = Ok st' ->
  state_inv bits st' /\ k_max (kernel_ st'.1.1) = k_max (kernel_ st.1.1).
Proof.
  intros Hb I Hop. destruct st as [[g a] m]. cbn [fst].
  assert (Hfin : forall (r : res state) g0, (exists st1, r = Ok st1 /\ state_inv bits st1 /\ mid bits g0 st1.1.1 st1.2 ∅) -> k_max (kernel_ g0) = k_max (kernel_ g) -> r = Ok st' ->
    state_inv bits st' /\ k_max (kernel_ st'.1.1) = k_max (kernel_ g)).
  { intros r g0 (st1 & -> & I1 & M1) Hk [= <-]. split; [done|]. by rewrite (md_max _ _ _ _ _ M1). }
  assert (Hclosed : closed g = true -> forall r : res state, r = Ok (g, a, m) -> r = Ok st' -> state_inv bits st' /\ k_max (kernel_ st'.1.1) = k_max (kernel_ g)).
  { intros _ r -> [= <-]. done. }
  destruct op as [key shard at_| |now|obs at_|now|]; cbn [run_op].
  - intros [= <-]. split; [|done]. eapply state_inv_queue; [exact I|]. rewrite (proj2 (enqueueShard_keeps _ _ _ _)). apply I.
  - destruct (closed g) eqn:Hc; [apply Hclosed; [done|]; unfold flushActivity; by rewrite Hc|]. apply (Hfin _ g); [|done].
    destruct (flush_spec bits (update_fails env) (delete_fails env) (batch_applies env) (iteration env) g a m I Hc) as (st1 & E & I1 & M1 & _). by exists st1.
  - destruct (closed g) eqn:Hc; [apply Hclosed; [done|]; unfold Sweep; by rewrite Hc|]. apply (Hfin _ g); [|done].
    destruct (sweep_spec bits (update_fails env) (delete_fails env) (batch_applies env) (iteration env) now g a m I Hc) as (st1 & E & I1 & M1 & _). by exists st1.
  - destruct (closed g) eqn:Hc; [apply Hclosed; [done|]; unfold ObserveDNS; by rewrite Hc|]. apply (Hfin _ g); [|done].
    destruct (observe_spec bits (update_fails env) (delete_fails env) (batch_applies env) (iteration env) Hb obs at_ g a m I Hc Hop) as (st1 & E & I1 & M1 & _). by exists st1.
  - destruct (retry_spec bits (update_fails env) (delete_fails env) (batch_applies env) (iteration env) now g a m I) as (g' & m' & E & I' & M & _). rewrite E. cbn [mbind res_bind].
    apply (Hfin _ g); [|done]. by exists (g', a, m').
  - destruct (closed g) eqn:Hc; [apply Hclosed; [done|]; unfold Close; by rewrite Hc|]. apply (Hfin _ (with_closed g)); [|done].
    destruct (close_spec bits (update_fails env) (delete_fails env) (batch_applies env) (iteration env) g a m I Hc) as (st1 & E & I1 & M1 & _). by exists st1.
Qed.

Lemma reachable_run bits max ops : forall st st', reachable bits max st -> Forall (fun e => op_ok bits e.2) ops -> run_ops ops st = Ok st' -> reachable bits max st'.
Proof.
  unfold run_ops. induction ops as [|e ops IH]; intros st st' R Hops; cbn [foldM]; [by intros [= <-]|]. apply Forall_cons in Hops as [Hop Hops].
  destruct (run_op e.1 e.2 st) as [st1| |] eqn:E; cbn [mbind res_bind]; [|done|done]. apply IH; [|done]. by eapply reach_op.
Qed.

Lemma reachable_inv bits max st : reachable bits max st -> (forall n, bitmap_ok (bits n)) /\ state_inv bits st /\ k_max (kernel_ st.1.1) = max.
Proof.
  induction 1 as [bits id max w lag a Hb Hq|bits max env op st st' _ (Hb & I & K) Hop E|bits max g a a' m _ (Hb & I & K) Hq
    |bits bits' max env now arrived late st id max' w lag old new err _ (Hb & I & K) Hb' E
    |bits bits' max env now arrived late st id max' w lag old a m g m' _ (Hb & I & K) Hb' E|bits max env is_name canon decoded now id w lag g m a Hb Hlag Hq E].
  - split; [done|]. split; [|done]. eapply state_inv_queue; [apply (initial_serving bits id max w lag)|done].
  - destruct (run_op_inv bits env op st st' Hb I Hop E) as [I' K']. split; [done|]. split; [done|congruence].
  - split; [done|]. split; [|done]. by eapply state_inv_queue.
  - destruct st as [[g a] m]. destruct (ForkFrom_ok bits bits' Hb' (update_fails env) (delete_fails env) (batch_applies env) (iteration env) now arrived late g a m id max' w lag (newDomainRegistry id max' w lag) I)
      as (old' & a' & m' & g' & m2 & err' & E' & I' & M' & _); [by exists 0%Z, 0%Z|]. rewrite E in E'. injection E' as -> -> ->. split; [done|]. split; [done|]. cbn in *. rewrite <-K. apply M'.
  - destruct st as [[g0 a0] m0]. destruct (ForkFrom_ok bits bits' Hb' (update_fails env) (delete_fails env) (batch_applies env) (iteration env) now arrived late g0 a0 m0 id max' w lag (newDomainRegistry id max' w lag) I)
      as (old' & a' & m1 & g' & m2 & err' & E' & _ & _ & _ & _ & S); [by exists 0%Z, 0%Z|]. rewrite E in E'. injection E' as -> -> -> -> -> <-. destruct S as [_ [S1 _ _ _ S5]]. done.
  - unfold Restore in E. destruct decoded as [entries|]; [|done]. destruct (restore_records _ _ _ entries) as [recs| |] eqn:Er; try done. cbn [mbind res_bind] in E.
    pose proof (Restore_entries_ok bits Hb (update_fails env) (delete_fails env) (batch_applies env) (iteration env) recs now id max w lag (restore_records_ok _ _ _ _ _ Er) Hlag) as H. rewrite E in H.
    destruct H as ([S1 _ _ _ S5] & _). split; [done|]. split; [|done]. by eapply state_inv_queue.
Qed.

(** ** The kernel map *)

(** C9: in every reachable state the kernel entry of an address without an outstanding
    request is exact: the bump bitmap has the bits of some name with evidence for the
    address, the routing bitmap those of all of them. An address has no entry only if none
    of its names has a bit, or if as many addresses are wanted in the map as it can hold. *)
Theorem kernel_entries_exact (bits : string -> list Z) (max : nat) (g : DomainRegistry) (a : domainActivity) (m : domain_map) (ip : Addr) :
  reachable bits max (g, a, m) -> canonical ip -> pending (kernel_ g) !! ip = None ->
  match m !! As16 ip with
  | Some v => forall i, i < MaxMatchSetLen ->
    (has_bit (b_bump v) i = true <-> exists n t, deadline_of g n ip = Some t /\ has_bit (bits n) i = true) /\
    (has_bit (b_routing v) i = true <-> forall n t, deadline_of g n ip = Some t -> has_bit (bits n) i = true)
  | None => size (desired (kernel_ g)) = max \/ forall n t, deadline_of g n ip = Some t -> domainBitmapAllZero (bits n) = true
  end.
Proof.
  intros (Hb & [G [P1 P2 [L1 L2 L3]] _ _ _] & K)%reachable_inv Hc Hp. cbn [fst snd] in *. rewrite (pi_mirror _ _ _ P1 ip Hc) by by left. rewrite (pi_settled _ _ _ P1 ip Hp).
  destruct (desired (kernel_ g) !! ip) as [v|] eqn:Ed.
  - intros i Hi. specialize (L2 ip v ltac:(set_solver) Ed). unfold rules_summary in L2. destruct (byIP g !! ip) as [s|] eqn:Es; [|done]. cbn in L2. destruct (has_rules s); [|done].
    injection L2 as <-. by apply summary_names.
  - destruct (decide (size (desired (kernel_ g)) = max)) as [|Hne]; [by left|right]. apply no_rules_names; [done|done|]. rewrite <-L3; [done|lia|set_solver].
Qed.

(** ** Usage *)

Definition addresses_of (g : DomainRegistry) (e : string * nat) : gset Addr := dom (default ∅ (r_addresses <$> records g !! e.2)).

(** The pairs under the names of [l]. *)
Definition pairs_under (g : DomainRegistry) (l : list (string * nat)) : list (string * Addr) :=
  concat (map (fun e => map (pair e.1) (elements (addresses_of g e))) l).

Lemma elem_of_pairs_under g l n ip : (n, ip) ∈ pairs_under g l <-> exists r, (n, r) ∈ l /\ ip ∈ addresses_of g (n, r).
Proof.
  unfold pairs_under. rewrite list_elem_of_In, in_concat. split.
  - intros (x & ([n' r] & <- & Hin)%in_map_iff & (ip' & [= -> ->] & Hip)%in_map_iff). exists r. split; [by apply list_elem_of_In|]. by apply elem_of_elements, list_elem_of_In.
  - intros (r & Hin%list_elem_of_In & Hip). eexists. split; [by apply (in_map _ _ (n, r))|]. apply in_map. by apply list_elem_of_In, elem_of_elements.
Qed.

Lemma NoDup_pairs_under g l : NoDup (l.*1) -> NoDup (pairs_under g l).
Proof.
  induction l as [|[n r] l IH]; intros Hn; [constructor|]. cbn [fmap list_fmap fst] in Hn. apply NoDup_cons in Hn as [Hn Hl]. change (NoDup (map (pair n) (elements (addresses_of g (n, r))) ++ pairs_under g l)).
  apply NoDup_app. split; [apply NoDup_fmap_2; [intros ? ? [= ->]; done|apply NoDup_elements]|]. split; [|by apply IH]. intros [n' ip] (? & [= -> ->] & _)%list_elem_of_fmap (r' & Hin & _)%elem_of_pairs_under.
  apply Hn, list_elem_of_fmap. by exists (n, r').
Qed.

Lemma count_addresses_ok g l : (forall e, e ∈ l -> is_Some (records g !! e.2)) -> forall n, foldM (count_addresses g) n l = Ok (n + length (pairs_under g l)).
Proof.
  induction l as [|e l IH]; intros He n; [by rewrite Nat.add_0_r|]. destruct (He e) as (rec & Hr); [by apply elem_of_cons; left|]. cbn [foldM]. unfold count_addresses at 2. rewrite Hr. cbn [idx mbind res_bind].
  rewrite IH by (intros e' He'; apply He; by apply elem_of_cons; right). f_equal. change (pairs_under g (e :: l)) with (map (pair e.1) (elements (addresses_of g e)) ++ pairs_under g l). rewrite length_app, length_map.
  change (length (elements (addresses_of g e))) with (size (addresses_of g e)). unfold addresses_of. rewrite Hr. cbn [fmap option_fmap option_map default]. rewrite size_dom. unfold id. lia.
Qed.

(** The retained pairs, and the names and addresses they have. *)
Lemma retained_pairs order g : reg_ok g -> used g -> let retained := pairs_under g (range order (byName g)) in
  (forall n ip, (n, ip) ∈ retained <-> is_Some (deadline_of g n ip)) /\ (list_to_set retained.*1 : gset string) = dom (byName g) /\ (list_to_set retained.*2 : gset Addr) = dom (byIP g).
Proof.
  intros H U retained. assert (Hin : forall n ip, (n, ip) ∈ retained <-> exists r rec, byName g !! n = Some r /\ records g !! r = Some rec /\ is_Some (r_addresses rec !! ip)).
  { intros n ip. unfold retained. rewrite elem_of_pairs_under. split.
    - intros (r & Hr%elem_of_range & Hip). destruct (ro_record _ H _ _ Hr) as (_ & rec & Hrec & _). exists r, rec. unfold addresses_of in Hip. cbn in Hip. rewrite Hrec in Hip. by apply elem_of_dom in Hip.
    - intros (r & rec & Hr & Hrec & Hip). exists r. split; [by apply elem_of_range|]. unfold addresses_of. cbn. rewrite Hrec. by apply elem_of_dom. }
  split; [|split; apply leibniz_equiv].
  - intros n ip. rewrite Hin. unfold deadline_of. split.
    + intros (r & rec & Hr & Hrec & p & Hp). rewrite (proj2 (pair_of_Some g n ip p)) by eauto. destruct (ro_forward _ H _ _ _ _ _ Hr Hrec Hp) as (_ & _ & (t & Ht & _) & _). cbn. by exists t.
    + intros [t Ht]. destruct (pair_of g n ip) as [p|] eqn:Ep; [|done]. apply pair_of_Some in Ep as (r & rec & A & B & C). eauto.
  - intros n. rewrite elem_of_list_to_set, elem_of_dom, list_elem_of_fmap. split.
    + intros ([n' ip] & -> & (r & _ & Hr & _)%Hin). by exists r.
    + intros [r Hr]. destruct (ro_record _ H _ _ Hr) as (_ & rec & Hrec & _). destruct (map_choose _ (U _ _ _ Hr Hrec)) as (ip & p & Hp). exists (n, ip). split; [done|]. apply Hin. eauto.
  - intros ip. rewrite elem_of_list_to_set, elem_of_dom, list_elem_of_fmap. split.
    + intros ([n ip'] & -> & (r & rec & Hr & Hrec & p & Hp)%Hin). destruct (ro_forward _ H _ _ _ _ _ Hr Hrec Hp) as (_ & _ & _ & s & Hs & _). by exists s.
    + intros [s Hs]. destruct (ro_ip _ H _ _ Hs) as (Hne & _). apply map_choose in Hne as (r & p & Hd). destruct (ro_backward _ H _ _ _ _ Hs Hd) as (n & rec & A & B & C). exists (n, ip). split; [done|]. apply Hin. eauto.
Qed.

Lemma size_list_to_set_le {A} `{Countable A} (l : list A) : size (list_to_set l : gset A) <= length l.
Proof. induction l as [|x l IH]; [by rewrite list_to_set_nil, size_empty|]. rewrite list_to_set_cons. pose proof (size_union_alt {[x]} (list_to_set l : gset A)) as E. rewrite size_singleton in E. assert (size (list_to_set l ∖ {[x]} : gset A) <= size (list_to_set l : gset A)) by (apply subseteq_size; set_solver). cbn [length]. lia. Qed.

Lemma filter_split {A} (f : A -> bool) (l : list A) : length (filter (fun e => f e = true) l) + length (filter (fun e => f e = false) l) = length l.
Proof. induction l as [|x l IH]; [done|]. rewrite !filter_cons. destruct (f x); repeat case_decide; try done; cbn; lia. Qed.

(** C25: in every reachable state the usage counts exactly the retained evidence: [UserUsed]
    the pairs with a deadline, [Domains] the names and [IPs] the addresses of these pairs, so
    that every name and address that is counted has a retained pair.  The projection does not exceed the
    capacity of the map, nor its queue of requests twice of it. *)
Theorem usage_bounds (bits : string -> list Z) (max : nat) (st : state) (order : map_order) : reachable bits max st ->
  exists u (retained : list (string * Addr)), Usage order st.1.1 = Ok u /\
    NoDup retained /\ (forall n ip, (n, ip) ∈ retained <-> is_Some (deadline_of st.1.1 n ip)) /\
    UserUsed u = length retained /\ Domains u = size (list_to_set retained.*1 : gset string) /\ IPs u = size (list_to_set retained.*2 : gset Addr) /\
    Domains u <= UserUsed u /\ IPs u <= UserUsed u /\ IPv4 u + IPv6 u = IPs u /\
    KernelMax u = max /\ KernelUsed u <= max /\ KernelPending u <= 2 * max /\ KernelCandidates u <= IPs u.
Proof.
  destruct st as [[g a] m]. intros (Hb & [[H T U L S C] [P1 P2 [L1 L2 L3]] _ _ _] & K)%reachable_inv. cbn [fst snd] in *.
  destruct (retained_pairs order g H U) as (R1 & R2 & R3). set (retained := pairs_under g (range order (byName g))) in *. eexists _, retained. unfold Usage. rewrite count_addresses_ok; cycle 1.
  { intros [n r] Hin. apply elem_of_range in Hin. destruct (ro_record _ H _ _ Hin) as (_ & rec & Hr & _). by exists rec. }
  cbn [mbind res_bind]. split; [reflexivity|]. cbn [KernelMax KernelUsed KernelPending Domains UserUsed IPs IPv4 IPv6 KernelCandidates]. fold retained. rewrite R2, R3, !size_dom.
  assert (Hd : size (byName g) <= length retained) by (rewrite <-(size_dom (D := gset string) (byName g)), <-R2; etrans; [apply size_list_to_set_le|by rewrite length_fmap]).
  assert (Hi : size (byIP g) <= length retained) by (rewrite <-(size_dom (D := gset Addr) (byIP g)), <-R3; etrans; [apply size_list_to_set_le|by rewrite length_fmap]).
  pose proof (pi_size _ _ _ P1). pose proof (pending_bound _ _ _ P1 L1). rewrite K in *. split; [apply NoDup_pairs_under, NoDup_range|]. split_and!; try done.
  - rewrite (filter_split (fun e => Is4 e.1)). apply length_range.
  - rewrite <-(length_range order (byIP g)). rewrite <-(filter_split (fun e => has_rules e.2) (range order (byIP g))). lia.
Qed.

(** ** Verification *)

Section Verify.
Context (bits : string -> list Z) (g : DomainRegistry) (m : domain_map) (G : good bits g ∅) (P : proj_inv true (kernel_ g) m).

Lemma verifyLocked_ok n ip : canonical ip -> exists v, verifyLocked n ip g = Ok v /\
  (Paired v = true <-> is_Some (deadline_of g n ip)) /\
  (Registered v = true <-> exists ip', Is4 ip' = Is4 ip /\ is_Some (deadline_of g n ip')) /\
  (KernelCovered v = true -> is_Some (deadline_of g n ip) /\ match m !! As16 ip with
    | Some e => forall i, i < MaxMatchSetLen ->
      (has_bit (b_bump e) i = true <-> exists n t, deadline_of g n ip = Some t /\ has_bit (bits n) i = true) /\
      (has_bit (b_routing e) i = true <-> forall n t, deadline_of g n ip = Some t -> has_bit (bits n) i = true)
    | None => domainBitmapAllZero (bits n) = true
    end).
Proof.
  intros Hc. pose proof G as [H _ _ L _ _]. assert (Hdl : forall r rec ip', byName g !! n = Some r -> records g !! r = Some rec -> is_Some (deadline_of g n ip') <-> is_Some (r_addresses rec !! ip')).
  { intros r rec ip' Hn Hr. unfold deadline_of, pair_of. rewrite Hn. cbn. rewrite Hr. cbn. destruct (r_addresses rec !! ip') as [p|] eqn:Ep; [|split; by intros []].
    destruct (ro_forward _ H _ _ _ _ _ Hn Hr Ep) as (_ & _ & (t & Ht & _) & _). cbn. rewrite Ht. split; eauto. }
  unfold verifyLocked. destruct (byName g !! n) as [r|] eqn:Hn.
  2: { exists no_verification. split; [done|]. assert (Hnone : forall ip', deadline_of g n ip' = None) by (intros ip'; unfold deadline_of, pair_of; by rewrite Hn).
       cbn. split; [rewrite Hnone; split; [done|by intros []]|]. split; [split; [done|intros (ip' & _ & Hs); rewrite Hnone in Hs; by destruct Hs]|done]. }
  destruct (ro_record _ H _ _ Hn) as (_ & rec & Hr & _). rewrite Hr. cbn [idx mbind res_bind]. specialize (Hdl r rec). destruct (r_addresses rec !! ip) as [p|] eqn:Ep.
  - assert (Hpaired : is_Some (deadline_of g n ip)) by (apply Hdl; [done|done|by rewrite Ep]). destruct (ro_forward _ H _ _ _ _ _ Hn Hr Ep) as (_ & _ & _ & s & Hs & _).
    rewrite (pi_mirror _ _ _ P ip Hc) by by left. destruct (resident (kernel_ g) !! ip) as [installed|] eqn:Ei.
    + rewrite Hs. cbn [idx mbind res_bind]. eexists. split; [reflexivity|]. cbn. split; [done|]. split; [split; [by exists ip|done]|]. intros ->%bitmaps_equal_spec. split; [done|]. intros i Hi. by apply (summary_names bits g G).
    + eexists. split; [reflexivity|]. cbn. split; [done|]. split; [split; [by exists ip|done]|]. by rewrite (L n r rec).
  - eexists. split; [reflexivity|]. cbn. split; [rewrite Hdl by done; rewrite Ep; split; [done|by intros []]|]. split; [|done]. rewrite existsb_exists. split.
    + intros ([ip' p] & Hin & He). apply list_elem_of_In, elem_of_map_to_list in Hin. exists ip'. apply Bool.eqb_prop in He. split; [done|]. apply Hdl; [done|done|by exists p].
    + intros (ip' & He & Hs). rewrite Hdl in Hs by done. destruct Hs as [p Hp]. exists (ip', p). split; [by apply list_elem_of_In, elem_of_map_to_list|]. cbn. rewrite He. apply Bool.eqb_reflx.
Qed.
End Verify.

(** C21: in every reachable state [Verify] returns; it reports a pair exactly when there is
    evidence for it, a name exactly when it has evidence in the family of the address,
    and it calls a pair covered only if the kernel entry has no routing bit the name
    lacks and every bit of the name as a bump bit. *)
Theorem Verify_sound (bits : string -> list Z) (max : nat) (g : DomainRegistry) (a : domainActivity) (m : domain_map) (n : string) (ip : Addr) :
  reachable bits max (g, a, m) -> IsValid ip = true -> Addr_wf ip ->
  exists v, Verify n ip g = Ok v /\
    (Paired v = true <-> is_Some (deadline_of g n (Unmap ip))) /\
    (Registered v = true <-> exists ip', Is4 ip' = Is4 (Unmap ip) /\ is_Some (deadline_of g n ip')) /\
    (KernelCovered v = true -> match m !! As16 (Unmap ip) with
      | Some e => forall i, i < MaxMatchSetLen -> (has_bit (b_routing e) i = true -> has_bit (bits n) i = true) /\ (has_bit (bits n) i = true -> has_bit (b_bump e) i = true)
      | None => domainBitmapAllZero (bits n) = true
      end).
Proof.
  intros (Hb & [G [P1 _ _] _ _ _] & _)%reachable_inv Hv Hw. cbn [fst snd] in *.
  destruct (verifyLocked_ok bits g m G P1 n (Unmap ip)) as (v & Ev & Vp & Vr & Vk); [by apply Unmap_canonical|]. exists v. split_and!; try done.
  intros [[t Ht] Hm]%Vk. destruct (m !! As16 (Unmap ip)) as [e|]; [|done]. intros i Hi. destruct (Hm i Hi) as [B R]. rewrite B, R. split; [intros HR; by eapply HR|by eauto].
Qed.

(** ** Reloading *)

(** C22: a reload in any reachable state of the registry that serves the queue returns. The
    old registry has drained its queue and dropped expired evidence; the new one has the
    evidence of the old one, extended by the activity that arrived meanwhile, without what
    has expired for it. The queue goes to the new registry unless the kernel rejected its
    projection. *)
Theorem fork_adopts_evidence (bits bits' : string -> list Z) (max : nat) (env : environment) (now : Time) (arrived late : list (domainActivityKey * nat * Time))
    (g : DomainRegistry) (a : domainActivity) (m : domain_map) (id max' : nat) (w lag : Z) :
  reachable bits max (g, a, m) -> a_registry a = Some (g_id g) -> (forall n, bitmap_ok (bits' n)) ->
  exists old a' m' g' m2 err,
    ForkFrom (update_fails env) (delete_fails env) (batch_applies env) (iteration env) bits' now arrived late (g, a, m) (newDomainRegistry id max' w lag, ∅) = Ok (old, a', m', (g', m2), err) /\
    (forall n ip, deadline_of old n ip = evidence_ (st_expire (activityLag g) (st_drain (window g) (abs (g, a, m)))) n ip) /\
    (let q := a_pending (enqueue_all arrived (mkActivity (a_registry a) no_activity)) in
     forall n ip, deadline_of g' n ip = ev_expire (evaluatedAt g' - lag) (ev_refresh w q (deadline_of old)) n ip) /\
    a_registry a' = match err with None => Some id | Some _ => a_registry a end.
Proof.
  intros (Hb & I & _)%reachable_inv Ho Hb'. assert (Hd : drained_store g a = st_drain (window g) (abs (g, a, m))).
  { unfold drained_store, owns. by rewrite bool_decide_eq_true_2. }
  destruct (ForkFrom_ok bits bits' Hb' (update_fails env) (delete_fails env) (batch_applies env) (iteration env) now arrived late g a m id max' w lag (newDomainRegistry id max' w lag) I)
    as (old & a' & m' & g' & m2 & err & E & I' & _ & V & V2 & O); [by exists 0%Z, 0%Z|]. rewrite Hd in V, V2.
  exists old, a', m', g', m2, err. split; [done|]. split; [exact V|]. split; [exact V2|]. destruct err; [done|]. apply O.
Qed.

(** *** Snapshots *)

Section Decoded.
Context (order : map_order) (is_name : string -> bool) (canon : string -> string).

Lemma restore_pair_spec addrs e addrs' : restore_pair addrs e = Ok addrs' ->
  exists ip, ParseAddr e.1 = Some (ip, []) /\ addrs !! ip = None /\ addrs' = <[ip := e.2]> addrs.
Proof.
  unfold restore_pair. destruct (ParseAddr e.1) as [[ip zone]|]; [|done]. destruct (IsUnspecified ip || _ || _ || _) eqn:Ec; [done|].
  apply orb_false_iff in Ec as [Ec _]. apply orb_false_iff in Ec as [Ec _]. apply orb_false_iff in Ec as [_ Ez%negb_false_iff%bool_decide_eq_true]. subst zone.
  destruct (addrs !! ip) eqn:Ea; [done|]. intros [= <-]. by exists ip.
Qed.

Lemma restore_pairs_spec entries addrs : foldM restore_pair ∅ (range order entries) = Ok addrs ->
  forall ip d, addrs !! ip = Some d <-> exists s, entries !! s = Some d /\ ParseAddr s = Some (ip, []).
Proof.
  intros E ip d. cut (addrs !! ip = Some d <-> exists s, (s, d) ∈ range order entries /\ ParseAddr s = Some (ip, [])); [by setoid_rewrite elem_of_range|]. revert ip d.
  apply (foldM_ind restore_pair (fun l addrs => forall ip d, addrs !! ip = Some d <-> exists s, (s, d) ∈ l /\ ParseAddr s = Some (ip, [])) (range order entries) ∅ addrs); [| |done].
  - intros ip d. rewrite lookup_empty. setoid_rewrite elem_of_nil. naive_solver.
  - intros l [s0 d0] m1 m2 IH _ (ip0 & Ep & Hn & ->)%restore_pair_spec ip d. cbn [fst snd] in *. setoid_rewrite elem_of_app. setoid_rewrite list_elem_of_singleton. destruct (decide (ip = ip0)) as [->|Hne].
    + rewrite lookup_insert_eq. split; [intros [= <-]; eauto|]. intros (s & [Hin|[= -> ->]] & Hs); [|done]. assert (Hx : m1 !! ip0 = Some d) by (apply IH; eauto). congruence.
    + rewrite lookup_insert_ne by done. rewrite IH. split; [naive_solver|]. intros (s & [Hin|[= -> ->]] & Hs); [eauto|congruence].
Qed.

Lemma restore_records_spec entries recs : restore_records order is_name canon entries = Ok recs ->
  forall n ip d, evidence_at recs n ip = Some d <-> exists addrs s, entries !! n = Some addrs /\ addrs !! s = Some d /\ ParseAddr s = Some (ip, []).
Proof.
  intros E n ip d. cut (evidence_at recs n ip = Some d <-> exists addrs s, (n, addrs) ∈ range order entries /\ addrs !! s = Some d /\ ParseAddr s = Some (ip, [])); [by setoid_rewrite elem_of_range|].
  assert (Hnd : NoDup ((range order entries).*1)) by apply NoDup_range. revert Hnd n ip d.
  apply (foldM_ind (restore_entry order is_name canon) (fun l recs => NoDup (l.*1) -> forall n ip d, evidence_at recs n ip = Some d <->
    exists addrs s, (n, addrs) ∈ l /\ addrs !! s = Some d /\ ParseAddr s = Some (ip, [])) (range order entries) ∅ recs); [| |done].
  - intros _ n ip d. unfold evidence_at. rewrite lookup_empty. setoid_rewrite elem_of_nil. naive_solver.
  - intros l [n0 a0] m1 m2 IH _ Er Hnd n ip d. rewrite fmap_app in Hnd. apply NoDup_app in Hnd as (Hnd & Hdis & _). specialize (IH Hnd). unfold restore_entry in Er. cbn [fst snd] in Er.
    destruct (_ || _ || _); [done|]. destruct (foldM restore_pair ∅ (range order a0)) as [addrs| |] eqn:Ea; try done. cbn [mbind res_bind] in Er. injection Er as <-.
    pose proof (restore_pairs_spec _ _ Ea) as Hsp. setoid_rewrite elem_of_app. setoid_rewrite list_elem_of_singleton. unfold evidence_at. destruct (decide (n = n0)) as [->|Hne].
    + rewrite lookup_insert_eq. cbn. rewrite Hsp. split; [intros (s & ? & ?); exists a0, s; auto|]. intros (addrs' & s1 & Hin & Hs & Hp). destruct Hin as [Hin|Hin]; [|injection Hin as ->; eauto].
      exfalso. apply (Hdis n0); [by apply (list_elem_of_fmap_2 fst l (n0, addrs'))|]. by apply list_elem_of_singleton.
    + rewrite lookup_insert_ne by done. fold (evidence_at m1 n ip). rewrite IH. split; [naive_solver|]. intros (addrs' & s1 & Hin & Hs & Hp). destruct Hin as [Hin|Hin]; [eauto|by injection Hin].
Qed.

Lemma restore_records_nopanic entries : restore_records order is_name canon entries <> Panic.
Proof.
  apply (foldM_nopanic _ (fun _ => True)); [done| |done]. intros e recs _ _. unfold restore_entry. destruct (_ || _ || _); [done|]. assert (Hp : foldM restore_pair ∅ (range order e.2) <> Panic).
  { apply (foldM_nopanic _ (fun _ => True)); [done| |done]. intros [s d] addrs _ _. unfold restore_pair. cbn [fst snd]. destruct (ParseAddr s) as [[ip zone]|]; [|done]. cbn [fst snd]; destruct (_ || _ || _ || _); [done|]. by destruct (addrs !! ip). }
  by destruct (foldM restore_pair ∅ (range order e.2)).
Qed.
End Decoded.

(** Restoring a decoded snapshot into a new registry either reports an error or gives
    exactly the pairs of the snapshot that have not expired, with their deadlines; it
    never panics. *)
Theorem Restore_live_pairs (bits : string -> list Z) (env : environment) (is_name : string -> bool) (canon : string -> string)
    (decoded : option (gmap string (gmap bytes Time))) (now : Time) (id max : nat) (w lag : Z) :
  (forall n, bitmap_ok (bits n)) -> (0 <= lag <= now)%Z ->
  match Restore (update_fails env) (delete_fails env) (batch_applies env) (iteration env) is_name canon decoded bits now (newDomainRegistry id max w lag, ∅) with
  | Ok (g, m) => exists entries, decoded = Some entries /\ forall n ip d, deadline_of g n ip = Some d <->
      (now - lag < d)%Z /\ exists addrs s, entries !! n = Some addrs /\ addrs !! s = Some d /\ ParseAddr s = Some (ip, [])
  | Err _ => True
  | Panic => False
  end.
Proof.
  intros Hb Hlag. unfold Restore. destruct decoded as [entries|]; [|done]. pose proof (restore_records_nopanic (iteration env) is_name canon entries) as Hnp.
  destruct (restore_records (iteration env) is_name canon entries) as [recs| |] eqn:Er; [|done|done]. cbn [mbind res_bind].
  pose proof (Restore_entries_ok bits Hb (update_fails env) (delete_fails env) (batch_applies env) (iteration env) recs now id max w lag (restore_records_ok _ _ _ _ _ Er) Hlag) as H.
  destruct (Restore_entries _ _ _ _ recs bits now _) as [[g m]| |]; [|done|done]. destruct H as (_ & _ & V). exists entries. split; [done|]. intros n ip d.
  rewrite V, <-(restore_records_spec _ _ _ _ _ Er). destruct (evidence_at recs n ip) as [t|]; [|naive_solver]. cbn. unfold unexpired. destruct (Z.leb_spec t (now - lag)); [naive_solver lia|].
  split; [intros [= ->]; done|]. by intros [_ [= ->]].
Qed.

(** ** Selection *)

Lemma bytes_compare_total a : forall b, bytes_compare a b <> Gt \/ bytes_compare b a <> Gt.
Proof.
  induction a as [|x a IH]; intros [|y b]; cbn; try (by left); try (by right). rewrite (Z.compare_antisym x y). destruct (x ?= y)%Z; cbn; [apply IH|by left|by right].
Qed.

Lemma candidate_le_total g x y : candidate_le g x y = true \/ candidate_le g y x = true.
Proof.
  unfold candidate_le. destruct (Z.ltb_spec (priority_of g y) (priority_of g x)), (Z.ltb_spec (priority_of g x) (priority_of g y)); auto; try lia.
  unfold Addr_Compare. rewrite (Z.compare_antisym (BitLen x)). destruct (BitLen x ?= BitLen y)%Z; cbn; auto.
  destruct (bytes_compare_total (addr_bytes x) (addr_bytes y)) as [H1|H1]; [left; by destruct (bytes_compare _ _)|right; by destruct (bytes_compare _ _)].
Qed.

Lemma select_sorted order g ip ip' : ip ∈ select_residents order g -> ip' ∈ candidates order g -> ip' ∉ select_residents order g -> (priority_of g ip' <= priority_of g ip)%Z.
Proof.
  unfold select_residents. set (max := k_max _). destruct (Nat.ltb_spec max (length (candidates order g))) as [Hlt|Hge].
  2: { rewrite take_ge by lia. done. }
  set (l := SortStable _ _). assert (Hs : StronglySorted (fun a b => (priority_of g b <= priority_of g a)%Z) l).
  { apply Sorted_StronglySorted; [intros a b c; lia|]. pose proof (SortStable_Sorted (candidate_le g) (candidate_le_total g) (candidates order g)) as H. fold l in H.
    induction H as [|a l' _ IH Hd]; constructor; [done|]. inversion Hd as [|b l'' Hab]; constructor. unfold candidate_le in Hab.
    destruct (Z.ltb_spec (priority_of g b) (priority_of g a)); [lia|]. destruct (Z.ltb_spec (priority_of g a) (priority_of g b)); [done|lia]. }
  intros Hin Hc Hout. assert (Hl : ip' ∈ l) by (unfold l; by rewrite SortStable_Permutation). rewrite <-(take_drop max l) in Hs, Hl. apply elem_of_app in Hl as [?|Hl]; [done|].
  apply StronglySorted_app in Hs as (Hs & _). by apply Hs.
Qed.

(** In every reachable state the projection selects addresses with the latest
    deadlines: no name with rules of an address that is left out has a later deadline than
    all those of a selected one, and something is left out only if the map is full. *)
Theorem select_residents_latest (bits : string -> list Z) (max : nat) (st : state) (order : map_order) (ip ip' : Addr) (n' : string) (t' : Time) :
  reachable bits max st -> ip ∈ select_residents order st.1.1 -> ip' ∉ select_residents order st.1.1 ->
  deadline_of st.1.1 n' ip' = Some t' -> domainBitmapAllZero (bits n') = false ->
  length (select_residents order st.1.1) = max /\
  exists n t, deadline_of st.1.1 n ip = Some t /\ domainBitmapAllZero (bits n) = false /\ (t' <= t)%Z.
Proof.
  destruct st as [[g a] m]. intros (Hb & [G _ _ _ _] & K)%reachable_inv Hin Hout Hd Hz. cbn [fst snd] in *. destruct (select_spec order g) as (_ & S2 & S3 & S4).
  assert (Hr : is_Some (rules_summary g ip')).
  { destruct (rules_summary g ip') as [v|] eqn:E; [by eexists|]. rewrite (no_rules_names bits g G ip' Hb E n' t' Hd) in Hz. done. }
  split; [destruct (decide (length (select_residents order g) = max)); [done|]; exfalso; apply Hout, S4; [lia|done]|].
  destruct (S3 _ Hin) as [v Hv]. unfold rules_summary in Hv. destruct (byIP g !! ip) as [s|] eqn:Es; [|done]. cbn in Hv. destruct (has_rules s) eqn:Er; [|done].
  destruct (evidence_indexed bits g G n' ip' t' Hd) as [_ [s' Es']]. destruct (go_summaries _ _ _ G ip s Es ltac:(set_solver)) as [A1 _ A3 A4]. destruct (go_summaries _ _ _ G ip' s' Es' ltac:(set_solver)) as [_ _ B3 _].
  assert (Hle : (t' <= s_priority s')%Z) by (eapply B3; [apply (member_names bits g G ip' s'); eauto|done]).
  assert (Hpr : (s_priority s' <= s_priority s)%Z).
  { pose proof (select_sorted order g ip ip' Hin ltac:(by apply candidates_spec) Hout) as H. unfold priority_of in H. by rewrite Es, Es' in H. }
  destruct A4 as [Hz0|(bm & Hm & Hbz)].
  - exfalso. assert (Hpos : (0 < t')%Z); [|lia]. unfold deadline_of in Hd. destruct (pair_of g n' ip') as [p|] eqn:Ep; [|done]. cbn in Hd. apply pair_of_Some in Ep as (r & rec & X & Y & Z).
    destruct (ro_forward _ (go_ok _ _ _ G) _ _ _ _ _ X Y Z) as (_ & _ & (t0 & Ht0 & ?) & _). rewrite Hd in Ht0. by injection Ht0 as ->.
  - apply (member_names bits g G ip s) in Hm as (n & Hn & <-); [|done]. exists n, (s_priority s). split; [done|]. split; [done|lia].
Qed.

(** ** An example *)

Module Demo.
Definition bits (n : string) : list Z :=
  if String.eqb n "a." then 1%Z :: replicate 31 0%Z else if String.eqb n "b." then 3%Z :: replicate 31 0%Z else replicate 32 0%Z.

Lemma bits_ok n : bitmap_ok (bits n).
Proof.
  assert (H0 : forall k, Forall (fits 32) (replicate k 0%Z)) by (intros k; apply Forall_replicate; apply fits_0).
  unfold bits. destruct (String.eqb n "a."); [|destruct (String.eqb n "b.")]; (split; [done|]).
  - constructor; [unfold fits; lia|apply H0].
  - constructor; [unfold fits; lia|apply H0].
  - apply H0.
Qed.

(** Writes to the first address fail; one order of iteration. *)
Definition env (fails : bool) : environment :=
  mkEnv (fun _ _ _ => if fails then Some "update"%string else None) (fun _ _ => if fails then Some "delete"%string else None) (fun _ kvs => (length kvs, None)) in_order.

Definition ip1 : Addr := AddrV4 [192; 0; 2; 1]%Z.
Definition ip2 : Addr := AddrV4 [192; 0; 2; 2]%Z.

(** Two names share an address; the second is retained longer. *)
Definition ops : list (environment * operation) :=
  [(env true, OpObserve [mkObservation "a." [ip1] (bits "a.") 60; mkObservation "b." [ip1; ip2] (bits "b.") 300] 1000);
   (env false, OpEnqueue (ip1, "a."%string) 3 2000);
   (env false, OpFlush);
   (env false, OpRetry (2000 * time_Second))].

Definition st : state := match run_ops ops (initial 7 1 10 5) with Ok st => st | _ => initial 7 1 10 5 end.
Definition g : DomainRegistry := st.1.1.
Definition a : domainActivity := st.1.2.
Definition m : domain_map := st.2.

Lemma ops_ok : Forall (fun e => op_ok bits e.2) ops.
Proof.
  repeat constructor; cbn; try lia.
Qed.

Lemma run_eq : run_ops ops (initial 7 1 10 5) = Ok (g, a, m).
Proof. vm_compute. reflexivity. Qed.

Definition snapshot : gmap string (gmap bytes Time) := {[ "a."%string := {[ [49; 57; 50; 46; 48; 46; 50; 46; 49]%Z := 9000%Z ]} ]}.

Lemma g_reachable : reachable bits 1 (g, a, m).
Proof.
  apply (reachable_run bits 1 ops (initial 7 1 10 5)); [|exact ops_ok|exact run_eq]. apply reach_new; [exact bits_ok|done].
Qed.
End Demo.

Lemma registry_refines_store_witness : exists st, run_ops Demo.ops (initial 7 1 10 5) = Ok st /\
  let '(s, shut) := st_ops 10 5 Demo.ops.*2 (empty_store, false) in
  (forall n ip, deadline_of st.1.1 n ip = evidence_ s n ip) /\ evaluatedAt st.1.1 = now_ s /\ a_pending st.1.2 = queue_ s /\ closed st.1.1 = shut.
Proof. exact (registry_refines_store Demo.bits 7 1 10 5 Demo.ops Demo.bits_ok Demo.ops_ok). Defined.

Lemma kernel_entries_exact_witness : match Demo.m !! As16 Demo.ip1 with
  | Some v => forall i, i < MaxMatchSetLen ->
    (has_bit (b_bump v) i = true <-> exists n t, deadline_of Demo.g n Demo.ip1 = Some t /\ has_bit (Demo.bits n) i = true) /\
    (has_bit (b_routing v) i = true <-> forall n t, deadline_of Demo.g n Demo.ip1 = Some t -> has_bit (Demo.bits n) i = true)
  | None => size (desired (kernel_ Demo.g)) = 1 \/ forall n t, deadline_of Demo.g n Demo.ip1 = Some t -> domainBitmapAllZero (Demo.bits n) = true
  end.
Proof.
  apply (kernel_entries_exact Demo.bits 1 Demo.g Demo.a Demo.m Demo.ip1 Demo.g_reachable); [|vm_compute; reflexivity].
  split; [done|]. split; [|done]. split; [done|]. repeat constructor; done.
Defined.

Lemma usage_bounds_witness : exists u, Usage in_order (Demo.g, Demo.a, Demo.m).1.1 = Ok u /\ KernelMax u = 1 /\ KernelUsed u <= 1 /\ KernelPending u <= 2 * 1.
Proof.
  destruct (usage_bounds Demo.bits 1 (Demo.g, Demo.a, Demo.m) in_order Demo.g_reachable) as (u & retained & E & _ & _ & _ & _ & _ & _ & _ & _ & H1 & H2 & H3 & _). exact (ex_intro _ u (conj E (conj H1 (conj H2 H3)))).
Defined.

Lemma Verify_sound_witness : exists v, Verify "a." Demo.ip1 Demo.g = Ok v /\
  (Paired v = true <-> is_Some (deadline_of Demo.g "a." (Unmap Demo.ip1))) /\
  (Registered v = true <-> exists ip', Is4 ip' = Is4 (Unmap Demo.ip1) /\ is_Some (deadline_of Demo.g "a." ip')) /\
  (KernelCovered v = true -> match Demo.m !! As16 (Unmap Demo.ip1) with
    | Some e => forall i, i < MaxMatchSetLen -> (has_bit (b_routing e) i = true -> has_bit (Demo.bits "a.") i = true) /\ (has_bit (Demo.bits "a.") i = true -> has_bit (b_bump e) i = true)
    | None => domainBitmapAllZero (Demo.bits "a.") = true
    end).
Proof.
  apply (Verify_sound Demo.bits 1 Demo.g Demo.a Demo.m "a." Demo.ip1 Demo.g_reachable); [done|]. split; [done|]. repeat constructor; done.
Defined.

Lemma fork_adopts_evidence_witness : exists old a' m' g' m2 err,
  ForkFrom (update_fails (Demo.env false)) (delete_fails (Demo.env false)) (batch_applies (Demo.env false)) in_order Demo.bits 3000 [] [] (Demo.g, Demo.a, Demo.m) (newDomainRegistry 8 4 10 5, ∅)
    = Ok (old, a', m', (g', m2), err) /\
  (forall n ip, deadline_of old n ip = evidence_ (st_expire (activityLag Demo.g) (st_drain (window Demo.g) (abs (Demo.g, Demo.a, Demo.m)))) n ip) /\
  (let q := a_pending (enqueue_all [] (mkActivity (a_registry Demo.a) no_activity)) in
   forall n ip, deadline_of g' n ip = ev_expire (evaluatedAt g' - 5) (ev_refresh 10 q (deadline_of old)) n ip) /\
  a_registry a' = match err with None => Some 8 | Some _ => a_registry Demo.a end.
Proof.
  exact (fork_adopts_evidence Demo.bits Demo.bits 1 (Demo.env false) 3000 [] [] Demo.g Demo.a Demo.m 8 4 10 5 Demo.g_reachable ltac:(vm_compute; reflexivity) Demo.bits_ok).
Defined.

Lemma Restore_live_pairs_witness :
  match Restore (update_fails (Demo.env false)) (delete_fails (Demo.env false)) (batch_applies (Demo.env false)) in_order (fun _ => true) (fun n => n)
          (Some Demo.snapshot) Demo.bits 3000 (newDomainRegistry 8 4 10 5, ∅) with
  | Ok (g, m) => exists entries, Some Demo.snapshot = Some entries /\
      forall n ip d, deadline_of g n ip = Some d <-> (3000 - 5 < d)%Z /\ exists addrs s, entries !! n = Some addrs /\ addrs !! s = Some d /\ ParseAddr s = Some (ip, [])
  | Err _ => True
  | Panic => False
  end.
Proof. apply (Restore_live_pairs Demo.bits (Demo.env false) (fun _ => true) (fun n => n)); [exact Demo.bits_ok|lia]. Defined.

Lemma select_residents_latest_witness : length (select_residents in_order (Demo.g, Demo.a, Demo.m).1.1) = 1 /\
  exists n t, deadline_of (Demo.g, Demo.a, Demo.m).1.1 n Demo.ip1 = Some t /\ domainBitmapAllZero (Demo.bits n) = false /\ (300000001000 <= t)%Z.
Proof.
  apply (select_residents_latest Demo.bits 1 (Demo.g, Demo.a, Demo.m) in_order Demo.ip1 Demo.ip2 "b." 300000001000 Demo.g_reachable).
  - apply list_elem_of_In. vm_compute. by left.
  - rewrite list_elem_of_In. vm_compute. by intros [|].
  - vm_compute. reflexivity.
  - vm_compute. reflexivity.
Defined.

(** ** Ranking *)

Lemma extend_frame r ip p d g g' b : extend r ip p d g = Ok (g', b) -> kernel_ g' = kernel_ g /\ byName g' = byName g /\ records g' = records g.
Proof.
  unfold extend. destruct (pairs g !! p); [|done]. cbn [idx mbind res_bind]. destruct (After d _); [|by intros [= <- _]]. set (g1 := count_change _). assert (H1 : kernel_ g1 = kernel_ g /\ byName g1 = byName g /\ records g1 = records g).
  { unfold g1, trackDeadline. by destruct (_ || _). }
  destruct (records g1 !! r); [|done]. cbn [idx mbind res_bind]. destruct (domainBitmapAllZero _); [by intros [= <- _]|]. destruct (byIP g1 !! ip); [|done]. cbn [idx mbind res_bind]. destruct (After d _); intros [= <- _]; done.
Qed.

(** Every pair of the observation is retained, and its address resident. *)
Definition renews (g : DomainRegistry) (o : domainObservation) : Prop :=
  forall ip, ip ∈ o_ips o -> is_Some (pair_of g (o_name o) (Unmap ip)) /\ is_Some (resident (kernel_ g) !! Unmap ip).

Lemma renews_frame g g' o : kernel_ g' = kernel_ g -> byName g' = byName g -> records g' = records g -> renews g o -> renews g' o.
Proof. intros Hk Hn Hr H ip Hip. unfold pair_of. rewrite Hk, Hn, Hr. by apply H. Qed.

Lemma observe_renews at_ now o g g' changed rc : renews g o -> observe at_ now (g, ∅, false) o = Ok (g', changed, rc) -> (kernel_ g' = kernel_ g /\ byName g' = byName g /\ records g' = records g) /\ changed = ∅ /\ rc = false.
Proof.
  intros Hren. unfold observe. cbn [fst]. destruct (negb _); [by intros [= <- <- <-]|]. set (d := (at_ + _)%Z). intros Hf.
  refine (foldM_ind _ (fun _ '(g1, ch, rc1) => (kernel_ g1 = kernel_ g /\ byName g1 = byName g /\ records g1 = records g) /\ ch = ∅ /\ rc1 = false) (o_ips o) (g, ∅, false) (g', changed, rc) _ _ Hf); [done|].
  intros _ ip [[g1 ch] rc1] [[g2 ch2] rc2] ((Hk & Hn & Hr) & -> & ->) Hin E. destruct (renews_frame g g1 o Hk Hn Hr Hren ip Hin) as [[p Hp] [v Hv]]. apply pair_of_Some in Hp as (r & rec & A & B & C).
  unfold observe_ip in E. rewrite A, B in E. cbn [idx mbind res_bind] in E. rewrite C in E. destruct (extend r (Unmap ip) p d g1) as [[g3 raised]| |] eqn:Ex; [|done|done]. cbn [mbind res_bind] in E. apply extend_frame in Ex as (Ek & En & Er).
  unfold not_resident in E. rewrite Ek, Hv, andb_false_r in E. injection E as <- <- <-. split; [|done]. split_and!; congruence.
Qed.

Lemma drain_nothing order g a : a_pending a = no_activity -> exists q a', drainActivity order g a = Ok (with_batch g q, a', false).
Proof.
  intros Hq. unfold drainActivity. destruct (negb _); [exists (activityBatch g), a; by destruct g|]. unfold applyActivity. cbn [activityBatch with_batch]. rewrite Hq. unfold no_activity.
  assert (Hf : forall n st, foldM (fun st batch => foldM (apply_entry order) st (range order batch)) st (replicate n ∅) = Ok st).
  { induction n as [|n IH]; intros st; [done|]. cbn [replicate foldM]. assert (Hr : range order (∅ : gmap domainActivityKey Time) = []).
    { destruct (range order (∅ : gmap domainActivityKey Time)) as [|[k t] l] eqn:El; [done|]. assert (Hx : (∅ : gmap domainActivityKey Time) !! k = Some t) by (apply (elem_of_range order); rewrite El; left). by rewrite lookup_empty in Hx. }
    rewrite Hr. cbn [foldM mbind res_bind]. apply IH. }
  rewrite Hf. cbn [mbind res_bind]. eexists _, _. reflexivity.
Qed.

(** Renewing the evidence of resident addresses does not change the wanted ones, whatever
    their new rank: the selection is not made again.  A resident address that is no longer
    wanted, because its removal failed, thus stays unwanted. *)
Theorem renewal_keeps_selection bits max env g a m observations at_ st' : reachable bits max (g, a, m) -> closed g = false ->
  a_pending a = no_activity -> (Z.max at_ (evaluatedAt g) - activityLag g < nextGC g)%Z -> Forall (renews g) observations ->
  ObserveDNS (update_fails env) (delete_fails env) (batch_applies env) (iteration env) observations at_ (g, a, m) = Ok st' -> desired (kernel_ st'.1.1) = desired (kernel_ g).
Proof.
  intros (Hb & I & _)%reachable_inv Hc Hq Hgc Hren. unfold ObserveDNS. rewrite Hc. destruct (drain_nothing (iteration env) g a Hq) as (q & a' & ->). cbn [mbind res_bind].
  set (g0 := clock at_ (with_batch g q)). assert (H0 : kernel_ g0 = kernel_ g /\ byName g0 = byName g /\ records g0 = records g /\ nextGC g0 = nextGC g /\ activityLag g0 = activityLag g /\ evaluatedAt g0 = Z.max at_ (evaluatedAt g)).
  { unfold g0, clock, After. cbn [evaluatedAt with_batch]. destruct (Z.ltb_spec (evaluatedAt g) at_); cbn; split_and!; try done; lia. }
  destruct H0 as (K0 & N0 & R0 & X1 & X2 & X3). unfold gc. rewrite X1, X2, X3. assert (Hbf : Before (Z.max at_ (evaluatedAt g) - activityLag g) (nextGC g) = true) by by apply Z.ltb_lt. rewrite Hbf, orb_true_r. cbn [mbind res_bind].
  destruct (foldM (observe at_ _) (g0, ∅, false) observations) as [[[g1 changed] rc]| |] eqn:Ef; [|done|done]. cbn [mbind res_bind].
  assert (H1 : (kernel_ g1 = kernel_ g /\ byName g1 = byName g /\ records g1 = records g) /\ changed = ∅ /\ rc = false).
  { refine (foldM_ind _ (fun _ '(g1, ch, rc1) => (kernel_ g1 = kernel_ g /\ byName g1 = byName g /\ records g1 = records g) /\ ch = ∅ /\ rc1 = false) observations (g0, ∅, false) (g1, changed, rc) _ _ Ef); [done|].
    intros _ o [[g2 ch] rc2] [[g3 ch3] rc3] ((Hk & Hn & Hr) & -> & ->) Hin E. rewrite Forall_forall in Hren. apply observe_renews in E as ((Ek & En & Er) & -> & ->); [split; [|done]; split_and!; congruence|]. by apply (renews_frame g g2), Hren. }
  destruct H1 as ((K1 & _ & _) & -> & ->). unfold sync_after, syncProjection. cbn [fst snd]. assert (Hnil : range_set (iteration env) (∅ : gset Addr) = []).
  { destruct (range_set (iteration env) (∅ : gset Addr)) as [|x l] eqn:El; [done|]. assert (Hx : x ∈ (∅ : gset Addr)) by (apply (elem_of_range_set (iteration env)); rewrite El; left). set_solver. }
  rewrite Hnil. cbn [foldM mbind res_bind negb andb]. rewrite K1, size_empty, Nat.add_0_r. destruct (si_projected _ _ I) as [P1 P2 P3]. cbn [fst snd] in *. rewrite (proj2 (Nat.leb_le _ _) (pl_size _ _ _ P3)). unfold request_changed. rewrite Hnil. cbn [fold_left].
  destruct (publish_ok (update_fails env) (delete_fails env) (batch_applies env) (iteration env) (Z.max at_ (evaluatedAt g)) (kernel_ g) m) as (k' & m' & -> & _ & (D & _)); [by rewrite P2|]. cbn [mbind res_bind]. by intros [= <-].
Qed.

(** An address that is installed but no longer wanted, because its removal failed, is
    extended; then writes succeed again. *)
Definition lagging_ops : list (environment * operation) :=
  [(Demo.env false, OpObserve [mkObservation "a." [Demo.ip1] (Demo.bits "a.") 60] 1000);
   (Demo.env true, OpObserve [mkObservation "b." [Demo.ip2] (Demo.bits "b.") 300] 2000);
   (Demo.env false, OpEnqueue (Demo.ip1, "a."%string) 3 (100 * time_Second));
   (Demo.env true, OpFlush);
   (Demo.env false, OpRetry (110 * time_Second))].

(** In this run the projection settles, with nothing outstanding, on an address that
    expires earlier than the one the selection would keep. *)
Example ranking_lags : exists g a m, run_ops lagging_ops (initial 7 1 (300 * time_Second) 0) = Ok (g, a, m) /\
  pending (kernel_ g) = ∅ /\ desired (kernel_ g) !! Demo.ip1 = None /\ select_residents in_order g = [Demo.ip1] /\
  deadline_of g "b." Demo.ip2 = Some (300 * time_Second + 2000)%Z /\ deadline_of g "a." Demo.ip1 = Some (400 * time_Second)%Z.
Proof.
  set (r := run_ops _ _). assert (Hr : match r with Ok (g, _, _) => pending (kernel_ g) = ∅ /\ desired (kernel_ g) !! Demo.ip1 = None /\ select_residents in_order g = [Demo.ip1] /\
    deadline_of g "b." Demo.ip2 = Some (300 * time_Second + 2000)%Z /\ deadline_of g "a." Demo.ip1 = Some (400 * time_Second)%Z | _ => False end) by (vm_compute; by split_and!).
  destruct r as [[[g a] m]| |]; [|done|done]. by exists g, a, m.
Qed.
