(* ===== verification/RoutingKnowledge.v ===== *)
(** * What a name adds to a kernel decision

    The kernel evaluates a policy with three-valued domain predicates: the bitmaps of an
    address say that every name of it, some name or no name belongs to a set. Userspace
    evaluates the same policy for one name. A decision the kernel reaches without handing
    the packet over is the decision for every name that agrees with the bitmaps; the
    registry calls a pair covered only if they agree, so a covered connection may keep
    the kernel decision. *)

From S2P Require Import Prelude Netip GoStrings GoSlices Trie TrieCorrect DomainMatcher ConfigSyntax RoutingInstr RoutingCursor RoutingEval RoutingKernel RoutingEquiv RoutingSem RoutingEmit RoutingRules RoutingBuilder RoutingConfig RoutingCompile RoutingDenote RoutingNodes RoutingPool RoutingResolve RoutingCompileCorrect RoutingCompiled RoutingState RoutingStateCorrect RoutingLive RoutingKernelLive RoutingOptimizerCorrect.

(** ** Information *)

(** [u] is a definite value, and the value [k] where [k] is definite. *)
Definition informs (k u : predicateResult) : Prop := u <> predicateUnknown /\ (k = predicateUnknown \/ k = u).

Lemma informs_pmax k u k' u' : informs k u -> informs k' u' -> informs (pmax k k') (pmax u u').
Proof. unfold informs. destruct k, u, k', u'; cbn; intuition congruence. Qed.
Lemma informs_pmin k u k' u' : informs k u -> informs k' u' -> informs (pmin k k') (pmin u u').
Proof. unfold informs. destruct k, u, k', u'; cbn; intuition congruence. Qed.
Lemma informs_pneg k u : informs k u -> informs (pneg k) (pneg u).
Proof. unfold informs. destruct k, u; cbn; intuition congruence. Qed.
Lemma informs_pbool b : informs (pbool b) (pbool b).
Proof. split; [by destruct b|by right]. Qed.

(** Two inputs of the same packet. *)
Record same_packet (p q : routingInput) : Prop := {
  sp_src : src p = src q;
  sp_dst : dst p = dst q;
  sp_l4 : l4proto p = l4proto q;
  sp_pname : processName p = processName q;
  sp_ifindex : ifindex p = ifindex q;
  sp_physinif : physinif p = physinif q;
  sp_dscp : dscp p = dscp q;
  sp_mac : mac p = mac q;
}.

(** The end of the flow rules stands outside every block. *)
Definition action_tail (routes : bool) (t : bpfMatchSet) : Prop :=
  Action t = MatchActionCapture \/ Action t = MatchActionBump \/
  (Action t = MatchActionMust /\ routes = false) \/ (Action t = MatchActionRoute /\ routes = true).
Definition capture_tail (t : bpfMatchSet) : Prop := Action t = MatchActionCapture.

(** Rules for HTTP clients only capture. *)
Fixpoint client_ok (n : node) : Prop :=
  match n with
  | NRule g tail => g = GHTTPClient -> capture_tail tail
  | NBlock g body =>
    (g = GHTTPClient -> Forall (node_tails capture_tail) body) /\
    (fix go nodes := match nodes with [] => True | n :: nodes => client_ok n /\ go nodes end) body
  end.

Lemma client_ok_block g body : client_ok (NBlock g body) <-> (g = GHTTPClient -> Forall (node_tails capture_tail) body) /\ Forall client_ok body.
Proof.
  cbn [client_ok]. apply and_iff_compat_l. induction body as [|n body IH]; [by split|]. rewrite Forall_cons. by apply and_iff_compat_l.
Qed.

Lemma client_dec (g : guard) : {g = GHTTPClient} + {g <> GHTTPClient}.
Proof. destruct g; [by right|by left|by right]. Qed.

(** Nodes that capture leave the must control alone; only the kernel stops at one. *)
Section Capture.
Context (links : string -> Z) (members : string -> list bytes) (dv : string -> list string -> predicateResult).
Context (m : RoutingMatcher) (p : routingInput).

Definition captured (o : outcome) (c : control) : Prop :=
  match o with
  | Continue c' => r_must c' = r_must c
  | Stop (Ok e) => simulateKernel p = true /\ outbound e = OutboundControlPlaneRouting
  | Stop _ => False
  end.

Lemma act_capture t u c : capture_tail t -> captured (act m p t u c) c.
Proof.
  unfold capture_tail, act, apply_action. intros ->. cbn -[Z.land Z.lor has_flag simulateKernel].
  destruct (simulateKernel p) eqn:E; cbn [andb]; [|done]. by destruct (has_flag _ _).
Qed.

Lemma run_capture n : node_tails capture_tail n -> forall u c, captured (run_node links members dv m p u n c) c.
Proof.
  induction n as [g tail|g body IH] using node_rect'.
  - cbn. intros Ht u c. destruct (guard_value _ _ _ _ _ g); [done|by apply act_capture..].
  - rewrite node_tails_block. intros Hb u c. rewrite run_node_block.
    assert (Hgo : forall u c, captured (run_nodes links members dv m p u body c) c).
    { clear u c. induction IH as [|n body Hn _ IHb]; intros u c; [done|]. apply Forall_cons in Hb as [Hb1 Hb2]. cbn.
      specialize (Hn Hb1 u c). destruct (run_node _ _ _ _ _ _ _ _) as [r|c']; [done|]. cbn in Hn. specialize (IHb Hb2 u c').
      by destruct (run_nodes _ _ _ _ _ _ _ _) as [[]|c'']; cbn in *; rewrite <-?Hn. }
    destruct (guard_value _ _ _ _ _ g); [done|apply Hgo..].
Qed.
End Capture.

Section Knowledge.
Context (links : string -> Z) (members : string -> list bytes) (dk du : string -> list string -> predicateResult).
Context (mk mu : RoutingMatcher) (k u : routingInput).
Context (Hdv : forall key vs, informs (dk key vs) (du key vs)) (Hsame : same_packet k u).
Context (Husable : outboundUsable mk = outboundUsable mu) (Hu : simulateKernel u = false).

Lemma guard_informs g : g <> GHTTPClient -> informs (guard_value links members dk mk k g) (guard_value links members du mu u g).
Proof.
  destruct g as [fs| |]; [intros _|done|by split; [|right]]. cbn. induction fs as [|f fs IH]; [by split; [|right]|]. cbn. apply informs_pmin; [|exact IH].
  unfold function_value. assert (Hg : forall gs, informs (groups_value links members dk k (f_Name f) gs) (groups_value links members du u (f_Name f) gs)).
  { induction gs as [|[key vs] gs IHg]; [by split; [|right]|]. cbn. apply informs_pmax; [|exact IHg]. unfold group_value. destruct (String.eqb _ _); [apply Hdv|].
    assert (Hv : forall v, value_holds links members k (f_Name f) v = value_holds links members u (f_Name f) v).
    { intros v. destruct Hsame as [E0 E1 E2 E3 E4 E5 E6 E7]. unfold value_holds. by rewrite E0, E1, E2, E3, E4, E5, E6, E7. }
    erewrite (existsb_ext_Forall _ _ (fun _ => True)); [apply informs_pbool|intros v _; apply Hv|by apply Forall_true]. }
  destruct (f_Not f); [apply informs_pneg|]; apply Hg.
Qed.

(** The must control of the kernel, where known, is that of the name. *)
Definition controls_agree (routes : bool) (ck cu : control) : Prop :=
  informs (r_must ck) (r_must cu) /\ (routes = true -> r_must ck <> predicateUnknown).

Definition same_decision (routes : bool) (ok ou : outcome) : Prop :=
  match ok with
  | Continue ck => exists cu, ou = Continue cu /\ controls_agree routes ck cu
  | Stop (Ok ek) => outbound ek = OutboundControlPlaneRouting \/
    exists eu, ou = Stop (Ok eu) /\ outbound eu = outbound ek /\ mark eu = mark ek /\ must_result eu = must_result ek
  | Stop _ => True
  end.

(** An action the kernel takes with certainty, or hands over. *)
Lemma act_informs routes t x ck cu : action_tail routes t -> controls_agree routes ck cu ->
  same_decision routes (act mk k t x ck) (act mu u t false cu) /\
  (x = true -> same_decision routes (act mk k t x ck) (Continue cu)).
Proof.
  intros Ht [Hm Hr]. destruct Hsame as [_ Ed El _ _ _ _ _]. unfold action_tail in Ht. unfold act, apply_action.
  destruct Ht as [-> | [-> | [[-> ->] | [-> ->]]]]; cbn -[Z.land Z.lor has_flag simulateKernel pmax].
  - rewrite Hu. cbn [andb]. destruct (simulateKernel k && has_flag _ _); cbn; [by split; [left|left]|]. split; [|intros _]; (eexists; split; [done|]); by split.
  - split; [|intros _]; (eexists; split; [done|]); by split.
  - split; [|intros ->]; eexists; (split; [done|]); (split; [|done]); cbn [r_must]; destruct Hm as [Hm1 Hm2]; [destruct x|]; cbn [negb];
      (split; [done|]); destruct (r_must ck), (r_must cu); cbn; intuition congruence.
  - rewrite Ed, Husable, El, Hu. cbn [andb].
    destruct (has_flag (Flags t) matchFlagSkipNoalive && _); cbn; [split; [|intros _]; (eexists; split; [done|]); by split|]. destruct x; cbn; [by split; [left|left]|].
    split; [|done]. right. eexists. split; [done|]. cbn. specialize (Hr eq_refl). destruct Hm as [_ [Hm|Hm]]; [done|]. rewrite Hm. by destruct (_ || _).
Qed.
Local Abbreviation run_k := (run_node links members dk mk k).
Local Abbreviation run_u := (run_node links members du mu u).

(** Running a node from agreeing controls; under an unknown condition the name may also
    skip it. *)
Definition node_informs (routes : bool) (n : node) : Prop := forall x ck cu, controls_agree routes ck cu ->
  same_decision routes (run_k x n ck) (run_u false n cu) /\ (x = true -> same_decision routes (run_k x n ck) (Continue cu)).

Lemma nodes_informs routes ns x ck cu : Forall (node_informs routes) ns -> controls_agree routes ck cu ->
  same_decision routes (run_nodes links members dk mk k x ns ck) (run_nodes links members du mu u false ns cu) /\
  (x = true -> same_decision routes (run_nodes links members dk mk k x ns ck) (Continue cu)).
Proof.
  intros H. revert ck cu. induction H as [|n ns Hn H IH]; intros ck cu Hc; [split; [|intros _]; by exists cu|]. cbn.
  destruct (Hn x ck cu Hc) as [H1 H2]. destruct (run_node links members dk mk k x n ck) as [[e|e|]|ck']; try done.
  - split; [|done]. destruct H1 as [H1|(eu & Hs & H1)]; [by left|right]. exists eu. by rewrite Hs.
  - destruct H1 as (cu' & -> & Hc'). split; [by apply IH|]. intros Hx. destruct (H2 Hx) as (cu0 & [= <-] & Hc0). by apply (IH ck' cu Hc0).
Qed.

Lemma captured_informs routes n : node_tails capture_tail n -> node_informs routes n.
Proof.
  intros Hn x ck cu Hc. pose proof (run_capture links members dk mk k n Hn x ck) as Hk. pose proof (run_capture links members du mu u n Hn false cu) as Hcu.
  destruct (run_node links members dk mk k x n ck) as [[e| |]|ck']; cbn in Hk; [split; [|intros _]; left; apply Hk|done|done|].
  destruct (run_node links members du mu u false n cu) as [[e| |]|cu']; cbn in Hcu; [destruct Hcu; congruence|done|done|].
  unfold controls_agree in Hc. split; [exists cu'|intros _; exists cu]; (split; [done|]); unfold controls_agree; by rewrite Hk, ?Hcu.
Qed.

Lemma run_informs routes n : node_tails (action_tail routes) n -> client_ok n -> node_informs routes n.
Proof.
  induction n as [g tail|g body IH] using node_rect'.
  - cbn [node_tails client_ok]. intros Ht Hg. destruct (client_dec g) as [E|E]; [by apply captured_informs; apply Hg|]. intros x ck cu Hc. cbn.
    destruct (guard_informs g E) as [Hu1 Hk1]. destruct (guard_value links members dk mk k g), (guard_value links members du mu u g); try (by destruct Hk1); cbn;
      rewrite ?orb_true_r, ?orb_false_r; try (by split; [|intros _]; exists cu).
    + destruct (act_informs routes tail true ck cu Ht Hc) as [_ H]. split; [by apply H|intros _; by apply H].
    + destruct (act_informs routes tail true ck cu Ht Hc) as [H1 H2]. split; [done|intros _; by apply H2].
    + by apply act_informs.
  - rewrite node_tails_block, client_ok_block. intros Ht [Hg Hcl]. destruct (client_dec g) as [E|E]; [by apply captured_informs, node_tails_block, Hg|].
    assert (Hb : Forall (node_informs routes) body).
    { clear Hg E. induction IH as [|n body Hn _ IHb]; [done|]. apply Forall_cons in Ht as [? ?], Hcl as [? ?]. constructor; [by apply Hn|by apply IHb]. }
    intros x ck cu Hc. rewrite !run_node_block. destruct (guard_informs g E) as [Hu1 Hk1].
    destruct (guard_value links members dk mk k g), (guard_value links members du mu u g); try (by destruct Hk1); cbn;
      rewrite ?orb_true_r, ?orb_false_r; try (by split; [|intros _]; exists cu).
    + destruct (nodes_informs routes body true ck cu Hb Hc) as [_ H]. split; [by apply H|intros _; by apply H].
    + destruct (nodes_informs routes body true ck cu Hb Hc) as [H1 H2]. split; [done|intros _; by apply H2].
    + by apply nodes_informs.
Qed.
End Knowledge.

(** ** Policies *)

Section Policies.
Context (outbounds : gmap string Z) (sets : gmap string (list RoutingStatement)).

(** A node of the routes, or of the flow rules. *)
Definition plain_node (routes : bool) (n : node) : Prop := node_tails (action_tail routes) n /\ client_ok n.

Lemma plain_effect routes action flags fs : action_tail routes (effect_tail action flags) -> plain_node routes (effect_node action flags fs).
Proof. by split. Qed.

Lemma plain_use routes cond ns : Forall (plain_node routes) ns -> Forall (plain_node routes) (use_nodes cond ns).
Proof.
  intros H. destruct cond, ns; try done. cbn [use_nodes]. apply Forall_singleton. split; [apply node_tails_block|apply client_ok_block; split; [done|]];
    (eapply Forall_impl; [exact H|]); by intros ? [].
Qed.

Lemma plain_expands routes rule_nodes stmts nodes : (forall rule ns, rule_nodes rule = Some ns -> Forall (plain_node routes) ns) ->
  expands sets rule_nodes stmts nodes -> Forall (plain_node routes) nodes.
Proof.
  intros HP. induction 1 as [|st rule ns stmts nodes _ _ Hn _ IH|st body bn stmts nodes _ _ _ IH1 _ IH]; [constructor|..]; apply Forall_app; split; try done.
  - by eapply HP.
  - by apply plain_use.
Qed.

Lemma plain_rules rs ns : mapM (rule_node outbounds) rs = Some ns -> Forall (plain_node true) ns /\ Forall (plain_node true) (map bypass_node ns).
Proof.
  intros H%mapM_Some. induction H as [|rule n rs ns Hn H [H1 H2]]; [done|]. unfold rule_node in Hn. destruct (ParseOutbound _) as [o| |]; [|done..].
  destruct (outbounds !! o_Name o); [|done]. injection Hn as <-. cbn [map]. rewrite !Forall_cons. split; (split; [|done]); split; try done; right; right; right; done.
Qed.

Lemma plain_http routes flags ps : Forall (plain_node routes) (http_nodes flags ps).
Proof.
  unfold http_nodes. destruct ps as [|fs ps]; [done|]. apply Forall_singleton. split; [apply node_tails_block|apply client_ok_block; split; [intros _|]];
    apply Forall_map, Forall_true; intros ?; [by left|done|done].
Qed.

(** Routes and rewrites, the flow rules and their end, then routes again. *)
Lemma policy_stages p policy nodes : policy_nodes outbounds sets p policy nodes ->
  exists first flow last, nodes = first ++ flow ++ flowEnd_nodes flow ++ last /\
    Forall (plain_node true) first /\ Forall (plain_node false) flow /\ Forall (plain_node true) last.
Proof.
  intros (by_ & early & late & caps & cons & body & fb & o & id & Hby & Hea & Hla & Hcap & Hcon & Hbody & Hfb & Ho & Hid & ->).
  eexists (map bypass_node by_ ++ caps ++ map capture_node (pr_destinations p) ++ request_nodes p), (cons ++ capture_http_nodes p), _.
  split; [rewrite <-!app_assoc; reflexivity|]. apply plain_rules in Hby as [_ Hby], Hea as [Hea _], Hla as [Hla _].
  assert (Hc : forall r flags, action_tail r (effect_tail MatchActionCapture flags)) by (by left).
  rewrite !Forall_app. split_and!; try done.
  - eapply plain_expands, Hcap. intros rule ns. unfold capture_nodes. destruct (plan_rule _ _) as [plan| |]; [|done..]. intros [= <-].
    apply Forall_map, Forall_true. intros d. by apply plain_effect.
  - apply Forall_map, Forall_true. intros d. by apply plain_effect.
  - unfold request_nodes. destruct (pr_capture p) as [[]|]; [apply plain_http|constructor].
  - eapply plain_expands, Hcon. intros rule ns. unfold control_nodes. destruct (plan_rule _ _) as [plan| |] eqn:Ep; [|done..]. intros [= <-].
    apply plan_rule_controls in Ep. apply Forall_map. eapply Forall_impl; [exact Ep|]. intros c Hc'. apply plain_effect.
    destruct Hc' as [-> | ->]; [right; right; left; done|right; left; done].
  - unfold capture_http_nodes. destruct (pr_capture p) as [[]|]; [apply plain_http|constructor].
  - eapply plain_expands, Hbody. intros rule ns. unfold route_nodes. destruct (rule_node outbounds rule) as [n|] eqn:En; [|done]. intros [= <-].
    by apply (plain_rules [rule] [n]); cbn; rewrite En.
  - apply Forall_singleton. split; [right; right; right; done|done].
Qed.
End Policies.

Section Final.
Context (links : string -> Z) (members : string -> list bytes) (dk du : string -> list string -> predicateResult).
Context (mk mu : RoutingMatcher) (k u : routingInput).
Context (Hdv : forall key vs, informs (dk key vs) (du key vs)) (Hsame : same_packet k u).
Context (Husable : outboundUsable mk = outboundUsable mu) (Hu : simulateKernel u = false).

Local Abbreviation runs_k := (run_nodes links members dk mk k false).
Local Abbreviation runs_u := (run_nodes links members du mu u false).

(** A definite result of the kernel is the result for the name. *)
Definition result_stands (rk ru : res routingEvaluation) : Prop :=
  forall ek, rk = Ok ek -> outbound ek <> OutboundControlPlaneRouting ->
  exists eu, ru = Ok eu /\ outbound eu = outbound ek /\ mark eu = mark ek /\ must_result eu = must_result ek.

Definition outcome_result (o : outcome) : res routingEvaluation :=
  match o with Stop r => r | Continue _ => Err "no match set hit" end.
Definition outcome_stands (ok ou : outcome) : Prop := result_stands (outcome_result ok) (outcome_result ou).

Lemma stands_app routes ns ns' ck cu : Forall (plain_node routes) ns -> controls_agree routes ck cu ->
  (forall ck' cu', controls_agree routes ck' cu' -> outcome_stands (runs_k ns' ck') (runs_u ns' cu')) ->
  outcome_stands (runs_k (ns ++ ns') ck) (runs_u (ns ++ ns') cu).
Proof.
  intros Hns Hc Hrest. rewrite !run_nodes_app.
  assert (Hi : Forall (node_informs links members dk du mk mu k u routes) ns).
  { eapply Forall_impl; [exact Hns|]. intros n [H1 H2]. by apply run_informs. }
  destruct (nodes_informs links members dk du mk mu k u routes ns false ck cu Hi Hc) as [H _].
  destruct (runs_k ns ck) as [[ek|e|]|ck']; cbn in H; [| |..|destruct H as (cu' & -> & H); by apply Hrest].
  - destruct H as [H|(eu & -> & H)]; intros ? [= <-] Hne; [done|]. by exists eu.
  - by intros ? [=].
  - by intros ? [=].
Qed.

Lemma policy_informs outbounds sets p policy nodes : policy_nodes outbounds sets p policy nodes ->
  result_stands (run_policy links members dk mk k nodes) (run_policy links members du mu u nodes).
Proof.
  intros (first & flow & last & -> & Hf & Hfl & Hl)%policy_stages.
  assert (Hlast : forall ck cu, controls_agree true ck cu -> outcome_stands (runs_k last ck) (runs_u last cu)).
  { intros ck cu Hc. rewrite <-(app_nil_r last). apply (stands_app true); [done|done|]. intros ck' cu' _. by intros ? [=]. }
  assert (Hend : forall ck cu, controls_agree false ck cu -> flow <> [] -> outcome_stands (runs_k (NRule GAlways flowEnd_tail :: last) ck) (runs_u (NRule GAlways flowEnd_tail :: last) cu)).
  { intros ck cu [[Hc1 Hc2] _] _. cbn -[simulateKernel]. unfold act, apply_action. cbn -[simulateKernel]. rewrite Hu. cbn [andb orb].
    rewrite (bool_decide_eq_false_2 (r_must cu = predicateUnknown)) by done.
    destruct (simulateKernel k && r_bump ck); cbn [orb]; [by intros ? [= <-]|]. destruct (bool_decide_reflect (r_must ck = predicateUnknown)) as [E|E]; [by intros ? [= <-]|].
    apply Hlast. split; [|done]. split; [done|]. by right; destruct Hc2. }
  assert (Hall : outcome_stands (runs_k (first ++ flow ++ flowEnd_nodes flow ++ last) (mkControl predicateMiss false 0))
    (runs_u (first ++ flow ++ flowEnd_nodes flow ++ last) (mkControl predicateMiss false 0))).
  { apply (stands_app true); [done|by split; [split; [|right]|]|]. intros ck cu [Hc Hm]. destruct flow as [|n flow]; [by apply Hlast|].
    apply (stands_app false); [done|by split|]. intros ck' cu' Hc'. by apply Hend. }
  intros ek. unfold run_policy, outcome_stands, result_stands, outcome_result in *.
  specialize (Hall ek). destruct (runs_k _ _), (runs_u _ _); exact Hall.
Qed.
End Final.

(** ** Evaluations without uncertainty *)

(** A tail of the routes of a configuration. *)
Definition names_outbound (outbounds : gmap string Z) (t : bpfMatchSet) : Prop :=
  Action t = MatchActionRoute -> exists name, outbounds !! name = Some (Outbound_ t).

Section Definite.
Context (outbounds : gmap string Z) (links : string -> Z) (members : string -> list bytes) (dv : string -> list string -> predicateResult).
Context (m : RoutingMatcher) (p : routingInput).
Context (Hdv : forall key vs, dv key vs <> predicateUnknown) (Hp : simulateKernel p = false).

Definition decided (o : outcome) : Prop :=
  match o with
  | Continue c => r_must c <> predicateUnknown
  | Stop r => exists e name, r = Ok e /\ outbounds !! name = Some (outbound e)
  end.

Lemma guard_definite g : guard_value links members dv m p g <> predicateUnknown.
Proof.
  destruct g as [fs| |]; cbn; [|by destruct (allowed m p)|done].
  assert (Hi : informs (functions_value links members dv p fs) (functions_value links members dv p fs)).
  { assert (Hdv' : forall key vs, informs (dv key vs) (dv key vs)) by (by split; [|right]).
    apply (guard_informs links members dv dv m m p p Hdv' ltac:(by split) (GFunctions fs)). done. }
  apply Hi.
Qed.

Lemma act_decided t c : names_outbound outbounds t -> (exists r, action_tail r t) \/ Action t = MatchActionFlowEnd -> r_must c <> predicateUnknown -> decided (act m p t false c).
Proof.
  intros Hn Ht Hc. unfold act, apply_action. assert (Ha : Action t = MatchActionCapture \/ Action t = MatchActionBump \/ Action t = MatchActionMust \/ Action t = MatchActionRoute \/ Action t = MatchActionFlowEnd).
  { destruct Ht as [(r & [?|[?|[[? _]|[? _]]]])|?]; tauto. }
  rewrite Hp. destruct Ha as [E|[E|[E|[E|E]]]]; rewrite E; cbn -[has_flag]; try done.
  - destruct (has_flag (Flags t) matchFlagSkipNoalive && _); cbn; [done|]. destruct (Hn E) as [name Hname]. by eexists _, name.
  - by rewrite bool_decide_eq_false_2.
Qed.

Definition decides (n : node) : Prop := forall c, r_must c <> predicateUnknown -> decided (run_node links members dv m p false n c).

Lemma nodes_decide ns c : Forall decides ns -> r_must c <> predicateUnknown -> decided (run_nodes links members dv m p false ns c).
Proof.
  intros H. revert c. induction H as [|n ns Hn H IH]; intros c Hc; [done|]. cbn. specialize (Hn c Hc). destruct (run_node _ _ _ _ _ _ _ _) as [r|c']; [done|]. by apply IH.
Qed.

Lemma node_decides n : node_tails (fun t => names_outbound outbounds t /\ ((exists r, action_tail r t) \/ Action t = MatchActionFlowEnd)) n -> decides n.
Proof.
  induction n as [g tail|g body IH] using node_rect'; intros Ht c Hc.
  - cbn. pose proof (guard_definite g) as Hg. destruct (guard_value _ _ _ _ _ g); [done|done|]. destruct Ht. by apply act_decided.
  - rewrite run_node_block. pose proof (guard_definite g) as Hg. destruct (guard_value _ _ _ _ _ g); [done|done|]. cbn. apply nodes_decide; [|done].
    apply node_tails_block in Ht. clear Hg. induction IH as [|n body Hn _ IHb]; [constructor|]. apply Forall_cons in Ht as [? ?]. constructor; [by apply Hn|by apply IHb].
Qed.
End Definite.

Section Decides.
Context (outbounds : gmap string Z) (sets : gmap string (list RoutingStatement)).

Definition policy_tail (t : bpfMatchSet) : Prop := names_outbound outbounds t /\ ((exists r, action_tail r t) \/ Action t = MatchActionFlowEnd).

Lemma rule_tails rs ns : mapM (rule_node outbounds) rs = Some ns -> Forall (node_tails policy_tail) ns /\ Forall (node_tails policy_tail) (map bypass_node ns).
Proof.
  intros H%mapM_Some. induction H as [|rule n rs ns Hn H [H1 H2]]; [done|]. unfold rule_node in Hn. destruct (ParseOutbound _) as [o| |]; [|done..].
  destruct (outbounds !! o_Name o) as [id|] eqn:Ho; [|done]. injection Hn as <-. cbn [map]. rewrite !Forall_cons.
  split; (split; [|done]); split; try (intros _; by eexists); left; exists true; by right; right; right.
Qed.

Lemma effect_policy_tail action flags : action ∈ [MatchActionCapture; MatchActionMust; MatchActionBump] -> policy_tail (effect_tail action flags).
Proof.
  rewrite !elem_of_cons, elem_of_nil. intros [-> | [-> | [-> | []]]]; (split; [done|]); left; exists false; [by left|by right; right; left|by right; left].
Qed.

Lemma http_tails flags ps : Forall (node_tails policy_tail) (http_nodes flags ps).
Proof.
  unfold http_nodes. destruct ps as [|fs ps]; [done|]. apply Forall_singleton, node_tails_block, Forall_map, Forall_true. intros x. apply effect_policy_tail. set_solver.
Qed.

Lemma policy_tails p policy nodes : policy_nodes outbounds sets p policy nodes -> exists init o id fb,
  po_Fallback policy = Some fb /\ ParseOutbound fb = Ok o /\ outbounds !! o_Name o = Some id /\
  nodes = init ++ [NRule GAlways (route_tail o id)] /\ Forall (node_tails policy_tail) init.
Proof.
  intros (by_ & early & late & caps & cons & body & fb & o & id & Hby & Hea & Hla & Hcap & Hcon & Hbody & Hfb & Ho & Hid & ->).
  eexists _, o, id, fb. split; [done|]. split; [done|]. split; [done|]. split; [rewrite !app_assoc; reflexivity|].
  apply rule_tails in Hby as [_ Hby], Hea as [Hea _], Hla as [Hla _]. rewrite !Forall_app. split_and!; try done.
  - eapply expands_tails, Hcap. intros rule ns. unfold capture_nodes. destruct (plan_rule _ _) as [plan| |]; [|done..]. intros [= <-].
    apply Forall_map, Forall_true. intros d. apply effect_policy_tail. set_solver.
  - apply Forall_map, Forall_true. intros d. apply effect_policy_tail. set_solver.
  - unfold request_nodes. destruct (pr_capture p) as [[]|]; [apply http_tails|constructor].
  - eapply expands_tails, Hcon. intros rule ns. unfold control_nodes. destruct (plan_rule _ _) as [plan| |] eqn:Ep; [|done..]. intros [= <-].
    apply plan_rule_controls in Ep. apply Forall_map. eapply Forall_impl; [exact Ep|]. intros c Hc'. apply effect_policy_tail. destruct Hc' as [-> | ->]; set_solver.
  - unfold capture_http_nodes. destruct (pr_capture p) as [[]|]; [apply http_tails|constructor].
  - unfold flowEnd_nodes. destruct (is_empty _); [constructor|]. apply Forall_singleton. split; [done|by right].
  - eapply expands_tails, Hbody. intros rule ns. unfold route_nodes. destruct (rule_node outbounds rule) as [n|] eqn:En; [|done]. intros [= <-].
    apply (rule_tails [rule] [n]). cbn. by rewrite En.
Qed.

(** An outbound that may be skipped. *)
Definition skipped (m : RoutingMatcher) (p : routingInput) (o : Outbound) (id : Z) : bool :=
  o_SkipWhileNoalive o && match outboundUsable m with None => false | Some usable => negb (usable id (l4proto p) (IpVersionFromAddr (ap_addr (dst p)))) end.

Lemma policy_decides links members dv m q p policy nodes : policy_nodes outbounds sets p policy nodes ->
  (forall key vs, dv key vs <> predicateUnknown) -> simulateKernel q = false ->
  exists fb o id, po_Fallback policy = Some fb /\ ParseOutbound fb = Ok o /\ outbounds !! o_Name o = Some id /\
    (skipped m q o id = false -> exists e name, run_policy links members dv m q nodes = Ok e /\ outbounds !! name = Some (outbound e)) /\
    forall e, run_policy links members dv m q nodes = Ok e -> exists name, outbounds !! name = Some (outbound e).
Proof.
  intros (init & o & id & fb & Hfb & Ho & Hid & -> & Hinit)%policy_tails Hdv Hq. exists fb, o, id. split; [done|]. split; [done|]. split; [done|].
  assert (Hd : Forall (decides outbounds links members dv m q) init) by (eapply Forall_impl; [exact Hinit|]; intros n; by apply node_decides).
  pose proof (nodes_decide outbounds links members dv m q init (mkControl predicateMiss false 0) Hd ltac:(done)) as Hrun.
  unfold run_policy. rewrite run_nodes_app. destruct (run_nodes _ _ _ _ _ _ init _) as [r|c].
  - destruct Hrun as (e & name & -> & Hn). split; [intros _; by exists e, name|]. intros e' [= <-]. by exists name.
  - cbn [run_nodes run_node guard_value is_unknown]. unfold act, apply_action. cbn -[has_flag routingMatchFlags].
    assert (Hflag : has_flag (routingMatchFlags false (o_Must o) (o_SkipWhileNoalive o)) matchFlagSkipNoalive = o_SkipWhileNoalive o) by (by destruct (o_Must o), (o_SkipWhileNoalive o)).
    rewrite Hflag. fold (skipped m q o id). destruct (skipped m q o id); cbn; [done|]. split; [intros _; by eexists _, (o_Name o)|]. intros e [= <-]. by exists (o_Name o).
Qed.
End Decides.
