(* ===== verification/RoutingSource.v ===== *)
(** * From written configurations to decisions

    The prepared configuration decides as the written one whose aliases and data files
    are resolved in place; so does the deployed router. *)

From Stdlib Require Import Ascii String.
From S2P Require Import Prelude Netip Trie TrieCorrect DomainMatcher ConfigSyntax RoutingInstr RoutingEval RoutingSem RoutingRules RoutingBuilder RoutingConfig RoutingCompile RoutingDenote RoutingNodes RoutingKeys RoutingResolve RoutingCompileCorrect RoutingCompiled RoutingState RoutingStateCorrect RoutingLive RoutingOptimizer RoutingOptimizerCorrect RoutingKnowledge.

Section Source.
Context (geosite : string -> string -> res (list geo_Domain)).
Context (geoip : string -> string -> res (list string)) (mmdb : string -> string -> string -> res (list string)).
Context (EqualFold : string -> string -> bool) (strings_ToLower : string -> string) (contextErr : option string).
Local Abbreviation prepareRoutingConfig := (prepareRoutingConfig geosite geoip mmdb EqualFold strings_ToLower contextErr).
Local Abbreviation resolveRoutingConfig := (resolveRoutingConfig geosite geoip mmdb EqualFold strings_ToLower contextErr).

Lemma same_run_policy ifenv members dv m p nodes nodes' : same_run ifenv members dv m p nodes nodes' ->
  run_policy ifenv members dv m p nodes = run_policy ifenv members dv m p nodes'.
Proof. intros [_ H]. unfold run_policy. by rewrite H. Qed.

(** C7: preparing a configuration (merging rules, sorting and removing duplicates) does not
    change what it decides for a name.  Where a prepared configuration exists, so does the
    reference whose aliases and data files are merely resolved; let the parameters of the
    reference be plain values, with the kinds of pattern known for domains and without keys elsewhere.
    Then, if every pattern either holds of the name or not, the program of each policy of the prepared
    one exists and returns what the program of the reference returns.  On three-valued evidence
    about the same packet, as the kernel has it, merged patterns may be decided where single ones are
    not, but a decision of the prepared program that does not hand the packet to userspace is the one of the
    reference for the name. *)
Theorem prepare_preserves_decisions (source routing : Routing) (outbounds : gmap string Z) (rules : preparedRules) (name : string)
    (ifenv : string -> Z) (members : string -> list bytes) (dv : string -> list string -> predicateResult) (dv1 : string -> string -> bool)
    (m : RoutingMatcher) (p : routingInput) :
  prepareRoutingConfig source = Ok routing -> (forall key vs, dv key vs = pbool (existsb (dv1 key) vs)) ->
  exists reference, resolveRoutingConfig source = Ok reference /\
    (settled_routing reference -> forall nodes, policy_nodes outbounds (set_map (RuleSets reference)) rules (find_policy reference name) nodes ->
      exists nodes', policy_nodes outbounds (set_map (RuleSets routing)) rules (find_policy routing name) nodes' /\
        run_policy ifenv members dv m p nodes' = run_policy ifenv members dv m p nodes /\
        forall (dk : string -> list string -> predicateResult) (mk : RoutingMatcher) (k : routingInput), (forall key vs, informs (dk key vs) (dv key vs)) ->
          same_packet k p -> outboundUsable mk = outboundUsable m -> simulateKernel p = false ->
          result_stands (run_policy ifenv members dk mk k nodes') (run_policy ifenv members dv m p nodes)).
Proof.
  intros Hp Hdv. destruct (prepared_related ifenv members dv1 p _ _ _ _ _ _ _ _ Hp) as (reference & Href & _). exists reference. split; [done|]. intros Hs nodes Hn.
  destruct (prepared_nodes ifenv members dv dv1 Hdv m p _ _ _ _ _ _ _ _ _ _ _ _ _ Hp Href Hs Hn) as (nodes' & Hn' & Hr). exists nodes'. split; [done|]. apply same_run_policy in Hr as ->. split; [done|].
  intros dk mk k Hi Hk Hu Hsim. by eapply policy_informs.
Qed.

(** ** Deployed written configurations *)

Section Deployed.
Context (ebpf_error : BPFState -> ebpf_call -> option string) (sha256 : bytes -> bytes).
Context {AcMatcher Regexp : Type}.
Context (ahocorasick_NewMatcher : list bytes -> res AcMatcher) (ahocorasick_Contains : AcMatcher -> bytes -> bool).
Context (ahocorasick_IsValidChar : Z -> bool) (regexp_Compile : bytes -> option Regexp).
Context (regexp_MatchString : Regexp -> bytes -> bool) (unicode_ToLower : bytes -> bytes).
Context (outbounds : gmap string Z).
Context (ac_builds : forall ps, forallb (forallb ahocorasick_IsValidChar) ps = true -> exists m, ahocorasick_NewMatcher ps = Ok m).
Context (ac_finds : forall ps m text, ahocorasick_NewMatcher ps = Ok m -> Forall (fun p => p <> []) ps ->
  forallb ahocorasick_IsValidChar text = true -> ahocorasick_Contains m text = existsb (fun p => substring p text) ps).
Context (lower_bytes : forall s, Forall is_byte s -> Forall is_byte (unicode_ToLower s)).
Local Abbreviation liveMatcher := (liveMatcher (AcMatcher := AcMatcher) (Regexp := Regexp)).
Local Abbreviation moment := (moment (AcMatcher := AcMatcher) (Regexp := Regexp)).
Local Abbreviation deployed := (deployed ebpf_error sha256 ahocorasick_NewMatcher ahocorasick_IsValidChar regexp_Compile outbounds).
Local Abbreviation evaluated := (evaluated ahocorasick_Contains regexp_MatchString unicode_ToLower).
Local Abbreviation domain_value := (domain_value regexp_Compile regexp_MatchString unicode_ToLower).

(** Whether one pattern holds of the name. *)
Definition pattern_value (p : routingInput) (key value : string) : bool :=
  negb (bool_decide (domain p = [])) &&
  Slimtrie.pattern_matches regexp_Compile regexp_MatchString key (str value) (normal_domain unicode_ToLower (domain p)).

Lemma domain_value_patterns p key vs : domain_value p key vs = pbool (existsb (pattern_value p key) vs).
Proof.
  unfold RoutingLive.domain_value, pattern_value. f_equal. induction vs as [|v vs IH]; cbn; [by rewrite andb_false_r|].
  rewrite <-IH. by destruct (negb _).
Qed.

(** C3: the router of a written configuration, prepared, compiled, built and uploaded,
    decides at every reachable moment (after client updates and link notifications whose
    writes succeed) as the written rules mean, each function under its authoritative name
    and with the values its data files list. *)
Theorem source_decision (source reference : Routing) (p : preparedRules) (b : Builder) (l0 : liveMatcher) (m0 m : moment) (i : nat) (name : string)
    (interfaces : list string) (nodes : list node) (input : routingInput) allowed usable :
  prepareRoutingConfig source = Ok (pr_routing p) -> resolveRoutingConfig source = Ok reference -> settled_routing reference ->
  deployed p b l0 m0 -> rtc (routing_step ebpf_error) m0 m -> domains_ok ahocorasick_IsValidChar regexp_Compile b ->
  profile_bindings reference !! i = Some (name, interfaces) ->
  policy_nodes outbounds (set_map (RuleSets reference)) p (find_policy reference name) nodes ->
  profileID (selected_input input) = (1 + Z.of_nat i)%Z -> decidable_input ahocorasick_IsValidChar unicode_ToLower input ->
  let router := evaluated (m_matcher m) allowed usable in
  match_ router input =
    (r ← run_policy (m_links m) (m_members m) (domain_value input) router (selected_input input) nodes;
     Ok (outbound r, mark r, must_result r)).
Proof.
  intros Hp Href Hs Hdep Hr Hdom Hi Hn Hid Hin router.
  destruct (prepared_related (m_links m) (m_members m) (pattern_value input) input _ _ _ _ _ _ _ _ Hp) as (reference' & Href' & _ & _ & Hd & Hif). rewrite Href in Href'. injection Href' as <-.
  assert (Hb : profile_bindings (pr_routing p) = profile_bindings reference) by (unfold profile_bindings; by rewrite Hd, Hif). rewrite <-Hb in Hi.
  destruct (prepared_nodes (m_links m) (m_members m) (domain_value input) (pattern_value input) (domain_value_patterns input) router (selected_input input)
    _ _ _ _ _ _ _ _ _ _ _ _ _ Hp Href Hs Hn) as (nodes' & Hn' & Hrun).
  rewrite (same_run_policy _ _ _ _ _ _ _ Hrun).
  by eapply (live_decides ebpf_error sha256 ahocorasick_NewMatcher ahocorasick_Contains ahocorasick_IsValidChar regexp_Compile regexp_MatchString unicode_ToLower outbounds).
Qed.
End Deployed.
End Source.

(** ** Deciding the side condition *)

Definition param_bareb (q : Param) : bool := match p_AndFunctions q with None => true | _ => false end && is_empty (p_Annotation q).
Definition settled_functionb (f : Function) : bool :=
  forallb (fun q => param_bareb q && (if String.eqb (f_Name f) Function_Domain then is_domain_key (p_Key q) else String.eqb (p_Key q) "")) (f_Params f).
Definition settled_statementb (st : RoutingStatement) : bool :=
  forallb settled_functionb (st_Condition st) &&
  match st_Rule st with Some r => forallb settled_functionb (r_AndFunctions r) && forallb param_bareb (f_Params (r_Outbound r)) | None => true end.
Definition settled_routingb (routing : Routing) : bool :=
  forallb (fun set => forallb settled_statementb (rs_Statements set)) (RuleSets routing) &&
  forallb (fun policy => forallb settled_statementb (po_Rules policy) && forallb settled_statementb (po_Statements policy)) (Policies routing).

Lemma param_bareb_ok q : param_bareb q = true -> param_bare q.
Proof. unfold param_bareb. intros [H1 H2]%andb_prop. split; [by destruct (p_AndFunctions q)|by destruct (p_Annotation q)]. Qed.

Lemma settled_functionb_ok f : settled_functionb f = true -> settled_function f.
Proof.
  apply Forall_forallb. intros q [H1 H2]%andb_prop. split; [by apply param_bareb_ok|]. destruct (String.eqb (f_Name f) Function_Domain); [done|by apply String.eqb_eq].
Qed.

Lemma settled_statementb_ok st : settled_statementb st = true -> settled_statement st.
Proof.
  unfold settled_statementb. intros [H1 H2]%andb_prop. split; [by eapply Forall_forallb, H1; apply settled_functionb_ok|]. intros r E. rewrite E in H2.
  apply andb_prop in H2 as [H2 H3]. split; [by eapply Forall_forallb, H2; apply settled_functionb_ok|by eapply Forall_forallb, H3; apply param_bareb_ok].
Qed.

Lemma settled_routingb_ok routing : settled_routingb routing = true -> settled_routing routing.
Proof.
  unfold settled_routingb. intros [H1 H2]%andb_prop. split; [eapply Forall_forallb, H1|eapply Forall_forallb, H2].
  - intros set H. by eapply Forall_forallb, H; apply settled_statementb_ok.
  - intros policy [H3 H4]%andb_prop. split; eapply Forall_forallb; eauto using settled_statementb_ok.
Qed.

(** ** An example *)

(** [ip(geoip: lan) -> direct], [ip(192.168.0.0/16) -> direct],
    [domain(geosite: example@cdn) && port(443) -> proxy] and [fallback: direct]. *)
Definition web_source : Routing :=
  mkRouting "main" []
    [mkPolicy "main" []
       [demo_statement (demo_rule [demo_fn "ip" false [simpleParam "geoip" "lan"]] "direct");
        demo_statement (demo_rule [demo_fn "ip" false [simpleParam "" "192.168.0.0/16"; simpleParam "" "192.168.0.0/16"]] "direct");
        demo_statement (demo_rule [demo_fn "port" false [simpleParam "" "443"]; demo_fn "domain" false [simpleParam "geosite" "example@cdn"]] "proxy")]
       (Some (demo_fn "direct" false []))]
    [].
Definition web_geosite (_ code : string) : res (list geo_Domain) :=
  if String.eqb code "example" then Ok [mkDomain Domain_RootDomain "example.com" ["cdn"%string]; mkDomain Domain_Full "example.org" []] else Err "not found".
Definition web_geoip (_ code : string) : res (list string) := if String.eqb code "lan" then Ok ["10.0.0.0/8"%string] else Err "not found".
Definition web_mmdb (_ _ _ : string) : res (list string) := Err "not found".
Definition web_prepare (source : Routing) : res Routing := prepareRoutingConfig web_geosite web_geoip web_mmdb String.eqb id None source.
Definition web_resolve (source : Routing) : res Routing := resolveRoutingConfig web_geosite web_geoip web_mmdb String.eqb id None source.
Definition no_routing : Routing := mkRouting "" [] [] [].
Definition web_routing : Routing := ok_or no_routing (web_prepare web_source).
Definition web_reference : Routing := ok_or no_routing (web_resolve web_source).
Definition rules_of (routing : Routing) : preparedRules := mkPrepared routing None [] [] [] [] None.
Definition web_compile (routing : Routing) : res Builder := compileRouting demo_hash Slimtrie.naive_valid Slimtrie.no_regexp (rules_of routing) demo_outbounds.
Definition web_builder : Builder := ok_or (newRoutingMatcherBuilder ∅) (web_compile web_routing).
Definition web_matcher : liveMatcher := ok_or empty_live (buildUserspace Slimtrie.naive_NewMatcher Slimtrie.no_regexp None web_builder).
Definition web_uploaded : liveMatcher * BPFState := ok_or (empty_live, empty_maps) (BuildKernspace no_errors home_links web_matcher empty_maps).
Definition web_moment : moment := mkMoment (linked home_links) (fun _ => []) web_uploaded.1 web_uploaded.2.
Definition web_router : RoutingMatcher := evaluated Slimtrie.naive_Contains no_match id (m_matcher web_moment) None None.

Lemma web_prepared_Ok : web_prepare web_source = Ok web_routing.
Proof. by vm_compute. Qed.
Lemma web_resolved_Ok : web_resolve web_source = Ok web_reference.
Proof. by vm_compute. Qed.
Lemma web_settled : settled_routing web_reference.
Proof. apply settled_routingb_ok. by vm_compute. Qed.

(** The written policy has a program. *)
Lemma web_nodes : exists nodes,
  policy_nodes demo_outbounds (set_map (RuleSets web_reference)) (rules_of web_reference) (find_policy web_reference "main") nodes.
Proof.
  destruct (compileRouting demo_hash Slimtrie.naive_valid Slimtrie.no_regexp (rules_of web_reference) demo_outbounds) as [b| |] eqn:E; [|exfalso; revert E; by vm_compute..].
  destruct (compileRouting_spec (fun _ => 0%Z) (fun _ => []) (fun _ _ => predicateMiss) demo_hash ltac:(done) demo_outbounds ltac:(by vm_compute) Slimtrie.naive_valid Slimtrie.no_regexp (rules_of web_reference) b)
    as (w & _ & Hall & _); [apply prepared_okb_ok; by vm_compute|exact E|].
  assert (Hb : profile_bindings (pr_routing (rules_of web_reference)) !! 0 = Some ("main"%string, [])) by (by vm_compute).
  destruct (Forall2_lookup_l _ _ _ _ _ Hall Hb) as (profile & _ & _ & _ & nodes & Hn & _). by exists nodes.
Qed.

Lemma prepare_preserves_decisions_witness : exists nodes nodes',
  policy_nodes demo_outbounds (set_map (RuleSets web_reference)) (rules_of web_reference) (find_policy web_reference "main") nodes /\
  policy_nodes demo_outbounds (set_map (RuleSets web_routing)) (rules_of web_reference) (find_policy web_routing "main") nodes' /\
  run_policy (fun _ => 0%Z) (fun _ => []) (fun _ _ => predicateMiss) demo_live phone_input nodes' =
  run_policy (fun _ => 0%Z) (fun _ => []) (fun _ _ => predicateMiss) demo_live phone_input nodes.
Proof.
  destruct web_nodes as [nodes Hn]. exists nodes.
  destruct (prepare_preserves_decisions web_geosite web_geoip web_mmdb String.eqb id None web_source web_routing demo_outbounds (rules_of web_reference) "main"
    (fun _ => 0%Z) (fun _ => []) (fun _ _ => predicateMiss) (fun _ _ => false) demo_live phone_input web_prepared_Ok) as (reference & Href & H).
  { intros key vs. by induction vs. }
  pose proof web_resolved_Ok as Hw. unfold web_resolve in Hw. rewrite Hw in Href. injection Href as <-. destruct (H web_settled nodes Hn) as (nodes' & Hn' & Hr & _). by exists nodes'.
Defined.

Lemma web_deployed : deployed no_errors demo_hash Slimtrie.naive_NewMatcher Slimtrie.naive_valid Slimtrie.no_regexp demo_outbounds (rules_of web_routing) web_builder web_matcher web_moment.
Proof.
  split.
  - by vm_compute.
  - apply prepared_okb_ok. by vm_compute.
  - by vm_compute.
  - apply (Forall_forallb (fun ps => (Z.of_nat (2 * total_length (map bin_key ps) + 65) <? 2 ^ 31)%Z)); [intros ps; apply Z.ltb_lt|by vm_compute].
  - exists None. split; [done|by vm_compute].
  - exists home_links, empty_maps. split; [|split; [|done]].
    + intros n v. unfold home_links. destruct (String.eqb n "eth0"); [|done]. by intros [= <-].
    + cbn [m_matcher m_maps web_moment]. rewrite <-surjective_pairing. by apply ok_or_ok; vm_compute.
Qed.

Lemma web_domains : domains_ok Slimtrie.naive_valid Slimtrie.no_regexp web_builder.
Proof.
  assert (Hs : map domain_set_of (simulatedDomainSet (tables web_builder)) = map domain_set_of (simulatedDomainSet (tables home_builder))) by (by vm_compute).
  unfold domains_ok. rewrite Hs. apply home_domains.
Qed.

Lemma source_decision_witness : exists nodes,
  policy_nodes demo_outbounds (set_map (RuleSets web_reference)) (rules_of web_routing) (find_policy web_reference "main") nodes /\
  match_ web_router phone_input =
    (r ← run_policy (m_links web_moment) (m_members web_moment) (domain_value Slimtrie.no_regexp no_match id phone_input) web_router (selected_input phone_input) nodes;
     Ok (outbound r, mark r, must_result r)) /\
  match_ web_router phone_input = Ok (2, 0, false)%Z.
Proof.
  destruct web_nodes as [nodes Hn]. exists nodes.
  assert (Hb : profile_bindings web_reference !! 0 = Some ("main"%string, [])) by (by vm_compute). split; [exact Hn|]. split; [|by vm_compute].
  exact (source_decision web_geosite web_geoip web_mmdb String.eqb id None no_errors demo_hash Slimtrie.naive_NewMatcher Slimtrie.naive_Contains Slimtrie.naive_valid Slimtrie.no_regexp no_match id
    demo_outbounds Slimtrie.naive_builds Slimtrie.naive_finds (fun s H => H) web_source web_reference (rules_of web_routing) web_builder web_matcher web_moment web_moment 0 "main" [] nodes
    phone_input None None web_prepared_Ok web_resolved_Ok web_settled web_deployed (rtc_refl _ _) web_domains Hb Hn eq_refl phone_decidable).
Defined.
