(* ===== verification/Route.v ===== *)
(** * Routing of a connection (control/route.go, route_plan.go, route_dial.go,
      routing_input.go, destination_matcher.go)

    What happens to a connection the kernel redirects: selecting a rewritten destination,
    verifying the sniffed name against the DNS evidence, planning whether the kernel
    decision is kept or the policy is evaluated again, and selecting a dialer. *)

From S2P Require Import Prelude Netip GoStrings NetipParse NetipString GoSlices RoutingInstr RoutingCursor RoutingEval DomainProjection DomainRegistry.

(** ** The plan (route_plan.go) *)

Inductive routeAction := routeKeep | routeMatch | routeTarget | routeUntrusted | routeUnknown.

Inductive RerouteMode := RerouteMode_None | RerouteMode_WhileNeed | RerouteMode_Force.
Inductive SniffVerifyMode := SniffVerifyMode_None | SniffVerifyMode_Loose | SniffVerifyMode_Strict.

#[export] Instance RerouteMode_eq_dec : EqDecision RerouteMode.
Proof. solve_decision. Defined.
#[export] Instance routeAction_eq_dec : EqDecision routeAction.
Proof. solve_decision. Defined.

Record routeFacts := mkFacts {
  f_outbound : Z;
  f_capture : Z;
  f_destination : bool;
  f_mode : RerouteMode;
  f_verified : predicateResult;
  f_shouldReroute : predicateResult;
  f_dialOverride : bool;
}.

Record routePlan := mkRoutePlan { rp_action : routeAction; rp_target : bool; rp_preserve : bool; rp_override : bool }.

Definition routingTruth (value : bool) : predicateResult := if value then predicateMatch else predicateMiss.

Definition planRoute (f : routeFacts) : routePlan :=
  let target := f_destination f || has_flag (f_capture f) (Z.lor captureDestination captureHTTPRequest) in
  let valid := (f_outbound f <? OutboundMustRules)%Z in
  if negb target && negb (f_capture f =? 0)%Z && valid && ((f_outbound f =? OutboundDirect)%Z || (f_outbound f =? OutboundBlock)%Z)
  then mkRoutePlan routeKeep target true false
  else
    let reroute :=
      if target || negb valid || bool_decide (f_mode f = RerouteMode_Force) then predicateMatch
      else if bool_decide (f_mode f = RerouteMode_WhileNeed) then f_shouldReroute f
      else predicateMiss in
    if bool_decide (reroute = predicateUnknown) ||
       bool_decide (f_verified f = predicateUnknown) && (bool_decide (reroute = predicateMatch) || f_dialOverride f)
    then mkRoutePlan routeUnknown target false false
    else
      let override := f_dialOverride f && bool_decide (f_verified f = predicateMatch) in
      let action :=
        if bool_decide (reroute = predicateMatch) then
          if target then routeTarget
          else if negb (f_capture f =? 0)%Z && negb (bool_decide (f_verified f = predicateMatch)) then routeUntrusted
          else routeMatch
        else routeKeep in
      mkRoutePlan action target false override.

(** ** Routing inputs (routing_input.go) *)

(** [routingResult]: the decision of the kernel and the identity of the flow. *)
Record routingResult := mkResult {
  rr_Outbound : Z;
  rr_Mark : Z;
  rr_Must : Z;
  rr_CaptureFlags : Z;
  rr_NoSniff : Z;
  rr_Ifindex : Z;
  rr_ProfileId : Z;
  rr_Physinif : Z;
  rr_Dscp : Z;
  rr_Mac : bytes;
  rr_Pname : bytes;
}.

Record NetworkType := mkNetwork { L4Proto : string; IpVersion : string }.

Definition L4ProtoStr_TCP : string := "tcp".
Definition L4ProtoStr_UDP : string := "udp".
Definition ToL4ProtoType (l : string) : res Z :=
  if String.eqb l L4ProtoStr_TCP then Ok L4ProtoType_TCP else if String.eqb l L4ProtoStr_UDP then Ok L4ProtoType_UDP else Panic.

Definition IpVersionStrFromAddr (a : Addr) : string :=
  if Is4 a || Is4In6 a then "4" else if Is6 a then "6" else "".

Definition result_input (r : routingResult) (src dst : AddrPort) (domain : bytes) (protocol : Z) : routingInput :=
  mkInput src dst protocol domain (rr_Pname r) (rr_Ifindex r) (rr_ProfileId r) (rr_Physinif r) (rr_Dscp r) (rr_Mac r) None None false routeFromIngress.

(** ** Parameters (route.go) *)

(** [destinationSeed] is the hash the seed defines on a destination, a profile and the
    index of a rule. *)
Record RouteParam := mkRouteParam {
  destinationSeed : option (AddrPort * Z * nat -> Z);
  outboundOverride : option Z;
  explicitTarget : bool;
  destination : AddrPort;
  p_result : routingResult;
  networkType : NetworkType;
  Domain : string;
  Src : AddrPort;
  Dest : AddrPort;
}.

Definition with_destination (p : RouteParam) (d : AddrPort) : RouteParam :=
  mkRouteParam (destinationSeed p) (outboundOverride p) (explicitTarget p) d (p_result p) (networkType p) (Domain p) (Src p) (Dest p).
Definition with_result (p : RouteParam) (r : routingResult) : RouteParam :=
  mkRouteParam (destinationSeed p) (outboundOverride p) (explicitTarget p) (destination p) r (networkType p) (Domain p) (Src p) (Dest p).

Definition param_input (p : RouteParam) (domain : bytes) (dst : AddrPort) : res routingInput :=
  proto ← ToL4ProtoType (L4Proto (networkType p)); Ok (result_input (p_result p) (Src p) dst domain proto).

Definition effectiveDestination (p : RouteParam) : AddrPort := if AddrPort_IsValid (destination p) then destination p else Dest p.

Definition dialTarget (p : RouteParam) (override : bool) : bytes :=
  if AddrPort_IsValid (destination p) then AddrPort_String (destination p)
  else if negb override then AddrPort_String (Dest p)
  else match SplitHostPort (str (Domain p)) with
       | Some _ => str (Domain p)
       | None => JoinHostPort (Trim (str (Domain p)) (str "[]")) (Itoa (ap_port (Dest p)))
       end.

(** [routeDecision]. *)
Record routeDecision := mkDecision { de_outbound : Z; de_mark : Z; de_must : bool }.

Definition apply_decision (d : routeDecision) (r : routingResult) : routingResult :=
  mkResult (wrap 8 (de_outbound d)) (de_mark d) (if de_must d then 1 else 0) (rr_CaptureFlags r) (rr_NoSniff r) (rr_Ifindex r)
    (rr_ProfileId r) (rr_Physinif r) (rr_Dscp r) (rr_Mac r) (rr_Pname r).

Definition kernelRoute (r : routingResult) : routeDecision * bool :=
  let d := mkDecision (rr_Outbound r) (rr_Mark r) (negb (rr_Must r =? 0)%Z) in (d, (de_outbound d <? OutboundMustRules)%Z).

(** ** Destination programs (destination_matcher.go) *)

(** The matcher of a control plane with its destination programs. *)
Record router := mkRouter { r_matcher : RoutingMatcher; r_destinations : gmap Z (list destinationPredicate) }.

Definition profile_of (m : router) (id : Z) : Z := if (id =? 0)%Z then defaultProfileID (r_matcher m) else id.

Definition destinationProgram (m : router) (profileID : Z) : list destinationPredicate :=
  default [] (r_destinations m !! profile_of m profileID).

(** [rand.IntN] is a parameter: what it returns for a bound. *)
Section Match.
Context (rand_IntN : nat -> nat).

Definition select_target (p : RouteParam) (profile : Z) (index : nat) (entry : destinationPredicate) : res AddrPort :=
  let n := length (d_targets entry) in
  if n =? 0 then Panic
  else
    let selected := match destinationSeed p with
                    | Some hash => Z.to_nat (hash (Dest p, profile, index) mod Z.of_nat n)
                    | None => rand_IntN n
                    end in
    target ← idx (d_targets entry !! selected);
    Ok (mkAddrPort target (if (d_port entry =? 0)%Z then ap_port (Dest p) else d_port entry)).

Definition no_destination : AddrPort := mkAddrPort AddrInvalid 0.

Fixpoint match_entries (m : router) (p : RouteParam) (input : routingInput) (profile : Z) (index : nat) (entries : list destinationPredicate) : res AddrPort :=
  match entries with
  | [] => Ok no_destination
  | entry :: entries =>
    if d_domain entry && String.eqb (Domain p) "" then match_entries m p input profile (S index) entries
    else
      result ← evaluateSpans (r_matcher m) [d_span entry] input;
      if matched result then select_target p profile index entry else match_entries m p input profile (S index) entries
  end.

Definition matchDestination (m : option router) (p : RouteParam) : res AddrPort :=
  match m with
  | None => Ok no_destination
  | Some m =>
    let profile := profile_of m (rr_ProfileId (p_result p)) in
    match profiles (r_matcher m) !! profile with
    | None => Err "unknown routing profile"
    | Some _ =>
      input ← param_input p (str (Domain p)) (Dest p);
      match_entries m p input profile 0 (destinationProgram m profile)
    end
  end.
End Match.

(** ** Verification of sniffed names *)

(** [netutils.Ip46]. *)
Record Ip46 := mkIp46 { Ip4 : Addr; Ip6 : Addr }.
Definition Ip46_IsValid (i : Ip46) : bool := IsValid (Ip4 i) || IsValid (Ip6 i).

Fixpoint first_that (f : Addr -> bool) (addrs : list Addr) : Addr :=
  match addrs with
  | [] => AddrInvalid
  | a :: addrs => if f a then a else first_that f addrs
  end.

(** [ResolveIp46Context] after the lookup. *)
Definition ip46_of (addrs : list Addr) : Ip46 := mkIp46 (first_that (fun a => Is4 a || Is4In6 a) addrs) (first_that Is6 addrs).

(** The set of names known to exist is a Bloom filter of a third-party package; the
    canonical form of a name is that of the DNS library. *)
Class RealDomains (S : Type) := { TestString : S -> string -> bool; AddString : S -> string -> S }.

(** What an attempt meets: the state of the context at its checks, and the answers of the
    system resolver ([None] is a failure). *)
Record attempt := mkAttempt {
  ctx_start : option string;
  ctx_sniff : option string;
  ctx_resolve : option string;
  LookupNetIP : string -> option (list Addr);
}.

Section Verify.
Context {RealSet : Type} `{!RealDomains RealSet} (canonical_name : string -> string).
Context (at_ : attempt).

Definition verifySniff (mode : SniffVerifyMode) (g : DomainRegistry) (real : RealSet) (dst : AddrPort) (domain : string) : res (bool * bool) * RealSet :=
  match ctx_sniff at_ with
  | Some e => (Err e, real)
  | None =>
    if String.eqb domain "" then (Ok (false, false), real)
    else
      let fqdn := canonical_name domain in
      match Verify fqdn (ap_addr dst) g with
      | Ok v =>
        if Registered v then
          (Ok (match mode with SniffVerifyMode_Strict => Paired v | _ => true end, negb (KernelCovered v)), real)
        else
          match mode with
          | SniffVerifyMode_None => (Ok (true, true), real)
          | SniffVerifyMode_Strict => (Ok (false, true), real)
          | SniffVerifyMode_Loose =>
            if TestString real fqdn then (Ok (true, true), real)
            else
              match LookupNetIP at_ fqdn with
              | None => (match ctx_resolve at_ with Some e => Err e | None => Ok (false, true) end, real)
              | Some addrs => if Ip46_IsValid (ip46_of addrs) then (Ok (true, true), AddString real fqdn) else (Ok (false, true), real)
              end
          end
      | Err e => (Err e, real)
      | Panic => (Panic, real)
      end
  end.
End Verify.

(** ** Dialing (route_dial.go) *)

(** The answer of an outbound group: a dialer for a network, no live dialer, or another
    error. *)
Inductive selection (D : Type) := Selected (network : NetworkType) (dialer : D) | NoAlive (e : string) | Failed (e : string).
Arguments Selected {D}.
Arguments NoAlive {D}.
Arguments Failed {D}.

(** The groups of a control plane at a moment, by index. *)
Class Groups (D : Type) := {
  SelectConnection : Z -> NetworkType -> bool -> selection D;
  Select : Z -> NetworkType -> option (NetworkType * D);
}.

Record DialOption (D : Type) := mkDialOption {
  o_DeviceMAC : bytes;
  o_Mark : Z;
  o_DialTarget : bytes;
  o_Dialer : D;
  o_directMark : option Z;
  o_Outbound : Z;
  o_OriginalOutbound : option Z;
  o_NetworkType : NetworkType;
  o_Direct : bool;
  o_FallbackIpVersion : bool;
}.
Arguments mkDialOption {D}.
Arguments o_DeviceMAC {D}.
Arguments o_Mark {D}.
Arguments o_DialTarget {D}.
Arguments o_Dialer {D}.
Arguments o_directMark {D}.
Arguments o_Outbound {D}.
Arguments o_OriginalOutbound {D}.
Arguments o_NetworkType {D}.
Arguments o_Direct {D}.
Arguments o_FallbackIpVersion {D}.

(** What routing reads of a [ControlPlane]. *)
Record plane := mkPlane {
  routingMatcher : option router;
  domainRegistry : option DomainRegistry;
  sniffVerifyMode : SniffVerifyMode;
  rerouteMode : RerouteMode;
  dialTargetOverride : bool;
  outbound_count : nat;
  noConnectivityOutbound : Z;
  soMarkFromDae : Z;
}.

Section Dial.
Context {D : Type} `{!Groups D} (useDNSAddress : string -> bool -> bool).
Context (c : plane).

(** The mark of a direct dialer of its own; [None] selects the dialer of the group. *)
Definition directDialerForMark (outboundIndex mark : Z) : option Z :=
  if negb (outboundIndex =? OutboundDirect)%Z || (mark =? 0)%Z || (mark =? soMarkFromDae c)%Z then None else Some mark.

Definition selectDialOption (p : RouteParam) (outboundIndex mark : Z) (override : bool) : res (DialOption D) :=
  if (Z.of_nat (outbound_count c) <=? outboundIndex)%Z then
    Err (if (Z.of_nat (outbound_count c) =? OutboundUserDefinedMin)%Z then "traffic was dropped due to no-load configuration" else "outbound id from bpf is out of range")
  else
    let override := override && negb (String.eqb (L4Proto (networkType p)) L4ProtoStr_UDP) in
    let override := if useDNSAddress (Domain p) (negb (outboundIndex =? OutboundDirect)%Z) then false else override in
    let target := dialTarget p override in
    let ip := fst <$> ParseAddrPort target in
    let network := match ip with Some t => mkNetwork (L4Proto (networkType p)) (IpVersionStrFromAddr (ap_addr t)) | None => networkType p end in
    let option_of index original network' dialer :=
      mkDialOption (rr_Mac (p_result p)) mark target dialer (directDialerForMark index mark) index original network'
        (index =? OutboundDirect)%Z (negb (String.eqb (IpVersion network') (IpVersion network))) in
    match SelectConnection outboundIndex network (bool_decide (is_Some ip)) with
    | Selected network' dialer => Ok (option_of outboundIndex None network' dialer)
    | NoAlive e =>
      match outboundOverride p with
      | Some _ => Err e
      | None =>
        if (Z.of_nat (outbound_count c) <=? noConnectivityOutbound c)%Z then Panic
        else match Select (noConnectivityOutbound c) network with
             | Some (network', dialer) => Ok (option_of (noConnectivityOutbound c) (Some outboundIndex) network' dialer)
             | None => Err "select fallback outbound"
             end
      end
    | Failed e => Err e
    end.

(** *** The decision (route.go) *)

Definition Route (src dst : AddrPort) (domain : bytes) (l4proto : Z) (r : routingResult) : res (Z * Z * bool) :=
  m ← idx (routingMatcher c); match_ (r_matcher m) (result_input r src dst domain l4proto).

(** Handlers return the parameter they changed and their result. *)
Definition routeDestination (p : RouteParam) (domain : bytes) : RouteParam * res (DialOption D) :=
  match param_input p domain (effectiveDestination p) with
  | Ok input =>
    let bitmaps := if bool_decide (domain = []) && negb (explicitTarget p) then g ← domainRegistry c; kernelRoutingBitmaps (ap_addr (dst input)) g else None in
    let input := targetInput input domain (explicitTarget p) (b_bump <$> bitmaps) (b_routing <$> bitmaps) in
    match m ← idx (routingMatcher c); match_ (r_matcher m) input with
    | Ok (outbound, mark, must) =>
      if (OutboundMustRules <=? outbound)%Z then (p, Err "cannot resolve routing without a trusted hostname")
      else
        let outbound := default outbound (outboundOverride p) in
        let p := with_result p (apply_decision (mkDecision outbound mark must) (p_result p)) in
        (p, selectDialOption p outbound mark (dialTargetOverride c && negb (bool_decide (domain = []))))
    | Err e => (p, Err e)
    | Panic => (p, Panic)
    end
  | Err e => (p, Err e)
  | Panic => (p, Panic)
  end.

Section Attempt.
Context {RealSet : Type} `{!RealDomains RealSet} (canonical_name : string -> string) (rand_IntN : nat -> nat).
Context (at_ : attempt).

(** [RouteDialOption] once the name is verified. *)
Definition route_verified (p : RouteParam) (facts : bool -> bool -> routeFacts) (decision : routeDecision) (verified shouldReroute : bool) : RouteParam * res (DialOption D) :=
  let domain := if verified then str (Domain p) else [] in
  let plan := planRoute (facts verified shouldReroute) in
  let finish d := let p := with_result p (apply_decision d (p_result p)) in (p, selectDialOption p (de_outbound d) (de_mark d) (rp_override plan)) in
  match rp_action plan with
  | routeTarget => routeDestination p domain
  | routeUntrusted => (p, Err "cannot preserve ambiguous DNS routing without a trusted hostname")
  | routeMatch =>
    match proto ← ToL4ProtoType (L4Proto (networkType p)); Route (Src p) (Dest p) domain proto (p_result p) with
    | Ok (outbound, mark, must) => finish (mkDecision outbound mark must)
    | Err e => (p, Err e)
    | Panic => (p, Panic)
    end
  | routeKeep | routeUnknown => finish decision
  end.

Definition RouteDialOption (p : RouteParam) (real : RealSet) : RouteParam * RealSet * res (DialOption D) :=
  match ctx_start at_ with
  | Some e => (p, real, Err e)
  | None =>
    match (if AddrPort_IsValid (destination p) then Ok (destination p) else matchDestination rand_IntN (routingMatcher c) p) with
    | Ok d =>
      let p := with_destination p d in
      let '(decision, _) := kernelRoute (p_result p) in
      let facts v r := mkFacts (de_outbound decision) (rr_CaptureFlags (p_result p)) (AddrPort_IsValid d) (rerouteMode c) v r (dialTargetOverride c) in
      if rp_preserve (planRoute (facts predicateUnknown predicateUnknown)) then
        let p := with_result p (apply_decision decision (p_result p)) in (p, real, selectDialOption p (de_outbound decision) (de_mark decision) false)
      else
        let '(answer, real) := if (rr_NoSniff (p_result p) =? 0)%Z then
                                 match domainRegistry c with
                                 | Some g => verifySniff canonical_name at_ (sniffVerifyMode c) g real (Dest p) (Domain p)
                                 | None => (match ctx_sniff at_ with Some e => Err e | None => if String.eqb (Domain p) "" then Ok (false, false) else Panic end, real)
                                 end
                               else (Ok (false, false), real) in
        match answer with
        | Ok (verified, shouldReroute) =>
          let '(p, r) := route_verified p (fun v s => facts (routingTruth v) (routingTruth s)) decision verified shouldReroute in (p, real, r)
        | Err e => (p, real, Err e)
        | Panic => (p, real, Panic)
        end
    | Err e => (with_destination p no_destination, real, Err e)
    | Panic => (p, real, Panic)
    end
  end.
End Attempt.

(** A request for an explicit target, which may be a literal address without a name. *)
Definition selectAddress (rand_IntN : nat -> nat) (network : string) (source : AddrPort) (identity : routingResult) (domain : string) (address : AddrPort) (override : option Z)
    : res (DialOption D) :=
  let source := if AddrPort_IsValid source then source
                else mkAddrPort (if Is4 (ap_addr address) then AddrV4 (replicate 4 0%Z) else AddrV6 (replicate 16 0%Z)) 0 in
  let proto := if String.eqb network "udp" then L4ProtoStr_UDP else L4ProtoStr_TCP in
  let param := mkRouteParam None override true no_destination identity (mkNetwork proto (IpVersionStrFromAddr (ap_addr address))) domain source address in
  d ← matchDestination rand_IntN (routingMatcher c) param;
  (routeDestination (with_destination param d) (str domain)).2.
End Dial.
