(* ===== verification/DomainRouting.v ===== *)
(** * Kernel decisions for covered names

    The composition of the router with the DNS evidence registry. The bitmaps the kernel
    reads are those the registry has published. Where the registry calls a name covered
    for the destination, the decision of the kernel is the one the policy makes for that
    name. *)

From S2P Require Import Prelude Netip GoStrings GoSlices Trie TrieCorrect DomainMatcher ConfigSyntax RoutingInstr RoutingCursor RoutingEval RoutingKernel RoutingEquiv RoutingSem RoutingRules RoutingBuilder RoutingConfig RoutingCompile RoutingDenote RoutingNodes RoutingPool RoutingResolve RoutingCompileCorrect RoutingCompiled RoutingState RoutingStateCorrect RoutingLive RoutingKernelLive RoutingKnowledge DomainProjection DomainProjectionCorrect DomainRegistry DomainRegistryCorrect DomainRegistryObserve DomainRegistrySync DomainRegistryRun DomainRegistryFork DomainRegistryClaims.

(** The map the kernel looks addresses up in. *)
Definition published_map (m : domain_map) (key : bytes) : option domain_routing :=
  (fun e => mkDomainRouting (b_bump e) (b_routing e)) <$> m !! key.

Lemma As16_Unmap a : As16 (Unmap a) = As16 a.
Proof.
  destruct a as [| |b]; [done..|]. cbn [Unmap]. destruct (Is4In6 (AddrV6 b)) eqn:E; [|done]. apply bool_decide_eq_true in E. cbn [As16]. by rewrite <-E, take_drop.
Qed.

(** The names with evidence for an address. *)
Lemma names_of (g : DomainRegistry) (ip : Addr) : exists names : list string, forall n, n ∈ names <-> is_Some (deadline_of g n ip).
Proof.
  exists (filter (fun n => is_Some (deadline_of g n ip)) (elements (dom (byName g)))). intros n. rewrite list_elem_of_filter, elem_of_elements, elem_of_dom.
  split; [by intros []|]. intros H. split; [done|]. destruct H as [t Ht]. unfold deadline_of, pair_of in Ht. by destruct (byName g !! n).
Qed.

Section Values.
Context {Regexp : Type} (regexp_Compile : bytes -> option Regexp) (regexp_MatchString : Regexp -> bytes -> bool) (unicode_ToLower : bytes -> bytes).
Local Abbreviation set_matches := (set_matches regexp_Compile regexp_MatchString unicode_ToLower).
Local Abbreviation domain_value := (domain_value regexp_Compile regexp_MatchString unicode_ToLower).

Context (sets : list DomainSet) (sets_size : length sets <= MaxMatchSetLen).
Context (bits : string -> list Z) (g : DomainRegistry) (m : domain_map) (ip : Addr).
(** The bitmaps of the names with evidence are those of the domain matcher. *)
Context (bits_match : forall n t, deadline_of g n ip = Some t -> forall id key values, sets !! id = Some (mkDomainSet key id values) ->
  has_bit (bits n) id = set_matches (str n) key values).

(** What all names of an address say of a set. *)
Definition names_value (names : list string) (key : string) (values : list string) : predicateResult :=
  if forallb (fun n => set_matches (str n) key values) names then predicateMatch
  else if existsb (fun n => set_matches (str n) key values) names then predicateUnknown else predicateMiss.

Lemma names_value_set names key vs vs' : (forall v, v ∈ vs <-> v ∈ vs') -> names_value names key vs = names_value names key vs'.
Proof.
  intros H. unfold names_value. assert (E : forall n, set_matches (str n) key vs = set_matches (str n) key vs') by (intros n; by apply set_matches_set).
  assert (Ea : forallb (fun n => set_matches (str n) key vs) names = forallb (fun n => set_matches (str n) key vs') names)
    by (induction names as [|n names IH]; [done|]; cbn [forallb]; rewrite E; f_equal; exact IH).
  assert (Eb : existsb (fun n => set_matches (str n) key vs) names = existsb (fun n => set_matches (str n) key vs') names)
    by (clear Ea; induction names as [|n names IH]; [done|]; cbn [existsb]; rewrite E; f_equal; exact IH).
  by rewrite Ea, Eb.
Qed.

Lemma names_value_informs names n d key vs : n ∈ names -> normal_domain unicode_ToLower (str n) = normal_domain unicode_ToLower d ->
  informs (names_value names key vs) (pbool (set_matches d key vs)).
Proof.
  intros Hn Hd. assert (E : set_matches d key vs = set_matches (str n) key vs) by (unfold RoutingLive.set_matches; by rewrite Hd). rewrite E. unfold names_value.
  apply list_elem_of_In in Hn. destruct (forallb _ names) eqn:Ea.
  - rewrite forallb_forall in Ea. rewrite (Ea n Hn). by split; [|right].
  - destruct (existsb _ names) eqn:Eb; [split; [apply informs_pbool|by left]|].
    destruct (set_matches (str n) key vs) eqn:Es; [|by split; [|right]]. assert (existsb (fun n => set_matches (str n) key vs) names = true) by (apply existsb_exists; by exists n). congruence.
Qed.

(** A reading of the published bitmaps the name agrees with. *)
Lemma covered_values n (k u : routingInput) : is_Some (deadline_of g n ip) ->
  match m !! As16 ip with
  | Some e => (forall i, i < MaxMatchSetLen ->
      (has_bit (b_bump e) i = true <-> exists n t, deadline_of g n ip = Some t /\ has_bit (bits n) i = true) /\
      (has_bit (b_routing e) i = true <-> forall n t, deadline_of g n ip = Some t -> has_bit (bits n) i = true)) /\
    domainBitmap k = Some (b_routing e) /\ domainBumpBitmap k = Some (b_bump e)
  | None => (forall i, i < MaxMatchSetLen -> has_bit (bits n) i = false) /\ domainBitmap k = None /\ domainBumpBitmap k = None
  end ->
  domain u <> [] -> normal_domain unicode_ToLower (str n) = normal_domain unicode_ToLower (domain u) ->
  exists dk, (forall key vs vs', (forall v, v ∈ vs <-> v ∈ vs') -> dk key vs = dk key vs') /\
    (forall id key values, sets !! id = Some (mkDomainSet key id values) -> published k id = dk key values) /\
    (forall key vs, informs (dk key vs) (domain_value u key vs)).
Proof.
  intros [t Ht] Hm Hne Hd. assert (Hu : forall key vs, domain_value u key vs = pbool (set_matches (domain u) key vs)).
  { intros key vs. unfold RoutingLive.domain_value. by rewrite bool_decide_eq_false_2. }
  assert (Hid : forall id key values, sets !! id = Some (mkDomainSet key id values) -> id < MaxMatchSetLen) by (intros id key values Hid; apply lookup_lt_Some in Hid; lia).
  destruct (m !! As16 ip) as [e|].
  - destruct Hm as (Hbits & Hr & Hb). destruct (names_of g ip) as [names Hnames]. exists (names_value names). split; [apply names_value_set|]. split.
    + intros id key values Hset. destruct (Hbits id (Hid _ _ _ Hset)) as [HB HR]. unfold published, names_value, has_bit in *. rewrite Hr, Hb.
      assert (Ea : bitmap_has (Some (b_routing e)) (Z.of_nat id) = forallb (fun n => set_matches (str n) key values) names).
      { apply eq_true_iff_eq. rewrite HR, forallb_forall. setoid_rewrite <-list_elem_of_In. setoid_rewrite Hnames. split.
        - intros H n' [t' Ht']. rewrite <-(bits_match n' t' Ht' id key values Hset). by eapply H.
        - intros H n' t' Ht'. unfold has_bit in bits_match. rewrite (bits_match n' t' Ht' id key values Hset). apply H. by exists t'. }
      assert (Eb : bitmap_has (Some (b_bump e)) (Z.of_nat id) = existsb (fun n => set_matches (str n) key values) names).
      { apply eq_true_iff_eq. rewrite HB, existsb_exists. setoid_rewrite <-list_elem_of_In. setoid_rewrite Hnames. split.
        - intros (n' & t' & Ht' & H). exists n'. split; [by exists t'|]. by rewrite <-(bits_match n' t' Ht' id key values Hset).
        - intros (n' & [t' Ht'] & H). exists n', t'. split; [done|]. unfold has_bit in bits_match. by rewrite (bits_match n' t' Ht' id key values Hset). }
      by rewrite Ea, Eb.
    + intros key vs. rewrite Hu. apply (names_value_informs names n); [apply Hnames; by exists t|done].
  - destruct Hm as (Hz & Hr & Hb). exists (domain_value u). split; [apply domain_value_set|]. split.
    + intros id key values Hset. rewrite Hu. unfold published. rewrite Hr, Hb. cbn.
      assert (E : set_matches (domain u) key values = set_matches (str n) key values) by (unfold RoutingLive.set_matches; by rewrite Hd).
      rewrite E, <-(bits_match n t Ht id key values Hset), Hz; [done|]. by eapply Hid.
    + intros key vs. rewrite Hu. apply informs_pbool.
Qed.
End Values.

(** ** Decisions *)

Section Decisions.
Context (ebpf_error : BPFState -> ebpf_call -> option string) (sha256 : bytes -> bytes).
Context {AcMatcher Regexp : Type}.
Context (ahocorasick_NewMatcher : list bytes -> res AcMatcher) (ahocorasick_Contains : AcMatcher -> bytes -> bool).
Context (ahocorasick_IsValidChar : Z -> bool) (regexp_Compile : bytes -> option Regexp).
Context (regexp_MatchString : Regexp -> bytes -> bool) (unicode_ToLower : bytes -> bytes).
(** Assumed of the keyword automaton and of Unicode folding, as for the domain matcher. *)
Context (ac_builds : forall ps, forallb (forallb ahocorasick_IsValidChar) ps = true -> exists m, ahocorasick_NewMatcher ps = Ok m).
Context (ac_finds : forall ps m text, ahocorasick_NewMatcher ps = Ok m -> Forall (fun p => p <> []) ps ->
  forallb ahocorasick_IsValidChar text = true -> ahocorasick_Contains m text = existsb (fun p => substring p text) ps).
Context (lower_bytes : forall s, Forall is_byte s -> Forall is_byte (unicode_ToLower s)).
Context (outbounds : gmap string Z) (outbounds_fit : forall name id, outbounds !! name = Some id -> fits 8 id).
Context (lpm_trie_lookup : list bpfLpmKey -> bytes -> bool).
Context (lpm_trie_found : forall keys data, length data = 16 -> Forall is_byte data -> lpm_trie_lookup keys data = existsb (key_covers data) keys).
Context (alive : Z -> Z -> Z -> bool) (admitted : route_params -> bool).
Local Abbreviation moment := (moment (AcMatcher := AcMatcher) (Regexp := Regexp)).
Local Abbreviation evaluated := (evaluated ahocorasick_Contains regexp_MatchString unicode_ToLower).

(** The outbounds userspace considers usable are those the kernel does. *)
Definition live_usable (o l4 ip : Z) : bool :=
  alive o (if has_flag ip IpVersion_4 then 4 else 6)%Z (if has_flag l4 L4ProtoType_TCP then IPPROTO_TCP else IPPROTO_UDP).

(** A name the domain matcher accepts. *)
Definition name_ok (d : bytes) : Prop := Forall is_byte d /\ Slimtrie.domain_ok ahocorasick_IsValidChar (normal_domain unicode_ToLower d).

(** The names with evidence for an address have the bitmaps of the matcher. *)
Definition matched_names (m : moment) (bits : string -> list Z) (g : DomainRegistry) (ip : Addr) : Prop := forall n t, deadline_of g n ip = Some t ->
  name_ok (str n) /\ Slimtrie.MatchDomainBitmap ahocorasick_Contains regexp_MatchString unicode_ToLower (l_domainMatcher (m_matcher m)) (str n) = Some (bits n).

Lemma covered_stands (p : preparedRules) (b : Builder) l0 (m0 m : moment) (i : nat) (name : string) (interfaces : list string) (nodes : list node)
    (params : route_params) (k u : routingInput) allowed
    (bits : string -> list Z) (max : nat) (g : DomainRegistry) (a : domainActivity) (km : domain_map) (n : string) (v : DomainVerification) :
  deployed ebpf_error sha256 ahocorasick_NewMatcher ahocorasick_IsValidChar regexp_Compile outbounds p b l0 m0 ->
  rtc (routing_step ebpf_error) m0 m -> domains_ok ahocorasick_IsValidChar regexp_Compile b ->
  profile_bindings (pr_routing p) !! i = Some (name, interfaces) ->
  policy_nodes outbounds (set_map (RuleSets (pr_routing p))) p (find_policy (pr_routing p) name) nodes ->
  @selected_profile (kernel_maps lpm_trie_lookup (published_map km) alive admitted (m_maps m)) params = (1 + Z.of_nat i)%Z -> kernel_packet (published_map km) params k ->
  profileID (selected_input u) = (1 + Z.of_nat i)%Z -> decidable_input ahocorasick_IsValidChar unicode_ToLower u -> same_packet k u -> simulateKernel u = false ->
  reachable bits max (g, a, km) -> matched_names m bits g (Unmap (ap_addr (dst u))) ->
  Verify n (ap_addr (dst u)) g = Ok v -> KernelCovered v = true -> domain u <> [] -> normal_domain unicode_ToLower (str n) = normal_domain unicode_ToLower (domain u) ->
  let r := @route (kernel_maps lpm_trie_lookup (published_map km) alive admitted (m_maps m)) params in
  (0 <= r)%Z -> forall o mk must cap, decode_route_result r = (o, mk, must, cap) -> o <> OutboundControlPlaneRouting ->
  match_ (evaluated (m_matcher m) allowed (Some live_usable)) u = Ok (o, mk, negb (must =? 0)%Z).
Proof.
  intros Hdep Hr Hdom Hi Hn Hsel Hpacket Hpid Hdec Hsame Hsim Hreach Hnames Hver Hcov Hne Hnd r Hr0 o mk must cap Hroute Ho.
  pose proof (reachable_ok _ _ _ _ _ _ _ _ _ _ _ Hdep Hr) as Hok. destruct (deployed_facts _ _ _ _ _ _ _ _ _ _ Hdep) as [Hbu _].
  destruct (compiled_facts _ _ _ _ _ _ (dp_direct _ _ _ _ _ _ _ _ _ _ Hdep) (dp_prepared _ _ _ _ _ _ _ _ _ _ Hdep) (dp_compile _ _ _ _ _ _ _ _ _ _ Hdep)) as (Ht & _).
  destruct (moment_fields _ _ _ _ _ Hbu (mo_matcher _ _ _ Hok)) as (_ & Hbuild & _).
  pose proof Hdec as [Hwf _ _ Hdst _]. destruct Hwf as (_ & Hdwf & _). set (ip := ap_addr (dst u)) in *.
  apply reachable_inv in Hreach as (Hbok & [G [P _ _] _ _ _] & _). cbn [fst snd] in *.
  destruct (verifyLocked_ok bits g km G P n (Unmap ip)) as (v' & Hv' & _ & _ & Hk); [by apply Unmap_canonical|]. unfold Verify in Hver. rewrite Hver in Hv'. injection Hv' as <-.
  destruct (Hk Hcov) as [Hev Hm].
  assert (Hkey : k_daddr params = As16 (Unmap ip)).
  { destruct Hpacket as [Hf _ _ _ _ _ _]. rewrite (fa_daddr _ _ Hf), (sp_dst _ _ Hsame). fold ip. by rewrite As16_Unmap. }
  destruct (covered_values regexp_Compile regexp_MatchString unicode_ToLower (simulatedDomainSet (tables b)) (ok_size _ Ht) bits g km (Unmap ip)) with (n := n) (k := k) (u := u) as (dk & Hdk & Hpub & Hinf); try done.
  { intros n' t' Ht' id key values Hset. destruct (Hnames n' t' Ht') as [[Hby Hdok] Hbits].
    destruct (built_bits ahocorasick_NewMatcher ahocorasick_Contains ahocorasick_IsValidChar regexp_Compile regexp_MatchString unicode_ToLower ac_builds ac_finds lower_bytes
      b (m_matcher m) (str n') Ht Hdom Hbuild Hby Hdok) as (bm & Hbm & Hbit). rewrite Hbits in Hbm. injection Hbm as <-. by apply Hbit. }
  { destruct Hpacket as [_ _ [_ Hd] _ _ _ _]. rewrite Hkey in Hd. unfold published_map in Hd. destruct (km !! As16 (Unmap ip)) as [e|]; cbn in Hd; [by split|].
    split; [|done]. by apply all_zero_bits. }
  pose proof (kernel_live_decides ebpf_error sha256 ahocorasick_NewMatcher ahocorasick_Contains ahocorasick_IsValidChar regexp_Compile regexp_MatchString unicode_ToLower outbounds outbounds_fit
    lpm_trie_lookup lpm_trie_found (published_map km) alive admitted p b l0 m0 m i name interfaces nodes params k dk Hdep Hr Hi Hn Hsel Hpacket Hdk Hpub) as HK. fold r in HK.
  pose proof (live_decides ebpf_error sha256 ahocorasick_NewMatcher ahocorasick_Contains ahocorasick_IsValidChar regexp_Compile regexp_MatchString unicode_ToLower outbounds ac_builds ac_finds lower_bytes
    p b l0 m0 m i name interfaces nodes u allowed (Some live_usable) Hdep Hr Hdom Hi Hn Hpid Hdec) as HU. cbn zeta in HU.
  destruct (run_policy _ _ dk _ k nodes) as [ek|e|] eqn:Ek; [|unfold EPERM in HK; lia..].
  rewrite Hroute in HK. injection HK as -> -> -> _.
  assert (Hsame' : same_packet k (selected_input u)) by (unfold selected_input; destruct (_ =? _)%Z; [|done]; destruct Hsame; by split).
  assert (Hsim' : simulateKernel (selected_input u) = false) by (unfold selected_input; by destruct (_ =? _)%Z).
  destruct (policy_informs (m_links m) (m_members m) dk (domain_value regexp_Compile regexp_MatchString unicode_ToLower u)
    (kernel_router ahocorasick_Contains regexp_MatchString unicode_ToLower alive admitted m params) (evaluated (m_matcher m) allowed (Some live_usable)) k (selected_input u)
    Hinf Hsame' eq_refl Hsim' _ _ _ _ _ Hn ek Ek Ho) as (eu & Eu & E1 & E2 & E3).
  rewrite HU, Eu. cbn. rewrite E1, E2, E3. by destruct (must_result ek).
Qed.
End Decisions.
