(* ===== verification/RouteCorrect.v ===== *)
(** * Correctness of connection routing

    When a sniffed name is available, rerouting only where it is needed selects the same
    dialer as evaluating the policy again for every connection. *)

From S2P Require Import Prelude Netip GoStrings NetipParse NetipString GoSlices Trie TrieCorrect DomainMatcher ConfigSyntax RoutingInstr RoutingCursor RoutingEval RoutingKernel RoutingEquiv RoutingSem RoutingRules RoutingBuilder RoutingConfig RoutingCompile RoutingDenote RoutingNodes RoutingPool RoutingResolve RoutingCompileCorrect RoutingCompiled RoutingState RoutingStateCorrect RoutingLive RoutingKernelLive RoutingKnowledge DomainProjection DomainProjectionCorrect DomainRegistry DomainRegistryCorrect DomainRegistryObserve DomainRegistrySync DomainRegistryRun DomainRegistryFork DomainRegistryClaims DomainRouting Route.

(** ** Plans *)

(** The shortcut does not depend on the mode, nor on what is known of the name. *)
Definition with_facts (f : routeFacts) (mode : RerouteMode) (v r : predicateResult) : routeFacts :=
  mkFacts (f_outbound f) (f_capture f) (f_destination f) mode v r (f_dialOverride f).

Lemma preserve_modes f mode mode' v r v' r' : rp_preserve (planRoute (with_facts f mode v r)) = rp_preserve (planRoute (with_facts f mode' v' r')).
Proof. unfold planRoute. cbn [f_outbound f_capture f_destination with_facts]. destruct (negb _ && _ && _ && _); [done|]. by repeat case_match. Qed.

(** A decision the plan keeps in the while-needed mode. *)
Lemma while_needed_plan f v r : rp_preserve (planRoute (with_facts f RerouteMode_Force predicateUnknown predicateUnknown)) = false ->
  planRoute (with_facts f RerouteMode_WhileNeed (routingTruth v) (routingTruth r)) = planRoute (with_facts f RerouteMode_Force (routingTruth v) (routingTruth r)) \/
  (r = false /\ (f_outbound f < OutboundMustRules)%Z /\
   rp_action (planRoute (with_facts f RerouteMode_WhileNeed (routingTruth v) (routingTruth r))) = routeKeep /\
   rp_override (planRoute (with_facts f RerouteMode_WhileNeed (routingTruth v) (routingTruth r))) = rp_override (planRoute (with_facts f RerouteMode_Force (routingTruth v) (routingTruth r))) /\
   (v = true -> rp_action (planRoute (with_facts f RerouteMode_Force (routingTruth v) (routingTruth r))) = routeMatch)).
Proof.
  unfold planRoute. cbn [f_outbound f_capture f_destination f_mode f_verified f_shouldReroute f_dialOverride with_facts].
  set (target := f_destination f || _). destruct (negb target && _ && _ && _); [done|]. intros _.
  destruct target; cbn [orb]; [by left|]. destruct (Z.ltb_spec (f_outbound f) OutboundMustRules); cbn [negb orb]; [|by left].
  destruct r; [left; by destruct v|]. right. cbn. by destruct v, (f_dialOverride f), (f_capture f =? 0)%Z.
Qed.

Definition with_mode (c : plane) (mode : RerouteMode) : plane :=
  mkPlane (routingMatcher c) (domainRegistry c) (sniffVerifyMode c) mode (dialTargetOverride c) (outbound_count c) (noConnectivityOutbound c) (soMarkFromDae c).

(** ** Names and modes *)

Section Modes.
Context {D : Type} `{!Groups D} (useDNSAddress : string -> bool -> bool) (c : plane).
Context {RealSet : Type} `{!RealDomains RealSet} (canonical_name : string -> string) (rand_IntN : nat -> nat) (at_ : attempt).

(** The result of a sniffed name: rerouting is not needed only for a covered name, which
    every mode trusts. *)
Lemma verifySniff_covered mode g (real : RealSet) dst domain v : domain <> ""%string ->
  (verifySniff canonical_name at_ mode g real dst domain).1 = Ok (v, false) ->
  exists ver, Verify (canonical_name domain) (ap_addr dst) g = Ok ver /\ KernelCovered ver = true /\ (Paired ver = true -> v = true).
Proof.
  intros Hd. unfold verifySniff. destruct (ctx_sniff at_); [done|]. apply String.eqb_neq in Hd. rewrite Hd.
  destruct (Verify _ _ _) as [ver| |] eqn:Ev; [|done..]. destruct (Registered ver).
  - cbn. intros [= <- Hk]. exists ver. split; [done|]. split; [by destruct (KernelCovered ver)|]. by destruct mode.
  - by repeat (case_match; try done).
Qed.

(** The two modes differ only where a decision of the kernel is kept. *)
Lemma modes_agree p (real : RealSet) g : domainRegistry c = Some g -> rr_NoSniff (p_result p) = 0%Z -> Domain p <> ""%string ->
  (forall ver, (rr_Outbound (p_result p) < OutboundMustRules)%Z -> Verify (canonical_name (Domain p)) (ap_addr (Dest p)) g = Ok ver -> KernelCovered ver = true ->
    Paired ver = true /\ exists proto, ToL4ProtoType (L4Proto (networkType p)) = Ok proto /\
    Route c (Src p) (Dest p) (str (Domain p)) proto (p_result p) = Ok (rr_Outbound (p_result p), rr_Mark (p_result p), negb (rr_Must (p_result p) =? 0)%Z)) ->
  RouteDialOption useDNSAddress (with_mode c RerouteMode_WhileNeed) canonical_name rand_IntN at_ p real =
  RouteDialOption useDNSAddress (with_mode c RerouteMode_Force) canonical_name rand_IntN at_ p real.
Proof.
  intros Hg Hs Hd Hcov. unfold RouteDialOption. destruct (ctx_start at_); [done|]. cbn [routingMatcher with_mode].
  destruct (if AddrPort_IsValid (destination p) then _ else _) as [d| |]; [|done..]. cbn [p_result with_destination domainRegistry with_mode rerouteMode dialTargetOverride sniffVerifyMode Dest Domain].
  cbn [kernelRoute de_outbound de_mark de_must]. rewrite Hg, Hs. change (0 =? 0)%Z with true. cbn iota.
  set (facts := fun mode v r => mkFacts (rr_Outbound (p_result p)) (rr_CaptureFlags (p_result p)) (AddrPort_IsValid d) mode v r (dialTargetOverride c)).
  pose proof (preserve_modes (facts RerouteMode_None predicateMiss predicateMiss) RerouteMode_WhileNeed RerouteMode_Force predicateUnknown predicateUnknown predicateUnknown predicateUnknown) as Hp.
  pose proof (while_needed_plan (facts RerouteMode_None predicateMiss predicateMiss)) as Hplan. unfold with_facts, facts in Hp, Hplan. cbn [f_outbound f_capture f_destination f_dialOverride] in Hp, Hplan.
  rewrite Hp. clear Hp. destruct (rp_preserve _); [reflexivity|]. specialize (fun v r => Hplan v r eq_refl).
  pose proof (verifySniff_covered (sniffVerifyMode c) g real (Dest p) (Domain p)) as Hv.
  destruct (verifySniff _ _ _ _ _ _ _) as [answer real']. cbn [fst] in Hv. destruct answer as [[v r]| |]; [|done..].
  enough (Heq : route_verified useDNSAddress (with_mode c RerouteMode_WhileNeed) (with_destination p d) (fun v s => facts RerouteMode_WhileNeed (routingTruth v) (routingTruth s)) (mkDecision (rr_Outbound (p_result p)) (rr_Mark (p_result p)) (negb (rr_Must (p_result p) =? 0)%Z)) v r =
    route_verified useDNSAddress (with_mode c RerouteMode_Force) (with_destination p d) (fun v s => facts RerouteMode_Force (routingTruth v) (routingTruth s)) (mkDecision (rr_Outbound (p_result p)) (rr_Mark (p_result p)) (negb (rr_Must (p_result p) =? 0)%Z)) v r) by (unfold facts in Heq; by rewrite Heq).
  unfold route_verified, facts. destruct (Hplan v r) as [-> |(-> & Hlt & Hkeep & Hov & Hmatch)]; [done|].
  destruct (Hv v Hd eq_refl) as (ver & Ever & Hc & Hpair). destruct (Hcov ver Hlt Ever Hc) as (Hp1 & proto & Hproto & Hroute). rewrite (Hpair Hp1) in *.
  rewrite Hkeep, (Hmatch eq_refl), Hov. cbn [networkType with_destination Src Dest Domain p_result]. rewrite Hproto. cbn [mbind res_bind].
  change (Route (with_mode c RerouteMode_Force)) with (Route c). rewrite Hroute. done.
Qed.
End Modes.

(** ** Live planes *)

Section Live.
Context (ebpf_error : BPFState -> ebpf_call -> option string) (sha256 : bytes -> bytes).
Context {AcMatcher Regexp : Type}.
Context (ahocorasick_NewMatcher : list bytes -> res AcMatcher) (ahocorasick_Contains : AcMatcher -> bytes -> bool).
Context (ahocorasick_IsValidChar : Z -> bool) (regexp_Compile : bytes -> option Regexp).
Context (regexp_MatchString : Regexp -> bytes -> bool) (unicode_ToLower : bytes -> bytes).
(** Assumed of the keyword automaton and of Unicode folding, as for the domain matcher. *)
Context (ac_builds : forall ps, forallb (forallb ahocorasick_IsValidChar) ps = true -> exists m, ahocorasick_NewMatcher ps = Ok m).
Context (ac_finds : forall ps m text, ahocorasick_NewMatcher ps = Ok m -> Forall (fun p => p <> []) ps ->
  forallb ahocorasick_IsValidChar text = true -> ahocorasick_Contains m text = existsb (fun p => substring p text) ps).
Context (lower_bytes : forall s, Forall is_byte s -> Forall is_byte (unicode_ToLower s)).
Context (outbounds : gmap string Z) (outbounds_fit : forall name id, outbounds !! name = Some id -> fits 8 id).
Context (lpm_trie_lookup : list bpfLpmKey -> bytes -> bool).
Context (lpm_trie_found : forall keys data, length data = 16 -> Forall is_byte data -> lpm_trie_lookup keys data = existsb (key_covers data) keys).
Context (alive : Z -> Z -> Z -> bool) (admitted : route_params -> bool).
Local Abbreviation moment := (moment (AcMatcher := AcMatcher) (Regexp := Regexp)).
Local Abbreviation evaluated := (evaluated ahocorasick_Contains regexp_MatchString unicode_ToLower).
Local Abbreviation maps m km := (kernel_maps lpm_trie_lookup (published_map km) alive admitted (m_maps m)).

(** The kernel has seen the packet [k] and handed its decision over with the connection. *)
Record handed_over (m : moment) (km : domain_map) (params : route_params) (k : routingInput) (p : RouteParam) (proto : Z) : Prop := {
  ho_packet : kernel_packet (published_map km) params k;
  ho_proto : ToL4ProtoType (L4Proto (networkType p)) = Ok proto;
  ho_same : same_packet k (result_input (p_result p) (Src p) (Dest p) (str (Domain p)) proto);
  ho_accepted : (0 <= @route (maps m km) params)%Z;
  ho_result : exists cap, decode_route_result (@route (maps m km) params) = (rr_Outbound (p_result p), rr_Mark (p_result p), rr_Must (p_result p), cap);
}.

(** C5: for a sniffed name, rerouting where it is needed is rerouting always: from the
    decision the kernel made on the published bitmaps both modes end with the same
    dialer, mark and recorded decision, at every reachable moment of the router and in
    every reachable state of the evidence. *)
Theorem while_needed_is_force {D RealSet : Type} (groups : Groups D) (reals : RealDomains RealSet)
    (useDNSAddress : string -> bool -> bool) (canonical_name : string -> string) (rand_IntN : nat -> nat) (at_ : attempt) (c : plane)
    (prepared : preparedRules) (b : Builder) l0 (m0 m : moment) (i : nat) (name : string) (interfaces : list string) (nodes : list node) allowed destinations
    (bits : string -> list Z) (max : nat) (g : DomainRegistry) (a : domainActivity) (km : domain_map)
    (params : route_params) (k : routingInput) (p : RouteParam) (proto : Z) (real : RealSet) :
  deployed ebpf_error sha256 ahocorasick_NewMatcher ahocorasick_IsValidChar regexp_Compile outbounds prepared b l0 m0 ->
  rtc (routing_step ebpf_error) m0 m -> domains_ok ahocorasick_IsValidChar regexp_Compile b ->
  profile_bindings (pr_routing prepared) !! i = Some (name, interfaces) ->
  policy_nodes outbounds (set_map (RuleSets (pr_routing prepared))) prepared (find_policy (pr_routing prepared) name) nodes ->
  @selected_profile (maps m km) params = (1 + Z.of_nat i)%Z -> handed_over m km params k p proto ->
  let u := result_input (p_result p) (Src p) (Dest p) (str (Domain p)) proto in
  profileID (selected_input u) = (1 + Z.of_nat i)%Z -> decidable_input ahocorasick_IsValidChar unicode_ToLower u ->
  reachable bits max (g, a, km) ->
  matched_names ahocorasick_Contains ahocorasick_IsValidChar regexp_MatchString unicode_ToLower m bits g (Unmap (ap_addr (Dest p))) ->
  routingMatcher c = Some (mkRouter (evaluated (m_matcher m) allowed (Some (live_usable alive))) destinations) -> domainRegistry c = Some g ->
  rr_NoSniff (p_result p) = 0%Z -> Domain p <> ""%string ->
  normal_domain unicode_ToLower (str (canonical_name (Domain p))) = normal_domain unicode_ToLower (str (Domain p)) ->
  RouteDialOption useDNSAddress (with_mode c RerouteMode_WhileNeed) canonical_name rand_IntN at_ p real =
  RouteDialOption useDNSAddress (with_mode c RerouteMode_Force) canonical_name rand_IntN at_ p real.
Proof.
  intros Hdep Hr Hdom Hi Hn Hsel [Hpacket Hproto Hsame Hacc [cap Hres]] u Hpid Hdec Hreach Hnames Hm Hg Hs Hd Hcan.
  apply (modes_agree useDNSAddress c canonical_name rand_IntN at_ p real g Hg Hs Hd). intros ver Hlt Hver Hcov. split.
  - pose proof Hdec as [(_ & Hdwf & _) _ _ Hdst _]. apply reachable_inv in Hreach as (_ & [G [P _ _] _ _ _] & _). cbn [fst snd] in *.
    destruct (verifyLocked_ok bits g km G P (canonical_name (Domain p)) (Unmap (ap_addr (Dest p)))) as (v' & Hv' & Hp & _ & Hk); [by apply Unmap_canonical|].
    unfold Verify in Hver. rewrite Hver in Hv'. injection Hv' as <-. by apply Hp, Hk.
  - exists proto. split; [done|]. unfold Route. rewrite Hm. cbn [idx mbind res_bind r_matcher].
    eapply (covered_stands ebpf_error sha256 ahocorasick_NewMatcher ahocorasick_Contains ahocorasick_IsValidChar regexp_Compile regexp_MatchString unicode_ToLower
      ac_builds ac_finds lower_bytes outbounds outbounds_fit lpm_trie_lookup lpm_trie_found alive admitted); try eassumption; try done.
    + intros E. apply Hd. by destruct (Domain p).
    + unfold OutboundMustRules, OutboundControlPlaneRouting in *. lia.
Qed.

(** C27: the router always decides: at every reachable moment, an evaluation without kernel
    bitmaps returns an outbound that the configuration names, never a handover, provided
    the fallback is not skipped for want of a live dialer. *)
Theorem routing_decides (prepared : preparedRules) (b : Builder) l0 (m0 m : moment) (i : nat) (name : string) (interfaces : list string) (nodes : list node)
    (input : routingInput) allowed usable (fallback : Function) (o : Outbound) (id : Z) :
  deployed ebpf_error sha256 ahocorasick_NewMatcher ahocorasick_IsValidChar regexp_Compile outbounds prepared b l0 m0 ->
  rtc (routing_step ebpf_error) m0 m -> domains_ok ahocorasick_IsValidChar regexp_Compile b ->
  profile_bindings (pr_routing prepared) !! i = Some (name, interfaces) ->
  policy_nodes outbounds (set_map (RuleSets (pr_routing prepared))) prepared (find_policy (pr_routing prepared) name) nodes ->
  profileID (selected_input input) = (1 + Z.of_nat i)%Z -> decidable_input ahocorasick_IsValidChar unicode_ToLower input -> kernel input = false ->
  po_Fallback (find_policy (pr_routing prepared) name) = Some fallback -> ParseOutbound fallback = Ok o -> outbounds !! o_Name o = Some id ->
  skipped (evaluated (m_matcher m) allowed usable) (selected_input input) o id = false ->
  exists outbound mark must target, match_ (evaluated (m_matcher m) allowed usable) input = Ok (outbound, mark, must) /\ outbounds !! target = Some outbound.
Proof.
  intros Hdep Hr Hdom Hi Hn Hpid Hdec Hk Hfb Ho Hid Hskip.
  pose proof (live_decides ebpf_error sha256 ahocorasick_NewMatcher ahocorasick_Contains ahocorasick_IsValidChar regexp_Compile regexp_MatchString unicode_ToLower outbounds ac_builds ac_finds lower_bytes
    prepared b l0 m0 m i name interfaces nodes input allowed usable Hdep Hr Hdom Hi Hn Hpid Hdec) as ->.
  assert (Hsim : simulateKernel (selected_input input) = false).
  { pose proof (di_named _ _ _ Hdec) as (_ & Hb & _). unfold simulateKernel, selected_input. destruct (_ =? _)%Z; cbn; by rewrite Hk, Hb. }
  assert (Hdv : forall key vs, domain_value regexp_Compile regexp_MatchString unicode_ToLower input key vs <> predicateUnknown) by (intros; by apply informs_pbool).
  destruct (policy_decides _ _ (m_links m) (m_members m) _ (evaluated (m_matcher m) allowed usable) (selected_input input) _ _ _ Hn Hdv Hsim) as (fb' & o' & id' & Hfb' & Ho' & Hid' & Hd & _).
  rewrite Hfb in Hfb'. injection Hfb' as <-. rewrite Ho in Ho'. injection Ho' as <-. rewrite Hid in Hid'. injection Hid' as <-.
  destruct (Hd Hskip) as (e & target & -> & Ht). by exists (outbound e), (mark e), (must_result e), target.
Qed.
End Live.

(** ** Rewritten destinations *)

(** A rewrite applies to the flow: its program matches, and it does not read a name that is
    missing. *)
Definition applies (m : router) (p : RouteParam) (input : routingInput) (entry : destinationPredicate) : Prop :=
  d_domain entry && String.eqb (Domain p) "" = false /\ exists r, evaluateSpans (r_matcher m) [d_span entry] input = Ok r /\ matched r = true.

(** The first rewrite of a program that applies. *)
Definition first_rewrite (m : router) (p : RouteParam) (input : routingInput) (entries : list destinationPredicate) (entry : destinationPredicate) : Prop :=
  exists before after, entries = before ++ entry :: after /\ applies m p input entry /\ Forall (fun e => ~ applies m p input e) before.

Definition rewrite_port (p : RouteParam) (entry : destinationPredicate) : Z := if (d_port entry =? 0)%Z then ap_port (Dest p) else d_port entry.

Section Rewrites.
Context (rand_IntN : nat -> nat).

Lemma select_target_in p profile index entry d : select_target rand_IntN p profile index entry = Ok d ->
  exists t, t ∈ d_targets entry /\ d = mkAddrPort t (rewrite_port p entry).
Proof.
  unfold select_target. destruct (_ =? _); [done|]. destruct (d_targets entry !! _) as [t|] eqn:E; [|done]. cbn. intros [= <-]. exists t. split; [by eapply list_elem_of_lookup_2|done].
Qed.

Lemma match_entries_first m p input profile entries d : forall index, match_entries rand_IntN m p input profile index entries = Ok d ->
  d = no_destination /\ Forall (fun e => ~ applies m p input e) entries \/
  exists entry t, first_rewrite m p input entries entry /\ t ∈ d_targets entry /\ d = mkAddrPort t (rewrite_port p entry).
Proof.
  induction entries as [|entry entries IH]; intros index; cbn [match_entries]; [intros [= <-]; by left|].
  assert (Hnext : ~ applies m p input entry -> match_entries rand_IntN m p input profile (S index) entries = Ok d ->
    d = no_destination /\ Forall (fun e => ~ applies m p input e) (entry :: entries) \/
    exists entry' t, first_rewrite m p input (entry :: entries) entry' /\ t ∈ d_targets entry' /\ d = mkAddrPort t (rewrite_port p entry')).
  { intros Hno H. destruct (IH _ H) as [[-> Hall]|(e & t & (before & after & -> & He & Hb) & Ht)]; [left; by split; [|constructor]|right].
    exists e, t. split; [|done]. exists (entry :: before), after. split; [done|]. split; [done|by constructor]. }
  destruct (d_domain entry && String.eqb (Domain p) "") eqn:Ed; [apply Hnext; intros [H _]; congruence|].
  destruct (evaluateSpans _ _ _) as [r| |] eqn:Er; [|done..]. cbn [mbind res_bind]. destruct (matched r) eqn:Em.
  - intros (t & Ht & ->)%select_target_in. right. exists entry, t. split; [|done]. exists [], entries. split; [done|]. split; [|constructor]. split; [done|by exists r].
  - apply Hnext. intros [_ (r' & Hr' & Hm)]. congruence.
Qed.
End Rewrites.

(** Every dialer that is selected for a chosen destination dials it. *)
Section Targets.
Context {D : Type} `{!Groups D} (useDNSAddress : string -> bool -> bool) (c : plane).

Definition dials (p : RouteParam) (r : RouteParam * res (DialOption D)) : Prop :=
  destination r.1 = destination p /\ forall o, r.2 = Ok o -> o_DialTarget o = AddrPort_String (destination p).

Lemma selectDialOption_dials p i mark override o : AddrPort_IsValid (destination p) = true ->
  selectDialOption useDNSAddress c p i mark override = Ok o -> o_DialTarget o = AddrPort_String (destination p).
Proof.
  intros Hv. assert (Ht : forall b, dialTarget p b = AddrPort_String (destination p)) by (intros b; unfold dialTarget; by rewrite Hv).
  unfold selectDialOption. rewrite !Ht. destruct (_ <=? _)%Z; [done|]. destruct (SelectConnection _ _ _); [by intros [= <-]| |done].
  destruct (outboundOverride p); [done|]. destruct (_ <=? _)%Z; [done|]. destruct (Select _ _) as [[? ?]|]; [by intros [= <-]|done].
Qed.

Lemma routeDestination_dials p domain : AddrPort_IsValid (destination p) = true -> dials p (routeDestination useDNSAddress c p domain).
Proof.
  intros Hv. unfold routeDestination, dials. destruct (param_input _ _ _); [|done..]. destruct (m ← idx (routingMatcher c); _) as [[[? ?] ?]| |]; [|done..].
  destruct (_ <=? _)%Z; [done|]. split; [done|]. intros o Ho. cbn in Ho. by apply selectDialOption_dials in Ho.
Qed.

Lemma route_verified_fst p facts decision v r :
  Dest (route_verified useDNSAddress c p facts decision v r).1 = Dest p /\ destination (route_verified useDNSAddress c p facts decision v r).1 = destination p.
Proof.
  unfold route_verified, routeDestination. by repeat (case_match; try done).
Qed.

Lemma route_verified_dials p facts decision v r : AddrPort_IsValid (destination p) = true -> dials p (route_verified useDNSAddress c p facts decision v r).
Proof.
  intros Hv. unfold route_verified. destruct (rp_action _); try (split; [done|]; intros o Ho; cbn in Ho; by apply selectDialOption_dials in Ho).
  - destruct (proto ← _; _) as [[[? ?] ?]| |]; [|done..]. split; [done|]. intros o Ho. cbn in Ho. by apply selectDialOption_dials in Ho.
  - by apply routeDestination_dials.
  - done.
Qed.
End Targets.

(** Rewrites have addresses and ports. *)
Definition rewrite_wf (e : destinationPredicate) : Prop := Forall (fun t => Addr_wf t /\ IsValid t = true) (d_targets e) /\ fits 16 (d_port e).

(** C26: a connection whose flow some rewrite applies to dials a target of the first such
    rewrite, on the port of the rewrite or, where it names none, on the original port; a
    connection that none applies to keeps its destination. The ingress tuple does not
    change. *)
Theorem rewrite_dials_target {D RealSet : Type} (groups : Groups D) (reals : RealDomains RealSet)
    (useDNSAddress : string -> bool -> bool) (canonical_name : string -> string) (rand_IntN : nat -> nat) (at_ : attempt) (c : plane) (m : router)
    (p p' : RouteParam) (real real' : RealSet) (o : DialOption D) (input : routingInput) :
  routingMatcher c = Some m -> AddrPort_IsValid (destination p) = false -> fits 16 (ap_port (Dest p)) ->
  param_input p (str (Domain p)) (Dest p) = Ok input ->
  let program := destinationProgram m (profile_of m (rr_ProfileId (p_result p))) in
  Forall rewrite_wf program -> RouteDialOption useDNSAddress c canonical_name rand_IntN at_ p real = (p', real', Ok o) ->
  Dest p' = Dest p /\
  ((AddrPort_IsValid (destination p') = false /\ Forall (fun e => ~ applies m p input e) program) \/
   exists entry t, first_rewrite m p input program entry /\ t ∈ d_targets entry /\
     ParseAddrPort (o_DialTarget o) = Some (mkAddrPort t (rewrite_port p entry), [])).
Proof.
  intros Hm Hd Hport Hin program Hwf. unfold RouteDialOption. destruct (ctx_start at_); [done|]. rewrite Hd, Hm. unfold matchDestination.
  destruct (profiles (r_matcher m) !! _); [|done]. rewrite Hin. cbn [mbind res_bind]. fold program.
  destruct (match_entries _ _ _ _ _ _ _) as [d| |] eqn:Ed; [|done..]. set (q := with_destination p d).
  intros H. assert (Hrun : Dest p' = Dest p /\ destination p' = d /\ (AddrPort_IsValid d = true -> o_DialTarget o = AddrPort_String d)).
  { clear Hwf. assert (Hroute : forall facts decision v r, route_verified useDNSAddress c q facts decision v r = (p', Ok o) ->
      Dest p' = Dest p /\ destination p' = d /\ (AddrPort_IsValid d = true -> o_DialTarget o = AddrPort_String d)).
    { intros facts decision v r. pose proof (route_verified_dials useDNSAddress c q facts decision v r) as Hdial. pose proof (route_verified_fst useDNSAddress c q facts decision v r) as [F1 F2].
      intros E. rewrite E in *. cbn in *. split; [done|]. split; [done|]. intros Hv. by apply Hdial. }
    cbn [kernelRoute] in H. destruct (rp_preserve _).
    - injection H as <- _ Hs. split; [done|]. split; [done|]. intros Hv. by eapply selectDialOption_dials in Hs.
    - destruct (if (_ =? 0)%Z then _ else _) as [answer real1]. destruct answer as [[v r]| |]; [|done..].
      destruct (route_verified _ _ _ _ _ _ _) as [p1 r1] eqn:E. injection H as -> _ ->. by eapply Hroute. }
  destruct Hrun as (H1 & H2 & H3). split; [done|]. rewrite H2.
  destruct (match_entries_first _ _ _ _ _ _ _ _ Ed) as [[-> Hall]|(entry & t & Hf & Ht & ->)]; [by left|right]. exists entry, t. split; [done|]. split; [done|].
  destruct Hf as (before & after & Hp & _). rewrite Hp in Hwf. apply Forall_app in Hwf as [_ [[Hts Hpt] _]%Forall_cons]. rewrite Forall_forall in Hts. destruct (Hts t Ht) as [Hw Hv].
  rewrite H3 by done. apply AddrPort_String_parse; [done|done|]. unfold rewrite_port. cbn. by destruct (d_port entry =? 0)%Z.
Qed.

(** ** An example *)

(** A client on [eth0] that has resolved [example.com]; the kernel finds the bit of the
    name in the published bitmaps and decides for the proxy. *)
Module Home.
Definition bits (n : string) : list Z := (if String.eqb n "example.com." then 1%Z else 0%Z) :: replicate 31 0%Z.

Lemma home_bits_ok n : bitmap_ok (bits n).
Proof.
  split; [done|]. constructor; [destruct (String.eqb n "example.com."); unfold fits; lia|]. apply Forall_replicate, fits_0.
Qed.

Definition env : environment := mkEnv (fun _ _ _ => None) (fun _ _ => None) (fun _ kvs => (length kvs, None)) in_order.
Definition ops : list (environment * operation) := [(env, OpObserve [mkObservation "example.com." [demo_addr] (bits "example.com.") 60] 1000)].
Definition st : state := ok_or (initial 7 1 10 5) (run_ops ops (initial 7 1 10 5)).
Definition g : DomainRegistry := st.1.1.
Definition a : domainActivity := st.1.2.
Definition km : domain_map := st.2.

Lemma home_reachable : reachable bits 1 (g, a, km).
Proof.
  apply (reachable_run bits 1 ops (initial 7 1 10 5)).
  - apply reach_new; [exact home_bits_ok|done].
  - repeat constructor; cbn; try lia.
  - unfold g, a, km. rewrite <-!surjective_pairing. by apply ok_or_ok; vm_compute.
Qed.

Definition packet : routingInput :=
  mkInput (mkAddrPort demo_addr 5000) (mkAddrPort demo_addr 443) L4ProtoType_TCP [] zero16 7 0 0 0 (replicate 6 0%Z) (Some (bits "example.com.")) (Some (bits "example.com.")) true routeFromIngress.
Definition params : route_params :=
  mkParams (As16 demo_addr) (As16 demo_addr) zero16 7 0 0 5000 443 (replicate 6 0%Z) L4ProtoType_TCP (IpVersionFromAddr demo_addr) 0 false false.
Definition result : routingResult := mkResult 2 0 0 0 0 7 0 0 0 (replicate 6 0%Z) zero16.
Definition param : RouteParam :=
  mkRouteParam None None false no_destination result (mkNetwork "tcp" "6") "example.com" (mkAddrPort demo_addr 5000) (mkAddrPort demo_addr 443).
Definition router_ : router := mkRouter (evaluated Slimtrie.naive_Contains no_match id (m_matcher home_later) None (Some (live_usable all_alive))) ∅.
Definition plane_ : plane := mkPlane (Some router_) (Some g) SniffVerifyMode_Strict RerouteMode_None false 3 0 0.
Definition groups_ : Groups unit := {| SelectConnection := fun _ network _ => Selected network tt; Select := fun _ network => Some (network, tt) |}.
Definition reals_ : RealDomains (list string) := {| TestString := fun s n => existsb (String.eqb n) s; AddString := fun s n => n :: s |}.
Definition canonical (n : string) : string := (n ++ ".")%string.
Definition attempt_ : attempt := mkAttempt None None None (fun _ => None).

Lemma handed : handed_over linear_lookup all_alive all_admitted home_later km params packet param L4ProtoType_TCP.
Proof.
  destruct demo_input_wf as (Ha & _). assert (Hmac : mac_wf (replicate 6 0%Z)) by (split; [done|by apply bytesb_ok]). split.
  - assert (E : published_map km (As16 demo_addr) = Some (mkDomainRouting (bits "example.com.") (bits "example.com."))) by by vm_compute.
    split; [|by split_and!|split; [done|]; change (k_daddr params) with (As16 demo_addr); rewrite E; by split|done..].
    clear E. split; try done; by apply bytesb_ok.
  - done.
  - by split.
  - by vm_compute.
  - eexists. by vm_compute.
Qed.

Lemma name_fine d : normal_domain id d = str "example.com" -> Forall is_byte d -> name_ok Slimtrie.naive_valid id d.
Proof. intros E Hd. split; [done|]. rewrite E. pose proof phone_decidable as [_ _ _ _ (_ & _ & _ & H)]. by apply (H ltac:(done)). Qed.

Lemma names : matched_names Slimtrie.naive_Contains Slimtrie.naive_valid no_match id home_later bits g (Unmap (ap_addr (Dest param))).
Proof.
  intros n t. assert (E : map_to_list (byName g) = [("example.com."%string, 0)]) by by vm_compute.
  unfold deadline_of, pair_of. destruct (byName g !! n) as [r|] eqn:En; [|done]. intros _. apply elem_of_map_to_list in En. rewrite E in En. apply list_elem_of_singleton in En as [= -> _].
  split; [|by vm_compute]. apply name_fine; [by vm_compute|apply str_bytes].
Qed.

Lemma decidable : decidable_input Slimtrie.naive_valid id (result_input result (Src param) (Dest param) (str "example.com") L4ProtoType_TCP).
Proof.
  destruct demo_input_wf as (Ha & _). split; [|done..|].
  - split; [exact Ha|]. split; [exact Ha|]. split; [done|by apply bytesb_ok].
  - split; [done|]. split; [done|]. split; [apply str_bytes|]. intros _. apply name_fine; [by vm_compute|apply str_bytes].
Qed.
End Home.

Lemma while_needed_is_force_witness :
  RouteDialOption (Groups0 := Home.groups_) (RealDomains0 := Home.reals_) (fun _ _ => false) (with_mode Home.plane_ RerouteMode_WhileNeed) Home.canonical (fun _ => 0) Home.attempt_ Home.param [] =
  RouteDialOption (Groups0 := Home.groups_) (RealDomains0 := Home.reals_) (fun _ _ => false) (with_mode Home.plane_ RerouteMode_Force) Home.canonical (fun _ => 0) Home.attempt_ Home.param [] /\
  o_Outbound <$> (RouteDialOption (Groups0 := Home.groups_) (RealDomains0 := Home.reals_) (fun _ _ => false) (with_mode Home.plane_ RerouteMode_WhileNeed) Home.canonical (fun _ => 0) Home.attempt_ Home.param []).2 = Ok 2%Z.
Proof.
  split; [|by vm_compute].
  destruct (compileRouting_spec (fun _ => 0%Z) (fun _ => []) (fun _ _ => predicateMiss) demo_hash ltac:(done) demo_outbounds (dp_direct _ _ _ _ _ _ _ _ _ _ home_deployed)
    _ _ _ _ (dp_prepared _ _ _ _ _ _ _ _ _ _ home_deployed) (dp_compile _ _ _ _ _ _ _ _ _ _ home_deployed)) as (w & _ & Hall & _).
  assert (Hb : profile_bindings (pr_routing home_prepared) !! 0 = Some ("main"%string, [])) by (by vm_compute).
  destruct (Forall2_lookup_l _ _ _ _ _ Hall Hb) as (profile & _ & _ & _ & nodes & Hn & _).
  assert (Hsel : @selected_profile (kernel_maps linear_lookup (published_map Home.km) all_alive all_admitted (m_maps home_later)) Home.params = 1%Z) by (by vm_compute).
  assert (Hcan : normal_domain id (str (Home.canonical "example.com")) = normal_domain id (str "example.com")) by (by vm_compute).
  assert (Hne : Domain Home.param <> ""%string) by done.
  exact (while_needed_is_force no_errors demo_hash Slimtrie.naive_NewMatcher Slimtrie.naive_Contains Slimtrie.naive_valid Slimtrie.no_regexp no_match id
    Slimtrie.naive_builds Slimtrie.naive_finds (fun s H => H) demo_outbounds demo_outbounds_fit linear_lookup (fun _ _ _ _ => eq_refl) all_alive all_admitted
    Home.groups_ Home.reals_ (fun _ _ => false) Home.canonical (fun _ => 0) Home.attempt_ Home.plane_ home_prepared home_builder home_matcher home_moment home_later 0 "main" [] nodes None ∅
    Home.bits 1 Home.g Home.a Home.km Home.params Home.packet Home.param L4ProtoType_TCP [] home_deployed home_step home_domains Hb Hn Hsel Home.handed eq_refl Home.decidable
    Home.home_reachable Home.names eq_refl eq_refl eq_refl Hne Hcan).
Defined.

Lemma routing_decides_witness : exists outbound mark must target,
  match_ (evaluated Slimtrie.naive_Contains no_match id (m_matcher home_later) None None) phone_input = Ok (outbound, mark, must) /\ demo_outbounds !! target = Some outbound.
Proof.
  destruct (compileRouting_spec (fun _ => 0%Z) (fun _ => []) (fun _ _ => predicateMiss) demo_hash ltac:(done) demo_outbounds (dp_direct _ _ _ _ _ _ _ _ _ _ home_deployed)
    _ _ _ _ (dp_prepared _ _ _ _ _ _ _ _ _ _ home_deployed) (dp_compile _ _ _ _ _ _ _ _ _ _ home_deployed)) as (w & _ & Hall & _).
  assert (Hb : profile_bindings (pr_routing home_prepared) !! 0 = Some ("main"%string, [])) by (by vm_compute).
  destruct (Forall2_lookup_l _ _ _ _ _ Hall Hb) as (profile & _ & _ & _ & nodes & Hn & _).
  exact (routing_decides no_errors demo_hash Slimtrie.naive_NewMatcher Slimtrie.naive_Contains Slimtrie.naive_valid Slimtrie.no_regexp no_match id
    Slimtrie.naive_builds Slimtrie.naive_finds (fun s H => H) demo_outbounds home_prepared home_builder home_matcher home_moment home_later 0 "main" [] nodes
    phone_input None None (demo_fn "direct" false []) (mkOutbound "direct" 0 false false) 0 home_deployed home_step home_domains Hb Hn eq_refl phone_decidable eq_refl eq_refl eq_refl eq_refl eq_refl).
Defined.

(** One rewrite of every flow to [192.0.2.1], and one route. *)
Module Rewritten.
Definition matcher : RoutingMatcher :=
  mkRoutingMatcher [mkMatch zero16 MatchType_Fallback MatchActionMatch 0 0 0; mkMatch zero16 MatchType_Fallback MatchActionRoute 0 0 0] [] 1
    {[ 1%Z := [mkSpan 1 2 routingPhaseRoute false] ]} (fun _ => None) None None.
Definition program : list destinationPredicate := [mkDestination (mkSpan 0 1 routingPhaseRoute false) false [AddrV4 [192; 0; 2; 1]%Z] 0].
Definition router_ : router := mkRouter matcher {[ 1%Z := program ]}.
Definition plane_ : plane := mkPlane (Some router_) None SniffVerifyMode_None RerouteMode_None false 2 0 0.
Definition input : routingInput := result_input Home.result (Src Home.param) (Dest Home.param) (str "example.com") L4ProtoType_TCP.
Definition param : RouteParam :=
  mkRouteParam None None false no_destination (mkResult 0 0 0 0 1 7 0 0 0 (replicate 6 0%Z) zero16) (mkNetwork "tcp" "6") "example.com" (mkAddrPort demo_addr 5000) (mkAddrPort demo_addr 443).
Definition option_ : DialOption unit :=
  mkDialOption (replicate 6 0%Z) 0 (str "192.0.2.1:443") tt None 0 None (mkNetwork "tcp" "4") true false.
End Rewritten.

Lemma rewrite_dials_target_witness :
  Dest (with_destination Rewritten.param (mkAddrPort (AddrV4 [192; 0; 2; 1]%Z) 443)) = Dest Rewritten.param /\
  ((AddrPort_IsValid (mkAddrPort (AddrV4 [192; 0; 2; 1]%Z) 443) = false /\ Forall (fun e => ~ applies Rewritten.router_ Rewritten.param Rewritten.input e) Rewritten.program) \/
   exists entry t, first_rewrite Rewritten.router_ Rewritten.param Rewritten.input Rewritten.program entry /\ t ∈ d_targets entry /\
     ParseAddrPort (o_DialTarget Rewritten.option_) = Some (mkAddrPort t (rewrite_port Rewritten.param entry), [])).
Proof.
  apply (rewrite_dials_target Home.groups_ Home.reals_ (fun _ _ => false) Home.canonical (fun _ => 0) Home.attempt_ Rewritten.plane_ Rewritten.router_ Rewritten.param
    (with_destination Rewritten.param (mkAddrPort (AddrV4 [192; 0; 2; 1]%Z) 443)) [] [] Rewritten.option_ Rewritten.input); try (by vm_compute).
  constructor; [|constructor]. split; [|by vm_compute]. constructor; [|constructor]. split; [split; [done|by apply bytesb_ok]|done].
Defined.
