(* ===== verification/DnsObserver.v ===== *)
(** * Evidence from DNS answers (control/dns_observer.go)

    A delivered answer is checked against its request, its CNAME chain is followed from
    the question to the records of the queried type, and the addresses become evidence for
    every name of the chain. *)

From S2P Require Import Prelude Netip GoStrings NetipParse GoSlices DomainProjection DomainRegistry.

(** ** Messages *)

(** The parts of [dns.Msg] that are read. *)
Record RR_Header := mkHeader { h_Name : string; h_Rrtype : Z; h_Class : Z; h_Ttl : Z }.

Inductive RR :=
| RR_A (h : RR_Header) (A : bytes)
| RR_AAAA (h : RR_Header) (AAAA : bytes)
| RR_CNAME (h : RR_Header) (Target : string)
| RR_RRSIG (h : RR_Header) (TypeCovered Inception Expiration : Z)
| RR_other (h : RR_Header).

Definition Header (rr : RR) : RR_Header :=
  match rr with RR_A h _ | RR_AAAA h _ | RR_CNAME h _ | RR_RRSIG h _ _ _ | RR_other h => h end.

Record Question := mkQuestion { q_Name : string; q_Type : Z; q_Class : Z }.

(** A record of the answer section may be nil. *)
Record Msg := mkMsg {
  Id : Z;
  Response : bool;
  Opcode : Z;
  Truncated : bool;
  Rcode : Z;
  Questions : list Question;
  Answer : list (option RR);
}.

Definition TypeA : Z := 1.
Definition TypeCNAME : Z := 5.
Definition TypeAAAA : Z := 28.
Definition ClassINET : Z := 1.
Definition OpcodeQuery : Z := 0.
Definition RcodeSuccess : Z := 0.

(** [netip.AddrFromSlice]. *)
Definition AddrFromSlice (raw : bytes) : option Addr :=
  if length raw =? 4 then Some (AddrV4 raw) else if length raw =? 16 then Some (AddrV6 raw) else None.

(** ** Times *)

(** RFC 2181: a time to live with the high bit set means zero. *)
Definition observedDNSTTL (ttl : Z) : Z := if (2 ^ 31 <=? ttl)%Z then 0%Z else ttl.

(** Seconds since 1970 and nanoseconds of an instant counted from year 1. *)
Definition Unix (at_ : Time) : Z := (at_ / time_Second - 62135596800)%Z.
Definition Nanosecond (at_ : Time) : Z := (at_ mod time_Second)%Z.

Definition rrsigRemainingTTL (inception expiration : Z) (at_ : Time) : Z * bool :=
  let now := wrap 32 (Unix at_) in
  let halfRange := (2 ^ 31)%Z in
  if (halfRange <=? wrap 32 (now - inception))%Z || (halfRange <=? wrap 32 (expiration - now))%Z then (0%Z, false)
  else
    let remaining := wrap 32 (expiration - now) in
    (if negb (Nanosecond at_ =? 0)%Z && (0 <? remaining)%Z then remaining - 1 else remaining, true)%Z.

(** ** Observation *)

(** The canonical form of a name is that of the DNS library; Unicode case folding is a
    parameter. *)
Section Observer.
Context (CanonicalName : string -> string) (EqualFold : string -> string -> bool).

Fixpoint questions_match (qs rs : list Question) : bool :=
  match qs, rs with
  | q :: qs, r :: rs => EqualFold (q_Name q) (q_Name r) && (q_Type q =? q_Type r)%Z && (q_Class q =? q_Class r)%Z && questions_match qs rs
  | _, _ => true
  end.

Definition dnsResponseMatches (request response : option Msg) : bool :=
  match request, response with
  | Some request, Some response =>
    negb (Response request) && Response response && (Id request =? Id response)%Z && (Opcode request =? Opcode response)%Z &&
    (length (Questions request) =? length (Questions response)) && questions_match (Questions request) (Questions response)
  | _, _ => false
  end.

(** The CNAME records of the answer, and its records of the queried type, by owner; a
    name with two targets invalidates the answer. *)
Definition collected : Type := gmap string (string * Z) * gmap string (list RR).

Definition collect (qtype : Z) (st : collected) (rr : option RR) : option collected :=
  let '(links, addresses) := st in
  match rr with
  | None => Some st
  | Some rr =>
    if negb (h_Class (Header rr) =? ClassINET)%Z then Some st
    else
      let name := CanonicalName (h_Name (Header rr)) in
      match rr with
      | RR_CNAME h target =>
        let target := CanonicalName target in
        match links !! name with
        | Some (old, ttl) => if String.eqb old target then Some (<[name := (target, Z.min ttl (observedDNSTTL (h_Ttl h)))]> links, addresses) else None
        | None => Some (<[name := (target, observedDNSTTL (h_Ttl h))]> links, addresses)
        end
      | _ => if (h_Rrtype (Header rr) =? qtype)%Z then Some (links, <[name := default [] (addresses !! name) ++ [rr]]> addresses) else Some st
      end
  end.

Definition collect_all (qtype : Z) (answer : list (option RR)) : option collected :=
  fold_left (fun st rr => st ← st; collect qtype st rr) answer (Some (∅, ∅)).

(** The names from the question on; [None] abandons the answer. The fuel is the number of
    names the loop may add. *)
Fixpoint follow (fuel : nat) (st : collected) (seen : gset string) (names : list string) (name : string) : option (list string) :=
  match fuel with
  | 0 => None
  | S fuel =>
    match st.1 !! name with
    | None => Some (names ++ [name])
    | Some (target, _) =>
      if negb (bool_decide (default [] (st.2 !! name) = [])) || bool_decide (target ∈ seen) then None
      else follow fuel st ({[target]} ∪ seen) (names ++ [name]) target
    end
  end.

Definition chain (st : collected) (question : string) : option (list string) := follow 16 st {[question]} [] question.

(** The addresses of the terminal records and their least time to live. *)
Definition raw_of (rr : RR) : bytes := match rr with RR_A _ raw | RR_AAAA _ raw => raw | _ => [] end.

Definition usable_ip (qtype : Z) (ip : Addr) : bool :=
  negb (IsUnspecified ip) && ((qtype =? TypeA)%Z && Is4 (Unmap ip) || (qtype =? TypeAAAA)%Z && Is6 ip && negb (Is4In6 ip)).

Definition record_ip (qtype : Z) (rr : RR) : option Addr :=
  ip ← AddrFromSlice (raw_of rr); if usable_ip qtype ip then Some (Unmap ip) else None.

Definition terminal_ttl (rrs : list RR) : Z := fold_left (fun ttl rr => Z.min ttl (observedDNSTTL (h_Ttl (Header rr)))) rrs (2 ^ 31 - 1)%Z.

(** Whether a name has signatures of a type, and whether one is valid at the time. *)
Definition covers (name : string) (rrtype : Z) (rr : option RR) : option (Z * Z) :=
  match rr with
  | Some (RR_RRSIG h covered inception expiration) =>
    if negb (h_Class h =? ClassINET)%Z || negb (String.eqb (CanonicalName (h_Name h)) name) || negb (covered =? rrtype)%Z then None
    else Some (inception, expiration)
  | _ => None
  end.

Definition valid_at (at_ : Time) (s : Z * Z) : bool := let '(remaining, valid) := rrsigRemainingTTL s.1 s.2 at_ in valid && (0 <? remaining)%Z.

Definition signature_fails (answer : list (option RR)) (at_ : Time) (name : string) (rrtype : Z) : bool :=
  let signatures := omap (covers name rrtype) answer in
  negb (bool_decide (signatures = [])) && negb (existsb (valid_at at_) signatures).

(** From the terminal name back to the question: names, the addresses and the time to
    live of the rest of the chain. *)
Fixpoint observations_of (links : gmap string (string * Z)) (answer : list (option RR)) (at_ : Time) (ips : list Addr) (match_ : string -> list Z) (ttl : Z) (names : list string)
    : option (list domainObservation) :=
  match names with
  | [] => Some []
  | name :: names =>
    '(_, t) ← links !! name;
    let ttl := Z.min ttl t in
    if signature_fails answer at_ name TypeCNAME then None
    else rest ← observations_of links answer at_ ips match_ ttl names; Some (mkObservation name ips (match_ name) ttl :: rest)
  end.

Definition dns_observations (match_ : string -> list Z) (request response : option Msg) (at_ : Time) : option (list domainObservation) :=
  m ← response;
  if negb (dnsResponseMatches request response) then None
  else if negb (Opcode m =? OpcodeQuery)%Z || Truncated m || negb (Rcode m =? RcodeSuccess)%Z then None
  else
    match Questions m with
    | [q] =>
      if negb (q_Class q =? ClassINET)%Z || negb (q_Type q =? TypeA)%Z && negb (q_Type q =? TypeAAAA)%Z then None
      else
        st ← collect_all (q_Type q) (Answer m);
        names ← chain st (CanonicalName (q_Name q));
        terminal ← last names;
        let rrs := default [] (st.2 !! terminal) in
        let ips := omap (record_ip (q_Type q)) rrs in
        if bool_decide (rrs = []) || bool_decide (ips = []) then None
        else
          let ttl := terminal_ttl rrs in
          if signature_fails (Answer m) at_ terminal (q_Type q) then None
          else
            rest ← observations_of st.1 (Answer m) at_ ips match_ ttl (tail (rev names));
            Some (mkObservation terminal ips (match_ terminal) ttl :: rest)
    | _ => None
    end.

(** Writes to the kernel map and the order of iteration, as for the registry. *)
Section Observe.
Context (update_error : domain_map -> bytes -> domainBitmaps -> option string) (delete_error : domain_map -> bytes -> option string).
Context (batch_apply : domain_map -> list (bytes * domainBitmaps) -> nat * option string) (order : map_order).

Definition observeDNSRegistryAt (match_ : string -> list Z) (request response : option Msg) (deliveredAt : Time) (st : state) : res state :=
  match dns_observations match_ request response deliveredAt with
  | Some observations => ObserveDNS update_error delete_error batch_apply order observations deliveredAt st
  | None => Ok st
  end.
End Observe.
End Observer.
