(* ===== verification/DnsObserverCorrect.v ===== *)
(** * Correctness of DNS observation

    Evidence comes only from the records of a matching answer: an observed name is an
    alias the question leads to, its addresses are what the answer resolves it to, and its
    time to live is at most that of every record the name depends on. *)

From S2P Require Import Prelude Netip GoStrings NetipParse GoSlices DomainProjection DomainProjectionCorrect DomainRegistry DomainRegistryCorrect DomainRegistryObserve DomainRegistrySync DomainRegistryRun DomainRegistryFork DomainRegistryClaims DnsObserver.

Section Correct.
Context (CanonicalName : string -> string) (EqualFold : string -> string -> bool).

Local Abbreviation owner rr := (CanonicalName (h_Name (Header rr))).

(** ** The meaning of an answer *)

Definition is_cname (rr : RR) : bool := match rr with RR_CNAME _ _ => true | _ => false end.

(** Records of the Internet class. *)
Definition in_answer (answer : list (option RR)) (rr : RR) : Prop := Some rr ∈ answer /\ h_Class (Header rr) = ClassINET.

Definition cname (answer : list (option RR)) (n t : string) : Prop :=
  exists h target, in_answer answer (RR_CNAME h target) /\ CanonicalName (h_Name h) = n /\ CanonicalName target = t.

(** A record of the queried type for a name. *)
Definition record_of (answer : list (option RR)) (qtype : Z) (n : string) (rr : RR) : Prop :=
  in_answer answer rr /\ is_cname rr = false /\ owner rr = n /\ h_Rrtype (Header rr) = qtype.

(** The addresses a name resolves to, through aliases. *)
Inductive resolves (answer : list (option RR)) (qtype : Z) : string -> Addr -> Prop :=
| resolves_here n rr ip : record_of answer qtype n rr -> record_ip qtype rr = Some ip -> resolves answer qtype n ip
| resolves_alias n t ip : cname answer n t -> resolves answer qtype t ip -> resolves answer qtype n ip.

(** Records a name depends on: its aliases, and the records of the queried type at the end
    of them. *)
Definition depends (answer : list (option RR)) (qtype : Z) (n : string) (rr : RR) : Prop :=
  exists t, rtc (cname answer) n t /\ in_answer answer rr /\ owner rr = t /\ (is_cname rr = true \/ h_Rrtype (Header rr) = qtype).

(** ** Collected records *)

Record collected_ok (qtype : Z) (answer : list (option RR)) (st : collected) : Prop := {
  co_link : forall n t ttl, st.1 !! n = Some (t, ttl) -> cname answer n t /\
    forall h target, in_answer answer (RR_CNAME h target) -> CanonicalName (h_Name h) = n -> (ttl <= observedDNSTTL (h_Ttl h))%Z;
  co_cname : forall n t, cname answer n t -> exists ttl, st.1 !! n = Some (t, ttl);
  co_record : forall n rr, rr ∈ default [] (st.2 !! n) <-> record_of answer qtype n rr;
}.

Lemma in_answer_app answer o rr : in_answer (answer ++ [o]) rr <-> in_answer answer rr \/ (o = Some rr /\ h_Class (Header rr) = ClassINET).
Proof. unfold in_answer. rewrite elem_of_app, list_elem_of_singleton. naive_solver. Qed.

Lemma collect_skip qtype answer st o : collected_ok qtype answer st ->
  (forall rr, o = Some rr -> h_Class (Header rr) = ClassINET -> is_cname rr = false /\ h_Rrtype (Header rr) <> qtype) -> collected_ok qtype (answer ++ [o]) st.
Proof.
  intros [H1 H2 H3] Ho. assert (Hc : forall n t, cname (answer ++ [o]) n t <-> cname answer n t).
  { intros n t. unfold cname. setoid_rewrite in_answer_app. split; [|naive_solver]. intros (h & target & [H|[E Hcl]] & Hn); [naive_solver|]. by destruct (Ho _ E Hcl). }
  split.
  - intros n t ttl Hl. destruct (H1 _ _ _ Hl) as [Hcn Hm]. split; [by apply Hc|]. intros h target [H|[E Hcl]]%in_answer_app; [by eapply Hm|]. by destruct (Ho _ E Hcl).
  - intros n t. rewrite Hc. apply H2.
  - intros n rr. rewrite H3. unfold record_of. rewrite in_answer_app. split; [naive_solver|]. intros ([H|[E Hcl]] & H4 & H5 & H6); [done|]. by destruct (Ho _ E Hcl).
Qed.

Lemma collect_cname qtype answer links addresses h target ttl : collected_ok qtype answer (links, addresses) -> h_Class h = ClassINET ->
  let name := CanonicalName (h_Name h) in
  match links !! name with
  | Some (old, ttl0) => old = CanonicalName target /\ ttl = Z.min ttl0 (observedDNSTTL (h_Ttl h))
  | None => ttl = observedDNSTTL (h_Ttl h)
  end ->
  collected_ok qtype (answer ++ [Some (RR_CNAME h target)]) (<[name := (CanonicalName target, ttl)]> links, addresses).
Proof.
  intros [H1 H2 H3] Hcl name Hold. cbn [fst snd] in *. assert (Hnew : cname (answer ++ [Some (RR_CNAME h target)]) name (CanonicalName target)).
  { exists h, target. split; [|done]. apply in_answer_app. by right. }
  assert (Hmono : forall n t, cname answer n t -> cname (answer ++ [Some (RR_CNAME h target)]) n t) by (intros n t (h' & t' & Hin & Hn); exists h', t'; split; [apply in_answer_app; by left|done]).
  split; cbn [fst snd].
  - intros n t ttl'. destruct (decide (n = name)) as [->|Hne].
    + rewrite lookup_insert_eq. intros [= <- <-]. split; [done|]. intros h' target' [Hin|[[= -> ->] _]]%in_answer_app Hn'.
      * destruct (links !! name) as [[old ttl0]|] eqn:El; [|destruct (H2 name (CanonicalName target')) as [? Hx]; [by exists h', target'|congruence]].
        destruct (H1 _ _ _ El) as [_ Hm]. specialize (Hm _ _ Hin Hn'). destruct Hold as [_ ->]. lia.
      * destruct (links !! name) as [[old ttl0]|]; [destruct Hold as [_ ->]; lia|subst ttl; lia].
    + rewrite lookup_insert_ne by done. intros Hl. destruct (H1 _ _ _ Hl) as [Hcn Hm]. split; [by apply Hmono|]. intros h' target' [Hin|[[= -> ->] _]]%in_answer_app Hn'; [by eapply Hm|done].
  - intros n t (h' & t' & Hin & Hn & Ht). apply in_answer_app in Hin as [Hin|[[= -> ->] _]].
    + destruct (H2 n t) as [ttl' Hl]; [by exists h', t'|]. destruct (decide (n = name)) as [->|Hne]; [|exists ttl'; by rewrite lookup_insert_ne].
      rewrite Hl in Hold. destruct Hold as [-> _]. exists ttl. by rewrite lookup_insert_eq.
    + subst n t. exists ttl. by rewrite lookup_insert_eq.
  - intros n rr. rewrite H3. unfold record_of. rewrite in_answer_app. split; [naive_solver|]. intros ([Hin|[[= <-] _]] & Hf & Hr); [done|done].
Qed.

Lemma collect_record qtype answer links addresses rr : collected_ok qtype answer (links, addresses) -> h_Class (Header rr) = ClassINET -> is_cname rr = false -> h_Rrtype (Header rr) = qtype ->
  collected_ok qtype (answer ++ [Some rr]) (links, <[owner rr := default [] (addresses !! owner rr) ++ [rr]]> addresses).
Proof.
  intros [H1 H2 H3] Hcl Hf Ht. cbn [fst snd] in *. assert (Hc : forall n t, cname (answer ++ [Some rr]) n t <-> cname answer n t).
  { intros n t. unfold cname. setoid_rewrite in_answer_app. split; [|naive_solver]. intros (h & target & [H|[[= ->] _]] & Hn); [naive_solver|done]. }
  split; cbn [fst snd].
  - intros n t ttl Hl. destruct (H1 _ _ _ Hl) as [Hcn Hm]. split; [by apply Hc|]. intros h target [H|[[= ->] _]]%in_answer_app; [by eapply Hm|done].
  - intros n t. rewrite Hc. apply H2.
  - intros n rr'. unfold record_of. rewrite in_answer_app. destruct (decide (n = owner rr)) as [->|Hne].
    + rewrite lookup_insert_eq. cbn [from_option id]. rewrite elem_of_app, list_elem_of_singleton, H3. unfold record_of. naive_solver.
    + rewrite lookup_insert_ne by done. rewrite H3. unfold record_of. naive_solver.
Qed.

Lemma collect_ok qtype answer st o st' : collected_ok qtype answer st -> collect CanonicalName qtype st o = Some st' -> collected_ok qtype (answer ++ [o]) st'.
Proof.
  intros Hok. destruct st as [links addresses]. unfold collect. destruct o as [rr|]; [|intros [= <-]; by apply collect_skip].
  destruct (Z.eqb_spec (h_Class (Header rr)) ClassINET) as [Hcl|Hcl]; cbn [negb]; [|intros [= <-]; apply collect_skip; [done|]; by intros ? [= <-]].
  assert (Hplain : is_cname rr = false -> (if (h_Rrtype (Header rr) =? qtype)%Z then Some (links, <[owner rr := default [] (addresses !! owner rr) ++ [rr]]> addresses) else Some (links, addresses)) = Some st' ->
    collected_ok qtype (answer ++ [Some rr]) st').
  { intros Hf. destruct (Z.eqb_spec (h_Rrtype (Header rr)) qtype) as [Ht|Ht]; intros [= <-]; [by apply collect_record|]. apply collect_skip; [done|]. by intros ? [= <-]. }
  destruct rr as [h raw|h raw|h target|h c i e|h]; try (by apply Hplain). cbn [Header] in *. destruct (links !! CanonicalName (h_Name h)) as [[old ttl]|] eqn:El.
  - destruct (String.eqb_spec old (CanonicalName target)) as [->|]; [|done]. intros [= <-]. apply collect_cname; [done|done|]. by rewrite El.
  - intros [= <-]. apply collect_cname; [done|done|]. by rewrite El.
Qed.

Lemma collect_all_ok qtype answer st : collect_all CanonicalName qtype answer = Some st -> collected_ok qtype answer st.
Proof.
  unfold collect_all. revert st. induction answer as [|o answer IH] using rev_ind; intros st.
  - intros [= <-]. split; cbn.
    + intros n t ttl. by rewrite lookup_empty.
    + intros n t (h & target & [Hin _] & _). by apply elem_of_nil in Hin.
    + intros n rr. rewrite lookup_empty. cbn. rewrite elem_of_nil. split; [done|]. intros ([Hin _] & _). by apply elem_of_nil in Hin.
  - rewrite fold_left_app. cbn [fold_left]. destruct (fold_left _ answer _) as [st0|]; [|done]. cbn. intros H. eapply collect_ok, H. by apply IH.
Qed.

(** An answer is collected unless a name has two targets. *)
Definition functional (answer : list (option RR)) : Prop := forall n t t', cname answer n t -> cname answer n t' -> t = t'.

Lemma collected_functional qtype answer st : collected_ok qtype answer st -> functional answer.
Proof. intros H n t t' H1 H2. destruct (co_cname _ _ _ H _ _ H1) as [? E1], (co_cname _ _ _ H _ _ H2) as [? E2]. congruence. Qed.

Lemma cname_mono answer o n t : cname answer n t -> cname (answer ++ [o]) n t.
Proof. intros (h & target & Hin & Hn). exists h, target. split; [apply in_answer_app; by left|done]. Qed.

Lemma collect_total qtype answer st o : collected_ok qtype answer st -> functional (answer ++ [o]) -> is_Some (collect CanonicalName qtype st o).
Proof.
  intros Hok Hf. destruct st as [links addresses]. unfold collect. destruct o as [rr|]; [|done]. destruct (Z.eqb_spec (h_Class (Header rr)) ClassINET) as [Hcl|]; cbn [negb]; [|done].
  assert (Hplain : forall b : bool, is_Some (if b then Some (links, <[owner rr := default [] (addresses !! owner rr) ++ [rr]]> addresses) else Some (links, addresses))) by by intros [].
  destruct rr as [h raw|h raw|h target|h c i e|h]; try apply Hplain. cbn [Header] in *. destruct (links !! CanonicalName (h_Name h)) as [[old ttl]|] eqn:El; [|done].
  destruct (co_link _ _ _ Hok _ _ _ El) as [Hc _]. assert (old = CanonicalName target) as ->.
  { eapply Hf; [by apply cname_mono, Hc|]. exists h, target. split; [|done]. apply in_answer_app. by right. }
  by rewrite String.eqb_refl.
Qed.

Lemma collect_all_total qtype answer : functional answer -> exists st, collect_all CanonicalName qtype answer = Some st /\ collected_ok qtype answer st.
Proof.
  intros Hf. cut (is_Some (collect_all CanonicalName qtype answer)); [intros [st E]; exists st; split; [done|by apply collect_all_ok]|].
  induction answer as [|o answer IH] using rev_ind; [done|]. destruct IH as [st E]; [intros n t t' H1 H2; eapply Hf; by apply cname_mono|].
  pose proof (collect_all_ok _ _ _ E) as Hok. unfold collect_all in *. rewrite fold_left_app, E. cbn. by eapply collect_total.
Qed.

(** ** Chains *)

(** The names from one on: aliases, which have no record of the queried type, and a last
    name that is no alias. *)
Fixpoint path_from (answer : list (option RR)) (qtype : Z) (names : list string) : Prop :=
  match names with
  | [] => False
  | n :: rest =>
    match rest with
    | [] => forall t, ~ cname answer n t
    | n' :: _ => cname answer n n' /\ (forall rr, ~ record_of answer qtype n rr) /\ path_from answer qtype rest
    end
  end.

Section Collected.
Context (qtype : Z) (answer : list (option RR)) (st : collected) (Hok : collected_ok qtype answer st).

Lemma no_records n : default [] (st.2 !! n) = [] <-> forall rr, ~ record_of answer qtype n rr.
Proof.
  split.
  - intros E rr Hr. apply (co_record _ _ _ Hok) in Hr. rewrite E in Hr. by apply elem_of_nil in Hr.
  - intros H. destruct (default [] (st.2 !! n)) as [|rr l] eqn:E; [done|]. destruct (H rr). apply (co_record _ _ _ Hok). rewrite E. by left.
Qed.

Lemma no_link n : st.1 !! n = None <-> forall t, ~ cname answer n t.
Proof.
  split.
  - intros E t Hc. destruct (co_cname _ _ _ Hok _ _ Hc). congruence.
  - intros H. destruct (st.1 !! n) as [[t ttl]|] eqn:E; [|done]. destruct (H t). by eapply (co_link _ _ _ Hok).
Qed.

Lemma follow_spec fuel : forall seen acc name out, follow fuel st seen acc name = Some out <->
  exists rest, out = acc ++ name :: rest /\ path_from answer qtype (name :: rest) /\ length (name :: rest) <= fuel /\ NoDup rest /\ Forall (fun x => x ∉ seen) rest.
Proof.
  induction fuel as [|fuel IH]; intros seen acc name out; cbn [follow].
  { split; [done|]. intros (rest & _ & _ & Hl & _). cbn in Hl. lia. }
  destruct (st.1 !! name) as [[target ttl]|] eqn:El.
  - destruct (co_link _ _ _ Hok _ _ _ El) as [Hc _]. split.
    + destruct (bool_decide_reflect (default [] (st.2 !! name) = [])) as [Ea|]; [|done]. cbn [negb orb]. case_bool_decide as Hs; [done|]. intros H. apply IH in H as (rest & -> & Hp & Hl & Hn & Hf).
      exists (target :: rest). split; [by rewrite <-app_assoc|]. split; [split_and!; [done|exact (proj1 (no_records _) Ea)|done]|]. split; [cbn in *; lia|]. split.
      * constructor; [|done]. intros Hin. rewrite Forall_forall in Hf. specialize (Hf _ Hin). set_solver.
      * constructor; [done|]. eapply Forall_impl; [exact Hf|]. set_solver.
    + intros (rest & -> & Hp & Hl & Hn & Hf). destruct rest as [|n' rest]; [by destruct (Hp target)|]. destruct Hp as (Hc' & Hr & Hp).
      assert (n' = target) as -> by by eapply (collected_functional _ _ _ Hok). rewrite bool_decide_true by by apply no_records. apply Forall_cons in Hf as [Ht Hf]. cbn [negb orb]. rewrite bool_decide_false by done.
      apply IH. exists rest. rewrite <-app_assoc. apply NoDup_cons in Hn as [Hnin Hn]. split; [done|]. split; [done|]. split; [cbn in *; lia|]. split; [done|].
      rewrite Forall_forall in *. intros x Hx. specialize (Hf x Hx). set_solver.
  - split.
    + intros [= <-]. exists []. split; [done|]. split; [exact (proj1 (no_link _) El)|]. split; [cbn; lia|]. by split; constructor.
    + intros (rest & -> & Hp & _). destruct rest as [|n' rest]; [done|]. destruct Hp as (Hc & _). by destruct (proj1 (no_link name) El n').
Qed.

Lemma chain_spec question names : chain st question = Some names <->
  hd_error names = Some question /\ path_from answer qtype names /\ NoDup names /\ length names <= 16.
Proof.
  unfold chain. rewrite follow_spec. split.
  - intros (rest & -> & Hp & Hl & Hn & Hf). cbn [app]. split; [done|]. split; [done|]. split; [|done]. constructor; [|done]. intros Hin. rewrite Forall_forall in Hf. specialize (Hf _ Hin). set_solver.
  - intros (Hh & Hp & Hn & Hl). destruct names as [|n rest]; [done|]. injection Hh as ->. exists rest. apply NoDup_cons in Hn as [Hnin Hn]. split_and!; try done. apply Forall_forall. set_solver.
Qed.

(** ** Times to live *)

Definition bounded (n : string) (ttl : Z) : Prop := forall rr, depends answer qtype n rr -> (ttl <= observedDNSTTL (h_Ttl (Header rr)))%Z.

Lemma terminal_ttl_le rrs rr : rr ∈ rrs -> (terminal_ttl rrs <= observedDNSTTL (h_Ttl (Header rr)))%Z.
Proof.
  unfold terminal_ttl. generalize (2 ^ 31 - 1)%Z. assert (Hle : forall l t, (fold_left (fun ttl rr => Z.min ttl (observedDNSTTL (h_Ttl (Header rr)))) l t <= t)%Z).
  { intros l. induction l as [|x l IH]; intros t; cbn [fold_left]; [lia|]. etrans; [apply IH|lia]. }
  induction rrs as [|x rrs IH]; intros t Hin; [by apply elem_of_nil in Hin|]. cbn [fold_left]. apply elem_of_cons in Hin as [->|Hin]; [|by apply IH]. etrans; [apply Hle|lia].
Qed.

Lemma terminal_bounded n : (forall t, ~ cname answer n t) -> bounded n (terminal_ttl (default [] (st.2 !! n))).
Proof.
  intros Hn rr (t & Hrtc & Hin & Ho & Hk). assert (t = n) as -> by (inversion Hrtc; subst; [done|by edestruct Hn]). apply terminal_ttl_le, (co_record _ _ _ Hok).
  destruct (is_cname rr) eqn:Ec.
  - destruct rr as [| |h target| |]; try done. destruct (Hn (CanonicalName target)). by exists h, target.
  - destruct Hk as [|Hk]; [done|]. by split_and!.
Qed.

Lemma alias_bounded x n t ttl ttl0 : st.1 !! x = Some (t, ttl0) -> cname answer x n -> (forall rr, ~ record_of answer qtype x rr) -> bounded n ttl -> bounded x (Z.min ttl ttl0).
Proof.
  intros El Hc Hr Hb rr (t' & Hrtc & Hin & Ho & Hk). destruct (co_link _ _ _ Hok _ _ _ El) as [Hc' Hm]. inversion Hrtc as [|? y ? Hxy Hyt]; subst.
  - destruct (is_cname rr) eqn:Ec.
    + destruct rr as [| |h target| |]; try done. cbn [Header] in *. specialize (Hm _ _ Hin eq_refl). lia.
    + destruct Hk as [|Hk]; [done|]. destruct (Hr rr). by split_and!.
  - assert (y = n) as -> by by eapply (collected_functional _ _ _ Hok). etrans; [apply Z.le_min_l|]. apply Hb. by exists (owner rr).
Qed.

Lemma path_from_app pre n suf : path_from answer qtype (pre ++ n :: suf) -> path_from answer qtype (n :: suf).
Proof. induction pre as [|x pre IH]; [done|]. cbn [app]. destruct (pre ++ n :: suf) as [|y l] eqn:E; [by destruct pre|]. cbn. intros (_ & _ & H). by apply IH. Qed.

(** ** Observations *)

Definition observed (match_ : string -> list Z) (ips : list Addr) (o : domainObservation) : Prop :=
  o_ips o = ips /\ o_bitmap o = match_ (o_name o) /\ bounded (o_name o) (o_ttl o).

Lemma observations_of_spec at_ ips match_ pre : forall n suf ttl, path_from answer qtype (pre ++ n :: suf) -> bounded n ttl -> forall rest,
  observations_of CanonicalName st.1 answer at_ ips match_ ttl (rev pre) = Some rest -> map o_name rest = rev pre /\ Forall (observed match_ ips) rest.
Proof.
  induction pre as [|x pre IH] using rev_ind; intros n suf ttl Hp Hb rest; [intros [= <-]; by split|]. rewrite rev_app_distr. cbn [rev app observations_of].
  rewrite <-app_assoc in Hp. cbn [app] in Hp. pose proof (path_from_app _ _ _ Hp) as (Hc & Hr & _). destruct (st.1 !! x) as [[t ttl0]|] eqn:El; [|done]. cbn [mbind option_bind].
  destruct (signature_fails _ _ _ _ _); [done|]. pose proof (alias_bounded _ _ _ _ _ El Hc Hr Hb) as Hb'. destruct (observations_of _ _ _ _ _ _ _ _) as [rest'|] eqn:E; [|done]. cbn [mbind option_bind].
  intros [= <-]. destruct (IH _ _ _ Hp Hb' _ E) as [Hn Hf]. split; [cbn; by rewrite Hn|]. by constructor.
Qed.

Lemma observations_of_total at_ ips match_ pre : forall n suf ttl, path_from answer qtype (pre ++ n :: suf) ->
  is_Some (observations_of CanonicalName st.1 answer at_ ips match_ ttl (rev pre)) <-> Forall (fun x => signature_fails CanonicalName answer at_ x TypeCNAME = false) pre.
Proof.
  induction pre as [|x pre IH] using rev_ind; intros n suf ttl Hp; [cbn; split; [by constructor|done]|]. rewrite rev_app_distr. cbn [rev app observations_of]. rewrite Forall_app, Forall_singleton.
  rewrite <-app_assoc in Hp. cbn [app] in Hp. pose proof (path_from_app _ _ _ Hp) as (Hc & Hr & _). destruct (co_cname _ _ _ Hok _ _ Hc) as [ttl0 ->]. cbn [mbind option_bind].
  destruct (signature_fails _ _ _ _ _); [split; [by intros [? ?]|by intros [_ ?]]|]. rewrite <-(IH _ _ (Z.min ttl ttl0) Hp). destruct (observations_of _ _ _ _ _ _ _ _) as [rest'|]; cbn; split; try done; by intros [[? ?] _].
Qed.
End Collected.

(** ** Signatures *)

Definition signed (answer : list (option RR)) (n : string) (rrtype : Z) (s : Z * Z) : Prop :=
  exists h, in_answer answer (RR_RRSIG h rrtype s.1 s.2) /\ CanonicalName (h_Name h) = n.

(** A signed set of records has a signature that is valid at the time. *)
Definition signatures_ok (answer : list (option RR)) (at_ : Time) (n : string) (rrtype : Z) : Prop :=
  forall s, signed answer n rrtype s -> exists s', signed answer n rrtype s' /\ valid_at at_ s' = true.

Lemma covers_Some n rrtype o s : covers CanonicalName n rrtype o = Some s <->
  exists h, o = Some (RR_RRSIG h rrtype s.1 s.2) /\ h_Class h = ClassINET /\ CanonicalName (h_Name h) = n.
Proof.
  split.
  - destruct o as [[| | |h c i e|]|]; try done. cbn [covers]. destruct (Z.eqb_spec (h_Class h) ClassINET) as [Hc|], (String.eqb_spec (CanonicalName (h_Name h)) n) as [Hn|], (Z.eqb_spec c rrtype) as [->|]; try done.
    cbn [negb orb]. intros [= <-]. by exists h.
  - destruct s as [i e]. intros (h & -> & Hc & Hn). cbn [covers fst snd]. by rewrite Hc, Hn, Z.eqb_refl, String.eqb_refl, Z.eqb_refl.
Qed.

Lemma elem_of_signatures answer n rrtype s : s ∈ omap (covers CanonicalName n rrtype) answer <-> signed answer n rrtype s.
Proof.
  rewrite list_elem_of_omap. unfold signed, in_answer. setoid_rewrite covers_Some. split.
  - intros (o & Hin & h & -> & Hc & Hn). exists h. by split_and!.
  - intros (h & [Hin Hc] & Hn). eexists. split; [exact Hin|]. by exists h.
Qed.

Lemma signature_fails_spec answer at_ n rrtype : signature_fails CanonicalName answer at_ n rrtype = false <-> signatures_ok answer at_ n rrtype.
Proof.
  unfold signature_fails, signatures_ok. setoid_rewrite <-elem_of_signatures. set (l := omap _ _). rewrite andb_false_iff, !negb_false_iff, bool_decide_eq_true, existsb_exists. setoid_rewrite <-list_elem_of_In. split.
  - intros [->|H] s Hs; [by apply elem_of_nil in Hs|done].
  - intros H. destruct l as [|s l'] eqn:E; [by left|]. right. destruct (H s) as (s' & H1 & H2); [by left|]. by exists s'.
Qed.

(** ** Accepted answers *)

Record accepted (request response : option Msg) (at_ : Time) (m : Msg) (q : Question) (names : list string) (terminal : string) : Prop := {
  ac_response : response = Some m;
  ac_matches : dnsResponseMatches EqualFold request response = true;
  ac_opcode : Opcode m = OpcodeQuery;
  ac_whole : Truncated m = false;
  ac_success : Rcode m = RcodeSuccess;
  ac_question : Questions m = [q];
  ac_class : q_Class q = ClassINET;
  ac_type : q_Type q = TypeA \/ q_Type q = TypeAAAA;
  ac_functional : functional (Answer m);
  ac_path : path_from (Answer m) (q_Type q) (names ++ [terminal]);
  ac_start : hd_error (names ++ [terminal]) = Some (CanonicalName (q_Name q));
  ac_acyclic : NoDup (names ++ [terminal]);
  ac_short : length (names ++ [terminal]) <= 16;
  ac_address : exists rr ip, record_of (Answer m) (q_Type q) terminal rr /\ record_ip (q_Type q) rr = Some ip;
  ac_signed : signatures_ok (Answer m) at_ terminal (q_Type q);
  ac_aliases_signed : Forall (fun n => signatures_ok (Answer m) at_ n TypeCNAME) names;
}.

Lemma guard_true {A} (b : bool) (x : option A) y : (if b then None else x) = Some y <-> b = false /\ x = Some y.
Proof. destruct b; naive_solver. Qed.

Lemma dns_observations_Some match_ request response at_ obs : dns_observations CanonicalName EqualFold match_ request response at_ = Some obs <->
  exists m q names terminal st rest, accepted request response at_ m q names terminal /\ collect_all CanonicalName (q_Type q) (Answer m) = Some st /\
    let rrs := default [] (st.2 !! terminal) in
    observations_of CanonicalName st.1 (Answer m) at_ (omap (record_ip (q_Type q)) rrs) match_ (terminal_ttl rrs) (rev names) = Some rest /\
    obs = mkObservation terminal (omap (record_ip (q_Type q)) rrs) (match_ terminal) (terminal_ttl rrs) :: rest.
Proof.
  unfold dns_observations. split.
  - destruct response as [m|]; [|done]. cbn [mbind option_bind]. rewrite !guard_true, negb_false_iff, !orb_false_iff, !negb_false_iff, !Z.eqb_eq. intros (Hm & ((Ho & Ht) & Hr) & H).
    destruct (Questions m) as [|q [|]] eqn:Eq; try done. rewrite guard_true, orb_false_iff, negb_false_iff, andb_false_iff, !negb_false_iff, !Z.eqb_eq in H. destruct H as ((Hc & Hty) & H).
    destruct (collect_all _ _ _) as [st|] eqn:Est; [|done]. cbn [mbind option_bind] in H. pose proof (collect_all_ok _ _ _ Est) as Hok. destruct (chain st _) as [all|] eqn:Ech; [|done]. cbn [mbind option_bind] in H.
    apply (chain_spec _ _ _ Hok) in Ech as (Hh & Hp & Hn & Hl). destruct all as [|terminal names _] using rev_ind; [done|]. rewrite last_snoc in H. cbn [mbind option_bind] in H. rewrite rev_app_distr in H. cbn [rev app tail] in H.
    rewrite !guard_true, orb_false_iff, !bool_decide_eq_false in H. destruct H as ((Hrr & Hips) & Hs & H). destruct (observations_of _ _ _ _ _ _ _ _) as [rest|] eqn:E; [|done]. cbn [mbind option_bind] in H. injection H as <-.
    exists m, q, names, terminal, st, rest. split; [|done]. split; try done; [by eapply collected_functional| | |].
    + destruct (omap _ _) as [|ip l] eqn:Eo; [done|]. assert (Hin : ip ∈ ip :: l) by by left. rewrite <-Eo in Hin. apply list_elem_of_omap in Hin as (rr & Hin & Hrec). exists rr, ip. split; [by apply (co_record _ _ _ Hok)|done].
    + by apply signature_fails_spec.
    + assert (Hs' : is_Some (observations_of CanonicalName st.1 (Answer m) at_ (omap (record_ip (q_Type q)) (default [] (st.2 !! terminal))) match_ (terminal_ttl (default [] (st.2 !! terminal))) (rev names))) by by exists rest.
      apply (observations_of_total _ _ _ Hok _ _ _ _ _ _ _ Hp) in Hs'. eapply Forall_impl; [exact Hs'|]. intros x. apply signature_fails_spec.
  - intros (m & q & names & terminal & st & rest & [-> Hm Ho Ht Hr Eq Hc Hty Hf Hp Hh Hn Hl (rr & ip & Hrec & Hip) Hs Hss] & Est & E & ->). cbn [mbind option_bind]. rewrite Hm, Ho, Ht, Hr, Eq, Hc, Est. cbn [negb orb mbind option_bind].
    assert (negb (q_Type q =? TypeA)%Z && negb (q_Type q =? TypeAAAA)%Z = false) as -> by (destruct Hty as [-> | ->]; done). pose proof (collect_all_ok _ _ _ Est) as Hok.
    assert (chain st (CanonicalName (q_Name q)) = Some (names ++ [terminal])) as -> by by apply (chain_spec _ _ _ Hok). cbn [mbind option_bind]. rewrite last_snoc. cbn [mbind option_bind]. rewrite rev_app_distr. cbn [rev app tail].
    apply (co_record _ _ _ Hok) in Hrec. assert (Hin : ip ∈ omap (record_ip (q_Type q)) (default [] (st.2 !! terminal))) by (apply list_elem_of_omap; eauto).
    rewrite !bool_decide_false by (intros Hnil; rewrite Hnil in *; set_solver). apply signature_fails_spec in Hs. rewrite Hs, E. done.
Qed.

(** C13: An answer is observed exactly when it answers the request and its records lead from
    the question, without a conflict or a loop and over at most sixteen names of which
    the aliases have no addresses, to a name with an address of the queried type, and
    every signed set of records on the way has a signature that is valid at delivery. *)
Theorem dns_answer_accepted match_ request response at_ :
  is_Some (dns_observations CanonicalName EqualFold match_ request response at_) <-> exists m q names terminal, accepted request response at_ m q names terminal.
Proof.
  split.
  - intros [obs H]. apply dns_observations_Some in H as (m & q & names & terminal & st & rest & H & _). eauto.
  - intros (m & q & names & terminal & H). destruct (collect_all_total (q_Type q) (Answer m) (ac_functional _ _ _ _ _ _ _ H)) as (st & Est & Hok).
    edestruct (observations_of_total _ _ _ Hok at_) as [_ Htot]; [exact (ac_path _ _ _ _ _ _ _ H)|]. destruct Htot as [rest E].
    { eapply Forall_impl; [exact (ac_aliases_signed _ _ _ _ _ _ _ H)|]. intros x. apply signature_fails_spec. }
    eexists. apply dns_observations_Some. exists m, q, names, terminal, st, rest. done.
Qed.

(** ** The registry *)

Lemma Unmap_idemp ip : Unmap (Unmap ip) = Unmap ip.
Proof. destruct ip as [|b|b]; [done|done|]. cbn [Unmap]. destruct (Is4In6 (AddrV6 b)) eqn:E; [done|]. cbn [Unmap]. by rewrite E. Qed.

Lemma record_ip_Unmap qtype rr ip : record_ip qtype rr = Some ip -> Unmap ip = ip.
Proof. unfold record_ip. destruct (AddrFromSlice _) as [ip0|]; [|done]. cbn. destruct (usable_ip _ _); [|done]. intros [= <-]. apply Unmap_idemp. Qed.

Lemma record_ip_ok qtype rr ip : Forall is_byte (raw_of rr) -> record_ip qtype rr = Some ip -> IsValid ip = true /\ Addr_wf ip.
Proof.
  intros Hb. unfold record_ip. destruct (AddrFromSlice _) as [ip0|] eqn:E; [|done]. cbn. destruct (usable_ip _ _); [|done]. intros [= <-].
  assert (IsValid ip0 = true /\ Addr_wf ip0) as [Hv Hw].
  { unfold AddrFromSlice in E. destruct (Nat.eqb_spec (length (raw_of rr)) 4); [by injection E as <-|]. destruct (Nat.eqb_spec (length (raw_of rr)) 16); [by injection E as <-|done]. }
  destruct (Unmap_canonical ip0 Hv Hw) as (H1 & H2 & _). done.
Qed.

(** What an answer resolves along an accepted path are the addresses of its last name. *)
Lemma path_resolves answer qtype names terminal : functional answer -> path_from answer qtype (names ++ [terminal]) -> forall n ip, n ∈ names ++ [terminal] ->
  resolves answer qtype n ip <-> exists rr, record_of answer qtype terminal rr /\ record_ip qtype rr = Some ip.
Proof.
  intros Hf. induction names as [|x names IH]; intros Hp n ip; cbn [app].
  - rewrite list_elem_of_singleton. intros ->. split; [|intros (rr & ? & ?); by eapply resolves_here]. intros Hr. inversion Hr as [? rr ? Hrec Hip|? t ? Hc]; [by exists rr|by destruct (Hp t)].
  - cbn [app] in Hp. rewrite elem_of_cons. destruct (names ++ [terminal]) as [|y l] eqn:E; [by destruct names|]. destruct Hp as (Hc & Hnr & Hp). intros [->|Hin]; [|by apply IH]. rewrite <-(IH Hp y ip) by by left. split.
    + intros Hr. inversion Hr as [? rr ? Hrec Hip|? t ? Hc' Hr']; [by destruct (Hnr rr)|]. by rewrite (Hf _ _ _ Hc Hc').
    + intros Hr. by eapply resolves_alias.
Qed.

(** The observations of an accepted answer. *)
Lemma observations_accepted match_ request response at_ obs : dns_observations CanonicalName EqualFold match_ request response at_ = Some obs ->
  exists m q names terminal, accepted request response at_ m q names terminal /\ (forall n, n ∈ names ++ [terminal] <-> exists o, o ∈ obs /\ o_name o = n) /\
    forall o, o ∈ obs -> o_bitmap o = match_ (o_name o) /\ bounded (q_Type q) (Answer m) (o_name o) (o_ttl o) /\
      forall ip, ip ∈ o_ips o <-> exists rr, record_of (Answer m) (q_Type q) terminal rr /\ record_ip (q_Type q) rr = Some ip.
Proof.
  intros H. apply dns_observations_Some in H as (m & q & names & terminal & st & rest & H & Est & E & ->). pose proof (collect_all_ok _ _ _ Est) as Hok. set (rrs := default [] (st.2 !! terminal)) in *.
  pose proof (ac_path _ _ _ _ _ _ _ H) as Hp. pose proof (terminal_bounded _ _ _ Hok terminal (path_from_app _ _ _ _ _ Hp)) as Hb.
  destruct (observations_of_spec _ _ _ Hok _ _ _ _ _ _ _ Hp Hb _ E) as [Hn Hf]. set (o0 := mkObservation terminal _ _ _) in *. assert (Hf' : Forall (observed (q_Type q) (Answer m) match_ (omap (record_ip (q_Type q)) rrs)) (o0 :: rest)) by by constructor.
  exists m, q, names, terminal. split; [done|]. split.
  - intros n. assert (Hm : map o_name (o0 :: rest) = rev (names ++ [terminal])) by (rewrite rev_app_distr; cbn; by rewrite Hn).
    rewrite list_elem_of_In, in_rev, <-Hm, in_map_iff. split; intros (o & H1 & H2); exists o; by rewrite ?list_elem_of_In in *.
  - intros o Ho. rewrite Forall_forall in Hf'. destruct (Hf' o Ho) as (Hi & Hbm & Hbd). split; [done|]. split; [done|]. intros ip. rewrite Hi, list_elem_of_omap. unfold rrs. setoid_rewrite (co_record _ _ _ Hok). done.
Qed.

(** Evidence after a list of observations. *)
Lemma ev_observe_fold n0 d ips : forall e n ip t, fold_left (fun e ip => ev_observe n0 (Unmap ip) d e) ips e n ip = Some t ->
  e n ip = Some t \/ n = n0 /\ t = d /\ exists ip0, ip0 ∈ ips /\ ip = Unmap ip0.
Proof.
  induction ips as [|x ips IH]; intros e n ip t; cbn [fold_left]; [by left|]. intros H. destruct (IH _ _ _ _ H) as [He|(-> & -> & ip0 & Hin & ->)]; [|right; split; [done|]; split; [done|]; exists ip0; split; [by right|done]].
  unfold ev_observe in He. case_bool_decide as Hc; [|by left]. destruct Hc as [-> ->]. injection He as <-. destruct (e n0 (Unmap x)) as [t0|]; [|right; split; [done|]; split; [done|]; exists x; split; [by left|done]].
  destruct (Z.max_spec d t0) as [[_ ->]|[_ ->]]; [by left|]. right. split; [done|]. split; [done|]. exists x. split; [by left|done].
Qed.

Lemma observations_fold w at_ now obs : forall e n ip t, fold_left (fun e o => ev_observation w at_ now o e) obs e n ip = Some t ->
  e n ip = Some t \/ exists o ip0, o ∈ obs /\ o_name o = n /\ ip0 ∈ o_ips o /\ ip = Unmap ip0 /\ t = (at_ + Z.max (o_ttl o * time_Second) w)%Z.
Proof.
  induction obs as [|o obs IH]; intros e n ip t; cbn [fold_left]; [by left|]. intros H. destruct (IH _ _ _ _ H) as [He|(o' & ip0 & Hin & Hr)]; [|right; exists o', ip0; split; [by right|done]].
  unfold ev_observation in He. destruct (_ <=? _)%Z; [by left|]. apply ev_observe_fold in He as [He|(-> & -> & ip0 & Hin & ->)]; [by left|]. right. exists o, ip0. split; [by left|done].
Qed.

(** Observed evidence is kept by the observations that follow. *)
Definition at_least (e : Evidence) (n : string) (ip : Addr) (d : Time) : Prop := exists t, e n ip = Some t /\ (d <= t)%Z.

Lemma ev_observe_grows n0 ip0 d0 e n ip d : at_least e n ip d -> at_least (ev_observe n0 ip0 d0 e) n ip d.
Proof. intros (t & E & Hd). unfold at_least, ev_observe. case_bool_decide as Hc; [|eauto]. destruct Hc as [-> ->]. rewrite E. eexists. split; [done|lia]. Qed.

Lemma ev_observe_all n0 d0 ips e n ip d : at_least e n ip d \/ (n = n0 /\ (exists ip0, ip0 ∈ ips /\ ip = Unmap ip0) /\ (d <= d0)%Z) ->
  at_least (fold_left (fun e ip => ev_observe n0 (Unmap ip) d0 e) ips e) n ip d.
Proof.
  revert e. induction ips as [|x ips IH]; intros e H; cbn [fold_left]; [destruct H as [|(_ & (? & Hin & _) & _)]; [done|by apply elem_of_nil in Hin]|]. apply IH. destruct H as [H|(-> & (ip0 & Hin & ->) & Hd)]; [left; by apply ev_observe_grows|].
  apply elem_of_cons in Hin as [->|Hin]; [|right; split; [done|]; split; [by exists ip0|done]]. left. unfold at_least, ev_observe. rewrite bool_decide_true by done. eexists. split; [done|]. destruct (e n0 (Unmap x)); lia.
Qed.

Lemma observations_all w at_ now obs e n ip d : (now < d)%Z ->
  at_least e n ip d \/ (exists o ip0, o ∈ obs /\ o_name o = n /\ ip0 ∈ o_ips o /\ ip = Unmap ip0 /\ (d <= at_ + Z.max (o_ttl o * time_Second) w)%Z) ->
  at_least (fold_left (fun e o => ev_observation w at_ now o e) obs e) n ip d.
Proof.
  intros Hnow. revert e. induction obs as [|o obs IH]; intros e H; cbn [fold_left]; [destruct H as [|(? & ? & Hin & _)]; [done|by apply elem_of_nil in Hin]|]. apply IH. unfold ev_observation.
  destruct H as [H|(o' & ip0 & Hin & Hn & Hip & -> & Hd)].
  - left. destruct (_ <=? _)%Z; [done|]. apply ev_observe_all. by left.
  - apply elem_of_cons in Hin as [->|Hin]; [|right; exists o', ip0; by split_and!]. left. destruct (Z.leb_spec (at_ + Z.max (o_ttl o * time_Second) w) now); [lia|]. apply ev_observe_all. right. eauto.
Qed.

Section Registry.
Context (env : environment) (bits : string -> list Z) (max : nat).
Context (request response : option Msg) (at_ : Time).
Context (wire : forall m rr, response = Some m -> Some rr ∈ Answer m -> Forall is_byte (raw_of rr)).

Local Abbreviation observeAt := (observeDNSRegistryAt CanonicalName EqualFold (update_fails env) (delete_fails env) (batch_applies env) (iteration env) bits request response at_).

Lemma observations_ok_wire obs : dns_observations CanonicalName EqualFold bits request response at_ = Some obs -> Forall (observation_ok bits) obs.
Proof.
  intros H. destruct (observations_accepted _ _ _ _ _ H) as (m & q & names & terminal & Ha & _ & Ho). apply Forall_forall. intros o Hin. destruct (Ho o Hin) as (Hb & _ & Hips). split; [done|].
  apply Forall_forall. intros ip Hip. apply Hips in Hip as (rr & ([Hrr _] & _) & Hr). eapply record_ip_ok, Hr. eapply wire; [by eapply ac_response|done].
Qed.

(** A delivered answer is the observation of its records, or nothing. *)
Lemma observeAt_effect g a m : reachable bits max (g, a, m) ->
  exists g' a' m', observeAt (g, a, m) = Ok (g', a', m') /\ reachable bits max (g', a', m') /\
    (ev_eq (deadline_of g') (deadline_of g) /\ (closed g = true \/ dns_observations CanonicalName EqualFold bits request response at_ = None) \/
     exists obs, dns_observations CanonicalName EqualFold bits request response at_ = Some obs /\
       ev_eq (deadline_of g') (evidence_ (st_observe (window g) at_ obs (st_expire (activityLag g) (st_clock at_ (drained_store g a)))))).
Proof.
  intros R. destruct (reachable_inv _ _ _ R) as (Hb & I & _). unfold observeDNSRegistryAt. destruct (dns_observations _ _ _ _ _ _) as [obs|] eqn:E; [|exists g, a, m; split; [done|]; split; [done|]; left; by split; [|right]].
  pose proof (observations_ok_wire obs E) as Hobs. destruct (closed g) eqn:Hc.
  - exists g, a, m. unfold ObserveDNS. rewrite Hc. split; [done|]. split; [done|]. left. by split; [|left].
  - destruct (observe_spec bits (update_fails env) (delete_fails env) (batch_applies env) (iteration env) Hb obs at_ g a m I Hc Hobs) as ([[g' a'] m'] & Eo & _ & _ & _ & (Hev & _)).
    exists g', a', m'. split; [done|]. split; [by apply (reach_op bits max env (OpObserve obs at_) (g, a, m))|]. right. by exists obs.
Qed.

(** C11: A delivered answer leaves the registry consistent, and every deadline of the
    registry afterwards is one it had, is one that the activity queued before refreshed,
    or comes from an accepted answer: the name is on the path from the question, the answer resolves it to
    the address, and the deadline is the delivery time plus the retention or a time to live
    that no record the name depends on falls short of. *)
Theorem dns_evidence_justified g a m : reachable bits max (g, a, m) ->
  exists g' a' m', observeAt (g, a, m) = Ok (g', a', m') /\ reachable bits max (g', a', m') /\
    forall n ip d, deadline_of g' n ip = Some d ->
      deadline_of g n ip = Some d \/ evidence_ (drained_store g a) n ip = Some d \/
      exists msg q names terminal ttl, accepted request response at_ msg q names terminal /\ n ∈ names ++ [terminal] /\ resolves (Answer msg) (q_Type q) n ip /\
        (forall rr, depends (Answer msg) (q_Type q) n rr -> (ttl <= observedDNSTTL (h_Ttl (Header rr)))%Z) /\ d = (at_ + Z.max (ttl * time_Second) (window g))%Z.
Proof.
  intros R. destruct (observeAt_effect g a m R) as (g' & a' & m' & E & R' & Hev). exists g', a', m'. split; [done|]. split; [done|]. intros n ip d Hd.
  destruct Hev as [[Hev _]|(obs & Eo & Hev)]; rewrite Hev in Hd; [by left|]. right. apply observations_fold in Hd as [Hd|(o & ip0 & Hin & <- & Hip & -> & ->)].
  - left. cbn in Hd. unfold ev_expire in Hd. cbn in Hd. destruct (evidence_ (drained_store g a) n ip) as [t|]; [|done]. cbn in Hd. unfold unexpired in Hd. destruct (_ <=? _)%Z; congruence.
  - right. destruct (observations_accepted _ _ _ _ _ Eo) as (msg & q & names & terminal & Ha & Hnames & Ho). destruct (Ho o Hin) as (_ & Hb & Hips). exists msg, q, names, terminal, (o_ttl o).
    assert (Hn : o_name o ∈ names ++ [terminal]) by (apply Hnames; eauto). split; [done|]. split; [done|]. split; [|done].
    destruct (proj1 (Hips _) Hip) as (rr & Hrec & Hr). rewrite (record_ip_Unmap _ _ _ Hr). apply (path_resolves _ _ _ _ (ac_functional _ _ _ _ _ _ _ Ha) (ac_path _ _ _ _ _ _ _ Ha)); eauto.
Qed.

Lemma accepted_unique m q names terminal m' q' names' terminal' : accepted request response at_ m q names terminal -> accepted request response at_ m' q' names' terminal' ->
  m' = m /\ q' = q.
Proof.
  intros H H'. pose proof (ac_response _ _ _ _ _ _ _ H) as E. pose proof (ac_response _ _ _ _ _ _ _ H') as E'. rewrite E in E'. injection E' as <-. split; [done|].
  pose proof (ac_question _ _ _ _ _ _ _ H) as Eq. pose proof (ac_question _ _ _ _ _ _ _ H') as Eq'. congruence.
Qed.

Lemma path_unique answer qtype l : forall l' n, functional answer -> path_from answer qtype l -> path_from answer qtype l' -> hd_error l = Some n -> hd_error l' = Some n -> l' = l.
Proof.
  induction l as [|x l IH]; intros l' n Hf Hp Hp'; [done|]. intros [= ->]. destruct l' as [|x' l']; [done|]. intros [= ->]. f_equal. cbn [path_from] in Hp, Hp'. destruct l as [|y l], l' as [|y' l']; [done| | |].
  - destruct Hp' as [Hc _]. by destruct (Hp y').
  - destruct Hp as [Hc _]. by destruct (Hp' y).
  - destruct Hp as (Hc & _ & Hp), Hp' as (Hc' & _ & Hp'). rewrite (Hf _ _ _ Hc' Hc) in *. by apply (IH _ y).
Qed.

(** C12: An accepted answer delivered to an open registry becomes evidence for every name on
    its path and every address it resolves to, kept at least for the retention, provided the
    answer is not itself older than the retention when it is delivered. *)
Theorem dns_evidence_recorded g a m msg q names terminal n ip : reachable bits max (g, a, m) -> closed g = false -> accepted request response at_ msg q names terminal ->
  n ∈ names ++ [terminal] -> resolves (Answer msg) (q_Type q) n ip -> (Z.max at_ (now_ (drained_store g a)) < at_ + window g)%Z ->
  exists g' a' m' d, observeAt (g, a, m) = Ok (g', a', m') /\ deadline_of g' n ip = Some d /\ (at_ + window g <= d)%Z.
Proof.
  intros R Hc Ha Hn Hr Hnow. destruct (observeAt_effect g a m R) as (g' & a' & m' & E & _ & Hev). exists g', a', m'.
  destruct Hev as [[_ [Hcl|Hnone]]|(obs & Eo & Hev)]; [congruence| |].
  - exfalso. destruct (collect_all_total (q_Type q) (Answer msg) (ac_functional _ _ _ _ _ _ _ Ha)) as (st & Est & Hok). edestruct (observations_of_total _ _ _ Hok at_) as [_ Htot]; [exact (ac_path _ _ _ _ _ _ _ Ha)|].
    destruct Htot as [rest Er]; [eapply Forall_impl; [exact (ac_aliases_signed _ _ _ _ _ _ _ Ha)|]; intros x; apply signature_fails_spec|].
    assert (Hs : exists obs, dns_observations CanonicalName EqualFold bits request response at_ = Some obs) by (eexists; apply dns_observations_Some; exists msg, q, names, terminal, st, rest; done). destruct Hs. congruence.
  - destruct (observations_accepted _ _ _ _ _ Eo) as (msg' & q' & names' & terminal' & Ha' & Hnames & Ho). destruct (accepted_unique _ _ _ _ _ _ _ _ Ha Ha') as [-> ->].
    pose proof (path_unique _ _ _ _ _ (ac_functional _ _ _ _ _ _ _ Ha) (ac_path _ _ _ _ _ _ _ Ha) (ac_path _ _ _ _ _ _ _ Ha') (ac_start _ _ _ _ _ _ _ Ha) (ac_start _ _ _ _ _ _ _ Ha')) as Ep.
    apply app_inj_tail in Ep as [-> ->]. destruct (proj1 (Hnames n) Hn) as (o & Hin & <-). destruct (Ho o Hin) as (_ & _ & Hips).
    apply (path_resolves _ _ _ _ (ac_functional _ _ _ _ _ _ _ Ha) (ac_path _ _ _ _ _ _ _ Ha)) in Hr as (rr & Hrec & Hip); [|done].
    destruct (observations_all (window g) at_ (Z.max at_ (now_ (drained_store g a))) obs (evidence_ (st_expire (activityLag g) (st_clock at_ (drained_store g a)))) (o_name o) ip (at_ + window g)%Z) as (d & Ed & Hd); [done| |].
    + right. exists o, ip. split; [done|]. split; [done|]. split; [apply Hips; eauto|]. split; [by rewrite (record_ip_Unmap _ _ _ Hip)|lia].
    + exists d. split; [done|]. by rewrite Hev.
Qed.
End Registry.
End Correct.

(** ** An example *)

Module Answered.
Definition header (n : string) (t ttl : Z) : RR_Header := mkHeader n t ClassINET ttl.
Definition question : Question := mkQuestion "www.a."%string TypeA ClassINET.
Definition request : option Msg := Some (mkMsg 9 false OpcodeQuery false RcodeSuccess [question] []).
Definition message : Msg :=
  mkMsg 9 true OpcodeQuery false RcodeSuccess [question] [Some (RR_A (header "a." TypeA 60) [192; 0; 2; 9]%Z); None; Some (RR_CNAME (header "www.a." TypeCNAME 30) "a."%string)].
Definition response : option Msg := Some message.
Definition ip : Addr := AddrV4 [192; 0; 2; 9]%Z.
Definition at_ : Time := (2000 * time_Second)%Z.
Definition bits := Demo.bits.

Lemma wire m rr : response = Some m -> Some rr ∈ Answer m -> Forall is_byte (raw_of rr).
Proof.
  intros [= <-]. cbn [Answer message]. rewrite !elem_of_cons, elem_of_nil. intros [[= ->]|[?|[[= ->]|[]]]]; [|done|by constructor]. cbn. repeat constructor; done.
Qed.

Lemma answer_accepted : accepted id String.eqb request response at_ message question ["www.a."%string] "a."%string.
Proof.
  assert (Hfix : is_Some (dns_observations id String.eqb bits request response at_)) by by vm_compute; eexists. destruct Hfix as [obs H]. apply dns_observations_Some in H as (m & q & names & terminal & st & rest & Ha & _).
  pose proof (ac_response _ _ _ _ _ _ _ _ _ Ha) as [= <-]. pose proof (ac_question _ _ _ _ _ _ _ _ _ Ha) as [= <-].
  assert (Hc : cname id (Answer message) "www.a." "a.") by (exists (header "www.a." TypeCNAME 30), "a."%string; split; [split; [set_solver|done]|done]).
  assert (Hn : forall t, ~ cname id (Answer message) "a." t).
  { intros t (h & target & [Hin _] & Hh & _). cbn [Answer message] in Hin. rewrite !elem_of_cons, elem_of_nil in Hin. destruct Hin as [?|[?|[[= -> ->]|[]]]]; done. }
  assert (Hr : forall rr, ~ record_of id (Answer message) (q_Type question) "www.a." rr).
  { intros rr ([Hin _] & Hcn & Hh & _). cbn [Answer message] in Hin. rewrite !elem_of_cons, elem_of_nil in Hin. destruct Hin as [[= ->]|[?|[[= ->]|[]]]]; done. }
  assert (Ep : names ++ [terminal] = ["www.a."%string] ++ ["a."%string]).
  { eapply (path_unique id); [apply Ha| |apply Ha|done|apply Ha]. by split. }
  apply app_inj_tail in Ep as [-> ->]. exact Ha.
Qed.
End Answered.

Lemma dns_evidence_justified_witness :
  exists g' a' m', observeDNSRegistryAt id String.eqb (update_fails (Demo.env false)) (delete_fails (Demo.env false)) (batch_applies (Demo.env false)) (iteration (Demo.env false))
      Answered.bits Answered.request Answered.response Answered.at_ (Demo.g, Demo.a, Demo.m) = Ok (g', a', m') /\ reachable Answered.bits 1 (g', a', m').
Proof.
  destruct (dns_evidence_justified id String.eqb (Demo.env false) Answered.bits 1 Answered.request Answered.response Answered.at_ Answered.wire Demo.g Demo.a Demo.m Demo.g_reachable)
    as (g' & a' & m' & E & R & _).
  exists g', a', m'. split; [exact E|exact R].
Defined.

Lemma dns_evidence_recorded_witness :
  exists g' a' m' d, observeDNSRegistryAt id String.eqb (update_fails (Demo.env false)) (delete_fails (Demo.env false)) (batch_applies (Demo.env false)) (iteration (Demo.env false))
      Answered.bits Answered.request Answered.response Answered.at_ (Demo.g, Demo.a, Demo.m) = Ok (g', a', m') /\
    deadline_of g' "www.a." Answered.ip = Some d /\ (Answered.at_ + window Demo.g <= d)%Z.
Proof.
  apply (dns_evidence_recorded id String.eqb (Demo.env false) Answered.bits 1 Answered.request Answered.response Answered.at_ Answered.wire Demo.g Demo.a Demo.m Answered.message Answered.question
    ["www.a."%string] "a."%string "www.a."%string Answered.ip Demo.g_reachable).
  - vm_compute. reflexivity.
  - exact Answered.answer_accepted.
  - left.
  - apply (resolves_alias _ _ _ _ "a."%string).
    + exists (Answered.header "www.a." TypeCNAME 30), "a."%string. split; [split; [right; right; left|reflexivity]|split; reflexivity].
    + eapply resolves_here; [split; [split; [left|reflexivity]|split; [reflexivity|split; reflexivity]]|reflexivity].
  - vm_compute. reflexivity.
Defined.

(** ** Unspecified addresses *)

(** The observer rejects the unspecified addresses, except in one form: [IsUnspecified] is
    tested before the address is unmapped, so a record that carries 0.0.0.0 in sixteen bytes
    is recorded, and [Restore] refuses a file that has it. *)
Theorem unspecified_recorded qtype rr ip : record_ip qtype rr = Some ip -> IsUnspecified ip = true <-> raw_of rr = v4_mapped ++ [0; 0; 0; 0]%Z.
Proof.
  unfold record_ip. destruct (AddrFromSlice (raw_of rr)) as [ip0|] eqn:E; [|done]. cbn [mbind option_bind]. destruct (usable_ip qtype ip0) eqn:Eu; [|done]. intros [= <-]. unfold usable_ip in Eu. apply andb_true_iff in Eu as [Eu%negb_true_iff _].
  unfold AddrFromSlice in E. destruct (Nat.eqb_spec (length (raw_of rr)) 4) as [H4|_]; [|destruct (Nat.eqb_spec (length (raw_of rr)) 16) as [H16|]; [|done]]; injection E as <-.
  - cbn [Unmap]. split; [congruence|]. intros Hr. by rewrite Hr in H4.
  - unfold Unmap. destruct (Is4In6 (AddrV6 (raw_of rr))) eqn:Em; cbn [Is4In6] in Em.
    + apply bool_decide_eq_true in Em. rewrite <-(take_drop 12 (raw_of rr)) at 2. rewrite Em. unfold IsUnspecified. rewrite orb_true_iff, !bool_decide_eq_true. cbn [replicate]. split; [intros [[= ->]|?]; done|]. intros H%app_inv_head. left. by rewrite H.
    + split; [congruence|]. intros Hr. rewrite Hr in Em. apply bool_decide_eq_false in Em. by destruct Em.
Qed.

Example unspecified_recorded_mapped h : record_ip TypeA (RR_A h (v4_mapped ++ [0; 0; 0; 0]%Z)) = Some (AddrV4 [0; 0; 0; 0]%Z).
Proof. reflexivity. Qed.
