(* ===== verification/Sniff.v ===== *)
(** * Sniffing names from streams (component/sniffing)

    The server name of a TLS ClientHello (tls.go), which TLS records may split, the host
    of an HTTP request (http.go) and the normal form of a name (sniffing.go). *)

From S2P Require Import Prelude Netip GoStrings NetipString Trie DomainMatcher.

(** ** Results *)

Definition ErrNotApplicable : string := "sniffing error: not applicable".
Definition ErrNeedMore : string := "sniffing error: need more".
Definition ErrNotFound : string := "sniffing error: not found".

(** [s[lo:hi]]. *)
Definition slice (s : bytes) (lo hi : nat) : res bytes :=
  if (lo <=? hi) && (hi <=? length s) then Ok (take (hi - lo) (drop lo s)) else Panic.

Definition Uint16 (a b : Z) : Z := (a * 256 + b)%Z.

(** ** Readers of golang.org/x/crypto/cryptobyte

    A read decodes from the front of a string and returns the rest; it fails where the
    string is too short. *)
Class Cryptobyte := {
  ReadUint8 : bytes -> option (Z * bytes);
  ReadUint16 : bytes -> option (Z * bytes);
  ReadUint8LengthPrefixed : bytes -> option (bytes * bytes);
  ReadUint16LengthPrefixed : bytes -> option (bytes * bytes);
  ReadUint24LengthPrefixed : bytes -> option (bytes * bytes);
  Skip : bytes -> nat -> option bytes;
}.

(** The first [n] bytes. *)
Definition read_bytes (n : nat) (s : bytes) : option (bytes * bytes) := if n <=? length s then Some (take n s, drop n s) else None.

(** A big-endian integer. *)
Definition big_endian (s : bytes) : Z := fold_left (fun v b => v * 256 + b)%Z s 0%Z.

Definition read_prefixed (n : nat) (s : bytes) : option (bytes * bytes) := '(l, s) ← read_bytes n s; read_bytes (Z.to_nat (big_endian l)) s.

Class CryptobyteLaws `{Cryptobyte} : Prop := {
  read_uint8 : forall s, ReadUint8 s = ('(v, s) ← read_bytes 1 s; Some (big_endian v, s));
  read_uint16 : forall s, ReadUint16 s = ('(v, s) ← read_bytes 2 s; Some (big_endian v, s));
  read_prefixed8 : forall s, ReadUint8LengthPrefixed s = read_prefixed 1 s;
  read_prefixed16 : forall s, ReadUint16LengthPrefixed s = read_prefixed 2 s;
  read_prefixed24 : forall s, ReadUint24LengthPrefixed s = read_prefixed 3 s;
  skip : forall s n, Skip s n = snd <$> read_bytes n s;
}.

(** ** TLS (tls.go) *)

Definition ContentType_HandShake : Z := 22.
Definition HandShakeType_Hello : Z := 1.
Definition TlsExtension_ServerName : Z := 0.
Definition TlsExtension_ServerNameType_HostName : Z := 0.
Definition streamSniffingMaxBytes : nat := 64 * 1024.

Section Tls.
Context `{Cryptobyte}.

Definition not_applicable {A} (o : option A) : res A := match o with Some a => Ok a | None => Err ErrNotApplicable end.

Definition clientHelloExtensions (hello : bytes) : res bytes :=
  '(kind, input) ← not_applicable (ReadUint8 hello);
  if negb (kind =? HandShakeType_Hello)%Z then Err ErrNotApplicable
  else
    '(body, input) ← not_applicable (ReadUint24LengthPrefixed input);
    if negb (is_empty input) then Err ErrNotApplicable
    else
      '(version, body) ← not_applicable (ReadUint16 body);
      if negb (version =? 771)%Z then Err ErrNotApplicable
      else
        body ← not_applicable (Skip body 32);
        '(_, body) ← not_applicable (ReadUint8LengthPrefixed body);
        '(_, body) ← not_applicable (ReadUint16LengthPrefixed body);
        '(_, body) ← not_applicable (ReadUint8LengthPrefixed body);
        '(extensions, body) ← not_applicable (ReadUint16LengthPrefixed body);
        if negb (is_empty body) then Err ErrNotApplicable else Ok extensions.

(** The loops take as fuel the length of what they read. *)
Fixpoint find_extension (fuel : nat) (input : bytes) (want : Z) : res bytes :=
  match input, fuel with
  | [], _ => Err ErrNotFound
  | _, 0 => Panic
  | _, S fuel =>
    '(kind, input) ← not_applicable (ReadUint16 input);
    '(data, input) ← not_applicable (ReadUint16LengthPrefixed input);
    if (kind =? want)%Z then Ok data else find_extension fuel input want
  end.
Definition findTLSExtension (extensions : bytes) (want : Z) : res bytes := find_extension (length extensions) extensions want.

Fixpoint find_name (fuel : nat) (names : bytes) : res bytes :=
  match names, fuel with
  | [], _ => Err ErrNotFound
  | _, 0 => Panic
  | _, S fuel =>
    '(kind, names) ← not_applicable (ReadUint8 names);
    '(name, names) ← not_applicable (ReadUint16LengthPrefixed names);
    if is_empty name then Err ErrNotApplicable
    else if (kind =? TlsExtension_ServerNameType_HostName)%Z then Ok (TrimSuffix name (str "."))
    else find_name fuel names
  end.

Definition findSniExtension (extensions : bytes) : res bytes :=
  data ← findTLSExtension extensions TlsExtension_ServerName;
  '(names, data) ← not_applicable (ReadUint16LengthPrefixed data);
  if negb (is_empty data) || is_empty names then Err ErrNotApplicable else find_name (length names) names.

Definition bad_record (records : bytes) : bool :=
  match records !! 0 with Some c => negb (c =? ContentType_HandShake)%Z | None => false end ||
  match records !! 1 with Some c => negb (c =? 3)%Z | None => false end ||
  match records !! 2 with Some c => (c <? 1)%Z || (3 <? c)%Z | None => false end.

(** The handshake joined so far is nil before the first record. The result comes with the
    new value of [tcpTLS], where it is assigned. *)
Fixpoint sniff_records (fuel : nat) (records : bytes) (hello : option bytes) : res bytes * option bool :=
  match fuel with
  | 0 => (Panic, None)
  | S fuel =>
    if bad_record records then (Err ErrNotApplicable, None)
    else if length records <? 5 then (Err ErrNeedMore, None)
    else
      let length_ := Z.to_nat (Uint16 (records !!! 3%nat) (records !!! 4%nat)) in
      if length records <? 5 + length_ then (Err ErrNeedMore, None)
      else
        match slice records 5 (5 + length_), slice records (5 + length_) (length records) with
        | Ok payload, Ok records =>
          let hello := match hello with None => payload | Some hello => hello ++ payload end in
          if length hello <? 4 then sniff_records fuel records (Some hello)
          else
            let size := 4 + Z.to_nat (Z.shiftl (hello !!! 1%nat) 16 + Z.shiftl (hello !!! 2%nat) 8 + hello !!! 3%nat) in
            if negb (hello !!! 0%nat =? HandShakeType_Hello)%Z || (streamSniffingMaxBytes <? size) then (Err ErrNotApplicable, None)
            else if size <=? length hello then
              match slice hello 0 size with
              | Ok hello =>
                match clientHelloExtensions hello with
                | Ok extensions =>
                  let d := findSniExtension extensions in
                  (d, Some (match d with Ok _ => true | Err e => String.eqb e ErrNotFound | Panic => false end))
                | Err e => (Err e, None)
                | Panic => (Panic, None)
                end
              | _ => (Panic, None)
              end
            else sniff_records fuel records (Some hello)
        | _, _ => (Panic, None)
        end
  end.

Definition sniffTls (buf : bytes) : res bytes * option bool := sniff_records (S (length buf)) buf None.
End Tls.

(** ** HTTP (http.go) *)

(** [bytes.Cut] at CR LF. *)
Fixpoint CutLine (s : bytes) : option (bytes * bytes) :=
  match s with
  | [] => None
  | c :: s' =>
    match s' with
    | d :: rest => if (c =? 13)%Z && (d =? 10)%Z then Some ([], rest) else '(a, b) ← CutLine s'; Some (c :: a, b)
    | [] => None
    end
  end.

Definition isValidHTTPMethod (method : bytes) : bool :=
  existsb (fun m => bool_decide (method = str m))
    ["GET"; "POST"; "PUT"; "PATCH"; "DELETE"; "COPY"; "HEAD"; "OPTIONS"; "LINK"; "UNLINK"; "PURGE"; "LOCK"; "UNLOCK"; "PROPFIND"; "CONNECT"; "TRACE"]%string.

(** [strings.EqualFold] with "host"; the long s, U+017F, folds to s. *)
Definition is_host (key : bytes) : bool :=
  let key := map lower_byte key in bool_decide (key = str "host") || bool_decide (key = str "ho" ++ [197; 191]%Z ++ str "t").

Fixpoint find_host (fuel : nat) (remaining : bytes) : res bytes :=
  match fuel with
  | 0 => Panic
  | S fuel =>
    match CutLine remaining with
    | None => Err ErrNeedMore
    | Some ([], _) => Err ErrNotFound
    | Some (line, rest) =>
      match Cut line 58 with
      | None => find_host fuel rest
      | Some (key, value) => if is_host key then Ok value else find_host fuel rest
      end
    end
  end.

Definition SniffHttp (buf : bytes) : res bytes :=
  match buf with
  | [] => Err ErrNotApplicable
  | _ =>
    let search := take 12 buf in
    match Cut search 32 with
    | None =>
      if existsb (fun c => (c <? 65)%Z || (90 <? c)%Z) search then Err ErrNotApplicable
      else if length search =? 12 then Err ErrNotApplicable
      else Err ErrNeedMore
    | Some (method, _) => if isValidHTTPMethod method then find_host (S (length buf)) buf else Err ErrNotApplicable
    end
  end.

(** ** Names (sniffing.go) *)

Section Normalize.
(** Lower case and white space of text that is not ASCII. *)
Context (unicode_ToLower unicode_TrimSpace unicode_TrimRightSpace : bytes -> bytes).

Definition asciiSpace (c : Z) : bool := in_range 9 13 c || (c =? 32)%Z.

(** [strings.TrimSpace]. *)
Fixpoint trim_right (rs : bytes) : bytes :=
  match rs with
  | [] => []
  | c :: rs' => if (128 <=? c)%Z then unicode_TrimRightSpace (rev rs) else if asciiSpace c then trim_right rs' else rev rs
  end.
Fixpoint TrimSpace (s : bytes) : bytes :=
  match s with
  | [] => []
  | c :: s' => if (128 <=? c)%Z then unicode_TrimSpace s else if asciiSpace c then TrimSpace s' else trim_right (rev s)
  end.

Definition NormalizeDomain (host : bytes) : bytes :=
  let host := Slimtrie.ToLower unicode_ToLower (TrimSpace host) in
  if bool_decide (str "]" `suffix_of` host) then Trim host (str "[]")
  else match SplitHostPort host with
       | Some (domain, _) => domain
       | None => TrimSuffix host (str ".")
       end.

(** The first sniffer that the data is for decides. *)
Fixpoint sniffGroup (sniffs : list (res bytes)) : res bytes :=
  match sniffs with
  | [] => Err ErrNotApplicable
  | Ok d :: _ => Ok (NormalizeDomain d)
  | Err e :: sniffs => if negb (String.eqb e ErrNotApplicable) then Err e else sniffGroup sniffs
  | Panic :: _ => Panic
  end.
End Normalize.
