(* ===== verification/SniffCorrect.v ===== *)
(** * Correctness of the stream sniffers

    The TLS sniffer finds exactly the server name that a ClientHello carries, however
    records split it; a conclusive result does not change when more bytes arrive; no input
    makes a sniffer panic. *)

From S2P Require Import Prelude Netip GoStrings NetipString Trie DomainMatcher Sniff.

(** ** Big-endian integers *)

Fixpoint be (n : nat) (v : Z) : bytes := match n with 0 => [] | S n => be n (v / 256) ++ [(v mod 256)%Z] end.

Lemma length_be n : forall v, length (be n v) = n.
Proof. induction n as [|n IH]; intros v; [done|]. cbn [be]. rewrite length_app, IH. cbn. lia. Qed.

Lemma be_bytes n : forall v, Forall is_byte (be n v).
Proof. induction n as [|n IH]; intros v; cbn [be]; [constructor|]. apply Forall_app. split; [apply IH|]. constructor; [|constructor]. unfold is_byte, fits. cbn. apply Z.mod_pos_bound. lia. Qed.

Lemma big_endian_snoc s b : big_endian (s ++ [b]) = (big_endian s * 256 + b)%Z.
Proof. unfold big_endian. by rewrite fold_left_app. Qed.

Lemma big_endian_be n : forall v, (0 <= v < 256 ^ Z.of_nat n)%Z -> big_endian (be n v) = v.
Proof.
  induction n as [|n IH]; intros v Hv; [cbn in *; lia|]. cbn [be]. rewrite big_endian_snoc, IH; [symmetry; rewrite Z.mul_comm; apply Z.div_mod; lia|].
  rewrite Nat2Z.inj_succ, Z.pow_succ_r in Hv by lia. split; [apply Z.div_pos; lia|]. apply Z.div_lt_upper_bound; lia.
Qed.

Lemma be_big_endian s : Forall is_byte s -> be (length s) (big_endian s) = s /\ (0 <= big_endian s < 256 ^ Z.of_nat (length s))%Z.
Proof.
  induction s as [|b s IH] using rev_ind; intros H; [cbn; split; [done|lia]|]. apply Forall_app in H as [Hs Hb]. rewrite Forall_singleton in Hb. destruct (IH Hs) as [E B].
  assert (Hb' : (0 <= b < 256)%Z) by exact Hb.
  rewrite big_endian_snoc, length_app, Nat.add_1_r. cbn [be]. rewrite Z.div_add_l by lia. rewrite (Z.div_small b) by lia. rewrite Z.add_0_r, E. split.
  - by rewrite Z.add_comm, Z.mod_add, Z.mod_small by lia.
  - rewrite Nat2Z.inj_succ, Z.pow_succ_r by lia. lia.
Qed.

Lemma big_endian_nonneg s : Forall is_byte s -> (0 <= big_endian s)%Z.
Proof. intros H. apply be_big_endian in H. lia. Qed.

(** Bytes behind their length. *)
Definition prefixed (n : nat) (s : bytes) : bytes := be n (Z.of_nat (length s)) ++ s.
Definition short (n : nat) (s : bytes) : Prop := (Z.of_nat (length s) < 256 ^ Z.of_nat n)%Z.

Lemma read_bytes_app n a t : length a = n -> read_bytes n (a ++ t) = Some (a, t).
Proof. intros <-. unfold read_bytes. rewrite length_app. destruct (Nat.leb_spec (length a) (length a + length t)); [|lia]. by rewrite take_app_length, drop_app_length. Qed.

Lemma read_bytes_Some n s a t : read_bytes n s = Some (a, t) <-> s = a ++ t /\ length a = n.
Proof.
  split; [|intros [-> H]; by apply read_bytes_app]. unfold read_bytes. destruct (Nat.leb_spec n (length s)); [|done]. intros [= <- <-]. split; [by rewrite take_drop|]. rewrite length_take. lia.
Qed.

Lemma read_prefixed_app n a t : short n a -> read_prefixed n (prefixed n a ++ t) = Some (a, t).
Proof.
  intros H. unfold read_prefixed, prefixed, short in *. rewrite <-app_assoc, read_bytes_app by apply length_be. cbn [mbind option_bind]. rewrite big_endian_be by lia. apply read_bytes_app. lia.
Qed.

Lemma read_prefixed_Some n s a t : Forall is_byte s -> read_prefixed n s = Some (a, t) <-> s = prefixed n a ++ t /\ short n a.
Proof.
  intros Hb. split; [|intros [-> H]; by apply read_prefixed_app]. unfold read_prefixed. destruct (read_bytes n s) as [[l s']|] eqn:E; [|done]. cbn [mbind option_bind]. intros E'.
  apply read_bytes_Some in E as [-> Hl], E' as [-> Ha]. apply Forall_app in Hb as [Hbl _]. destruct (be_big_endian l Hbl) as [El Bl]. unfold prefixed, short. rewrite Ha, Z2Nat.id by lia. subst n. rewrite El. split; [by rewrite <-app_assoc|lia].
Qed.

Lemma prefixed_bytes n s : Forall is_byte s -> Forall is_byte (prefixed n s).
Proof. intros H. apply Forall_app. split; [apply be_bytes|done]. Qed.

(** ** Server names *)

(** An entry of a list of extensions or of names. *)
Definition entry (n : nat) (kind : Z) (data : bytes) : bytes := be n kind ++ prefixed 2 data.

Inductive skips (n : nat) (want : Z) (ok : bytes -> Prop) : bytes -> Prop :=
| skips_nil : skips n want ok []
| skips_cons kind data rest : (0 <= kind < 256 ^ Z.of_nat n)%Z -> kind <> want -> short 2 data -> ok data -> skips n want ok rest -> skips n want ok (entry n kind data ++ rest).

(** [data] belongs to the first entry of the kind. *)
Definition first_entry (n : nat) (want : Z) (ok : bytes -> Prop) (all data : bytes) : Prop :=
  exists before after, all = before ++ entry n want data ++ after /\ skips n want ok before /\ short 2 data /\ ok data.

Lemma first_entry_cons n want ok kind data all d : (0 <= kind < 256 ^ Z.of_nat n)%Z -> kind <> want -> short 2 data -> ok data ->
  first_entry n want ok all d -> first_entry n want ok (entry n kind data ++ all) d.
Proof. intros H1 H2 H3 H4 (before & after & -> & Hs & H). exists (entry n kind data ++ before), after. split; [by rewrite <-app_assoc|]. split; [by apply skips_cons|done]. Qed.

(** The name that a list of extensions carries. *)
Definition server_name (extensions d : bytes) : Prop :=
  exists names name, first_entry 2 TlsExtension_ServerName (fun _ => True) extensions (prefixed 2 names) /\ short 2 names /\
    first_entry 1 TlsExtension_ServerNameType_HostName (fun s => s <> []) names name /\ d = TrimSuffix name (str ".").

(** A ClientHello with given extensions. *)
Definition client_hello (hello extensions : bytes) : Prop :=
  exists random session ciphers compression, length random = 32 /\ short 1 session /\ short 2 ciphers /\ short 1 compression /\ short 2 extensions /\
    let body := [3; 3]%Z ++ random ++ prefixed 1 session ++ prefixed 2 ciphers ++ prefixed 1 compression ++ prefixed 2 extensions in
    short 3 body /\ hello = HandShakeType_Hello :: prefixed 3 body.

Section Laws.
Context `{CryptobyteLaws}.

Lemma ReadUint16_app kind s : (0 <= kind < 256 ^ 2)%Z -> ReadUint16 (be 2 kind ++ s) = Some (kind, s).
Proof. intros Hk. rewrite read_uint16, read_bytes_app by apply length_be. cbn [mbind option_bind]. by rewrite big_endian_be. Qed.
Lemma ReadUint8_app kind s : (0 <= kind < 256 ^ 1)%Z -> ReadUint8 (be 1 kind ++ s) = Some (kind, s).
Proof. intros Hk. rewrite read_uint8, read_bytes_app by apply length_be. cbn [mbind option_bind]. by rewrite big_endian_be. Qed.

Lemma ReadUint16_Some s kind t : Forall is_byte s -> ReadUint16 s = Some (kind, t) <-> s = be 2 kind ++ t /\ (0 <= kind < 256 ^ 2)%Z.
Proof.
  intros Hb. split; [|intros [-> Hk]; by apply ReadUint16_app]. rewrite read_uint16. destruct (read_bytes 2 s) as [[v s']|] eqn:E; [|done]. cbn [mbind option_bind]. intros [= <- <-].
  apply read_bytes_Some in E as [-> Hl]. apply Forall_app in Hb as [Hv _]. destruct (be_big_endian v Hv) as [Ev Bv]. rewrite Hl in Ev, Bv. by rewrite Ev.
Qed.
Lemma ReadUint8_Some s kind t : Forall is_byte s -> ReadUint8 s = Some (kind, t) <-> s = be 1 kind ++ t /\ (0 <= kind < 256 ^ 1)%Z.
Proof.
  intros Hb. split; [|intros [-> Hk]; by apply ReadUint8_app]. rewrite read_uint8. destruct (read_bytes 1 s) as [[v s']|] eqn:E; [|done]. cbn [mbind option_bind]. intros [= <- <-].
  apply read_bytes_Some in E as [-> Hl]. apply Forall_app in Hb as [Hv _]. destruct (be_big_endian v Hv) as [Ev Bv]. rewrite Hl in Ev, Bv. by rewrite Ev.
Qed.

Lemma not_applicable_Ok {A B} (o : option A) (f : A -> res B) b : (x ← not_applicable o; f x) = Ok b <-> exists x, o = Some x /\ f x = Ok b.
Proof. destruct o as [x|]; cbn; [|split; [done|by intros (? & ? & _)]]. split; [by exists x|by intros (? & [= <-] & E)]. Qed.

Lemma not_applicable_err {A B} (o : option A) (f : A -> res B) : (forall x, o = Some x -> f x <> Panic) -> (x ← not_applicable o; f x) <> Panic.
Proof. destruct o as [x|]; cbn; [auto|done]. Qed.

Lemma length_entry n kind data : length (entry n kind data) = n + 2 + length data.
Proof. unfold entry, prefixed. rewrite !length_app, !length_be. lia. Qed.

Lemma find_extension_step fuel kind data rest want : (0 <= kind < 256 ^ 2)%Z -> short 2 data ->
  find_extension (S fuel) (entry 2 kind data ++ rest) want = if (kind =? want)%Z then Ok data else find_extension fuel rest want.
Proof.
  intros Hk Hd. assert (Hlen : length (entry 2 kind data ++ rest) <> 0) by (rewrite length_app, length_entry; lia). unfold find_extension; fold find_extension.
  assert (E16 : ReadUint16 (entry 2 kind data ++ rest) = Some (kind, prefixed 2 data ++ rest)) by (unfold entry; rewrite <-app_assoc; by apply ReadUint16_app).
  destruct (entry 2 kind data ++ rest) as [|c l]; [done|]. rewrite E16. cbn [mbind res_bind not_applicable]. rewrite read_prefixed16, read_prefixed_app by done. done.
Qed.

Lemma find_extension_Ok want (Hw : (0 <= want < 256 ^ 2)%Z) fuel : forall input data, Forall is_byte input -> length input <= fuel ->
  find_extension fuel input want = Ok data <-> first_entry 2 want (fun _ => True) input data.
Proof.
  induction fuel as [|fuel IH]; intros input data Hb Hl.
  - destruct input; [|cbn in Hl; lia]. split; [done|]. intros (before & after & E & _). apply (f_equal length) in E. rewrite !length_app, length_entry in E. cbn in E. lia.
  - split.
    + destruct input as [|c l]; [done|]. set (input := c :: l) in *. unfold find_extension; fold find_extension. change (match input with [] => Err ErrNotFound | _ :: _ => ?x end) with x. cbv beta.
      rewrite not_applicable_Ok. intros ((kind & s1) & E1 & E). apply ReadUint16_Some in E1 as [Ei Hk]; [|done]. rewrite not_applicable_Ok in E. destruct E as ((d & s2) & E2 & E).
      rewrite Ei in Hb. apply Forall_app in Hb as [_ Hb]. rewrite read_prefixed16 in E2. apply read_prefixed_Some in E2 as [-> Hd]; [|done]. rewrite Ei, app_assoc in *. change (be 2 kind ++ prefixed 2 d) with (entry 2 kind d) in *.
      destruct (Z.eqb_spec kind want) as [->|Hne].
      * injection E as <-. exists [], s2. split; [done|]. split; [constructor|done].
      * apply first_entry_cons; [done|done|done|done|]. apply Forall_app in Hb as [_ Hb]. apply IH; [done| |done]. rewrite length_app, length_entry in Hl. lia.
    + intros (before & after & -> & Hs & Hd & _). destruct Hs as [|kind d rest Hk Hne Hsd _ Hs].
      * cbn [app]. rewrite find_extension_step by done. by rewrite Z.eqb_refl.
      * rewrite <-app_assoc in *. rewrite find_extension_step by done. rewrite (proj2 (Z.eqb_neq _ _) Hne). rewrite length_app, length_entry in Hl. apply Forall_app in Hb as [_ Hb]. apply IH; [done|lia|]. by exists rest, after.
Qed.

Lemma find_name_step fuel kind data rest : (0 <= kind < 256 ^ 1)%Z -> short 2 data -> data <> [] ->
  find_name (S fuel) (entry 1 kind data ++ rest) = if (kind =? TlsExtension_ServerNameType_HostName)%Z then Ok (TrimSuffix data (str ".")) else find_name fuel rest.
Proof.
  intros Hk Hd Hne. assert (Hlen : length (entry 1 kind data ++ rest) <> 0) by (rewrite length_app, length_entry; lia). unfold find_name; fold find_name.
  assert (E16 : ReadUint8 (entry 1 kind data ++ rest) = Some (kind, prefixed 2 data ++ rest)) by (unfold entry; rewrite <-app_assoc; by apply ReadUint8_app).
  destruct (entry 1 kind data ++ rest) as [|c l]; [done|]. rewrite E16. cbn [mbind res_bind not_applicable]. rewrite read_prefixed16, read_prefixed_app by done. by destruct data.
Qed.

Lemma find_name_Ok fuel : forall input d, Forall is_byte input -> length input <= fuel ->
  find_name fuel input = Ok d <-> exists name, first_entry 1 TlsExtension_ServerNameType_HostName (fun s => s <> []) input name /\ d = TrimSuffix name (str ".").
Proof.
  induction fuel as [|fuel IH]; intros input dom Hb Hl.
  - destruct input; [|cbn in Hl; lia]. split; [done|]. intros (name & (before & after & E & _) & _). apply (f_equal length) in E. rewrite !length_app, length_entry in E. cbn in E. lia.
  - split.
    + destruct input as [|c l]; [done|]. set (input := c :: l) in *. unfold find_name; fold find_name. change (match input with [] => Err ErrNotFound | _ :: _ => ?x end) with x. cbv beta.
      rewrite not_applicable_Ok. intros ((kind & s1) & E1 & E). apply ReadUint8_Some in E1 as [Ei Hk]; [|done]. rewrite not_applicable_Ok in E. destruct E as ((d & s2) & E2 & E).
      rewrite Ei in Hb. apply Forall_app in Hb as [_ Hb]. rewrite read_prefixed16 in E2. apply read_prefixed_Some in E2 as [-> Hd]; [|done]. rewrite Ei, app_assoc in *. change (be 1 kind ++ prefixed 2 d) with (entry 1 kind d) in *.
      assert (Hne : d <> []) by by destruct d. destruct (is_empty d) eqn:Ed; [done|]. destruct (Z.eqb_spec kind TlsExtension_ServerNameType_HostName) as [->|Hk'].
      * injection E as <-. exists d. split; [|done]. exists [], s2. split; [done|]. split; [constructor|done].
      * apply Forall_app in Hb as [_ Hb]. apply IH in E as (name & Hf & ->); [|done|rewrite length_app, length_entry in Hl; lia]. exists name. split; [|done]. by apply first_entry_cons.
    + intros (name & (before & after & -> & Hs & Hd & Hne) & ->). destruct Hs as [|kind d rest Hk Hne' Hsd Hnd Hs].
      * cbn [app]. by rewrite find_name_step.
      * rewrite <-app_assoc in *. rewrite find_name_step by done. rewrite (proj2 (Z.eqb_neq _ _) Hne'). rewrite length_app, length_entry in Hl. apply Forall_app in Hb as [_ Hb]. apply IH; [done|lia|]. exists name. split; [|done]. by exists rest, after.
Qed.

Lemma findSniExtension_Ok extensions d : Forall is_byte extensions -> findSniExtension extensions = Ok d <-> server_name extensions d.
Proof.
  intros Hb. assert (Hsub : forall n want ok all data, Forall is_byte all -> first_entry n want ok all data -> Forall is_byte data).
  { intros n want ok all data Ha (before & after & -> & _). apply Forall_app in Ha as [_ Ha]. apply Forall_app in Ha as [Ha _]. unfold entry, prefixed in Ha. apply Forall_app in Ha as [_ Ha]. by apply Forall_app in Ha as [_ Ha]. }
  unfold findSniExtension, server_name, findTLSExtension. split.
  - destruct (find_extension _ _ _) as [data| |] eqn:E; [|done|done]. cbn [mbind res_bind]. apply find_extension_Ok in E; [|done|done|done]. pose proof (Hsub _ _ _ _ _ Hb E) as Hd.
    rewrite not_applicable_Ok. intros ((names & rest) & E1 & E2). rewrite read_prefixed16 in E1. apply read_prefixed_Some in E1 as [-> Hs]; [|done]. destruct rest; [|done]. rewrite app_nil_r in *. cbn [is_empty negb orb] in E2.
    destruct (is_empty names) eqn:En; [done|]. apply Forall_app in Hd as [_ Hd]. apply find_name_Ok in E2 as (name & Hf & ->); [|done|done]. by exists names, name.
  - intros (names & name & Hf & Hs & Hn & ->). pose proof (Hsub _ _ _ _ _ Hb Hf) as Hd. apply find_extension_Ok with (fuel := length extensions) in Hf; [|done|done|done]. rewrite Hf. cbn [mbind res_bind].
    rewrite read_prefixed16. rewrite <-(app_nil_r (prefixed 2 names)), read_prefixed_app by done. cbn [not_applicable mbind res_bind is_empty negb orb].
    assert (is_empty names = false) as -> by (destruct names; [|done]; destruct Hn as (b & a & E & _); apply (f_equal length) in E; rewrite !length_app, length_entry in E; cbn in E; lia).
    apply Forall_app in Hd as [_ Hd]. apply find_name_Ok; [done|done|]. by exists name.
Qed.

Lemma client_hello_kind hello extensions : client_hello hello extensions -> exists body, hello = HandShakeType_Hello :: prefixed 3 body /\ short 3 body /\ length hello = 4 + length body.
Proof. intros (random & session & ciphers & compression & _ & _ & _ & _ & _ & Hs & ->). eexists. split; [done|]. split; [exact Hs|]. unfold prefixed at 1. cbn [length]. rewrite length_app, length_be. lia. Qed.

Lemma clientHelloExtensions_Ok hello extensions : Forall is_byte hello -> clientHelloExtensions hello = Ok extensions <-> client_hello hello extensions.
Proof.
  intros Hb. unfold clientHelloExtensions. split.
  - rewrite not_applicable_Ok. intros ((kind & s1) & E1 & E). apply ReadUint8_Some in E1 as [-> Hk]; [|done]. destruct (Z.eqb_spec kind HandShakeType_Hello) as [->|]; [|done]. cbn [negb] in E.
    apply Forall_app in Hb as [_ Hb]. rewrite not_applicable_Ok in E. destruct E as ((body & s2) & E2 & E). rewrite read_prefixed24 in E2. apply read_prefixed_Some in E2 as [-> Hs]; [|done].
    destruct s2; [|done]. cbn [is_empty negb] in E. rewrite app_nil_r in *. apply Forall_app in Hb as [_ Hb].
    rewrite not_applicable_Ok in E. destruct E as ((version & s3) & E3 & E). apply ReadUint16_Some in E3 as [-> Hv]; [|done]. destruct (Z.eqb_spec version 771) as [->|]; [|done]. cbn [negb] in E. apply Forall_app in Hb as [_ Hb].
    rewrite not_applicable_Ok in E. destruct E as (s4 & E4 & E). rewrite skip in E4. destruct (read_bytes 32 s3) as [[random s4']|] eqn:Er; [|done]. injection E4 as ->. apply read_bytes_Some in Er as [-> Hr]. apply Forall_app in Hb as [_ Hb].
    rewrite not_applicable_Ok in E. destruct E as ((session & s5) & E5 & E). rewrite read_prefixed8 in E5. apply read_prefixed_Some in E5 as [-> H5]; [|done]. apply Forall_app in Hb as [_ Hb].
    rewrite not_applicable_Ok in E. destruct E as ((ciphers & s6) & E6 & E). rewrite read_prefixed16 in E6. apply read_prefixed_Some in E6 as [-> H6]; [|done]. apply Forall_app in Hb as [_ Hb].
    rewrite not_applicable_Ok in E. destruct E as ((compression & s7) & E7 & E). rewrite read_prefixed8 in E7. apply read_prefixed_Some in E7 as [-> H7]; [|done]. apply Forall_app in Hb as [_ Hb].
    rewrite not_applicable_Ok in E. destruct E as ((exts & s8) & E8 & E). rewrite read_prefixed16 in E8. apply read_prefixed_Some in E8 as [-> H8]; [|done]. destruct s8; [|done]. injection E as <-. rewrite app_nil_r in *.
    exists random, session, ciphers, compression. split_and!; done.
  - intros (random & session & ciphers & compression & Hr & H5 & H6 & H7 & H8 & Hs & ->). change (HandShakeType_Hello :: ?x) with (be 1 HandShakeType_Hello ++ x). rewrite ReadUint8_app by done. cbn [not_applicable mbind res_bind]. cbn [Z.eqb negb HandShakeType_Hello Pos.eqb].
    rewrite read_prefixed24. rewrite <-(app_nil_r (prefixed 3 _)), read_prefixed_app by done. cbn [not_applicable mbind res_bind is_empty negb]. change [3; 3]%Z with (be 2 771). rewrite ReadUint16_app by done. cbn [not_applicable mbind res_bind].
    change (negb (771 =? 771)%Z) with false. cbv iota. rewrite skip, read_bytes_app by done. cbn [fmap option_fmap option_map snd not_applicable mbind res_bind]. rewrite read_prefixed8, read_prefixed_app by done. cbn [not_applicable mbind res_bind].
    rewrite read_prefixed16, read_prefixed_app by done. cbn [not_applicable mbind res_bind]. rewrite read_prefixed8, read_prefixed_app by done. cbn [not_applicable mbind res_bind].
    rewrite <-(app_nil_r (prefixed 2 extensions)), read_prefixed16, read_prefixed_app by done. done.
Qed.

(** ** Records *)

Definition record_ (vd : Z * bytes) : bytes := [ContentType_HandShake; 3; vd.1]%Z ++ prefixed 2 vd.2.
Definition record_ok (vd : Z * bytes) : Prop := (1 <= vd.1 <= 3)%Z /\ short 2 vd.2.

(** The handshake that is left to be joined. *)
Definition joined (hello : option bytes) : bytes := default [] hello.

(** What the sniffer says of a joined handshake; [None] asks for another record. *)
Definition judge (hello : bytes) : option (res bytes * option bool) :=
  if length hello <? 4 then None
  else
    let size := 4 + Z.to_nat (big_endian (take 3 (drop 1 hello))) in
    if negb (hello !!! 0%nat =? HandShakeType_Hello)%Z || (streamSniffingMaxBytes <? size) then Some (Err ErrNotApplicable, None)
    else if size <=? length hello then
      Some (match clientHelloExtensions (take size hello) with
            | Ok extensions =>
              let d := findSniExtension extensions in (d, Some (match d with Ok _ => true | Err e => String.eqb e ErrNotFound | Panic => false end))
            | Err e => (Err e, None)
            | Panic => (Panic, None)
            end)
    else None.

Lemma big_endian3 (hello : bytes) : 4 <= length hello -> big_endian (take 3 (drop 1 hello)) = (Z.shiftl (hello !!! 1%nat) 16 + Z.shiftl (hello !!! 2%nat) 8 + hello !!! 3%nat)%Z.
Proof. intros Hl. destruct hello as [|a [|b [|c [|d l]]]]; try (cbn in Hl; lia). clear Hl. change (take 3 _) with [b; c; d]. change ((a :: _) !!! 1%nat) with b. change ((a :: _) !!! 2%nat) with c. change ((a :: _) !!! 3%nat) with d. rewrite !Z.shiftl_mul_pow2 by lia. unfold big_endian. cbn [fold_left]. lia. Qed.

Lemma sniff_records_eq fuel records hello : sniff_records (S fuel) records hello =
  if bad_record records then (Err ErrNotApplicable, None)
  else match (if length records <? 5 then None else read_bytes (Z.to_nat (Uint16 (records !!! 3%nat) (records !!! 4%nat))) (drop 5 records)) with
       | None => (Err ErrNeedMore, None)
       | Some (payload, rest) => match judge (joined hello ++ payload) with Some r => r | None => sniff_records fuel rest (Some (joined hello ++ payload)) end
       end.
Proof.
  cbn [sniff_records]. destruct (bad_record records); [done|]. destruct (Nat.ltb_spec (length records) 5) as [|Hl]; [done|]. set (n := Z.to_nat _). unfold read_bytes. rewrite length_drop.
  destruct (Nat.ltb_spec (length records) (5 + n)), (Nat.leb_spec n (length records - 5)); try lia; [done|]. unfold slice. rewrite (proj2 (Nat.leb_le 5 (5 + n))) by lia. rewrite (proj2 (Nat.leb_le (5 + n) (length records))) by lia. rewrite Nat.leb_refl. cbn [andb].
  replace (5 + n - 5) with n by lia. rewrite drop_drop. rewrite (take_ge (drop (5 + n) records)) by (rewrite length_drop; lia).
  assert (match hello with Some h => h ++ take n (drop 5 records) | None => take n (drop 5 records) end = joined hello ++ take n (drop 5 records)) as -> by by destruct hello.
  set (h := joined hello ++ _). unfold judge. destruct (Nat.ltb_spec (length h) 4); [done|]. rewrite big_endian3 by done. set (size := 4 + _). destruct (negb _ || _); [done|].
  destruct (Nat.leb_spec size (length h)); [|done]. rewrite (proj2 (Nat.leb_le 0 size)) by lia. cbn [andb]. rewrite drop_0, Nat.sub_0_r. done.
Qed.

(** The next record, or what is wrong with it. *)
Definition next_record (records : bytes) : res (bytes * bytes) :=
  if bad_record records then Err ErrNotApplicable
  else match (if length records <? 5 then None else read_bytes (Z.to_nat (Uint16 (records !!! 3%nat) (records !!! 4%nat))) (drop 5 records)) with
       | None => Err ErrNeedMore
       | Some r => Ok r
       end.

Lemma sniff_records_step fuel records hello : sniff_records (S fuel) records hello =
  match next_record records with
  | Ok (payload, rest) => match judge (joined hello ++ payload) with Some r => r | None => sniff_records fuel rest (Some (joined hello ++ payload)) end
  | Err e => (Err e, None)
  | Panic => (Panic, None)
  end.
Proof. rewrite sniff_records_eq. unfold next_record. destruct (bad_record records); [done|]. by destruct (if _ <? 5 then _ else _) as [[payload rest]|]. Qed.

Lemma next_record_Ok records payload rest : Forall is_byte records -> next_record records = Ok (payload, rest) <->
  exists v, record_ok (v, payload) /\ records = record_ (v, payload) ++ rest.
Proof.
  intros Hb. unfold next_record, record_ok, record_, prefixed, short. cbn [fst snd]. split.
  - destruct (bad_record records) eqn:Eb; [done|]. destruct (Nat.ltb_spec (length records) 5) as [|Hl]; [done|]. destruct (read_bytes _ _) as [[p r]|] eqn:E; [|done]. intros [= -> ->]. apply read_bytes_Some in E as [E Hp].
    destruct records as [|a [|b [|v [|x [|y l]]]]]; try (cbn in Hl; lia). clear Hl. change (drop 5 _) with l in E. subst l. change ((a :: _) !!! 3%nat) with x in Hp. change ((a :: _) !!! 4%nat) with y in Hp. unfold bad_record in Eb. cbn in Eb.
    apply orb_false_iff in Eb as [Eb Ev]. apply orb_false_iff in Eb as [Ea Eb']. apply negb_false_iff, Z.eqb_eq in Ea, Eb'. apply orb_false_iff in Ev as [Ev1 Ev2]. apply Z.ltb_ge in Ev1, Ev2. subst a b.
    assert (Hxy : Forall is_byte [x; y]) by (rewrite !Forall_cons in Hb; constructor; [|constructor; [|constructor]]; apply Hb). destruct (be_big_endian [x; y] Hxy) as [Exy Bxy].
    change (big_endian [x; y]) with (Uint16 x y) in Exy, Bxy. exists v. rewrite Hp, Z2Nat.id by lia. split; [split; [lia|apply Bxy]|]. change (length [x; y]) with 2 in Exy. by rewrite Exy.
  - intros (v & [Hv Hs] & ->). pose proof (length_be 2 (Z.of_nat (length payload))) as Hbe. pose proof (big_endian_be 2 (Z.of_nat (length payload)) ltac:(lia)) as Eb. destruct (be 2 (Z.of_nat (length payload))) as [|x [|y [|]]]; try done.
    change (big_endian [x; y]) with (Uint16 x y) in Eb. cbn [app]. unfold bad_record. cbn [lookup list_lookup]. rewrite Z.eqb_refl. change (3 =? 3)%Z with true. cbn [negb orb]. destruct (Z.ltb_spec v 1), (Z.ltb_spec 3 v); try lia. cbn [orb].
    cbn [length]. destruct (Nat.ltb_spec (S (S (S (S (S (length (payload ++ rest))))))) 5); [lia|]. change ((ContentType_HandShake :: _) !!! 3%nat) with x. change ((ContentType_HandShake :: _) !!! 4%nat) with y. rewrite Eb, Nat2Z.id. change (drop 5 _) with (payload ++ rest). by rewrite read_bytes_app.
Qed.

Lemma next_record_app records payload rest ext : next_record records = Ok (payload, rest) -> next_record (records ++ ext) = Ok (payload, rest ++ ext).
Proof.
  unfold next_record. destruct (bad_record records) eqn:Eb; [done|]. destruct (Nat.ltb_spec (length records) 5) as [|Hl]; [done|]. destruct (read_bytes _ _) as [[p r]|] eqn:E; [|done]. intros [= -> ->]. apply read_bytes_Some in E as [E Hp].
  destruct records as [|a [|b [|v [|x [|y l]]]]]; try (cbn in Hl; lia). change (drop 5 _) with l in E. subst l. set (l := payload ++ rest) in *.
  change (bad_record ((a :: b :: v :: x :: y :: l) ++ ext)) with (bad_record (a :: b :: v :: x :: y :: l)). rewrite Eb. destruct (Nat.ltb_spec (length ((a :: b :: v :: x :: y :: l) ++ ext)) 5) as [Hl'|_]; [cbn in Hl'; lia|].
  change (((a :: b :: v :: x :: y :: l) ++ ext) !!! 3%nat) with x. change (((a :: b :: v :: x :: y :: l) ++ ext) !!! 4%nat) with y. change ((a :: _) !!! 3%nat) with x in Hp. change ((a :: _) !!! 4%nat) with y in Hp.
  change (drop 5 _) with (l ++ ext). unfold l. rewrite <-app_assoc, read_bytes_app by done. done.
Qed.

Lemma next_record_bad records ext : next_record records = Err ErrNotApplicable -> next_record (records ++ ext) = Err ErrNotApplicable.
Proof.
  unfold next_record. destruct (bad_record records) eqn:Eb; [|by destruct (if _ <? 5 then _ else _)]. intros _. assert (bad_record (records ++ ext) = true) as ->; [|done].
  unfold bad_record in *. destruct records as [|a [|b [|v l]]]; [done| | |]; cbn in Eb |- *; rewrite ?orb_false_r in Eb; rewrite !orb_true_iff in *; naive_solver.
Qed.

Lemma next_record_cases records : next_record records = Err ErrNotApplicable \/ next_record records = Err ErrNeedMore \/
  exists payload rest, next_record records = Ok (payload, rest) /\ length rest + 5 <= length records.
Proof.
  unfold next_record. destruct (bad_record records); [by left|]. right. destruct (Nat.ltb_spec (length records) 5); [by left|]. destruct (read_bytes _ _) as [[p r]|] eqn:E; [|by left]. right. exists p, r. split; [done|].
  apply read_bytes_Some in E as [E _]. apply (f_equal length) in E. rewrite length_drop, length_app in E. lia.
Qed.

(** ** Stability *)

(** More bytes do not change a conclusive result. *)
Lemma sniff_records_stable fuel : forall fuel' records ext hello r, sniff_records fuel records hello = r -> r.1 <> Err ErrNeedMore -> r.1 <> Panic -> fuel <= fuel' ->
  sniff_records fuel' (records ++ ext) hello = r.
Proof.
  induction fuel as [|fuel IH]; intros fuel' records ext hello r E Hm Hp Hf; [by subst r|]. destruct fuel' as [|fuel']; [lia|]. rewrite sniff_records_step in *.
  destruct (next_record_cases records) as [En|[En|(payload & rest & En & _)]]; rewrite En in E; [|by subst r|].
  - by rewrite (next_record_bad _ _ En).
  - rewrite (next_record_app _ _ _ ext En). destruct (judge _); [done|]. by apply (IH fuel'); [..|lia].
Qed.

Lemma sniffTls_stable buf ext : (sniffTls buf).1 <> Err ErrNeedMore -> (sniffTls buf).1 <> Panic -> sniffTls (buf ++ ext) = sniffTls buf.
Proof. intros H1 H2. unfold sniffTls. eapply sniff_records_stable; [done|done|done|]. rewrite length_app. lia. Qed.

(** ** No panic *)

Lemma read_bytes_shorter n s a t : read_bytes n s = Some (a, t) -> length s = n + length t.
Proof. intros [-> <-]%read_bytes_Some. apply length_app. Qed.
Lemma read_prefixed_shorter n s a t : read_prefixed n s = Some (a, t) -> n + length t <= length s.
Proof. unfold read_prefixed. destruct (read_bytes n s) as [[l s']|] eqn:E; [|done]. cbn [mbind option_bind]. intros E'. apply read_bytes_shorter in E, E'. lia. Qed.

Lemma find_extension_returns want fuel : forall input, length input <= fuel -> find_extension fuel input want <> Panic.
Proof.
  induction fuel as [|fuel IH]; intros [|c l] Hl; try done; [cbn in Hl; lia|]. cbn [find_extension]. apply not_applicable_err. intros [kind s1] E1. rewrite read_uint16 in E1. destruct (read_bytes 2 (c :: l)) as [[v s']|] eqn:E; [|done]. injection E1 as <- <-.
  apply not_applicable_err. intros [data s2] E2. rewrite read_prefixed16 in E2. apply read_bytes_shorter in E. apply read_prefixed_shorter in E2. destruct (_ =? want)%Z; [done|]. apply IH. lia.
Qed.

Lemma find_name_returns fuel : forall input, length input <= fuel -> find_name fuel input <> Panic.
Proof.
  induction fuel as [|fuel IH]; intros [|c l] Hl; try done; [cbn in Hl; lia|]. cbn [find_name]. apply not_applicable_err. intros [kind s1] E1. rewrite read_uint8 in E1. destruct (read_bytes 1 (c :: l)) as [[v s']|] eqn:E; [|done]. injection E1 as <- <-.
  apply not_applicable_err. intros [data s2] E2. rewrite read_prefixed16 in E2. apply read_bytes_shorter in E. apply read_prefixed_shorter in E2. destruct (is_empty data); [done|]. destruct (_ =? _)%Z; [done|]. apply IH. lia.
Qed.

Lemma findSniExtension_returns extensions : findSniExtension extensions <> Panic.
Proof.
  unfold findSniExtension, findTLSExtension. pose proof (find_extension_returns TlsExtension_ServerName (length extensions) extensions ltac:(done)) as Hp. destruct (find_extension _ _ _); [|done|done]. cbn [mbind res_bind].
  apply not_applicable_err. intros [names rest] _. destruct (_ || _); [done|]. by apply find_name_returns.
Qed.

Lemma clientHelloExtensions_returns hello : clientHelloExtensions hello <> Panic.
Proof.
  unfold clientHelloExtensions. apply not_applicable_err. intros [kind s1] _. destruct (negb _); [done|]. apply not_applicable_err. intros [body s2] _. destruct (negb _); [done|]. apply not_applicable_err. intros [version s3] _. destruct (negb _); [done|].
  apply not_applicable_err. intros s4 _. do 4 (apply not_applicable_err; intros [? ?] _). by destruct (negb _).
Qed.

Lemma judge_returns hello r : judge hello = Some r -> r.1 <> Panic.
Proof.
  unfold judge. destruct (_ <? 4); [done|]. destruct (negb _ || _); [by intros [= <-]|]. destruct (_ <=? _); [|done]. intros [= <-]. pose proof (clientHelloExtensions_returns (take (4 + Z.to_nat (big_endian (take 3 (drop 1 hello)))) hello)).
  destruct (clientHelloExtensions _); [|done|done]. apply findSniExtension_returns.
Qed.

Lemma sniffTls_returns buf : (sniffTls buf).1 <> Panic.
Proof.
  unfold sniffTls. assert (Hg : forall fuel records hello, length records < fuel -> (sniff_records fuel records hello).1 <> Panic); [|apply Hg; lia].
  induction fuel as [|fuel IH]; intros records hello Hl; [lia|]. rewrite sniff_records_step. destruct (next_record_cases records) as [->|[->|(payload & rest & -> & Hlen)]]; [done|done|].
  destruct (judge _) as [r|] eqn:E; [by eapply judge_returns|]. apply IH. lia.
Qed.

(** ** Names *)

(** A stream that starts with handshake records which carry, possibly with more behind it, a
    ClientHello of at most the size that is buffered, with the server name. *)
Definition tls_stream (buf d : bytes) : Prop :=
  exists records rest hello extensions extra, Forall record_ok records /\ buf = concat (map record_ records) ++ rest /\ concat records.*2 = hello ++ extra /\
    client_hello hello extensions /\ server_name extensions d /\ length hello <= streamSniffingMaxBytes.

Lemma hello_size hello extensions extra : client_hello hello extensions -> 4 + Z.to_nat (big_endian (take 3 (drop 1 (hello ++ extra)))) = length hello /\ (hello ++ extra) !!! 0%nat = HandShakeType_Hello /\ 4 <= length hello.
Proof.
  intros Hh. destruct (client_hello_kind _ _ Hh) as (body & -> & Hs & ->). unfold prefixed. rewrite <-app_comm_cons. cbn [drop]. rewrite drop_0, <-app_assoc, take_app_length' by (by rewrite length_be). rewrite big_endian_be by (unfold short in Hs; lia). split; [lia|]. split; [done|lia].
Qed.

Lemma judge_hello hello extensions d extra : Forall is_byte hello -> client_hello hello extensions -> server_name extensions d -> length hello <= streamSniffingMaxBytes ->
  judge (hello ++ extra) = Some (Ok d, Some true).
Proof.
  intros Hb Hh Hn Hl. destruct (hello_size _ _ extra Hh) as (Hs & Hz & H4). unfold judge. rewrite length_app. destruct (Nat.ltb_spec (length hello + length extra) 4); [lia|]. rewrite Hz, Hs. rewrite Z.eqb_refl. cbn [negb orb].
  destruct (Nat.ltb_spec streamSniffingMaxBytes (length hello)); [lia|]. destruct (Nat.leb_spec (length hello) (length hello + length extra)); [|lia]. rewrite take_app_length. rewrite (proj2 (clientHelloExtensions_Ok _ _ Hb) Hh).
  assert (He : Forall is_byte extensions).
  { destruct Hh as (? & ? & ? & ? & _ & _ & _ & _ & _ & _ & ->). unfold prefixed in Hb. rewrite Forall_cons, !Forall_app in Hb. apply Hb. }
  by rewrite (proj2 (findSniExtension_Ok _ _ He) Hn).
Qed.

Lemma judge_partial hello extensions part missing : client_hello hello extensions -> length hello <= streamSniffingMaxBytes -> hello = part ++ missing -> missing <> [] -> judge part = None.
Proof.
  intros Hh Hl -> Hm. unfold judge. destruct (Nat.ltb_spec (length part) 4) as [|H4]; [done|]. destruct (hello_size _ _ [] Hh) as (Hs & Hz & _). rewrite app_nil_r in *.
  assert (length missing <> 0) by by destruct missing. rewrite length_app in *.
  assert (Ht : take 3 (drop 1 (part ++ missing)) = take 3 (drop 1 part)) by (rewrite drop_app_le, take_app_le by (rewrite ?length_drop; lia); done). rewrite Ht in Hs. rewrite lookup_total_app_l in Hz by lia. rewrite Hz, Hs, Z.eqb_refl. cbn [negb orb].
  destruct (Nat.ltb_spec streamSniffingMaxBytes (length part + length missing)); [lia|]. destruct (Nat.leb_spec (length part + length missing) (length part)); [lia|done].
Qed.

Lemma sniff_records_name d hello extensions extra : Forall is_byte hello -> client_hello hello extensions -> server_name extensions d -> length hello <= streamSniffingMaxBytes ->
  forall records rest before missing fuel, Forall record_ok records -> Forall is_byte (concat (map record_ records) ++ rest) -> missing <> [] -> hello = joined before ++ missing -> joined before ++ concat records.*2 = hello ++ extra ->
  length (concat (map record_ records) ++ rest) < fuel -> sniff_records fuel (concat (map record_ records) ++ rest) before = (Ok d, Some true).
Proof.
  intros Hbh Hh Hn Hl. induction records as [|[v payload] records IH]; intros rest before missing fuel Hok Hb Hm Eh Ej Hf.
  - exfalso. cbn in Ej. rewrite app_nil_r in Ej. apply (f_equal length) in Ej. apply (f_equal length) in Eh. rewrite !length_app in *. destruct missing; [done|]. cbn in Eh. lia.
  - destruct fuel as [|fuel]; [lia|]. apply Forall_cons in Hok as [Hr Hok]. cbn [map concat] in *. rewrite <-app_assoc in *. rewrite sniff_records_step.
    assert (next_record (record_ (v, payload) ++ concat (map record_ records) ++ rest) = Ok (payload, concat (map record_ records) ++ rest)) as -> by (apply next_record_Ok; [done|by exists v]).
    apply Forall_app in Hb as [_ Hb]. cbn [fmap list_fmap concat snd] in Ej. rewrite app_assoc in Ej. set (j := joined before ++ payload) in *. destruct (decide (length hello <= length j)) as [Hc|Hc].
    + assert (Hj : exists e, j = hello ++ e).
      { exists (take (length j - length hello) extra). apply (f_equal (take (length j))) in Ej. rewrite take_app_length, take_app_ge in Ej by done. exact Ej. }
      destruct Hj as [e Hj]. rewrite Hj. by rewrite (judge_hello hello extensions d e).
    + assert (Hj : hello = j ++ drop (length j) hello).
      { apply (f_equal (take (length hello))) in Ej. rewrite take_app_length in Ej. rewrite take_app_ge in Ej by lia. rewrite <-Ej at 1. f_equal. rewrite <-Ej at 2. by rewrite drop_app_length. }
      rewrite (judge_partial hello extensions j (drop (length j) hello)); [|done|done|done|].
      2: { intros E0. apply (f_equal length) in E0. rewrite length_drop in E0. cbn in E0. lia. }
      apply (IH rest (Some j) (drop (length j) hello)); [done|done| |done|done|].
      { intros E0. apply (f_equal length) in E0. rewrite length_drop in E0. cbn in E0. lia. }
      assert (1 <= length (record_ (v, payload))) by (unfold record_; cbn [length app]; lia). rewrite length_app in Hf. lia.
Qed.

Lemma judge_Ok hello d flag : Forall is_byte hello -> judge hello = Some (Ok d, flag) ->
  exists h extensions extra, hello = h ++ extra /\ client_hello h extensions /\ server_name extensions d /\ length h <= streamSniffingMaxBytes.
Proof.
  intros Hb. unfold judge. destruct (Nat.ltb_spec (length hello) 4); [done|]. set (size := 4 + _). destruct (negb _) eqn:E0; [done|]. cbn [orb]. destruct (Nat.ltb_spec streamSniffingMaxBytes size); [done|]. destruct (Nat.leb_spec size (length hello)); [|done].
  assert (Hbt : Forall is_byte (take size hello)) by by apply Forall_take. destruct (clientHelloExtensions (take size hello)) as [extensions| |] eqn:Ec; try done. intros [= Ed _]. apply clientHelloExtensions_Ok in Ec; [|done].
  exists (take size hello), extensions, (drop size hello). rewrite take_drop. split; [done|]. split; [done|]. split; [|rewrite length_take; lia].
  apply findSniExtension_Ok; [|done]. destruct Ec as (? & ? & ? & ? & _ & _ & _ & _ & _ & _ & E). rewrite E in Hbt. unfold prefixed in Hbt. rewrite Forall_cons, !Forall_app in Hbt. apply Hbt.
Qed.

Lemma sniff_records_sound d flag fuel : forall buf before, Forall is_byte buf -> Forall is_byte (joined before) -> sniff_records fuel buf before = (Ok d, flag) ->
  exists records rest hello extensions extra, Forall record_ok records /\ buf = concat (map record_ records) ++ rest /\ joined before ++ concat records.*2 = hello ++ extra /\
    client_hello hello extensions /\ server_name extensions d /\ length hello <= streamSniffingMaxBytes.
Proof.
  induction fuel as [|fuel IH]; intros buf before Hb Hbb; [done|]. rewrite sniff_records_step. destruct (next_record buf) as [[payload rest]| |] eqn:En; try done. apply next_record_Ok in En as (v & Hr & ->); [|done].
  apply Forall_app in Hb as [Hbr Hb]. assert (Hbp : Forall is_byte payload) by (unfold record_, prefixed in Hbr; rewrite !Forall_app in Hbr; apply Hbr). destruct (judge (joined before ++ payload)) as [[r f]|] eqn:Ej.
  - intros [= -> ->]. apply judge_Ok in Ej as (hello & extensions & extra & Ej & Hh & Hn & Hl); [|by apply Forall_app]. exists [(v, payload)], rest, hello, extensions, extra. split; [by constructor|]. split; [cbn; by rewrite app_nil_r|]. split; [cbn; by rewrite app_nil_r|done].
  - intros E. apply IH in E as (records & rest' & hello & extensions & extra & Hok & -> & Ec & Hh & Hn & Hl); [|done|by apply Forall_app]. exists ((v, payload) :: records), rest', hello, extensions, extra.
    split; [by constructor|]. split; [cbn [map concat]; by rewrite <-app_assoc|]. split; [|done]. rewrite <-Ec. cbn [joined from_option fmap list_fmap concat snd id]. by rewrite <-app_assoc.
Qed.

(** C31: The TLS sniffer returns a name exactly when the stream starts with handshake
    records, cut anywhere, that carry a ClientHello whose first server name extension has
    the name as its first host name. *)
Theorem tls_name_exact buf d : Forall is_byte buf -> (sniffTls buf).1 = Ok d <-> tls_stream buf d.
Proof.
  intros Hb. unfold sniffTls, tls_stream. split.
  - destruct (sniff_records _ _ _) as [r f] eqn:E. cbn [fst]. intros ->. apply sniff_records_sound in E; [|done|constructor]. exact E.
  - intros (records & rest & hello & extensions & extra & Hok & -> & Ej & Hh & Hn & Hl). destruct (client_hello_kind _ _ Hh) as (body & Ehe & _ & H4).
    rewrite (sniff_records_name d hello extensions extra) with (missing := hello); [done| |done|done|done|done|done| |done|done|lia].
    + assert (Hbc : Forall is_byte (concat records.*2)); [|rewrite Ej in Hbc; by apply Forall_app in Hbc as [Hbc _]]. apply Forall_app in Hb as [Hb _]. clear -Hb. induction records as [|[v p] records IH]; [constructor|]. cbn [map concat fmap list_fmap snd] in *.
      apply Forall_app in Hb as [Hr Hb]. apply Forall_app. split; [|by apply IH]. unfold record_, prefixed in Hr. rewrite !Forall_app in Hr. apply Hr.
    + by rewrite Ehe.
Qed.
End Laws.

(** ** HTTP *)

Definition CRLF : bytes := [13; 10]%Z.

(** A line does not contain its end. *)
Definition line_ok (l : bytes) : Prop := CutLine (l ++ [13]%Z) = None.

Lemma CutLine_app s a b ext : CutLine s = Some (a, b) -> CutLine (s ++ ext) = Some (a, b ++ ext).
Proof.
  revert a b. induction s as [|c s IH]; intros a b; [done|]. cbn [CutLine app]. destruct s as [|d s]; [done|]. cbn [app] in *. destruct (_ && _); [by intros [= <- <-]|].
  destruct (CutLine (d :: s)) as [[a' b']|]; [|done]. cbn [mbind option_bind]. intros [= <- <-]. by rewrite (IH a' b').
Qed.

Lemma CutLine_cons c d s : CutLine (c :: d :: s) = if (c =? 13)%Z && (d =? 10)%Z then Some ([], s) else '(a, b) ← CutLine (d :: s); Some (c :: a, b).
Proof. done. Qed.

Lemma CutLine_tail c s : CutLine (c :: s) = None -> CutLine s = None.
Proof. destruct s as [|d s]; [done|]. rewrite CutLine_cons. destruct (_ && _); [done|]. by destruct (CutLine (d :: s)) as [[]|]. Qed.

Lemma CutLine_Some s a b : CutLine s = Some (a, b) <-> s = a ++ CRLF ++ b /\ line_ok a.
Proof.
  unfold line_ok. revert a b. induction s as [|c s IH]; intros a b; [split; [done|]; intros [E _]; by destruct a|]. cbn [CutLine]. destruct s as [|d s].
  { split; [done|]. intros [E _]. apply (f_equal length) in E. rewrite !length_app in E. cbn in E. lia. }
  destruct ((c =? 13)%Z && (d =? 10)%Z) eqn:Ec.
  - apply andb_true_iff in Ec as [Ec Ed]. apply Z.eqb_eq in Ec, Ed. subst c d. split; [intros [= <- <-]; by split|]. intros [E Ha]. destruct a as [|x [|y a]]; [by injection E as ->|by injection E as <-|].
    injection E as <- <- ->. by cbn in Ha.
  - destruct (CutLine (d :: s)) as [[a' b']|] eqn:E.
    + cbn [mbind option_bind]. destruct (proj1 (IH a' b') eq_refl) as [Ei Hi]. split.
      * intros [= <- <-]. split; [by rewrite Ei|]. cbn [app CutLine]. rewrite Hi. destruct a' as [|x a']; cbn [app] in *.
        -- injection Ei as -> ->. destruct (c =? 13)%Z eqn:E13; [|done]. by rewrite andb_comm.
        -- injection Ei as -> ->. rewrite Ec. done.
      * intros [E' Ha]. destruct a as [|x a]; [injection E' as -> -> ->; by rewrite !Z.eqb_refl in Ec|]. injection E' as <- E'. assert (Ha' : CutLine (a ++ [13%Z]) = None).
        { by eapply CutLine_tail. }
        pose proof (proj2 (IH a b) (conj E' Ha')) as [= -> ->]. done.
    + split; [done|]. intros [E' Ha]. destruct a as [|x a]; [injection E' as -> -> ->; by rewrite !Z.eqb_refl in Ec|]. injection E' as <- E'. assert (Ha' : CutLine (a ++ [13%Z]) = None).
      { by eapply CutLine_tail. }
      pose proof (proj2 (IH a b) (conj E' Ha')). done.
Qed.

Lemma Cut_app s sep a b ext : Cut s sep = Some (a, b) -> Cut (s ++ ext) sep = Some (a, b ++ ext).
Proof.
  revert a b. induction s as [|c s IH]; intros a b; [done|]. cbn [Cut app]. destruct (c =? sep)%Z; [by intros [= <- <-]|]. destruct (Cut s sep) as [[a' b']|]; [|done]. cbn [mbind option_bind]. intros [= <- <-]. by rewrite (IH a' b').
Qed.
Lemma Cut_prefix s sep ext a b : Cut s sep = None -> Cut (s ++ ext) sep = Some (a, b) -> s `prefix_of` a.
Proof.
  revert a b. induction s as [|c s IH]; intros a b; [intros _ _; apply prefix_nil|]. cbn [Cut app]. destruct (c =? sep)%Z; [done|]. destruct (Cut s sep) as [[]|] eqn:E; [done|]. intros _. destruct (Cut (s ++ ext) sep) as [[a' b']|] eqn:E'; [|done].
  cbn [mbind option_bind]. intros [= <- <-]. apply prefix_cons. by eapply IH.
Qed.

Lemma valid_method_upper m : isValidHTTPMethod m = true -> existsb (fun c => (c <? 65)%Z || (90 <? c)%Z) m = false.
Proof. unfold isValidHTTPMethod. rewrite existsb_exists. intros (x & Hx & E). apply bool_decide_eq_true in E. subst m. cbn [In] in Hx. repeat destruct Hx as [<-|Hx]; done. Qed.

Lemma find_host_stable fuel : forall fuel' buf ext, find_host fuel buf <> Err ErrNeedMore -> find_host fuel buf <> Panic -> fuel <= fuel' -> find_host fuel' (buf ++ ext) = find_host fuel buf.
Proof.
  induction fuel as [|fuel IH]; intros fuel' buf ext Hm Hp Hf; [done|]. destruct fuel' as [|fuel']; [lia|]. cbn [find_host] in *. destruct (CutLine buf) as [[line rest]|] eqn:E; [|done]. rewrite (CutLine_app _ _ _ ext E).
  destruct line; [done|]. destruct (Cut _ _) as [[key value]|]; [destruct (is_host key); [done|]|]; apply IH; done || lia.
Qed.

Lemma find_host_returns fuel : forall buf, length buf < fuel -> find_host fuel buf <> Panic.
Proof.
  induction fuel as [|fuel IH]; intros buf Hl; [lia|]. cbn [find_host]. destruct (CutLine buf) as [[line rest]|] eqn:E; [|done]. apply CutLine_Some in E as [-> _]. rewrite !length_app in Hl. cbn in Hl. destruct line as [|c line]; [done|]. cbn in Hl.
  destruct (Cut _ _) as [[key value]|]; [destruct (is_host key); [done|]|]; apply IH; lia.
Qed.

Lemma SniffHttp_returns buf : SniffHttp buf <> Panic.
Proof. unfold SniffHttp. destruct buf as [|c buf]; [done|]. destruct (Cut _ _) as [[method rest]|]; [destruct (isValidHTTPMethod method); [|done]; apply find_host_returns; lia|]. destruct (existsb _ _); [done|]. by destruct (_ =? 12). Qed.

Lemma SniffHttp_stable buf ext : buf <> [] -> SniffHttp buf <> Err ErrNeedMore -> SniffHttp (buf ++ ext) = SniffHttp buf.
Proof.
  intros Hne Hm. pose proof (SniffHttp_returns buf) as Hp. unfold SniffHttp in *. destruct buf as [|c buf0]; [done|]. set (buf := c :: buf0) in *. change (match buf ++ ext with [] => ?x | _ :: _ => ?y end) with y.
  assert (Ht : exists e, take 12 (buf ++ ext) = take 12 buf ++ e /\ (12 <= length buf -> e = [])).
  { exists (take (12 - length buf) ext). rewrite take_app. split; [done|]. intros H. replace (12 - length buf) with 0 by lia. by rewrite take_0. }
  destruct Ht as (e & -> & He). destruct (Cut (take 12 buf) 32) as [[method rest]|] eqn:E.
  - rewrite (Cut_app _ _ _ _ e E). destruct (isValidHTTPMethod method); [|done]. apply find_host_stable; [done|done|]. rewrite length_app. lia.
  - destruct (existsb _ (take 12 buf)) eqn:Eu.
    + assert (Hu : forall m, take 12 buf `prefix_of` m -> existsb (fun c => (c <? 65)%Z || (90 <? c)%Z) m = true) by (intros m [k ->]; rewrite existsb_app, Eu; done).
      destruct (Cut (take 12 buf ++ e) 32) as [[method rest]|] eqn:E2.
      * assert (Hpre : take 12 buf `prefix_of` method) by by eapply Cut_prefix. destruct (isValidHTTPMethod method) eqn:Ev; [|done]. apply valid_method_upper in Ev. rewrite (Hu _ Hpre) in Ev. done.
      * by rewrite (Hu (take 12 buf ++ e) (prefix_app_r _ _ _ (reflexivity _))).
    + rewrite length_take in *. destruct (Nat.eqb_spec (12 `min` length buf) 12); [|done]. rewrite He by lia. rewrite app_nil_r, E, Eu, length_take. destruct (Nat.eqb_spec (12 `min` length buf) 12); [done|lia].
Qed.

(** A request whose first host header has the value. *)
Definition http_stream (buf v : bytes) : Prop :=
  (exists method rest, Cut (take 12 buf) 32 = Some (method, rest) /\ isValidHTTPMethod method = true) /\
  exists lines key rest, Forall (fun l => l <> [] /\ line_ok l /\ forall k x, Cut l 58 = Some (k, x) -> is_host k = false) lines /\
    line_ok (key ++ 58%Z :: v) /\ Cut (key ++ 58%Z :: v) 58 = Some (key, v) /\ is_host key = true /\ buf = concat (map (fun l => l ++ CRLF) lines) ++ (key ++ 58%Z :: v) ++ CRLF ++ rest.

Lemma Cut_Some s sep a b : Cut s sep = Some (a, b) -> s = a ++ sep :: b.
Proof. revert a b. induction s as [|c s IH]; intros a b; [done|]. cbn [Cut]. destruct (Z.eqb_spec c sep) as [->|]; [by intros [= <- <-]|]. destruct (Cut s sep) as [[a' b']|]; [|done]. cbn [mbind option_bind]. intros [= <- <-]. by rewrite (IH a' b'). Qed.

Lemma find_host_Ok fuel : forall buf v, length buf < fuel -> find_host fuel buf = Ok v <->
  exists lines key rest, Forall (fun l => l <> [] /\ line_ok l /\ forall k x, Cut l 58 = Some (k, x) -> is_host k = false) lines /\
    line_ok (key ++ 58%Z :: v) /\ Cut (key ++ 58%Z :: v) 58 = Some (key, v) /\ is_host key = true /\ buf = concat (map (fun l => l ++ CRLF) lines) ++ (key ++ 58%Z :: v) ++ CRLF ++ rest.
Proof.
  induction fuel as [|fuel IH]; intros buf v Hl; [lia|]. cbn [find_host]. split.
  - destruct (CutLine buf) as [[line rest]|] eqn:E; [|done]. apply CutLine_Some in E as [-> Hok]. rewrite !length_app in Hl. cbn in Hl. destruct line as [|c line]; [done|]. set (l := c :: line) in *. change (match l with [] => ?x | _ :: _ => ?y end) with y. assert (1 <= length l) by (cbn; lia).
    assert (Hskip : (forall k x, Cut l 58 = Some (k, x) -> is_host k = false) -> find_host fuel rest = Ok v -> exists lines key rest', Forall (fun l => l <> [] /\ line_ok l /\ forall k x, Cut l 58 = Some (k, x) -> is_host k = false) lines /\
      line_ok (key ++ 58%Z :: v) /\ Cut (key ++ 58%Z :: v) 58 = Some (key, v) /\ is_host key = true /\ l ++ CRLF ++ rest = concat (map (fun l => l ++ CRLF) lines) ++ (key ++ 58%Z :: v) ++ CRLF ++ rest').
    { intros Hk Hf. apply IH in Hf as (lines & key & rest' & Hls & H1 & H2 & H3 & ->); [|lia]. exists (l :: lines), key, rest'. split; [constructor; [|done]; by split_and!|]. split_and!; try done. cbn [map concat]. by rewrite <-!app_assoc. }
    destruct (Cut l 58) as [[key value]|] eqn:Ec; [destruct (is_host key) eqn:Eh|].
    + intros [= ->]. pose proof (Cut_Some _ _ _ _ Ec) as El. rewrite El in *. exists [], key, rest. by split_and!.
    + apply Hskip. by intros k x [= <- <-].
    + by apply Hskip.
  - intros (lines & key & rest & Hls & H1 & H2 & H3 & ->). destruct lines as [|l lines]; cbn [map concat app] in Hl |- *.
    + rewrite (proj2 (CutLine_Some _ (key ++ 58%Z :: v) rest)) by by split. destruct (key ++ 58%Z :: v) eqn:E; [by destruct key|]. rewrite <-E in *. rewrite H2, H3. done.
    + apply Forall_cons in Hls as [(Hne & Hok & Hk) Hls]. rewrite <-!app_assoc in *. rewrite (proj2 (CutLine_Some _ l _)) by (split; [reflexivity|done]). rewrite !length_app in Hl. destruct l as [|c l]; [done|].
      assert (Hrest : find_host fuel (concat (map (fun l => l ++ CRLF) lines) ++ key ++ (58%Z :: v) ++ CRLF ++ rest) = Ok v).
      { apply IH; [rewrite !length_app in *; change (length CRLF) with 2 in *; cbn [length] in *; lia|]. exists lines, key, rest. split_and!; try done. by rewrite <-!app_assoc. }
      destruct (Cut (c :: l) 58) as [[k x]|] eqn:Ec; [rewrite (Hk k x eq_refl)|]; done.
Qed.

(** The HTTP sniffer returns a value exactly when the request line has a known method
    and the value is that of the first host header among the complete header lines. *)
Theorem http_host_exact buf v : SniffHttp buf = Ok v <-> http_stream buf v.
Proof.
  unfold SniffHttp, http_stream. split.
  - destruct buf as [|c buf]; [done|]. destruct (Cut _ _) as [[method rest]|] eqn:E; [|destruct (existsb _ _); [done|]; by destruct (_ =? 12)]. destruct (isValidHTTPMethod method) eqn:Ev; [|done].
    intros H. apply find_host_Ok in H; [|lia]. split; [by exists method, rest|done].
  - intros ((method & rest & E & Ev) & H). destruct buf as [|c buf]; [done|]. rewrite E, Ev. apply find_host_Ok; [lia|done].
Qed.

(** ** An example *)

(** Readers that are what the laws say. *)
Definition plain_readers : Cryptobyte := {|
  ReadUint8 s := '(v, s) ← read_bytes 1 s; Some (big_endian v, s);
  ReadUint16 s := '(v, s) ← read_bytes 2 s; Some (big_endian v, s);
  ReadUint8LengthPrefixed := read_prefixed 1;
  ReadUint16LengthPrefixed := read_prefixed 2;
  ReadUint24LengthPrefixed := read_prefixed 3;
  Skip s n := snd <$> read_bytes n s;
|}.

Lemma plain_readers_laws : @CryptobyteLaws plain_readers.
Proof. by split. Qed.

Module Greeting.
(** A ClientHello for "a.example." with an extension before the name, in two records. *)
Definition extensions : bytes := entry 2 23 [] ++ entry 2 0 (prefixed 2 (entry 1 0 (str "a.example."))).
Definition hello : bytes :=
  HandShakeType_Hello :: prefixed 3 ([3; 3]%Z ++ replicate 32 7%Z ++ prefixed 1 [] ++ prefixed 2 [19; 1]%Z ++ prefixed 1 [0]%Z ++ prefixed 2 extensions).
Definition stream : bytes := record_ (1%Z, take 3 hello) ++ record_ (3%Z, drop 3 hello) ++ str "tail".

Lemma stream_bytes : Forall is_byte stream.
Proof. apply bytesb_ok. vm_compute. reflexivity. Qed.
End Greeting.

Lemma tls_name_exact_witness : (@sniffTls plain_readers Greeting.stream).1 = Ok (str "a.example") /\ tls_stream Greeting.stream (str "a.example").
Proof.
  split; [vm_compute; reflexivity|].
  apply (@tls_name_exact plain_readers plain_readers_laws Greeting.stream (str "a.example") Greeting.stream_bytes). vm_compute. reflexivity.
Defined.
