(* ===== verification/Sniffer.v ===== *)
(** * The stream sniffer (component/sniffing/sniffer.go, conn_sniffer.go)

    A sniffer reads from a connection until a name is found or excluded and keeps what it
    read, which its own [Read] and [WriteBufferedTo] replay. The reader is a [net.Conn];
    closing the channel that releases readers twice is a panic. *)

From S2P Require Import Prelude Netip GoStrings NetipString Trie DomainMatcher Sniff SniffCorrect.

(** ** Errors *)

Inductive error :=
| Sentinel (e : string)
| DeadlineExceeded
| EOF
| ConnError (e : string)
| Wrap (a b : error).

(** [errors.Is] with a sentinel. *)
Fixpoint Is (e : error) (target : string) : bool :=
  match e with
  | Sentinel s => String.eqb s target
  | Wrap a b => Is a target || Is b target
  | _ => false
  end.

(** [errors.Is(err, Error)]: the sentinels wrap it. *)
Fixpoint IsSniffingError (e : error) : bool :=
  match e with
  | Sentinel _ => true
  | Wrap a b => IsSniffingError a || IsSniffingError b
  | _ => false
  end.

(** ** Connections *)

Inductive conn_error := Timeout | Failure (e : string).

(** What a connection will deliver, with the error that comes with the last byte of a
    piece; then the end of the stream. *)
Definition conn : Type := list (bytes * option conn_error).

Definition conn_Read (n : nat) (c : conn) : bytes * option error * conn :=
  match c with
  | [] => ([], Some EOF, [])
  | (data, e) :: c =>
    if length data <=? n then (data, (fun e => match e with Timeout => DeadlineExceeded | Failure e => ConnError e end) <$> e, c)
    else (take n data, None, (drop n data, e) :: c)
  end.

(** Whether the context has expired before a read, and whether the deadline cannot be set. *)
Record read_env := mkReadEnv { expired : bool; deadline_error : bool }.

(** ** State *)

Record Sniffer := mkSniffer {
  stream : bool;
  r : conn;
  tcpTLS : bool;
  sniffed : bytes;
  buf : option bytes;
  dataReady : bool;
  dataError : option error;
}.

Definition NewConnSniffer (c : conn) : Sniffer := mkSniffer true c false [] (Some []) false None.

Definition buffered (s : Sniffer) : bytes := default [] (buf s).

Definition with_tls (s : Sniffer) (flag : option bool) : Sniffer := mkSniffer (stream s) (r s) (default (tcpTLS s) flag) (sniffed s) (buf s) (dataReady s) (dataError s).
Definition with_ready (s : Sniffer) (ready : bool) : Sniffer := mkSniffer (stream s) (r s) (tcpTLS s) (sniffed s) (buf s) ready (dataError s).
Definition with_sniffed (s : Sniffer) (d : bytes) : Sniffer := mkSniffer (stream s) (r s) (tcpTLS s) d (buf s) (dataReady s) (dataError s).

(** [close(s.dataReady)]. *)
Definition close_ready (s : Sniffer) : res Sniffer := if dataReady s then Panic else Ok (with_ready s true).

Definition EthernetMtu : nat := 1500.

(** ** Sniffing *)

(** The buffer is nil only after it has been replayed; writing to it then panics. *)
Definition readConnOnce (env : read_env) (s : Sniffer) : res (Sniffer * option error) :=
  if expired env then s ← close_ready s; Ok (s, Some (Wrap (Sentinel ErrNotApplicable) DeadlineExceeded))
  else if deadline_error env then s ← close_ready s; Ok (s, Some (Wrap (Sentinel ErrNotApplicable) (ConnError "set read deadline")))
  else
    let '(data, err, c) := conn_Read EthernetMtu (r s) in
    buf' ← match data, buf s with [], b => Ok b | _, None => Panic | _, Some b => Ok (Some (b ++ data)) end;
    let some := negb (is_empty data) in
    let '(failed, err) :=
      match err with
      | Some DeadlineExceeded => (dataError s, if some then None else Some (Wrap (Sentinel ErrNotApplicable) DeadlineExceeded))
      | Some e => (Some e, if some then None else Some e)
      | None => (dataError s, None)
      end in
    s ← close_ready (mkSniffer (stream s) c (tcpTLS s) (sniffed s) buf' (dataReady s) failed);
    Ok (s, err).

Definition readStreamOnce (env : read_env) (s : Sniffer) : res (Sniffer * option error) :=
  match dataError s with
  | Some e => s ← close_ready s; Ok (s, Some e)
  | None => readConnOnce env s
  end.

Section Sniff.
Context `{Cryptobyte}.
Context (unicode_ToLower unicode_TrimSpace unicode_TrimRightSpace : bytes -> bytes).

(** The two sniffers on what is buffered. *)
Definition sniff_buffer (b : bytes) : res bytes := sniffGroup unicode_ToLower unicode_TrimSpace unicode_TrimRightSpace [(sniffTls b).1; SniffHttp b].

(** An error after an incomplete attempt wraps both. *)
Definition annotate (oerr : option error) (e : error) : error := match oerr with Some o => Wrap o e | None => e end.

Fixpoint sniff_loop (fuel : nat) (envs : nat -> read_env) (i : nat) (oerr : option error) (s : Sniffer) : res (Sniffer * (bytes + error)) :=
  match fuel with
  | 0 => Panic
  | S fuel =>
    '(s, err) ← if stream s then readStreamOnce (envs i) s else s ← close_ready s; Ok (s, None);
    match err with
    | Some e => Ok (s, inr (annotate oerr e))
    | None =>
      match buf s with
      | None => Panic
      | Some b =>
        if is_empty b then Ok (s, inr (annotate oerr (Sentinel ErrNotApplicable)))
        else
          let s := with_tls s (sniffTls b).2 in
          match sniff_buffer b with
          | Panic => Panic
          | Ok d => Ok (s, inl d)
          | Err e =>
            if String.eqb e ErrNeedMore then
              if negb (stream s) || (streamSniffingMaxBytes <=? length b) then Ok (s, inr (annotate oerr (Sentinel ErrNotFound)))
              else sniff_loop fuel envs (S i) (Some (Sentinel e)) (with_ready s false)
            else Ok (s, inr (annotate oerr (Sentinel e)))
          end
      end
    end
  end.

(** One unit of fuel for every read that can deliver. *)
Definition conn_size (c : conn) : nat := sum_list_with (fun p => S (length p.1)) c.

Definition SniffTcp (envs : nat -> read_env) (s : Sniffer) : res (Sniffer * (bytes + error)) :=
  if negb (is_empty (sniffed s)) then Ok (s, inl (sniffed s))
  else
    '(s, result) ← sniff_loop (S (S (conn_size (r s)))) envs 0 None s;
    match result with
    | inl d => Ok (with_sniffed s d, inl d)
    | inr e => Ok (s, inr e)
    end.
End Sniff.

Definition IsTLS (s : Sniffer) : bool := tcpTLS s.

(** ** Replay *)

(** [None] waits for a sniff to finish. *)
Definition Read (n : nat) (s : Sniffer) : option (bytes * option error * Sniffer) :=
  if negb (dataReady s) then None
  else
    let release b := mkSniffer (stream s) (r s) (tcpTLS s) (sniffed s) b (dataReady s) (dataError s) in
    let rest (s : Sniffer) :=
      match dataError s with
      | Some e => ([], Some e, s)
      | None =>
        if negb (stream s) then ([], Some EOF, s)
        else let '(data, err, c) := conn_Read n (r s) in (data, err, mkSniffer (stream s) c (tcpTLS s) (sniffed s) (buf s) (dataReady s) (dataError s))
      end in
    Some (match buf s with
          | None => rest s
          | Some b =>
            let data := take n b in
            let left := drop n b in
            if negb (is_empty left) then (data, None, release (Some left))
            else
              let s' := release (if stream s then None else Some []) in
              if negb (is_empty data) then (data, dataError s, s') else rest s'
          end).

(** What is written is the buffer. *)
Definition WriteBufferedTo (s : Sniffer) : option (bytes * Sniffer) :=
  if negb (dataReady s) then None
  else Some (buffered s, mkSniffer (stream s) (r s) (tcpTLS s) (sniffed s) None (dataReady s) (dataError s)).
