(* ===== verification/SnifferCorrect.v ===== *)
(** * Correctness of the stream sniffer

    Sniffing loses no byte of a connection, never panics and releases its readers; what it
    finds does not depend on how the stream is cut into reads. *)

From S2P Require Import Prelude Netip GoStrings NetipString Trie DomainMatcher Sniff SniffCorrect Sniffer.

#[local] Instance res_eq_dec {A} `{EqDecision A} : EqDecision (res A).
Proof. solve_decision. Defined.

(** ** Transparency *)

Definition conn_data (c : conn) : bytes := concat c.*1.

(** The bytes that readers of the sniffer are still to see. *)
Definition unread (s : Sniffer) : bytes := buffered s ++ (if stream s then conn_data (r s) else []).

Lemma conn_Read_data n c data err c' : conn_Read n c = (data, err, c') -> data ++ conn_data c' = conn_data c.
Proof.
  destruct c as [|[d e] c]; cbn [conn_Read]; [by intros [= <- _ <-]|]. unfold conn_data. destruct (Nat.leb_spec (length d) n); intros [= <- _ <-]; [done|]. cbn [fmap list_fmap concat fst]. by rewrite app_assoc, take_drop.
Qed.

Lemma conn_Read_size n c data err c' : 0 < n -> conn_Read n c = (data, err, c') -> conn_size c' < conn_size c \/ c = [] /\ c' = [] /\ data = [] /\ err = Some EOF.
Proof.
  intros Hn. destruct c as [|[d e] c]; cbn [conn_Read]; [intros [= <- <- <-]; by right|]. unfold conn_size. destruct (Nat.leb_spec (length d) n); intros [= <- _ <-]; left; cbn [sum_list_with fst]; [lia|]. rewrite length_drop. lia.
Qed.

(** A stream sniffer between reads. *)
Record waiting (s : Sniffer) : Prop := { wa_stream : stream s = true; wa_closed : dataReady s = false; wa_buf : is_Some (buf s) }.

Lemma readStreamOnce_ok env s : waiting s ->
  exists s' err, readStreamOnce env s = Ok (s', err) /\ stream s' = true /\ dataReady s' = true /\ is_Some (buf s') /\ unread s' = unread s /\ buffered s `prefix_of` buffered s' /\
    (err = None -> conn_size (r s') < conn_size (r s)) /\ sniffed s' = sniffed s /\ tcpTLS s' = tcpTLS s.
Proof.
  intros [Hs Hr [b Hb]]. unfold readStreamOnce, readConnOnce, close_ready. destruct (dataError s) as [e|]; [rewrite Hr; cbn [mbind res_bind]; eexists _, _; split; [reflexivity|]; split_and!; try done; by exists b|].
  destruct (expired env); [rewrite Hr; cbn [mbind res_bind]; eexists _, _; split; [reflexivity|]; split_and!; try done; by exists b|].
  destruct (deadline_error env); [rewrite Hr; cbn [mbind res_bind]; eexists _, _; split; [reflexivity|]; split_and!; try done; by exists b|].
  destruct (conn_Read EthernetMtu (r s)) as [[data err] c] eqn:Ec. pose proof (conn_Read_data _ _ _ _ _ Ec) as Ed. apply conn_Read_size in Ec as Hsz; [|unfold EthernetMtu; lia].
  assert (Hbuf : match data, buf s with [], b => Ok b | _, None => Panic | _, Some b => Ok (Some (b ++ data)) end = Ok (Some (b ++ data))) by (rewrite Hb; destruct data; [by rewrite app_nil_r|done]).
  rewrite Hbuf. cbn [mbind res_bind]. set (p := match err with Some DeadlineExceeded => _ | Some _ => _ | None => _ end). destruct p as [failed err'] eqn:Ep. cbn [dataReady]. rewrite Hr. cbn [mbind res_bind].
  eexists _, err'. split; [reflexivity|]. unfold unread, buffered, with_ready. cbn. rewrite Hs, Hb, <-Ed. cbn. rewrite <-app_assoc. split_and!; try done; [by apply prefix_app_r|].
  intros ->. destruct Hsz as [?|(_ & _ & -> & ->)]; [done|]. unfold p in Ep. cbn in Ep. congruence.
Qed.

Section Sniff.
Context `{CryptobyteLaws}.
Context (unicode_ToLower unicode_TrimSpace unicode_TrimRightSpace : bytes -> bytes).
Local Abbreviation sniff_loop := (sniff_loop unicode_ToLower unicode_TrimSpace unicode_TrimRightSpace).
Local Abbreviation sniff_buffer := (sniff_buffer unicode_ToLower unicode_TrimSpace unicode_TrimRightSpace).
Local Abbreviation SniffTcp := (SniffTcp unicode_ToLower unicode_TrimSpace unicode_TrimRightSpace).

Lemma sniff_buffer_returns b : sniff_buffer b <> Panic.
Proof.
  unfold Sniffer.sniff_buffer. pose proof (sniffTls_returns b) as H1. pose proof (SniffHttp_returns b) as H2. cbn [sniffGroup]. destruct (sniffTls b).1 as [|e|]; [done| |done]. destruct (negb _); [done|]. destruct (SniffHttp b) as [|e'|]; [done| |done]. by destruct (negb _).
Qed.

Lemma sniff_loop_ok envs fuel : forall i oerr s, waiting s -> conn_size (r s) < fuel ->
  exists s' result, sniff_loop fuel envs i oerr s = Ok (s', result) /\ stream s' = true /\ dataReady s' = true /\ is_Some (buf s') /\ unread s' = unread s /\ sniffed s' = sniffed s.
Proof.
  induction fuel as [|fuel IH]; intros i oerr s Hw Hf; [lia|]. cbn [Sniffer.sniff_loop]. rewrite (wa_stream _ Hw). destruct (readStreamOnce_ok (envs i) s Hw) as (s1 & err & -> & Hs & Hr & [b Hb] & Hu & _ & Hsz & Hsn & _). cbn [mbind res_bind].
  destruct err as [e|]; [eexists _, _; split; [reflexivity|]; by split_and!|]. rewrite Hb. destruct (is_empty b); [eexists _, _; split; [reflexivity|]; by split_and!|].
  pose proof (sniff_buffer_returns b) as Hp. destruct (sniff_buffer b) as [d|e|]; [eexists _, _; split; [reflexivity|]; unfold with_tls; cbn; by split_and!| |done].
  destruct (String.eqb e ErrNeedMore); [|eexists _, _; split; [reflexivity|]; unfold with_tls; cbn; by split_and!]. cbn [stream with_tls]. rewrite Hs. cbn [negb orb].
  destruct (_ <=? _); [eexists _, _; split; [reflexivity|]; unfold with_tls; cbn; by split_and!|]. specialize (Hsz eq_refl).
  destruct (IH (S i) (Some (Sentinel e)) (with_ready (with_tls s1 (sniffTls b).2) false)) as (s' & result & -> & H1 & H2 & H3 & H4 & H5); [by split; cbn; rewrite ?Hs, ?Hb|change (conn_size (r s1) < fuel); lia|].
  eexists _, _. split; [reflexivity|]. split_and!; try done; [|by rewrite H5]. rewrite H4. unfold unread, buffered in *. cbn. done.
Qed.

Lemma SniffTcp_ok envs s : waiting s -> sniffed s = [] ->
  exists s' result, SniffTcp envs s = Ok (s', result) /\ stream s' = true /\ dataReady s' = true /\ is_Some (buf s') /\ unread s' = unread s.
Proof.
  intros Hw Hs. unfold Sniffer.SniffTcp. rewrite Hs. cbn [is_empty negb]. destruct (sniff_loop_ok envs (S (S (conn_size (r s)))) 0 None s Hw ltac:(lia)) as (s' & result & -> & H1 & H2 & H3 & H4 & _). cbn [mbind res_bind].
  destruct result as [d|e]; eexists _, _; (split; [reflexivity|]); by split_and!.
Qed.

(** A sequence of reads with buffers of the given sizes. *)
Fixpoint reads (sizes : list nat) (s : Sniffer) : option (bytes * Sniffer) :=
  match sizes with
  | [] => Some ([], s)
  | n :: sizes => '(data, _, s) ← Read n s; '(rest, s) ← reads sizes s; Some (data ++ rest, s)
  end.

Lemma Read_ok n s : dataReady s = true -> exists data err s', Read n s = Some (data, err, s') /\ dataReady s' = true /\ data ++ unread s' = unread s /\ stream s' = stream s /\
  (data <> [] -> buffered s <> [] -> data = take n (buffered s)).
Proof.
  intros Hr. unfold Read. rewrite Hr. cbn [negb].
  assert (Hrest : forall s0, dataReady s0 = true -> buffered s0 = [] -> exists data err s', (match dataError s0 with Some e => ([], Some e, s0) | None => if negb (stream s0) then ([], Some EOF, s0) else
    let '(data, err, c) := conn_Read n (r s0) in (data, err, mkSniffer (stream s0) c (tcpTLS s0) (sniffed s0) (buf s0) (dataReady s0) (dataError s0)) end) = (data, err, s') /\
    dataReady s' = true /\ data ++ unread s' = unread s0 /\ stream s' = stream s0).
  { intros s0 Hr0 Hb0. destruct (dataError s0); [by eexists _, _, _|]. destruct (stream s0) eqn:Es; cbn [negb]; [|by eexists _, _, _]. destruct (conn_Read n (r s0)) as [[data err] c] eqn:Ec. apply conn_Read_data in Ec. eexists _, _, _. split; [reflexivity|].
    split; [done|]. split; [|done]. unfold unread, buffered in *. cbn. by rewrite Hb0, Es, <-Ec. }
  destruct (buf s) as [b|] eqn:Eb.
  - destruct (is_empty (drop n b)) eqn:El; cbn [negb].
    + assert (Hd : drop n b = []) by by destruct (drop n b). assert (Ht : take n b = b) by (rewrite <-(take_drop n b) at 2; by rewrite Hd, app_nil_r). destruct (is_empty (take n b)) eqn:Ed; cbn [negb].
      * assert (b = []) as -> by (rewrite <-Ht; by destruct (take n b)). set (s0 := mkSniffer _ _ _ _ _ _ _). assert (Hb0 : buffered s0 = []) by (unfold buffered, s0; cbn; by destruct (stream s)).
        destruct (Hrest s0 eq_refl Hb0) as (data & err & s' & E & H1 & H2 & H3). exists data, err, s'. split; [by f_equal|]. split; [done|]. split; [|split; [done|]]; [|unfold buffered; rewrite Eb; done].
        rewrite H2. unfold unread. rewrite Hb0. unfold buffered. by rewrite Eb.
      * eexists _, _, _. split; [reflexivity|]. split; [done|]. unfold unread, buffered. cbn. rewrite Eb. cbn. split; [|by split]. rewrite Ht. by destruct (stream s).
    + eexists _, _, _. split; [reflexivity|]. split; [done|]. unfold unread, buffered. cbn. rewrite Eb. cbn. split; [by rewrite app_assoc, take_drop|by split].
  - destruct (Hrest s Hr) as (data & err & s' & E & H1 & H2 & H3); [unfold buffered; by rewrite Eb|]. rewrite Hr, Eb in E. exists data, err, s'. split; [by f_equal|]. split_and!; try done. unfold buffered. by rewrite Eb.
Qed.

Lemma reads_ok sizes : forall s, dataReady s = true -> exists data s', reads sizes s = Some (data, s') /\ data ++ unread s' = unread s /\ dataReady s' = true.
Proof.
  induction sizes as [|n sizes IH]; intros s Hr; [by exists [], s|]. destruct (Read_ok n s Hr) as (data & err & s1 & E & H1 & H2 & _ & _). cbn [reads]. rewrite E. cbn [mbind option_bind].
  destruct (IH s1 H1) as (rest & s2 & -> & H3 & H4). cbn [mbind option_bind]. exists (data ++ rest), s2. split; [done|]. split; [|done]. by rewrite <-app_assoc, H3.
Qed.

(** C33: Sniffing a connection, which may time out or fail at any point, neither panics nor
    loses data: it returns, readers are released, and any reads that follow see the bytes
    of the connection from its first, in order and once. *)
Theorem sniff_replays c envs sizes :
  exists s result data s', SniffTcp envs (NewConnSniffer c) = Ok (s, result) /\ reads sizes s = Some (data, s') /\ data ++ unread s' = conn_data c /\
    exists s'', WriteBufferedTo s = Some (buffered s, s'') /\ buffered s ++ unread s'' = conn_data c.
Proof.
  destruct (SniffTcp_ok envs (NewConnSniffer c)) as (s & result & E & Hs & Hr & _ & Hu); [by split|done|]. destruct (reads_ok sizes s Hr) as (data & s' & Er & Hd & _).
  exists s, result, data, s'. split; [done|]. split; [done|]. split; [by rewrite Hd, Hu|]. unfold WriteBufferedTo. rewrite Hr. cbn [negb]. eexists. split; [reflexivity|]. rewrite <-(eq_trans Hu eq_refl : unread s = conn_data c). unfold unread. cbn. by rewrite Hs.
Qed.

(** ** Independence of the cuts *)

Lemma sniff_records_flag fuel : forall records hello, (sniff_records fuel records hello).2 = Some true -> (exists d, (sniff_records fuel records hello).1 = Ok d) \/ (sniff_records fuel records hello).1 = Err ErrNotFound.
Proof.
  induction fuel as [|fuel IH]; intros records hello; [done|]. rewrite sniff_records_step. destruct (next_record records) as [[payload rest]| |]; [|done|done]. destruct (judge _) as [res|] eqn:E; [|apply IH].
  unfold judge in E. destruct (_ <? 4); [done|]. destruct (negb _ || _); [by injection E as <-|]. destruct (_ <=? _); [|done]. injection E as <-. destruct (clientHelloExtensions _) as [ext|e|]; [|done|done]. cbn [fst snd].
  destruct (findSniExtension ext) as [d|e|]; [by left; exists d| |done]. intros [= He]. right. by apply String.eqb_eq in He as ->.
Qed.

Lemma sniff_buffer_stable b ext : b <> [] -> sniff_buffer b <> Err ErrNeedMore -> sniff_buffer (b ++ ext) = sniff_buffer b /\ (sniffTls (b ++ ext)).2 = (sniffTls b).2.
Proof.
  intros Hb Hm. pose proof (sniffTls_returns b) as Hp. unfold Sniffer.sniff_buffer in *. cbn [sniffGroup] in *.
  assert (Ht : (sniffTls b).1 <> Err ErrNeedMore) by (intros E; rewrite E in Hm; done). rewrite (sniffTls_stable b ext Ht Hp). split; [|done]. destruct (sniffTls b).1 as [d|e|]; [done| |done]. destruct (negb (String.eqb e ErrNotApplicable)); [done|].
  assert (Hh : SniffHttp b <> Err ErrNeedMore) by (intros E; rewrite E in Hm; done). by rewrite (SniffHttp_stable b ext Hb Hh).
Qed.

Lemma need_more_flag b : sniff_buffer b = Err ErrNeedMore -> default false (sniffTls b).2 = false.
Proof.
  intros Hm. destruct (sniffTls b).2 as [[]|] eqn:E; [|done|done]. exfalso. unfold Sniffer.sniff_buffer in Hm. cbn [sniffGroup] in Hm. unfold sniffTls in *. destruct (sniff_records_flag _ _ _ E) as [[d Ed]|Ed]; rewrite Ed in Hm; done.
Qed.

(** The verdict on a whole stream. *)
Definition verdict (w : bytes) (result : bytes + error) : Prop :=
  match sniff_buffer w with
  | Ok d => result = inl d
  | Err e => exists err, result = inr err /\ Is err e = true /\ IsSniffingError err = true
  | Panic => False
  end.

Lemma annotate_Is oerr e : Is (annotate oerr (Sentinel e)) e = true /\ IsSniffingError (annotate oerr (Sentinel e)) = true.
Proof. destruct oerr as [o|]; cbn; rewrite String.eqb_refl, ?orb_true_r; done. Qed.

Definition pieces (chunks : list bytes) : conn := map (fun d => (d, None)) chunks.

Lemma conn_Read_pieces d chunks rest : d <> [] -> exists data chunks', conn_Read EthernetMtu (pieces (d :: chunks) ++ rest) = (data, None, pieces chunks' ++ rest) /\ data <> [] /\ concat (d :: chunks) = data ++ concat chunks' /\ (Forall (fun x => x <> []) chunks -> Forall (fun x => x <> []) chunks').
Proof.
  intros Hd. cbn [pieces map app conn_Read]. destruct (Nat.leb_spec (length d) EthernetMtu) as [|Hl]; [exists d, chunks; by split_and!|].
  exists (take EthernetMtu d), (drop EthernetMtu d :: chunks). split; [done|]. assert (Hne : length (take EthernetMtu d) <> 0 /\ length (drop EthernetMtu d) <> 0) by (rewrite length_take, length_drop; unfold EthernetMtu in *; lia).
  split; [by intros E; rewrite E in Hne; destruct Hne|]. split; [cbn; by rewrite app_assoc, take_drop|]. intros Hc. constructor; [|done]. intros E. rewrite E in Hne. by destruct Hne.
Qed.

Lemma conn_size_pieces c n data err c' : 0 < n -> c <> [] -> conn_Read n c = (data, err, c') -> conn_size c' < conn_size c.
Proof. intros Hn Hc E. destruct (conn_Read_size _ _ _ _ _ Hn E) as [?|(-> & _)]; done. Qed.

Lemma sniff_loop_verdict envs (Hlive : forall i, envs i = mkReadEnv false false) w rest : length w <= streamSniffingMaxBytes -> sniff_buffer w <> Err ErrNeedMore -> forall fuel i oerr s b chunks,
  waiting s -> dataError s = None -> tcpTLS s = false -> buf s = Some b -> r s = pieces chunks ++ rest -> Forall (fun x => x <> []) chunks -> chunks <> [] -> w = b ++ concat chunks -> conn_size (r s) < fuel ->
  exists s' result, sniff_loop fuel envs i oerr s = Ok (s', result) /\ verdict w result /\ tcpTLS s' = default false (sniffTls w).2.
Proof.
  intros Hlen Hw. induction fuel as [|fuel IH]; intros i oerr s b chunks [Hs Hr _] He Htls Hb Hc Hne Hch Ew Hf; [lia|]. destruct chunks as [|d chunks]; [done|]. apply Forall_cons in Hne as [Hd Hne].
  destruct (conn_Read_pieces d chunks rest Hd) as (data & chunks' & Er & Hdata & Ec & Hne'). specialize (Hne' Hne). assert (Hsz : conn_size (pieces chunks' ++ rest) < conn_size (r s)) by (rewrite Hc; eapply conn_size_pieces, Er; [unfold EthernetMtu; lia|done]).
  cbn [Sniffer.sniff_loop]. rewrite Hs. unfold readStreamOnce, readConnOnce, close_ready. rewrite He, Hlive. cbn [expired deadline_error]. rewrite Hc, Er, Hb. destruct data as [|x data]; [done|]. set (dat := x :: data) in *. cbn [mbind res_bind fst snd is_empty negb dataReady]. rewrite Hr. cbn [mbind res_bind with_ready buf stream r tcpTLS sniffed dataReady dataError].
  assert (Hbd : b ++ dat <> []) by by destruct b. assert (is_empty (b ++ dat) = false) as -> by by destruct b. rewrite Ec, app_assoc in Ew.
  destruct (decide (sniff_buffer (b ++ dat) = Err ErrNeedMore)) as [Hn|Hn].
  - rewrite Hn. cbn [String.eqb]. rewrite String.eqb_refl. cbn [with_tls stream]. rewrite Hs. cbn [negb orb]. destruct chunks' as [|d' chunks']; [cbn in Ew; rewrite app_nil_r in Ew; congruence|].
    assert (length (b ++ dat) < streamSniffingMaxBytes).
    { rewrite Ew, length_app in Hlen. apply Forall_cons in Hne' as [Hd' _]. destruct d'; [done|]. cbn [concat app length] in Hlen. lia. }
    destruct (Nat.leb_spec streamSniffingMaxBytes (length (b ++ dat))); [lia|]. eapply IH; try done.
    + change (default (tcpTLS s) (sniffTls (b ++ dat)).2 = false). rewrite Htls. by apply need_more_flag.
    + change (conn_size (pieces (d' :: chunks') ++ rest) < fuel). lia.
  - destruct (sniff_buffer_stable (b ++ dat) (concat chunks') Hbd Hn) as [Es Ef]. rewrite <-Ew in Es, Ef. unfold verdict. pose proof (sniff_buffer_returns (b ++ dat)) as Hp. rewrite Es, Ef. destruct (sniff_buffer (b ++ dat)) as [dom|e|]; [| |done].
    + eexists _, _. split; [reflexivity|]. split; [done|]. cbn. by rewrite Htls.
    + destruct (String.eqb_spec e ErrNeedMore) as [->|_]; [done|]. eexists _, _. split; [reflexivity|]. split; [|cbn; by rewrite Htls]. eexists. split; [reflexivity|]. apply annotate_Is.
Qed.

(** C32: What sniffing finds does not depend on how the stream is cut: if the first bytes of
    a connection, at most as many as are buffered, are conclusive, any sequence of reads
    that delivers them, none of them empty and none after the deadline, leads to the same
    name, or the same kind of error, and to the same TLS verdict. *)
Theorem sniff_segmentation envs chunks rest : (forall i, envs i = mkReadEnv false false) -> Forall (fun x => x <> []) chunks -> chunks <> [] ->
  length (concat chunks) <= streamSniffingMaxBytes -> sniff_buffer (concat chunks) <> Err ErrNeedMore ->
  exists s result, SniffTcp envs (NewConnSniffer (pieces chunks ++ rest)) = Ok (s, result) /\ verdict (concat chunks) result /\ IsTLS s = default false (sniffTls (concat chunks)).2.
Proof.
  intros Hlive Hne Hch Hlen Hw. unfold Sniffer.SniffTcp. cbn [sniffed NewConnSniffer is_empty negb].
  destruct (sniff_loop_verdict envs Hlive (concat chunks) rest Hlen Hw (S (S (conn_size (r (NewConnSniffer (pieces chunks ++ rest)))))) 0 None (NewConnSniffer (pieces chunks ++ rest)) [] chunks) as (s & result & -> & Hv & Ht); [by split; cbn|done..|lia|].
  cbn [mbind res_bind]. destruct result as [d|e]; eexists _, _; (split; [reflexivity|]); by split.
Qed.
End Sniff.

(** ** An example *)

Module Sniffed.
(** The greeting arrives in three pieces; later the peer resets the connection. *)
Definition chunks : list bytes := [take 4 Greeting.stream; take 20 (drop 4 Greeting.stream); drop 24 Greeting.stream].
Definition rest : conn := [(str "more", Some (Failure "reset"))].
Definition envs (i : nat) : read_env := mkReadEnv false false.
End Sniffed.

Lemma sniff_replays_witness :
  exists s result data s', @SniffTcp plain_readers id id id Sniffed.envs (NewConnSniffer (pieces Sniffed.chunks ++ Sniffed.rest)) = Ok (s, result) /\ reads [10; 1000] s = Some (data, s') /\
    data ++ unread s' = conn_data (pieces Sniffed.chunks ++ Sniffed.rest).
Proof.
  destruct (@sniff_replays plain_readers plain_readers_laws id id id (pieces Sniffed.chunks ++ Sniffed.rest) Sniffed.envs [10; 1000]) as (s & result & data & s' & H1 & H2 & H3 & _).
  exists s, result, data, s'. split; [exact H1|]. split; [exact H2|exact H3].
Defined.

Lemma sniff_segmentation_witness :
  exists s result, @SniffTcp plain_readers id id id Sniffed.envs (NewConnSniffer (pieces Sniffed.chunks ++ Sniffed.rest)) = Ok (s, result) /\
    @verdict plain_readers id id id (concat Sniffed.chunks) result /\ IsTLS s = default false (@sniffTls plain_readers (concat Sniffed.chunks)).2.
Proof.
  apply (@sniff_segmentation plain_readers plain_readers_laws id id id Sniffed.envs Sniffed.chunks Sniffed.rest).
  - reflexivity.
  - repeat constructor; vm_compute; discriminate.
  - discriminate.
  - apply Nat.leb_le. vm_compute. reflexivity.
  - vm_compute. discriminate.
Defined.
