(* ===== verification/QuicReassembly.v ===== *)
(** * CRYPTO reassembly (component/sniffing/internal/quicutils)

    The frames of decrypted Initial packets (binary.go, reassembly.go): CRYPTO data may
    arrive in any order, twice and with holes, and is kept up to a limit. *)

From S2P Require Import Prelude Netip GoStrings NetipString Trie DomainMatcher Sniff.

(** ** Variable-length integers *)

Definition ErrUnexpectedEOF : string := "unexpected EOF".
Definition ErrOutOfRange : string := "index out of range".
Definition ErrUnknownFrameType : string := "unknown frame type".
Definition ErrClosed : string := "file already closed".
Definition ErrMissingCrypto : string := "missing crypto frame".

Definition BigEndianUvarint (buf : bytes) : res (Z * nat) :=
  match buf with
  | [] => Err ErrUnexpectedEOF
  | b :: rest =>
    let length_ := Z.to_nat (Z.shiftl 1 (shr b 6)) in
    if length buf <? length_ then Err ErrUnexpectedEOF
    else Ok (fold_left (fun x c => Z.lor (shl 64 x 8) c) (take (length_ - 1) rest) (Z.land b 63), length_)
  end.

(** ** Frames *)

Definition Quic_FrameType_Padding : Z := 0.
Definition Quic_FrameType_Ping : Z := 1.
Definition Quic_FrameType_Ack : Z := 2.
Definition Quic_FrameType_AckECN : Z := 3.
Definition Quic_FrameType_Crypto : Z := 6.
Definition Quic_FrameType_ConnectionClose : Z := 28.
Definition Quic_FrameType_ConnectionClose2 : Z := 29.
Definition MaxCryptoReassemblySize : nat := 4096.

Record frame := mkFrame { appOffset : nat; f_data : bytes; isCrypto : bool; frameSize : nat; f_limit : bool }.

Fixpoint padding_size (s : bytes) : nat :=
  match s with
  | c :: s => if (c =? 0)%Z then S (padding_size s) else 0
  | [] => 0
  end.

Section Frame.
Context (remainder : bytes).

Definition read_varint (next : nat) : res (Z * nat) := s ← slice remainder next (length remainder); '(v, n) ← BigEndianUvarint s; Ok (v, next + n).

Definition readAckVarint (next : nat) : res (Z * nat) :=
  match read_varint next with
  | Ok v => Ok v
  | Err _ => Err ErrOutOfRange
  | Panic => Panic
  end.

(** The next fields. *)
Fixpoint ack_fields (n : nat) (next : nat) : res (list Z * nat) :=
  match n with
  | 0 => Ok ([], next)
  | S n => '(v, next) ← readAckVarint next; '(vs, next) ← ack_fields n next; Ok (v :: vs, next)
  end.

(** Every range has two fields of at least a byte, so that the length is fuel enough. *)
Fixpoint ack_ranges (fuel : nat) (count : Z) (next : nat) : res nat :=
  if (count =? 0)%Z then Ok next
  else
    match fuel with
    | 0 => Panic
    | S fuel => '(_, next) ← ack_fields 2 next; ack_ranges fuel (count - 1) next
    end.

Definition extractCryptoFrame : res frame :=
  if is_empty remainder then Err ErrOutOfRange
  else
    '(frameType, next) ← BigEndianUvarint remainder;
    if (frameType =? Quic_FrameType_Ping)%Z then Ok (mkFrame 0 [] false next false)
    else if (frameType =? Quic_FrameType_Padding)%Z then Ok (mkFrame 0 [] false (next + padding_size (drop next remainder)) false)
    else if (frameType =? Quic_FrameType_Ack)%Z || (frameType =? Quic_FrameType_AckECN)%Z then
      '(fields, next) ← ack_fields 4 next;
      ackRangeCount ← idx (fields !! 2);
      next ← ack_ranges (S (length remainder)) ackRangeCount next;
      next ← if (frameType =? Quic_FrameType_AckECN)%Z then '(_, next) ← ack_fields 3 next; Ok next else Ok next;
      Ok (mkFrame 0 [] false next false)
    else if (frameType =? Quic_FrameType_Crypto)%Z then
      '(offset, next) ← read_varint next;
      '(length_, next) ← read_varint next;
      if (Z.of_nat (length remainder - next) <? length_)%Z then Err ErrOutOfRange
      else
        let size := next + Z.to_nat length_ in
        if (Z.of_nat MaxCryptoReassemblySize <=? offset)%Z then Ok (mkFrame 0 [] true size true)
        else
          let '(dataLength, limit) :=
            if (Z.of_nat MaxCryptoReassemblySize - offset <? length_)%Z then (MaxCryptoReassemblySize - Z.to_nat offset, true) else (Z.to_nat length_, false) in
          data ← slice remainder next (next + dataLength);
          Ok (mkFrame (Z.to_nat offset) data true size limit)
    else if (frameType =? Quic_FrameType_ConnectionClose)%Z || (frameType =? Quic_FrameType_ConnectionClose2)%Z then Err ErrClosed
    else Err ErrUnknownFrameType.
End Frame.

(** ** The reassembler *)

Record CryptoReassembler := mkReassembler {
  r_data : bytes;
  covered : list Z;
  dataSize : Z;
  contiguousSize : Z;
  limitExceeded : bool;
}.

Definition new_reassembler : CryptoReassembler := mkReassembler (replicate MaxCryptoReassemblySize 0%Z) (replicate 512 0%Z) 0 0 false.

(** [l[i] |= mask] and the bit of a position. *)
Definition or_at (l : list Z) (i : nat) (mask : Z) : res (list Z) := v ← idx (l !! i); Ok (<[i := Z.lor v (wrap 8 mask)]> l).
Definition bit_of (position : nat) : Z := wrap 8 (Z.shiftl 1 (Z.of_nat (position mod 8))).

(** Coverage of a range in whole bytes. *)
Fixpoint fill (l : list Z) (i n : nat) : res (list Z) :=
  match n with
  | 0 => Ok l
  | S n => _ ← idx (l !! i); fill (<[i := 255%Z]> l) (S i) n
  end.

Definition cover_range (l : list Z) (offset end_ : nat) : res (list Z) :=
  let firstByte := offset / 8 in
  let lastByte := (end_ - 1) / 8 in
  if firstByte =? lastByte then or_at l firstByte (Z.shiftl (Z.shiftl 1 (Z.of_nat (end_ - offset)) - 1) (Z.of_nat (offset mod 8)))
  else
    l ← or_at l firstByte (Z.shiftl 255 (Z.of_nat (offset mod 8)));
    l ← fill l (firstByte + 1) (lastByte - (firstByte + 1));
    let lastWidth := (end_ - 1) mod 8 + 1 in
    or_at l lastByte (Z.shiftl 1 (Z.of_nat lastWidth) - 1).

(** The bytes that are not covered yet. *)
Fixpoint retain_bytes (data : bytes) (cov : list Z) (position : nat) (bs : bytes) : res (bytes * list Z) :=
  match bs with
  | [] => Ok (data, cov)
  | b :: bs =>
    coverage ← idx (cov !! (position / 8));
    if negb (Z.land coverage (bit_of position) =? 0)%Z then retain_bytes data cov (S position) bs
    else
      _ ← idx (data !! position);
      retain_bytes (<[position := b]> data) (<[position / 8 := Z.lor coverage (bit_of position)]> cov) (S position) bs
  end.

(** The fuel is the difference of the sizes. *)
Fixpoint extend_contiguous (fuel : nat) (cov : list Z) (size limit : Z) : res Z :=
  if (size <? limit)%Z then
    match fuel with
    | 0 => Panic
    | S fuel =>
      coverage ← idx (cov !! (Z.to_nat size / 8));
      if (Z.land coverage (bit_of (Z.to_nat size)) =? 0)%Z then Ok size else extend_contiguous fuel cov (wrap 16 (size + 1)) limit
    end
  else Ok size.

Definition retain (r : CryptoReassembler) (offset : nat) (data : bytes) : res CryptoReassembler :=
  let end_ := offset + length data in
  if (dataSize r <=? Z.of_nat offset)%Z then
    if length (r_data r) <? end_ then Panic
    else
      let stored := list_inserts offset data (r_data r) in
      cov ← if offset <? end_ then cover_range (covered r) offset end_ else Ok (covered r);
      Ok (mkReassembler stored cov (wrap 16 (Z.of_nat end_)) (if (contiguousSize r =? Z.of_nat offset)%Z then wrap 16 (Z.of_nat end_) else contiguousSize r) (limitExceeded r))
  else
    let size := if (dataSize r <? Z.of_nat end_)%Z then wrap 16 (Z.of_nat end_) else dataSize r in
    '(stored, cov) ← retain_bytes (r_data r) (covered r) offset data;
    contiguous ← extend_contiguous (Z.to_nat (size - contiguousSize r)) cov (contiguousSize r) size;
    Ok (mkReassembler stored cov size contiguous (limitExceeded r)).

Definition exceed (r : CryptoReassembler) : CryptoReassembler := mkReassembler (r_data r) (covered r) (dataSize r) (contiguousSize r) true.

(** The reassembler as it is when the call returns, and whether the payload has CRYPTO
    data. Every frame has at least a byte: the length is fuel enough. *)
Fixpoint process_frames (fuel : nat) (retained : option CryptoReassembler) (payload : bytes) (hasData : bool) : option CryptoReassembler * res bool :=
  match payload with
  | [] => (retained, Ok hasData)
  | _ =>
    match fuel with
    | 0 => (retained, Panic)
    | S fuel =>
      match extractCryptoFrame payload with
      | Err e => (retained, Err e)
      | Panic => (retained, Panic)
      | Ok f =>
        let retained := if f_limit f then exceed <$> retained else retained in
        let payload := drop (frameSize f) payload in
        if negb (isCrypto f) then process_frames fuel retained payload hasData
        else
          match retained with
          | Some r =>
            if is_empty (f_data f) then process_frames fuel retained payload true
            else match retain r (appOffset f) (f_data f) with
                 | Ok r => process_frames fuel (Some r) payload true
                 | Err e => (retained, Err e)
                 | Panic => (retained, Panic)
                 end
          | None => process_frames fuel None payload true
          end
      end
    end
  end.

Definition processCryptoFrames (retained : option CryptoReassembler) (payload : bytes) : option CryptoReassembler * res bool :=
  process_frames (length payload) retained payload false.

(** The first pass validates the payload, the second one stores it. *)
Definition ReassembleCryptos (retained : option CryptoReassembler) (payload : bytes) : res (option CryptoReassembler) :=
  hasData ← (processCryptoFrames None payload).2;
  if negb hasData then Ok retained
  else
    match processCryptoFrames (Some (default new_reassembler retained)) payload with
    | (_, Panic) => Panic
    | (retained, _) => Ok retained
    end.

Definition WindowComplete (r : option CryptoReassembler) : bool := match r with Some r => (contiguousSize r =? Z.of_nat MaxCryptoReassemblySize)%Z | None => false end.
Definition LimitExceeded (r : option CryptoReassembler) : bool := match r with Some r => limitExceeded r | None => false end.

Definition Bytes (r : option CryptoReassembler) : res bytes :=
  match r with
  | None => Err ErrMissingCrypto
  | Some r => if negb (contiguousSize r =? dataSize r)%Z then Err ErrMissingCrypto else slice (r_data r) 0 (Z.to_nat (dataSize r))
  end.
