(* ===== verification/QuicReassemblyCorrect.v ===== *)
(** * Correctness of CRYPTO reassembly

    A reassembler holds a partial map from positions to bytes, to which frames add what is
    not there yet; what it exposes is the whole map when that has no hole. Payloads of any
    form are processed without a panic. *)

From S2P Require Import Prelude Netip GoStrings NetipString Trie DomainMatcher Sniff QuicReassembly.

Local Abbreviation max_size := MaxCryptoReassemblySize.

(** ** Coverage *)

Definition cov_bit (l : list Z) (p : nat) : bool := match l !! (p / 8) with Some v => tb v (p mod 8) | None => false end.

Lemma div_range p : p = 8 * (p / 8) + p mod 8 /\ p mod 8 < 8.
Proof. split; [apply Nat.div_mod_eq|by apply Nat.mod_upper_bound]. Qed.

Lemma byte_index p n : p < 8 * n -> p / 8 < n.
Proof. intros H. destruct (div_range p). lia. Qed.

Lemma or_at_spec l i mask : i < length l -> exists l', or_at l i mask = Ok l' /\ length l' = length l /\ forall p, cov_bit l' p = cov_bit l p || (p / 8 =? i) && tb mask (p mod 8).
Proof.
  intros Hi. destruct (lookup_lt_is_Some_2 _ _ Hi) as [v Hv]. unfold or_at. rewrite Hv. cbn [idx mbind res_bind]. eexists. split; [reflexivity|]. split; [apply length_insert|]. intros p. unfold cov_bit. destruct (Nat.eqb_spec (p / 8) i) as [->|Hne].
  - rewrite list_lookup_insert_eq by done. rewrite Hv, tb_lor, tb_wrap. destruct (div_range p). destruct (Nat.ltb_spec (p mod 8) 8); [|lia]. done.
  - rewrite list_lookup_insert_ne by done. by rewrite orb_false_r.
Qed.

Lemma tb_ones w n : tb (Z.shiftl 1 (Z.of_nat w) - 1) n = (n <? w).
Proof.
  unfold tb. rewrite Z.shiftl_1_l. replace (2 ^ Z.of_nat w - 1)%Z with (Z.ones (Z.of_nat w)) by (rewrite Z.ones_equiv; lia). destruct (Nat.ltb_spec n w); [apply Z.ones_spec_low; lia|apply Z.ones_spec_high; lia].
Qed.

Lemma tb_255 n : tb 255 n = (n <? 8).
Proof. change 255%Z with (Z.shiftl 1 (Z.of_nat 8) - 1)%Z. apply tb_ones. Qed.

Lemma fill_spec n : forall l i, i + n <= length l -> exists l', fill l i n = Ok l' /\ length l' = length l /\ forall p, cov_bit l' p = cov_bit l p || (i <=? p / 8) && (p / 8 <? i + n).
Proof.
  induction n as [|n IH]; intros l i Hl; cbn [fill].
  - exists l. split; [done|]. split; [done|]. intros p. nat_cases; try lia; by rewrite orb_false_r.
  - destruct (lookup_lt_is_Some_2 l i) as [v Hv]; [lia|]. rewrite Hv. cbn [idx mbind res_bind]. destruct (IH (<[i := 255%Z]> l) (S i)) as (l' & -> & Hlen & Hp); [rewrite length_insert; lia|]. rewrite length_insert in Hlen. exists l'. split; [done|]. split; [done|].
    intros p. rewrite Hp. unfold cov_bit. destruct (decide (p / 8 = i)) as [->|Hne].
    + rewrite list_lookup_insert_eq by lia. destruct (div_range p) as [_ Hm]. rewrite tb_255. nat_cases; try lia; by rewrite ?orb_true_r.
    + rewrite list_lookup_insert_ne by done. f_equal. nat_cases; try lia; done.
Qed.

Lemma cover_range_spec l offset end_ : offset < end_ -> end_ <= 8 * length l ->
  exists l', cover_range l offset end_ = Ok l' /\ length l' = length l /\ forall p, cov_bit l' p = cov_bit l p || (offset <=? p) && (p <? end_).
Proof.
  intros H1 H2. unfold cover_range. destruct (div_range offset) as [Eo Ho], (div_range (end_ - 1)) as [Ee He]. destruct (Nat.eqb_spec (offset / 8) ((end_ - 1) / 8)) as [Eq|Hne].
  - destruct (or_at_spec l (offset / 8) (Z.shiftl (Z.shiftl 1 (Z.of_nat (end_ - offset)) - 1) (Z.of_nat (offset mod 8)))) as (l' & -> & Hl & Hp); [lia|]. exists l'. split; [done|]. split; [done|]. intros p. rewrite Hp, tb_shiftl, tb_ones. f_equal. destruct (div_range p). nat_cases; simpl; try lia; done.
  - destruct (or_at_spec l (offset / 8) (Z.shiftl 255 (Z.of_nat (offset mod 8)))) as (l1 & -> & Hl1 & Hp1); [lia|]. cbn [mbind res_bind].
    destruct (fill_spec ((end_ - 1) / 8 - (offset / 8 + 1)) l1 (offset / 8 + 1)) as (l2 & -> & Hl2 & Hp2); [lia|]. cbn [mbind res_bind].
    destruct (or_at_spec l2 ((end_ - 1) / 8) (Z.shiftl 1 (Z.of_nat ((end_ - 1) mod 8 + 1)) - 1)) as (l3 & -> & Hl3 & Hp3); [lia|]. exists l3. split; [done|]. split; [lia|].
    intros p. rewrite Hp3, Hp2, Hp1, tb_shiftl, tb_255, tb_ones. destruct (div_range p). rewrite <-!orb_assoc. f_equal. nat_cases; simpl; try lia; done.
Qed.

(** ** The map of a reassembler *)

Definition piece (offset : nat) (data : bytes) : gmap nat Z := map_seq offset data.

(** Storage and coverage agree with a map. *)
Record stores (data : bytes) (cov : list Z) (m : gmap nat Z) : Prop := {
  st_data : length data = max_size;
  st_cov : length cov = 512;
  st_covered : forall p, p < max_size -> cov_bit cov p = true <-> is_Some (m !! p);
  st_byte : forall p b, m !! p = Some b -> p < max_size /\ data !! p = Some b;
}.

(** All positions are below a size, the last one is taken. *)
Definition sized (m : gmap nat Z) (d : nat) : Prop := d <= max_size /\ (forall p, is_Some (m !! p) -> p < d) /\ (d = 0 \/ is_Some (m !! (d - 1))).
(** The positions below the size are taken, the next one is not. *)
Definition contiguous (m : gmap nat Z) (c : nat) : Prop := (forall p, p < c -> is_Some (m !! p)) /\ m !! c = None.

Record represents (r : CryptoReassembler) (m : gmap nat Z) : Prop := {
  re_stores : stores (r_data r) (covered r) m;
  re_size : exists d, dataSize r = Z.of_nat d /\ sized m d;
  re_contiguous : exists c, contiguousSize r = Z.of_nat c /\ contiguous m c;
}.

Lemma lookup_piece offset data p : piece offset data !! p = if (offset <=? p) && (p <? offset + length data) then data !! (p - offset) else None.
Proof.
  unfold piece. rewrite lookup_map_seq. destruct (Nat.leb_spec offset p).
  - rewrite option_guard_True by done. destruct (Nat.ltb_spec p (offset + length data)); [done|]. apply lookup_ge_None_2. lia.
  - by rewrite option_guard_False by lia.
Qed.

Lemma piece_is_Some offset data p : is_Some (piece offset data !! p) <-> offset <= p < offset + length data.
Proof.
  rewrite lookup_piece. destruct (Nat.leb_spec offset p), (Nat.ltb_spec p (offset + length data)); cbn [andb]; split; try lia; try (by intros [? ?]).
  intros _. apply lookup_lt_is_Some_2. lia.
Qed.

Lemma union_is_Some (m1 m2 : gmap nat Z) p : is_Some ((m1 ∪ m2) !! p) <-> is_Some (m1 !! p) \/ is_Some (m2 !! p).
Proof. rewrite lookup_union. destruct (m1 !! p), (m2 !! p); cbn; split; try done; (intros [[? ?]|[? ?]] || auto); try done. Qed.

Lemma sized_union m d offset data : sized m d -> offset + length data <= max_size -> data <> [] -> sized (m ∪ piece offset data) (d `max` (offset + length data)).
Proof.
  intros (H1 & H2 & H3) Hl Hd. assert (length data <> 0) by by destruct data. split; [lia|]. split.
  - intros p. rewrite union_is_Some, piece_is_Some. intros [Hp|Hp]; [specialize (H2 p Hp); lia|lia].
  - right. rewrite union_is_Some, piece_is_Some. destruct (Nat.max_spec d (offset + length data)) as [[? ->]|[? ->]]; [right; lia|]. destruct H3 as [->|H3]; [lia|]. by left.
Qed.

Lemma stores_range data cov m offset bs : stores data cov m -> (forall p, is_Some (m !! p) -> p < offset) -> offset + length bs <= max_size -> bs <> [] ->
  exists cov', cover_range cov offset (offset + length bs) = Ok cov' /\ stores (list_inserts offset bs data) cov' (m ∪ piece offset bs).
Proof.
  intros [H1 H2 H3 H4] Hm Hl Hb. assert (length bs <> 0) by by destruct bs. unfold max_size in *. destruct (cover_range_spec cov offset (offset + length bs)) as (cov' & E & Hlen & Hp); [lia|rewrite H2; lia|]. exists cov'. split; [done|]. split; [by rewrite length_inserts|lia| |].
  - intros p Hpm. rewrite Hp, orb_true_iff, andb_true_iff, Nat.leb_le, Nat.ltb_lt, union_is_Some, piece_is_Some, H3 by done. done.
  - intros p b Hlk. apply lookup_union_Some_raw in Hlk as [Hlk|[Hn Hlk]].
    + destruct (H4 p b Hlk) as [Hpm Hd]. split; [done|]. rewrite list_lookup_inserts_lt; [done|]. apply Hm. by exists b.
    + assert (Hs : is_Some (piece offset bs !! p)) by by exists b. apply piece_is_Some in Hs. split; [unfold MaxCryptoReassemblySize; lia|]. rewrite lookup_piece in Hlk. destruct (Nat.leb_spec offset p), (Nat.ltb_spec p (offset + length bs)); cbn in Hlk; try done.
      rewrite list_lookup_inserts; [done|lia|]. rewrite H1. unfold MaxCryptoReassemblySize. lia.
Qed.

Lemma bit_of_lookup cov p v : cov !! (p / 8) = Some v -> negb (Z.land v (bit_of p) =? 0)%Z = cov_bit cov p.
Proof.
  intros Hv. unfold cov_bit. rewrite Hv. destruct (div_range p) as [_ Hm]. unfold bit_of. assert (Hw : wrap 8 (Z.shiftl 1 (Z.of_nat (p mod 8))) = Z.shiftl 1 (Z.of_nat (p mod 8))).
  { apply wrap_id. apply tb_fits; [apply Z.shiftl_nonneg; lia|]. intros n Hn. rewrite tb_one_shl. apply Nat.eqb_neq. lia. }
  rewrite Hw. destruct (tb v (p mod 8)) eqn:E.
  - apply negb_true_iff, Z.eqb_neq. intros E0. assert (Hb : tb (Z.land v (Z.shiftl 1 (Z.of_nat (p mod 8)))) (p mod 8) = false) by (rewrite E0; apply tb_zero). rewrite tb_land, E, tb_one_shl, Nat.eqb_refl in Hb. done.
  - apply negb_false_iff, Z.eqb_eq. apply Z.bits_inj_0. intros n. destruct (Z.neg_nonneg_cases n) as [Hn|Hn]; [by apply Z.testbit_neg_r|]. rewrite Z.land_spec.
    pose proof (tb_one_shl (p mod 8) (Z.to_nat n)) as Ht. unfold tb in Ht, E. rewrite Z2Nat.id in Ht by done. rewrite Ht. destruct (Nat.eqb_spec (Z.to_nat n) (p mod 8)) as [En|]; [|by rewrite andb_false_r]. rewrite <-En, Z2Nat.id in E by done. by rewrite E.
Qed.

Lemma cov_bit_or cov p v q : cov !! (p / 8) = Some v -> cov_bit (<[p / 8 := Z.lor v (bit_of p)]> cov) q = cov_bit cov q || (q =? p).
Proof.
  intros Hv. destruct (or_at_spec cov (p / 8) (Z.shiftl 1 (Z.of_nat (p mod 8)))) as (l' & E & _ & Hp); [by eapply lookup_lt_Some|]. unfold or_at in E. rewrite Hv in E. cbn in E. injection E as <-. unfold bit_of. rewrite Hp, tb_one_shl. f_equal.
  destruct (div_range p), (div_range q). nat_cases; simpl; try lia; done.
Qed.

Lemma stores_bytes bs : forall data cov m position, stores data cov m -> position + length bs <= max_size ->
  exists data' cov', retain_bytes data cov position bs = Ok (data', cov') /\ stores data' cov' (m ∪ piece position bs).
Proof.
  induction bs as [|b bs IH]; intros data cov m position St Hl; cbn [retain_bytes length] in *.
  - exists data, cov. split; [done|]. unfold piece. cbn [map_seq]. by rewrite map_union_empty.
  - destruct St as [H1 H2 H3 H4]. unfold max_size in *. destruct (lookup_lt_is_Some_2 cov (position / 8)) as [v Hv]; [rewrite H2; apply byte_index; lia|]. rewrite Hv. cbn [idx mbind res_bind]. rewrite (bit_of_lookup cov position v Hv).
    assert (Hcons : piece position (b :: bs) = {[position := b]} ∪ piece (S position) bs) by (unfold piece; cbn [map_seq]; by rewrite insert_union_singleton_l). rewrite Hcons, map_union_assoc.
    destruct (cov_bit cov position) eqn:Ec.
    + apply H3 in Ec as [b' Hb']; [|lia]. assert (m ∪ {[position := b]} = m) as ->.
      { apply map_eq. intros p. rewrite lookup_union. destruct (decide (p = position)) as [->|Hne]; [rewrite Hb'; by rewrite union_Some_l|]. rewrite lookup_singleton_ne by done. by destruct (m !! p). }
      apply IH; [by split|lia].
    + destruct (lookup_lt_is_Some_2 data position) as [x Hx]; [rewrite H1; lia|]. rewrite Hx. cbn [idx mbind res_bind]. apply IH; [|lia].
      assert (Hnone : m !! position = None) by (destruct (m !! position) as [z|] eqn:E; [|done]; exfalso; assert (cov_bit cov position = true) by (apply H3; [lia|by exists z]); congruence).
      split; [by rewrite length_insert|by rewrite length_insert| |].
      * intros p Hp. rewrite (cov_bit_or cov position v p Hv), orb_true_iff, Nat.eqb_eq, (H3 p Hp), union_is_Some. destruct (decide (p = position)) as [->|Hne]; [rewrite lookup_singleton_eq; naive_solver|]. rewrite lookup_singleton_ne by done. split; [naive_solver|]. intros [?|[? ?]]; [by left|done].
      * intros p c Hlk. apply lookup_union_Some_raw in Hlk as [Hlk|[Hn Hlk]].
        -- destruct (H4 p c Hlk) as [Hp Hd]. split; [done|]. rewrite list_lookup_insert_ne; [done|]. intros <-. congruence.
        -- apply lookup_singleton_Some in Hlk as [<- <-]. split; [unfold MaxCryptoReassemblySize; lia|]. apply list_lookup_insert_eq. rewrite H1. unfold MaxCryptoReassemblySize. lia.
Qed.

(** ** Retaining data *)

Lemma contiguous_le m c d : contiguous m c -> sized m d -> c <= d.
Proof. intros [H1 _] (_ & H2 & _). destruct c as [|c]; [lia|]. assert (c < d) by (apply H2, H1; lia). lia. Qed.

Lemma wrap16 n : n <= max_size -> wrap 16 (Z.of_nat n) = Z.of_nat n.
Proof. intros H. unfold MaxCryptoReassemblySize in H. apply wrap_id. unfold fits. cbn. lia. Qed.

Lemma extend_contiguous_spec data cov m d : stores data cov m -> sized m d -> forall fuel c, (forall p, p < c -> is_Some (m !! p)) -> c <= d -> d - c <= fuel ->
  exists c', extend_contiguous fuel cov (Z.of_nat c) (Z.of_nat d) = Ok (Z.of_nat c') /\ contiguous m c'.
Proof.
  intros St Sz. destruct Sz as (Hd & Hlt & _). pose proof St as [H1 H2 H3 H4]. induction fuel as [|fuel IH]; intros c Hc Hle Hf; cbn [extend_contiguous]; destruct (Z.ltb_spec (Z.of_nat c) (Z.of_nat d)) as [Hcd|Hcd]; try lia.
  - exists c. split; [done|]. split; [done|]. destruct (m !! c) as [b|] eqn:E; [|done]. assert (c < d) by (apply Hlt; by exists b). lia.
  - rewrite Nat2Z.id. assert (Hcm : c < max_size) by lia. destruct (lookup_lt_is_Some_2 cov (c / 8)) as [v Hv]; [rewrite H2; apply byte_index; unfold MaxCryptoReassemblySize in *; lia|]. rewrite Hv. cbn [idx mbind res_bind]. pose proof (bit_of_lookup cov c v Hv) as Hb.
    destruct (Z.land v (bit_of c) =? 0)%Z; cbn [negb] in Hb.
    + exists c. split; [done|]. split; [done|]. destruct (m !! c) as [b|] eqn:E; [|done]. assert (cov_bit cov c = true) by (apply H3; [done|by exists b]). congruence.
    + assert (Hs : is_Some (m !! c)) by by apply H3. replace (wrap 16 (Z.of_nat c + 1)) with (Z.of_nat (S c)) by (rewrite <-(wrap16 (S c)) by lia; f_equal; lia).
      apply IH; [|lia|lia]. intros p Hp. destruct (decide (p = c)) as [->|]; [done|]. apply Hc. lia.
  - exists c. split; [done|]. split; [done|]. destruct (m !! c) as [b|] eqn:E; [|done]. assert (c < d) by (apply Hlt; by exists b). lia.
Qed.

Lemma retain_spec r m offset data : represents r m -> data <> [] -> offset + length data <= max_size ->
  exists r', retain r offset data = Ok r' /\ represents r' (m ∪ piece offset data) /\ limitExceeded r' = limitExceeded r.
Proof.
  intros [St (d & Ed & Sz) (c & Ec & Ct)] Hne Hl. pose proof (contiguous_le _ _ _ Ct Sz) as Hcd. unfold retain. rewrite Ed, Ec. pose proof (sized_union m d offset data Sz Hl Hne) as Sz'. assert (length data <> 0) by by destruct data.
  destruct (Z.leb_spec (Z.of_nat d) (Z.of_nat offset)) as [Hd|Hd].
  - rewrite (st_data _ _ _ St). destruct (Nat.ltb_spec max_size (offset + length data)); [lia|]. destruct (Nat.ltb_spec offset (offset + length data)); [|lia].
    destruct (stores_range _ _ m offset data St) as (cov' & -> & St'); [intros p Hp; apply Sz in Hp; lia|done|done|]. cbn [mbind res_bind]. rewrite wrap16 by done. eexists. split; [reflexivity|]. split; [|done]. rewrite Nat.max_r in Sz' by lia. split; [done|by eexists|]. cbn [contiguousSize].
    destruct (Z.eqb_spec (Z.of_nat c) (Z.of_nat offset)) as [Eco|Hne'].
    + exists (offset + length data). split; [done|]. split.
      * intros p Hp. rewrite union_is_Some, piece_is_Some. destruct (decide (p < offset)); [left; apply Ct; lia|right; lia].
      * destruct ((m ∪ piece offset data) !! (offset + length data)) eqn:E; [|done]. destruct Sz' as (_ & Hlt & _). assert (offset + length data < offset + length data) by (apply Hlt; by eexists). lia.
    + exists c. split; [done|]. destruct Ct as [C1 C2]. split; [intros p Hp; rewrite union_is_Some; left; by apply C1|]. apply lookup_union_None. split; [done|]. rewrite lookup_piece. destruct (Nat.leb_spec offset c); [lia|done].
  - assert (Hsize : (if (Z.of_nat d <? Z.of_nat (offset + length data))%Z then wrap 16 (Z.of_nat (offset + length data)) else Z.of_nat d) = Z.of_nat (d `max` (offset + length data))) by (rewrite wrap16 by done; destruct (Z.ltb_spec (Z.of_nat d) (Z.of_nat (offset + length data))); lia).
    rewrite Hsize. destruct (stores_bytes data _ _ m offset St Hl) as (stored & cov' & -> & St'). cbn [mbind res_bind].
    destruct (extend_contiguous_spec stored cov' (m ∪ piece offset data) _ St' Sz' (Z.to_nat (Z.of_nat (d `max` (offset + length data)) - Z.of_nat c)) c) as (c' & -> & Ct'); [intros p Hp; rewrite union_is_Some; left; by apply Ct|lia|lia|].
    cbn [mbind res_bind]. eexists. split; [reflexivity|]. split; [|done]. split; [done|by eexists|by eexists].
Qed.

Lemma exceed_represents r m : represents r m -> represents (exceed r) m.
Proof. by intros [H1 H2 H3]. Qed.

Lemma new_represents : represents new_reassembler ∅.
Proof.
  split; cbn [r_data covered dataSize contiguousSize new_reassembler].
  - split; [apply length_replicate|apply length_replicate| |intros p b; by rewrite lookup_empty]. intros p Hp. rewrite lookup_empty. unfold cov_bit. destruct (replicate 512 0%Z !! (p / 8)) as [v|] eqn:E; [apply lookup_replicate in E as [-> _]; rewrite tb_zero|]; (split; [done|by intros [? ?]]).
  - exists 0. split; [done|]. split; [lia|]. split; [|by left]. intros p. rewrite lookup_empty. by intros [? ?].
  - exists 0. split; [done|]. split; [lia|]. apply lookup_empty.
Qed.

(** What is exposed. *)
Lemma Bytes_spec r m l : represents r m -> Bytes (Some r) = Ok l <-> m = piece 0 l.
Proof.
  intros [[H1 H2 H3 H4] (d & Ed & Sz) (c & Ec & Ct)]. unfold Bytes. rewrite Ed, Ec. pose proof Sz as (Hd & Hlt & Hlast). pose proof Ct as [C1 C2]. split.
  - destruct (Z.eqb_spec (Z.of_nat c) (Z.of_nat d)) as [Ecd|]; [|done]. cbn [negb]. apply Nat2Z.inj in Ecd as ->. unfold slice. cbn [andb]. rewrite Nat2Z.id, H1. destruct (Nat.leb_spec d max_size); [|lia]. change (0 <=? d) with true. cbn [andb]. intros [= <-]. rewrite drop_0, Nat.sub_0_r.
    apply map_eq. intros p. rewrite lookup_piece, length_take, H1, Nat.min_l by done. cbn [Nat.leb andb]. rewrite Nat.sub_0_r. destruct (Nat.ltb_spec p (0 + d)) as [Hp|Hp].
    + destruct (C1 p Hp) as [b Hb]. rewrite Hb. destruct (H4 p b Hb) as [_ Hdat]. by rewrite lookup_take_lt by lia.
    + destruct (m !! p) as [b|] eqn:E; [|done]. assert (p < d) by (apply Hlt; by exists b). lia.
  - intros ->. assert (d = length l) as ->.
    { destruct (Nat.lt_trichotomy d (length l)) as [Hd'|[|Hd']]; [|done|].
      - assert (d < d); [|lia]. apply Hlt. apply piece_is_Some. lia.
      - destruct Hlast as [->|Hlast]; [lia|]. apply piece_is_Some in Hlast. lia. }
    assert (c = length l) as ->.
    { destruct (Nat.lt_trichotomy c (length l)) as [Hc|[|Hc]]; [|done|].
      - assert (is_Some (piece 0 l !! c)) as [? Hs] by (apply piece_is_Some; lia). congruence.
      - assert (is_Some (piece 0 l !! length l)) as Hs by (apply C1; lia). apply piece_is_Some in Hs. lia. }
    rewrite Z.eqb_refl. cbn [negb]. unfold slice. rewrite Nat2Z.id, H1. destruct (Nat.leb_spec (length l) max_size); [|lia]. cbn [Nat.leb andb]. rewrite drop_0, Nat.sub_0_r. f_equal. apply list_eq. intros p. destruct (decide (p < length l)) as [Hp|Hp].
    + rewrite lookup_take_lt by lia. destruct (lookup_lt_is_Some_2 l p Hp) as [b Hb]. rewrite Hb. apply H4. rewrite lookup_piece. cbn [Nat.leb andb]. destruct (Nat.ltb_spec p (0 + length l)); [|lia]. by rewrite Nat.sub_0_r.
    + rewrite lookup_take_ge by lia. symmetry. apply lookup_ge_None_2. lia.
Qed.

(** ** Frames *)

Lemma BigEndianUvarint_ok buf v n : Forall is_byte buf -> BigEndianUvarint buf = Ok (v, n) -> 1 <= n <= length buf /\ (0 <= v)%Z.
Proof.
  intros Hb. unfold BigEndianUvarint. destruct buf as [|b rest]; [done|]. apply Forall_cons in Hb as [Hb Hr]. assert (Hb' : (0 <= b < 256)%Z) by exact Hb.
  assert (Hlen : 1 <= Z.to_nat (Z.shiftl 1 (shr b 6))).
  { assert (0 <= shr b 6)%Z by (unfold shr; apply Z.shiftr_nonneg; lia). rewrite Z.shiftl_1_l. assert (0 < 2 ^ shr b 6)%Z by (apply Z.pow_pos_nonneg; lia). lia. }
  set (k := Z.to_nat _) in *. destruct (Nat.ltb_spec (length (b :: rest)) k); [done|]. intros [= <- <-]. split; [lia|]. assert (Hpos : (0 <= Z.land b 63)%Z) by (apply Z.land_nonneg; right; lia). clear -Hr Hpos. revert Hpos. generalize (Z.land b 63).
  assert (Ht : Forall is_byte (take (k - 1) rest)) by by apply Forall_take. revert Ht. generalize (take (k - 1) rest). clear. intros l. induction l as [|c l IH]; intros Hl x Hx; [done|]. apply Forall_cons in Hl as [Hc Hl]. cbn [fold_left]. apply IH; [done|].
  apply Z.lor_nonneg. split; [apply wrap_fits|apply Hc].
Qed.

Lemma BigEndianUvarint_returns buf : BigEndianUvarint buf <> Panic.
Proof. unfold BigEndianUvarint. destruct buf as [|b rest]; [done|]. by destruct (_ <? _). Qed.

Section Frame.
Context (remainder : bytes) (Hb : Forall is_byte remainder).

Lemma read_varint_ok next : next <= length remainder -> match read_varint remainder next with
  | Ok (v, next') => next < next' <= length remainder /\ (0 <= v)%Z
  | Err _ => True
  | Panic => False
  end.
Proof.
  intros Hn. unfold read_varint, slice. rewrite (proj2 (Nat.leb_le next (length remainder))) by done. rewrite Nat.leb_refl. cbn [andb mbind res_bind]. rewrite take_ge by (rewrite length_drop; lia).
  pose proof (BigEndianUvarint_returns (drop next remainder)) as Hp. destruct (BigEndianUvarint (drop next remainder)) as [[v n]| |] eqn:E; [|done|done]. cbn [mbind res_bind]. apply BigEndianUvarint_ok in E; [|by apply Forall_drop]. rewrite length_drop in E. split; lia.
Qed.

Lemma readAckVarint_ok next : next <= length remainder -> match readAckVarint remainder next with
  | Ok (v, next') => next < next' <= length remainder /\ (0 <= v)%Z
  | Err _ => True
  | Panic => False
  end.
Proof. intros Hn. pose proof (read_varint_ok next Hn) as H. unfold readAckVarint. by destruct (read_varint remainder next) as [[v n]| |]. Qed.

Lemma ack_fields_ok n : forall next, next <= length remainder -> match ack_fields remainder n next with
  | Ok (vs, next') => next + n <= next' <= length remainder /\ length vs = n /\ Forall (fun v => 0 <= v)%Z vs
  | Err _ => True
  | Panic => False
  end.
Proof.
  induction n as [|n IH]; intros next Hn; cbn [ack_fields]; [split_and!; lia || done|]. pose proof (readAckVarint_ok next Hn) as H1. destruct (readAckVarint remainder next) as [[v n1]| |]; [|done|done]. cbn [mbind res_bind].
  specialize (IH n1 ltac:(lia)). destruct (ack_fields remainder n n1) as [[vs n2]| |]; [|done|done]. cbn [mbind res_bind]. destruct IH as (? & ? & ?). split; [lia|]. split; [cbn; lia|]. constructor; [lia|done].
Qed.

Lemma ack_ranges_ok fuel : forall count next, (0 <= count)%Z -> next <= length remainder -> length remainder - next < fuel -> match ack_ranges remainder fuel count next with
  | Ok next' => next <= next' <= length remainder
  | Err _ => True
  | Panic => False
  end.
Proof.
  induction fuel as [|fuel IH]; intros count next Hc Hn Hf; [lia|]. cbn [ack_ranges]. destruct (Z.eqb_spec count 0); [lia|]. pose proof (ack_fields_ok 2 next Hn) as H1. destruct (ack_fields remainder 2 next) as [[vs n1]| |]; [|done|done]. cbn [mbind res_bind].
  specialize (IH (count - 1)%Z n1 ltac:(lia) ltac:(lia) ltac:(lia)). destruct (ack_ranges remainder fuel (count - 1) n1); [lia|done|done].
Qed.

Lemma padding_size_le s : padding_size s <= length s.
Proof. induction s as [|c s IH]; cbn; [lia|]. destruct (c =? 0)%Z; lia. Qed.

(** A frame lies within the payload, and its data within the window. *)
Definition frame_ok (f : frame) : Prop := 1 <= frameSize f <= length remainder /\ appOffset f + length (f_data f) <= max_size /\ Forall is_byte (f_data f).

Lemma extractCryptoFrame_ok : match extractCryptoFrame remainder with
  | Ok f => frame_ok f
  | Err _ => True
  | Panic => False
  end.
Proof.
  unfold extractCryptoFrame, frame_ok. destruct (is_empty remainder) eqn:Ee; [done|]. pose proof (BigEndianUvarint_returns remainder) as Hp. destruct (BigEndianUvarint remainder) as [[ty next]| |] eqn:E; [|done|done]. clear Hp. cbn [mbind res_bind]. apply BigEndianUvarint_ok in E as [Hn Hty]; [|done].
  destruct (ty =? Quic_FrameType_Ping)%Z; [cbn; split_and!; [lia..|constructor]|].
  destruct (ty =? Quic_FrameType_Padding)%Z; [pose proof (padding_size_le (drop next remainder)) as Hz; rewrite length_drop in Hz; cbn; split_and!; [lia..|constructor]|].
  destruct (_ || _).
  - pose proof (ack_fields_ok 4 next ltac:(lia)) as H1. destruct (ack_fields remainder 4 next) as [[fields n1]| |]; [|done|done]. cbn [mbind res_bind]. destruct H1 as (H1 & Hl & Hf). destruct (lookup_lt_is_Some_2 fields 2) as [count Hcount]; [lia|]. rewrite Hcount. cbn [idx mbind res_bind].
    assert (Hc0 : (0 <= count)%Z) by (rewrite Forall_forall in Hf; apply Hf; by eapply list_elem_of_lookup_2).
    pose proof (ack_ranges_ok (S (length remainder)) count n1 Hc0 ltac:(lia) ltac:(lia)) as H2. destruct (ack_ranges remainder (S (length remainder)) count n1) as [n2| |]; [|done|done]. cbn [mbind res_bind].
    destruct (ty =? Quic_FrameType_AckECN)%Z; [|cbn; split_and!; [lia..|constructor]]. pose proof (ack_fields_ok 3 n2 ltac:(lia)) as H3. destruct (ack_fields remainder 3 n2) as [[vs n3]| |]; [|done|done]. cbn. split_and!; [lia..|constructor].
  - destruct (ty =? Quic_FrameType_Crypto)%Z; [|by destruct (_ || _)].
    pose proof (read_varint_ok next ltac:(lia)) as H1. destruct (read_varint remainder next) as [[offset n1]| |]; [|done|done]. cbn [mbind res_bind]. pose proof (read_varint_ok n1 ltac:(lia)) as H2. destruct (read_varint remainder n1) as [[len n2]| |]; [|done|done]. cbn [mbind res_bind].
    destruct (Z.ltb_spec (Z.of_nat (length remainder - n2)) len); [done|]. destruct (Z.leb_spec (Z.of_nat max_size) offset); [cbn; split_and!; [lia..|constructor]|].
    set (k := if (_ <? _)%Z then _ else _) in *. assert (Hk : k.1 <= Z.to_nat len /\ Z.to_nat offset + k.1 <= max_size) by (unfold k; destruct (Z.ltb_spec (Z.of_nat max_size - offset) len); cbn [fst]; lia). destruct k as [dl limit]. cbn [fst] in Hk.
    unfold slice. rewrite (proj2 (Nat.leb_le n2 (n2 + dl))) by lia. rewrite (proj2 (Nat.leb_le (n2 + dl) (length remainder))) by lia. cbn [andb mbind res_bind frameSize appOffset f_data]. split; [lia|]. split; [rewrite length_take, length_drop; lia|]. by apply Forall_take, Forall_drop.
Qed.
End Frame.

(** The frames of a payload. *)
Fixpoint parse_frames (fuel : nat) (payload : bytes) : res (list frame) :=
  match payload with
  | [] => Ok []
  | _ =>
    match fuel with
    | 0 => Panic
    | S fuel => f ← extractCryptoFrame payload; fs ← parse_frames fuel (drop (frameSize f) payload); Ok (f :: fs)
    end
  end.
Definition frames (payload : bytes) : res (list frame) := parse_frames (length payload) payload.

(** A frame adds what is not there. *)
Definition absorb (m : gmap nat Z) (f : frame) : gmap nat Z := if isCrypto f then m ∪ piece (appOffset f) (f_data f) else m.

Lemma process_frames_spec fuel : forall payload, Forall is_byte payload -> length payload <= fuel ->
  match parse_frames fuel payload with
  | Ok fs => (forall b, process_frames fuel None payload b = (None, Ok (b || existsb isCrypto fs))) /\
      forall r m b, represents r m -> exists r', process_frames fuel (Some r) payload b = (Some r', Ok (b || existsb isCrypto fs)) /\ represents r' (fold_left absorb fs m) /\ limitExceeded r' = limitExceeded r || existsb f_limit fs
  | Err e => forall b, process_frames fuel None payload b = (None, Err e)
  | Panic => False
  end.
Proof.
  induction fuel as [|fuel IH]; intros payload Hb Hl.
  { destruct payload; [|cbn in Hl; lia]. cbn. split; [intros b; by rewrite orb_false_r|]. intros r m b Hr. exists r. by rewrite !orb_false_r. }
  destruct payload as [|c payload0]; [cbn; split; [intros b; by rewrite orb_false_r|]; intros r m b Hr; exists r; by rewrite !orb_false_r|]. set (payload := c :: payload0) in *. pose proof (extractCryptoFrame_ok payload Hb) as He. cbn [parse_frames process_frames].
  change (match payload with [] => Ok [] | _ :: _ => ?x end) with x. destruct (extractCryptoFrame payload) as [f|e|] eqn:Ef; [|done|done]. cbn [mbind res_bind]. destruct He as (Hs & Hw & Hfb).
  specialize (IH (drop (frameSize f) payload) ltac:(by apply Forall_drop) ltac:(rewrite length_drop; lia)). destruct (parse_frames fuel (drop (frameSize f) payload)) as [fs|e|]; [| |done]; cbn [mbind res_bind existsb fold_left].
  - destruct IH as [IH1 IH2]. split.
    + intros b. cbn. destruct (isCrypto f); cbn [negb]; destruct (f_limit f); rewrite IH1; cbn; by rewrite ?orb_true_r.
    + intros r m b Hr. cbn. assert (Hr0 : exists r0, (if f_limit f then Some (exceed r) else Some r) = Some r0 /\ represents r0 m /\ limitExceeded r0 = limitExceeded r || f_limit f).
      { destruct (f_limit f); [exists (exceed r); split; [done|]; split; [by apply exceed_represents|]; by rewrite orb_true_r|exists r; by rewrite orb_false_r]. }
      destruct Hr0 as (r0 & -> & Hr0 & Hl0). unfold absorb at 2. destruct (isCrypto f) eqn:Ec; cbn [negb orb].
      * destruct (is_empty (f_data f)) eqn:Ed.
        -- destruct (f_data f) eqn:Efd; [|done]. destruct (IH2 r0 m true Hr0) as (r' & E & H1 & H2). exists r'. rewrite E, orb_true_r. split; [done|]. split; [|rewrite H2, Hl0; by rewrite orb_assoc]. unfold piece. cbn [map_seq]. by rewrite map_union_empty.
        -- destruct (retain_spec r0 m (appOffset f) (f_data f) Hr0) as (r1 & -> & Hr1 & Hl1); [by destruct (f_data f)|done|]. destruct (IH2 r1 _ true Hr1) as (r' & E & H1 & H2). exists r'. rewrite E, orb_true_r. split; [done|]. split; [done|]. rewrite H2, Hl1, Hl0. by rewrite orb_assoc.
      * destruct (IH2 r0 m b Hr0) as (r' & E & H1 & H2). exists r'. rewrite E. split; [done|]. split; [done|]. rewrite H2, Hl0. by rewrite orb_assoc.
  - intros b. cbn. destruct (isCrypto f); cbn [negb]; destruct (f_limit f); by rewrite IH.
Qed.

(** A reassembler, or none before the first CRYPTO data. *)
Definition holds (r : option CryptoReassembler) (m : gmap nat Z) : Prop := match r with Some r => represents r m | None => m = ∅ end.

Lemma absorb_none fs m : existsb isCrypto fs = false -> fold_left absorb fs m = m.
Proof. induction fs as [|f fs IH]; [done|]. cbn [existsb fold_left]. rewrite orb_false_iff. intros [Hf Hfs]. unfold absorb at 2. rewrite Hf. by apply IH. Qed.

Lemma reassemble_spec retained m payload : holds retained m -> Forall is_byte payload ->
  match frames payload with
  | Ok fs => exists retained', ReassembleCryptos retained payload = Ok retained' /\ holds retained' (fold_left absorb fs m) /\ (existsb isCrypto fs = true \/ is_Some retained -> is_Some retained')
  | Err e => ReassembleCryptos retained payload = Err e
  | Panic => False
  end.
Proof.
  intros Hh Hb. unfold ReassembleCryptos, processCryptoFrames, frames. pose proof (process_frames_spec (length payload) payload Hb ltac:(lia)) as Hp. destruct (parse_frames (length payload) payload) as [fs|e|]; [| |done].
  - destruct Hp as [H1 H2]. rewrite H1. cbn [snd mbind res_bind orb]. destruct (existsb isCrypto fs) eqn:Ec; cbn [negb].
    + assert (Hr : represents (default new_reassembler retained) m) by (destruct retained; [done|]; cbn in Hh; subst m; apply new_represents). destruct (H2 _ _ false Hr) as (r' & -> & Hr' & _). exists (Some r'). by split_and!.
    + exists retained. split; [done|]. split; [by rewrite absorb_none|]. by intros [?|?].
  - by rewrite Hp.
Qed.

(** C30: Reassembly implements a map from positions to bytes: a payload that parses adds the
    data of its CRYPTO frames where the map has nothing, one that does not parse returns
    its error and no new state; the bytes exposed are the map when it is
    the map of a list, and nothing otherwise. No payload makes it panic. *)
Theorem reassembly_refines retained m payload : holds retained m -> Forall is_byte payload ->
  match frames payload with
  | Ok fs => exists retained', ReassembleCryptos retained payload = Ok retained' /\ holds retained' (fold_left absorb fs m) /\
      forall l, is_Some retained' -> Bytes retained' = Ok l <-> fold_left absorb fs m = piece 0 l
  | Err e => ReassembleCryptos retained payload = Err e
  | Panic => False
  end.
Proof.
  intros Hh Hb. pose proof (reassemble_spec retained m payload Hh Hb) as H. destruct (frames payload) as [fs|e|]; [|done|done]. destruct H as (r' & E & Hr & _). exists r'. split; [done|]. split; [done|]. intros l [r ->]. by apply Bytes_spec.
Qed.

(** ** Fragments of one stream *)

Definition fragment (hello : bytes) (f : frame) : Prop := isCrypto f = true -> f_data f = take (length (f_data f)) (drop (appOffset f) hello).

Lemma fragment_subseteq hello f : fragment hello f -> isCrypto f = true -> piece (appOffset f) (f_data f) ⊆ piece 0 hello.
Proof.
  intros Hf Hc. specialize (Hf Hc). apply map_subseteq_spec. intros p b. rewrite !lookup_piece. destruct (Nat.leb_spec (appOffset f) p), (Nat.ltb_spec p (appOffset f + length (f_data f))); cbn [andb]; try done.
  rewrite Hf. rewrite lookup_take_Some, lookup_drop. intros [Hb _]. replace (appOffset f + (p - appOffset f)) with p in Hb by lia. cbn [Nat.leb andb]. rewrite Nat.sub_0_r. destruct (Nat.ltb_spec p (0 + length hello)); [done|]. apply lookup_lt_Some in Hb. lia.
Qed.

Lemma absorb_subseteq hello fs : Forall (fragment hello) fs -> forall m, m ⊆ piece 0 hello -> fold_left absorb fs m ⊆ piece 0 hello.
Proof.
  induction 1 as [|f fs Hf _ IH]; intros m Hm; [done|]. cbn [fold_left]. apply IH. unfold absorb. destruct (isCrypto f) eqn:Ec; [|done]. apply map_union_least; [done|by apply fragment_subseteq].
Qed.

Lemma absorb_grows fs : forall m, m ⊆ fold_left absorb fs m.
Proof. induction fs as [|f fs IH]; intros m; [done|]. cbn [fold_left]. etrans; [|apply IH]. unfold absorb. destruct (isCrypto f); [|done]. apply map_union_subseteq_l. Qed.

Definition reaches (f : frame) (p : nat) : Prop := isCrypto f = true /\ appOffset f <= p < appOffset f + length (f_data f).

Lemma absorb_covers f p fs : f ∈ fs -> reaches f p -> forall m, is_Some (fold_left absorb fs m !! p).
Proof.
  intros Hin [Hc Hp]. induction fs as [|g fs IH]; intros m; [by apply elem_of_nil in Hin|]. cbn [fold_left]. apply elem_of_cons in Hin as [<-|Hin]; [|by apply IH].
  assert (Hs : is_Some (absorb m f !! p)) by (unfold absorb; rewrite Hc, union_is_Some, piece_is_Some; by right). destruct Hs as [b Hs]. exists b. eapply lookup_weaken; [exact Hs|apply absorb_grows].
Qed.

Lemma absorb_from p fs : forall m, is_Some (fold_left absorb fs m !! p) -> is_Some (m !! p) \/ exists f, f ∈ fs /\ reaches f p.
Proof.
  induction fs as [|g fs IH]; intros m; [by left|]. cbn [fold_left]. intros H. destruct (IH _ H) as [Hs|(f & Hf & Hr)]; [|right; exists f; split; [by right|done]]. unfold absorb in Hs. destruct (isCrypto g) eqn:Ec; [|by left].
  rewrite union_is_Some, piece_is_Some in Hs. destruct Hs as [Hs|Hs]; [by left|]. right. exists g. split; [by left|by split].
Qed.

(** A position has arrived before, or in a frame of the payloads. *)
Definition arrived (m : gmap nat Z) (payloads : list bytes) (p : nat) : Prop :=
  is_Some (m !! p) \/ exists payload fs f, payload ∈ payloads /\ frames payload = Ok fs /\ f ∈ fs /\ reaches f p.

Lemma reassemble_all hello payloads : Forall (Forall is_byte) payloads -> Forall (fun payload => exists fs, frames payload = Ok fs /\ Forall (fragment hello) fs) payloads -> forall r m, holds r m -> m ⊆ piece 0 hello ->
  exists r' m', foldM ReassembleCryptos r payloads = Ok r' /\ holds r' m' /\ m ⊆ m' /\ m' ⊆ piece 0 hello /\ (is_Some r -> is_Some r') /\
    (forall payload fs f p, payload ∈ payloads -> frames payload = Ok fs -> f ∈ fs -> reaches f p -> is_Some (m' !! p) /\ is_Some r') /\ (forall p, is_Some (m' !! p) -> arrived m payloads p).
Proof.
  intros Hb Hf. induction payloads as [|payload payloads IH]; intros r m Hh Hm; [exists r, m; split_and!; try done; [intros ???? Hin; by apply elem_of_nil in Hin|by left]|].
  apply Forall_cons in Hb as [Hb Hbs]. apply Forall_cons in Hf as [(fs & Ef & Hfs) Hf]. pose proof (reassemble_spec r m payload Hh Hb) as Hr. rewrite Ef in Hr. destruct Hr as (r1 & E1 & H1 & Hs1). cbn [foldM]. rewrite E1. cbn [mbind res_bind].
  destruct (IH Hbs Hf r1 (fold_left absorb fs m) H1) as (r' & m' & E & Hh' & Hgrow & Hsub & Hsome & Hcov & Hfrom); [by apply absorb_subseteq|]. exists r', m'. split; [done|]. split; [done|]. split; [etrans; [apply absorb_grows|exact Hgrow]|]. split; [done|]. split_and!.
  - intros Hr. apply Hsome, Hs1. by right.
  - intros payload' fs' f p Hin Ef' Hf' Hr. apply elem_of_cons in Hin as [->|Hin]; [|by eapply Hcov]. rewrite Ef in Ef'. injection Ef' as <-. destruct (absorb_covers f p fs Hf' Hr m) as [b Hb']. split; [exists b; by eapply lookup_weaken|]. apply Hsome, Hs1. left. apply existsb_exists. exists f. split; [by apply list_elem_of_In|apply Hr].
  - intros p Hp. destruct (Hfrom p Hp) as [Hs|(payload' & fs' & f & Hin & Ef' & Hf' & Hr)]; [|right; exists payload', fs', f; split; [by right|done]]. destruct (absorb_from p fs m Hs) as [Hs'|(f & Hf' & Hr)]; [by left|]. right. exists payload, fs, f. split; [by left|done].
Qed.

(** CRYPTO data in any order: however the fragments of a handshake are cut, repeated,
    permuted and spread over payloads, the bytes exposed are a prefix of the handshake, and
    once every byte of the window has arrived they are all of it. *)
Theorem crypto_any_order hello payloads : Forall (Forall is_byte) payloads -> Forall (fun payload => exists fs, frames payload = Ok fs /\ Forall (fragment hello) fs) payloads ->
  exists r, foldM ReassembleCryptos None payloads = Ok r /\ (forall l, Bytes r = Ok l -> l `prefix_of` hello) /\
    (hello <> [] -> (forall p, p < MaxCryptoReassemblySize -> p < length hello -> exists payload fs f, payload ∈ payloads /\ frames payload = Ok fs /\ f ∈ fs /\ reaches f p) ->
     Bytes r = Ok (take MaxCryptoReassemblySize hello)).
Proof.
  intros Hb Hf. destruct (reassemble_all hello payloads Hb Hf None ∅ eq_refl ltac:(apply map_empty_subseteq)) as (r & m & E & Hh & _ & Hsub & _ & Hcov & _). exists r. split; [done|]. split.
  - intros l Hl. destruct r as [r|]; [|done]. apply (Bytes_spec _ m) in Hl; [|done]. subst m. rewrite map_subseteq_spec in Hsub. assert (Hlk : forall p b, l !! p = Some b -> hello !! p = Some b).
    { intros p b Hp. pose proof (lookup_lt_Some _ _ _ Hp) as Hlt. specialize (Hsub p b). rewrite !lookup_piece in Hsub. cbn [Nat.leb andb] in Hsub. rewrite Nat.sub_0_r in Hsub. destruct (Nat.ltb_spec p (0 + length l)); [|lia]. specialize (Hsub Hp). by destruct (_ <? _). }
    exists (drop (length l) hello). apply list_eq. intros p. destruct (decide (p < length l)) as [Hp|Hp].
    + rewrite lookup_app_l by done. destruct (lookup_lt_is_Some_2 l p Hp) as [b Hb']. by rewrite Hb', (Hlk p b).
    + rewrite lookup_app_r by lia. rewrite lookup_drop. f_equal. lia.
  - intros Hne Hall. assert (Hlen : length hello <> 0) by by destruct hello. destruct (Hall 0) as (payload & fs & f & H1 & H2 & H3 & H4); [unfold MaxCryptoReassemblySize; lia|lia|]. destruct (Hcov _ _ _ _ H1 H2 H3 H4) as [_ [r0 ->]]. apply (Bytes_spec _ m); [done|]. apply map_eq. intros p. rewrite lookup_piece, length_take. cbn [Nat.leb andb]. rewrite Nat.sub_0_r.
    destruct (Nat.ltb_spec p (0 + max_size `min` length hello)) as [Hp|Hp].
    + destruct (Hall p) as (payload' & fs' & f' & G1 & G2 & G3 & G4); [lia|lia|]. destruct (Hcov _ _ _ _ G1 G2 G3 G4) as [[b Hm] _]. rewrite Hm, lookup_take_lt by lia. symmetry. rewrite map_subseteq_spec in Hsub. specialize (Hsub p b Hm). rewrite lookup_piece in Hsub. cbn [Nat.leb andb] in Hsub. rewrite Nat.sub_0_r in Hsub. by destruct (_ <? _).
    + destruct (m !! p) as [b|] eqn:Em; [|done]. destruct (st_byte _ _ _ (re_stores _ _ Hh) p b Em) as [Hpm _]. rewrite map_subseteq_spec in Hsub. specialize (Hsub p b Em). rewrite lookup_piece in Hsub. cbn [Nat.leb andb] in Hsub. destruct (Nat.ltb_spec p (0 + length hello)); [lia|done].
Qed.

(** ** An example *)

(** Two fragments, the second one first, then one that repeats and contradicts it. *)
Definition scattered : bytes := [6; 2; 2; 30; 40; 6; 0; 2; 10; 20; 6; 1; 2; 99; 99]%Z.

Lemma reassembly_refines_witness : exists retained', ReassembleCryptos None scattered = Ok retained' /\ Bytes retained' = Ok [10; 20; 30; 40]%Z.
Proof.
  assert (Hb : Forall is_byte scattered) by (apply bytesb_ok; vm_compute; reflexivity).
  pose proof (reassembly_refines None ∅ scattered eq_refl Hb) as H.
  destruct (frames scattered) as [fs|e|] eqn:E; vm_compute in E; [|discriminate E|discriminate E]. injection E as <-.
  destruct H as (r & E & Hh & Hl). exists r. split; [exact E|]. apply Hl.
  - destruct r as [r|]; [exists r; reflexivity|]. vm_compute in Hh. discriminate Hh.
  - apply (bool_decide_unpack _). vm_compute. reflexivity.
Defined.
