(* ===== verification/SniffQuic.v ===== *)
(** * Sniffing QUIC (component/sniffing/quic.go, sniffer.go, internal/quicutils)

    The keys of Initial packets (hkdf.go, version.go, cipher.go), their headers, which are
    unprotected in place and restored, and the sniffer of buffered datagrams. *)

From S2P Require Import Prelude Netip GoStrings NetipString Trie DomainMatcher Sniff QuicReassembly.

(** ** Cryptography outside the repository

    [hkdf.Extract] and [hkdf.Expand] with SHA-256, one block of AES and the opening of
    AES-GCM; [None] is an error. *)
Class QuicCrypto := {
  hkdf_Extract : bytes -> bytes -> bytes;
  hkdf_Expand : bytes -> bytes -> nat -> option bytes;
  aes_Encrypt : bytes -> bytes -> option bytes;
  gcm_Open : bytes -> bytes -> bytes -> bytes -> option bytes;
}.

(** Lengths, and that results are bytes. *)
Class QuicCryptoLaws `{QuicCrypto} : Prop := {
  expand_length : forall secret info n out, hkdf_Expand secret info n = Some out -> length out = n;
  aes_length : forall key block out, aes_Encrypt key block = Some out -> length out = 16 /\ Forall is_byte out;
  gcm_bytes : forall key nonce ciphertext ad out, gcm_Open key nonce ciphertext ad = Some out -> Forall is_byte out;
}.

(** ** Versions (version.go) *)

Inductive Version := Version_Draft | Version_V1 | Version_V2.

#[export] Instance Version_eq_dec : EqDecision Version.
Proof. solve_decision. Defined.

Definition ParseVersion (version : Z) : option Version :=
  if (version =? 1798521807)%Z then Some Version_V2
  else if (version =? 1)%Z then Some Version_V1
  else if (Z.land version 4278190080 =? 4278190080)%Z then Some Version_Draft
  else None.

Definition InitialSalt (v : Version) : bytes :=
  match v with
  | Version_Draft => [175; 191; 236; 40; 153; 147; 210; 76; 158; 151; 134; 241; 156; 97; 17; 224; 67; 144; 168; 153]
  | Version_V1 => [56; 118; 44; 247; 245; 89; 52; 179; 77; 23; 154; 230; 164; 200; 12; 173; 204; 187; 127; 10]
  | Version_V2 => [13; 237; 227; 222; 247; 0; 166; 219; 129; 147; 129; 190; 110; 38; 157; 203; 249; 189; 46; 217]
  end%Z.
Definition HpLabel (v : Version) : bytes := match v with Version_V2 => str "quicv2 hp" | _ => str "quic hp" end.
Definition KeyLabel (v : Version) : bytes := match v with Version_V2 => str "quicv2 key" | _ => str "quic key" end.
Definition IvLabel (v : Version) : bytes := match v with Version_V2 => str "quicv2 iv" | _ => str "quic iv" end.

(** ** Keys (hkdf.go, cipher.go) *)

Definition MaxPacketNumberLength : nat := 4.
Definition SampleSize : nat := 16.
Definition InitialClientLabel : bytes := str "client in".

Record Keys := mkKeys { k_version : Version; clientInitialSecret : bytes; k_key : bytes; k_iv : bytes; headerProtectionKey : bytes }.

Definition xor_bytes (a b : bytes) : bytes := zip_with Z.lxor a b.

Section Crypto.
Context `{QuicCrypto}.

Definition HkdfExpandLabel (secret label context : bytes) (length_ : nat) : option bytes :=
  hkdf_Expand secret
    ([wrap 8 (shr (Z.of_nat length_) 8); wrap 8 (Z.of_nat length_); wrap 8 (Z.of_nat (6 + length label))] ++ str "tls13 " ++ label ++ [wrap 8 (Z.of_nat (length context))] ++ context) length_.

Definition deriveKeys (version : Version) (secret : bytes) : option Keys :=
  key ← HkdfExpandLabel secret (KeyLabel version) [] 16;
  iv ← HkdfExpandLabel secret (IvLabel version) [] 12;
  hp ← HkdfExpandLabel secret (HpLabel version) [] 16;
  Some (mkKeys version secret key iv hp).

Definition NewKeys (clientDstConnectionId : bytes) (version : Version) : option Keys :=
  let initialSecret := hkdf_Extract clientDstConnectionId (InitialSalt version) in
  secret ← HkdfExpandLabel initialSecret InitialClientLabel [] 32;
  deriveKeys version secret.

(** The first byte and the packet number without protection. *)
Definition HeaderProtection_ (k : Keys) (sample : bytes) (longHeader : bool) (firstByte : Z) (potential : bytes) : res (Z * bytes) :=
  match aes_Encrypt (headerProtectionKey k) sample with
  | None => Err "aes"
  | Some mask =>
    m0 ← idx (mask !! 0);
    let first := Z.lxor firstByte (Z.land m0 (if longHeader then 15 else 31)) in
    let n := Z.to_nat (Z.land first 3 + 1) in
    packetNumber ← slice potential 0 n;
    mask ← slice mask 1 (1 + n);
    Ok (first, xor_bytes packetNumber mask)
  end.

Definition PayloadDecrypt (k : Keys) (ciphertext packetNumber header : bytes) : res bytes :=
  let at_ := length (k_iv k) - length packetNumber in
  if length (k_iv k) <? length packetNumber then Panic
  else
    let iv := take at_ (k_iv k) ++ xor_bytes (drop at_ (k_iv k)) packetNumber in
    match gcm_Open (k_key k) iv ciphertext header with
    | Some plaintext => Ok plaintext
    | None => Err "cipher: message authentication failed"
    end.

Definition Uint32 (s : bytes) : res Z := s ← slice s 0 4; Ok (big_endian s).

(** The packet after the call, with its header unprotected as far as the call came, and
    the plaintext. *)
Definition DecryptQuic_ (packet : bytes) (headerEnd blockEnd : nat) (destConnId : bytes) : bytes * res bytes :=
  match (v ← slice packet 1 headerEnd; v ← Uint32 v; Ok (ParseVersion v)) with
  | Err e => (packet, Err e)
  | Panic => (packet, Panic)
  | Ok None => (packet, Err "unknown version")
  | Ok (Some version) =>
    match NewKeys destConnId version with
    | None => (packet, Err "hkdf")
    | Some keys =>
      if blockEnd - headerEnd <? SampleSize then (packet, Err ErrUnexpectedEOF)
      else
        match (sample ← slice packet headerEnd (headerEnd + SampleSize);
               first ← idx (packet !! 0);
               potential ← slice packet (headerEnd - MaxPacketNumberLength) headerEnd;
               HeaderProtection_ keys sample true first potential) with
        | Err e => (packet, Err e)
        | Panic => (packet, Panic)
        | Ok (first, packetNumber) =>
          let pn := headerEnd - MaxPacketNumberLength in
          let packet := list_inserts pn packetNumber (<[0 := first]> packet) in
          (packet,
           header ← slice packet 0 (pn + length packetNumber);
           payload ← slice packet (pn + length packetNumber) blockEnd;
           PayloadDecrypt keys payload packetNumber header)
        end
    end
  end.
End Crypto.

(** ** Packets (quic.go) *)

(** The connection identifier, the end of the longest header and the end of the packet. *)
Definition parseQuicInitialHeader (buf : bytes) : res (option (bytes * nat * nat)) :=
  if length buf <? 6 then Ok None
  else
    flag ← idx (buf !! 0);
    if negb (Z.land (shr flag 7) 3 =? 1)%Z then Ok None
    else
      v ← slice buf 1 5;
      match ParseVersion (big_endian v) with
      | None => Ok None
      | Some version =>
        let initialType := if bool_decide (version = Version_V2) then 1%Z else 0%Z in
        if negb (Z.land (shr flag 4) 3 =? initialType)%Z then Ok None
        else
          let cursor := 6 in
          dlen ← idx (buf !! (cursor - 1));
          let destConnIdLength := Z.to_nat dlen in
          if length buf - cursor <? destConnIdLength then Ok None
          else
            destConnId ← slice buf cursor (cursor + destConnIdLength);
            let cursor := cursor + destConnIdLength in
            if length buf <=? cursor then Ok None
            else
              slen ← idx (buf !! cursor);
              let cursor := S cursor in
              if length buf - cursor <? Z.to_nat slen then Ok None
              else
                let cursor := cursor + Z.to_nat slen in
                rest ← slice buf cursor (length buf);
                match BigEndianUvarint rest with
                | Panic => Panic
                | Err _ => Ok None
                | Ok (tokenLength, n) =>
                  let cursor := cursor + n in
                  if (Z.of_nat (length buf - cursor) <? tokenLength)%Z then Ok None
                  else
                    let cursor := cursor + Z.to_nat tokenLength in
                    rest ← slice buf cursor (length buf);
                    match BigEndianUvarint rest with
                    | Panic => Panic
                    | Err _ => Ok None
                    | Ok (length_, n) =>
                      let cursor := cursor + n in
                      if (Z.of_nat (length buf - cursor) <? length_)%Z || (length_ <? Z.of_nat MaxPacketNumberLength)%Z then Ok None
                      else Ok (Some (destConnId, cursor + MaxPacketNumberLength, cursor + Z.to_nat length_))
                    end
                end
      end.

Section Sniff.
Context `{Cryptobyte} `{QuicCrypto}.

(** The bytes of the block when the call returns, the reassembler, what is left and the
    error. *)
Definition sniffQuicBlock (cryptos : option CryptoReassembler) (buf : bytes) : res (bytes * option CryptoReassembler * bytes * option string) :=
  header ← parseQuicInitialHeader buf;
  match header with
  | None => Ok (buf, cryptos, [], Some ErrNotApplicable)
  | Some (destConnId, headerEnd, packetEnd) =>
    originalFirstByte ← idx (buf !! 0);
    originalPacketNumber ← slice buf (headerEnd - MaxPacketNumberLength) headerEnd;
    let '(opened, plaintext) := DecryptQuic_ buf headerEnd packetEnd destConnId in
    let restored := list_inserts (headerEnd - MaxPacketNumberLength) originalPacketNumber (<[0 := originalFirstByte]> opened) in
    match plaintext with
    | Panic => Panic
    | Err _ => Ok (restored, cryptos, [], Some ErrNotApplicable)
    | Ok plaintext =>
      next ← slice restored packetEnd (length restored);
      match ReassembleCryptos cryptos plaintext with
      | Panic => Panic
      | Err e => if String.eqb e ErrClosed then Ok (restored, cryptos, [], Some e) else Ok (restored, cryptos, next, Some ErrNotApplicable)
      | Ok new => Ok (restored, new, next, None)
      end
    end
  end.

(** The whole buffer, the reassembler and the error of the loop; every block has at least
    a byte, so that the length is fuel enough. *)
Fixpoint sniff_blocks (fuel : nat) (before : bytes) (cryptos : option CryptoReassembler) (remaining : bytes) (parsedInitial : bool) : res (bytes * option CryptoReassembler * option string) :=
  match fuel with
  | 0 => Panic
  | S fuel =>
    '(buf, cryptos, next, err) ← sniffQuicBlock cryptos remaining;
    match err with
    | None =>
      if is_empty next then Ok (before ++ buf, cryptos, None)
      else sniff_blocks fuel (before ++ take (length buf - length next) buf) cryptos next true
    | Some e =>
      if String.eqb e ErrNotApplicable && parsedInitial then Ok (before ++ buf, cryptos, None)
      else if String.eqb e ErrClosed then Ok (before ++ buf, cryptos, Some ErrNotFound)
      else Ok (before ++ buf, cryptos, Some e)
    end
  end.

(** [hasHTTP3ALPN]. *)
Fixpoint has_h3 (fuel : nat) (protocols : bytes) (found : bool) : bool :=
  match protocols, fuel with
  | [], _ => found
  | _, 0 => false
  | _, S fuel =>
    match ReadUint8LengthPrefixed protocols with
    | None => false
    | Some (protocol, protocols) => if is_empty protocol then false else has_h3 fuel protocols (found || bool_decide (protocol = str "h3"))
    end
  end.
Definition hasHTTP3ALPN (extensions : bytes) : bool :=
  match findTLSExtension extensions 16 with
  | Ok data =>
    match ReadUint16LengthPrefixed data with
    | Some (protocols, rest) => if negb (is_empty rest) || is_empty protocols then false else has_h3 (length protocols) protocols false
    | None => false
    end
  | _ => false
  end.

(** ** The sniffer of datagrams (sniffer.go) *)

Definition packetSniffingMaxBufferedBytes : nat := 64 * 1024.
Definition packetSniffingMaxPackets : nat := 32.

Record PacketSniffer := mkPacketSniffer {
  p_sniffed : bytes;
  p_buf : bytes;
  Data : list bytes;
  NeedMore : bool;
  packetBytes : nat;
  packetCount : nat;
  packetLimit : bool;
  quicNextRead : nat;
  quicCryptos : option CryptoReassembler;
  IsHTTP3 : bool;
}.

Definition NewPacketSniffer (data : bytes) : PacketSniffer :=
  if is_empty data then mkPacketSniffer [] data [data] false 0 0 false 0 None false
  else mkPacketSniffer [] data [data] false (length data) 1 (packetSniffingMaxBufferedBytes <? length data) 0 None false.

Definition AppendData (data : bytes) (s : PacketSniffer) : PacketSniffer :=
  mkPacketSniffer (p_sniffed s) (p_buf s ++ data) (Data s ++ [data]) false (packetBytes s + length data) (S (packetCount s))
    (packetLimit s || (packetSniffingMaxPackets <=? packetCount s) || (packetSniffingMaxBufferedBytes <? packetBytes s + length data)) (quicNextRead s) (quicCryptos s) (IsHTTP3 s).

Definition sniffQuicLocked (s : PacketSniffer) : res (PacketSniffer * res bytes) :=
  remaining ← slice (p_buf s) (quicNextRead s) (length (p_buf s));
  '(buf, cryptos, err) ← sniff_blocks (S (length remaining)) (take (quicNextRead s) (p_buf s)) (quicCryptos s) remaining false;
  let with_ next more h3 := mkPacketSniffer (p_sniffed s) buf (Data s) more (packetBytes s) (packetCount s) (packetLimit s) next cryptos h3 in
  match err with
  | Some e => Ok (with_ (quicNextRead s) (NeedMore s) (IsHTTP3 s), Err e)
  | None =>
    let next := length buf in
    let extensions := hello ← Bytes cryptos; clientHelloExtensions hello in
    match extensions with
    | Panic => Panic
    | Err _ => Ok (with_ next (NeedMore s || negb (WindowComplete cryptos)) (IsHTTP3 s), Err ErrNotFound)
    | Ok extensions =>
      let s := with_ next (NeedMore s) (hasHTTP3ALPN extensions) in
      match findSniExtension extensions with
      | Panic => Panic
      | Err _ => Ok (s, Err ErrNotFound)
      | Ok sni => Ok (s, Ok sni)
      end
    end
  end.

(** The name, whether the data is QUIC, and the error. *)
Definition SniffUdp (unicode_ToLower unicode_TrimSpace unicode_TrimRightSpace : bytes -> bytes) (s : PacketSniffer) : res (PacketSniffer * (res bytes * bool)) :=
  if negb (is_empty (p_sniffed s)) then Ok (s, (Ok (p_sniffed s), negb (quicNextRead s =? 0)))
  else if is_empty (p_buf s) || packetLimit s then Ok (s, (Err ErrNotApplicable, negb (quicNextRead s =? 0)))
  else
    '(s, d) ← sniffQuicLocked s;
    match sniffGroup unicode_ToLower unicode_TrimSpace unicode_TrimRightSpace [d] with
    | Ok d => Ok (mkPacketSniffer d (p_buf s) (Data s) (NeedMore s) (packetBytes s) (packetCount s) (packetLimit s) (quicNextRead s) (quicCryptos s) (IsHTTP3 s), (Ok d, negb (quicNextRead s =? 0)))
    | r => Ok (s, (r, negb (quicNextRead s =? 0)))
    end.
End Sniff.
