(* ===== verification/SniffQuicCorrect.v ===== *)
(** * Correctness of the QUIC sniffer

    Datagrams of any content are sniffed without a panic and left as they were; the name
    of a handshake is found as soon as its last fragment has arrived, and not before. *)

From S2P Require Import Prelude Netip GoStrings NetipString Trie DomainMatcher Sniff SniffCorrect QuicReassembly QuicReassemblyCorrect SniffQuic.

(** ** Headers *)

Lemma slice_ok (s : bytes) lo hi : lo <= hi -> hi <= length s -> slice s lo hi = Ok (take (hi - lo) (drop lo s)).
Proof. intros H1 H2. unfold slice. by rewrite (proj2 (Nat.leb_le lo hi) H1), (proj2 (Nat.leb_le hi (length s)) H2). Qed.

Lemma slice_length (s : bytes) lo hi : lo <= hi -> hi <= length s -> length (take (hi - lo) (drop lo s)) = hi - lo.
Proof. intros H1 H2. rewrite length_take, length_drop. lia. Qed.

(** Where a header and its packet end. *)
Definition header_ok (buf : bytes) (h : bytes * nat * nat) : Prop := let '(_, headerEnd, packetEnd) := h in 9 + MaxPacketNumberLength <= headerEnd /\ headerEnd <= packetEnd /\ packetEnd <= length buf.

Lemma parseQuicInitialHeader_ok buf : Forall is_byte buf -> match parseQuicInitialHeader buf with
  | Ok (Some h) => header_ok buf h
  | Ok None => True
  | _ => False
  end.
Proof.
  intros Hb. unfold parseQuicInitialHeader. destruct (Nat.ltb_spec (length buf) 6) as [|Hl]; [done|]. destruct (lookup_lt_is_Some_2 buf 0) as [flag Hflag]; [lia|]. rewrite Hflag. cbn [idx mbind res_bind]. destruct (negb _); [done|].
  rewrite (slice_ok buf 1 5) by lia. cbn [mbind res_bind]. destruct (ParseVersion _) as [version|]; [|done]. destruct (negb _); [done|]. destruct (lookup_lt_is_Some_2 buf (6 - 1)) as [dlen Hdlen]; [lia|]. rewrite Hdlen. cbn [idx mbind res_bind].
  destruct (Nat.ltb_spec (length buf - 6) (Z.to_nat dlen)); [done|]. rewrite (slice_ok buf 6 (6 + Z.to_nat dlen)) by lia. cbn [mbind res_bind]. set (c1 := 6 + Z.to_nat dlen) in *. destruct (Nat.leb_spec (length buf) c1); [done|].
  destruct (lookup_lt_is_Some_2 buf c1) as [slen Hslen]; [lia|]. rewrite Hslen. cbn [idx mbind res_bind]. destruct (Nat.ltb_spec (length buf - S c1) (Z.to_nat slen)); [done|]. set (c2 := S c1 + Z.to_nat slen) in *. rewrite (slice_ok buf c2 (length buf)) by lia. cbn [mbind res_bind].
  assert (Hd : forall c, c <= length buf -> Forall is_byte (take (length buf - c) (drop c buf)) /\ length (take (length buf - c) (drop c buf)) = length buf - c) by (intros c Hc; split; [by apply Forall_take, Forall_drop|by apply slice_length]).
  destruct (Hd c2) as [Hb2 Hl2]; [lia|]. pose proof (BigEndianUvarint_returns (take (length buf - c2) (drop c2 buf))) as Hp2. destruct (BigEndianUvarint (take (length buf - c2) (drop c2 buf))) as [[token n2]| |] eqn:E2; [|done|done]. apply BigEndianUvarint_ok in E2; [|done]. rewrite Hl2 in E2. clear Hp2.
  destruct (Z.ltb_spec (Z.of_nat (length buf - (c2 + n2))) token); [done|]. set (c3 := c2 + n2 + Z.to_nat token) in *. rewrite (slice_ok buf c3 (length buf)) by lia. cbn [mbind res_bind].
  destruct (Hd c3) as [Hb3 Hl3]; [lia|]. pose proof (BigEndianUvarint_returns (take (length buf - c3) (drop c3 buf))) as Hp3. destruct (BigEndianUvarint (take (length buf - c3) (drop c3 buf))) as [[len n3]| |] eqn:E3; [|done|done]. apply BigEndianUvarint_ok in E3; [|done]. rewrite Hl3 in E3. clear Hp3.
  destruct (Z.ltb_spec (Z.of_nat (length buf - (c3 + n3))) len); [done|]. destruct (Z.ltb_spec len (Z.of_nat MaxPacketNumberLength)) as [|Hm]; [done|]. cbn [orb header_ok]. unfold MaxPacketNumberLength in *. lia.
Qed.

(** ** Opening packets *)

(** Two packets that differ at most in the first byte and in the packet number. *)
Definition same_outside (pn : nat) (a b : bytes) : Prop := length a = length b /\ forall i, i <> 0 -> (i < pn \/ pn + MaxPacketNumberLength <= i) -> a !! i = b !! i.

Lemma restore_same pn a b first : 0 < pn -> pn + MaxPacketNumberLength <= length a -> a !! 0 = Some first -> same_outside pn a b ->
  list_inserts pn (take MaxPacketNumberLength (drop pn a)) (<[0 := first]> b) = a.
Proof.
  intros Hpn Hl H0 [Hlen Hs]. unfold MaxPacketNumberLength in *. assert (Ht : length (take 4 (drop pn a)) = 4) by (rewrite length_take, length_drop; lia). apply list_eq. intros i. destruct (decide (pn <= i < pn + 4)) as [Hi|Hi].
  - rewrite list_lookup_inserts by (rewrite ?Ht, ?length_insert; lia). rewrite lookup_take_lt, lookup_drop by lia. f_equal. lia.
  - destruct (decide (i < pn)) as [Hlt|Hge].
    + rewrite list_lookup_inserts_lt by done. destruct (decide (i = 0)) as [->|Hne]; [rewrite list_lookup_insert_eq by lia; done|]. rewrite list_lookup_insert_ne by done. symmetry. apply Hs; [done|by left].
    + rewrite list_lookup_inserts_ge by lia. rewrite list_lookup_insert_ne by lia. symmetry. apply Hs; lia.
Qed.

Section Crypto.
Context {QC : QuicCrypto} {QL : QuicCryptoLaws}.

Lemma HeaderProtection_ok k sample long first potential : length potential = MaxPacketNumberLength -> match HeaderProtection_ k sample long first potential with
  | Ok (_, pn) => length pn <= MaxPacketNumberLength
  | Err _ => True
  | Panic => False
  end.
Proof.
  intros Hp. unfold HeaderProtection_. destruct (aes_Encrypt _ _) as [mask|] eqn:E; [|done]. apply aes_length in E as [Hm _]. destruct (lookup_lt_is_Some_2 mask 0) as [m0 H0]; [lia|]. rewrite H0. cbn [idx mbind res_bind]. set (first' := Z.lxor _ _).
  assert (Hn : Z.to_nat (Z.land first' 3 + 1) <= 4).
  { assert (Z.land first' 3 < 4)%Z; [|lia]. assert (fits 2 (Z.land first' 3)) as Hf; [|apply Hf]. apply tb_fits; [apply Z.land_nonneg; right; lia|]. intros n Hn. rewrite tb_land. assert (tb 3 n = false) as -> by (apply (fits_tb 2); [split; cbn; lia|done]). apply andb_false_r. }
  set (n := Z.to_nat _) in *. unfold MaxPacketNumberLength in *. rewrite (slice_ok potential 0 n) by lia. cbn [mbind res_bind]. rewrite (slice_ok mask 1 (1 + n)) by lia. cbn [mbind res_bind]. unfold xor_bytes. rewrite length_zip_with, !slice_length by lia. lia.
Qed.

Lemma PayloadDecrypt_ok k ciphertext pn header : length pn <= length (k_iv k) -> match PayloadDecrypt k ciphertext pn header with
  | Ok plaintext => Forall is_byte plaintext
  | Err _ => True
  | Panic => False
  end.
Proof. intros Hl. unfold PayloadDecrypt. destruct (Nat.ltb_spec (length (k_iv k)) (length pn)); [lia|]. destruct (gcm_Open _ _ _ _) as [p|] eqn:E; [|done]. by eapply gcm_bytes. Qed.

Lemma NewKeys_iv dcid v k : NewKeys dcid v = Some k -> length (k_iv k) = 12.
Proof.
  unfold NewKeys, deriveKeys. destruct (HkdfExpandLabel _ InitialClientLabel _ _); [|done]. cbn [mbind option_bind]. destruct (HkdfExpandLabel _ (KeyLabel v) _ _); [|done]. cbn [mbind option_bind]. destruct (HkdfExpandLabel _ (IvLabel v) _ _) as [iv|] eqn:E; [|done]. cbn [mbind option_bind].
  destruct (HkdfExpandLabel _ (HpLabel v) _ _); [|done]. intros [= <-]. cbn [k_iv]. by apply expand_length in E.
Qed.

Lemma DecryptQuic_ok packet h : header_ok packet h -> let '(dcid, headerEnd, packetEnd) := h in
  let '(opened, plaintext) := DecryptQuic_ packet headerEnd packetEnd dcid in
  same_outside (headerEnd - MaxPacketNumberLength) packet opened /\ match plaintext with Ok p => Forall is_byte p | Err _ => True | Panic => False end.
Proof.
  destruct h as [[dcid he] pe]. intros (H1 & H2 & H3). unfold MaxPacketNumberLength in H1. assert (Hrefl : forall n, same_outside n packet packet) by (intros n; by split).
  unfold DecryptQuic_. rewrite (slice_ok packet 1 he) by lia. cbn [mbind res_bind]. unfold Uint32. rewrite (slice_ok (take (he - 1) (drop 1 packet)) 0 4) by (rewrite ?slice_length; lia). cbn [mbind res_bind]. destruct (ParseVersion _) as [v|]; [|done].
  destruct (NewKeys dcid v) as [k|] eqn:Ek; [|done]. apply NewKeys_iv in Ek. destruct (Nat.ltb_spec (pe - he) SampleSize) as [|Hs]; [done|]. unfold SampleSize in *. rewrite (slice_ok packet he (he + 16)) by lia. cbn [mbind res_bind]. destruct (lookup_lt_is_Some_2 packet 0) as [first Hfirst]; [lia|]. rewrite Hfirst. cbn [idx mbind res_bind].
  rewrite (slice_ok packet (he - MaxPacketNumberLength) he) by (unfold MaxPacketNumberLength; lia). cbn [mbind res_bind]. set (pot := take _ (drop (he - _) packet)). assert (Hpot : length pot = MaxPacketNumberLength) by (unfold pot; rewrite slice_length; unfold MaxPacketNumberLength; lia).
  pose proof (HeaderProtection_ok k (take (he + 16 - he) (drop he packet)) true first pot Hpot) as Hh. destruct (HeaderProtection_ k _ true first pot) as [[first' pn]| |]; [|done|done]. set (opened := list_inserts _ _ _). assert (Hlen : length opened = length packet) by (unfold opened; by rewrite length_inserts, length_insert).
  unfold MaxPacketNumberLength in *. split.
  - split; [done|]. intros i Hi Hr. unfold opened, MaxPacketNumberLength in *. destruct Hr as [Hr|Hr].
    + rewrite list_lookup_inserts_lt by done. by rewrite list_lookup_insert_ne by lia.
    + rewrite list_lookup_inserts_ge by lia. by rewrite list_lookup_insert_ne by lia.
  - rewrite (slice_ok opened 0 (he - 4 + length pn)) by lia. cbn [mbind res_bind]. rewrite (slice_ok opened (he - 4 + length pn) pe) by lia. cbn [mbind res_bind]. apply PayloadDecrypt_ok. lia.
Qed.

(** The plaintext of the first packet of a buffer, and where the packet ends. *)
Definition open_packet (buf : bytes) : res (option (bytes * nat)) :=
  h ← parseQuicInitialHeader buf;
  match h with
  | None => Ok None
  | Some (dcid, headerEnd, packetEnd) => match (DecryptQuic_ buf headerEnd packetEnd dcid).2 with Ok p => Ok (Some (p, packetEnd)) | Err _ => Ok None | Panic => Panic end
  end.

Lemma open_packet_ok buf : Forall is_byte buf -> match open_packet buf with
  | Ok (Some (p, packetEnd)) => Forall is_byte p /\ 0 < packetEnd <= length buf
  | Ok None => True
  | _ => False
  end.
Proof.
  intros Hb. unfold open_packet. pose proof (parseQuicInitialHeader_ok buf Hb) as Hh. destruct (parseQuicInitialHeader buf) as [[h|]| |]; [|done|done|done]. cbn [mbind res_bind]. destruct h as [[dcid he] pe]. pose proof (DecryptQuic_ok buf _ Hh) as Hd. cbn in Hd.
  destruct (DecryptQuic_ buf he pe dcid) as [opened pt]. destruct Hd as [_ Hd]. cbn [snd]. destruct pt as [p| |]; [|done|done]. split; [done|]. destruct Hh as (H1 & H2 & H3). unfold MaxPacketNumberLength in *. lia.
Qed.

(** A block leaves the buffer as it was, whatever it finds. *)
Lemma sniffQuicBlock_eq cryptos buf : Forall is_byte buf -> sniffQuicBlock cryptos buf =
  match open_packet buf with
  | Ok (Some (p, packetEnd)) =>
    match ReassembleCryptos cryptos p with
    | Ok new => Ok (buf, new, drop packetEnd buf, None)
    | Err e => if String.eqb e ErrClosed then Ok (buf, cryptos, [], Some e) else Ok (buf, cryptos, drop packetEnd buf, Some ErrNotApplicable)
    | Panic => Panic
    end
  | _ => Ok (buf, cryptos, [], Some ErrNotApplicable)
  end.
Proof.
  intros Hb. unfold sniffQuicBlock, open_packet. pose proof (parseQuicInitialHeader_ok buf Hb) as Hh. destruct (parseQuicInitialHeader buf) as [[h|]| |]; [|done|done|done]. cbn [mbind res_bind]. destruct h as [[dcid he] pe]. pose proof (DecryptQuic_ok buf _ Hh) as Hd. cbn in Hd.
  destruct Hh as (H1 & H2 & H3). unfold MaxPacketNumberLength in H1. destruct (lookup_lt_is_Some_2 buf 0) as [first Hfirst]; [lia|]. rewrite Hfirst. cbn [idx mbind res_bind]. rewrite (slice_ok buf (he - MaxPacketNumberLength) he) by (unfold MaxPacketNumberLength; lia). cbn [mbind res_bind].
  destruct (DecryptQuic_ buf he pe dcid) as [opened pt]. destruct Hd as [Hs Hd]. cbn [snd]. replace (he - (he - MaxPacketNumberLength)) with MaxPacketNumberLength by (unfold MaxPacketNumberLength; lia).
  rewrite (restore_same (he - MaxPacketNumberLength) buf opened first) by (unfold MaxPacketNumberLength in *; try lia; done). destruct pt as [p|e|]; [|done|done]. rewrite (slice_ok buf pe (length buf)) by lia. cbn [mbind res_bind]. rewrite (take_ge (drop pe buf)) by (rewrite length_drop; lia). done.
Qed.

(** ** Buffers *)

(** The plaintexts of the packets of a buffer, up to the first block that is no Initial. *)
Fixpoint open_packets (fuel : nat) (buf : bytes) : list bytes :=
  match fuel with
  | 0 => []
  | S fuel => match open_packet buf with Ok (Some (p, packetEnd)) => p :: open_packets fuel (drop packetEnd buf) | _ => [] end
  end.
Definition payloads (buf : bytes) : list bytes := open_packets (S (length buf)) buf.

Lemma open_packets_bytes fuel : forall buf, Forall is_byte buf -> Forall (Forall is_byte) (open_packets fuel buf).
Proof.
  induction fuel as [|fuel IH]; intros buf Hb; [constructor|]. cbn [open_packets]. pose proof (open_packet_ok buf Hb) as Ho. destruct (open_packet buf) as [[[p e]|]| |]; [|constructor..]. constructor; [apply Ho|]. apply IH. by apply Forall_drop.
Qed.

Lemma open_packets_nil fuel : open_packets fuel [] = [].
Proof. by destruct fuel. Qed.

Lemma sniff_blocks_safe fuel : forall before cryptos remaining parsed m, Forall is_byte remaining -> length remaining < fuel -> holds cryptos m ->
  exists cryptos' err m', sniff_blocks fuel before cryptos remaining parsed = Ok (before ++ remaining, cryptos', err) /\ holds cryptos' m'.
Proof.
  induction fuel as [|fuel IH]; intros before cryptos remaining parsed m Hb Hl Hh; [lia|]. cbn [sniff_blocks]. rewrite sniffQuicBlock_eq by done. pose proof (open_packet_ok remaining Hb) as Ho.
  assert (Hna : forall c n, holds c n -> exists cryptos' err m', (if String.eqb ErrNotApplicable ErrNotApplicable && parsed then Ok (before ++ remaining, c, None) else if String.eqb ErrNotApplicable ErrClosed then Ok (before ++ remaining, c, Some ErrNotFound) else Ok (before ++ remaining, c, Some ErrNotApplicable)) =
    Ok (before ++ remaining, cryptos', err) /\ holds cryptos' m') by (intros c n Hc; destruct parsed; by eexists _, _, _).
  destruct (open_packet remaining) as [[[p pe]|]| |]; [|by apply (Hna cryptos m)|done|done]. destruct Ho as [Hp Hpe]. pose proof (reassemble_spec cryptos m p Hh Hp) as Hr. destruct (frames p) as [fs|e|]; [| |done].
  - destruct Hr as (new & -> & Hn & _). cbn [mbind res_bind]. destruct (is_empty (drop pe remaining)) eqn:Ee; [by eexists _, _, _|].
    destruct (IH (before ++ take (length remaining - length (drop pe remaining)) remaining) new (drop pe remaining) true _ (Forall_drop _ _ _ Hb) ltac:(rewrite length_drop; lia) Hn) as (c' & err & m' & E & Hm). exists c', err, m'. split; [|done]. rewrite E. rewrite <-app_assoc. rewrite length_drop.
    replace (length remaining - (length remaining - pe)) with pe by lia. by rewrite take_drop.
  - rewrite Hr. destruct (String.eqb e ErrClosed) eqn:Ec; cbn [mbind res_bind]; [|by apply (Hna cryptos m)]. apply String.eqb_eq in Ec as ->. destruct parsed; by eexists _, _, _.
Qed.

Lemma sniff_blocks_payloads fuel : forall before cryptos remaining parsed m, Forall is_byte remaining -> length remaining < fuel -> holds cryptos m ->
  Forall (fun p => exists fs, frames p = Ok fs) (open_packets fuel remaining) -> open_packets fuel remaining <> [] \/ parsed = true ->
  exists cryptos', foldM ReassembleCryptos cryptos (open_packets fuel remaining) = Ok cryptos' /\ sniff_blocks fuel before cryptos remaining parsed = Ok (before ++ remaining, cryptos', None).
Proof.
  induction fuel as [|fuel IH]; intros before cryptos remaining parsed m Hb Hl Hh Hf Hne; [lia|]. cbn [sniff_blocks open_packets] in *. rewrite sniffQuicBlock_eq by done. pose proof (open_packet_ok remaining Hb) as Ho.
  assert (Hstop : parsed = true -> exists cryptos', foldM ReassembleCryptos cryptos [] = Ok cryptos' /\ ('(buf, cryptos, next, err) ← Ok (remaining, cryptos, [], Some ErrNotApplicable);
      match err with
      | None => if is_empty next then Ok (before ++ buf, cryptos, None) else sniff_blocks fuel (before ++ take (length buf - length next) buf) cryptos next true
      | Some e => if String.eqb e ErrNotApplicable && parsed then Ok (before ++ buf, cryptos, None) else if String.eqb e ErrClosed then Ok (before ++ buf, cryptos, Some ErrNotFound) else Ok (before ++ buf, cryptos, Some e)
      end) = Ok (before ++ remaining, cryptos', None)) by (intros ->; by exists cryptos).
  destruct (open_packet remaining) as [[[p pe]|]| |]; [|destruct Hne; [done|by apply Hstop]|done|done]. destruct Ho as [Hp Hpe]. apply Forall_cons in Hf as [[fs Ef] Hf]. pose proof (reassemble_spec cryptos m p Hh Hp) as Hr. rewrite Ef in Hr. destruct Hr as (new & Er & Hn & _). cbn [foldM]. rewrite Er. cbn [mbind res_bind].
  destruct (is_empty (drop pe remaining)) eqn:Ee.
  - destruct (drop pe remaining); [|done]. rewrite open_packets_nil. by exists new.
  - destruct (IH (before ++ take (length remaining - length (drop pe remaining)) remaining) new (drop pe remaining) true _ (Forall_drop _ _ _ Hb) ltac:(rewrite length_drop; lia) Hn Hf (or_intror eq_refl)) as (c' & -> & E). exists c'. split; [done|]. rewrite E. rewrite <-app_assoc, length_drop.
    replace (length remaining - (length remaining - pe)) with pe by lia. by rewrite take_drop.
Qed.
End Crypto.

(** ** The sniffer of datagrams *)

Section Sniff.
Context {CB : Cryptobyte} {CL : CryptobyteLaws} {QC : QuicCrypto} {QL : QuicCryptoLaws}.
Context (unicode_ToLower unicode_TrimSpace unicode_TrimRightSpace : bytes -> bytes).
Local Abbreviation SniffUdp := (SniffUdp unicode_ToLower unicode_TrimSpace unicode_TrimRightSpace).

(** The state after some datagrams, with the map of the reassembler. *)
Record packet_ok (s : PacketSniffer) (datagrams : list bytes) (m : gmap nat Z) : Prop := {
  pk_data : Data s = datagrams;
  pk_buf : p_buf s = concat datagrams;
  pk_bytes : Forall is_byte (p_buf s);
  pk_next : quicNextRead s <= length (p_buf s);
  pk_cryptos : holds (quicCryptos s) m;
}.

Lemma Bytes_returns r m : holds r m -> Bytes r <> Panic.
Proof.
  destruct r as [r|]; [|done]. intros [[H1 _ _ _] (d & Ed & (Hd & _)) _]. unfold Bytes. destruct (negb _); [done|]. rewrite Ed, Nat2Z.id, slice_ok by lia. done.
Qed.

(** The part of the buffer that has not been read. *)
Definition fresh (s : PacketSniffer) : bytes := drop (quicNextRead s) (p_buf s).

Lemma sniffQuicLocked_ok s datagrams m : packet_ok s datagrams m -> exists s' d m', sniffQuicLocked s = Ok (s', d) /\ packet_ok s' datagrams m' /\ d <> Panic.
Proof.
  intros [H1 H2 H3 H4 H5]. unfold sniffQuicLocked. rewrite slice_ok by lia. cbn [mbind res_bind]. rewrite (take_ge (drop _ _)) by (rewrite length_drop; lia). fold (fresh s).
  destruct (sniff_blocks_safe (S (length (fresh s))) (take (quicNextRead s) (p_buf s)) (quicCryptos s) (fresh s) false m (Forall_drop _ _ _ H3) ltac:(lia) H5) as (c' & err & m' & -> & Hm'). cbn [mbind res_bind]. unfold fresh. rewrite take_drop.
  destruct err as [e|]; [eexists _, _, m'; split; [reflexivity|]; by split|]. pose proof (Bytes_returns c' m' Hm') as Hb. destruct (Bytes c') as [hello|e|]; [| |done]; cbn [mbind res_bind].
  - pose proof (clientHelloExtensions_returns hello) as Hc. destruct (clientHelloExtensions hello) as [ext|e|]; [| |done].
    + pose proof (findSniExtension_returns ext) as Hf. destruct (findSniExtension ext) as [sni|e|]; [| |done]; eexists _, _, m'; (split; [reflexivity|]); split; by split || done.
    + eexists _, _, m'. split; [reflexivity|]. by split.
  - eexists _, _, m'. split; [reflexivity|]. by split.
Qed.

Lemma SniffUdp_ok s datagrams m : packet_ok s datagrams m -> exists s' d quic m', SniffUdp s = Ok (s', (d, quic)) /\ packet_ok s' datagrams m' /\ d <> Panic.
Proof.
  intros Hs. unfold SniffQuic.SniffUdp. destruct (negb _); [by eexists _, _, _, m|]. destruct (_ || _); [by eexists _, _, _, m|]. destruct (sniffQuicLocked_ok s datagrams m Hs) as (s' & d & m' & -> & Hs' & Hd). cbn [mbind res_bind].
  destruct d as [d|e|]; [| |done]; cbn [sniffGroup].
  - eexists _, _, _, m'. split; [reflexivity|]. split; [|done]. destruct Hs'. by split.
  - destruct (negb _); by eexists _, _, _, m'.
Qed.

Lemma AppendData_ok s datagrams m data : packet_ok s datagrams m -> Forall is_byte data -> packet_ok (AppendData data s) (datagrams ++ [data]) m.
Proof.
  intros [H1 H2 H3 H4 H5] Hb. split; cbn; [by rewrite H1|by rewrite concat_app, H2; cbn; rewrite app_nil_r|by apply Forall_app|rewrite length_app; lia|done].
Qed.

(** The states of a sniffer that has been given datagrams and sniffed any number of times. *)
Inductive sniffing : list bytes -> PacketSniffer -> Prop :=
| sniffing_new data : Forall is_byte data -> sniffing [data] (NewPacketSniffer data)
| sniffing_append datagrams s data : sniffing datagrams s -> Forall is_byte data -> sniffing (datagrams ++ [data]) (AppendData data s)
| sniffing_sniff datagrams s s' result : sniffing datagrams s -> SniffUdp s = Ok (s', result) -> sniffing datagrams s'.

Lemma sniffing_ok datagrams s : sniffing datagrams s -> exists m, packet_ok s datagrams m.
Proof.
  induction 1 as [data Hb|datagrams s data _ [m Hs] Hb|datagrams s s' result _ [m Hs] E].
  - exists ∅. unfold NewPacketSniffer. destruct (is_empty data); split; cbn; rewrite ?app_nil_r; try done; lia.
  - exists m. by apply AppendData_ok.
  - destruct (SniffUdp_ok s datagrams m Hs) as (s1 & d & q & m' & E' & Hs' & _). rewrite E in E'. injection E' as <- _. by exists m'.
Qed.

(** C29: Datagrams of any content, in any number and with a sniff after any of them, are
    sniffed without a panic, and can be replayed as they came: packets are unprotected in
    the buffer they are kept in, which holds the same bytes afterwards. *)
Theorem udp_sniffing_safe datagrams s : sniffing datagrams s ->
  exists s' d quic, SniffUdp s = Ok (s', (d, quic)) /\ d <> Panic /\ Data s' = datagrams /\ p_buf s' = concat datagrams.
Proof.
  intros Hs. destruct (sniffing_ok datagrams s Hs) as [m Hm]. destruct (SniffUdp_ok s datagrams m Hm) as (s' & d & q & m' & E & Hs' & Hd). exists s', d, q. split; [done|]. split; [done|]. by destruct Hs'.
Qed.

(** ** Names *)

(** Part of a ClientHello is none. *)
Lemma partial_hello hello extensions part missing : client_hello hello extensions -> hello = part ++ missing -> missing <> [] -> forall ext, ~ client_hello part ext.
Proof.
  intros Hh -> Hm ext Hp. destruct (hello_size _ _ [] Hh) as [E1 _], (hello_size _ _ missing Hp) as [E2 _]. rewrite app_nil_r in E1. rewrite E1, length_app in E2. destruct missing; [done|]. cbn in E2. lia.
Qed.

Lemma prefix_of_piece m r l hello : represents r m -> m ⊆ piece 0 hello -> m = piece 0 l -> exists missing, hello = l ++ missing.
Proof.
  intros _ Hsub ->. rewrite map_subseteq_spec in Hsub. exists (drop (length l) hello). apply list_eq. intros p. destruct (decide (p < length l)) as [Hp|Hp].
  - rewrite lookup_app_l by done. destruct (lookup_lt_is_Some_2 l p Hp) as [b Hb]. rewrite Hb. specialize (Hsub p b). rewrite !lookup_piece in Hsub. cbn [Nat.leb andb] in Hsub. rewrite Nat.sub_0_r in Hsub. destruct (Nat.ltb_spec p (0 + length l)); [|lia]. specialize (Hsub Hb). by destruct (_ <? _).
  - rewrite lookup_app_r by lia. rewrite lookup_drop. f_equal. lia.
Qed.

(** The bytes that are exposed, by what the map has. *)
Lemma Bytes_of_hello r m hello : holds r m -> m ⊆ piece 0 hello -> hello <> [] -> length hello <= MaxCryptoReassemblySize ->
  ((forall p, p < length hello -> is_Some (m !! p)) -> Bytes r = Ok hello) /\
  (~ (forall p, p < length hello -> is_Some (m !! p)) -> WindowComplete r = false /\ forall l, Bytes r = Ok l -> exists missing, hello = l ++ missing /\ missing <> []).
Proof.
  intros Hh Hsub Hne Hlen. split.
  - intros Hall. assert (Hm : m = piece 0 hello).
    { apply map_eq. intros p. destruct (decide (p < length hello)) as [Hp|Hp].
      - destruct (Hall p Hp) as [b Hb]. rewrite Hb. symmetry. by eapply lookup_weaken.
      - rewrite lookup_piece. cbn [Nat.leb andb]. destruct (Nat.ltb_spec p (0 + length hello)); [lia|]. destruct (m !! p) as [b|] eqn:E; [|done]. pose proof (lookup_weaken _ _ _ _ E Hsub) as E'. rewrite lookup_piece in E'. cbn [Nat.leb andb] in E'. destruct (Nat.ltb_spec p (0 + length hello)); [lia|done]. }
    destruct r as [r|]; [by apply (Bytes_spec r m)|]. cbn in Hh. destruct hello as [|x hello]; [done|]. destruct (Hall 0) as [b Hb]; [cbn; lia|]. by rewrite Hh, lookup_empty in Hb.
  - intros Hall. destruct r as [r|]; [|done]. cbn in Hh. split.
    + cbn [WindowComplete]. apply Z.eqb_neq. intros E. destruct (re_contiguous _ _ Hh) as (c & Ec & [Hc _]). rewrite Ec in E. apply Nat2Z.inj in E as ->. apply Hall. intros p Hp. apply Hc. lia.
    + intros l Hl. apply (Bytes_spec r m) in Hl; [|done]. destruct (prefix_of_piece m r l hello Hh Hsub Hl) as [missing ->]. exists missing. split; [done|]. intros ->. apply Hall. intros p Hp. rewrite app_nil_r in Hp. rewrite Hl. apply piece_is_Some. lia.
Qed.

(** C28: A name over QUIC is found with the last fragment: when the packets that have not
    been read carry fragments of a ClientHello, and only those, sniffing keeps them; if
    then every byte has arrived the name is returned, and otherwise more is asked for.  The
    ClientHello is at most as long as the reassembly keeps, and the limit on packets is not reached. *)
Theorem quic_name_when_complete s datagrams m hello extensions d : packet_ok s datagrams m -> m ⊆ piece 0 hello -> p_sniffed s = [] -> packetLimit s = false ->
  client_hello hello extensions -> server_name extensions d -> Forall is_byte hello -> length hello <= MaxCryptoReassemblySize ->
  payloads (fresh s) <> [] -> Forall (fun payload => exists fs, frames payload = Ok fs /\ Forall (fragment hello) fs) (payloads (fresh s)) ->
  exists s' result m', SniffUdp s = Ok (s', (result, true)) /\ packet_ok s' datagrams m' /\ m' ⊆ piece 0 hello /\ (forall p, is_Some (m' !! p) <-> arrived m (payloads (fresh s)) p) /\
    ((forall p, p < length hello -> arrived m (payloads (fresh s)) p) -> result = Ok (NormalizeDomain unicode_ToLower unicode_TrimSpace unicode_TrimRightSpace d)) /\
    (~ (forall p, p < length hello -> arrived m (payloads (fresh s)) p) -> result = Err ErrNotFound /\ NeedMore s' = true).
Proof.
  intros [H1 H2 H3 H4 H5] Hsub Hsn Hlim Hh Hname Hbh Hlen Hne Hf. unfold SniffQuic.SniffUdp. rewrite Hsn, Hlim. cbn [is_empty negb].
  assert (Hfresh : fresh s <> []) by (intros E; apply Hne; by rewrite E). assert (Hbuf : p_buf s <> []) by (intros E; apply Hfresh; unfold fresh; rewrite E; apply drop_nil). assert (is_empty (p_buf s) = false) as -> by by destruct (p_buf s). cbn [orb].
  pose proof (Forall_drop is_byte (quicNextRead s) _ H3) as Hfb. fold (fresh s) in Hfb. assert (Hb : Forall (Forall is_byte) (payloads (fresh s))) by by apply open_packets_bytes.
  destruct (reassemble_all hello (payloads (fresh s)) Hb Hf (quicCryptos s) m H5 Hsub) as (r & m' & Er & Hm' & Hgrow & Hsub' & _ & Hcov & Hfrom).
  assert (Harr : forall p, is_Some (m' !! p) <-> arrived m (payloads (fresh s)) p).
  { intros p. split; [apply Hfrom|]. intros [[b Hs]|(payload & fs & f & G1 & G2 & G3 & G4)]; [exists b; by eapply lookup_weaken|by eapply Hcov]. }
  destruct (sniff_blocks_payloads (S (length (fresh s))) (take (quicNextRead s) (p_buf s)) (quicCryptos s) (fresh s) false m Hfb ltac:(lia) H5) as (r' & Er' & Esb); [eapply Forall_impl; [exact Hf|]; intros x (fs & E & _); by exists fs|by left|].
  unfold payloads in Er. rewrite Er in Er'. injection Er' as <-. unfold sniffQuicLocked. rewrite slice_ok by lia. cbn [mbind res_bind]. rewrite (take_ge (drop _ _)) by (rewrite length_drop; lia). fold (fresh s). rewrite Esb. cbn [mbind res_bind].
  assert (Hcat : take (quicNextRead s) (p_buf s) ++ fresh s = p_buf s) by apply take_drop. rewrite Hcat. assert (Hhne : hello <> []) by (destruct (client_hello_kind _ _ Hh) as (? & -> & _); done).
  assert (Hlen0 : negb (length (p_buf s) =? 0) = true) by (destruct (p_buf s); [done|]; done). destruct (Bytes_of_hello r m' hello Hm' Hsub' Hhne Hlen) as [Hfull Hpart].
  setoid_rewrite <-Harr. destruct (decide (Forall (fun p => is_Some (m' !! p)) (seq 0 (length hello)))) as [Hall|Hall].
  - assert (Hall' : forall p, p < length hello -> is_Some (m' !! p)) by (intros p Hp; rewrite Forall_forall in Hall; apply Hall; apply elem_of_seq; lia). rewrite (Hfull Hall'). cbn [mbind res_bind]. rewrite (proj2 (clientHelloExtensions_Ok _ _ Hbh) Hh).
    assert (He : Forall is_byte extensions) by (destruct Hh as (? & ? & ? & ? & _ & _ & _ & _ & _ & _ & E); rewrite E in Hbh; unfold prefixed in Hbh; rewrite Forall_cons, !Forall_app in Hbh; apply Hbh).
    rewrite (proj2 (findSniExtension_Ok _ _ He) Hname). cbn [sniffGroup mbind res_bind quicNextRead]. rewrite Hlen0. eexists _, _, m'. split; [reflexivity|]. split; [by split|]. split; [done|]. split; [done|]. by split.
  - assert (Hnall : ~ (forall p, p < length hello -> is_Some (m' !! p))) by (intros Hp; apply Hall, Forall_forall; intros p Hin; apply elem_of_seq in Hin; apply Hp; lia). destruct (Hpart Hnall) as [Hwin Hbytes].
    assert (Hext : match (hello0 ← Bytes r; clientHelloExtensions hello0) with Err _ => True | _ => False end).
    { pose proof (Bytes_returns r m' Hm') as Hp. destruct (Bytes r) as [l|e|] eqn:Eb; [|done|done]. cbn [mbind res_bind]. destruct (Hbytes l eq_refl) as (missing & El & Hmiss). pose proof (clientHelloExtensions_returns l) as Hc. destruct (clientHelloExtensions l) as [ext|e|] eqn:Ec; [|done|done].
      apply (partial_hello hello extensions l missing Hh El Hmiss ext). apply clientHelloExtensions_Ok; [|done]. rewrite El in Hbh. by apply Forall_app in Hbh as [Hbh _]. }
    destruct (hello0 ← Bytes r; clientHelloExtensions hello0) as [|e|]; [done| |done]. cbn [sniffGroup mbind res_bind quicNextRead]. rewrite Hlen0. eexists _, _, m'. split; [reflexivity|]. split; [by split|]. split; [done|]. split; [done|]. split; [done|]. intros _. split; [done|]. cbn [NeedMore]. by rewrite Hwin, orb_true_r.
Qed.
End Sniff.

(** ** An example *)

(** Cryptography that leaves everything as it is. *)
Definition plain_crypto : QuicCrypto := {|
  hkdf_Extract _ _ := [];
  hkdf_Expand _ _ n := Some (replicate n 0%Z);
  aes_Encrypt _ _ := Some (replicate 16 0%Z);
  gcm_Open _ _ ciphertext _ := if bytesb ciphertext then Some ciphertext else None;
|}.

Lemma plain_crypto_laws : @QuicCryptoLaws plain_crypto.
Proof.
  split; cbn.
  - intros _ _ n out [= <-]. apply length_replicate.
  - intros _ _ out [= <-]. split; [done|]. by apply bytesb_ok.
  - intros _ _ ciphertext _ out. destruct (bytesb ciphertext) eqn:E; [|done]. intros [= <-]. by apply bytesb_ok.
Qed.

Module Datagram.
Definition varint2 (n : nat) : bytes := [64 + Z.of_nat n / 256; Z.of_nat n mod 256]%Z.
Definition crypto_frame (offset : nat) (data : bytes) : bytes := [Quic_FrameType_Crypto] ++ varint2 offset ++ varint2 (length data) ++ data.
(** The second part of the greeting before the first one, and padding. *)
Definition payload : bytes := crypto_frame 20 (drop 20 Greeting.hello) ++ [0; 0; 0]%Z ++ crypto_frame 0 (take 20 Greeting.hello).
Definition packet : bytes := [192; 0; 0; 0; 1; 0; 0; 0]%Z ++ varint2 (1 + length payload) ++ [5]%Z ++ payload.

Lemma packet_bytes : Forall is_byte packet.
Proof. apply bytesb_ok. vm_compute. reflexivity. Qed.

Lemma packet_fresh : packet_ok (NewPacketSniffer packet) [packet] ∅.
Proof. split; [reflexivity|by vm_compute|exact packet_bytes|vm_compute; lia|reflexivity]. Qed.

Lemma hello_bytes : Forall is_byte Greeting.hello.
Proof. apply bytesb_ok. vm_compute. reflexivity. Qed.

Lemma hello_ok : client_hello Greeting.hello Greeting.extensions.
Proof. apply (@clientHelloExtensions_Ok plain_readers plain_readers_laws); [exact hello_bytes|]. vm_compute. reflexivity. Qed.

Lemma name_ok : server_name Greeting.extensions (str "a.example").
Proof. apply (@findSniExtension_Ok plain_readers plain_readers_laws); [apply bytesb_ok; vm_compute; reflexivity|]. vm_compute. reflexivity. Qed.

Lemma payload_fragments : Forall (fun payload => exists fs, frames payload = Ok fs /\ Forall (fragment Greeting.hello) fs) (@payloads plain_crypto (fresh (NewPacketSniffer packet))).
Proof.
  assert (@payloads plain_crypto (fresh (NewPacketSniffer packet)) = [payload]) as -> by (vm_compute; reflexivity). constructor; [|constructor]. eexists. split; [vm_compute; reflexivity|]. repeat constructor; intros H; vm_compute in H |- *; done || reflexivity.
Qed.
End Datagram.

Lemma udp_sniffing_safe_witness :
  exists s' d quic, @SniffUdp plain_readers plain_crypto id id id (NewPacketSniffer Datagram.packet) = Ok (s', (d, quic)) /\ d <> Panic /\ Data s' = [Datagram.packet] /\ p_buf s' = concat [Datagram.packet].
Proof.
  apply (@udp_sniffing_safe plain_readers plain_readers_laws plain_crypto plain_crypto_laws id id id [Datagram.packet] (NewPacketSniffer Datagram.packet)).
  apply sniffing_new. exact Datagram.packet_bytes.
Defined.

Lemma quic_name_when_complete_witness :
  exists s' result m', @SniffUdp plain_readers plain_crypto id id id (NewPacketSniffer Datagram.packet) = Ok (s', (result, true)) /\ packet_ok s' [Datagram.packet] m' /\
    ((forall p, p < length Greeting.hello -> arrived ∅ (@payloads plain_crypto (fresh (NewPacketSniffer Datagram.packet))) p) -> result = Ok (NormalizeDomain id id id (str "a.example"))).
Proof.
  destruct (@quic_name_when_complete plain_readers plain_readers_laws plain_crypto plain_crypto_laws id id id (NewPacketSniffer Datagram.packet) [Datagram.packet] ∅ Greeting.hello Greeting.extensions (str "a.example"))
    as (s' & result & m' & E & Hok & _ & _ & Hall & _).
  - exact Datagram.packet_fresh.
  - apply map_empty_subseteq.
  - vm_compute. reflexivity.
  - vm_compute. reflexivity.
  - exact Datagram.hello_ok.
  - exact Datagram.name_ok.
  - exact Datagram.hello_bytes.
  - apply Nat.leb_le. vm_compute. reflexivity.
  - vm_compute. discriminate.
  - exact Datagram.payload_fragments.
  - exists s', result, m'. split; [exact E|]. split; [exact Hok|exact Hall].
Defined.
