(* ===== verification/DomainDisk.v ===== *)
(** * The registry on disk

    [Save] of control/domain_registry_disk.go, with the JSON it writes and reads back, and
    the periodic save of the registry's worker (control/domain_registry_lifecycle.go).
    Compression and the file system are the outcomes of the calls; a file holds the tokens
    of its JSON text.  Saving and restoring gives the evidence back. *)

From S2P Require Import Prelude GoSlices GoStrings Netip NetipParse NetipString Trie DomainProjection DomainProjectionCorrect DomainRegistry DomainRegistryCorrect DomainRegistryObserve DomainRegistrySync DomainRegistryRun DomainRegistryFork DomainRegistryClaims.

(** ** The snapshot *)

Record domainDiskAddress := mkDiskAddress { da_address : bytes; da_deadline : Time }.
Record domainDiskEntry := mkDiskEntry { de_name : string; de_addresses : list domainDiskAddress }.
Definition domainDiskSnapshot : Type := list domainDiskEntry.

(** The tokens of encoding/json.  A string is kept as a name or as the text of an address. *)
Inductive json_token :=
  | JNull
  | BeginObject
  | EndObject
  | JName (name : string)
  | JAddress (text : bytes)
  | JTime (t : Time).

Definition address_le (a b : domainDiskAddress) : bool := bytes_le (da_address a) (da_address b).
Definition entry_le (a b : domainDiskEntry) : bool := String.leb (de_name a) (de_name b).

Definition marshal_address (pair_ : domainDiskAddress) : list json_token := [JAddress (da_address pair_); JTime (da_deadline pair_)].

Definition marshal_entry (entry : domainDiskEntry) : list json_token :=
  JName (de_name entry) :: BeginObject :: concat (map marshal_address (SortStable address_le (de_addresses entry))) ++ [EndObject].

Definition MarshalJSONTo (snapshot : domainDiskSnapshot) : list json_token :=
  BeginObject :: concat (map marshal_entry (SortStable entry_le snapshot)) ++ [EndObject].

(** Reading [map[string]map[string]time.Time]: a repeated key is an error, a null is a zero
    value, and nothing may follow the object. *)
Fixpoint decode_addresses (l : list json_token) (m : gmap bytes Time) : option (gmap bytes Time * list json_token) :=
  match l with
  | EndObject :: rest => Some (m, rest)
  | JAddress s :: l =>
    match m !! s, l with
    | None, JTime t :: rest => decode_addresses rest (<[s := t]> m)
    | None, JNull :: rest => decode_addresses rest (<[s := 0%Z]> m)
    | _, _ => None
    end
  | _ => None
  end.

Fixpoint decode_entries (fuel : nat) (l : list json_token) (m : gmap string (gmap bytes Time)) : option (gmap string (gmap bytes Time)) :=
  match fuel, l with
  | S fuel, EndObject :: rest => if is_empty rest then Some m else None
  | S fuel, JName n :: l =>
    match m !! n, l with
    | None, BeginObject :: rest => '(addresses, rest) ← decode_addresses rest ∅; decode_entries fuel rest (<[n := addresses]> m)
    | None, JNull :: rest => decode_entries fuel rest (<[n := ∅]> m)
    | _, _ => None
    end
  | _, _ => None
  end.

Definition UnmarshalRead (l : list json_token) : option (option (gmap string (gmap bytes Time))) :=
  match l with
  | JNull :: rest => if is_empty rest then Some None else None
  | BeginObject :: rest => Some <$> decode_entries (length l) rest ∅
  | _ => None
  end.

(** ** Saving *)

(** What the calls of [Save] report: making the directory; creating the file; encoding,
    compressing, syncing and closing it; renaming it; syncing the directory. *)
Record save_outcome := mkOutcome {
  mkdir_err : option string;
  create_err : option string;
  write_err : option string;
  rename_err : option string;
  syncdir_err : option string;
}.

(** The file at the path, and [savedGeneration]. *)
Record disk := mkDisk { d_file : option (list json_token); savedGeneration : Z }.

(** Writing the snapshot and publishing it; an error before the rename leaves the old file. *)
Definition write_snapshot (io : save_outcome) (entries : domainDiskSnapshot) (generation : Z) (d : disk) : disk * option string :=
  match mkdir_err io with
  | Some err => (d, Some err)
  | None =>
    match create_err io with
    | Some err => (d, Some err)
    | None =>
      match write_err io with
      | Some err => (d, Some err)
      | None =>
        match rename_err io with
        | Some err => (d, Some err)
        | None =>
          let file := Some (MarshalJSONTo entries) in
          match syncdir_err io with
          | Some err => (mkDisk file (savedGeneration d), Some err)
          | None => (mkDisk file generation, None)
          end
        end
      end
    end
  end.

Section Save.
Context (update_error : domain_map -> bytes -> domainBitmaps -> option string).
Context (delete_error : domain_map -> bytes -> option string).
Context (batch_result : domain_map -> list (bytes * domainBitmaps) -> nat * option string).
Context (order : map_order).

Definition save_address (g : DomainRegistry) (addresses : list domainDiskAddress) (e : Addr * nat) : res (list domainDiskAddress) :=
  retainUntil ← idx (pairs g !! e.2);
  Ok (addresses ++ [mkDiskAddress (Addr_String e.1) retainUntil]).

Definition save_entry (g : DomainRegistry) (entries : domainDiskSnapshot) (e : string * nat) : res domainDiskSnapshot :=
  record ← idx (records g !! e.2);
  addresses ← foldM (save_address g) [] (range order (r_addresses record));
  Ok (entries ++ [mkDiskEntry e.1 addresses]).

Definition disk_snapshot (g : DomainRegistry) : res domainDiskSnapshot := foldM (save_entry g) [] (range order (byName g)).

Definition Save (io : save_outcome) (st : state) (d : disk) : res (state * disk * option string) :=
  let '(g, a, m) := st in
  st ← (if negb (closed g) then
          '(g, a, reconsider) ← drainActivity order g a;
          collected ← gc order (evaluatedAt g) g;
          sync_after update_error delete_error batch_result order collected a m reconsider (evaluatedAt g)
        else Ok st);
  entries ← disk_snapshot st.1.1;
  let '(d, err) := write_snapshot io entries (generation st.1.1) d in
  Ok (st, d, err).

(** One turn of the worker when the save timer fires; a failed save is only logged. *)
Definition save_tick (enabled : bool) (io : save_outcome) (st : state) (d : disk) : res (state * disk) :=
  st ← flushActivity update_error delete_error batch_result order st;
  if enabled && negb (generation st.1.1 =? savedGeneration d)%Z then
    '(st, d, _) ← Save io st d; Ok (st, d)
  else Ok (st, d).

(** [Close], with the save of the shutdown; a registry that was closed has nothing to do. *)
Definition Close_save (enabled : bool) (io : save_outcome) (st : state) (d : disk) : res (state * disk) :=
  if closed st.1.1 then Ok (st, d)
  else
    st ← Close update_error delete_error batch_result order st;
    if enabled then '(st, d, _) ← Save io st d; Ok (st, d) else Ok (st, d).

(** [Restore] of a path: no file is not an error; [read_err] is a failure to open or to
    decompress it. *)
Definition Restore_file (is_domain_name : string -> bool) (canonical_name : string -> string) (file : option (list json_token)) (read_err : option string)
    (matchBitmap : string -> list Z) (now : Time) (st : DomainRegistry * domain_map) : res (DomainRegistry * domain_map) :=
  match file, read_err with
  | None, _ => Ok st
  | Some _, Some err => Err err
  | Some text, None =>
    match UnmarshalRead text with
    | None => Err "domain registry snapshot"
    | Some decoded => Restore update_error delete_error batch_result order is_domain_name canonical_name decoded matchBitmap now st
    end
  end.
End Save.

(** ** Writing and reading back *)

Definition address_pairs (l : list domainDiskAddress) : list (bytes * Time) := map (fun a => (da_address a, da_deadline a)) l.
Definition disk_map (snapshot : domainDiskSnapshot) : gmap string (gmap bytes Time) :=
  list_to_map (map (fun e => (de_name e, list_to_map (address_pairs (de_addresses e)))) snapshot).

(** The keys of a snapshot are distinct. *)
Definition snapshot_ok (snapshot : domainDiskSnapshot) : Prop :=
  NoDup (map de_name snapshot) /\ Forall (fun e => NoDup (map da_address (de_addresses e))) snapshot.

Lemma decode_addresses_ok l : forall m rest, NoDup (map da_address l) -> Forall (fun a => m !! da_address a = None) l ->
  decode_addresses (concat (map marshal_address l) ++ EndObject :: rest) m = Some (list_to_map (address_pairs l) ∪ m, rest).
Proof.
  induction l as [|a l IH]; intros m rest Hnd Hm; [cbn; by rewrite (left_id_L ∅ (∪))|]. inversion_clear Hnd as [|? ? Ha Hl]. inversion_clear Hm as [|? ? Hma Hml].
  cbn. rewrite Hma. rewrite IH; [|done|].
  - f_equal. f_equal. rewrite <-insert_union_r; [by rewrite insert_union_l|]. apply not_elem_of_list_to_map_1. unfold address_pairs. rewrite <-list_fmap_compose. exact Ha.
  - rewrite Forall_forall in Hml |- *. intros b Hb. rewrite lookup_insert_ne; [by apply Hml|]. intros E. apply Ha. rewrite E. by apply (list_elem_of_fmap_2 da_address).
Qed.

Lemma address_pairs_sorted l : NoDup (map da_address l) -> list_to_map (M := gmap bytes Time) (address_pairs (SortStable address_le l)) = list_to_map (address_pairs l).
Proof.
  intros Hnd. apply list_to_map_proper; [|apply fmap_Permutation, SortStable_Permutation]. unfold address_pairs. rewrite <-list_fmap_compose. change (NoDup (da_address <$> SortStable address_le l)). by rewrite SortStable_Permutation.
Qed.

Lemma decode_entries_ok l : forall fuel m, length l < fuel -> snapshot_ok l -> Forall (fun e => m !! de_name e = None) l ->
  decode_entries fuel (concat (map marshal_entry l) ++ [EndObject]) m = Some (disk_map l ∪ m).
Proof.
  induction l as [|e l IH]; intros [|fuel] m Hf [Hnd Ha] Hm; cbn [length] in Hf; try lia; [cbn; unfold disk_map; cbn; by rewrite (left_id_L ∅ (∪))|].
  inversion_clear Hnd as [|? ? Hn Hl]. inversion_clear Ha as [|? ? He Hal]. inversion_clear Hm as [|? ? Hme Hml].
  cbn [map concat]. unfold marshal_entry at 1. cbn [app decode_entries]. rewrite Hme. rewrite <-!app_assoc. cbn [app]. rewrite decode_addresses_ok; [|by rewrite SortStable_Permutation|apply Forall_true; intros; apply lookup_empty].
  cbn [mbind option_bind]. rewrite (right_id_L ∅ (∪)), address_pairs_sorted by done. rewrite IH; [|lia|by split|].
  - f_equal. unfold disk_map. cbn [map list_to_map foldr]. rewrite <-insert_union_r; [by rewrite insert_union_l|]. apply not_elem_of_list_to_map_1. rewrite <-list_fmap_compose. exact Hn.
  - rewrite Forall_forall in Hml |- *. intros b Hb. rewrite lookup_insert_ne; [by apply Hml|]. intros E. apply Hn. rewrite E. by apply (list_elem_of_fmap_2 de_name).
Qed.

Lemma marshal_entries_length l : length l <= length (concat (map marshal_entry l)).
Proof. induction l as [|e l IH]; [done|]. cbn [map concat]. rewrite length_app. unfold marshal_entry at 1. cbn. lia. Qed.

(** Reading what was written gives the maps of the snapshot. *)
Lemma unmarshal_marshal snapshot : snapshot_ok snapshot -> UnmarshalRead (MarshalJSONTo snapshot) = Some (Some (disk_map snapshot)).
Proof.
  intros [Hnd Ha]. unfold UnmarshalRead, MarshalJSONTo. set (l := SortStable entry_le snapshot). assert (Hp : l ≡ₚ snapshot) by apply SortStable_Permutation.
  assert (Hok : snapshot_ok l) by (split; [change (NoDup (de_name <$> l))|]; by rewrite Hp).
  rewrite decode_entries_ok; [|cbn [length]; rewrite length_app; pose proof (marshal_entries_length l); lia|done|apply Forall_true; intros; apply lookup_empty].
  rewrite (right_id_L ∅ (∪)). cbn. do 2 f_equal. apply list_to_map_proper; [|by apply fmap_Permutation]. rewrite <-list_fmap_compose. apply Hok.
Qed.

(** ** The snapshot of a registry *)

Lemma foldM_append {A B} (f : list B -> A -> res (list B)) (h : A -> B) l :
  (forall acc e, e ∈ l -> f acc e = Ok (acc ++ [h e])) -> forall acc, foldM f acc l = Ok (acc ++ map h l).
Proof.
  induction l as [|e l IH]; intros H acc; [cbn; by rewrite app_nil_r|]. cbn [foldM]. rewrite H by apply list_elem_of_here. cbn [mbind res_bind].
  rewrite IH by (intros; apply H; by apply list_elem_of_further). cbn [map]. by rewrite <-app_assoc.
Qed.

Section Snapshot.
Context (order : map_order) (g : DomainRegistry) (Hg : reg_ok g).

Definition disk_address (e : Addr * nat) : domainDiskAddress := mkDiskAddress (Addr_String e.1) (default 0%Z (pairs g !! e.2)).
Definition disk_entry (e : string * nat) : domainDiskEntry :=
  mkDiskEntry e.1 (map disk_address (range order (default ∅ (r_addresses <$> records g !! e.2)))).

Lemma disk_snapshot_ok : disk_snapshot order g = Ok (map disk_entry (range order (byName g))).
Proof.
  unfold disk_snapshot. rewrite (foldM_append _ disk_entry); [done|]. intros acc [n r] Hr%elem_of_range. unfold save_entry, disk_entry. cbn [fst snd].
  destruct (ro_record _ Hg _ _ Hr) as (_ & record & Er & _). rewrite Er. cbn. rewrite (foldM_append _ disk_address); [done|]. intros acc' [ip p] Hp%elem_of_range.
  destruct (ro_forward _ Hg _ _ _ _ _ Hr Er Hp) as (_ & _ & (t & Et & _) & _). unfold save_address, disk_address. cbn. by rewrite Et.
Qed.

Lemma snapshot_lookup n r record : byName g !! n = Some r -> records g !! r = Some record ->
  disk_map (map disk_entry (range order (byName g))) !! n = Some (list_to_map (address_pairs (map disk_address (range order (r_addresses record))))).
Proof.
  intros Hr Er. unfold disk_map. rewrite map_map. apply elem_of_list_to_map_1.
  - rewrite <-list_fmap_compose. apply (NoDup_range order (byName g)).
  - apply list_elem_of_fmap. exists (n, r). split; [|by apply elem_of_range]. cbn. by rewrite Er.
Qed.

Lemma snapshot_names n addrs : disk_map (map disk_entry (range order (byName g))) !! n = Some addrs ->
  exists r record, byName g !! n = Some r /\ records g !! r = Some record /\ addrs = list_to_map (address_pairs (map disk_address (range order (r_addresses record)))).
Proof.
  intros H. pose proof H as Hn. unfold disk_map in Hn. rewrite map_map in Hn. apply elem_of_list_to_map_2, list_elem_of_fmap in Hn as ([n' r] & E & Hr%elem_of_range).
  cbn in E. injection E as -> _. destruct (ro_record _ Hg _ _ Hr) as (_ & record & Er & _). exists r, record. split; [done|]. split; [done|].
  rewrite (snapshot_lookup _ _ _ Hr Er) in H. by injection H.
Qed.

Lemma addresses_distinct n r record : byName g !! n = Some r -> records g !! r = Some record -> NoDup (map da_address (map disk_address (range order (r_addresses record)))).
Proof.
  intros Hr Er. rewrite map_map. cbn. assert (Hc : Forall (fun e : Addr * nat => canonical e.1) (range order (r_addresses record))).
  { apply Forall_forall. intros [ip p] Hp%elem_of_range. by apply (ro_forward _ Hg _ _ _ _ _ Hr Er Hp). }
  pose proof (NoDup_range order (r_addresses record)) as Hnd. induction (range order (r_addresses record)) as [|e l IH]; [constructor|].
  inversion_clear Hnd as [|? ? Hn Hl]. inversion_clear Hc as [|? ? He Hcl]. constructor; [|by apply IH]. intros (e' & E & Hin)%list_elem_of_fmap.
  rewrite Forall_forall in Hcl. destruct (Hcl _ Hin) as (V' & W' & _), He as (V & W & _). apply Addr_String_inj in E; [|done..]. apply Hn. rewrite E. by apply (list_elem_of_fmap_2 fst).
Qed.

Lemma addresses_lookup n r record s d : byName g !! n = Some r -> records g !! r = Some record ->
  list_to_map (M := gmap bytes Time) (address_pairs (map disk_address (range order (r_addresses record)))) !! s = Some d <->
  exists ip, s = Addr_String ip /\ deadline_of g n ip = Some d.
Proof.
  intros Hr Er. rewrite <-elem_of_list_to_map by (unfold address_pairs; rewrite <-list_fmap_compose; by eapply addresses_distinct). unfold address_pairs. rewrite map_map. split.
  - intros ([ip p] & E & Hp%elem_of_range)%list_elem_of_fmap. cbn in E. injection E as -> ->. exists ip. split; [done|].
    destruct (ro_forward _ Hg _ _ _ _ _ Hr Er Hp) as (_ & _ & (t & Et & _) & _). unfold deadline_of. rewrite (proj2 (pair_of_Some g n ip p)) by eauto. cbn. by rewrite Et.
  - intros (ip & -> & Hd). unfold deadline_of in Hd. destruct (pair_of g n ip) as [p|] eqn:Ep; [|done]. cbn in Hd. apply pair_of_Some in Ep as (r' & record' & A & B & C).
    assert (r' = r) as -> by congruence. assert (record' = record) as -> by congruence. apply list_elem_of_fmap. exists (ip, p). split; [cbn; by rewrite Hd|by apply elem_of_range].
Qed.

Lemma snapshot_distinct : snapshot_ok (map disk_entry (range order (byName g))).
Proof.
  split; [rewrite map_map; apply (NoDup_range order (byName g))|]. apply Forall_forall. intros e ([n r] & -> & Hr%elem_of_range)%list_elem_of_fmap. cbn.
  destruct (ro_record _ Hg _ _ Hr) as (_ & record & Er & _). rewrite Er. cbn. by eapply addresses_distinct.
Qed.
End Snapshot.

(** ** Restoring a snapshot *)

(** An address as [Save] writes it. *)
Definition saved_address (s : bytes) (d : Time) : Prop :=
  exists ip, canonical ip /\ IsUnspecified ip = false /\ d <> 0%Z /\ s = Addr_String ip.

Lemma restore_pairs_accepts order addrs : (forall s d, addrs !! s = Some d -> saved_address s d) -> exists m, foldM restore_pair ∅ (range order addrs) = Ok m.
Proof.
  intros H. pose proof (NoDup_range order addrs) as Hnd. assert (Hs : forall e, e ∈ range order addrs -> saved_address e.1 e.2) by (intros [s d] Hin%elem_of_range; by apply H).
  revert Hnd Hs. generalize (range order addrs). intros l Hnd Hs.
  destruct (foldM_run restore_pair (fun rest m => NoDup rest.*1 /\ (forall e, e ∈ rest -> saved_address e.1 e.2 /\ forall ip, e.1 = Addr_String ip -> canonical ip -> m !! ip = None)) l ∅) as (m & E & _); [|
    |by exists m].
  - split; [done|]. intros e He. split; [by apply Hs|]. intros. apply lookup_empty.
  - intros [s d] rest m [Hnd' Hr]. destruct (Hr (s, d) (list_elem_of_here _ _)) as [(ip & Hc & Hu & Hd & Es) Hm]. cbn in Es, Hd, Hm. inversion_clear Hnd' as [|? ? Hn Hl].
    exists (<[ip := d]> m). split.
    + unfold restore_pair. cbn [fst snd]. rewrite Es, Addr_String_parse by apply Hc. destruct Hc as (V & W & U). rewrite Hu, U, !bool_decide_eq_true_2 by done. cbn [negb orb].
      unfold IsZero. rewrite (proj2 (Z.eqb_neq d 0) Hd). rewrite (Hm ip Es) by by split. done.
    + split; [done|]. intros e He. destruct (Hr e (list_elem_of_further _ _ _ He)) as [Ha Hm']. split; [done|]. intros ip' E' Hc'. rewrite lookup_insert_ne; [by apply Hm'|].
      intros <-. apply Hn. cbn. rewrite Es, <-E'. by apply (list_elem_of_fmap_2 fst).
Qed.

Lemma restore_records_accepts order is_name canon entries :
  (forall n addrs, entries !! n = Some addrs -> is_name n = true /\ canon n = n /\ addrs <> ∅ /\ forall s d, addrs !! s = Some d -> saved_address s d) ->
  exists recs, restore_records order is_name canon entries = Ok recs.
Proof.
  intros H. unfold restore_records. destruct (foldM_run (restore_entry order is_name canon) (fun rest _ => forall e, e ∈ rest -> entries !! e.1 = Some e.2) (range order entries) ∅) as (m & E & _); [| |by exists m].
  - by intros [n a] Hin%elem_of_range.
  - intros [n a] rest m Hr. destruct (H n a) as (Hn & Hc & Hne & Ha); [apply (Hr (n, a)), list_elem_of_here|]. unfold restore_entry. cbn [fst snd]. rewrite Hn, Hc, String.eqb_refl. cbn [negb orb].
    assert ((size a =? 0) = false) as -> by (apply Nat.eqb_neq; intros E0; by apply map_size_empty_inv in E0). destruct (restore_pairs_accepts order a Ha) as [addrs Ea]. rewrite Ea. cbn [mbind res_bind].
    eexists. split; [done|]. intros e He. by apply Hr, list_elem_of_further.
Qed.

(** Map writes that do not fail leave no error. *)
Section NoError.
Context (update_error : domain_map -> bytes -> domainBitmaps -> option string).
Context (delete_error : domain_map -> bytes -> option string).
Context (batch_result : domain_map -> list (bytes * domainBitmaps) -> nat * option string).
Context (order : map_order).
Context (updates : forall m k v, update_error m k v = None) (deletes : forall m k, delete_error m k = None).

Lemma want_err ip v b k : k_err (want ip v b k) = k_err k.
Proof.
  assert (Hs : k_err (set_desired ip v k) = k_err k) by (unfold set_desired; destruct v; [destruct (desired k !! ip); [destruct (bitmaps_equal _ _)|]|]; done).
  rewrite <-Hs. unfold want. cbv zeta. destruct (match desired (set_desired ip v k) !! ip with Some _ => _ | None => _ end); done.
Qed.

Lemma request_err g changed k : k_err (request_selected order g changed k) = k_err k.
Proof.
  unfold request_selected. set (k0 := fold_left _ (range order (desired k)) k). transitivity (k_err k0).
  - generalize (range_set order (list_to_set (select_residents order g) : gset Addr)). intros l. generalize k0. induction l as [|ip l IH]; intros k1; [done|]. cbn [fold_left]. rewrite IH. case_match; [apply want_err|done].
  - unfold k0. generalize (range order (desired k)). intros l. generalize k. induction l as [|e l IH]; intros k1; [done|]. cbn [fold_left]. rewrite IH. case_match; [done|apply want_err].
Qed.

Lemma publish_one_keeps_err now b st e st' : publish_one update_error delete_error now b st e = Ok st' -> k_err st'.1 = k_err st.1.
Proof.
  destruct st as [k m], e as [ip request]. unfold publish_one. destruct (_ || _); [by intros [= <-]|]. destruct (_ && _); [by intros [= <-]|].
  unfold writeDomainBitmaps, deleteDomainBitmaps. rewrite deletes. destruct (desired k !! ip); [|by intros [= <-]]. destruct (negb _); [done|]. rewrite updates. by intros [= <-].
Qed.

Lemma publish_ones_err now b l st st' : foldM (publish_one update_error delete_error now b) st l = Ok st' -> k_err st'.1 = k_err st.1.
Proof. apply (foldM_ind _ (fun _ s => k_err s.1 = k_err st.1)); [done|]. intros _ e s s' Hs _ E. by rewrite (publish_one_keeps_err _ _ _ _ _ E). Qed.

Lemma flush_entries_err batch st b st' : flush_entries batch_result batch st = Ok (b, st') -> k_err st'.1 = k_err st.1.
Proof.
  destruct st as [k m]. unfold flush_entries. destruct (writeDomainBitmapBatch _ _ _) as [[m' applied]| |]; [|done|done]. destruct applied; [|by intros [= _ <-]]. intros [= _ <-]. cbn [fst].
  generalize k. induction batch as [|e batch IH]; intros k1; [done|]. cbn [fold_left]. by rewrite IH.
Qed.

Lemma batch_loop_err now l : forall batch n st st', batch_loop batch_result now l batch n st = Ok st' -> k_err st'.1 = k_err st.1.
Proof.
  induction l as [|[ip request] l IH]; intros batch n st st'; cbn [batch_loop].
  - destruct (is_empty batch); [by intros [= <-]|]. destruct (flush_entries _ batch st) as [[b st1]| |] eqn:E; [|done|done]. cbn. intros [= <-]. by eapply flush_entries_err.
  - destruct (desired st.1 !! ip); [|apply IH]. destruct (_ || _); [apply IH|]. cbv zeta. destruct (_ =? batchSize); [|apply IH].
    destruct (flush_entries _ _ st) as [[[] st1]| |] eqn:E; [| |done|done]; apply flush_entries_err in E.
    + intros H%IH. congruence.
    + intros [= <-]. done.
Qed.

Lemma publish_err now st st' : publish update_error delete_error batch_result order now st = Ok st' -> k_err st.1 = None -> k_err st'.1 = None.
Proof.
  unfold publish. intros H Hn. destruct (foldM _ st _) as [st1| |] eqn:E1; [|done|done]. cbn [mbind res_bind] in H. apply publish_ones_err in E1.
  destruct (if _ && _ then _ else _) as [st2| |] eqn:E2; [|done|done]. cbn [mbind res_bind] in H. assert (H2 : k_err st2.1 = k_err st1.1) by (case_match; [by apply batch_loop_err in E2|by injection E2 as <-]).
  destruct (foldM _ st2 _) as [st3| |] eqn:E3; [|done|done]. cbn [mbind res_bind] in H. apply publish_ones_err in E3. injection H as <-. cbn [fst]. destruct (_ =? 0); [done|congruence].
Qed.

Lemma rebuild_ip_kernel g ip g' : rebuild_ip order g ip = Ok g' -> kernel_ g' = kernel_ g.
Proof. unfold rebuild_ip. destruct (byIP g !! ip); [|by intros [= <-]]. destruct (rebuild _ _ _); [|done|done]. by intros [= <-]. Qed.

Lemma rebuildProjection_err now g m g' m' err : rebuildProjection update_error delete_error batch_result order now (g, m) = Ok (g', m', err) -> k_err (kernel_ g) = None -> err = None.
Proof.
  unfold rebuildProjection. cbv zeta. intros H Hn. destruct (syncProjection _ _ _ _ _ _ _ _) as [[g1 m1]| |] eqn:E; [|done|done]. cbn in H. injection H as _ _ <-. unfold syncProjection in E.
  destruct (foldM _ _ _) as [g2| |] eqn:E2; [|done|done]. cbn [mbind res_bind negb andb] in E. assert (Hk : kernel_ g2 = with_force (kernel_ g) true).
  { apply (foldM_ind _ (fun _ s => kernel_ s = with_force (kernel_ g) true)) in E2; [done|done|]. intros _ e s s' Hs _ Es%rebuild_ip_kernel. congruence. }
  destruct (publish _ _ _ _ _ _) as [st3| |] eqn:E3; [|done|done]. cbn in E. injection E as <- _. apply publish_err in E3; [exact E3|]. cbn [fst]. by rewrite request_err, Hk.
Qed.
End NoError.

(** ** Round trip *)

(** The new file is in place. *)
Definition published (io : save_outcome) : bool :=
  bool_decide (mkdir_err io = None) && bool_decide (create_err io = None) && bool_decide (write_err io = None) && bool_decide (rename_err io = None).

Lemma write_snapshot_spec io entries gen d :
  if published io then (write_snapshot io entries gen d).1 = mkDisk (Some (MarshalJSONTo entries)) (match syncdir_err io with Some _ => savedGeneration d | None => gen end)
  else (write_snapshot io entries gen d).1 = d /\ (write_snapshot io entries gen d).2 <> None.
Proof. unfold published, write_snapshot. destruct io as [[] [] [] [] []]; done. Qed.

(** On the registry, [Save] is [flushActivity]. *)
Lemma Save_flush ue de br order io st d : Save ue de br order io st d =
  (st' ← flushActivity ue de br order st; entries ← disk_snapshot order st'.1.1; Ok (st', (write_snapshot io entries (generation st'.1.1) d).1, (write_snapshot io entries (generation st'.1.1) d).2)).
Proof.
  destruct st as [[g a] m]. unfold Save, flushActivity. destruct (closed g); cbn [negb mbind res_bind].
  - destruct (disk_snapshot _ _) as [entries| |]; [|done|done]. cbn. by destruct (write_snapshot _ _ _ _).
  - destruct (drainActivity order g a) as [[[g1 a1] b]| |]; [|done|done]. cbn [mbind res_bind]. destruct (gc order _ g1) as [collected| |]; [|done|done]. cbn [mbind res_bind].
    destruct (sync_after _ _ _ _ _ _ _ _ _) as [st| |]; [|done|done]. cbn [mbind res_bind]. destruct (disk_snapshot _ _) as [entries| |]; [|done|done]. cbn. by destruct (write_snapshot _ _ _ _).
Qed.

(** What a flush keeps was there before. *)
Lemma flush_keeps bits ue de br order st st' : state_inv bits st -> flushActivity ue de br order st = Ok st' ->
  state_inv bits st' /\ forall n ip t, deadline_of st'.1.1 n ip = Some t -> exists t', deadline_of st.1.1 n ip = Some t'.
Proof.
  destruct st as [[g a] m]. intros I. destruct (closed g) eqn:Hc; [unfold flushActivity; rewrite Hc; intros [= <-]; eauto|].
  destruct (flush_spec bits ue de br order g a m I Hc) as (st1 & E & I1 & _ & _ & (V & _)). rewrite E. intros [= <-]. split; [done|]. intros n ip t Ht.
  specialize (V n ip). unfold abs in V. cbn [evidence_] in V. rewrite Ht in V. unfold drained_store in V. cbn [fst]. destruct (owns g a); cbn in V; unfold ev_expire, ev_refresh in V; cbn in V; destruct (deadline_of g n ip) as [t'|]; eauto; discriminate V.
Qed.

(** What [Restore] requires of the evidence in a file: names that are domain names in
    canonical form, and addresses other than the unspecified ones. *)
Definition restorable (is_name : string -> bool) (canon : string -> string) (g : DomainRegistry) : Prop :=
  forall n ip t, deadline_of g n ip = Some t -> is_name n = true /\ canon n = n /\ IsUnspecified ip = false.

Lemma foldM_each {A S} (f : S -> A -> res S) l s s' a : foldM f s l = Ok s' -> a ∈ l -> exists s1 s2, f s1 a = Ok s2.
Proof.
  intros E Ha. refine (foldM_ind f (fun pre _ => forall a, a ∈ pre -> exists s1 s2, f s1 a = Ok s2) l s s' _ _ E a Ha); [by intros ? ?%elem_of_nil|].
  intros pre x s1 s2 IH _ Ex y [Hy| ->%list_elem_of_singleton]%elem_of_app; eauto.
Qed.

Lemma restore_records_checked order is_name canon entries recs : restore_records order is_name canon entries = Ok recs -> forall n addrs, entries !! n = Some addrs ->
  is_name n = true /\ canon n = n /\ forall s d ip zone, addrs !! s = Some d -> ParseAddr s = Some (ip, zone) -> IsUnspecified ip = false.
Proof.
  intros E n addrs Hn. apply (elem_of_range order) in Hn. destruct (foldM_each _ _ _ _ _ E Hn) as (r1 & r2 & E1). unfold restore_entry in E1. cbn [fst snd] in E1. destruct (is_name n); [|done].
  destruct (String.eqb_spec n (canon n)) as [Hc|]; [|done]. cbn [negb orb] in E1. destruct (size addrs =? 0); [done|]. destruct (foldM restore_pair ∅ (range order addrs)) as [m| |] eqn:Em; [|done|done].
  split; [done|]. split; [done|]. intros s d ip zone Hs Hp. apply (elem_of_range order) in Hs. destruct (foldM_each _ _ _ _ _ Em Hs) as (m1 & m2 & E2). unfold restore_pair in E2. cbn [fst snd] in E2. rewrite Hp in E2. by destruct (IsUnspecified ip).
Qed.

(** The files a registry writes are accepted exactly when its evidence can be restored, and
    then hold it. *)
Lemma saved_snapshot order bits g is_name canon : good bits g ∅ -> forall order',
  exists entries decoded, disk_snapshot order g = Ok entries /\ UnmarshalRead (MarshalJSONTo entries) = Some (Some decoded) /\
    match restore_records order' is_name canon decoded with
    | Ok recs => restorable is_name canon g /\ forall n ip, evidence_at recs n ip = deadline_of g n ip
    | Err _ => ~ restorable is_name canon g
    | Panic => False
    end.
Proof.
  intros G order'. pose proof (go_ok _ _ _ G) as Hg. set (entries := map (disk_entry order g) (range order (byName g))).
  assert (Hcan : forall n ip d, deadline_of g n ip = Some d -> exists r record, byName g !! n = Some r /\ records g !! r = Some record /\ canonical ip /\ (0 < d)%Z).
  { intros n ip d Hd. unfold deadline_of in Hd. destruct (pair_of g n ip) as [p|] eqn:Ep; [|done]. cbn in Hd. apply pair_of_Some in Ep as (r & record & A & B & C). destruct (ro_forward _ Hg _ _ _ _ _ A B C) as (Hc & _ & (t & Et & Hpos) & _). exists r, record. assert (d = t) by congruence. by subst. }
  assert (Hacc : restorable is_name canon g -> exists recs, restore_records order' is_name canon (disk_map entries) = Ok recs).
  { intros Hn. apply restore_records_accepts. intros n addrs (r & record & Hr & Erec & ->)%(snapshot_names order g Hg). pose proof (go_used _ _ _ G _ _ _ Hr Erec) as Hne. apply map_choose in Hne as (ip & p & Hip).
    destruct (ro_forward _ Hg _ _ _ _ _ Hr Erec Hip) as (_ & _ & (t & Et & _) & _). assert (Hd : deadline_of g n ip = Some t) by (unfold deadline_of; rewrite (proj2 (pair_of_Some g n ip p)) by eauto; done).
    destruct (Hn _ _ _ Hd) as (H1 & H2 & _). split; [done|]. split; [done|]. split.
    - intros E0. pose proof (proj2 (addresses_lookup order g Hg n r record (Addr_String ip) t Hr Erec)) as Hx. rewrite E0, lookup_empty in Hx. discriminate Hx. eauto.
    - intros s d (ip' & -> & Hd')%(addresses_lookup order g Hg n r record _ _ Hr Erec). exists ip'. destruct (Hcan _ _ _ Hd') as (_ & _ & _ & _ & Hc & Hpos). split; [done|]. split; [by apply (Hn n ip' d)|]. split; [lia|done]. }
  exists entries, (disk_map entries). split; [by apply disk_snapshot_ok|]. split; [by apply unmarshal_marshal, snapshot_distinct|].
  destruct (restore_records order' is_name canon (disk_map entries)) as [recs|e|] eqn:Er; [|intros Hn; by destruct (Hacc Hn)|by apply restore_records_nopanic in Er]. split.
  - intros n ip t Hd. destruct (Hcan _ _ _ Hd) as (r & record & Hr & Erec & Hc & _). destruct (restore_records_checked _ _ _ _ _ Er n _ (snapshot_lookup order g n r record Hr Erec)) as (H1 & H2 & H3). split; [done|]. split; [done|].
    apply (H3 (Addr_String ip) t ip []); [apply (addresses_lookup order g Hg n r record _ _ Hr Erec); eauto|]. apply Addr_String_parse; apply Hc.
  - intros n ip. apply option_eq. intros d. rewrite (restore_records_spec _ _ _ _ _ Er). split.
    + intros (addrs & s & Ha & Hs & Hp). apply snapshot_names in Ha as (r & record & Hr & Erec & ->); [|done]. apply addresses_lookup with (n := n) (r := r) in Hs as (ip' & -> & Hd); [|done..].
      destruct (Hcan _ _ _ Hd) as (_ & _ & _ & _ & Hc & _). rewrite Addr_String_parse in Hp by apply Hc. by injection Hp as ->.
    + intros Hd. destruct (Hcan _ _ _ Hd) as (r & record & Hr & Erec & Hc & _). eexists _, (Addr_String ip). split; [exact (snapshot_lookup order g n r record Hr Erec)|]. split; [by apply (addresses_lookup order g Hg n r record); eauto|]. apply Addr_String_parse; apply Hc.
Qed.

(** C23: what [Save] publishes, [Restore] reads back.  When the kernel map accepts the
    writes, the restore succeeds exactly if the evidence of the saving registry can be
    restored: every name is a domain name in canonical form and no address is unspecified.
    The new registry then holds exactly the pairs of the saving one, with their deadlines,
    except those that have expired by then; otherwise the file is refused as a whole, with
    an error and not a panic.  A save that fails before the rename leaves the previous file and
    [savedGeneration]; on the saving registry [Save] acts as [flushActivity]. *)
Theorem save_restore (bits bits' : string -> list Z) (env env' : environment) (is_name : string -> bool) (canon : string -> string)
    (io : save_outcome) (d : disk) (max : nat) (st : state) (now : Time) (id max' : nat) (w lag : Z) :
  reachable bits max st -> (forall n, bitmap_ok (bits' n)) -> (0 <= lag <= now)%Z ->
  (forall m k v, update_fails env' m k v = None) -> (forall m k, delete_fails env' m k = None) ->
  exists st' d' err, Save (update_fails env) (delete_fails env) (batch_applies env) (iteration env) io st d = Ok (st', d', err) /\
    flushActivity (update_fails env) (delete_fails env) (batch_applies env) (iteration env) st = Ok st' /\
    if published io then
      match Restore_file (update_fails env') (delete_fails env') (batch_applies env') (iteration env') is_name canon (d_file d') None bits' now (newDomainRegistry id max' w lag, ∅) with
      | Ok (g, m) => restorable is_name canon st'.1.1 /\ forall n ip, deadline_of g n ip = deadline_of st'.1.1 n ip ≫= unexpired (now - lag)
      | Err _ => ~ restorable is_name canon st'.1.1
      | Panic => False
      end
    else d' = d /\ err <> None.
Proof.
  intros (Hb & I & _)%reachable_inv Hb' Hlag Hu Hd.
  assert (exists st', flushActivity (update_fails env) (delete_fails env) (batch_applies env) (iteration env) st = Ok st') as [st' Ef].
  { destruct st as [[g a] m]. destruct (closed g) eqn:Hc; [unfold flushActivity; rewrite Hc; eauto|]. destruct (flush_spec bits (update_fails env) (delete_fails env) (batch_applies env) (iteration env) g a m I Hc) as (st1 & E & _). eauto. }
  destruct (flush_keeps _ _ _ _ _ _ _ I Ef) as [I' Hk]. destruct (saved_snapshot (iteration env) bits st'.1.1 is_name canon (si_good _ _ I')) with (order' := iteration env') as (entries & decoded & Es & Eu & Hev).
  rewrite Save_flush, Ef. cbn [mbind res_bind]. rewrite Es. cbn [mbind res_bind]. eexists st', _, _. split; [done|]. split; [done|].
  pose proof (write_snapshot_spec io entries (generation st'.1.1) d) as Hw. destruct (published io); [|done]. rewrite Hw. cbn [d_file]. unfold Restore_file. rewrite Eu. unfold Restore.
  destruct (restore_records (iteration env') is_name canon decoded) as [recs|e|] eqn:Er; cbn [mbind res_bind]; [|done|done]. destruct Hev as [Hr Hev].
  pose proof (Restore_entries_ok bits' Hb' (update_fails env') (delete_fails env') (batch_applies env') (iteration env') recs now id max' w lag (restore_records_ok _ _ _ _ _ Er) Hlag) as HR.
  destruct (Restore_entries _ _ _ _ recs bits' now _) as [[g m]|e|]; [|destruct HR as (g & g' & m' & H1 & H2); by apply rebuildProjection_err in H2|done].
  split; [done|]. destruct HR as (_ & _ & V). intros n ip. by rewrite V, Hev.
Qed.

(** ** Evidence that can be restored *)

(** The names and addresses of an operation pass the checks of [Restore]. *)
Definition restorable_op (is_name : string -> bool) (canon : string -> string) (op : operation) : Prop :=
  match op with
  | OpObserve observations _ => forall o ip, o ∈ observations -> ip ∈ o_ips o -> is_name (o_name o) = true /\ canon (o_name o) = o_name o /\ IsUnspecified (Unmap ip) = false
  | _ => True
  end.

Definition restorable_evidence (is_name : string -> bool) (canon : string -> string) (e : Evidence) : Prop :=
  forall n ip t, e n ip = Some t -> is_name n = true /\ canon n = n /\ IsUnspecified ip = false.

Lemma restorable_observation is_name canon w at_ now o e : (forall ip, ip ∈ o_ips o -> is_name (o_name o) = true /\ canon (o_name o) = o_name o /\ IsUnspecified (Unmap ip) = false) ->
  restorable_evidence is_name canon e -> restorable_evidence is_name canon (ev_observation w at_ now o e).
Proof.
  intros Ho. unfold ev_observation. destruct (_ <=? now)%Z; [done|]. revert e Ho. induction (o_ips o) as [|ip ips IH]; intros e Ho He; [done|]. cbn [fold_left]. apply IH; [intros ip' Hin; apply Ho; by right|].
  intros n ip' t. unfold ev_observe. case_bool_decide as Eq; [|apply He]. destruct Eq as [-> ->]. intros _. apply Ho. by left.
Qed.

Lemma restorable_store is_name canon w lag op s b : restorable_op is_name canon op -> restorable_evidence is_name canon (evidence_ s) -> restorable_evidence is_name canon (evidence_ (st_op w lag op (s, b)).1).
Proof.
  intros Hop He. assert (Hx : forall c q e, restorable_evidence is_name canon e -> restorable_evidence is_name canon (ev_expire c (ev_refresh w q e))).
  { intros c q e H n ip t. unfold ev_expire, ev_refresh. destruct (e n ip) as [t'|] eqn:E; [|done]. intros _. by eapply H. }
  unfold st_op. destruct b; [done|]. destruct op as [key shard at_| |now|obs at_|now|]; cbn [fst evidence_ st_enqueue st_expire st_drain st_clock]; try done; try by apply Hx.
  unfold st_observe. cbn [evidence_]. generalize (Hx (now_ (st_clock at_ (st_drain w s)) - lag)%Z (queue_ s) _ He). cbn [restorable_op] in Hop. cbn [st_expire st_clock st_drain evidence_ now_]. generalize (ev_expire (Z.max at_ (latest (activity (queue_ s)) (now_ s)) - lag) (ev_refresh w (queue_ s) (evidence_ s))).
  induction obs as [|o obs IH]; intros e Hrest; [done|]. cbn [fold_left]. apply IH; [intros o' ip Hin; apply Hop; by right|]. apply restorable_observation; [|done]. intros ip Hip. apply Hop; [by left|done].
Qed.

(** A registry that was only told valid names and addresses can be restored from its file. *)
Theorem observed_restorable bits is_name canon id max w lag (ops : list (environment * operation)) : (forall n, bitmap_ok (bits n)) ->
  Forall (fun e => op_ok bits e.2) ops -> Forall (fun e => restorable_op is_name canon e.2) ops ->
  exists st, run_ops ops (initial id max w lag) = Ok st /\ restorable is_name canon st.1.1.
Proof.
  intros Hb Hops Hr. destruct (run_ops_ok bits Hb max w lag ops Hops (initial id max w lag) empty_store false) as (st & E & _ & (V & _) & _); [apply initial_serving| |done|].
  { split; [|done]. intros n ip. cbn. unfold deadline_of, pair_of. cbn. by rewrite lookup_empty. }
  exists st. split; [done|]. assert (Hev : forall l s b, Forall (restorable_op is_name canon) l -> restorable_evidence is_name canon (evidence_ s) -> restorable_evidence is_name canon (evidence_ (st_ops w lag l (s, b)).1)).
  { induction l as [|op l IH]; intros s b Hl Hs; [done|]. apply Forall_cons in Hl as [Hop Hl]. unfold st_ops. cbn [fold_left]. pose proof (restorable_store is_name canon w lag op s b Hop Hs) as H1. destruct (st_op w lag op (s, b)) as [s1 b1]. by apply IH. }
  intros n ip t Hd. apply (Hev ops.*2 empty_store false) with (t := t); [by apply Forall_fmap|done|]. rewrite <-(V n ip). exact Hd.
Qed.

Lemma save_restore_witness : exists st' d' err,
  Save (update_fails (Demo.env false)) (delete_fails (Demo.env false)) (batch_applies (Demo.env false)) in_order (mkOutcome None None None None None) (Demo.g, Demo.a, Demo.m) (mkDisk None 0) = Ok (st', d', err) /\
  flushActivity (update_fails (Demo.env false)) (delete_fails (Demo.env false)) (batch_applies (Demo.env false)) in_order (Demo.g, Demo.a, Demo.m) = Ok st' /\
  match Restore_file (update_fails (Demo.env false)) (delete_fails (Demo.env false)) (batch_applies (Demo.env false)) in_order (fun _ => true) (fun n => n) (d_file d') None Demo.bits 3000 (newDomainRegistry 8 4 10 5, ∅) with
  | Ok (g, m) => restorable (fun _ => true) (fun n => n) st'.1.1 /\ forall n ip, deadline_of g n ip = deadline_of st'.1.1 n ip ≫= unexpired (3000 - 5)
  | Err _ => ~ restorable (fun _ => true) (fun n => n) st'.1.1
  | Panic => False
  end.
Proof.
  apply (save_restore Demo.bits Demo.bits (Demo.env false) (Demo.env false) (fun _ => true) (fun n => n) (mkOutcome None None None None None) (mkDisk None 0) 1 (Demo.g, Demo.a, Demo.m) 3000 8 4 10 5 Demo.g_reachable Demo.bits_ok); [lia|done|done].
Defined.
