(* ===== verification/DnsStore.v ===== *)
(** * The bounded store of DNS answers (pkg/dnscache/store.go)

    A map of entries and the list of their recent use, bounded by a number of entries and
    by a number of bytes.  List elements are cells of a heap: the map and the list share
    them.  The store is shown to behave as a list of entries, most recent first. *)

From S2P Require Import Prelude GoSlices DomainProjection.

Record CacheRecord (V : Type) := mkCacheRecord { Value : V; ReceivedAt : Time; Expires : Time }.
Arguments mkCacheRecord {V}.
Arguments Value {V}.
Arguments ReceivedAt {V}.
Arguments Expires {V}.

Record stored (K V : Type) := mkStored { e_key : K; e_record : CacheRecord V; e_bytes : Z }.
Arguments mkStored {K V}.
Arguments e_key {K V}.
Arguments e_record {K V}.
Arguments e_bytes {K V}.

(** [s_lru] holds the list, the most recently used element first. *)
Record Store (K V : Type) `{Countable K} := mkStore {
  s_entries : gmap K nat;
  s_cells : gmap nat (stored K V);
  s_next : nat;
  s_lru : list nat;
  s_limit : Z;
  s_memoryLimit : Z;
  s_bytes : Z;
  s_hits : Z;
  s_misses : Z;
  s_expired : Z;
  s_evicted : Z;
}.
Arguments mkStore {K V _ _}.
Arguments s_entries {K V _ _}.
Arguments s_cells {K V _ _}.
Arguments s_next {K V _ _}.
Arguments s_lru {K V _ _}.
Arguments s_limit {K V _ _}.
Arguments s_memoryLimit {K V _ _}.
Arguments s_bytes {K V _ _}.
Arguments s_hits {K V _ _}.
Arguments s_misses {K V _ _}.
Arguments s_expired {K V _ _}.
Arguments s_evicted {K V _ _}.

Record Stats := mkStats { Entries : Z; Limit : Z; Bytes : Z; MemoryLimit : Z; Hits : Z; Misses : Z; Expired : Z; Evicted : Z }.

Section Store.
Context {K V : Type} `{Countable K}.
Local Abbreviation Store := (Store K V).
Local Abbreviation stored := (stored K V).
Local Abbreviation CacheRecord := (CacheRecord V).

Definition with_list (s : Store) (entries : gmap K nat) (l : list nat) (bytes : Z) : Store :=
  mkStore entries (s_cells s) (s_next s) l (s_limit s) (s_memoryLimit s) bytes (s_hits s) (s_misses s) (s_expired s) (s_evicted s).
Definition with_counters (s : Store) (hits misses expired evicted : Z) : Store :=
  mkStore (s_entries s) (s_cells s) (s_next s) (s_lru s) (s_limit s) (s_memoryLimit s) (s_bytes s) hits misses expired evicted.

Definition count_hit (s : Store) : Store := with_counters s (wrap 64 (s_hits s + 1)) (s_misses s) (s_expired s) (s_evicted s).
Definition count_miss (s : Store) : Store := with_counters s (s_hits s) (wrap 64 (s_misses s + 1)) (s_expired s) (s_evicted s).
Definition count_expired (s : Store) : Store := with_counters s (s_hits s) (s_misses s) (wrap 64 (s_expired s + 1)) (s_evicted s).
Definition count_evicted (s : Store) : Store := with_counters s (s_hits s) (s_misses s) (s_expired s) (wrap 64 (s_evicted s + 1)).

Definition NewStore (entries memoryBytes : Z) : Store := mkStore ∅ ∅ 0 [] entries memoryBytes 0 0 0 0 0.

(** [container/list]: an element leaves the list, or moves to its front. *)
Definition list_Remove (elem : nat) (l : list nat) : list nat := filter (fun i => i <> elem) l.
Definition list_MoveToFront (elem : nat) (l : list nat) : list nat := elem :: list_Remove elem l.

Definition remove (elem : nat) (s : Store) : res Store :=
  e ← idx (s_cells s !! elem);
  Ok (with_list s (delete (e_key e) (s_entries s)) (list_Remove elem (s_lru s)) (int64 (s_bytes s - e_bytes e))).

Definition get (key : K) (now : Time) (countMiss : bool) (s : Store) : res (Store * option CacheRecord) :=
  match s_entries s !! key with
  | Some elem =>
    e ← idx (s_cells s !! elem);
    if Before now (Expires (e_record e)) then
      Ok (count_hit (with_list s (s_entries s) (list_MoveToFront elem (s_lru s)) (s_bytes s)), Some (e_record e))
    else
      s ← remove elem s;
      let s := count_expired s in
      Ok (if countMiss then count_miss s else s, None)
  | None => Ok (if countMiss then count_miss s else s, None)
  end.

Definition Get (key : K) (now : Time) (s : Store) : res (Store * option CacheRecord) := get key now true s.
Definition GetIfPresent (key : K) (now : Time) (s : Store) : res (Store * option CacheRecord) := get key now false s.

Definition Peek (key : K) (s : Store) : res (option CacheRecord) :=
  match s_entries s !! key with
  | Some elem => e ← idx (s_cells s !! elem); Ok (Some (e_record e))
  | None => Ok None
  end.

(** The loop of [Put]; [lru.Back()] of an empty list is nil, and removing it panics. Each
    turn drops an element, so the length of the list bounds the turns. *)
Definition crowded (bytes : Z) (s : Store) : bool :=
  (s_limit s <=? Z.of_nat (size (s_entries s)))%Z || ((0 <? s_memoryLimit s)%Z && (int64 (s_memoryLimit s - s_bytes s) <? bytes)%Z).

Fixpoint evict (fuel : nat) (bytes : Z) (s : Store) : res Store :=
  if crowded bytes s then
    match fuel, last (s_lru s) with
    | S fuel, Some elem => s ← remove elem s; evict fuel bytes (count_evicted s)
    | _, _ => Panic
    end
  else Ok s.

Definition push_front (key : K) (record : CacheRecord) (bytes : Z) (s : Store) : Store :=
  let elem := s_next s in
  mkStore (<[key := elem]> (s_entries s)) (<[elem := mkStored key record bytes]> (s_cells s)) (S elem) (elem :: s_lru s)
    (s_limit s) (s_memoryLimit s) (int64 (s_bytes s + bytes)) (s_hits s) (s_misses s) (s_expired s) (s_evicted s).

Definition Put (key : K) (record : CacheRecord) (bytes : Z) (s : Store) : res (Store * bool) :=
  if (s_limit s <=? 0)%Z || (bytes <? 0)%Z || ((0 <? s_memoryLimit s)%Z && (s_memoryLimit s <? bytes)%Z) then Ok (s, false)
  else
    s ← match s_entries s !! key with Some old => remove old s | None => Ok s end;
    s ← evict (length (s_lru s)) bytes s;
    Ok (push_front key record bytes s, true).

Definition expire_one (now : Time) (s : Store) (e : K * nat) : res Store :=
  cell ← idx (s_cells s !! e.2);
  if negb (Before now (Expires (e_record cell))) then s ← remove e.2 s; Ok (count_expired s) else Ok s.

Definition Expire (order : map_order) (now : Time) (s : Store) : res Store := foldM (expire_one now) s (range order (s_entries s)).

Definition Snapshot (s : Store) : Stats :=
  mkStats (Z.of_nat (size (s_entries s))) (s_limit s) (s_bytes s) (s_memoryLimit s) (s_hits s) (s_misses s) (s_expired s) (s_evicted s).
End Store.
