(* ===== verification/DnsStoreCorrect.v ===== *)
(** * The store behaves as a list of entries

    The specification is the list of the live entries, most recently used first; every
    operation of the store acts on it as the specification says, and never panics. *)

From S2P Require Import Prelude GoSlices DomainProjection DnsStore.

(** ** The specification *)

Section Spec.
Context {K V : Type} `{Countable K}.
Local Abbreviation stored := (stored K V).

Definition without (key : K) (l : list stored) : list stored := filter (fun e => e_key e <> key) l.
Definition lookup_key (key : K) (l : list stored) : option stored := head (filter (fun e => e_key e = key) l).
Fixpoint weight (l : list stored) : Z := match l with [] => 0%Z | e :: l => (e_bytes e + weight l)%Z end.

(** The longest prefix that leaves room: [n] entries, and [b] bytes unless unbounded. *)
Fixpoint keep (n : nat) (bounded : bool) (b : Z) (l : list stored) : list stored :=
  match n, l with
  | S n, e :: l => if bounded && (b <? e_bytes e)%Z then [] else e :: keep n bounded (b - e_bytes e) l
  | _, _ => []
  end.

Definition lru_get (key : K) (now : Time) (l : list stored) : list stored * option (CacheRecord V) :=
  match lookup_key key l with
  | Some e => if Before now (Expires (e_record e)) then (e :: without key l, Some (e_record e)) else (without key l, None)
  | None => (l, None)
  end.

Definition lru_put (limit mem : Z) (key : K) (record : CacheRecord V) (bytes : Z) (l : list stored) : list stored * bool :=
  if (limit <=? 0)%Z || (bytes <? 0)%Z || ((0 <? mem)%Z && (mem <? bytes)%Z) then (l, false)
  else (mkStored key record bytes :: keep (Z.to_nat limit - 1) (0 <? mem)%Z (mem - bytes) (without key l), true).

Definition lru_expire (now : Time) (l : list stored) : list stored := filter (fun e => Before now (Expires (e_record e)) = true) l.

(** ** Lists *)

Lemma weight_app l1 l2 : weight (l1 ++ l2) = (weight l1 + weight l2)%Z.
Proof. induction l1 as [|e l IH]; cbn [app weight]; [lia|]. rewrite IH. lia. Qed.

Lemma weight_nonneg l : Forall (fun e => 0 <= e_bytes e)%Z l -> (0 <= weight l)%Z.
Proof. induction 1; cbn [weight]; lia. Qed.

Lemma keep_prefix n bd b l : exists rest, l = keep n bd b l ++ rest.
Proof.
  revert n b. induction l as [|e l IH]; intros [|n] b; cbn; try by eexists. destruct (_ && _); [by eexists|]. destruct (IH n (b - e_bytes e)%Z) as [rest E]. exists rest. cbn. by f_equal.
Qed.

Lemma keep_length n bd b l : length (keep n bd b l) <= n.
Proof. revert n b. induction l as [|e l IH]; intros [|n] b; cbn; try lia. destruct (_ && _); cbn; [lia|]. specialize (IH n (b - e_bytes e)%Z). lia. Qed.

Lemma keep_weight n b l : (0 <= b)%Z -> (weight (keep n true b l) <= b)%Z.
Proof.
  revert n b. induction l as [|e l IH]; intros [|n] b Hb; cbn; try lia. destruct (Z.ltb_spec b (e_bytes e)); cbn; [lia|]. specialize (IH n (b - e_bytes e)%Z ltac:(lia)). lia.
Qed.

(** A list that fits is kept whole. *)
Lemma keep_fits n bd b l : Forall (fun e => 0 <= e_bytes e)%Z l -> length l <= n -> (bd = true -> weight l <= b)%Z -> keep n bd b l = l.
Proof.
  revert n b. induction l as [|e l IH]; intros [|n] b Hw Hl Hb; cbn in *; try done; try lia. inversion_clear Hw as [|? ? He Hw']. pose proof (weight_nonneg l Hw').
  assert (bd && (b <? e_bytes e)%Z = false) as -> by (destruct bd; [cbn; apply Z.ltb_ge; specialize (Hb eq_refl); lia|done]). f_equal. apply IH; [done|lia|]. intros E. specialize (Hb E). lia.
Qed.

(** Dropping the last entry of a list that does not fit does not change the prefix. *)
Lemma keep_drop n bd b l e : Forall (fun e => 0 <= e_bytes e)%Z (l ++ [e]) -> n < length (l ++ [e]) \/ (bd = true /\ (b < weight (l ++ [e]))%Z) ->
  keep n bd b (l ++ [e]) = keep n bd b l.
Proof.
  revert n b. induction l as [|x l IH]; intros [|n] b Hw Hc; cbn in *; try done.
  - destruct Hc as [Hc|[-> Hc]]; [lia|]. destruct (Z.ltb_spec b (e_bytes e)); cbn; [done|]. inversion_clear Hw. lia.
  - inversion_clear Hw as [|? ? Hx Hw']. destruct (bd && _) eqn:E; [done|]. f_equal. apply IH; [done|]. destruct Hc as [Hc|[-> Hc]]; [left; lia|right; split; [done|lia]].
Qed.

Lemma without_app key l1 l2 : without key (l1 ++ l2) = without key l1 ++ without key l2.
Proof. apply filter_app. Qed.

Lemma without_absent key l : key ∉ map e_key l -> without key l = l.
Proof.
  unfold without. induction l as [|e l IH]; intros Hn; [done|]. cbn in Hn. rewrite not_elem_of_cons in Hn. destruct Hn as [H1 H2]. rewrite filter_cons, decide_True by congruence. by rewrite IH.
Qed.

Lemma elem_of_without key l e : e ∈ without key l <-> e ∈ l /\ e_key e <> key.
Proof. unfold without. rewrite list_elem_of_filter. naive_solver. Qed.

Lemma keys_without key l : NoDup (map e_key l) -> NoDup (map e_key (without key l)) /\ key ∉ map e_key (without key l).
Proof.
  intros Hnd. split; [|intros (e & -> & He)%list_elem_of_fmap; by apply elem_of_without in He as [_ ?]]. unfold without. induction l as [|e l IH]; [constructor|].
  inversion_clear Hnd as [|? ? Hn Hl]. rewrite filter_cons. destruct (decide _); [|by apply IH]. cbn. constructor; [|by apply IH]. intros (e' & E & He)%list_elem_of_fmap. apply Hn. rewrite E. apply list_elem_of_filter in He as [_ He]. by apply (list_elem_of_fmap_2 e_key).
Qed.

Lemma weight_without key l e : NoDup (map e_key l) -> e ∈ l -> e_key e = key -> weight (without key l) = (weight l - e_bytes e)%Z.
Proof.
  intros Hnd He Hk. apply list_elem_of_split in He as (l1 & l2 & ->). rewrite map_app in Hnd. apply NoDup_app in Hnd as (_ & H1 & H2). cbn in H1, H2. inversion_clear H2 as [|? ? H3 _]. rewrite Hk in *.
  assert (key ∉ map e_key l1) by (intros Hx; apply (H1 _ Hx); apply list_elem_of_here). rewrite without_app, weight_app, (without_absent key l1) by done. unfold without at 1. rewrite filter_cons, decide_False by congruence.
  fold (without key l2). rewrite without_absent by done. rewrite weight_app. cbn. lia.
Qed.

Lemma lookup_key_Some key l e : NoDup (map e_key l) -> lookup_key key l = Some e <-> e ∈ l /\ e_key e = key.
Proof.
  intros Hnd. unfold lookup_key. split.
  - intros Hh. assert (Hin : e ∈ filter (fun e => e_key e = key) l) by (destruct (filter _ l); [done|]; injection Hh as ->; apply list_elem_of_here). apply list_elem_of_filter in Hin. naive_solver.
  - intros [He <-]. induction l as [|x l IH]; [by apply elem_of_nil in He|]. inversion_clear Hnd as [|? ? Hn Hl]. rewrite filter_cons. apply elem_of_cons in He as [->|He]; [by rewrite decide_True|].
    rewrite decide_False; [by apply IH|]. intros E. apply Hn. rewrite E. by apply (list_elem_of_fmap_2 e_key).
Qed.
End Spec.

(** ** The representation *)

Section Rep.
Context {K V : Type} `{Countable K}.
Local Abbreviation stored := (stored K V).
Local Abbreviation Store := (Store K V).

Definition index (p : list (nat * stored)) : list (K * nat) := map (fun x => (e_key x.2, x.1)) p.

(** The list of the store holds the elements of [p], with their entries. *)
Record linked (s : Store) (p : list (nat * stored)) : Prop := {
  lk_lru : s_lru s = p.*1;
  lk_cells : Forall (fun x => s_cells s !! x.1 = Some x.2) p;
  lk_ids : NoDup p.*1;
  lk_keys : NoDup (map e_key p.*2);
  lk_entries : s_entries s = list_to_map (index p);
  lk_fresh : Forall (fun x => x.1 < s_next s) p;
  lk_weights : Forall (fun e => 0 <= e_bytes e)%Z p.*2;
  lk_bytes : s_bytes s = int64 (weight p.*2);
}.

Definition same_limits (s s' : Store) : Prop := s_limit s' = s_limit s /\ s_memoryLimit s' = s_memoryLimit s.

Lemma index_keys p : (index p).*1 = map e_key p.*2.
Proof. unfold index. rewrite <-!list_fmap_compose. done. Qed.

Lemma linked_size s p : linked s p -> size (s_entries s) = length p.
Proof. intros [H1 H2 H3 H4 H5 H6 H7 H8]. rewrite H5, map_size_list_to_map by by rewrite index_keys. unfold index. apply length_map. Qed.

Lemma linked_lookup s p key i : linked s p -> s_entries s !! key = Some i <-> exists e, (i, e) ∈ p /\ e_key e = key.
Proof.
  intros [H1 H2 H3 H4 H5 H6 H7 H8]. rewrite H5, <-elem_of_list_to_map by by rewrite index_keys. unfold index. rewrite list_elem_of_fmap. split.
  - intros ([i' e] & E & Hin). injection E as -> ->. eauto.
  - intros (e & Hin & <-). by exists (i, e).
Qed.

Lemma linked_absent s p key : linked s p -> s_entries s !! key = None -> key ∉ map e_key p.*2.
Proof. intros L Hn (e & -> & ([i e'] & -> & Hin)%list_elem_of_fmap)%list_elem_of_fmap. assert (Hs : s_entries s !! e_key e' = Some i) by (apply (linked_lookup s p); eauto). cbn in Hn. congruence. Qed.

Lemma linked_cell s p i e : linked s p -> (i, e) ∈ p -> s_cells s !! i = Some e.
Proof. intros L Hin. pose proof (lk_cells _ _ L) as Hc. rewrite Forall_forall in Hc. exact (Hc _ Hin). Qed.

Lemma linked_counters s p h m x v : linked s p -> linked (with_counters s h m x v) p.
Proof. intros [H1 H2 H3 H4 H5 H6 H7 H8]. by split. Qed.

Lemma weight_Permutation (l l' : list stored) : l ≡ₚ l' -> weight l = weight l'.
Proof. induction 1; cbn [weight]; lia. Qed.

(** The same elements in another order. *)
Lemma linked_order s p p' : linked s p -> p' ≡ₚ p -> linked (with_list s (s_entries s) p'.*1 (s_bytes s)) p'.
Proof.
  intros [H1 H2 H3 H4 H5 H6 H7 H8] Hp. split; cbn; [done|by rewrite Hp|by rewrite Hp|change (NoDup (e_key <$> p'.*2)); by rewrite Hp| |by rewrite Hp|by rewrite Hp|].
  - rewrite H5. symmetry. apply list_to_map_proper; [rewrite index_keys; change (NoDup (e_key <$> p'.*2)); by rewrite Hp|]. by apply fmap_Permutation.
  - rewrite H8. f_equal. apply weight_Permutation. by rewrite Hp.
Qed.

Lemma list_Remove_split i l1 l2 : NoDup (l1 ++ i :: l2) -> list_Remove i (l1 ++ i :: l2) = l1 ++ l2.
Proof.
  intros (Hl1 & Hd & Hl2)%NoDup_app. unfold list_Remove. inversion_clear Hl2 as [|? ? Hn _]. rewrite filter_app, filter_cons, decide_False by (by intros ?).
  assert (Hid : forall l : list nat, i ∉ l -> filter (fun j => j <> i) l = l).
  { intros l Hi. induction l as [|x l IH]; [done|]. rewrite not_elem_of_cons in Hi. rewrite filter_cons, decide_True by naive_solver. f_equal. naive_solver. }
  rewrite !Hid; [done|done|]. intros Hx. apply (Hd _ Hx), list_elem_of_here.
Qed.

Lemma without_split key (l1 l2 : list stored) e : NoDup (map e_key (l1 ++ e :: l2)) -> e_key e = key -> without key (l1 ++ e :: l2) = l1 ++ l2.
Proof.
  intros Hnd <-. rewrite map_app in Hnd. apply NoDup_app in Hnd as (_ & Hd & Hl2). cbn in Hd, Hl2. inversion_clear Hl2 as [|? ? Hn _]. rewrite without_app. unfold without at 2. rewrite filter_cons, decide_False by (by intros ?).
  fold (without (e_key e) l2). rewrite !without_absent; [done|done|]. intros Hx. apply (Hd _ Hx), list_elem_of_here.
Qed.

Lemma linked_remove s p1 p2 i e : linked s (p1 ++ (i, e) :: p2) -> exists s', remove i s = Ok s' /\ linked s' (p1 ++ p2) /\ same_limits s s'.
Proof.
  intros [H1 H2 H3 H4 H5 H6 H7 H8]. assert (Hc : s_cells s !! i = Some e) by (rewrite Forall_app, Forall_cons in H2; apply H2). unfold remove. rewrite Hc. cbn [idx mbind res_bind]. eexists. split; [done|]. split; [|by split].
  assert (Hi : ~ e_key e ∈ map e_key (p1 ++ p2).*2).
  { rewrite fmap_app, map_app. rewrite fmap_app, map_app in H4. cbn in H4. apply NoDup_app in H4 as (_ & Hd & Hl2). inversion_clear Hl2 as [|? ? Hn _]. rewrite elem_of_app. intros [Hx|Hx]; [apply (Hd _ Hx), list_elem_of_here|done]. }
  rewrite fmap_app in H3. cbn in H3. rewrite fmap_app, fmap_cons in H4, H7, H8. cbn [snd] in *. split; cbn.
  - rewrite H1, fmap_app. cbn. rewrite list_Remove_split by done. by rewrite fmap_app.
  - apply Forall_app in H2 as [H2 [_ H2']%Forall_cons]. by apply Forall_app.
  - rewrite fmap_app. by rewrite <-Permutation_middle in H3; inversion_clear H3.
  - rewrite map_app in H4. cbn in H4. rewrite fmap_app, map_app. by rewrite <-Permutation_middle in H4; inversion_clear H4.
  - rewrite H5. rewrite (list_to_map_proper (index (p1 ++ (i, e) :: p2)) (index ((i, e) :: p1 ++ p2))); [| |by apply fmap_Permutation; rewrite Permutation_middle].
    + unfold index at 1. cbn [map list_to_map foldr fst snd]. rewrite delete_insert_id; [done|]. apply not_elem_of_list_to_map_1. by rewrite index_keys.
    + rewrite index_keys, fmap_app. exact H4.
  - apply Forall_app in H6 as [H6 [_ H6']%Forall_cons]. by apply Forall_app.
  - rewrite fmap_app. apply Forall_app in H7 as [H7 [_ H7']%Forall_cons]. by apply Forall_app.
  - rewrite H8, int64_sub, fmap_app. f_equal. rewrite !weight_app. cbn [weight]. lia.
Qed.

Lemma elem_split {A} (x : A) l : x ∈ l -> exists l1 l2, l = l1 ++ x :: l2.
Proof. intros Hx. apply list_elem_of_split in Hx as (l1 & l2 & ->). eauto. Qed.

(** *** Operations *)

Lemma linked_new entries mem : linked (NewStore entries mem) [].
Proof. split; cbn; try done; constructor. Qed.

Lemma lookup_linked s p key i e : linked s p -> (i, e) ∈ p -> e_key e = key -> lookup_key key p.*2 = Some e.
Proof. intros L Hin Hk. apply lookup_key_Some; [apply L|]. split; [by apply (list_elem_of_fmap_2 snd p (i, e))|done]. Qed.

Lemma get_linked key now count s p : linked s p ->
  exists s' p' o, get key now count s = Ok (s', o) /\ linked s' p' /\ same_limits s s' /\ (p'.*2, o) = lru_get key now p.*2.
Proof.
  intros L. unfold get, lru_get. destruct (s_entries s !! key) as [i|] eqn:Ek.
  - apply (linked_lookup s p key i L) in Ek as (e & Hin & Hk). rewrite (linked_cell s p i e L Hin), (lookup_linked s p key i e L Hin Hk). cbn [idx mbind res_bind].
    destruct (elem_split _ _ Hin) as (p1 & p2 & ->). assert (Ew : without key (p1 ++ (i, e) :: p2).*2 = (p1 ++ p2).*2).
    { rewrite !fmap_app, fmap_cons. cbn [snd]. apply without_split; [|done]. pose proof (lk_keys _ _ L) as Hnd. by rewrite fmap_app, fmap_cons in Hnd. }
    rewrite Ew. destruct (Before now _).
    + eexists _, ((i, e) :: p1 ++ p2), _. split; [done|]. split; [|split; [by split|by rewrite fmap_cons]].
      apply linked_counters. assert (El : list_MoveToFront i (s_lru s) = ((i, e) :: p1 ++ p2).*1).
      { unfold list_MoveToFront. rewrite fmap_cons. cbn [fst]. f_equal. pose proof (lk_ids _ _ L) as Hnd. rewrite (lk_lru _ _ L), fmap_app in *. cbn in *. rewrite list_Remove_split by done. by rewrite fmap_app. }
      rewrite El. apply (linked_order s _ _ L). by rewrite Permutation_middle.
    + destruct (linked_remove s p1 p2 i e L) as (s' & E & L' & [S1 S2]). rewrite E. cbn [mbind res_bind]. eexists _, (p1 ++ p2), None. split; [done|]. destruct count; (split; [by repeat apply linked_counters|by split]).
  - pose proof (linked_absent s p key L Ek) as Ha. destruct (lookup_key key p.*2) as [e|] eqn:El.
    + apply lookup_key_Some in El as [He Hk]; [|apply L]. destruct Ha. rewrite <-Hk. by apply (list_elem_of_fmap_2 e_key).
    + eexists _, p, None. split; [done|]. destruct count; (split; [by repeat apply linked_counters|by split]).
Qed.

Lemma Peek_linked key s p : linked s p -> Peek key s = Ok (e_record <$> lookup_key key p.*2).
Proof.
  intros L. unfold Peek. destruct (s_entries s !! key) as [i|] eqn:Ek.
  - apply (linked_lookup s p key i L) in Ek as (e & Hin & Hk). rewrite (linked_cell s p i e L Hin), (lookup_linked s p key i e L Hin Hk). done.
  - pose proof (linked_absent s p key L Ek) as Ha. destruct (lookup_key key p.*2) as [e|] eqn:El; [|done].
    apply lookup_key_Some in El as [He Hk]; [|apply L]. destruct Ha. rewrite <-Hk. by apply (list_elem_of_fmap_2 e_key).
Qed.

(** The bounds a store keeps. *)
Definition within (s : Store) (p : list (nat * stored)) : Prop :=
  (Z.of_nat (length p) <= Z.max 0 (s_limit s))%Z /\ (0 < s_memoryLimit s -> weight p.*2 <= s_memoryLimit s)%Z /\ (s_memoryLimit s < 2 ^ 63)%Z.

Lemma crowded_spec bytes s p : linked s p -> within s p ->
  crowded bytes s = (s_limit s <=? Z.of_nat (length p))%Z || ((0 <? s_memoryLimit s)%Z && (s_memoryLimit s - weight p.*2 <? bytes)%Z).
Proof.
  intros L (_ & Hm & Hr). unfold crowded. rewrite (linked_size s p L). f_equal. destruct (Z.ltb_spec 0 (s_memoryLimit s)) as [Hp|]; [|done]. cbn [andb]. pose proof (weight_nonneg _ (lk_weights _ _ L)). specialize (Hm Hp).
  rewrite (lk_bytes _ _ L), (int64_id (weight _)), int64_id by lia. done.
Qed.

Lemma evict_linked bytes fuel : forall s p, linked s p -> within s p -> length p <= fuel -> (0 < s_limit s)%Z -> (0 <= bytes)%Z -> (0 < s_memoryLimit s -> bytes <= s_memoryLimit s)%Z ->
  exists s' p', evict fuel bytes s = Ok s' /\ linked s' p' /\ same_limits s s' /\ p'.*2 = keep (Z.to_nat (s_limit s) - 1) (0 <? s_memoryLimit s)%Z (s_memoryLimit s - bytes) p.*2.
Proof.
  induction fuel as [|fuel IH]; intros s p L W Hf Hl Hb Hm; cbn [evict]; rewrite (crowded_spec bytes s p L W).
  - destruct p; [|cbn in Hf; lia]. change (weight ([] : list (nat * stored)).*2) with 0%Z. change (Z.of_nat (length ([] : list (nat * stored)))) with 0%Z.
    assert ((s_limit s <=? 0)%Z = false) as -> by lia. assert ((0 <? s_memoryLimit s)%Z && (s_memoryLimit s - 0 <? bytes)%Z = false) as ->.
    { destruct (Z.ltb_spec 0 (s_memoryLimit s)); cbn; [|done]. lia. }
    exists s, []. split; [done|]. split; [done|]. split; [by split|]. by destruct (_ - 1).
  - destruct (_ || _) eqn:Ec.
    + destruct p as [|[i e] p _] using rev_ind.
      { exfalso. change (weight ([] : list (nat * stored)).*2) with 0%Z in Ec. change (Z.of_nat (length ([] : list (nat * stored)))) with 0%Z in Ec.
        apply orb_true_iff in Ec as [Ec%Z.leb_le|[Ec1%Z.ltb_lt Ec2%Z.ltb_lt]%andb_true_iff]; [lia|]. specialize (Hm Ec1). lia. }
      assert (last (s_lru s) = Some i) as -> by (rewrite (lk_lru _ _ L), fmap_app; apply last_snoc). destruct (linked_remove s p [] i e L) as (s1 & E & L1 & [S1 S2]). rewrite app_nil_r in L1. rewrite E. cbn [mbind res_bind].
      rewrite length_app in Hf. cbn in Hf. pose proof (lk_weights _ _ L) as Hw. destruct W as (W1 & W2 & W3). rewrite fmap_app in W2, Hw. change ([(i, e)].*2) with [e] in W2, Hw. rewrite weight_app in W2. cbn in W2. rewrite Forall_app, Forall_singleton in Hw. destruct Hw as [Hwp Hwe].
      destruct (IH (count_evicted s1) p) as (s' & p' & E' & L' & [T1 T2] & K'); [by apply linked_counters| |lia|cbn; lia|done|cbn; by rewrite S2|].
      { cbn. unfold within. cbn. rewrite S1, S2. rewrite length_app in W1. cbn in W1. split; [lia|]. split; [|done]. cbn in Hwe. intros Hp. specialize (W2 Hp). lia. }
      exists s', p'. split; [done|]. split; [done|]. cbn in T1, T2. split; [split; congruence|]. rewrite K'. cbn. rewrite S1, S2, fmap_app. cbn. symmetry. apply keep_drop; [apply Forall_app; by split; [|apply Forall_singleton]|].
      rewrite length_app, length_fmap, weight_app. cbn. apply orb_true_iff in Ec as [Ec|[Ec1 Ec2]%andb_true_iff]; [left; apply Z.leb_le in Ec; rewrite length_app in Ec; cbn in Ec; lia|]. right. split; [done|]. apply Z.ltb_lt in Ec2. rewrite fmap_app, weight_app in Ec2. cbn in Ec2. lia.
    + exists s, p. split; [done|]. split; [done|]. split; [by split|]. apply orb_false_iff in Ec as [E1 E2]. apply Z.leb_gt in E1. symmetry. apply keep_fits; [apply L|rewrite length_fmap; lia|]. intros Hp. rewrite Hp in E2. cbn in E2. apply Z.ltb_ge in E2. lia.
Qed.

Lemma push_linked key record bytes s p : linked s p -> key ∉ map e_key p.*2 -> (0 <= bytes)%Z -> linked (push_front key record bytes s) ((s_next s, mkStored key record bytes) :: p).
Proof.
  intros [H1 H2 H3 H4 H5 H6 H7 H8] Hn Hb. assert (Hi : forall x, x ∈ p -> x.1 <> s_next s) by (intros x Hx; rewrite Forall_forall in H6; specialize (H6 x Hx); lia). split; cbn.
  - by rewrite H1.
  - constructor; [apply lookup_insert_eq|]. rewrite Forall_forall in H2 |- *. intros x Hx. rewrite lookup_insert_ne by (symmetry; by apply Hi). by apply H2.
  - constructor; [|done]. intros (x & E & Hx)%list_elem_of_fmap. by apply (Hi x Hx).
  - by constructor.
  - by rewrite H5.
  - constructor; [cbn; lia|]. eapply Forall_impl; [exact H6|]. intros x Hx. cbn in Hx. lia.
  - by constructor.
  - rewrite H8, int64_add. f_equal. lia.
Qed.

Lemma Put_linked key record bytes s p : linked s p -> within s p ->
  exists s' p' b, Put key record bytes s = Ok (s', b) /\ linked s' p' /\ same_limits s s' /\ (p'.*2, b) = lru_put (s_limit s) (s_memoryLimit s) key record bytes p.*2.
Proof.
  intros L W. unfold Put, lru_put. destruct (_ || _ || _) eqn:Eg; [exists s, p, false; by split_and!|]. apply orb_false_iff in Eg as [[E1 E2]%orb_false_iff E3]. apply Z.leb_gt in E1. apply Z.ltb_ge in E2.
  assert (Hm : (0 < s_memoryLimit s -> bytes <= s_memoryLimit s)%Z) by (intros Hp%Z.ltb_lt; rewrite Hp in E3; cbn in E3; by apply Z.ltb_ge in E3).
  assert (Hold : exists s1 p1, match s_entries s !! key with Some old => remove old s | None => Ok s end = Ok s1 /\ linked s1 p1 /\ same_limits s s1 /\ within s1 p1 /\ p1.*2 = without key p.*2).
  { destruct (s_entries s !! key) as [i|] eqn:Ek.
    - apply (linked_lookup s p key i L) in Ek as (e & Hin & Hk). destruct (elem_split _ _ Hin) as (p1 & p2 & ->). destruct (linked_remove s p1 p2 i e L) as (s1 & E & L1 & [S1 S2]). exists s1, (p1 ++ p2). split; [done|]. split; [done|]. split; [by split|]. split.
      + destruct W as (W1 & W2 & W3). unfold within. rewrite S1, S2. rewrite length_app in *. cbn in W1. split; [lia|]. split; [|done]. intros Hp. specialize (W2 Hp). pose proof (lk_weights _ _ L) as Hw. rewrite fmap_app in W2, Hw |- *. rewrite weight_app in *. cbn in W2. apply Forall_app in Hw as [_ [Hw _]%Forall_cons]. cbn in Hw. lia.
      + rewrite !fmap_app, fmap_cons. cbn [snd]. symmetry. apply without_split; [|done]. pose proof (lk_keys _ _ L) as Hnd. by rewrite fmap_app, fmap_cons in Hnd.
    - exists s, p. split; [done|]. split; [done|]. split; [by split|]. split; [done|]. symmetry. apply without_absent. by apply (linked_absent s p). }
  destruct Hold as (s1 & p1 & E & L1 & [S1 S2] & W1' & Hp1). rewrite E. cbn [mbind res_bind].
  destruct (evict_linked bytes (length (s_lru s1)) s1 p1 L1 W1') as (s2 & p2 & Ev & L2 & [T1 T2] & Hp2); [by rewrite (lk_lru _ _ L1), length_fmap|lia|done|by rewrite S2|].
  rewrite Ev. cbn [mbind res_bind]. eexists _, ((s_next s2, mkStored key record bytes) :: p2), true. split; [done|]. split; [|split; [split; cbn; congruence|]].
  - apply push_linked; [done| |done]. rewrite Hp2, Hp1. destruct (keep_prefix (Z.to_nat (s_limit s1) - 1) (0 <? s_memoryLimit s1)%Z (s_memoryLimit s1 - bytes) (without key p.*2)) as [rest Er].
    destruct (keys_without key p.*2 (lk_keys _ _ L)) as [_ Hk]. rewrite Er in Hk. rewrite map_app, elem_of_app in Hk. tauto.
  - rewrite fmap_cons. cbn [snd]. by rewrite Hp2, Hp1, S1, S2.
Qed.

Lemma filter_ext_in {A} (P Q : A -> Prop) `{!forall x, Decision (P x), !forall x, Decision (Q x)} (l : list A) : (forall x, x ∈ l -> P x <-> Q x) -> filter P l = filter Q l.
Proof.
  induction l as [|x l IH]; intros Hx; [done|]. rewrite !filter_cons, IH by (intros; apply Hx; by apply list_elem_of_further). pose proof (Hx x (list_elem_of_here _ _)). repeat destruct (decide _); tauto.
Qed.

Lemma filter_all {A} (P : A -> Prop) `{!forall x, Decision (P x)} (l : list A) : (forall x, x ∈ l -> P x) -> filter P l = l.
Proof. induction l as [|x l IH]; intros Hx; [done|]. rewrite filter_cons, decide_True by (apply Hx, list_elem_of_here). f_equal. apply IH. intros. apply Hx. by apply list_elem_of_further. Qed.

(** The entries that remain while [rest] is still to be visited. *)
Definition unvisited (now : Time) (rest : list (K * nat)) (l : list stored) : list stored :=
  filter (fun e => Before now (Expires (e_record e)) = true \/ e_key e ∈ rest.*1) l.

Lemma unvisited_expired now rest k i (l : list stored) e : NoDup (map e_key l) -> k ∉ rest.*1 -> e ∈ l -> e_key e = k -> Before now (Expires (e_record e)) = false ->
  unvisited now rest l = without k (unvisited now ((k, i) :: rest) l).
Proof.
  intros Hnd Hk He Ek Hx. unfold without, unvisited. rewrite list_filter_filter. apply filter_ext_in. intros x Hin. cbn. rewrite elem_of_cons. assert (e_key x = k -> x = e).
  { intros E. pose proof (proj2 (lookup_key_Some k l x Hnd) (conj Hin E)). pose proof (proj2 (lookup_key_Some k l e Hnd) (conj He Ek)). congruence. }
  destruct (decide (e_key x = k)) as [E|]; [|tauto]. rewrite (H0 E), Hx, Ek. split; [intros [?|?]; done|tauto].
Qed.

Lemma unvisited_live now rest k i (l : list stored) e : NoDup (map e_key l) -> e ∈ l -> e_key e = k -> Before now (Expires (e_record e)) = true ->
  unvisited now rest l = unvisited now ((k, i) :: rest) l.
Proof.
  intros Hnd He Ek Hx. apply filter_ext_in. intros x Hin. cbn. rewrite elem_of_cons. split; [tauto|]. intros [?|[E|?]]; [tauto| |tauto]. left.
  pose proof (proj2 (lookup_key_Some k l x Hnd) (conj Hin E)). pose proof (proj2 (lookup_key_Some k l e Hnd) (conj He Ek)). congruence.
Qed.

Lemma Expire_linked order now s p : linked s p -> exists s' p', Expire order now s = Ok s' /\ linked s' p' /\ same_limits s s' /\ p'.*2 = lru_expire now p.*2.
Proof.
  intros L. unfold Expire. set (I := fun (rest : list (K * nat)) s1 => exists p1, linked s1 p1 /\ same_limits s s1 /\ NoDup rest.*1 /\ (forall x, x ∈ rest -> s_entries s1 !! x.1 = Some x.2) /\ p1.*2 = unvisited now rest p.*2).
  destruct (foldM_run (expire_one now) I (range order (s_entries s)) s) as (s' & E & p' & L' & S' & _ & _ & Hp').
  - exists p. split; [done|]. split; [by split|]. split; [apply NoDup_range|]. split; [by intros [k i] Hin%elem_of_range|]. unfold unvisited. symmetry. apply filter_all. intros e He. right.
    apply list_elem_of_fmap in He as ([i e'] & -> & He). apply list_elem_of_fmap. exists (e_key e', i). split; [done|]. apply elem_of_range, (linked_lookup s p); eauto.
  - intros [k i] rest s1 (p1 & L1 & [S1 S2] & Hnd & Hr & Hp1). cbn in Hnd. inversion_clear Hnd as [|? ? Hk Hnd']. pose proof (Hr (k, i) (list_elem_of_here _ _)) as Hki. cbn in Hki.
    apply (linked_lookup s1 p1 k i L1) in Hki as (e & Hin & Ek). assert (He : e ∈ p.*2).
    { assert (He : e ∈ p1.*2) by by apply (list_elem_of_fmap_2 snd p1 (i, e)). rewrite Hp1 in He. by apply list_elem_of_filter in He as [_ He]. }
    unfold expire_one. cbn [snd]. rewrite (linked_cell s1 p1 i e L1 Hin). cbn [idx mbind res_bind]. destruct (Before now _) eqn:Eb; cbn [negb].
    + exists s1. split; [done|]. exists p1. split; [done|]. split; [by split|]. split; [done|]. split; [intros x Hx; by apply Hr, list_elem_of_further|]. rewrite Hp1. symmetry. by apply (unvisited_live _ _ _ _ _ e (lk_keys _ _ L)).
    + destruct (elem_split _ _ Hin) as (q1 & q2 & ->). destruct (linked_remove s1 q1 q2 i e L1) as (s2 & E2 & L2 & [T1 T2]). pose proof E2 as Er. rewrite E2. cbn [mbind res_bind]. eexists. split; [done|]. exists (q1 ++ q2).
      split; [by apply linked_counters|]. split; [split; cbn; congruence|]. split; [done|]. split.
      * intros x Hx. cbn. unfold remove in Er. rewrite (linked_cell s1 _ i e L1 Hin) in Er. cbn in Er. injection Er as <-. cbn. rewrite lookup_delete_ne; [by apply Hr, list_elem_of_further|]. rewrite Ek. intros ->. apply Hk. by apply (list_elem_of_fmap_2 fst).
      * rewrite (unvisited_expired _ _ k i _ e (lk_keys _ _ L) Hk He Ek Eb), <-Hp1, !fmap_app, fmap_cons. cbn [snd]. symmetry. apply without_split; [|done]. pose proof (lk_keys _ _ L1) as Hn1. by rewrite fmap_app, fmap_cons in Hn1.
  - exists s', p'. split; [done|]. split; [done|]. split; [done|]. rewrite Hp'. apply filter_ext_in. intros x _. cbn. rewrite elem_of_nil. tauto.
Qed.
End Rep.

(** ** Runs *)

Section Runs.
Context {K V : Type} `{Countable K}.
Local Abbreviation stored := (stored K V).
Local Abbreviation Store := (Store K V).
Local Abbreviation CacheRecord := (CacheRecord V).

Inductive store_op :=
  | OpGet (key : K) (now : Time) (countMiss : bool)
  | OpPeek (key : K)
  | OpPut (key : K) (record : CacheRecord) (bytes : Z)
  | OpExpire (order : map_order) (now : Time).

Inductive outcome :=
  | Found (o : option CacheRecord)
  | Accepted (b : bool)
  | Swept.

Definition run_store_op (op : store_op) (s : Store) : res (Store * outcome) :=
  match op with
  | OpGet key now countMiss => '(s, o) ← get key now countMiss s; Ok (s, Found o)
  | OpPeek key => o ← Peek key s; Ok (s, Found o)
  | OpPut key record bytes => '(s, b) ← Put key record bytes s; Ok (s, Accepted b)
  | OpExpire order now => s ← Expire order now s; Ok (s, Swept)
  end.

Definition run_store (ops : list store_op) (s : Store) : res (Store * list outcome) :=
  foldM (fun st op => '(s, o) ← run_store_op op st.1; Ok (s, st.2 ++ [o])) (s, []) ops.

Definition lru_op (limit mem : Z) (op : store_op) (l : list stored) : list stored * outcome :=
  match op with
  | OpGet key now _ => let '(l, o) := lru_get key now l in (l, Found o)
  | OpPeek key => (l, Found (e_record <$> lookup_key key l))
  | OpPut key record bytes => let '(l, b) := lru_put limit mem key record bytes l in (l, Accepted b)
  | OpExpire _ now => (lru_expire now l, Swept)
  end.

Definition lru_run (limit mem : Z) (ops : list store_op) : list stored * list outcome :=
  fold_left (fun st op => let '(l, o) := lru_op limit mem op st.1 in (l, st.2 ++ [o])) ops ([], []).

(** The live entries of a store. *)
Definition contents (s : Store) : list stored := omap (fun i => s_cells s !! i) (s_lru s).

Lemma linked_contents s p : linked s p -> contents s = p.*2.
Proof.
  intros L. unfold contents. rewrite (lk_lru _ _ L). pose proof (lk_cells _ _ L) as Hc. clear L. induction Hc as [|x p Hx _ IH]; [done|]. cbn. rewrite Hx. by f_equal.
Qed.

(** *** Bounds of the specification *)

Definition lru_within (limit mem : Z) (l : list stored) : Prop :=
  NoDup (map e_key l) /\ Forall (fun e => 0 <= e_bytes e)%Z l /\ (Z.of_nat (length l) <= Z.max 0 limit)%Z /\ (0 < mem -> weight l <= mem)%Z.

Lemma sublist_within limit mem l l' : l' `sublist_of` l -> lru_within limit mem l -> lru_within limit mem l'.
Proof.
  intros Hs (H1 & H2 & H3 & H4). assert (Hw : (weight l' <= weight l)%Z /\ Forall (fun e => 0 <= e_bytes e)%Z l').
  { clear -Hs H2. induction Hs as [|e l1 l2 _ IH|e l1 l2 _ IH]; cbn [weight]; [split; [lia|done]|..]; inversion_clear H2 as [|? ? He Hl]; destruct (IH Hl); split; try lia; [by constructor|done]. }
  destruct Hw as [Hw Hf]. split; [|split; [done|split]].
  - eapply sublist_NoDup; [exact H1|]. change (e_key <$> l' `sublist_of` e_key <$> l). by apply fmap_sublist.
  - apply sublist_length in Hs. lia.
  - intros Hm. specialize (H4 Hm). lia.
Qed.

Lemma keep_sublist n bd b (l : list stored) : keep n bd b l `sublist_of` l.
Proof. destruct (keep_prefix n bd b l) as [rest E]. rewrite E at 2. apply sublist_inserts_r. reflexivity. Qed.

Lemma lru_get_within limit mem key now l : lru_within limit mem l -> lru_within limit mem (lru_get key now l).1.
Proof.
  intros W. pose proof W as (H1 & H2 & H3 & H4). assert (Ws : lru_within limit mem (without key l)) by (eapply sublist_within; [apply sublist_filter|done]). unfold lru_get. destruct (lookup_key key l) as [e|] eqn:Ek; [|done].
  destruct (Before _ _); [|done]. apply lookup_key_Some in Ek as [He Hk]; [|done]. apply elem_split in He as (l1 & l2 & ->). cbn [fst]. rewrite (without_split key l1 l2 e) by done.
  assert (Hp : e :: l1 ++ l2 ≡ₚ l1 ++ e :: l2) by apply Permutation_middle. split; [change (NoDup (e_key <$> e :: l1 ++ l2)); by rewrite Hp|]. split; [by rewrite Hp|]. split; [by rewrite Hp|]. by rewrite (weight_Permutation _ _ Hp).
Qed.

Lemma lru_put_within limit mem key record bytes l : lru_within limit mem l -> lru_within limit mem (lru_put limit mem key record bytes l).1.
Proof.
  intros W. unfold lru_put. destruct (_ || _ || _) eqn:Eg; [done|]. apply orb_false_iff in Eg as [[E1 E2]%orb_false_iff E3]. apply Z.leb_gt in E1. apply Z.ltb_ge in E2. cbn [fst].
  set (k := keep _ _ _ _). assert (Hs : k `sublist_of` without key l) by apply keep_sublist. destruct (keys_without key l (proj1 W)) as [_ Hk].
  destruct (sublist_within limit mem l k) as (H1 & H2 & H3 & H4); [etrans; [exact Hs|apply sublist_filter]|done|]. split; [|split; [by constructor|split]].
  - cbn. constructor; [|done]. intros Hx. apply Hk. change (key ∈ e_key <$> k) in Hx. change (key ∈ e_key <$> without key l). apply list_elem_of_fmap in Hx as (e & -> & He). apply (list_elem_of_fmap_2 e_key). eapply elem_of_sublist; [exact He|exact Hs].
  - cbn [length]. pose proof (keep_length (Z.to_nat limit - 1) (0 <? mem)%Z (mem - bytes) (without key l)). fold k in H0. lia.
  - intros Hm. cbn [weight e_bytes]. rewrite (proj2 (Z.ltb_lt 0 mem) Hm) in E3. cbn in E3. apply Z.ltb_ge in E3. pose proof (keep_weight (Z.to_nat limit - 1) (mem - bytes) (without key l) ltac:(lia)) as Hw.
    unfold k. rewrite (proj2 (Z.ltb_lt 0 mem) Hm). lia.
Qed.

Lemma lru_op_within limit mem op l : lru_within limit mem l -> lru_within limit mem (lru_op limit mem op l).1.
Proof.
  intros W. destruct op as [key now c|key|key record bytes|order now]; cbn [lru_op].
  - pose proof (lru_get_within limit mem key now l W). by destruct (lru_get _ _ _).
  - done.
  - pose proof (lru_put_within limit mem key record bytes l W). by destruct (lru_put _ _ _ _ _ _).
  - eapply sublist_within; [apply sublist_filter|done].
Qed.

Lemma lru_run_snoc limit mem ops op : lru_run limit mem (ops ++ [op]) =
  ((lru_op limit mem op (lru_run limit mem ops).1).1, (lru_run limit mem ops).2 ++ [(lru_op limit mem op (lru_run limit mem ops).1).2]).
Proof. unfold lru_run. rewrite fold_left_app. cbn [fold_left]. by destruct (lru_op _ _ _ _). Qed.

Lemma lru_run_within limit mem ops : lru_within limit mem (lru_run limit mem ops).1.
Proof.
  induction ops as [|op ops IH] using rev_ind; [split; [constructor|split; [constructor|split; cbn; lia]]|]. rewrite lru_run_snoc. by apply lru_op_within.
Qed.

(** *** Simulation *)

Lemma run_store_op_linked op s p : linked s p -> within s p ->
  exists s' p' o, run_store_op op s = Ok (s', o) /\ linked s' p' /\ same_limits s s' /\ (p'.*2, o) = lru_op (s_limit s) (s_memoryLimit s) op p.*2.
Proof.
  intros L W. destruct op as [key now c|key|key record bytes|order now]; cbn [run_store_op lru_op].
  - destruct (get_linked key now c s p L) as (s' & p' & o & E & L' & S' & Eo). rewrite E. cbn [mbind res_bind]. exists s', p', (Found o). split_and!; try done. by rewrite <-Eo.
  - rewrite (Peek_linked key s p L). cbn [mbind res_bind]. eexists s, p, _. split_and!; done.
  - destruct (Put_linked key record bytes s p L W) as (s' & p' & b & E & L' & S' & Eo). rewrite E. cbn [mbind res_bind]. exists s', p', (Accepted b). split_and!; try done. by rewrite <-Eo.
  - destruct (Expire_linked order now s p L) as (s' & p' & E & L' & S' & Eo). rewrite E. cbn [mbind res_bind]. exists s', p', Swept. split_and!; try done. by rewrite Eo.
Qed.

Lemma run_store_linked limit mem ops : (mem < 2 ^ 63)%Z ->
  exists s p, run_store ops (NewStore limit mem) = Ok (s, (lru_run limit mem ops).2) /\ linked s p /\ s_limit s = limit /\ s_memoryLimit s = mem /\ p.*2 = (lru_run limit mem ops).1.
Proof.
  intros Hmem. induction ops as [|op ops (s & p & E & L & El & Em & Hp)] using rev_ind; [exists (NewStore limit mem), []; split_and!; try done; apply linked_new|].
  unfold run_store in *. rewrite foldM_snoc, E. cbn [mbind res_bind fst snd]. destruct (lru_run_within limit mem ops) as (_ & _ & B1 & B2). rewrite <-Hp in B1, B2. rewrite length_fmap in B1.
  destruct (run_store_op_linked op s p L) as (s' & p' & o & E' & L' & [S1 S2] & Eo); [unfold within; rewrite El, Em; by split_and!|]. rewrite E'. cbn [mbind res_bind]. rewrite El, Em, Hp in Eo.
  exists s', p'. rewrite lru_run_snoc, <-Eo. split_and!; try done; congruence.
Qed.

Lemma lru_get_entries (key : K) now (l : list stored) e : e ∈ (lru_get key now l).1 -> e ∈ l.
Proof.
  unfold lru_get. destruct (lookup_key key l) as [x|] eqn:Ek; [|done]. destruct (Before _ _); cbn [fst]; [rewrite elem_of_cons; intros [->|He]|intros He]; try by apply elem_of_without in He as [He _].
  unfold lookup_key in Ek. destruct (filter _ l) eqn:Ef; [done|]. injection Ek as ->. assert (Hx : x ∈ filter (fun e => e_key e = key) l) by (rewrite Ef; apply list_elem_of_here). by apply list_elem_of_filter in Hx as [_ Hx].
Qed.

(** *** Invariants of the entries *)

(** A store in use whose entries all satisfy [P]. *)
Definition store_inv (P : stored -> Prop) (s : Store) : Prop := exists p, linked s p /\ within s p /\ Forall P p.*2.

Lemma within_lru s p : linked s p -> within s p <-> lru_within (s_limit s) (s_memoryLimit s) p.*2 /\ (s_memoryLimit s < 2 ^ 63)%Z.
Proof. intros L. unfold within, lru_within. rewrite length_fmap. pose proof (lk_keys _ _ L). pose proof (lk_weights _ _ L). tauto. Qed.

Lemma store_inv_mono (P Q : stored -> Prop) s : (forall e, P e -> Q e) -> store_inv P s -> store_inv Q s.
Proof. intros H0 (p & L & W & Hp). exists p. split; [done|]. split; [done|]. by eapply Forall_impl. Qed.

Lemma new_inv (P : stored -> Prop) limit mem : (mem < 2 ^ 63)%Z -> store_inv P (NewStore limit mem).
Proof. intros Hm. exists []. split; [apply linked_new|]. split; [split; [cbn; lia|split; cbn; [lia|done]]|constructor]. Qed.

Lemma get_inv (P : stored -> Prop) key now count s : store_inv P s ->
  exists s' o, get key now count s = Ok (s', o) /\ store_inv P s' /\ same_limits s s' /\
    forall r, o = Some r -> (now < Expires r)%Z /\ exists e, P e /\ e_key e = key /\ e_record e = r.
Proof.
  intros (p & L & W & Hp). destruct (get_linked key now count s p L) as (s' & p' & o & E & L' & [S1 S2] & Eo). exists s', o. split; [done|]. pose proof (f_equal fst Eo) as Ep. pose proof (f_equal snd Eo) as Er. cbn [fst snd] in Ep, Er. split; [|split; [by split|]].
  - exists p'. split; [done|]. split.
    + apply within_lru; [done|]. rewrite S1, S2, Ep. apply within_lru in W as [W Wm]; [|done]. split; [by apply lru_get_within|done].
    + rewrite Ep. rewrite Forall_forall in Hp |- *. intros e He. apply Hp. by eapply lru_get_entries.
  - intros r ->. unfold lru_get in Er. destruct (lookup_key key p.*2) as [e|] eqn:Ek; [|done]. destruct (Before now _) eqn:Eb; [|done]. cbn in Er. injection Er as ->. apply lookup_key_Some in Ek as [He Hk]; [|apply L].
    split; [by apply Z.ltb_lt|]. exists e. rewrite Forall_forall in Hp. auto.
Qed.

Lemma Put_inv (P : stored -> Prop) key record bytes s : store_inv P s -> P (mkStored key record bytes) ->
  exists s' b, Put key record bytes s = Ok (s', b) /\ store_inv P s' /\ same_limits s s'.
Proof.
  intros (p & L & W & Hp) Hnew. destruct (Put_linked key record bytes s p L W) as (s' & p' & b & E & L' & [S1 S2] & Eo). exists s', b. split; [done|]. pose proof (f_equal fst Eo) as Ep. cbn [fst] in Ep. split; [|by split]. exists p'. split; [done|]. split.
  - apply within_lru; [done|]. rewrite S1, S2, Ep. apply within_lru in W as [W Wm]; [|done]. split; [by apply lru_put_within|done].
  - rewrite Ep. unfold lru_put. destruct (_ || _ || _); [done|]. cbn [fst]. constructor; [done|]. rewrite Forall_forall in Hp |- *. intros e He. apply Hp. eapply elem_of_sublist in He; [|apply keep_sublist]. by apply elem_of_without in He as [He _].
Qed.

Lemma Expire_inv (P : stored -> Prop) order now s : store_inv P s -> exists s', Expire order now s = Ok s' /\ store_inv P s' /\ same_limits s s'.
Proof.
  intros (p & L & W & Hp). destruct (Expire_linked order now s p L) as (s' & p' & E & L' & [S1 S2] & Ep). exists s'. split; [done|]. split; [|by split]. exists p'. split; [done|]. split.
  - apply within_lru; [done|]. rewrite S1, S2, Ep. apply within_lru in W as [W Wm]; [|done]. split; [|done]. eapply sublist_within; [apply sublist_filter|done].
  - rewrite Ep. rewrite Forall_forall in Hp |- *. intros e [_ He]%list_elem_of_filter. by apply Hp.
Qed.

(** *** The latest record of a key *)

(** What the last accepted [Put] of the key stored. *)
Definition accepts (limit mem bytes : Z) : bool := negb ((limit <=? 0)%Z || (bytes <? 0)%Z || ((0 <? mem)%Z && (mem <? bytes)%Z)).

Definition latest_put (limit mem : Z) (key : K) (ops : list store_op) : option CacheRecord :=
  fold_left (fun r op => match op with OpPut k record bytes => if bool_decide (k = key) && accepts limit mem bytes then Some record else r | _ => r end) ops None.

Lemma latest_put_snoc limit mem key ops op : latest_put limit mem key (ops ++ [op]) =
  match op with OpPut k record bytes => if bool_decide (k = key) && accepts limit mem bytes then Some record else latest_put limit mem key ops | _ => latest_put limit mem key ops end.
Proof. unfold latest_put. by rewrite fold_left_app. Qed.

(** Every live entry holds the record its key was last given. *)
Lemma lru_run_latest limit mem ops e : e ∈ (lru_run limit mem ops).1 -> latest_put limit mem (e_key e) ops = Some (e_record e).
Proof.
  revert e. induction ops as [|op ops IH] using rev_ind; intros e; [by intros ?%elem_of_nil|]. rewrite lru_run_snoc, latest_put_snoc. cbn [fst]. destruct op as [key now c|key|key record bytes|order now]; cbn [lru_op].
  - intros He. apply IH, (lru_get_entries key now). by destruct (lru_get _ _ _).
  - apply IH.
  - unfold lru_put. destruct (_ || _ || _) eqn:Eg; cbn [fst].
    + intros He. unfold accepts. rewrite Eg. cbn [negb]. rewrite andb_false_r. by apply IH.
    + assert (Ha : accepts limit mem bytes = true) by (unfold accepts; by rewrite Eg). rewrite Ha, andb_true_r, elem_of_cons. intros [->|He]; [by rewrite bool_decide_eq_true_2|].
      eapply elem_of_sublist in He; [|apply keep_sublist]. apply elem_of_without in He as [He Hk]. rewrite bool_decide_eq_false_2 by congruence. by apply IH.
  - unfold lru_expire. intros [_ He]%list_elem_of_filter. by apply IH.
Qed.

(** C16: any run of [Get], [GetIfPresent], [Peek], [Put] and [Expire] on a new store completes
    without panicking, and its results and live entries are those of a list kept in the order
    of use: a [Put] that is accepted drops the least recently used entries that do not fit
    beside it, and no others. The store never holds more entries than its limit, nor more
    bytes than a positive memory limit, and the counts it reports are those of the list. *)
Theorem store_refines (limit mem : Z) (ops : list store_op) : (mem < 2 ^ 63)%Z ->
  exists s, run_store ops (NewStore limit mem) = Ok (s, (lru_run limit mem ops).2) /\
    contents s = (lru_run limit mem ops).1 /\
    (Z.of_nat (length (contents s)) <= Z.max 0 limit)%Z /\ (0 < mem -> weight (contents s) <= mem)%Z /\
    Entries (Snapshot s) = Z.of_nat (length (contents s)) /\ Bytes (Snapshot s) = int64 (weight (contents s)).
Proof.
  intros Hm. destruct (run_store_linked limit mem ops Hm) as (s & p & E & L & El & Em & Hp). exists s. split; [done|]. rewrite (linked_contents s p L), <-Hp. destruct (lru_run_within limit mem ops) as (_ & _ & B1 & B2). rewrite <-Hp in B1, B2.
  split; [done|]. split; [done|]. split; [done|]. cbn. rewrite (linked_size s p L), length_fmap. split; [done|]. apply L.
Qed.

(** A hit is fresh: after any run, the record a lookup returns is the one its key was
    last given by an accepted [Put], and it has not expired. *)
Theorem store_hits_fresh (limit mem : Z) (ops : list store_op) (s : Store) (outs : list outcome) (key : K) (now : Time) (count : bool) :
  (mem < 2 ^ 63)%Z -> run_store ops (NewStore limit mem) = Ok (s, outs) ->
  exists s' o, get key now count s = Ok (s', o) /\ forall r, o = Some r -> latest_put limit mem key ops = Some r /\ (now < Expires r)%Z.
Proof.
  intros Hm Hrun. destruct (run_store_linked limit mem ops Hm) as (s0 & p & E & L & El & Em & Hp). rewrite E in Hrun. injection Hrun as -> _. destruct (get_linked key now count s p L) as (s' & p' & o & Eg & L' & _ & Eo).
  exists s', o. split; [done|]. intros r ->. unfold lru_get in Eo. destruct (lookup_key key p.*2) as [e|] eqn:Ek; [|done]. destruct (Before now _) eqn:Eb; [|done]. injection Eo as _ ->. apply lookup_key_Some in Ek as [He <-]; [|apply L].
  rewrite Hp in He. split; [by apply lru_run_latest|]. unfold Before in Eb. by apply Z.ltb_lt.
Qed.
End Runs.

(** ** Witnesses *)

Module StoreDemo.
Definition r (v : nat) (expires : Time) : CacheRecord nat := mkCacheRecord v 0%Z expires.
Definition ops : list (store_op (K := nat) (V := nat)) :=
  [OpPut 1 (r 10 100) 4; OpPut 2 (r 20 100) 4; OpGet 1 50 true; OpPut 3 (r 30 60) 4; OpGet 2 50 true; OpGet 1 50 true; OpPut 1 (r 11 90) 2;
   OpPut 4 (r 40 200) 100; OpExpire in_order 70; OpPeek 3].
Definition final : Store nat nat := match run_store ops (NewStore 2 10) with Ok st => st.1 | _ => NewStore 2 10 end.
End StoreDemo.

Lemma store_refines_witness : exists s, run_store StoreDemo.ops (NewStore 2 10) = Ok (s, (lru_run 2 10 StoreDemo.ops).2) /\
  contents s = (lru_run 2 10 StoreDemo.ops).1 /\
  (Z.of_nat (length (contents s)) <= Z.max 0 2)%Z /\ (0 < 10 -> weight (contents s) <= 10)%Z /\
  Entries (Snapshot s) = Z.of_nat (length (contents s)) /\ Bytes (Snapshot s) = int64 (weight (contents s)).
Proof. exact (store_refines 2 10 StoreDemo.ops eq_refl). Defined.

Lemma store_hits_fresh_witness : latest_put 2 10 1 StoreDemo.ops = Some (StoreDemo.r 11 90) /\
  exists s' o, get 1 80%Z true StoreDemo.final = Ok (s', o) /\ forall r, o = Some r -> latest_put 2 10 1 StoreDemo.ops = Some r /\ (80 < Expires r)%Z.
Proof.
  split; [vm_compute; reflexivity|]. apply (store_hits_fresh 2 10 StoreDemo.ops StoreDemo.final (lru_run 2 10 StoreDemo.ops).2); [reflexivity|vm_compute; reflexivity].
Defined.
