(* ===== verification/DnsMessage.v ===== *)
(** * DNS messages

    The parts of the DNS library's messages that the caches read and write, the library's
    functions as an interface, and the checks of common/netutils/dns.go: the frame of a
    received packet, and whether a response answers a query. *)

From S2P Require Import Prelude Netip.

(** ** Messages *)

Record DnsHdr := mkHdr {
  dh_Id : Z;
  dh_Response : bool;
  dh_Opcode : Z;
  dh_Authoritative : bool;
  dh_Truncated : bool;
  dh_RecursionDesired : bool;
  dh_RecursionAvailable : bool;
  dh_Zero : bool;
  dh_AuthenticatedData : bool;
  dh_CheckingDisabled : bool;
  dh_Rcode : Z;
}.

Definition hdr_with_Id (h : DnsHdr) (id : Z) : DnsHdr :=
  mkHdr id (dh_Response h) (dh_Opcode h) (dh_Authoritative h) (dh_Truncated h) (dh_RecursionDesired h) (dh_RecursionAvailable h) (dh_Zero h)
    (dh_AuthenticatedData h) (dh_CheckingDisabled h) (dh_Rcode h).

Record DnsQuestion := mkDnsQuestion { dq_Name : string; dq_Qtype : Z; dq_Qclass : Z }.

(** The Go type of a record: a start of authority with its minimum, an OPT record with the
    texts of its options, or another with its data. *)
Inductive rdata :=
  | SOA (Minttl : Z) (rest : bytes)
  | OPT (Option : list bytes)
  | Data (content : bytes).

Record DnsRR := mkRR { rr_Name : string; rr_Rrtype : Z; rr_Class : Z; rr_Ttl : Z; rr_Data : rdata }.

Definition with_Ttl (rr : DnsRR) (ttl : Z) : DnsRR := mkRR (rr_Name rr) (rr_Rrtype rr) (rr_Class rr) ttl (rr_Data rr).
Definition is_SOA (rr : DnsRR) : option Z := match rr_Data rr with SOA minttl _ => Some minttl | _ => None end.
Definition is_OPT (rr : DnsRR) : option (list bytes) := match rr_Data rr with OPT options => Some options | _ => None end.

Record DnsMsg := mkDnsMsg {
  dm_Hdr : DnsHdr;
  dm_Question : list DnsQuestion;
  dm_Answer : list DnsRR;
  dm_Ns : list DnsRR;
  dm_Extra : list DnsRR;
}.

Definition with_Extra (m : DnsMsg) (extra : list DnsRR) : DnsMsg := mkDnsMsg (dm_Hdr m) (dm_Question m) (dm_Answer m) (dm_Ns m) extra.
Definition with_Question (m : DnsMsg) (q : list DnsQuestion) : DnsMsg := mkDnsMsg (dm_Hdr m) q (dm_Answer m) (dm_Ns m) (dm_Extra m).
Definition with_Ns (m : DnsMsg) (ns : list DnsRR) : DnsMsg := mkDnsMsg (dm_Hdr m) (dm_Question m) (dm_Answer m) ns (dm_Extra m).

Definition TypeSIG : Z := 24.
Definition TypeOPT : Z := 41.
Definition TypeRRSIG : Z := 46.
Definition TypeTKEY : Z := 249.
Definition TypeTSIG : Z := 250.
Definition TypeIXFR : Z := 251.
Definition TypeAXFR : Z := 252.
Definition TypeANY : Z := 255.
Definition ClassIN : Z := 1.
Definition OpQuery : Z := 0.
Definition NoError : Z := 0.
Definition NameError : Z := 3.

#[export] Instance DnsHdr_eq_dec : EqDecision DnsHdr.
Proof. solve_decision. Defined.
#[export] Instance DnsQuestion_eq_dec : EqDecision DnsQuestion.
Proof. solve_decision. Defined.
#[export] Instance rdata_eq_dec : EqDecision rdata.
Proof. solve_decision. Defined.
#[export] Instance DnsRR_eq_dec : EqDecision DnsRR.
Proof. solve_decision. Defined.
#[export] Instance DnsMsg_eq_dec : EqDecision DnsMsg.
Proof. solve_decision. Defined.

(** The library: names, the fields of an OPT record, and the wire format. *)
Class DnsLibrary := {
  IsDomainName : string -> bool;
  CanonicalName : string -> string;
  OPT_Version : DnsRR -> Z;
  OPT_UDPSize : DnsRR -> Z;
  OPT_Do : DnsRR -> bool;
  IsEdns0 : DnsMsg -> option DnsRR;
  SetEdns0 : Z -> bool -> DnsMsg -> DnsMsg;
  RR_Len : DnsRR -> Z;
  PackRR : DnsRR -> option bytes;
  Pack : DnsMsg -> option bytes;
  PackCompressed : DnsMsg -> option bytes;
  Unpack : bytes -> option DnsMsg;
}.

(** What a message packs to, with names compressed or not, unpacks to the message: messages
    are read up to what packing does not keep, the spelling of escapes in names and the
    redundant lengths in record headers.  The times of a received message are unsigned;
    [SetEdns0] appends one record. *)
Class DnsLibraryLaws (L : DnsLibrary) : Prop := {
  Unpack_Pack : forall m w, Pack m = Some w -> Unpack w = Some m;
  Unpack_PackCompressed : forall m w, PackCompressed m = Some w -> Unpack w = Some m;
  Unpack_times : forall m w rr, Unpack w = Some m -> rr ∈ dm_Answer m ++ dm_Ns m ++ dm_Extra m -> (0 <= rr_Ttl rr)%Z /\ forall minttl, is_SOA rr = Some minttl -> (0 <= minttl)%Z;
  SetEdns0_appends : forall size do_ m, exists opt, SetEdns0 size do_ m = with_Extra m (dm_Extra m ++ [opt]);
}.

(** ** Received packets *)

Definition be16 (payload : bytes) (o : nat) : res nat :=
  hi ← idx (payload !! o);
  lo ← idx (payload !! (o + 1));
  Ok (Z.to_nat (hi * 256 + lo)).

(** The name at [offset] and what follows it; each label moves the offset forward, so the
    fuel is the length of the packet. *)
Fixpoint skip_name (fuel : nat) (payload : bytes) (offset : nat) : res nat :=
  match fuel with
  | 0 => Err "fuel"
  | S fuel =>
    if length payload <=? offset then Err "unexpected EOF"
    else
      length_ ← idx (payload !! offset);
      let kind := Z.land length_ 0xc0 in
      if (kind =? 0)%Z then
        let offset := offset + 1 in
        if (length_ =? 0)%Z then Ok offset
        else if length payload <? offset + Z.to_nat length_ then Err "unexpected EOF"
        else skip_name fuel payload (offset + Z.to_nat length_)
      else if (kind =? 0xc0)%Z then
        if length payload <=? offset + 1 then Err "unexpected EOF"
        else
          lo ← idx (payload !! (offset + 1));
          let pointer := Z.lor (Z.shiftl (Z.land length_ 0x3f) 8) lo in
          if (Z.of_nat offset <=? pointer)%Z then Err "DNS compression pointer does not point backward" else Ok (offset + 2)
      else Err "invalid DNS label encoding"
  end.

Definition skipDnsWireName (payload : bytes) (offset : nat) : res nat := skip_name (S (length payload)) payload offset.

Fixpoint skip_questions (questions : nat) (payload : bytes) (offset : nat) : res nat :=
  match questions with
  | 0 => Ok offset
  | S questions =>
    match skipDnsWireName payload offset with
    | Panic => Panic
    | Err _ => Err "malformed DNS question"
    | Ok next => if length payload <? next + 4 then Err "malformed DNS question" else skip_questions questions payload (next + 4)
    end
  end.

Fixpoint skip_records (records : nat) (payload : bytes) (offset : nat) : res nat :=
  match records with
  | 0 => Ok offset
  | S records =>
    match skipDnsWireName payload offset with
    | Panic => Panic
    | Err _ => Err "malformed DNS resource record"
    | Ok next =>
      if length payload <? next + 10 then Err "malformed DNS resource record"
      else
        rdataLength ← be16 payload (next + 8);
        let offset := next + 10 + rdataLength in
        if length payload <? offset then Err "truncated DNS resource record" else skip_records records payload offset
    end
  end.

Definition UnpackDnsMessage `{DnsLibrary} (payload : bytes) : res DnsMsg :=
  if length payload <? 12 then Err "DNS header is truncated"
  else
    questions ← be16 payload 4;
    answers ← be16 payload 6;
    authorities ← be16 payload 8;
    additionals ← be16 payload 10;
    offset ← skip_questions questions payload 12;
    offset ← skip_records (answers + authorities + additionals) payload offset;
    if negb (offset =? length payload) then Err "trailing bytes after DNS message"
    else match Unpack payload with Some m => Ok m | None => Err "unpack" end.

(** ** Responses *)

Section Validate.
Context `{DnsLibrary}.

Fixpoint questions_answer (got want : list DnsQuestion) : bool :=
  match got, want with
  | g :: got, w :: want =>
    String.eqb (CanonicalName (dq_Name g)) (CanonicalName (dq_Name w)) && (dq_Qtype g =? dq_Qtype w)%Z && (dq_Qclass g =? dq_Qclass w)%Z && questions_answer got want
  | _, _ => true
  end.

(** The response afterwards, or the error. *)
Definition validateDnsResponse (query response : DnsMsg) (expectedId : Z) (allowEmptyQuestion : bool) : res DnsMsg :=
  if negb (dh_Response (dm_Hdr response)) then Err "QR bit is not set"
  else if negb (dh_Id (dm_Hdr response) =? expectedId)%Z then Err "transaction ID"
  else if negb (dh_Opcode (dm_Hdr response) =? dh_Opcode (dm_Hdr query))%Z then Err "opcode"
  else if length (dm_Question response) =? 0 then
    if negb allowEmptyQuestion || (dh_Rcode (dm_Hdr response) =? NoError)%Z then Err "response has no question"
    else Ok (with_Question response (dm_Question query))
  else if negb (length (dm_Question response) =? length (dm_Question query)) then Err "question count"
  else if questions_answer (dm_Question response) (dm_Question query) then Ok response
  else Err "question".

Definition ValidateDnsResponse (query response : DnsMsg) (expectedId : Z) : res DnsMsg := validateDnsResponse query response expectedId false.
Definition ValidateDnsResponseAllowEmptyQuestion (query response : DnsMsg) (expectedId : Z) : res DnsMsg := validateDnsResponse query response expectedId true.
End Validate.

(** ** The frame of a packet *)

Definition byte_list (p : bytes) : Prop := Forall (fun b => 0 <= b < 256)%Z p.

(** A name at an offset, in the wire format: labels up to the root, or to a pointer to
    an earlier offset. *)
Inductive wire_name (p : bytes) : nat -> nat -> Prop :=
  | name_root o : p !! o = Some 0%Z -> wire_name p o (o + 1)
  | name_label o l o' : p !! o = Some l -> (1 <= l <= 63)%Z -> o + 1 + Z.to_nat l <= length p -> wire_name p (o + 1 + Z.to_nat l) o' -> wire_name p o o'
  | name_pointer o hi lo : p !! o = Some hi -> (192 <= hi)%Z -> p !! (o + 1) = Some lo -> ((hi - 192) * 256 + lo < Z.of_nat o)%Z -> wire_name p o (o + 2).

Inductive wire_questions (p : bytes) : nat -> nat -> nat -> Prop :=
  | questions_nil o : wire_questions p 0 o o
  | questions_cons n o o1 o2 : wire_name p o o1 -> o1 + 4 <= length p -> wire_questions p n (o1 + 4) o2 -> wire_questions p (S n) o o2.

Definition word_at (p : bytes) (o w : nat) : Prop := exists hi lo, p !! o = Some hi /\ p !! (o + 1) = Some lo /\ Z.of_nat w = (hi * 256 + lo)%Z.

Inductive wire_records (p : bytes) : nat -> nat -> nat -> Prop :=
  | records_nil o : wire_records p 0 o o
  | records_cons n o o1 len o2 : wire_name p o o1 -> o1 + 10 <= length p -> word_at p (o1 + 8) len -> o1 + 10 + len <= length p ->
      wire_records p n (o1 + 10 + len) o2 -> wire_records p (S n) o o2.

(** A header with its counts, that many questions and records, and nothing after them. *)
Definition wire_message (p : bytes) : Prop :=
  12 <= length p /\ exists q an ns ar o, word_at p 4 q /\ word_at p 6 an /\ word_at p 8 ns /\ word_at p 10 ar /\
    wire_questions p q 12 o /\ wire_records p (an + ns + ar) o (length p).

Lemma byte_at p o : byte_list p -> o < length p -> exists b, p !! o = Some b /\ (0 <= b < 256)%Z.
Proof. intros Hp Ho. destruct (lookup_lt_is_Some_2 p o Ho) as [b Hb]. exists b. split; [done|]. exact (Forall_lookup_1 _ _ _ _ Hp Hb). Qed.

Lemma be16_spec p o : byte_list p -> o + 1 < length p -> exists w, be16 p o = Ok w /\ word_at p o w.
Proof.
  intros Hp Ho. destruct (byte_at p o Hp ltac:(lia)) as (hi & Hh & ?), (byte_at p (o + 1) Hp Ho) as (lo & Hl & ?). unfold be16. rewrite Hh, Hl. cbn. eexists. split; [done|]. exists hi, lo. split; [done|]. split; [done|]. lia.
Qed.

Lemma word_at_fun p o w w' : word_at p o w -> word_at p o w' -> w = w'.
Proof. intros (a & b & A & B & C) (a' & b' & A' & B' & C'). assert (a' = a) as -> by congruence. assert (b' = b) as -> by congruence. lia. Qed.

(** The two high bits of a length byte. *)
Lemma label_kinds b : (0 <= b < 256)%Z ->
  (Z.land b 0xc0 = 0%Z /\ (b < 64)%Z) \/ (Z.land b 0xc0 = 192%Z /\ (192 <= b)%Z /\ Z.shiftl (Z.land b 0x3f) 8 = ((b - 192) * 256)%Z) \/
  (Z.land b 0xc0 <> 0%Z /\ Z.land b 0xc0 <> 192%Z /\ (64 <= b < 192)%Z).
Proof.
  intros Hb. assert (Hc : (Z.land b 0xc0 =? 0)%Z && (b <? 64)%Z || (Z.land b 0xc0 =? 192)%Z && (192 <=? b)%Z && (Z.shiftl (Z.land b 0x3f) 8 =? (b - 192) * 256)%Z ||
    negb (Z.land b 0xc0 =? 0)%Z && negb (Z.land b 0xc0 =? 192)%Z && (64 <=? b)%Z && (b <? 192)%Z = true).
  { assert (Hf : forallb (fun n => let b := Z.of_nat n in (Z.land b 0xc0 =? 0)%Z && (b <? 64)%Z || (Z.land b 0xc0 =? 192)%Z && (192 <=? b)%Z && (Z.shiftl (Z.land b 0x3f) 8 =? (b - 192) * 256)%Z ||
      negb (Z.land b 0xc0 =? 0)%Z && negb (Z.land b 0xc0 =? 192)%Z && (64 <=? b)%Z && (b <? 192)%Z) (seq 0 256) = true) by (vm_compute; reflexivity).
    rewrite forallb_forall in Hf. specialize (Hf (Z.to_nat b)). cbv zeta in Hf. rewrite Z2Nat.id in Hf by lia. apply Hf, in_seq. lia. }
  lia.
Qed.

Lemma pointer_value x lo : (0 <= lo < 256)%Z -> Z.lor (Z.shiftl x 8) lo = (Z.shiftl x 8 + lo)%Z.
Proof.
  intros Hl. rewrite <-Z.add_lor_land. assert (Z.land (Z.shiftl x 8) lo = 0%Z) as ->; [|lia]. apply Z.bits_inj'. intros n Hn. rewrite Z.land_spec, Z.shiftl_spec, Z.bits_0 by lia.
  destruct (Z.ltb_spec n 8); [by rewrite Z.testbit_neg_r by lia|]. rewrite <-(Z.mod_small lo (2 ^ 8)) by lia. by rewrite Z.mod_pow2_bits_high, andb_false_r by lia.
Qed.

Lemma skip_name_spec p : byte_list p -> forall fuel o, length p < fuel + o ->
  match skip_name fuel p o with Ok o' => wire_name p o o' | Err _ => forall o', ~ wire_name p o o' | Panic => False end.
Proof.
  intros Hp. induction fuel as [|fuel IH]; intros o Hf; cbn [skip_name].
  { intros o' Hw. inversion Hw as [? Hb|? ? ? Hb|? ? ? Hb]; apply lookup_lt_Some in Hb; lia. }
  destruct (Nat.leb_spec (length p) o) as [Hlen|Hlen]; [intros o' Hw; inversion Hw as [? Hb|? ? ? Hb|? ? ? Hb]; apply lookup_lt_Some in Hb; lia|].
  destruct (byte_at p o Hp Hlen) as (b & Eb & Hb). rewrite Eb. cbn [idx mbind res_bind]. destruct (label_kinds b Hb) as [[-> Hk]|[(-> & Hk & Hs)|(H1 & H2 & Hk)]]; cbn [Z.eqb].
  - destruct (Z.eqb_spec b 0) as [->|Hnz]; [by apply name_root|]. destruct (Nat.ltb_spec (length p) (o + 1 + Z.to_nat b)) as [Hl|Hl].
    + intros o' Hw. inversion Hw as [? Eb'|? ? ? Eb'|? ? ? Eb']; rewrite Eb in Eb'; injection Eb' as ?; lia.
    + specialize (IH (o + 1 + Z.to_nat b) ltac:(lia)). destruct (skip_name fuel p _) as [o'| |]; [|intros o' Hw; inversion Hw as [? Eb'|? ? ? Eb' ? ? Hw'|? ? ? Eb']; rewrite Eb in Eb'; injection Eb' as ?; subst; try lia; by apply (IH o')|done].
      eapply name_label; [exact Eb|lia|lia|done].
  - change ((192 =? 0xc0)%Z) with true. cbn match. destruct (Nat.leb_spec (length p) (o + 1)) as [Hl|Hl].
    + intros o' Hw. inversion Hw as [? Eb'|? ? ? Eb'|? ? ? Eb' ? Elo]; [rewrite Eb in Eb'; injection Eb' as ?; lia..|apply lookup_lt_Some in Elo; lia].
    + destruct (byte_at p (o + 1) Hp Hl) as (lo & Elo & Hlo). rewrite Elo. cbn [idx mbind res_bind]. rewrite pointer_value, Hs by done. destruct (Z.leb_spec (Z.of_nat o) ((b - 192) * 256 + lo)).
      * intros o' Hw. inversion Hw as [? Eb'|? ? ? Eb'|? ? ? Eb' ? Elo']; [rewrite Eb in Eb'; injection Eb' as ?; lia..|]. rewrite Eb in Eb'. rewrite Elo in Elo'. injection Eb' as ?. injection Elo' as ?. subst. lia.
      * by eapply name_pointer.
  - rewrite (proj2 (Z.eqb_neq _ _) H1). rewrite (proj2 (Z.eqb_neq _ 192) H2). intros o' Hw. inversion Hw as [? Eb'|? ? ? Eb'|? ? ? Eb']; rewrite Eb in Eb'; injection Eb' as ?; lia.
Qed.

Lemma wire_name_fun p o o1 : wire_name p o o1 -> forall o2, wire_name p o o2 -> o1 = o2.
Proof.
  induction 1 as [o E|o l o1 E Hl Hb _ IH|o hi lo E Hh Elo Hp]; intros o2 Hw; inversion Hw as [? E'|? ? ? E' Hl' Hb' Hw'|? ? ? E' Hh' Elo' Hp']; rewrite E in E'; try (injection E' as ?); subst; try lia; try done. by apply IH.
Qed.

Lemma skipDnsWireName_spec p o : byte_list p -> match skipDnsWireName p o with Ok o' => wire_name p o o' | Err _ => forall o', ~ wire_name p o o' | Panic => False end.
Proof. intros Hp. apply skip_name_spec; [done|lia]. Qed.

Lemma skip_questions_spec p n : byte_list p -> forall o,
  match skip_questions n p o with Ok o' => wire_questions p n o o' | Err _ => forall o', ~ wire_questions p n o o' | Panic => False end.
Proof.
  intros Hp. induction n as [|n IH]; intros o; cbn [skip_questions]; [constructor|]. pose proof (skipDnsWireName_spec p o Hp) as Hs. destruct (skipDnsWireName p o) as [o1| |]; [|intros o' Hw; inversion Hw; by eapply Hs|done].
  destruct (Nat.ltb_spec (length p) (o1 + 4)) as [Hl|Hl].
  - intros o' Hw. inversion Hw as [|? ? o1' ? Hn]. rewrite (wire_name_fun p o o1 Hs o1' Hn) in Hl. lia.
  - specialize (IH (o1 + 4)). destruct (skip_questions n p _) as [o2| |]; [by econstructor| |done]. intros o' Hw. inversion Hw as [|? ? o1' ? Hn]. rewrite (wire_name_fun p o o1 Hs o1' Hn) in IH. by apply (IH o').
Qed.

Lemma skip_records_spec p n : byte_list p -> forall o,
  match skip_records n p o with Ok o' => wire_records p n o o' | Err _ => forall o', ~ wire_records p n o o' | Panic => False end.
Proof.
  intros Hp. induction n as [|n IH]; intros o; cbn [skip_records]; [constructor|]. pose proof (skipDnsWireName_spec p o Hp) as Hs. destruct (skipDnsWireName p o) as [o1| |]; [|intros o' Hw; inversion Hw; by eapply Hs|done].
  destruct (Nat.ltb_spec (length p) (o1 + 10)) as [Hl|Hl].
  - intros o' Hw. inversion Hw as [|? ? o1' ? ? Hn]. rewrite (wire_name_fun p o o1 Hs o1' Hn) in Hl. lia.
  - destruct (be16_spec p (o1 + 8) Hp ltac:(lia)) as (len & El & Hlen). rewrite El. cbn [mbind res_bind].
    assert (Hinv : forall o', wire_records p (S n) o o' -> o1 + 10 + len <= length p /\ wire_records p n (o1 + 10 + len) o').
    { intros o' Hw. inversion Hw as [|? ? o1' len' ? Hn Hb Hlen' Hb' Hr]. rewrite <-(wire_name_fun p o o1 Hs o1' Hn) in *. by rewrite <-(word_at_fun p _ len len' Hlen Hlen') in *. }
    destruct (Nat.ltb_spec (length p) (o1 + 10 + len)) as [Hl'|Hl']; [intros o' Hw%Hinv; lia|]. specialize (IH (o1 + 10 + len)).
    destruct (skip_records n p _) as [o2| |]; [by econstructor|intros o' [_ Hw]%Hinv; by apply (IH o')|done].
Qed.

Lemma wire_questions_fun p n o o1 o2 : wire_questions p n o o1 -> wire_questions p n o o2 -> o1 = o2.
Proof.
  intros H1. revert o2. induction H1 as [o|n o o1 o2 Hn Hb _ IH]; intros o' Hw; inversion Hw as [|? ? o1' ? Hn' Hb' Hr]; subst; [done|]. apply IH. by rewrite (wire_name_fun p o _ Hn _ Hn').
Qed.

Lemma wire_records_fun p n o o1 o2 : wire_records p n o o1 -> wire_records p n o o2 -> o1 = o2.
Proof.
  intros H1. revert o2. induction H1 as [o|n o o1 len o2 Hn Hb Hl Hb2 _ IH]; intros o' Hw; inversion Hw as [|? ? o1' len' ? Hn' Hb' Hl' Hb2' Hr]; subst; [done|]. apply IH.
  rewrite <-(wire_name_fun p o _ Hn _ Hn') in *. by rewrite (word_at_fun p _ _ _ Hl Hl').
Qed.

Lemma UnpackDnsMessage_nopanic `{DnsLibrary} payload : byte_list payload -> UnpackDnsMessage payload <> Panic.
Proof.
  intros Hp. unfold UnpackDnsMessage. destruct (Nat.ltb_spec (length payload) 12) as [Hl|Hl]; [done|].
  destruct (be16_spec payload 4 Hp ltac:(lia)) as (q & -> & _), (be16_spec payload 6 Hp ltac:(lia)) as (an & -> & _), (be16_spec payload 8 Hp ltac:(lia)) as (ns & -> & _), (be16_spec payload 10 Hp ltac:(lia)) as (ar & -> & _).
  cbn [mbind res_bind]. pose proof (skip_questions_spec payload q Hp 12) as Sq. destruct (skip_questions q payload 12) as [o| |]; [|done|done]. cbn [mbind res_bind].
  pose proof (skip_records_spec payload (an + ns + ar) Hp o) as Sr. destruct (skip_records _ payload o); [|done|done]. cbn [mbind res_bind]. destruct (negb _); [done|]. by destruct (Unpack payload).
Qed.

Lemma ValidateDnsResponse_nopanic `{DnsLibrary} query response id : ValidateDnsResponse query response id <> Panic.
Proof. unfold ValidateDnsResponse, validateDnsResponse. by repeat case_match. Qed.

(** C18: [UnpackDnsMessage] reads no byte outside the packet and follows no pointer, and it
    hands to the library exactly the packets that consist of a header, the questions and
    records its counts announce, and nothing more; every name in them is a sequence of
    labels or ends in a pointer to an earlier offset. *)
Theorem UnpackDnsMessage_exact `{DnsLibrary} (payload : bytes) (m : DnsMsg) : byte_list payload ->
  UnpackDnsMessage payload <> Panic /\ (UnpackDnsMessage payload = Ok m <-> wire_message payload /\ Unpack payload = Some m).
Proof.
  intros Hp. split; [by apply UnpackDnsMessage_nopanic|]. unfold UnpackDnsMessage. destruct (Nat.ltb_spec (length payload) 12) as [Hl|Hl]; [split; [done|]; intros [[? _] _]; lia|].
  destruct (be16_spec payload 4 Hp ltac:(lia)) as (q & Eq & Hq), (be16_spec payload 6 Hp ltac:(lia)) as (an & Ean & Han), (be16_spec payload 8 Hp ltac:(lia)) as (ns & Ens & Hns), (be16_spec payload 10 Hp ltac:(lia)) as (ar & Ear & Har).
  rewrite Eq, Ean, Ens, Ear. cbn [mbind res_bind]. pose proof (skip_questions_spec payload q Hp 12) as Sq.
  assert (Hinv : wire_message payload <-> exists o, wire_questions payload q 12 o /\ wire_records payload (an + ns + ar) o (length payload)).
  { split; [|intros (o & Hqs & Hrs); split; [done|]; by exists q, an, ns, ar, o]. intros (_ & q' & an' & ns' & ar' & o & Hq' & Han' & Hns' & Har' & Hqs & Hrs).
    rewrite (word_at_fun _ _ _ _ Hq Hq'), (word_at_fun _ _ _ _ Han Han'), (word_at_fun _ _ _ _ Hns Hns'), (word_at_fun _ _ _ _ Har Har'). eauto. }
  rewrite Hinv. destruct (skip_questions q payload 12) as [o| |]; [|split; [done|]; intros [(o & Hqs & _) _]; by destruct (Sq o)|done]. cbn [mbind res_bind].
  pose proof (skip_records_spec payload (an + ns + ar) Hp o) as Sr. destruct (skip_records _ payload o) as [o'| |]; [|split; [done|]; intros [(o' & Hqs & Hrs) _]; rewrite <-(wire_questions_fun _ _ _ _ _ Sq Hqs) in Hrs; by destruct (Sr _ Hrs)|done].
  cbn [mbind res_bind]. destruct (Nat.eqb_spec o' (length payload)) as [->|Hne]; cbn [negb].
  - destruct (Unpack payload); (split; [|intros [_ E]; congruence]); [|done]. intros [= ->]. split; [eauto|done].
  - split; [done|]. intros [(o2 & Hqs & Hrs) _]. rewrite <-(wire_questions_fun _ _ _ _ _ Sq Hqs) in Hrs. destruct Hne. by eapply wire_records_fun.
Qed.

(** ** Witnesses *)

Module WireDemo.
(** A query for the root, its answer, and the answer five seconds later. *)
Definition question : DnsQuestion := mkDnsQuestion "." 1 ClassIN.
Definition query : DnsMsg := mkDnsMsg (mkHdr 7 false OpQuery false false true false false false false NoError) [question] [] [] [].
Definition answer (ttl : Z) : DnsMsg :=
  mkDnsMsg (mkHdr 7 true OpQuery false false true true false false false NoError) [question] [mkRR "." 1 ClassIN ttl (Data [192; 0; 2; 1]%Z)] [] [].

Definition packet : bytes := [0; 7; 1; 0; 0; 1; 0; 0; 0; 0; 0; 0; 0; 0; 1; 0; 1]%Z.
Definition answer_packet (ttl : Z) : bytes := ([0; 7; 0x81; 0x80; 0; 1; 0; 1; 0; 0; 0; 0; 0; 0; 1; 0; 1] ++ [0; 0; 1; 0; 1; 0; 0; ttl / 256; ttl mod 256; 0; 4; 192; 0; 2; 1])%Z.

Definition codec : list (DnsMsg * bytes) := [(query, packet); (answer 300, answer_packet 300); (answer 295, answer_packet 295)].

(** A library that knows the messages of a list. *)
Definition pack_of (l : list (DnsMsg * bytes)) (m : DnsMsg) : option bytes := snd <$> head (filter (fun e => e.1 = m) l).
Definition unpack_of (l : list (DnsMsg * bytes)) (w : bytes) : option DnsMsg := fst <$> head (filter (fun e => e.2 = w) l).

Definition library : DnsLibrary := {|
  IsDomainName _ := true;
  CanonicalName n := n;
  OPT_Version rr := Z.land (Z.shiftr (rr_Ttl rr) 16) 0xff;
  OPT_UDPSize rr := rr_Class rr;
  OPT_Do rr := Z.testbit (rr_Ttl rr) 15;
  IsEdns0 m := last (filter (fun rr => rr_Rrtype rr = TypeOPT) (dm_Extra m));
  SetEdns0 size do_ m := with_Extra m (dm_Extra m ++ [mkRR "." TypeOPT size (if do_ then 0x8000 else 0)%Z (OPT [])]);
  RR_Len _ := 11%Z;
  PackRR _ := Some [];
  Pack := pack_of codec;
  PackCompressed := pack_of codec;
  Unpack := unpack_of codec;
|}.

Lemma unpack_pack l m w : NoDup l.*2 -> pack_of l m = Some w -> unpack_of l w = Some m.
Proof.
  unfold pack_of, unpack_of. induction l as [|[m0 w0] l IH]; intros Hnd; [done|]. cbn in Hnd. inversion_clear Hnd as [|? ? Hn Hl]. rewrite !filter_cons. cbn [fst snd]. destruct (decide (m0 = m)) as [->|Hm].
  - cbn. intros [= ->]. by rewrite decide_True.
  - intros E. specialize (IH Hl E). destruct (decide (w0 = w)) as [->|]; [|done]. exfalso. apply Hn. destruct (filter (fun e => e.1 = m) l) as [|[m1 w1] l'] eqn:Ef; [done|]. cbn in E. injection E as ->.
    assert (Hin : (m1, w) ∈ filter (fun e => e.1 = m) l) by (rewrite Ef; apply list_elem_of_here). apply list_elem_of_filter in Hin as [_ Hin]. by apply (list_elem_of_fmap_2 snd l (m1, w)).
Qed.

Lemma unpack_in l w m : unpack_of l w = Some m -> m ∈ l.*1.
Proof.
  unfold unpack_of. destruct (filter _ l) as [|[m1 w1] l'] eqn:Ef; [done|]. cbn. intros [= ->]. assert (Hin : (m, w1) ∈ filter (fun e => e.2 = w) l) by (rewrite Ef; apply list_elem_of_here).
  apply list_elem_of_filter in Hin as [_ Hin]. by apply (list_elem_of_fmap_2 fst l (m, w1)).
Qed.

Lemma library_laws : DnsLibraryLaws library.
Proof.
  assert (Hnd : NoDup codec.*2) by (apply (bool_decide_eq_true_1 _); vm_compute; reflexivity). split; cbn.
  - intros m w. by apply unpack_pack.
  - intros m w. by apply unpack_pack.
  - intros m w rr Hu%unpack_in. assert (Hf : Forall (fun m => Forall (fun rr => (0 <= rr_Ttl rr)%Z /\ is_SOA rr = None) (dm_Answer m ++ dm_Ns m ++ dm_Extra m)) codec.*1) by (repeat constructor; cbn; lia).
    rewrite Forall_forall in Hf. specialize (Hf m Hu). rewrite Forall_forall in Hf. intros Hin. destruct (Hf rr Hin) as [H1 H2]. split; [done|]. intros minttl E. congruence.
  - intros size do_ m. by eexists.
Qed.
End WireDemo.

Lemma UnpackDnsMessage_exact_witness : @UnpackDnsMessage WireDemo.library WireDemo.packet = Ok WireDemo.query /\
  @UnpackDnsMessage WireDemo.library WireDemo.packet <> Panic /\
  (@UnpackDnsMessage WireDemo.library WireDemo.packet = Ok WireDemo.query <-> wire_message WireDemo.packet /\ Some WireDemo.query = Some WireDemo.query).
Proof.
  split; [vm_compute; reflexivity|]. apply (@UnpackDnsMessage_exact WireDemo.library WireDemo.packet WireDemo.query). repeat constructor; lia.
Defined.
