(* ===== verification/DnsCache.v ===== *)
(** * DNS answer caches

    The cache rules of pkg/dnscache/policy.go and edns.go, the wire cache of
    pkg/dnscache/cache.go, and the internal resolver's use of it
    (common/netutils/resolver_cache_message.go). *)

From S2P Require Import Prelude Netip GoSlices DomainProjection DnsStore DnsMessage.

(** ** Keys *)

Record Query := mkQuery {
  qk_Question : DnsQuestion;
  qk_Header : DnsHdr;
  qk_HasEDNS : bool;
  qk_UDPSize : Z;
  qk_EDNSFlags : Z;
  qk_Options : bytes;
}.

Record CacheKey := mkCacheKey { ck_Namespace : string; ck_Query : Query }.

#[export] Instance Query_eq_dec : EqDecision Query.
Proof. solve_decision. Defined.
#[export] Instance CacheKey_eq_dec : EqDecision CacheKey.
Proof. solve_decision. Defined.

#[export] Instance DnsQuestion_countable : Countable DnsQuestion :=
  inj_countable' (fun q => (dq_Name q, dq_Qtype q, dq_Qclass q)) (fun '(n, t, c) => mkDnsQuestion n t c) ltac:(by intros []).
#[export] Instance DnsHdr_countable : Countable DnsHdr :=
  inj_countable' (fun h => (dh_Id h, dh_Response h, dh_Opcode h, dh_Authoritative h, dh_Truncated h, dh_RecursionDesired h, dh_RecursionAvailable h, dh_Zero h, dh_AuthenticatedData h, dh_CheckingDisabled h, dh_Rcode h))
    (fun '(a, b, c, d, e, f, g, h, i, j, k) => mkHdr a b c d e f g h i j k) ltac:(by intros []).
#[export] Instance Query_countable : Countable Query :=
  inj_countable' (fun q => (qk_Question q, qk_Header q, qk_HasEDNS q, qk_UDPSize q, qk_EDNSFlags q, qk_Options q))
    (fun '(a, b, c, d, e, f) => mkQuery a b c d e f) ltac:(by intros []).
#[export] Instance CacheKey_countable : Countable CacheKey :=
  inj_countable' (fun k => (ck_Namespace k, ck_Query k)) (fun '(a, b) => mkCacheKey a b) ltac:(by intros []).

Definition sections (m : DnsMsg) : list DnsRR := dm_Answer m ++ dm_Ns m ++ dm_Extra m.

(** ** Policy *)

(** [Signed]. *)
Definition Signed (m : DnsMsg) : bool :=
  existsb (fun rr => (rr_Rrtype rr =? TypeRRSIG)%Z || (rr_Rrtype rr =? TypeTSIG)%Z || (rr_Rrtype rr =? TypeSIG)%Z) (sections m).

Definition StripOPT (m : DnsMsg) : DnsMsg := with_Extra m (filter (fun rr => rr_Rrtype rr <> TypeOPT) (dm_Extra m)).

Definition map_records (f : DnsRR -> DnsRR) (m : DnsMsg) : DnsMsg :=
  mkDnsMsg (dm_Hdr m) (dm_Question m) (map f (dm_Answer m)) (map f (dm_Ns m)) (map f (dm_Extra m)).

(** [Age]: the messages are owned, so a record belongs to one section only. *)
Definition age_record (elapsed : Z) (rr : DnsRR) : DnsRR :=
  if (rr_Rrtype rr =? TypeOPT)%Z then rr else with_Ttl rr (rr_Ttl rr - Z.min (rr_Ttl rr) elapsed).

Definition Age (m : DnsMsg) (elapsed : Z) : DnsMsg := map_records (age_record elapsed) m.

(** The loops of [Prepare]; [None] is the return of zero. *)
Definition soa_minimum (st : option (Z * bool)) (rr : DnsRR) : option (Z * bool) :=
  '(ttl, soa) ← st;
  match is_SOA rr with
  | Some minttl => if (2 ^ 31 <=? minttl)%Z then None else Some (Z.min ttl minttl, true)
  | None => Some (ttl, soa)
  end.

Definition record_minimum (ttl : option Z) (rr : DnsRR) : option Z :=
  ttl ← ttl;
  if (rr_Rrtype rr =? TypeOPT)%Z then Some ttl
  else if (2 ^ 31 <=? rr_Ttl rr)%Z then None
  else Some (Z.min ttl (rr_Ttl rr)).

Definition clamp_soa (ttl : Z) (rr : DnsRR) : DnsRR :=
  match is_SOA rr with Some _ => with_Ttl rr (Z.min (rr_Ttl rr) ttl) | None => rr end.

Definition MaxTTL : Z := 2 ^ 32 - 1.

(** Whether the answer has no record of the queried type, or says the name does not exist. *)
Definition is_negative (qtype : Z) (m : DnsMsg) : bool :=
  negb (existsb (fun rr => (rr_Rrtype rr =? qtype)%Z || (qtype =? TypeANY)%Z) (dm_Answer m)) || (dh_Rcode (dm_Hdr m) =? NameError)%Z.

(** The message afterwards and the lifetime; a nil message is not cached. *)
Definition Prepare_msg (qtype : Z) (m : DnsMsg) : DnsMsg * Z :=
  if negb (dh_Response (dm_Hdr m)) || dh_Truncated (dm_Hdr m) || Signed m ||
     (negb (dh_Rcode (dm_Hdr m) =? NoError)%Z && negb (dh_Rcode (dm_Hdr m) =? NameError)%Z) then (m, 0%Z)
  else
    let negative := is_negative qtype m in
    match (if negative then fold_left soa_minimum (dm_Ns m) (Some (MaxTTL, false)) else Some (MaxTTL, false)) with
    | None => (m, 0%Z)
    | Some (ttl, soa) =>
      match fold_left record_minimum (sections m) (Some ttl) with
      | None => (m, 0%Z)
      | Some ttl =>
        if (ttl =? MaxTTL)%Z || (ttl =? 0)%Z || (negative && negb soa) then (m, 0%Z)
        else (if negative then with_Ns m (map (clamp_soa ttl) (dm_Ns m)) else m, ttl)
      end
    end.

Definition Prepare (qtype : Z) (m : option DnsMsg) : option DnsMsg * Z :=
  match m with None => (None, 0%Z) | Some m => let '(m, ttl) := Prepare_msg qtype m in (Some m, ttl) end.

(** [time.Time.Sub], which saturates. *)
Definition time_Sub (t u : Time) : Z := Z.max (- 2 ^ 63) (Z.min (2 ^ 63 - 1) (t - u)).
Definition elapsed_seconds (now received : Time) : Z := wrap 32 (Z.max 0 (Z.quot (time_Sub now received) time_Second)).

Section Library.
Context `{L : DnsLibrary}.

(** [EDNS]: [None] if the envelope is not valid. *)
Definition edns_step (st : option (option DnsRR)) (rr : DnsRR) : option (option DnsRR) :=
  result ← st;
  match is_OPT rr with
  | None => Some result
  | Some _ =>
    match result with
    | Some _ => None
    | None => if negb (String.eqb (rr_Name rr) ".") || negb (OPT_Version rr =? 0)%Z then None else Some (Some rr)
    end
  end.

Definition EDNS (m : option DnsMsg) : option (option DnsRR) :=
  m ← m; fold_left edns_step (dm_Extra m) (Some None).

Definition Replay (response query : DnsMsg) : DnsMsg :=
  let response := mkDnsMsg (hdr_with_Id (dm_Hdr response) (dh_Id (dm_Hdr query))) (dm_Question query) (dm_Answer response) (dm_Ns response) (dm_Extra response) in
  let response := StripOPT response in
  match IsEdns0 query with
  | Some opt => SetEdns0 (OPT_UDPSize opt) (OPT_Do opt) response
  | None => response
  end.

(** The options of an OPT record as the key has them. *)
Definition option_bytes (opt : DnsRR) (options : list bytes) : option bytes :=
  if length options =? 0 then Some []
  else if (4096 <? RR_Len opt)%Z then None
  else PackRR opt.

Definition QueryKey (m : option DnsMsg) : option Query :=
  m ← m;
  match dm_Question m with
  | [q] =>
    if dh_Response (dm_Hdr m) || negb (dh_Opcode (dm_Hdr m) =? OpQuery)%Z || negb (dq_Qclass q =? ClassIN)%Z || negb (length (dm_Answer m) =? 0) ||
       negb (length (dm_Ns m) =? 0) || dh_Truncated (dm_Hdr m) || negb (dh_Rcode (dm_Hdr m) =? 0)%Z then None
    else if (dq_Qtype q =? TypeAXFR)%Z || (dq_Qtype q =? TypeIXFR)%Z || (dq_Qtype q =? TypeTKEY)%Z then None
    else if negb (IsDomainName (dq_Name q)) then None
    else if negb (forallb (fun rr => match is_OPT rr with Some _ => true | None => false end) (dm_Extra m)) then None
    else
      opt ← EDNS (Some m);
      let question := mkDnsQuestion (CanonicalName (dq_Name q)) (dq_Qtype q) (dq_Qclass q) in
      let header := hdr_with_Id (dm_Hdr m) 0 in
      match opt with
      | None => Some (mkQuery question header false 0 0 [])
      | Some opt =>
        options ← option_bytes opt (default [] (is_OPT opt));
        Some (mkQuery question header true (OPT_UDPSize opt) (rr_Ttl opt) options)
      end
  | _ => None
  end.

(** ** The wire cache *)

Definition cache : Type := Store CacheKey bytes.

Definition New (entries memoryBytes : Z) : cache :=
  let entries := if (memoryBytes <=? 0)%Z then 0%Z else entries in
  NewStore entries memoryBytes.

Definition Cache_Get (key : CacheKey) (now : Time) (c : cache) : res (cache * option DnsMsg) :=
  '(c, e) ← Get key now c;
  match e with
  | None => Ok (c, None)
  | Some e =>
    match Unpack (Value e) with
    | None => Ok (c, None)
    | Some m => Ok (c, Some (Age m (elapsed_seconds now (ReceivedAt e))))
    end
  end.

Definition entry_bytes (key : CacheKey) (wire : bytes) : Z :=
  Z.of_nat (length wire) + Z.of_nat (String.length (ck_Namespace key)) + Z.of_nat (String.length (dq_Name (qk_Question (ck_Query key)))) +
  Z.of_nat (length (qk_Options (ck_Query key))) + 512.

Definition Cache_Put (key : CacheKey) (qtype : Z) (m : DnsMsg) (received : Time) (c : cache) : res (cache * bool) :=
  if (s_limit c <=? 0)%Z || (s_memoryLimit c <=? 0)%Z then Ok (c, false)
  else
    let '(m, ttl) := Prepare_msg qtype m in
    if (ttl =? 0)%Z then Ok (c, false)
    else
      match Pack m with
      | None => Ok (c, false)
      | Some wire =>
        let bytes := entry_bytes key wire in
        if (s_memoryLimit c <? bytes)%Z then Ok (c, false)
        else Put key (mkCacheRecord wire received (received + int64 (ttl * time_Second))%Z) bytes c
      end.

(** ** The exchange of the internal resolver *)

Record resolverCacheExchange := mkExchange { x_scope : string; x_query : option DnsMsg; x_key : option CacheKey }.

Definition internalCacheEDNS (m : DnsMsg) : bool :=
  match EDNS (Some m) with
  | None => false
  | Some None => true
  | Some (Some opt) => match is_OPT opt with Some options => length options =? 0 | None => true end
  end.

(** The exchange and the cache afterwards, and the reply that was found. *)
Definition exchange_lookup (wire : bytes) (datagram : bool) (now : Time) (x : resolverCacheExchange) (c : cache) : res (resolverCacheExchange * cache * option bytes) :=
  match UnpackDnsMessage wire with
  | Panic => Panic
  | Err _ => Ok (x, c, None)
  | Ok query =>
    if negb (internalCacheEDNS query) then Ok (x, c, None)
    else
      match QueryKey (Some query) with
      | None => Ok (x, c, None)
      | Some k =>
        let key := mkCacheKey (x_scope x) k in
        let x := mkExchange (x_scope x) (Some query) (Some key) in
        '(c, response) ← Cache_Get key now c;
        match response with
        | None => Ok (x, c, None)
        | Some response =>
          let limit := if datagram then match IsEdns0 query with Some opt => Z.max 512 (OPT_UDPSize opt) | None => 512%Z end else 65535%Z in
          match PackCompressed (Replay response query) with
          | None => Ok (x, c, None)
          | Some reply =>
            if (limit <? Z.of_nat (length reply))%Z then Ok (x, c, None)
            else Ok (mkExchange (x_scope x) None (Some key), c, Some reply)
          end
        end
      end
  end.

(** Called with a query of the exchange pending; whether the observation is complete. *)
Definition exchange_observe (wire : bytes) (now : Time) (x : resolverCacheExchange) (c : cache) : res (resolverCacheExchange * cache * bool) :=
  match x_query x, x_key x with
  | Some query, Some key =>
    match UnpackDnsMessage wire with
    | Panic => Panic
    | Err _ => Ok (x, c, false)
    | Ok response =>
      match ValidateDnsResponse query response (dh_Id (dm_Hdr query)) with
      | Panic => Panic
      | Err _ => Ok (x, c, false)
      | Ok response =>
        c ← (if internalCacheEDNS response then
               q ← idx (dm_Question query !! 0);
               '(c, _) ← Cache_Put key (dq_Qtype q) (StripOPT response) now c; Ok c
             else Ok c);
        Ok (mkExchange (x_scope x) None (Some key), c, true)
      end
    end
  | _, _ => Panic
  end.
End Library.
