(* ===== verification/DnsCacheCorrect.v ===== *)
(** * What the caches replay

    The lifetime of a cached answer, the times to live of its replays, and that the internal
    resolver answers a query only from a response to the same question. *)

From S2P Require Import Prelude Netip GoSlices DomainProjection DnsStore DnsStoreCorrect DnsMessage DnsCache.

(** ** Lifetimes *)

Definition ordinary (rr : DnsRR) : Prop := rr_Rrtype rr <> TypeOPT.

(** The times that bound a lifetime: those of the ordinary records, and for a negative answer
    the minimums of its start of authority. *)
Definition record_times (l : list DnsRR) : list Z := map rr_Ttl (filter ordinary l).
Definition soa_times (l : list DnsRR) : list Z := omap is_SOA l.
Definition lifetimes (qtype : Z) (m : DnsMsg) : list Z :=
  (if is_negative qtype m then soa_times (dm_Ns m) else []) ++ record_times (sections m).

Definition cacheable (qtype : Z) (m : DnsMsg) : Prop :=
  dh_Response (dm_Hdr m) = true /\ dh_Truncated (dm_Hdr m) = false /\ Signed m = false /\
  (dh_Rcode (dm_Hdr m) = NoError \/ dh_Rcode (dm_Hdr m) = NameError) /\
  (is_negative qtype m = true -> soa_times (dm_Ns m) <> []).

(** Words of 32 bits. *)
Definition times_ok (m : DnsMsg) : Prop := Forall (fun rr => 0 <= rr_Ttl rr /\ forall minttl, is_SOA rr = Some minttl -> 0 <= minttl)%Z (sections m).

Definition minimum (l : list Z) (t : Z) : Z := fold_left Z.min l t.

Lemma minimum_le l : forall t, (minimum l t <= t)%Z /\ Forall (fun x => minimum l t <= x)%Z l.
Proof.
  induction l as [|x l IH]; intros t; [split; [cbn; lia|constructor]|]. cbn [minimum fold_left]. fold (minimum l (Z.min t x)). destruct (IH (Z.min t x)) as [H1 H2]. split; [lia|]. constructor; [lia|done].
Qed.

Lemma minimum_in l : forall t, minimum l t = t \/ minimum l t ∈ l.
Proof.
  induction l as [|x l IH]; intros t; [by left|]. cbn [minimum fold_left]. fold (minimum l (Z.min t x)). destruct (IH (Z.min t x)) as [E|Hin]; [|right; by apply list_elem_of_further].
  rewrite E. destruct (Z.min_spec t x) as [[_ ->]|[_ ->]]; [by left|right; apply list_elem_of_here].
Qed.

Lemma minimum_app l1 l2 t : minimum (l1 ++ l2) t = minimum l2 (minimum l1 t).
Proof. apply fold_left_app. Qed.

Lemma soa_loop l : forall ttl soa, fold_left soa_minimum l (Some (ttl, soa)) =
  if forallb (fun x => x <? 2 ^ 31)%Z (soa_times l) then Some (minimum (soa_times l) ttl, soa || negb (is_empty (soa_times l))) else None.
Proof.
  induction l as [|rr l IH]; intros ttl soa; [cbn; by rewrite orb_false_r|]. cbn [fold_left]. unfold soa_minimum at 2. cbn [mbind option_bind]. unfold soa_times. cbn [omap list_omap]. destruct (is_SOA rr) as [x|]; [|apply IH].
  destruct (Z.leb_spec (2 ^ 31) x) as [Hx|Hx].
  - assert ((x <? 2 ^ 31)%Z = false) as Hn by lia. cbn [forallb]. rewrite Hn. cbn [andb]. clear. induction l as [|y l IH]; [done|]. apply IH.
  - assert ((x <? 2 ^ 31)%Z = true) as Hn by lia. cbn [forallb]. rewrite Hn. cbn [andb]. rewrite IH. cbn [minimum fold_left is_empty negb]. rewrite orb_true_r, orb_true_l. done.
Qed.

Lemma record_times_cons rr l : record_times (rr :: l) = if (rr_Rrtype rr =? TypeOPT)%Z then record_times l else rr_Ttl rr :: record_times l.
Proof.
  unfold record_times. rewrite filter_cons. destruct (decide (ordinary rr)) as [Ho|Ho]; unfold ordinary in Ho; destruct (Z.eqb_spec (rr_Rrtype rr) TypeOPT); done.
Qed.

Lemma record_loop l : forall ttl, fold_left record_minimum l (Some ttl) = if forallb (fun x => x <? 2 ^ 31)%Z (record_times l) then Some (minimum (record_times l) ttl) else None.
Proof.
  induction l as [|rr l IH]; intros ttl; [done|]. cbn [fold_left]. unfold record_minimum at 2. cbn [mbind option_bind]. rewrite record_times_cons. destruct (rr_Rrtype rr =? TypeOPT)%Z; [apply IH|]. cbn [forallb].
  destruct (Z.leb_spec (2 ^ 31) (rr_Ttl rr)) as [Hx|Hx].
  - assert ((rr_Ttl rr <? 2 ^ 31)%Z = false) as -> by lia. cbn [andb]. clear. induction l as [|y l IH]; [done|]. apply IH.
  - assert ((rr_Ttl rr <? 2 ^ 31)%Z = true) as -> by lia. cbn [andb]. apply IH.
Qed.

(** The lifetime in one expression. *)
Lemma Prepare_eq qtype m : cacheable qtype m -> Prepare_msg qtype m =
  let ttl := minimum (lifetimes qtype m) MaxTTL in
  if forallb (fun x => x <? 2 ^ 31)%Z (lifetimes qtype m) && negb (ttl =? MaxTTL)%Z && negb (ttl =? 0)%Z
  then (if is_negative qtype m then with_Ns m (map (clamp_soa ttl) (dm_Ns m)) else m, ttl) else (m, 0%Z).
Proof.
  intros (H1 & H2 & H3 & H4 & H5). unfold Prepare_msg, lifetimes. rewrite H1, H2, H3. assert (negb (dh_Rcode (dm_Hdr m) =? NoError)%Z && negb (dh_Rcode (dm_Hdr m) =? NameError)%Z = false) as ->.
  { destruct H4 as [->| ->]; done. }
  cbn [negb orb]. cbv zeta. rewrite forallb_app, minimum_app. destruct (is_negative qtype m).
  - rewrite soa_loop. destruct (forallb _ (soa_times _)); cbn [andb orb]; [|done]. rewrite record_loop. destruct (forallb _ (record_times _)); cbn [andb]; [|done].
    assert (is_empty (soa_times (dm_Ns m)) = false) as -> by (destruct (soa_times (dm_Ns m)); [by destruct H5|done]). cbn [negb]. rewrite orb_false_r. by destruct (_ =? MaxTTL)%Z, (_ =? 0)%Z.
  - cbn [forallb minimum fold_left]. rewrite record_loop. destruct (forallb _ (record_times _)); cbn [andb]; [|done]. rewrite orb_false_r. by destruct (_ =? MaxTTL)%Z, (_ =? 0)%Z.
Qed.

Lemma Prepare_uncacheable qtype m : ~ cacheable qtype m -> (Prepare_msg qtype m).2 = 0%Z.
Proof.
  intros Hn. unfold Prepare_msg. destruct (negb _ || _ || _ || _) eqn:Eg; [done|]. apply orb_false_iff in Eg as [[[E1 E2]%orb_false_iff E3]%orb_false_iff E4]. cbv zeta. destruct (is_negative qtype m) eqn:En.
  - rewrite soa_loop. destruct (forallb _ _); [|done]. rewrite record_loop. destruct (forallb _ _); [|done]. destruct (soa_times (dm_Ns m)) eqn:Es; [cbn; by rewrite orb_true_r|]. destruct Hn. split_and!; try done; [by apply negb_false_iff| |by rewrite Es].
    destruct (Z.eqb_spec (dh_Rcode (dm_Hdr m)) NoError); [by left|]. destruct (Z.eqb_spec (dh_Rcode (dm_Hdr m)) NameError); [by right|done].
  - destruct Hn. split_and!; try done; [by apply negb_false_iff| |by rewrite En]. destruct (Z.eqb_spec (dh_Rcode (dm_Hdr m)) NoError); [by left|]. destruct (Z.eqb_spec (dh_Rcode (dm_Hdr m)) NameError); [by right|done].
Qed.

Lemma lifetimes_nonneg qtype m : times_ok m -> Forall (fun x => 0 <= x)%Z (lifetimes qtype m).
Proof.
  intros Ht. unfold times_ok in Ht. rewrite Forall_forall in Ht. apply Forall_app. split.
  - destruct (is_negative qtype m); [|constructor]. apply Forall_forall. intros x Hx. unfold soa_times in Hx. apply list_elem_of_omap in Hx as (rr & Hin & Hs). apply (Ht rr); [|done]. unfold sections. rewrite !elem_of_app. tauto.
  - apply Forall_forall. intros x Hx. unfold record_times in Hx. apply list_elem_of_fmap in Hx as (rr & -> & Hin). apply list_elem_of_filter in Hin as [_ Hin]. exact (proj1 (Ht rr Hin)).
Qed.

(** C17: the lifetime [Prepare] gives an answer is positive exactly for complete, unsigned
    answers of success or of a missing name that have an ordinary record, and the authority
    record of a negative answer, all of whose times are positive and below 2^31; it is then
    the least of those times: of the records and, for a negative answer, of the minimums
    of its authority records. *)
Theorem prepare_exact (qtype : Z) (m : DnsMsg) : times_ok m ->
  let ttl := (Prepare_msg qtype m).2 in
  (0 <= ttl)%Z /\
  ((0 < ttl)%Z <-> cacheable qtype m /\ lifetimes qtype m <> [] /\ Forall (fun x => 0 < x < 2 ^ 31)%Z (lifetimes qtype m)) /\
  ((0 < ttl)%Z -> ttl ∈ lifetimes qtype m /\ Forall (fun x => ttl <= x)%Z (lifetimes qtype m)).
Proof.
  intros Ht. cbv zeta. pose proof (lifetimes_nonneg qtype m Ht) as Hnn. assert (Dc : Decision (cacheable qtype m)) by (unfold cacheable; apply _).
  destruct (decide (cacheable qtype m)) as [Hc|Hc]; [|rewrite Prepare_uncacheable by done; split; [lia|]; split; [split; [lia|tauto]|lia]].
  rewrite Prepare_eq by done. cbv zeta. destruct (minimum_le (lifetimes qtype m) MaxTTL) as [Hm1 Hm2]. destruct (minimum_in (lifetimes qtype m) MaxTTL) as [Emax|Hin].
  { rewrite Emax, Z.eqb_refl. cbn [negb]. rewrite andb_false_r, andb_false_l. cbn [snd]. split; [lia|]. split; [|lia]. split; [lia|]. intros (_ & Hne & Hf). destruct (lifetimes qtype m) as [|x l] eqn:El; [done|]. inversion_clear Hf as [|? ? Hx _]. inversion_clear Hm2 as [|? ? Hx' _].
    rewrite Emax in Hx'. unfold MaxTTL in Hx'. lia. }
  assert (Hge : (0 <= minimum (lifetimes qtype m) MaxTTL)%Z) by (rewrite Forall_forall in Hnn; by apply Hnn). set (t := minimum (lifetimes qtype m) MaxTTL) in *.
  destruct (forallb (fun x => x <? 2 ^ 31)%Z (lifetimes qtype m)) eqn:Ef; cbn [andb].
  - assert (Hall : forall x, x ∈ lifetimes qtype m -> (x < 2 ^ 31)%Z) by (intros x Hx; rewrite forallb_forall in Ef; apply Z.ltb_lt, Ef, list_elem_of_In, Hx).
    assert (Ht31 : (t < 2 ^ 31)%Z) by by apply Hall. assert ((t =? MaxTTL)%Z = false) as -> by (apply Z.eqb_neq; unfold MaxTTL; lia). cbn [negb andb]. destruct (Z.eqb_spec t 0) as [E0|E0]; cbn [negb snd].
    + split; [lia|]. split; [|lia]. split; [lia|]. intros (_ & _ & Hf). rewrite Forall_forall in Hf. specialize (Hf t Hin). lia.
    + split; [lia|]. split; [|done]. split; [|lia]. intros _. split; [done|]. split; [by intros E; rewrite E in Hin; apply elem_of_nil in Hin|]. rewrite Forall_forall in Hm2 |- *. intros x Hx. specialize (Hm2 x Hx). specialize (Hall x Hx). lia.
  - cbn [snd]. split; [lia|]. split; [|lia]. split; [lia|]. intros (_ & _ & Hf). assert (forallb (fun x => x <? 2 ^ 31)%Z (lifetimes qtype m) = true); [|congruence]. apply forallb_forall. intros x Hx%list_elem_of_In. rewrite Forall_forall in Hf. specialize (Hf x Hx). lia.
Qed.

Lemma lifetime_bounds qtype m mp ttl : times_ok m -> Prepare_msg qtype m = (mp, ttl) -> (0 < ttl)%Z ->
  cacheable qtype m /\ (ttl < 2 ^ 31)%Z /\ mp = (if is_negative qtype m then with_Ns m (map (clamp_soa ttl) (dm_Ns m)) else m) /\ Forall (fun x => ttl <= x)%Z (lifetimes qtype m).
Proof.
  intros Ht E Hpos. assert (Dc : Decision (cacheable qtype m)) by (unfold cacheable; apply _). destruct (decide (cacheable qtype m)) as [Hc|Hc]; [|apply Prepare_uncacheable in Hc; rewrite E in Hc; cbn in Hc; lia].
  rewrite Prepare_eq in E by done. cbv zeta in E. destruct (minimum_le (lifetimes qtype m) MaxTTL) as [_ Hm]. destruct (minimum_in (lifetimes qtype m) MaxTTL) as [Emax|Hin].
  - rewrite Emax, Z.eqb_refl in E. cbn [negb] in E. rewrite andb_false_r, andb_false_l in E. injection E as _ ?. lia.
  - destruct (_ && _ && _) eqn:Eg; [|injection E as _ ?; lia]. apply andb_true_iff in Eg as [[Ef _]%andb_true_iff _]. injection E as <- <-. split; [done|]. split; [|done].
    rewrite forallb_forall in Ef. apply Z.ltb_lt, Ef, list_elem_of_In, Hin.
Qed.

Lemma elem_of_record_times rr l : rr ∈ l -> ordinary rr -> rr_Ttl rr ∈ record_times l.
Proof. intros Hin Ho. unfold record_times. apply (list_elem_of_fmap_2 rr_Ttl). apply list_elem_of_filter. by split. Qed.

(** No ordinary record of a cached answer expires before the answer does. *)
Lemma prepared_times qtype m mp ttl rr : times_ok m -> Prepare_msg qtype m = (mp, ttl) -> (0 < ttl)%Z -> rr ∈ sections mp -> ordinary rr -> (ttl <= rr_Ttl rr)%Z.
Proof.
  intros Ht E Hpos Hin Ho. destruct (lifetime_bounds qtype m mp ttl Ht E Hpos) as (_ & _ & -> & Hb). unfold lifetimes in Hb. apply Forall_app in Hb as [_ Hb]. rewrite Forall_forall in Hb.
  assert (Hrr : forall r, r ∈ sections m -> ordinary r -> (ttl <= rr_Ttl r)%Z) by (intros r Hr Hor; apply Hb; by apply elem_of_record_times). destruct (is_negative qtype m); [|by apply Hrr].
  unfold sections in Hin, Hrr. cbn in Hin. rewrite !elem_of_app in Hin. setoid_rewrite elem_of_app in Hrr. setoid_rewrite elem_of_app in Hrr. destruct Hin as [Hin|[Hin|Hin]]; [apply Hrr; tauto| |apply Hrr; tauto].
  apply list_elem_of_fmap in Hin as (r & -> & Hr). unfold clamp_soa in *. destruct (is_SOA r); [|apply Hrr; tauto]. unfold ordinary in *. cbn in *. specialize (Hrr r ltac:(tauto) Ho). lia.
Qed.

Lemma elapsed_bounds now received ttl : (0 < ttl < 2 ^ 31)%Z -> (now < received + ttl * time_Second)%Z ->
  (elapsed_seconds now received * time_Second <= Z.max 0 (now - received) < (elapsed_seconds now received + 1) * time_Second)%Z /\ (0 <= elapsed_seconds now received < ttl)%Z.
Proof.
  intros Ht Hn. unfold elapsed_seconds, time_Sub, time_Second in *. destruct (Z.le_gt_cases received now) as [Hle|Hgt].
  - replace (Z.max (- 2 ^ 63) (Z.min (2 ^ 63 - 1) (now - received)))%Z with (now - received)%Z by lia. rewrite Z.quot_div_nonneg by lia.
    assert (Hq : (0 <= (now - received) / 1000000000 < ttl)%Z) by (split; [apply Z.div_pos; lia|apply Z.div_lt_upper_bound; lia]). rewrite Z.max_r by lia. rewrite wrap_id by (unfold fits; cbn; lia).
    pose proof (Z.mul_div_le (now - received) 1000000000 ltac:(lia)). pose proof (Z.mul_succ_div_gt (now - received) 1000000000 ltac:(lia)). lia.
  - assert (Hq : (Z.quot (Z.max (- 2 ^ 63) (Z.min (2 ^ 63 - 1) (now - received))) 1000000000 <= 0)%Z) by (apply Z.quot_le_upper_bound; lia). rewrite Z.max_l by lia. change (wrap 32 0) with 0%Z. lia.
Qed.

(** ** Replies of the wire cache *)

(** A reply made from an answer: the records are those of the prepared answer, each with the
    whole seconds since its receipt taken off its time, and none has run out. *)
Definition replays (now received : Time) (qtype : Z) (m reply : DnsMsg) : Prop :=
  exists mp ttl e, Prepare_msg qtype m = (mp, ttl) /\ (0 < ttl)%Z /\ (now < received + ttl * time_Second)%Z /\
    (e * time_Second <= Z.max 0 (now - received) < (e + 1) * time_Second)%Z /\ reply = map_records (age_record e) mp /\
    forall rr, rr ∈ sections mp -> ordinary rr -> rr_Ttl (age_record e rr) = (rr_Ttl rr - e)%Z /\ (1 <= rr_Ttl rr - e)%Z.

Lemma replays_intro now received qtype m mp ttl : times_ok m -> Prepare_msg qtype m = (mp, ttl) -> (0 < ttl)%Z -> (now < received + ttl * time_Second)%Z ->
  replays now received qtype m (Age mp (elapsed_seconds now received)).
Proof.
  intros Ht Ep Hpos Hx. destruct (lifetime_bounds qtype m mp ttl Ht Ep Hpos) as (_ & H31 & _). destruct (elapsed_bounds now received ttl ltac:(lia) Hx) as [He1 He2].
  exists mp, ttl, (elapsed_seconds now received). split; [done|]. split; [done|]. split; [done|]. split; [done|]. split; [done|]. intros rr Hin Ho. pose proof (prepared_times qtype m mp ttl rr Ht Ep Hpos Hin Ho). unfold age_record. unfold ordinary in Ho.
  rewrite (proj2 (Z.eqb_neq _ _) Ho). cbn [rr_Ttl with_Ttl]. lia.
Qed.

Section Replies.
Context {L : DnsLibrary} {LL : DnsLibraryLaws L}.

(** An entry made by a [Put] that satisfies [Q]. *)
Definition entry_of (Q : CacheKey -> Z -> DnsMsg -> Time -> Prop) (e : stored CacheKey bytes) : Prop :=
  exists qtype m received mp ttl, Q (e_key e) qtype m received /\ times_ok m /\ Prepare_msg qtype m = (mp, ttl) /\ (0 < ttl)%Z /\
    Pack mp = Some (Value (e_record e)) /\ ReceivedAt (e_record e) = received /\ Expires (e_record e) = (received + ttl * time_Second)%Z.

Lemma Prepare_nonneg qtype m : times_ok m -> (0 <= (Prepare_msg qtype m).2)%Z.
Proof.
  intros Ht. assert (Dc : Decision (cacheable qtype m)) by (unfold cacheable; apply _). destruct (decide (cacheable qtype m)) as [Hc|Hc]; [|by rewrite Prepare_uncacheable].
  rewrite Prepare_eq by done. cbv zeta. destruct (_ && _ && _); [|done]. cbn [snd]. destruct (minimum_in (lifetimes qtype m) MaxTTL) as [->|Hin]; [done|]. pose proof (lifetimes_nonneg qtype m Ht) as Hn. rewrite Forall_forall in Hn. by apply Hn.
Qed.

Lemma Cache_Put_inv (Q : CacheKey -> Z -> DnsMsg -> Time -> Prop) key qtype m received c : store_inv (entry_of Q) c -> times_ok m -> Q key qtype m received ->
  exists c' b, Cache_Put key qtype m received c = Ok (c', b) /\ store_inv (entry_of Q) c' /\ same_limits c c'.
Proof.
  intros I Ht HQ. unfold Cache_Put. assert (Hsame : forall b : bool, exists (c' : cache) (b' : bool), Ok (c, b) = Ok (c', b') /\ store_inv (entry_of Q) c' /\ same_limits c c') by (intros b; exists c, b; split_and!; done).
  destruct (_ || _); [apply Hsame|]. pose proof (Prepare_nonneg qtype m Ht) as Hnn. destruct (Prepare_msg qtype m) as [mp ttl] eqn:Ep. cbn [snd] in Hnn. destruct (Z.eqb_spec ttl 0); [apply Hsame|]. destruct (Pack mp) as [wire|] eqn:Ew; [|apply Hsame].
  cbv zeta. destruct (_ <? _)%Z; [apply Hsame|]. destruct (lifetime_bounds qtype m mp ttl Ht Ep ltac:(lia)) as (_ & H31 & _). apply Put_inv; [done|]. exists qtype, m, received, mp, ttl. cbn. split_and!; try done; [lia|]. rewrite int64_id; [done|]. unfold time_Second. lia.
Qed.

Lemma Cache_Get_inv (Q : CacheKey -> Z -> DnsMsg -> Time -> Prop) key now c : store_inv (entry_of Q) c ->
  exists c' o, Cache_Get key now c = Ok (c', o) /\ store_inv (entry_of Q) c' /\ same_limits c c' /\
    forall reply, o = Some reply -> exists qtype m received, Q key qtype m received /\ replays now received qtype m reply.
Proof.
  intros I. unfold Cache_Get, Get. destruct (get_inv (entry_of Q) key now true c I) as (c' & o & E & I' & S' & Ho). rewrite E. cbn [mbind res_bind]. destruct o as [r|]; [|exists c', None; split_and!; done].
  destruct (Ho r eq_refl) as (Hx & e & (qtype & m & received & mp & ttl & HQ & Ht & Ep & Hpos & Ew & Er & Ee) & Hk & Hr). rewrite Hr in *. rewrite Hk in HQ. rewrite (Unpack_Pack _ _ Ew). eexists c', _. split; [done|]. split; [done|]. split; [done|].
  intros reply [= <-]. exists qtype, m, received. split; [done|]. rewrite Er, Ee in *. by eapply replays_intro.
Qed.

Inductive cache_op :=
  | CachePut (key : CacheKey) (qtype : Z) (m : DnsMsg) (received : Time)
  | CacheGet (key : CacheKey) (now : Time).

Definition run_cache_op (c : cache) (op : cache_op) : res cache :=
  match op with
  | CachePut key qtype m received => '(c, _) ← Cache_Put key qtype m received c; Ok c
  | CacheGet key now => '(c, _) ← Cache_Get key now c; Ok c
  end.

Definition run_cache (ops : list cache_op) (c : cache) : res cache := foldM run_cache_op c ops.

Definition cache_op_ok (op : cache_op) : Prop := match op with CachePut _ _ m _ => times_ok m | _ => True end.

(** After any run of [Put] and [Get] on a new cache, which never panics, a reply comes
    from an answer put for its own key and still alive: its records are those of the
    prepared answer, every ordinary one with exactly the whole seconds since the receipt
    taken off its time, and at least one second is left of each. *)
Theorem cache_replies_aged (entries mem : Z) (ops : list cache_op) (key : CacheKey) (now : Time) : (mem < 2 ^ 63)%Z -> Forall cache_op_ok ops ->
  exists c c' o, run_cache ops (New entries mem) = Ok c /\ Cache_Get key now c = Ok (c', o) /\
    forall reply, o = Some reply -> exists qtype m received, CachePut key qtype m received ∈ ops /\ replays now received qtype m reply.
Proof.
  intros Hm Hops. set (Q := fun (done : list cache_op) key qtype m received => CachePut key qtype m received ∈ done).
  assert (Hrun : exists c, run_cache ops (New entries mem) = Ok c /\ store_inv (entry_of (Q ops)) c).
  { induction ops as [|op ops IH] using rev_ind; [exists (New entries mem); split; [done|]; unfold New; by apply new_inv|]. apply Forall_app in Hops as [Hops [Hop _]%Forall_cons]. destruct (IH Hops) as (c & E & I). unfold run_cache in *. rewrite foldM_snoc, E. cbn [mbind res_bind].
    apply (store_inv_mono _ (entry_of (Q (ops ++ [op])))) in I; [|intros e (qt & m & r & mp & ttl & HQ & He); exists qt, m, r, mp, ttl; split; [unfold Q in *; apply elem_of_app; by left|done]].
    destruct op as [k qt m r|k t]; cbn [run_cache_op].
    - destruct (Cache_Put_inv (Q (ops ++ [CachePut k qt m r])) k qt m r c I Hop) as (c' & b & E' & I' & _); [apply elem_of_app; right; apply list_elem_of_here|]. rewrite E'. by exists c'.
    - destruct (Cache_Get_inv _ k t c I) as (c' & o & E' & I' & _). rewrite E'. by exists c'. }
  destruct Hrun as (c & E & I). destruct (Cache_Get_inv _ key now c I) as (c' & o & E' & _ & _ & Ho). by exists c, c', o.
Qed.
End Replies.

(** ** The internal resolver *)

Section Resolver.
Context {L : DnsLibrary} {LL : DnsLibraryLaws L}.

(** The exchanges in progress, the cache they share, and a record of the validated responses:
    the scope, the query, the response and the time. *)
Record resolver := mkResolver { rs_exchanges : gmap nat resolverCacheExchange; rs_cache : cache; rs_log : list (string * DnsMsg * DnsMsg * Time) }.

(** What an observed packet adds to the record. *)
Definition delivered (wire : bytes) (now : Time) (x : resolverCacheExchange) : list (string * DnsMsg * DnsMsg * Time) :=
  match x_query x, UnpackDnsMessage wire with
  | Some query, Ok response =>
    match ValidateDnsResponse query response (dh_Id (dm_Hdr query)) with Ok response => [(x_scope x, query, response, now)] | _ => [] end
  | _, _ => []
  end.

(** Exchanges are opened in a scope, look a query up, observe packets while it is pending,
    give it up, and close, in any order and interleaving. *)
Inductive resolver_step : resolver -> resolver -> Prop :=
  | resolver_open xs c log i scope : xs !! i = None -> resolver_step (mkResolver xs c log) (mkResolver (<[i := mkExchange scope None None]> xs) c log)
  | resolver_lookup xs c log i x wire datagram now x' c' reply : xs !! i = Some x -> byte_list wire -> exchange_lookup wire datagram now x c = Ok (x', c', reply) ->
      resolver_step (mkResolver xs c log) (mkResolver (<[i := x']> xs) c' log)
  | resolver_observe xs c log i x wire now x' c' done_ : xs !! i = Some x -> x_query x <> None -> byte_list wire -> exchange_observe wire now x c = Ok (x', c', done_) ->
      resolver_step (mkResolver xs c log) (mkResolver (<[i := x']> xs) c' (log ++ delivered wire now x))
  | resolver_forget xs c log i x : xs !! i = Some x -> resolver_step (mkResolver xs c log) (mkResolver (<[i := mkExchange (x_scope x) None (x_key x)]> xs) c log)
  | resolver_close xs c log i : resolver_step (mkResolver xs c log) (mkResolver (delete i xs) c log).

Inductive resolver_reachable (entries mem : Z) : resolver -> Prop :=
  | resolver_start : resolver_reachable entries mem (mkResolver ∅ (New entries mem) [])
  | resolver_next r r' : resolver_reachable entries mem r -> resolver_step r r' -> resolver_reachable entries mem r'.

(** A pending query has its key. *)
Definition exchange_ok (x : resolverCacheExchange) : Prop :=
  forall query, x_query x = Some query -> exists k, QueryKey (Some query) = Some k /\ x_key x = Some (mkCacheKey (x_scope x) k).

(** The answer of a key was delivered for a query with the key. *)
Definition logged (log : list (string * DnsMsg * DnsMsg * Time)) (key : CacheKey) (qtype : Z) (m : DnsMsg) (received : Time) : Prop :=
  exists query response, (ck_Namespace key, query, response, received) ∈ log /\ QueryKey (Some query) = Some (ck_Query key) /\ m = StripOPT response /\
    qtype = dq_Qtype (qk_Question (ck_Query key)) /\ ValidateDnsResponse query response (dh_Id (dm_Hdr query)) = Ok response.

Lemma UnpackDnsMessage_Unpack wire m : UnpackDnsMessage wire = Ok m -> Unpack wire = Some m.
Proof.
  unfold UnpackDnsMessage. destruct (_ <? _); [done|]. destruct (be16 wire 4); [|done|done]. cbn [mbind res_bind]. destruct (be16 wire 6); [|done|done]. cbn [mbind res_bind]. destruct (be16 wire 8); [|done|done]. cbn [mbind res_bind].
  destruct (be16 wire 10); [|done|done]. cbn [mbind res_bind]. destruct (skip_questions _ _ _); [|done|done]. cbn [mbind res_bind]. destruct (skip_records _ _ _); [|done|done]. cbn [mbind res_bind]. destruct (negb _); [done|]. destruct (Unpack wire); [|done]. by intros [= ->].
Qed.

Lemma received_times wire m : UnpackDnsMessage wire = Ok m -> times_ok m.
Proof. intros E%UnpackDnsMessage_Unpack. apply Forall_forall. intros rr Hin. by apply (Unpack_times m wire rr). Qed.

Lemma StripOPT_times m : times_ok m -> times_ok (StripOPT m).
Proof.
  unfold times_ok, sections. rewrite !Forall_app. intros (H1 & H2 & H3). cbn. split; [done|]. split; [done|]. rewrite Forall_forall in H3 |- *. intros rr [_ Hin]%list_elem_of_filter. by apply H3.
Qed.

Lemma Validate_same query response response' id : ValidateDnsResponse query response id = Ok response' -> response' = response.
Proof. unfold ValidateDnsResponse, validateDnsResponse. cbn [negb orb]. repeat case_match; by intros [= ->] || done. Qed.

Lemma QueryKey_question query k : QueryKey (Some query) = Some k -> exists q, dm_Question query = [q] /\
  qk_Question k = mkDnsQuestion (CanonicalName (dq_Name q)) (dq_Qtype q) (dq_Qclass q) /\ qk_Header k = hdr_with_Id (dm_Hdr query) 0.
Proof.
  unfold QueryKey. cbn [mbind option_bind]. destruct (dm_Question query) as [|q [|]]; [done| |done]. intros E. exists q. split; [done|]. revert E.
  destruct (_ || _); [done|]. destruct (_ || _); [done|]. destruct (negb (IsDomainName _)); [done|]. destruct (negb (forallb _ _)); [done|]. destruct (EDNS (Some query)) as [[opt|]|]; [|by intros [= <-]|done]. cbn [mbind option_bind].
  destruct (option_bytes _ _); [|done]. by intros [= <-].
Qed.

Lemma logged_mono log log' key qtype m received : logged log key qtype m received -> logged (log ++ log') key qtype m received.
Proof. intros (q & r & Hin & H1). exists q, r. split; [apply elem_of_app; by left|done]. Qed.

Lemma entry_mono log log' c : store_inv (entry_of (logged log)) c -> store_inv (entry_of (logged (log ++ log'))) c.
Proof. apply store_inv_mono. intros e (qt & m & r & mp & ttl & HQ & He). exists qt, m, r, mp, ttl. split; [by apply logged_mono|done]. Qed.

(** Replaying an aged answer keeps its records and takes over the query's identity. *)
Lemma Replay_spec response query : exists extra, Replay response query =
  mkDnsMsg (hdr_with_Id (dm_Hdr response) (dh_Id (dm_Hdr query))) (dm_Question query) (dm_Answer response) (dm_Ns response) (filter (fun rr => rr_Rrtype rr <> TypeOPT) (dm_Extra response) ++ extra).
Proof.
  unfold Replay. cbv zeta. destruct (IsEdns0 query) as [opt|]; [|exists []; by rewrite app_nil_r]. destruct (SetEdns0_appends (OPT_UDPSize opt) (OPT_Do opt) (StripOPT (mkDnsMsg (hdr_with_Id (dm_Hdr response) (dh_Id (dm_Hdr query))) (dm_Question query) (dm_Answer response) (dm_Ns response) (dm_Extra response)))) as [rr E].
  exists [rr]. exact E.
Qed.

(** The reply to a query: its identity is the query's, and its records are the aged records of
    a response that was validated for a query with the same key, in the same scope. *)
Definition answers (log : list (string * DnsMsg * DnsMsg * Time)) (scope : string) (now : Time) (datagram : bool) (query : DnsMsg) (reply : bytes) : Prop :=
  exists msg query0 response received aged,
    Unpack reply = Some msg /\ dm_Hdr msg = hdr_with_Id (dm_Hdr aged) (dh_Id (dm_Hdr query)) /\ dm_Question msg = dm_Question query /\
    dm_Answer msg = dm_Answer aged /\ dm_Ns msg = dm_Ns aged /\
    (Z.of_nat (length reply) <= if datagram then match IsEdns0 query with Some opt => Z.max 512 (OPT_UDPSize opt) | None => 512 end else 65535)%Z /\
    (scope, query0, response, received) ∈ log /\ QueryKey (Some query0) = QueryKey (Some query) /\ ValidateDnsResponse query0 response (dh_Id (dm_Hdr query0)) = Ok response /\
    exists q q0, dm_Question query = [q] /\ dm_Question query0 = [q0] /\ CanonicalName (dq_Name q0) = CanonicalName (dq_Name q) /\ dq_Qtype q0 = dq_Qtype q /\ dq_Qclass q0 = dq_Qclass q /\
      hdr_with_Id (dm_Hdr query0) 0 = hdr_with_Id (dm_Hdr query) 0 /\ replays now received (dq_Qtype q) (StripOPT response) aged.

Lemma exchange_lookup_spec log wire datagram now x c : byte_list wire -> store_inv (entry_of (logged log)) c -> exchange_ok x ->
  exists x' c' reply, exchange_lookup wire datagram now x c = Ok (x', c', reply) /\ store_inv (entry_of (logged log)) c' /\ exchange_ok x' /\ x_scope x' = x_scope x /\
    forall r, reply = Some r -> exists query, UnpackDnsMessage wire = Ok query /\ answers log (x_scope x) now datagram query r.
Proof.
  intros Hb I Hx. unfold exchange_lookup. assert (Hkeep : exists x' c' reply, Ok (x, c, None) = Ok (x', c', reply) /\ store_inv (entry_of (logged log)) c' /\ exchange_ok x' /\ x_scope x' = x_scope x /\
    forall r, reply = Some r -> exists query, UnpackDnsMessage wire = Ok query /\ answers log (x_scope x) now datagram query r) by (exists x, c, (None : option bytes); split_and!; done).
  destruct (UnpackDnsMessage wire) as [query| |] eqn:Eu; [|done|by apply UnpackDnsMessage_nopanic in Eu].
  destruct (negb _); [done|]. destruct (QueryKey (Some query)) as [k|] eqn:Ek; [|done]. cbv zeta. destruct (Cache_Get_inv _ (mkCacheKey (x_scope x) k) now c I) as (c' & o & E & I' & _ & Ho). rewrite E. cbn [mbind res_bind].
  assert (Hpend : exchange_ok (mkExchange (x_scope x) (Some query) (Some (mkCacheKey (x_scope x) k)))) by (intros q' [= <-]; by exists k).
  destruct o as [aged|]; [|eexists _, c', None; split_and!; done]. destruct (PackCompressed (Replay aged query)) as [reply|] eqn:Ep; [|eexists _, c', None; split_and!; done].
  match goal with |- context [if (?b <? _)%Z then _ else _] => set (limit := b) end. destruct (Z.ltb_spec limit (Z.of_nat (length reply))) as [Hl|Hl]; [eexists _, c', None; split_and!; done|].
  eexists _, c', (Some reply). split; [done|]. split; [done|]. split; [done|]. split; [done|]. intros r [= <-]. exists query. split; [done|].
  destruct (Ho aged eq_refl) as (qtype & m & received & (query0 & response & Hlog & Hk0 & -> & -> & Hv) & Hr). cbn [ck_Namespace ck_Query] in *.
  destruct (Replay_spec aged query) as [extra Er]. destruct (QueryKey_question query k Ek) as (q & Hq & Hqk & Hqh), (QueryKey_question query0 k Hk0) as (q0 & Hq0 & Hqk0 & Hqh0). exists (Replay aged query), query0, response, received, aged.
  split; [by apply Unpack_PackCompressed|]. rewrite Er. cbn [dm_Hdr dm_Question dm_Answer dm_Ns]. split_and!; try done; [congruence|]. rewrite Hqk in Hqk0, Hr. injection Hqk0 as ? ? ?. exists q, q0. split_and!; try done; congruence.
Qed.

Lemma exchange_observe_spec log wire now x c : byte_list wire -> store_inv (entry_of (logged log)) c -> exchange_ok x -> x_query x <> None ->
  exists x' c' b, exchange_observe wire now x c = Ok (x', c', b) /\ store_inv (entry_of (logged (log ++ delivered wire now x))) c' /\ exchange_ok x'.
Proof.
  intros Hb I Hx Hq. destruct (x_query x) as [query|] eqn:Eq; [|done]. destruct (Hx query Eq) as (k & Ek & Exk). unfold exchange_observe, delivered. rewrite Eq, Exk.
  destruct (UnpackDnsMessage wire) as [response| |] eqn:Eu; [|rewrite app_nil_r; by exists x, c, false|by apply UnpackDnsMessage_nopanic in Eu].
  destruct (ValidateDnsResponse query response _) as [response'| |] eqn:Ev; [|rewrite app_nil_r; by exists x, c, false|by apply ValidateDnsResponse_nopanic in Ev]. pose proof (Validate_same _ _ _ _ Ev) as ->.
  apply (entry_mono log [(x_scope x, query, response, now)]) in I. destruct (QueryKey_question query k Ek) as (q & Hq1 & Hqk & _).
  destruct (internalCacheEDNS response); [|eexists _, c, true; split; [done|]; split; [done|]; by intros ?]. rewrite Hq1. 
  destruct (Cache_Put_inv (logged (log ++ [(x_scope x, query, response, now)])) (mkCacheKey (x_scope x) k) (dq_Qtype q) (StripOPT response) now c I) as (c' & b & E & I' & _); [by apply StripOPT_times; eapply received_times| |].
  { exists query, response. cbn. rewrite Hqk. split_and!; try done. apply elem_of_app. right. apply list_elem_of_here. }
  change ([q] !! 0) with (Some q). cbn [idx mbind res_bind]. rewrite E. cbn [mbind res_bind]. eexists _, c', true. split; [done|]. split; [done|]. by intros ?.
Qed.

Lemma resolver_inv entries mem r : (mem < 2 ^ 63)%Z -> resolver_reachable entries mem r ->
  store_inv (entry_of (logged (rs_log r))) (rs_cache r) /\ map_Forall (fun _ x => exchange_ok x) (rs_exchanges r).
Proof.
  intros Hm. induction 1 as [|r r' _ [I X] Hs]; [split; [by apply new_inv|apply map_Forall_empty]|].
  destruct Hs as [xs c log i scope Hi|xs c log i x wire dg now x' c' reply Hi Hb E|xs c log i x wire now x' c' b Hi Hq Hb E|xs c log i x Hi|xs c log i]; cbn [rs_exchanges rs_cache rs_log] in *.
  - split; [done|]. by apply map_Forall_insert_2.
  - destruct (exchange_lookup_spec log wire dg now x c Hb I (X i x Hi)) as (x1 & c1 & r1 & E1 & I1 & X1 & _). rewrite E in E1. injection E1 as -> -> _. split; [done|]. by apply map_Forall_insert_2.
  - destruct (exchange_observe_spec log wire now x c Hb I (X i x Hi) Hq) as (x1 & c1 & b1 & E1 & I1 & X1). rewrite E in E1. injection E1 as -> -> _. split; [done|]. by apply map_Forall_insert_2.
  - split; [done|]. by apply map_Forall_insert_2.
  - split; [done|]. by apply map_Forall_delete.
Qed.

(** C14: in any interleaving of the internal resolver's exchanges, a lookup completes, and what
    it answers a query with carries the query's identity and the aged records of a response
    that was validated, in the same scope, for a query with the same canonical name, type,
    class, flags and EDNS parameters; it fits the size the client allows. *)
Theorem resolver_answers (entries mem : Z) (r : resolver) (i : nat) (x : resolverCacheExchange) (wire : bytes) (datagram : bool) (now : Time) :
  (mem < 2 ^ 63)%Z -> resolver_reachable entries mem r -> rs_exchanges r !! i = Some x -> byte_list wire ->
  exists x' c' reply, exchange_lookup wire datagram now x (rs_cache r) = Ok (x', c', reply) /\
    forall b, reply = Some b -> exists query, UnpackDnsMessage wire = Ok query /\ answers (rs_log r) (x_scope x) now datagram query b.
Proof.
  intros Hm Hr Hi Hb. destruct (resolver_inv entries mem r Hm Hr) as [I X]. destruct (exchange_lookup_spec _ wire datagram now x _ Hb I (X i x Hi)) as (x' & c' & reply & E & _ & _ & _ & Ha). by exists x', c', reply.
Qed.
End Resolver.

(** ** Witnesses *)

(** The value of a computation that succeeds. *)
Definition result_or {A} (d : A) (r : res A) : A := match r with Ok a => a | _ => d end.

Lemma result_or_eq {A} (d : A) (r : res A) : match r with Ok _ => true | _ => false end = true -> r = Ok (result_or d r).
Proof. by destruct r. Qed.

Module CacheDemo.
Import WireDemo.
Definition second : Z := time_Second.
Definition key : CacheKey := mkCacheKey "scope" (default (mkQuery question (mkHdr 0 false 0 false false false false false false false 0) false 0 0 []) (@QueryKey library (Some query))).
Definition ops : list cache_op := [CacheGet key 1; CachePut key 1 (answer 300) (10 * second); CacheGet key (20 * second)].

(** One exchange asks and is answered; the next finds the answer. *)
Definition unasked : resolverCacheExchange := mkExchange "scope" None None.
Definition ask : res (resolverCacheExchange * cache * option bytes) := @exchange_lookup library packet true 0 unasked (New 10 10000).
Definition asked : resolverCacheExchange * cache * option bytes := result_or (unasked, New 10 10000, None) ask.
Definition hear : res (resolverCacheExchange * cache * bool) := @exchange_observe library (answer_packet 300) (10 * second) asked.1.1 asked.1.2.
Definition answered : resolverCacheExchange * cache * bool := result_or (asked.1, false) hear.

Definition opened : resolver := mkResolver (<[0 := unasked]> ∅) (New 10 10000) [].
Definition pending : resolver := mkResolver (<[0 := asked.1.1]> (<[0 := unasked]> ∅)) asked.1.2 [].
Definition final : resolver :=
  mkResolver (<[0 := answered.1.1]> (<[0 := asked.1.1]> (<[0 := unasked]> ∅))) answered.1.2 ([] ++ @delivered library (answer_packet 300) (10 * second) asked.1.1).

Lemma asked_eq : ask = Ok (asked.1.1, asked.1.2, asked.2).
Proof. rewrite (result_or_eq (unasked, New 10 10000, None) ask) at 1 by (vm_compute; reflexivity). by rewrite <-!surjective_pairing. Qed.

Lemma answered_eq : hear = Ok (answered.1.1, answered.1.2, answered.2).
Proof. rewrite (result_or_eq (asked.1, false) hear) at 1 by (vm_compute; reflexivity). by rewrite <-!surjective_pairing. Qed.

Lemma asked_pending : x_query asked.1.1 <> None.
Proof. intros E. assert (Hn : match x_query asked.1.1 with None => true | Some _ => false end = false) by (vm_compute; reflexivity). rewrite E in Hn. discriminate Hn. Qed.

Lemma packets_ok : byte_list packet /\ byte_list (answer_packet 300).
Proof. split; unfold byte_list; apply (bool_decide_eq_true_1 _); vm_compute; reflexivity. Qed.

Lemma final_reachable : @resolver_reachable library 10 10000 final.
Proof.
  apply (resolver_next 10 10000 pending final); [apply (resolver_next 10 10000 opened pending); [apply (resolver_next 10 10000 (mkResolver ∅ (New 10 10000) []) opened); [apply resolver_start|]|]|].
  - exact (resolver_open ∅ (New 10 10000) [] 0 "scope" eq_refl).
  - exact (resolver_lookup (<[0 := unasked]> ∅) (New 10 10000) [] 0 unasked packet true 0 asked.1.1 asked.1.2 asked.2 (lookup_insert_eq _ _ _) (proj1 packets_ok) asked_eq).
  - exact (resolver_observe _ asked.1.2 [] 0 asked.1.1 (answer_packet 300) (10 * second) answered.1.1 answered.1.2 answered.2 (lookup_insert_eq _ _ _) asked_pending (proj2 packets_ok) answered_eq).
Qed.
End CacheDemo.

Lemma prepare_exact_witness : let ttl := (Prepare_msg 1 (WireDemo.answer 300)).2 in
  (0 <= ttl)%Z /\
  ((0 < ttl)%Z <-> cacheable 1 (WireDemo.answer 300) /\ lifetimes 1 (WireDemo.answer 300) <> [] /\ Forall (fun x => 0 < x < 2 ^ 31)%Z (lifetimes 1 (WireDemo.answer 300))) /\
  ((0 < ttl)%Z -> ttl ∈ lifetimes 1 (WireDemo.answer 300) /\ Forall (fun x => ttl <= x)%Z (lifetimes 1 (WireDemo.answer 300))).
Proof. apply (prepare_exact 1 (WireDemo.answer 300)). repeat constructor; cbn; [lia|done]. Defined.

Lemma cache_replies_aged_witness : exists c c' o, @run_cache WireDemo.library CacheDemo.ops (New 10 10000) = Ok c /\ @Cache_Get WireDemo.library CacheDemo.key (15 * CacheDemo.second) c = Ok (c', o) /\
  forall reply, o = Some reply -> exists qtype m received, CachePut CacheDemo.key qtype m received ∈ CacheDemo.ops /\ replays (15 * CacheDemo.second) received qtype m reply.
Proof. apply (@cache_replies_aged WireDemo.library WireDemo.library_laws 10 10000 CacheDemo.ops CacheDemo.key (15 * CacheDemo.second)); [lia|]. repeat constructor; cbn; try lia; done. Defined.

Lemma resolver_answers_witness : exists x' c' reply, @exchange_lookup WireDemo.library WireDemo.packet true (15 * CacheDemo.second) CacheDemo.answered.1.1 (rs_cache CacheDemo.final) = Ok (x', c', reply) /\
  forall b, reply = Some b -> exists query, @UnpackDnsMessage WireDemo.library WireDemo.packet = Ok query /\ @answers WireDemo.library (rs_log CacheDemo.final) (x_scope CacheDemo.answered.1.1) (15 * CacheDemo.second) true query b.
Proof.
  apply (@resolver_answers WireDemo.library WireDemo.library_laws 10 10000 CacheDemo.final 0 CacheDemo.answered.1.1 WireDemo.packet true (15 * CacheDemo.second)); [lia|exact CacheDemo.final_reachable|apply lookup_insert_eq|repeat constructor; lia].
Defined.

(** The reply of that lookup. *)
Example CacheDemo_reply : match @exchange_lookup WireDemo.library WireDemo.packet true (15 * CacheDemo.second) CacheDemo.answered.1.1 (rs_cache CacheDemo.final) with Ok (_, _, reply) => reply | _ => None end = Some (WireDemo.answer_packet 295).
Proof. vm_compute. reflexivity. Qed.
