(* ===== verification/DnsPlugin.v ===== *)
(** * The DNS cache plugin (plugins/dns-cache/cache.go)

    The cache in front of an upstream resolver: what it replays, what it forwards and
    stores, and the times it fixes for configured names.  The packets of
    component/plugin/dns_packet.go hold a parsed message or an opaque packet. *)

From S2P Require Import Prelude Netip GoSlices DomainProjection DnsStore DnsMessage DnsCache.

(** ** Packets and requests *)

Record DNSPacket := mkPacket { pk_wire : option bytes; pk_message : option DnsMsg }.

(** A packet with a message of its own. *)
Definition DNSMessage (message : option DnsMsg) : DNSPacket := mkPacket None message.

Definition MessageCopy (p : DNSPacket) : option DnsMsg := pk_message p.

Record DNSPolicyKey := mkPolicyKey { py_Chain : Z; py_Generation : Z; py_Outbound : Z; py_Mark : Z; py_Routed : bool }.

Record DNSUpstreamKey := mkUpstreamKey { uk_Policy : DNSPolicyKey; uk_Network : string; uk_Address : AddrPort; uk_Endpoint : string }.

(** The parts of a request the cache reads. *)
Record DNSRequest := mkDNSRequest { dr_packet : DNSPacket; dr_Network : string; dr_Destination : AddrPort; dr_PolicyKey : DNSPolicyKey; dr_Upstream : string }.

Definition UpstreamKey (r : DNSRequest) : DNSUpstreamKey := mkUpstreamKey (dr_PolicyKey r) (dr_Network r) (dr_Destination r) (dr_Upstream r).

Record DNSResponse := mkDNSResponse { ds_packet : DNSPacket; ds_ReceivedAt : Time; ds_Cached : bool; ds_Origin : string }.

Definition response_with_packet (r : DNSResponse) (p : DNSPacket) : DNSResponse := mkDNSResponse p (ds_ReceivedAt r) (ds_Cached r) (ds_Origin r).
Definition response_received (r : DNSResponse) (at_ : Time) : DNSResponse := mkDNSResponse (ds_packet r) at_ (ds_Cached r) (ds_Origin r).
Definition response_cached (r : DNSResponse) : DNSResponse := mkDNSResponse (ds_packet r) (ds_ReceivedAt r) true (ds_Origin r).

Record plugin_key := mkPluginKey { pg_upstream : DNSUpstreamKey; pg_query : Query }.

#[export] Instance DNSPolicyKey_eq_dec : EqDecision DNSPolicyKey.
Proof. solve_decision. Defined.
#[export] Instance DNSUpstreamKey_eq_dec : EqDecision DNSUpstreamKey.
Proof. solve_decision. Defined.
#[export] Instance plugin_key_eq_dec : EqDecision plugin_key.
Proof. solve_decision. Defined.

#[export] Instance DNSPolicyKey_countable : Countable DNSPolicyKey :=
  inj_countable' (fun k => (py_Chain k, py_Generation k, py_Outbound k, py_Mark k, py_Routed k)) (fun '(a, b, c, d, e) => mkPolicyKey a b c d e) ltac:(by intros []).
#[export] Instance DNSUpstreamKey_countable : Countable DNSUpstreamKey :=
  inj_countable' (fun k => (uk_Policy k, uk_Network k, ap_addr (uk_Address k), ap_port (uk_Address k), uk_Endpoint k)) (fun '(a, b, c, d, e) => mkUpstreamKey a b (mkAddrPort c d) e) ltac:(by intros [? ? [] ?]).
#[export] Instance plugin_key_countable : Countable plugin_key :=
  inj_countable' (fun k => (pg_upstream k, pg_query k)) (fun '(a, b) => mkPluginKey a b) ltac:(by intros []).

(** ** The cache *)

Definition plugin_store : Type := Store plugin_key DNSResponse.

Record PluginCache := mkPluginCache { pc_store : plugin_store; pc_fixed : gmap string Z; pc_bypasses : Z }.

Definition with_store (c : PluginCache) (s : plugin_store) : PluginCache := mkPluginCache s (pc_fixed c) (pc_bypasses c).

Section Plugin.
Context `{L : DnsLibrary}.

Definition clientCacheEDNS (m : option DnsMsg) : bool :=
  match EDNS m with
  | None => false
  | Some None => true
  | Some (Some opt) => match is_OPT opt with Some options => length options =? 0 | None => true end
  end.

Definition cacheKey (request : DNSRequest) : option plugin_key :=
  let message := MessageCopy (dr_packet request) in
  if negb (clientCacheEDNS message) then None
  else query ← QueryKey message; Some (mkPluginKey (UpstreamKey request) query).

(** The entry's response belongs to the caller; an opaque one has no message to age. *)
Definition replayResponse (entry : CacheRecord DNSResponse) (query : DnsMsg) (now : Time) : res DNSResponse :=
  let response := Value entry in
  message ← idx (MessageCopy (ds_packet response));
  let message := Age message (elapsed_seconds now (ReceivedAt entry)) in
  let message := Replay message query in
  Ok (response_cached (response_with_packet response (DNSMessage (Some message)))).

(** A store lookup, replayed. *)
Definition replay_hit (request : DNSRequest) (k : plugin_key) (now : Time) (countMiss : bool) (c : PluginCache) : res (PluginCache * option DNSResponse) :=
  '(s, e) ← (if countMiss then Get k now (pc_store c) else GetIfPresent k now (pc_store c));
  let c := with_store c s in
  match e with
  | None => Ok (c, None)
  | Some e => query ← idx (MessageCopy (dr_packet request)); response ← replayResponse e query now; Ok (c, Some response)
  end.

Definition LookupDNSUpstream (request : DNSRequest) (now : Time) (c : PluginCache) : res (PluginCache * option DNSResponse) :=
  match cacheKey request with
  | None => Ok (c, None)
  | Some k => replay_hit request k now false c
  end.

(** [WrapDNSUpstream] before the upstream is asked: the response that was found. *)
Definition wrap_before (request : DNSRequest) (now : Time) (c : PluginCache) : res (PluginCache * option DNSResponse) :=
  match cacheKey request with
  | Some k => replay_hit request k now true c
  | None => Ok (mkPluginCache (pc_store c) (pc_fixed c) (wrap 64 (pc_bypasses c + 1)), None)
  end.

Definition question_name (query : DnsMsg) : res string := q ← idx (dm_Question query !! 0); Ok (CanonicalName (dq_Name q)).

Definition storeResponse (request : DNSRequest) (response : DNSResponse) (now : Time) (c : PluginCache) : res PluginCache :=
  if ds_Cached response then Ok c
  else
    match cacheKey request, MessageCopy (ds_packet response) with
    | Some k, Some m =>
      if negb (clientCacheEDNS (Some m)) then Ok c
      else
        query ← idx (MessageCopy (dr_packet request));
        match ValidateDnsResponse query m (dh_Id (dm_Hdr query)) with
        | Panic => Panic
        | Err _ => Ok c
        | Ok m =>
          name ← question_name query;
          if bool_decide (pc_fixed c !! name = Some 0%Z) then Ok c
          else
            q ← idx (dm_Question query !! 0);
            let '(m, ttl) := Prepare_msg (dq_Qtype q) m in
            if (ttl =? 0)%Z then Ok c
            else
              let m := StripOPT m in
              let at_ := ds_ReceivedAt response in
              let expires := (at_ + int64 (ttl * time_Second))%Z in
              if negb (Before now expires) then Ok c
              else
                match Pack m with
                | None => Ok c
                | Some wire =>
                  let bytes := (4 * Z.of_nat (length wire) + Z.of_nat (String.length (uk_Endpoint (pg_upstream k))) +
                                Z.of_nat (String.length (dq_Name (qk_Question (pg_query k)))) + Z.of_nat (length (qk_Options (pg_query k))) + 512)%Z in
                  let owned := response_with_packet response (DNSMessage (Some m)) in
                  '(s, _) ← Put k (mkCacheRecord owned at_ expires) bytes (pc_store c);
                  Ok (with_store c s)
                end
        end
    | _, _ => Ok c
    end.

(** The times of a name that has a fixed one. *)
Definition fix_times (ttl : Z) (m : DnsMsg) : DnsMsg :=
  let h := dm_Hdr m in
  mkDnsMsg (mkHdr (dh_Id h) (dh_Response h) (dh_Opcode h) (dh_Authoritative h) (dh_Truncated h) (dh_RecursionDesired h) (dh_RecursionAvailable h) (dh_Zero h) false (dh_CheckingDisabled h) (dh_Rcode h))
    (dm_Question m) (map (fun rr => with_Ttl rr ttl) (dm_Answer m)) (dm_Ns m) (dm_Extra m).

Definition apply_fixed (query : DnsMsg) (response : DNSResponse) (c : PluginCache) : res DNSResponse :=
  name ← question_name query;
  match pc_fixed c !! name, MessageCopy (ds_packet response) with
  | Some ttl, Some message =>
    if clientCacheEDNS (Some message) then
      match ValidateDnsResponse query message (dh_Id (dm_Hdr query)) with
      | Panic => Panic
      | Err _ => Ok response
      | Ok message => if Signed message then Ok response else Ok (response_with_packet response (DNSMessage (Some (fix_times ttl message))))
      end
    else Ok response
  | _, _ => Ok response
  end.

(** [WrapDNSUpstream] after the upstream answered: nothing is stored when there is no response,
    an error, or a context that is done.  [received] and [now] are the times it reads. *)
Definition wrap_after (request : DNSRequest) (response : DNSResponse) (received now : Time) (c : PluginCache) : res (PluginCache * DNSResponse) :=
  match cacheKey request with
  | Some k =>
    if ds_Cached response then Ok (c, response)
    else
      query ← idx (MessageCopy (dr_packet request));
      let response := if IsZero (ds_ReceivedAt response) then response_received response received else response in
      response ← apply_fixed query response c;
      c ← storeResponse request response now c;
      Ok (c, response)
  | None => Ok (c, response)
  end.

(** The ticker of [Run]. *)
Definition run_tick (order : map_order) (now : Time) (c : PluginCache) : res PluginCache := s ← Expire order now (pc_store c); Ok (with_store c s).
End Plugin.
