(* ===== verification/DnsPluginCorrect.v ===== *)
(** * What the DNS cache plugin replays *)

From S2P Require Import Prelude Netip GoSlices DomainProjection DnsStore DnsStoreCorrect DnsMessage DnsCache DnsCacheCorrect DnsPlugin.

Section Plugin.
Context {L : DnsLibrary} {LL : DnsLibraryLaws L}.

(** The cache, and the requests and responses that were handed to it. *)
Record plugin_state := mkPluginState { ps_cache : PluginCache; ps_log : list (DNSRequest * DNSResponse) }.

Definition handed (request : DNSRequest) (response : DNSResponse) : list (DNSRequest * DNSResponse) := if ds_Cached response then [] else [(request, response)].

Definition response_ok (r : DNSResponse) : Prop := forall m, MessageCopy (ds_packet r) = Some m -> times_ok m.

(** Requests look up, and add their responses, in any interleaving; expired entries are swept. *)
Inductive plugin_step : plugin_state -> plugin_state -> Prop :=
  | plugin_lookup c log request now c' o : LookupDNSUpstream request now c = Ok (c', o) -> plugin_step (mkPluginState c log) (mkPluginState c' log)
  | plugin_before c log request now c' o : wrap_before request now c = Ok (c', o) -> plugin_step (mkPluginState c log) (mkPluginState c' log)
  | plugin_after c log request response received now c' response' : response_ok response -> wrap_after request response received now c = Ok (c', response') ->
      plugin_step (mkPluginState c log) (mkPluginState c' (log ++ handed request response'))
  | plugin_tick c log order now c' : run_tick order now c = Ok c' -> plugin_step (mkPluginState c log) (mkPluginState c' log).

Inductive plugin_reachable (size mem : Z) (fixed : gmap string Z) : plugin_state -> Prop :=
  | plugin_start : plugin_reachable size mem fixed (mkPluginState (mkPluginCache (NewStore size mem) fixed 0) [])
  | plugin_next s s' : plugin_reachable size mem fixed s -> plugin_step s s' -> plugin_reachable size mem fixed s'.

(** Where an entry comes from. *)
Definition plugin_entry (log : list (DNSRequest * DNSResponse)) (e : stored plugin_key DNSResponse) : Prop :=
  exists request0 query0 response0 m mp ttl, (request0, response0) ∈ log /\ cacheKey request0 = Some (e_key e) /\ MessageCopy (dr_packet request0) = Some query0 /\
    MessageCopy (ds_packet response0) = Some m /\ ValidateDnsResponse query0 m (dh_Id (dm_Hdr query0)) = Ok m /\ times_ok m /\
    Prepare_msg (dq_Qtype (qk_Question (pg_query (e_key e)))) m = (mp, ttl) /\ (0 < ttl)%Z /\
    Value (e_record e) = response_with_packet response0 (DNSMessage (Some (StripOPT mp))) /\ ds_Cached response0 = false /\
    ReceivedAt (e_record e) = ds_ReceivedAt response0 /\ Expires (e_record e) = (ds_ReceivedAt response0 + ttl * time_Second)%Z.

Lemma plugin_entry_mono log log' e : plugin_entry log e -> plugin_entry (log ++ log') e.
Proof. intros (r0 & q & r & m & mp & ttl & Hin & H1). exists r0, q, r, m, mp, ttl. split; [apply elem_of_app; by left|done]. Qed.

Lemma cacheKey_spec request k : cacheKey request = Some k -> exists query, MessageCopy (dr_packet request) = Some query /\ QueryKey (Some query) = Some (pg_query k) /\ pg_upstream k = UpstreamKey request.
Proof.
  unfold cacheKey. cbv zeta. destruct (negb _); [done|]. destruct (MessageCopy (dr_packet request)) as [query|]; [|done]. destruct (QueryKey (Some query)) as [q|] eqn:E; [|done]. cbn. intros [= <-]. by exists query.
Qed.

(** A replay: marked, with the identity of the query, and the aged records of a response that
    was handed in for a request of the same upstream and query key, and validated. *)
Definition replayed (log : list (DNSRequest * DNSResponse)) (request : DNSRequest) (now : Time) (r : DNSResponse) : Prop :=
  exists k query msg request0 query0 response0 m aged,
    QueryKey (Some query) = Some k /\ MessageCopy (dr_packet request) = Some query /\ MessageCopy (ds_packet r) = Some msg /\ ds_Cached r = true /\
    dm_Hdr msg = hdr_with_Id (dm_Hdr aged) (dh_Id (dm_Hdr query)) /\ dm_Question msg = dm_Question query /\ dm_Answer msg = dm_Answer aged /\ dm_Ns msg = dm_Ns aged /\
    (request0, response0) ∈ log /\ MessageCopy (dr_packet request0) = Some query0 /\ UpstreamKey request0 = UpstreamKey request /\ QueryKey (Some query0) = Some k /\ ds_Cached response0 = false /\ ds_ReceivedAt r = ds_ReceivedAt response0 /\
    MessageCopy (ds_packet response0) = Some m /\ ValidateDnsResponse query0 m (dh_Id (dm_Hdr query0)) = Ok m /\
    replays now (ds_ReceivedAt response0) (dq_Qtype (qk_Question k)) m aged.

Lemma get_either k now (count : bool) (s : plugin_store) : (if count then Get k now s else GetIfPresent k now s) = get k now count s.
Proof. by destruct count. Qed.

Lemma replay_hit_spec log request k now count c : cacheKey request = Some k -> store_inv (plugin_entry log) (pc_store c) ->
  exists c' o, replay_hit request k now count c = Ok (c', o) /\ store_inv (plugin_entry log) (pc_store c') /\ pc_fixed c' = pc_fixed c /\ forall r, o = Some r -> replayed log request now r.
Proof.
  intros Ek I. destruct (cacheKey_spec request k Ek) as (query & Eq & Hq & Hup). unfold replay_hit. rewrite get_either. destruct (get_inv (plugin_entry log) k now count (pc_store c) I) as (s' & o & E & I' & _ & Ho).
  rewrite E. cbn [mbind res_bind]. destruct o as [e|]; [|eexists _, None; split_and!; done].
  destruct (Ho e eq_refl) as (Hx & e0 & (request0 & query0 & response0 & m & mp & ttl & Hlog & Hk0 & Eq0 & Em & Hv & Ht & Ep & Hpos & Ev & Hc & Er & Ee) & Hk & Hr). rewrite Hr in *. rewrite Hk in *. rewrite Eq. cbn [idx mbind res_bind].
  unfold replayResponse. rewrite Ev. cbn [ds_packet response_with_packet DNSMessage MessageCopy pk_message idx mbind res_bind]. eexists _, _. split; [done|]. split; [done|]. split; [done|]. intros r [= <-]. rewrite Er, Ee in *.
  set (aged := Age mp (elapsed_seconds now (ds_ReceivedAt response0))). destruct (Replay_spec (Age (StripOPT mp) (elapsed_seconds now (ds_ReceivedAt response0))) query) as [extra Erp].
  destruct (cacheKey_spec request0 k Hk0) as (query0' & Eq0' & Hq0 & Hup0). assert (query0' = query0) as -> by congruence.
  exists (pg_query k), query, (Replay (Age (StripOPT mp) (elapsed_seconds now (ds_ReceivedAt response0))) query), request0, query0, response0, m, aged. rewrite Erp. split_and!; try done; [congruence|]. by eapply replays_intro.
Qed.

Lemma question_name_ok query k : QueryKey (Some query) = Some k -> exists q, dm_Question query !! 0 = Some q /\ question_name query = Ok (CanonicalName (dq_Name q)) /\ dq_Qtype q = dq_Qtype (qk_Question k).
Proof. intros (q & Hq & Hk & _)%QueryKey_question. exists q. unfold question_name. rewrite Hq, Hk. done. Qed.

Lemma storeResponse_spec log request response now c : response_ok response -> store_inv (plugin_entry (log ++ handed request response)) (pc_store c) ->
  exists c', storeResponse request response now c = Ok c' /\ store_inv (plugin_entry (log ++ handed request response)) (pc_store c') /\ pc_fixed c' = pc_fixed c.
Proof.
  intros Hr I. unfold storeResponse. assert (Hsame : exists c', Ok c = Ok c' /\ store_inv (plugin_entry (log ++ handed request response)) (pc_store c') /\ pc_fixed c' = pc_fixed c) by by exists c.
  destruct (ds_Cached response) eqn:Ec; [done|]. destruct (cacheKey request) as [k|] eqn:Ek; [|done]. destruct (MessageCopy (ds_packet response)) as [m|] eqn:Em; [|done]. destruct (negb _); [done|].
  destruct (cacheKey_spec request k Ek) as (query & Eq & Hq & _). rewrite Eq. cbn [idx mbind res_bind]. destruct (ValidateDnsResponse query m _) as [m'| |] eqn:Ev; [|done|by apply ValidateDnsResponse_nopanic in Ev]. pose proof (Validate_same _ _ _ _ Ev) as ->.
  destruct (question_name_ok query _ Hq) as (q & Eq0 & En & Hty). rewrite En. cbn [mbind res_bind]. case_bool_decide; [done|]. rewrite Eq0. cbn [idx mbind res_bind].
  pose proof (Prepare_nonneg (dq_Qtype q) m (Hr m Em)) as Hnn. destruct (Prepare_msg (dq_Qtype q) m) as [mp ttl] eqn:Ep. cbn [snd] in Hnn. destruct (Z.eqb_spec ttl 0); [done|]. cbv zeta. destruct (negb _); [done|]. destruct (Pack _) as [wire|]; [|done].
  destruct (lifetime_bounds _ m mp ttl (Hr m Em) Ep ltac:(lia)) as (_ & H31 & _). rewrite int64_id by (unfold time_Second; lia).
  match goal with |- context [Put k ?rec ?b (pc_store c)] => destruct (Put_inv (plugin_entry (log ++ handed request response)) k rec b (pc_store c) I) as (s' & ok & E & I' & _) end; [|rewrite E; cbn [mbind res_bind]; by exists (with_store c s')].
  exists request, query, response, m, mp, ttl. cbn [e_key e_record Value ReceivedAt Expires]. split; [|rewrite <-Hty; split_and!; try done; [exact (Hr m Em)|lia]]. apply elem_of_app. right. unfold handed. rewrite Ec. apply list_elem_of_here.
Qed.

Definition fixed_ok (fixed : gmap string Z) : Prop := map_Forall (fun _ ttl => 0 <= ttl < 2 ^ 31)%Z fixed.

Lemma fix_times_ok ttl m : (0 <= ttl)%Z -> times_ok m -> times_ok (fix_times ttl m).
Proof.
  unfold times_ok, sections. rewrite !Forall_app. intros Hl (H1 & H2 & H3). cbn. split; [|done]. apply Forall_forall. intros rr (r & -> & Hin)%list_elem_of_fmap. rewrite Forall_forall in H1. destruct (H1 r Hin) as [_ Hs]. done.
Qed.

Lemma apply_fixed_ok query k response c : QueryKey (Some query) = Some k -> fixed_ok (pc_fixed c) -> response_ok response ->
  exists response', apply_fixed query response c = Ok response' /\ response_ok response' /\ ds_Cached response' = ds_Cached response.
Proof.
  intros Hq Hf Hr. unfold apply_fixed. destruct (question_name_ok query k Hq) as (q & _ & En & _). rewrite En. cbn [mbind res_bind]. destruct (pc_fixed c !! _) as [ttl|] eqn:Et; [|by exists response].
  destruct (MessageCopy (ds_packet response)) as [m|] eqn:Em; [|by exists response]. destruct (clientCacheEDNS _); [|by exists response]. destruct (ValidateDnsResponse query m _) as [m'| |] eqn:Ev; [|by exists response|by apply ValidateDnsResponse_nopanic in Ev].
  pose proof (Validate_same _ _ _ _ Ev) as ->. destruct (Signed m); [by exists response|]. eexists. split; [done|]. split; [|done]. intros m' [= <-]. apply fix_times_ok; [by apply (Hf _ _ Et)|by apply Hr].
Qed.

Lemma wrap_after_spec log request response received now c : response_ok response -> fixed_ok (pc_fixed c) -> store_inv (plugin_entry log) (pc_store c) ->
  exists c' response', wrap_after request response received now c = Ok (c', response') /\ store_inv (plugin_entry (log ++ handed request response')) (pc_store c') /\ pc_fixed c' = pc_fixed c.
Proof.
  intros Hr Hf I. assert (Im : forall log', store_inv (plugin_entry (log ++ log')) (pc_store c)) by (intros log'; eapply store_inv_mono; [|exact I]; intros e; apply plugin_entry_mono). unfold wrap_after.
  destruct (cacheKey request) as [k|] eqn:Ek; [|by exists c, response]. destruct (ds_Cached response) eqn:Ec; [by exists c, response|]. destruct (cacheKey_spec request k Ek) as (query & Eq & Hq & _). rewrite Eq. cbn [idx mbind res_bind]. cbv zeta.
  set (r1 := if IsZero _ then _ else _). assert (Hr1 : response_ok r1) by (unfold r1; by destruct (IsZero _)). destruct (apply_fixed_ok query _ r1 c Hq Hf Hr1) as (r2 & E2 & Hr2 & _). rewrite E2. cbn [mbind res_bind].
  destruct (storeResponse_spec log request r2 now c Hr2 (Im _)) as (c' & E3 & I3 & F3). rewrite E3. cbn [mbind res_bind]. by exists c', r2.
Qed.

Lemma lookup_plugin_spec log request now c : store_inv (plugin_entry log) (pc_store c) ->
  (exists c' o, LookupDNSUpstream request now c = Ok (c', o) /\ store_inv (plugin_entry log) (pc_store c') /\ pc_fixed c' = pc_fixed c /\ forall r, o = Some r -> replayed log request now r) /\
  (exists c' o, wrap_before request now c = Ok (c', o) /\ store_inv (plugin_entry log) (pc_store c') /\ pc_fixed c' = pc_fixed c /\ forall r, o = Some r -> replayed log request now r).
Proof.
  intros I. unfold LookupDNSUpstream, wrap_before. destruct (cacheKey request) as [k|] eqn:Ek; [split; by apply replay_hit_spec|]. split; [by exists c, None|]. eexists _, None. split; [done|]. by split.
Qed.

Lemma plugin_inv size mem fixed s : (mem < 2 ^ 63)%Z -> fixed_ok fixed -> plugin_reachable size mem fixed s -> store_inv (plugin_entry (ps_log s)) (pc_store (ps_cache s)) /\ pc_fixed (ps_cache s) = fixed.
Proof.
  intros Hm Hf. induction 1 as [|s s' _ [I F] Hs]; [split; [by apply new_inv|done]|]. destruct Hs as [c log request now c' o E|c log request now c' o E|c log request response received now c' response' Hr E|c log order now c' E]; cbn [ps_cache ps_log] in *.
  - destruct (proj1 (lookup_plugin_spec log request now c I)) as (c1 & o1 & E1 & I1 & F1 & _). rewrite E in E1. injection E1 as -> _. split; [done|congruence].
  - destruct (proj2 (lookup_plugin_spec log request now c I)) as (c1 & o1 & E1 & I1 & F1 & _). rewrite E in E1. injection E1 as -> _. split; [done|congruence].
  - destruct (wrap_after_spec log request response received now c Hr ltac:(by rewrite F) I) as (c1 & r1 & E1 & I1 & F1). rewrite E in E1. injection E1 as -> ->. split; [done|congruence].
  - unfold run_tick in E. destruct (Expire_inv (plugin_entry log) order now (pc_store c) I) as (s1 & E1 & I1 & _). rewrite E1 in E. cbn [mbind res_bind] in E. injection E as <-. split; [exact I1|exact F].
Qed.

(** C15: whatever requests the DNS cache plugin serves, and in whatever interleaving, looking a
    request up completes, speculatively or not; a response it replays is marked as cached and
    carries the identity of the query and the aged records of a response that was handed in
    (as it is after the rewriting of fixed times to live), not itself a replay, for a request of the same upstream and policy with the same query
    key, and validated against that request's query. *)
Theorem client_replays (size mem : Z) (fixed : gmap string Z) (s : plugin_state) (request : DNSRequest) (now : Time) :
  (mem < 2 ^ 63)%Z -> fixed_ok fixed -> plugin_reachable size mem fixed s ->
  (exists c o, LookupDNSUpstream request now (ps_cache s) = Ok (c, o) /\ forall r, o = Some r -> replayed (ps_log s) request now r) /\
  (exists c o, wrap_before request now (ps_cache s) = Ok (c, o) /\ forall r, o = Some r -> replayed (ps_log s) request now r).
Proof.
  intros Hm Hf Hs. destruct (plugin_inv size mem fixed s Hm Hf Hs) as [I _]. destruct (lookup_plugin_spec (ps_log s) request now (ps_cache s) I) as [(c1 & o1 & E1 & _ & _ & H1) (c2 & o2 & E2 & _ & _ & H2)].
  split; [by exists c1, o1|by exists c2, o2].
Qed.

(** A response the plugin returns after asking the upstream is the upstream's own, except
    that an absent receipt time is filled in and, for a name with a fixed time, a validated
    and unsigned answer has its answer records given that time; and adding it never fails. *)
Theorem client_forwards (request : DNSRequest) (response : DNSResponse) (received now : Time) (size mem : Z) (fixed : gmap string Z) (s : plugin_state) :
  (mem < 2 ^ 63)%Z -> fixed_ok fixed -> plugin_reachable size mem fixed s -> response_ok response ->
  exists c' response', wrap_after request response received now (ps_cache s) = Ok (c', response') /\ ds_Origin response' = ds_Origin response /\ ds_Cached response' = ds_Cached response /\
    (ds_ReceivedAt response' = ds_ReceivedAt response \/ (ds_ReceivedAt response = 0%Z /\ ds_ReceivedAt response' = received)) /\
    (ds_packet response' = ds_packet response \/ exists query q m ttl, MessageCopy (dr_packet request) = Some query /\ dm_Question query = [q] /\ fixed !! CanonicalName (dq_Name q) = Some ttl /\
       MessageCopy (ds_packet response) = Some m /\ ValidateDnsResponse query m (dh_Id (dm_Hdr query)) = Ok m /\ Signed m = false /\ ds_packet response' = DNSMessage (Some (fix_times ttl m))).
Proof.
  intros Hm Hf Hs Hr. destruct (plugin_inv size mem fixed s Hm Hf Hs) as [I F]. destruct (wrap_after_spec (ps_log s) request response received now (ps_cache s) Hr ltac:(by rewrite F) I) as (c' & r' & E & _). exists c', r'. split; [done|]. revert E. unfold wrap_after.
  destruct (cacheKey request) as [k|] eqn:Ek; [|intros [= <- <-]; auto]. destruct (ds_Cached response) eqn:Ec; [intros [= <- <-]; auto|]. destruct (cacheKey_spec request k Ek) as (query & Eq & Hq & _). rewrite Eq. cbn [idx mbind res_bind]. cbv zeta.
  set (r1 := if IsZero _ then _ else _). assert (H1 : ds_Origin r1 = ds_Origin response /\ ds_Cached r1 = ds_Cached response /\ ds_packet r1 = ds_packet response /\ (ds_ReceivedAt r1 = ds_ReceivedAt response \/ (ds_ReceivedAt response = 0%Z /\ ds_ReceivedAt r1 = received))).
  { unfold r1. destruct (IsZero _) eqn:Ez; cbn; [|by auto]. split_and!; try done. right. by apply Z.eqb_eq in Ez. }
  destruct H1 as (O1 & C1 & P1 & T1). unfold apply_fixed. destruct (QueryKey_question query _ Hq) as (q & Hqq & _ & _). unfold question_name. rewrite Hqq. change ([q] !! 0) with (Some q). cbn [idx mbind res_bind]. rewrite F, P1. intros E.
  assert (Hkeep : forall r2, (c ← storeResponse request r2 now (ps_cache s); Ok (c, r2)) = Ok (c', r') -> r' = r2) by (intros r2; destruct (storeResponse _ _ _ _); cbn; [by intros [= _ ->]|done|done]).
  destruct (fixed !! _) as [ttl|] eqn:Et; [|apply Hkeep in E as ->; rewrite <-Ec; split_and!; auto; congruence]. destruct (MessageCopy (ds_packet response)) as [m|] eqn:Em; [|apply Hkeep in E as ->; rewrite <-Ec; split_and!; auto; congruence].
  destruct (clientCacheEDNS _); [|apply Hkeep in E as ->; rewrite <-Ec; split_and!; auto; congruence]. destruct (ValidateDnsResponse query m _) as [m'| |] eqn:Ev; [|apply Hkeep in E as ->; rewrite <-Ec; split_and!; auto; congruence|done].
  pose proof (Validate_same _ _ _ _ Ev) as ->. destruct (Signed m) eqn:Eg; [apply Hkeep in E as ->; rewrite <-Ec; split_and!; auto; congruence|]. apply Hkeep in E as ->. rewrite <-Ec. cbn. split_and!; auto. right. exists query, q, m, ttl. split_and!; first [done|congruence].
Qed.
End Plugin.

(** ** Witness *)

Module PluginDemo.
Import WireDemo.
Definition request : DNSRequest := mkDNSRequest (mkPacket (Some packet) (Some query)) "udp" (mkAddrPort (AddrV4 [192; 0; 2; 53]%Z) 53) (mkPolicyKey 1 1 0 0 true) "".
Definition upstream_response : DNSResponse := mkDNSResponse (mkPacket (Some (answer_packet 300)) (Some (answer 300))) 0 false "".
Definition empty : PluginCache := mkPluginCache (NewStore 10 100000) ∅ 0.
Definition stored_ : PluginCache * DNSResponse := result_or (empty, upstream_response) (@wrap_after library request upstream_response (10 * time_Second) (11 * time_Second) empty).
Definition st : plugin_state := mkPluginState stored_.1 ([] ++ handed request stored_.2).

Lemma st_reachable : @plugin_reachable library 10 100000 ∅ st.
Proof.
  apply (plugin_next 10 100000 ∅ (mkPluginState empty []) st); [apply plugin_start|]. apply (plugin_after empty [] request upstream_response (10 * time_Second) (11 * time_Second) stored_.1 stored_.2).
  - intros m [= <-]. repeat constructor; cbn; [lia|done].
  - rewrite <-surjective_pairing. by apply result_or_eq; vm_compute.
Qed.
End PluginDemo.

Lemma client_replays_witness :
  (exists c o, @LookupDNSUpstream WireDemo.library PluginDemo.request (15 * time_Second) (ps_cache PluginDemo.st) = Ok (c, o) /\ forall r, o = Some r -> @replayed WireDemo.library (ps_log PluginDemo.st) PluginDemo.request (15 * time_Second) r) /\
  (exists c o, @wrap_before WireDemo.library PluginDemo.request (15 * time_Second) (ps_cache PluginDemo.st) = Ok (c, o) /\ forall r, o = Some r -> @replayed WireDemo.library (ps_log PluginDemo.st) PluginDemo.request (15 * time_Second) r).
Proof.
  apply (@client_replays WireDemo.library WireDemo.library_laws 10 100000 ∅ PluginDemo.st PluginDemo.request (15 * time_Second)); [lia|apply map_Forall_empty|exact PluginDemo.st_reachable].
Defined.

(** The replay of that request. *)
Example PluginDemo_reply : match @wrap_before WireDemo.library PluginDemo.request (15 * time_Second) (ps_cache PluginDemo.st) with
  | Ok (_, Some r) => bool_decide (MessageCopy (ds_packet r) = Some (WireDemo.answer 295)) && ds_Cached r | _ => false end = true.
Proof. vm_compute. reflexivity. Qed.
