(* ===== verification/Membuffer.v ===== *)
(** * Budgeted buffers (pkg/membuffer)

    A budget of bytes, growing buffers, and immutable storage that views and readers share by
    counting references.  Objects live in a [heap]; a storage gives its bytes
    back to the budget when its last handle is closed.  Calls are taken one at a time. *)

From S2P Require Import Prelude Netip GoSlices.

(** ** The heap *)

Record Status := mkStatus { mb_Limit : Z; mb_Used : Z; mb_Peak : Z; mb_Denied : Z }.

(** The limits in use, by their handles. *)
Record Budget := mkBudget { mb_status : Status; mb_base : Z; mb_limits : gmap nat Z }.

(** Bytes, reference count and the size of the reservation. *)
Record storage := mkStorage { sg_bytes : bytes; sg_refs : Z; sg_memory : Z }.

Record Reader := mkReader { rd_data : option nat; rd_offset : nat; rd_closed : bool }.

(** Whether it has the budget, the written bytes, the capacity of the array and the size of
    the reservation. *)
Record Buffer := mkBuffer { bf_Budget : bool; bf_Limit : Z; bf_data : bytes; bf_cap : Z; bf_memory : Z }.

(** A view holds a storage until it is closed. *)
Record heap := mkHeap {
  w_budget : Budget;
  w_storages : gmap nat storage;
  w_views : gmap nat (option nat);
  w_readers : gmap nat Reader;
  w_buffers : gmap nat Buffer;
  w_next : nat;
}.

Definition with_budget (w : heap) (b : Budget) : heap := mkHeap b (w_storages w) (w_views w) (w_readers w) (w_buffers w) (w_next w).
Definition with_storages (w : heap) (m : gmap nat storage) : heap := mkHeap (w_budget w) m (w_views w) (w_readers w) (w_buffers w) (w_next w).
Definition with_views (w : heap) (m : gmap nat (option nat)) : heap := mkHeap (w_budget w) (w_storages w) m (w_readers w) (w_buffers w) (w_next w).
Definition with_readers (w : heap) (m : gmap nat Reader) : heap := mkHeap (w_budget w) (w_storages w) (w_views w) m (w_buffers w) (w_next w).
Definition with_buffers (w : heap) (m : gmap nat Buffer) : heap := mkHeap (w_budget w) (w_storages w) (w_views w) (w_readers w) m (w_next w).
Definition with_next (w : heap) (n : nat) : heap := mkHeap (w_budget w) (w_storages w) (w_views w) (w_readers w) (w_buffers w) n.

(** ** Budgets *)

Definition with_status (b : Budget) (s : Status) : Budget := mkBudget s (mb_base b) (mb_limits b).

Definition NewBudget (limit : Z) : res Budget :=
  if (limit <=? 0)%Z then Panic else Ok (mkBudget (mkStatus limit 0 0 0) limit ∅).

(** The smallest of the limits in use, or the base. *)
Definition updateLimit (order : map_order) (b : Budget) : Budget :=
  let limit := (fold_left (fun st e => if (st.2 : bool) || (e.2 <? st.1)%Z then (e.2, false) else st) (range order (mb_limits b)) (mb_base b, true)).1 in
  with_status b (mkStatus limit (mb_Used (mb_status b)) (mb_Peak (mb_status b)) (mb_Denied (mb_status b))).

Definition UseLimit (order : map_order) (limit : Z) (w : heap) : res (heap * nat) :=
  if (limit <=? 0)%Z then Panic
  else
    let l := w_next w in
    let b := w_budget w in
    Ok (with_next (with_budget w (updateLimit order (mkBudget (mb_status b) (mb_base b) (<[l := limit]> (mb_limits b))))) (S l), l).

Definition Limit_Close (order : map_order) (l : nat) (w : heap) : heap :=
  let b := w_budget w in
  with_budget w (updateLimit order (mkBudget (mb_status b) (mb_base b) (delete l (mb_limits b)))).

(** The size of the reservation, or the error of an exhausted budget. *)
Definition Reserve (size : Z) (b : Budget) : Budget * option Z :=
  let s := mb_status b in
  if (size <? 0)%Z || ((0 <? size)%Z && (int64 (mb_Limit s - mb_Used s) <? size)%Z)
  then (with_status b (mkStatus (mb_Limit s) (mb_Used s) (mb_Peak s) (wrap 64 (mb_Denied s + 1))), None)
  else
    let used := int64 (mb_Used s + size) in
    (with_status b (mkStatus (mb_Limit s) used (Z.max (mb_Peak s) used) (mb_Denied s)), Some size).

(** [Reservation.Close]. *)
Definition give_back (size : Z) (b : Budget) : Budget :=
  if (size =? 0)%Z then b
  else
    let s := mb_status b in
    with_status b (mkStatus (mb_Limit s) (int64 (mb_Used s - size)) (mb_Peak s) (mb_Denied s)).

(** ** Views and readers *)

Definition newView (data : bytes) (memory : Z) (w : heap) : heap * nat :=
  let d := w_next w in
  let v := S d in
  (with_next (with_views (with_storages w (<[d := mkStorage data 1 memory]> (w_storages w))) (<[v := Some d]> (w_views w))) (S v), v).

(** [storage.refs.Add]. *)
Definition int32 (x : Z) : Z := ((x + 2 ^ 31) mod 2 ^ 32 - 2 ^ 31)%Z.

Definition add_ref (d : nat) (w : heap) : res heap :=
  s ← idx (w_storages w !! d);
  Ok (with_storages w (<[d := mkStorage (sg_bytes s) (int32 (sg_refs s + 1)) (sg_memory s)]> (w_storages w))).

Definition release (d : nat) (w : heap) : res heap :=
  s ← idx (w_storages w !! d);
  let refs := int32 (sg_refs s - 1) in
  Ok (if (refs =? 0)%Z
      then with_budget (with_storages w (<[d := mkStorage [] refs 0]> (w_storages w))) (give_back (sg_memory s) (w_budget w))
      else with_storages w (<[d := mkStorage (sg_bytes s) refs (sg_memory s)]> (w_storages w))).

(** A view whose data is nil panics when it is used. *)
Definition view_data (v : nat) (w : heap) : res nat := o ← idx (w_views w !! v); idx o.

Definition View_Bytes (v : nat) (w : heap) : res bytes := d ← view_data v w; s ← idx (w_storages w !! d); Ok (sg_bytes s).

Definition new_view (d : nat) (w : heap) : heap * nat := (with_next (with_views w (<[w_next w := Some d]> (w_views w))) (S (w_next w)), w_next w).

Definition Clone (v : nat) (w : heap) : res (heap * nat) := d ← view_data v w; w ← add_ref d w; Ok (new_view d w).

Definition View_Close (v : nat) (w : heap) : res heap :=
  match w_views w !! v with
  | Some (Some d) => w ← release d w; Ok (with_views w (<[v := None]> (w_views w)))
  | _ => Ok w
  end.

Definition Open (v : nat) (w : heap) : res (heap * nat) :=
  d ← view_data v w;
  w ← add_ref d w;
  let r := w_next w in
  Ok (with_next (with_readers w (<[r := mkReader (Some d) 0 false]> (w_readers w))) (S r), r).

(** [Reader.Snapshot]: a view, if nothing was read. *)
Definition Reader_Snapshot (r : nat) (w : heap) : res (heap * option nat) :=
  rd ← idx (w_readers w !! r);
  match rd_data rd with
  | Some d => if rd_closed rd || negb (rd_offset rd =? 0) then Ok (w, None) else w ← add_ref d w; let '(w, v) := new_view d w in Ok (w, Some v)
  | None => Ok (w, None)
  end.

Inductive read_end := ReadMore | ReadEOF | ReadClosed.

(** [Reader.Read] into [n] bytes. *)
Definition Reader_Read (r n : nat) (w : heap) : res (heap * bytes * read_end) :=
  rd ← idx (w_readers w !! r);
  if rd_closed rd then Ok (w, [], ReadClosed)
  else
    match rd_data rd with
    | None => Ok (w, [], ReadEOF)
    | Some d =>
      s ← idx (w_storages w !! d);
      if length (sg_bytes s) <? rd_offset rd then Panic
      else
        let p := take n (drop (rd_offset rd) (sg_bytes s)) in
        let offset := rd_offset rd + length p in
        if offset <? length (sg_bytes s) then Ok (with_readers w (<[r := mkReader (Some d) offset false]> (w_readers w)), p, ReadMore)
        else
          w ← release d w;
          Ok (with_readers w (<[r := mkReader None offset false]> (w_readers w)), p, ReadEOF)
    end.

Definition Reader_Close (r : nat) (w : heap) : res heap :=
  rd ← idx (w_readers w !! r);
  w ← match rd_data rd with Some d => release d w | None => Ok w end;
  Ok (with_readers w (<[r := mkReader None (rd_offset rd) true]> (w_readers w))).

Definition Copy (data : bytes) (w : heap) : heap * option nat :=
  match Reserve (Z.of_nat (length data)) (w_budget w) with
  | (b, None) => (with_budget w b, None)
  | (b, Some memory) => let '(w, v) := newView data memory (with_budget w b) in (w, Some v)
  end.

(** ** Buffers *)

(** [Buffer{Budget: budget, Limit: limit}]. *)
Definition NewBuffer (budget : bool) (limit : Z) (w : heap) : heap * nat :=
  (with_next (with_buffers w (<[w_next w := mkBuffer budget limit [] 0 0]> (w_buffers w))) (S (w_next w)), w_next w).

(** The buffer afterwards and the error. *)
Definition grow (n : Z) (bf : Buffer) (b : Budget) : Budget * Buffer * option string :=
  let len := Z.of_nat (length (bf_data bf)) in
  if (bf_Limit bf <=? 0)%Z || (2 ^ 63 - 1 <? bf_Limit bf)%Z || (n <? 0)%Z || (bf_Limit bf - len <? n)%Z then (b, bf, Some "buffer exceeds size limit")
  else if negb (bf_Budget bf) then (b, bf, Some "buffer requires an explicit memory budget")
  else
    let needed := (len + n)%Z in
    let capacity := bf_cap bf in
    if (needed <=? capacity)%Z then (b, bf, None)
    else
      let growth := Z.min capacity (bf_Limit bf - capacity) in
      let size := Z.min (bf_Limit bf) (Z.max needed (Z.max 512 (capacity + growth))) in
      match Reserve size b with
      | (b, None) => (b, bf, Some "buffer memory budget exhausted")
      | (b, Some memory) => (give_back (bf_memory bf) b, mkBuffer (bf_Budget bf) (bf_Limit bf) (bf_data bf) size memory, None)
      end.

Definition with_buffer (i : nat) (bf : Buffer) (b : Budget) (w : heap) : heap := with_buffers (with_budget w b) (<[i := bf]> (w_buffers w)).

Definition Write (i : nat) (p : bytes) (w : heap) : res (heap * option string) :=
  bf ← idx (w_buffers w !! i);
  match grow (Z.of_nat (length p)) bf (w_budget w) with
  | (b, bf, Some err) => Ok (with_buffer i bf b w, Some err)
  | (b, bf, None) => Ok (with_buffer i (mkBuffer (bf_Budget bf) (bf_Limit bf) (bf_data bf ++ p) (bf_cap bf) (bf_memory bf)) b w, None)
  end.

Definition Buffer_View (i : nat) (w : heap) : res (heap * nat) :=
  bf ← idx (w_buffers w !! i);
  Ok (newView (bf_data bf) (bf_memory bf) (with_buffers w (<[i := mkBuffer (bf_Budget bf) (bf_Limit bf) [] 0 0]> (w_buffers w)))).

Definition Buffer_Close (i : nat) (w : heap) : res heap :=
  bf ← idx (w_buffers w !! i);
  Ok (with_buffer i (mkBuffer (bf_Budget bf) (bf_Limit bf) [] 0 0) (give_back (bf_memory bf) (w_budget w)) w).

(** ** Reading a source *)

(** One call of the source's [Read]: the bytes it delivered, and its error. *)
Inductive source_err := SourceEOF | SourceError (e : string).
Record source_read := mkSourceRead { sr_bytes : bytes; sr_err : option source_err }.

(** The loop of [Read] over the calls the source answers; [None] if it is still reading. A
    source that claims more bytes than it was given room for panics. *)
Fixpoint read_loop (limit : Z) (reads : list source_read) (bf : Buffer) (b : Budget) : res (Budget * Buffer * option (option string)) :=
  let '(b, bf, err) := if (Z.of_nat (length (bf_data bf)) =? bf_cap bf)%Z then grow 1 bf b else (b, bf, None) in
  match err with
  | Some err => Ok (b, bf, Some (Some err))
  | None =>
    match reads with
    | [] => Ok (b, bf, None)
    | r :: reads =>
      if (bf_cap bf <? Z.of_nat (length (bf_data bf)) + Z.of_nat (length (sr_bytes r)))%Z then Panic
      else
        let bf := mkBuffer (bf_Budget bf) (bf_Limit bf) (bf_data bf ++ sr_bytes r) (bf_cap bf) (bf_memory bf) in
        match sr_err r with
        | Some (SourceError e) => Ok (b, bf, Some (Some e))
        | e =>
          if (limit <? Z.of_nat (length (bf_data bf)))%Z then Ok (b, bf, Some (Some "buffer exceeds size limit"))
          else match e with
               | None => read_loop limit reads bf b
               | Some _ =>
                 if length (bf_data bf) =? 0 then Ok (give_back (bf_memory bf) b, mkBuffer (bf_Budget bf) (bf_Limit bf) [] 0 0, Some None)
                 else Ok (b, bf, Some None)
               end
        end
    end
  end.

(** The view of what was read and the error; [None] while it reads. *)
Definition Read_source (budget : bool) (limit : Z) (reads : list source_read) (w : heap) : res (heap * option (option nat * option string)) :=
  if (limit <=? 0)%Z || (2 ^ 63 - 1 <=? limit)%Z then Ok (w, Some (None, Some "buffer requires a positive, bounded limit"))
  else if negb budget then Ok (w, Some (None, Some "buffer requires an explicit memory budget"))
  else
    '(b, bf, done) ← read_loop limit reads (mkBuffer true (limit + 1) [] 0 0) (w_budget w);
    match done with
    | None => Ok (w, None)
    | Some err => let '(w, v) := newView (bf_data bf) (bf_memory bf) (with_budget w b) in Ok (w, Some (Some v, err))
    end.


(** ** Clients *)

(** The calls a client makes, by the handles it holds. *)
Inductive op :=
| OpUseLimit (order : map_order) (limit : Z)
| OpCloseLimit (order : map_order) (l : nat)
| OpCopy (data : bytes)
| OpClone (v : nat)
| OpCloseView (v : nat)
| OpOpen (v : nat)
| OpSnapshot (r : nat)
| OpRead (r n : nat)
| OpCloseReader (r : nat)
| OpBuffer (budget : bool) (limit : Z)
| OpWrite (i : nat) (p : bytes)
| OpView (i : nat)
| OpCloseBuffer (i : nat)
| OpReadSource (budget : bool) (limit : Z) (reads : list source_read).

(** The call, and the bytes a reader delivered. *)
Definition call (o : op) (w : heap) : res (heap * bytes) :=
  match o with
  | OpUseLimit order limit => '(w, _) ← UseLimit order limit w; Ok (w, [])
  | OpCloseLimit order l => Ok (Limit_Close order l w, [])
  | OpCopy data => Ok ((Copy data w).1, [])
  | OpClone v => '(w, _) ← Clone v w; Ok (w, [])
  | OpCloseView v => w ← View_Close v w; Ok (w, [])
  | OpOpen v => '(w, _) ← Open v w; Ok (w, [])
  | OpSnapshot r => '(w, _) ← Reader_Snapshot r w; Ok (w, [])
  | OpRead r n => '(w, p, _) ← Reader_Read r n w; Ok (w, p)
  | OpCloseReader r => w ← Reader_Close r w; Ok (w, [])
  | OpBuffer budget limit => Ok ((NewBuffer budget limit w).1, [])
  | OpWrite i p => '(w, _) ← Write i p w; Ok (w, [])
  | OpView i => '(w, _) ← Buffer_View i w; Ok (w, [])
  | OpCloseBuffer i => w ← Buffer_Close i w; Ok (w, [])
  | OpReadSource budget limit reads => '(w, _) ← Read_source budget limit reads w; Ok (w, [])
  end.

Definition has_room (d : nat) (w : heap) : bool := match w_storages w !! d with Some s => (sg_refs s <? 2 ^ 31 - 1)%Z | None => false end.

(** A view is used before it is closed and the reference count has room for the new handle;
    limits are positive, and a source keeps to the contract of its interface and is read to
    an end. *)
Definition allowed (o : op) (w : heap) : bool :=
  match o with
  | OpUseLimit _ limit => (0 <? limit)%Z && (limit <? 2 ^ 63)%Z
  | OpClone v | OpOpen v => match w_views w !! v with Some (Some d) => has_room d w | _ => false end
  | OpSnapshot r => match w_readers w !! r with Some rd => match rd_data rd with Some d => has_room d w | None => true end | None => false end
  | OpRead r _ | OpCloseReader r => match w_readers w !! r with Some _ => true | None => false end
  | OpWrite i _ | OpView i | OpCloseBuffer i => match w_buffers w !! i with Some _ => true | None => false end
  | OpReadSource budget limit reads => match Read_source budget limit reads w with Ok (_, Some _) => true | _ => false end
  | _ => true
  end.

Inductive runs : heap -> list (op * bytes) -> heap -> Prop :=
| runs_nil w : runs w [] w
| runs_cons w o w1 p tr w2 : allowed o w = true -> call o w = Ok (w1, p) -> runs w1 tr w2 -> runs w ((o, p) :: tr) w2.

(** What reader [r] delivered. *)
Definition replayed (r : nat) (tr : list (op * bytes)) : bytes :=
  concat (map (fun e => match e.1 with OpRead r' _ => if r' =? r then e.2 else [] | _ => [] end) tr).

Definition first_heap (b : Budget) : heap := mkHeap b ∅ ∅ ∅ ∅ 0.

(** A client's calls in order, with what they delivered. *)
Fixpoint run_calls (os : list op) (w : heap) : option (heap * list (op * bytes)) :=
  match os with
  | [] => Some (w, [])
  | o :: os =>
    if allowed o w
    then match call o w with
         | Ok (w, p) => '(w, tr) ← run_calls os w; Some (w, (o, p) :: tr)
         | _ => None
         end
    else None
  end.
