(* ===== verification/MembufferCorrect.v ===== *)
(** * Accounting of budgeted buffers

    What is used of the budget is what the live storages and the buffers reserved; a storage
    lives exactly as long as it has an open handle, and its bytes never change under one. *)

From S2P Require Import Prelude Netip GoSlices Membuffer.

(** ** Sums over a heap *)

Section Sum.
Context {A : Type} (f : A -> Z).

Definition msum (m : gmap nat A) : Z := foldr (fun x acc => f x.2 + acc)%Z 0%Z (map_to_list m).

Lemma foldr_sum_Permutation (l l' : list (nat * A)) : l ≡ₚ l' -> foldr (fun x acc => f x.2 + acc)%Z 0%Z l = foldr (fun x acc => f x.2 + acc)%Z 0%Z l'.
Proof. induction 1; cbn [foldr]; lia. Qed.

Lemma msum_empty : msum ∅ = 0%Z.
Proof. unfold msum. by rewrite map_to_list_empty. Qed.

Lemma msum_new m k x : m !! k = None -> msum (<[k := x]> m) = (f x + msum m)%Z.
Proof. intros Hk. unfold msum. by rewrite (foldr_sum_Permutation _ _ (map_to_list_insert m k x Hk)). Qed.

Lemma msum_insert m k x : msum (<[k := x]> m) = (msum m - from_option f 0 (m !! k) + f x)%Z.
Proof.
  destruct (m !! k) as [y|] eqn:Ek; cbn; [|rewrite msum_new by done; lia]. rewrite <-insert_delete_eq, msum_new by apply lookup_delete_eq. rewrite <-(insert_delete_id m k y Ek) at 2. rewrite msum_new by apply lookup_delete_eq. lia.
Qed.

Lemma msum_nonneg m : (forall k x, m !! k = Some x -> 0 <= f x)%Z -> (0 <= msum m)%Z.
Proof.
  induction m as [|k x m Hk IH] using map_ind; intros Hf; [by rewrite msum_empty|]. rewrite msum_new by done. assert (0 <= f x)%Z by (apply (Hf k), lookup_insert_eq). assert (0 <= msum m)%Z; [|lia].
  apply IH. intros k' x' Hx. apply (Hf k'). rewrite lookup_insert_ne; [done|congruence].
Qed.

Lemma msum_zero m : (forall k x, m !! k = Some x -> f x = 0)%Z -> msum m = 0%Z.
Proof.
  induction m as [|k x m Hk IH] using map_ind; intros Hf; [by rewrite msum_empty|]. rewrite msum_new by done. rewrite (Hf k x) by apply lookup_insert_eq. rewrite IH; [done|]. intros k' x' Hx. apply (Hf k'). rewrite lookup_insert_ne; [done|congruence].
Qed.

Lemma msum_ge m k x : (forall k x, m !! k = Some x -> 0 <= f x)%Z -> m !! k = Some x -> (f x <= msum m)%Z.
Proof.
  intros Hf Hk. rewrite <-(insert_delete_id m k x Hk), msum_new by apply lookup_delete_eq. assert (0 <= msum (delete k m))%Z; [|lia]. apply msum_nonneg. intros k' x' Hx. apply lookup_delete_Some in Hx as [_ Hx]. by apply (Hf k').
Qed.
End Sum.

(** ** The invariant *)

Definition held (d : nat) (o : option nat) : Z := if bool_decide (o = Some d) then 1%Z else 0%Z.

(** The open views and readers of a storage. *)
Definition handles (w : heap) (d : nat) : Z := (msum (held d) (w_views w) + msum (fun r => held d (rd_data r)) (w_readers w))%Z.

Definition storage_ok (s : storage) : Prop :=
  (0 <= sg_refs s < 2 ^ 31)%Z /\ (Z.of_nat (length (sg_bytes s)) <= sg_memory s)%Z /\ (sg_refs s = 0%Z -> sg_memory s = 0%Z).

Definition buffer_ok (bf : Buffer) : Prop := bf_cap bf = bf_memory bf /\ (Z.of_nat (length (bf_data bf)) <= bf_cap bf)%Z.

(** The smallest registered limit applies, or the base. *)
Definition limit_exact (b : Budget) : Prop :=
  (mb_limits b = ∅ /\ mb_Limit (mb_status b) = mb_base b) \/
  ((exists l, mb_limits b !! l = Some (mb_Limit (mb_status b))) /\ forall l n, mb_limits b !! l = Some n -> (mb_Limit (mb_status b) <= n)%Z).

Definition budget_ok (b : Budget) : Prop :=
  limit_exact b /\ (0 < mb_Limit (mb_status b) < 2 ^ 63)%Z /\ (0 < mb_base b < 2 ^ 63)%Z /\ (forall l n, mb_limits b !! l = Some n -> 0 < n < 2 ^ 63)%Z /\
  (0 <= mb_Used (mb_status b) < 2 ^ 63)%Z /\ (mb_Used (mb_status b) <= mb_Peak (mb_status b))%Z.

Record heap_inv (w : heap) : Prop := {
  wi_budget : budget_ok (w_budget w);
  wi_storages : forall d s, w_storages w !! d = Some s -> storage_ok s /\ sg_refs s = handles w d;
  wi_views : forall v d, w_views w !! v = Some (Some d) -> is_Some (w_storages w !! d);
  wi_readers : forall r rd d, w_readers w !! r = Some rd -> rd_data rd = Some d -> exists s, w_storages w !! d = Some s /\ rd_offset rd <= length (sg_bytes s);
  wi_buffers : forall i bf, w_buffers w !! i = Some bf -> buffer_ok bf;
  wi_used : mb_Used (mb_status (w_budget w)) = (msum sg_memory (w_storages w) + msum bf_memory (w_buffers w))%Z;
  wi_fresh : forall i, w_next w <= i -> w_storages w !! i = None /\ w_views w !! i = None /\ w_readers w !! i = None /\ w_buffers w !! i = None;
}.

Lemma held_eq d : held d (Some d) = 1%Z.
Proof. unfold held. by rewrite bool_decide_eq_true_2. Qed.

Lemma held_ne d d' : d' <> d -> held d (Some d') = 0%Z.
Proof. intros Hn. unfold held. rewrite bool_decide_eq_false_2; [done|congruence]. Qed.

Lemma held_None d : held d None = 0%Z.
Proof. done. Qed.

Lemma held_nonneg d o : (0 <= held d o <= 1)%Z.
Proof. unfold held. destruct (bool_decide _); lia. Qed.

(** ** The budget *)

(** A reservation is admitted below the limit. *)
Definition charged (b b' : Budget) : Prop :=
  mb_Limit (mb_status b') = mb_Limit (mb_status b) /\ (mb_Used (mb_status b') <= Z.max (mb_Used (mb_status b)) (mb_Limit (mb_status b)))%Z.

Lemma charged_trans b1 b2 b3 : charged b1 b2 -> charged b2 b3 -> charged b1 b3.
Proof. intros [E1 H1] [E2 H2]. split; [congruence|]. rewrite E1 in H2. lia. Qed.

Lemma Reserve_spec size b : budget_ok b ->
  match Reserve size b with
  | (b', Some s) => s = size /\ (0 <= size)%Z /\ budget_ok b' /\ mb_Used (mb_status b') = (mb_Used (mb_status b) + size)%Z /\ charged b b'
  | (b', None) => budget_ok b' /\ mb_Used (mb_status b') = mb_Used (mb_status b) /\ charged b b'
  end.
Proof.
  intros (H0 & H1 & H2 & H3 & H4 & H5). unfold Reserve. cbv zeta. rewrite (int64_id (_ - _)) by lia. destruct (_ || _) eqn:Ec.
  - split; [|split; [done|split; [done|cbn; lia]]]. split; [exact H0|]. split_and!; try done; cbn; lia.
  - apply orb_false_iff in Ec as [E1%Z.ltb_ge E2]. assert (Hs : (mb_Used (mb_status b) + size < 2 ^ 63)%Z /\ (0 < size -> mb_Used (mb_status b) + size <= mb_Limit (mb_status b))%Z).
    { destruct (Z.ltb_spec 0 size); cbn in E2; [apply Z.ltb_ge in E2|]; lia. }
    rewrite int64_id by lia. split; [done|]. split; [done|]. split; [split; [exact H0|]; split_and!; try done; cbn; lia|]. split; [done|]. split; [done|cbn; lia].
Qed.

Lemma give_back_spec size b : budget_ok b -> (0 <= size <= mb_Used (mb_status b))%Z ->
  budget_ok (give_back size b) /\ mb_Used (mb_status (give_back size b)) = (mb_Used (mb_status b) - size)%Z /\ charged b (give_back size b).
Proof.
  intros Hb Hs. pose proof Hb as (H0 & H1 & H2 & H3 & H4 & H5). unfold give_back. destruct (Z.eqb_spec size 0) as [->|]; [split; [done|split; [lia|split; [done|lia]]]|].
  cbv zeta. cbn [mb_Used mb_status with_status]. rewrite int64_id by lia. split; [|split; [done|split; [done|cbn; lia]]]. split; [exact H0|]. split_and!; try done; cbn; lia.
Qed.

(** The loop of [updateLimit] after the first limit. *)
Lemma smallest_limit (l : list (nat * Z)) n : exists m,
  fold_left (fun st e => if (st.2 : bool) || (e.2 <? st.1)%Z then (e.2, false) else st) l (n, false) = (m, false) /\
  (m = n \/ exists k, (k, m) ∈ l) /\ (m <= n)%Z /\ forall k x, (k, x) ∈ l -> (m <= x)%Z.
Proof.
  revert n. induction l as [|[k x] l IH]; intros n; [exists n; split; [done|]; split; [by left|]; split; [lia|]; intros ? ? []%not_elem_of_nil|].
  cbn [fold_left fst snd orb]. set (n' := if (x <? n)%Z then x else n). replace (if (x <? n)%Z then (x, false) else (n, false)) with (n', false) by (unfold n'; by destruct (x <? n)%Z).
  destruct (IH n') as (m & E & Hm & Hle & Hall). exists m. split; [done|]. assert (Hn' : (n' = x \/ n' = n) /\ (n' <= x)%Z /\ (n' <= n)%Z) by (unfold n'; destruct (Z.ltb_spec x n); lia).
  split; [|split; [lia|intros k' x' [[= -> ->]|Hin]%elem_of_cons; [lia|by eapply Hall]]]. destruct Hm as [->|[k' Hk']]; [|right; exists k'; by apply list_elem_of_further].
  destruct (proj1 Hn') as [-> | ->]; [right; exists k; apply list_elem_of_here|by left].
Qed.

Lemma updateLimit_ok order b : (0 < mb_base b < 2 ^ 63)%Z -> (forall l n, mb_limits b !! l = Some n -> 0 < n < 2 ^ 63)%Z -> (0 <= mb_Used (mb_status b) < 2 ^ 63)%Z -> (mb_Used (mb_status b) <= mb_Peak (mb_status b))%Z ->
  budget_ok (updateLimit order b) /\ mb_Used (mb_status (updateLimit order b)) = mb_Used (mb_status b).
Proof.
  intros H2 H3 H4 H5. split; [|done]. assert (Hx : limit_exact (updateLimit order b)).
  { unfold limit_exact, updateLimit. cbn [mb_limits mb_status with_status mb_Limit mb_base]. destruct (range order (mb_limits b)) as [|[k x] l] eqn:Er.
    - left. split; [|done]. apply map_empty. intros i. destruct (mb_limits b !! i) as [n|] eqn:Ei; [|done]. apply (elem_of_range order) in Ei. rewrite Er in Ei. by apply not_elem_of_nil in Ei.
    - right. cbn [fold_left fst snd orb]. destruct (smallest_limit l x) as (m & -> & Hm & Hle & Hall). cbn [fst]. split.
      + destruct Hm as [->|[k' Hk']]; [exists k|exists k']; apply (elem_of_range order); rewrite Er; [apply list_elem_of_here|by apply list_elem_of_further].
      + intros i n Hi. apply (elem_of_range order) in Hi. rewrite Er in Hi. apply elem_of_cons in Hi as [[= -> ->]|Hi]; [done|by eapply Hall]. }
  split; [done|]. split; [|split_and!; try done; cbn; lia]. destruct Hx as [[_ ->]|[[l Hl] _]]; [done|by apply (H3 l)].
Qed.

(** ** Handles *)

Lemma handles_nonneg w d : (0 <= handles w d)%Z.
Proof. unfold handles. assert (0 <= msum (held d) (w_views w))%Z by (apply msum_nonneg; intros; apply held_nonneg). assert (0 <= msum (fun r => held d (rd_data r)) (w_readers w))%Z by (apply msum_nonneg; intros; apply held_nonneg). lia. Qed.

Lemma view_handle w v d : w_views w !! v = Some (Some d) -> (1 <= handles w d)%Z.
Proof.
  intros Hv. pose proof (msum_ge (held d) (w_views w) v (Some d) (fun _ o _ => proj1 (held_nonneg d o)) Hv) as H1. rewrite held_eq in H1.
  assert (0 <= msum (fun r => held d (rd_data r)) (w_readers w))%Z by (apply msum_nonneg; intros; apply held_nonneg). unfold handles. lia.
Qed.

Lemma reader_handle w r rd d : w_readers w !! r = Some rd -> rd_data rd = Some d -> (1 <= handles w d)%Z.
Proof.
  intros Hr Hd. pose proof (msum_ge (fun r => held d (rd_data r)) (w_readers w) r rd (fun _ x _ => proj1 (held_nonneg d (rd_data x))) Hr) as H1. cbn in H1. rewrite Hd, held_eq in H1.
  assert (0 <= msum (held d) (w_views w))%Z by (apply msum_nonneg; intros; apply held_nonneg). unfold handles. lia.
Qed.

Lemma handles_fresh w : heap_inv w -> handles w (w_next w) = 0%Z.
Proof.
  intros [_ _ I3 I4 _ _ I7]. assert (Hnn : w_storages w !! w_next w = None) by (by destruct (I7 (w_next w) (le_n _))). unfold handles. rewrite !msum_zero; [done| |].
  - intros r rd Hr. unfold held. rewrite bool_decide_eq_false_2; [done|]. intros E. destruct (I4 r rd _ Hr E) as (? & ? & _). congruence.
  - intros v o Hv. unfold held. rewrite bool_decide_eq_false_2; [done|]. intros ->. destruct (I3 v _ Hv) as [? ?]. congruence.
Qed.

(** Handles are opened and closed, never redirected; the bytes of a storage stay while it
    has a handle, and a storage without handles gets none. *)
Definition preserves (w w' : heap) : Prop :=
  (forall v o, w_views w !! v = Some o -> w_views w' !! v = Some o \/ w_views w' !! v = Some None) /\
  (forall d s, w_storages w !! d = Some s -> exists s', w_storages w' !! d = Some s' /\ (sg_refs s = 0%Z -> sg_refs s' = 0%Z) /\ (sg_bytes s' = sg_bytes s \/ sg_refs s' = 0%Z)).

Lemma preserves_refl w : preserves w w.
Proof. split; [intros v o Hv; by left|]. intros d s Hs. exists s. auto. Qed.

Lemma preserves_trans w1 w2 w3 : preserves w1 w2 -> preserves w2 w3 -> preserves w1 w3.
Proof.
  intros [V1 S1] [V2 S2]. split.
  - intros v o [Hv|Hv]%V1; apply V2 in Hv; tauto.
  - intros d s (s2 & Hs2 & Z2 & B2)%S1. apply S2 in Hs2 as (s3 & Hs3 & Z3 & B3). exists s3. split; [done|]. split; [auto|]. destruct B2 as [B2|B2], B3 as [B3|B3]; auto. left. congruence.
Qed.

(** The rest of the heap: what a handle of [w'] refers to. *)
Record refers (w w' : heap) (d : nat) : Prop := {
  rf_buffers : w_buffers w' = w_buffers w;
  rf_views : forall v d', w_views w' !! v = Some (Some d') -> w_views w !! v = Some (Some d') \/ d' = d;
  rf_readers : forall r rd d', w_readers w' !! r = Some rd -> rd_data rd = Some d' ->
    (exists rd0, w_readers w !! r = Some rd0 /\ rd_data rd0 = Some d' /\ rd_offset rd = rd_offset rd0) \/ (d' = d /\ rd_offset rd = 0);
  rf_kept : forall v o, w_views w !! v = Some o -> w_views w' !! v = Some o \/ w_views w' !! v = Some None;
  rf_fresh : w_next w <= w_next w' /\ forall i, w_next w' <= i -> w_views w' !! i = None /\ w_readers w' !! i = None;
}.

Lemma add_ref_inv w d s : heap_inv w -> w_storages w !! d = Some s -> (1 <= sg_refs s < 2 ^ 31 - 1)%Z ->
  exists w1, add_ref d w = Ok w1 /\ w_budget w1 = w_budget w /\ w_buffers w1 = w_buffers w /\ w_views w1 = w_views w /\ w_readers w1 = w_readers w /\ w_next w1 = w_next w /\
    forall w', w_budget w' = w_budget w1 -> w_storages w' = w_storages w1 -> refers w w' d -> (forall d', handles w' d' = handles w d' + held d' (Some d))%Z -> heap_inv w' /\ preserves w w'.
Proof.
  intros [I1 I2 I3 I4 I5 I6 I7] Hs Hr. unfold add_ref. rewrite Hs. cbn [idx mbind res_bind].  assert (E32 : int32 (sg_refs s + 1) = (sg_refs s + 1)%Z) by (unfold int32; rewrite Z.mod_small; lia). rewrite E32.
  eexists. do 6 (split; [done|]). intros w' Eb Es [R1 R2 R3 R4 [R5 R6]] Hh. cbn in Eb, Es. set (s1 := mkStorage _ _ _) in Es. destruct (I2 d s Hs) as [(S1 & S2 & S3) S4].
  assert (Hlook : forall d', w_storages w' !! d' = if decide (d' = d) then Some s1 else w_storages w !! d') by (intros d'; rewrite Es; destruct (decide (d' = d)) as [->|]; [apply lookup_insert_eq|by apply lookup_insert_ne]).
  split; [split|split; [done|]].
  - by rewrite Eb.
  - intros d' s'. rewrite Hlook, Hh. destruct (decide (d' = d)) as [->|Hne]; [|rewrite held_ne by congruence; intros Hs'; destruct (I2 d' s' Hs') as [? ?]; split; [done|lia]]. intros [= <-]. rewrite held_eq. split; [|cbn; lia]. split; [cbn; lia|]. split; [done|]. cbn. lia.
  - intros v d' Hv. rewrite Hlook. destruct (decide (d' = d)); [done|]. destruct (R2 v d' Hv); [by eapply I3|done].
  - intros r rd d' Hrd Hd'. rewrite Hlook. destruct (R3 r rd d' Hrd Hd') as [(rd0 & A & B & C)|[-> C]].
    + destruct (I4 r rd0 d' A B) as (s0 & Hs0 & Ho). destruct (decide (d' = d)) as [->|]; [|exists s0; split; [done|lia]]. exists s1. split; [done|]. assert (s0 = s) as -> by congruence. cbn. lia.
    + rewrite decide_True by done. exists s1. split; [done|lia].
  - rewrite R1. apply I5.
  - rewrite Eb, R1, Es, I6, msum_insert, Hs. cbn. lia.
  - intros i Hi. destruct (R6 i Hi) as [H1 H2]. destruct (I7 i ltac:(lia)) as (F1 & F2 & F3 & F4). rewrite Hlook, R1. split; [|done]. rewrite decide_False; [done|]. intros ->. congruence.
  - intros d' s' Hs'. rewrite Hlook. destruct (decide (d' = d)) as [->|]; [|exists s'; auto]. exists s1. split; [done|]. assert (s' = s) as -> by congruence. split; [lia|by left].
Qed.

Lemma release_inv w d s : heap_inv w -> w_storages w !! d = Some s -> (1 <= handles w d)%Z ->
  exists w1, release d w = Ok w1 /\ w_views w1 = w_views w /\ w_readers w1 = w_readers w /\ w_next w1 = w_next w /\ w_buffers w1 = w_buffers w /\ charged (w_budget w) (w_budget w1) /\
    forall w', w_budget w' = w_budget w1 -> w_storages w' = w_storages w1 -> refers w w' (w_next w) -> (forall d', handles w' d' = handles w d' - held d' (Some d))%Z -> heap_inv w' /\ preserves w w'.
Proof.
  intros I Hs Hh. pose proof I as [I1 I2 I3 I4 I5 I6 I7]. destruct (I2 d s Hs) as [(S1 & S2 & S3) S4]. assert (E32 : int32 (sg_refs s - 1) = (sg_refs s - 1)%Z) by (unfold int32; rewrite Z.mod_small; lia).
  unfold release. rewrite Hs. cbn [idx mbind res_bind]. cbv zeta. rewrite E32. eexists. split; [done|]. set (freed := (sg_refs s - 1 =? 0)%Z).
  assert (Hm : (0 <= sg_memory s <= mb_Used (mb_status (w_budget w)))%Z).
  { rewrite I6. assert (sg_memory s <= msum sg_memory (w_storages w))%Z by (apply (msum_ge sg_memory _ d); [|done]; intros k x Hx; destruct (I2 k x Hx) as [(_ & Hb & _) _]; lia).
    assert (0 <= msum bf_memory (w_buffers w))%Z by (apply msum_nonneg; intros k x Hx; destruct (I5 k x Hx) as [E Hl]; lia). lia. }
  destruct (give_back_spec (sg_memory s) (w_budget w) I1 Hm) as (G1 & G2 & G3). set (s1 := if freed then mkStorage [] (sg_refs s - 1) 0 else mkStorage (sg_bytes s) (sg_refs s - 1) (sg_memory s)).
  set (b1 := if freed then give_back (sg_memory s) (w_budget w) else w_budget w). assert (Eq : forall (w2 : heap), (if freed then with_budget (with_storages w (<[d := mkStorage [] (sg_refs s - 1) 0]> (w_storages w))) (give_back (sg_memory s) (w_budget w))
    else with_storages w (<[d := mkStorage (sg_bytes s) (sg_refs s - 1) (sg_memory s)]> (w_storages w))) = mkHeap b1 (<[d := s1]> (w_storages w)) (w_views w) (w_readers w) (w_buffers w) (w_next w)) by (intros _; unfold b1, s1; by destruct freed).
  rewrite (Eq w). clear Eq. do 4 (split; [done|]). split; [cbn; unfold b1; destruct freed; [done|split; [done|lia]]|]. intros w' Eb Es [R1 R2 R3 R4 [R5 R6]] Hh'. cbn in Eb, Es.
  assert (Hlook : forall d', w_storages w' !! d' = if decide (d' = d) then Some s1 else w_storages w !! d') by (intros d'; rewrite Es; destruct (decide (d' = d)) as [->|]; [apply lookup_insert_eq|by apply lookup_insert_ne]).
  assert (Hdn : d <> w_next w) by (intros ->; destruct (I7 (w_next w) (le_n _)); congruence).
  assert (Hfreed : freed = true <-> sg_refs s = 1%Z) by (unfold freed; rewrite Z.eqb_eq; lia).
  assert (H1refs : sg_refs s1 = (sg_refs s - 1)%Z) by (unfold s1; by destruct freed). assert (H1bytes : freed = false -> sg_bytes s1 = sg_bytes s) by (unfold s1; by intros ->).
  assert (Hviews : forall v d', w_views w' !! v = Some (Some d') -> w_views w !! v = Some (Some d')).
  { intros v d' Hv. destruct (R2 v d' Hv) as [?| ->]; [done|]. pose proof (view_handle w' v _ Hv) as Hc. rewrite Hh', held_ne in Hc by done. rewrite (handles_fresh w I) in Hc. lia. }
  split; [split|split; [done|]].
  - rewrite Eb. unfold b1. by destruct freed.
  - intros d' s'. rewrite Hlook, Hh'. destruct (decide (d' = d)) as [->|Hne]; [|rewrite held_ne by congruence; intros Hs'; destruct (I2 d' s' Hs') as [? ?]; split; [done|lia]]. intros [= <-]. rewrite held_eq. split; [|lia]. split; [lia|].
    unfold s1. destruct freed eqn:Ef; cbn; [split; [lia|done]|]. split; [done|]. intros E. discriminate (proj2 Hfreed ltac:(lia)).
  - intros v d' Hv%Hviews. rewrite Hlook. destruct (decide (d' = d)); [done|by eapply I3].
  - intros r rd d' Hrd Hd'. pose proof (reader_handle w' r rd d' Hrd Hd') as Hc. rewrite Hh' in Hc. rewrite Hlook. destruct (R3 r rd d' Hrd Hd') as [(rd0 & A & B & C)|[-> C]].
    + destruct (I4 r rd0 d' A B) as (s0 & Hs0 & Ho). destruct (decide (d' = d)) as [->|]; [|exists s0; split; [done|lia]]. rewrite held_eq in Hc. exists s1. split; [done|]. assert (s0 = s) as -> by congruence. rewrite H1bytes; [lia|]. destruct freed eqn:Ef; [|done]. pose proof (proj1 Hfreed eq_refl). lia.
    + exfalso. rewrite held_ne, (handles_fresh w I) in Hc by done. lia.
  - rewrite R1. apply I5.
  - rewrite Eb, R1, Es, msum_insert, Hs. cbn [from_option]. unfold b1, s1. destruct freed; [rewrite G2|]; rewrite I6; cbn [sg_memory id]; lia.
  - intros i Hi. destruct (R6 i Hi) as [H1 H2]. destruct (I7 i ltac:(lia)) as (F1 & F2 & F3 & F4). rewrite Hlook, R1. split; [|done]. rewrite decide_False; [done|]. intros ->. congruence.
  - intros d' s' Hs'. rewrite Hlook. destruct (decide (d' = d)) as [->|]; [|exists s'; auto]. exists s1. split; [done|]. assert (s' = s) as -> by congruence. split; [lia|]. destruct freed eqn:Ef; [right; rewrite H1refs; pose proof (proj1 Hfreed eq_refl); lia|left; by apply H1bytes].
Qed.

(** ** Operations *)

(** A call keeps the invariant and the open handles, and reserves only below the limit. *)
Definition call_ok (w w' : heap) : Prop :=
  heap_inv w' /\ preserves w w' /\
  (mb_Used (mb_status (w_budget w')) <= Z.max (mb_Used (mb_status (w_budget w))) (mb_Limit (mb_status (w_budget w))))%Z.

Lemma preserves_same w w' : w_views w' = w_views w -> w_storages w' = w_storages w -> preserves w w'.
Proof. intros Ev Es. split; [intros v o Hv; left; congruence|]. intros d s Hs. exists s. rewrite Es. auto. Qed.

Lemma budget_update w b n : heap_inv w -> budget_ok b -> mb_Used (mb_status b) = mb_Used (mb_status (w_budget w)) -> w_next w <= n -> call_ok w (with_next (with_budget w b) n).
Proof.
  intros [I1 I2 I3 I4 I5 I6 I7] Hb Hu Hn. split; [|split; [by apply preserves_same|cbn; lia]]. split; [exact Hb|exact I2|exact I3|exact I4|exact I5|cbn; congruence|].
  cbn. intros i Hi. apply I7. lia.
Qed.

Lemma limits_update order w m n : heap_inv w -> (forall l x, m !! l = Some x -> 0 < x < 2 ^ 63)%Z -> w_next w <= n ->
  call_ok w (with_next (with_budget w (updateLimit order (mkBudget (mb_status (w_budget w)) (mb_base (w_budget w)) m))) n).
Proof.
  intros I Hm Hn. destruct (wi_budget _ I) as (_ & H1 & H2 & _ & H4 & H5). destruct (updateLimit_ok order (mkBudget (mb_status (w_budget w)) (mb_base (w_budget w)) m)) as [Hb Hu]; try done.
  by apply budget_update.
Qed.

Lemma buffer_update w i bf' b n : heap_inv w -> buffer_ok bf' -> budget_ok b -> i < n -> w_next w <= n ->
  (mb_Used (mb_status b) = mb_Used (mb_status (w_budget w)) - from_option bf_memory 0 (w_buffers w !! i) + bf_memory bf')%Z ->
  charged (w_budget w) b -> call_ok w (with_next (with_buffer i bf' b w) n).
Proof.
  intros [I1 I2 I3 I4 I5 I6 I7] Hb Hok Hi Hn Hu Hc. split; [|split; [by apply preserves_same|apply Hc]]. split; [exact Hok|exact I2|exact I3|exact I4| | |]; cbn.
  - intros j x. destruct (decide (j = i)) as [->|]; [rewrite lookup_insert_eq; by intros [= <-]|rewrite lookup_insert_ne by done; apply I5].
  - rewrite Hu, I6, msum_insert. lia.
  - intros j Hj. destruct (I7 j ltac:(lia)) as (F1 & F2 & F3 & F4). split; [done|]. split; [done|]. split; [done|]. rewrite lookup_insert_ne; [done|lia].
Qed.

Lemma memory_used w i bf : heap_inv w -> w_buffers w !! i = Some bf -> (0 <= bf_memory bf <= mb_Used (mb_status (w_budget w)))%Z.
Proof.
  intros [I1 I2 I3 I4 I5 I6 I7] Hi. assert (Hn : forall k x, w_buffers w !! k = Some x -> (0 <= bf_memory x)%Z) by (intros k x Hx; destruct (I5 k x Hx) as [E Hl]; lia). split; [by eapply Hn|]. rewrite I6.
  assert (bf_memory bf <= msum bf_memory (w_buffers w))%Z by by apply (msum_ge bf_memory _ i). assert (0 <= msum sg_memory (w_storages w))%Z by (apply msum_nonneg; intros k x Hx; destruct (I2 k x Hx) as [(_ & Hb & _) _]; lia). lia.
Qed.

Lemma known_buffer w i bf : heap_inv w -> w_buffers w !! i = Some bf -> i < w_next w.
Proof. intros I Hi. destruct (decide (i < w_next w)); [done|]. destruct (wi_fresh _ I i ltac:(lia)) as (_ & _ & _ & ?). congruence. Qed.

(** A new storage with its first view. *)
Lemma newView_inv w b data memory : heap_inv w -> budget_ok b -> (mb_Used (mb_status b) = mb_Used (mb_status (w_budget w)) + memory)%Z -> (Z.of_nat (length data) <= memory)%Z ->
  let '(w', v) := newView data memory (with_budget w b) in heap_inv w' /\ preserves w w' /\ w_budget w' = b /\ View_Bytes v w' = Ok data.
Proof.
  intros I Hb Hu Hl. pose proof I as [I1 I2 I3 I4 I5 I6 I7]. unfold newView. cbn [w_next with_budget]. set (d := w_next w). destruct (I7 d (le_n _)) as (F1 & F2 & F3 & F4). destruct (I7 (S d) ltac:(unfold d; lia)) as (F1' & F2' & F3' & F4').
  assert (Hh : forall d', handles (with_next (with_views (with_storages (with_budget w b) (<[d := mkStorage data 1 memory]> (w_storages w))) (<[S d := Some d]> (w_views w))) (S (S d))) d' = (handles w d' + held d' (Some d))%Z).
  { intros d'. unfold handles. cbn. rewrite msum_insert, F2'. cbn. lia. }
  split; [split; cbn [w_budget w_storages w_views w_readers w_buffers w_next with_budget with_storages with_views with_next]|split; [split|split; [done|]]].
  - done.
  - intros d' s. rewrite Hh. destruct (decide (d' = d)) as [->|Hne].
    + rewrite lookup_insert_eq. intros [= <-]. rewrite held_eq. unfold d. rewrite handles_fresh by done. split; [|done]. split; cbn; [lia|]. split; [done|lia].
    + rewrite lookup_insert_ne, held_ne by congruence. intros Hs. destruct (I2 d' s Hs). split; [done|lia].
  - intros v d'. destruct (decide (v = S d)) as [->|]; [rewrite lookup_insert_eq; intros [= <-]; rewrite lookup_insert_eq; by eexists|]. rewrite lookup_insert_ne by done. intros Hv. destruct (decide (d' = d)) as [->|]; [rewrite lookup_insert_eq; by eexists|]. rewrite lookup_insert_ne by done. by eapply I3.
  - intros r rd d' Hr Hd. destruct (I4 r rd d' Hr Hd) as (s & Hs & Ho). exists s. split; [|done]. rewrite lookup_insert_ne; [done|]. intros <-. congruence.
  - done.
  - rewrite Hu, I6, msum_insert, F1. cbn. lia.
  - intros i Hi. destruct (I7 i ltac:(unfold d in Hi; lia)) as (A & B & C & D). rewrite !lookup_insert_ne by lia. done.
  - intros v o Hv. left. cbn. rewrite lookup_insert_ne; [done|]. intros <-. congruence.
  - intros d' s Hs. exists s. cbn. rewrite lookup_insert_ne; [auto|]. intros <-. congruence.
  - unfold View_Bytes, view_data. cbn. rewrite !lookup_insert_eq. cbn. by rewrite lookup_insert_eq.
Qed.

Lemma Copy_ok data w : heap_inv w -> call_ok w (Copy data w).1 /\ forall v, (Copy data w).2 = Some v -> View_Bytes v (Copy data w).1 = Ok data.
Proof.
  intros I. unfold Copy. pose proof (Reserve_spec (Z.of_nat (length data)) (w_budget w) (wi_budget _ I)) as HR. destruct (Reserve _ _) as [b [m|]].
  - destruct HR as (-> & _ & Hb & Hu & Hc). pose proof (newView_inv w b data (Z.of_nat (length data)) I Hb Hu (Z.le_refl _)) as Hv. destruct (newView _ _ _) as [w' v]. destruct Hv as (H1 & H2 & H3 & H4). split; [split; [done|split; [done|cbn; rewrite H3; apply Hc]]|]. by intros ? [= <-].
  - destruct HR as (Hb & Hu & _). split; [|done]. exact (budget_update w b (w_next w) I Hb Hu (le_n _)).
Qed.

Lemma grow_spec n bf b : budget_ok b -> buffer_ok bf -> (0 <= bf_memory bf <= mb_Used (mb_status b))%Z ->
  let '(b', bf', err) := grow n bf b in
  budget_ok b' /\ buffer_ok bf' /\ bf_data bf' = bf_data bf /\ bf_Limit bf' = bf_Limit bf /\ bf_Budget bf' = bf_Budget bf /\
  (mb_Used (mb_status b') = mb_Used (mb_status b) - bf_memory bf + bf_memory bf')%Z /\ charged b b' /\ (bf_cap bf' <= Z.max (bf_cap bf) (bf_Limit bf))%Z /\
  (err = None -> Z.of_nat (length (bf_data bf)) + n <= bf_cap bf' /\ 0 <= n)%Z /\
  (forall e, err = Some e -> 0 <= n -> 0 < bf_Limit bf < 2 ^ 63 -> Z.of_nat (length (bf_data bf)) + n <= bf_Limit bf -> bf_Budget bf = true -> e = "buffer memory budget exhausted")%Z.
Proof.
  intros Hb [Hc Hl] Hm. unfold grow. cbv zeta. destruct (_ || _ || _ || _) eqn:Eg.
  { split_and!; try done; try (split; [done|lia]); lia. }
  apply orb_false_iff in Eg as [[[E1%Z.leb_gt E2%Z.ltb_ge]%orb_false_iff E3%Z.ltb_ge]%orb_false_iff E4%Z.ltb_ge].
  destruct (bf_Budget bf) eqn:Ebud; cbn [negb]; [|split_and!; try done; try (split; [done|lia]); lia]. destruct (Z.leb_spec (Z.of_nat (length (bf_data bf)) + n) (bf_cap bf)) as [Hn|Hn]; [split_and!; try done; try (split; [done|lia]); lia|].
  set (size := Z.min _ _). pose proof (Reserve_spec size b Hb) as HR. destruct (Reserve size b) as [b1 [m|]].
  - destruct HR as (-> & Hs & Hb1 & Hu1 & Hc1). destruct (give_back_spec (bf_memory bf) b1 Hb1 ltac:(lia)) as (Hb2 & Hu2 & Hc2). split; [done|]. split; [split; [done|cbn; unfold size; lia]|]. do 3 (split; [done|]). split; [cbn; lia|]. split; [by eapply charged_trans|]. split; [cbn; unfold size; lia|]. split; [|done]. cbn. unfold size. lia.
  - destruct HR as (Hb1 & Hu1 & Hc1). split_and!; try done; [lia|lia|]. by intros e [= <-].
Qed.

Lemma Write_ok i p w bf : heap_inv w -> w_buffers w !! i = Some bf -> exists w' err, Write i p w = Ok (w', err) /\ call_ok w w'.
Proof.
  intros I Hi. pose proof (memory_used w i bf I Hi) as Hm. pose proof (known_buffer w i bf I Hi) as Hk. unfold Write. rewrite Hi. cbn [idx mbind res_bind].
  pose proof (grow_spec (Z.of_nat (length p)) bf (w_budget w) (wi_budget _ I) (wi_buffers _ I i bf Hi) Hm) as Hg. destruct (grow _ _ _) as [[b bf'] [err|]]; destruct Hg as (G1 & G2 & G3 & G4 & G5 & G6 & G7 & _ & G8 & _).
  - eexists _, _. split; [done|]. apply (buffer_update w i bf' b (w_next w)); try done. rewrite Hi. done.
  - eexists _, _. split; [done|]. apply (buffer_update w i (mkBuffer _ _ _ _ _) b (w_next w)); try done; [|rewrite Hi; done]. destruct G2 as [E2 H2]. split; [done|]. cbn. rewrite length_app, G3. specialize (G8 eq_refl). lia.
Qed.

Lemma Buffer_Close_ok i w bf : heap_inv w -> w_buffers w !! i = Some bf -> exists w', Buffer_Close i w = Ok w' /\ call_ok w w'.
Proof.
  intros I Hi. pose proof (memory_used w i bf I Hi) as Hm. pose proof (known_buffer w i bf I Hi) as Hk. unfold Buffer_Close. rewrite Hi. cbn [idx mbind res_bind]. eexists. split; [done|].
  destruct (give_back_spec (bf_memory bf) (w_budget w) (wi_budget _ I) Hm) as (G1 & G2 & G3). apply (buffer_update w i (mkBuffer _ _ _ _ _) (give_back (bf_memory bf) (w_budget w)) (w_next w)); try done. rewrite Hi, G2. cbn. lia.
Qed.

Lemma Buffer_View_ok i w bf : heap_inv w -> w_buffers w !! i = Some bf -> exists w' v, Buffer_View i w = Ok (w', v) /\ call_ok w w' /\ View_Bytes v w' = Ok (bf_data bf).
Proof.
  intros I Hi. destruct (Buffer_Close_ok i w bf I Hi) as (w1 & Hc & I1 & K1 & _). unfold Buffer_Close, Buffer_View in *. rewrite Hi in *. cbn [idx mbind res_bind] in *. injection Hc as <-.
  destruct (give_back_spec (bf_memory bf) (w_budget w) (wi_budget _ I) (memory_used w i bf I Hi)) as (_ & G2 & _). destruct (wi_buffers _ I i bf Hi) as [E Hl].
  pose proof (newView_inv _ (w_budget w) (bf_data bf) (bf_memory bf) I1 (wi_budget _ I)) as Hv. cbn [w_budget with_buffer with_buffers with_budget] in Hv. specialize (Hv ltac:(lia) ltac:(lia)).
  destruct (newView _ _ _) as [w' v] eqn:En in Hv. exists w', v. destruct Hv as (V1 & V2 & V3 & V4). split; [exact (f_equal Ok En)|]. split; [|done]. split; [done|]. split; [exact (preserves_trans _ _ _ K1 V2)|]. rewrite V3. lia.
Qed.

Lemma NewBuffer_ok budget limit w : heap_inv w -> call_ok w (NewBuffer budget limit w).1.
Proof.
  intros I. destruct (wi_fresh _ I (w_next w) (le_n _)) as (_ & _ & _ & F). destruct w as [b m1 m2 m3 m4 n]. cbn in F. apply (buffer_update (mkHeap b m1 m2 m3 m4 n) n (mkBuffer budget limit [] 0 0) b (S n)); try done; cbn; try lia.
  - apply I.
  - rewrite F. cbn. lia.
  - split; [done|lia].
Qed.

(** ** Views and readers *)

(** A new view of a storage that is open. *)
Lemma new_view_ok w d s : heap_inv w -> w_storages w !! d = Some s -> (1 <= sg_refs s < 2 ^ 31 - 1)%Z -> exists w', (w1 ← add_ref d w; Ok (new_view d w1)) = Ok (w', w_next w) /\ call_ok w w' /\ View_Bytes (w_next w) w' = Ok (sg_bytes s).
Proof.
  intros I Hs Hr. destruct (add_ref_inv w d s I Hs Hr) as (w1 & E & B1 & B2 & B3 & B4 & B5 & Hk). rewrite E. cbn [mbind res_bind]. unfold new_view. rewrite B5, B3. eexists. split; [done|].
  destruct (wi_fresh _ I (w_next w) (le_n _)) as (F1 & F2 & F3 & F4). assert (Hb : View_Bytes (w_next w) (with_next (with_views w1 (<[w_next w := Some d]> (w_views w))) (S (w_next w))) = Ok (sg_bytes s)).
  { unfold View_Bytes, view_data. cbn. rewrite lookup_insert_eq. cbn. unfold add_ref in E. rewrite Hs in E. cbn in E. injection E as <-. cbn. by rewrite lookup_insert_eq. }
  split; [|done]. match goal with |- call_ok _ ?w' => destruct (Hk w') as [H1 H2] end; [done|done| | |split; [done|split; [done|cbn; rewrite B1; lia]]].
  - split; cbn; [done| | | |].
    + intros v d'. destruct (decide (v = w_next w)) as [->|]; [rewrite lookup_insert_eq; intros [= <-]; by right|rewrite lookup_insert_ne by done; by left].
    + intros r rd d' Hrd Hd. rewrite B4 in Hrd. left. by exists rd.
    + intros v o Hv. left. rewrite lookup_insert_ne; [done|congruence].
    + split; [lia|]. intros i Hi. rewrite lookup_insert_ne, B4 by lia. destruct (wi_fresh _ I i ltac:(lia)) as (? & ? & ? & ?). done.
  - intros d'. unfold handles. cbn. rewrite msum_insert, F2, B4. cbn. lia.
Qed.

Lemma Open_ok v w d s : heap_inv w -> w_views w !! v = Some (Some d) -> w_storages w !! d = Some s -> (sg_refs s < 2 ^ 31 - 1)%Z ->
  exists w', Open v w = Ok (w', w_next w) /\ call_ok w w' /\ w_readers w' = <[w_next w := mkReader (Some d) 0 false]> (w_readers w).
Proof.
  intros I Hv Hs Hr. pose proof (view_handle w v d Hv) as Hh. destruct (wi_storages _ I d s Hs) as [_ Er]. destruct (add_ref_inv w d s I Hs ltac:(lia)) as (w1 & E & B1 & B2 & B3 & B4 & B5 & Hk).
  unfold Open, view_data. rewrite Hv. cbn [idx mbind res_bind]. rewrite E. cbn [mbind res_bind]. rewrite B5, B4. eexists. split; [done|]. split; [|done]. destruct (wi_fresh _ I (w_next w) (le_n _)) as (F1 & F2 & F3 & F4).
  match goal with |- call_ok _ ?w' => destruct (Hk w') as [H1 H2] end; [done|done| | |split; [done|split; [done|cbn; rewrite B1; lia]]].
  - split; cbn; [done| | | |].
    + intros v' d'. rewrite B3. by left.
    + intros r rd d'. destruct (decide (r = w_next w)) as [->|]; [rewrite lookup_insert_eq; intros [= <-] [= <-]; by right|rewrite lookup_insert_ne by done; intros Hrd Hd; left; by exists rd].
    + intros v' o Hv'. left. by rewrite B3.
    + split; [lia|]. intros i Hi. rewrite lookup_insert_ne, B3 by lia. destruct (wi_fresh _ I i ltac:(lia)) as (? & ? & ? & ?). done.
  - intros d'. unfold handles. cbn. rewrite msum_insert, F3, B3. cbn. lia.
Qed.

Lemma View_Close_ok v w : heap_inv w -> exists w', View_Close v w = Ok w' /\ call_ok w w'.
Proof.
  intros I. unfold View_Close. destruct (w_views w !! v) as [[d|]|] eqn:Hv; [|exists w; split; [done|split; [done|split; [apply preserves_refl|lia]]]..].
  destruct (wi_views _ I v d Hv) as [s Hs]. destruct (release_inv w d s I Hs (view_handle w v d Hv)) as (w1 & E & B1 & B2 & B3 & B4 & B5 & Hk). rewrite E. cbn [mbind res_bind]. rewrite B1. eexists. split; [done|].
  match goal with |- call_ok _ ?w' => destruct (Hk w') as [H1 H2] end; [done|done| | |split; [done|split; [done|apply B5]]].
  - split; cbn; [done| | | |].
    + intros v' d'. destruct (decide (v' = v)) as [->|]; [by rewrite lookup_insert_eq|rewrite lookup_insert_ne by done; by left].
    + intros r rd d' Hrd Hd. rewrite B2 in Hrd. left. by exists rd.
    + intros v' o Hv'. destruct (decide (v' = v)) as [->|]; [right; by rewrite lookup_insert_eq|left; by rewrite lookup_insert_ne].
    + rewrite B3. split; [lia|]. intros i Hi. destruct (wi_fresh _ I i Hi) as (? & ? & ? & ?). rewrite B2, lookup_insert_ne; [done|congruence].
  - intros d'. unfold handles. cbn. rewrite msum_insert, Hv, B2, held_None. cbn [from_option]. unfold id. lia.
Qed.

(** A reader that lets go of its storage. *)
Lemma reader_release w r rd d offset closed : heap_inv w -> w_readers w !! r = Some rd -> rd_data rd = Some d ->
  exists w1, release d w = Ok w1 /\ call_ok w (with_readers w1 (<[r := mkReader None offset closed]> (w_readers w1))) /\ w_readers w1 = w_readers w.
Proof.
  intros I Hr Hd. destruct (wi_readers _ I r rd d Hr Hd) as (s & Hs & _). destruct (release_inv w d s I Hs (reader_handle w r rd d Hr Hd)) as (w1 & E & B1 & B2 & B3 & B4 & B5 & Hk). exists w1. split; [done|]. split; [|done]. rewrite B2.
  match goal with |- call_ok _ ?w' => destruct (Hk w') as [H1 H2] end; [done|done| | |split; [done|split; [done|apply B5]]].
  - split; cbn; [done| | | |].
    + intros v' d'. rewrite B1. by left.
    + intros r' rd' d'. destruct (decide (r' = r)) as [->|]; [rewrite lookup_insert_eq; by intros [= <-]|rewrite lookup_insert_ne by done; intros Hrd Hd'; left; by exists rd'].
    + intros v' o Hv'. left. by rewrite B1.
    + rewrite B3. split; [lia|]. intros i Hi. destruct (wi_fresh _ I i Hi) as (? & ? & ? & ?). rewrite B1, lookup_insert_ne; [done|congruence].
  - intros d'. unfold handles. cbn. rewrite msum_insert, Hr, B1. cbn [from_option rd_data]. rewrite Hd, held_None. unfold id. lia.
Qed.

(** A reader that keeps what it holds. *)
Lemma reader_update w r rd rd' : heap_inv w -> w_readers w !! r = Some rd -> rd_data rd' = rd_data rd ->
  (forall d s, rd_data rd = Some d -> w_storages w !! d = Some s -> rd_offset rd' <= length (sg_bytes s)) -> call_ok w (with_readers w (<[r := rd']> (w_readers w))).
Proof.
  intros [I1 I2 I3 I4 I5 I6 I7] Hr Hd Ho. split; [|split; [by apply preserves_same|cbn; lia]]. split; cbn; [done| |done| |done|done|].
  - intros d s Hs. replace (handles _ d) with (handles w d); [by apply I2|]. unfold handles. cbn. rewrite msum_insert, Hr. cbn. rewrite Hd. lia.
  - intros r' x d. destruct (decide (r' = r)) as [->|]; [|rewrite lookup_insert_ne by done; apply I4]. rewrite lookup_insert_eq. intros [= <-] Hx. destruct (I4 r rd d Hr ltac:(congruence)) as (s & Hs & _). exists s. split; [done|]. by apply (Ho d); [congruence|].
  - intros i Hi. destruct (I7 i Hi) as (? & ? & ? & ?). rewrite lookup_insert_ne; [done|congruence].
Qed.

(** The bytes from the cursor on, and the end with the last of them. *)
Lemma Reader_Read_ok r n w rd : heap_inv w -> w_readers w !! r = Some rd ->
  exists w' p e rd', Reader_Read r n w = Ok (w', p, e) /\ call_ok w w' /\ w_readers w' = <[r := rd']> (w_readers w) /\
  match rd_closed rd, rd_data rd with
  | false, Some d => exists s, w_storages w !! d = Some s /\ rd_offset rd <= length (sg_bytes s) /\ p = take n (drop (rd_offset rd) (sg_bytes s)) /\ rd_offset rd' = rd_offset rd + length p /\ rd_closed rd' = false /\
      if rd_offset rd' <? length (sg_bytes s) then rd_data rd' = Some d /\ e = ReadMore else rd_data rd' = None /\ e = ReadEOF
  | closed, _ => rd' = rd /\ p = [] /\ e = if closed then ReadClosed else ReadEOF
  end.
Proof.
  intros I Hr. unfold Reader_Read. rewrite Hr. cbn [idx mbind res_bind]. assert (Hsame : call_ok w w) by (split; [done|split; [apply preserves_refl|lia]]).
  destruct (rd_closed rd) eqn:Ec; [exists w, [], ReadClosed, rd; by rewrite insert_id|]. destruct (rd_data rd) as [d|] eqn:Ed; [|exists w, [], ReadEOF, rd; by rewrite insert_id].
  destruct (wi_readers _ I r rd d Hr Ed) as (s & Hs & Ho). rewrite Hs. cbn [idx mbind res_bind]. destruct (Nat.ltb_spec (length (sg_bytes s)) (rd_offset rd)); [lia|]. cbv zeta. set (p := take n _). destruct (_ + _ <? _) eqn:El.
  - eexists _, p, ReadMore, (mkReader (Some d) (rd_offset rd + length p) false). split; [done|]. split; [|split; [done|]].
    + apply (reader_update w r rd); [done|done|by rewrite Ed|]. intros d' s' Hd' Hs'. assert (s' = s) as -> by congruence. apply Nat.ltb_lt in El. cbn. lia.
    + exists s. cbn. by rewrite El.
  - destruct (reader_release w r rd d (rd_offset rd + length p) false I Hr Ed) as (w1 & E & Hok & Erd). rewrite E. cbn [mbind res_bind].
    eexists _, p, ReadEOF, (mkReader None (rd_offset rd + length p) false). split; [done|]. split; [done|]. split; [cbn; by rewrite Erd|]. exists s. cbn. by rewrite El.
Qed.

Lemma Reader_Close_ok r w rd : heap_inv w -> w_readers w !! r = Some rd -> exists w', Reader_Close r w = Ok w' /\ call_ok w w' /\ w_readers w' = <[r := mkReader None (rd_offset rd) true]> (w_readers w).
Proof.
  intros I Hr. unfold Reader_Close. rewrite Hr. cbn [idx mbind res_bind]. destruct (rd_data rd) as [d|] eqn:Ed.
  - destruct (reader_release w r rd d (rd_offset rd) true I Hr Ed) as (w1 & E & Hok & Erd). rewrite E. cbn [mbind res_bind]. eexists. split; [done|]. split; [done|]. cbn. by rewrite Erd.
  - cbn [mbind res_bind]. eexists. split; [done|]. split; [|done]. apply (reader_update w r rd); [done|done|done|congruence].
Qed.

Lemma has_room_storage d w : has_room d w = true -> exists s, w_storages w !! d = Some s /\ (sg_refs s < 2 ^ 31 - 1)%Z.
Proof. unfold has_room. destruct (w_storages w !! d) as [s|]; [|done]. intros ?%Z.ltb_lt. by exists s. Qed.

Lemma Clone_ok v w d : heap_inv w -> w_views w !! v = Some (Some d) -> has_room d w = true -> exists w', Clone v w = Ok (w', w_next w) /\ call_ok w w' /\ View_Bytes (w_next w) w' = View_Bytes v w.
Proof.
  intros I Hv (s & Hs & Hr)%has_room_storage. pose proof (view_handle w v d Hv) as Hh. destruct (wi_storages _ I d s Hs) as [_ Er]. destruct (new_view_ok w d s I Hs ltac:(lia)) as (w' & E & Hok & Hb). exists w'.
  unfold Clone, View_Bytes at 2, view_data. rewrite Hv. cbn [idx mbind res_bind]. rewrite Hs. done.
Qed.

Lemma Snapshot_ok r w rd : heap_inv w -> w_readers w !! r = Some rd -> (forall d, rd_data rd = Some d -> has_room d w = true) -> exists w' o, Reader_Snapshot r w = Ok (w', o) /\ call_ok w w' /\ w_readers w' = w_readers w.
Proof.
  intros I Hr Ho. unfold Reader_Snapshot. rewrite Hr. cbn [idx mbind res_bind]. assert (Hsame : call_ok w w) by (split; [done|split; [apply preserves_refl|lia]]). destruct (rd_data rd) as [d|] eqn:Ed; [|by exists w, None].
  destruct (_ || _); [by exists w, None|]. destruct (has_room_storage d w (Ho d eq_refl)) as (s & Hs & Hrf). pose proof (reader_handle w r rd d Hr Ed) as Hh. destruct (wi_storages _ I d s Hs) as [_ Er].
  destruct (new_view_ok w d s I Hs ltac:(lia)) as (w' & E & Hok & _). unfold add_ref in *. rewrite Hs in *. cbn [idx mbind res_bind] in *. injection E as <-. eexists _, _. done.
Qed.

(** ** Reading a source *)

(** How [Read] ended after [k] calls of the source's [Read]. *)
Definition read_outcome (limit : Z) (reads : list source_read) (k : nat) (data : bytes) (err : option string) : Prop :=
  match err with
  | None => (exists r, last (take k reads) = Some r /\ sr_err r = Some SourceEOF) /\ (Z.of_nat (length data) <= limit)%Z
  | Some e => (exists r, last (take k reads) = Some r /\ (sr_err r = Some (SourceError e) \/ (e = "buffer exceeds size limit" /\ (limit < Z.of_nat (length data))%Z))) \/ e = "buffer memory budget exhausted"
  end.

Lemma last_further {A} (x y : A) l : last l = Some y -> last (x :: l) = Some y.
Proof. intros Hl. by rewrite last_cons, Hl. Qed.

Lemma read_outcome_further limit r reads k data err : read_outcome limit reads k data err -> read_outcome limit (r :: reads) (S k) data err.
Proof.
  unfold read_outcome. destruct err as [e|]; cbn [take].
  - intros [(x & Hx & Hc)|He]; [left|by right]. exists x. split; [by apply last_further|done].
  - intros [(x & Hx & Hc) Hl]. split; [|done]. exists x. split; [by apply last_further|done].
Qed.

(** What [Read] needs of its buffer. *)
Record reading (limit : Z) (bf : Buffer) (b : Budget) : Prop := {
  rg_budget : budget_ok b;
  rg_buffer : buffer_ok bf;
  rg_memory : (0 <= bf_memory bf <= mb_Used (mb_status b))%Z;
  rg_Limit : bf_Limit bf = (limit + 1)%Z;
  rg_Budget : bf_Budget bf = true;
  rg_cap : (bf_cap bf <= limit + 1)%Z;
}.

Lemma reading_grow limit bf b : (0 < limit < 2 ^ 63 - 1)%Z -> reading limit bf b -> (Z.of_nat (length (bf_data bf)) <= limit)%Z ->
  let '(b', bf', err) := if (Z.of_nat (length (bf_data bf)) =? bf_cap bf)%Z then grow 1 bf b else (b, bf, None) in
  reading limit bf' b' /\ bf_data bf' = bf_data bf /\ charged b b' /\ (mb_Used (mb_status b') = mb_Used (mb_status b) - bf_memory bf + bf_memory bf')%Z /\ forall e, err = Some e -> e = "buffer memory budget exhausted".
Proof.
  intros Hlim [R1 R2 R3 R4 R5 R6] Hlen. destruct (_ =? _)%Z; [|split_and!; try done; [split; [done|lia]|lia]].
  pose proof (grow_spec 1 bf b R1 R2 R3) as Hg. destruct (grow 1 bf b) as [[b' bf'] err]. destruct Hg as (G1 & G2 & G3 & G4 & G5 & G6 & G7 & G8 & G9 & G10). split; [split; try done; try congruence; [|lia]|].
  - split; [|lia]. destruct G2 as [E2 H2]. lia.
  - do 3 (split; [done|]). intros e He. apply (G10 e He); [lia|lia|lia|done].
Qed.

Lemma read_loop_spec limit reads : (0 < limit < 2 ^ 63 - 1)%Z -> forall bf b b' bf' done, reading limit bf b -> (Z.of_nat (length (bf_data bf)) <= limit)%Z -> read_loop limit reads bf b = Ok (b', bf', done) ->
  reading limit bf' b' /\ charged b b' /\ (mb_Used (mb_status b') = mb_Used (mb_status b) - bf_memory bf + bf_memory bf')%Z /\
  forall err, done = Some err -> exists k, bf_data bf' = bf_data bf ++ concat (map sr_bytes (take k reads)) /\ read_outcome limit reads k (bf_data bf') err.
Proof.
  intros Hlim. induction reads as [|r reads IH]; intros bf b b' bf' fin HR Hlen; cbn [read_loop]; pose proof (reading_grow limit bf b Hlim HR Hlen) as Hg; destruct (if (_ =? _)%Z then _ else _) as [[b1 bf1] err]; destruct Hg as (R1 & D1 & C1 & U1 & E1).
  - destruct err as [e|]; intros [= <- <- <-]; split_and!; try done. intros err [= <-]. exists 0. cbn. rewrite app_nil_r. split; [done|]. right. by apply E1.
  - destruct err as [e|]; [intros [= <- <- <-]; split_and!; try done; intros err [= <-]; exists 0; cbn; rewrite app_nil_r; split; [done|]; right; by apply E1|]. clear E1.
    destruct (Z.ltb_spec (bf_cap bf1) (Z.of_nat (length (bf_data bf1)) + Z.of_nat (length (sr_bytes r)))) as [|Hfit]; [done|]. cbv zeta. set (bf2 := mkBuffer _ _ (_ ++ _) _ _).
    assert (R2 : reading limit bf2 b1) by (destruct R1 as [? [] ? ? ? ?]; split; try done; split; [done|cbn; rewrite length_app; lia]). assert (D2 : bf_data bf2 = bf_data bf ++ concat (map sr_bytes (take 1 (r :: reads)))) by (cbn; by rewrite app_nil_r, D1).
    assert (U2 : (mb_Used (mb_status b1) = mb_Used (mb_status b) - bf_memory bf + bf_memory bf2)%Z) by done.
    destruct (sr_err r) as [[|e]|] eqn:Er; cbn [bf_data].
    + destruct (Z.ltb_spec limit (Z.of_nat (length (bf_data bf2)))) as [Hover|Hin].
      * intros [= <- <- <-]. split_and!; try done. intros err [= <-]. exists 1. split; [done|]. left. exists r. split; [done|]. by right.
      * destruct (Nat.eqb_spec (length (bf_data bf2)) 0) as [Hz|Hz]; intros [= <- <- <-].
        -- destruct R2 as [Q1 [Q2 Q3] Q4 Q5 Q6 Q7]. change (bf_memory bf2) with (bf_memory bf1) in *. destruct (give_back_spec (bf_memory bf1) b1 Q1 Q4) as (G1 & G2 & G3). split; [split; try done; cbn [bf_memory bf_cap]; lia|]. split; [by eapply charged_trans|]. split; [cbn [bf_memory]; lia|].
           intros err [= <-]. exists 1. apply nil_length_inv in Hz. split; [rewrite <-D2; done|]. split; [by exists r|]. cbn. lia.
        -- split_and!; try done. intros err [= <-]. exists 1. split; [done|]. split; [by exists r|done].
    + intros [= <- <- <-]. split_and!; try done. intros err [= <-]. exists 1. split; [done|]. left. exists r. split; [done|]. by left.
    + destruct (Z.ltb_spec limit (Z.of_nat (length (bf_data bf2)))) as [Hover|Hin].
      * intros [= <- <- <-]. split_and!; try done. intros err [= <-]. exists 1. split; [done|]. left. exists r. split; [done|]. by right.
      * intros Hl. destruct (IH bf2 b1 b' bf' fin R2 Hin Hl) as (A1 & A2 & A3 & A4). split; [done|]. split; [by eapply charged_trans|]. split; [lia|]. intros err Herr. destruct (A4 err Herr) as (k & Hk & Ho). exists (S k). split; [|by apply read_outcome_further].
        rewrite Hk, D2. cbn. by rewrite app_nil_r, app_assoc.
Qed.

(** The view has every byte the source delivered, also on an error. *)
Lemma Read_source_ok budget limit reads w w' o err : heap_inv w -> Read_source budget limit reads w = Ok (w', Some (o, err)) ->
  call_ok w w' /\
  (budget = true -> (0 < limit < 2 ^ 63 - 1)%Z -> exists v k, o = Some v /\ let data := concat (map sr_bytes (take k reads)) in
    View_Bytes v w' = Ok data /\ (Z.of_nat (length data) <= limit + 1)%Z /\ read_outcome limit reads k data err).
Proof.
  intros I. assert (Hsame : call_ok w w) by (split; [done|split; [apply preserves_refl|lia]]). unfold Read_source. destruct (_ || _) eqn:Eg; [intros [= <- <- <-]; split; [done|lia]|].
  destruct budget; cbn [negb]; [|by intros [= <- <- <-]]. apply orb_false_iff in Eg as [E1%Z.leb_gt E2%Z.leb_gt]. destruct (read_loop _ _ _ _) as [[[b bf] fin]| |] eqn:Hl; [|done..]. cbn [mbind res_bind]. destruct (wi_budget _ I) as (_ & _ & _ & _ & B & _).
  destruct (read_loop_spec limit reads ltac:(lia) (mkBuffer true (limit + 1) [] 0 0) (w_budget w) b bf fin) as ([R1 [R2 R2'] R3 R4 R5 R6] & C & U & F); [split; try done; [apply I|cbn; lia|cbn; lia]|cbn; lia|done|]. cbn [bf_memory] in U.
  destruct fin as [err'|]; [|done]. destruct (F err' eq_refl) as (k & Hd & Ho). cbn [bf_data app] in Hd. pose proof (newView_inv w b (bf_data bf) (bf_memory bf) I R1 ltac:(lia) ltac:(lia)) as Hv. destruct (newView _ _ _) as [w1 v]. destruct Hv as (V1 & V2 & V3 & V4).
  intros [= <- <- <-]. split; [split; [done|split; [done|rewrite V3; apply C]]|]. intros _ _. exists v, k. rewrite <-Hd. split; [done|]. split; [done|]. split; [lia|done].
Qed.

(** ** Clients *)

Lemma call_returns o w : heap_inv w -> allowed o w = true -> exists w' p, call o w = Ok (w', p) /\ call_ok w w'.
Proof.
  intros I. destruct o as [order limit|order l|data|v|v|v|r|r n|r|budget limit|i p|i|i|budget limit reads]; cbn [allowed call]; intros Hu.
  - apply andb_true_iff in Hu as [U1%Z.ltb_lt U2%Z.ltb_lt]. unfold UseLimit. destruct (Z.leb_spec limit 0); [lia|]. cbn [mbind res_bind]. eexists _, _. split; [done|]. apply limits_update; [done| |lia].
    intros l x. destruct (decide (l = w_next w)) as [->|]; [rewrite lookup_insert_eq; intros [= <-]; lia|rewrite lookup_insert_ne by done; apply (wi_budget _ I)].
  - eexists _, _. split; [done|]. apply (limits_update order w _ (w_next w)); [done| |done]. intros l' x [_ Hx]%lookup_delete_Some. by eapply (wi_budget _ I).
  - eexists _, _. split; [done|]. by apply Copy_ok.
  - destruct (w_views w !! v) as [[d|]|] eqn:Hv; [|done..]. destruct (Clone_ok v w d I Hv Hu) as (w' & -> & Hok & _). by eexists _, _.
  - destruct (View_Close_ok v w I) as (w' & -> & Hok). by eexists _, _.
  - destruct (w_views w !! v) as [[d|]|] eqn:Hv; [|done..]. destruct (has_room_storage d w Hu) as (s & Hs & Hr). destruct (Open_ok v w d s I Hv Hs Hr) as (w' & -> & Hok & _). by eexists _, _.
  - destruct (w_readers w !! r) as [rd|] eqn:Hr; [|done]. destruct (Snapshot_ok r w rd I Hr) as (w' & x & -> & Hok & _); [intros d E; by rewrite E in Hu|]. by eexists _, _.
  - destruct (w_readers w !! r) as [rd|] eqn:Hr; [|done]. destruct (Reader_Read_ok r n w rd I Hr) as (w' & p & e & rd' & -> & Hok & _). by eexists _, _.
  - destruct (w_readers w !! r) as [rd|] eqn:Hr; [|done]. destruct (Reader_Close_ok r w rd I Hr) as (w' & -> & Hok & _). by eexists _, _.
  - eexists _, _. split; [done|]. by apply NewBuffer_ok.
  - destruct (w_buffers w !! i) as [bf|] eqn:Hi; [|done]. destruct (Write_ok i p w bf I Hi) as (w' & err & -> & Hok). by eexists _, _.
  - destruct (w_buffers w !! i) as [bf|] eqn:Hi; [|done]. destruct (Buffer_View_ok i w bf I Hi) as (w' & v & -> & Hok & _). by eexists _, _.
  - destruct (w_buffers w !! i) as [bf|] eqn:Hi; [|done]. destruct (Buffer_Close_ok i w bf I Hi) as (w' & -> & Hok). by eexists _, _.
  - destruct (Read_source budget limit reads w) as [[w' [[x err]|]]| |] eqn:E; [|done..]. destruct (Read_source_ok budget limit reads w w' x err I E) as [Hok _]. by eexists _, _.
Qed.

Lemma call_step o w w' p : heap_inv w -> allowed o w = true -> call o w = Ok (w', p) -> call_ok w w'.
Proof. intros I Hu E. destruct (call_returns o w I Hu) as (w1 & p1 & E1 & Hok). congruence. Qed.

Lemma runs_inv w tr w' : runs w tr w' -> heap_inv w -> heap_inv w' /\ preserves w w'.
Proof.
  induction 1 as [w|w o w1 p tr w2 Hu E _ IH]; intros I; [split; [done|apply preserves_refl]|]. destruct (call_step o w w1 p I Hu E) as (I1 & K1 & _). destruct (IH I1) as [I2 K2]. split; [done|by eapply preserves_trans].
Qed.

Lemma first_heap_inv limit b : NewBudget limit = Ok b -> (limit < 2 ^ 63)%Z -> heap_inv (first_heap b).
Proof.
  unfold NewBudget. destruct (Z.leb_spec limit 0); [done|]. intros [= <-] Hl. split; cbn; try done.
  split; [left; done|]. split_and!; cbn; try lia. done.
Qed.

(** Reading does not disturb the other readers, nor does anything else. *)
Lemma other_readers o w w' p r rd : heap_inv w -> allowed o w = true -> call o w = Ok (w', p) -> w_readers w !! r = Some rd -> (forall n, o <> OpRead r n) -> o <> OpCloseReader r -> w_readers w' !! r = Some rd.
Proof.
  intros I Hu E Hr Hn Hc. destruct o as [order limit|order l|data|v|v|v|r'|r' n|r'|budget limit|i q|i|i|budget limit reads]; cbn [allowed call] in *.
  all: try (unfold UseLimit, Copy, newView, Clone, View_Close, view_data, add_ref, release, new_view, Write, Buffer_View, Buffer_Close, Read_source, Reader_Snapshot, idx in E; repeat (case_match; cbn [mbind res_bind fst snd] in *; try discriminate); simplify_eq; done).
  - destruct (w_views w !! v) as [[d|]|] eqn:Hv; [|done..]. destruct (has_room_storage d w Hu) as (s & Hs & Hrf). destruct (Open_ok v w d s I Hv Hs Hrf) as (w1 & E1 & _ & Er). rewrite E1 in E. injection E as <- <-. rewrite Er, lookup_insert_ne; [done|]. intros <-. destruct (wi_fresh _ I (w_next w) (le_n _)) as (_ & _ & ? & _). congruence.
  - destruct (w_readers w !! r') as [rd0|] eqn:Hr0; [|done]. destruct (Snapshot_ok r' w rd0 I Hr0) as (w1 & x & E1 & _ & Er); [intros d Ed; by rewrite Ed in Hu|]. rewrite E1 in E. injection E as <- <-. by rewrite Er.
  - destruct (w_readers w !! r') as [rd0|] eqn:Hr0; [|done]. destruct (Reader_Read_ok r' n w rd0 I Hr0) as (w1 & q & e & rd' & E1 & _ & Er & _). rewrite E1 in E. injection E as <- <-. rewrite Er, lookup_insert_ne; [done|]. intros ->. by apply (Hn n).
  - destruct (w_readers w !! r') as [rd0|] eqn:Hr0; [|done]. destruct (Reader_Close_ok r' w rd0 I Hr0) as (w1 & E1 & _ & Er). rewrite E1 in E. injection E as <- <-. rewrite Er, lookup_insert_ne; [done|]. by intros ->.
  - unfold Buffer_View in E. destruct (w_buffers w !! i); [|done]. by injection E as <- <-.
  - unfold Read_source in E. destruct (_ || _); [by injection E as <- <-|]. destruct budget; cbn [negb] in E; [|by injection E as <- <-]. destruct (read_loop _ _ _ _) as [[[b bf] fin]| |]; [|done..]. cbn [mbind res_bind] in E. by destruct fin; injection E as <- <-.
Qed.

(** ** Theorems *)

Lemma msum_le {A} (f g : A -> Z) (m : gmap nat A) : (forall k x, m !! k = Some x -> (f x <= g x)%Z) -> (msum f m <= msum g m)%Z.
Proof.
  induction m as [|k x m Hk IH] using map_ind; intros Hf; [by rewrite !msum_empty|]. rewrite !msum_new by done. pose proof (Hf k x (lookup_insert_eq _ _ _)). assert (msum f m <= msum g m)%Z; [|lia].
  apply IH. intros k' x' Hx. apply (Hf k'). rewrite lookup_insert_ne; [done|congruence].
Qed.

Lemma no_handles w d : (forall v d, w_views w !! v <> Some (Some d)) -> (forall r rd, w_readers w !! r = Some rd -> rd_data rd = None) -> handles w d = 0%Z.
Proof.
  intros Hv Hr. unfold handles. rewrite !msum_zero; [done| |].
  - intros r rd E. by rewrite (Hr r rd E).
  - intros v [d'|] E; [by destruct (Hv v d')|done].
Qed.

(** C19: whatever calls clients of a budget make, [Used] is the sum of the reservations of the
    live storages and of the buffers.  The bytes that views, readers and buffers hold never exceed it,
    and it is zero again when all of them are closed.  The limit that applies is the smallest
    one registered, or the base.  No call on an open handle panics, and none takes [Used]
    above the limit unless it was above already; of reading a source to its end
    this is said when the source ends and no read returns more bytes than it was offered. *)
Theorem memory_accounted limit b tr w : NewBudget limit = Ok b -> (limit < 2 ^ 63)%Z -> runs (first_heap b) tr w ->
  let used := mb_Used (mb_status (w_budget w)) in
  used = (msum sg_memory (w_storages w) + msum bf_memory (w_buffers w))%Z /\
  (msum (fun s => Z.of_nat (length (sg_bytes s))) (w_storages w) + msum (fun bf => Z.of_nat (length (bf_data bf))) (w_buffers w) <= used)%Z /\
  ((forall v d, w_views w !! v <> Some (Some d)) -> (forall r rd, w_readers w !! r = Some rd -> rd_data rd = None) -> (forall i bf, w_buffers w !! i = Some bf -> bf_cap bf = 0%Z) -> used = 0%Z) /\
  limit_exact (w_budget w) /\
  forall o, allowed o w = true -> exists w' p, call o w = Ok (w', p) /\ (mb_Used (mb_status (w_budget w')) <= Z.max used (mb_Limit (mb_status (w_budget w))))%Z.
Proof.
  intros Hb Hl Hr used. destruct (runs_inv _ _ _ Hr (first_heap_inv limit b Hb Hl)) as [I _]. pose proof (wi_used _ I) as Hu. split; [done|]. split; [|split; [|split; [apply I|]]].
  - unfold used. rewrite Hu. apply Z.add_le_mono; apply msum_le; [intros d s Hs; apply (wi_storages _ I d s Hs)|intros i bf Hi; destruct (wi_buffers _ I i bf Hi); lia].
  - intros Hv Hrd Hbf. unfold used. rewrite Hu, !msum_zero; [done| |].
    + intros i bf Hi. destruct (wi_buffers _ I i bf Hi). rewrite <-(Hbf i bf Hi). done.
    + intros d s Hs. destruct (wi_storages _ I d s Hs) as [(_ & _ & Hz) E]. apply Hz. by rewrite E, no_handles.
  - intros o Ho. destruct (call_returns o w I Ho) as (w' & p & E & _ & _ & Hle). by exists w', p.
Qed.

Lemma View_Bytes_inv v w data : View_Bytes v w = Ok data -> exists d s, w_views w !! v = Some (Some d) /\ w_storages w !! d = Some s /\ sg_bytes s = data.
Proof.
  unfold View_Bytes, view_data. destruct (w_views w !! v) as [[d|]|]; [|done..]. cbn. destruct (w_storages w !! d) as [s|] eqn:Hs; [|done]. intros [= <-]. by exists d, s.
Qed.

Lemma preserves_bytes w w' d s : heap_inv w' -> preserves w w' -> w_storages w !! d = Some s -> (1 <= handles w' d)%Z -> exists s', w_storages w' !! d = Some s' /\ sg_bytes s' = sg_bytes s.
Proof. intros I [_ K] Hs Hh. destruct (K d s Hs) as (s' & Hs' & _ & [E|E]); [by exists s'|]. destruct (wi_storages _ I d s' Hs'). lia. Qed.

(** The bytes of a view do not change until it is closed. *)
Theorem views_immutable limit b tr0 w v data tr w' : NewBudget limit = Ok b -> (limit < 2 ^ 63)%Z -> runs (first_heap b) tr0 w -> View_Bytes v w = Ok data -> runs w tr w' ->
  w_views w' !! v = Some None \/ View_Bytes v w' = Ok data.
Proof.
  intros Hb Hl Hr (d & s & Hv & Hs & Hd)%View_Bytes_inv Hr'. destruct (runs_inv _ _ _ Hr (first_heap_inv limit b Hb Hl)) as [I _]. destruct (runs_inv _ _ _ Hr' I) as [I' K]. destruct (proj1 K v _ Hv) as [Hv'|Hv']; [right|by left].
  destruct (preserves_bytes w w' d s I' K Hs (view_handle _ _ _ Hv')) as (s' & Hs' & E). unfold View_Bytes, view_data. rewrite Hv'. cbn. rewrite Hs'. cbn. congruence.
Qed.

(** The cursor of reader [r] over [data]: it delivered what lies before it, and holds the
    storage until the end. *)
Definition cursor (r d : nat) (data log : bytes) (w : heap) : Prop :=
  exists rd, w_readers w !! r = Some rd /\ log = take (rd_offset rd) data /\ rd_offset rd <= length data /\
  (rd_closed rd = false -> (rd_data rd = Some d /\ exists s, w_storages w !! d = Some s /\ sg_bytes s = data) \/ (rd_data rd = None /\ rd_offset rd = length data)).

Lemma op_on_reader o r : (exists n, o = OpRead r n) \/ o = OpCloseReader r \/ ((forall p, replayed r [(o, p)] = []) /\ (forall n, o <> OpRead r n) /\ o <> OpCloseReader r).
Proof.
  destruct o as [| | | | | | |r' n|r'| | | | |]; try by right; right.
  - destruct (Nat.eqb_spec r' r) as [->|Hne]; [left; by exists n|]. right; right. unfold replayed. cbn. apply Nat.eqb_neq in Hne as E. rewrite E. split_and!; try done. intros m [= ? ?]. congruence.
  - destruct (decide (r' = r)) as [->|]; [by right; left|]. right; right. split_and!; try done. congruence.
Qed.

Lemma take_further {A} k n (l : list A) : take k l ++ take n (drop k l) = take (k + length (take n (drop k l))) l.
Proof.
  rewrite take_take_drop, length_take, length_drop. destruct (decide (n <= length l - k)); [by rewrite Nat.min_l|]. rewrite !take_ge by lia. done.
Qed.

(** The next bytes, from the cursor on. *)
Lemma cursor_read r d data log w n : heap_inv w -> cursor r d data log w -> exists rd w' p e, w_readers w !! r = Some rd /\ Reader_Read r n w = Ok (w', p, e) /\ call_ok w w' /\ cursor r d data (log ++ p) w' /\
  (rd_closed rd = false -> p = take n (drop (rd_offset rd) data) /\ (e = ReadEOF <-> rd_offset rd + length p = length data)).
Proof.
  intros I (rd & Hr & Hlog & Ho & Hc). destruct (Reader_Read_ok r n w rd I Hr) as (w' & p & e & rd' & E & Hok & Er & Hm). exists rd, w', p, e. split; [done|]. split; [done|]. split; [done|]. assert (Hr' : w_readers w' !! r = Some rd') by (rewrite Er; apply lookup_insert_eq).
  destruct (rd_closed rd) eqn:Ec; [destruct Hm as (-> & -> & ->); split; [|done]; exists rd; rewrite app_nil_r; split_and!; try done; by rewrite Ec|].
  destruct (Hc eq_refl) as [(Ed & s & Hs & Hb)|[Ed Eo]]; rewrite Ed in Hm.
  - destruct Hm as (s' & Hs' & _ & Hp & Ho' & Hc' & Hend). assert (s' = s) as -> by congruence. rewrite Hb in *. assert (Hlen : length p <= length data - rd_offset rd) by (rewrite Hp, length_take, length_drop; lia).
    split; [|intros _; split; [done|]; rewrite <-Ho'; destruct (Nat.ltb_spec (rd_offset rd') (length data)); destruct Hend as [_ ->]; split; (lia || done)].
    exists rd'. split; [done|]. split; [|split; [lia|]].
    + rewrite Ho', Hlog, Hp. by apply take_further.
    + intros _. destruct (Nat.ltb_spec (rd_offset rd') (length data)); destruct Hend as [Hd _]; [left|right; split; [done|lia]]. split; [done|]. destruct Hok as (I' & K & _). destruct (preserves_bytes w w' d s I' K Hs (reader_handle _ _ _ _ Hr' Hd)) as (s1 & ? & ?). exists s1. split; [done|congruence].
  - destruct Hm as (-> & -> & ->). split; [|intros _; rewrite Eo, drop_all, take_nil; split; [done|cbn; split; [lia|done]]]. exists rd. rewrite app_nil_r. split_and!; try done. intros _. by right.
Qed.

Lemma cursor_step r d data log o p w w' : heap_inv w -> allowed o w = true -> call o w = Ok (w', p) -> cursor r d data log w -> cursor r d data (log ++ replayed r [(o, p)]) w'.
Proof.
  intros I Hu E C. destruct (call_step o w w' p I Hu E) as (I' & K & _). destruct (op_on_reader o r) as [[n ->]|[->|(Hd & Hn & Hc)]].
  - destruct (cursor_read r d data log w n I C) as (rd & w1 & q & e & _ & E1 & _ & C' & _). cbn [call] in E. rewrite E1 in E. injection E as <- <-. unfold replayed. cbn. by rewrite Nat.eqb_refl, app_nil_r.
  - destruct C as (rd & Hr & Hlog & Ho & _). destruct (Reader_Close_ok r w rd I Hr) as (w1 & E1 & _ & Er). cbn [call] in E. rewrite E1 in E. injection E as <- <-. unfold replayed. cbn. rewrite app_nil_r. eexists. rewrite Er, lookup_insert_eq. split; [done|]. done.
  - rewrite Hd, app_nil_r. destruct C as (rd & Hr & Hlog & Ho & Hcl). pose proof (other_readers o w w' p r rd I Hu E Hr Hn Hc) as Hr'. exists rd. split_and!; try done. intros Hx. destruct (Hcl Hx) as [(Ed & s & Hs & Hb)|?]; [left|by right].
    split; [done|]. destruct (preserves_bytes w w' d s I' K Hs (reader_handle _ _ _ _ Hr' Ed)) as (s1 & ? & ?). exists s1. split; [done|congruence].
Qed.

Lemma replayed_cons r e tr : replayed r (e :: tr) = replayed r [e] ++ replayed r tr.
Proof. unfold replayed. cbn. by rewrite app_nil_r. Qed.

Lemma cursor_runs r d data w tr w' : runs w tr w' -> forall log, heap_inv w -> cursor r d data log w -> cursor r d data (log ++ replayed r tr) w'.
Proof.
  induction 1 as [w|w o w1 p tr w2 Hu E _ IH]; intros log I C; [unfold replayed; cbn; by rewrite app_nil_r|]. rewrite replayed_cons, app_assoc. apply IH; [apply (call_step o w w1 p I Hu E)|by eapply cursor_step].
Qed.

(** C20: a reader opened on a view delivers the bytes of that view in order and exactly once,
    whatever happens meanwhile to the view, to its clones and to the other readers: what it
    delivered is what lies before its cursor, its next call delivers the bytes that follow,
    and reports the end with the last of them.  A closed reader delivers nothing. *)
Theorem reader_replays limit b tr0 w v data w1 r tr w2 : NewBudget limit = Ok b -> (limit < 2 ^ 63)%Z -> runs (first_heap b) tr0 w ->
  View_Bytes v w = Ok data -> allowed (OpOpen v) w = true -> Open v w = Ok (w1, r) -> runs w1 tr w2 ->
  exists rd, w_readers w2 !! r = Some rd /\ replayed r tr = take (rd_offset rd) data /\ forall n, exists w3 p e, Reader_Read r n w2 = Ok (w3, p, e) /\
    if rd_closed rd then p = [] /\ e = ReadClosed else p = take n (drop (rd_offset rd) data) /\ (e = ReadEOF <-> rd_offset rd + length p = length data).
Proof.
  intros Hb Hl Hr (d & s & Hv & Hs & Hd)%View_Bytes_inv Hu Ho Hr'. destruct (runs_inv _ _ _ Hr (first_heap_inv limit b Hb Hl)) as [I _]. cbn [allowed] in Hu. rewrite Hv in Hu. destruct (has_room_storage d w Hu) as (s' & Hs' & Hrf). assert (s' = s) as -> by congruence.
  destruct (Open_ok v w d s I Hv Hs Hrf) as (w1' & E & (I1 & K & _) & Er). rewrite E in Ho. injection Ho as -> <-. assert (Hr1 : w_readers w1 !! w_next w = Some (mkReader (Some d) 0 false)) by (rewrite Er; apply lookup_insert_eq).
  assert (C : cursor (w_next w) d data [] w1).
  { eexists. split; [done|]. cbn. split; [done|]. split; [lia|]. intros _. left. split; [done|]. destruct (preserves_bytes w w1 d s I1 K Hs (reader_handle _ _ _ _ Hr1 eq_refl)) as (s1 & ? & ?). exists s1. split; [done|congruence]. }
  apply (cursor_runs _ _ _ _ _ _ Hr' [] I1) in C. cbn [app] in C. destruct (runs_inv _ _ _ Hr' I1) as [I2 _]. pose proof C as (rd & Hrd & Hlog & _). exists rd. split; [done|]. split; [done|]. intros n.
  destruct (cursor_read _ d data _ w2 n I2 C) as (rd0 & w3 & p & e & Hrd0 & E3 & _ & _ & Hp). assert (rd0 = rd) as -> by congruence. exists w3, p, e. split; [done|]. destruct (rd_closed rd) eqn:Ec; [|by apply Hp].
  unfold Reader_Read in E3. rewrite Hrd in E3. cbn in E3. rewrite Ec in E3. by injection E3 as <- <- <-.
Qed.

(** [Read] of a source returns a view of every byte the source delivered, also on an error:
    at most one byte more than the limit, which is the error; no error means that the source
    ended within the limit. *)
Theorem Read_exact limit0 b tr w limit reads w' o err : NewBudget limit0 = Ok b -> (limit0 < 2 ^ 63)%Z -> runs (first_heap b) tr w -> (0 < limit < 2 ^ 63 - 1)%Z -> Read_source true limit reads w = Ok (w', Some (o, err)) ->
  exists v k, o = Some v /\ let data := concat (map sr_bytes (take k reads)) in View_Bytes v w' = Ok data /\ (Z.of_nat (length data) <= limit + 1)%Z /\ read_outcome limit reads k data err.
Proof.
  intros Hb Hl Hr Hlim E. destruct (runs_inv _ _ _ Hr (first_heap_inv limit0 b Hb Hl)) as [I _]. by apply (Read_source_ok true limit reads w w' o err I E).
Qed.

(** ** Examples *)

Lemma run_calls_runs os w w' tr : run_calls os w = Some (w', tr) -> runs w tr w'.
Proof.
  revert w w' tr. induction os as [|o os IH]; intros w w' tr; cbn [run_calls]; [intros [= <- <-]; constructor|]. destruct (allowed o w) eqn:Hu; [|done]. destruct (call o w) as [[w1 p]| |] eqn:E; [|done..].
  destruct (run_calls os w1) as [[w2 tr2]|] eqn:Er; [|done]. intros [= <- <-]. by apply (runs_cons w o w1 p tr2 w2 Hu E), IH.
Qed.

Definition example_budget : Budget := mkBudget (mkStatus 2048 0 0 0) 2048 ∅.

(** A body is read from a source in two pieces, shared by two readers and closed. *)
Definition example_calls : list op :=
  [OpUseLimit in_order 1024; OpReadSource true 100 [mkSourceRead [1; 2]%Z None; mkSourceRead [3]%Z (Some SourceEOF)]; OpOpen 2; OpClone 2; OpRead 3 2; OpCloseView 2; OpCloseView 4; OpBuffer true 600; OpWrite 5 [7; 8]%Z].

Definition check_calls (f : heap -> list (op * bytes) -> bool) (w : heap) (os : list op) : bool :=
  match run_calls os w with Some (w, tr) => f w tr | None => false end.

Lemma check_calls_inv f w os : check_calls f w os = true -> exists w' tr, run_calls os w = Some (w', tr) /\ f w' tr = true.
Proof. unfold check_calls. destruct (run_calls os w) as [[w' tr]|]; [|done]. by exists w', tr. Qed.

Lemma memory_accounted_witness : exists w tr, runs (first_heap example_budget) tr w /\ mb_Used (mb_status (w_budget w)) = 613%Z /\ (613 = msum sg_memory (w_storages w) + msum bf_memory (w_buffers w))%Z.
Proof.
  destruct (check_calls_inv (fun w _ => mb_Used (mb_status (w_budget w)) =? 613)%Z (first_heap example_budget) example_calls ltac:(vm_compute; reflexivity)) as (w & tr & E & Hu%Z.eqb_eq). exists w, tr. apply run_calls_runs in E. split; [done|]. split; [done|].
  rewrite <-Hu at 1. apply (memory_accounted 2048 example_budget tr w); [reflexivity|lia|done].
Defined.

(** The first calls, up to the view. *)
Definition example_prefix : list op := take 2 example_calls.

Definition holds_123 (w : heap) : bool := match View_Bytes 2 w with Ok [1; 2; 3]%Z => allowed (OpOpen 2) w | _ => false end.

Definition reader_at_2 (w : heap) : bool :=
  match Open 2 w with
  | Ok (w1, r) => (r =? 3) && check_calls (fun w2 _ => match w_readers w2 !! 3 with Some rd => rd_offset rd =? 2 | None => false end) w1 [OpRead 3 2; OpCloseView 2; OpRead 3 0]
  | _ => false
  end.

Lemma holds_123_inv w : holds_123 w = true -> View_Bytes 2 w = Ok [1; 2; 3]%Z /\ allowed (OpOpen 2) w = true.
Proof. unfold holds_123. repeat case_match; try done. Qed.

Lemma reader_at_2_inv w : reader_at_2 w = true -> exists w1 w2 tr, Open 2 w = Ok (w1, 3) /\ runs w1 tr w2 /\ forall rd, w_readers w2 !! 3 = Some rd -> rd_offset rd = 2.
Proof.
  unfold reader_at_2. destruct (Open 2 w) as [[w1 r]| |]; [|done..]. intros [->%Nat.eqb_eq (w2 & tr & E%run_calls_runs & Hf)%check_calls_inv]%andb_true_iff. exists w1, w2, tr. split; [done|]. split; [done|]. intros rd Hr. rewrite Hr in Hf. by apply Nat.eqb_eq in Hf.
Qed.

Lemma reader_replays_witness : exists w1 w2 tr, runs w1 tr w2 /\ replayed 3 tr = [1; 2]%Z.
Proof.
  destruct (check_calls_inv (fun w _ => holds_123 w && reader_at_2 w) (first_heap example_budget) example_prefix ltac:(vm_compute; reflexivity)) as (w & tr0 & E%run_calls_runs & [[H1 H2]%holds_123_inv (w1 & w2 & tr & Ho & Hr & Hat)%reader_at_2_inv]%andb_true_iff).
  exists w1, w2, tr. split; [done|]. destruct (reader_replays 2048 example_budget tr0 w 2 [1; 2; 3]%Z w1 3 tr w2) as (rd & Hrd & -> & _); try done. by rewrite (Hat rd Hrd).
Defined.
